(* ===== verification/_CoqProject ===== *)
-Q . S2P
Prelude.v
GoStrings.v
GoErrors.v
GoTime.v
GoFloat.v
GoSort.v
GoSql.v
GoRuntime.v
GoJson.v
GoCrypto.v
Protocol.v
Classifier.v
Executor.v
PolicyTemplates.v
ApprovalQueue.v
CapacityPolicy.v
ApprovalService.v
ApprovalContract.v
AsyncTypes.v
AsyncStore.v
AsyncLifecycle.v
AsyncManager.v
CmdTracker.v
CommandDispatch.v
AsyncApproval.v
TokenBroker.v
Runner.v
RunnerSafety.v
AuditLog.v
JobRetry.v
JobStore.v
JobLifecycle.v
JobScheduler.v
SchedulerSafety.v
SchedulerTrace.v
Auth.v
RunnerHandlers.v
Sandbox.v
SandboxHub.v
SandboxHandlers.v
SandboxSafety.v
SandboxIsolation.v
SandboxReplay.v
AuthStores.v
AuthMiddleware.v
AuthLifecycle.v
FleetManager.v
FleetStore.v
FleetRestart.v
FleetInventory.v
RegTokens.v
Registration.v
FleetExamples.v
CommandHandler.v
CommandGate.v
CommandExamples.v
PackTypes.v
PackDryRun.v
PackRuntime.v
PackStore.v
PackSafety.v
PackValidation.v
PackGuarantees.v
PackExamples.v
CommandStream.v
StreamSafety.v
StreamGuarantees.v
StreamExamples.v
AlertStore.v
AlertRouting.v
AlertEngine.v
AlertHandlers.v
AlertSafety.v
RoutingSafety.v
AlertPass.v
AlertGuarantees.v
AlertExamples.v
JobHandlers.v
JobApiSafety.v
JobApiGuarantees.v
