(* ===== verification/Prelude.v ===== *)
(** * Verification of the Legator control plane

    Legator is a control plane for a fleet of probes.  A command that reaches the
    control plane is classified, evaluated against the policy of its probe, and
    then denied, dispatched, or queued until people approve it; it runs as an
    async job, and the probe that receives it checks it again before it starts a
    process.  Around this path stand the parts that decide who may ask for what:
    authentication and workspaces, registration of probes, tokens for runners, an
    audit log, a scheduler of recurring jobs, and sandboxes.  This library models
    these parts and proves what makes each of them trustworthy.

    ** Parts, files and sources (under src/internal/)

    What the code uses of Go and of its libraries:
    - Prelude, GoStrings, GoErrors, GoTime, GoFloat, GoSort, GoJson, GoCrypto: byte
      strings, error trees with [errors.Is] and [errors.As], instants with their
      RFC 3339 text, binary64 arithmetic, the insertion sort of the listings, JSON
      documents with their canonical text, SHA-256 and HMAC; the scope [go_scope],
      the tactics [case_str], [go_cases], [bools], the hint database [legator], and
      [trace], histories of observed steps.
    - GoSql: a component over a database is a computation of the monad [M S], whose
      faults, clock, UUIDs and row order come from the class [Host]; [reads],
      [writes], [runs] and [keeps] say what a computation does to the state.
    - GoRuntime: the order of map iteration and of unstable sorts (class
      [Runtime]), and [zoom], which runs a component inside a larger state.

    The command path:
    - Protocol: protocol/messages.go.
    - Classifier, Executor: probe/executor/classifier.go, executor.go, stream.go,
      adapter.go.  A process is the argument [os]; the result lists the processes
      that were started.
    - PolicyTemplates: controlplane/policy/.
    - ApprovalQueue: controlplane/approval/queue.go.  One lock region is one
      operation; [queue_step] interleaves them.  [ballot] is the abstract
      specification that [Decide] refines.
    - CapacityPolicy: core/approvalpolicy/capacity_policy.go, in the stages of
      [evaluateCommandPolicy].
    - ApprovalService: core/approvalpolicy/service.go, against the type classes
      [approvalQueue], [fleetStore], [policyStore]; a request is a shared object that
      others may change between a decision and its being read back.
    - ApprovalContract: the transport side of decisions (core/approvalpolicy
      adapters, core/transportwriter, core/projectiondispatch).
    - AsyncTypes, AsyncStore, AsyncLifecycle, AsyncManager: jobs/async_types.go,
      async_store.go, async_manager.go, async_scheduler.go.
    - CmdTracker: cmdtracker/tracker.go, over a heap of Go channels where a send
      can block and a close can panic; [Complete] is two steps.
    - CommandDispatch: core/commanddispatch/, on top of CmdTracker, with arbitrary
      interference of other goroutines while a dispatch sends and waits.
    - AsyncApproval: server/async_jobs_approval.go, the handlers that drive the
      approval queue and the job table together.
    - CommandHandler, CommandGate, CommandExamples: the command endpoint of
      server/routes.go and server/async_jobs.go, which ties policy, approvals, jobs
      and dispatch together; [pl_Others] is what the rest of the server does to the
      stores before each of its calls.

    Who may do what:
    - Auth, AuthStores, AuthMiddleware, AuthLifecycle: auth/, users/, session/ and
      server/workspace_isolation.go: permissions, keys, roles, users, sessions, the
      middleware with [guarded], the whole path of a request to a handler.
    - TokenBroker: tokenbroker/.  Runner, RunnerSafety, RunnerHandlers:
      runner/manager.go and server/runner_handlers.go; the class [tokenBroker] is
      what the runners need of the broker, and its laws hold for TokenBroker.
    - AuditLog: audit/, the hash chain with its verification.

    Recurring jobs:
    - JobRetry, JobStore, JobLifecycle: jobs/retry.go, types.go, store.go.
    - JobScheduler, SchedulerSafety, SchedulerTrace: jobs/scheduler.go, handlers as
      programs over calls, timers and goroutines as interleaved steps.
    - JobHandlers, JobApiSafety, JobApiGuarantees: jobs/handlers.go
      and its routes, programs that run beside the scheduler and each other.

    Sandboxes:
    - Sandbox, SandboxHub, SandboxHandlers: sandbox/, the tables, the fan-out of
      output over channels, the endpoints.  SandboxSafety, SandboxIsolation,
      SandboxReplay: what they guarantee over all requests.

    The fleet:
    - FleetManager, FleetInventory: fleet/manager.go, health.go, remote_probe.go,
      inventory.go.  FleetStore: fleet/store.go; [effect] and [meets] are the
      contract of the interface fleet/fleet.go.  FleetRestart: agreement of memory
      and table, and the lookups.
    - RegTokens, Registration: api/token_store.go, api/register.go, the key check of
      server/probe_mtls.go and handleRotateKey of server/routes.go, against the
      class [probeFleet] that store and manager discharge.  FleetExamples: concrete
      histories.

    Automation packs (automationpacks/):
    - PackTypes: types.go and validation.go.  PackDryRun: dryrun.go.  PackRuntime:
      execution.go, over a monad [X] that logs the questions to the policy and the
      calls of the action runner.  PackStore: store.go, handlers.go, the runtime, and
      the simulator that server/server.go installs.
    - PackValidation: [well_formed], what validation accepts.  PackSafety: [saga], the
      abstract specification of an execution, with triples over a [View] of its state.
      PackGuarantees, PackExamples: what callers can rely on, and concrete packs.

    The command stream:
    - CommandStream: cmdtracker/stream_recorder.go, the table, the positions in memory
      and the subscribers with their channels; the stream and replay endpoints of
      server/routes.go.  StreamSafety: what an append does ([appends]) and histories of
      operations.  StreamGuarantees, StreamExamples: the theorems and concrete streams.

    Alerts (alerts/):
    - AlertStore: types.go, store.go, channels.go.  AlertEngine: engine.go and the
      deliveries.  AlertHandlers: handlers.go, channel_handlers.go.  AlertRouting:
      routing.go, routing_store.go, routing_handlers.go.
    - AlertSafety: [alert_step], the steps of an alert, which every operation performs
      whatever the database does.  AlertPass: [verdict_of], the specification of a pass.
      AlertGuarantees, RoutingSafety, AlertExamples: the theorems and concrete alerts.

    Definitions keep the names of the Go functions; record fields carry a short
    prefix where two structs share a field name.

    ** What is proved

    - The probe (C1): a process starts only if the declared
      and the classified level, the blocklist and the allowlist admit it; streaming
      applies the same gate ([stream_same_gate]).
    - Approvals (C2, C27, C17,
      C40): an approved request has its quorum of distinct
      approvers under every interleaving, decisions are final, [Decide] refines a
      ballot, waiting returns.
    - The service and its transport (C3,
      C8, C39): nothing is dispatched
      without the quorum, nor more often than it takes approvers (two voters can both
      dispatch, [two_voters_dispatch_twice]), and an approved job has its approval.
    - The command endpoint (C4, C16): the calls of a
      request start at most one command, its own, and only with the permission, an
      allow of the policy and the breakglass confirmation where one is due, whatever
      the others do to the stores meanwhile (a pass of the worker can still start the
      queued job of a denied command, [denied_command_overtaken]); undisturbed, a
      command that needs an approval leaves a pending request and a job that waits
      for it.
    - Policy ([allow_guarantees]): what an allow means.
    - Async jobs (C23, [drain_respects_limits]): the lifecycle under
      any calls and database faults, the limits of the worker.
    - Requests (C6, C28, [ended_session_refused]): a
      handler is reached only with a live credential that grants its permission,
      revoked keys and ended sessions stay refused; workspaces are enforced
      ([isolation_enforced]) and issued keys serve ([issued_key_served]).
    - Tokens and runners (C9, C13,
      C14): a token is accepted once, one lifecycle operation of a
      runner per token, and what a lifecycle request does on every path.
    - Audit (C12, C29): a chain that verifies was
      recorded, up to a collision of the hash; a chain that was recorded verifies.
    - Recurring jobs (C7, [scheduler_releases_all], C24,
      C38, [job_api_isolation]): attempts exclude each other per
      target, no target stays claimed, runs move forward only and can always finish;
      a request to the job endpoints that is limited to a workspace neither shows nor
      changes a job, run or async job of another one.
    - Sandboxes (C15, [sandbox_lifecycle], C25,
      [replay_complete], [artifact_roundtrip], [hub_delivery_safe]): no request reads or
      changes a sandbox of another workspace, sessions follow their state machine,
      the tables stay well formed, a replay has every event, an artifact comes back as
      it was uploaded, output reaches the right subscribers and no send panics.
    - The fleet (C19, C20,
      [inventory_spec], C10, C11,
      C22): memory keeps its contract whatever the database does, a
      restart restores it, lookups and totals do not depend on map order, a token
      registers one probe, a registered probe connects with its key and no other, a
      rotation is all or nothing.

    - Automation packs (C5, C18,
      C21, C26, [created_definition_served]): no
      mutating step runs before policy and approvals cleared it, an execution is a
      saga that undoes its finished steps in reverse order, a dry run that predicts
      allow is not contradicted, validation accepts exactly the well-formed
      definitions, and a created definition is the one served.
    - The command stream (C30, C31,
      C32, C33): output is recorded once and in the
      order of its chunks however they arrive, a reader gets every event after its
      page, the table stays within its bounds, a resume token names its position.
    - Alerts (C34, C35, C36,
      C37): a pass refines its specification key by key, an alert is
      announced as fired and resolved in turn under any faults, a restart finds the
      alerts that were firing, the policy that owns an alert follows the documented
      precedence.

    Other theorems are shown for each component and support these; the theorems
    that show a defect are named in the comments where they stand, for instance
    [expired_approval_runs_job], [late_cancel_overlaps], [revocation_lost_on_restart],
    [purge_breaks_verification], [task_output_leaks], [registration_takes_over],
    [two_voters_dispatch_twice], [denied_command_overtaken], [quota_overrun],
    [created_job_skips_policy].

    ** Conventions and limits

    Readings of the clock, generated UUIDs and randomness, the order of a map
    iteration, database faults, the answers of external parties and the behaviour
    of other goroutines are arguments or class members, so the theorems hold for
    all of them.  Recursion is structural, on the data or on an explicit list of
    polls; the one loop without such a bound, [fetch_chunks] of the replay, has as
    many rounds as the table has chunks and one more, and each full batch passes at
    least one chunk.  Integers are [Z] with
    explicit wrap-around where the code can overflow.  Strings are byte strings, so
    [ToLower] and [EqualFold] are those of ASCII.  A TEXT column that holds an
    instant or a JSON document is given by its value, and compared as text where SQL
    does.  Logging, audit detail maps, metrics, schema migrations and goroutines
    that only call a modelled operation on a ticker are left out.

    Where nothing in the code makes a sequence of calls atomic, the others run in
    between: approvals, the tracker, the command endpoint, the scheduler and the job
    endpoints, runners and the output hub are interleaved; in the sandbox, an upload
    is (its quota is read and used by two statements).  Elsewhere a request is one
    step, which is exact for operations under one lock or of one statement.

    Not modelled yet: fleet federation.  External services, network I/O, configuration and the web UI are out of scope. *)
From Stdlib Require Export Ascii.
From stdpp Require Export base strings list gmap pretty.
From Stdlib Require Export ZArith Lia.

(** ** Scopes and notations *)

Declare Scope go_scope.
Delimit Scope go_scope with go.

(** Go's [==] and [!=] on strings. *)
Notation "a =s b" := (String.eqb a b) (at level 70, no associativity) : go_scope.
Notation "a <>s b" := (negb (String.eqb a b)) (at level 70, no associativity) : go_scope.

(** ** Tactics *)

Create HintDb legator.

(** Case split on one string comparison of the goal or of a hypothesis. *)
Ltac case_str :=
  match goal with
  | |- context [String.eqb ?a ?b] => destruct (String.eqb_spec a b); simplify_eq/=
  | H : context [String.eqb ?a ?b] |- _ => destruct (String.eqb_spec a b); simplify_eq/=
  end.

(** Case split on the string test of the goal's outermost conditionals, leaving
    the branches as they are. *)
Ltac split_str :=
  match goal with |- context [if String.eqb ?a ?b then _ else _] => destruct (String.eqb_spec a b) end.

(** Case split on every test of the goal, closing the contradictory cases. *)
Ltac go_cases := repeat first [ case_str | case_match ]; simplify_eq/=.

(** Turn boolean facts into propositions. *)
Ltac bools :=
  repeat match goal with
  | H : _ && _ = true |- _ => apply andb_true_iff in H; destruct H
  | H : _ || _ = false |- _ => apply orb_false_iff in H; destruct H
  | H : negb _ = true |- _ => apply negb_true_iff in H
  | H : negb _ = false |- _ => apply negb_false_iff in H
  | H : String.eqb _ _ = true |- _ => apply String.eqb_eq in H
  | H : String.eqb _ _ = false |- _ => apply String.eqb_neq in H
  | H : (_ <? _)%Z = true |- _ => apply Z.ltb_lt in H
  | H : (_ <? _)%Z = false |- _ => apply Z.ltb_ge in H
  | H : (_ <=? _)%Z = true |- _ => apply Z.leb_le in H
  | H : (_ <=? _)%Z = false |- _ => apply Z.leb_gt in H
  | H : (_ =? _)%Z = true |- _ => apply Z.eqb_eq in H
  | H : (_ =? _)%Z = false |- _ => apply Z.eqb_neq in H
  end.

(** ** Lists: the shape of a SQL table or of a Go slice *)

Section rows.
Context {A : Type}.
Implicit Types (l : list A) (p : A → bool) (f : A → A).

(** [UPDATE .. SET f WHERE p]: every row that satisfies [p] is rewritten. *)
Definition update_where p f l : list A := map (λ x, if p x then f x else x) l.

(** [SELECT COUNT( * ) .. WHERE p], also the number of rows an update affects. *)
Definition count_where p l : nat := length (List.filter p l).

Lemma length_update_where p f l : length (update_where p f l) = length l.
Proof. apply length_map. Qed.

Lemma update_where_app p f l1 l2 :
  update_where p f (l1 ++ l2) = update_where p f l1 ++ update_where p f l2.
Proof. apply map_app. Qed.

Lemma map_update_where {B} (g : A → B) p f l :
  (∀ x, p x = true → g (f x) = g x) → map g (update_where p f l) = map g l.
Proof.
  intros Hg. unfold update_where. rewrite map_map. apply map_ext. intros x.
  destruct (p x) eqn:E; auto.
Qed.

Lemma elem_of_update_where p f l y :
  y ∈ update_where p f l ↔
  (∃ x, x ∈ l ∧ p x = true ∧ y = f x) ∨ (y ∈ l ∧ p y = false).
Proof.
  unfold update_where. rewrite list_elem_of_In, in_map_iff. split.
  - intros (x & Hy & Hx%list_elem_of_In). destruct (p x) eqn:E; subst; eauto.
  - intros [(x & Hx%list_elem_of_In & Hp & ->)|[Hy%list_elem_of_In Hp]].
    + exists x. by rewrite Hp.
    + exists y. by rewrite Hp.
Qed.

Lemma count_where_nil p : count_where p [] = 0.
Proof. done. Qed.

Lemma count_where_cons p x l :
  count_where p (x :: l) = (if p x then 1 else 0) + count_where p l.
Proof. unfold count_where; simpl. by destruct (p x). Qed.

Lemma count_where_app p l1 l2 :
  count_where p (l1 ++ l2) = count_where p l1 + count_where p l2.
Proof. unfold count_where. by rewrite List.filter_app, length_app. Qed.

Lemma count_where_zero p l : count_where p l = 0 ↔ ∀ x, x ∈ l → p x = false.
Proof.
  induction l as [|x l IH].
  - split; [|done]. intros _ x. by rewrite list_elem_of_In.
  - rewrite count_where_cons. split.
    + intros H y [->|Hy]%elem_of_cons; [by destruct (p x)|].
      apply IH; [destruct (p x); simpl in H; lia|done].
    + intros H. rewrite (H x) by apply elem_of_cons, or_introl, eq_refl. simpl.
      apply IH. intros y Hy. apply H, elem_of_cons. by right.
Qed.
End rows.

Lemma existsb_false_Forall {A} (f : A → bool) l :
  existsb f l = false ↔ Forall (λ x, f x = false) l.
Proof.
  induction l as [|x l IH]; simpl; [by split|].
  by rewrite orb_false_iff, IH, Forall_cons.
Qed.

Lemma existsb_true_Exists {A} (f : A → bool) l :
  existsb f l = true ↔ ∃ x, x ∈ l ∧ f x = true.
Proof.
  rewrite existsb_exists. split; intros (x & Hx & Hf); exists x; split; try done; by apply list_elem_of_In.
Qed.

(** Filters by a boolean test, and sublists. *)
Lemma elem_filter_bool {A} (p : A → bool) l x : x ∈ List.filter p l ↔ p x = true ∧ x ∈ l.
Proof. rewrite !list_elem_of_In, filter_In. tauto. Qed.
Lemma filter_sublist {A} (p : A → bool) l : List.filter p l `sublist_of` l.
Proof. induction l as [|x l IH]; cbn; [constructor|]. destruct (p x); by constructor. Qed.
Lemma sublist_filter_bool {A} (p : A → bool) l k : l `sublist_of` k → List.filter p l `sublist_of` List.filter p k.
Proof. induction 1 as [|x l k _ IH|x l k _ IH]; cbn; [done| |]; destruct (p x); try done; by constructor. Qed.
Lemma sublist_map {A B} (f : A → B) l k : l `sublist_of` k → map f l `sublist_of` map f k.
Proof. induction 1; cbn; by constructor. Qed.
Lemma sublist_elem {A} (l k : list A) x : l `sublist_of` k → x ∈ l → x ∈ k.
Proof. induction 1; set_solver. Qed.

Lemma filter_bool_perm {A} (p : A → bool) l1 l2 : l1 ≡ₚ l2 → List.filter p l1 ≡ₚ List.filter p l2.
Proof.
  induction 1 as [|x l1 l2 _ IH|x y l|l1 l2 l3 _ IH1 _ IH2]; simpl; [done| | |by etrans].
  - by destruct (p x); [constructor|].
  - destruct (p x), (p y); done || constructor.
Qed.

(** A table with a primary key. *)
Section keyed.
Context {A : Type} (key : A → string).

Lemma key_inj l x y : NoDup (map key l) → x ∈ l → y ∈ l → key x = key y → x = y.
Proof.
  induction l as [|z l IH]; cbn; [by intros _ ?%elem_of_nil|]. rewrite NoDup_cons. intros [Hz Hl].
  assert (Hin : ∀ w, w ∈ l → key w ≠ key z) by (intros w Hw E; apply Hz; rewrite <- E; by apply list_elem_of_fmap_2).
  rewrite !elem_of_cons. intros [->|Hx] [->|Hy] E; auto; [by destruct (Hin y)|by destruct (Hin x)].
Qed.
Lemma find_by_key l x : NoDup (map key l) → x ∈ l → List.find (λ y, String.eqb (key y) (key x)) l = Some x.
Proof.
  intros Hl Hx. destruct (List.find _ l) as [y|] eqn:E.
  - apply find_some in E as [Hy%list_elem_of_In Hk%String.eqb_eq]. f_equal. by eapply key_inj.
  - eapply find_none in E; [|by apply list_elem_of_In]. by rewrite String.eqb_refl in E.
Qed.
End keyed.

(** ** Histories: sequences of observed steps *)

Section trace.
Context {S E : Type} (step : S → E → S → Prop).

Inductive trace : S → list E → S → Prop :=
  | trace_nil s : trace s [] s
  | trace_cons s1 e s2 tr s3 : step s1 e s2 → trace s2 tr s3 → trace s1 (e :: tr) s3.

Lemma trace_invariant (inv : S → Prop) s tr s' :
  (∀ s e s', step s e s' → inv s → inv s') → trace s tr s' → inv s → inv s'.
Proof. intros Hstep. induction 1; eauto. Qed.

Lemma trace_app_inv s1 tr1 tr2 s3 : trace s1 (tr1 ++ tr2) s3 → ∃ s2, trace s1 tr1 s2 ∧ trace s2 tr2 s3.
Proof.
  revert s1. induction tr1 as [|e tr1 IH]; intros s1 Htr; [exists s1; split; [constructor|done]|].
  inversion Htr as [|s e' s2 tr s4 Hs Htr']; subst. destruct (IH _ Htr') as (s5 & ? & ?). exists s5. split; [by econstructor|done].
Qed.

(** A resource that is spent for good by each event that uses it is used at most
    once in a history, and not at all when it is spent from the start. *)
Lemma used_at_most_once (inv spent : S → Prop) (uses : E → bool) s tr s' :
  (∀ s e s', step s e s' → inv s → inv s' ∧ (spent s → spent s')) →
  (∀ s e s', step s e s' → inv s → uses e = true → ¬ spent s ∧ spent s') →
  trace s tr s' → inv s → count_where uses tr <= 1 ∧ (spent s → count_where uses tr = 0).
Proof.
  intros Hkeep Huse. induction 1 as [s|s1 e s2 tr s3 Hs _ IH]; intros Hinv; [rewrite count_where_nil; lia|].
  destruct (Hkeep _ _ _ Hs Hinv) as [Hinv2 Hsp]. destruct (IH Hinv2) as [IH1 IH2]. rewrite count_where_cons.
  destruct (uses e) eqn:He.
  - destruct (Huse _ _ _ Hs Hinv He) as [Hn Hy]. rewrite (IH2 Hy). split; [lia|done].
  - split; [lia|]. intros Hspent. by rewrite (IH2 (Hsp Hspent)).
Qed.
End trace.
