(* ===== verification/GoStrings.v ===== *)
(** * The part of Go's [strings] and [strconv] packages the control plane uses

    Go strings are byte strings; here they are [string]s (lists of 8-bit
    characters).  [ToLower], [TrimSpace] and [EqualFold] are given on ASCII:
    bytes above 0x7f are neither folded nor trimmed (Go consults the Unicode
    tables for them). *)
From S2P Require Import Prelude.
Local Open Scope go_scope.

(** ** Characters *)

(** The ASCII part of [unicode.IsSpace]: tab, newline, vertical tab, form
    feed, carriage return and space. *)
Definition is_space (c : ascii) : bool :=
  let n := Ascii.nat_of_ascii c in
  ((9 <=? n)%nat && (n <=? 13)%nat) || (n =? 32)%nat.

Definition is_upper (c : ascii) : bool :=
  let n := Ascii.nat_of_ascii c in (65 <=? n)%nat && (n <=? 90)%nat.

Definition lower_char (c : ascii) : ascii :=
  if is_upper c then Ascii.ascii_of_nat (Ascii.nat_of_ascii c + 32) else c.

(** ** Operations on strings *)

(** [strings.ToLower] *)
Fixpoint ToLower (s : string) : string :=
  match s with
  | EmptyString => EmptyString
  | String c s' => String (lower_char c) (ToLower s')
  end.

Fixpoint trim_left (s : string) : string :=
  match s with
  | EmptyString => EmptyString
  | String c s' => if is_space c then trim_left s' else s
  end.

Fixpoint trim_right (s : string) : string :=
  match s with
  | EmptyString => EmptyString
  | String c s' =>
      match trim_right s' with
      | EmptyString => if is_space c then EmptyString else String c EmptyString
      | t => String c t
      end
  end.

(** [strings.TrimSpace] *)
Definition TrimSpace (s : string) : string := trim_right (trim_left s).

(** [strings.HasPrefix s p] *)
Fixpoint HasPrefix (s p : string) : bool :=
  match p, s with
  | EmptyString, _ => true
  | String a p', String b s' => Ascii.eqb a b && HasPrefix s' p'
  | String _ _, EmptyString => false
  end.

(** [strings.Contains s sub] *)
Fixpoint Contains (s sub : string) : bool :=
  HasPrefix s sub ||
  match s with
  | EmptyString => false
  | String _ s' => Contains s' sub
  end.

(** [strings.Join l sep] *)
Fixpoint StringsJoin (l : list string) (sep : string) : string :=
  match l with
  | [] => EmptyString
  | [x] => x
  | x :: l' => (x +:+ sep +:+ StringsJoin l' sep)%string
  end.

Fixpoint char_in (c : ascii) (chars : string) : bool :=
  match chars with
  | EmptyString => false
  | String d rest => Ascii.eqb c d || char_in c rest
  end.

(** [strings.IndexAny s chars]: the index of the first byte of [s] that is in
    [chars], -1 when there is none. *)
Fixpoint IndexAny (s chars : string) : Z :=
  match s with
  | EmptyString => (-1)%Z
  | String c s' =>
      if char_in c chars then 0%Z
      else let i := IndexAny s' chars in if (i <? 0)%Z then (-1)%Z else (i + 1)%Z
  end.

(** The slice expression [s[:n]], for [0 <= n <= len(s)]. *)
Fixpoint take_str (n : nat) (s : string) : string :=
  match n, s with
  | S n', String c s' => String c (take_str n' s')
  | _, _ => EmptyString
  end.

(** [strings.EqualFold] *)
Definition EqualFold (s t : string) : bool := ToLower s =s ToLower t.

(** [strconv.Itoa], the [%d] verb *)
Definition Itoa (z : Z) : string := pretty z.

(** The [%q] verb on a string: double quotes, with the escapes of
    [strconv.Quote] for the quote, the backslash and the control characters. *)
Definition hex_digit (n : nat) : ascii :=
  Ascii.ascii_of_nat (if (n <? 10)%nat then 48 + n else 87 + n).

Definition quote_char (c : ascii) : string :=
  let n := Ascii.nat_of_ascii c in
  let bs := Ascii.ascii_of_nat 92 in
  if (n =? 34)%nat || (n =? 92)%nat then String bs (String c EmptyString)
  else match n with
  | 7 => String bs "a" | 8 => String bs "b" | 12 => String bs "f"
  | 10 => String bs "n" | 13 => String bs "r" | 9 => String bs "t" | 11 => String bs "v"
  | _ =>
      if (n <? 32)%nat || (n =? 127)%nat
      then String bs (String "x" (String (hex_digit (n / 16)) (String (hex_digit (n mod 16)) EmptyString)))
      else String c EmptyString
  end.

Fixpoint quote_body (s : string) : string :=
  match s with
  | EmptyString => EmptyString
  | String c s' => (quote_char c +:+ quote_body s')%string
  end.

Definition Quote (s : string) : string :=
  let q := String (Ascii.ascii_of_nat 34) EmptyString in (q +:+ quote_body s +:+ q)%string.

(** [hex.EncodeToString]: each byte as two lower-case hexadecimal digits. *)
Fixpoint hex_EncodeToString (raw : string) : string :=
  match raw with
  | EmptyString => EmptyString
  | String c raw' =>
      let n := Ascii.nat_of_ascii c in
      String (hex_digit (n / 16)) (String (hex_digit (n mod 16)) (hex_EncodeToString raw'))
  end.

(** The value of a hexadecimal digit, of either case. *)
Definition hex_value (c : ascii) : option nat :=
  let n := Ascii.nat_of_ascii c in
  if (48 <=? n)%nat && (n <=? 57)%nat then Some (n - 48)%nat
  else if (97 <=? n)%nat && (n <=? 102)%nat then Some (n - 87)%nat
  else if (65 <=? n)%nat && (n <=? 70)%nat then Some (n - 55)%nat
  else None.

(** [hex.DecodeString]: the bytes, or the digit or the length it rejects. *)
Inductive hex_error := HexInvalidByte (c : ascii) | HexErrLength.
Fixpoint hex_DecodeString (s : string) : hex_error + string :=
  match s with
  | EmptyString => inr EmptyString
  | String a EmptyString => match hex_value a with None => inl (HexInvalidByte a) | Some _ => inl HexErrLength end
  | String a (String b s') =>
      match hex_value a, hex_value b with
      | None, _ => inl (HexInvalidByte a)
      | _, None => inl (HexInvalidByte b)
      | Some x, Some y =>
          match hex_DecodeString s' with
          | inl e => inl e
          | inr raw => inr (String (Ascii.ascii_of_nat (16 * x + y)) raw)
          end
      end
  end.

(** [s[n:]], [strings.TrimPrefix], [strings.HasSuffix], [strings.TrimSuffix] *)
Fixpoint drop_str (n : nat) (s : string) : string :=
  match n, s with O, _ => s | S n', String _ s' => drop_str n' s' | S _, EmptyString => EmptyString end.
Definition TrimPrefix (s p : string) : string := if HasPrefix s p then drop_str (String.length p) s else s.
Definition HasSuffix (s p : string) : bool :=
  (String.length p <=? String.length s)%nat && (drop_str (String.length s - String.length p) s =s p).
Definition TrimSuffix (s p : string) : string := if HasSuffix s p then take_str (String.length s - String.length p) s else s.

(** [strings.Split s (string c)]: at least one part. *)
Fixpoint split_on (c : ascii) (s : string) : list string :=
  match s with
  | EmptyString => [EmptyString]
  | String d s' =>
      if Ascii.eqb d c then EmptyString :: split_on c s'
      else match split_on c s' with [] => [String d EmptyString] | w :: ws => String d w :: ws end
  end.

(** ** Lemmas *)

Lemma hex_roundtrip raw : hex_DecodeString (hex_EncodeToString raw) = inr raw.
Proof.
  induction raw as [|c raw IH]; [done|]. cbn [hex_EncodeToString hex_DecodeString]. rewrite IH.
  destruct c as [[] [] [] [] [] [] [] []]; vm_compute; reflexivity.
Qed.

Lemma length_hex raw : String.length (hex_EncodeToString raw) = (2 * String.length raw)%nat.
Proof. induction raw as [|c raw IH]; simpl; lia. Qed.

Fixpoint all_chars (p : ascii → bool) (s : string) : bool :=
  match s with EmptyString => true | String c s' => p c && all_chars p s' end.

(** A string without space is its own trimming. *)
Lemma TrimSpace_no_space s : all_chars (λ c, negb (is_space c)) s = true → TrimSpace s = s.
Proof.
  intros Hs. assert (Hl : trim_left s = s).
  { destruct s as [|c s]; [done|]. simpl in *. apply andb_true_iff in Hs as [Hc%negb_true_iff _]. by rewrite Hc. }
  unfold TrimSpace. rewrite Hl. clear Hl. induction s as [|c s IH]; [done|]. simpl in *.
  apply andb_true_iff in Hs as [Hc%negb_true_iff Hs]. rewrite (IH Hs), Hc. by destruct s.
Qed.

Lemma hex_no_space raw : all_chars (λ c, negb (is_space c)) (hex_EncodeToString raw) = true.
Proof.
  induction raw as [|c raw IH]; [done|]. cbn [hex_EncodeToString all_chars]. rewrite IH.
  destruct c as [[] [] [] [] [] [] [] []]; vm_compute; reflexivity.
Qed.

Lemma lower_char_idem c : lower_char (lower_char c) = lower_char c.
Proof. destruct c as [[] [] [] [] [] [] [] []]; vm_compute; reflexivity. Qed.

Lemma is_space_lower c : is_space (lower_char c) = is_space c.
Proof. destruct c as [[] [] [] [] [] [] [] []]; vm_compute; reflexivity. Qed.

Lemma ToLower_idem s : ToLower (ToLower s) = ToLower s.
Proof. induction s as [|c s IH]; simpl; [done|]. by rewrite lower_char_idem, IH. Qed.

Lemma length_ToLower s : String.length (ToLower s) = String.length s.
Proof. induction s as [|c s IH]; simpl; auto. Qed.

Lemma trim_left_ToLower s : trim_left (ToLower s) = ToLower (trim_left s).
Proof. induction s as [|c s IH]; simpl; [done|]. rewrite is_space_lower. by destruct (is_space c). Qed.

Lemma trim_right_ToLower s : trim_right (ToLower s) = ToLower (trim_right s).
Proof.
  induction s as [|c s IH]; simpl; [done|]. rewrite IH, is_space_lower.
  destruct (trim_right s) as [|d t]; simpl; [by destruct (is_space c)|done].
Qed.

(** Lowering and trimming commute. *)
Lemma TrimSpace_ToLower s : TrimSpace (ToLower s) = ToLower (TrimSpace s).
Proof. unfold TrimSpace. by rewrite trim_left_ToLower, trim_right_ToLower. Qed.

Lemma trim_right_idem s : trim_right (trim_right s) = trim_right s.
Proof.
  induction s as [|c s IH]; simpl; [done|].
  destruct (trim_right s) as [|d t] eqn:E; simpl in *.
  - destruct (is_space c) eqn:Hc; simpl; [done|]. by rewrite Hc.
  - by rewrite IH.
Qed.

Lemma trim_left_idem s : trim_left (trim_left s) = trim_left s.
Proof. induction s as [|c s IH]; simpl; [done|]. destruct (is_space c) eqn:E; simpl; [done|]. by rewrite E. Qed.

Lemma length_trim_left s : (String.length (trim_left s) ≤ String.length s)%nat.
Proof. induction s as [|d s IH]; simpl; [lia|]. destruct (is_space d); simpl; lia. Qed.
Lemma length_trim_right s : (String.length (trim_right s) ≤ String.length s)%nat.
Proof. induction s as [|d s IH]; simpl; [lia|]. destruct (trim_right s); [destruct (is_space d)|]; simpl in *; lia. Qed.

(** A string that trimming leaves alone does not begin with a space. *)
Lemma trim_left_head c s : trim_left (String c s) = String c s → is_space c = false.
Proof.
  simpl. destruct (is_space c); [|done]. intros E. pose proof (length_trim_left s) as Hl. rewrite E in Hl. simpl in Hl. lia.
Qed.

Lemma trim_left_trim_right s : trim_left s = s → trim_left (trim_right s) = trim_right s.
Proof.
  destruct s as [|c s]; [done|]. intros E%trim_left_head. simpl. destruct (trim_right s); rewrite ?E; simpl; by rewrite E.
Qed.

Lemma TrimSpace_idem s : TrimSpace (TrimSpace s) = TrimSpace s.
Proof.
  unfold TrimSpace. rewrite trim_left_trim_right by apply trim_left_idem.
  apply trim_right_idem.
Qed.

(** Joining trimmed strings with a separator that is no space gives a trimmed
    string. *)
Lemma trim_right_cons c s : trim_right s = s → is_space c = false → trim_right (String c s) = String c s.
Proof. intros Hs Hc. simpl. rewrite Hs, Hc. by destruct s. Qed.

Lemma trim_right_app a s : s ≠ ""%string → trim_right s = s → trim_right (a +:+ s)%string = (a +:+ s)%string.
Proof.
  intros Hne Hs. induction a as [|c a IH]; [done|]. simpl. rewrite IH.
  destruct a; simpl; [by destruct s|done].
Qed.

Lemma trim_left_app a s : trim_left a = a → trim_left s = s → trim_left (a +:+ s)%string = (a +:+ s)%string.
Proof.
  destruct a as [|c a]; [done|]. intros Hc%trim_left_head _. simpl. by rewrite Hc.
Qed.

Lemma TrimSpace_head c s : TrimSpace (String c s) = String c s → is_space c = false.
Proof.
  unfold TrimSpace. intros E. apply (trim_left_head c s).
  pose proof (length_trim_right (trim_left (String c s))) as Hl. rewrite E in Hl.
  simpl in *. destruct (is_space c); [|done]. pose proof (length_trim_left s). lia.
Qed.

Lemma TrimSpace_nonempty c s : is_space c = false → TrimSpace (String c s) ≠ ""%string.
Proof. intros Hc. unfold TrimSpace. simpl. rewrite Hc. simpl. by destruct (trim_right s); [rewrite Hc|]. Qed.

Lemma TrimSpace_join a c d b :
  is_space c = false → is_space d = false →
  TrimSpace (TrimSpace a +:+ String c (String d (TrimSpace b)))%string = (TrimSpace a +:+ String c (String d (TrimSpace b)))%string.
Proof.
  intros Hc Hd. unfold TrimSpace at 1. rewrite trim_left_app.
  - apply trim_right_app; [done|]. by repeat apply trim_right_cons; try apply trim_right_idem.
  - unfold TrimSpace. apply trim_left_trim_right, trim_left_idem.
  - simpl. by rewrite Hc.
Qed.

Lemma str_app_nil_r (a : string) : (a +:+ EmptyString = a)%string.
Proof. induction a as [|c a IH]; [done|]. change (String c (a +:+ EmptyString) = String c a)%string. by rewrite IH. Qed.

Lemma str_app_assoc (a b c : string) : ((a +:+ b) +:+ c = a +:+ (b +:+ c))%string.
Proof.
  induction a as [|x a IH]; [done|].
  change (String x ((a +:+ b) +:+ c) = String x (a +:+ (b +:+ c)))%string. by rewrite IH.
Qed.

Lemma HasPrefix_nil s : HasPrefix s "" = true.
Proof. by destruct s. Qed.

Lemma HasPrefix_app p s : HasPrefix (p +:+ s)%string p = true.
Proof. induction p as [|c p IH]; simpl; [apply HasPrefix_nil|]. by rewrite Ascii.eqb_refl. Qed.

Lemma HasPrefix_spec s p : HasPrefix s p = true ↔ ∃ t, s = (p +:+ t)%string.
Proof.
  split; [|intros [t ->]; apply HasPrefix_app].
  revert s. induction p as [|c p IH]; intros s; [by exists s|].
  destruct s as [|d s]; simpl; [done|].
  intros [->%Ascii.eqb_eq H]%andb_true_iff. destruct (IH s H) as [t ->]. by exists t.
Qed.

Lemma Contains_app s1 s2 sub : Contains (s1 +:+ sub +:+ s2)%string sub = true.
Proof.
  induction s1 as [|c s1 IH]; simpl.
  - assert (H : HasPrefix (sub +:+ s2)%string sub = true) by apply HasPrefix_app.
    destruct sub; simpl in *; [by destruct s2|]. unfold String.app in *. simpl in *. by rewrite H.
  - apply orb_true_iff. by right.
Qed.

Lemma EqualFold_refl s : EqualFold s s = true.
Proof. apply String.eqb_refl. Qed.

Lemma EqualFold_sym s t : EqualFold s t = EqualFold t s.
Proof. unfold EqualFold. apply String.eqb_sym. Qed.

Lemma EqualFold_spec s t : EqualFold s t = true ↔ ToLower s = ToLower t.
Proof. apply String.eqb_eq. Qed.

#[export] Hint Rewrite ToLower_idem TrimSpace_idem TrimSpace_ToLower : legator.

Example trim_ex : TrimSpace "  rm -rf /  " = "rm -rf /".
Proof. reflexivity. Qed.
Example quote_ex : Quote "a" = String (Ascii.ascii_of_nat 34) (String "a" (String (Ascii.ascii_of_nat 34) EmptyString)).
Proof. reflexivity. Qed.

Lemma length_take_str n s : (String.length (take_str n s) <= n)%nat.
Proof. revert s. induction n as [|n IH]; intros [|c s]; simpl; try lia. specialize (IH s). lia. Qed.

(** ** Orders on text *)

Lemma leb_le a b : String.leb a b = true ↔ String.le a b.
Proof. unfold String.le. destruct (String.leb a b); naive_solver. Qed.

(** Two TEXT columns in the ORDER BY clause. *)
Definition lex_leb (a1 b1 a2 b2 : string) : bool := if a1 =s a2 then String.leb b1 b2 else String.leb a1 a2.

Lemma lex_total a1 b1 a2 b2 : lex_leb a1 b1 a2 b2 = true ∨ lex_leb a2 b2 a1 b1 = true.
Proof.
  unfold lex_leb. rewrite (String.eqb_sym a2 a1). destruct (a1 =s a2); apply String.leb_total.
Qed.
Lemma lex_trans a1 b1 a2 b2 a3 b3 :
  lex_leb a1 b1 a2 b2 = true → lex_leb a2 b2 a3 b3 = true → lex_leb a1 b1 a3 b3 = true.
Proof.
  unfold lex_leb. destruct (String.eqb_spec a1 a2) as [->|H12], (String.eqb_spec a2 a3) as [->|H23];
    rewrite ?String.eqb_refl; rewrite !leb_le; intros Hx Hy.
  - by etrans.
  - done.
  - rewrite ?(proj2 (String.eqb_neq _ _) H12), ?leb_le. done.
  - destruct (String.eqb_spec a1 a3) as [->|H13]; [destruct H12; by apply (anti_symm String.le)|]. rewrite leb_le. by etrans.
Qed.
Lemma lex_antisym a1 b1 a2 b2 : lex_leb a1 b1 a2 b2 = true → lex_leb a2 b2 a1 b1 = true → a1 = a2 ∧ b1 = b2.
Proof.
  unfold lex_leb. rewrite (String.eqb_sym a2 a1). destruct (String.eqb_spec a1 a2) as [->|]; rewrite !leb_le; intros Hx Hy.
  - split; [done|]. by apply (anti_symm String.le).
  - destruct n. by apply (anti_symm String.le).
Qed.
Lemma ltb_leb a b : String.ltb a b = String.leb a b && negb (a =s b).
Proof.
  unfold String.ltb, String.leb. destruct (String.eqb_spec a b) as [->|Hne].
  - pose proof (String.compare_antisym b b) as Hb. by destruct (String.compare b b).
  - destruct (String.compare a b) eqn:E; [by apply String.compare_eq_iff in E|done|done].
Qed.
