(* ===== verification/GoErrors.v ===== *)
(** * Go error values

    An error is a tree: a plain message, a package-level sentinel, a message
    that wraps another error ([fmt.Errorf] with [%w]), two joined errors
    ([errors.Join]) or one of the typed
    errors of the control plane.  [Error], [Unwrap], [errors.Is] and
    [errors.As] are the functions of the Go standard library on that tree. *)
From S2P Require Import Prelude GoStrings.

(** The sentinels the modelled packages compare against. *)
Inductive sentinel :=
  | SqlErrNoRows                  (* database/sql *)
  | ErrInvalidAsyncJobTransition  (* jobs/async_types.go *)
  | ErrAsyncQueueSaturated
  | ErrAsyncJobConflict
  | ErrWorkspaceMismatch          (* jobs/store.go *)
  | ErrTimeout                    (* core/commanddispatch/service.go *)
  | ErrEmptyResult
  | ContextCanceled               (* context *)
  | ContextDeadlineExceeded
  | ErrProbeNotFound              (* core/approvalpolicy/service.go *)
  | ErrPolicyTemplateNotFound
  | ErrStoreTokenNotFound  (* tokenbroker/store.go *)
  | ErrStoreTokenExists
  | ErrTokenRequired  (* tokenbroker/broker.go *)
  | ErrTokenInvalid
  | ErrTokenExpired
  | ErrTokenRevoked
  | ErrTokenConsumed
  | ErrScopeRequired
  | ErrScopeRejected
  | ErrRunIDRequired
  | ErrProbeIDRequired
  | ErrIssuerRequired
  | ErrSessionMismatch
  | ErrScopesRequired
  | ErrAudienceRequired
  | ErrAudienceMismatch
  | ErrBindingMismatch
  | ErrScopeLimitExceeded
  | ErrInvalidRunTransition  (* jobs/store.go *)
  | ErrWorkspaceScopeMissing  (* auth/context.go *)
  | ErrWorkspaceScopeAmbiguous
  | ErrCustomRoleNotFound  (* auth/custom_roles.go *)
  | ErrCustomRoleExists
  | ErrBuiltInRole
  | ErrSessionNotFound  (* session/store.go *)
  | ErrSessionExpired
  | ErrUserNotFound  (* users/store.go *)
  | ErrInvalidRole
  | ErrInvalidCredentials
  | ErrUserDisabled
  | ErrUsernameAlreadyUsed
  | ErrSessionRequired  (* runner/manager.go *)
  | RunnerErrAudienceRequired
  | ErrInvalidAudience
  | ErrRunnerIDRequired
  | ErrRunnerNotFound
  | ErrInvalidTransition
  | ErrRunTokenRequired
  | ErrRunTokenInvalid
  | ErrRunTokenExpired
  | ErrRunTokenRevoked
  | ErrRunTokenConsumed
  | ErrRunTokenScope
  | ErrRunTokenSessionBound
  | ErrInvalidBackend
  | ErrSandboxCommandRequired
  | ErrSandboxContractMalformed
  | ErrBackendUnavailable
  | ErrBackendStartFailed
  | ErrBackendStopFailed
  | ErrBackendTeardownFailed.

#[export] Instance sentinel_eq_dec : EqDecision sentinel.
Proof. solve_decision. Defined.

Definition sentinel_text (s : sentinel) : string :=
  match s with
  | SqlErrNoRows => "sql: no rows in result set"
  | ErrInvalidAsyncJobTransition => "invalid async job transition"
  | ErrAsyncQueueSaturated => "async queue saturated"
  | ErrAsyncJobConflict => "async job conflict: invalid state for operation"
  | ErrWorkspaceMismatch => "resource belongs to a different workspace"
  | ErrTimeout => "timeout waiting for probe response"
  | ErrEmptyResult => "command failed: empty result"
  | ContextCanceled => "context canceled"
  | ContextDeadlineExceeded => "context deadline exceeded"
  | ErrProbeNotFound => "probe not found"
  | ErrPolicyTemplateNotFound => "policy template not found"
  | ErrStoreTokenNotFound => "token not found"
  | ErrStoreTokenExists => "token already exists"
  | ErrTokenRequired => "token is required"
  | ErrTokenInvalid => "token is invalid"
  | ErrTokenExpired => "token is expired"
  | ErrTokenRevoked => "token is revoked"
  | ErrTokenConsumed => "token already consumed"
  | ErrScopeRequired => "scope is required"
  | ErrScopeRejected => "scope rejected"
  | ErrRunIDRequired => "run_id is required"
  | ErrProbeIDRequired => "probe_id is required"
  | ErrIssuerRequired => "issuer is required"
  | ErrSessionMismatch => "session binding rejected"
  | ErrScopesRequired => "scopes are required"
  | ErrAudienceRequired => "audience is required"
  | ErrAudienceMismatch => "audience mismatch"
  | ErrBindingMismatch => "binding mismatch"
  | ErrScopeLimitExceeded => "scope exceeds configured max"
  | ErrInvalidRunTransition => "invalid run status transition"
  | ErrWorkspaceScopeMissing => "workspace scope missing"
  | ErrWorkspaceScopeAmbiguous => "workspace scope ambiguous"
  | ErrCustomRoleNotFound => "custom role not found"
  | ErrCustomRoleExists => "custom role already exists"
  | ErrBuiltInRole => "cannot modify a built-in role"
  | ErrSessionNotFound => "session not found"
  | ErrSessionExpired => "session expired"
  | ErrUserNotFound => "user not found"
  | ErrInvalidRole => "invalid role"
  | ErrInvalidCredentials => "invalid credentials"
  | ErrUserDisabled => "user disabled"
  | ErrUsernameAlreadyUsed => "username already exists"
  | ErrSessionRequired => "session context required"
  | RunnerErrAudienceRequired => "run token audience required"
  | ErrInvalidAudience => "invalid run token audience"
  | ErrRunnerIDRequired => "runner_id is required"
  | ErrRunnerNotFound => "runner not found"
  | ErrInvalidTransition => "invalid runner lifecycle transition"
  | ErrRunTokenRequired => "run token is required"
  | ErrRunTokenInvalid => "run token is invalid"
  | ErrRunTokenExpired => "run token is expired"
  | ErrRunTokenRevoked => "run token is revoked"
  | ErrRunTokenConsumed => "run token already consumed"
  | ErrRunTokenScope => "run token scope rejected"
  | ErrRunTokenSessionBound => "run token session binding rejected"
  | ErrInvalidBackend => "invalid runner backend"
  | ErrSandboxCommandRequired => "sandbox command is required"
  | ErrSandboxContractMalformed => "sandbox contract malformed"
  | ErrBackendUnavailable => "runner execution backend unavailable"
  | ErrBackendStartFailed => "runner execution start failed"
  | ErrBackendStopFailed => "runner execution stop failed"
  | ErrBackendTeardownFailed => "runner execution teardown failed"
  end.

Inductive go_error :=
  | ErrorString (msg : string)
  | Sentinel (s : sentinel)
  | WrapError (msg : string) (inner : go_error)
  | AsyncQueueSaturatedError (Queued MaxDepth : Z)
  | AsyncJobConflictError (JobID CurrentState Operation : string)
  | DecisionHookError (Stage : string) (Err : option go_error)
  | ApprovedDispatchError (Err : option go_error)
  | JoinError (first second : go_error)
  | NetError (msg : string) (timeout : bool).   (* has a [Timeout() bool] method, as the errors of package net *)

(** The [Error] method of each error type. *)
Fixpoint Error (e : go_error) : string :=
  match e with
  | ErrorString msg => msg
  | Sentinel s => sentinel_text s
  | WrapError msg _ => msg
  | AsyncQueueSaturatedError q d =>
      if (0 <? d)%Z
      then ("async queue saturated: queued=" +:+ Itoa q +:+ " max_depth=" +:+ Itoa d)%string
      else "async queue saturated"
  | AsyncJobConflictError id st op =>
      let op := if String.eqb op "" then "operation" else op in
      ("job " +:+ id +:+ ": " +:+ op +:+ " not allowed in state " +:+ st)%string
  | DecisionHookError _ None => "approval decision hook failed"
  | DecisionHookError _ (Some e') => Error e'
  | ApprovedDispatchError None => "approved dispatch failed"
  | ApprovedDispatchError (Some e') => Error e'
  | JoinError a b => (Error a +:+ String (Ascii.ascii_of_nat 10) EmptyString +:+ Error b)%string
  | NetError msg _ => msg
  end.

(** The [Unwrap] method; a plain error and a sentinel have none. *)
Definition Unwrap (e : go_error) : option go_error :=
  match e with
  | ErrorString _ | Sentinel _ | NetError _ _ => None
  | WrapError _ inner => Some inner
  | AsyncQueueSaturatedError _ _ => Some (Sentinel ErrAsyncQueueSaturated)
  | AsyncJobConflictError _ _ _ => Some (Sentinel ErrAsyncJobConflict)
  | DecisionHookError _ inner => inner
  | ApprovedDispatchError inner => inner
  | JoinError _ _ => None
  end.

(** [errors.Is(err, s)] for a sentinel [s]. *)
Fixpoint errors_Is (e : go_error) (s : sentinel) : bool :=
  match e with
  | ErrorString _ | NetError _ _ => false
  | Sentinel s' => bool_decide (s' = s)
  | WrapError _ inner => errors_Is inner s
  | AsyncQueueSaturatedError _ _ => bool_decide (s = ErrAsyncQueueSaturated)
  | AsyncJobConflictError _ _ _ => bool_decide (s = ErrAsyncJobConflict)
  | DecisionHookError _ None | ApprovedDispatchError None => false
  | DecisionHookError _ (Some inner) | ApprovedDispatchError (Some inner) => errors_Is inner s
  | JoinError a b => errors_Is a s || errors_Is b s
  end.

(** [errors.As(err, *ApprovedDispatchError)]: the first error of the chain
    that is an [ApprovedDispatchError]. *)
Fixpoint errors_As_dispatch (e : go_error) : option go_error :=
  match e with
  | ApprovedDispatchError _ => Some e
  | WrapError _ inner | DecisionHookError _ (Some inner) => errors_As_dispatch inner
  | JoinError a b => match errors_As_dispatch a with Some x => Some x | None => errors_As_dispatch b end
  | _ => None
  end.

(** [errors.As(err, *DecisionHookError)] *)
Fixpoint errors_As_hook (e : go_error) : option go_error :=
  match e with
  | DecisionHookError _ _ => Some e
  | WrapError _ inner | ApprovedDispatchError (Some inner) => errors_As_hook inner
  | JoinError a b => match errors_As_hook a with Some x => Some x | None => errors_As_hook b end
  | _ => None
  end.

(** [errors.As] to an interface with the method [Timeout() bool], and what that
    method answers: [context.DeadlineExceeded] has it too. *)
Fixpoint errors_As_timeout (e : go_error) : option bool :=
  match e with
  | Sentinel s => if bool_decide (s = ContextDeadlineExceeded) then Some true else None
  | NetError _ timeout => Some timeout
  | WrapError _ inner | DecisionHookError _ (Some inner) | ApprovedDispatchError (Some inner) => errors_As_timeout inner
  | JoinError a b => match errors_As_timeout a with Some x => Some x | None => errors_As_timeout b end
  | _ => None
  end.

(** [errors.Is] follows [Unwrap]. *)
Lemma errors_Is_Unwrap e e' s : Unwrap e = Some e' → errors_Is e s = errors_Is e' s.
Proof.
  destruct e as [| | | | |? [|]|[|]| |]; intros; simplify_eq/=; try done;
    apply bool_decide_ext; split; congruence.
Qed.

Lemma errors_Is_sentinel s : errors_Is (Sentinel s) s = true.
Proof. apply bool_decide_eq_true. done. Qed.

#[export] Hint Resolve errors_Is_sentinel : legator.

(** Results of fallible Go calls: an error or a value. *)
Notation result A := (go_error + A)%type.
