(* ===== verification/GoTime.v ===== *)
(** * Instants and their RFC 3339 text

    A [time.Time] is the number of nanoseconds since the Unix epoch (UTC); a
    [time.Duration] is a number of nanoseconds.  The text formats are needed
    because the stores keep instants in TEXT columns and compare the text. *)
From S2P Require Import Prelude GoStrings.
Local Open Scope Z_scope.

Notation time := Z (only parsing).
Notation duration := Z (only parsing).

Definition Nanosecond : Z := 1.
Definition Millisecond : Z := 1000000.
Definition Second : Z := 1000000000.
Definition Hour : Z := 3600 * Second.

(** [time.Time{}], 1 January of year 1. *)
Definition zero_time : time := -62135596800 * Second.
Definition IsZero (t : time) : bool := t =? zero_time.

(** [t.After(u)], [t.Before(u)] *)
Definition After (t u : time) : bool := u <? t.
Definition Before (t u : time) : bool := t <? u.

(** The proleptic Gregorian date of a day number (0 is 1970-01-01), by eras of
    400 years that begin on 1 March. *)
Definition civil_from_days (days : Z) : Z * Z * Z :=
  let z := days + 719468 in
  let era := z / 146097 in
  let doe := z - era * 146097 in
  let yoe := (doe - doe / 1460 + doe / 36524 - doe / 146096) / 365 in
  let doy := doe - (365 * yoe + yoe / 4 - yoe / 100) in
  let mp := (5 * doy + 2) / 153 in
  let d := doy - (153 * mp + 2) / 5 + 1 in
  let m := if mp <? 10 then mp + 3 else mp - 9 in
  let y := yoe + era * 400 + (if m <=? 2 then 1 else 0) in
  (y, m, d).

Definition digit (n : Z) : ascii := Ascii.ascii_of_nat (48 + Z.to_nat (n mod 10)).

(** The [w] low decimal digits of [n], zero padded. *)
Fixpoint digits (w : nat) (n : Z) : string :=
  match w with
  | O => EmptyString
  | S w' => (digits w' (n / 10) +:+ String (digit n) EmptyString)%string
  end.

Fixpoint trim_zeros (s : string) : string :=
  match s with
  | EmptyString => EmptyString
  | String c s' =>
      match trim_zeros s' with
      | EmptyString => if Ascii.eqb c "0" then EmptyString else String c EmptyString
      | t => String c t
      end
  end.

Definition date_text (secs : Z) : string :=
  let '(y, m, d) := civil_from_days (secs / 86400) in
  (digits 4 y +:+ "-" +:+ digits 2 m +:+ "-" +:+ digits 2 d)%string.

Definition clock_text (secs : Z) : string :=
  let s := secs mod 86400 in
  (digits 2 (s / 3600) +:+ ":" +:+ digits 2 (s / 60 mod 60) +:+ ":" +:+ digits 2 (s mod 60))%string.

(** [t.UTC().Format(time.RFC3339)] *)
Definition format_RFC3339 (t : time) : string :=
  let secs := t / Second in (date_text secs +:+ "T" +:+ clock_text secs +:+ "Z")%string.

(** [t.UTC().Format(time.RFC3339Nano)]: the fraction is written without its
    trailing zeros, and not at all when it is zero. *)
Definition format_RFC3339Nano (t : time) : string :=
  let secs := t / Second in
  let ns := t mod Second in
  let frac := if ns =? 0 then ""%string else ("." +:+ trim_zeros (digits 9 ns))%string in
  (date_text secs +:+ "T" +:+ clock_text secs +:+ frac +:+ "Z")%string.

(** SQL's [a <= b] and [a < b] on two TEXT columns that hold instants. *)
Definition text_le (t u : time) : bool :=
  match String.compare (format_RFC3339Nano t) (format_RFC3339Nano u) with Gt => false | _ => true end.
Definition text_lt (t u : time) : bool :=
  match String.compare (format_RFC3339Nano t) (format_RFC3339Nano u) with Lt => true | _ => false end.

Example format_ex1 : format_RFC3339Nano (1700000000 * Second + 120000000) = "2023-11-14T22:13:20.12Z".
Proof. vm_compute. reflexivity. Qed.
Example format_ex2 : format_RFC3339 (951782400 * Second) = "2000-02-29T00:00:00Z".
Proof. vm_compute. reflexivity. Qed.

(** [int64] arithmetic wraps around. *)
Definition to_int64 (z : Z) : Z := (z + 2 ^ 63) mod 2 ^ 64 - 2 ^ 63.

(** [t.Sub(u)]: the difference, saturated to the range of a [Duration]. *)
Definition time_Sub (t u : time) : duration := Z.max (- 2 ^ 63) (Z.min (2 ^ 63 - 1) (t - u)).
