(* ===== verification/GoFloat.v ===== *)
(** * float64

    IEEE 754 binary64 values of the [SpecFloat] library, with the conversions and
    the part of [math] the control plane uses. *)
From Stdlib Require Import SpecFloat.
From S2P Require Import Prelude.
Local Open Scope Z_scope.

Notation float64 := spec_float (only parsing).

(** [float64(n)] *)
Definition float64_of_int (n : Z) : float64 := binary_normalize 53 1024 n 0 false.
Definition f_zero : float64 := S754_zero false.
Definition f_quarter : float64 := S754_finite false 4503599627370496 (-54).
Definition f_half : float64 := S754_finite false 4503599627370496 (-53).
Definition f_one : float64 := S754_finite false 4503599627370496 (-52).
Definition f_two : float64 := S754_finite false 4503599627370496 (-51).

(** The product and the sum, rounded to nearest even. *)
Definition fmul (x y : float64) : float64 := SFmul 53 1024 x y.
Definition fadd (x y : float64) : float64 := SFadd 53 1024 x y.
Definition fdiv (x y : float64) : float64 := SFdiv 53 1024 x y.

(** [x >= y] *)
Definition fge (x y : float64) : bool := SFleb y x.

(** [math.Frexp] and [math.Ldexp] *)
Definition Frexp (x : float64) : float64 * Z := SFfrexp 53 1024 x.
Definition Ldexp (x : float64) (e : Z) : float64 := SFldexp 53 1024 x e.

(** The loop of [math.Pow] over the bits of the exponent: [a1 * 2^ae] is the
    answer so far and [x1 * 2^xe] the current square. *)
Fixpoint pow_loop (i : positive) (a1 : float64) (ae : Z) (x1 : float64) (xe : Z) : float64 * Z :=
  if (xe <? -4096) || (4096 <? xe) then (a1, ae + xe)
  else
    let '(a1', ae') := match i with xO _ => (a1, ae) | _ => (fmul a1 x1, ae + xe) end in
    let x2 := fmul x1 x1 in
    let '(x2, xe2) := if SFltb x2 f_half then (fadd x2 x2, 2 * xe - 1) else (x2, 2 * xe) in
    match i with
    | xH => (a1', ae')
    | xO i' | xI i' => pow_loop i' a1' ae' x2 xe2
    end.

(** [math.Pow(x, float64(n))] for a finite [x] that is not zero and [0 <= n < 2^53]. *)
Definition Pow (x : float64) (n : Z) : float64 :=
  match n with
  | Zpos i =>
      if SFeqb x f_one then f_one
      else if n =? 1 then x
      else let '(x1, xe) := Frexp x in let '(a1, ae) := pow_loop i f_one 0 x1 xe in Ldexp a1 ae
  | _ => f_one
  end.

(** The integer part, towards zero; [None] for an infinity or a NaN. *)
Definition truncate (x : float64) : option Z :=
  match x with
  | S754_zero _ => Some 0
  | S754_finite s m e =>
      let n := if 0 <=? e then Zpos m * 2 ^ e else Zpos m / 2 ^ (- e) in Some (if s then - n else n)
  | _ => None
  end.

Definition min_int64 : Z := - 2 ^ 63.
Definition max_int64 : Z := 2 ^ 63 - 1.
Definition in_int64 (n : Z) : bool := (min_int64 <=? n) && (n <=? max_int64).

(** [int64(x)].  What a value out of range converts to depends on the
    implementation: [overflow] says. *)
Definition int64_of_float (overflow : float64 → Z) (x : float64) : Z :=
  match truncate x with
  | Some n => if in_int64 n then n else overflow x
  | None => overflow x
  end.

(** The conversion of amd64 and the saturating one of arm64. *)
Definition amd64_overflow (_ : float64) : Z := min_int64.
Definition arm64_overflow (x : float64) : Z :=
  match x with S754_nan => 0 | _ => if SFltb x f_zero then min_int64 else max_int64 end.

Example pow_ex : Pow f_two 10 = float64_of_int 1024.
Proof. vm_compute. reflexivity. Qed.
Example truncate_ex : truncate (fmul (float64_of_int 5000000000) (Pow f_two 3)) = Some 40000000000.
Proof. vm_compute. reflexivity. Qed.
