(* ===== verification/GoSort.v ===== *)
(** * In-place insertion sort

    The control plane sorts small slices with a hand-written insertion sort:

    [for i := 1; i < len(xs); i++ { for j := i; j > 0 && before(xs[j], xs[j-1]); j-- { swap } }]

    The two loops are given on indices, as the source has them, and shown to
    be insertion into the sorted prefix. *)
From S2P Require Import Prelude.
From stdpp Require Export sorting.

Lemma StronglySorted_weaken {A} (R1 R2 : A → A → Prop) l :
  (∀ a b, R1 a b → R2 a b) → StronglySorted R1 l → StronglySorted R2 l.
Proof. intros HR. induction 1; constructor; [done|]. eapply Forall_impl; eauto. Qed.

Lemma StronglySorted_rev {A} (R : A → A → Prop) l :
  StronglySorted R l → StronglySorted (λ a b, R b a) (rev l).
Proof.
  induction 1 as [|y l Hs IH Hy]; simpl; [constructor|].
  apply StronglySorted_app_2; [|done|repeat constructor].
  intros a b Ha Hb. apply list_elem_of_In, in_rev, list_elem_of_In in Ha.
  apply list_elem_of_singleton in Hb as ->. rewrite Forall_forall in Hy. by apply Hy.
Qed.

Section insertion_sort.
Context {A : Type} (before : A → A → bool).

(** The inner loop, from index [j] down. *)
Fixpoint sort_inner (j : nat) (xs : list A) : list A :=
  match j with
  | O => xs
  | S j' =>
      match xs !! j, xs !! j' with
      | Some x, Some y => if before x y then sort_inner j' (<[j := y]> (<[j' := x]> xs)) else xs
      | _, _ => xs
      end
  end.

(** The outer loop. *)
Definition insertion_sort (xs : list A) : list A :=
  foldl (λ l i, sort_inner i l) xs (seq 1 (length xs - 1)).

(** Insertion into a prefix kept in reverse order. *)
Fixpoint ins (x : A) (rp : list A) : list A :=
  match rp with
  | [] => [x]
  | y :: rp' => if before x y then y :: ins x rp' else x :: y :: rp'
  end.

Lemma sort_inner_ins rp x rest :
  sort_inner (length rp) (rev rp ++ x :: rest) = rev (ins x rp) ++ rest.
Proof.
  revert x rest. induction rp as [|y rp IH]; intros x rest; [done|].
  cbn [length sort_inner rev ins].
  assert (Hx : ((rev rp ++ [y]) ++ x :: rest) !! S (length rp) = Some x).
  { rewrite lookup_app_r; rewrite length_app, length_rev; simpl; [|lia].
    by replace (S (length rp) - (length rp + 1)) with 0 by lia. }
  assert (Hy : ((rev rp ++ [y]) ++ x :: rest) !! length rp = Some y).
  { rewrite lookup_app_l; [|rewrite length_app, length_rev; simpl; lia].
    rewrite lookup_app_r; rewrite length_rev; [|lia]. by rewrite Nat.sub_diag. }
  rewrite Hx, Hy. destruct (before x y); [|cbn; by rewrite <- !app_assoc].
  replace (<[S (length rp) := y]> (<[length rp := x]> ((rev rp ++ [y]) ++ x :: rest)))
    with (rev rp ++ x :: y :: rest); [by rewrite IH; cbn; rewrite <- app_assoc|].
  rewrite <- app_assoc. cbn [app].
  rewrite (insert_app_r_alt (rev rp)) by (rewrite length_rev; lia).
  rewrite length_rev, Nat.sub_diag. cbn.
  rewrite (insert_app_r_alt (rev rp)) by (rewrite length_rev; lia).
  rewrite length_rev. by replace (S (length rp) - length rp) with 1 by lia.
Qed.

Lemma insertion_sort_ins xs : insertion_sort xs = rev (foldl (λ rp x, ins x rp) [] xs).
Proof.
  unfold insertion_sort. destruct xs as [|x xs]; [done|]. simpl. rewrite Nat.sub_0_r.
  enough (∀ rp, length rp > 0 →
    foldl (λ l i, sort_inner i l) (rev rp ++ xs) (seq (length rp) (length xs)) =
    rev (foldl (λ rp x, ins x rp) rp xs)) as Hgo by (apply (Hgo [x]); simpl; lia).
  clear x. induction xs as [|x xs IH]; intros rp Hrp; simpl; [by rewrite app_nil_r|].
  rewrite sort_inner_ins.
  assert (Hlen : length (ins x rp) = S (length rp)).
  { clear. induction rp as [|y rp IH]; simpl; [done|]. destruct (before x y); simpl; auto. }
  rewrite <- Hlen. apply IH. lia.
Qed.

Lemma ins_perm x rp : ins x rp ≡ₚ x :: rp.
Proof. induction rp as [|y rp IH]; simpl; [done|]. destruct (before x y); [|done]. rewrite IH. constructor. Qed.

Lemma insertion_sort_perm xs : insertion_sort xs ≡ₚ xs.
Proof.
  rewrite insertion_sort_ins, <- Permutation_rev.
  enough (∀ rp, foldl (λ rp x, ins x rp) rp xs ≡ₚ xs ++ rp) as H by (rewrite H; by rewrite app_nil_r).
  induction xs as [|x xs IH]; intros rp; simpl; [done|].
  rewrite IH, ins_perm. symmetry. apply Permutation_middle.
Qed.

(** When [before] is a strict weak order, no element of the result comes
    before one that precedes it. *)
Context (before_trans : ∀ x y z, before y x = false → before z y = false → before z x = false).
Context (before_asym : ∀ x y, before x y = true → before y x = false).

Lemma ins_sorted x rp :
  StronglySorted (λ a b, before a b = false) rp → StronglySorted (λ a b, before a b = false) (ins x rp).
Proof.
  induction 1 as [|y rp Hs IH Hy]; simpl; [repeat constructor|].
  destruct (before x y) eqn:E; constructor; [done| |by constructor|].
  - rewrite ins_perm. constructor; [by apply before_asym|done].
  - constructor; [done|]. eapply Forall_impl; [exact Hy|]. intros z Hz. simpl in *.
    eapply before_trans; eauto.
Qed.

Lemma insertion_sort_sorted xs : StronglySorted (λ a b, before b a = false) (insertion_sort xs).
Proof.
  rewrite insertion_sort_ins.
  assert (Hs : StronglySorted (λ a b, before a b = false) (foldl (λ rp x, ins x rp) [] xs)).
  { enough (∀ rp, StronglySorted (λ a b, before a b = false) rp →
      StronglySorted (λ a b, before a b = false) (foldl (λ rp x, ins x rp) rp xs)) as H by (apply H; constructor).
    induction xs as [|x xs IH]; intros rp Hrp; simpl; [done|]. by apply IH, ins_sorted. }
  by apply StronglySorted_rev.
Qed.
End insertion_sort.
