(* ===== verification/GoSql.v ===== *)
(** * SQL stores as state-and-error computations

    Most components of the control plane keep their state in a SQLite table and
    some of it in memory.  An operation of such a component is a computation
    [M S A] on the state [S]: it returns an error or a value, and the new state.
    Every SQL statement may fail; the errors of the driver, the clock, the UUID
    generator and the order in which the database returns rows that compare
    equal come from a [Host], indexed by the number of such calls made so far
    ([ticks]), so that a theorem holds for every history of faults and readings. *)
From S2P Require Import Prelude GoStrings GoErrors GoTime GoSort.
Local Open Scope Z_scope.

Class Host := {
  sql_fault : nat → option go_error;
  clock : nat → time;
  new_uuid : nat → string;
  order_by : ∀ {A : Type}, (A → A → bool) → list A → list A;
}.

(** What SQL promises of [ORDER BY]: the same rows, in the order of the key. *)
Class HostLaws `{Host} := {
  order_by_perm {A} (le : A → A → bool) (l : list A) : order_by le l ≡ₚ l;
  order_by_sorted {A} (le : A → A → bool) (l : list A) :
    (∀ x y, le x y = true ∨ le y x = true) → (∀ x y z, le x y = true → le y z = true → le x z = true) →
    StronglySorted (λ x y, le x y = true) (order_by le l);
}.

(** [ticks] counts the statements, clock readings and UUIDs so far. *)
Record DB (S : Type) := { rows : S; ticks : nat }.
Arguments rows {S} _.
Arguments ticks {S} _.
Arguments Build_DB {S} _ _.

Definition M (S A : Type) : Type := DB S → result A * DB S.
#[export] Instance M_ret {S} : MRet (M S) := λ A a db, (inr a, db).
#[export] Instance M_bind {S} : MBind (M S) := λ A B f m db,
  match m db with (inl e, db') => (inl e, db') | (inr a, db') => f a db' end.
Definition fail {S A} (e : go_error) : M S A := λ db, (inl e, db).
Definition errorf {S A} (msg : string) : M S A := fail (ErrorString msg).

(** [if err != nil { return .., f(err) }] *)
Definition wrap_error {S A} (f : go_error → go_error) (m : M S A) : M S A := λ db,
  match m db with (inl e, db') => (inl (f e), db') | r => r end.
Definition errorf_w (prefix : string) (e : go_error) : go_error := WrapError (prefix +:+ ": " +:+ Error e)%string e.

Section sql.
Context `{Host} {S : Type}.

Definition tick (db : DB S) : DB S := {| rows := rows db; ticks := Datatypes.S (ticks db) |}.
Definition time_now : M S time := λ db, (inr (clock (ticks db)), tick db).
Definition uuid_NewString : M S string := λ db, (inr (new_uuid (ticks db)), tick db).

(** Reading the part of the state that is in memory. *)
Definition gets {A} (f : S → A) : M S A := λ db, (inr (f (rows db)), db).

(** A call whose error is a value to the caller, and one whose error is
    discarded ([_ = f()]). *)
Definition attempt {A} (m : M S A) : M S (result A) := λ db, let '(r, db') := m db in (inr r, db').
Definition ignore_error {A} (m : M S A) : M S unit := λ db, (inr tt, (m db).2).

(** A statement that only reads, and one that writes. *)
Definition query {A} (f : S → result A) : M S A := λ db,
  match sql_fault (ticks db) with Some e => (inl e, tick db) | None => (f (rows db), tick db) end.
Definition exec {A} (f : S → result A * S) : M S A := λ db,
  match sql_fault (ticks db) with
  | Some e => (inl e, tick db)
  | None => let '(r, l) := f (rows db) in (r, {| rows := l; ticks := Datatypes.S (ticks db) |})
  end.

(** A transaction: on an error the deferred rollback restores the state. *)
Definition transaction {A} (body : M S A) : M S A := λ db,
  match body db with
  | (inl e, db') => (inl e, {| rows := rows db; ticks := ticks db' |})
  | r => r
  end.

Definition begin_ : M S unit := query (λ _, inr tt).
Definition commit : M S unit := query (λ _, inr tt).
End sql.

(** ** What a computation does to the state *)

Section effects.
Context `{Host} {S : Type}.
Implicit Types R : S → S → Prop.

Definition reads {A} (m : M S A) : Prop := ∀ db res db', m db = (res, db') → rows db' = rows db.
(** [writes R m]: [m] leaves the state alone or performs one step of [R]. *)
Definition writes {A} R (m : M S A) : Prop :=
  ∀ db res db', m db = (res, db') → rows db' = rows db ∨ R (rows db) (rows db').

Lemma reads_ret {A} (a : A) : reads (mret a).
Proof. intros db res db' [= _ <-]. done. Qed.
Lemma reads_fail {A} e : reads (fail (A:=A) e).
Proof. intros db res db' [= _ <-]. done. Qed.
Lemma reads_errorf {A} msg : reads (errorf (A:=A) msg).
Proof. intros db res db' [= _ <-]. done. Qed.
Lemma reads_time : reads time_now.
Proof. intros db res db' [= _ <-]. done. Qed.
Lemma reads_uuid : reads uuid_NewString.
Proof. intros db res db' [= _ <-]. done. Qed.
Lemma reads_gets {A} (f : S → A) : reads (gets f).
Proof. intros db res db' [= _ <-]. done. Qed.
Lemma reads_attempt {A} (m : M S A) : reads m → reads (attempt m).
Proof. unfold attempt. intros Hm db res db' E. destruct (m db) eqn:Em. simplify_eq. by eapply Hm. Qed.
Lemma reads_query {A} (f : S → result A) : reads (query f).
Proof. unfold query. intros db res db' Hm. case_match; simplify_eq; done. Qed.
Lemma reads_bind {A B} (m : M S A) (f : A → M S B) : reads m → (∀ a, reads (f a)) → reads (m ≫= f).
Proof.
  unfold mbind, M_bind. intros Hm Hf db res db' Hmf. destruct (m db) as [[e|a] db1] eqn:E; simplify_eq.
  - by eapply Hm.
  - rewrite (Hf a _ _ _ Hmf). by eapply Hm.
Qed.
Lemma reads_writes {A} R (m : M S A) : reads m → writes R m.
Proof. intros Hm db res db' E. left. by eapply Hm. Qed.
Lemma writes_bind_after {A B} R (m : M S A) (f : A → M S B) : reads m → (∀ a, writes R (f a)) → writes R (m ≫= f).
Proof.
  unfold mbind, M_bind. intros Hm Hf db res db' Hmf. destruct (m db) as [[e|a] db1] eqn:E; simplify_eq.
  - left. by eapply Hm.
  - rewrite <- (Hm _ _ _ E). by eapply Hf.
Qed.
Lemma writes_bind_before {A B} R (m : M S A) (f : A → M S B) : writes R m → (∀ a, reads (f a)) → writes R (m ≫= f).
Proof.
  unfold mbind, M_bind. intros Hm Hf db res db' Hmf. destruct (m db) as [[e|a] db1] eqn:E; simplify_eq.
  - by eapply Hm.
  - rewrite (Hf a _ _ _ Hmf). by eapply Hm.
Qed.
Lemma writes_wrap {A} R f (m : M S A) : writes R m → writes R (wrap_error f m).
Proof. unfold wrap_error. intros Hm db res db' E. destruct (m db) as [[e|a] db1] eqn:Em; simplify_eq; by eapply Hm. Qed.
Lemma writes_transaction {A} R (m : M S A) : writes R m → writes R (transaction m).
Proof.
  unfold transaction. intros Hm db res db' E. destruct (m db) as [[e|a] db1] eqn:Em; simplify_eq; [by left|by eapply Hm].
Qed.

(** A successful call, taken apart. *)
Lemma bind_inr {A B} (m : M S A) (f : A → M S B) db b db' :
  (m ≫= f) db = (inr b, db') → ∃ a db1, m db = (inr a, db1) ∧ f a db1 = (inr b, db').
Proof. unfold mbind, M_bind. destruct (m db) as [[e|a] db1]; intros ?; simplify_eq. eauto. Qed.
Lemma bind_cases {A B} (m : M S A) (f : A → M S B) db r db' :
  (m ≫= f) db = (r, db') → (∃ e, m db = (inl e, db') ∧ r = inl e) ∨ ∃ a db1, m db = (inr a, db1) ∧ f a db1 = (r, db').
Proof. unfold mbind, M_bind. destruct (m db) as [[e|a] db1]; intros E; [left; exists e; by injection E as <- <-|right; eauto]. Qed.
Lemma wrap_cases {A} f (m : M S A) db r db' : wrap_error f m db = (r, db') → ∃ r0, m db = (r0, db') ∧ r = match r0 with inl e => inl (f e) | inr a => inr a end.
Proof. unfold wrap_error. destruct (m db) as [[e|b] db1]; intros [= <- <-]; eauto. Qed.
Lemma query_inr {A} (f : S → result A) db a db' :
  query f db = (inr a, db') → f (rows db) = inr a ∧ rows db' = rows db.
Proof. unfold query. intros ?. case_match; by simplify_eq. Qed.
Lemma query_tick {A} (f : S → result A) db a db' : query f db = (inr a, db') → f (rows db) = inr a ∧ db' = tick db.
Proof. unfold query. intros ?. case_match; by simplify_eq. Qed.
Lemma exec_inr {A} (f : S → result A * S) db a db' :
  exec f db = (inr a, db') → f (rows db) = (inr a, rows db').
Proof. unfold exec. intros ?. case_match; [done|]. destruct (f (rows db)). by simplify_eq. Qed.
Lemma exec_ticks {A} (f : S → result A * S) db r db' : exec f db = (r, db') → ticks db' = Datatypes.S (ticks db).
Proof. unfold exec. destruct (sql_fault _); [by intros [= _ <-]|]. destruct (f (rows db)). by intros [= _ <-]. Qed.
Lemma wrap_inr {A} f (m : M S A) db a db' : wrap_error f m db = (inr a, db') → m db = (inr a, db').
Proof. unfold wrap_error. destruct (m db) as [[e|b] db1]; intros ?; by simplify_eq. Qed.
Lemma attempt_inr {A} (m : M S A) db r db' : attempt m db = (inr r, db') → m db = (r, db').
Proof. unfold attempt. destruct (m db). by intros [= <- <-]. Qed.
Lemma ret_inr {A} (a b : A) (db db' : DB S) : (mret a : M S A) db = (inr b, db') → b = a ∧ db' = db.
Proof. by intros [= -> ->]. Qed.
Lemma transaction_inr {A} (m : M S A) db a db' : transaction m db = (inr a, db') → m db = (inr a, db').
Proof. unfold transaction. destruct (m db) as [[e|b] db1]; intros ?; by simplify_eq. Qed.

(** What a transaction writes is what its body does when it succeeds. *)
Lemma writes_transaction_body {A} R (m : M S A) :
  (∀ db a db', m db = (inr a, db') → rows db' = rows db ∨ R (rows db) (rows db')) → writes R (transaction m).
Proof.
  unfold transaction. intros Hm db res db' E. destruct (m db) as [[e|a] db1] eqn:Em; simplify_eq; [by left|by eapply Hm].
Qed.

(** The steps of [R] that one statement can take. *)
Lemma writes_exec {A} R (f : S → result A * S) :
  (∀ s, (f s).2 = s ∨ R s (f s).2) → writes R (exec f).
Proof.
  unfold exec. intros Hf db res db' E. destruct (sql_fault _); [simplify_eq; by left|].
  specialize (Hf (rows db)). destruct (f (rows db)) as [r s]. by simplify_eq/=.
Qed.

(** [runs R m]: whatever [m] returns, it performs steps of [R]. *)
Definition runs {A} R (m : M S A) : Prop := ∀ db res db', m db = (res, db') → rtc R (rows db) (rows db').

Lemma runs_reads {A} R (m : M S A) : reads m → runs R m.
Proof. intros Hm db res db' E. rewrite (Hm _ _ _ E). reflexivity. Qed.
Lemma runs_mono {A} R R' (m : M S A) : (∀ s s', R s s' → R' s s') → runs R m → runs R' m.
Proof. intros HR Hm db res db' E. eapply rtc_subrel; [exact HR|by eapply Hm]. Qed.
Lemma runs_writes {A} R (m : M S A) : writes R m → runs R m.
Proof. intros Hm db res db' E. destruct (Hm _ _ _ E) as [->|HR]; [reflexivity|by apply rtc_once]. Qed.
Lemma runs_bind {A B} R (m : M S A) (f : A → M S B) : runs R m → (∀ a, runs R (f a)) → runs R (m ≫= f).
Proof.
  unfold mbind, M_bind. intros Hm Hf db res db' Hmf. destruct (m db) as [[e|a] db1] eqn:E; simplify_eq.
  - by eapply Hm.
  - etrans; [by eapply Hm|by eapply Hf].
Qed.
Lemma runs_wrap {A} R f (m : M S A) : runs R m → runs R (wrap_error f m).
Proof. unfold wrap_error. intros Hm db res db' E. destruct (m db) as [[e|a] db1] eqn:Em; simplify_eq; by eapply Hm. Qed.
Lemma runs_attempt {A} R (m : M S A) : runs R m → runs R (attempt m).
Proof. unfold attempt. intros Hm db res db' E. destruct (m db) eqn:Em. simplify_eq. by eapply Hm. Qed.
Lemma runs_ignore {A} R (m : M S A) : runs R m → runs R (ignore_error m).
Proof. intros Hm db res db' [= _ <-]. by eapply Hm, surjective_pairing. Qed.
Lemma runs_exec {A} R (f : S → result A * S) : (∀ s, (f s).2 = s ∨ R s (f s).2) → runs R (exec f).
Proof.
  intros Hf db res db' E. destruct (writes_exec R f Hf db res db' E) as [->|HR]; [reflexivity|by apply rtc_once].
Qed.

(** [keeps P m]: whatever [m] returns, it preserves [P], which may also speak of
    the readings that are still to come. *)
Definition keeps {A} (P : DB S → Prop) (m : M S A) : Prop := ∀ db, P db → P (m db).2.

Lemma keeps_bind {A B} P (m : M S A) (f : A → M S B) : keeps P m → (∀ a, keeps P (f a)) → keeps P (m ≫= f).
Proof. intros Hm Hf db HP. unfold mbind, M_bind. specialize (Hm db HP). destruct (m db) as [[e|a] db1]; [done|]. by apply Hf. Qed.
Lemma keeps_ret {A} P (a : A) : keeps P (mret a : M S A).
Proof. by intros db HP. Qed.
Lemma keeps_fail {A} P e : keeps P (fail e : M S A).
Proof. by intros db HP. Qed.
Lemma keeps_errorf {A} P msg : keeps P (errorf msg : M S A).
Proof. by intros db HP. Qed.
Lemma keeps_wrap {A} P f (m : M S A) : keeps P m → keeps P (wrap_error f m).
Proof. intros Hm db HP. unfold wrap_error. specialize (Hm db HP). by destruct (m db) as [[e|a] db1]. Qed.
Lemma keeps_attempt {A} P (m : M S A) : keeps P m → keeps P (attempt m).
Proof. intros Hm db HP. unfold attempt. specialize (Hm db HP). by destruct (m db). Qed.
Lemma keeps_ignore {A} P (m : M S A) : keeps P m → keeps P (ignore_error m).
Proof. intros Hm db HP. by apply Hm. Qed.
Lemma keeps_query {A} P (f : S → result A) : (∀ db, P db → P (tick db)) → keeps P (query f).
Proof. intros Ht db HP. unfold query. case_match; by apply Ht. Qed.
Lemma keeps_time P : (∀ db, P db → P (tick db)) → keeps P time_now.
Proof. intros Ht db HP. by apply Ht. Qed.
Lemma keeps_uuid P : (∀ db, P db → P (tick db)) → keeps P uuid_NewString.
Proof. intros Ht db HP. by apply Ht. Qed.
Lemma keeps_exec {A} P (f : S → result A * S) :
  (∀ db, P db → P (tick db)) → (∀ s n, P (Build_DB s n) → P (Build_DB (f s).2 (Datatypes.S n))) → keeps P (exec f).
Proof.
  intros Ht Hf db HP. unfold exec. case_match; [by apply Ht|]. destruct db as [s n]. specialize (Hf s n HP). cbn [rows ticks].
  by destruct (f s) as [r s'].
Qed.
End effects.

#[export] Hint Resolve reads_ret reads_fail reads_errorf reads_time reads_uuid reads_gets reads_query reads_bind reads_writes runs_reads runs_bind runs_wrap reads_attempt runs_attempt runs_ignore : legator.

(** ** Statements of a database that answers *)

Section answers.
Context `{Host} {S : Type} (no_faults : ∀ n, sql_fault n = None).

Lemma run_query {A} (f : S → result A) db : query f db = (f (rows db), tick db).
Proof. unfold query. by rewrite no_faults. Qed.
Lemma run_exec {A} (f : S → result A * S) db :
  exec f db = ((f (rows db)).1, {| rows := (f (rows db)).2; ticks := Datatypes.S (ticks db) |}).
Proof. unfold exec. rewrite no_faults. by destruct (f (rows db)). Qed.
End answers.

(** A host whose database always answers, with a clock that advances. *)
Module ExampleHost.
#[export] Instance host : Host := {|
  sql_fault := λ _, None; clock := λ n, Z.of_nat n * Second; new_uuid := λ n, ("u-" +:+ pretty n)%string;
  order_by := λ A le l, insertion_sort (λ x y, negb (le y x)) l |}.
Lemma host_answers n : @sql_fault host n = None.
Proof. done. Qed.
#[export] Instance host_laws : HostLaws.
Proof.
  constructor; intros A le l; [apply insertion_sort_perm|]. intros Htot Htrans.
  eapply StronglySorted_weaken; [|apply insertion_sort_sorted].
  - simpl. intros x y Hxy. by destruct (le x y).
  - intros x y z Hxy Hyz. rewrite negb_false_iff in *. eauto.
  - intros x y. rewrite negb_true_iff, negb_false_iff. destruct (Htot x y) as [|E]; [done|by rewrite E].
Qed.
End ExampleHost.
