(* ===== verification/GoRuntime.v ===== *)
(** * What the Go runtime leaves open, and state shared between components

    A [range] over a map visits the entries in an order that differs from call to
    call, and [sort.Slice] leaves elements that compare equal in any order.  Both
    come from a [Runtime], so that a theorem holds for every order.  [zoom] runs
    an operation of one component on the state of a larger one. *)
From S2P Require Import Prelude GoErrors GoSort GoSql.

Class Runtime := {
  map_range : ∀ {A : Type}, nat → list A → list A;
  sort_Slice : ∀ {A : Type}, (A → A → bool) → list A → list A;
  map_range_perm {A} n (l : list A) : map_range n l ≡ₚ l;
  sort_Slice_perm {A} (less : A → A → bool) l : sort_Slice less l ≡ₚ l;
  sort_Slice_sorted {A} (less : A → A → bool) l :
    (∀ x y, less x y = true → less y x = false) → (∀ x y z, less y x = false → less z y = false → less z x = false) →
    StronglySorted (λ x y, less y x = false) (sort_Slice less l);
}.

Section runtime.
Context `{Host} `{Runtime} {S : Type}.

(** [for k, v := range m] *)
Definition range {A} (m : S → gmap string A) : M S (list (string * A)) := λ db,
  (inr (map_range (ticks db) (map_to_list (m (rows db)))), tick db).

(** An assignment to state in memory. *)
Definition puts (f : S → S) : M S unit := λ db, (inr tt, {| rows := f (rows db); ticks := ticks db |}).

(** Does [f] on every element, in order. *)
Fixpoint for_each {A} (f : A → M S unit) (l : list A) : M S unit :=
  match l with [] => mret tt | x :: l' => f x ≫= λ _, for_each f l' end.

Lemma reads_range {A} (m : S → gmap string A) : reads (range m).
Proof. by intros db res db' [= _ <-]. Qed.

Lemma elem_of_range {A} (m : gmap string A) n k v : (k, v) ∈ map_range n (map_to_list m) ↔ m !! k = Some v.
Proof. by rewrite map_range_perm, elem_of_map_to_list. Qed.
End runtime.
#[export] Hint Resolve reads_range : legator.

Section zoom.
Context `{Host} {S T : Type} (get : S → T) (put : T → S → S).

Definition zoom {A} (m : M T A) : M S A := λ db,
  let '(r, db') := m {| rows := get (rows db); ticks := ticks db |} in
  (r, {| rows := put (rows db') (rows db); ticks := ticks db' |}).

(** What a zoomed call does is what the call does to its part. *)
Lemma zoom_eq {A} (m : M T A) db r db' :
  zoom m db = (r, db') → ∃ d, m {| rows := get (rows db); ticks := ticks db |} = (r, d) ∧ rows db' = put (rows d) (rows db) ∧ ticks db' = ticks d.
Proof. unfold zoom. destruct (m _) as [r0 d] eqn:E. intros [= <- <-]. by exists d. Qed.
End zoom.

(** A runtime that visits maps in key order. *)
Module ExampleRuntime.
#[export] Instance runtime : Runtime.
Proof.
  refine {| map_range := λ A _ l, l; sort_Slice := λ A less l, insertion_sort less l |}; intros A.
  - done.
  - intros. apply insertion_sort_perm.
  - intros less l Has Htr. apply insertion_sort_sorted; [|done]. intros x y z Hxy Hyz. by eapply Htr.
Defined.
End ExampleRuntime.
