(* ===== verification/GoJson.v ===== *)
(** * The part of [encoding/json] the audit log depends on

    A Go value of type [any] is marshalled to a JSON tree and rendered to text.
    [json.Marshal] writes the keys of a map in order and the fields of a struct as
    they are declared; [json.Unmarshal] into an [any] makes maps of objects.
    Numbers are the integers a float64 holds exactly; text above 0x7f is copied. *)
From S2P Require Import Prelude GoStrings GoErrors.
From stdpp Require Import sorting.
Local Open Scope go_scope.

Inductive json :=
  | JNull
  | JBool (b : bool)
  | JNum (z : Z)
  | JStr (s : string)
  | JArr (l : list json)
  | JObj (fields : list (string * json)).

(** Go values: a map is listed in some order of its distinct keys; a value that
    holds a channel or a function is [VUnsupported] with its type. *)
Inductive value :=
  | VNil
  | VBool (b : bool)
  | VInt (z : Z)
  | VString (s : string)
  | VSlice (l : list value)
  | VMap (entries : list (string * value))
  | VStruct (fields : list (string * value))
  | VUnsupported (typ : string).

(** ** Marshal *)

Section sort_keys.
Context {A : Type}.
Fixpoint insert_key (x : string * A) (l : list (string * A)) : list (string * A) :=
  match l with
  | [] => [x]
  | y :: l' => if String.ltb x.1 y.1 then x :: l else y :: insert_key x l'
  end.
Definition sort_keys (l : list (string * A)) : list (string * A) := foldr insert_key [] l.

(** Strictly increasing keys. *)
Fixpoint increasing (l : list (string * A)) : bool :=
  match l with
  | x :: (y :: _) as l' => String.ltb x.1 y.1 && increasing l'
  | _ => true
  end.

Lemma sort_increasing l : increasing l = true → sort_keys l = l.
Proof.
  induction l as [|x l IH]; [done|]. intros H. simpl. destruct l as [|y l]; [done|].
  apply andb_true_iff in H as [Hxy Hl]. rewrite (IH Hl). simpl. by rewrite Hxy.
Qed.

Lemma insert_increasing x l :
  increasing l = true → (∀ y, y ∈ l → x.1 ≠ y.1) → increasing (insert_key x l) = true.
Proof.
  induction l as [|y l IH]; [done|]. intros Hl Hx. cbn [insert_key].
  destruct (String.ltb x.1 y.1) eqn:E; [cbn [increasing]; by rewrite E|].
  assert (Hyx : String.ltb y.1 x.1 = true).
  { assert (x.1 ≠ y.1) as Hne by (apply Hx, elem_of_cons; by left).
    unfold String.ltb in *. rewrite String.compare_antisym. destruct (String.compare x.1 y.1) eqn:Ec; [|done|done].
    by apply String.compare_eq_iff in Ec. }
  assert (Hl' : increasing l = true) by (destruct l; [done|cbn [increasing] in Hl; by apply andb_true_iff in Hl as [_ ?]]).
  specialize (IH Hl' (λ z Hz, Hx z (proj2 (elem_of_cons _ _ _) (or_intror Hz)))).
  destruct l as [|z l]; cbn [insert_key] in *; [cbn; by rewrite Hyx|].
  apply andb_true_iff in Hl as [Hyz _]. destruct (String.ltb x.1 z.1); cbn [increasing] in *.
  - rewrite Hyx. exact IH.
  - by rewrite Hyz.
Qed.

Lemma elem_of_insert_key x y l : y ∈ insert_key x l ↔ y = x ∨ y ∈ l.
Proof.
  induction l as [|z l IH]; simpl; [by rewrite elem_of_cons|].
  destruct (String.ltb x.1 z.1); rewrite !elem_of_cons, ?IH; naive_solver.
Qed.
Lemma elem_of_sort_keys y l : y ∈ sort_keys l ↔ y ∈ l.
Proof. induction l as [|x l IH]; simpl; [done|]. by rewrite elem_of_insert_key, elem_of_cons, IH. Qed.

Lemma sort_keys_increasing l : NoDup (map fst l) → increasing (sort_keys l) = true.
Proof.
  induction l as [|x l IH]; [done|]. simpl. intros [Hx Hd]%NoDup_cons. apply insert_increasing; [by apply IH|].
  intros y Hy E. rewrite elem_of_sort_keys in Hy. destruct Hx. rewrite E. apply list_elem_of_In, (in_map fst), list_elem_of_In, Hy.
Qed.
End sort_keys.

(** The first error of a list of results, or all the values. *)
Fixpoint sequence {A B} (f : A → result B) (l : list A) : result (list B) :=
  match l with
  | [] => inr []
  | a :: l' => match f a with inl e => inl e | inr b => match sequence f l' with inl e => inl e | inr bs => inr (b :: bs) end end
  end.

Definition on_field {A B} (f : A → result B) (kv : string * A) : result (string * B) :=
  match f kv.2 with inl e => inl e | inr b => inr (kv.1, b) end.

(** [json.Marshal] *)
Fixpoint Marshal (v : value) : result json :=
  match v with
  | VNil => inr JNull
  | VBool b => inr (JBool b)
  | VInt z => inr (JNum z)
  | VString s => inr (JStr s)
  | VSlice l => match sequence Marshal l with inl e => inl e | inr js => inr (JArr js) end
  | VMap m => match sequence (on_field Marshal) m with inl e => inl e | inr fs => inr (JObj (sort_keys fs)) end
  | VStruct m => match sequence (on_field Marshal) m with inl e => inl e | inr fs => inr (JObj fs) end
  | VUnsupported typ => inl (ErrorString ("json: unsupported type: " +:+ typ)%string)
  end.

(** [json.Unmarshal] into a nil [any] *)
Fixpoint Unmarshal (j : json) : value :=
  match j with
  | JNull => VNil
  | JBool b => VBool b
  | JNum z => VInt z
  | JStr s => VString s
  | JArr l => VSlice (map Unmarshal l)
  | JObj fs => VMap (map (λ kv, (kv.1, Unmarshal kv.2)) fs)
  end.

(** ** Text *)

(** Two-digit escapes, [u00XX] escapes (also for the characters HTML treats
    specially), and everything else as it is. *)
Definition escape_char (c : ascii) : string :=
  let n := Ascii.nat_of_ascii c in
  let bs := Ascii.ascii_of_nat 92 in
  if (n =? 34)%nat || (n =? 92)%nat then String bs (String c EmptyString)
  else match n with
  | 8 => String bs "b" | 12 => String bs "f" | 10 => String bs "n" | 13 => String bs "r" | 9 => String bs "t"
  | _ =>
      if (n <? 32)%nat || (n =? 38)%nat || (n =? 60)%nat || (n =? 62)%nat
      then (String bs "u00" +:+ String (hex_digit (n / 16)) (String (hex_digit (n mod 16)) EmptyString))%string
      else String c EmptyString
  end.

Fixpoint escape (s : string) : string :=
  match s with EmptyString => EmptyString | String c s' => (escape_char c +:+ escape s')%string end.

Definition dquote : string := String (Ascii.ascii_of_nat 34) EmptyString.
Definition render_string (s : string) : string := (dquote +:+ escape s +:+ dquote)%string.

Fixpoint render (j : json) : string :=
  match j with
  | JNull => "null"
  | JBool b => if b then "true" else "false"
  | JNum z => Itoa z
  | JStr s => render_string s
  | JArr l => ("[" +:+ StringsJoin (map render l) "," +:+ "]")%string
  | JObj fs => ("{" +:+ StringsJoin (map (λ kv, render_string kv.1 +:+ ":" +:+ render kv.2)%string fs) "," +:+ "}")%string
  end.

(** ** Decoding and encoding again *)

Section json_ind.
Context (P : json → Prop).
Context (Hnull : P JNull) (Hbool : ∀ b, P (JBool b)) (Hnum : ∀ z, P (JNum z)) (Hstr : ∀ s, P (JStr s)).
Context (Harr : ∀ l, Forall P l → P (JArr l)) (Hobj : ∀ fs, Forall (λ kv, P kv.2) fs → P (JObj fs)).

Fixpoint json_rect' (j : json) : P j :=
  match j with
  | JNull => Hnull | JBool b => Hbool b | JNum z => Hnum z | JStr s => Hstr s
  | JArr l => Harr l ((fix go l := match l return Forall P l with
                       | [] => Forall_nil_2 _ | j :: l' => Forall_cons_2 _ _ _ (json_rect' j) (go l') end) l)
  | JObj fs => Hobj fs ((fix go fs := match fs return Forall (λ kv, P kv.2) fs with
                         | [] => Forall_nil_2 _ | kv :: fs' => Forall_cons_2 _ _ _ (json_rect' kv.2) (go fs') end) fs)
  end.
End json_ind.

(** Every object of the tree has increasing keys. *)
Fixpoint normal (j : json) : bool :=
  match j with
  | JArr l => forallb normal l
  | JObj fs => increasing fs && forallb (λ kv, normal kv.2) fs
  | _ => true
  end.

Lemma sequence_map {A B} (f : A → result B) (g : B → A) l :
  Forall (λ b, f (g b) = inr b) l → sequence f (map g l) = inr l.
Proof. induction 1 as [|b l Hb _ IH]; simpl; [done|]. by rewrite Hb, IH. Qed.

Lemma marshal_unmarshal j : normal j = true → Marshal (Unmarshal j) = inr j.
Proof.
  induction j as [| | | |l IH|fs IH] using json_rect'; simpl; try done.
  - intros Hn. rewrite sequence_map; [done|]. rewrite forallb_forall in Hn. rewrite Forall_forall in *. intros j Hj. apply IH, Hn, list_elem_of_In; done.
  - intros [Hi Hn]%andb_true_iff. rewrite forallb_forall in Hn.
    rewrite (sequence_map (on_field Marshal) (λ kv, (kv.1, Unmarshal kv.2)) fs); [by rewrite sort_increasing|].
    rewrite Forall_forall in *. intros [k j] Hj. unfold on_field. specialize (IH _ Hj). simpl in *.
    rewrite IH; [done|]. apply (Hn (k, j)), list_elem_of_In, Hj.
Qed.

(** A Go value whose encoding does not depend on how a struct orders its
    fields: no structs, and maps with distinct keys. *)
Fixpoint plain (v : value) : Prop :=
  match v with
  | VSlice l => foldr (λ v P, plain v ∧ P) True l
  | VMap m => NoDup (map fst m) ∧ foldr (λ kv P, plain kv.2 ∧ P) True m
  | VStruct _ => False
  | _ => True
  end.

Section value_ind.
Context (P : value → Prop).
Context (Hnil : P VNil) (Hbool : ∀ b, P (VBool b)) (Hint : ∀ z, P (VInt z)) (Hstr : ∀ s, P (VString s)).
Context (Hslice : ∀ l, Forall P l → P (VSlice l)) (Hmap : ∀ m, Forall (λ kv, P kv.2) m → P (VMap m)).
Context (Hstruct : ∀ m, Forall (λ kv, P kv.2) m → P (VStruct m)) (Hunsup : ∀ t, P (VUnsupported t)).

Fixpoint value_rect' (v : value) : P v :=
  let fields := fix go (m : list (string * value)) := match m return Forall (λ kv, P kv.2) m with
                  | [] => Forall_nil_2 _ | kv :: m' => Forall_cons_2 _ _ _ (value_rect' kv.2) (go m') end in
  match v with
  | VNil => Hnil | VBool b => Hbool b | VInt z => Hint z | VString s => Hstr s
  | VSlice l => Hslice l ((fix go l := match l return Forall P l with
                           | [] => Forall_nil_2 _ | v :: l' => Forall_cons_2 _ _ _ (value_rect' v) (go l') end) l)
  | VMap m => Hmap m (fields m)
  | VStruct m => Hstruct m (fields m)
  | VUnsupported t => Hunsup t
  end.
End value_ind.

Lemma sequence_inv {A B} (f : A → result B) l bs : sequence f l = inr bs → Forall2 (λ a b, f a = inr b) l bs.
Proof.
  revert bs. induction l as [|a l IH]; intros bs; simpl; [intros [= <-]; constructor|].
  destruct (f a) as [|b] eqn:E; [done|]. destruct (sequence f l) as [|bs'] eqn:Es; [done|]. intros [= <-]. constructor; auto.
Qed.

Lemma fields_keys (m : list (string * value)) fs :
  Forall2 (λ a b, on_field Marshal a = inr b) m fs → map fst fs = map fst m.
Proof.
  induction 1 as [|[k v] [k' j] m fs Hkv _ IH]; [done|]. simpl. rewrite IH. unfold on_field in Hkv. simpl in Hkv.
  destruct (Marshal v); [done|]. by injection Hkv as -> _.
Qed.

Lemma marshal_normal v j : plain v → Marshal v = inr j → normal j = true.
Proof.
  revert j. induction v as [| | | |l IH|m IH|m IH|t] using value_rect'; intros j Hp Hm; simpl in *; simplify_eq; try done.
  - destruct (sequence Marshal l) as [|js] eqn:E; [done|]. simplify_eq. simpl. apply sequence_inv in E.
    clear -IH Hp E. induction E as [|v j l js Hv E IHE]; [done|]. simpl in *. apply Forall_cons in IH as [IHv IH].
    destruct Hp as [Hpv Hp]. rewrite (IHv j Hpv Hv). by apply IHE.
  - destruct (sequence _ m) as [|fs] eqn:E; [done|]. simplify_eq. simpl. apply sequence_inv in E. destruct Hp as [Hd Hp].
    rewrite sort_keys_increasing by (by rewrite (fields_keys _ _ E)). simpl.
    apply forallb_forall. intros kv Hkv%list_elem_of_In. rewrite elem_of_sort_keys in Hkv.
    clear Hd. induction E as [|[k v] [k' j] m fs Hv E IHE]; [by apply elem_of_nil in Hkv|].
    apply Forall_cons in IH as [IHv IH]. destruct Hp as [Hpv Hp]. unfold on_field in Hv. simpl in *.
    apply elem_of_cons in Hkv as [->|Hkv]; [|by apply IHE]. simpl. destruct (Marshal v) eqn:Ev; [done|]. simplify_eq. by apply IHv.
Qed.

(** Encoding is stable: a plain value, encoded, decoded into an [any] and encoded
    again, gives the same tree. *)
Lemma marshal_stable v j : plain v → Marshal v = inr j → Marshal (Unmarshal j) = inr j.
Proof. intros Hp Hm. by eapply marshal_unmarshal, marshal_normal. Qed.

Example render_ex :
  match Marshal (VMap [("b", VInt 2); ("a", VString "x>y")]) with inr j => render j | inl _ => "" end =
  ("{" +:+ dquote +:+ "a" +:+ dquote +:+ ":" +:+ dquote +:+ "x\u003ey" +:+ dquote +:+ "," +:+ dquote +:+ "b" +:+ dquote +:+ ":2}")%string.
Proof. reflexivity. Qed.
