(* ===== verification/GoCrypto.v ===== *)
(** * SHA-256 and HMAC, as [crypto/sha256] and [crypto/hmac] compute them

    Messages, keys and digests are byte strings; the 32-bit words of the
    compression function are [Z]s below 2^32. *)
From S2P Require Import Prelude GoStrings.
Local Open Scope Z_scope.

(** ** Bytes and words *)

Definition byte_of (c : ascii) : Z := Z.of_nat (Ascii.nat_of_ascii c).
Definition char_of (b : Z) : ascii := Ascii.ascii_of_nat (Z.to_nat (b mod 256)).

Fixpoint bytes_of (s : string) : list Z :=
  match s with EmptyString => [] | String c s' => byte_of c :: bytes_of s' end.
Fixpoint string_of (l : list Z) : string :=
  match l with [] => EmptyString | b :: l' => String (char_of b) (string_of l') end.

Definition mask32 : Z := 0xffffffff.
Definition add32 (x y : Z) : Z := Z.land (x + y) mask32.
Definition rotr (x n : Z) : Z := Z.lor (Z.shiftr x n) (Z.land (Z.shiftl x (32 - n)) mask32).

(** Big-endian: the four bytes of a word, and the words of a list of bytes. *)
Definition word_bytes (w : Z) : list Z :=
  [Z.land (Z.shiftr w 24) 255; Z.land (Z.shiftr w 16) 255; Z.land (Z.shiftr w 8) 255; Z.land w 255].
Fixpoint words (l : list Z) : list Z :=
  match l with
  | a :: b :: c :: d :: l' => (a * 0x1000000 + b * 0x10000 + c * 0x100 + d) :: words l'
  | _ => []
  end.

(** ** SHA-256 *)

(** The constants are the first 32 bits of the fractional parts of the square
    and cube roots of the first primes, which is how the standard defines them;
    the root of [n] is searched bit by bit, from bit [b - 1] down. *)
Fixpoint root_from (power : Z → Z) (n : Z) (b : nat) (r : Z) : Z :=
  match b with
  | O => r
  | Datatypes.S b => let r' := r + Z.shiftl 1 (Z.of_nat b) in root_from power n b (if power r' <=? n then r' else r)
  end.
Definition is_prime (n : nat) : bool := (2 <=? n)%nat && forallb (λ d, negb (n mod d =? 0)%nat) (seq 2 (n - 2)).
Definition primes : list Z := map Z.of_nat (List.filter is_prime (seq 2 310)).
Definition fractional_bits (power : Z → Z) (p : Z) : Z := Z.land (root_from power (p * power (Z.shiftl 1 32)) 40 0) mask32.

Definition sha256_init : list Z := Eval vm_compute in map (fractional_bits (λ x, x * x)) (firstn 8 primes).
Definition sha256_k : list Z := Eval vm_compute in map (fractional_bits (λ x, x * x * x)) primes.

(** The message, a 1 bit, zeros, and the length in bits as 64-bit big-endian. *)
Definition sha256_pad (m : list Z) : list Z :=
  let n := Z.of_nat (length m) in
  let zeros := Z.to_nat ((55 - n) mod 64) in
  m ++ [128] ++ replicate zeros 0 ++ word_bytes (Z.shiftr (n * 8) 32) ++ word_bytes (Z.land (n * 8) mask32).

Definition sigma0 (x : Z) : Z := Z.lxor (Z.lxor (rotr x 7) (rotr x 18)) (Z.shiftr x 3).
Definition sigma1 (x : Z) : Z := Z.lxor (Z.lxor (rotr x 17) (rotr x 19)) (Z.shiftr x 10).

(** The message schedule, the most recent word first. *)
Fixpoint schedule (n : nat) (rev_w : list Z) : list Z :=
  match n with
  | O => rev_w
  | S n' =>
      let w := add32 (add32 (sigma1 (nth 1 rev_w 0)) (nth 6 rev_w 0)) (add32 (sigma0 (nth 14 rev_w 0)) (nth 15 rev_w 0)) in
      schedule n' (w :: rev_w)
  end.

Record sha_state := { sa : Z; sb : Z; sc : Z; sd : Z; se : Z; sf : Z; sg : Z; sh : Z }.

Definition sha256_round (s : sha_state) (kw : Z * Z) : sha_state :=
  let s1 := Z.lxor (Z.lxor (rotr (se s) 6) (rotr (se s) 11)) (rotr (se s) 25) in
  let ch := Z.lxor (Z.land (se s) (sf s)) (Z.land (Z.lxor (se s) mask32) (sg s)) in
  let t1 := add32 (add32 (add32 (sh s) s1) (add32 ch kw.1)) kw.2 in
  let s0 := Z.lxor (Z.lxor (rotr (sa s) 2) (rotr (sa s) 13)) (rotr (sa s) 22) in
  let maj := Z.lxor (Z.lxor (Z.land (sa s) (sb s)) (Z.land (sa s) (sc s))) (Z.land (sb s) (sc s)) in
  {| sa := add32 t1 (add32 s0 maj); sb := sa s; sc := sb s; sd := sc s; se := add32 (sd s) t1; sf := se s; sg := sf s; sh := sg s |}.

Definition sha_load (h : list Z) : sha_state :=
  {| sa := nth 0 h 0; sb := nth 1 h 0; sc := nth 2 h 0; sd := nth 3 h 0; se := nth 4 h 0; sf := nth 5 h 0; sg := nth 6 h 0; sh := nth 7 h 0 |}.

Definition sha256_block (h block : list Z) : list Z :=
  let s := foldl sha256_round (sha_load h) (combine sha256_k (rev (schedule 48 (rev block)))) in
  [add32 (nth 0 h 0) (sa s); add32 (nth 1 h 0) (sb s); add32 (nth 2 h 0) (sc s); add32 (nth 3 h 0) (sd s);
   add32 (nth 4 h 0) (se s); add32 (nth 5 h 0) (sf s); add32 (nth 6 h 0) (sg s); add32 (nth 7 h 0) (sh s)].

(** The blocks of 16 words; [n] is at least their number. *)
Fixpoint sha256_blocks (n : nat) (h ws : list Z) : list Z :=
  match n, ws with
  | S n', _ :: _ => sha256_blocks n' (sha256_block h (take 16 ws)) (drop 16 ws)
  | _, _ => h
  end.

Definition sha256_bytes (m : list Z) : list Z :=
  let ws := words (sha256_pad m) in
  let h := sha256_blocks (length ws) sha256_init ws in
  flat_map word_bytes (take 8 (h ++ replicate 8 0)).

(** [sha256.Sum256] *)
Definition sha256 (m : string) : string := string_of (sha256_bytes (bytes_of m)).

(** [hmac.New(sha256.New, key)], [Write(m)], [Sum(nil)] *)
Definition hmac_sha256 (key m : string) : string :=
  let key := bytes_of key in
  let key := if (64 <? Z.of_nat (length key)) then sha256_bytes key else key in
  let key := key ++ replicate (64 - length key) 0 in
  let inner := sha256_bytes (map (λ b, Z.lxor b 0x36) key ++ bytes_of m) in
  string_of (sha256_bytes (map (λ b, Z.lxor b 0x5c) key ++ inner)).

(** ** Facts *)

Lemma length_flat_map_word_bytes l : length (flat_map word_bytes l) = (4 * length l)%nat.
Proof. induction l as [|w l IH]; [done|]. cbn [flat_map]. rewrite length_app, IH. simpl. lia. Qed.

Lemma length_sha256_bytes m : length (sha256_bytes m) = 32%nat.
Proof.
  unfold sha256_bytes. cbv zeta. rewrite length_flat_map_word_bytes, length_take, length_app, length_replicate. lia.
Qed.

Lemma length_string_of l : String.length (string_of l) = length l.
Proof. induction l as [|b l IH]; simpl; auto. Qed.

(** A digest has 32 bytes. *)
Lemma length_hmac_sha256 key m : String.length (hmac_sha256 key m) = 32%nat.
Proof. unfold hmac_sha256. cbv zeta. by rewrite length_string_of, length_sha256_bytes. Qed.

(** Test vectors of FIPS 180-2 and RFC 4231. *)
Example sha256_abc : hex_EncodeToString (sha256 "abc") = "ba7816bf8f01cfea414140de5dae2223b00361a396177a9cb410ff61f20015ad".
Proof. vm_compute. reflexivity. Qed.
Example sha256_empty : hex_EncodeToString (sha256 "") = "e3b0c44298fc1c149afbf4c8996fb92427ae41e4649b934ca495991b7852b855".
Proof. vm_compute. reflexivity. Qed.
Example sha256_two_blocks :
  hex_EncodeToString (sha256 "abcdbcdecdefdefgefghfghighijhijkijkljklmklmnlmnomnopnopq") =
  "248d6a61d20638b8e5c026930c3e6039a33ce45964ff2167f6ecedd419db06c1".
Proof. vm_compute. reflexivity. Qed.
Example hmac_jefe :
  hex_EncodeToString (hmac_sha256 "Jefe" "what do ya want for nothing?") =
  "5bdcc146bf60754e6a042426089575c75a003f089d2739839dec58b964ec3843".
Proof. vm_compute. reflexivity. Qed.
