(* ===== verification/Protocol.v ===== *)
(** * The wire protocol shared by the control plane and the probes
    (src/internal/protocol/messages.go)

    Go's named string types stay open sets of strings here, with the declared
    constants as definitions: values from the network or from a configuration
    file may be any string. *)
From Stdlib Require Import SpecFloat.
From S2P Require Import Prelude GoStrings GoTime.

(** ** Capability levels *)
Notation CapabilityLevel := string (only parsing).
Definition CapObserve : CapabilityLevel := "observe".
Definition CapDiagnose : CapabilityLevel := "diagnose".
Definition CapRemediate : CapabilityLevel := "remediate".

(** ** Execution lanes *)
Notation ExecutionClass := string (only parsing).
Definition ExecObserveDirect : ExecutionClass := "observe_direct".
Definition ExecDiagnoseSandbox : ExecutionClass := "diagnose_sandbox".
Definition ExecRemediateSandbox : ExecutionClass := "remediate_sandbox".
Definition ExecBreakglassDirect : ExecutionClass := "breakglass_direct".
Definition ExecWasmSandbox : ExecutionClass := "wasm_sandbox".

(** ** Approval modes *)
Notation ApprovalMode := string (only parsing).
Definition ApprovalNone : ApprovalMode := "none".
Definition ApprovalMutationGate : ApprovalMode := "mutation_gate".
Definition ApprovalPlanFirst : ApprovalMode := "plan_first".
Definition ApprovalEveryAction : ApprovalMode := "every_action".
Definition ApprovalTwoPerson : ApprovalMode := "two_person".

Record BreakglassPolicy := {
  bg_Enabled : bool;
  bg_AllowedReasons : list string;
  bg_RequireTypedConfirmation : bool;
}.
Definition no_breakglass : BreakglassPolicy :=
  {| bg_Enabled := false; bg_AllowedReasons := []; bg_RequireTypedConfirmation := false |}.

Record CommandPayload := {
  cmd_RequestID : string;
  cmd_Command : string;
  cmd_Args : list string;
  cmd_Timeout : Z;
  cmd_Level : CapabilityLevel;
  cmd_Stream : bool;
}.
(** [protocol.CommandPayload{}] *)
Definition empty_command : CommandPayload :=
  {| cmd_RequestID := ""; cmd_Command := ""; cmd_Args := []; cmd_Timeout := 0%Z;
     cmd_Level := ""; cmd_Stream := false |}.

Record CommandResultPayload := {
  res_RequestID : string;
  res_ExitCode : Z;
  res_Stdout : string;
  res_Stderr : string;
  res_Duration : Z;
  res_Truncated : bool;
}.

Record OutputChunkPayload := {
  chunk_RequestID : string;
  chunk_Stream : string;
  chunk_Data : string;
  chunk_Seq : Z;
  chunk_Final : bool;
  chunk_ExitCode : Z;
}.

Record PolicyUpdatePayload := {
  pol_PolicyID : string;
  pol_Level : CapabilityLevel;
  pol_Allowed : list string;
  pol_Blocked : list string;
  pol_Paths : list string;
  pol_ExecutionClassRequired : ExecutionClass;
  pol_SandboxRequired : bool;
  pol_ApprovalMode : ApprovalMode;
  pol_RequireSecondApprover : bool;
  pol_Breakglass : BreakglassPolicy;
  pol_MaxRuntimeSec : Z;
  pol_AllowedScopes : list string;
}.

(** [Load] is the array of the three load averages. *)
Record HeartbeatPayload := {
  hb_ProbeID : string;
  hb_Uptime : Z;
  hb_Load : spec_float * spec_float * spec_float;
  hb_MemUsed : Z;
  hb_MemTotal : Z;
  hb_DiskUsed : Z;
  hb_DiskTotal : Z;
}.

Record NetInterface := { nif_Name : string; nif_MAC : string; nif_Addrs : list string; nif_State : string }.
Record Package := { pkg_Name : string; pkg_Version : string; pkg_Manager : string }.
Record SystemService := { svc_Name : string; svc_State : string; svc_Enabled : bool }.
Record SystemUser := { su_Name : string; su_UID : Z; su_Groups : list string; su_Shell : string }.

Record InventoryPayload := {
  inv_ProbeID : string;
  inv_Hostname : string;
  inv_OS : string;
  inv_Arch : string;
  inv_Kernel : string;
  inv_CPUs : Z;
  inv_MemTotal : Z;
  inv_DiskTotal : Z;
  inv_Interfaces : list NetInterface;
  inv_Packages : list Package;
  inv_Services : list SystemService;
  inv_Users : list SystemUser;
  inv_Labels : gmap string string;
  inv_Metadata : gmap string string;
  inv_CollectedAt : time;
}.

Record KeyRotationPayload := { kr_NewKey : string; kr_Expiry : string }.
