(* ===== verification/Classifier.v ===== *)
(** * The probe's command classifier
    (src/internal/probe/executor/classifier.go) *)
From S2P Require Import Prelude GoStrings Protocol.
Local Open Scope go_scope.

(** A tab character, written ["\t"] in the source. *)
Definition tab : string := String (Ascii.ascii_of_nat 9) EmptyString.

Definition observeCommands : list string :=
  [ "cat"; "ls"; "head"; "tail"; "df"; "du"; "free"; "uptime"; "uname";
    "hostname"; "whoami"; "id"; "ps"; "top"; "netstat"; "ss";
    "lsof"; "file"; "stat"; "wc"; "grep"; "find";
    "journalctl"; "which"; "type"; "echo"; "date"; "env"; "printenv";
    "lsb_release"; "arch"; "nproc"; "getent"; "groups"; "last"; "w"; "sleep"; "true"; "false" ].

Definition observePrefixes : list string :=
  [ "ip addr"; "ip route"; "ip link"; "ip neigh";
    "systemctl status"; "systemctl is-active"; "systemctl is-enabled";
    "systemctl list-units"; "systemctl list-timers";
    "docker ps"; "docker images"; "docker inspect";
    "podman ps"; "podman images"; "podman inspect" ].

Definition diagnoseCommands : list string :=
  [ "strace"; "ltrace"; "tcpdump"; "dig"; "nslookup"; "traceroute";
    "tracepath"; "ping"; "openssl"; "nc"; "ncat"; "nmap";
    "iotop"; "vmstat"; "iostat"; "sar"; "dmesg"; "lsblk";
    "blkid"; "ss"; "perf"; "iftop"; "nethogs" ].

Definition diagnosePrefixes : list string :=
  [ "curl"; "wget"; "fdisk -l"; "mount"; "kubeflow submit" ].

Definition remediatePrefixes : list string :=
  [ "rm "; ("rm" +:+ tab)%string; "mv "; ("mv" +:+ tab)%string; "cp "; ("cp" +:+ tab)%string;
    "chmod "; "chown "; "chgrp ";
    "mkdir "; "touch "; "tee ";
    "apt "; "apt-get "; "dpkg "; "yum "; "dnf "; "rpm ";
    "pip "; "pip3 "; "npm "; "gem ";
    "systemctl start"; "systemctl stop"; "systemctl restart";
    "systemctl enable"; "systemctl disable"; "systemctl mask";
    "service ";
    "reboot"; "shutdown"; "poweroff"; "halt"; "init ";
    "kill "; "pkill "; "killall ";
    "iptables "; "ip6tables "; "ufw "; "firewall-cmd ";
    "sed -i"; "dd "; "mkfs"; "mount ";
    "useradd"; "userdel"; "usermod"; "groupadd"; "groupdel";
    "passwd "; "chpasswd";
    "crontab ";
    "kubeflow cancel" ].

Record CommandClassification := {
  cc_Level : CapabilityLevel;
  cc_Category : string;
  cc_SignatureKnown : bool;
  cc_ReasonCode : string;
}.

(** The full command line and the base command, both trimmed and lowered. *)
Definition normalizedCommand (command : string) (args : list string) : string * string :=
  let trimmedCommand := TrimSpace command in
  let fullCmd :=
    match args with
    | [] => trimmedCommand
    | _ => (trimmedCommand +:+ " " +:+ StringsJoin args " ")%string
    end in
  let fullLower := ToLower (TrimSpace fullCmd) in
  let idx := IndexAny trimmedCommand (" " +:+ tab)%string in
  let baseCommand := if (0 <? idx)%Z then take_str (Z.to_nat idx) trimmedCommand else trimmedCommand in
  (fullLower, ToLower (TrimSpace baseCommand)).

Definition ClassifyCommandWithMetadata (command : string) (args : list string) : CommandClassification :=
  let '(fullLower, baseLower) := normalizedCommand command args in
  let mutation known reason :=
    {| cc_Level := CapRemediate; cc_Category := "mutation"; cc_SignatureKnown := known; cc_ReasonCode := reason |} in
  let observe reason :=
    {| cc_Level := CapObserve; cc_Category := "observe"; cc_SignatureKnown := true; cc_ReasonCode := reason |} in
  let diagnose reason :=
    {| cc_Level := CapDiagnose; cc_Category := "diagnose"; cc_SignatureKnown := true; cc_ReasonCode := reason |} in
  if existsb (λ p, HasPrefix fullLower p || HasPrefix baseLower p) remediatePrefixes
  then mutation true "classifier.remediate_prefix"
  else if existsb (λ p, HasPrefix fullLower p) observePrefixes
  then observe "classifier.observe_prefix"
  else if existsb (λ cmd, baseLower =s cmd) observeCommands
  then
    if (baseLower =s "find") && (Contains fullLower "-exec" || Contains fullLower "-delete")
    then mutation true "classifier.find_mutation_flags"
    else observe "classifier.observe_command"
  else if existsb (λ p, HasPrefix fullLower p) diagnosePrefixes
  then
    if HasPrefix baseLower "wget" && (Contains fullLower " -o" || Contains fullLower " -o ")
    then mutation true "classifier.wget_output_file"
    else diagnose "classifier.diagnose_prefix"
  else if existsb (λ cmd, baseLower =s cmd) diagnoseCommands
  then diagnose "classifier.diagnose_command"
  else mutation false "classifier.unknown_mutation_signature".

Definition ClassifyCommand (command : string) (args : list string) : CapabilityLevel :=
  cc_Level (ClassifyCommandWithMetadata command args).

(** ** Lemmas *)

(** The classifier only ever answers one of the three declared levels, and an
    unknown signature is always a mutation at the highest level. *)
Lemma classify_levels command args :
  let c := ClassifyCommandWithMetadata command args in
  (cc_Level c = CapObserve ∧ cc_Category c = "observe" ∧ cc_SignatureKnown c = true) ∨
  (cc_Level c = CapDiagnose ∧ cc_Category c = "diagnose" ∧ cc_SignatureKnown c = true) ∨
  (cc_Level c = CapRemediate ∧ cc_Category c = "mutation").
Proof.
  unfold ClassifyCommandWithMetadata. destruct (normalizedCommand command args) as [f b].
  cbv zeta. repeat case_match; simpl; auto.
Qed.

Lemma Contains_prefix_weaken s a b : Contains s (a +:+ b)%string = true → Contains s a = true.
Proof.
  assert (Hp : ∀ s, HasPrefix s (a +:+ b)%string = true → HasPrefix s a = true).
  { intros t (u & ->)%HasPrefix_spec. apply HasPrefix_spec. exists (b +:+ u)%string.
    apply str_app_assoc. }
  induction s as [|c s IH]; cbn [Contains]; rewrite !orb_true_iff; intros [H|H]; auto.
Qed.
