(* ===== verification/Executor.v ===== *)
(** * The probe's executor: local policy enforcement and output framing
    (src/internal/probe/executor/executor.go, adapter.go, stream.go)

    The operating system runs the process: [os] below stands for the outcome
    of starting and waiting for it, for any command. *)
From S2P Require Import Prelude GoStrings GoErrors GoTime Protocol Classifier.
Local Open Scope go_scope.
Local Open Scope Z_scope.

Definition maxOutputSize : Z := 2 ^ 20.
Definition defaultTimeout : Z := 30 * Second.

Record Policy := {
  Level : CapabilityLevel;
  Allowed : list string;
  Blocked : list string;
  Paths : list string;
}.

(** The [levels] map of the source: a missing key reads as 0. *)
Definition levels (l : CapabilityLevel) : Z :=
  if l =s CapObserve then 1 else if l =s CapDiagnose then 2 else if l =s CapRemediate then 3 else 0.

Definition effectiveLevel (cmd : CommandPayload) : CapabilityLevel :=
  let declared := cmd_Level cmd in
  let classified := ClassifyCommand (cmd_Command cmd) (cmd_Args cmd) in
  if levels declared <? levels classified then classified else declared.

Definition levelAllowed (e : Policy) (required : CapabilityLevel) : bool :=
  levels required <=? levels (Level e).

Definition isBlocked (e : Policy) (cmd : string) : bool :=
  existsb (λ b, HasPrefix (ToLower cmd) (ToLower b)) (Blocked e).

Definition isAllowed (e : Policy) (cmd : string) : bool :=
  existsb (λ a, HasPrefix (ToLower cmd) (ToLower a)) (Allowed e).

Definition truncate (s : string) (max : Z) : string :=
  if Z.of_nat (String.length s) <=? max then s else take_str (Z.to_nat max) s.

Definition full_command (cmd : CommandPayload) : string :=
  match cmd_Args cmd with
  | [] => cmd_Command cmd
  | args => (cmd_Command cmd +:+ " " +:+ StringsJoin args " ")%string
  end.

(** ** How a command becomes a process (adapter.go) *)

Record execSpec := { spec_name : string; spec_args : list string }.

(** [goos] is [runtime.GOOS]. *)
Definition buildExecSpec (goos : string) (cmd : CommandPayload) : result execSpec :=
  if TrimSpace (cmd_Command cmd) =s "" then inl (ErrorString "command is required")
  else if goos <>s "windows"
  then inr {| spec_name := cmd_Command cmd; spec_args := cmd_Args cmd |}
  else
    let command := TrimSpace (ToLower (cmd_Command cmd)) in
    let arg0 := match cmd_Args cmd with [] => None | a :: _ => Some (ToLower (TrimSpace a)) end in
    let line := TrimSpace (StringsJoin (cmd_Args cmd) " ") in
    if (command =s "powershell") || (command =s "powershell.exe") || (command =s "pwsh") || (command =s "pwsh.exe")
    then
      if match arg0 with Some a => HasPrefix a "-" | None => false end
      then inr {| spec_name := "powershell.exe"; spec_args := cmd_Args cmd |}
      else if line =s "" then inl (ErrorString "powershell command requires script arguments")
      else inr {| spec_name := "powershell.exe";
                  spec_args := ["-NoProfile"; "-NonInteractive"; "-Command"; line] |}
    else if (command =s "cmd") || (command =s "cmd.exe")
    then
      if match arg0 with Some a => (a =s "/c") || (a =s "/k") | None => false end
      then inr {| spec_name := "cmd.exe"; spec_args := cmd_Args cmd |}
      else if line =s "" then inl (ErrorString "cmd command requires arguments")
      else inr {| spec_name := "cmd.exe"; spec_args := ["/C"; line] |}
    else inr {| spec_name := "cmd.exe"; spec_args := "/C" :: cmd_Command cmd :: cmd_Args cmd |}.

(** ** One-shot execution *)

(** What [exec.Cmd.Run] reports. *)
Inductive run_status :=
  | RunOk
  | RunExit (code : Z)       (* *exec.ExitError *)
  | RunFailed (msg : string) (* any other error *).

Record run_outcome := {
  run_stdout : string;
  run_stderr : string;
  run_millis : Z;
  run_status_of : run_status;
}.

(** Why the policy refuses a command; the checks that precede the process are
    the same in [Execute] and [ExecuteStream]. *)
Inductive policy_verdict :=
  | RefusedLevel (required : CapabilityLevel)
  | RefusedBlocked
  | RefusedNotAllowed
  | PolicyAdmits.

Definition policy_check (e : Policy) (cmd : CommandPayload) : policy_verdict :=
  let requiredLevel := effectiveLevel cmd in
  if negb (levelAllowed e requiredLevel) then RefusedLevel requiredLevel
  else if isBlocked e (full_command cmd) then RefusedBlocked
  else if negb (Nat.eqb (length (Allowed e)) 0) && negb (isAllowed e (full_command cmd)) then RefusedNotAllowed
  else PolicyAdmits.

Definition level_violation (e : Policy) (required : CapabilityLevel) : string :=
  ("policy violation: command classified as " +:+ required +:+ " but probe is at " +:+ Level e +:+ " level")%string.

(** A process start: its specification and its timeout. *)
Record spawn := { spawn_spec : execSpec; spawn_timeout : Z }.

Definition command_timeout (cmd : CommandPayload) : Z :=
  if cmd_Timeout cmd =? 0 then defaultTimeout else cmd_Timeout cmd.

Section execute.
(** The host: [goos] is its operating system, [os] what running a process on
    it reports. *)
Context (goos : string) (os : spawn → run_outcome).

Definition refusal (cmd : CommandPayload) (msg : string) : CommandResultPayload :=
  {| res_RequestID := cmd_RequestID cmd; res_ExitCode := -1; res_Stdout := ""; res_Stderr := msg;
     res_Duration := 0; res_Truncated := false |}.

(** [Executor.Execute]: the result and the processes it started. *)
Definition Execute (e : Policy) (cmd : CommandPayload) : CommandResultPayload * list spawn :=
  match policy_check e cmd with
  | RefusedLevel required => (refusal cmd (level_violation e required), [])
  | RefusedBlocked => (refusal cmd "policy violation: command is blocked", [])
  | RefusedNotAllowed => (refusal cmd "policy violation: command not in allowlist", [])
  | PolicyAdmits =>
      match buildExecSpec goos cmd with
      | inl err => (refusal cmd (Error err), [])
      | inr spec =>
          let sp := {| spawn_spec := spec; spawn_timeout := command_timeout cmd |} in
          let out := os sp in
          let truncated :=
            (maxOutputSize <? Z.of_nat (String.length (run_stdout out))) ||
            (maxOutputSize <? Z.of_nat (String.length (run_stderr out))) in
          let '(code, stderr) :=
            match run_status_of out with
            | RunOk => (0, truncate (run_stderr out) maxOutputSize)
            | RunExit c => (c, truncate (run_stderr out) maxOutputSize)
            | RunFailed msg => (-1, msg)
            end in
          ({| res_RequestID := cmd_RequestID cmd; res_ExitCode := code;
              res_Stdout := truncate (run_stdout out) maxOutputSize; res_Stderr := stderr;
              res_Duration := run_millis out; res_Truncated := truncated |}, [sp])
      end
  end.
End execute.

(** ** Streaming execution (stream.go) *)

(** [int32] arithmetic wraps around: the chunk counter is an [atomic.Int32]. *)
Definition to_int32 (z : Z) : Z := (z + 2 ^ 31) mod 2 ^ 32 - 2 ^ 31.

(** What the host reports for a streamed process.  [lines] are the scanned
    lines of both pipes, in the order in which the two reader goroutines drew
    their sequence numbers: any interleaving of the two streams. *)
Inductive stream_outcome :=
  | StdoutPipeError (msg : string)
  | StderrPipeError (msg : string)
  | StartError (msg : string)
  | Streamed (lines : list (string * string)) (status : run_status).

Section stream.
Context (goos : string) (os : spawn → stream_outcome).

Definition newline : string := String (Ascii.ascii_of_nat 10) EmptyString.

Definition stderr_final (cmd : CommandPayload) (data : string) : OutputChunkPayload :=
  {| chunk_RequestID := cmd_RequestID cmd; chunk_Stream := "stderr"; chunk_Data := data;
     chunk_Seq := 0; chunk_Final := true; chunk_ExitCode := -1 |}.

Definition line_chunk (cmd : CommandPayload) (seq : Z) (l : string * string) : OutputChunkPayload :=
  {| chunk_RequestID := cmd_RequestID cmd; chunk_Stream := l.1; chunk_Data := (l.2 +:+ newline)%string;
     chunk_Seq := to_int32 seq; chunk_Final := false; chunk_ExitCode := 0 |}.

(** The chunks of the scanned lines, numbered from [seq + 1]. *)
Fixpoint line_chunks (cmd : CommandPayload) (seq : Z) (lines : list (string * string)) : list OutputChunkPayload :=
  match lines with
  | [] => []
  | l :: rest => line_chunk cmd (seq + 1) l :: line_chunks cmd (seq + 1) rest
  end.

(** [Executor.ExecuteStream]: the chunks given to the callback, in the order
    of their sequence numbers. *)
Definition ExecuteStream (e : Policy) (cmd : CommandPayload) : list OutputChunkPayload * list spawn :=
  match policy_check e cmd with
  | RefusedLevel required => ([stderr_final cmd (level_violation e required)], [])
  | RefusedBlocked => ([stderr_final cmd "policy violation: command is blocked"], [])
  | RefusedNotAllowed => ([stderr_final cmd "policy violation: command not in allowlist"], [])
  | PolicyAdmits =>
      match buildExecSpec goos cmd with
      | inl err => ([stderr_final cmd (Error err)], [])
      | inr spec =>
          let sp := {| spawn_spec := spec; spawn_timeout := command_timeout cmd |} in
          match os sp with
          | StdoutPipeError msg => ([stderr_final cmd ("failed to create stdout pipe: " +:+ msg)%string], [])
          | StderrPipeError msg => ([stderr_final cmd ("failed to create stderr pipe: " +:+ msg)%string], [])
          | StartError msg => ([stderr_final cmd ("failed to start command: " +:+ msg)%string], [])
          | Streamed lines status =>
              let exitCode := match status with RunOk => 0 | RunExit c => c | RunFailed _ => -1 end in
              let n := Z.of_nat (length lines) in
              (line_chunks cmd 0 lines ++
               [{| chunk_RequestID := cmd_RequestID cmd; chunk_Stream := "stdout"; chunk_Data := "";
                   chunk_Seq := to_int32 (n + 1); chunk_Final := true; chunk_ExitCode := exitCode |}], [sp])
          end
      end
  end.
End stream.

(** ** Lemmas *)

Lemma levels_range l : 0 <= levels l <= 3.
Proof. unfold levels. repeat case_match; lia. Qed.

Lemma levels_classified command args : 1 <= levels (ClassifyCommand command args).
Proof.
  unfold ClassifyCommand.
  destruct (classify_levels command args) as [(-> & _)|[(-> & _)|(-> & _)]]; by vm_compute.
Qed.

Lemma levels_effective cmd :
  levels (cmd_Level cmd) <= levels (effectiveLevel cmd) ∧
  levels (ClassifyCommand (cmd_Command cmd) (cmd_Args cmd)) <= levels (effectiveLevel cmd).
Proof. unfold effectiveLevel. case_match; bools; lia. Qed.

(** The three conditions under which the policy admits a command. *)
Lemma policy_check_admits e cmd :
  policy_check e cmd = PolicyAdmits ↔
  levels (effectiveLevel cmd) <= levels (Level e) ∧
  isBlocked e (full_command cmd) = false ∧
  (Allowed e = [] ∨ isAllowed e (full_command cmd) = true).
Proof.
  unfold policy_check, levelAllowed.
  destruct (Z.leb_spec (levels (effectiveLevel cmd)) (levels (Level e))); simpl; [|split; [done|lia]].
  destruct (isBlocked e (full_command cmd)); [split; [done|by intros (_ & ? & _)]|].
  destruct (Allowed e) as [|a l]; simpl; [naive_solver|].
  destruct (isAllowed e (full_command cmd)); simpl; naive_solver.
Qed.

Lemma truncate_length s max : 0 <= max → Z.of_nat (String.length (truncate s max)) <= max.
Proof.
  intros. unfold truncate. case_match; bools; [lia|].
  pose proof (length_take_str (Z.to_nat max) s). lia.
Qed.

Lemma to_int32_small z : 0 <= z < 2 ^ 31 → to_int32 z = z.
Proof. intros. unfold to_int32. rewrite Z.mod_small; lia. Qed.

Lemma line_chunks_seq cmd seq lines :
  map chunk_Seq (line_chunks cmd seq lines) =
  map (λ i, to_int32 (seq + 1 + Z.of_nat i)) (List.seq 0 (length lines)).
Proof.
  revert seq. induction lines as [|l lines IH]; intros seq; [done|].
  cbn [line_chunks map length List.seq]. f_equal; [by rewrite Z.add_0_r|].
  rewrite IH, <- seq_shift, map_map. apply map_ext. intros i. f_equal. lia.
Qed.

Lemma line_chunks_not_final cmd seq lines : Forall (λ c, chunk_Final c = false) (line_chunks cmd seq lines).
Proof. revert seq. induction lines; intros; constructor; auto. Qed.

Lemma line_chunks_request cmd seq lines :
  Forall (λ c, chunk_RequestID c = cmd_RequestID cmd) (line_chunks cmd seq lines).
Proof. revert seq. induction lines; intros; constructor; auto. Qed.

(** ** Properties *)

(** C1. A probe starts a process only when its policy admits the command, and
    then exactly one: the declared and the classified level are both within
    the probe's level, no blocklist prefix matches the command line, the
    allowlist (when there is one) does, and the process is the one
    [buildExecSpec] describes, with the command's timeout or the default. *)
Theorem execute_spawns_only_admitted goos os e cmd sp :
  (Execute goos os e cmd).2 = [sp] ↔
  (levels (cmd_Level cmd) <= levels (Level e) ∧
   levels (ClassifyCommand (cmd_Command cmd) (cmd_Args cmd)) <= levels (Level e)) ∧
  isBlocked e (full_command cmd) = false ∧
  (Allowed e = [] ∨ isAllowed e (full_command cmd) = true) ∧
  buildExecSpec goos cmd = inr (spawn_spec sp) ∧ spawn_timeout sp = command_timeout cmd.
Proof.
  pose proof (policy_check_admits e cmd) as Hadm. pose proof (levels_effective cmd) as [Hd Hc].
  assert (Heff : levels (effectiveLevel cmd) <= levels (Level e) ↔
    levels (cmd_Level cmd) <= levels (Level e) ∧
    levels (ClassifyCommand (cmd_Command cmd) (cmd_Args cmd)) <= levels (Level e)).
  { split; [lia|]. unfold effectiveLevel. case_match; tauto. }
  rewrite <- Heff. unfold Execute. destruct (policy_check e cmd) eqn:E.
  1-3: split; [done|]; intros (H1 & H2 & H3 & _); exfalso;
       assert (policy_check e cmd = PolicyAdmits) by (rewrite E; by apply Hadm); congruence.
  destruct Hadm as [(? & ? & ?) _]; [done|].
  destruct (buildExecSpec goos cmd) as [err|spec] eqn:Eb; [naive_solver|].
  destruct sp as [spec' t]. destruct (run_status_of _); simpl; split; naive_solver.
Qed.

Definition demo_policy : Policy :=
  {| Level := CapDiagnose; Allowed := []; Blocked := ["rm -rf"]; Paths := [] |}.
Definition demo_ping : CommandPayload :=
  {| cmd_RequestID := "r1"; cmd_Command := "ping"; cmd_Args := ["-c"; "1"; "10.0.0.1"];
     cmd_Timeout := 0; cmd_Level := CapObserve; cmd_Stream := false |}.

(** A probe whose policy level is [observe] never starts a process for a
    command its classifier does not call [observe], whatever level the caller
    declares and whatever its lists say; a probe whose level is not one of the
    three declared levels starts no process at all. *)
Theorem observe_probe_never_mutates goos os e cmd :
  (Level e = CapObserve →
   ClassifyCommand (cmd_Command cmd) (cmd_Args cmd) ≠ CapObserve →
   (Execute goos os e cmd).2 = [] ∧ res_ExitCode (Execute goos os e cmd).1 = -1) ∧
  (levels (Level e) = 0 → (Execute goos os e cmd).2 = []).
Proof.
  pose proof (policy_check_admits e cmd) as Hadm. pose proof (levels_effective cmd) as [_ Hc].
  pose proof (levels_classified (cmd_Command cmd) (cmd_Args cmd)) as H1. unfold Execute. split.
  - intros Hobs Hcls. assert (levels (Level e) = 1) as Hl by by rewrite Hobs.
    destruct (policy_check e cmd) eqn:E; try done.
    destruct Hadm as [(? & _) _]; [done|]. exfalso.
    assert (1 < levels (ClassifyCommand (cmd_Command cmd) (cmd_Args cmd))); [|lia].
    revert Hcls. unfold ClassifyCommand.
    destruct (classify_levels (cmd_Command cmd) (cmd_Args cmd)) as [(-> & _)|[(-> & _)|(-> & _)]]; done.
  - intros Hl. destruct (policy_check e cmd) eqn:E; try done.
    destruct Hadm as [(? & _) _]; [done|]. lia.
Qed.

(** Streaming and one-shot execution apply the same policy: over a host
    that can start processes, they start the same process or none. *)
Theorem stream_same_gate goos os os' e cmd :
  (∀ sp, ∃ lines status, os' sp = Streamed lines status) →
  (ExecuteStream goos os' e cmd).2 = (Execute goos os e cmd).2.
Proof.
  intros Hos. unfold ExecuteStream, Execute.
  destruct (policy_check e cmd); try done. destruct (buildExecSpec goos cmd) as [|spec]; [done|].
  destruct (Hos {| spawn_spec := spec; spawn_timeout := command_timeout cmd |}) as (lines & st & ->).
  by destruct (run_status_of _).
Qed.

(** A stream is framed: its last chunk, and only it, is final; every chunk
    carries the request's id; and, below 2^31 lines, the chunks of a process
    are numbered 1, 2, .., n+1 without gap or repetition. *)
Theorem stream_framed goos os e cmd :
  let chunks := (ExecuteStream goos os e cmd).1 in
  (∃ init last, chunks = init ++ [last] ∧ chunk_Final last = true ∧
     Forall (λ c, chunk_Final c = false) init) ∧
  Forall (λ c, chunk_RequestID c = cmd_RequestID cmd) chunks ∧
  (∀ sp lines st, (ExecuteStream goos os e cmd).2 = [sp] → os sp = Streamed lines st →
     Z.of_nat (length lines) + 1 < 2 ^ 31 →
     map chunk_Seq chunks = map (λ i, Z.of_nat i + 1) (List.seq 0 (length lines + 1))).
Proof.
  assert (Hone : ∀ c, chunk_Final c = true → ∃ init last, [c] = init ++ [last] ∧
    chunk_Final last = true ∧ Forall (λ c, chunk_Final c = false) init).
  { intros c Hc. by exists [], c. }
  unfold ExecuteStream. destruct (policy_check e cmd).
  1-3: split_and!; [by apply Hone|by repeat constructor|done].
  destruct (buildExecSpec goos cmd) as [err|spec].
  { split_and!; [by apply Hone|by repeat constructor|done]. }
  destruct (os _) as [| | |lines st] eqn:Eos.
  1-3: split_and!; [by apply Hone|by repeat constructor|done].
  simpl. split_and!.
  - eexists _, _. split_and!; [done|done|]. apply line_chunks_not_final.
  - apply Forall_app. split; [|by repeat constructor].
    apply line_chunks_request.
  - intros sp lines' st' [= <-] Hos Hlen. rewrite Eos in Hos. simplify_eq.
    rewrite map_app, line_chunks_seq, seq_app, map_app. f_equal.
    + apply map_ext_in. intros i [_ Hi]%in_seq. rewrite to_int32_small; lia.
    + simpl. f_equal. rewrite to_int32_small; lia.
Qed.

(** ** Witnesses *)

Definition demo_os (_ : spawn) : run_outcome :=
  {| run_stdout := "ok"; run_stderr := ""; run_millis := 12; run_status_of := RunOk |}.
Definition demo_stream_os (_ : spawn) : stream_outcome :=
  Streamed [("stdout", "a"); ("stderr", "b"); ("stdout", "c")] (RunExit 3).

Lemma observe_probe_never_mutates_witness :
  (Execute "linux" demo_os {| Level := CapObserve; Allowed := []; Blocked := []; Paths := [] |} demo_ping).2 = [] ∧
  (Execute "linux" demo_os {| Level := "root"; Allowed := []; Blocked := []; Paths := [] |} demo_ping).2 = [].
Proof.
  split.
  - refine (proj1 (proj1 (observe_probe_never_mutates "linux" demo_os _ demo_ping) _ _)); [reflexivity|by vm_compute].
  - refine (proj2 (observe_probe_never_mutates "linux" demo_os _ demo_ping) _). reflexivity.
Defined.

Lemma stream_same_gate_witness :
  (ExecuteStream "linux" demo_stream_os demo_policy demo_ping).2 =
  (Execute "linux" demo_os demo_policy demo_ping).2.
Proof. apply (stream_same_gate "linux" demo_os demo_stream_os demo_policy demo_ping). intros sp. eexists _, _. reflexivity. Defined.

Example demo_ping_runs :
  (Execute "linux" demo_os demo_policy demo_ping).2 =
  [{| spawn_spec := {| spec_name := "ping"; spec_args := ["-c"; "1"; "10.0.0.1"] |}; spawn_timeout := defaultTimeout |}].
Proof. vm_compute. reflexivity. Qed.

Lemma stream_framed_witness :
  map chunk_Seq (ExecuteStream "linux" demo_stream_os demo_policy demo_ping).1 = [1; 2; 3; 4].
Proof.
  refine (proj2 (proj2 (stream_framed "linux" demo_stream_os demo_policy demo_ping)) _ _ _ _ eq_refl _);
    [vm_compute; reflexivity|simpl; lia].
Defined.
