(* ===== verification/PolicyTemplates.v ===== *)
(** * Policy templates
    (src/internal/controlplane/policy/templates.go, validation.go,
    sandbox_enforcement.go, store.go)

    Slices that the code compares with [nil] are [option]s; the others are
    lists.  A template is the object its id points to in the store. *)
From S2P Require Import Prelude GoStrings GoErrors GoTime Protocol.
Local Open Scope go_scope.
Local Open Scope Z_scope.

(** ** Data *)

Record TemplateOptions := {
  opt_ExecutionClassRequired : ExecutionClass;
  opt_SandboxRequired : bool;
  opt_ApprovalMode : ApprovalMode;
  opt_RequireSecondApprover : bool;
  opt_RequireSecondApproverSet : bool;
  opt_Breakglass : BreakglassPolicy;
  opt_MaxRuntimeSec : Z;
  opt_AllowedScopes : option (list string);
  opt_RuntimeClass : string;
  opt_CPUMillis : Z;
  opt_MemoryMiB : Z;
  opt_AllowedCapabilities : option (list string);
}.

(** [TemplateOptions{..}] with the three fields the defaults set. *)
Definition base_options (cls : ExecutionClass) (sandbox : bool) (mode : ApprovalMode) : TemplateOptions :=
  {| opt_ExecutionClassRequired := cls; opt_SandboxRequired := sandbox; opt_ApprovalMode := mode;
     opt_RequireSecondApprover := false; opt_RequireSecondApproverSet := false;
     opt_Breakglass := no_breakglass; opt_MaxRuntimeSec := 0; opt_AllowedScopes := None;
     opt_RuntimeClass := ""; opt_CPUMillis := 0; opt_MemoryMiB := 0; opt_AllowedCapabilities := None |}.

Record Template := {
  tpl_ID : string;
  tpl_Name : string;
  tpl_Description : string;
  tpl_Level : CapabilityLevel;
  tpl_Allowed : list string;
  tpl_Blocked : list string;
  tpl_Paths : list string;
  tpl_ExecutionClassRequired : ExecutionClass;
  tpl_SandboxRequired : bool;
  tpl_ApprovalMode : ApprovalMode;
  tpl_RequireSecondApprover : bool;
  tpl_Breakglass : BreakglassPolicy;
  tpl_MaxRuntimeSec : Z;
  tpl_AllowedScopes : list string;
  tpl_RuntimeClass : string;
  tpl_CPUMillis : Z;
  tpl_MemoryMiB : Z;
  tpl_AllowedCapabilities : list string;
  tpl_CreatedAt : time;
  tpl_UpdatedAt : time;
}.

(** ** Validation and normalisation (validation.go) *)

Definition MaxPolicyRuntimeSec : Z := 86400.

(** Already sorted, as [sort.Strings] returns them. *)
Definition AllowedBreakglassReasons : list string :=
  [ "data_recovery"; "incident_response"; "security_emergency"; "service_outage" ].

Definition DefaultTemplateOptionsForLevel (level : CapabilityLevel) : TemplateOptions :=
  if level =s CapDiagnose then base_options ExecDiagnoseSandbox true ApprovalMutationGate
  else if level =s CapRemediate then base_options ExecRemediateSandbox true ApprovalMutationGate
  else base_options ExecObserveDirect false ApprovalNone.

Definition MergeTemplateOptions (base override : TemplateOptions) : TemplateOptions :=
  let bg := opt_Breakglass override in
  {| opt_ExecutionClassRequired :=
       if opt_ExecutionClassRequired override <>s "" then opt_ExecutionClassRequired override
       else opt_ExecutionClassRequired base;
     opt_SandboxRequired := if opt_SandboxRequired override then true else opt_SandboxRequired base;
     opt_ApprovalMode :=
       if opt_ApprovalMode override <>s "" then opt_ApprovalMode override else opt_ApprovalMode base;
     opt_RequireSecondApprover :=
       if opt_RequireSecondApproverSet override || opt_RequireSecondApprover override
       then opt_RequireSecondApprover override else opt_RequireSecondApprover base;
     opt_RequireSecondApproverSet := opt_RequireSecondApproverSet base;
     opt_Breakglass :=
       if bg_Enabled bg || bg_RequireTypedConfirmation bg || negb (Nat.eqb (length (bg_AllowedReasons bg)) 0)
       then bg else opt_Breakglass base;
     opt_MaxRuntimeSec :=
       if negb (opt_MaxRuntimeSec override =? 0) then opt_MaxRuntimeSec override else opt_MaxRuntimeSec base;
     opt_AllowedScopes :=
       match opt_AllowedScopes override with Some s => Some s | None => opt_AllowedScopes base end;
     opt_RuntimeClass := opt_RuntimeClass base;
     opt_CPUMillis := opt_CPUMillis base;
     opt_MemoryMiB := opt_MemoryMiB base;
     opt_AllowedCapabilities := opt_AllowedCapabilities base |}.

(** The loop of [normalizeStringSlice]: [seen] is its set, [out] its result. *)
Fixpoint normalize_loop (values : list string) (seen : gset string) (out : list string) : list string :=
  match values with
  | [] => out
  | value :: rest =>
      let normalized := TrimSpace (ToLower value) in
      if normalized =s "" then normalize_loop rest seen out
      else if bool_decide (normalized ∈ seen) then normalize_loop rest seen out
      else normalize_loop rest ({[normalized]} ∪ seen) (out ++ [normalized])
  end.
Definition normalizeStringSlice (values : list string) : list string := normalize_loop values ∅ [].

(** A slice that is [nil] exactly when it is empty. *)
Definition nil_if_empty (l : list string) : option (list string) :=
  match l with [] => None | _ => Some l end.

Definition NormalizeTemplateOptions (opts : TemplateOptions) : TemplateOptions :=
  let bg := opt_Breakglass opts in
  {| opt_ExecutionClassRequired := TrimSpace (opt_ExecutionClassRequired opts);
     opt_SandboxRequired := opt_SandboxRequired opts;
     opt_ApprovalMode := TrimSpace (opt_ApprovalMode opts);
     opt_RequireSecondApprover := opt_RequireSecondApprover opts;
     opt_RequireSecondApproverSet := opt_RequireSecondApproverSet opts;
     opt_Breakglass := {| bg_Enabled := bg_Enabled bg;
                          bg_AllowedReasons := normalizeStringSlice (bg_AllowedReasons bg);
                          bg_RequireTypedConfirmation := bg_RequireTypedConfirmation bg |};
     opt_MaxRuntimeSec := if opt_MaxRuntimeSec opts <? 0 then 0 else opt_MaxRuntimeSec opts;
     opt_AllowedScopes := nil_if_empty (normalizeStringSlice (default [] (opt_AllowedScopes opts)));
     opt_RuntimeClass := opt_RuntimeClass opts;
     opt_CPUMillis := opt_CPUMillis opts;
     opt_MemoryMiB := opt_MemoryMiB opts;
     opt_AllowedCapabilities := opt_AllowedCapabilities opts |}.

(** Validators return the error, or [None]. *)
Definition ValidateExecutionClass (class : ExecutionClass) : option go_error :=
  if existsb (String.eqb class)
       [ ""; ExecObserveDirect; ExecDiagnoseSandbox; ExecRemediateSandbox; ExecBreakglassDirect; ExecWasmSandbox ]
  then None else Some (ErrorString ("invalid execution_class_required " +:+ Quote class)%string).

Definition ValidateApprovalMode (mode : ApprovalMode) : option go_error :=
  if existsb (String.eqb mode)
       [ ""; ApprovalNone; ApprovalMutationGate; ApprovalPlanFirst; ApprovalEveryAction; ApprovalTwoPerson ]
  then None else Some (ErrorString ("invalid approval_mode " +:+ Quote mode)%string).

Fixpoint validate_reasons (reasons : list string) : option go_error :=
  match reasons with
  | [] => None
  | raw :: rest =>
      let reason := TrimSpace raw in
      if reason =s "" then Some (ErrorString "breakglass.allowed_reasons contains empty value")
      else if existsb (String.eqb reason) AllowedBreakglassReasons then validate_reasons rest
      else Some (ErrorString ("invalid breakglass reason " +:+ Quote reason)%string)
  end.

Definition ValidateBreakglass (bg : BreakglassPolicy) : option go_error :=
  if negb (bg_Enabled bg) then None
  else match bg_AllowedReasons bg with
  | [] => Some (ErrorString "breakglass.allowed_reasons required when breakglass is enabled")
  | reasons => validate_reasons reasons
  end.

(** The characters of the pattern [^[a-z0-9][a-z0-9:_./\-*]{0,127}$]. *)
Definition is_alnum_lower (c : ascii) : bool :=
  let n := Ascii.nat_of_ascii c in
  ((97 <=? n)%nat && (n <=? 122)%nat) || ((48 <=? n)%nat && (n <=? 57)%nat).
Definition scope_char (c : ascii) : bool := is_alnum_lower c || char_in c ":_./-*".
Fixpoint all_chars (p : ascii → bool) (s : string) : bool :=
  match s with EmptyString => true | String c s' => p c && all_chars p s' end.
Definition allowedScopePattern (s : string) : bool :=
  match s with
  | EmptyString => false
  | String c s' => is_alnum_lower c && all_chars scope_char s' && (String.length s' <=? 127)%nat
  end.

Fixpoint ValidateAllowedScopes (scopes : list string) : option go_error :=
  match scopes with
  | [] => None
  | raw :: rest =>
      let scope := TrimSpace raw in
      if scope =s "" then Some (ErrorString "allowed_scopes contains empty value")
      else if allowedScopePattern scope then ValidateAllowedScopes rest
      else Some (ErrorString ("invalid allowed_scope " +:+ Quote scope)%string)
  end.

(** ** Sandbox enforcement (sandbox_enforcement.go) *)

Definition BreakglassConfirmReasonField : string := "breakglass_reason".
Definition BreakglassConfirmTokenField : string := "breakglass_token".

Record BreakglassConfirmation := { bc_Confirmed : bool; bc_Method : string; bc_Reason : string }.

Definition IsHostDirectLane (lane : ExecutionClass) : bool :=
  (lane =s ExecObserveDirect) || (lane =s ExecBreakglassDirect).

Definition IsMutationCategory (category : string) : bool := EqualFold (TrimSpace category) "mutation".

Definition RequiresBreakglassConfirmation (category : string) (lane : ExecutionClass) : bool :=
  IsMutationCategory category && IsHostDirectLane lane.

Definition ResolveBreakglassConfirmation (reason token : string) : BreakglassConfirmation :=
  let reason := TrimSpace reason in
  let token := TrimSpace token in
  if reason <>s "" then {| bc_Confirmed := true; bc_Method := BreakglassConfirmReasonField; bc_Reason := reason |}
  else if token <>s "" then {| bc_Confirmed := true; bc_Method := BreakglassConfirmTokenField; bc_Reason := token |}
  else {| bc_Confirmed := false; bc_Method := ""; bc_Reason := "" |}.

Definition BreakglassReasonAllowed (reason : string) (allowed : list string) : bool :=
  match allowed with
  | [] => true
  | _ =>
      let reason := ToLower (TrimSpace reason) in
      if reason =s "" then false
      else existsb (λ candidate, reason =s ToLower (TrimSpace candidate)) allowed
  end.

Definition IsWasmLane (lane : ExecutionClass) : bool := lane =s ExecWasmSandbox.

Definition WasmLaneRejectsHostDirect (sandboxLane requestedLane : ExecutionClass) (category : string) : bool :=
  IsWasmLane sandboxLane && IsHostDirectLane requestedLane && IsMutationCategory category.

(** ** The in-memory store (templates.go) *)

Record Store := { templates : gmap string Template; nextID : Z }.

(** [applyOptions] on the template [tpl]. *)
Definition applyOptions (tpl : Template) (opts : TemplateOptions) : Template :=
  let opts := NormalizeTemplateOptions (MergeTemplateOptions (DefaultTemplateOptionsForLevel (tpl_Level tpl)) opts) in
  {| tpl_ID := tpl_ID tpl; tpl_Name := tpl_Name tpl; tpl_Description := tpl_Description tpl;
     tpl_Level := tpl_Level tpl; tpl_Allowed := tpl_Allowed tpl; tpl_Blocked := tpl_Blocked tpl;
     tpl_Paths := tpl_Paths tpl;
     tpl_ExecutionClassRequired := opt_ExecutionClassRequired opts;
     tpl_SandboxRequired := opt_SandboxRequired opts;
     tpl_ApprovalMode := opt_ApprovalMode opts;
     tpl_RequireSecondApprover := opt_RequireSecondApprover opts;
     tpl_Breakglass := opt_Breakglass opts;
     tpl_MaxRuntimeSec := opt_MaxRuntimeSec opts;
     tpl_AllowedScopes := default [] (opt_AllowedScopes opts);
     tpl_RuntimeClass := if opt_RuntimeClass opts <>s "" then opt_RuntimeClass opts else tpl_RuntimeClass tpl;
     tpl_CPUMillis := if negb (opt_CPUMillis opts =? 0) then opt_CPUMillis opts else tpl_CPUMillis tpl;
     tpl_MemoryMiB := if negb (opt_MemoryMiB opts =? 0) then opt_MemoryMiB opts else tpl_MemoryMiB tpl;
     tpl_AllowedCapabilities :=
       match opt_AllowedCapabilities opts with Some l => l | None => tpl_AllowedCapabilities tpl end;
     tpl_CreatedAt := tpl_CreatedAt tpl; tpl_UpdatedAt := tpl_UpdatedAt tpl |}.

(** A [Template] literal with the fields the constructors set. *)
Definition new_template (id name description : string) (level : CapabilityLevel)
    (allowed blocked paths : list string) (created updated : time) : Template :=
  {| tpl_ID := id; tpl_Name := name; tpl_Description := description; tpl_Level := level;
     tpl_Allowed := allowed; tpl_Blocked := blocked; tpl_Paths := paths;
     tpl_ExecutionClassRequired := ""; tpl_SandboxRequired := false; tpl_ApprovalMode := "";
     tpl_RequireSecondApprover := false; tpl_Breakglass := no_breakglass; tpl_MaxRuntimeSec := 0;
     tpl_AllowedScopes := []; tpl_RuntimeClass := ""; tpl_CPUMillis := 0; tpl_MemoryMiB := 0;
     tpl_AllowedCapabilities := []; tpl_CreatedAt := created; tpl_UpdatedAt := updated |}.

Definition builtin_observe (now : time) : Template :=
  applyOptions
    (new_template "observe-only" "Observe Only" "Read-only access. Cannot modify system state." CapObserve
       [] ["rm"; "kill"; "reboot"; "shutdown"; "mkfs"; "dd"; "systemctl stop"; "systemctl restart"] [] now now)
    (base_options ExecObserveDirect false ApprovalNone).

Definition builtin_diagnose (now : time) : Template :=
  applyOptions
    (new_template "diagnose" "Diagnose" "Read access plus diagnostic tools (strace, tcpdump, etc)." CapDiagnose
       [] ["rm -rf"; "mkfs"; "dd if="; "reboot"; "shutdown"; "systemctl stop"; "systemctl restart"] [] now now)
    (base_options ExecDiagnoseSandbox true ApprovalMutationGate).

Definition builtin_remediate (now : time) : Template :=
  applyOptions
    (new_template "full-remediate" "Full Remediate"
       "Full access including service restarts and package management. Use with approval queue." CapRemediate
       [] ["rm -rf /"; "mkfs"; "dd if=/dev/zero of=/dev/sd"] [] now now)
    (base_options ExecRemediateSandbox true ApprovalMutationGate).

(** The WASM template sets its runtime fields in the literal. *)
Definition wasm_literal (now : time) : Template :=
  {| tpl_ID := "wasm-fast-lane"; tpl_Name := "WASM Fast Lane";
     tpl_Description := "Lightweight WASM sandbox with wasmtime runtime class. Minimal capabilities, strict resource limits, no host-direct mutations.";
     tpl_Level := CapDiagnose; tpl_Allowed := [];
     tpl_Blocked := ["rm -rf"; "mkfs"; "dd"; "reboot"; "shutdown"; "mount"; "chroot"]; tpl_Paths := [];
     tpl_ExecutionClassRequired := ""; tpl_SandboxRequired := false; tpl_ApprovalMode := "";
     tpl_RequireSecondApprover := false; tpl_Breakglass := no_breakglass; tpl_MaxRuntimeSec := 0;
     tpl_AllowedScopes := []; tpl_RuntimeClass := "wasmtime"; tpl_CPUMillis := 500; tpl_MemoryMiB := 256;
     tpl_AllowedCapabilities := []; tpl_CreatedAt := now; tpl_UpdatedAt := now |}.

Definition wasm_options : TemplateOptions :=
  {| opt_ExecutionClassRequired := ExecWasmSandbox; opt_SandboxRequired := true;
     opt_ApprovalMode := ApprovalMutationGate; opt_RequireSecondApprover := false;
     opt_RequireSecondApproverSet := false; opt_Breakglass := no_breakglass; opt_MaxRuntimeSec := 300;
     opt_AllowedScopes := Some ["wasm:exec"; "wasm:read"]; opt_RuntimeClass := ""; opt_CPUMillis := 0;
     opt_MemoryMiB := 0; opt_AllowedCapabilities := None |}.

Definition builtin_wasm (now : time) : Template := applyOptions (wasm_literal now) wasm_options.

Definition NewStore (now : time) : Store :=
  {| templates :=
       <["wasm-fast-lane" := builtin_wasm now]>
       (<["full-remediate" := builtin_remediate now]>
       (<["diagnose" := builtin_diagnose now]>
       (<["observe-only" := builtin_observe now]> ∅)));
     nextID := 100 |}.

Definition List (s : Store) : list Template := (map_to_list (templates s)).*2.
Definition Get (s : Store) (id : string) : option Template := templates s !! id.

Definition template_id (n : Z) : string := ("pol-" +:+ Itoa n)%string.

Definition Create (s : Store) (now : time) (name description : string) (level : CapabilityLevel)
    (allowed blocked paths : list string) (opts : TemplateOptions) : Template * Store :=
  let n := nextID s + 1 in
  let id := template_id n in
  let t := applyOptions (new_template id name description level allowed blocked paths now now) opts in
  (t, {| templates := <[id := t]> (templates s); nextID := n |}).

(** The fields [Update] assigns, before and after [applyOptions]. *)
Definition rename_template (t : Template) (name description : string) (level : CapabilityLevel)
    (allowed blocked paths : list string) : Template :=
  {| tpl_ID := tpl_ID t; tpl_Name := name; tpl_Description := description; tpl_Level := level;
     tpl_Allowed := allowed; tpl_Blocked := blocked; tpl_Paths := paths;
     tpl_ExecutionClassRequired := tpl_ExecutionClassRequired t; tpl_SandboxRequired := tpl_SandboxRequired t;
     tpl_ApprovalMode := tpl_ApprovalMode t; tpl_RequireSecondApprover := tpl_RequireSecondApprover t;
     tpl_Breakglass := tpl_Breakglass t; tpl_MaxRuntimeSec := tpl_MaxRuntimeSec t;
     tpl_AllowedScopes := tpl_AllowedScopes t; tpl_RuntimeClass := tpl_RuntimeClass t;
     tpl_CPUMillis := tpl_CPUMillis t; tpl_MemoryMiB := tpl_MemoryMiB t;
     tpl_AllowedCapabilities := tpl_AllowedCapabilities t;
     tpl_CreatedAt := tpl_CreatedAt t; tpl_UpdatedAt := tpl_UpdatedAt t |}.
Definition touch_template (t : Template) (now : time) : Template :=
  {| tpl_ID := tpl_ID t; tpl_Name := tpl_Name t; tpl_Description := tpl_Description t; tpl_Level := tpl_Level t;
     tpl_Allowed := tpl_Allowed t; tpl_Blocked := tpl_Blocked t; tpl_Paths := tpl_Paths t;
     tpl_ExecutionClassRequired := tpl_ExecutionClassRequired t; tpl_SandboxRequired := tpl_SandboxRequired t;
     tpl_ApprovalMode := tpl_ApprovalMode t; tpl_RequireSecondApprover := tpl_RequireSecondApprover t;
     tpl_Breakglass := tpl_Breakglass t; tpl_MaxRuntimeSec := tpl_MaxRuntimeSec t;
     tpl_AllowedScopes := tpl_AllowedScopes t; tpl_RuntimeClass := tpl_RuntimeClass t;
     tpl_CPUMillis := tpl_CPUMillis t; tpl_MemoryMiB := tpl_MemoryMiB t;
     tpl_AllowedCapabilities := tpl_AllowedCapabilities t;
     tpl_CreatedAt := tpl_CreatedAt t; tpl_UpdatedAt := now |}.

Definition Update (s : Store) (now : time) (id name description : string) (level : CapabilityLevel)
    (allowed blocked paths : list string) (opts : TemplateOptions) : result (Template * Store) :=
  match templates s !! id with
  | None => inl (ErrorString ("template not found: " +:+ id)%string)
  | Some t =>
      let t := touch_template (applyOptions (rename_template t name description level allowed blocked paths) opts) now in
      inr (t, {| templates := <[id := t]> (templates s); nextID := nextID s |})
  end.

Definition Delete (s : Store) (id : string) : result Store :=
  match templates s !! id with
  | None => inl (ErrorString ("template not found: " +:+ id)%string)
  | Some _ => inr {| templates := delete id (templates s); nextID := nextID s |}
  end.

Definition ToPolicy (t : Template) : PolicyUpdatePayload :=
  {| pol_PolicyID := tpl_ID t; pol_Level := tpl_Level t; pol_Allowed := tpl_Allowed t;
     pol_Blocked := tpl_Blocked t; pol_Paths := tpl_Paths t;
     pol_ExecutionClassRequired := tpl_ExecutionClassRequired t;
     pol_SandboxRequired := tpl_SandboxRequired t; pol_ApprovalMode := tpl_ApprovalMode t;
     pol_RequireSecondApprover := tpl_RequireSecondApprover t; pol_Breakglass := tpl_Breakglass t;
     pol_MaxRuntimeSec := tpl_MaxRuntimeSec t; pol_AllowedScopes := tpl_AllowedScopes t |}.

(** ** The persistent store (store.go)

    A row holds the columns of [policy_templates]; JSON columns hold the
    values they encode.  [db_ok] says whether the statement succeeds: the code
    ignores its error. *)

Record TemplateRow := {
  row_id : string; row_name : string; row_desc : string; row_level : string;
  row_allowed : list string; row_blocked : list string; row_paths : list string;
  row_executionClass : string; row_sandboxRequired : Z; row_approvalMode : string;
  row_requireSecondApprover : Z; row_breakglass : BreakglassPolicy; row_maxRuntimeSec : Z;
  row_allowedScopes : list string; row_created : time; row_updated : time;
}.

Record PersistentStore := { mem : Store; db : gmap string TemplateRow }.

Definition boolToInt (v : bool) : Z := if v then 1 else 0.

(** An instant printed and parsed with [time.RFC3339] loses its fraction. *)
Definition whole_seconds (t : time) : time := t / Second * Second.

Definition template_row (t : Template) : TemplateRow :=
  {| row_id := tpl_ID t; row_name := tpl_Name t; row_desc := tpl_Description t; row_level := tpl_Level t;
     row_allowed := tpl_Allowed t; row_blocked := tpl_Blocked t; row_paths := tpl_Paths t;
     row_executionClass := tpl_ExecutionClassRequired t;
     row_sandboxRequired := boolToInt (tpl_SandboxRequired t);
     row_approvalMode := tpl_ApprovalMode t;
     row_requireSecondApprover := boolToInt (tpl_RequireSecondApprover t);
     row_breakglass := tpl_Breakglass t; row_maxRuntimeSec := tpl_MaxRuntimeSec t;
     row_allowedScopes := tpl_AllowedScopes t;
     row_created := whole_seconds (tpl_CreatedAt t); row_updated := whole_seconds (tpl_UpdatedAt t) |}.

(** [INSERT .. ON CONFLICT(id) DO UPDATE]: every column but [created_at] is
    replaced when the row exists. *)
Definition persist (db_ok : bool) (db : gmap string TemplateRow) (t : Template) : gmap string TemplateRow :=
  let r := template_row t in
  if negb db_ok then db
  else match db !! tpl_ID t with
  | None => <[tpl_ID t := r]> db
  | Some old =>
      <[tpl_ID t :=
         {| row_id := row_id r; row_name := row_name r; row_desc := row_desc r; row_level := row_level r;
            row_allowed := row_allowed r; row_blocked := row_blocked r; row_paths := row_paths r;
            row_executionClass := row_executionClass r; row_sandboxRequired := row_sandboxRequired r;
            row_approvalMode := row_approvalMode r; row_requireSecondApprover := row_requireSecondApprover r;
            row_breakglass := row_breakglass r; row_maxRuntimeSec := row_maxRuntimeSec r;
            row_allowedScopes := row_allowedScopes r;
            row_created := row_created old; row_updated := row_updated r |}]> db
  end.

(** One row of [loadFromDB]. *)
Definition load_row (r : TemplateRow) : Template :=
  let defaults := DefaultTemplateOptionsForLevel (row_level r) in
  let cls := TrimSpace (row_executionClass r) in
  let mode := TrimSpace (row_approvalMode r) in
  let sandbox := negb (row_sandboxRequired r =? 0) in
  let opts := NormalizeTemplateOptions
    {| opt_ExecutionClassRequired := if cls =s "" then opt_ExecutionClassRequired defaults else cls;
       opt_SandboxRequired :=
         if (cls =s "") && (mode =s "") && negb sandbox then opt_SandboxRequired defaults else sandbox;
       opt_ApprovalMode := if mode =s "" then opt_ApprovalMode defaults else mode;
       opt_RequireSecondApprover := negb (row_requireSecondApprover r =? 0);
       opt_RequireSecondApproverSet := false;
       opt_Breakglass := row_breakglass r; opt_MaxRuntimeSec := row_maxRuntimeSec r;
       opt_AllowedScopes := Some (row_allowedScopes r);
       opt_RuntimeClass := ""; opt_CPUMillis := 0; opt_MemoryMiB := 0; opt_AllowedCapabilities := None |} in
  {| tpl_ID := row_id r; tpl_Name := row_name r; tpl_Description := row_desc r; tpl_Level := row_level r;
     tpl_Allowed := row_allowed r; tpl_Blocked := row_blocked r; tpl_Paths := row_paths r;
     tpl_ExecutionClassRequired := opt_ExecutionClassRequired opts;
     tpl_SandboxRequired := opt_SandboxRequired opts; tpl_ApprovalMode := opt_ApprovalMode opts;
     tpl_RequireSecondApprover := opt_RequireSecondApprover opts; tpl_Breakglass := opt_Breakglass opts;
     tpl_MaxRuntimeSec := opt_MaxRuntimeSec opts; tpl_AllowedScopes := default [] (opt_AllowedScopes opts);
     tpl_RuntimeClass := ""; tpl_CPUMillis := 0; tpl_MemoryMiB := 0; tpl_AllowedCapabilities := [];
     tpl_CreatedAt := row_created r; tpl_UpdatedAt := row_updated r |}.

(** Opening the database: the built-in templates, overridden by the rows. *)
Definition NewPersistentStore (now : time) (db : gmap string TemplateRow) : PersistentStore :=
  let base := NewStore now in
  {| mem := {| templates := (load_row <$> db) ∪ templates base; nextID := nextID base |}; db := db |}.

Definition PersistentCreate (db_ok : bool) (ps : PersistentStore) (now : time) (name description : string)
    (level : CapabilityLevel) (allowed blocked paths : list string) (opts : TemplateOptions)
    : Template * PersistentStore :=
  let '(t, m) := Create (mem ps) now name description level allowed blocked paths opts in
  (t, {| mem := m; db := persist db_ok (db ps) t |}).

Definition PersistentUpdate (db_ok : bool) (ps : PersistentStore) (now : time) (id name description : string)
    (level : CapabilityLevel) (allowed blocked paths : list string) (opts : TemplateOptions)
    : result (Template * PersistentStore) :=
  match Update (mem ps) now id name description level allowed blocked paths opts with
  | inl err => inl err
  | inr (t, m) => inr (t, {| mem := m; db := persist db_ok (db ps) t |})
  end.

Definition PersistentDelete (db_ok : bool) (ps : PersistentStore) (id : string) : result PersistentStore :=
  match Delete (mem ps) id with
  | inl err => inl err
  | inr m => inr {| mem := m; db := if db_ok then delete id (db ps) else db ps |}
  end.

(** ** Lemmas: normalised string slices *)

(** A string that normalisation leaves alone. *)
Definition normal (x : string) : Prop := x ≠ "" ∧ TrimSpace (ToLower x) = x.

Lemma normal_normalized v : TrimSpace (ToLower v) ≠ "" → normal (TrimSpace (ToLower v)).
Proof.
  intros Hne. split; [done|].
  by rewrite (TrimSpace_ToLower v), ToLower_idem, TrimSpace_ToLower, TrimSpace_idem.
Qed.

Lemma normalize_loop_spec values seen out :
  (∀ x, x ∈ seen ↔ x ∈ out) → NoDup out →
  NoDup (normalize_loop values seen out) ∧
  ∀ x, x ∈ normalize_loop values seen out ↔
       x ∈ out ∨ (x ≠ "" ∧ ∃ v, v ∈ values ∧ x = TrimSpace (ToLower v)).
Proof.
  revert seen out. induction values as [|v values IH]; intros seen out Hs Hd; simpl.
  - split; [done|]. set_solver.
  - destruct (String.eqb_spec (TrimSpace (ToLower v)) "") as [E|E].
    + destruct (IH seen out Hs Hd) as [? Hin]. split; [done|]. intros x. rewrite Hin. set_solver.
    + case_bool_decide as Hv.
      * destruct (IH seen out Hs Hd) as [? Hin]. split; [done|]. intros x. rewrite Hin. set_solver.
      * destruct (IH ({[TrimSpace (ToLower v)]} ∪ seen) (out ++ [TrimSpace (ToLower v)])) as [? Hin].
        { set_solver. }
        { apply NoDup_app. split_and!; [done| |apply NoDup_singleton]. set_solver. }
        split; [done|]. intros x. rewrite Hin. set_solver.
Qed.

Lemma normalize_loop_fixed values seen out :
  (∀ x, x ∈ seen ↔ x ∈ out) → NoDup (out ++ values) → Forall normal values →
  normalize_loop values seen out = out ++ values.
Proof.
  revert seen out. induction values as [|v values IH]; intros seen out Hs Hd Hn; simpl.
  - by rewrite app_nil_r.
  - apply Forall_cons in Hn as [[Hne Hv] Hn]. rewrite Hv.
    destruct (String.eqb_spec v "") as [|_]; [done|].
    assert (v ∉ out) by (apply NoDup_app in Hd as (_ & Hd & _); set_solver).
    rewrite bool_decide_eq_false_2 by set_solver.
    rewrite IH, <- app_assoc; [done|set_solver|by rewrite <- app_assoc|done].
Qed.

Lemma normalizeStringSlice_wf values :
  NoDup (normalizeStringSlice values) ∧ Forall normal (normalizeStringSlice values).
Proof.
  destruct (normalize_loop_spec values ∅ []) as [Hd Hin]; [set_solver|apply NoDup_nil_2|].
  split; [done|]. apply Forall_forall. intros x Hx. apply Hin in Hx as [|(Hne & v & _ & ->)]; [set_solver|].
  by apply normal_normalized.
Qed.

(** ** Lemmas: the store *)

Record tpl_wf (t : Template) : Prop := {
  wf_sandbox : tpl_Level t = CapDiagnose ∨ tpl_Level t = CapRemediate → tpl_SandboxRequired t = true;
  wf_runtime : 0 <= tpl_MaxRuntimeSec t;
  wf_scopes : NoDup (tpl_AllowedScopes t) ∧ Forall normal (tpl_AllowedScopes t);
  wf_reasons : NoDup (bg_AllowedReasons (tpl_Breakglass t)) ∧ Forall normal (bg_AllowedReasons (tpl_Breakglass t));
}.

Lemma nil_if_empty_default l : default [] (nil_if_empty l) = l.
Proof. by destruct l. Qed.

Lemma applyOptions_wf tpl opts : tpl_wf (applyOptions tpl opts).
Proof.
  unfold applyOptions. split; simpl.
  - unfold DefaultTemplateOptionsForLevel. intros [-> | ->]; simpl; by destruct (opt_SandboxRequired opts).
  - repeat case_match; bools; lia.
  - rewrite nil_if_empty_default. apply normalizeStringSlice_wf.
  - apply normalizeStringSlice_wf.
Qed.

Lemma touch_template_wf t now : tpl_wf t → tpl_wf (touch_template t now).
Proof. by intros []. Qed.

#[export] Hint Resolve applyOptions_wf touch_template_wf : legator.

Lemma template_id_inj n m : template_id n = template_id m → n = m.
Proof. unfold template_id, Itoa. intros H. by simplify_eq. Qed.

Record store_inv (s : Store) : Prop := {
  inv_keys : ∀ id t, templates s !! id = Some t → tpl_ID t = id ∧ tpl_wf t;
  inv_next : ∀ n, is_Some (templates s !! template_id n) → n <= nextID s;
}.

Inductive store_step (s : Store) : Store → Prop :=
  | step_create now name desc level allowed blocked paths opts t s' :
      Create s now name desc level allowed blocked paths opts = (t, s') → store_step s s'
  | step_update now id name desc level allowed blocked paths opts t s' :
      Update s now id name desc level allowed blocked paths opts = inr (t, s') → store_step s s'
  | step_delete id s' : Delete s id = inr s' → store_step s s'.

Lemma NewStore_inv now : store_inv (NewStore now).
Proof.
  split.
  - intros id t. unfold NewStore; cbn [templates].
    rewrite !lookup_insert_Some, lookup_empty. intros H.
    repeat destruct H as [[<- <-]|[_ H]]; try done; (split; [done|apply applyOptions_wf]).
  - intros n [t Ht]. revert Ht. unfold NewStore; cbn [templates].
    rewrite !lookup_insert_Some, lookup_empty. intros H.
    repeat destruct H as [[H _]|[_ H]]; done.
Qed.

Lemma store_step_inv s s' : store_step s s' → store_inv s → store_inv s'.
Proof.
  intros Hstep [Hk Hn]. destruct Hstep as [????????? s' H|?????????? s' H|? s' H].
  - unfold Create in H. simplify_eq/=. split; simpl.
    + intros id t'. rewrite lookup_insert_Some. intros [[<- <-]|[_ ?]]; eauto using applyOptions_wf.
    + intros n. rewrite lookup_insert. case_decide as E; [intros _; apply template_id_inj in E; lia|].
      intros ?%Hn. lia.
  - unfold Update in H. destruct (templates s !! id) as [t0|] eqn:E; [|done]. simplify_eq/=.
    split; simpl.
    + intros id' t'. rewrite lookup_insert_Some. intros [[<- <-]|[_ ?]]; [|eauto].
      destruct (Hk id t0 E) as [HID _]. split; [exact HID|]. auto with legator.
    + intros n. rewrite lookup_insert. case_decide; [subst; intros _; apply Hn; by rewrite E|auto].
  - unfold Delete in H. destruct (templates s !! id) as [t0|] eqn:E; [|done]. simplify_eq/=.
    split; simpl.
    + intros id' t' [_ ?]%lookup_delete_Some. eauto.
    + intros n [t' [_ ?]%lookup_delete_Some]. apply Hn. eauto.
Qed.

Lemma store_reachable_inv now s : rtc store_step (NewStore now) s → store_inv s.
Proof.
  intros H. assert (Hi := NewStore_inv now). revert Hi.
  induction H; eauto using store_step_inv.
Qed.

(** ** Properties *)

(** Every template of a reachable store is well formed: it is filed under
    its own id, a [diagnose] or [remediate] template always requires the
    sandbox (no option can switch it off), its runtime limit is not negative,
    and its scopes and breakglass reasons are normalised without repetition. *)
Theorem policy_store_invariant now s id t :
  rtc store_step (NewStore now) s → Get s id = Some t → tpl_ID t = id ∧ tpl_wf t.
Proof. intros Hr Hg. by apply (inv_keys _ (store_reachable_inv now s Hr)). Qed.

(** In one process lifetime [Create] never overwrites a template: its id is
    unused, the template it returns is the one stored, and every other
    template is untouched. *)
Theorem policy_create_fresh now s at_ name desc level allowed blocked paths opts t s' :
  rtc store_step (NewStore now) s →
  Create s at_ name desc level allowed blocked paths opts = (t, s') →
  Get s (tpl_ID t) = None ∧ Get s' (tpl_ID t) = Some t ∧
  ∀ id, id ≠ tpl_ID t → Get s' id = Get s id.
Proof.
  intros Hr H. apply store_reachable_inv in Hr as [_ Hn]. unfold Create in H. simplify_eq/=. unfold Get; simpl.
  split_and!.
  - apply eq_None_not_Some. intros ?%Hn. lia.
  - apply lookup_insert_eq.
  - intros id Hne. by apply lookup_insert_ne.
Qed.

(** The id counter is not restored when the database is reopened: after a
    restart the first [Create] reuses the id of the first template created
    before it, and replaces that template in memory and in the database. *)
Theorem policy_restart_overwrites now0 t0 now1 t1 n1 d1 l1 a1 b1 p1 o1 n2 d2 l2 a2 b2 p2 o2 :
  let '(first, ps1) := PersistentCreate true (NewPersistentStore now0 ∅) t0 n1 d1 l1 a1 b1 p1 o1 in
  let reopened := NewPersistentStore now1 (db ps1) in
  let '(second, ps2) := PersistentCreate true reopened t1 n2 d2 l2 a2 b2 p2 o2 in
  (tpl_Name <$> Get (mem reopened) (tpl_ID first)) = Some n1 ∧
  tpl_ID second = tpl_ID first ∧
  (tpl_Name <$> Get (mem ps2) (tpl_ID first)) = Some n2 ∧
  (row_name <$> db ps2 !! tpl_ID first) = Some n2.
Proof.
  cbn -[template_id load_row template_row applyOptions NewStore persist].
  assert (Hid : nextID (NewStore now0) = nextID (NewStore now1)) by done. rewrite <- Hid. clear Hid.
  set (id := template_id (nextID (NewStore now0) + 1)).
  change (tpl_ID (applyOptions (new_template id n1 d1 l1 a1 b1 p1 t0 t0) o1)) with id. unfold Get; cbn [templates].
  assert (Hp : ∀ d t, tpl_ID t = id → row_name <$> persist true d t !! id = Some (tpl_Name t)).
  { intros d t <-. unfold persist; simpl. destruct (d !! tpl_ID t); by rewrite lookup_insert_eq. }
  split_and!; [|done|by rewrite lookup_insert_eq|by apply Hp].
  specialize (Hp ∅ (applyOptions (new_template id n1 d1 l1 a1 b1 p1 t0 t0) o1) eq_refl).
  rewrite lookup_union, lookup_fmap.
  destruct (persist _ _ _ !! id) as [r|]; simpl in *; [|done].
  simplify_eq. by destruct (templates (NewStore now1) !! id).
Qed.

(** [normalizeStringSlice] returns, without repetition, exactly the
    non-empty lower-cased trimmed values, and a second application changes
    nothing. *)
Theorem normalizeStringSlice_spec values :
  NoDup (normalizeStringSlice values) ∧
  (∀ x, x ∈ normalizeStringSlice values ↔ x ≠ "" ∧ ∃ v, v ∈ values ∧ x = TrimSpace (ToLower v)) ∧
  normalizeStringSlice (normalizeStringSlice values) = normalizeStringSlice values.
Proof.
  destruct (normalize_loop_spec values ∅ []) as [Hd Hin]; [set_solver|apply NoDup_nil_2|].
  split_and!; [done|unfold normalizeStringSlice; set_solver|].
  apply (normalize_loop_fixed _ ∅ []); [set_solver|done|]. apply normalizeStringSlice_wf.
Qed.

(** The WASM resource options given to [Create] never reach the template:
    [MergeTemplateOptions] starts from the level's defaults and does not copy
    them, so the template's runtime class, CPU and memory limits stay unset. *)
Theorem policy_wasm_options_dropped s now name desc level allowed blocked paths opts :
  let t := (Create s now name desc level allowed blocked paths opts).1 in
  tpl_RuntimeClass t = "" ∧ tpl_CPUMillis t = 0 ∧ tpl_MemoryMiB t = 0 ∧ tpl_AllowedCapabilities t = [].
Proof.
  unfold Create, applyOptions, DefaultTemplateOptionsForLevel; simpl.
  destruct (level =s CapDiagnose); [done|]. by destruct (level =s CapRemediate).
Qed.

(** ** Witnesses *)

Definition demo_store : Store :=
  (Create (NewStore 0) 5 "ops" "" CapRemediate [] [] [] (base_options "" false ApprovalNone)).2.

Lemma demo_store_reachable : rtc store_step (NewStore 0) demo_store.
Proof. apply rtc_once. eapply (step_create _ 5 "ops" "" CapRemediate). unfold demo_store. by rewrite <- surjective_pairing. Qed.

Lemma policy_store_invariant_witness :
  ∃ t, Get demo_store "pol-101" = Some t ∧ tpl_ID t = "pol-101" ∧ tpl_wf t.
Proof.
  eexists. split; [vm_compute; reflexivity|].
  apply (policy_store_invariant 0 demo_store "pol-101"); [apply demo_store_reachable|vm_compute; reflexivity].
Defined.

Lemma policy_create_fresh_witness :
  Get demo_store "pol-102" = None.
Proof.
  refine (proj1 (policy_create_fresh 0 demo_store 7 "b" "" CapObserve [] [] [] (base_options "" false "") _ _
    demo_store_reachable (surjective_pairing _))).
Defined.
