(* ===== verification/ApprovalQueue.v ===== *)
(** * The approval queue
    (src/internal/controlplane/approval/queue.go)

    A request is the object its id points to in the queue's map, so every
    operation that the code performs through a [*Request] is an update of the
    map at that id.  [time.Now()] readings and the generated UUID are
    arguments of the operations; each lock region is one operation, so any
    interleaving of callers is a sequence of them.  The order in which Go
    ranges over the map is an argument as well. *)
From S2P Require Import Prelude GoStrings GoErrors GoTime GoSort Protocol.
Local Open Scope go_scope.
Local Open Scope Z_scope.

Notation ApprovalDecision := string (only parsing).
Definition DecisionPending : ApprovalDecision := "pending".
Definition DecisionApproved : ApprovalDecision := "approved".
Definition DecisionDenied : ApprovalDecision := "denied".
Definition DecisionExpired : ApprovalDecision := "expired".

Record ApprovalRecord := { Actor : string; Timestamp : time }.
Record SubmissionOptions := { so_RequireSecondApprover : bool }.

(** [R] is the type of the policy rationale, which the queue only stores. *)
Record Request {R : Type} := {
  ID : string;
  WorkspaceID : string;
  ProbeID : string;
  Command : option CommandPayload;
  Reason : string;
  RiskLevel : string;
  Requester : string;
  PolicyDecision : string;
  PolicyRationale : option R;
  RequireSecondApprover : bool;
  RequiredApprovals : Z;
  Approvals : list ApprovalRecord;
  decision : ApprovalDecision;
  DecidedBy : string;
  DecidedAt : time;
  CreatedAt : time;
  ExpiresAt : time;
}.
Arguments Request : clear implicits.

Record Queue {R : Type} := { requests : gmap string (Request R); ttl : Z; maxSize : Z }.
Arguments Queue : clear implicits.

Section queue.
Context {R : Type}.
Implicit Types (q : Queue R) (r : Request R).

(** *** Assignments to fields of a request *)

Definition set_decision r (d : ApprovalDecision) : Request R :=
  {| ID := ID r; WorkspaceID := WorkspaceID r; ProbeID := ProbeID r; Command := Command r;
     Reason := Reason r; RiskLevel := RiskLevel r; Requester := Requester r;
     PolicyDecision := PolicyDecision r; PolicyRationale := PolicyRationale r;
     RequireSecondApprover := RequireSecondApprover r; RequiredApprovals := RequiredApprovals r;
     Approvals := Approvals r; decision := d; DecidedBy := DecidedBy r; DecidedAt := DecidedAt r;
     CreatedAt := CreatedAt r; ExpiresAt := ExpiresAt r |}.

Definition set_decided r (d : ApprovalDecision) (by_ : string) (at_ : time) : Request R :=
  {| ID := ID r; WorkspaceID := WorkspaceID r; ProbeID := ProbeID r; Command := Command r;
     Reason := Reason r; RiskLevel := RiskLevel r; Requester := Requester r;
     PolicyDecision := PolicyDecision r; PolicyRationale := PolicyRationale r;
     RequireSecondApprover := RequireSecondApprover r; RequiredApprovals := RequiredApprovals r;
     Approvals := Approvals r; decision := d; DecidedBy := by_; DecidedAt := at_;
     CreatedAt := CreatedAt r; ExpiresAt := ExpiresAt r |}.

Definition add_approval r (a : ApprovalRecord) : Request R :=
  {| ID := ID r; WorkspaceID := WorkspaceID r; ProbeID := ProbeID r; Command := Command r;
     Reason := Reason r; RiskLevel := RiskLevel r; Requester := Requester r;
     PolicyDecision := PolicyDecision r; PolicyRationale := PolicyRationale r;
     RequireSecondApprover := RequireSecondApprover r; RequiredApprovals := RequiredApprovals r;
     Approvals := Approvals r ++ [a]; decision := decision r; DecidedBy := DecidedBy r;
     DecidedAt := DecidedAt r; CreatedAt := CreatedAt r; ExpiresAt := ExpiresAt r |}.

Definition set_workspace r (w : string) : Request R :=
  {| ID := ID r; WorkspaceID := w; ProbeID := ProbeID r; Command := Command r;
     Reason := Reason r; RiskLevel := RiskLevel r; Requester := Requester r;
     PolicyDecision := PolicyDecision r; PolicyRationale := PolicyRationale r;
     RequireSecondApprover := RequireSecondApprover r; RequiredApprovals := RequiredApprovals r;
     Approvals := Approvals r; decision := decision r; DecidedBy := DecidedBy r;
     DecidedAt := DecidedAt r; CreatedAt := CreatedAt r; ExpiresAt := ExpiresAt r |}.

Definition set_requests q (m : gmap string (Request R)) : Queue R :=
  {| requests := m; ttl := ttl q; maxSize := maxSize q |}.

(** *** Methods of [Request] (the nil receiver is [None]) *)

Definition RequiredApprovalCount (r : option (Request R)) : Z :=
  match r with
  | None => 1
  | Some r =>
      if 1 <? RequiredApprovals r then RequiredApprovals r
      else if RequireSecondApprover r then 2 else 1
  end.

Definition ApproverIDs (r : option (Request R)) : list string :=
  match r with
  | None => []
  | Some r => List.filter (λ a, a <>s "") (map (λ a, TrimSpace (Actor a)) (Approvals r))
  end.

Definition LatestApproval (r : option (Request R)) : option ApprovalRecord :=
  match r with None => None | Some r => last (Approvals r) end.

(** *** Operations *)

Definition NewQueue (ttl maxSize : Z) : Queue R := {| requests := ∅; ttl := ttl; maxSize := maxSize |}.

(** One request in the first loop of [evictExpiredLocked]. *)
Definition expire_request (now : time) r : Request R :=
  if (decision r =s DecisionPending) && After now (ExpiresAt r) then set_decision r DecisionExpired else r.

(** The condition of the second loop. *)
Definition purgeable (now : time) r : bool :=
  (decision r <>s DecisionPending) && Before (CreatedAt r) (now - 24 * Hour).

(** Both loops treat every request independently of the others, so the
    iteration order does not matter. *)
Definition evictExpiredLocked (now : time) q : Queue R :=
  set_requests q (filter (λ kr, purgeable now kr.2 = false) (expire_request now <$> requests q)).

Definition queue_full_error (n maxSize : Z) : go_error :=
  ErrorString ("approval queue full (" +:+ Itoa n +:+ "/" +:+ Itoa maxSize +:+ ")")%string.

(** [SubmitWithPolicyDetailsAndOptions]: [uuid] is the generated id,
    [now_evict] and [now] the two clock readings. *)
Definition SubmitWithPolicyDetailsAndOptions (now_evict now : time) (uuid : string) q
    (probeID : string) (cmd : option CommandPayload) (reason riskLevel requester policyDecision : string)
    (policyRationale : option R) (options : SubmissionOptions) : result (Request R) * Queue R :=
  let q := evictExpiredLocked now_evict q in
  let n := Z.of_nat (size (requests q)) in
  if maxSize q <=? n then (inl (queue_full_error n (maxSize q)), q)
  else
    let req :=
      {| ID := uuid; WorkspaceID := ""; ProbeID := probeID; Command := cmd; Reason := reason;
         RiskLevel := riskLevel; Requester := requester; PolicyDecision := policyDecision;
         PolicyRationale := policyRationale;
         RequireSecondApprover := so_RequireSecondApprover options;
         RequiredApprovals := if so_RequireSecondApprover options then 2 else 1;
         Approvals := []; decision := DecisionPending; DecidedBy := ""; DecidedAt := zero_time;
         CreatedAt := now; ExpiresAt := now + ttl q |} in
    (inr req, set_requests q (<[uuid := req]> (requests q))).

Definition no_options : SubmissionOptions := {| so_RequireSecondApprover := false |}.

Definition SubmitWithPolicyDetails now_evict now uuid q probeID cmd reason riskLevel requester
    policyDecision policyRationale :=
  SubmitWithPolicyDetailsAndOptions now_evict now uuid q probeID cmd reason riskLevel requester
    policyDecision policyRationale no_options.

Definition Submit now_evict now uuid q probeID cmd reason riskLevel requester :=
  SubmitWithPolicyDetails now_evict now uuid q probeID cmd reason riskLevel requester "" None.

(** The second lock region of [SubmitWithWorkspaceAndOptions]. *)
Definition tag_workspace q (id workspaceID : string) : Queue R :=
  if TrimSpace workspaceID <>s "" then
    match requests q !! id with
    | Some r => set_requests q (<[id := set_workspace r (TrimSpace workspaceID)]> (requests q))
    | None => q
    end
  else q.

(** When no other caller runs between the two lock regions. *)
Definition SubmitWithWorkspaceAndOptions now_evict now uuid q workspaceID probeID cmd reason riskLevel requester
    policyDecision policyRationale options : result (Request R) * Queue R :=
  match SubmitWithPolicyDetailsAndOptions now_evict now uuid q probeID cmd reason riskLevel requester
          policyDecision policyRationale options with
  | (inl err, q') => (inl err, q')
  | (inr req, q') =>
      let q'' := tag_workspace q' (ID req) workspaceID in
      (inr (default req (requests q'' !! ID req)), q'')
  end.

Definition SubmitWithWorkspace now_evict now uuid q workspaceID probeID cmd reason riskLevel requester
    policyDecision policyRationale :=
  SubmitWithWorkspaceAndOptions now_evict now uuid q workspaceID probeID cmd reason riskLevel requester
    policyDecision policyRationale no_options.

(** *** Decide *)

Definition already_approved_error (decidedBy id : string) : go_error :=
  ErrorString ("approver " +:+ Quote decidedBy +:+ " has already approved request " +:+ id)%string.

(** [Decide]: [now_check] and [now] are its two clock readings.  The queue
    changes even on the error path that finds the request expired. *)
Definition Decide (now_check now : time) q (id : string) (d : ApprovalDecision) (decidedBy : string)
    : result (Request R) * Queue R :=
  let decidedBy := TrimSpace decidedBy in
  if decidedBy =s "" then (inl (ErrorString "decided_by is required"), q)
  else match requests q !! id with
  | None => (inl (ErrorString ("approval request " +:+ id +:+ " not found")%string), q)
  | Some req =>
      let store r' := set_requests q (<[id := r']> (requests q)) in
      if decision req <>s DecisionPending
      then (inl (ErrorString ("request " +:+ id +:+ " already decided: " +:+ decision req)%string), q)
      else if After now_check (ExpiresAt req)
      then (inl (ErrorString ("request " +:+ id +:+ " expired at " +:+ format_RFC3339 (ExpiresAt req))%string),
            store (set_decision req DecisionExpired))
      else if (d <>s DecisionApproved) && (d <>s DecisionDenied)
      then (inl (ErrorString ("invalid decision " +:+ Quote d +:+ ": must be approved or denied")%string), q)
      else if d =s DecisionDenied
      then let r' := set_decided req d decidedBy now in (inr r', store r')
      else if existsb (λ prior, EqualFold (TrimSpace (Actor prior)) decidedBy) (Approvals req)
      then (inl (already_approved_error decidedBy id), q)
      else
        let req' := add_approval req {| Actor := decidedBy; Timestamp := now |} in
        if Z.of_nat (length (Approvals req')) <? RequiredApprovalCount (Some req')
        then let r' := set_decision req' DecisionPending in (inr r', store r')
        else let r' := set_decided req' DecisionApproved decidedBy now in (inr r', store r')
  end.

(** *** Readers *)

Definition GetRequest q (id : string) : option (Request R) := requests q !! id.

Definition is_pending r : bool := decision r =s DecisionPending.

(** [sortRequestsByTime]: newest first, by the in-place insertion sort. *)
Definition newer (r1 r2 : Request R) : bool := After (CreatedAt r1) (CreatedAt r2).
Definition sortRequestsByTime (reqs : list (Request R)) : list (Request R) := insertion_sort newer reqs.

(** The readers range over the map after the eviction (if any): [iter] lists
    the requests in the order the iteration produced them. *)
Definition iteration_of q (iter : list (Request R)) : Prop := iter ≡ₚ (map_to_list (requests q)).*2.

Definition Pending_result (iter : list (Request R)) : list (Request R) :=
  sortRequestsByTime (List.filter is_pending iter).

Definition limit_to (limit : Z) (l : list (Request R)) : list (Request R) :=
  if (0 <? limit) && (limit <? Z.of_nat (length l)) then take (Z.to_nat limit) l else l.

Definition All_result (limit : Z) (iter : list (Request R)) : list (Request R) :=
  limit_to limit (sortRequestsByTime iter).

Definition PendingCount (now : time) q : Z * Queue R :=
  let q := evictExpiredLocked now q in
  (Z.of_nat (length (List.filter is_pending (map_to_list (requests q)).*2)), q).

(** The condition that makes the workspace readers skip a request. *)
Definition other_workspace (workspaceID : string) r : bool :=
  (workspaceID <>s "") && (WorkspaceID r <>s "") && (WorkspaceID r <>s workspaceID).

Definition PendingByWorkspace_result (workspaceID : string) (iter : list (Request R)) : list (Request R) :=
  sortRequestsByTime
    (List.filter (λ r, is_pending r && negb (other_workspace workspaceID r)) iter).

Definition AllByWorkspace_result (workspaceID : string) (limit : Z) (iter : list (Request R)) : list (Request R) :=
  limit_to limit (sortRequestsByTime (List.filter (λ r, negb (other_workspace workspaceID r)) iter)).

Definition GetCheckWorkspace q (id expectedWorkspace : string) : option (Request R) :=
  match GetRequest q id with
  | None => None
  | Some r => if other_workspace expectedWorkspace r then None else Some r
  end.

(** [WaitForDecision] polls: [polls] lists, for each round of its loop, the
    queue [Get] sees and the clock reading after it.  [None] means that the
    polls ran out while the caller was still waiting. *)
Fixpoint wait_loop (id : string) (deadline : time) (polls : list (Queue R * time))
    : option (option (Request R) * option go_error) :=
  match polls with
  | [] => None
  | (q, now) :: rest =>
      match GetRequest q id with
      | None => Some (None, Some (ErrorString ("request " +:+ id +:+ " not found")%string))
      | Some req =>
          if (decision req =s DecisionApproved) || (decision req =s DecisionDenied) || (decision req =s DecisionExpired)
          then Some (Some req, None)
          else if After now deadline
          then Some (Some req, Some (ErrorString ("timeout waiting for decision on " +:+ id)%string))
          else wait_loop id deadline rest
      end
  end.
Definition WaitForDecision (id : string) (start timeout : Z) (polls : list (Queue R * time)) :=
  wait_loop id (start + timeout) polls.
End queue.

(** ** Risk classification *)

Definition criticalPrefixes : list string :=
  [ "mkfs"; "fdisk"; "parted"; "shutdown"; "reboot"; "init 0"; "init 6";
    "poweroff"; "iptables"; "nft flush"; "userdel" ].
Definition highPrefixes : list string :=
  [ "systemctl restart"; "systemctl stop"; "systemctl start"; "service ";
    "apt install"; "apt remove"; "apt upgrade"; "apt-get install"; "apt-get remove"; "apt-get upgrade";
    "yum install"; "yum remove"; "dnf install"; "dnf remove";
    "pip install"; "npm install"; "npm uninstall";
    "chmod"; "chown"; "mv "; "cp "; "tee "; "sed -i"; "truncate" ].
Definition mediumPrefixes : list string :=
  [ "journalctl"; "dmesg"; "ss "; "netstat"; "lsof"; "du "; "find ";
    "grep "; "awk "; "ps "; "top"; "systemctl status"; "ip "; "route" ].
Definition lowPrefixes : list string :=
  [ "ls"; "cat"; "head"; "tail"; "pwd"; "whoami"; "id"; "uname"; "hostname"; "uptime"; "df"; "free"; "echo "; "echo" ].

Definition ClassifyRisk (cmd : CommandPayload) : string :=
  let line := TrimSpace (ToLower (StringsJoin (cmd_Command cmd :: cmd_Args cmd) " ")) in
  if line =s "" then "medium"
  else if (line =s "rm") || HasPrefix line "rm -" || (line =s "dd") || HasPrefix line "dd if=" then "critical"
  else if existsb (HasPrefix line) criticalPrefixes then "critical"
  else if existsb (HasPrefix line) highPrefixes then "high"
  else if existsb (HasPrefix line) mediumPrefixes then "medium"
  else if existsb (HasPrefix line) lowPrefixes then "low"
  else if cmd_Level cmd =s CapObserve then "low"
  else if cmd_Level cmd =s CapDiagnose then "medium"
  else "high".

Definition NeedsApproval (cmd : CommandPayload) (probeLevel : CapabilityLevel) : bool :=
  let risk := ClassifyRisk cmd in (risk =s "high") || (risk =s "critical").

Lemma ClassifyRisk_levels cmd :
  ClassifyRisk cmd = "low" ∨ ClassifyRisk cmd = "medium" ∨ ClassifyRisk cmd = "high" ∨ ClassifyRisk cmd = "critical".
Proof. unfold ClassifyRisk. repeat case_match; auto. Qed.

(** ** Invariant *)

Section invariant.
Context {R : Type}.
Implicit Types (q : Queue R) (r : Request R).

Definition quorum r : Z := RequiredApprovalCount (Some r).

(** The approvers of a request, up to case. *)
Definition voters r : list string := map (λ a, ToLower (Actor a)) (Approvals r).

Record req_inv r : Prop := {
  ri_required : RequiredApprovals r = if RequireSecondApprover r then 2 else 1;
  ri_actors : Forall (λ a, Actor a ≠ "" ∧ TrimSpace (Actor a) = Actor a) (Approvals r);
  ri_distinct : NoDup (voters r);
  ri_status :
    (decision r = DecisionApproved ∧ Z.of_nat (length (Approvals r)) = quorum r) ∨
    ((decision r = DecisionPending ∨ decision r = DecisionDenied ∨ decision r = DecisionExpired) ∧
     Z.of_nat (length (Approvals r)) < quorum r);
}.

Lemma quorum_eq r : req_inv r → quorum r = if RequireSecondApprover r then 2 else 1.
Proof.
  intros [Hr _ _ _]. unfold quorum, RequiredApprovalCount. rewrite Hr.
  by destruct (RequireSecondApprover r).
Qed.

(** How [Decide] can change the queue: not at all, or by moving one pending
    request along one of four edges. *)
Inductive decide_edge (now : time) (by_ : string) (req : Request R) : Request R → Prop :=
  | edge_expire : decide_edge now by_ req (set_decision req DecisionExpired)
  | edge_deny : decide_edge now by_ req (set_decided req DecisionDenied by_ now)
  | edge_vote :
      Forall (λ a, EqualFold (TrimSpace (Actor a)) by_ = false) (Approvals req) →
      Z.of_nat (length (Approvals req)) + 1 < quorum req →
      decide_edge now by_ req
        (set_decision (add_approval req {| Actor := by_; Timestamp := now |}) DecisionPending)
  | edge_approve :
      Forall (λ a, EqualFold (TrimSpace (Actor a)) by_ = false) (Approvals req) →
      quorum req <= Z.of_nat (length (Approvals req)) + 1 →
      decide_edge now by_ req
        (set_decided (add_approval req {| Actor := by_; Timestamp := now |}) DecisionApproved by_ now).

Lemma Decide_inv now_check now q id d by_ res q' :
  Decide now_check now q id d by_ = (res, q') →
  (q' = q ∧ ∃ err, res = inl err) ∨
  ∃ req req', requests q !! id = Some req ∧ decision req = DecisionPending ∧
    TrimSpace by_ ≠ "" ∧ decide_edge now (TrimSpace by_) req req' ∧
    q' = set_requests q (<[id := req']> (requests q)) ∧
    (res = inr req' ∨ (req' = set_decision req DecisionExpired ∧ ∃ err, res = inl err)).
Proof.
  unfold Decide. intros H.
  destruct (String.eqb_spec (TrimSpace by_) ""); [simplify_eq; eauto|].
  destruct (requests q !! id) as [req|] eqn:E; [|simplify_eq; eauto].
  destruct (String.eqb_spec (decision req) DecisionPending); cbn [negb] in H; [|simplify_eq; eauto].
  destruct (After now_check (ExpiresAt req)).
  { right. simplify_eq. exists req, (set_decision req DecisionExpired).
    split_and!; eauto using decide_edge. }
  destruct (String.eqb_spec d DecisionDenied) as [->|].
  { right. rewrite andb_false_r in H. simplify_eq. exists req, (set_decided req DecisionDenied (TrimSpace by_) now).
    split_and!; eauto using decide_edge. }
  destruct (String.eqb_spec d DecisionApproved); cbn [negb andb] in H; [|simplify_eq; eauto].
  destruct (existsb _ _) eqn:Ev; [simplify_eq; eauto|]. right.
  apply existsb_false_Forall in Ev. set (req1 := add_approval req _) in H.
  assert (Hl : Z.of_nat (length (Approvals req1)) = Z.of_nat (length (Approvals req)) + 1).
  { subst req1; simpl. rewrite length_app; simpl. lia. }
  rewrite Hl in H. change (RequiredApprovalCount (Some req1)) with (quorum req) in H.
  destruct (Z.ltb_spec (Z.of_nat (length (Approvals req)) + 1) (quorum req)); simplify_eq.
  - exists req, (set_decision req1 DecisionPending). split_and!; eauto. by apply edge_vote.
  - exists req, (set_decided req1 DecisionApproved (TrimSpace by_) now). split_and!; eauto. by apply edge_approve.
Qed.

Lemma decide_edge_inv now by_ req req' :
  decide_edge now by_ req req' → by_ ≠ "" → TrimSpace by_ = by_ → decision req = DecisionPending →
  req_inv req → req_inv req'.
Proof.
  intros He Hne Htrim Hp [Hr Ha Hd Hs].
  assert (Hlt : Z.of_nat (length (Approvals req)) < quorum req).
  { destruct Hs as [[Hs _]|[_ ?]]; [|done]. rewrite Hp in Hs. done. }
  assert (Hnew : Forall (λ a, EqualFold (TrimSpace (Actor a)) by_ = false) (Approvals req) →
    Forall (λ a, Actor a ≠ "" ∧ TrimSpace (Actor a) = Actor a)
      (Approvals req ++ [{| Actor := by_; Timestamp := now |}]) ∧
    NoDup (map (λ a, ToLower (Actor a)) (Approvals req ++ [{| Actor := by_; Timestamp := now |}]))).
  { intros Hf. split; [apply Forall_app; by repeat constructor|].
    rewrite map_app. apply NoDup_app. split_and!; [done| |apply NoDup_singleton].
    intros x (a & -> & Hin)%list_elem_of_fmap. cbn. rewrite list_elem_of_singleton. intros Heq.
    rewrite Forall_forall in Hf, Ha. specialize (Hf a Hin). destruct (Ha a Hin) as [_ Ht].
    rewrite Ht in Hf. apply (EqualFold_spec (Actor a) by_) in Heq. congruence. }
  destruct He as [| |Hf Hq|Hf Hq]; try specialize (Hnew Hf) as [Ha' Hd'].
  all: split; try done; simpl.
  all: try (right; split; [by auto|unfold quorum in *; simpl in *; rewrite ?length_app; simpl; lia]).
  left. split; [done|]. unfold quorum in *; simpl in *. rewrite length_app; simpl. lia.
Qed.
End invariant.

(** ** The queue as a transition system

    The state is the queue and the set of ids the UUID generator has issued;
    the generator never repeats an id. *)

Section system.
Context {R : Type}.
Implicit Types (q : Queue R) (r : Request R).

Record sys := { sys_queue : Queue R; sys_issued : gset string }.

Inductive queue_step (s : sys) : sys → Prop :=
  | step_submit now_evict now uuid probeID cmd reason risk requester pdec prat opts res q' :
      uuid ∉ sys_issued s →
      SubmitWithPolicyDetailsAndOptions now_evict now uuid (sys_queue s) probeID cmd reason risk requester
        pdec prat opts = (res, q') →
      queue_step s {| sys_queue := q'; sys_issued := {[uuid]} ∪ sys_issued s |}
  | step_tag id workspaceID :
      queue_step s {| sys_queue := tag_workspace (sys_queue s) id workspaceID; sys_issued := sys_issued s |}
  | step_decide now_check now id d by_ res q' :
      Decide now_check now (sys_queue s) id d by_ = (res, q') →
      queue_step s {| sys_queue := q'; sys_issued := sys_issued s |}
  | step_evict now :
      queue_step s {| sys_queue := evictExpiredLocked now (sys_queue s); sys_issued := sys_issued s |}.

Definition sys_init (ttl maxSize : Z) : sys := {| sys_queue := NewQueue ttl maxSize; sys_issued := ∅ |}.

Record sys_inv (s : sys) : Prop := {
  si_requests : ∀ id r, requests (sys_queue s) !! id = Some r → ID r = id ∧ req_inv r;
  si_issued : ∀ id, is_Some (requests (sys_queue s) !! id) → id ∈ sys_issued s;
  si_size : Z.of_nat (size (requests (sys_queue s))) <= Z.max 0 (maxSize (sys_queue s));
}.

(** *** What each operation does to one id *)

Lemma lookup_evict now q id r' :
  requests (evictExpiredLocked now q) !! id = Some r' ↔
  ∃ r, requests q !! id = Some r ∧ r' = expire_request now r ∧ purgeable now r' = false.
Proof.
  unfold evictExpiredLocked; simpl. rewrite map_lookup_filter_Some, lookup_fmap. simpl.
  destruct (requests q !! id) as [r|]; simpl; naive_solver.
Qed.

Lemma expire_request_inv now r : req_inv r → req_inv (expire_request now r).
Proof.
  unfold expire_request. intros Hi. destruct (String.eqb_spec (decision r) DecisionPending) as [E|]; simpl; [|done].
  destruct (After now (ExpiresAt r)); [|done]. apply (decide_edge_inv 0 "x" r); [constructor|done..].
Qed.

Lemma evict_size now q : (size (requests (evictExpiredLocked now q)) <= size (requests q))%nat.
Proof.
  unfold evictExpiredLocked; simpl.
  rewrite <- (map_size_fmap (expire_request now) (requests q)). apply map_subseteq_size, map_filter_subseteq.
Qed.

Lemma evict_inv now q issued :
  sys_inv {| sys_queue := q; sys_issued := issued |} →
  sys_inv {| sys_queue := evictExpiredLocked now q; sys_issued := issued |}.
Proof.
  intros [Hr Hi Hs]. split; cbn [sys_queue sys_issued] in *.
  - intros id r' (r & Hq & -> & _)%lookup_evict. destruct (Hr id r Hq) as [HID Hri].
    split; [|by apply expire_request_inv]. unfold expire_request. by case_match.
  - intros id [r' (r & Hq & _)%lookup_evict]. eauto.
  - pose proof (evict_size now q). change (maxSize (evictExpiredLocked now q)) with (maxSize q). lia.
Qed.

Lemma submit_inv now_evict now uuid q issued probeID cmd reason risk requester pdec prat opts res q' :
  uuid ∉ issued →
  SubmitWithPolicyDetailsAndOptions now_evict now uuid q probeID cmd reason risk requester pdec prat opts = (res, q') →
  sys_inv {| sys_queue := q; sys_issued := issued |} →
  sys_inv {| sys_queue := q'; sys_issued := {[uuid]} ∪ issued |}.
Proof.
  intros Hfresh H Hinv%(evict_inv now_evict). destruct Hinv as [Hr Hi Hs]. cbn [sys_queue sys_issued] in *.
  unfold SubmitWithPolicyDetailsAndOptions in H.
  destruct (Z.leb_spec (maxSize (evictExpiredLocked now_evict q)) (Z.of_nat (size (requests (evictExpiredLocked now_evict q)))));
    simplify_eq.
  { split; cbn [sys_queue sys_issued]; [done|intros id ?%Hi; set_solver|done]. }
  split; cbn [sys_queue sys_issued set_requests requests maxSize].
  - intros id r. rewrite lookup_insert_Some. intros [[<- <-]|[_ ?]]; [|by apply Hr].
    split; [done|]. split; simpl; [done|constructor|apply NoDup_nil_2|].
    right. split; [by left|]. unfold quorum; simpl. by destruct (so_RequireSecondApprover opts).
  - intros id. rewrite lookup_insert. case_decide; [set_solver|]. intros ?%Hi. set_solver.
  - rewrite map_size_insert_None; [|by apply eq_None_not_Some; intros ?%Hi]. lia.
Qed.

Lemma tag_lookup q id w id' r' :
  requests (tag_workspace q id w) !! id' = Some r' →
  ∃ r, requests q !! id' = Some r ∧ (r' = r ∨ ∃ w', r' = set_workspace r w').
Proof.
  unfold tag_workspace. destruct (TrimSpace w <>s ""); [|eauto].
  destruct (requests q !! id) as [r|] eqn:E; [|eauto]. simpl. rewrite lookup_insert_Some.
  intros [[<- <-]|[_ ?]]; eauto.
Qed.

Lemma tag_size q id w : size (requests (tag_workspace q id w)) = size (requests q).
Proof.
  unfold tag_workspace. destruct (TrimSpace w <>s ""); [|done].
  destruct (requests q !! id) as [r|] eqn:E; [|done]. simpl. by rewrite map_size_insert, E.
Qed.

Lemma set_workspace_inv r w : req_inv r → req_inv (set_workspace r w).
Proof. by intros []. Qed.

Lemma queue_step_inv s s' : queue_step s s' → sys_inv s → sys_inv s'.
Proof.
  destruct s as [q issued]. intros Hstep Hinv. destruct Hstep as [????????????? Hf H|id w|??????? H|now]; simpl in *.
  - by eapply submit_inv.
  - destruct Hinv as [Hr Hi Hs]. split; simpl in *.
    + intros id' r' (r & Hq & [-> | [w' ->]])%tag_lookup; destruct (Hr id' r Hq); auto using set_workspace_inv.
    + intros id' [r' (r & Hq & _)%tag_lookup]. eauto.
    + rewrite tag_size. unfold tag_workspace. by repeat case_match.
  - destruct Hinv as [Hr Hi Hs]. apply Decide_inv in H as [[-> _]|(req & req' & Hq & Hp & Hne & He & -> & _)].
    { by split. }
    destruct (Hr id req Hq) as [HID Hri]. simpl in *. split; simpl.
    + intros id' r. rewrite lookup_insert_Some. intros [[<- <-]|[_ ?]]; [|auto].
      split; [by destruct He|]. eapply decide_edge_inv; eauto using TrimSpace_idem.
    + intros id'. rewrite lookup_insert. case_decide; [subst; intros _; apply Hi; eauto|auto].
    + rewrite map_size_insert, Hq. done.
  - by apply evict_inv.
Qed.

Lemma queue_reachable_inv ttl maxSize s : rtc queue_step (sys_init ttl maxSize) s → sys_inv s.
Proof.
  intros H. assert (Hi : sys_inv (sys_init ttl maxSize)).
  { split; simpl; [by intros ??; rewrite lookup_empty|intros ?; rewrite lookup_empty; by intros []|].
    rewrite map_size_empty. lia. }
  revert Hi. induction H; eauto using queue_step_inv.
Qed.

(** *** A decided request never changes *)

(** Everything but the workspace tag. *)
Definition frozen r r' : Prop :=
  decision r' = decision r ∧ Approvals r' = Approvals r ∧ DecidedBy r' = DecidedBy r ∧
  DecidedAt r' = DecidedAt r ∧ Command r' = Command r ∧ ProbeID r' = ProbeID r.

Definition settled (id : string) r (s : sys) : Prop :=
  id ∈ sys_issued s ∧ ∀ r', requests (sys_queue s) !! id = Some r' → frozen r r'.

Lemma settled_step id r s s' :
  decision r ≠ DecisionPending → queue_step s s' → settled id r s → settled id r s'.
Proof.
  intros Hnp Hstep [Hi Hf].
  assert (Hev : ∀ now r', requests (evictExpiredLocked now (sys_queue s)) !! id = Some r' → frozen r r').
  { intros now r' (r0 & Hq & -> & _)%lookup_evict. specialize (Hf r0 Hq). unfold expire_request.
    destruct Hf as (Hd & Hrest). destruct (String.eqb_spec (decision r0) DecisionPending); [congruence|done]. }
  destruct Hstep as [now_evict ???????????? Hfresh H|id' w|????? ?? H|now]; split; simpl; try done.
  - set_solver.
  - intros r'. unfold SubmitWithPolicyDetailsAndOptions in H. case_match; simplify_eq; simpl; [by apply Hev|].
    rewrite lookup_insert_ne by set_solver. apply Hev.
  - intros r' (r0 & Hq & [-> | [w' ->]])%tag_lookup; exact (Hf r0 Hq).
  - intros r'. apply Decide_inv in H as [[-> _]|(req & req' & Hq & Hp & _ & _ & -> & _)]; [by apply Hf|].
    simpl. rewrite lookup_insert_Some. intros [[<- <-]|[_ ?]]; [|by apply Hf].
    destruct (Hf req Hq) as [Hd _]. congruence.
  - intros r'. apply Hev.
Qed.
End system.
Arguments sys : clear implicits.

(** ** What the queue promises: a ballot per request

    The abstract view of a request: how many distinct voters it needs, who has
    voted (names compared without case), and where it stands. *)

Inductive ballot_status := Open | Passed | Refused | Lapsed.
Record ballot := { b_quorum : Z; b_voters : gset string; b_status : ballot_status }.

(** Casting a vote for a request. *)
Definition cast (v : string) (b : ballot) : ballot :=
  let voters := {[v]} ∪ b_voters b in
  {| b_quorum := b_quorum b; b_voters := voters;
     b_status := if b_quorum b <=? Z.of_nat (size voters) then Passed else Open |}.

Section ballots.
Context {R : Type}.
Implicit Types (q : Queue R) (r : Request R) (s : sys R).

Definition ballot_of r : ballot :=
  {| b_quorum := quorum r; b_voters := list_to_set (voters r);
     b_status :=
       if decision r =s DecisionPending then Open
       else if decision r =s DecisionApproved then Passed
       else if decision r =s DecisionDenied then Refused else Lapsed |}.

Lemma size_voters r : NoDup (voters r) → size (list_to_set (voters r) : gset string) = length (Approvals r).
Proof. intros Hd. rewrite size_list_to_set by done. unfold voters. by rewrite length_map. Qed.

Lemma voters_add r a : voters (add_approval r a) = voters r ++ [ToLower (Actor a)].
Proof. unfold voters; simpl. by rewrite map_app. Qed.

Lemma existsb_voted r v :
  req_inv r →
  existsb (λ prior, EqualFold (TrimSpace (Actor prior)) v) (Approvals r) = bool_decide (ToLower v ∈ voters r).
Proof.
  intros Hi. apply eq_true_iff_eq. rewrite existsb_true_Exists, bool_decide_eq_true.
  unfold voters. rewrite list_elem_of_fmap. pose proof (ri_actors r Hi) as Ha. rewrite Forall_forall in Ha.
  split; intros (a & H1 & H2); exists a.
  - destruct (Ha a H1) as [_ Ht]. rewrite Ht in H2. apply EqualFold_spec in H2. auto.
  - destruct (Ha a H2) as [_ Ht]. rewrite Ht. split; [done|]. by apply EqualFold_spec.
Qed.

Lemma ballot_cast r now v :
  req_inv r → decision r = DecisionPending → ToLower v ∉ voters r →
  let r1 := add_approval r {| Actor := v; Timestamp := now |} in
  ballot_of (if Z.of_nat (length (Approvals r1)) <? RequiredApprovalCount (Some r1)
             then set_decision r1 DecisionPending else set_decided r1 DecisionApproved v now) =
  cast (ToLower v) (ballot_of r).
Proof.
  intros Hi Hp Hv. cbv zeta. set (r1 := add_approval r _).
  assert (Hd : NoDup (voters r1)).
  { subst r1. rewrite voters_add. apply NoDup_app. split_and!; [by apply ri_distinct| |apply NoDup_singleton].
    intros x Hx. rewrite list_elem_of_singleton. by intros ->. }
  assert (Hs : {[ToLower v]} ∪ list_to_set (voters r) = (list_to_set (voters r1) : gset string)).
  { subst r1. rewrite voters_add, list_to_set_app_L. simpl. set_solver. }
  assert (Hn := size_voters r1 Hd). change (RequiredApprovalCount (Some r1)) with (quorum r).
  unfold cast, ballot_of. cbn [b_quorum b_voters]. rewrite Hs, Hn.
  destruct (Z.ltb_spec (Z.of_nat (length (Approvals r1))) (quorum r)), (Z.leb_spec (quorum r) (Z.of_nat (length (Approvals r1))));
    try lia; reflexivity.
Qed.

(** C2. Under every interleaving of callers, an approved request carries
    exactly the number of approvals it requires (two when a second approver
    is required, one otherwise), each by a named actor, and no two of them by
    the same actor up to letter case. *)
Theorem approval_needs_quorum ttl maxSize s id r :
  rtc queue_step (sys_init ttl maxSize) s →
  requests (sys_queue s) !! id = Some r → decision r = DecisionApproved →
  length (Approvals r) = (if RequireSecondApprover r then 2 else 1)%nat ∧
  Forall (λ a, Actor a ≠ "") (Approvals r) ∧ NoDup (voters r).
Proof.
  intros Hr Hq Hd. destruct (si_requests _ (queue_reachable_inv _ _ _ Hr) id r Hq) as [_ Hi].
  pose proof (quorum_eq r Hi) as Hk. destruct Hi as [_ Ha Hnd Hs]. split_and!; [|eapply Forall_impl; [exact Ha|by intros ? []]|done].
  rewrite Hd in Hs. destruct Hs as [[_ Hs]|[Hs _]]; [destruct (RequireSecondApprover r); lia|]. by destruct Hs as [?|[?|?]].
Qed.

(** C27. A decision is final: once a request is approved, denied or expired,
    no later operation of any caller changes its decision, its approvals, who
    decided it and when, or the command it releases; it can only be purged. *)
Theorem decision_is_final ttl maxSize s s' id r r' :
  rtc queue_step (sys_init ttl maxSize) s → rtc queue_step s s' →
  requests (sys_queue s) !! id = Some r → decision r ≠ DecisionPending →
  requests (sys_queue s') !! id = Some r' → frozen r r'.
Proof.
  intros Hr Hs Hq Hd Hq'. apply queue_reachable_inv in Hr as [_ Hi _].
  assert (Hset : settled id r s).
  { split; [by apply Hi; eauto|]. intros r0 ?. by simplify_eq. }
  cut (settled id r s'); [intros [_ Hf]; auto|]. clear Hq Hi Hq'.
  induction Hs; eauto using settled_step.
Qed.

(** The queue never holds more requests than its capacity, whatever the
    callers do (a negative capacity behaves as zero). *)
Theorem queue_bounded ttl maxSize s :
  rtc queue_step (sys_init ttl maxSize) s →
  Z.of_nat (size (requests (sys_queue s))) <= Z.max 0 (ApprovalQueue.maxSize (sys_queue s)).
Proof. intros Hr. by apply (si_size _ (queue_reachable_inv _ _ _ Hr)). Qed.

(** C17. [Decide] implements a ballot: on an open, unexpired request, an
    approval by an actor who has not voted yet casts exactly that vote
    (passing the ballot when the number of distinct voters reaches the
    quorum), and an approval by an actor who has voted, in any letter case,
    is refused and changes nothing. *)
Theorem decide_refines_ballot ttl maxSize s id r now_check now by_ :
  rtc queue_step (sys_init ttl maxSize) s →
  requests (sys_queue s) !! id = Some r → decision r = DecisionPending →
  TrimSpace by_ ≠ "" → After now_check (ExpiresAt r) = false →
  let v := ToLower (TrimSpace by_) in
  let outcome := Decide now_check now (sys_queue s) id DecisionApproved by_ in
  (v ∈ b_voters (ballot_of r) → outcome = (inl (already_approved_error (TrimSpace by_) id), sys_queue s)) ∧
  (v ∉ b_voters (ballot_of r) →
   ∃ r', outcome = (inr r', set_requests (sys_queue s) (<[id := r']> (requests (sys_queue s)))) ∧
         ballot_of r' = cast v (ballot_of r)).
Proof.
  intros Hr Hq Hp Hne Hexp. cbv zeta. destruct (si_requests _ (queue_reachable_inv _ _ _ Hr) id r Hq) as [_ Hi].
  unfold Decide. rewrite (proj2 (String.eqb_neq _ _) Hne), Hq, Hp, Hexp, existsb_voted by done. simpl.
  rewrite elem_of_list_to_set. split; intros Hv.
  - by rewrite bool_decide_eq_true_2.
  - rewrite bool_decide_eq_false_2 by done. rewrite <- (ballot_cast r now) by done. cbv zeta.
    destruct (_ <? _); eauto.
Qed.

(** After an eviction at [now] no request is pending past its expiry,
    every request that was pending and in time is untouched, and the only
    requests that disappear are decided or expired ones created more than 24
    hours before. *)
Theorem evict_expires_and_purges now q id r :
  requests q !! id = Some r →
  match requests (evictExpiredLocked now q) !! id with
  | Some r' =>
      (decision r' = DecisionPending → ExpiresAt r' >= now) ∧
      (decision r = DecisionPending → ExpiresAt r >= now → r' = r) ∧
      (decision r = DecisionPending → ExpiresAt r < now → decision r' = DecisionExpired) ∧
      (decision r ≠ DecisionPending → r' = r)
  | None => CreatedAt r < now - 24 * Hour ∧ (decision r = DecisionPending → ExpiresAt r < now)
  end.
Proof.
  intros Hq. unfold evictExpiredLocked; cbn [set_requests requests].
  destruct (filter _ _ !! id) as [r'|] eqn:E.
  - apply map_lookup_filter_Some in E as [E _]. rewrite lookup_fmap, Hq in E. simpl in E. simplify_eq.
    unfold expire_request, After. destruct (String.eqb_spec (decision r) DecisionPending); simpl; [|split_and!; done].
    destruct (Z.ltb_spec (ExpiresAt r) now); split_and!; intros; simpl in *; try done; lia.
  - apply map_lookup_filter_None in E as [E|E]; [rewrite lookup_fmap, Hq in E; done|].
    specialize (E (expire_request now r)). rewrite lookup_fmap, Hq in E. specialize (E eq_refl). simpl in E.
    apply not_false_is_true in E. unfold purgeable in E. bools. unfold Before in *.
    unfold expire_request in *.
    destruct (String.eqb_spec (decision r) DecisionPending); simpl in *; bools; [|naive_solver].
    destruct (After now (ExpiresAt r)) eqn:Ea; simpl in *; [|done]. unfold After in Ea. bools. split; [lia|auto].
Qed.

Lemma newer_sorted l :
  StronglySorted (λ r1 r2 : Request R, CreatedAt r1 >= CreatedAt r2) (insertion_sort newer l).
Proof.
  eapply StronglySorted_weaken, insertion_sort_sorted; unfold newer, After.
  - intros a b ?. bools. lia.
  - intros a b c. rewrite !Z.ltb_ge. lia.
  - intros a b. rewrite Z.ltb_lt, Z.ltb_ge. lia.
Qed.

Lemma evicted_in_time now q id r :
  requests (evictExpiredLocked now q) !! id = Some r → decision r = DecisionPending → ExpiresAt r >= now.
Proof.
  intros (r0 & _ & -> & _)%lookup_evict. unfold expire_request, After.
  destruct (String.eqb_spec (decision r0) DecisionPending); [|done]. simpl.
  destruct (Z.ltb_spec (ExpiresAt r0) now); simpl; [done|lia].
Qed.

(** [Pending] lists exactly the pending requests, newest first, whatever
    the order in which Go ranges over the map, and none of them has expired. *)
Theorem pending_listing now q iter :
  iteration_of (evictExpiredLocked now q) iter →
  StronglySorted (λ r1 r2, CreatedAt r1 >= CreatedAt r2) (Pending_result iter) ∧
  (∀ r, r ∈ Pending_result iter ↔
     decision r = DecisionPending ∧ ExpiresAt r >= now ∧ ∃ id, requests (evictExpiredLocked now q) !! id = Some r).
Proof.
  intros Hit. unfold Pending_result, sortRequestsByTime. split; [apply newer_sorted|].
  intros r. rewrite insertion_sort_perm, list_elem_of_In, filter_In, <- list_elem_of_In, Hit.
  unfold is_pending. rewrite String.eqb_eq, list_elem_of_fmap. split.
  - intros [([id r'] & -> & Hin%elem_of_map_to_list) Hp]. split_and!; [done| |eauto].
    by eapply evicted_in_time.
  - intros (Hp & _ & id & Hin). split; [|done]. exists (id, r). split; [done|]. by apply elem_of_map_to_list.
Qed.

Lemma is_decided (r : Request R) :
  (decision r =s DecisionApproved) || (decision r =s DecisionDenied) || (decision r =s DecisionExpired) = true ↔
  decision r ∈ [DecisionApproved; DecisionDenied; DecisionExpired].
Proof. rewrite !orb_true_iff, !String.eqb_eq. set_solver. Qed.

(** C40. [WaitForDecision] returns once a poll reads a clock past [start + timeout],
    whatever the queue does between the polls, and it returns at the first poll that
    finds the request gone, decided, or still undecided after the deadline: at every
    poll before, the queue held the request undecided and the deadline was not over.
    A missing request and a timeout are errors, and every other return is the decided
    request of that poll. *)
Theorem wait_for_decision_returns id start timeout (polls : list (Queue R * time)) :
  Exists (λ p, start + timeout < p.2) polls →
  ∃ waited q now rest, polls = waited ++ (q, now) :: rest ∧
    Forall (λ p, ∃ r, requests p.1 !! id = Some r ∧ decision r ∉ [DecisionApproved; DecisionDenied; DecisionExpired] ∧ p.2 <= start + timeout) waited ∧
    match requests q !! id with
    | None => WaitForDecision id start timeout polls = Some (None, Some (ErrorString ("request " +:+ id +:+ " not found")%string))
    | Some r =>
        (decision r ∈ [DecisionApproved; DecisionDenied; DecisionExpired] ∧ WaitForDecision id start timeout polls = Some (Some r, None)) ∨
        (decision r ∉ [DecisionApproved; DecisionDenied; DecisionExpired] ∧ start + timeout < now ∧
         WaitForDecision id start timeout polls = Some (Some r, Some (ErrorString ("timeout waiting for decision on " +:+ id)%string)))
    end.
Proof.
  unfold WaitForDecision. generalize (start + timeout). intros deadline.
  induction polls as [|[q now] polls IH]; [by intros ?%Exists_nil|]. intros Hex. cbn [wait_loop]. unfold GetRequest.
  destruct (requests q !! id) as [r|] eqn:Hq; [|exists [], q, now, polls; by rewrite Hq].
  pose proof (is_decided r) as Hd. destruct (_ || _).
  { exists [], q, now, polls. rewrite Hq. split_and!; [done|constructor|]. left. by rewrite <- Hd. }
  unfold After. destruct (Z.ltb_spec deadline now) as [Hlt|Hge].
  { exists [], q, now, polls. rewrite Hq. split_and!; [done|constructor|]. right. by rewrite <- Hd. }
  apply Exists_cons in Hex as [?|Hex]; [simpl in *; lia|].
  destruct (IH Hex) as (waited & q' & now' & rest & -> & Hw & Hres). exists ((q, now) :: waited), q', now', rest. split_and!; [done| |done].
  constructor; [|done]. exists r. rewrite <- Hd. done.
Qed.
End ballots.

(** ** Witnesses *)

Module Examples.
Definition cmd : CommandPayload :=
  {| cmd_RequestID := "r-1"; cmd_Command := "systemctl"; cmd_Args := ["restart"; "nginx"];
     cmd_Timeout := 0; cmd_Level := CapRemediate; cmd_Stream := false |}.

(** A request that needs two approvers, then two of them. *)
Definition submitted : sys unit :=
  {| sys_queue := (SubmitWithPolicyDetailsAndOptions 0 0 "u-1" (NewQueue (15 * Second) 4) "p-1" (Some cmd) "restart"
                     "high" "ops" "queue" None {| so_RequireSecondApprover := true |}).2;
     sys_issued := {["u-1"]} ∪ ∅ |}.
Definition voted : sys unit :=
  {| sys_queue := (Decide 1 1 (sys_queue submitted) "u-1" DecisionApproved " alice ").2;
     sys_issued := sys_issued submitted |}.
Definition approved : sys unit :=
  {| sys_queue := (Decide 2 2 (sys_queue voted) "u-1" DecisionApproved "bob").2;
     sys_issued := sys_issued voted |}.

Definition request_in (s : sys unit) : option (Request unit) := requests (sys_queue s) !! "u-1".
Definition request_of (s : sys unit) : Request unit :=
  default {| ID := ""; WorkspaceID := ""; ProbeID := ""; Command := None; Reason := ""; RiskLevel := ""; Requester := "";
             PolicyDecision := ""; PolicyRationale := None; RequireSecondApprover := false; RequiredApprovals := 0;
             Approvals := []; decision := ""; DecidedBy := ""; DecidedAt := 0; CreatedAt := 0; ExpiresAt := 0 |}
    (request_in s).

Lemma submitted_reachable : rtc queue_step (sys_init (15 * Second) 4) submitted.
Proof. eapply rtc_once, step_submit; [set_solver|apply surjective_pairing]. Qed.
Lemma voted_reachable : rtc queue_step (sys_init (15 * Second) 4) voted.
Proof. eapply rtc_r; [apply submitted_reachable|]. eapply step_decide, surjective_pairing. Qed.
Lemma approved_reachable : rtc queue_step (sys_init (15 * Second) 4) approved.
Proof. eapply rtc_r; [apply voted_reachable|]. eapply step_decide, surjective_pairing. Qed.
Lemma evicted_reachable now :
  rtc queue_step approved {| sys_queue := evictExpiredLocked now (sys_queue approved); sys_issued := sys_issued approved |}.
Proof. apply rtc_once, step_evict. Qed.
End Examples.

Lemma approval_needs_quorum_witness :
  length (Approvals (Examples.request_of Examples.approved)) = 2%nat ∧
  NoDup (voters (Examples.request_of Examples.approved)).
Proof.
  destruct (approval_needs_quorum (15 * Second) 4 Examples.approved "u-1" (Examples.request_of Examples.approved)
              Examples.approved_reachable ltac:(vm_compute; reflexivity) ltac:(vm_compute; reflexivity)) as (H1 & _ & H3).
  exact (conj H1 H3).
Defined.

Lemma decision_is_final_witness : frozen (Examples.request_of Examples.approved) (Examples.request_of Examples.approved).
Proof.
  exact (decision_is_final (15 * Second) 4 Examples.approved _ "u-1" _ (Examples.request_of Examples.approved)
           Examples.approved_reachable (Examples.evicted_reachable (3600 * Second))
           ltac:(vm_compute; reflexivity) ltac:(vm_compute; discriminate) ltac:(vm_compute; reflexivity)).
Defined.

Lemma queue_bounded_witness : Z.of_nat (size (requests (sys_queue Examples.approved))) <= 4.
Proof. exact (queue_bounded (15 * Second) 4 Examples.approved Examples.approved_reachable). Defined.

Lemma decide_refines_ballot_witness :
  Decide 2 2 (sys_queue Examples.voted) "u-1" DecisionApproved "ALICE" =
    (inl (already_approved_error "ALICE" "u-1"), sys_queue Examples.voted) ∧
  ∃ r', Decide 2 2 (sys_queue Examples.voted) "u-1" DecisionApproved "bob" =
          (inr r', set_requests (sys_queue Examples.voted) (<["u-1" := r']> (requests (sys_queue Examples.voted)))) ∧
        ballot_of r' = cast "bob" (ballot_of (Examples.request_of Examples.voted)).
Proof.
  split.
  - apply (decide_refines_ballot (15 * Second) 4 Examples.voted "u-1" (Examples.request_of Examples.voted) 2 2 "ALICE"
             Examples.voted_reachable ltac:(vm_compute; reflexivity) ltac:(vm_compute; reflexivity)
             ltac:(vm_compute; discriminate) ltac:(vm_compute; reflexivity)).
    apply (bool_decide_unpack _). vm_compute. exact I.
  - apply (decide_refines_ballot (15 * Second) 4 Examples.voted "u-1" (Examples.request_of Examples.voted) 2 2 "bob"
             Examples.voted_reachable ltac:(vm_compute; reflexivity) ltac:(vm_compute; reflexivity)
             ltac:(vm_compute; discriminate) ltac:(vm_compute; reflexivity)).
    apply (bool_decide_unpack _). vm_compute. exact I.
Defined.

Lemma evict_expires_and_purges_witness :
  match requests (evictExpiredLocked (60 * Second) (sys_queue Examples.submitted)) !! "u-1" with
  | Some r' => decision r' = DecisionExpired
  | None => False
  end.
Proof.
  pose proof (evict_expires_and_purges (60 * Second) (sys_queue Examples.submitted) "u-1"
                (Examples.request_of Examples.submitted) ltac:(vm_compute; reflexivity)) as H.
  vm_compute in H. vm_compute. apply H; reflexivity.
Defined.

Lemma pending_listing_witness :
  Forall (λ r, decision r = DecisionPending)
    (Pending_result (map_to_list (requests (evictExpiredLocked 5 (sys_queue Examples.voted)))).*2) ∧
  length (Pending_result (map_to_list (requests (evictExpiredLocked 5 (sys_queue Examples.voted)))).*2) = 1%nat.
Proof.
  split; [|vm_compute; reflexivity]. apply Forall_forall. intros r Hr.
  by apply (proj2 (pending_listing 5 (sys_queue Examples.voted) _ (reflexivity _)) r) in Hr as [].
Defined.

Lemma wait_for_decision_returns_witness :
  ∃ waited q now rest, [(sys_queue Examples.submitted, 5); (sys_queue Examples.approved, 20)] = waited ++ (q, now) :: rest.
Proof.
  destruct (wait_for_decision_returns "u-1" 0 10 [(sys_queue Examples.submitted, 5); (sys_queue Examples.approved, 20)])
    as (waited & q & now & rest & E & _); [right; left; simpl; lia|]. exists waited, q, now, rest. exact E.
Defined.
