(* ===== verification/CapacityPolicy.v ===== *)
(** * Command policy: classification, lane resolution and capacity signals
    (src/internal/controlplane/core/approvalpolicy/capacity_policy.go)

    [evaluateCommandPolicy] is kept as the sequence of its stages; each stage
    takes the decision built so far and returns the next one.  What the
    capacity provider answered is an argument.  A [float64] is an IEEE 754
    binary64 value of the [SpecFloat] library. *)
From Stdlib Require Import SpecFloat.
From S2P Require Import Prelude GoStrings GoErrors GoFloat Protocol Classifier PolicyTemplates ApprovalQueue.
Local Open Scope go_scope.
Local Open Scope Z_scope.

(** ** Data *)

Notation CommandPolicyDecisionOutcome := string (only parsing).
Definition CommandPolicyDecisionAllow : CommandPolicyDecisionOutcome := "allow".
Definition CommandPolicyDecisionDeny : CommandPolicyDecisionOutcome := "deny".
Definition CommandPolicyDecisionQueue : CommandPolicyDecisionOutcome := "queue".

Notation CommandPolicyGateOutcome := string (only parsing).
Definition CommandPolicyGateAllowed : CommandPolicyGateOutcome := "allowed".
Definition CommandPolicyGateBlocked : CommandPolicyGateOutcome := "blocked".
Definition CommandPolicyGatePendingApproval : CommandPolicyGateOutcome := "pending_approval".

Definition capacityPolicyVersion : string := "capacity-policy-v1".

Record CapacityThresholds := {
  th_MinDatasourceCount : Z;
  th_MinDashboardCoverage : float64;
  th_MinQueryCoverage : float64;
}.

Definition DefaultCapacityThresholds : CapacityThresholds :=
  {| th_MinDatasourceCount := 1; th_MinDashboardCoverage := f_half; th_MinQueryCoverage := f_quarter |}.

Definition normalized (t : CapacityThresholds) : CapacityThresholds :=
  {| th_MinDatasourceCount := if th_MinDatasourceCount t <=? 0 then 1 else th_MinDatasourceCount t;
     th_MinDashboardCoverage :=
       if SFleb (th_MinDashboardCoverage t) f_zero || SFltb f_one (th_MinDashboardCoverage t)
       then f_half else th_MinDashboardCoverage t;
     th_MinQueryCoverage :=
       if SFleb (th_MinQueryCoverage t) f_zero || SFltb f_one (th_MinQueryCoverage t)
       then f_quarter else th_MinQueryCoverage t |}.

Record CapacitySignals := {
  cs_Source : string;
  cs_Availability : string;
  cs_DashboardCoverage : float64;
  cs_QueryCoverage : float64;
  cs_DatasourceCount : Z;
  cs_Partial : bool;
  cs_Warnings : list string;
}.

(** The classifier of the control plane has the fields of the probe's. *)
Notation commandClassifierResult := Classifier.CommandClassification (only parsing).

Record CommandPolicyProfile := {
  cpp_PolicyID : string;
  cpp_ExecutionClassRequired : ExecutionClass;
  cpp_SandboxRequired : bool;
  cpp_ApprovalMode : ApprovalMode;
  cpp_RequireSecondApprover : bool;
  cpp_Breakglass : BreakglassPolicy;
}.

(** The dynamic values an indicator carries. *)
Inductive any_value := VNil | VString (s : string) | VInt (n : Z) | VFloat (f : float64) | VBool (b : bool).

Record CommandPolicyIndicator := {
  ind_Name : string;
  ind_Source : string;
  ind_Value : any_value;
  ind_Comparator : string;
  ind_Threshold : any_value;
  ind_Severity : string;
  ind_Effect : CommandPolicyDecisionOutcome;
  ind_DroveOutcome : bool;
  ind_Message : string;
}.

Record CommandPolicyLaneRationale := {
  lr_SelectedLane : ExecutionClass;
  lr_GateOutcome : CommandPolicyGateOutcome;
  lr_ReasonCode : string;
}.

Record CommandPolicyRationale := {
  ra_Policy : string;
  ra_Summary : string;
  ra_Fallback : bool;
  ra_Indicators : list CommandPolicyIndicator;
  ra_Capacity : option CapacitySignals;
  ra_Thresholds : CapacityThresholds;
  ra_Lane : CommandPolicyLaneRationale;
}.

Record CommandPolicyDecision := {
  d_Outcome : CommandPolicyDecisionOutcome;
  d_GateOutcome : CommandPolicyGateOutcome;
  d_Lane : ExecutionClass;
  d_RiskLevel : string;
  d_RiskTier : Z;
  d_ReasonCode : string;
  d_Classification : commandClassifierResult;
  d_Policy : CommandPolicyProfile;
  d_Rationale : CommandPolicyRationale;
}.

Record appliedPolicyContext := { apc_PolicyID : string; apc_Options : TemplateOptions }.

(** The fields of [Service] that hold data; the queue, the fleet and the
    template store it calls are in ApprovalService.v. *)
Record Service := {
  capacityThresholds : CapacityThresholds;
  twoPersonMode : bool;
  appliedPolicy : gmap string appliedPolicyContext;
}.

(** ** Assignments to fields of a decision *)

Definition set_rationale (d : CommandPolicyDecision) (r : CommandPolicyRationale) : CommandPolicyDecision :=
  {| d_Outcome := d_Outcome d; d_GateOutcome := d_GateOutcome d; d_Lane := d_Lane d; d_RiskLevel := d_RiskLevel d;
     d_RiskTier := d_RiskTier d; d_ReasonCode := d_ReasonCode d; d_Classification := d_Classification d;
     d_Policy := d_Policy d; d_Rationale := r |}.

Definition set_outcome (d : CommandPolicyDecision) (o : CommandPolicyDecisionOutcome) (g : CommandPolicyGateOutcome)
    (reason : string) : CommandPolicyDecision :=
  {| d_Outcome := o; d_GateOutcome := g; d_Lane := d_Lane d; d_RiskLevel := d_RiskLevel d;
     d_RiskTier := d_RiskTier d; d_ReasonCode := reason; d_Classification := d_Classification d;
     d_Policy := d_Policy d; d_Rationale := d_Rationale d |}.

(** [decision.Rationale.Indicators = append(decision.Rationale.Indicators, ind)] *)
Definition push_indicator (d : CommandPolicyDecision) (ind : CommandPolicyIndicator) : CommandPolicyDecision :=
  let r := d_Rationale d in
  set_rationale d
    {| ra_Policy := ra_Policy r; ra_Summary := ra_Summary r; ra_Fallback := ra_Fallback r;
       ra_Indicators := ra_Indicators r ++ [ind]; ra_Capacity := ra_Capacity r;
       ra_Thresholds := ra_Thresholds r; ra_Lane := ra_Lane r |}.

Definition set_fallback (d : CommandPolicyDecision) : CommandPolicyDecision :=
  let r := d_Rationale d in
  set_rationale d
    {| ra_Policy := ra_Policy r; ra_Summary := ra_Summary r; ra_Fallback := true; ra_Indicators := ra_Indicators r;
       ra_Capacity := ra_Capacity r; ra_Thresholds := ra_Thresholds r; ra_Lane := ra_Lane r |}.

Definition set_capacity (d : CommandPolicyDecision) (c : CapacitySignals) : CommandPolicyDecision :=
  let r := d_Rationale d in
  set_rationale d
    {| ra_Policy := ra_Policy r; ra_Summary := ra_Summary r; ra_Fallback := ra_Fallback r;
       ra_Indicators := ra_Indicators r; ra_Capacity := Some c; ra_Thresholds := ra_Thresholds r; ra_Lane := ra_Lane r |}.

Definition set_summary (d : CommandPolicyDecision) (s : string) : CommandPolicyDecision :=
  let r := d_Rationale d in
  set_rationale d
    {| ra_Policy := ra_Policy r; ra_Summary := s; ra_Fallback := ra_Fallback r; ra_Indicators := ra_Indicators r;
       ra_Capacity := ra_Capacity r; ra_Thresholds := ra_Thresholds r; ra_Lane := ra_Lane r |}.

(** ** The control plane's classifier *)

Definition cp_remediatePrefixes : list string :=
  [ "rm "; ("rm" +:+ tab)%string; "mv "; ("mv" +:+ tab)%string; "cp "; ("cp" +:+ tab)%string;
    "chmod "; "chown "; "chgrp ";
    "mkdir "; "touch "; "tee ";
    "apt "; "apt-get "; "dpkg "; "yum "; "dnf "; "rpm ";
    "pip "; "pip3 "; "npm "; "gem ";
    "systemctl start"; "systemctl stop"; "systemctl restart";
    "systemctl enable"; "systemctl disable"; "systemctl mask";
    "service "; "reboot"; "shutdown"; "poweroff"; "halt"; "init ";
    "kill "; "pkill "; "killall ";
    "iptables "; "ip6tables "; "ufw "; "firewall-cmd ";
    "sed -i"; "dd "; "mkfs"; "mount ";
    "useradd"; "userdel"; "usermod"; "groupadd"; "groupdel";
    "passwd "; "chpasswd"; "crontab "; "kubeflow cancel" ].

Definition cp_observePrefixes : list string :=
  [ "ip addr"; "ip route"; "ip link"; "ip neigh";
    "systemctl status"; "systemctl is-active"; "systemctl is-enabled";
    "systemctl list-units"; "systemctl list-timers";
    "docker ps"; "docker images"; "docker inspect";
    "podman ps"; "podman images"; "podman inspect" ].

Definition cp_observeCommands : list string :=
  [ "cat"; "ls"; "head"; "tail"; "df"; "du"; "free"; "uptime"; "uname";
    "hostname"; "whoami"; "id"; "ps"; "top"; "netstat"; "ss";
    "lsof"; "file"; "stat"; "wc"; "grep"; "find"; "journalctl";
    "which"; "type"; "echo"; "date"; "env"; "printenv"; "lsb_release";
    "arch"; "nproc"; "getent"; "groups"; "last"; "w"; "sleep"; "true"; "false";
    "sh"; "bash" ].

Definition cp_diagnosePrefixes : list string := [ "curl"; "wget"; "fdisk -l"; "mount"; "kubeflow submit" ].

Definition cp_diagnoseCommands : list string :=
  [ "strace"; "ltrace"; "tcpdump"; "dig"; "nslookup"; "traceroute";
    "tracepath"; "ping"; "openssl"; "nc"; "ncat"; "nmap";
    "iotop"; "vmstat"; "iostat"; "sar"; "dmesg"; "lsblk";
    "blkid"; "ss"; "perf"; "iftop"; "nethogs" ].

Definition normalizeCommandParts (command : string) (args : list string) : string * string :=
  let trimmed := TrimSpace command in
  let full := match args with [] => trimmed | _ => (trimmed +:+ " " +:+ StringsJoin args " ")%string end in
  let fullLower := ToLower (TrimSpace full) in
  let idx := IndexAny trimmed (" " +:+ tab)%string in
  let base := if (0 <? idx)%Z then take_str (Z.to_nat idx) trimmed else trimmed in
  (fullLower, ToLower (TrimSpace base)).

Definition classifyCommandWithMetadata (command : string) (args : list string) : commandClassifierResult :=
  let '(fullLower, baseLower) := normalizeCommandParts command args in
  let mutation known reason :=
    {| cc_Level := CapRemediate; cc_Category := "mutation"; cc_SignatureKnown := known; cc_ReasonCode := reason |} in
  let observe reason :=
    {| cc_Level := CapObserve; cc_Category := "observe"; cc_SignatureKnown := true; cc_ReasonCode := reason |} in
  let diagnose reason :=
    {| cc_Level := CapDiagnose; cc_Category := "diagnose"; cc_SignatureKnown := true; cc_ReasonCode := reason |} in
  if existsb (λ p, HasPrefix fullLower p || HasPrefix baseLower p) cp_remediatePrefixes
  then mutation true "classifier.remediate_prefix"
  else if existsb (λ p, HasPrefix fullLower p) cp_observePrefixes
  then observe "classifier.observe_prefix"
  else if existsb (λ c, baseLower =s c) cp_observeCommands
  then
    if (baseLower =s "find") && (Contains fullLower "-exec" || Contains fullLower "-delete")
    then mutation true "classifier.find_mutation_flags"
    else observe "classifier.observe_command"
  else if existsb (λ p, HasPrefix fullLower p) cp_diagnosePrefixes
  then
    if HasPrefix baseLower "wget" && Contains fullLower " -o"
    then mutation true "classifier.wget_output_file"
    else diagnose "classifier.diagnose_prefix"
  else if existsb (λ c, baseLower =s c) cp_diagnoseCommands
  then diagnose "classifier.diagnose_command"
  else mutation false "classifier.unknown_mutation_signature".

(** ** Lane resolution *)

Record laneResolutionResult := {
  SelectedLane : ExecutionClass;
  GateOutcome : CommandPolicyGateOutcome;
  ReasonCode : string;
}.

Definition laneFromCapability (level : CapabilityLevel) : ExecutionClass :=
  if level =s CapDiagnose then ExecDiagnoseSandbox
  else if level =s CapRemediate then ExecRemediateSandbox
  else ExecObserveDirect.

Definition lane_rank (lane : ExecutionClass) : Z :=
  if lane =s ExecObserveDirect then 1
  else if lane =s ExecDiagnoseSandbox then 2
  else if lane =s ExecRemediateSandbox then 3
  else if lane =s ExecBreakglassDirect then 4
  else 0.

Definition stricterLane (current candidate : ExecutionClass) : ExecutionClass :=
  if current =s "" then candidate
  else if candidate =s "" then current
  else if candidate =s ExecBreakglassDirect then candidate
  else if lane_rank current <? lane_rank candidate then candidate
  else current.

(** The approval switch at the end of [resolveLaneDecision]. *)
Definition approval_gate (level : CapabilityLevel) (profile : CommandPolicyProfile) (r : laneResolutionResult)
    : laneResolutionResult :=
  let pending reason :=
    {| SelectedLane := SelectedLane r; GateOutcome := CommandPolicyGatePendingApproval; ReasonCode := reason |} in
  let mode := cpp_ApprovalMode profile in
  let r' :=
    if mode =s ApprovalNone then r
    else if mode =s ApprovalMutationGate then
      if (level =s CapRemediate) || (SelectedLane r =s ExecBreakglassDirect)
      then pending "approval.required.mutation_gate" else r
    else if mode =s ApprovalPlanFirst then pending "approval.required.plan_first"
    else if mode =s ApprovalEveryAction then pending "approval.required.every_action"
    else if mode =s ApprovalTwoPerson then pending "approval.required.two_person"
    else if level =s CapRemediate then pending "approval.required.mutation_gate" else r in
  if ReasonCode r' =s ""
  then {| SelectedLane := SelectedLane r'; GateOutcome := GateOutcome r'; ReasonCode := "policy.allowed" |}
  else r'.

(** The part of [resolveLaneDecision] after the remediate block. *)
Definition sandbox_then_gate (level : CapabilityLevel) (profile : CommandPolicyProfile) (lane : ExecutionClass)
    (reason : string) : laneResolutionResult :=
  let blocked l why := {| SelectedLane := l; GateOutcome := CommandPolicyGateBlocked; ReasonCode := why |} in
  let continue l why :=
    if (level <>s CapRemediate) && (l =s ExecBreakglassDirect)
    then blocked l "policy.breakglass_not_applicable"
    else approval_gate level profile
           {| SelectedLane := l; GateOutcome := CommandPolicyGateAllowed; ReasonCode := why |} in
  if cpp_SandboxRequired profile then
    if lane =s ExecObserveDirect
    then continue ExecDiagnoseSandbox (if reason =s "policy.allowed" then "policy.sandbox_escalated" else reason)
    else if lane =s ExecBreakglassDirect then blocked lane "policy.sandbox_required"
    else continue lane reason
  else continue lane reason.

Definition resolveLaneDecision (c : commandClassifierResult) (profile : CommandPolicyProfile) : laneResolutionResult :=
  let selectedLane := laneFromCapability (cc_Level c) in
  let lane :=
    if cpp_ExecutionClassRequired profile =s ExecBreakglassDirect then ExecBreakglassDirect
    else if cpp_ExecutionClassRequired profile <>s "" then stricterLane selectedLane (cpp_ExecutionClassRequired profile)
    else selectedLane in
  let blocked l why := {| SelectedLane := l; GateOutcome := CommandPolicyGateBlocked; ReasonCode := why |} in
  if cc_Level c =s CapRemediate then
    if negb (cc_SignatureKnown c)
    then blocked (if lane =s "" then ExecRemediateSandbox else lane) "policy.lane_unmapped"
    else if lane =s ExecBreakglassDirect then
      if negb (bg_Enabled (cpp_Breakglass profile)) then blocked lane "policy.breakglass_disabled"
      else if cpp_SandboxRequired profile then blocked lane "policy.sandbox_required"
      else {| SelectedLane := lane; GateOutcome := CommandPolicyGatePendingApproval;
              ReasonCode := "approval.breakglass_required" |}
    else if lane =s ExecObserveDirect then blocked lane "policy.lane_unmapped"
    else if lane =s ExecDiagnoseSandbox
    then sandbox_then_gate (cc_Level c) profile ExecRemediateSandbox "policy.lane_escalated"
    else sandbox_then_gate (cc_Level c) profile lane "policy.allowed"
  else sandbox_then_gate (cc_Level c) profile lane "policy.allowed".

(** ** Outcomes *)

Definition decisionOutcomeFromGate (g : CommandPolicyGateOutcome) : CommandPolicyDecisionOutcome :=
  if g =s CommandPolicyGateBlocked then CommandPolicyDecisionDeny
  else if g =s CommandPolicyGatePendingApproval then CommandPolicyDecisionQueue
  else CommandPolicyDecisionAllow.

Definition decisionGateFromOutcome (o : CommandPolicyDecisionOutcome) : CommandPolicyGateOutcome :=
  if o =s CommandPolicyDecisionDeny then CommandPolicyGateBlocked
  else if o =s CommandPolicyDecisionQueue then CommandPolicyGatePendingApproval
  else CommandPolicyGateAllowed.

Definition riskTierForLevel (risk : string) : Z :=
  let r := TrimSpace (ToLower risk) in
  if r =s "low" then 1 else if r =s "medium" then 2 else if r =s "high" then 3 else if r =s "critical" then 4 else 2.

Definition outcome_rank (o : CommandPolicyDecisionOutcome) : Z :=
  if o =s CommandPolicyDecisionAllow then 1
  else if o =s CommandPolicyDecisionQueue then 2
  else if o =s CommandPolicyDecisionDeny then 3
  else 0.

Definition mergeDecisionOutcome (current candidate : CommandPolicyDecisionOutcome) : CommandPolicyDecisionOutcome :=
  if outcome_rank current <? outcome_rank candidate then candidate else current.

Definition mergeDecisionWithReason (d : CommandPolicyDecision) (candidate : CommandPolicyDecisionOutcome)
    (reasonCode : string) : CommandPolicyDecision :=
  let merged := mergeDecisionOutcome (d_Outcome d) candidate in
  let d' :=
    if merged <>s d_Outcome d
    then set_outcome d merged (decisionGateFromOutcome merged)
           (if TrimSpace reasonCode <>s "" then reasonCode else d_ReasonCode d)
    else d in
  if d_ReasonCode d' =s "" then set_outcome d' (d_Outcome d') (d_GateOutcome d') "policy.allowed" else d'.

Definition driver_message (ind : CommandPolicyIndicator) : string :=
  let msg := TrimSpace (ind_Message ind) in if msg =s "" then ind_Name ind else msg.

Definition summarizeDecision (outcome : CommandPolicyDecisionOutcome) (indicators : list CommandPolicyIndicator) : string :=
  match map driver_message (List.filter ind_DroveOutcome indicators) with
  | [] =>
      if outcome =s CommandPolicyDecisionAllow then "command allowed by policy"
      else if outcome =s CommandPolicyDecisionQueue then "command queued for approval"
      else if outcome =s CommandPolicyDecisionDeny then "command denied by policy"
      else "policy decision completed"
  | drivers => (outcome +:+ " (" +:+ StringsJoin drivers "; " +:+ ")")%string
  end.

Definition capacitySource (source : string) : string :=
  let source := TrimSpace source in if source =s "" then "grafana" else source.

(** [decision.Rationale.Summary = summarizeDecision(..); return decision] *)
Definition finish (d : CommandPolicyDecision) : CommandPolicyDecision :=
  set_summary d (summarizeDecision (d_Outcome d) (ra_Indicators (d_Rationale d))).

(** ** The policy profile of a probe *)

Definition appliedPolicyForProbe (s : Service) (probeID : string) : option appliedPolicyContext :=
  if probeID =s "" then None else appliedPolicy s !! probeID.

Definition resolvePolicyProfile (s : Service) (probeID : string) (probeLevel : CapabilityLevel)
    (override : option CommandPolicyProfile) : CommandPolicyProfile :=
  let defaults := DefaultTemplateOptionsForLevel probeLevel in
  let profile :=
    {| cpp_PolicyID := ""; cpp_ExecutionClassRequired := opt_ExecutionClassRequired defaults;
       cpp_SandboxRequired := opt_SandboxRequired defaults; cpp_ApprovalMode := opt_ApprovalMode defaults;
       cpp_RequireSecondApprover := opt_RequireSecondApprover defaults; cpp_Breakglass := no_breakglass |} in
  let profile :=
    match appliedPolicyForProbe s probeID with
    | None => profile
    | Some ctx =>
        let o := apc_Options ctx in
        {| cpp_PolicyID := TrimSpace (apc_PolicyID ctx);
           cpp_ExecutionClassRequired := TrimSpace (opt_ExecutionClassRequired o);
           cpp_SandboxRequired := opt_SandboxRequired o;
           cpp_ApprovalMode := TrimSpace (opt_ApprovalMode o);
           cpp_RequireSecondApprover := opt_RequireSecondApprover o;
           cpp_Breakglass := opt_Breakglass o |}
    end in
  let or_keep new old := if TrimSpace new <>s "" then TrimSpace new else old in
  let profile :=
    match override with
    | None => profile
    | Some o =>
        {| cpp_PolicyID := or_keep (cpp_PolicyID o) (cpp_PolicyID profile);
           cpp_ExecutionClassRequired := or_keep (cpp_ExecutionClassRequired o) (cpp_ExecutionClassRequired profile);
           cpp_SandboxRequired := cpp_SandboxRequired o;
           cpp_ApprovalMode := or_keep (cpp_ApprovalMode o) (cpp_ApprovalMode profile);
           cpp_RequireSecondApprover := cpp_RequireSecondApprover o;
           cpp_Breakglass := cpp_Breakglass o |}
    end in
  {| cpp_PolicyID := cpp_PolicyID profile;
     cpp_ExecutionClassRequired :=
       if cpp_ExecutionClassRequired profile =s "" then opt_ExecutionClassRequired defaults
       else cpp_ExecutionClassRequired profile;
     cpp_SandboxRequired := cpp_SandboxRequired profile;
     cpp_ApprovalMode :=
       if cpp_ApprovalMode profile =s "" then opt_ApprovalMode defaults else cpp_ApprovalMode profile;
     cpp_RequireSecondApprover := cpp_RequireSecondApprover profile;
     cpp_Breakglass := cpp_Breakglass profile |}.

(** ** Evaluation *)

(** What [s.capacitySignalSource.CapacitySignals] answered: [None] when there
    is no provider, else an error or a possibly nil pointer. *)
Notation provider_reply := (option (result (option CapacitySignals))) (only parsing).

Definition readCapacitySignals (reply : provider_reply) : result (option CapacitySignals) :=
  match reply with
  | None => inr None
  | Some (inl err) => inl err
  | Some (inr None) => inr None
  | Some (inr (Some sig)) =>
      inr (Some {| cs_Source := capacitySource (cs_Source sig);
                   cs_Availability := ToLower (TrimSpace (cs_Availability sig));
                   cs_DashboardCoverage := cs_DashboardCoverage sig; cs_QueryCoverage := cs_QueryCoverage sig;
                   cs_DatasourceCount := cs_DatasourceCount sig; cs_Partial := cs_Partial sig;
                   cs_Warnings := cs_Warnings sig |})
  end.

(** The decision literal built from the lane resolution. *)
Definition lane_stage (thresholds : CapacityThresholds) (cmd : CommandPayload) (profile : CommandPolicyProfile)
    : CommandPolicyDecision :=
  let classification := classifyCommandWithMetadata (cmd_Command cmd) (cmd_Args cmd) in
  let risk := ClassifyRisk cmd in
  let lane := resolveLaneDecision classification profile in
  {| d_Outcome := decisionOutcomeFromGate (GateOutcome lane); d_GateOutcome := GateOutcome lane;
     d_Lane := SelectedLane lane; d_RiskLevel := risk; d_RiskTier := riskTierForLevel risk;
     d_ReasonCode := if ReasonCode lane =s "" then "policy.allowed" else ReasonCode lane;
     d_Classification := classification; d_Policy := profile;
     d_Rationale :=
       {| ra_Policy := capacityPolicyVersion; ra_Summary := ""; ra_Fallback := false; ra_Indicators := [];
          ra_Capacity := None; ra_Thresholds := thresholds;
          ra_Lane := {| lr_SelectedLane := SelectedLane lane; lr_GateOutcome := GateOutcome lane;
                        lr_ReasonCode := ReasonCode lane |} |} |}.

Definition risk_stage (risk : string) (d : CommandPolicyDecision) : CommandPolicyDecision :=
  let indicator effect drove severity message :=
    {| ind_Name := "command_risk"; ind_Source := "risk_classifier"; ind_Value := VString risk; ind_Comparator := "";
       ind_Threshold := VNil; ind_Severity := severity; ind_Effect := effect; ind_DroveOutcome := drove;
       ind_Message := message |} in
  if ((risk =s "high") || (risk =s "critical")) && (d_Outcome d =s CommandPolicyDecisionAllow)
  then push_indicator
         (set_outcome d CommandPolicyDecisionQueue (decisionGateFromOutcome CommandPolicyDecisionQueue)
            "approval.required.risk_high")
         (indicator CommandPolicyDecisionQueue true "warn" "high-risk command requires human approval")
  else push_indicator d (indicator "" false "info" "command risk classification").

Definition fallback_stage (err : option go_error) (d : CommandPolicyDecision) : CommandPolicyDecision :=
  push_indicator (set_fallback d)
    {| ind_Name := "capacity_signals"; ind_Source := "grafana_adapter";
       ind_Value := VString (match err with Some e => Error e | None => "unavailable" end);
       ind_Comparator := ""; ind_Threshold := VNil; ind_Severity := "info"; ind_Effect := "";
       ind_DroveOutcome := false; ind_Message := "Grafana capacity signals unavailable; using risk-only fallback" |}.

Definition availability_stage (c : CapacitySignals) (d : CommandPolicyDecision) : CommandPolicyDecision :=
  let availability := ToLower (TrimSpace (cs_Availability c)) in
  let indicator severity effect drove message :=
    {| ind_Name := "availability"; ind_Source := capacitySource (cs_Source c); ind_Value := VString availability;
       ind_Comparator := ""; ind_Threshold := VNil; ind_Severity := severity; ind_Effect := effect;
       ind_DroveOutcome := drove; ind_Message := message |} in
  if availability =s "degraded"
  then push_indicator (mergeDecisionWithReason d CommandPolicyDecisionDeny "capacity.availability_degraded")
         (indicator "critical" CommandPolicyDecisionDeny (d_Outcome d <>s CommandPolicyDecisionDeny)
            "capacity degraded; command denied by policy")
  else if (availability =s "limited") || (availability =s "insufficient")
  then push_indicator (mergeDecisionWithReason d CommandPolicyDecisionQueue "capacity.availability_limited")
         (indicator "warn" CommandPolicyDecisionQueue (d_Outcome d =s CommandPolicyDecisionAllow)
            "capacity limited; command queued for operator decision")
  else push_indicator d (indicator "info" "" false "Grafana availability signal").

Definition datasource_stage (thresholds : CapacityThresholds) (c : CapacitySignals) (d : CommandPolicyDecision)
    : CommandPolicyDecision :=
  let indicator severity effect drove message :=
    {| ind_Name := "datasource_count"; ind_Source := capacitySource (cs_Source c);
       ind_Value := VInt (cs_DatasourceCount c); ind_Comparator := ">=";
       ind_Threshold := VInt (th_MinDatasourceCount thresholds); ind_Severity := severity; ind_Effect := effect;
       ind_DroveOutcome := drove; ind_Message := message |} in
  if SFltb (float64_of_int (cs_DatasourceCount c)) (float64_of_int (th_MinDatasourceCount thresholds))
  then push_indicator (mergeDecisionWithReason d CommandPolicyDecisionDeny "capacity.datasource_insufficient")
         (indicator "critical" CommandPolicyDecisionDeny (d_Outcome d <>s CommandPolicyDecisionDeny)
            "insufficient datasource coverage; command denied")
  else push_indicator d (indicator "info" "" false "minimum datasource count check").

(** The dashboard and query stages have the same shape. *)
Definition dashboard_stage (thresholds : CapacityThresholds) (c : CapacitySignals) (d : CommandPolicyDecision)
    : CommandPolicyDecision :=
  let indicator severity effect drove message :=
    {| ind_Name := "dashboard_coverage"; ind_Source := capacitySource (cs_Source c);
       ind_Value := VFloat (cs_DashboardCoverage c); ind_Comparator := ">=";
       ind_Threshold := VFloat (th_MinDashboardCoverage thresholds); ind_Severity := severity; ind_Effect := effect;
       ind_DroveOutcome := drove; ind_Message := message |} in
  if SFltb f_zero (cs_DashboardCoverage c) then
    if SFltb (cs_DashboardCoverage c) (th_MinDashboardCoverage thresholds)
    then push_indicator (mergeDecisionWithReason d CommandPolicyDecisionQueue "capacity.dashboard_coverage_low")
           (indicator "warn" CommandPolicyDecisionQueue (d_Outcome d =s CommandPolicyDecisionAllow)
              "dashboard coverage below threshold; command queued")
    else push_indicator d (indicator "info" "" false "dashboard coverage threshold")
  else d.

Definition query_stage (thresholds : CapacityThresholds) (c : CapacitySignals) (d : CommandPolicyDecision)
    : CommandPolicyDecision :=
  let indicator severity effect drove message :=
    {| ind_Name := "query_coverage"; ind_Source := capacitySource (cs_Source c);
       ind_Value := VFloat (cs_QueryCoverage c); ind_Comparator := ">=";
       ind_Threshold := VFloat (th_MinQueryCoverage thresholds); ind_Severity := severity; ind_Effect := effect;
       ind_DroveOutcome := drove; ind_Message := message |} in
  if SFltb f_zero (cs_QueryCoverage c) then
    if SFltb (cs_QueryCoverage c) (th_MinQueryCoverage thresholds)
    then push_indicator (mergeDecisionWithReason d CommandPolicyDecisionQueue "capacity.query_coverage_low")
           (indicator "warn" CommandPolicyDecisionQueue (d_Outcome d =s CommandPolicyDecisionAllow)
              "query coverage below threshold; command queued")
    else push_indicator d (indicator "info" "" false "query coverage threshold")
  else d.

Definition partial_stage (c : CapacitySignals) (d : CommandPolicyDecision) : CommandPolicyDecision :=
  if cs_Partial c then
    push_indicator d
      {| ind_Name := "partial_snapshot"; ind_Source := capacitySource (cs_Source c); ind_Value := VBool true;
         ind_Comparator := ""; ind_Threshold := VNil; ind_Severity := "warn"; ind_Effect := "";
         ind_DroveOutcome := false; ind_Message := "capacity snapshot is partial; non-deny safeguards remain active" |}
  else d.

Definition capacity_stages (thresholds : CapacityThresholds) (c : CapacitySignals) (d : CommandPolicyDecision)
    : CommandPolicyDecision :=
  partial_stage c (query_stage thresholds c (dashboard_stage thresholds c (datasource_stage thresholds c
    (availability_stage c (set_capacity d c))))).

Definition evaluateCommandPolicy (s : Service) (reply : provider_reply) (probeID : string)
    (cmd : option CommandPayload) (probeLevel : CapabilityLevel) (override : option CommandPolicyProfile)
    : CommandPolicyDecision :=
  let thresholds := normalized (capacityThresholds s) in
  let cmd := default empty_command cmd in
  let profile := resolvePolicyProfile s probeID probeLevel override in
  let d := risk_stage (ClassifyRisk cmd) (lane_stage thresholds cmd profile) in
  if (d_Outcome d =s CommandPolicyDecisionDeny) && HasPrefix (d_ReasonCode d) "policy." then finish d
  else match readCapacitySignals reply with
  | inl err => finish (fallback_stage (Some err) d)
  | inr None => finish (fallback_stage None d)
  | inr (Some capacity) => finish (capacity_stages thresholds capacity d)
  end.

Definition EvaluateCommandPolicy s reply cmd probeLevel := evaluateCommandPolicy s reply "" cmd probeLevel None.
Definition EvaluateCommandPolicyForProbe s reply probeID cmd probeLevel :=
  evaluateCommandPolicy s reply probeID cmd probeLevel None.
Definition EvaluateCommandPolicyPreview s reply probeID cmd probeLevel override :=
  evaluateCommandPolicy s reply probeID cmd probeLevel override.

(** ** Decisions only get stricter *)

Definition outcome_ok (o : CommandPolicyDecisionOutcome) : Prop :=
  o = CommandPolicyDecisionAllow ∨ o = CommandPolicyDecisionQueue ∨ o = CommandPolicyDecisionDeny.

Record consistent (d : CommandPolicyDecision) : Prop := {
  cons_outcome : outcome_ok (d_Outcome d);
  cons_gate : d_GateOutcome d = decisionGateFromOutcome (d_Outcome d);
  cons_reason : d_ReasonCode d ≠ "";
}.

(** [tightens d d']: [d'] is about the same command, profile and lane, its
    outcome is at least as strict, and the indicators added since [d] include a
    driver exactly when the outcome changed. *)
Record tightens (d d' : CommandPolicyDecision) : Prop := {
  tg_lane : d_Lane d' = d_Lane d;
  tg_policy : d_Policy d' = d_Policy d;
  tg_risk : d_RiskLevel d' = d_RiskLevel d ∧ d_RiskTier d' = d_RiskTier d;
  tg_class : d_Classification d' = d_Classification d;
  tg_consistent : consistent d';
  tg_rank : outcome_rank (d_Outcome d) <= outcome_rank (d_Outcome d');
  tg_drivers : ∃ added, ra_Indicators (d_Rationale d') = ra_Indicators (d_Rationale d) ++ added ∧
                 existsb ind_DroveOutcome added = (d_Outcome d' <>s d_Outcome d);
}.

Lemma outcome_rank_inj o o' : outcome_ok o → outcome_ok o' → outcome_rank o = outcome_rank o' → o = o'.
Proof. intros [-> | [-> | ->]] [-> | [-> | ->]]; done. Qed.

Lemma outcome_ok_rank o : outcome_ok o → 1 <= outcome_rank o <= 3.
Proof. intros [-> | [-> | ->]]; done. Qed.

Lemma tightens_refl d : consistent d → tightens d d.
Proof. intros Hc. split; try done. exists []. by rewrite app_nil_r, String.eqb_refl. Qed.

Lemma tightens_trans d1 d2 d3 : consistent d1 → tightens d1 d2 → tightens d2 d3 → tightens d1 d3.
Proof.
  intros H1 [L P [R1 R2] C K O (a & Ha & Da)] [L' P' [R1' R2'] C' K' O' (b & Hb & Db)].
  split; [congruence..|split; congruence|congruence|done|lia|].
  exists (a ++ b). rewrite Hb, Ha, app_assoc, existsb_app, Da, Db. split; [done|].
  destruct (String.eqb_spec (d_Outcome d2) (d_Outcome d1)) as [E|N]; simpl; [by rewrite E|].
  destruct (String.eqb_spec (d_Outcome d3) (d_Outcome d1)) as [E|]; [|done]. exfalso. apply N.
  apply outcome_rank_inj; [apply K|apply H1|]. rewrite E in O'. lia.
Qed.

(** The three ways a stage ends. *)

Lemma tightens_push d ind : consistent d → ind_DroveOutcome ind = false → tightens d (push_indicator d ind).
Proof.
  intros [] Hi. split; try done. exists [ind]. split; [done|]. simpl. by rewrite Hi, String.eqb_refl.
Qed.

Lemma merge_outcome d o r :
  d_Outcome (mergeDecisionWithReason d o r) = mergeDecisionOutcome (d_Outcome d) o.
Proof.
  unfold mergeDecisionWithReason. destruct (String.eqb_spec (mergeDecisionOutcome (d_Outcome d) o) (d_Outcome d)) as [E|];
    simpl; case_match; simpl; congruence.
Qed.

Lemma merge_consistent d o r :
  consistent d → outcome_ok o → TrimSpace r ≠ "" → consistent (mergeDecisionWithReason d o r).
Proof.
  intros [Ho Hg Hr] Hok Hne. unfold mergeDecisionWithReason. rewrite (proj2 (String.eqb_neq _ _) Hne). simpl.
  assert (r ≠ "") by (by intros ->).
  destruct (String.eqb_spec (mergeDecisionOutcome (d_Outcome d) o) (d_Outcome d)); simpl;
    case_match; split; simpl; try done; unfold mergeDecisionOutcome; by case_match.
Qed.

Lemma merge_frame d o r :
  let d' := mergeDecisionWithReason d o r in
  d_Lane d' = d_Lane d ∧ d_Policy d' = d_Policy d ∧ d_RiskLevel d' = d_RiskLevel d ∧ d_RiskTier d' = d_RiskTier d ∧
  d_Classification d' = d_Classification d ∧ d_Rationale d' = d_Rationale d.
Proof. unfold mergeDecisionWithReason. cbv zeta. by repeat case_match. Qed.

Lemma tightens_merge d o r ind :
  consistent d → outcome_ok o → TrimSpace r ≠ "" →
  ind_DroveOutcome ind = (mergeDecisionOutcome (d_Outcome d) o <>s d_Outcome d) →
  tightens d (push_indicator (mergeDecisionWithReason d o r) ind).
Proof.
  intros Hc Ho Hr Hi. destruct (merge_frame d o r) as (?&?&?&?&?&Hra).
  pose proof (merge_consistent d o r Hc Ho Hr) as Hm. split; simpl; try done; [by destruct Hm| |].
  - rewrite merge_outcome. unfold mergeDecisionOutcome.
    destruct (Z.ltb_spec (outcome_rank (d_Outcome d)) (outcome_rank o)); lia.
  - rewrite Hra, merge_outcome. exists [ind]. split; [done|]. simpl. by rewrite Hi, orb_false_r.
Qed.

(** Which outcomes a merge changes. *)
Lemma merge_deny_changes o : outcome_ok o →
  (mergeDecisionOutcome o CommandPolicyDecisionDeny <>s o) = (o <>s CommandPolicyDecisionDeny).
Proof. intros [-> | [-> | ->]]; done. Qed.
Lemma merge_queue_changes o : outcome_ok o →
  (mergeDecisionOutcome o CommandPolicyDecisionQueue <>s o) = (o =s CommandPolicyDecisionAllow).
Proof. intros [-> | [-> | ->]]; done. Qed.

(** *** Every stage tightens *)

Ltac stage :=
  repeat case_match; eauto using tightens_refl, tightens_push;
  (apply tightens_merge; [done|unfold outcome_ok; auto|done|simpl]);
  symmetry; first [ apply merge_deny_changes | apply merge_queue_changes ]; by apply cons_outcome.

Lemma availability_tightens c d : consistent d → tightens d (availability_stage c d).
Proof. intros Hc. unfold availability_stage. cbv zeta. stage. Qed.
Lemma datasource_tightens t c d : consistent d → tightens d (datasource_stage t c d).
Proof. intros Hc. unfold datasource_stage. cbv zeta. stage. Qed.
Lemma dashboard_tightens t c d : consistent d → tightens d (dashboard_stage t c d).
Proof. intros Hc. unfold dashboard_stage. cbv zeta. stage. Qed.
Lemma query_tightens t c d : consistent d → tightens d (query_stage t c d).
Proof. intros Hc. unfold query_stage. cbv zeta. stage. Qed.
Lemma partial_tightens c d : consistent d → tightens d (partial_stage c d).
Proof. intros Hc. unfold partial_stage. stage. Qed.

Lemma risk_tightens risk d : consistent d → tightens d (risk_stage risk d).
Proof.
  intros Hc. unfold risk_stage. cbv zeta.
  destruct (((risk =s "high") || (risk =s "critical")) && (d_Outcome d =s CommandPolicyDecisionAllow)) eqn:E;
    [|by apply tightens_push].
  apply andb_true_iff in E as [_ E%String.eqb_eq]. split; try done; simpl.
  - split; simpl; try done. right. by left.
  - by rewrite E.
  - eexists [_]. split; [done|]. simpl. by rewrite E.
Qed.

Lemma capacity_tightens t c d : consistent d → tightens d (capacity_stages t c d).
Proof.
  intros Hc. unfold capacity_stages.
  assert (H0 : tightens d (set_capacity d c)).
  { split; try done; [by destruct Hc|]. exists []. by rewrite app_nil_r, String.eqb_refl. }
  assert (Hstep : ∀ f d', (∀ x, consistent x → tightens x (f x)) → tightens d d' → tightens d (f d')).
  { intros f d' Hf Hd'. eapply tightens_trans; [done|exact Hd'|]. apply Hf. by destruct Hd'. }
  repeat (apply Hstep; [auto using partial_tightens, query_tightens, dashboard_tightens, datasource_tightens,
    availability_tightens|]). done.
Qed.

(** *** The lane stage *)

Lemma approval_gate_spec level profile r :
  GateOutcome r = CommandPolicyGateAllowed → ReasonCode r ≠ "" →
  let r' := approval_gate level profile r in
  SelectedLane r' = SelectedLane r ∧ ReasonCode r' ≠ "" ∧
  (GateOutcome r' = CommandPolicyGateAllowed ∨ GateOutcome r' = CommandPolicyGatePendingApproval).
Proof. intros Hg Hr. unfold approval_gate. cbv zeta. repeat case_match; simpl; bools; split_and!; auto; congruence. Qed.

(** What the gate can answer, with the lane it selects. *)
Inductive lane_answer (c : commandClassifierResult) (p : CommandPolicyProfile) : laneResolutionResult → Prop :=
  | la_blocked lane reason : HasPrefix reason "policy." = true →
      lane_answer c p {| SelectedLane := lane; GateOutcome := CommandPolicyGateBlocked; ReasonCode := reason |}
  | la_breakglass :
      cc_Level c = CapRemediate → cc_SignatureKnown c = true →
      bg_Enabled (cpp_Breakglass p) = true → cpp_SandboxRequired p = false →
      lane_answer c p {| SelectedLane := ExecBreakglassDirect; GateOutcome := CommandPolicyGatePendingApproval;
                         ReasonCode := "approval.breakglass_required" |}
  | la_open lane gate reason :
      (cc_Level c = CapRemediate → cc_SignatureKnown c = true ∧ lane = ExecRemediateSandbox) →
      lane ≠ ExecBreakglassDirect → lane ≠ ExecWasmSandbox →
      (cpp_SandboxRequired p = true → lane ≠ ExecObserveDirect) →
      (gate = CommandPolicyGateAllowed ∨ gate = CommandPolicyGatePendingApproval) → reason ≠ "" →
      lane_answer c p {| SelectedLane := lane; GateOutcome := gate; ReasonCode := reason |}.

Lemma sandbox_then_gate_answer c p lane reason :
  reason ≠ "" → lane ≠ ExecWasmSandbox →
  (cc_Level c = CapRemediate → cc_SignatureKnown c = true ∧ lane = ExecRemediateSandbox) →
  lane_answer c p (sandbox_then_gate (cc_Level c) p lane reason).
Proof.
  intros Hr Hw Hc. unfold sandbox_then_gate.
  assert (Hgate : ∀ l why, why ≠ "" → l ≠ ExecWasmSandbox →
    (cc_Level c = CapRemediate → cc_SignatureKnown c = true ∧ l = ExecRemediateSandbox) →
    (cpp_SandboxRequired p = true → l ≠ ExecObserveDirect) →
    lane_answer c p
      (if (cc_Level c <>s CapRemediate) && (l =s ExecBreakglassDirect)
       then {| SelectedLane := l; GateOutcome := CommandPolicyGateBlocked; ReasonCode := "policy.breakglass_not_applicable" |}
       else approval_gate (cc_Level c) p {| SelectedLane := l; GateOutcome := CommandPolicyGateAllowed; ReasonCode := why |})).
  { intros l why Hwhy Hlw Hl Hs. destruct (_ && _) eqn:E; [by constructor|].
    destruct (approval_gate_spec (cc_Level c) p
      {| SelectedLane := l; GateOutcome := CommandPolicyGateAllowed; ReasonCode := why |}) as (Hlane & Hreason & Hg); [done..|].
    destruct (approval_gate _ _ _) as [l' g' r']; simpl in *. subst l'. constructor; try done.
    intros ->. destruct (String.eqb_spec (cc_Level c) CapRemediate) as [Hrem|]; [|done].
    by destruct (Hl Hrem). }
  cbv zeta. destruct (cpp_SandboxRequired p) eqn:Hsb; [|by apply Hgate].
  destruct (String.eqb_spec lane ExecObserveDirect) as [->|].
  - apply Hgate; try done; [by case_match|]. intros Hrem. by destruct (Hc Hrem).
  - pose proof (Hgate lane reason Hr Hw Hc (λ _, n)) as Hg.
    destruct (String.eqb_spec lane ExecBreakglassDirect); [by constructor|exact Hg].
Qed.

Lemma resolved_lane level required :
  let lane := if required =s ExecBreakglassDirect then ExecBreakglassDirect
              else if required <>s "" then stricterLane (laneFromCapability level) required
              else laneFromCapability level in
  (lane = ExecObserveDirect ∨ lane = ExecDiagnoseSandbox ∨ lane = ExecRemediateSandbox ∨ lane = ExecBreakglassDirect) ∧
  (level = CapRemediate → lane = ExecRemediateSandbox ∨ lane = ExecBreakglassDirect).
Proof.
  cbv zeta. unfold stricterLane, laneFromCapability, lane_rank.
  repeat case_str; try (split; [by auto|intros; by auto]); simplify_eq/=.
Qed.

Lemma resolve_lane_answer c p : lane_answer c p (resolveLaneDecision c p).
Proof.
  unfold resolveLaneDecision. destruct (resolved_lane (cc_Level c) (cpp_ExecutionClassRequired p)) as [Hl Hrem].
  cbv zeta in *. revert Hl Hrem. generalize (if cpp_ExecutionClassRequired p =s ExecBreakglassDirect then ExecBreakglassDirect
    else if cpp_ExecutionClassRequired p <>s "" then stricterLane (laneFromCapability (cc_Level c)) (cpp_ExecutionClassRequired p)
    else laneFromCapability (cc_Level c)).
  intros lane Hl Hrem. destruct (String.eqb_spec (cc_Level c) CapRemediate) as [Hc|Hc].
  - destruct (cc_SignatureKnown c) eqn:Hk; simpl; [|by constructor].
    destruct (Hrem Hc) as [-> | ->]; simpl.
    + by apply sandbox_then_gate_answer.
    + destruct (bg_Enabled (cpp_Breakglass p)) eqn:Hb; simpl; [|by constructor].
      destruct (cpp_SandboxRequired p) eqn:Hs; by constructor.
  - apply sandbox_then_gate_answer; [done|naive_solver|done].
Qed.

Lemma lane_stage_consistent t cmd p : consistent (lane_stage t cmd p).
Proof.
  unfold lane_stage. cbv zeta.
  destruct (resolve_lane_answer (classifyCommandWithMetadata (cmd_Command cmd) (cmd_Args cmd)) p)
    as [lane reason Hr| |lane gate reason _ _ _ _ Hg Hr]; split; simpl; unfold outcome_ok; auto.
  - case_match; [done|by bools].
  - destruct Hg as [-> | ->]; simpl; auto.
  - by destruct Hg as [-> | ->].
  - case_match; [done|by bools].
Qed.

(** *** The whole evaluation *)

(** The decision before the capacity signals are read. *)
Definition risk_decision (s : Service) (probeID : string) (cmd : option CommandPayload) (probeLevel : CapabilityLevel)
    (override : option CommandPolicyProfile) : CommandPolicyDecision :=
  risk_stage (ClassifyRisk (default empty_command cmd))
    (lane_stage (normalized (capacityThresholds s)) (default empty_command cmd)
       (resolvePolicyProfile s probeID probeLevel override)).

Lemma finish_tightens d d' : tightens d d' → tightens d (finish d').
Proof. by intros [? ? ? ? [] ? ?]. Qed.

Section evaluation.
Context (s : Service) (reply : provider_reply) (probeID : string) (cmd : option CommandPayload)
        (probeLevel : CapabilityLevel) (override : option CommandPolicyProfile).
Let lane0 := lane_stage (normalized (capacityThresholds s)) (default empty_command cmd)
               (resolvePolicyProfile s probeID probeLevel override).
Let risk0 := risk_decision s probeID cmd probeLevel override.
Let final := evaluateCommandPolicy s reply probeID cmd probeLevel override.

Lemma risk_from_lane : tightens lane0 risk0.
Proof. apply risk_tightens, lane_stage_consistent. Qed.

Lemma final_from_risk : tightens risk0 final.
Proof.
  assert (Hc : consistent risk0) by apply risk_from_lane.
  unfold final, evaluateCommandPolicy. fold lane0. change (risk_stage _ lane0) with risk0. cbv zeta.
  destruct (_ && _); [by apply finish_tightens, tightens_refl|].
  destruct (readCapacitySignals reply) as [err|[c|]]; apply finish_tightens.
  - destruct (tightens_push (set_fallback risk0) {| ind_Name := "capacity_signals"; ind_Source := "grafana_adapter";
       ind_Value := VString (Error err); ind_Comparator := ""; ind_Threshold := VNil; ind_Severity := "info";
       ind_Effect := ""; ind_DroveOutcome := false;
       ind_Message := "Grafana capacity signals unavailable; using risk-only fallback" |}) as [];
      [by destruct Hc|done|by split].
  - by apply capacity_tightens.
  - destruct (tightens_push (set_fallback risk0) {| ind_Name := "capacity_signals"; ind_Source := "grafana_adapter";
       ind_Value := VString "unavailable"; ind_Comparator := ""; ind_Threshold := VNil; ind_Severity := "info";
       ind_Effect := ""; ind_DroveOutcome := false;
       ind_Message := "Grafana capacity signals unavailable; using risk-only fallback" |}) as [];
      [by destruct Hc|done|by split].
Qed.

Lemma final_from_lane : tightens lane0 final.
Proof. eapply tightens_trans; [apply lane_stage_consistent|apply risk_from_lane|apply final_from_risk]. Qed.
End evaluation.

Lemma risk_stage_allow risk d :
  consistent d → outcome_rank (d_Outcome (risk_stage risk d)) <= outcome_rank CommandPolicyDecisionAllow →
  risk ≠ "high" ∧ risk ≠ "critical".
Proof.
  intros [Hok _ _]. unfold risk_stage. cbv zeta.
  split; intros ->; revert H; simpl; destruct Hok as [Ho|[Ho|Ho]]; rewrite Ho; simpl; rewrite ?Ho; by intros ?.
Qed.

Lemma classify_levels_cp command args :
  let c := classifyCommandWithMetadata command args in
  (cc_Level c ≠ CapRemediate ∧ cc_SignatureKnown c = true) ∨ cc_Level c = CapRemediate.
Proof.
  unfold classifyCommandWithMetadata. destruct (normalizeCommandParts command args). cbv zeta.
  repeat case_match; simpl; auto.
Qed.

(** ** Theorems *)

Section theorems.
Context (s : Service) (reply : provider_reply) (probeID : string) (cmd : option CommandPayload)
        (probeLevel : CapabilityLevel) (override : option CommandPolicyProfile).
Let final := evaluateCommandPolicy s reply probeID cmd probeLevel override.
Let command := default empty_command cmd.
Let profile := resolvePolicyProfile s probeID probeLevel override.
Let class := classifyCommandWithMetadata (cmd_Command command) (cmd_Args command).

Lemma final_answer :
  lane_answer class profile (resolveLaneDecision class profile) ∧
  d_Lane final = SelectedLane (resolveLaneDecision class profile) ∧
  outcome_rank (decisionOutcomeFromGate (GateOutcome (resolveLaneDecision class profile))) <= outcome_rank (d_Outcome final) ∧
  outcome_ok (d_Outcome final).
Proof.
  destruct (final_from_lane s reply probeID cmd probeLevel override) as [Hlane _ _ _ [Hok _ _] Hr _].
  split_and!; [apply resolve_lane_answer|exact Hlane|exact Hr|exact Hok].
Qed.

(** Every decision is well formed, whatever the command, the probe's
    policy, the preview override and the capacity provider answer: its outcome
    is allow, queue or deny, its gate is the one of that outcome, its reason
    code is not empty, and it carries the command's risk level and tier, its
    classification and the resolved profile. *)
Theorem evaluate_consistent :
  outcome_ok (d_Outcome final) ∧ d_GateOutcome final = decisionGateFromOutcome (d_Outcome final) ∧
  d_ReasonCode final ≠ "" ∧ d_RiskLevel final = ClassifyRisk command ∧
  d_RiskTier final = riskTierForLevel (ClassifyRisk command) ∧
  d_Classification final = class ∧ d_Policy final = profile.
Proof.
  destruct (final_from_lane s reply probeID cmd probeLevel override) as [_ Hp [Hr1 Hr2] Hc [? ? ?] _ _]. by split_and!.
Qed.

(** Fail closed: a command whose mutation signature is unknown is denied
    with [policy.lane_unmapped], whatever the probe's policy, the override,
    breakglass settings and capacity signals say; the signals are not even
    consulted. *)
Theorem unknown_mutation_denied :
  cc_SignatureKnown class = false →
  d_Outcome final = CommandPolicyDecisionDeny ∧ d_GateOutcome final = CommandPolicyGateBlocked ∧
  d_ReasonCode final = "policy.lane_unmapped" ∧ ra_Capacity (d_Rationale final) = None ∧
  final = evaluateCommandPolicy s None probeID cmd probeLevel override.
Proof.
  intros Hk.
  assert (Hrem : cc_Level class = CapRemediate).
  { revert Hk. subst class. unfold classifyCommandWithMetadata. destruct (normalizeCommandParts _ _).
    cbv zeta. by repeat case_match. }
  assert (Hlane : ∃ lane, resolveLaneDecision class profile =
    {| SelectedLane := lane; GateOutcome := CommandPolicyGateBlocked; ReasonCode := "policy.lane_unmapped" |}).
  { unfold resolveLaneDecision. rewrite Hrem, Hk. simpl. eauto. }
  destruct Hlane as [lane Hlane]. subst final. unfold evaluateCommandPolicy.
  unfold lane_stage. cbv zeta. fold command profile class. rewrite Hlane. unfold risk_stage. simpl.
  rewrite andb_false_r. simpl. done.
Qed.

(** What an allow means: the command is a known, low or medium risk one,
    the probe's lane is never [breakglass_direct], under a sandbox-requiring
    policy it is not a host-direct lane, and a mutating command only runs in
    the [remediate_sandbox] lane. *)
Theorem allow_guarantees :
  d_Outcome final = CommandPolicyDecisionAllow →
  cc_SignatureKnown class = true ∧
  (ClassifyRisk command = "low" ∨ ClassifyRisk command = "medium") ∧
  d_Lane final ≠ ExecBreakglassDirect ∧
  (cpp_SandboxRequired profile = true → IsHostDirectLane (d_Lane final) = false) ∧
  (cc_Level class = CapRemediate → d_Lane final = ExecRemediateSandbox).
Proof.
  intros Ha. destruct final_answer as (Hans & Hlane & Hrank & _). rewrite Ha in Hrank. rewrite Hlane.
  assert (Hrisk : ClassifyRisk command = "low" ∨ ClassifyRisk command = "medium").
  { pose proof (final_from_risk s reply probeID cmd probeLevel override) as [_ _ _ _ _ Hr _]. fold final in Hr.
    rewrite Ha in Hr. apply risk_stage_allow in Hr as [H1 H2]; [|apply lane_stage_consistent].
    fold command in H1, H2. destruct (ClassifyRisk_levels command) as [?|[?|[?|?]]]; naive_solver. }
  destruct Hans as [lane reason _|Hc Hk _ _|lane gate reason Hrem Hbg _ Hs Hg _]; simpl in *; try done.
  split_and!; try done.
  - destruct (classify_levels_cp (cmd_Command command) (cmd_Args command)) as [[_ ?]|Hc]; [done|].
    by apply Hrem.
  - intros Hsb. unfold IsHostDirectLane. apply orb_false_iff. split; apply String.eqb_neq; auto.
  - intros Hc. by apply Hrem.
Qed.

(** A mutating command that is not denied goes to [remediate_sandbox], or
    to [breakglass_direct] when the profile enables breakglass and does not
    require a sandbox, and then only through the approval queue. *)
Theorem remediate_lane_safety :
  cc_Level class = CapRemediate → d_Outcome final ≠ CommandPolicyDecisionDeny →
  cc_SignatureKnown class = true ∧
  (d_Lane final = ExecRemediateSandbox ∨
   d_Lane final = ExecBreakglassDirect ∧ d_Outcome final = CommandPolicyDecisionQueue ∧
   bg_Enabled (cpp_Breakglass profile) = true ∧ cpp_SandboxRequired profile = false).
Proof.
  intros Hc Hnd. destruct final_answer as (Hans & Hlane & Hrank & Hok). rewrite Hlane.
  destruct Hans as [lane reason _|_ Hk Hb Hs|lane gate reason Hrem _ _ _ _ _]; simpl in *.
  - destruct Hok as [Ho|[Ho|Ho]]; rewrite Ho in Hrank; simpl in Hrank; done.
  - split; [done|]. right. destruct Hok as [Ho|[Ho|Ho]]; [rewrite Ho in Hrank; done|by split_and!|done].
  - destruct (Hrem Hc). auto.
Qed.

(** The rationale explains the outcome: some indicator is marked as having
    driven the outcome exactly when the final outcome differs from the one
    lane resolution alone gives. *)
Theorem drivers_explain_outcome :
  existsb ind_DroveOutcome (ra_Indicators (d_Rationale final)) =
  (d_Outcome final <>s decisionOutcomeFromGate (GateOutcome (resolveLaneDecision class profile))).
Proof.
  destruct (final_from_lane s reply probeID cmd probeLevel override) as [_ _ _ _ _ _ (added & Ha & Hd)].
  fold final in Ha, Hd. rewrite Ha. exact Hd.
Qed.
End theorems.

(** *** The outcome as a function of the signals *)

Definition sig_denies (t : CapacityThresholds) (sig : CapacitySignals) : bool :=
  (ToLower (TrimSpace (cs_Availability sig)) =s "degraded") ||
  SFltb (float64_of_int (cs_DatasourceCount sig)) (float64_of_int (th_MinDatasourceCount t)).

Definition coverage_low (coverage minimum : float64) : bool := SFltb f_zero coverage && SFltb coverage minimum.

Definition sig_queues (t : CapacityThresholds) (sig : CapacitySignals) : bool :=
  let availability := ToLower (TrimSpace (cs_Availability sig)) in
  (availability =s "limited") || (availability =s "insufficient") ||
  coverage_low (cs_DashboardCoverage sig) (th_MinDashboardCoverage t) ||
  coverage_low (cs_QueryCoverage sig) (th_MinQueryCoverage t).

Definition worst (o : CommandPolicyDecisionOutcome) (deny queue : bool) : CommandPolicyDecisionOutcome :=
  if (o =s CommandPolicyDecisionDeny) || deny then CommandPolicyDecisionDeny
  else if (o =s CommandPolicyDecisionQueue) || queue then CommandPolicyDecisionQueue
  else CommandPolicyDecisionAllow.

Lemma worst_ok o deny queue : outcome_ok (worst o deny queue).
Proof. unfold worst, outcome_ok. repeat case_match; auto. Qed.

Lemma worst_worst o d1 q1 d2 q2 : worst (worst o d1 q1) d2 q2 = worst o (d1 || d2) (q1 || q2).
Proof. unfold worst. destruct (o =s CommandPolicyDecisionDeny), (o =s CommandPolicyDecisionQueue), d1, q1, d2, q2; done. Qed.

Lemma worst_id o : outcome_ok o → worst o false false = o.
Proof. by intros [-> | [-> | ->]]. Qed.

Lemma merge_deny_worst o q : outcome_ok o → mergeDecisionOutcome o CommandPolicyDecisionDeny = worst o true q.
Proof. by intros [-> | [-> | ->]]. Qed.
Lemma merge_queue_worst o : outcome_ok o → mergeDecisionOutcome o CommandPolicyDecisionQueue = worst o false true.
Proof. by intros [-> | [-> | ->]]. Qed.

#[export] Hint Resolve worst_ok : legator.

Lemma capacity_stages_outcome t c d :
  consistent d →
  d_Outcome (capacity_stages t c d) = worst (d_Outcome d) (sig_denies t c) (sig_queues t c).
Proof.
  intros Hd. unfold capacity_stages.
  assert (Ha : ∀ x, outcome_ok (d_Outcome x) → d_Outcome (availability_stage c x) =
    worst (d_Outcome x) (ToLower (TrimSpace (cs_Availability c)) =s "degraded")
      ((ToLower (TrimSpace (cs_Availability c)) =s "limited") || (ToLower (TrimSpace (cs_Availability c)) =s "insufficient"))).
  { intros x Hx. unfold availability_stage. cbv zeta. generalize (ToLower (TrimSpace (cs_Availability c))). intros a.
    destruct (a =s "degraded"); [|destruct (_ || _)]; simpl; rewrite ?merge_outcome;
      auto using merge_deny_worst, merge_queue_worst, eq_sym, worst_id. }
  assert (Hs : ∀ x, outcome_ok (d_Outcome x) → d_Outcome (datasource_stage t c x) =
    worst (d_Outcome x) (SFltb (float64_of_int (cs_DatasourceCount c)) (float64_of_int (th_MinDatasourceCount t))) false).
  { intros x Hx. unfold datasource_stage. cbv zeta. case_match; simpl; rewrite ?merge_outcome;
      auto using merge_deny_worst, eq_sym, worst_id. }
  assert (Hb : ∀ x, outcome_ok (d_Outcome x) → d_Outcome (dashboard_stage t c x) =
    worst (d_Outcome x) false (coverage_low (cs_DashboardCoverage c) (th_MinDashboardCoverage t))).
  { intros x Hx. unfold dashboard_stage, coverage_low. cbv zeta. repeat case_match; simpl; rewrite ?merge_outcome;
      auto using merge_queue_worst, eq_sym, worst_id. }
  assert (Hq : ∀ x, outcome_ok (d_Outcome x) → d_Outcome (query_stage t c x) =
    worst (d_Outcome x) false (coverage_low (cs_QueryCoverage c) (th_MinQueryCoverage t))).
  { intros x Hx. unfold query_stage, coverage_low. cbv zeta. repeat case_match; simpl; rewrite ?merge_outcome;
      auto using merge_queue_worst, eq_sym, worst_id. }
  replace (d_Outcome (partial_stage c _)) with
    (d_Outcome (query_stage t c (dashboard_stage t c (datasource_stage t c (availability_stage c (set_capacity d c))))))
    by (unfold partial_stage; by case_match).
  assert (H0 : outcome_ok (d_Outcome (set_capacity d c))) by apply Hd.
  assert (H1 : outcome_ok (d_Outcome (availability_stage c (set_capacity d c)))) by (rewrite Ha; auto with legator).
  assert (H2 : outcome_ok (d_Outcome (datasource_stage t c (availability_stage c (set_capacity d c)))))
    by (rewrite Hs; auto with legator).
  assert (H3 : outcome_ok (d_Outcome (dashboard_stage t c (datasource_stage t c (availability_stage c (set_capacity d c))))))
    by (rewrite Hb; auto with legator).
  rewrite Hq, Hb, Hs, Ha, !worst_worst by done. unfold sig_denies, sig_queues. cbv zeta. simpl.
  by rewrite ?orb_false_r, ?orb_assoc.
Qed.

Section capacity_outcome.
Context (s : Service) (sig : CapacitySignals) (probeID : string) (cmd : option CommandPayload)
        (probeLevel : CapabilityLevel) (override : option CommandPolicyProfile).
Let t := normalized (capacityThresholds s).

Lemma no_provider_outcome err_reply :
  readCapacitySignals err_reply = inr None ∨ (∃ e, readCapacitySignals err_reply = inl e) →
  d_Outcome (evaluateCommandPolicy s err_reply probeID cmd probeLevel override) =
  d_Outcome (risk_decision s probeID cmd probeLevel override).
Proof.
  intros H. unfold evaluateCommandPolicy. cbv zeta. fold (risk_decision s probeID cmd probeLevel override).
  destruct (_ && _); [done|]. by destruct H as [-> | [e ->]].
Qed.

(** Capacity signals can only tighten a decision, and exactly so: with
    signals, the outcome is deny when it was deny without them, or Grafana is
    degraded, or there are too few datasources; otherwise it is queue when it
    was queue, or availability is limited or insufficient, or a reported
    coverage is below its threshold; otherwise it is allow. *)
Theorem capacity_outcome_spec :
  d_Outcome (evaluateCommandPolicy s (Some (inr (Some sig))) probeID cmd probeLevel override) =
  worst (d_Outcome (evaluateCommandPolicy s None probeID cmd probeLevel override)) (sig_denies t sig) (sig_queues t sig).
Proof.
  rewrite (no_provider_outcome None) by (by left). unfold evaluateCommandPolicy. cbv zeta.
  fold (risk_decision s probeID cmd probeLevel override).
  assert (Hc : consistent (risk_decision s probeID cmd probeLevel override)) by apply risk_from_lane.
  destruct (_ && _) eqn:E; simpl.
  - apply andb_true_iff in E as [E%String.eqb_eq _]. by rewrite E.
  - rewrite capacity_stages_outcome by done. subst t. unfold sig_denies, sig_queues. simpl.
    by rewrite TrimSpace_ToLower, TrimSpace_idem, ToLower_idem.
Qed.

(** When the capacity provider fails, answers nothing or is missing, the
    decision is the one of risk and policy alone, marked as a fallback unless
    policy already denied the command. *)
Theorem capacity_fallback e :
  let without := evaluateCommandPolicy s None probeID cmd probeLevel override in
  let failed := evaluateCommandPolicy s (Some (inl e)) probeID cmd probeLevel override in
  d_Outcome failed = d_Outcome without ∧ d_ReasonCode failed = d_ReasonCode without ∧
  d_Lane failed = d_Lane without ∧ ra_Capacity (d_Rationale failed) = None ∧
  evaluateCommandPolicy s (Some (inr None)) probeID cmd probeLevel override = without ∧
  ra_Fallback (d_Rationale failed) =
    negb ((d_Outcome failed =s CommandPolicyDecisionDeny) && HasPrefix (d_ReasonCode failed) "policy.").
Proof.
  cbv zeta. unfold evaluateCommandPolicy. cbv zeta. fold (risk_decision s probeID cmd probeLevel override).
  assert (Hcap : ra_Capacity (d_Rationale (risk_decision s probeID cmd probeLevel override)) = None ∧
                 ra_Fallback (d_Rationale (risk_decision s probeID cmd probeLevel override)) = false).
  { unfold risk_decision, risk_stage. cbv zeta. by case_match. }
  destruct Hcap as [Hcap Hfb].
  destruct (_ && _) eqn:E; simpl; rewrite ?Hcap, ?Hfb, ?E; by split_and!.
Qed.
End capacity_outcome.

(** *** The two classifiers *)

Lemma existsb_app_r {A} (f : A → bool) l1 l2 : existsb f l2 = false → existsb f (l1 ++ l2) = existsb f l1.
Proof. intros H. by rewrite existsb_app, H, orb_false_r. Qed.

(** The control plane and the probe classify every command line alike,
    except one whose base command is a shell ([sh] or [bash]): level, category,
    signature flag and reason code are the same. *)
Theorem classifiers_agree command args :
  (normalizeCommandParts command args).2 ≠ "sh" → (normalizeCommandParts command args).2 ≠ "bash" →
  classifyCommandWithMetadata command args = ClassifyCommandWithMetadata command args.
Proof.
  unfold classifyCommandWithMetadata, ClassifyCommandWithMetadata.
  change (normalizedCommand command args) with (normalizeCommandParts command args).
  destruct (normalizeCommandParts command args) as [full base]. cbn [snd]. intros Hsh Hbash. cbv zeta.
  change cp_observeCommands with (observeCommands ++ ["sh"; "bash"]).
  rewrite existsb_app_r by (simpl; by rewrite (proj2 (String.eqb_neq _ _) Hsh), (proj2 (String.eqb_neq _ _) Hbash)).
  assert (Ho : Contains full " -o" || Contains full " -o " = Contains full " -o").
  { destruct (Contains full " -o ") eqn:E; [|by rewrite orb_false_r].
    apply (Contains_prefix_weaken full " -o" " ") in E. by rewrite E. }
  rewrite Ho. reflexivity.
Qed.

(** The [wasm_sandbox] execution class that a policy requires is never the
    lane of a decision: the lane order of [stricterLane] does not know it, so
    the [wasm-fast-lane] template resolves to another lane. *)
Theorem wasm_lane_never_selected s reply probeID cmd probeLevel override :
  d_Outcome (evaluateCommandPolicy s reply probeID cmd probeLevel override) ≠ CommandPolicyDecisionDeny →
  d_Lane (evaluateCommandPolicy s reply probeID cmd probeLevel override) ≠ ExecWasmSandbox.
Proof.
  intros Hnd. destruct (final_answer s reply probeID cmd probeLevel override) as (Hans & Hlane & Hrank & Hok).
  rewrite Hlane. destruct Hans as [lane reason _|_ Hk Hb Hs|lane gate reason Hrem _ Hw _ _ _]; simpl in *; try done.
  destruct Hok as [Ho|[Ho|Ho]]; rewrite Ho in Hrank; simpl in Hrank; done.
Qed.

(** ** Witnesses *)

Module PolicyExamples.
Definition service : Service :=
  {| capacityThresholds := DefaultCapacityThresholds; twoPersonMode := true; appliedPolicy := ∅ |}.
Definition run (command : string) (args : list string) (level : CapabilityLevel) : CommandPayload :=
  {| cmd_RequestID := "r"; cmd_Command := command; cmd_Args := args; cmd_Timeout := 0; cmd_Level := level;
     cmd_Stream := false |}.
Definition breakglass : CommandPolicyProfile :=
  {| cpp_PolicyID := "pol-101"; cpp_ExecutionClassRequired := ExecBreakglassDirect; cpp_SandboxRequired := false;
     cpp_ApprovalMode := ApprovalNone; cpp_RequireSecondApprover := true;
     cpp_Breakglass := {| bg_Enabled := true; bg_AllowedReasons := ["service_outage"]; bg_RequireTypedConfirmation := true |} |}.
Definition wasm : CommandPolicyProfile :=
  {| cpp_PolicyID := "wasm-fast-lane"; cpp_ExecutionClassRequired := ExecWasmSandbox; cpp_SandboxRequired := true;
     cpp_ApprovalMode := ApprovalMutationGate; cpp_RequireSecondApprover := false; cpp_Breakglass := no_breakglass |}.
End PolicyExamples.
Import PolicyExamples.

Lemma unknown_mutation_denied_witness :
  d_Outcome (evaluateCommandPolicy service None "p" (Some (run "frobnicate" [] CapObserve)) CapRemediate (Some breakglass)) =
  CommandPolicyDecisionDeny.
Proof.
  apply (unknown_mutation_denied service None "p" (Some (run "frobnicate" [] CapObserve)) CapRemediate (Some breakglass)).
  vm_compute. reflexivity.
Defined.

Lemma allow_guarantees_witness :
  IsHostDirectLane (d_Lane (evaluateCommandPolicy service None "p" (Some (run "uptime" [] CapObserve)) CapDiagnose None)) = false.
Proof.
  pose proof (allow_guarantees service None "p" (Some (run "uptime" [] CapObserve)) CapDiagnose None) as H.
  cbv zeta in H. destruct H as (_ & _ & _ & H & _); [vm_compute; reflexivity|]. apply H. vm_compute. reflexivity.
Defined.

Lemma remediate_lane_safety_witness :
  d_Lane (evaluateCommandPolicy service None "p" (Some (run "systemctl" ["restart"; "nginx"] CapRemediate)) CapRemediate
            (Some breakglass)) = ExecBreakglassDirect.
Proof.
  destruct (remediate_lane_safety service None "p" (Some (run "systemctl" ["restart"; "nginx"] CapRemediate)) CapRemediate
              (Some breakglass)) as [_ [H|[H _]]]; [vm_compute; reflexivity|vm_compute; discriminate| |exact H].
  vm_compute in H. discriminate H.
Defined.

Lemma classifiers_agree_witness :
  classifyCommandWithMetadata " Find" ["/"; "-DELETE"] = ClassifyCommandWithMetadata " Find" ["/"; "-DELETE"].
Proof. apply (classifiers_agree " Find" ["/"; "-DELETE"]); vm_compute; discriminate. Defined.

Lemma wasm_lane_never_selected_witness :
  d_Lane (evaluateCommandPolicy service None "p" (Some (run "uptime" [] CapObserve)) CapDiagnose (Some wasm)) ≠ ExecWasmSandbox.
Proof.
  apply (wasm_lane_never_selected service None "p" (Some (run "uptime" [] CapObserve)) CapDiagnose (Some wasm)).
  vm_compute. discriminate.
Defined.
