(* ===== verification/ApprovalService.v ===== *)
(** * The approval service
    (src/internal/controlplane/core/approvalpolicy/service.go)

    The service talks to the queue, the fleet and the template store through
    interfaces; here each is a type class.  [approvalQueue] also states what
    the service relies on, so that its theorems are proved for any queue that
    keeps the promise; the queue of ApprovalQueue.v discharges it.  The queue hands
    out its request objects: [Decide] returns the object, and the service reads its
    decision after the lock is released, when other callers may have changed it.  The
    states the queue goes through in that window are an argument of the sequential
    operations, and [service_run] interleaves the two halves.  The calls
    the service makes to its hooks and to the dispatcher are a trace of events,
    and what those calls answer is an argument. *)
From S2P Require Import Prelude GoStrings GoErrors GoTime GoSort Protocol PolicyTemplates ApprovalQueue CapacityPolicy.
Local Open Scope go_scope.
Local Open Scope Z_scope.

Notation approval_request := (Request CommandPolicyRationale).

(** ** Interfaces *)

(** How a request object may change: its votes only grow, its quorum stays, and once
    it is decided neither its decision nor its votes change. *)
Definition request_evolves (r r' : approval_request) : Prop :=
  RequireSecondApprover r' = RequireSecondApprover r ∧ ProbeID r' = ProbeID r ∧ Command r' = Command r ∧
  (length (Approvals r) <= length (Approvals r'))%nat ∧
  (decision r ≠ DecisionPending → decision r' = decision r ∧ Approvals r' = Approvals r).
Definition votes_needed (r : approval_request) : nat := if RequireSecondApprover r then 2 else 1.

(** What the service needs of the approval queue: operations, the object under an id,
    an invariant, a relation for everything other callers do meanwhile, and the
    promises: objects evolve as above and ids are not used again, a successful decision
    is a vote more or a denial of a pending request, and nobody votes past the quorum. *)
Class approvalQueue (Q : Type) := {
  aq_Submit : time → time → string → Q → string → option CommandPayload → string → string → string → string →
              option CommandPolicyRationale → SubmissionOptions → result approval_request * Q;
  aq_Decide : time → time → Q → string → ApprovalDecision → string → result approval_request * Q;
  aq_object : Q → string → option approval_request;
  aq_other : Q → Q → Prop;
  aq_inv : Q → Prop;
  aq_known : Q → string → Prop;
  aq_other_inv q q' : aq_other q q' → aq_inv q → aq_inv q';
  aq_decide_other nc n q id d by_ res q' : aq_Decide nc n q id d by_ = (res, q') → aq_other q q';
  aq_object_known q id r : aq_inv q → aq_object q id = Some r → aq_known q id;
  aq_known_other q q' id : aq_other q q' → aq_known q id → aq_known q' id;
  aq_evolves q q' id r' : aq_other q q' → aq_known q id → aq_object q' id = Some r' → ∃ r, aq_object q id = Some r ∧ request_evolves r r';
  aq_decided nc n q id d by_ r q' : aq_Decide nc n q id d by_ = (inr r, q') →
    ∃ r0, aq_object q id = Some r0 ∧ decision r0 = DecisionPending ∧ aq_object q' id = Some r ∧
      (length (Approvals r) = S (length (Approvals r0)) ∨ decision r ∉ [DecisionPending; DecisionApproved]);
  aq_quorum q id r : aq_inv q → aq_object q id = Some r → (length (Approvals r) <= votes_needed r)%nat;
}.

Class fleetStore (F : Type) := {
  fl_Get : F → string → bool;
  fl_SetPolicy : F → string → CapabilityLevel → option go_error * F;
}.

Class policyStore (P : Type) := { ps_Get : P → string → option Template }.
#[export] Instance policyStore_Store : policyStore Store := {| ps_Get := PolicyTemplates.Get |}.

(** ** Submitting a command *)

Record SubmitCommandApprovalResult := {
  sr_Request : option approval_request;
  sr_Decision : CommandPolicyDecision;
}.

Record ApprovalDecisionResult := { dr_Request : approval_request; dr_RequiresDispatch : bool }.

Definition DecisionHookStageDecisionRecorded : string := "decision_recorded".
Definition DecisionHookStageDispatchComplete : string := "dispatch_complete".

(** A call that leaves the service: a decision hook or the dispatcher.  The
    approval id is that of the request being decided. *)
Inductive service_event :=
  | EvDecisionRecorded (id : string)
  | EvDispatch (id probeID : string) (cmd : CommandPayload)
  | EvApprovedDispatch (id : string).

Section service.
Context {Q : Type} `{!approvalQueue Q}.
Implicit Types (q : Q) (s : Service).

Definition requireSecondApprover s (d : CommandPolicyDecision) : bool :=
  twoPersonMode s && (3 <=? d_RiskTier d) && cpp_RequireSecondApprover (d_Policy d).

(** The result is returned together with the error when the queue refuses. *)
Definition SubmitCommandApprovalWithContext s (reply : option (result (option CapacitySignals))) (now_evict now : time) (uuid : string) q
    (probeID : string) (cmd : option CommandPayload) (probeLevel : CapabilityLevel) (reason requester : string)
    : SubmitCommandApprovalResult * option go_error * Q :=
  let d := EvaluateCommandPolicyForProbe s reply probeID cmd probeLevel in
  if d_Outcome d <>s CommandPolicyDecisionQueue
  then ({| sr_Request := None; sr_Decision := d |}, None, q)
  else match aq_Submit now_evict now uuid q probeID cmd reason (d_RiskLevel d) requester (d_Outcome d)
               (Some (d_Rationale d)) {| so_RequireSecondApprover := requireSecondApprover s d |} with
  | (inl err, q') => ({| sr_Request := None; sr_Decision := d |}, Some err, q')
  | (inr req, q') => ({| sr_Request := Some req; sr_Decision := d |}, None, q')
  end.

(** The three results of [SubmitCommandApproval]: the request, whether the
    command needs approval, the error. *)
Definition SubmitCommandApproval s reply now_evict now uuid q probeID cmd probeLevel reason requester
    : option approval_request * bool * option go_error * Q :=
  let '(result, err, q') :=
    SubmitCommandApprovalWithContext s reply now_evict now uuid q probeID cmd probeLevel reason requester in
  let needs := d_Outcome (sr_Decision result) =s CommandPolicyDecisionQueue in
  match err with
  | Some e => (None, needs, Some e, q')
  | None => (sr_Request result, needs, None, q')
  end.

(** ** Deciding *)

(** The object [r] of the request [id], after the queue went through the states [window]. *)
Definition last_seen (id : string) (r : approval_request) (window : list Q) : approval_request :=
  foldl (λ r q, default r (aq_object q id)) r window.

(** The reply, from the object as it is when its fields are read. *)
Definition decision_result (req : approval_request) : ApprovalDecisionResult :=
  {| dr_Request := req;
     dr_RequiresDispatch := (decision req =s DecisionApproved) && match Command req with Some _ => true | None => false end |}.

(** [window]: the states that other callers bring the queue to after [Decide] has
    released its lock and before [req.Decision] is read. *)
Definition DecideApproval (window : list Q) (now_check now : time) q (id : string) (d : ApprovalDecision) (decidedBy : string)
    : result ApprovalDecisionResult * Q :=
  match aq_Decide now_check now q id d decidedBy with
  | (inl err, q') => (inl err, q')
  | (inr req, q') => (inr (decision_result (last_seen id req window)), List.last window q')
  end.

(** The hooks and the dispatcher, by what they answer; a nil callback is
    [None]. *)
Record callbacks := {
  on_recorded : ApprovalDecisionResult → option go_error;
  on_dispatched : ApprovalDecisionResult → option go_error;
  dispatcher : option (string → CommandPayload → option go_error);
}.

(** [DispatchApprovedCommand], with the event of the call it makes. *)
Definition DispatchApprovedCommand (id : string) (r : ApprovalDecisionResult)
    (dispatch : option (string → CommandPayload → option go_error)) : option go_error * list service_event :=
  match dr_RequiresDispatch r, dispatch, Command (dr_Request r) with
  | true, Some send, Some cmd => (send (ProbeID (dr_Request r)) cmd, [EvDispatch id (ProbeID (dr_Request r)) cmd])
  | _, _, _ => (None, [])
  end.

(** [DecideAndDispatch] once the decision is recorded and read. *)
Definition finish_decision (cb : callbacks) (id : string) (result : ApprovalDecisionResult) : option go_error * list service_event :=
  let tr := [EvDecisionRecorded id] in
  match on_recorded cb result with
  | Some err => (Some (DecisionHookError DecisionHookStageDecisionRecorded (Some err)), tr)
  | None =>
      let dispatchAttempted := dr_RequiresDispatch result && match dispatcher cb with Some _ => true | None => false end in
      let '(derr, dtr) := DispatchApprovedCommand id result (dispatcher cb) in
      let tr := tr ++ dtr in
      match derr with
      | Some err => (Some (ApprovedDispatchError (Some err)), tr)
      | None =>
          if dispatchAttempted then
            match on_dispatched cb result with
            | Some err => (Some (DecisionHookError DecisionHookStageDispatchComplete (Some err)), tr ++ [EvApprovedDispatch id])
            | None => (None, tr ++ [EvApprovedDispatch id])
            end
          else (None, tr)
      end
  end.

Definition DecideAndDispatch (cb : callbacks) (window : list Q) (now_check now : time) q (id : string) (d : ApprovalDecision)
    (decidedBy : string) : option ApprovalDecisionResult * option go_error * Q * list service_event :=
  match DecideApproval window now_check now q id d decidedBy with
  | (inl err, q') => (None, Some err, q', [])
  | (inr result, q') => let '(err, tr) := finish_decision cb id result in (Some result, err, q', tr)
  end.
End service.

(** ** Applying a policy template *)

Record PolicyApplyResult := { pa_Template : Template; pa_Pushed : bool }.

Definition rememberAppliedPolicy (s : Service) (probeID : string) (tpl : Template) : Service :=
  if probeID =s "" then s
  else
    {| capacityThresholds := capacityThresholds s; twoPersonMode := twoPersonMode s;
       appliedPolicy := <[probeID :=
         {| apc_PolicyID := tpl_ID tpl;
            apc_Options :=
              {| opt_ExecutionClassRequired := tpl_ExecutionClassRequired tpl; opt_SandboxRequired := tpl_SandboxRequired tpl;
                 opt_ApprovalMode := tpl_ApprovalMode tpl; opt_RequireSecondApprover := tpl_RequireSecondApprover tpl;
                 opt_RequireSecondApproverSet := false; opt_Breakglass := tpl_Breakglass tpl;
                 opt_MaxRuntimeSec := tpl_MaxRuntimeSec tpl; opt_AllowedScopes := nil_if_empty (tpl_AllowedScopes tpl);
                 opt_RuntimeClass := ""; opt_CPUMillis := 0; opt_MemoryMiB := 0; opt_AllowedCapabilities := None |} |}]>
         (appliedPolicy s) |}.

Section apply.
Context {F P : Type} `{!fleetStore F} `{!policyStore P}.

(** [push] answers the error of the push callback, [None] when it is nil. *)
Definition ApplyPolicyTemplate (s : Service) (fl : F) (ps : P) (probeID policyID : string)
    (push : option (string → PolicyUpdatePayload → option go_error)) : result PolicyApplyResult * Service * F :=
  if negb (fl_Get fl probeID) then (inl (Sentinel ErrProbeNotFound), s, fl)
  else match ps_Get ps policyID with
  | None => (inl (Sentinel ErrPolicyTemplateNotFound), s, fl)
  | Some tpl =>
      let fl' := (fl_SetPolicy fl probeID (tpl_Level tpl)).2 in
      let s' := rememberAppliedPolicy s probeID tpl in
      let pushed := match push with
                    | None => true
                    | Some f => match f probeID (ToPolicy tpl) with Some _ => false | None => true end
                    end in
      (inr {| pa_Template := tpl; pa_Pushed := pushed |}, s', fl')
  end.
End apply.

(** ** The queue of ApprovalQueue.v keeps the promise *)

Section queue_instance.
Notation St := (sys CommandPolicyRationale).

Definition with_queue (s : St) (q : Queue CommandPolicyRationale) : St :=
  {| sys_queue := q; sys_issued := sys_issued s |}.

Definition sys_Submit now_evict now uuid (s : St) probeID cmd reason risk requester pdec prat opts : result approval_request * St :=
  let '(res, q) := SubmitWithPolicyDetailsAndOptions now_evict now uuid (sys_queue s) probeID cmd reason risk requester pdec prat opts in
  (res, {| sys_queue := q; sys_issued := {[uuid]} ∪ sys_issued s |}).

Definition sys_Decide now_check now (s : St) id d by_ : result approval_request * St :=
  let '(res, q) := Decide now_check now (sys_queue s) id d by_ in (res, with_queue s q).

Definition sys_object (s : St) (id : string) : option approval_request := requests (sys_queue s) !! id.
Definition sys_known (s : St) (id : string) : Prop := id ∈ sys_issued s.

Lemma sys_Decide_step nc n s id d by_ res s' : sys_Decide nc n s id d by_ = (res, s') → queue_step s s'.
Proof.
  unfold sys_Decide. destruct (Decide _ _ _ _ _ _) as [res0 q0] eqn:E. intros [= <- <-]. by eapply step_decide.
Qed.

#[export] Instance request_evolves_refl : Reflexive request_evolves.
Proof. intros r. by split_and!. Qed.
Lemma request_evolves_trans r1 r2 r3 : request_evolves r1 r2 → request_evolves r2 r3 → request_evolves r1 r3.
Proof.
  intros (S1 & P1 & C1 & A1 & D1) (S2 & P2 & C2 & A2 & D2). split_and!; [congruence..|lia|].
  intros Hd. destruct (D1 Hd) as [E1 E2]. rewrite <- E1 in Hd. destruct (D2 Hd). split; congruence.
Qed.
Lemma expire_evolves now r : request_evolves r (expire_request now r).
Proof.
  unfold expire_request. destruct (String.eqb_spec (decision r) DecisionPending) as [E|]; cbn [andb]; [|reflexivity].
  case_match; [|reflexivity]. by split_and!.
Qed.
Lemma edge_evolves now by_ r r' : decision r = DecisionPending → decide_edge now by_ r r' → request_evolves r r'.
Proof. intros E []; (split_and!; [done..| |by rewrite E]; cbn; rewrite ?length_app; cbn; lia). Qed.

Lemma sys_evolves s s' id r' :
  queue_step s s' → sys_known s id → sys_object s' id = Some r' → ∃ r, sys_object s id = Some r ∧ request_evolves r r'.
Proof.
  unfold sys_known, sys_object. intros Hs Hk. destruct Hs as [ne ???????????? Hfresh H|id' w|????? ?? H|now]; cbn [sys_queue sys_issued].
  - unfold SubmitWithPolicyDetailsAndOptions in H. case_match; simplify_eq; cbn [set_requests requests].
    + intros (r & Hr & -> & _)%lookup_evict. eauto using expire_evolves.
    + rewrite lookup_insert_ne by (intros ->; contradiction). intros (r & Hr & -> & _)%lookup_evict. eauto using expire_evolves.
  - intros (r & Hr & [->|[w' ->]])%tag_lookup; exists r; (split; [done|]); [reflexivity|by split_and!].
  - apply Decide_inv in H as [[-> _]|(req & req' & Hq & Hp & _ & He & -> & _)]; [intros Hr; by exists r'|].
    cbn [set_requests requests]. rewrite lookup_insert_Some. intros [[<- <-]|[_ Hr]]; [|by exists r'].
    exists req. split; [done|by eapply edge_evolves].
  - intros (r & Hr & -> & _)%lookup_evict. eauto using expire_evolves.
Qed.

Lemma sys_decided nc n s id d by_ r s' : sys_Decide nc n s id d by_ = (inr r, s') →
  ∃ r0, sys_object s id = Some r0 ∧ decision r0 = DecisionPending ∧ sys_object s' id = Some r ∧
    (length (Approvals r) = S (length (Approvals r0)) ∨ decision r ∉ [DecisionPending; DecisionApproved]).
Proof.
  unfold sys_Decide. destruct (Decide _ _ _ _ _ _) as [res q0] eqn:E. intros [= -> <-].
  apply Decide_inv in E as [[_ [e ?]]|(req & req' & Hq & Hp & _ & He & -> & [Hr|[_ [e ?]]])]; try done. simplify_eq.
  exists req. split_and!; [done|done|unfold sys_object; cbn; by rewrite lookup_insert_eq|].
  destruct He; [right|right|left; cbn; rewrite length_app; cbn; lia|left; cbn; rewrite length_app; cbn; lia].
  all: cbn; set_solver.
Qed.

Lemma sys_known_step s s' id : queue_step s s' → sys_known s id → sys_known s' id.
Proof. unfold sys_known. destruct 1; cbn; set_solver. Qed.
Lemma sys_quorum s id r : sys_inv s → sys_object s id = Some r → (length (Approvals r) <= votes_needed r)%nat.
Proof.
  intros [Hr _ _] E. destruct (Hr id r E) as [_ Hi]. pose proof (quorum_eq r Hi) as Hk. destruct Hi as [_ _ _ Hst]. unfold votes_needed.
  destruct Hst as [[_ Hl]|[_ Hl]]; destruct (RequireSecondApprover r); lia.
Qed.

#[export] Instance approvalQueue_sys : approvalQueue St := {|
  aq_Submit := sys_Submit; aq_Decide := sys_Decide; aq_object := sys_object; aq_other := queue_step; aq_inv := sys_inv; aq_known := sys_known;
  aq_other_inv := queue_step_inv;
  aq_decide_other := sys_Decide_step;
  aq_object_known s id r Hi E := si_issued s Hi id (ex_intro _ r E);
  aq_known_other := sys_known_step;
  aq_evolves := sys_evolves;
  aq_decided := sys_decided;
  aq_quorum := sys_quorum |}.
End queue_instance.

(** ** Theorems *)

Definition is_dispatch (id : string) (e : service_event) : bool :=
  match e with EvDispatch id' _ _ => id =s id' | _ => false end.

Section dispatches.
Context {Q : Type} `{!approvalQueue Q}.

(** The queue, every request object at its last value (an object that left the queue
    keeps it), and the calls of [DecideAndDispatch] that have recorded their decision
    and not yet read the object back. *)
Record service_world := {
  sw_queue : Q;
  sw_objects : string → option approval_request;
  sw_held : list (string * callbacks);
}.
Definition at_rest (q : Q) : service_world := {| sw_queue := q; sw_objects := aq_object q; sw_held := [] |}.
Definition move_queue (w : service_world) (q : Q) : service_world :=
  {| sw_queue := q; sw_objects := λ id, match aq_object q id with Some r => Some r | None => sw_objects w id end; sw_held := sw_held w |}.
Definition with_held (w : service_world) (l : list (string * callbacks)) : service_world :=
  {| sw_queue := sw_queue w; sw_objects := sw_objects w; sw_held := l |}.

(** A run of the service: calls with whatever hooks, dispatchers and clocks record
    their decision, read the object back and act on it, in any interleaving with one
    another and with everything else the callers of the queue do. *)
Inductive service_step (w : service_world) : list service_event → service_world → Prop :=
  | s_other q' : aq_other (sw_queue w) q' → service_step w [] (move_queue w q')
  | s_record cb nc n id d by_ r q' :
      aq_Decide nc n (sw_queue w) id d by_ = (inr r, q') → service_step w [] (with_held (move_queue w q') (sw_held w ++ [(id, cb)]))
  | s_finish l1 id cb l2 r :
      sw_held w = l1 ++ (id, cb) :: l2 → sw_objects w id = Some r →
      service_step w (finish_decision cb id (decision_result r)).2 (with_held w (l1 ++ l2)).
Inductive service_run : service_world → list service_event → service_world → Prop :=
  | run_nil w : service_run w [] w
  | run_step w tr w' tr' w'' : service_run w tr w' → service_step w' tr' w'' → service_run w (tr ++ tr') w''.

Definition dispatches (id : string) (tr : list service_event) : nat := length (List.filter (is_dispatch id) tr).
Definition held_for (id : string) (w : service_world) : nat := length (List.filter (λ h, h.1 =s id) (sw_held w)).

(** What holds of the object of an id, [n] dispatches into the run. *)
Definition accounted (n held : nat) (o : option approval_request) : Prop :=
  match o with
  | None => n = 0%nat ∧ held = 0%nat
  | Some r =>
      (length (Approvals r) <= votes_needed r)%nat ∧ (decision r ≠ DecisionApproved → n = 0%nat) ∧
      (decision r ∈ [DecisionPending; DecisionApproved] → (n + held <= length (Approvals r))%nat)
  end.
Record world_inv (w : service_world) (tr : list service_event) : Prop := {
  wi_queue : aq_inv (sw_queue w);
  wi_objects id r : aq_object (sw_queue w) id = Some r → sw_objects w id = Some r;
  wi_known id r : sw_objects w id = Some r → aq_known (sw_queue w) id;
  wi_account id : accounted (dispatches id tr) (held_for id w) (sw_objects w id);
}.

Lemma accounted_evolves n held r r' :
  request_evolves r r' → (length (Approvals r') <= votes_needed r')%nat → accounted n held (Some r) → accounted n held (Some r').
Proof.
  intros (_ & _ & _ & Hl & Hd) Hq (_ & Hz & Ha). split_and!; [done| |].
  - intros Hne. destruct (decide (decision r = DecisionPending)) as [E|E]; [apply Hz; by rewrite E|].
    apply Hz. destruct (Hd E) as [<- _]. done.
  - intros Hin. destruct (decide (decision r = DecisionPending)) as [E|E]; [etrans; [apply Ha; rewrite E; set_solver|done]|].
    destruct (Hd E) as [E1 E2]. rewrite E2. apply Ha. by rewrite <- E1.
Qed.
Lemma move_inv w tr q' : aq_other (sw_queue w) q' → world_inv w tr → world_inv (move_queue w q') tr.
Proof.
  intros Ho [Hi Hob Hk Ha]. pose proof (aq_other_inv _ _ Ho Hi) as Hi'. split; cbn [move_queue sw_queue sw_objects]; [done| | |].
  - by intros id r ->.
  - intros id r. destruct (aq_object q' id) as [r'|] eqn:E; [intros _; by eapply aq_object_known|].
    intros Hr. eapply aq_known_other; [done|]. by eapply Hk.
  - intros id. change (held_for id (move_queue w q')) with (held_for id w). specialize (Ha id). destruct (aq_object q' id) as [r'|] eqn:E; [|done].
    pose proof (aq_quorum _ _ _ Hi' E) as Hq. destruct (sw_objects w id) as [r|] eqn:Eo.
    + destruct (aq_evolves _ _ _ _ Ho (Hk _ _ Eo) E) as (r0 & E0 & Hev). apply Hob in E0. simplify_eq. by eapply accounted_evolves.
    + destruct Ha as [-> ->]. split_and!; [done|done|lia].
Qed.

Lemma finish_dispatches cb id id' r :
  dispatches id (finish_decision cb id' (decision_result r)).2 = 0%nat ∨
  dispatches id (finish_decision cb id' (decision_result r)).2 = 1%nat ∧ id = id' ∧ decision r = DecisionApproved.
Proof.
  unfold finish_decision, DispatchApprovedCommand, decision_result, dispatches. cbn [dr_RequiresDispatch dr_Request].
  destruct (on_recorded _ _); [by left|]. destruct (String.eqb_spec (decision r) DecisionApproved) as [E|]; [|by left]. cbn [andb].
  destruct (Command r) as [cmd|]; [|by left]. destruct (dispatcher cb) as [send|]; [|by left]. cbn [andb].
  destruct (String.eqb_spec id id') as [->|Hne]; [right|left].
  - split; [|done]. destruct (send _ _); [|destruct (on_dispatched _ _)]; cbn; by rewrite String.eqb_refl.
  - apply String.eqb_neq in Hne. destruct (send _ _); [|destruct (on_dispatched _ _)]; cbn; by rewrite Hne.
Qed.

Lemma turn_inv w tr w' tr' : service_step w tr' w' → world_inv w tr → world_inv w' (tr ++ tr').
Proof.
  intros Hs Hw. assert (Hd : ∀ id, dispatches id (tr ++ tr') = (dispatches id tr + dispatches id tr')%nat) by (intros id; unfold dispatches; by rewrite List.filter_app, length_app).
  destruct Hs as [q' Ho|cb nc n id d by_ r q' E|l1 id cb l2 r Hh Hr].
  - rewrite app_nil_r. by apply move_inv.
  - rewrite app_nil_r. pose proof (move_inv w tr q' (aq_decide_other _ _ _ _ _ _ _ _ E) Hw) as [Hi Hob Hk Ha]. split; [done..|]. intros id'.
    specialize (Ha id'). unfold held_for in *. cbn in *. rewrite List.filter_app, length_app. cbn.
    destruct (String.eqb_spec id id') as [<-|Hne]; [|by rewrite Nat.add_0_r]. destruct (aq_decided _ _ _ _ _ _ _ _ E) as (r0 & E0 & Hp & E1 & Hv).
    rewrite E1 in *. destruct Hw as [_ Hob0 _ Ha0]. specialize (Ha0 id). rewrite (Hob0 _ _ E0) in Ha0. destruct Ha0 as (_ & Hz & Hlen), Ha as (Hq & Hz' & _).
    split_and!; [done|done|]. intros Hin. destruct Hv as [->|Hv]; [|done]. rewrite Hp in Hlen. specialize (Hlen ltac:(set_solver)). unfold held_for in Hlen. cbn. lia.
  - destruct Hw as [Hi Hob Hk Ha]. split; [done..|]. intros id'. rewrite Hd. specialize (Ha id'). unfold held_for in *. cbn. rewrite Hh in Ha.
    rewrite List.filter_app, length_app in *. cbn in Ha. destruct (finish_dispatches cb id' id r) as [->|(-> & -> & Hap)].
    + rewrite Nat.add_0_r. destruct (id =s id'); [|done]. cbn in Ha. destruct (sw_objects w id') as [r'|]; [|destruct Ha; split; [done|lia]].
      destruct Ha as (Hq & Hz & Hl). split_and!; [done|done|]. intros Hin%Hl. lia.
    + rewrite String.eqb_refl in Ha. cbn in Ha. rewrite Hr in *. destruct Ha as (Hq & Hz & Hl). split_and!; [done|done|]. intros Hin%Hl. lia.
Qed.
Lemma run_inv w tr w' : service_run w tr w' → world_inv w [] → world_inv w' tr.
Proof. induction 1 as [|w tr w' tr' w'' _ IH Hs]; intros Hw; [done|]. by eapply turn_inv, IH. Qed.
Lemma at_rest_inv q : aq_inv q → world_inv (at_rest q) [].
Proof.
  intros Hi. split; cbn; [done|done|by intros id r; apply aq_object_known|]. intros id. destruct (aq_object q id) as [r|] eqn:E; [|done].
  split_and!; [by eapply aq_quorum|done|]. unfold held_for. cbn. lia.
Qed.

(** The decision behind a call to [DecideAndDispatch], and its trace. *)
Lemma DecideAndDispatch_inv cb window nc n q id d by_ res err q' tr :
  DecideAndDispatch cb window nc n q id d by_ = (res, err, q', tr) →
  (∃ e, aq_Decide nc n q id d by_ = (inl e, q') ∧ res = None ∧ err = Some e ∧ tr = []) ∨
  ∃ r0 q0 r, aq_Decide nc n q id d by_ = (inr r0, q0) ∧ q' = List.last window q0 ∧ r = last_seen id r0 window ∧ option_map dr_Request res = Some r ∧
    ((∃ e, tr = [EvDecisionRecorded id] ∧ err = Some (DecisionHookError DecisionHookStageDecisionRecorded (Some e))) ∨
     (tr = [EvDecisionRecorded id] ∧ err = None ∧
        (decision r ≠ DecisionApproved ∨ Command r = None ∨ dispatcher cb = None)) ∨
     ∃ cmd send, decision r = DecisionApproved ∧ Command r = Some cmd ∧ dispatcher cb = Some send ∧
       ((∃ e, send (ProbeID r) cmd = Some e ∧ tr = [EvDecisionRecorded id; EvDispatch id (ProbeID r) cmd] ∧
              err = Some (ApprovedDispatchError (Some e))) ∨
        (send (ProbeID r) cmd = None ∧
         tr = [EvDecisionRecorded id; EvDispatch id (ProbeID r) cmd; EvApprovedDispatch id] ∧
         (err = None ∨ ∃ e, err = Some (DecisionHookError DecisionHookStageDispatchComplete (Some e)))))).
Proof.
  unfold DecideAndDispatch, DecideApproval.
  destruct (aq_Decide nc n q id d by_) as [[e|r0] q0]; [intros ?; simplify_eq; eauto 10|].
  set (r := last_seen id r0 window). unfold finish_decision, DispatchApprovedCommand. cbn [dr_Request dr_RequiresDispatch decision_result].
  intros E. right. exists r0, q0, r. split; [done|]. revert E.
  destruct (on_recorded cb _) as [e|]; [intros [= <- <- <- <-]; split_and!; eauto 12|].
  destruct (String.eqb_spec (decision r) DecisionApproved) as [Ha|Ha]; cbn [andb]; [|intros [= <- <- <- <-]; split_and!; eauto 12].
  destruct (Command r) as [cmd|] eqn:Hc; cbn [andb]; [|intros [= <- <- <- <-]; split_and!; eauto 12].
  destruct (dispatcher cb) as [send|] eqn:Hd; [|intros [= <- <- <- <-]; split_and!; eauto 12].
  destruct (send (ProbeID r) cmd) as [e|] eqn:He; [|destruct (on_dispatched cb _) as [e|]];
    intros [= <- <- <- <-]; split_and!; try done; right; right; exists cmd, send; eauto 12.
Qed.
End dispatches.

(** C8. In every interleaving of the service over the approval queue, whatever the
    approvers, the submissions, evictions and decisions of others, and whatever the
    hooks and the dispatcher answer, an approved command is handed to the dispatcher
    at most as many times as its request needs approvers: once when one approver is
    enough, twice at most under the two-person rule, where two voters can indeed both
    dispatch ([two_voters_dispatch_twice]): the request is a shared object, read after
    the lock of the decision is released. *)
Theorem dispatches_within_quorum ttl maxSize s tr w id :
  rtc queue_step (sys_init ttl maxSize) s → service_run (Q := sys CommandPolicyRationale) (at_rest s) tr w →
  (dispatches id tr <= 2)%nat ∧ ∀ r, sw_objects w id = Some r → (dispatches id tr <= if RequireSecondApprover r then 2 else 1)%nat.
Proof.
  intros Hr Hrun. pose proof (queue_reachable_inv ttl maxSize s Hr : aq_inv s) as Hi. destruct (run_inv _ _ _ Hrun (at_rest_inv s Hi)) as [_ _ _ Ha]. specialize (Ha id).
  assert (Hb : ∀ r, sw_objects w id = Some r → (dispatches id tr <= votes_needed r)%nat).
  { intros r E. rewrite E in Ha. destruct Ha as (Hq & Hz & Hl). destruct (decide (decision r = DecisionApproved)) as [Ed|Ed]; [|rewrite Hz by done; lia].
    rewrite Ed in Hl. specialize (Hl ltac:(set_solver)). lia. }
  split; [|exact Hb]. destruct (sw_objects w id) as [r|]; [|destruct Ha as [-> _]; lia]. specialize (Hb r eq_refl). unfold votes_needed in Hb. destruct (RequireSecondApprover r); lia.
Qed.

(** The states of a window are reached one after another. *)
Fixpoint linked {Q} `{!approvalQueue Q} (q : Q) (window : list Q) : Prop :=
  match window with [] => True | q' :: window => rtc aq_other q q' ∧ linked q' window end.

(** The object read back is one the queue held, at the decision or in the window. *)
Lemma last_seen_from window id (q st : sys CommandPolicyRationale) r :
  linked q window → sys_object st id = Some r →
  ∃ st', (st' = st ∨ st' ∈ window ∧ rtc queue_step q st') ∧ sys_object st' id = Some (last_seen id r window).
Proof.
  revert q st r. induction window as [|q1 window IH]; intros q st r; [intros _ E; exists st; auto|]. intros [Hs Hl] E. cbn [last_seen foldl].
  destruct (aq_object q1 id) as [r1|] eqn:E1; cbn [default].
  - destruct (IH q1 q1 r1 Hl E1) as (st' & [->|[Hin Hst]] & E'); [exists q1|exists st']; (split; [|done]); right; [split; [by left|done]|].
    split; [by right|by etrans].
  - destruct (IH q1 st r Hl E) as (st' & [->|[Hin Hst]] & E'); [exists st; auto|]. exists st'. split; [|done]. right. split; [by right|by etrans].
Qed.
Lemma last_seen_held window id (q : sys CommandPolicyRationale) r :
  sys_object q id = Some r → linked q window → ∃ st, st ∈ q :: window ∧ rtc queue_step q st ∧ sys_object st id = Some (last_seen id r window).
Proof.
  intros E Hl. destruct (last_seen_from window id q q r Hl E) as (st & [->|[Hin Hst]] & E'); [exists q|exists st]; (split_and!; [|done|done]); [by left|by right].
Qed.
Lemma approved_quorum (s : sys CommandPolicyRationale) id r :
  sys_inv s → sys_object s id = Some r → decision r = DecisionApproved →
  length (Approvals r) = (if RequireSecondApprover r then 2 else 1)%nat ∧ NoDup (voters r).
Proof.
  intros [Hreq _ _] E Ha. destruct (Hreq id r E) as [_ Hri]. pose proof (quorum_eq r Hri) as Hk. destruct Hri as [_ _ Hnd Hst]. split; [|done].
  rewrite Ha in Hst. destruct Hst as [[_ Hst]|[Hst _]]; [destruct (RequireSecondApprover r); lia|]. by destruct Hst as [?|[?|?]].
Qed.
Lemma Decide_approved_by nc n (s : sys CommandPolicyRationale) id d by_ r s' :
  sys_Decide nc n s id d by_ = (inr r, s') → decision r = DecisionApproved → DecidedBy r = TrimSpace by_.
Proof.
  unfold sys_Decide. destruct (Decide nc n (sys_queue s) id d by_) as [res0 q0] eqn:E. intros [= -> _] Ha.
  apply Decide_inv in E as [[_ [e ?]]|(req & req' & Hq & Hpend & _ & Hedge & _ & [Hres|[_ [e ?]]])]; try done. simplify_eq.
  by destruct Hedge; cbn in *; try congruence.
Qed.

(** C3. Nothing is dispatched without approval: whenever deciding a request
    makes the service call the dispatcher, the queue held that request as
    approved, when the decision was recorded or at a moment before its object
    was read back; the command and the probe are the request's own,
    and as many distinct approvers have signed it as its policy requires.  When
    nobody else uses the queue before the object is read back, the queue still
    holds it, approved by this decision. *)
Theorem dispatch_needs_quorum ttl maxSize s cb window nc n id d by_ res err s' tr probe cmd :
  rtc queue_step (sys_init ttl maxSize) s →
  linked (sys_Decide nc n s id d by_).2 window →
  DecideAndDispatch (Q := sys CommandPolicyRationale) cb window nc n s id d by_ = (res, err, s', tr) →
  EvDispatch id probe cmd ∈ tr →
  ∃ st r, st ∈ (sys_Decide nc n s id d by_).2 :: window ∧ requests (sys_queue st) !! id = Some r ∧ decision r = DecisionApproved ∧
       ProbeID r = probe ∧ Command r = Some cmd ∧
       length (Approvals r) = (if RequireSecondApprover r then 2 else 1)%nat ∧ NoDup (voters r) ∧
       (window = [] → st = s' ∧ DecidedBy r = TrimSpace by_).
Proof.
  intros Hr Hl Hd Hin. pose proof (queue_reachable_inv _ _ _ Hr) as Hinv.
  apply DecideAndDispatch_inv in Hd as [(e & _ & _ & _ & ->)|(r0 & q0 & r & Hdec & -> & Er & _ & Htr)]; [set_solver|].
  assert (Hevt : ProbeID r = probe ∧ Command r = Some cmd ∧ decision r = DecisionApproved).
  { destruct Htr as [(e & -> & _)|[(-> & _)|(cmd' & send & Ha & Hc & _ & [(e & _ & -> & _)|(_ & -> & _)])]];
      repeat (apply elem_of_cons in Hin as [Hin|Hin]; [simplify_eq; auto|]); by apply not_elem_of_nil in Hin. }
  destruct Hevt as (Hp & Hc & Ha). cbn in Hdec. rewrite Hdec in *. cbn [snd] in *.
  pose proof (aq_decided _ _ _ _ _ _ _ _ Hdec) as (_ & _ & _ & E0 & _).
  assert (Hq0 : rtc queue_step (sys_init ttl maxSize) q0) by (eapply rtc_r; [done|by eapply sys_Decide_step]).
  destruct (last_seen_held window id q0 r0 E0 Hl) as (st & Hst & Hsteps & Est). rewrite <- Er in Est. exists st, r.
  destruct (approved_quorum st id r) as [Hk Hnd]; [apply (queue_reachable_inv ttl maxSize); by etrans|done|done|].
  split_and!; try done. intros ->. cbn in Er. subst r. assert (st = q0) as -> by set_solver. split; [done|]. by eapply Decide_approved_by.
Qed.

(** The side effects of a decision keep their documented order: the
    decision-recorded hook first, then the dispatch, then the dispatch hook; a
    failing step stops the sequence and its error says which step failed; an
    error of the queue itself causes no side effect at all; and success with an
    approved command and a dispatcher means that all three steps ran. *)
Theorem decide_effects_ordered {Q} `{!approvalQueue Q} cb window nc n (q : Q) id d by_ res err q' tr :
  DecideAndDispatch cb window nc n q id d by_ = (res, err, q', tr) →
  (∃ probe cmd, tr `prefix_of` [EvDecisionRecorded id; EvDispatch id probe cmd; EvApprovedDispatch id]) ∧
  (res = None → tr = []) ∧
  (∀ e, err = Some (ApprovedDispatchError (Some e)) → res ≠ None → length tr = 2%nat) ∧
  (err = None → ∃ r, res = Some r ∧ EvDecisionRecorded id ∈ tr ∧
     (dr_RequiresDispatch r = true → dispatcher cb ≠ None → length tr = 3%nat)).
Proof.
  intros H. pose proof (DecideAndDispatch_inv _ _ _ _ _ _ _ _ _ _ _ _ H) as Hinv.
  assert (Hreq : ∀ r, res = Some r → dr_RequiresDispatch r = true →
    decision (dr_Request r) = DecisionApproved ∧ Command (dr_Request r) ≠ None).
  { unfold DecideAndDispatch, DecideApproval in H. intros r ->. destruct (aq_Decide _ _ _ _ _ _) as [[e|r0] q0]; [done|].
    destruct (finish_decision _ _ _) as [err0 tr0]. injection H as <- _ _ _. cbn. intros [Ha%String.eqb_eq Hc]%andb_prop. split; [done|]. intros E. by rewrite E in Hc. }
  destruct Hinv as [(e & _ & -> & -> & ->)|(r0 & q0 & r & _ & _ & _ & Hr & Htr)].
  { split_and!; try done. exists "", empty_command. by exists [EvDecisionRecorded id; EvDispatch id "" empty_command; EvApprovedDispatch id]. }
  destruct res as [res|]; simplify_eq/=. specialize (Hreq res eq_refl).
  destruct Htr as [(e & -> & ->)|[(-> & -> & Hno)|(cmd & send & Ha & Hc & Hdisp & [(e & _ & -> & ->)|(_ & -> & Herr)])]].
  - split_and!; try done. exists "", empty_command. by exists [EvDispatch id "" empty_command; EvApprovedDispatch id].
  - split_and!; try done; [exists "", empty_command; by exists [EvDispatch id "" empty_command; EvApprovedDispatch id]|].
    intros _. exists res. split_and!; [done|set_solver|]. intros Hrd Hcb. destruct (Hreq Hrd). naive_solver.
  - split_and!; try done. exists (ProbeID (dr_Request res)), cmd. by exists [EvApprovedDispatch id].
  - split_and!; [by eexists _, _|done| |]. { intros e He. destruct Herr as [->|[e' ->]]; done. }
    intros _. exists res. split_and!; [done|set_solver|done].
Qed.

(** Submitting a command queues it exactly when policy says queue.  On
    allow and deny there is no request, no error and the queue is untouched; on
    queue, either the queue is full and its error is returned with the decision,
    or the fresh pending request carries the probe, the command, the risk level
    and the rationale of the decision, and needs a second approver exactly when
    two-person mode is on, the risk tier is at least 3 and the policy asks for it. *)
Theorem submit_follows_policy s reply now_evict now uuid (st : sys CommandPolicyRationale) probeID cmd level reason requester res err st' :
  SubmitCommandApprovalWithContext s reply now_evict now uuid st probeID cmd level reason requester = (res, err, st') →
  let d := EvaluateCommandPolicyForProbe s reply probeID cmd level in
  sr_Decision res = d ∧
  (d_Outcome d ≠ CommandPolicyDecisionQueue → sr_Request res = None ∧ err = None ∧ st' = st) ∧
  (d_Outcome d = CommandPolicyDecisionQueue →
     let q := evictExpiredLocked now_evict (sys_queue st) in
     (maxSize q <= Z.of_nat (size (requests q)) ∧ sr_Request res = None ∧ sys_queue st' = q ∧
      err = Some (queue_full_error (Z.of_nat (size (requests q))) (maxSize q))) ∨
     (Z.of_nat (size (requests q)) < maxSize q ∧ err = None ∧
      ∃ r, sr_Request res = Some r ∧ requests (sys_queue st') !! uuid = Some r ∧ decision r = DecisionPending ∧
        ProbeID r = probeID ∧ Command r = cmd ∧ RiskLevel r = d_RiskLevel d ∧
        PolicyRationale r = Some (d_Rationale d) ∧ Approvals r = [] ∧ ExpiresAt r = now + ttl q ∧
        RequiredApprovals r = (if twoPersonMode s && (3 <=? d_RiskTier d) && cpp_RequireSecondApprover (d_Policy d)
                               then 2 else 1))).
Proof.
  unfold SubmitCommandApprovalWithContext. intros H. cbv zeta. revert H.
  generalize (EvaluateCommandPolicyForProbe s reply probeID cmd level). intros d.
  destruct (String.eqb_spec (d_Outcome d) CommandPolicyDecisionQueue) as [Hq|Hq]; simpl;
    [|intros ?; simplify_eq; simpl; split_and!; intros; done].
  unfold sys_Submit, SubmitWithPolicyDetailsAndOptions. cbv zeta.
  destruct (Z.leb_spec (maxSize (evictExpiredLocked now_evict (sys_queue st)))
              (Z.of_nat (size (requests (evictExpiredLocked now_evict (sys_queue st))))));
    intros ?; simplify_eq; simpl; split_and!; try done; intros _; [left|right]; [done|].
  split_and!; [done..|]. eexists. split; [done|]. rewrite lookup_insert_eq. by split_and!.
Qed.

(** Applying a template takes effect: from then on the policy profile of
    that probe is the template's (its id, lane, sandbox and approval settings
    and breakglass), and the profile of every other probe is unchanged; this
    holds even when pushing the policy to the probe fails. *)
Theorem applied_policy_takes_effect {F P} `{!fleetStore F} `{!policyStore P} s (fl : F) (ps : P) probeID policyID push res s' fl' level :
  ApplyPolicyTemplate s fl ps probeID policyID push = (inr res, s', fl') → probeID ≠ "" →
  TrimSpace (tpl_ExecutionClassRequired (pa_Template res)) ≠ "" → TrimSpace (tpl_ApprovalMode (pa_Template res)) ≠ "" →
  ps_Get ps policyID = Some (pa_Template res) ∧
  resolvePolicyProfile s' probeID level None =
    {| cpp_PolicyID := TrimSpace (tpl_ID (pa_Template res));
       cpp_ExecutionClassRequired := TrimSpace (tpl_ExecutionClassRequired (pa_Template res));
       cpp_SandboxRequired := tpl_SandboxRequired (pa_Template res);
       cpp_ApprovalMode := TrimSpace (tpl_ApprovalMode (pa_Template res));
       cpp_RequireSecondApprover := tpl_RequireSecondApprover (pa_Template res);
       cpp_Breakglass := tpl_Breakglass (pa_Template res) |} ∧
  ∀ other level', other ≠ probeID → resolvePolicyProfile s' other level' None = resolvePolicyProfile s other level' None.
Proof.
  unfold ApplyPolicyTemplate. intros H Hp Hc Hm. destruct (fl_Get fl probeID); simpl in H; [|done].
  destruct (ps_Get ps policyID) as [tpl|] eqn:Ht; simplify_eq/=.
  unfold rememberAppliedPolicy. rewrite (proj2 (String.eqb_neq _ _) Hp). split_and!; [done| |].
  - unfold resolvePolicyProfile, appliedPolicyForProbe. rewrite (proj2 (String.eqb_neq _ _) Hp). simpl.
    rewrite lookup_insert_eq. simpl. by rewrite (proj2 (String.eqb_neq _ _) Hc), (proj2 (String.eqb_neq _ _) Hm).
  - intros other level' Hne. unfold resolvePolicyProfile, appliedPolicyForProbe. simpl.
    by rewrite lookup_insert_ne.
Qed.

(** ** Witnesses *)

Lemma quad_eta {A B C D} (p : A * B * C * D) : p = (p.1.1.1, p.1.1.2, p.1.2, p.2).
Proof. by destruct p as [[[]]]. Qed.

Module ServiceExamples.
Definition cmd : CommandPayload :=
  {| cmd_RequestID := "r-1"; cmd_Command := "systemctl"; cmd_Args := ["restart"; "nginx"];
     cmd_Timeout := 0; cmd_Level := CapRemediate; cmd_Stream := false |}.
Definition second : CommandPolicyProfile :=
  {| cpp_PolicyID := "p"; cpp_ExecutionClassRequired := ExecRemediateSandbox; cpp_SandboxRequired := true;
     cpp_ApprovalMode := ApprovalMutationGate; cpp_RequireSecondApprover := true; cpp_Breakglass := no_breakglass |}.
Definition cb : callbacks :=
  {| on_recorded := λ _, None; on_dispatched := λ _, None; dispatcher := Some (λ _ _, None) |}.
Definition service : Service :=
  {| capacityThresholds := DefaultCapacityThresholds; twoPersonMode := true; appliedPolicy := ∅ |}.

Definition start : sys CommandPolicyRationale := sys_init (900 * Second) 10.
Definition submitted : sys CommandPolicyRationale := 
  {| sys_queue := (SubmitWithPolicyDetailsAndOptions 0 0 "u-1" (sys_queue start) "p-1" (Some cmd) "" "high" "ops" "queue" None no_options).2;
     sys_issued := {["u-1"]} ∪ ∅ |}.
Definition decided := DecideAndDispatch (Q := sys CommandPolicyRationale) cb [] 1 1 submitted "u-1" DecisionApproved "alice".
(** A request that needs two approvers, and the states after each has voted. *)
Definition pair_submitted : sys CommandPolicyRationale :=
  {| sys_queue := (SubmitWithPolicyDetailsAndOptions 0 0 "u-1" (sys_queue start) "p-1" (Some cmd) "" "high" "ops" "queue" None {| so_RequireSecondApprover := true |}).2;
     sys_issued := {["u-1"]} ∪ ∅ |}.
Definition first_vote : sys CommandPolicyRationale := (sys_Decide 1 1 pair_submitted "u-1" DecisionApproved "alice").2.
Definition second_vote : sys CommandPolicyRationale := (sys_Decide 2 2 first_vote "u-1" DecisionApproved "bob").2.
Lemma service_submitted_reachable : rtc queue_step (sys_init (900 * Second) 10) submitted.
Proof. eapply rtc_once, step_submit; [set_solver|apply surjective_pairing]. Qed.
Lemma pair_submitted_reachable : rtc queue_step (sys_init (900 * Second) 10) pair_submitted.
Proof. eapply rtc_once, step_submit; [set_solver|apply surjective_pairing]. Qed.

(** Both voters record their vote before either reads the request back. *)
Definition both_voted : service_world (Q := sys CommandPolicyRationale) :=
  with_held (move_queue (with_held (move_queue (at_rest pair_submitted) first_vote) [("u-1"%string, cb)]) second_vote) [("u-1"%string, cb); ("u-1"%string, cb)].
Definition dispatched_twice : list service_event :=
  [EvDecisionRecorded "u-1"; EvDispatch "u-1" "p-1" cmd; EvApprovedDispatch "u-1"; EvDecisionRecorded "u-1"; EvDispatch "u-1" "p-1" cmd; EvApprovedDispatch "u-1"].
Lemma both_dispatch : service_run (at_rest pair_submitted) dispatched_twice (with_held both_voted []).
Proof.
  assert (E : ∃ r, sw_objects both_voted "u-1" = Some r ∧ (finish_decision cb "u-1" (decision_result r)).2 = take 3 dispatched_twice).
  { destruct (sw_objects both_voted "u-1") as [r|] eqn:E; [|vm_compute in E; discriminate]. exists r. split; [done|].
    revert E. vm_compute. intros [= <-]. done. }
  destruct E as (r & Er & Ef). change dispatched_twice with ((([] ++ []) ++ []) ++ take 3 dispatched_twice ++ take 3 dispatched_twice).
  rewrite (app_assoc _ (take 3 dispatched_twice)). rewrite <- Ef at 2. eapply (run_step _ _ (with_held both_voted [("u-1"%string, cb)])).
  - rewrite <- Ef. eapply run_step; [|eapply (s_finish both_voted [] "u-1" cb [("u-1"%string, cb)] r); [done|exact Er]].
    eapply run_step; [eapply run_step; [apply run_nil|]|].
    + exact (s_record (at_rest pair_submitted) cb 1 1 "u-1" DecisionApproved "alice" _ first_vote (surjective_pairing _)).
    + exact (s_record (with_held (move_queue (at_rest pair_submitted) first_vote) [("u-1"%string, cb)]) cb 2 2 "u-1" DecisionApproved "bob" _ second_vote (surjective_pairing _)).
  - eapply (s_finish (with_held both_voted [("u-1"%string, cb)]) [] "u-1" cb [] r); [done|exact Er].
Qed.

(** A fleet of one probe. *)
#[export] Instance one_probe : fleetStore (list string) :=
  {| fl_Get := λ l id, existsb (String.eqb id) l; fl_SetPolicy := λ l _ _, (None, l) |}.
Definition applied := ApplyPolicyTemplate service ["p-1"] (NewStore 0) "p-1" "full-remediate" None.
End ServiceExamples.
Import ServiceExamples.

(** A command that two people approve at the same moment is dispatched twice: both
    record their vote, and both then read the request as approved. *)
Theorem two_voters_dispatch_twice :
  rtc queue_step (sys_init (900 * Second) 10) pair_submitted ∧
  service_run (at_rest pair_submitted) dispatched_twice (with_held both_voted []) ∧ dispatches "u-1" dispatched_twice = 2%nat.
Proof. split; [exact pair_submitted_reachable|]. split; [exact both_dispatch|reflexivity]. Qed.

Lemma dispatches_within_quorum_witness : (dispatches "u-1" dispatched_twice <= 2)%nat.
Proof. exact (proj1 (dispatches_within_quorum (900 * Second) 10 pair_submitted _ _ "u-1" pair_submitted_reachable both_dispatch)). Defined.

Lemma dispatch_needs_quorum_witness : ∃ (st : sys CommandPolicyRationale) r, requests (sys_queue st) !! "u-1" = Some r ∧ decision r = DecisionApproved ∧ DecidedBy r = "alice"%string.
Proof.
  destruct (dispatch_needs_quorum (900 * Second) 10 submitted cb [] 1 1 "u-1" DecisionApproved "alice" decided.1.1.1 decided.1.1.2
    decided.1.2 decided.2 "p-1" ServiceExamples.cmd service_submitted_reachable I (quad_eta decided)) as (st & r & _ & H1 & H2 & _ & _ & _ & _ & H3).
  - vm_compute. right. left.
  - exists st, r. exact (conj H1 (conj H2 (proj2 (H3 eq_refl)))).
Defined.

Lemma decide_effects_ordered_witness : length decided.2 = 3%nat.
Proof.
  destruct (decide_effects_ordered cb [] 1 1 submitted "u-1" DecisionApproved "alice" decided.1.1.1 decided.1.1.2
    decided.1.2 decided.2 (quad_eta decided)) as (_ & _ & _ & H).
  destruct H as (r & Hr & _ & H); [vm_compute; reflexivity|]. apply H.
  - apply (f_equal (option_map dr_RequiresDispatch)) in Hr. vm_compute in Hr. injection Hr as Hr. exact (eq_sym Hr).
  - discriminate.
Defined.

Lemma submit_follows_policy_witness :
  let out := SubmitCommandApprovalWithContext service None 0 0 "u-1" start "p-1" (Some ServiceExamples.cmd) CapRemediate "" "ops" in
  sr_Decision out.1.1 = EvaluateCommandPolicyForProbe service None "p-1" (Some ServiceExamples.cmd) CapRemediate.
Proof.
  cbv zeta.
  exact (proj1 (submit_follows_policy service None 0 0 "u-1" start "p-1" (Some ServiceExamples.cmd) CapRemediate "" "ops"
    _ _ _ (eq_trans (surjective_pairing _) (f_equal (λ p, (p, _)) (surjective_pairing _))))).
Defined.

Lemma applied_policy_takes_effect_witness :
  cpp_SandboxRequired (resolvePolicyProfile applied.1.2 "p-1" CapObserve None) = true.
Proof.
  destruct (applied_policy_takes_effect (F := list string) (P := Store) service ["p-1"] (NewStore 0) "p-1" "full-remediate" None
    {| pa_Template := builtin_remediate 0; pa_Pushed := true |} applied.1.2 applied.2 CapObserve) as (_ & H & _).
  - vm_compute. reflexivity.
  - discriminate.
  - vm_compute. discriminate.
  - vm_compute. discriminate.
  - rewrite H. reflexivity.
Defined.
