(* ===== verification/ApprovalContract.v ===== *)
(** * The transport side of approval decisions
    (src/internal/controlplane/core/approvalpolicy/contract.go, orchestrator.go,
    renderer.go, invoke_adapter.go, render_target_registry.go,
    response_envelope_codec.go, response_dispatch_adapter.go and
    src/internal/controlplane/core/transportwriter/, projectiondispatch/)

    A request body is what [json.Decoder.Decode] makes of it: [None] when it
    fails, else the two strings of the payload.  A callback of a writer is
    present or nil; calling it appends what it was given to a list. *)
From S2P Require Import Prelude GoStrings GoErrors GoTime Protocol ApprovalQueue CapacityPolicy ApprovalService.
Local Open Scope go_scope.
Local Open Scope Z_scope.

Definition StatusBadRequest : Z := 400.
Definition StatusInternalServerError : Z := 500.
Definition StatusBadGateway : Z := 502.
Definition StatusGatewayTimeout : Z := 504.

(** ** The shared writer kernel (transportwriter) *)

Notation Surface := string (only parsing).
Definition SurfaceHTTP : Surface := "http".
Definition SurfaceMCP : Surface := "mcp".

Record HTTPError := { he_Status : Z; he_Code : string; he_Message : string; he_SuppressWrite : bool }.

(** [A] is the type of the success payload. *)
Record ResponseEnvelope {A : Type} := {
  env_HTTPError : option HTTPError;
  env_MCPError : option go_error;
  env_HTTPSuccess : option A;
  env_MCPSuccess : option A;
}.
Arguments ResponseEnvelope : clear implicits.

(** Which callbacks of a kernel are set. *)
Record WriterKernel := {
  k_HTTPError : bool;
  k_MCPError : bool;
  k_HTTPSuccess : bool;
  k_MCPSuccess : bool;
}.

Inductive written {A : Type} :=
  | WroteHTTPError (e : HTTPError)
  | WroteMCPError (e : go_error)
  | WroteHTTPSuccess (p : option A)
  | WroteMCPSuccess (p : option A).
Arguments written : clear implicits.

(** The calls made, and whether an error path was handled. *)
Definition WriteForSurface {A} (surface : Surface) (envelope : option (ResponseEnvelope A)) (k : WriterKernel)
    : list (written A) * bool :=
  match envelope with
  | None => ([], false)
  | Some e =>
      if surface =s SurfaceHTTP then
        match env_HTTPError e with
        | Some err => (if negb (he_SuppressWrite err) && k_HTTPError k then [WroteHTTPError err] else [], true)
        | None => (if k_HTTPSuccess k then [WroteHTTPSuccess (env_HTTPSuccess e)] else [], false)
        end
      else if surface =s SurfaceMCP then
        match env_MCPError e with
        | Some err => (if k_MCPError k then [WroteMCPError err] else [], true)
        | None => (if k_MCPSuccess k then [WroteMCPSuccess (env_MCPSuccess e)] else [], false)
        end
      else ([], false)
  end.

Definition UnsupportedSurfaceMessage (scope surface : string) : string :=
  ("unsupported " +:+ scope +:+ " surface " +:+ Quote surface)%string.

Definition UnsupportedSurfaceEnvelope {A} (message : string) : ResponseEnvelope A :=
  {| env_HTTPError := Some {| he_Status := StatusInternalServerError; he_Code := "internal_error"; he_Message := message;
                              he_SuppressWrite := false |};
     env_MCPError := Some (ErrorString message); env_HTTPSuccess := None; env_MCPSuccess := None |}.

(** HTTP first, then MCP. *)
Definition WriteUnsupportedSurfaceFallback {A} (envelope : option (ResponseEnvelope A)) (http mcp : bool) : list (written A) * bool :=
  match envelope with
  | None => ([], false)
  | Some e =>
      match env_HTTPError e, http, env_MCPError e, mcp with
      | Some err, true, _, _ => ([WroteHTTPError err], true)
      | _, _, Some err, true => ([WroteMCPError err], true)
      | _, _, _, _ => ([], false)
      end
  end.

(** The identity registry over the HTTP and MCP surfaces. *)
Definition NewHTTPMCPIdentitySurfaceRegistry (http mcp : Surface) : gmap string string := <[mcp := mcp]> (<[http := http]> ∅).
Definition Resolve (registry : gmap string string) (surface : Surface) : option string := registry !! surface.

(** ** The decide contract (contract.go) *)

Record HTTPErrorContract := { hc_Status : Z; hc_Code : string; hc_Message : string }.
Record DecideApprovalRequest := { dar_Decision : ApprovalDecision; dar_DecidedBy : string }.
Record DecideApprovalSuccess := { das_Status : string; das_Request : option approval_request }.
Record DecideApprovalTransportContract := {
  tc_Request : option DecideApprovalRequest;
  tc_Success : option DecideApprovalSuccess;
  tc_Err : option HTTPErrorContract;
}.
Definition empty_success : DecideApprovalSuccess := {| das_Status := ""; das_Request := None |}.

Definition error_contract (status : Z) (code message : string) : DecideApprovalTransportContract :=
  {| tc_Request := None; tc_Success := None; tc_Err := Some {| hc_Status := status; hc_Code := code; hc_Message := message |} |}.

Notation body := (option (string * string)) (only parsing).

Definition DecodeDecideApprovalTransport (b : body) : DecideApprovalTransportContract :=
  match b with
  | None => error_contract StatusBadRequest "invalid_request" "invalid request body"
  | Some (d, by_) =>
      if (d =s "") || (by_ =s "")
      then error_contract StatusBadRequest "invalid_request" "decision and decided_by are required"
      else {| tc_Request := Some {| dar_Decision := d; dar_DecidedBy := by_ |}; tc_Success := None; tc_Err := None |}
  end.

Definition decideApprovalHTTPError (err : option go_error) : option HTTPErrorContract :=
  match err with
  | None => None
  | Some e =>
      match errors_As_dispatch e, errors_As_hook e with
      | Some de, _ => Some {| hc_Status := StatusBadGateway; hc_Code := "bad_gateway";
                              hc_Message := ("approved but dispatch failed: " +:+ Error de)%string |}
      | None, Some he => Some {| hc_Status := StatusInternalServerError; hc_Code := "internal_error"; hc_Message := Error he |}
      | None, None => Some {| hc_Status := StatusBadRequest; hc_Code := "invalid_request"; hc_Message := Error e |}
      end
  end.

Definition EncodeDecideApprovalTransport (result : option ApprovalDecisionResult) (err : option go_error)
    : DecideApprovalTransportContract :=
  match decideApprovalHTTPError err with
  | Some he => {| tc_Request := None; tc_Success := None; tc_Err := Some he |}
  | None =>
      {| tc_Request := None;
         tc_Success := Some match result with
                            | Some r => {| das_Status := decision (dr_Request r); das_Request := Some (dr_Request r) |}
                            | None => empty_success
                            end;
         tc_Err := None |}
  end.

Notation decider := (option (DecideApprovalRequest → option ApprovalDecisionResult * option go_error)) (only parsing).

Definition AdaptDecideApprovalTransport (b : body) (decide : decider) : DecideApprovalTransportContract :=
  let decoded := DecodeDecideApprovalTransport b in
  match tc_Err decoded, tc_Request decoded, decide with
  | Some _, _, _ => decoded
  | None, None, _ => error_contract StatusInternalServerError "internal_error" "approval decide adapter returned empty request"
  | None, Some _, None => error_contract StatusInternalServerError "internal_error" "approval decide adapter is missing core handler"
  | None, Some req, Some f => let '(result, err) := f req in EncodeDecideApprovalTransport result err
  end.

(** ** Projection and rendering (renderer.go, orchestrator.go) *)

Record DecideApprovalProjection := { pr_Success : option DecideApprovalSuccess; pr_Err : option HTTPErrorContract }.

Definition error_projection (message : string) : DecideApprovalProjection :=
  {| pr_Success := None;
     pr_Err := Some {| hc_Status := StatusInternalServerError; hc_Code := "internal_error"; hc_Message := message |} |}.

Definition ProjectDecideApprovalTransport (contract : option DecideApprovalTransportContract) : DecideApprovalProjection :=
  match contract with
  | None => error_projection "approval decide adapter returned empty contract"
  | Some c =>
      match tc_Err c with
      | Some he => {| pr_Success := None; pr_Err := Some he |}
      | None => {| pr_Success := Some (default empty_success (tc_Success c)); pr_Err := None |}
      end
  end.

Definition MCPError (p : DecideApprovalProjection) : option go_error :=
  match pr_Err p with Some he => Some (ErrorString (hc_Message he)) | None => None end.

Definition SelectDecideApprovalProjection (c : DecideApprovalTransportContract) (target : string) : DecideApprovalProjection :=
  if (target =s "") || (target =s "http") || (target =s "mcp") then ProjectDecideApprovalTransport (Some c)
  else error_projection ("unsupported approval decide render target " +:+ Quote target)%string.

Definition OrchestrateDecideApproval (b : body) (decide : decider) (target : string) : DecideApprovalProjection :=
  SelectDecideApprovalProjection (AdaptDecideApprovalTransport b decide) target.

(** ** Surfaces (render_target_registry.go, invoke_adapter.go) *)

Definition defaultDecideApprovalRenderSurfaceRegistry : gmap string string := NewHTTPMCPIdentitySurfaceRegistry "http" "mcp".

Definition OrchestrateDecideApprovalForSurface (b : body) (decide : decider) (surface : string) : DecideApprovalProjection :=
  match Resolve defaultDecideApprovalRenderSurfaceRegistry surface with
  | None => SelectDecideApprovalProjection {| tc_Request := None; tc_Success := None; tc_Err := None |} surface
  | Some target => OrchestrateDecideApproval b decide target
  end.

(** A nil body reader is [None]. *)
Record DecideApprovalInvokeInput := { ii_ApprovalID : string; ii_Body : option body }.

Definition AssembleDecideApprovalInvokeHTTP (approvalID : string) (b : option body) : DecideApprovalInvokeInput :=
  {| ii_ApprovalID := approvalID; ii_Body := b |}.

(** The body is the JSON of the two strings, so decoding it gives them back. *)
Definition AssembleDecideApprovalInvokeMCP (approvalID decision decidedBy : string) : result DecideApprovalInvokeInput :=
  let id := TrimSpace approvalID in
  if id =s "" then inl (ErrorString "approval_id is required")
  else inr {| ii_ApprovalID := id; ii_Body := Some (Some (decision, decidedBy)) |}.

Definition InvokeDecideApproval (input : option DecideApprovalInvokeInput)
    (invoke : option (string → DecideApprovalRequest → option ApprovalDecisionResult * option go_error)) (surface : string)
    : DecideApprovalProjection :=
  match input with
  | None => error_projection "approval decide invoke adapter returned empty input"
  | Some i =>
      match ii_Body i, invoke with
      | None, _ => error_projection "approval decide invoke adapter returned empty body"
      | Some _, None => error_projection "approval decide invoke adapter is missing shell invoke handler"
      | Some b, Some f => OrchestrateDecideApprovalForSurface b (Some (f (ii_ApprovalID i))) surface
      end
  end.

(** ** Response envelopes (response_envelope_codec.go, response_dispatch_adapter.go) *)

Definition unsupportedDecideApprovalSurfaceEnvelope (surface : string) : ResponseEnvelope DecideApprovalSuccess :=
  UnsupportedSurfaceEnvelope (UnsupportedSurfaceMessage "approval decide dispatch" surface).

Definition BuildResponseEnvelope (projection : option DecideApprovalProjection) (surface : Surface)
    : ResponseEnvelope DecideApprovalSuccess :=
  let p := default (ProjectDecideApprovalTransport None) projection in
  if surface =s SurfaceHTTP then
    match pr_Err p with
    | Some he => {| env_HTTPError := Some {| he_Status := hc_Status he; he_Code := hc_Code he; he_Message := hc_Message he;
                                             he_SuppressWrite := false |};
                    env_MCPError := None; env_HTTPSuccess := None; env_MCPSuccess := None |}
    | None => {| env_HTTPError := None; env_MCPError := None;
                 env_HTTPSuccess := Some (default empty_success (pr_Success p)); env_MCPSuccess := None |}
    end
  else if surface =s SurfaceMCP then
    match MCPError p with
    | Some e => {| env_HTTPError := None; env_MCPError := Some e; env_HTTPSuccess := None; env_MCPSuccess := None |}
    | None => {| env_HTTPError := None; env_MCPError := None; env_HTTPSuccess := None;
                 env_MCPSuccess := Some (default empty_success (pr_Success p)) |}
    end
  else unsupportedDecideApprovalSurfaceEnvelope surface.

(** The callbacks of the surface shell. *)
Record DecideApprovalResponseDispatchWriter := { w_Success : bool; w_HTTPError : bool; w_MCPError : bool }.

Definition newDecideApprovalWriterKernel (w : DecideApprovalResponseDispatchWriter) : WriterKernel :=
  {| k_HTTPError := w_HTTPError w; k_MCPError := w_MCPError w; k_HTTPSuccess := w_Success w; k_MCPSuccess := w_Success w |}.

Definition DispatchDecideApprovalResponseForSurface (projection : option DecideApprovalProjection) (surface : string)
    (w : DecideApprovalResponseDispatchWriter) : list (written DecideApprovalSuccess) :=
  match Resolve defaultDecideApprovalRenderSurfaceRegistry surface with
  | None =>
      (WriteUnsupportedSurfaceFallback (Some (unsupportedDecideApprovalSurfaceEnvelope surface)) (w_HTTPError w) (w_MCPError w)).1
  | Some _ =>
      (WriteForSurface surface (Some (BuildResponseEnvelope projection surface)) (newDecideApprovalWriterKernel w)).1
  end.

(** ** Theorems *)

(** The HTTP handler: the decision runs on the queue with the approval id of
    the route, whatever comes back is encoded. *)
Definition decide_over_http (cb : callbacks) (window : list (sys CommandPolicyRationale)) (now_check now : time) (s : sys CommandPolicyRationale) (id : string) (b : body)
    : DecideApprovalProjection * sys CommandPolicyRationale * list service_event :=
  match tc_Request (DecodeDecideApprovalTransport b) with
  | None => (InvokeDecideApproval (Some (AssembleDecideApprovalInvokeHTTP id (Some b))) (Some (λ _ _, (None, None))) "http", s, [])
  | Some req =>
      let '(res, err, s', tr) := DecideAndDispatch cb window now_check now s id (dar_Decision req) (dar_DecidedBy req) in
      (InvokeDecideApproval (Some (AssembleDecideApprovalInvokeHTTP id (Some b))) (Some (λ _ _, (res, err))) "http", s', tr)
  end.

(** The errors of the queue are plain. *)
Lemma queue_error_plain nc n (q : Queue CommandPolicyRationale) id d by_ e q' :
  Decide nc n q id d by_ = (inl e, q') → errors_As_dispatch e = None ∧ errors_As_hook e = None.
Proof. unfold Decide. intros H. repeat (case_match; simplify_eq/=; try done). Qed.

Definition status_of (p : DecideApprovalProjection) : Z := match pr_Err p with Some e => hc_Status e | None => 200 end.

(** What the status of the decide endpoint tells the client, provided the
    hooks do not themselves return a dispatch error: 400 means that the decision
    was refused and nothing was recorded or dispatched, 500 that a hook failed,
    502 exactly that the decision was recorded and the dispatch failed, and 200
    that every step of the decision succeeded, with the request's status as it was
    read back. *)
Theorem decide_http_status cb window nc n s id b p s' tr :
  (∀ r e, on_recorded cb r = Some e → errors_As_dispatch e = None) →
  (∀ r e, on_dispatched cb r = Some e → errors_As_dispatch e = None) →
  decide_over_http cb window nc n s id b = (p, s', tr) →
  (status_of p = 200 ∨ status_of p = 400 ∨ status_of p = 500 ∨ status_of p = 502) ∧
  (status_of p = 400 ↔ tr = []) ∧
  (status_of p = 502 ↔ ∃ probe cmd, tr = [EvDecisionRecorded id; EvDispatch id probe cmd]) ∧
  (status_of p = 200 → ∃ req r, pr_Success p = Some {| das_Status := decision r; das_Request := Some r |} ∧
     tc_Request (DecodeDecideApprovalTransport b) = Some req ∧
     ∃ r0 s0, sys_Decide nc n s id (dar_Decision req) (dar_DecidedBy req) = (inr r0, s0) ∧ r = last_seen id r0 window ∧ s' = List.last window s0).
Proof.
  intros Hrec Hdis. unfold decide_over_http, InvokeDecideApproval; simpl.
  unfold OrchestrateDecideApprovalForSurface. replace (Resolve _ "http") with (Some "http") by done.
  unfold OrchestrateDecideApproval, SelectDecideApprovalProjection; simpl. unfold AdaptDecideApprovalTransport.
  destruct b as [[d by_]|]; simpl; [|intros ?; simplify_eq; simpl; unfold status_of; simpl; naive_solver].
  destruct ((d =s "") || (by_ =s "")); simpl; [intros ?; simplify_eq; simpl; unfold status_of; simpl; naive_solver|].
  destruct (DecideAndDispatch cb window nc n s id d by_) as [[[res err] s0] tr0] eqn:E. intros ?; simplify_eq.
  assert (Hhook : ∀ st e, err = Some (DecisionHookError st (Some e)) → res ≠ None → errors_As_dispatch e = None).
  { revert E. unfold DecideAndDispatch, finish_decision, DispatchApprovedCommand. intros E st e -> Hne. repeat (case_match; simplify_eq/=); eauto. }
  pose proof (DecideAndDispatch_inv _ _ _ _ _ _ _ _ _ _ _ _ E) as Hinv.
  destruct Hinv as [(e & Hdec & -> & -> & ->)|(r0 & s1 & r & Hdec & -> & -> & Hr & Htr)].
  - simpl in Hdec. unfold sys_Decide in Hdec. destruct (Decide nc n (sys_queue s) id d by_) as [re q0] eqn:Ed.
    simplify_eq. apply queue_error_plain in Ed as [Hd Hh]. unfold EncodeDecideApprovalTransport, decideApprovalHTTPError.
    rewrite Hd, Hh. unfold status_of; simpl. naive_solver.
  - destruct res as [res|]; simplify_eq/=. specialize (λ st e H, Hhook st e H ltac:(done)).
    destruct Htr as [(e & -> & ->)|[(-> & -> & _)|(cmd & send & _ & _ & _ & [(e & _ & -> & ->)|(_ & -> & [->|[e ->]])])]].
    + specialize (Hhook _ e eq_refl). unfold EncodeDecideApprovalTransport, decideApprovalHTTPError; simpl.
      rewrite Hhook. unfold status_of; simpl. naive_solver.
    + unfold status_of; simpl. split_and!; naive_solver.
    + unfold EncodeDecideApprovalTransport, decideApprovalHTTPError, status_of; simpl. split_and!; naive_solver.
    + unfold status_of; simpl. split_and!; naive_solver.
    + specialize (Hhook _ e eq_refl). unfold EncodeDecideApprovalTransport, decideApprovalHTTPError; simpl.
      rewrite Hhook. unfold status_of; simpl. naive_solver.
Qed.

(** The two surfaces say the same: for every projection, the MCP shell is
    told an error exactly when the HTTP shell is, with the same text, and
    otherwise both get the same success payload; each writes exactly once; an
    unknown surface writes one error and never a success. *)
Theorem surfaces_agree projection surface w :
  w = {| w_Success := true; w_HTTPError := true; w_MCPError := true |} →
  match DispatchDecideApprovalResponseForSurface projection "http" w, DispatchDecideApprovalResponseForSurface projection "mcp" w with
  | [WroteHTTPError he], [WroteMCPError me] => Error me = he_Message he
  | [WroteHTTPSuccess p], [WroteMCPSuccess p'] => p = p' ∧ p ≠ None
  | _, _ => False
  end ∧
  (surface ≠ "http" → surface ≠ "mcp" →
   DispatchDecideApprovalResponseForSurface projection surface w =
     [WroteHTTPError {| he_Status := 500; he_Code := "internal_error";
                        he_Message := UnsupportedSurfaceMessage "approval decide dispatch" surface; he_SuppressWrite := false |}]).
Proof.
  intros ->. split.
  - unfold DispatchDecideApprovalResponseForSurface. replace (Resolve _ "http") with (Some "http") by done.
    replace (Resolve _ "mcp") with (Some "mcp") by done. unfold BuildResponseEnvelope, MCPError; simpl.
    by destruct (pr_Err _).
  - intros H1 H2. unfold DispatchDecideApprovalResponseForSurface.
    replace (Resolve _ surface) with (@None string); [done|].
    unfold Resolve, defaultDecideApprovalRenderSurfaceRegistry, NewHTTPMCPIdentitySurfaceRegistry.
    by rewrite !lookup_insert_ne, lookup_empty.
Qed.

(** ** Witnesses *)

Lemma decide_http_status_witness :
  status_of (decide_over_http ServiceExamples.cb [] 1 1 ServiceExamples.submitted "u-1" (Some (DecisionApproved, "alice"))).1.1 = 200.
Proof.
  destruct (decide_http_status ServiceExamples.cb [] 1 1 ServiceExamples.submitted "u-1" (Some (DecisionApproved, "alice"))
    _ _ _ ltac:(discriminate) ltac:(discriminate) (eq_trans (surjective_pairing _) (f_equal (λ p, (p, _)) (surjective_pairing _))))
    as ([H|[H|[H|H]]] & _); [exact H|exfalso..]; vm_compute in H; discriminate H.
Defined.

Lemma surfaces_agree_witness :
  DispatchDecideApprovalResponseForSurface None "bogus" {| w_Success := true; w_HTTPError := true; w_MCPError := true |} ≠ [].
Proof. rewrite (proj2 (surfaces_agree None "bogus" _ eq_refl)); discriminate. Defined.
