(* ===== verification/AsyncTypes.v ===== *)
(** * Async jobs: data and lifecycle
    (src/internal/controlplane/jobs/async_types.go) *)
From S2P Require Import Prelude GoStrings GoErrors GoTime.
Local Open Scope go_scope.
Local Open Scope Z_scope.

Notation AsyncJobState := string (only parsing).
Definition AsyncJobStateQueued : AsyncJobState := "queued".
Definition AsyncJobStateRunning : AsyncJobState := "running".
Definition AsyncJobStateWaitingApproval : AsyncJobState := "waiting_approval".
Definition AsyncJobStateSucceeded : AsyncJobState := "succeeded".
Definition AsyncJobStateFailed : AsyncJobState := "failed".
Definition AsyncJobStateExpired : AsyncJobState := "expired".
Definition AsyncJobStateCancelled : AsyncJobState := "cancelled".

Record AsyncJob := {
  j_ID : string;
  j_WorkspaceID : string;
  j_ProbeID : string;
  j_RequestID : string;
  j_Command : string;
  j_Args : list string;
  j_Level : string;
  j_State : AsyncJobState;
  j_StatusReason : string;
  j_ApprovalID : string;
  j_ExitCode : option Z;
  j_Output : string;
  j_CreatedAt : time;
  j_UpdatedAt : time;
  j_StartedAt : option time;
  j_FinishedAt : option time;
  j_ExpiresAt : option time;
  j_ApprovedBy : string;
  j_RejectedBy : string;
  j_RejectionReason : string;
  j_ApprovalDeadline : option time;
}.

Record AsyncJobTransitionOptions := {
  to_StatusReason : string;
  to_ApprovalID : string;
  to_ExitCode : option Z;
  to_Output : string;
  to_StartedAt : option time;
  to_FinishedAt : option time;
  to_ExpiresAt : option time;
  to_ApprovedBy : string;
  to_RejectedBy : string;
  to_RejectionReason : string;
  to_ApprovalDeadline : option time;
}.
(** [AsyncJobTransitionOptions{StatusReason: r, ApprovalID: a, ExitCode: c, Output: o, ExpiresAt: e}] *)
Definition transition_options (reason approvalID : string) (exit : option Z) (output : string) (expires : option time)
    : AsyncJobTransitionOptions :=
  {| to_StatusReason := reason; to_ApprovalID := approvalID; to_ExitCode := exit; to_Output := output;
     to_StartedAt := None; to_FinishedAt := None; to_ExpiresAt := expires; to_ApprovedBy := "";
     to_RejectedBy := ""; to_RejectionReason := ""; to_ApprovalDeadline := None |}.
Definition no_options : AsyncJobTransitionOptions := transition_options "" "" None "" None.

Definition IsTerminal (s : AsyncJobState) : bool :=
  (s =s AsyncJobStateSucceeded) || (s =s AsyncJobStateFailed) || (s =s AsyncJobStateExpired) || (s =s AsyncJobStateCancelled).

Definition normalizeAsyncJobState (s : AsyncJobState) : AsyncJobState := TrimSpace s.

Definition isKnownAsyncJobState (s : AsyncJobState) : bool :=
  existsb (String.eqb (normalizeAsyncJobState s))
    [ AsyncJobStateQueued; AsyncJobStateRunning; AsyncJobStateWaitingApproval; AsyncJobStateSucceeded;
      AsyncJobStateFailed; AsyncJobStateExpired; AsyncJobStateCancelled ].

Definition canTransitionAsyncJob (from to : AsyncJobState) : bool :=
  let from := normalizeAsyncJobState from in
  let to := normalizeAsyncJobState to in
  if from =s to then true
  else if negb (isKnownAsyncJobState from) || negb (isKnownAsyncJobState to) then false
  else if from =s AsyncJobStateQueued then
    (to =s AsyncJobStateRunning) || (to =s AsyncJobStateWaitingApproval) || (to =s AsyncJobStateCancelled) ||
    (to =s AsyncJobStateExpired) || (to =s AsyncJobStateFailed)
  else if from =s AsyncJobStateWaitingApproval then
    (to =s AsyncJobStateRunning) || (to =s AsyncJobStateCancelled) || (to =s AsyncJobStateExpired) || (to =s AsyncJobStateFailed)
  else if from =s AsyncJobStateRunning then
    (to =s AsyncJobStateSucceeded) || (to =s AsyncJobStateFailed) || (to =s AsyncJobStateExpired) || (to =s AsyncJobStateCancelled)
  else false.

(** [IsAsyncJobConflict], [IsAsyncQueueSaturated] *)
Definition IsAsyncJobConflict (e : go_error) : bool := errors_Is e ErrAsyncJobConflict.
Definition IsAsyncQueueSaturated (e : go_error) : bool := errors_Is e ErrAsyncQueueSaturated.

(** ** The lifecycle graph *)

(** The states as they are stored: known and without surrounding space. *)
Inductive lifecycle := LQueued | LWaiting | LRunning | LSucceeded | LFailed | LExpired | LCancelled.

#[export] Instance lifecycle_eq_dec : EqDecision lifecycle.
Proof. solve_decision. Defined.

Definition state_name (l : lifecycle) : AsyncJobState :=
  match l with
  | LQueued => AsyncJobStateQueued | LWaiting => AsyncJobStateWaitingApproval | LRunning => AsyncJobStateRunning
  | LSucceeded => AsyncJobStateSucceeded | LFailed => AsyncJobStateFailed | LExpired => AsyncJobStateExpired
  | LCancelled => AsyncJobStateCancelled
  end.

Definition known (s : AsyncJobState) : Prop := ∃ l, s = state_name l.

(** How far a job has come; no transition goes back. *)
Definition progress (l : lifecycle) : nat :=
  match l with LQueued => 0 | LWaiting => 1 | LRunning => 2 | _ => 3 end.

Lemma known_normalized s : isKnownAsyncJobState s = true → known (normalizeAsyncJobState s).
Proof.
  unfold isKnownAsyncJobState. rewrite existsb_true_Exists. intros (x & Hx & <-%String.eqb_eq).
  rewrite !elem_of_cons in Hx.
  destruct Hx as [->|[->|[->|[->|[->|[->|[->|[]%not_elem_of_nil]]]]]]];
    [exists LQueued|exists LRunning|exists LWaiting|exists LSucceeded|exists LFailed|exists LExpired|exists LCancelled]; done.
Qed.

#[export] Instance known_dec s : Decision (known s).
Proof.
  destruct (isKnownAsyncJobState s && (normalizeAsyncJobState s =s s)) eqn:E.
  - left. apply andb_true_iff in E as [E Hn%String.eqb_eq]. rewrite <- Hn. by apply known_normalized.
  - right. intros [l ->]. by destruct l.
Defined.

Lemma known_isKnown s : known s → isKnownAsyncJobState s = true ∧ normalizeAsyncJobState s = s.
Proof. intros [[] ->]; split; reflexivity. Qed.

(** [canTransitionAsyncJob] between stored states: reflexive, forward, and
    nothing leaves a terminal state. *)
Lemma canTransition_spec l l' :
  canTransitionAsyncJob (state_name l) (state_name l') =
  bool_decide (l = l' ∨ (progress l < progress l' ∧ (l' = LSucceeded → l = LRunning)))%nat.
Proof. destruct l, l'; vm_compute; reflexivity. Qed.

Lemma state_name_inj l l' : state_name l = state_name l' → l = l'.
Proof. by destruct l, l'. Qed.

Lemma IsTerminal_progress l : IsTerminal (state_name l) = bool_decide (progress l = 3%nat).
Proof. by destruct l. Qed.

Lemma canTransition_refl s : canTransitionAsyncJob s s = true.
Proof. unfold canTransitionAsyncJob. cbv zeta. by rewrite String.eqb_refl. Qed.

Lemma canTransition_known s s' : known s → canTransitionAsyncJob s s' = true → s ≠ normalizeAsyncJobState s' → known (normalizeAsyncJobState s').
Proof.
  intros [l ->]. unfold canTransitionAsyncJob. cbv zeta. intros H Hne.
  destruct (known_isKnown (state_name l)) as [Hk Hn]; [by exists l|]. rewrite Hn in H.
  rewrite (proj2 (String.eqb_neq _ _) Hne), Hk in H. simpl in H.
  destruct (isKnownAsyncJobState (normalizeAsyncJobState s')) eqn:E; [|done].
  apply known_normalized in E. unfold normalizeAsyncJobState in *. by rewrite TrimSpace_idem in E.
Qed.
