(* ===== verification/AsyncStore.v ===== *)
(** * The durable store of async jobs
    (src/internal/controlplane/jobs/async_store.go and the helpers it uses in
    store.go)

    The table [async_jobs] is a list of rows.  A TEXT column that holds an
    instant is the instant, but SQL compares the texts ([text_le]).  Every SQL
    statement may fail: the errors of the driver, the clock, the UUID generator
    and the order in which the database returns rows that compare equal come
    from a [Host].  A [SELECT] scans one row or answers [sql.ErrNoRows]; an
    [UPDATE .. WHERE] rewrites the rows that match; a transaction that ends in
    an error leaves the table as it was. *)
From S2P Require Import Prelude GoStrings GoErrors GoTime GoSql AsyncTypes.
Local Open Scope go_scope.
Local Open Scope Z_scope.

(** ** SET clauses *)

Inductive set_clause :=
  | SetState (s : string)
  | SetStatusReason (s : string)
  | SetApprovalID (s : string)
  | SetExitCode (n : Z)
  | SetOutput (s : string)
  | SetUpdatedAt (t : time)
  | SetStartedAt (t : time)
  | SetFinishedAt (t : time)
  | SetExpiresAt (t : option time)
  | SetApprovedBy (s : string)
  | SetRejectedBy (s : string)
  | SetRejectionReason (s : string)
  | SetApprovalDeadline (t : time).

Definition apply_clause (j : AsyncJob) (c : set_clause) : AsyncJob :=
  match c with
  | SetState s =>
       {| j_ID := j_ID j; j_WorkspaceID := j_WorkspaceID j; j_ProbeID := j_ProbeID j; j_RequestID := j_RequestID j;
          j_Command := j_Command j; j_Args := j_Args j; j_Level := j_Level j; j_State := s;
          j_StatusReason := j_StatusReason j; j_ApprovalID := j_ApprovalID j; j_ExitCode := j_ExitCode j;
          j_Output := j_Output j; j_CreatedAt := j_CreatedAt j; j_UpdatedAt := j_UpdatedAt j;
          j_StartedAt := j_StartedAt j; j_FinishedAt := j_FinishedAt j; j_ExpiresAt := j_ExpiresAt j;
          j_ApprovedBy := j_ApprovedBy j; j_RejectedBy := j_RejectedBy j;
          j_RejectionReason := j_RejectionReason j; j_ApprovalDeadline := j_ApprovalDeadline j |}
  | SetStatusReason s =>
       {| j_ID := j_ID j; j_WorkspaceID := j_WorkspaceID j; j_ProbeID := j_ProbeID j; j_RequestID := j_RequestID j;
          j_Command := j_Command j; j_Args := j_Args j; j_Level := j_Level j; j_State := j_State j;
          j_StatusReason := s; j_ApprovalID := j_ApprovalID j; j_ExitCode := j_ExitCode j;
          j_Output := j_Output j; j_CreatedAt := j_CreatedAt j; j_UpdatedAt := j_UpdatedAt j;
          j_StartedAt := j_StartedAt j; j_FinishedAt := j_FinishedAt j; j_ExpiresAt := j_ExpiresAt j;
          j_ApprovedBy := j_ApprovedBy j; j_RejectedBy := j_RejectedBy j;
          j_RejectionReason := j_RejectionReason j; j_ApprovalDeadline := j_ApprovalDeadline j |}
  | SetApprovalID s =>
       {| j_ID := j_ID j; j_WorkspaceID := j_WorkspaceID j; j_ProbeID := j_ProbeID j; j_RequestID := j_RequestID j;
          j_Command := j_Command j; j_Args := j_Args j; j_Level := j_Level j; j_State := j_State j;
          j_StatusReason := j_StatusReason j; j_ApprovalID := s; j_ExitCode := j_ExitCode j;
          j_Output := j_Output j; j_CreatedAt := j_CreatedAt j; j_UpdatedAt := j_UpdatedAt j;
          j_StartedAt := j_StartedAt j; j_FinishedAt := j_FinishedAt j; j_ExpiresAt := j_ExpiresAt j;
          j_ApprovedBy := j_ApprovedBy j; j_RejectedBy := j_RejectedBy j;
          j_RejectionReason := j_RejectionReason j; j_ApprovalDeadline := j_ApprovalDeadline j |}
  | SetExitCode n =>
       {| j_ID := j_ID j; j_WorkspaceID := j_WorkspaceID j; j_ProbeID := j_ProbeID j; j_RequestID := j_RequestID j;
          j_Command := j_Command j; j_Args := j_Args j; j_Level := j_Level j; j_State := j_State j;
          j_StatusReason := j_StatusReason j; j_ApprovalID := j_ApprovalID j; j_ExitCode := Some n;
          j_Output := j_Output j; j_CreatedAt := j_CreatedAt j; j_UpdatedAt := j_UpdatedAt j;
          j_StartedAt := j_StartedAt j; j_FinishedAt := j_FinishedAt j; j_ExpiresAt := j_ExpiresAt j;
          j_ApprovedBy := j_ApprovedBy j; j_RejectedBy := j_RejectedBy j;
          j_RejectionReason := j_RejectionReason j; j_ApprovalDeadline := j_ApprovalDeadline j |}
  | SetOutput s =>
       {| j_ID := j_ID j; j_WorkspaceID := j_WorkspaceID j; j_ProbeID := j_ProbeID j; j_RequestID := j_RequestID j;
          j_Command := j_Command j; j_Args := j_Args j; j_Level := j_Level j; j_State := j_State j;
          j_StatusReason := j_StatusReason j; j_ApprovalID := j_ApprovalID j; j_ExitCode := j_ExitCode j;
          j_Output := s; j_CreatedAt := j_CreatedAt j; j_UpdatedAt := j_UpdatedAt j;
          j_StartedAt := j_StartedAt j; j_FinishedAt := j_FinishedAt j; j_ExpiresAt := j_ExpiresAt j;
          j_ApprovedBy := j_ApprovedBy j; j_RejectedBy := j_RejectedBy j;
          j_RejectionReason := j_RejectionReason j; j_ApprovalDeadline := j_ApprovalDeadline j |}
  | SetUpdatedAt t =>
       {| j_ID := j_ID j; j_WorkspaceID := j_WorkspaceID j; j_ProbeID := j_ProbeID j; j_RequestID := j_RequestID j;
          j_Command := j_Command j; j_Args := j_Args j; j_Level := j_Level j; j_State := j_State j;
          j_StatusReason := j_StatusReason j; j_ApprovalID := j_ApprovalID j; j_ExitCode := j_ExitCode j;
          j_Output := j_Output j; j_CreatedAt := j_CreatedAt j; j_UpdatedAt := t; j_StartedAt := j_StartedAt j;
          j_FinishedAt := j_FinishedAt j; j_ExpiresAt := j_ExpiresAt j; j_ApprovedBy := j_ApprovedBy j;
          j_RejectedBy := j_RejectedBy j; j_RejectionReason := j_RejectionReason j;
          j_ApprovalDeadline := j_ApprovalDeadline j |}
  | SetStartedAt t =>
       {| j_ID := j_ID j; j_WorkspaceID := j_WorkspaceID j; j_ProbeID := j_ProbeID j; j_RequestID := j_RequestID j;
          j_Command := j_Command j; j_Args := j_Args j; j_Level := j_Level j; j_State := j_State j;
          j_StatusReason := j_StatusReason j; j_ApprovalID := j_ApprovalID j; j_ExitCode := j_ExitCode j;
          j_Output := j_Output j; j_CreatedAt := j_CreatedAt j; j_UpdatedAt := j_UpdatedAt j;
          j_StartedAt := Some t; j_FinishedAt := j_FinishedAt j; j_ExpiresAt := j_ExpiresAt j;
          j_ApprovedBy := j_ApprovedBy j; j_RejectedBy := j_RejectedBy j;
          j_RejectionReason := j_RejectionReason j; j_ApprovalDeadline := j_ApprovalDeadline j |}
  | SetFinishedAt t =>
       {| j_ID := j_ID j; j_WorkspaceID := j_WorkspaceID j; j_ProbeID := j_ProbeID j; j_RequestID := j_RequestID j;
          j_Command := j_Command j; j_Args := j_Args j; j_Level := j_Level j; j_State := j_State j;
          j_StatusReason := j_StatusReason j; j_ApprovalID := j_ApprovalID j; j_ExitCode := j_ExitCode j;
          j_Output := j_Output j; j_CreatedAt := j_CreatedAt j; j_UpdatedAt := j_UpdatedAt j;
          j_StartedAt := j_StartedAt j; j_FinishedAt := Some t; j_ExpiresAt := j_ExpiresAt j;
          j_ApprovedBy := j_ApprovedBy j; j_RejectedBy := j_RejectedBy j;
          j_RejectionReason := j_RejectionReason j; j_ApprovalDeadline := j_ApprovalDeadline j |}
  | SetExpiresAt t =>
       {| j_ID := j_ID j; j_WorkspaceID := j_WorkspaceID j; j_ProbeID := j_ProbeID j; j_RequestID := j_RequestID j;
          j_Command := j_Command j; j_Args := j_Args j; j_Level := j_Level j; j_State := j_State j;
          j_StatusReason := j_StatusReason j; j_ApprovalID := j_ApprovalID j; j_ExitCode := j_ExitCode j;
          j_Output := j_Output j; j_CreatedAt := j_CreatedAt j; j_UpdatedAt := j_UpdatedAt j;
          j_StartedAt := j_StartedAt j; j_FinishedAt := j_FinishedAt j; j_ExpiresAt := t;
          j_ApprovedBy := j_ApprovedBy j; j_RejectedBy := j_RejectedBy j;
          j_RejectionReason := j_RejectionReason j; j_ApprovalDeadline := j_ApprovalDeadline j |}
  | SetApprovedBy s =>
       {| j_ID := j_ID j; j_WorkspaceID := j_WorkspaceID j; j_ProbeID := j_ProbeID j; j_RequestID := j_RequestID j;
          j_Command := j_Command j; j_Args := j_Args j; j_Level := j_Level j; j_State := j_State j;
          j_StatusReason := j_StatusReason j; j_ApprovalID := j_ApprovalID j; j_ExitCode := j_ExitCode j;
          j_Output := j_Output j; j_CreatedAt := j_CreatedAt j; j_UpdatedAt := j_UpdatedAt j;
          j_StartedAt := j_StartedAt j; j_FinishedAt := j_FinishedAt j; j_ExpiresAt := j_ExpiresAt j;
          j_ApprovedBy := s; j_RejectedBy := j_RejectedBy j; j_RejectionReason := j_RejectionReason j;
          j_ApprovalDeadline := j_ApprovalDeadline j |}
  | SetRejectedBy s =>
       {| j_ID := j_ID j; j_WorkspaceID := j_WorkspaceID j; j_ProbeID := j_ProbeID j; j_RequestID := j_RequestID j;
          j_Command := j_Command j; j_Args := j_Args j; j_Level := j_Level j; j_State := j_State j;
          j_StatusReason := j_StatusReason j; j_ApprovalID := j_ApprovalID j; j_ExitCode := j_ExitCode j;
          j_Output := j_Output j; j_CreatedAt := j_CreatedAt j; j_UpdatedAt := j_UpdatedAt j;
          j_StartedAt := j_StartedAt j; j_FinishedAt := j_FinishedAt j; j_ExpiresAt := j_ExpiresAt j;
          j_ApprovedBy := j_ApprovedBy j; j_RejectedBy := s; j_RejectionReason := j_RejectionReason j;
          j_ApprovalDeadline := j_ApprovalDeadline j |}
  | SetRejectionReason s =>
       {| j_ID := j_ID j; j_WorkspaceID := j_WorkspaceID j; j_ProbeID := j_ProbeID j; j_RequestID := j_RequestID j;
          j_Command := j_Command j; j_Args := j_Args j; j_Level := j_Level j; j_State := j_State j;
          j_StatusReason := j_StatusReason j; j_ApprovalID := j_ApprovalID j; j_ExitCode := j_ExitCode j;
          j_Output := j_Output j; j_CreatedAt := j_CreatedAt j; j_UpdatedAt := j_UpdatedAt j;
          j_StartedAt := j_StartedAt j; j_FinishedAt := j_FinishedAt j; j_ExpiresAt := j_ExpiresAt j;
          j_ApprovedBy := j_ApprovedBy j; j_RejectedBy := j_RejectedBy j; j_RejectionReason := s;
          j_ApprovalDeadline := j_ApprovalDeadline j |}
  | SetApprovalDeadline t =>
       {| j_ID := j_ID j; j_WorkspaceID := j_WorkspaceID j; j_ProbeID := j_ProbeID j; j_RequestID := j_RequestID j;
          j_Command := j_Command j; j_Args := j_Args j; j_Level := j_Level j; j_State := j_State j;
          j_StatusReason := j_StatusReason j; j_ApprovalID := j_ApprovalID j; j_ExitCode := j_ExitCode j;
          j_Output := j_Output j; j_CreatedAt := j_CreatedAt j; j_UpdatedAt := j_UpdatedAt j;
          j_StartedAt := j_StartedAt j; j_FinishedAt := j_FinishedAt j; j_ExpiresAt := j_ExpiresAt j;
          j_ApprovedBy := j_ApprovedBy j; j_RejectedBy := j_RejectedBy j;
          j_RejectionReason := j_RejectionReason j; j_ApprovalDeadline := Some t |}
  end.

Definition apply_set (cs : list set_clause) (j : AsyncJob) : AsyncJob := foldl apply_clause j cs.

(** ** The store monad *)

Notation DB := (GoSql.DB (list AsyncJob)) (only parsing).
Notation M := (GoSql.M (list AsyncJob)) (only parsing).

Section store.
Context `{Host}.

(** [UPDATE async_jobs SET cs WHERE p], with the number of rows affected. *)
Definition sql_update (p : AsyncJob → bool) (cs : list set_clause) (l : list AsyncJob) : result Z * list AsyncJob :=
  (inr (Z.of_nat (count_where p l)), update_where p (apply_set cs) l).

(** *** Helpers (store.go) *)

Definition maxRunOutputBytes : Z := 10 * 1024.
Definition newline : string := String (Ascii.ascii_of_nat 10) EmptyString.
Definition truncateOutput (output : string) : string :=
  if Z.of_nat (String.length output) <=? maxRunOutputBytes then output
  else if maxRunOutputBytes <=? 16 then take_str (Z.to_nat maxRunOutputBytes) output
  else (take_str (Z.to_nat (maxRunOutputBytes - 16)) output +:+ newline +:+ "...[truncated]")%string.
Definition IsNotFound (e : go_error) : bool := errors_Is e SqlErrNoRows.

Definition defaultAsyncJobListLimit : Z := 50.
Definition maxAsyncJobListLimit : Z := 500.
Definition normalizeAsyncJobLimit (limit : Z) : Z :=
  if limit <=? 0 then defaultAsyncJobListLimit
  else if maxAsyncJobListLimit <? limit then maxAsyncJobListLimit else limit.

(** *** Reading *)

Definition scanAsyncJob (r : AsyncJob) : AsyncJob :=
  {| j_ID := j_ID r; j_WorkspaceID := ToLower (TrimSpace (j_WorkspaceID r)); j_ProbeID := j_ProbeID r;
     j_RequestID := j_RequestID r; j_Command := j_Command r; j_Args := j_Args r; j_Level := j_Level r;
     j_State := normalizeAsyncJobState (j_State r); j_StatusReason := j_StatusReason r; j_ApprovalID := j_ApprovalID r;
     j_ExitCode := j_ExitCode r; j_Output := j_Output r; j_CreatedAt := j_CreatedAt r; j_UpdatedAt := j_UpdatedAt r;
     j_StartedAt := j_StartedAt r; j_FinishedAt := j_FinishedAt r; j_ExpiresAt := j_ExpiresAt r;
     j_ApprovedBy := TrimSpace (j_ApprovedBy r); j_RejectedBy := TrimSpace (j_RejectedBy r);
     j_RejectionReason := TrimSpace (j_RejectionReason r); j_ApprovalDeadline := j_ApprovalDeadline r |}.

(** [QueryRow(..).Scan(..)]: the first row that matches. *)
Definition query_row (p : AsyncJob → bool) (l : list AsyncJob) : result AsyncJob :=
  match List.find p l with Some r => inr r | None => inl (Sentinel SqlErrNoRows) end.

Definition has_id (id : string) (r : AsyncJob) : bool := j_ID r =s id.
Definition in_state (id state : string) (r : AsyncJob) : bool := (j_ID r =s id) && (j_State r =s state).

Definition GetAsyncJob (id : string) : M AsyncJob :=
  let id := TrimSpace id in
  if id =s "" then errorf "job id required"
  else r ← query (query_row (has_id id)); mret (scanAsyncJob r).

Definition GetAsyncJobInWorkspace (id workspaceID : string) : M AsyncJob :=
  let id := TrimSpace id in
  let workspaceID := ToLower (TrimSpace workspaceID) in
  if id =s "" then errorf "job id required"
  else if workspaceID =s "" then errorf "workspace_id required"
  else r ← query (query_row (λ r, has_id id r && (j_WorkspaceID r =s workspaceID))); mret (scanAsyncJob r).

Definition GetAsyncJobByRequestID (requestID : string) : M AsyncJob :=
  let requestID := TrimSpace requestID in
  if requestID =s "" then errorf "request_id required"
  else r ← query (query_row (λ r, j_RequestID r =s requestID)); mret (scanAsyncJob r).

Definition GetAsyncJobCheckWorkspace (id expectedWorkspace : string) : M AsyncJob :=
  job ← GetAsyncJob id;
  if expectedWorkspace =s "" then mret job
  else if (j_WorkspaceID job <>s "") && (j_WorkspaceID job <>s expectedWorkspace)
  then fail (Sentinel ErrWorkspaceMismatch)
  else mret job.

(** [SELECT .. WHERE p ORDER BY key LIMIT limit] *)
Definition select (p : AsyncJob → bool) (le : AsyncJob → AsyncJob → bool) (limit : Z) (l : list AsyncJob)
    : result (list AsyncJob) :=
  inr (map scanAsyncJob (take (Z.to_nat limit) (order_by le (List.filter p l)))).
Definition created_desc (a b : AsyncJob) : bool := text_le (j_CreatedAt b) (j_CreatedAt a).
Definition created_asc (a b : AsyncJob) : bool := text_le (j_CreatedAt a) (j_CreatedAt b).
Definition expires_asc (a b : AsyncJob) : bool :=
  match j_ExpiresAt a, j_ExpiresAt b with Some x, Some y => text_le x y | None, _ => true | _, None => false end.

Definition ListAsyncJobs (limit : Z) : M (list AsyncJob) :=
  query (select (λ _, true) created_desc (normalizeAsyncJobLimit limit)).

Definition ListAsyncJobsByWorkspace (workspaceID : string) (limit : Z) : M (list AsyncJob) :=
  let workspaceID := ToLower (TrimSpace workspaceID) in
  if workspaceID =s "" then errorf "workspace_id required"
  else query (select (λ r, j_WorkspaceID r =s workspaceID) created_desc (normalizeAsyncJobLimit limit)).

Definition invalid_state {A} (s : string) : M A := errorf ("invalid async job state: " +:+ s)%string.

Definition ListAsyncJobsByState (state : AsyncJobState) (limit : Z) : M (list AsyncJob) :=
  let state := normalizeAsyncJobState state in
  if negb (isKnownAsyncJobState state) then invalid_state state
  else query (select (λ r, j_State r =s state) created_asc (normalizeAsyncJobLimit limit)).

Definition CountAsyncJobsByState (states : list AsyncJobState) : M Z :=
  let normalized := List.filter isKnownAsyncJobState (map normalizeAsyncJobState states) in
  match normalized with
  | [] => mret 0
  | _ => query (λ l, inr (Z.of_nat (count_where (λ r, existsb (String.eqb (j_State r)) normalized) l)))
  end.

(** [SELECT k, COUNT( * ) .. GROUP BY k]: the groups as a map. *)
Definition group_count (key : AsyncJob → string) (l : list AsyncJob) : gmap string Z :=
  foldr (λ r m, <[key r := 1 + default 0 (m !! key r)]> m) ∅ l.

(** Both readers store each group under its trimmed key. *)
Definition trim_keys (m : gmap string Z) : gmap string Z := map_fold (λ k c acc, <[TrimSpace k := c]> acc) ∅ m.

Definition AsyncJobStateCounts : M (gmap string Z) :=
  query (λ l, inr (filter (λ kv, isKnownAsyncJobState kv.1 = true) (trim_keys (group_count j_State l)))).

Definition is_running (r : AsyncJob) : bool := j_State r =s AsyncJobStateRunning.

Definition RunningAsyncJobsByProbe : M (gmap string Z) :=
  query (λ l, inr (trim_keys (group_count j_ProbeID (List.filter is_running l)))).

(** *** Creating *)

Definition unique_violation (column : string) : go_error :=
  ErrorString ("UNIQUE constraint failed: async_jobs." +:+ column)%string.

Definition sql_insert (j : AsyncJob) (l : list AsyncJob) : result unit * list AsyncJob :=
  if existsb (λ r, j_ID r =s j_ID j) l then (inl (unique_violation "id"), l)
  else if existsb (λ r, j_RequestID r =s j_RequestID j) l then (inl (unique_violation "request_id"), l)
  else (inr tt, l ++ [j]).

(** The row [CreateAsyncJob] inserts for [job], once the ids, the state and
    the instants are settled. *)
Definition insert_row (job : AsyncJob) (id requestID state : string) (created now : time) : AsyncJob :=
  {| j_ID := id; j_WorkspaceID := ToLower (TrimSpace (ToLower (TrimSpace (j_WorkspaceID job))));
     j_ProbeID := TrimSpace (j_ProbeID job); j_RequestID := requestID; j_Command := TrimSpace (j_Command job);
     j_Args := j_Args job; j_Level := TrimSpace (j_Level job); j_State := state;
     j_StatusReason := TrimSpace (j_StatusReason job); j_ApprovalID := TrimSpace (j_ApprovalID job);
     j_ExitCode := j_ExitCode job; j_Output := truncateOutput (j_Output job); j_CreatedAt := created; j_UpdatedAt := now;
     j_StartedAt := j_StartedAt job; j_FinishedAt := j_FinishedAt job; j_ExpiresAt := j_ExpiresAt job;
     j_ApprovedBy := TrimSpace (j_ApprovedBy job); j_RejectedBy := TrimSpace (j_RejectedBy job);
     j_RejectionReason := TrimSpace (j_RejectionReason job); j_ApprovalDeadline := j_ApprovalDeadline job |}.

Definition CreateAsyncJob (job : AsyncJob) : M AsyncJob :=
  if TrimSpace (j_ProbeID job) =s "" then errorf "probe_id required"
  else if TrimSpace (j_Command job) =s "" then errorf "command required"
  else
    requestID ← (if TrimSpace (j_RequestID job) =s ""
                 then u ← uuid_NewString; mret ("job-" +:+ u)%string else mret (TrimSpace (j_RequestID job)));
    id ← (if TrimSpace (j_ID job) =s "" then uuid_NewString else mret (j_ID job));
    let state := normalizeAsyncJobState (j_State job) in
    let state := if state =s "" then AsyncJobStateQueued else state in
    if negb (isKnownAsyncJobState state) then invalid_state state
    else
      now ← time_now;
      let created := if IsZero (j_CreatedAt job) then now else j_CreatedAt job in
      _ ← wrap_error (errorf_w "insert async job") (exec (sql_insert (insert_row job id requestID state created now)));
      GetAsyncJob id.

(** *** Transitions *)

Definition when_nonempty (s : string) (c : string → set_clause) : list set_clause :=
  let s := TrimSpace s in if s <>s "" then [c s] else [].
Definition when_some {A} (o : option A) (c : A → set_clause) : list set_clause :=
  match o with Some a => [c a] | None => [] end.

(** The SET clauses [TransitionAsyncJob] builds. *)
Definition transition_clauses (to : AsyncJobState) (now : time) (o : AsyncJobTransitionOptions) : list set_clause :=
  let startedAt := match to_StartedAt o with
                   | None => if to =s AsyncJobStateRunning then Some now else None | t => t end in
  let finishedAt := match to_FinishedAt o with
                    | None => if IsTerminal to then Some now else None | t => t end in
  [SetState to; SetUpdatedAt now] ++
  when_nonempty (to_StatusReason o) SetStatusReason ++ when_nonempty (to_ApprovalID o) SetApprovalID ++
  when_some (to_ExitCode o) SetExitCode ++ when_nonempty (to_Output o) (λ s, SetOutput (truncateOutput s)) ++
  when_some startedAt SetStartedAt ++ when_some finishedAt SetFinishedAt ++
  match to_ExpiresAt o with
  | Some t => [SetExpiresAt (Some t)]
  | None => if to <>s AsyncJobStateWaitingApproval then [SetExpiresAt None] else []
  end ++
  when_nonempty (to_ApprovedBy o) SetApprovedBy ++ when_nonempty (to_RejectedBy o) SetRejectedBy ++
  when_nonempty (to_RejectionReason o) SetRejectionReason ++ when_some (to_ApprovalDeadline o) SetApprovalDeadline.

Definition invalid_transition (from to : AsyncJobState) : go_error :=
  WrapError (sentinel_text ErrInvalidAsyncJobTransition +:+ ": " +:+ from +:+ " -> " +:+ to)%string
    (Sentinel ErrInvalidAsyncJobTransition).

Definition TransitionAsyncJob (id : string) (toState : AsyncJobState) (opts : AsyncJobTransitionOptions) : M AsyncJob :=
  let id := TrimSpace id in
  if id =s "" then errorf "job id required"
  else
    let toState := normalizeAsyncJobState toState in
    if negb (isKnownAsyncJobState toState) then invalid_state toState
    else
      now ← time_now;
      _ ← begin_;
      _ ← transaction (
        r ← query (query_row (has_id id));
        let fromState := normalizeAsyncJobState (j_State r) in
        if fromState =s toState then commit
        else if negb (canTransitionAsyncJob fromState toState) then fail (invalid_transition fromState toState)
        else
          affected ← exec (sql_update (in_state id fromState) (transition_clauses toState now opts));
          if affected =? 0 then
            latest ← query (query_row (has_id id));
            fail (invalid_transition (j_State latest) toState)
          else commit);
      GetAsyncJob id.

Definition CancelAsyncJob (id reason : string) : M AsyncJob :=
  let reason := TrimSpace reason in
  TransitionAsyncJob id AsyncJobStateCancelled
    (transition_options (if reason =s "" then "cancelled by request" else reason) "" None "" None).

(** *** Expiry *)

Definition or_default (s d : string) : string := let s := TrimSpace s in if s =s "" then d else s.

Definition expire_clauses (reason : string) (now : time) : list set_clause :=
  [SetState AsyncJobStateExpired; SetStatusReason reason; SetUpdatedAt now; SetFinishedAt now].

Definition ExpireRunningAsyncJobs (reason : string) : M Z :=
  let reason := or_default reason "expired while control plane was unavailable" in
  now ← time_now;
  exec (sql_update is_running (expire_clauses reason now)).

(** [state = ? AND expires_at IS NOT NULL AND expires_at != '' AND expires_at <= ?] *)
Definition approval_window_over (now : time) (r : AsyncJob) : bool :=
  (j_State r =s AsyncJobStateWaitingApproval) &&
  match j_ExpiresAt r with Some e => text_le e now | None => false end.

Definition ExpireWaitingApprovalAsyncJobs (now : time) (reason : string) : M Z :=
  let reason := or_default reason "approval window expired" in
  exec (sql_update (approval_window_over now) (expire_clauses reason now)).

Definition ListExpiredWaitingApprovalJobs (now : time) (limit : Z) : M (list AsyncJob) :=
  query (select (approval_window_over now) expires_asc (normalizeAsyncJobLimit limit)).

(** *** Approval decisions *)

(** What both report when no row was in [waiting_approval]. *)
Definition conflict_or_job (affected : Z) (jobID op : string) : M AsyncJob :=
  if affected =? 0 then
    existing ← GetAsyncJob jobID;
    fail (AsyncJobConflictError jobID (j_State existing) op)
  else GetAsyncJob jobID.

Definition approve_clauses (now : time) : list set_clause :=
  [SetState AsyncJobStateRunning; SetStartedAt now; SetUpdatedAt now].

Definition ApproveAsyncJob (jobID : string) : M AsyncJob :=
  let jobID := TrimSpace jobID in
  if jobID =s "" then errorf "job id required"
  else
    now ← time_now;
    affected ← wrap_error (errorf_w "approve async job")
      (exec (sql_update (in_state jobID AsyncJobStateWaitingApproval) (approve_clauses now)));
    conflict_or_job affected jobID "approve".

Definition reject_clauses (reason : string) (now : time) : list set_clause :=
  [SetState AsyncJobStateFailed; SetStatusReason reason; SetRejectionReason reason; SetFinishedAt now; SetUpdatedAt now].

Definition RejectAsyncJob (jobID reason : string) : M AsyncJob :=
  let jobID := TrimSpace jobID in
  if jobID =s "" then errorf "job id required"
  else
    let reason := TrimSpace reason in
    now ← time_now;
    affected ← wrap_error (errorf_w "reject async job")
      (exec (sql_update (in_state jobID AsyncJobStateWaitingApproval) (reject_clauses reason now)));
    conflict_or_job affected jobID "reject".

Definition ExtendApprovalExpiry (jobID : string) (newExpiry : time) : M unit :=
  let jobID := TrimSpace jobID in
  if jobID =s "" then errorf "job id required"
  else
    now ← time_now;
    _ ← exec (sql_update (in_state jobID AsyncJobStateWaitingApproval) [SetExpiresAt (Some newExpiry); SetUpdatedAt now]);
    mret tt.
End store.
