(* ===== verification/AsyncLifecycle.v ===== *)
(** * The lifecycle of async jobs
    (src/internal/controlplane/jobs/async_store.go)

    The table changes only by single SQL statements.  [db_step] is one such
    statement; every operation of the store performs at most one of them,
    whatever faults the database throws, so any interleaving of callers is a
    sequence of steps.  Invariants and the lifecycle are proved by induction
    over those sequences. *)
From S2P Require Import Prelude GoStrings GoErrors GoTime GoSort AsyncTypes GoSql AsyncStore.
Local Open Scope go_scope.
Local Open Scope Z_scope.

(** ** Statements *)

(** A statement that updates rows, and one that may also insert a row. *)
Inductive update_step (l : list AsyncJob) : list AsyncJob → Prop :=
  | st_transition id from to now opts :
      known from → known to → from ≠ to → canTransitionAsyncJob from to = true →
      update_step l (update_where (in_state id from) (apply_set (transition_clauses to now opts)) l)
  | st_expire_running reason now :
      update_step l (update_where is_running (apply_set (expire_clauses reason now)) l)
  | st_expire_waiting reason now :
      update_step l (update_where (approval_window_over now) (apply_set (expire_clauses reason now)) l)
  | st_approve id now :
      update_step l (update_where (in_state id AsyncJobStateWaitingApproval) (apply_set (approve_clauses now)) l)
  | st_reject id reason now :
      update_step l (update_where (in_state id AsyncJobStateWaitingApproval) (apply_set (reject_clauses reason now)) l)
  | st_extend id expiry now :
      update_step l (update_where (in_state id AsyncJobStateWaitingApproval) (apply_set [SetExpiresAt (Some expiry); SetUpdatedAt now]) l).

Inductive db_step (l : list AsyncJob) : list AsyncJob → Prop :=
  | st_insert j l' :
      sql_insert j l = (inr tt, l') → known (j_State j) → TrimSpace (j_ProbeID j) = j_ProbeID j →
      Z.of_nat (String.length (j_Output j)) <= maxRunOutputBytes → db_step l l'
  | st_update l' : update_step l l' → db_step l l'.

(** ** What a SET clause can change *)

(** The columns no statement ever assigns. *)
Definition identity (j : AsyncJob) :=
  (j_ID j, j_WorkspaceID j, j_ProbeID j, j_RequestID j, j_Command j, j_Args j, j_Level j, j_CreatedAt j).

Lemma apply_set_identity cs j : identity (apply_set cs j) = identity j.
Proof.
  unfold apply_set. revert j. induction cs as [|c cs IH]; intros j; [done|]. simpl. rewrite IH. by destruct c.
Qed.

Lemma apply_set_id cs j : j_ID (apply_set cs j) = j_ID j.
Proof. pose proof (apply_set_identity cs j) as E. unfold identity in E. by simplify_eq. Qed.

Definition sets_state (c : set_clause) : bool := match c with SetState _ => true | _ => false end.

Lemma apply_set_state cs j : existsb sets_state cs = false → j_State (apply_set cs j) = j_State j.
Proof.
  unfold apply_set. revert j. induction cs as [|c cs IH]; intros j; [done|]. simpl. intros [Hc Hcs]%orb_false_iff.
  rewrite IH by done. by destruct c.
Qed.

Lemma apply_set_state_first s cs j : existsb sets_state cs = false → j_State (apply_set (SetState s :: cs) j) = s.
Proof. intros H. change (apply_set (SetState s :: cs) j) with (apply_set cs (apply_clause j (SetState s))). by rewrite apply_set_state. Qed.

(** The optional clauses of [transition_clauses] assign one column each. *)
Lemma Forall_when_nonempty (P : set_clause → Prop) s c : (∀ x, P (c x)) → Forall P (when_nonempty s c).
Proof. intros Hc. unfold when_nonempty. cbv zeta. case_match; by repeat constructor. Qed.
Lemma Forall_when_some {A} (P : set_clause → Prop) (o : option A) c : (∀ x, P (c x)) → Forall P (when_some o c).
Proof. intros Hc. destruct o; simpl; by repeat constructor. Qed.

Lemma transition_clauses_rest (P : set_clause → Prop) to now opts :
  (∀ c, sets_state c = false → (∀ s, c = SetOutput s → Z.of_nat (String.length s) <= maxRunOutputBytes) → P c) →
  (∀ s, Z.of_nat (String.length (truncateOutput s)) <= maxRunOutputBytes) →
  ∃ rest, transition_clauses to now opts = SetState to :: rest ∧ Forall P rest.
Proof.
  intros HP Ht. eexists. unfold transition_clauses. cbv zeta. simpl app. split; [reflexivity|].
  apply Forall_cons. split; [by apply HP|].
  repeat (apply Forall_app; split);
    try (apply Forall_when_nonempty; intros; apply HP; [done|intros ? [=]; subst; auto]);
    try (apply Forall_when_some; intros; apply HP; done).
  repeat case_match; repeat constructor; by apply HP.
Qed.

Definition output_bounded (j : AsyncJob) : Prop := Z.of_nat (String.length (j_Output j)) <= maxRunOutputBytes.
Definition bounded_clause (c : set_clause) : Prop :=
  match c with SetOutput s => Z.of_nat (String.length s) <= maxRunOutputBytes | _ => True end.

Lemma apply_set_bounded cs j : Forall bounded_clause cs → output_bounded j → output_bounded (apply_set cs j).
Proof.
  unfold apply_set. revert j. induction cs as [|c cs IH]; intros j; [done|]. intros [Hc Hcs]%Forall_cons Hj.
  apply IH; [done|]. by destruct c.
Qed.

Lemma length_str_app s t : String.length (s +:+ t)%string = (String.length s + String.length t)%nat.
Proof.
  induction s as [|c s IH]; [done|].
  change (S (String.length (s +:+ t)%string) = S (String.length s + String.length t)%nat). by rewrite IH.
Qed.

Lemma truncateOutput_bounded s : Z.of_nat (String.length (truncateOutput s)) <= maxRunOutputBytes.
Proof.
  unfold truncateOutput. destruct (Z.leb_spec (Z.of_nat (String.length s)) maxRunOutputBytes); [done|].
  change (maxRunOutputBytes <=? 16) with false. cbv iota. rewrite !length_str_app.
  pose proof (length_take_str (Z.to_nat (maxRunOutputBytes - 16)) s) as Hl. revert Hl.
  generalize (String.length (take_str (Z.to_nat (maxRunOutputBytes - 16)) s)). intros n Hl.
  change (String.length newline) with 1%nat. change (String.length "...[truncated]") with 14%nat.
  unfold maxRunOutputBytes in *. lia.
Qed.

Lemma transition_clauses_state to now opts j : j_State (apply_set (transition_clauses to now opts) j) = to.
Proof.
  destruct (transition_clauses_rest (λ c, sets_state c = false) to now opts) as (rest & -> & Hr); [done|apply truncateOutput_bounded|].
  apply apply_set_state_first. by apply existsb_false_Forall.
Qed.

Lemma transition_clauses_bounded to now opts : Forall bounded_clause (transition_clauses to now opts).
Proof.
  destruct (transition_clauses_rest bounded_clause to now opts) as (rest & -> & Hr); [|apply truncateOutput_bounded|by constructor].
  intros [] _ Ho; simpl; auto.
Qed.

(** ** Rows evolve *)

(** One job seen twice: same identity, and it either moved forward in the
    lifecycle or kept its state, and then only a waiting job changes at all. *)
Definition evolves (r r' : AsyncJob) : Prop :=
  identity r' = identity r ∧
  ∃ s s', j_State r = state_name s ∧ j_State r' = state_name s' ∧
    ((progress s < progress s')%nat ∨ (s = s' ∧ (s = LWaiting ∨ r' = r))).

Lemma evolves_refl r : known (j_State r) → evolves r r.
Proof. intros [s Hs]. split; [done|]. exists s, s. split_and!; [done..|]. auto. Qed.

Lemma evolves_trans r1 r2 r3 : evolves r1 r2 → evolves r2 r3 → evolves r1 r3.
Proof.
  intros [I1 (s1 & s2 & H1 & H2 & D1)] [I2 (s2' & s3 & H2' & H3 & D2)]. split; [congruence|].
  assert (s2' = s2) as -> by (apply state_name_inj; congruence). exists s1, s3. split_and!; [done..|].
  destruct D1 as [D1|[<- D1]], D2 as [D2|[<- D2]]; auto with lia.
  right. split; [done|]. destruct D1 as [->| ->]; [auto|]. destruct D2 as [D2| ->]; auto.
Qed.

(** An update that moves the rows it matches forward. *)
Lemma update_evolves p cs l from to :
  Forall (λ r, known (j_State r)) l →
  (∀ r, p r = true → j_State r = state_name from) → (∀ r, j_State (apply_set cs r) = state_name to) →
  (progress from < progress to)%nat →
  Forall2 evolves l (update_where p (apply_set cs) l).
Proof.
  intros Hk Hp Hs Hlt. unfold update_where. apply Forall2_fmap_r, Forall_Forall2_diag.
  eapply Forall_impl; [exact Hk|]. intros r Hr.
  change (evolves r (if p r then apply_set cs r else r)). destruct (p r) eqn:E; [|by apply evolves_refl].
  split; [apply apply_set_identity|]. exists from, to. split_and!; auto.
Qed.

Lemma in_state_spec id s r : in_state id s r = true → j_ID r = id ∧ j_State r = s.
Proof. unfold in_state. intros H. by bools. Qed.

Lemma extend_evolves id t now l :
  Forall (λ r, known (j_State r)) l →
  Forall2 evolves l (update_where (in_state id AsyncJobStateWaitingApproval) (apply_set [SetExpiresAt t; SetUpdatedAt now]) l).
Proof.
  intros Hk. unfold update_where. apply Forall2_fmap_r, Forall_Forall2_diag.
  eapply Forall_impl; [exact Hk|]. intros r Hr.
  change (evolves r (if in_state id AsyncJobStateWaitingApproval r then apply_set [SetExpiresAt t; SetUpdatedAt now] r else r)).
  destruct (in_state _ _ r) eqn:E; [|by apply evolves_refl].
  apply in_state_spec in E as [_ E]. split; [apply apply_set_identity|]. exists LWaiting, LWaiting. split_and!; [done|done|]. auto.
Qed.

Lemma approval_window_over_spec now r : approval_window_over now r = true → j_State r = AsyncJobStateWaitingApproval.
Proof. unfold approval_window_over. intros H. by bools. Qed.

Lemma is_running_spec r : is_running r = true → j_State r = AsyncJobStateRunning.
Proof. unfold is_running. intros H. by bools. Qed.

Lemma update_step_evolves l l' :
  Forall (λ r, known (j_State r)) l → update_step l l' → Forall2 evolves l l'.
Proof.
  intros Hk Hstep. destruct Hstep as [id from to now opts [lf ->] [lt ->] Hne Hc|reason now|reason now|id now|id reason now|id e now].
  - eapply (update_evolves _ _ _ lf lt); [done| | |].
    + by intros r [_ ?]%in_state_spec.
    + intros. apply transition_clauses_state.
    + rewrite canTransition_spec, bool_decide_eq_true in Hc. destruct Hc as [->|[? _]]; [done|lia].
  - eapply (update_evolves _ _ _ LRunning LExpired); [done|by intros r ?%is_running_spec|done|simpl; lia].
  - eapply (update_evolves _ _ _ LWaiting LExpired); [done|by intros r ?%approval_window_over_spec|done|simpl; lia].
  - eapply (update_evolves _ _ _ LWaiting LRunning); [done|by intros r [_ ?]%in_state_spec|done|simpl; lia].
  - eapply (update_evolves _ _ _ LWaiting LFailed); [done|by intros r [_ ?]%in_state_spec|done|simpl; lia].
  - by apply extend_evolves.
Qed.

Lemma db_step_evolves l l' :
  Forall (λ r, known (j_State r)) l → db_step l l' → ∃ mid new, l' = mid ++ new ∧ Forall2 evolves l mid.
Proof.
  intros Hk [j l1 H| l1 H].
  - unfold sql_insert in H. repeat case_match; simplify_eq. exists l, [j]. split; [done|].
    apply Forall_Forall2_diag. eapply Forall_impl; [exact Hk|]. intros; by apply evolves_refl.
  - exists l1, []. rewrite app_nil_r. split; [done|]. by apply update_step_evolves.
Qed.

(** ** The table invariant *)

Record table_inv (l : list AsyncJob) : Prop := {
  ti_ids : NoDup (map j_ID l);
  ti_requests : NoDup (map j_RequestID l);
  ti_known : Forall (λ r, known (j_State r)) l;
  ti_probe : Forall (λ r, TrimSpace (j_ProbeID r) = j_ProbeID r) l;
  ti_output : Forall output_bounded l;
}.

Lemma evolves_known r r' : evolves r r' → known (j_State r').
Proof. intros (_ & s & s' & _ & H & _). by exists s'. Qed.

Lemma Forall2_map_eq {A B C} (P : A → B → Prop) (f : A → C) (g : B → C) l k :
  (∀ a b, P a b → g b = f a) → Forall2 P l k → map g k = map f l.
Proof. intros Hf. induction 1; simpl; [done|]. f_equal; auto. Qed.

Lemma update_inv p cs l :
  Forall2 evolves l (update_where p (apply_set cs) l) → Forall bounded_clause cs →
  table_inv l → table_inv (update_where p (apply_set cs) l).
Proof.
  intros He Hb [Hi Hr Hk Hp Ho]. unfold evolves, identity in He. split.
  - erewrite Forall2_map_eq; [exact Hi| |exact He]. intros a b [? _]. by simplify_eq.
  - erewrite Forall2_map_eq; [exact Hr| |exact He]. intros a b [? _]. by simplify_eq.
  - apply Forall_forall. intros r' Hin. apply list_elem_of_lookup in Hin as [i Hi'].
    destruct (Forall2_lookup_r _ _ _ _ _ He Hi') as (r & _ & Hev). by eapply evolves_known.
  - rewrite Forall_forall in Hp |- *. intros r' Hin. apply list_elem_of_lookup in Hin as [i Hi'].
    destruct (Forall2_lookup_r _ _ _ _ _ He Hi') as (r & Hl & Hid & _). simplify_eq.
    assert (Hpr : j_ProbeID r' = j_ProbeID r) by congruence. rewrite Hpr. by apply Hp; eapply list_elem_of_lookup_2.
  - rewrite Forall_forall in Ho |- *. intros r' [(r & Hr' & _ & ->)|[Hr' _]]%elem_of_update_where; [|auto].
    apply apply_set_bounded; auto.
Qed.

Lemma existsb_eq_false (f : AsyncJob → string) x l :
  existsb (λ r, f r =s x) l = false ↔ x ∉ map f l.
Proof.
  rewrite existsb_false_Forall, Forall_forall. split.
  - intros Hf (r & -> & Hr)%list_elem_of_fmap. specialize (Hf r Hr). by rewrite String.eqb_refl in Hf.
  - intros Hn r Hr. apply String.eqb_neq. intros <-. apply Hn. apply list_elem_of_fmap. eauto.
Qed.

Lemma insert_inv j l l' :
  sql_insert j l = (inr tt, l') → known (j_State j) → TrimSpace (j_ProbeID j) = j_ProbeID j → output_bounded j →
  table_inv l → table_inv l'.
Proof.
  intros H Hs Hp Ho [Hi Hr Hk Hpr Hou]. unfold sql_insert in H.
  destruct (existsb _ l) eqn:E1; [done|]. destruct (existsb (λ r, j_RequestID r =s j_RequestID j) l) eqn:E2; [done|].
  simplify_eq. apply existsb_eq_false in E1, E2.
  split; rewrite ?map_app; simpl; try (apply Forall_app; split; [done|by repeat constructor]).
  - apply NoDup_app. split_and!; [done| |apply NoDup_singleton]. intros x Hx ->%list_elem_of_singleton. done.
  - apply NoDup_app. split_and!; [done| |apply NoDup_singleton]. intros x Hx ->%list_elem_of_singleton. done.
Qed.

Lemma db_step_inv l l' : db_step l l' → table_inv l → table_inv l'.
Proof.
  intros [j l1 H Hs Hp Ho|l1 H] Hinv; [by eapply insert_inv|].
  pose proof (update_step_evolves l l1 (ti_known l Hinv) H) as He.
  destruct H; apply update_inv; try done; try apply transition_clauses_bounded; repeat constructor.
Qed.

Lemma steps_inv l l' : rtc db_step l l' → table_inv l → table_inv l'.
Proof. induction 1; eauto using db_step_inv. Qed.

Lemma table_inv_nil : table_inv [].
Proof. split; simpl; constructor. Qed.

(** A job of the table, later: it is still there, and has evolved. *)
Lemma steps_evolve l l' r :
  rtc db_step l l' → table_inv l → r ∈ l → ∃ r', r' ∈ l' ∧ evolves r r'.
Proof.
  intros Hs. revert r. induction Hs as [l|l l1 l' Hstep Hs IH]; intros r Hinv Hr.
  - exists r. split; [done|]. apply evolves_refl. eapply Forall_forall in Hr; [exact Hr|apply Hinv].
  - destruct (db_step_evolves l l1 (ti_known l Hinv) Hstep) as (mid & new & -> & Hf).
    apply list_elem_of_lookup in Hr as [i Hi]. destruct (Forall2_lookup_l _ _ _ _ _ Hf Hi) as (r1 & H1 & He1).
    destruct (IH r1) as (r' & Hr' & He'); [by eapply db_step_inv| |by eauto using evolves_trans].
    apply elem_of_app. left. by eapply list_elem_of_lookup_2.
Qed.

(** ** Every operation performs at most one statement that writes *)

Section calls.
Context `{Host}.

Lemma writes_update (R : list AsyncJob → list AsyncJob → Prop) p cs :
  (∀ l, R l (update_where p (apply_set cs) l)) → writes R (exec (sql_update p cs)).
Proof. unfold exec, sql_update. intros Hs db res db' E. case_match; simplify_eq; simpl; auto. Qed.


Lemma reads_GetAsyncJob id : reads (GetAsyncJob id).
Proof. unfold GetAsyncJob, errorf. cbv zeta. case_match; eauto with legator. Qed.
Hint Resolve reads_GetAsyncJob : legator.

Lemma reads_conflict_or_job n id op : reads (conflict_or_job n id op).
Proof. unfold conflict_or_job. case_match; eauto with legator. Qed.
Hint Resolve reads_conflict_or_job : legator.

Lemma canTransition_both_known f t :
  normalizeAsyncJobState f = f → normalizeAsyncJobState t = t → f ≠ t → canTransitionAsyncJob f t = true → known f ∧ known t.
Proof.
  intros Hf Ht Hne. unfold canTransitionAsyncJob. cbv zeta. rewrite Hf, Ht, (proj2 (String.eqb_neq _ _) Hne).
  destruct (isKnownAsyncJobState f) eqn:Ef; [|done]. destruct (isKnownAsyncJobState t) eqn:Et; [|done].
  intros _. apply known_normalized in Ef, Et. by rewrite Hf in Ef; rewrite Ht in Et.
Qed.

Lemma writes_TransitionAsyncJob id to opts : writes update_step (TransitionAsyncJob id to opts).
Proof.
  unfold TransitionAsyncJob, errorf, invalid_state. cbv zeta. case_match; [eauto with legator|].
  case_match; [unfold errorf; eauto with legator|].
  apply writes_bind_after; [eauto with legator|]. intros now.
  apply writes_bind_after; [apply reads_query|]. intros _.
  apply writes_bind_before; [|eauto with legator]. apply writes_transaction.
  apply writes_bind_after; [eauto with legator|]. intros r.
  destruct (String.eqb_spec (normalizeAsyncJobState (j_State r)) (normalizeAsyncJobState to)) as [|Hne];
    [apply reads_writes, reads_query|].
  destruct (canTransitionAsyncJob _ _) eqn:Hc; simpl; [|eauto with legator].
  apply canTransition_both_known in Hc as Hk; [|apply TrimSpace_idem|apply TrimSpace_idem|done]. destruct Hk as [Hkf Hkt].
  apply writes_bind_before.
  - apply writes_update. intros l. by apply st_transition.
  - intros n. case_match; [|apply reads_query]. eauto with legator.
Qed.

Lemma writes_CreateAsyncJob job : writes db_step (CreateAsyncJob job).
Proof.
  unfold CreateAsyncJob, errorf, invalid_state. cbv zeta. case_match; [eauto with legator|].
  case_match; [eauto with legator|].
  apply writes_bind_after; [case_match; eauto with legator|]. intros rid.
  apply writes_bind_after; [case_match; eauto with legator|]. intros id.
  destruct (isKnownAsyncJobState _) eqn:Hk; simpl; [|unfold errorf; eauto with legator].
  apply writes_bind_after; [eauto with legator|]. intros now.
  apply writes_bind_before; [|eauto with legator]. apply writes_wrap.
  intros db res db' E. unfold exec in E. destruct (sql_fault _); [simplify_eq; by left|].
  destruct (sql_insert _ (rows db)) as [[e|[]] l] eqn:Ei; simplify_eq; simpl.
  - left. unfold sql_insert in Ei. repeat case_match; simplify_eq; done.
  - right. eapply st_insert; [exact Ei| | |apply truncateOutput_bounded].
    + simpl. apply known_normalized in Hk. revert Hk. unfold normalizeAsyncJobState.
      destruct (TrimSpace (j_State job) =s ""); [done|]. by rewrite TrimSpace_idem.
    + simpl. apply TrimSpace_idem.
Qed.

Lemma writes_ExpireRunningAsyncJobs reason : writes update_step (ExpireRunningAsyncJobs reason).
Proof. apply writes_bind_after; [eauto with legator|]. intros now. apply writes_update. constructor. Qed.
Lemma writes_ExpireWaitingApprovalAsyncJobs now reason : writes update_step (ExpireWaitingApprovalAsyncJobs now reason).
Proof. apply writes_update. constructor. Qed.
Lemma writes_ApproveAsyncJob id : writes update_step (ApproveAsyncJob id).
Proof.
  unfold ApproveAsyncJob, errorf. cbv zeta. case_match; [apply reads_writes, reads_fail|].
  apply writes_bind_after; [eauto with legator|]. intros now.
  apply writes_bind_before; [|eauto with legator]. apply writes_wrap, writes_update. constructor.
Qed.
Lemma writes_RejectAsyncJob id reason : writes update_step (RejectAsyncJob id reason).
Proof.
  unfold RejectAsyncJob, errorf. cbv zeta. case_match; [apply reads_writes, reads_fail|].
  apply writes_bind_after; [eauto with legator|]. intros now.
  apply writes_bind_before; [|eauto with legator]. apply writes_wrap, writes_update. constructor.
Qed.
Lemma writes_ExtendApprovalExpiry id expiry : writes update_step (ExtendApprovalExpiry id expiry).
Proof.
  unfold ExtendApprovalExpiry, errorf. cbv zeta. case_match; [apply reads_writes, reads_fail|].
  apply writes_bind_after; [eauto with legator|]. intros now.
  apply writes_bind_before; [|eauto with legator]. apply writes_update. constructor.
Qed.

(** Everything a caller can ask of the store that updates jobs, and what can
    also create one. *)
Inductive update_call (db : DB) : DB → Prop :=
  | call_transition id to opts res db' : TransitionAsyncJob id to opts db = (res, db') → update_call db db'
  | call_cancel id reason res db' : CancelAsyncJob id reason db = (res, db') → update_call db db'
  | call_expire_running reason res db' : ExpireRunningAsyncJobs reason db = (res, db') → update_call db db'
  | call_expire_waiting now reason res db' : ExpireWaitingApprovalAsyncJobs now reason db = (res, db') → update_call db db'
  | call_approve id res db' : ApproveAsyncJob id db = (res, db') → update_call db db'
  | call_reject id reason res db' : RejectAsyncJob id reason db = (res, db') → update_call db db'
  | call_extend id expiry res db' : ExtendApprovalExpiry id expiry db = (res, db') → update_call db db'.

Inductive store_call (db : DB) : DB → Prop :=
  | call_create job res db' : CreateAsyncJob job db = (res, db') → store_call db db'
  | call_update db' : update_call db db' → store_call db db'.

Lemma update_call_writes db db' : update_call db db' → rows db' = rows db ∨ update_step (rows db) (rows db').
Proof.
  intros [id to opts res db1 E|id reason res db1 E|reason res db1 E|now reason res db1 E|id res db1 E|id reason res db1 E|id e res db1 E].
  - by eapply writes_TransitionAsyncJob.
  - by eapply writes_TransitionAsyncJob.
  - by eapply writes_ExpireRunningAsyncJobs.
  - by eapply writes_ExpireWaitingApprovalAsyncJobs.
  - by eapply writes_ApproveAsyncJob.
  - by eapply writes_RejectAsyncJob.
  - by eapply writes_ExtendApprovalExpiry.
Qed.

Lemma call_writes db db' : store_call db db' → rows db' = rows db ∨ db_step (rows db) (rows db').
Proof.
  intros [job res db1 E|db1 E]; [by eapply writes_CreateAsyncJob|].
  destruct (update_call_writes db db1 E); eauto using st_update.
Qed.

Lemma calls_step db db' : rtc store_call db db' → rtc db_step (rows db) (rows db').
Proof.
  induction 1 as [|db db1 db2 Hc _ IH]; [done|].
  destruct (call_writes db db1 Hc) as [Heq|Hs]; [by rewrite <- Heq|by eapply rtc_l].
Qed.
End calls.

(** ** Theorems *)

Definition empty_db : DB := {| rows := []; ticks := 0 |}.

Definition legal_path : string → string → Prop := rtc (λ a b, canTransitionAsyncJob a b = true).

Lemma progress_path s s' : (progress s < progress s')%nat → legal_path (state_name s) (state_name s').
Proof.
  intros Hlt. unfold legal_path.
  destruct s, s'; simpl in Hlt; try lia;
    first [ apply rtc_once; reflexivity
          | eapply (rtc_l _ _ AsyncJobStateRunning); [reflexivity|apply rtc_once; reflexivity] ].
Qed.

Lemma evolves_path r r' : evolves r r' → legal_path (j_State r) (j_State r').
Proof.
  intros [_ (s & s' & -> & -> & [Hlt|[-> _]])]; [by apply progress_path|by apply rtc_refl].
Qed.

Lemma evolves_terminal r r' : evolves r r' → IsTerminal (j_State r) = true → r' = r.
Proof.
  intros [_ (s & s' & -> & H' & Hd)]. rewrite IsTerminal_progress, bool_decide_eq_true. intros Ht.
  destruct Hd as [Hlt|[<- [->| ->]]]; [destruct s'; simpl in *; lia|done|done].
Qed.

(** Once approval has been given or refused, it is not awaited again. *)
Lemma evolves_not_waiting r r' :
  evolves r r' → j_State r ≠ AsyncJobStateQueued → j_State r ≠ AsyncJobStateWaitingApproval →
  j_State r' ≠ AsyncJobStateWaitingApproval.
Proof.
  intros [_ (s & s' & Hs & Hs' & Hd)]. rewrite Hs, Hs'. intros Hq Hw Hw'.
  change AsyncJobStateWaitingApproval with (state_name LWaiting) in Hw'. apply state_name_inj in Hw' as ->.
  destruct s; simpl in *; try done; destruct Hd as [?|[? _]]; try lia; done.
Qed.

Section store_theorems.
Context `{Host}.

(** The table is always well formed: in every state that any sequence of
    store calls reaches, under any faults of the database, job ids and request
    ids are unique, every state is one of the seven lifecycle states, probe
    ids are trimmed and outputs fit the 10 KiB limit. *)
Theorem async_table_invariant db : rtc store_call empty_db db → table_inv (rows db).
Proof. intros Hc%calls_step. eapply steps_inv; [exact Hc|apply table_inv_nil]. Qed.

(** C23. The lifecycle of a job, under every interleaving of store calls and
    database faults: a stored job is never lost, its identity (ids, workspace,
    probe, command, arguments, level, creation time) never changes, its state
    only moves along legal transitions, and once it is terminal its row never
    changes again. *)
Theorem async_job_lifecycle db db' r :
  rtc store_call empty_db db → rtc store_call db db' → r ∈ rows db →
  ∃ r', r' ∈ rows db' ∧ identity r' = identity r ∧ legal_path (j_State r) (j_State r') ∧
        (IsTerminal (j_State r) = true → r' = r).
Proof.
  intros H0%calls_step H1%calls_step Hr. pose proof (steps_inv _ _ H0 table_inv_nil) as Hinv.
  destruct (steps_evolve _ _ _ H1 Hinv Hr) as (r' & Hr' & He).
  exists r'. split_and!; eauto using evolves_path, evolves_terminal. by destruct He.
Qed.

(** Every store call is atomic: whatever the database refuses midway, the
    table ends up unchanged or changed by one complete statement, an insert of
    a fresh job, one legal transition of one job, or one expiry or approval
    update; a failed transaction leaves no trace. *)
Theorem store_calls_atomic db db' : store_call db db' → rows db' = rows db ∨ db_step (rows db) (rows db').
Proof. apply call_writes. Qed.
End store_theorems.

(** *** Without faults *)

Lemma find_unique l r :
  NoDup (map j_ID l) → r ∈ l → List.find (has_id (j_ID r)) l = Some r.
Proof. apply (find_by_key j_ID). Qed.

Lemma in_state_id id s r : in_state id s r = true → j_ID r = id.
Proof. by intros [? _]%in_state_spec. Qed.

Lemma count_in_state l r id :
  NoDup (map j_ID l) → r ∈ l → j_ID r = id →
  count_where (in_state id (j_State r)) l = 1%nat ∧
  ∀ s, s ≠ j_State r → count_where (in_state id s) l = 0%nat.
Proof.
  intros Hd Hr Hid. split.
  - revert Hd Hr. induction l as [|x l IH]; [by intros _ ?%not_elem_of_nil|]. simpl. intros [Hx Hd]%NoDup_cons Hr.
    rewrite count_where_cons. apply elem_of_cons in Hr as [->|Hr].
    + unfold in_state at 1. rewrite Hid, !String.eqb_refl. simpl. f_equal. apply count_where_zero. intros y Hy.
      unfold in_state. destruct (String.eqb_spec (j_ID y) id) as [E|]; [|done]. exfalso. apply Hx.
      rewrite Hid, <- E. apply list_elem_of_fmap. eauto.
    + rewrite IH by done. unfold in_state at 1. destruct (String.eqb_spec (j_ID x) id) as [E|]; [|done].
      exfalso. apply Hx. rewrite E, <- Hid. apply list_elem_of_fmap. eauto.
  - intros s Hs. apply count_where_zero. intros y Hy. unfold in_state.
    destruct (String.eqb_spec (j_ID y) id) as [E|]; [|done]. destruct (String.eqb_spec (j_State y) s) as [E'|]; [|done].
    exfalso. apply Hs. rewrite <- E'. f_equal. assert (Hf := find_unique l y Hd Hy).
    rewrite E, <- Hid, (find_unique l r Hd Hr) in Hf. congruence.
Qed.

Lemma elem_update_in_state l r id s cs :
  r ∈ l → in_state id s r = true → apply_set cs r ∈ update_where (in_state id s) (apply_set cs) l.
Proof. intros Hr Hs. apply elem_of_update_where. left. eauto. Qed.

Lemma scan_id r : j_ID (scanAsyncJob r) = j_ID r.
Proof. done. Qed.

Section no_faults.
Context `{Host} (no_faults : ∀ n, sql_fault n = None).

Lemma run_Get id db r :
  NoDup (map j_ID (rows db)) → r ∈ rows db → j_ID r = TrimSpace id → j_ID r ≠ "" →
  GetAsyncJob id db = (inr (scanAsyncJob r), tick db).
Proof.
  intros Hd Hr Hid Hne. unfold GetAsyncJob. cbv zeta. rewrite <- Hid, (proj2 (String.eqb_neq _ _) Hne).
  unfold mbind, M_bind. rewrite (run_query no_faults). unfold query_row. by rewrite find_unique.
Qed.

(** A transition of a job of the table. *)
Lemma run_transition id to opts db res db' r :
  table_inv (rows db) → id ≠ "" → TrimSpace id = id → known to → List.find (has_id id) (rows db) = Some r →
  TransitionAsyncJob id to opts db = (res, db') →
  if j_State r =s to then res = inr (scanAsyncJob r) ∧ rows db' = rows db
  else if canTransitionAsyncJob (j_State r) to then
    ∃ now, let r' := apply_set (transition_clauses to now opts) r in
      res = inr (scanAsyncJob r') ∧ j_State r' = to ∧
      rows db' = update_where (has_id id) (λ _, r') (rows db)
  else res = inl (invalid_transition (j_State r) to) ∧ rows db' = rows db.
Proof.
  intros [Hd _ Hk _ _] Hne Htrim Hto Ef. unfold TransitionAsyncJob. cbv zeta.
  rewrite Htrim, (proj2 (String.eqb_neq _ _) Hne). destruct (known_isKnown to Hto) as [Hik Hn]. rewrite Hn, Hik. simpl.
  unfold begin_, commit. unfold mbind, M_bind. simpl. rewrite (run_query no_faults). unfold transaction. rewrite (run_query no_faults).
  unfold query_row. simpl. rewrite Ef.
  apply find_some in Ef as Hf. destruct Hf as [Hin%list_elem_of_In Hid]. unfold has_id in Hid. bools.
  pose proof (proj1 (Forall_forall _ _) Hk r Hin) as Hkr. destruct (known_isKnown _ Hkr) as [_ Hnr]. rewrite Hnr.
  destruct (String.eqb_spec (j_State r) to) as [Heq|Hneq].
  { rewrite (run_query no_faults). intros Hg. rewrite (run_Get id _ r) in Hg by (simpl; congruence || done). by simplify_eq. }
  destruct (canTransitionAsyncJob (j_State r) to) eqn:Hc; cbn [negb]; [|by intros [= <- <-]].
  unfold exec, sql_update. rewrite no_faults. destruct (count_in_state (rows db) r id Hd Hin Hid) as [Hcnt _].
  cbn [rows tick]. rewrite Hcnt. change (Z.of_nat 1 =? 0) with false. cbv iota beta. rewrite (run_query no_faults). cbn [rows tick]. intros Hg.
  set (now := clock (ticks db)) in *. set (r' := apply_set (transition_clauses to now opts) r) in *.
  assert (Hrow : r' ∈ update_where (in_state id (j_State r)) (apply_set (transition_clauses to now opts)) (rows db)).
  { apply elem_update_in_state; [done|]. unfold in_state. by rewrite Hid, !String.eqb_refl. }
  assert (Hidr' : j_ID r' = id) by (subst r'; by rewrite apply_set_id).
  rewrite (run_Get id _ r') in Hg; cbn [rows tick]; try congruence;
    [|rewrite map_update_where; [done|intros; apply apply_set_id]].
  simplify_eq. exists now. split_and!; [done|apply transition_clauses_state|]. simpl.
  apply map_ext_in. intros x Hx%list_elem_of_In. unfold in_state, has_id.
  destruct (String.eqb_spec (j_ID x) (j_ID r)) as [E|]; [|done].
  assert (x = r) as ->. { pose proof (find_unique _ x Hd Hx) as F1. rewrite E, (find_unique _ r Hd Hin) in F1. congruence. }
  by rewrite String.eqb_refl.
Qed.

(** A transition does what its contract says, when the database answers:
    an unknown job is reported as not found, a job already in the target state
    is returned unchanged, an illegal transition is refused with
    [ErrInvalidAsyncJobTransition] and changes nothing, and a legal one
    changes exactly that job, to the target state, with the requested columns. *)
Theorem transition_spec id to opts db res db' :
  table_inv (rows db) → id ≠ "" → TrimSpace id = id → known to →
  TransitionAsyncJob id to opts db = (res, db') →
  match List.find (has_id id) (rows db) with
  | None => (∃ e, res = inl e ∧ IsNotFound e = true) ∧ rows db' = rows db
  | Some r =>
      if j_State r =s to then res = inr (scanAsyncJob r) ∧ rows db' = rows db
      else if canTransitionAsyncJob (j_State r) to then
        ∃ now, let r' := apply_set (transition_clauses to now opts) r in
          res = inr (scanAsyncJob r') ∧ j_State r' = to ∧
          rows db' = update_where (has_id id) (λ _, r') (rows db)
      else res = inl (invalid_transition (j_State r) to) ∧ rows db' = rows db
  end.
Proof.
  intros Hi Hne Htrim Hto E. destruct (List.find (has_id id) (rows db)) as [r|] eqn:Ef; [by eapply run_transition|].
  revert E. unfold TransitionAsyncJob. cbv zeta. rewrite Htrim, (proj2 (String.eqb_neq _ _) Hne).
  destruct (known_isKnown to Hto) as [Hik Hn]. rewrite Hn, Hik. simpl.
  unfold begin_, commit. unfold mbind, M_bind. simpl. rewrite (run_query no_faults). unfold transaction. rewrite (run_query no_faults).
  unfold query_row. simpl. rewrite Ef. intros [= <- <-]. eauto.
Qed.
End no_faults.

(** *** One decision per job *)

Lemma update_where_none {A} (p : A → bool) f l : count_where p l = 0%nat → update_where p f l = l.
Proof.
  intros Hc. unfold update_where. rewrite <- (map_id l) at 2. apply map_ext_in. intros x Hx.
  rewrite count_where_zero in Hc. by rewrite (Hc x (proj2 (list_elem_of_In _ _) Hx)).
Qed.

Section decisions.
Context `{Host}.

(** The common body of [ApproveAsyncJob] and [RejectAsyncJob]. *)
Definition decide_waiting (prefix op id : string) (cs : list set_clause) : M AsyncJob :=
  affected ← wrap_error (errorf_w prefix) (exec (sql_update (in_state id AsyncJobStateWaitingApproval) cs));
  conflict_or_job affected id op.

Lemma decide_waiting_refused prefix op id cs db res db' :
  count_where (in_state id AsyncJobStateWaitingApproval) (rows db) = 0%nat →
  decide_waiting prefix op id cs db = (res, db') →
  ∃ e, res = inl e ∧ rows db' = rows db ∧
    ((∀ n, sql_fault n = None) → table_inv (rows db) → TrimSpace id = id → id ≠ "" →
     (∃ r, r ∈ rows db ∧ j_ID r = id) → IsAsyncJobConflict e = true).
Proof.
  intros Hc. unfold decide_waiting, wrap_error, exec, sql_update. unfold mbind, M_bind.
  destruct (sql_fault (ticks db)) as [f|] eqn:Ef.
  { intros [= <- <-]. eexists. split_and!; [done|done|]. intros Hnf. by rewrite Hnf in Ef. }
  rewrite Hc, update_where_none by done. cbv iota beta. unfold conflict_or_job. change (Z.of_nat 0 =? 0) with true. cbv iota.
  unfold mbind, M_bind. destruct (GetAsyncJob id _) as [[e|job] db1] eqn:Eg.
  - intros [= <- <-]. eexists. split_and!; [done|by apply (reads_GetAsyncJob id) in Eg|].
    intros Hnf [Hd _ _ _ _] Ht Hne (r & Hr & Hid). rewrite (run_Get Hnf id _ r) in Eg by (simpl; congruence || done). done.
  - intros [= <- <-]. eexists. split_and!; [done|by apply (reads_GetAsyncJob id) in Eg|]. done.
Qed.

Lemma decide_waiting_ok prefix op id cs db job db' :
  decide_waiting prefix op id cs db = (inr job, db') →
  (∃ r, r ∈ rows db ∧ in_state id AsyncJobStateWaitingApproval r = true) ∧
  rows db' = update_where (in_state id AsyncJobStateWaitingApproval) (apply_set cs) (rows db).
Proof.
  intros E. destruct (Nat.eq_dec (count_where (in_state id AsyncJobStateWaitingApproval) (rows db)) 0%nat) as [H0|H0].
  { by destruct (decide_waiting_refused _ _ _ _ _ _ _ H0 E) as (e & ? & _). }
  split.
  - destruct (existsb (in_state id AsyncJobStateWaitingApproval) (rows db)) eqn:Ee.
    + apply existsb_true_Exists in Ee as (r & ? & ?). eauto.
    + exfalso. apply H0, count_where_zero. intros x Hx. by rewrite existsb_false_Forall, Forall_forall in Ee; auto.
  - revert E. unfold decide_waiting, wrap_error, exec, sql_update. unfold mbind, M_bind.
    destruct (sql_fault (ticks db)); [done|]. intros E. by apply (reads_conflict_or_job _ _ _) in E.
Qed.

(** After a decision on a waiting job, nobody finds it waiting again. *)
Lemma decided_not_waiting db id cs db2 to :
  table_inv (rows db) → (∃ r, r ∈ rows db ∧ in_state id AsyncJobStateWaitingApproval r = true) →
  (∀ r, j_State (apply_set cs r) = to) → to ≠ AsyncJobStateQueued → to ≠ AsyncJobStateWaitingApproval →
  table_inv (update_where (in_state id AsyncJobStateWaitingApproval) (apply_set cs) (rows db)) →
  rtc db_step (update_where (in_state id AsyncJobStateWaitingApproval) (apply_set cs) (rows db)) (rows db2) →
  count_where (in_state id AsyncJobStateWaitingApproval) (rows db2) = 0%nat ∧ ∃ r, r ∈ rows db2 ∧ j_ID r = id.
Proof.
  intros Hinv (r & Hr & Hin) Hto Hq Hw Hinv1 Hsteps.
  assert (Hr1 : apply_set cs r ∈ update_where (in_state id AsyncJobStateWaitingApproval) (apply_set cs) (rows db))
    by (by apply elem_update_in_state).
  destruct (steps_evolve _ _ _ Hsteps Hinv1 Hr1) as (r2 & Hr2 & Hev).
  assert (Hid : j_ID r2 = id).
  { destruct Hev as [Hi _]. unfold identity in Hi. assert (j_ID r2 = j_ID (apply_set cs r)) as -> by congruence.
    rewrite apply_set_id. by eapply in_state_id. }
  split; [|eauto]. pose proof (steps_inv _ _ Hsteps Hinv1) as [Hd2 _ _ _ _].
  apply (proj2 (count_in_state (rows db2) r2 id Hd2 Hr2 Hid)). intros Heq. symmetry in Heq.
  revert Heq. eapply evolves_not_waiting; [exact Hev| |]; by rewrite Hto.
Qed.

(** A job is approved at most once.  After a successful approval, under
    every interleaving of other store calls, a second approval or a rejection
    of that job changes nothing and fails, with a conflict when the database
    answers. *)
Theorem approve_once id db job db1 db2 reason :
  rtc store_call empty_db db → ApproveAsyncJob id db = (inr job, db1) → rtc store_call db1 db2 →
  (∀ res db3, ApproveAsyncJob id db2 = (res, db3) ∨ RejectAsyncJob id reason db2 = (res, db3) →
     ∃ e, res = inl e ∧ rows db3 = rows db2 ∧ ((∀ n, sql_fault n = None) → IsAsyncJobConflict e = true)).
Proof.
  intros H0%calls_step Ha H2%calls_step. pose proof (steps_inv _ _ H0 table_inv_nil) as Hinv.
  revert Ha. unfold ApproveAsyncJob, RejectAsyncJob. cbv zeta.
  destruct (String.eqb_spec (TrimSpace id) "") as [|Hne]; [done|]. unfold mbind at 1, M_bind at 1. simpl.
  intros Ha. apply decide_waiting_ok in Ha as [Hex Hrows].
  assert (Hstep : db_step (rows db) (rows db1)) by (rewrite Hrows; apply st_update; constructor).
  pose proof (db_step_inv _ _ Hstep Hinv) as Hinv1. pose proof (steps_inv _ _ H2 Hinv1) as Hinv2.
  rewrite Hrows in Hinv1, H2.
  destruct (decided_not_waiting (tick db) (TrimSpace id) (approve_clauses (clock (ticks db))) db2 AsyncJobStateRunning Hinv Hex) as [Hc (r & Hr & Hid)]; try done.
  assert (Hsecond : ∀ prefix op cs res db3,
    decide_waiting prefix op (TrimSpace id) cs (tick db2) = (res, db3) →
    ∃ e, res = inl e ∧ rows db3 = rows db2 ∧ ((∀ n, sql_fault n = None) → IsAsyncJobConflict e = true)).
  { intros prefix op cs res db3 E.
    destruct (decide_waiting_refused prefix op (TrimSpace id) cs (tick db2) res db3 Hc E) as (e & He & Hr3 & Hcf).
    exists e. split_and!; [done|done|]. intros Hnf. apply Hcf; eauto using TrimSpace_idem. }
  intros res db3 [E|E].
  - exact (Hsecond "approve async job" "approve" (approve_clauses (clock (ticks db2))) res db3 E).
  - exact (Hsecond "reject async job" "reject" (reject_clauses (TrimSpace reason) (clock (ticks db2))) res db3 E).
Qed.
End decisions.

(** *** Expiry compares texts *)

Lemma compare_common_prefix p a b : String.compare (p +:+ a)%string (p +:+ b)%string = String.compare a b.
Proof.
  induction p as [|c p IH]; [done|].
  change (match Ascii.compare c c with Eq => String.compare (p +:+ a)%string (p +:+ b)%string | x => x end = String.compare a b).
  replace (Ascii.compare c c) with Eq; [exact IH|]. unfold Ascii.compare. by rewrite N.compare_refl.
Qed.

(** Within a second, every instant with a fraction has a smaller text than the
    whole second. *)
Lemma fraction_before_whole s f : 0 < f < Second →
  String.compare (format_RFC3339Nano (s * Second + f)) (format_RFC3339Nano (s * Second)) = Lt.
Proof.
  intros Hf. unfold format_RFC3339Nano. cbv zeta. assert (Hpos : 0 < Second) by done.
  replace ((s * Second + f) / Second) with s by (rewrite Z.add_comm, Z.div_add by lia; rewrite Z.div_small; lia).
  replace ((s * Second + f) mod Second) with f by (rewrite Z.add_comm, Z.mod_add by lia; rewrite Z.mod_small; lia).
  replace (s * Second / Second) with s by (rewrite Z.div_mul; lia).
  replace ((s * Second) mod Second) with 0 by (rewrite Z.mod_mul; lia).
  replace (f =? 0) with false by lia. simpl (0 =? 0). cbv iota.
  rewrite !compare_common_prefix, !str_app_assoc. reflexivity.
Qed.

(** The approval window is compared as text, and the RFC 3339 text of an
    instant drops a zero fraction, so the texts within one second do not order
    as the instants do.  A waiting job whose window ends later within the
    current second is expired at once when the clock stands on the whole second
    (early), and a window that ends on a whole second is not over for any later
    instant of that second (late). *)
Theorem expiry_text_order r s f :
  j_State r = AsyncJobStateWaitingApproval → 0 < f < Second →
  (j_ExpiresAt r = Some (s * Second + f) → approval_window_over (s * Second) r = true) ∧
  (j_ExpiresAt r = Some (s * Second) → approval_window_over (s * Second + f) r = false).
Proof.
  intros Hw Hf. pose proof (fraction_before_whole s f Hf) as Hlt. unfold approval_window_over, text_le.
  rewrite Hw, String.eqb_refl. split; intros ->; cbn [andb].
  - by rewrite Hlt.
  - rewrite String.compare_antisym, Hlt. done.
Qed.

(** ** Witnesses *)

Module StoreExamples.
#[export] Existing Instances ExampleHost.host ExampleHost.host_laws.

Definition job : AsyncJob :=
  {| j_ID := "j-1"; j_WorkspaceID := ""; j_ProbeID := "p-1"; j_RequestID := "r-1"; j_Command := "systemctl";
     j_Args := ["restart"; "nginx"]; j_Level := "remediate"; j_State := AsyncJobStateQueued; j_StatusReason := "";
     j_ApprovalID := ""; j_ExitCode := None; j_Output := ""; j_CreatedAt := zero_time; j_UpdatedAt := zero_time;
     j_StartedAt := None; j_FinishedAt := None; j_ExpiresAt := None; j_ApprovedBy := ""; j_RejectedBy := "";
     j_RejectionReason := ""; j_ApprovalDeadline := None |}.

Definition created : DB := (CreateAsyncJob job empty_db).2.
Definition waiting : DB :=
  (TransitionAsyncJob "j-1" AsyncJobStateWaitingApproval (transition_options "approval" "u-1" None "" (Some (900 * Second))) created).2.
Definition approved : DB := (ApproveAsyncJob "j-1" waiting).2.
Definition row_of (db : DB) : AsyncJob := default job (head (rows db)).

Lemma created_reachable : rtc store_call empty_db created.
Proof. eapply rtc_once, call_create, surjective_pairing. Qed.
Lemma waiting_reachable : rtc store_call empty_db waiting.
Proof. eapply rtc_r; [apply created_reachable|]. eapply call_update, call_transition, surjective_pairing. Qed.
Lemma approved_after_waiting : rtc store_call waiting approved.
Proof. eapply rtc_once, call_update, call_approve, surjective_pairing. Qed.
End StoreExamples.
Import StoreExamples.

Lemma async_table_invariant_witness : NoDup (map j_ID (rows waiting)).
Proof. apply (async_table_invariant waiting waiting_reachable). Defined.

Lemma async_job_lifecycle_witness : ∃ r', r' ∈ rows approved ∧ identity r' = identity (row_of waiting).
Proof.
  destruct (async_job_lifecycle waiting approved (row_of waiting) waiting_reachable approved_after_waiting) as (r' & H1 & H2 & _).
  - vm_compute. left.
  - exists r'. exact (conj H1 H2).
Defined.

Lemma store_calls_atomic_witness : rows created = [] ∨ db_step [] (rows created).
Proof. apply (store_calls_atomic empty_db created). eapply call_create, surjective_pairing. Defined.

Lemma transition_spec_witness :
  (TransitionAsyncJob "j-1" AsyncJobStateQueued no_options waiting).1 =
  inl (invalid_transition AsyncJobStateWaitingApproval AsyncJobStateQueued).
Proof.
  pose proof (transition_spec (λ _, eq_refl) "j-1" AsyncJobStateQueued no_options waiting _ _
    ltac:(apply (steps_inv _ _ (calls_step _ _ waiting_reachable) table_inv_nil)) ltac:(discriminate) ltac:(reflexivity)
    (ex_intro _ LQueued eq_refl) (surjective_pairing _)) as Hs.
  replace (List.find (has_id "j-1") (rows waiting)) with (Some (row_of waiting)) in Hs by (vm_compute; reflexivity).
  replace (j_State (row_of waiting)) with AsyncJobStateWaitingApproval in Hs by (vm_compute; reflexivity).
  exact (proj1 Hs).
Defined.

Lemma approve_once_witness : ∃ e, (ApproveAsyncJob "j-1" approved).1 = inl e ∧ IsAsyncJobConflict e = true.
Proof.
  destruct (approve_once "j-1" waiting (scanAsyncJob (row_of approved)) approved approved "" waiting_reachable
    ltac:(vm_compute; reflexivity) (rtc_refl _ _) _ _ (or_introl (surjective_pairing _))) as (e & H1 & _ & H3).
  exists e. split; [exact H1|apply H3]. intros n. reflexivity.
Defined.

Lemma expiry_text_order_witness : approval_window_over (900 * Second + 1) (row_of waiting) = false.
Proof.
  apply (expiry_text_order (row_of waiting) 900 1 ltac:(vm_compute; reflexivity) ltac:(split; reflexivity)).
  vm_compute. reflexivity.
Defined.
