(* ===== verification/AsyncManager.v ===== *)
(** * The async job manager and the worker scheduler
    (src/internal/controlplane/jobs/async_manager.go, async_scheduler.go)

    The manager and the scheduler are layers over the store of AsyncStore.v and
    use its monad.  [drainQueued] returns the jobs it hands to the dispatcher,
    in order; what the dispatcher answers is an argument.  The latency
    histograms are not modelled. *)
From S2P Require Import Prelude GoStrings GoErrors GoTime GoSort Protocol AsyncTypes GoSql AsyncStore AsyncLifecycle.
Local Open Scope go_scope.
Local Open Scope Z_scope.

Section manager.
Context `{Host}.

(** ** The manager *)

Record AsyncManager := { maxQueueDepth : Z }.

(** [WithAsyncMaxQueueDepth] *)
Definition with_max_queue_depth (maxDepth : Z) (m : AsyncManager) : AsyncManager :=
  if 0 <? maxDepth then {| maxQueueDepth := maxDepth |} else m.

Definition set_state (j : AsyncJob) (s : AsyncJobState) : AsyncJob := apply_clause j (SetState s).

Definition CreateJob (m : AsyncManager) (job : AsyncJob) : M AsyncJob :=
  let job := set_state job AsyncJobStateQueued in
  if 0 <? maxQueueDepth m then
    queued ← CountAsyncJobsByState [AsyncJobStateQueued];
    if maxQueueDepth m <=? queued then fail (AsyncQueueSaturatedError queued (maxQueueDepth m))
    else CreateAsyncJob job
  else CreateAsyncJob job.

Definition CreateForCommandInWorkspace (m : AsyncManager) (probeID workspaceID : string) (cmd : CommandPayload) : M AsyncJob :=
  CreateJob m
    {| j_ID := ""; j_WorkspaceID := ToLower (TrimSpace workspaceID); j_ProbeID := TrimSpace probeID;
       j_RequestID := TrimSpace (cmd_RequestID cmd); j_Command := TrimSpace (cmd_Command cmd); j_Args := cmd_Args cmd;
       j_Level := cmd_Level cmd; j_State := ""; j_StatusReason := ""; j_ApprovalID := ""; j_ExitCode := None;
       j_Output := ""; j_CreatedAt := zero_time; j_UpdatedAt := zero_time; j_StartedAt := None; j_FinishedAt := None;
       j_ExpiresAt := None; j_ApprovedBy := ""; j_RejectedBy := ""; j_RejectionReason := ""; j_ApprovalDeadline := None |}.
Definition CreateForCommand m probeID cmd := CreateForCommandInWorkspace m probeID "" cmd.

Definition ListJobs (limit : Z) : M (list AsyncJob) := ListAsyncJobs limit.
Definition ListJobsByWorkspace (workspaceID : string) (limit : Z) : M (list AsyncJob) := ListAsyncJobsByWorkspace workspaceID limit.
Definition GetJob (id : string) : M AsyncJob := GetAsyncJob id.
Definition GetJobByRequestID (requestID : string) : M AsyncJob := GetAsyncJobByRequestID requestID.

Definition transitionByRequestID (requestID : string) (to : AsyncJobState) (opts : AsyncJobTransitionOptions) : M AsyncJob :=
  job ← GetAsyncJobByRequestID requestID;
  TransitionAsyncJob (j_ID job) to opts.

Definition MarkRunning (jobID : string) : M AsyncJob := TransitionAsyncJob jobID AsyncJobStateRunning no_options.
Definition MarkRunningByRequestID (requestID : string) : M AsyncJob :=
  transitionByRequestID requestID AsyncJobStateRunning no_options.
Definition MarkWaitingApproval (jobID approvalID reason : string) (expiresAt : option time) : M AsyncJob :=
  TransitionAsyncJob jobID AsyncJobStateWaitingApproval (transition_options reason approvalID None "" expiresAt).
Definition MarkSucceededByRequestID (requestID : string) (exitCode : Z) (output : string) : M AsyncJob :=
  transitionByRequestID requestID AsyncJobStateSucceeded (transition_options "" "" (Some exitCode) output None).
Definition MarkFailedByRequestID (requestID reason output : string) (exitCode : option Z) : M AsyncJob :=
  transitionByRequestID requestID AsyncJobStateFailed (transition_options reason "" exitCode output None).
Definition CancelJob (jobID reason : string) : M AsyncJob := CancelAsyncJob jobID reason.

(** The counts of expired jobs and the error: the second statement can fail
    after the first one succeeded. *)
Definition ExpireStale (now : time) : DB → Z * Z * option go_error * DB := λ db,
  match ExpireRunningAsyncJobs "control plane restarted before command completed" db with
  | (inl e, db1) => (0, 0, Some e, db1)
  | (inr running, db1) =>
      match ExpireWaitingApprovalAsyncJobs now "approval window expired while control plane restarted" db1 with
      | (inl e, db2) => (running, 0, Some e, db2)
      | (inr waiting, db2) => (running, waiting, None, db2)
      end
  end.

Definition ApproveJob (jobID : string) : M AsyncJob :=
  let jobID := TrimSpace jobID in
  if jobID =s "" then errorf "job id required" else ApproveAsyncJob jobID.
Definition RejectJob (jobID reason : string) : M AsyncJob :=
  let jobID := TrimSpace jobID in
  if jobID =s "" then errorf "job id required" else RejectAsyncJob jobID (TrimSpace reason).

(** ** The scheduler *)

Definition defaultAsyncSchedulerMaxInFlight : Z := 8.
Definition defaultAsyncSchedulerPollInterval : duration := 200 * Millisecond.
Definition defaultAsyncSchedulerFetchBatch : Z := 64.

Record AsyncWorkerConfig := { MaxInFlight : Z; MaxPerProbe : Z; PollInterval : duration; FetchBatchSize : Z }.

Definition normalized_config (c : AsyncWorkerConfig) : AsyncWorkerConfig :=
  let maxInFlight := if MaxInFlight c <=? 0 then defaultAsyncSchedulerMaxInFlight else MaxInFlight c in
  let batch := if FetchBatchSize c <=? 0 then defaultAsyncSchedulerFetchBatch else FetchBatchSize c in
  let batch := if batch <? maxInFlight then maxInFlight else batch in
  {| MaxInFlight := maxInFlight;
     MaxPerProbe := if MaxPerProbe c <? 0 then 0 else MaxPerProbe c;
     PollInterval := if PollInterval c <=? 0 then defaultAsyncSchedulerPollInterval else PollInterval c;
     FetchBatchSize := if maxAsyncJobListLimit <? batch then maxAsyncJobListLimit else batch |}.

(** The claimed job (if any), the reason for deferring, and the updated
    counters. *)
Definition claimQueuedJob (cfg : AsyncWorkerConfig) (candidate : AsyncJob) (runningTotal : Z) (runningByProbe : gmap string Z)
    : M (option AsyncJob * string * Z * gmap string Z) := λ db,
  if MaxInFlight cfg <=? runningTotal then (inr (None, "global_limit", runningTotal, runningByProbe), db)
  else if (0 <? MaxPerProbe cfg) && (MaxPerProbe cfg <=? default 0 (runningByProbe !! j_ProbeID candidate))
  then (inr (None, "probe_limit", runningTotal, runningByProbe), db)
  else match TransitionAsyncJob (j_ID candidate) AsyncJobStateRunning no_options db with
  | (inl err, db') =>
      if IsNotFound err || errors_Is err ErrInvalidAsyncJobTransition
      then (inr (None, "state_changed", runningTotal, runningByProbe), db')
      else (inl err, db')
  | (inr claimed, db') =>
      (inr (Some claimed, "", runningTotal + 1,
            <[j_ProbeID claimed := default 0 (runningByProbe !! j_ProbeID claimed) + 1]> runningByProbe), db')
  end.

(** The loop of [drainQueued]; [left] is [available - started]. *)
Fixpoint drain_loop (cfg : AsyncWorkerConfig) (queued : list AsyncJob) (left runningTotal : Z)
    (runningByProbe : gmap string Z) (db : DB) : list AsyncJob * DB :=
  match queued with
  | [] => ([], db)
  | candidate :: rest =>
      if left <=? 0 then ([], db)
      else match claimQueuedJob cfg candidate runningTotal runningByProbe db with
      | (inl _, db') => drain_loop cfg rest left runningTotal runningByProbe db'
      | (inr (None, _, total, byProbe), db') => drain_loop cfg rest left total byProbe db'
      | (inr (Some claimed, _, total, byProbe), db') =>
          let '(dispatched, db'') := drain_loop cfg rest (left - 1) total byProbe db' in
          (claimed :: dispatched, db'')
      end
  end.

Definition map_total (m : gmap string Z) : Z := map_fold (λ _ c acc, c + acc) 0 m.

Definition drainQueued (cfg : AsyncWorkerConfig) (db : DB) : list AsyncJob * DB :=
  match RunningAsyncJobsByProbe db with
  | (inl _, db1) => ([], db1)
  | (inr runningByProbe, db1) =>
      let runningTotal := map_total runningByProbe in
      let available := MaxInFlight cfg - runningTotal in
      if available <=? 0 then ([], db1)
      else match ListAsyncJobsByState AsyncJobStateQueued (FetchBatchSize cfg) db1 with
      | (inl _, db2) => ([], db2)
      | (inr queued, db2) => drain_loop cfg queued available runningTotal runningByProbe db2
      end
  end.

(** [dispatchClaimedSync]: [answer] is what the dispatcher returned. *)
Definition dispatchClaimedSync (job : AsyncJob) (answer : option go_error) : DB → option go_error * DB := λ db,
  match answer with
  | None => (None, db)
  | Some err =>
      let '(_, db') := TransitionAsyncJob (j_ID job) AsyncJobStateFailed (transition_options (Error err) "" None (Error err) None) db in
      (Some err, db')
  end.

Definition AsyncDispatchOutcomeStarted : string := "started".
Definition AsyncDispatchOutcomeQueued : string := "queued".
Record AsyncDispatchResult := { ar_Outcome : string; ar_Reason : string; ar_Job : option AsyncJob }.
Definition no_dispatch : AsyncDispatchResult := {| ar_Outcome := ""; ar_Reason := ""; ar_Job := None |}.

Definition DispatchNow (cfg : AsyncWorkerConfig) (jobID : string) (answer : AsyncJob → option go_error)
    : DB → AsyncDispatchResult * option go_error * DB := λ db,
  let jobID := TrimSpace jobID in
  if jobID =s "" then (no_dispatch, Some (ErrorString "job id required"), db)
  else match GetAsyncJob jobID db with
  | (inl e, db1) => (no_dispatch, Some e, db1)
  | (inr job, db1) =>
      if j_State job <>s AsyncJobStateQueued
      then ({| ar_Outcome := AsyncDispatchOutcomeQueued; ar_Reason := "job_not_queued"; ar_Job := Some job |}, None, db1)
      else match RunningAsyncJobsByProbe db1 with
      | (inl e, db2) => (no_dispatch, Some e, db2)
      | (inr byProbe, db2) =>
          match claimQueuedJob cfg job (map_total byProbe) byProbe db2 with
          | (inl e, db3) => (no_dispatch, Some e, db3)
          | (inr (None, reason, _, _), db3) =>
              ({| ar_Outcome := AsyncDispatchOutcomeQueued; ar_Reason := reason; ar_Job := Some job |}, None, db3)
          | (inr (Some claimed, _, _, _), db3) =>
              let '(err, db4) := dispatchClaimedSync claimed (answer claimed) db3 in
              ({| ar_Outcome := AsyncDispatchOutcomeStarted; ar_Reason := ""; ar_Job := Some claimed |}, err, db4)
          end
      end
  end.
End manager.

(** ** Counting jobs *)

(** Replacing the row of one job changes a count by that job alone. *)
Lemma count_replace p l r r' :
  NoDup (map j_ID l) → r ∈ l →
  (count_where p (update_where (has_id (j_ID r)) (λ _, r') l) + (if p r then 1 else 0) =
   count_where p l + (if p r' then 1 else 0))%nat.
Proof.
  intros Hd Hr. induction l as [|x l IH]; [by apply not_elem_of_nil in Hr|].
  simpl in Hd. apply NoDup_cons in Hd as [Hx Hd]. unfold update_where; simpl; fold (update_where (has_id (j_ID r)) (λ _, r') l).
  rewrite !count_where_cons. apply elem_of_cons in Hr as [<-|Hr].
  - unfold has_id at 1. rewrite String.eqb_refl.
    replace (update_where (has_id (j_ID r)) (λ _, r') l) with l; [lia|]. symmetry. apply update_where_none, count_where_zero.
    intros y Hy. unfold has_id. apply String.eqb_neq. intros E. apply Hx. rewrite <- E. apply list_elem_of_fmap. eauto.
  - specialize (IH Hd Hr). unfold has_id at 1. destruct (String.eqb_spec (j_ID x) (j_ID r)) as [E|]; [|lia].
    exfalso. apply Hx. rewrite E. apply list_elem_of_fmap. eauto.
Qed.

Definition is_queued (r : AsyncJob) : bool := j_State r =s AsyncJobStateQueued.
Definition running_on (p : string) (r : AsyncJob) : bool := is_running r && (j_ProbeID r =s p).

Lemma count_filter p l :
  count_where (λ r, j_ProbeID r =s p) (List.filter is_running l) = count_where (running_on p) l.
Proof.
  induction l as [|r l IH]; [done|]. rewrite count_where_cons, <- IH. cbn [List.filter]. unfold running_on.
  destruct (is_running r); cbn [andb]; [by rewrite count_where_cons|done].
Qed.

(** Updates never put a job back into the queue. *)
Lemma evolves_queued r r' : evolves r r' → is_queued r' = true → is_queued r = true.
Proof.
  intros [_ (s & s' & Hs & Hs' & Hd)]. unfold is_queued. rewrite Hs, Hs', !String.eqb_eq.
  change AsyncJobStateQueued with (state_name LQueued). intros ->%state_name_inj.
  destruct Hd as [Hlt|[-> _]]; [simpl in Hlt; lia|done].
Qed.

Lemma Forall2_count_le (p : AsyncJob → bool) l l' :
  Forall2 (λ r r', p r' = true → p r = true) l l' → (count_where p l' <= count_where p l)%nat.
Proof.
  induction 1 as [|r r' l l' Hp _ IH]; [done|]. rewrite !count_where_cons. destruct (p r') eqn:E; [rewrite Hp by done|]; simpl; lia.
Qed.

Lemma update_step_queued l l' :
  table_inv l → update_step l l' → (count_where is_queued l' <= count_where is_queued l)%nat.
Proof.
  intros Hi Hs. apply Forall2_count_le. eapply Forall2_impl; [by apply update_step_evolves; [apply Hi|]|].
  intros r r'. apply evolves_queued.
Qed.

(** *** Grouped counts *)

Lemma group_count_lookup key l k :
  default 0 (group_count key l !! k) = Z.of_nat (count_where (λ r, key r =s k) l).
Proof.
  induction l as [|r l IH]; [done|].
  cbn [group_count foldr]. fold (group_count key l). rewrite count_where_cons.
  destruct (String.eqb_spec (key r) k) as [->|Hne].
  - rewrite lookup_insert_eq. simpl. rewrite IH. lia.
  - rewrite lookup_insert_ne by done. rewrite IH. lia.
Qed.

Lemma group_count_keys key l k : is_Some (group_count key l !! k) → ∃ r, r ∈ l ∧ key r = k.
Proof.
  induction l as [|r l IH]; [by intros [? ?]|].
  cbn [group_count foldr]. fold (group_count key l). rewrite lookup_insert_is_Some.
  intros [<-|[_ (r' & Hr' & Hk)%IH]]; [exists r; split; [apply list_elem_of_here|done]|exists r'; split; [by apply list_elem_of_further|done]].
Qed.

Lemma trim_keys_id m : (∀ k, is_Some (m !! k) → TrimSpace k = k) → trim_keys m = m.
Proof.
  unfold trim_keys. intros Hk. revert Hk.
  apply (map_fold_weak_ind (λ acc m, (∀ k, is_Some (m !! k) → TrimSpace k = k) → acc = m)); [done|].
  intros k c m' acc Hm IH Hk. rewrite IH.
  - rewrite Hk; [done|]. rewrite lookup_insert_eq. eauto.
  - intros k' Hk'. apply Hk. rewrite lookup_insert_is_Some'. eauto.
Qed.

Lemma map_total_insert m k c : map_total (<[k := c]> m) = c + map_total m - default 0 (m !! k).
Proof.
  unfold map_total. destruct (m !! k) as [c0|] eqn:E; simpl.
  - rewrite <- insert_delete_eq, map_fold_insert_L; [|intros; lia|apply lookup_delete_eq].
    rewrite <- (insert_delete_id m k c0) at 2 by done. rewrite map_fold_insert_L; [lia|intros; lia|apply lookup_delete_eq].
  - rewrite map_fold_insert_L; [lia|intros; lia|done].
Qed.

Lemma group_count_total key l : map_total (group_count key l) = Z.of_nat (length l).
Proof.
  induction l as [|r l IH]; [done|]. cbn [group_count foldr]. fold (group_count key l). rewrite map_total_insert, IH.
  cbn [length]. destruct (group_count key l !! key r); simpl; lia.
Qed.

(** ** Admission *)

Section admission.
Context `{Host} (m : AsyncManager).

(** What can happen to the queue: a [CreateJob] call, a [CreateJob] call whose
    admission check and insert are separated by updates of other callers (the
    manager's lock keeps other creations out), or an update. *)
Inductive admission (db : DB) : DB → Prop :=
  | ad_create job res db' : CreateJob m job db = (res, db') → admission db db'
  | ad_create_interleaved job queued db1 db2 res db' :
      CountAsyncJobsByState [AsyncJobStateQueued] db = (inr queued, db1) → queued < maxQueueDepth m →
      rtc update_call db1 db2 →
      CreateAsyncJob (set_state job AsyncJobStateQueued) db2 = (res, db') → admission db db'
  | ad_update db' : update_call db db' → admission db db'.

Notation depth db := (Z.of_nat (count_where is_queued (rows db))).

Lemma count_queued_reads db n db' :
  CountAsyncJobsByState [AsyncJobStateQueued] db = (inr n, db') → n = depth db ∧ rows db' = rows db.
Proof.
  unfold CountAsyncJobsByState, query. simpl. destruct (sql_fault (ticks db)); [done|]. intros [= <- <-].
  split; [|done]. f_equal. unfold count_where. f_equal. apply filter_ext. intros r. unfold is_queued. by rewrite orb_false_r.
Qed.

Lemma update_call_depth db db' :
  update_call db db' → table_inv (rows db) → table_inv (rows db') ∧ depth db' <= depth db.
Proof.
  intros Hu Hi. destruct (update_call_writes db db' Hu) as [->|Hs]; [done|].
  split; [by eapply db_step_inv; [apply st_update|]|]. apply update_step_queued in Hs; [lia|done].
Qed.

Lemma update_calls_depth db db' :
  rtc update_call db db' → table_inv (rows db) → table_inv (rows db') ∧ depth db' <= depth db.
Proof.
  induction 1 as [|db db1 db2 Hu _ IH]; [done|]. intros Hi.
  destruct (update_call_depth _ _ Hu Hi) as [Hi1 Hd1]. destruct (IH Hi1). split; [done|lia].
Qed.

Lemma create_depth job db res db' :
  CreateAsyncJob job db = (res, db') → table_inv (rows db) → table_inv (rows db') ∧ depth db' <= depth db + 1.
Proof.
  intros Hc Hi. destruct (writes_CreateAsyncJob job db res db' Hc) as [->|Hs]; [split; [done|lia]|].
  split; [by eapply db_step_inv|]. destruct Hs as [j l' Hs|l' Hs]; [|apply update_step_queued in Hs; [lia|done]].
  unfold sql_insert in Hs. repeat case_match; simplify_eq. rewrite count_where_app, count_where_cons, count_where_nil.
  case_match; lia.
Qed.

Lemma admission_step db db' :
  0 < maxQueueDepth m → admission db db' → table_inv (rows db) → depth db <= maxQueueDepth m →
  table_inv (rows db') ∧ depth db' <= maxQueueDepth m.
Proof.
  intros Hpos Ha Hi Hd. destruct Ha as [job res db' Hc|job n db1 db2 res db' Hn Hlt Hu Hc|db' Hu].
  - unfold CreateJob in Hc. replace (0 <? maxQueueDepth m) with true in Hc by lia. unfold mbind, M_bind in Hc.
    destruct (CountAsyncJobsByState _ db) as [[e|n] db1] eqn:En.
    + simplify_eq. unfold CountAsyncJobsByState in En. simpl in En. apply reads_query in En. by rewrite En.
    + apply count_queued_reads in En as [-> Hr].
      destruct (Z.leb_spec (maxQueueDepth m) (depth db)); [unfold fail in Hc; simplify_eq; by rewrite Hr|].
      apply create_depth in Hc as [? Hd']; [|by rewrite Hr]. rewrite Hr in Hd'. split; [done|lia].
  - apply count_queued_reads in Hn as [-> Hr]. apply update_calls_depth in Hu as [Hi2 Hd2]; [|by rewrite Hr].
    rewrite Hr in Hd2. apply create_depth in Hc as [? Hd']; [|done]. split; [done|lia].
  - apply update_call_depth in Hu as [? ?]; [|done]. split; [done|lia].
Qed.

(** The queue depth limit holds: when the manager has one, no sequence of
    creations and updates, also when updates run between the admission check
    and the insert, ever leaves more queued jobs than the limit. *)
Theorem queue_depth_bounded db :
  0 < maxQueueDepth m → rtc admission empty_db db → depth db <= maxQueueDepth m.
Proof.
  intros Hpos Hr. assert (Hgen : ∀ d d', rtc admission d d' → table_inv (rows d) ∧ depth d <= maxQueueDepth m →
    table_inv (rows d') ∧ depth d' <= maxQueueDepth m).
  { induction 1 as [|d d1 d2 Ha _ IH]; [done|]. intros [Hi Hd]. apply IH. by eapply admission_step. }
  apply (Hgen empty_db db Hr). split; [apply table_inv_nil|change (depth empty_db) with 0; lia].
Qed.
End admission.

(** ** Draining the queue *)

Section drain.
Context `{Host, !HostLaws} (no_faults : ∀ n, sql_fault n = None) (cfg : AsyncWorkerConfig).

Notation running db := (Z.of_nat (count_where is_running (rows db))).
Notation running_of db p := (Z.of_nat (count_where (running_on p) (rows db))).

(** A job as [ListAsyncJobsByState] returns it, still queued in the table. *)
Definition candidate_of (db : DB) (c : AsyncJob) : Prop :=
  ∃ r, r ∈ rows db ∧ c = scanAsyncJob r ∧ j_State r = AsyncJobStateQueued.

Definition good_ids (db : DB) : Prop := Forall (λ r, TrimSpace (j_ID r) = j_ID r ∧ j_ID r ≠ "") (rows db).

(** The counters of the scheduler agree with the table. *)
Definition counters_ok (db : DB) (total : Z) (byProbe : gmap string Z) : Prop :=
  total = running db ∧ ∀ p, default 0 (byProbe !! p) = running_of db p.

(** Claiming a candidate moves it to running and counts it; deferring it
    changes nothing. *)
Lemma claim_spec db c total byProbe :
  table_inv (rows db) → good_ids db → candidate_of db c → counters_ok db total byProbe →
  match claimQueuedJob cfg c total byProbe db with
  | (inr (Some claimed, _, total', byProbe'), db') =>
      total < MaxInFlight cfg ∧ (0 < MaxPerProbe cfg → running_of db (j_ProbeID c) < MaxPerProbe cfg) ∧
      j_ID claimed = j_ID c ∧ j_ProbeID claimed = j_ProbeID c ∧ j_State claimed = AsyncJobStateRunning ∧
      total' = total + 1 ∧ counters_ok db' total' byProbe' ∧ table_inv (rows db') ∧ good_ids db' ∧
      (∀ p, running_of db' p = running_of db p + (if j_ProbeID c =s p then 1 else 0)) ∧
      (∀ c', candidate_of db c' → j_ID c' ≠ j_ID c → candidate_of db' c')
  | (inr (None, _, total', byProbe'), db') => total' = total ∧ byProbe' = byProbe ∧ db' = db
  | (inl _, _) => False
  end.
Proof.
  intros Hi Hg (r & Hr & -> & Hq) [Ht Hp]. unfold claimQueuedJob.
  destruct (Z.leb_spec (MaxInFlight cfg) total); [done|].
  destruct ((0 <? MaxPerProbe cfg) && _) eqn:Hpp; [done|].
  destruct (proj1 (Forall_forall _ _) Hg r Hr) as [Htrim Hne].
  destruct (TransitionAsyncJob (j_ID (scanAsyncJob r)) AsyncJobStateRunning no_options db) as [res db'] eqn:Et.
  pose proof (run_transition no_faults (j_ID r) AsyncJobStateRunning no_options db res db' r Hi Hne Htrim
    (ex_intro _ LRunning eq_refl) (find_unique _ r (ti_ids _ Hi) Hr) Et) as Hs.
  rewrite Hq in Hs.
  change (AsyncJobStateQueued =s AsyncJobStateRunning) with false in Hs.
  change (canTransitionAsyncJob AsyncJobStateQueued AsyncJobStateRunning) with true in Hs. cbv iota in Hs.
  destruct Hs as (now & Hs). set (r' := apply_set (transition_clauses AsyncJobStateRunning now no_options) r) in *.
  destruct Hs as (-> & Hst & Hrows).
  assert (Hid : identity r' = identity r) by apply apply_set_identity. unfold identity in Hid.
  assert (Hids : j_ID r' = j_ID r ∧ j_ProbeID r' = j_ProbeID r) by (by simplify_eq). clear Hid. destruct Hids as [Hid Hpr].
  assert (Hcount : ∀ p, Z.of_nat (count_where p (rows db')) =
    Z.of_nat (count_where p (rows db)) + (if p r' then 1 else 0) - (if p r then 1 else 0)).
  { intros p. rewrite Hrows. pose proof (count_replace p (rows db) r r' (ti_ids _ Hi) Hr). destruct (p r), (p r'); lia. }
  assert (Hrr : is_running r' = true ∧ is_running r = false) by (unfold is_running; by rewrite Hst, Hq).
  destruct Hrr as [Hr1 Hr0].
  assert (Hof : ∀ p, running_of db' p = running_of db p + (if j_ProbeID r =s p then 1 else 0)).
  { intros p. rewrite Hcount. unfold running_on. rewrite Hr1, Hr0, Hpr. simpl. lia. }
  assert (Hi' : table_inv (rows db')) by (by apply (update_call_depth db db'); [eapply call_transition|]).
  split_and!; try done; simpl.
  - intros Hpos. replace (0 <? MaxPerProbe cfg) with true in Hpp by lia. simpl in Hpp. apply Z.leb_gt in Hpp.
    by rewrite <- Hp.
  - split; [rewrite Hcount, Hr1, Hr0; lia|]. intros p. rewrite Hof.
    destruct (String.eqb_spec (j_ProbeID r) p) as [->|Hnp].
    + rewrite lookup_insert_eq. simpl. rewrite Hp. lia.
    + rewrite lookup_insert_ne by done. rewrite Hp. lia.
  - unfold good_ids. rewrite Hrows. apply Forall_forall. intros x [(y & _ & _ & ->)|[Hx _]]%elem_of_update_where.
    + by rewrite Hid.
    + exact (proj1 (Forall_forall _ _) Hg x Hx).
  - intros c' (y & Hy & -> & Hyq) Hne'. exists y. split_and!; [|done|done]. rewrite Hrows.
    apply elem_of_update_where. right. split; [done|]. by apply String.eqb_neq.
Qed.

(** The loop: as many jobs start as are dispatched, within both limits. *)
Lemma drain_loop_spec queued db total byProbe jobs db' :
  table_inv (rows db) → good_ids db → Forall (candidate_of db) queued → NoDup (map j_ID queued) →
  counters_ok db total byProbe →
  drain_loop cfg queued (MaxInFlight cfg - total) total byProbe db = (jobs, db') →
  running db' = running db + Z.of_nat (length jobs) ∧
  (running db' <= MaxInFlight cfg ∨ running db' = running db) ∧
  (∀ p, 0 < MaxPerProbe cfg → running_of db' p <= MaxPerProbe cfg ∨ running_of db' p = running_of db p) ∧
  map j_ID jobs `sublist_of` map j_ID queued ∧ Forall (λ j, j_State j = AsyncJobStateRunning) jobs.
Proof.
  revert db total byProbe jobs db'. induction queued as [|c queued IH]; intros db total byProbe jobs db' Hi Hg Hc Hd Hok.
  { intros [= <- <-]. split_and!; simpl; auto; lia. }
  simpl. apply Forall_cons in Hc as [Hc Hrest]. simpl in Hd. apply NoDup_cons in Hd as [Hnew Hd].
  destruct (Z.leb_spec (MaxInFlight cfg - total) 0) as [Hle|Hlt].
  { intros [= <- <-]. split_and!; simpl; auto; [lia|apply sublist_nil_l]. }
  pose proof (claim_spec db c total byProbe Hi Hg Hc Hok) as Hcl.
  destruct (claimQueuedJob cfg c total byProbe db) as [[e|[[[[claimed|] why] total'] byProbe']] db1]; [done| |].
  - destruct Hcl as (Hmax & Hpp & Hid & Hpr & Hst & -> & Hok' & Hi' & Hg' & Hof & Hcands).
    replace (MaxInFlight cfg - total - 1) with (MaxInFlight cfg - (total + 1)) by lia.
    destruct (drain_loop _ _ _ _ _ db1) as [jobs' db2] eqn:E. intros [= <- <-].
    assert (Hrest' : Forall (candidate_of db1) queued).
    { apply Forall_forall. intros c' Hc'. apply Hcands; [exact (proj1 (Forall_forall _ _) Hrest c' Hc')|].
      intros Heq. apply Hnew. rewrite <- Heq. apply list_elem_of_fmap. eauto. }
    destruct (IH db1 _ _ jobs' db2 Hi' Hg' Hrest' Hd Hok' E) as (H1 & H2 & H3 & H4 & H5).
    destruct Hok as [Ht _], Hok' as [Ht' _]. split_and!.
    + simpl length. lia.
    + left. destruct H2; lia.
    + intros p Hpos. specialize (H3 p Hpos). specialize (Hpp Hpos). rewrite Hof in H3.
      destruct (String.eqb_spec (j_ProbeID c) p) as [Hcp|Hcp]; [rewrite Hcp in Hpp; left; destruct H3; lia|].
      rewrite Z.add_0_r in H3. done.
    + simpl. rewrite Hid. by constructor.
    + by constructor.
  - destruct Hcl as (-> & -> & ->). intros E.
    destruct (IH db total byProbe jobs db' Hi Hg Hrest Hd Hok E) as (H1 & H2 & H3 & H4 & H5).
    split_and!; auto. simpl. by apply sublist_cons.
Qed.

Lemma counters_initial db :
  table_inv (rows db) →
  counters_ok db (map_total (trim_keys (group_count j_ProbeID (List.filter is_running (rows db)))))
    (trim_keys (group_count j_ProbeID (List.filter is_running (rows db)))).
Proof.
  intros Hi. rewrite trim_keys_id.
  - split; [by rewrite group_count_total|]. intros p. rewrite group_count_lookup. f_equal. apply count_filter.
  - intros k (r & Hr & <-)%group_count_keys. apply list_elem_of_In, filter_In in Hr as [Hr%list_elem_of_In _].
    exact (proj1 (Forall_forall _ _) (ti_probe _ Hi) r Hr).
Qed.

Lemma listed_candidates db limit l :
  select (λ r, j_State r =s AsyncJobStateQueued) created_asc limit (rows db) = inr l → table_inv (rows db) →
  Forall (candidate_of db) l ∧ NoDup (map j_ID l) ∧ Z.of_nat (length l) <= Z.max 0 limit.
Proof.
  unfold select. intros [= <-] [Hd _ _ _ _].
  set (sel := order_by created_asc (List.filter _ (rows db))).
  assert (Hperm : sel ≡ₚ List.filter (λ r, j_State r =s AsyncJobStateQueued) (rows db)) by apply order_by_perm.
  split_and!.
  - apply Forall_forall. intros c (r & -> & Hr)%list_elem_of_fmap. exists r.
    apply elem_of_take in Hr as (i & Hr & _). apply list_elem_of_lookup_2 in Hr. rewrite Hperm in Hr.
    apply list_elem_of_In, filter_In in Hr as [Hr%list_elem_of_In Hq%String.eqb_eq]. done.
  - rewrite map_map. assert (Hnd : NoDup (map j_ID sel)).
    { rewrite Hperm. clear -Hd. induction (rows db) as [|x l IH]; [done|]. simpl in *. apply NoDup_cons in Hd as [Hx Hd].
      destruct (j_State x =s AsyncJobStateQueued); [|by apply IH]. apply NoDup_cons. split; [|by apply IH].
      intros (y & Hy & Hin)%list_elem_of_fmap. apply Hx. apply list_elem_of_fmap. exists y. split; [done|].
      apply list_elem_of_In, filter_In in Hin as [Hin%list_elem_of_In _]. done. }
    change (NoDup (map j_ID (take (Z.to_nat limit) sel))). eapply sublist_NoDup; [exact Hnd|]. apply fmap_sublist, sublist_take.
  - rewrite length_map, length_take. lia.
Qed.

(** Draining respects both limits.  One pass of the scheduler, when the
    database answers and nobody else writes meanwhile, never pushes the number
    of running jobs over [MaxInFlight] nor that of one probe over
    [MaxPerProbe] (a table already over a limit gains no job there); every job
    it dispatches is now running, no job is dispatched twice, and as many jobs
    were started as dispatched. *)
Theorem drain_respects_limits db jobs db' :
  table_inv (rows db) → good_ids db → drainQueued cfg db = (jobs, db') →
  (running db' <= MaxInFlight cfg ∨ running db' = running db) ∧
  (∀ p, 0 < MaxPerProbe cfg → running_of db' p <= MaxPerProbe cfg ∨ running_of db' p = running_of db p) ∧
  running db' = running db + Z.of_nat (length jobs) ∧
  NoDup (map j_ID jobs) ∧ Forall (λ j, j_State j = AsyncJobStateRunning) jobs.
Proof.
  intros Hi Hg. unfold drainQueued, RunningAsyncJobsByProbe. rewrite run_query by done. cbn [rows tick].
  pose proof (counters_initial db Hi) as Hok. revert Hok. generalize (trim_keys (group_count j_ProbeID (List.filter is_running (rows db)))).
  intros byProbe Hok. destruct (Z.leb_spec (MaxInFlight cfg - map_total byProbe) 0).
  { intros [= <- <-]. split_and!; simpl; auto; [lia|constructor]. }
  unfold ListAsyncJobsByState. change (isKnownAsyncJobState (normalizeAsyncJobState AsyncJobStateQueued)) with true. cbv zeta iota.
  cbn [negb]. rewrite run_query by done. unfold select at 1. intros Hloop.
  destruct (listed_candidates db (normalizeAsyncJobLimit (FetchBatchSize cfg)) _ eq_refl Hi) as (Hc & Hd & _).
  destruct (drain_loop_spec _ (tick (tick db)) _ byProbe jobs db' Hi Hg Hc Hd Hok Hloop) as (Hl1 & Hl2 & Hl3 & Hl4 & Hl5).
  split_and!; try done. by eapply sublist_NoDup.
Qed.

(** A stale candidate is claimed again: when a job the scheduler has
    listed as queued has meanwhile been started by someone else, claiming it
    does not report [state_changed] but succeeds, because a transition to the
    current state is a success; the running job is dispatched a second time. *)
Theorem stale_candidate_claimed_twice db r c total byProbe :
  table_inv (rows db) → r ∈ rows db → j_State r = AsyncJobStateRunning → TrimSpace (j_ID r) = j_ID r → j_ID r ≠ "" →
  j_ID c = j_ID r → total < MaxInFlight cfg → MaxPerProbe cfg <= 0 →
  ∃ byProbe' db', claimQueuedJob cfg c total byProbe db = (inr (Some (scanAsyncJob r), "", total + 1, byProbe'), db') ∧
                  rows db' = rows db.
Proof.
  intros Hi Hr Hst Htrim Hne Hc Hlt Hpp. unfold claimQueuedJob.
  replace (MaxInFlight cfg <=? total) with false by lia. replace (0 <? MaxPerProbe cfg) with false by lia. cbn [andb].
  rewrite Hc. destruct (TransitionAsyncJob _ _ _ db) as [res db1] eqn:E.
  pose proof (run_transition no_faults (j_ID r) _ no_options db res db1 r Hi Hne Htrim (ex_intro _ LRunning eq_refl) (find_unique _ r (ti_ids _ Hi) Hr) E) as Hs.
  rewrite Hst in Hs. change (AsyncJobStateRunning =s AsyncJobStateRunning) with true in Hs.
  destruct Hs as [-> Hrows]. eauto.
Qed.
End drain.

(** ** The window between creation and the policy decision *)

Import StoreExamples.

Module SchedulerExamples.
Definition cfg : AsyncWorkerConfig := {| MaxInFlight := 8; MaxPerProbe := 1; PollInterval := 200 * Millisecond; FetchBatchSize := 64 |}.
Definition unlimited : AsyncWorkerConfig := {| MaxInFlight := 8; MaxPerProbe := 0; PollInterval := 200 * Millisecond; FetchBatchSize := 64 |}.
Definition manager : AsyncManager := {| maxQueueDepth := 2 |}.
Definition drained := drainQueued cfg created.
End SchedulerExamples.
Import SchedulerExamples.

(** An approval can be overtaken.  The dispatch handler creates the job in
    the queued state before it looks at the policy decision; if the scheduler
    drains the queue in between, the command that needed an approval is already
    running and dispatched, and marking the job as waiting for approval is
    refused as an illegal transition. *)
Theorem approval_overtaken_by_scheduler :
  ∃ started running expiry,
    drainQueued cfg created = ([started], running) ∧ j_ID started = "j-1" ∧ j_State started = AsyncJobStateRunning ∧
    (MarkWaitingApproval "j-1" "u-1" "command waiting for approval" expiry running).1 =
      inl (invalid_transition AsyncJobStateRunning AsyncJobStateWaitingApproval).
Proof.
  exists (default job (head drained.1)), drained.2, (Some (900 * Second)).
  split_and!; vm_compute; reflexivity.
Qed.

(** ** Witnesses *)

Lemma created_inv : table_inv (rows created).
Proof. exact (steps_inv _ _ (calls_step _ _ created_reachable) table_inv_nil). Qed.

Lemma queue_depth_bounded_witness :
  Z.of_nat (count_where is_queued (rows (CreateJob manager job empty_db).2)) <= 2.
Proof.
  apply (queue_depth_bounded manager _ ltac:(reflexivity)). eapply rtc_once, ad_create, surjective_pairing.
Defined.

Lemma drain_respects_limits_witness : NoDup (map j_ID drained.1).
Proof.
  apply (@drain_respects_limits ExampleHost.host ExampleHost.host_laws (λ _, eq_refl) cfg created drained.1 drained.2 created_inv).
  - apply Forall_cons; split; [split; [vm_compute; reflexivity|vm_compute; discriminate]|apply Forall_nil; exact I].
  - apply surjective_pairing.
Defined.

Lemma stale_candidate_claimed_twice_witness :
  ∃ byProbe' db', claimQueuedJob unlimited (row_of created) 0 ∅ drained.2 =
    (inr (Some (scanAsyncJob (row_of drained.2)), "", 1, byProbe'), db') ∧ rows db' = rows drained.2.
Proof.
  apply (@stale_candidate_claimed_twice ExampleHost.host (λ _, eq_refl) unlimited drained.2 (row_of drained.2) (row_of created) 0 ∅);
    try (vm_compute; reflexivity); try (vm_compute; discriminate).
  - apply (steps_inv (rows created)); [|exact created_inv].
    eapply rtc_once, st_update, (st_transition _ "j-1" AsyncJobStateQueued AsyncJobStateRunning); [by exists LQueued|by exists LRunning|discriminate|reflexivity].
  - vm_compute. left.
Defined.
