(* ===== verification/CmdTracker.v ===== *)
(** * The command tracker
    (src/internal/controlplane/cmdtracker/tracker.go)

    Callers share the tracker's map and the Go channels through which results
    travel, so channels live in a heap and a pending command holds the address
    of its channel.  [Complete] removes the command under the lock and sends on
    the channel after releasing it: the two halves are two steps, with the send
    in flight in between.  A send on a closed channel panics and a send on a
    full one blocks. *)
From S2P Require Import Prelude GoStrings GoErrors GoTime Protocol.
Local Open Scope go_scope.
Local Open Scope Z_scope.

Record PendingCommand := {
  pc_RequestID : string;
  pc_ProbeID : string;
  pc_Command : string;
  pc_Level : CapabilityLevel;
  pc_Submitted : time;
  pc_Result : nat;
}.

(** A channel of capacity 1 for results (a nil pointer is [None]). *)
Record chan := { buffer : list (option CommandResultPayload); closed : bool }.
Definition make_chan : chan := {| buffer := []; closed := false |}.

Inductive outcome (A : Type) := Ok (a : A) | Blocks | Panics.
Arguments Ok {A} a.
Arguments Blocks {A}.
Arguments Panics {A}.

Definition send (c : chan) (v : option CommandResultPayload) : outcome chan :=
  if closed c then Panics
  else match buffer c with [] => Ok {| buffer := [v]; closed := false |} | _ => Blocks end.

Definition close (c : chan) : outcome chan :=
  if closed c then Panics else Ok {| buffer := buffer c; closed := true |}.

Record Tracker := {
  pending : gmap string PendingCommand;
  chans : gmap nat chan;
  in_flight_sends : list (nat * option CommandResultPayload);
  ttl : duration;
}.

Definition set_chan (t : Tracker) (ch : nat) (c : chan) : Tracker :=
  {| pending := pending t; chans := <[ch := c]> (chans t); in_flight_sends := in_flight_sends t; ttl := ttl t |}.
Definition set_pending (t : Tracker) (p : gmap string PendingCommand) : Tracker :=
  {| pending := p; chans := chans t; in_flight_sends := in_flight_sends t; ttl := ttl t |}.

Definition New (ttl : duration) : Tracker := {| pending := ∅; chans := ∅; in_flight_sends := []; ttl := ttl |}.

(** [Track]: [ch] is the address of the new channel. *)
Definition Track (t : Tracker) (ch : nat) (now : time) (requestID probeID command : string) (level : CapabilityLevel)
    : PendingCommand * Tracker :=
  let pc := {| pc_RequestID := requestID; pc_ProbeID := probeID; pc_Command := command; pc_Level := level;
               pc_Submitted := now; pc_Result := ch |} in
  (pc, {| pending := <[requestID := pc]> (pending t); chans := <[ch := make_chan]> (chans t);
          in_flight_sends := in_flight_sends t; ttl := ttl t |}).

(** [Complete], up to the unlock. *)
Definition Complete (t : Tracker) (requestID : string) (result : option CommandResultPayload) : option go_error * Tracker :=
  match pending t !! requestID with
  | None => (Some (ErrorString ("no pending command for request " +:+ requestID)%string), t)
  | Some pc =>
      (None, {| pending := delete requestID (pending t); chans := chans t;
                in_flight_sends := in_flight_sends t ++ [(pc_Result pc, result)]; ttl := ttl t |})
  end.

(** The send of [Complete], for the [i]th send in flight. *)
Definition complete_send (t : Tracker) (i : nat) : option (outcome Tracker) :=
  match in_flight_sends t !! i with
  | None => None
  | Some (ch, v) =>
      let t' := {| pending := pending t; chans := chans t; in_flight_sends := delete i (in_flight_sends t); ttl := ttl t |} in
      match chans t !! ch with
      | None => None
      | Some c => Some match send c v with Ok c' => Ok (set_chan t' ch c') | Blocks => Blocks | Panics => Panics end
      end
  end.

Definition Cancel (t : Tracker) (requestID : string) : outcome Tracker :=
  match pending t !! requestID with
  | None => Ok t
  | Some pc =>
      let t' := set_pending t (delete requestID (pending t)) in
      match chans t !! pc_Result pc with
      | None => Ok t'
      | Some c => match close c with Ok c' => Ok (set_chan t' (pc_Result pc) c') | Blocks => Blocks | Panics => Panics end
      end
  end.

Definition InFlight (t : Tracker) : Z := Z.of_nat (size (pending t)).

Record PendingSummary := { sum_RequestID : string; sum_ProbeID : string; sum_Command : string; sum_Level : CapabilityLevel; sum_Waiting : duration }.
Definition ListPending (t : Tracker) (now : time) : list PendingSummary :=
  map (λ pc, {| sum_RequestID := pc_RequestID pc; sum_ProbeID := pc_ProbeID pc; sum_Command := pc_Command pc;
                sum_Level := pc_Level pc; sum_Waiting := now - pc_Submitted pc |}) (map_to_list (pending t)).*2.

Definition timeout_result (t : Tracker) (pc : PendingCommand) : CommandResultPayload :=
  {| res_RequestID := pc_RequestID pc; res_ExitCode := -1; res_Stdout := "";
     res_Stderr := "command timed out waiting for probe response"; res_Duration := ttl t ÷ Millisecond; res_Truncated := false |}.

(** One round of the loop of [expire]. *)
Definition expire_one (cutoff : time) (id : string) (pc : PendingCommand) (t : Tracker) : outcome Tracker :=
  if Before (pc_Submitted pc) cutoff then
    match chans t !! pc_Result pc with
    | None => Ok t
    | Some c =>
        match send c (Some (timeout_result t pc)) with
        | Ok c' => Ok (set_pending (set_chan t (pc_Result pc) c') (delete id (pending t)))
        | Blocks => Blocks
        | Panics => Panics
        end
    end
  else Ok t.

(** [expire]: [iter] lists the map in the order the iteration produced. *)
Fixpoint expire_loop (cutoff : time) (iter : list (string * PendingCommand)) (t : Tracker) : outcome Tracker :=
  match iter with
  | [] => Ok t
  | (id, pc) :: rest =>
      match expire_one cutoff id pc t with Ok t' => expire_loop cutoff rest t' | Blocks => Blocks | Panics => Panics end
  end.
Definition expire (t : Tracker) (now : time) (iter : list (string * PendingCommand)) : outcome Tracker :=
  expire_loop (now - ttl t) iter t.

(** A caller that receives from its channel: the value it gets, with Go's second
    result; [None] when it would block. *)
Definition receive (t : Tracker) (ch : nat) : option (option CommandResultPayload * bool * Tracker) :=
  match chans t !! ch with
  | Some c =>
      match buffer c with
      | v :: rest => Some (v, true, set_chan t ch {| buffer := rest; closed := closed c |})
      | [] => if closed c then Some (None, false, t) else None
      end
  | None => None
  end.

(** ** Interleavings *)

Inductive tracker_step (t : Tracker) : Tracker → Prop :=
  | ts_track ch now rid probe command level :
      chans t !! ch = None → tracker_step t (Track t ch now rid probe command level).2
  | ts_complete rid v : tracker_step t (Complete t rid v).2
  | ts_complete_send i t' : complete_send t i = Some (Ok t') → tracker_step t t'
  | ts_cancel rid t' : Cancel t rid = Ok t' → tracker_step t t'
  | ts_expire now iter t' : iter ≡ₚ map_to_list (pending t) → expire t now iter = Ok t' → tracker_step t t'
  | ts_receive ch v ok t' : receive t ch = Some (v, ok, t') → tracker_step t t'.

(** The channels someone will still send on: those of the pending commands and
    of the sends in flight. *)
Definition live_chans (t : Tracker) : list nat :=
  map (λ ipc, pc_Result ipc.2) (map_to_list (pending t)) ++ (in_flight_sends t).*1.

Record tracker_inv (t : Tracker) : Prop := {
  tk_live : Forall (λ ch, chans t !! ch = Some make_chan) (live_chans t);
  tk_distinct : NoDup (live_chans t);
  tk_ids : ∀ id pc, pending t !! id = Some pc → pc_RequestID pc = id;
}.

(** ** The invariant *)

Definition pending_chans (m : gmap string PendingCommand) : list nat := map (λ ipc, pc_Result ipc.2) (map_to_list m).

Lemma pending_chans_take m id pc : m !! id = Some pc → pending_chans m ≡ₚ pc_Result pc :: pending_chans (delete id m).
Proof. intros Hm. unfold pending_chans. by rewrite <- (map_to_list_delete m id pc Hm). Qed.

Lemma pending_chans_put m id pc : pending_chans (<[id := pc]> m) ≡ₚ pc_Result pc :: pending_chans (delete id m).
Proof.
  rewrite <- insert_delete_eq. unfold pending_chans. rewrite map_to_list_insert; [done|apply lookup_delete_eq].
Qed.

Lemma pending_chans_delete_sub m id : pending_chans (delete id m) ⊆+ pending_chans m.
Proof.
  destruct (m !! id) as [pc|] eqn:E; [|by rewrite delete_id].
  rewrite (pending_chans_take m id pc E). by apply submseteq_cons.
Qed.

(** A list of channels that are open, empty and pairwise distinct. *)
Definition ready (chs : gmap nat chan) (l : list nat) : Prop :=
  Forall (λ ch, chs !! ch = Some make_chan) l ∧ NoDup l.

Lemma ready_perm chs l l' : l ≡ₚ l' → ready chs l → ready chs l'.
Proof. intros Hp [Hf Hd]. split; by rewrite <- Hp. Qed.

Lemma ready_sub chs l l' : l' ⊆+ l → ready chs l → ready chs l'.
Proof.
  intros (k & Hk)%submseteq_Permutation [Hf Hd]. rewrite Hk in Hf, Hd.
  apply Forall_app in Hf as [Hf _]. apply NoDup_app in Hd as [Hd _]. done.
Qed.

Lemma ready_other chs l ch c : ch ∉ l → ready chs l → ready (<[ch := c]> chs) l.
Proof.
  intros Hch [Hf Hd]. split; [|done]. apply Forall_forall. intros x Hx.
  rewrite lookup_insert_ne by (intros ->; done). exact (proj1 (Forall_forall _ _) Hf x Hx).
Qed.

Lemma ready_cons chs l ch : ready chs (ch :: l) ↔ chs !! ch = Some make_chan ∧ ch ∉ l ∧ ready chs l.
Proof. unfold ready. rewrite Forall_cons, NoDup_cons. naive_solver. Qed.

Lemma ready_fresh chs l ch : chs !! ch = None → ready chs l → ch ∉ l.
Proof. intros Hn [Hf _] Hin. pose proof (proj1 (Forall_forall _ _) Hf ch Hin) as E. congruence. Qed.

Lemma live_take t id pc :
  pending t !! id = Some pc →
  live_chans t ≡ₚ pc_Result pc :: pending_chans (delete id (pending t)) ++ (in_flight_sends t).*1.
Proof. intros Hp. unfold live_chans. fold (pending_chans (pending t)). by rewrite (pending_chans_take _ id pc Hp). Qed.

Lemma live_send t i ch v :
  in_flight_sends t !! i = Some (ch, v) →
  live_chans t ≡ₚ ch :: pending_chans (pending t) ++ (delete i (in_flight_sends t)).*1.
Proof.
  intros Hi. unfold live_chans. fold (pending_chans (pending t)). rewrite (delete_Permutation _ _ _ Hi) at 1. simpl.
  by rewrite Permutation_middle.
Qed.

Lemma tracker_inv_ready t : tracker_inv t ↔ ready (chans t) (live_chans t) ∧ ∀ id pc, pending t !! id = Some pc → pc_RequestID pc = id.
Proof. split; [by intros []|by intros [[] ?]]. Qed.

Lemma track_live_chans t ch now rid probe command level :
  live_chans (Track t ch now rid probe command level).2 ≡ₚ
  ch :: pending_chans (delete rid (pending t)) ++ (in_flight_sends t).*1.
Proof.
  unfold live_chans; simpl. fold (pending_chans (<[rid := {| pc_RequestID := rid; pc_ProbeID := probe; pc_Command := command;
    pc_Level := level; pc_Submitted := now; pc_Result := ch |}]> (pending t))). by rewrite pending_chans_put.
Qed.

Lemma track_inv t ch now rid probe command level :
  chans t !! ch = None → tracker_inv t → tracker_inv (Track t ch now rid probe command level).2.
Proof.
  rewrite !tracker_inv_ready. intros Hn [Hr Hid]. split.
  - eapply ready_perm; [symmetry; apply track_live_chans|].
    assert (Hsub : ready (chans t) (pending_chans (delete rid (pending t)) ++ (in_flight_sends t).*1)).
    { eapply ready_sub; [|exact Hr]. by apply submseteq_skips_r, pending_chans_delete_sub. }
    apply ready_cons. split_and!; [by simpl; rewrite lookup_insert_eq|by eapply ready_fresh|].
    apply ready_other; [by eapply ready_fresh|done].
  - simpl. intros id pc. rewrite lookup_insert_Some. naive_solver.
Qed.

Lemma complete_inv t rid v : tracker_inv t → tracker_inv (Complete t rid v).2.
Proof.
  unfold Complete. destruct (pending t !! rid) as [pc|] eqn:E; [|done]. rewrite !tracker_inv_ready. intros [Hr Hid]. split.
  - eapply ready_perm; [|exact Hr]. rewrite (live_take t rid pc E). unfold live_chans; simpl.
    fold (pending_chans (delete rid (pending t))). rewrite fmap_app. simpl. rewrite app_assoc. by rewrite Permutation_cons_append.
  - simpl. intros id pc'. rewrite lookup_delete_Some. naive_solver.
Qed.

(** A send or a close on a live channel succeeds, and takes it out of the live
    ones. *)
Lemma complete_send_ok t i ch v :
  tracker_inv t → in_flight_sends t !! i = Some (ch, v) →
  ∃ t', complete_send t i = Some (Ok t') ∧ tracker_inv t' ∧ chans t' = <[ch := {| buffer := [v]; closed := false |}]> (chans t) ∧
        pending t' = pending t.
Proof.
  rewrite tracker_inv_ready. intros [Hr Hid] Hi. unfold complete_send. rewrite Hi.
  eapply ready_perm in Hr; [|by eapply live_send]. apply ready_cons in Hr as (Hch & Hnin & Hr).
  rewrite Hch. simpl. eexists. split_and!; [done| |done|done]. rewrite tracker_inv_ready. split; [|done].
  by apply ready_other.
Qed.

Lemma take_pending_inv t rid pc c :
  tracker_inv t → pending t !! rid = Some pc →
  chans t !! pc_Result pc = Some make_chan ∧ tracker_inv (set_chan (set_pending t (delete rid (pending t))) (pc_Result pc) c).
Proof.
  rewrite !tracker_inv_ready. intros [Hr Hid] Hp.
  eapply ready_perm in Hr; [|by eapply live_take]. apply ready_cons in Hr as (Hch & Hnin & Hr).
  split_and!; [done|by apply ready_other|]. simpl. intros id pc'. rewrite lookup_delete_Some. naive_solver.
Qed.

Lemma cancel_ok t rid : tracker_inv t → ∃ t', Cancel t rid = Ok t' ∧ tracker_inv t'.
Proof.
  intros Hi. unfold Cancel. destruct (pending t !! rid) as [pc|] eqn:E; [|by eauto].
  destruct (take_pending_inv t rid pc {| buffer := []; closed := true |} Hi E) as [Hch Hinv]. rewrite Hch. simpl. eauto.
Qed.

(** [expire] takes out the stale commands one by one. *)
Definition stale (cutoff : time) (pc : PendingCommand) : bool := Before (pc_Submitted pc) cutoff.
Definition full (v : option CommandResultPayload) : chan := {| buffer := [v]; closed := false |}.

Lemma expire_one_stale cutoff id pc t :
  tracker_inv t → pending t !! id = Some pc → stale cutoff pc = true →
  expire_one cutoff id pc t =
    Ok (set_pending (set_chan t (pc_Result pc) (full (Some (timeout_result t pc)))) (delete id (pending t))).
Proof.
  intros Hi Hp Hs. unfold expire_one. fold (stale cutoff pc). rewrite Hs.
  destruct (take_pending_inv t id pc make_chan Hi Hp) as [Hch _]. by rewrite Hch.
Qed.

Record expired (cutoff : time) (iter : list (string * PendingCommand)) (t t' : Tracker) : Prop := {
  ex_inv : tracker_inv t';
  ex_sends : in_flight_sends t' = in_flight_sends t;
  ex_ttl : ttl t' = ttl t;
  ex_gone : ∀ id pc, (id, pc) ∈ iter → stale cutoff pc = true → pending t' !! id = None;
  ex_kept : ∀ id pc, pending t !! id = Some pc → (id, pc) ∉ iter ∨ stale cutoff pc = false → pending t' !! id = Some pc;
  ex_none : ∀ id, pending t !! id = None → pending t' !! id = None;
  ex_told : ∀ id pc, (id, pc) ∈ iter → stale cutoff pc = true → chans t' !! pc_Result pc = Some (full (Some (timeout_result t pc)));
  ex_other : ∀ ch, (∀ id pc, (id, pc) ∈ iter → stale cutoff pc = true → pc_Result pc ≠ ch) → chans t' !! ch = chans t !! ch;
}.

Lemma expired_skip cutoff id pc iter t t' :
  stale cutoff pc = false → expired cutoff iter t t' → expired cutoff ((id, pc) :: iter) t t'.
Proof.
  intros Hs [I1 I2 I3 I4 I5 I6 I7 I8]. split; try done.
  - intros id' pc' [[= -> ->]|]%elem_of_cons; [congruence|]. by apply I4.
  - intros id' pc' Hp Hc. apply I5; [done|]. rewrite not_elem_of_cons in Hc.
    destruct Hc as [[_ Hc]|Hc]; [by left|by right].
  - intros id' pc' [[= -> ->]|]%elem_of_cons; [congruence|]. by apply (I7 id').
  - intros ch Hne. apply I8. intros id' pc' Hin. apply (Hne id'). by right.
Qed.

Lemma expired_take cutoff id pc iter t t' :
  let t1 := set_pending (set_chan t (pc_Result pc) (full (Some (timeout_result t pc)))) (delete id (pending t)) in
  pending t !! id = Some pc → id ∉ iter.*1 → stale cutoff pc = true →
  tracker_inv t1 → (∀ id' pc', (id', pc') ∈ iter → pending t1 !! id' = Some pc') →
  expired cutoff iter t1 t' → expired cutoff ((id, pc) :: iter) t t'.
Proof.
  intros t1 Hp Hnin Hs Hi1 Hin1 [I1 I2 I3 I4 I5 I6 I7 I8]. split; try done.
  - intros id' pc' [[= -> ->]|]%elem_of_cons Hs'; [|by eapply I4]. apply I6. apply lookup_delete_eq.
  - intros id' pc' Hp' Hc. rewrite not_elem_of_cons in Hc.
    assert (id ≠ id').
    { intros <-. rewrite Hp in Hp'. injection Hp' as ->. destruct Hc as [[Hc _]|Hc]; [done|congruence]. }
    apply I5; [by apply lookup_delete_Some|]. destruct Hc as [[_ Hc]|Hc]; [by left|by right].
  - intros id' Hn. apply I6. by apply lookup_delete_None; right.
  - intros id' pc' [[= -> ->]|]%elem_of_cons Hs'; [|by apply (I7 id')].
    rewrite I8; [apply lookup_insert_eq|]. intros id2 pc2 Hin _ E.
    destruct (take_pending_inv t1 id2 pc2 make_chan Hi1 (Hin1 _ _ Hin)) as [Hch _].
    rewrite E in Hch. simpl in Hch. by rewrite lookup_insert_eq in Hch.
  - intros ch Hne. rewrite I8; [apply lookup_insert_ne|]; [apply (Hne id); [by left|done]|].
    intros id' pc' Hin. apply (Hne id'). by right.
Qed.

Lemma expire_loop_ok cutoff iter t :
  tracker_inv t → NoDup iter.*1 → (∀ id pc, (id, pc) ∈ iter → pending t !! id = Some pc) →
  ∃ t', expire_loop cutoff iter t = Ok t' ∧ expired cutoff iter t t'.
Proof.
  revert t. induction iter as [|[id pc] iter IH]; intros t Hi Hd Hin; simpl.
  { exists t. split; [done|]. split; try done; intros ? ? []%elem_of_nil. }
  apply NoDup_cons in Hd as [Hnin Hd]. assert (Hp : pending t !! id = Some pc) by (apply Hin; by left).
  destruct (stale cutoff pc) eqn:Hs.
  - rewrite (expire_one_stale cutoff id pc t Hi Hp Hs).
    destruct (take_pending_inv t id pc (full (Some (timeout_result t pc))) Hi Hp) as [_ Hi1].
    assert (Hin1 : ∀ id' pc', (id', pc') ∈ iter → delete id (pending t) !! id' = Some pc').
    { intros id' pc' H. apply lookup_delete_Some. split; [|apply Hin; by right].
      intros ->. apply Hnin. by apply (list_elem_of_fmap_2 fst) in H. }
    destruct (IH _ Hi1 Hd Hin1) as (t' & Ht' & He). exists t'. split; [exact Ht'|]. by eapply expired_take.
  - unfold expire_one. fold (stale cutoff pc). rewrite Hs.
    destruct (IH t Hi Hd) as (t' & Ht' & He); [intros; apply Hin; by right|]. exists t'. split; [done|]. by apply expired_skip.
Qed.

Lemma expire_ok t now iter :
  tracker_inv t → iter ≡ₚ map_to_list (pending t) → ∃ t', expire t now iter = Ok t' ∧ expired (now - ttl t) iter t t'.
Proof.
  intros Hi Hp. apply expire_loop_ok; [done| |].
  - rewrite Hp. apply NoDup_fst_map_to_list.
  - intros id pc. rewrite Hp. apply elem_of_map_to_list.
Qed.

(** Receiving changes only a channel that holds a value or is closed, hence one
    nobody will send on any more. *)
Lemma receive_inv t ch v ok t' : tracker_inv t → receive t ch = Some (v, ok, t') → tracker_inv t'.
Proof.
  rewrite !tracker_inv_ready. intros [Hr Hid] Hrec. unfold receive in Hrec.
  destruct (chans t !! ch) as [c|] eqn:Ec; [|done]. destruct (buffer c) as [|x rest] eqn:Eb.
  - destruct (closed c); [|done]. by simplify_eq.
  - simplify_eq. split; [|done]. apply ready_other; [|done]. intros Hch.
    pose proof (proj1 (Forall_forall _ _) (proj1 Hr) ch Hch) as E. simpl in E. rewrite E in Ec. by simplify_eq.
Qed.

Lemma new_inv d : tracker_inv (New d).
Proof. split; simpl; [constructor|constructor|]. intros ? ?. by rewrite lookup_empty. Qed.

Lemma step_inv t t' : tracker_inv t → tracker_step t t' → tracker_inv t'.
Proof.
  intros Hi Hs. destruct Hs as [ch now rid probe command level Hn|rid v|i t' Hc|rid t' Hc|now iter t' Hp He|ch v ok t' Hr].
  - by apply track_inv.
  - by apply complete_inv.
  - destruct (in_flight_sends t !! i) as [[ch v]|] eqn:E; [|by unfold complete_send in Hc; rewrite E in Hc].
    destruct (complete_send_ok t i ch v Hi E) as (t2 & E2 & H2 & _). congruence.
  - destruct (cancel_ok t rid Hi) as (t2 & E2 & H2). congruence.
  - destruct (expire_ok t now iter Hi Hp) as (t2 & E2 & []). congruence.
  - by eapply receive_inv.
Qed.

Definition tracker_reachable (d : duration) (t : Tracker) : Prop := rtc tracker_step (New d) t.

Lemma reachable_inv d t : tracker_reachable d t → tracker_inv t.
Proof. apply (rtc_ind_r (λ t, tracker_inv t)); [apply new_inv|]. intros; by eapply step_inv. Qed.

(** ** Channels nobody will send on any more *)

Lemma elem_live t ch :
  ch ∈ live_chans t ↔ (∃ id pc, pending t !! id = Some pc ∧ pc_Result pc = ch) ∨ (∃ v, (ch, v) ∈ in_flight_sends t).
Proof.
  unfold live_chans. rewrite elem_of_app. f_equiv.
  - rewrite list_elem_of_fmap. split.
    + intros ([id pc] & -> & H%elem_of_map_to_list). by exists id, pc.
    + intros (id & pc & H & <-). exists (id, pc). by rewrite elem_of_map_to_list.
  - rewrite list_elem_of_fmap. split.
    + intros ([x v] & -> & H). by exists v.
    + intros (v & H). by exists (ch, v).
Qed.

(** A channel that exists, and that no pending command and no send in flight
    refers to. *)
Definition settled (t : Tracker) (ch : nat) : Prop := is_Some (chans t !! ch) ∧ ch ∉ live_chans t.

(** Only its receivers change it: its content shrinks, and it is neither sent on
    nor closed. *)
Definition drained_only (c c' : chan) : Prop := buffer c' `suffix_of` buffer c ∧ closed c' = closed c.

Lemma drained_refl c : drained_only c c.
Proof. done. Qed.

Lemma drained_trans c1 c2 c3 : drained_only c1 c2 → drained_only c2 c3 → drained_only c1 c3.
Proof. intros [H1 E1] [H2 E2]. split; [by etrans|congruence]. Qed.

Lemma settled_by t t' ch :
  settled t ch → (∀ x, x ∈ live_chans t' → x ∈ live_chans t ∨ chans t !! x = None) → chans t' !! ch = chans t !! ch →
  settled t' ch ∧ chans t' !! ch = chans t !! ch.
Proof.
  intros [[c Hc] Hn] Hl E. split; [|done]. split; [by rewrite E|].
  intros [H|H]%Hl; [done|congruence].
Qed.

(** What a step does to the live channels and to the others. *)
Definition live_only (t t' : Tracker) : Prop :=
  (∀ x, x ∈ live_chans t' → x ∈ live_chans t ∨ chans t !! x = None) ∧
  (∀ ch, settled t ch → chans t' !! ch = chans t !! ch).

Lemma live_only_settled t t' ch : live_only t t' → settled t ch → settled t' ch ∧ chans t' !! ch = chans t !! ch.
Proof. intros [Hl Hc] Hs. apply settled_by; auto. Qed.

Lemma track_live t ch now rid probe command level :
  chans t !! ch = None → live_only t (Track t ch now rid probe command level).2.
Proof.
  intros Hn. split.
  - intros x. rewrite !elem_live. simpl. intros [(id & pc & Hp & <-)|Hv]; [|by left; right].
    apply lookup_insert_Some in Hp as [[_ <-]|[_ Hp]]; [by right|]. left. left. by exists id, pc.
  - intros x [[c Hc] _]. simpl. rewrite lookup_insert_ne; [done|congruence].
Qed.

Lemma complete_live t rid v : live_only t (Complete t rid v).2.
Proof.
  unfold Complete. destruct (pending t !! rid) as [pc|] eqn:E; [|by split; auto]. split; [|done].
  intros x. rewrite !elem_live. simpl. intros [(id & pc' & Hp & <-)|(w & Hw)]; left.
  - apply lookup_delete_Some in Hp as [_ Hp]. left. by exists id, pc'.
  - apply elem_of_app in Hw as [Hw|Hw]; [right; by exists w|]. apply list_elem_of_singleton in Hw. simplify_eq. left. by exists rid, pc.
Qed.

(** Steps that remove pending commands or sends in flight, and touch only their
    channels. *)
Lemma shrink_live t t' :
  (∀ id pc, pending t' !! id = Some pc → pending t !! id = Some pc) →
  (∀ x, x ∈ in_flight_sends t' → x ∈ in_flight_sends t) →
  (∀ ch, ch ∉ live_chans t → chans t' !! ch = chans t !! ch) → live_only t t'.
Proof.
  intros Hp Hs Hc. split; [|by intros ch [_ Hn]; apply Hc].
  intros x. rewrite !elem_live. intros [(id & pc & H & <-)|(v & H)]; left; [left|right]; eauto.
Qed.

Lemma send_live t i t' : tracker_inv t → complete_send t i = Some (Ok t') → live_only t t'.
Proof.
  intros Hi Hc. unfold complete_send in Hc. destruct (in_flight_sends t !! i) as [[ch v]|] eqn:E; [|done].
  destruct (chans t !! ch) as [c|]; [|done]. destruct (send c v) as [c'| |]; simplify_eq. apply shrink_live; simpl; [done| |].
  - intros x Hx. rewrite (delete_Permutation _ _ _ E). by right.
  - intros x Hx. apply lookup_insert_ne. intros <-. apply Hx, elem_live. right. exists v. by eapply list_elem_of_lookup_2.
Qed.

Lemma cancel_live t rid t' : Cancel t rid = Ok t' → live_only t t'.
Proof.
  unfold Cancel. destruct (pending t !! rid) as [pc|] eqn:E; [|intros [= <-]; by split; auto].
  intros Hc. destruct (chans t !! pc_Result pc) as [c|].
  - destruct (close c) as [c'| |]; simplify_eq. apply shrink_live; simpl; [|done|].
    + intros id pc' [_ H]%lookup_delete_Some. done.
    + intros x Hx. apply lookup_insert_ne. intros <-. apply Hx, elem_live. left. by exists rid, pc.
  - simplify_eq. apply shrink_live; simpl; [|done|done]. intros id pc' [_ H]%lookup_delete_Some. done.
Qed.

Lemma expired_pending t now iter t' id pc :
  iter ≡ₚ map_to_list (pending t) → expired (now - ttl t) iter t t' →
  pending t' !! id = Some pc ↔ pending t !! id = Some pc ∧ stale (now - ttl t) pc = false.
Proof.
  intros Hp He. destruct (pending t !! id) as [pc0|] eqn:E.
  - destruct (stale (now - ttl t) pc0) eqn:Es.
    + rewrite (ex_gone _ _ _ _ He id pc0); [|by rewrite Hp; apply elem_of_map_to_list|done].
      split; [done|]. intros [[= ->] ?]; congruence.
    + rewrite (ex_kept _ _ _ _ He id pc0 E) by auto. split; [by intros [= ->]|]. by intros [[= ->] _].
  - rewrite (ex_none _ _ _ _ He id E). split; [done|]. by intros [? _].
Qed.

Lemma expire_live t now iter t' :
  iter ≡ₚ map_to_list (pending t) → expired (now - ttl t) iter t t' → live_only t t'.
Proof.
  intros Hp He. apply shrink_live.
  - intros id pc H. by apply (expired_pending t now iter t' id pc Hp He) in H as [H _].
  - by rewrite (ex_sends _ _ _ _ He).
  - intros ch Hn. apply (ex_other _ _ _ _ He). intros id pc Hin _ <-. apply Hn, elem_live. left. exists id, pc.
    split; [|done]. rewrite Hp in Hin. by apply elem_of_map_to_list.
Qed.

Lemma settled_chan_step t t' ch c :
  tracker_inv t → tracker_step t t' → settled t ch → chans t !! ch = Some c →
  settled t' ch ∧ ∃ c', chans t' !! ch = Some c' ∧ drained_only c c'.
Proof.
  intros Hi Hs Hset Hc.
  assert (Hlive : live_only t t' → settled t' ch ∧ ∃ c', chans t' !! ch = Some c' ∧ drained_only c c').
  { intros Hl. destruct (live_only_settled t t' ch Hl Hset) as [Hs' E]. split; [done|]. exists c. by rewrite E. }
  destruct Hs as [ch' now rid probe command level Hn|rid v|i t' Hcs|rid t' Hca|now iter t' Hp He|ch' v ok t' Hr].
  - apply Hlive. by apply track_live.
  - apply Hlive. by apply complete_live.
  - apply Hlive. by eapply send_live.
  - apply Hlive. by eapply cancel_live.
  - apply Hlive. destruct (expire_ok t now iter Hi Hp) as (t2 & E2 & H2). rewrite E2 in He. injection He as <-.
    by eapply expire_live.
  - unfold receive in Hr. destruct (chans t !! ch') as [c0|] eqn:Ec0; [|done]. destruct (buffer c0) as [|x rest] eqn:Eb.
    + destruct (closed c0); simplify_eq. split; [done|]. by exists c.
    + simplify_eq. unfold settled in *; simpl. destruct (decide (ch' = ch)) as [->|Hne].
      * rewrite lookup_insert_eq. simplify_eq. split; [split; [done|apply Hset]|]. eexists. split; [done|]. split; simpl; [|done].
        rewrite Eb. by eexists [_].
      * rewrite lookup_insert_ne by done. split; [done|]. by exists c.
Qed.

Lemma settled_steps t t' ch c :
  tracker_inv t → rtc tracker_step t t' → settled t ch → chans t !! ch = Some c →
  settled t' ch ∧ ∃ c', chans t' !! ch = Some c' ∧ drained_only c c'.
Proof.
  intros Hi Hs. revert c Hi. induction Hs as [t|t t1 t2 H1 H2 IH]; intros c Hi Hset Hc.
  - split; [done|]. by exists c.
  - destruct (settled_chan_step t t1 ch c Hi H1 Hset Hc) as (Hset1 & c1 & Hc1 & Hd1).
    destruct (IH c1 (step_inv _ _ Hi H1) Hset1 Hc1) as (Hset2 & c2 & Hc2 & Hd2).
    split; [done|]. exists c2. split; [done|]. by eapply drained_trans.
Qed.

(** ** The tracker's promises *)

Section promises.
Context (d : duration) (t : Tracker).

(** No interleaving of the tracker's operations blocks or panics: in every
    reachable state, each send that [Complete] left in flight finds room in an
    open channel, [Cancel] never closes a closed channel, and [expire], which
    sends while holding the lock, gets through the whole map in any iteration
    order. *)
Theorem tracker_never_blocks_or_panics :
  tracker_reachable d t →
  (∀ i, (i < length (in_flight_sends t))%nat → ∃ t', complete_send t i = Some (Ok t')) ∧
  (∀ rid, ∃ t', Cancel t rid = Ok t') ∧
  (∀ now iter, iter ≡ₚ map_to_list (pending t) → ∃ t', expire t now iter = Ok t').
Proof.
  intros Hi%reachable_inv. split_and!.
  - intros i [[ch v] Hv]%lookup_lt_is_Some. destruct (complete_send_ok t i ch v Hi Hv) as (t' & E & _). by exists t'.
  - intros rid. destruct (cancel_ok t rid Hi) as (t' & E & _). by exists t'.
  - intros now iter Hp. destruct (expire_ok t now iter Hi Hp) as (t' & E & _). by exists t'.
Qed.

(** A result reaches the caller it belongs to, once.  Completing a pending
    request removes it and, when its send runs, the caller of [Track] receives
    exactly that result; a second [Complete] of the request reports that nothing
    is pending; and from then on, whatever happens, the channel is neither sent
    on nor closed again, so no caller is ever given a second or a foreign result. *)
Theorem complete_delivers_once rid pc v t1 t2 :
  tracker_reachable d t →
  pending t !! rid = Some pc →
  Complete t rid v = (None, t1) →
  complete_send t1 (length (in_flight_sends t)) = Some (Ok t2) →
  pending t2 = delete rid (pending t) ∧
  (∃ t3, receive t2 (pc_Result pc) = Some (v, true, t3)) ∧
  (∀ w, ∃ e, Complete t2 rid w = (Some e, t2)) ∧
  (∀ t3, rtc tracker_step t2 t3 → ∃ c, chans t3 !! pc_Result pc = Some c ∧ drained_only (full v) c).
Proof.
  intros Hr Hp Hc Hs. pose proof (reachable_inv d t Hr) as Hi.
  assert (Hi1 : tracker_inv t1) by (pose proof (complete_inv t rid v Hi) as H; by rewrite Hc in H).
  unfold Complete in Hc. rewrite Hp in Hc. injection Hc as <-.
  set (t1 := {| pending := _; chans := _; in_flight_sends := _; ttl := _ |}) in *.
  assert (Hl : in_flight_sends t1 !! length (in_flight_sends t) = Some (pc_Result pc, v)).
  { unfold t1; simpl. by rewrite lookup_app_r, Nat.sub_diag by lia. }
  destruct (complete_send_ok t1 _ _ v Hi1 Hl) as (t2' & E & Hi2 & Hch & Hpend). rewrite E in Hs. injection Hs as ->.
  assert (Hful : chans t2 !! pc_Result pc = Some (full v)) by (rewrite Hch; apply lookup_insert_eq).
  split_and!; [done| | |].
  - unfold receive. rewrite Hful. simpl. by eexists.
  - intros w. unfold Complete. rewrite Hpend. unfold t1; simpl. rewrite lookup_delete_eq. by eexists.
  - intros t3 Hs3. assert (Hset : settled t2 (pc_Result pc)).
    { split; [by rewrite Hful|]. intros Hin. pose proof (proj1 (Forall_forall _ _) (tk_live _ Hi2) _ Hin) as E2.
      simpl in E2. rewrite Hful in E2. done. }
    by destruct (settled_steps t2 t3 _ _ Hi2 Hs3 Hset Hful) as (_ & c & ? & ?); exists c.
Qed.

(** [expire] settles exactly the stale commands: those submitted before
    [now - ttl] leave the map and their callers receive the synthetic timeout
    result (exit code -1, the tracker's TTL in milliseconds); every other command
    stays pending, and its channel is untouched. *)
Theorem expire_settles_stale now iter t' :
  tracker_reachable d t → iter ≡ₚ map_to_list (pending t) → expire t now iter = Ok t' →
  (∀ rid pc, pending t' !! rid = Some pc ↔ pending t !! rid = Some pc ∧ now - ttl t ≤ pc_Submitted pc) ∧
  (∀ rid pc, pending t !! rid = Some pc → pc_Submitted pc < now - ttl t →
     ∃ t'', receive t' (pc_Result pc) = Some (Some (timeout_result t pc), true, t'')) ∧
  (∀ rid pc, pending t !! rid = Some pc → now - ttl t ≤ pc_Submitted pc → chans t' !! pc_Result pc = Some make_chan).
Proof.
  intros Hi%reachable_inv Hp He. destruct (expire_ok t now iter Hi Hp) as (t2 & E2 & Hex). rewrite E2 in He. injection He as ->.
  assert (Hst : ∀ pc, stale (now - ttl t) pc = false ↔ now - ttl t ≤ pc_Submitted pc).
  { intros pc. unfold stale, Before. rewrite Z.ltb_ge. done. }
  split_and!.
  - intros rid pc. rewrite <- Hst. by apply expired_pending with iter.
  - intros rid pc Hpc Hlt. unfold receive.
    rewrite (ex_told _ _ _ _ Hex rid pc); [by eexists|by rewrite Hp; apply elem_of_map_to_list|].
    unfold stale, Before. by apply Z.ltb_lt.
  - intros rid pc Hpc Hle. apply (take_pending_inv t' rid pc make_chan (ex_inv _ _ _ _ Hex)).
    apply (expired_pending t now iter t' rid pc Hp Hex). split; [done|]. by apply Hst.
Qed.

(** Tracking a request id that is already pending orphans the first caller:
    its channel is neither sent on nor closed by any later operation, so a
    receive on it blocks for ever. *)
Theorem retrack_orphans_first rid pc ch now probe command level t' :
  tracker_reachable d t → pending t !! rid = Some pc → chans t !! ch = None →
  rtc tracker_step (Track t ch now rid probe command level).2 t' →
  receive t' (pc_Result pc) = None.
Proof.
  intros Hi%reachable_inv Hp Hn Hs. pose proof (track_inv t ch now rid probe command level Hn Hi) as Hi1.
  set (t1 := (Track t ch now rid probe command level).2) in *.
  destruct (take_pending_inv t rid pc make_chan Hi Hp) as [Hmk _].
  assert (Hne : ch ≠ pc_Result pc) by congruence.
  assert (Hc1 : chans t1 !! pc_Result pc = Some make_chan) by (simpl; by rewrite lookup_insert_ne).
  assert (Hset : settled t1 (pc_Result pc)).
  { split; [by rewrite Hc1|]. unfold t1. rewrite track_live_chans.
    rewrite tracker_inv_ready in Hi. destruct Hi as [Hr _].
    eapply ready_perm in Hr; [|by eapply live_take]. apply ready_cons in Hr as (_ & Hnin & _).
    rewrite not_elem_of_cons. by split. }
  destruct (settled_steps t1 t' _ _ Hi1 Hs Hset Hc1) as (_ & c & Hc & Hd & Hcl). unfold receive. rewrite Hc.
  apply suffix_nil_inv in Hd. by rewrite Hd, Hcl.
Qed.
End promises.

(** ** A concrete run *)

Definition ex_t1 : Tracker := (Track (New (60 * Second)) 0 (1000 * Second) "r1" "p1" "ls" CapObserve).2.
Definition ex_t2 : Tracker := (Track ex_t1 1 (1100 * Second) "r2" "p1" "df" CapObserve).2.
Definition ex_result : CommandResultPayload :=
  {| res_RequestID := "r1"; res_ExitCode := 0; res_Stdout := "ok"; res_Stderr := ""; res_Duration := 5; res_Truncated := false |}.
Definition ex_t3 : Tracker := (Complete ex_t2 "r1" (Some ex_result)).2.
Definition ex_pc1 : PendingCommand := (Track (New (60 * Second)) 0 (1000 * Second) "r1" "p1" "ls" CapObserve).1.

Lemma ex_reachable2 : tracker_reachable (60 * Second) ex_t2.
Proof.
  eapply rtc_l; [apply (ts_track _ 0 (1000 * Second) "r1" "p1" "ls" CapObserve); done|].
  eapply rtc_l; [apply (ts_track _ 1 (1100 * Second) "r2" "p1" "df" CapObserve); done|]. apply rtc_refl.
Qed.

Lemma ex_reachable3 : tracker_reachable (60 * Second) ex_t3.
Proof. eapply rtc_r; [apply ex_reachable2|]. apply (ts_complete _ "r1" (Some ex_result)). Qed.

Lemma tracker_never_blocks_or_panics_witness :
  (∃ t', complete_send ex_t3 0 = Some (Ok t')) ∧ (∃ t', Cancel ex_t3 "r2" = Ok t').
Proof.
  destruct (tracker_never_blocks_or_panics (60 * Second) ex_t3 ex_reachable3) as (H1 & H2 & _).
  split; [apply H1; vm_compute; lia|apply H2].
Defined.

Lemma complete_delivers_once_witness :
  ∃ t2, complete_send ex_t3 0 = Some (Ok t2) ∧ ∃ t3, receive t2 0 = Some (Some ex_result, true, t3).
Proof.
  destruct (complete_send ex_t3 0) as [[t2| |]|] eqn:E; [|exfalso; vm_compute in E; discriminate E..].
  exists t2. split; [reflexivity|].
  exact (proj1 (proj2 (complete_delivers_once (60 * Second) ex_t2 "r1" ex_pc1 (Some ex_result) ex_t3 t2
    ex_reachable2 eq_refl eq_refl E))).
Defined.

Definition ex_iter : list (string * PendingCommand) := map_to_list (pending ex_t2).
Definition ex_expired : Tracker := match expire ex_t2 (1120 * Second) ex_iter with Ok t => t | _ => ex_t2 end.

Lemma expire_settles_stale_witness :
  ∃ t'', receive ex_expired 0 = Some (Some (timeout_result ex_t2 ex_pc1), true, t'').
Proof.
  assert (E : expire ex_t2 (1120 * Second) ex_iter = Ok ex_expired) by reflexivity.
  apply (proj1 (proj2 (expire_settles_stale (60 * Second) ex_t2 (1120 * Second) ex_iter ex_expired
    ex_reachable2 (reflexivity _) E)) "r1" ex_pc1); reflexivity.
Defined.

Lemma retrack_orphans_first_witness :
  receive (Track ex_t2 2 (1101 * Second) "r1" "p2" "rm -rf /srv/a" CapRemediate).2 0 = None.
Proof.
  exact (retrack_orphans_first (60 * Second) ex_t2 "r1" ex_pc1 2 (1101 * Second) "p2" "rm -rf /srv/a" CapRemediate _
    ex_reachable2 eq_refl eq_refl (rtc_refl _ _)).
Defined.
