(* ===== verification/CommandDispatch.v ===== *)
(** * Command dispatch
    (src/internal/controlplane/core/commanddispatch/service.go, invoke_adapter.go,
    response_envelope_codec.go, invoke_response_codec.go)

    A dispatch tracks the request, sends the command and waits for whichever of
    the result, the timer and the context comes first.  Other goroutines use the
    tracker meanwhile: [during_send] and [while_waiting] say what they do to it,
    and [wake] which case of the select fires.  [SendTo] is the sender's answer. *)
From S2P Require Import Prelude GoStrings GoErrors GoTime Protocol ApprovalContract CmdTracker.
Local Open Scope go_scope.
Local Open Scope Z_scope.

Notation ResultState := string (only parsing).
Definition ResultStateDispatched : ResultState := "dispatched".
Definition ResultStateCompleted : ResultState := "completed".
Definition ResultStateTimeout : ResultState := "timeout".
Definition ResultStateCanceled : ResultState := "canceled".
Definition ResultStateDispatchError : ResultState := "dispatch_error".
Definition ResultStateResultError : ResultState := "result_error".

Record DispatchPolicy := {
  dp_WaitForResult : bool;
  dp_StreamOutput : bool;
  dp_Timeout : duration;
  dp_CancelOnContextDone : bool;
}.
Definition DispatchOnlyPolicy (stream : bool) : DispatchPolicy :=
  {| dp_WaitForResult := false; dp_StreamOutput := stream; dp_Timeout := 0; dp_CancelOnContextDone := false |}.
Definition WaitPolicy (timeout : duration) : DispatchPolicy :=
  {| dp_WaitForResult := true; dp_StreamOutput := false; dp_Timeout := timeout; dp_CancelOnContextDone := true |}.

Definition normalized_policy (p : DispatchPolicy) : DispatchPolicy :=
  if dp_WaitForResult p && (dp_Timeout p <=? 0)
  then {| dp_WaitForResult := dp_WaitForResult p; dp_StreamOutput := dp_StreamOutput p; dp_Timeout := 30 * Second;
          dp_CancelOnContextDone := dp_CancelOnContextDone p |}
  else p.

(** [HTTPErrorContract] of this package has one more field than the approval
    package's; it is the writer kernel's [HTTPError]. *)
Definition http_error (status : Z) (code message : string) : HTTPError :=
  {| he_Status := status; he_Code := code; he_Message := message; he_SuppressWrite := false |}.

Record CommandResultEnvelope := {
  ce_RequestID : string;
  ce_State : ResultState;
  ce_Dispatched : bool;
  ce_Result : option CommandResultPayload;
  ce_Err : option go_error;
}.
Definition new_envelope (requestID : string) : CommandResultEnvelope :=
  {| ce_RequestID := requestID; ce_State := ""; ce_Dispatched := false; ce_Result := None; ce_Err := None |}.
Definition failed (e : CommandResultEnvelope) (st : ResultState) (err : go_error) : CommandResultEnvelope :=
  {| ce_RequestID := ce_RequestID e; ce_State := st; ce_Dispatched := ce_Dispatched e; ce_Result := ce_Result e; ce_Err := Some err |}.
Definition dispatched (e : CommandResultEnvelope) (st : ResultState) : CommandResultEnvelope :=
  {| ce_RequestID := ce_RequestID e; ce_State := st; ce_Dispatched := true; ce_Result := ce_Result e; ce_Err := ce_Err e |}.
Definition completed (e : CommandResultEnvelope) (r : CommandResultPayload) : CommandResultEnvelope :=
  {| ce_RequestID := ce_RequestID e; ce_State := ResultStateCompleted; ce_Dispatched := ce_Dispatched e; ce_Result := Some r; ce_Err := ce_Err e |}.

(** [errors.Is(err, context.Canceled), errors.Is(err, context.DeadlineExceeded)] *)
Definition context_error (e : go_error) : bool := errors_Is e ContextCanceled || errors_Is e ContextDeadlineExceeded.

Definition envelope_HTTPError (e : option CommandResultEnvelope) : option HTTPError :=
  match e with
  | None => None
  | Some e =>
      match ce_Err e with
      | None => None
      | Some err =>
          if errors_Is err ErrTimeout then Some (http_error StatusGatewayTimeout "timeout" "timeout waiting for probe response")
          else if context_error err then Some {| he_Status := 0; he_Code := ""; he_Message := ""; he_SuppressWrite := true |}
          else Some (http_error StatusBadGateway "bad_gateway" (Error err))
      end
  end.

Definition envelope_MCPError (e : option CommandResultEnvelope) : option go_error :=
  match e with
  | None => None
  | Some e =>
      match ce_Err e with
      | None => None
      | Some err =>
          if errors_Is err ErrTimeout || context_error err || errors_Is err ErrEmptyResult then Some err
          else Some (WrapError ("dispatch command: " +:+ Error err)%string err)
      end
  end.

(** ** The service *)

(** The case of the select that fires; a context is done with one of two errors. *)
Inductive ctx_error := Canceled | DeadlineExceeded.
Definition ctx_Err (e : ctx_error) : go_error :=
  match e with Canceled => Sentinel ContextCanceled | DeadlineExceeded => Sentinel ContextDeadlineExceeded end.
Inductive wake := ResultReady | TimerFired | ContextDone (e : ctx_error).

Section service.
Context (SendTo : string → CommandPayload → option go_error).
Context (during_send while_waiting : Tracker → Tracker).

(** The commands handed to the sender are listed. *)
Notation sends := (list (string * CommandPayload)).

Definition Dispatch (probeID : string) (cmd : CommandPayload) : option go_error * sends := (SendTo probeID cmd, [(probeID, cmd)]).

Definition DispatchTracked (t : Tracker) (ch : nat) (now : time) (probeID : string) (cmd : CommandPayload)
    : outcome (result PendingCommand * Tracker) * sends :=
  let '(pending, t) := Track t ch now (cmd_RequestID cmd) probeID (cmd_Command cmd) (cmd_Level cmd) in
  let t := during_send t in
  (match SendTo probeID cmd with
   | Some err =>
       match Cancel t (cmd_RequestID cmd) with Ok t => Ok (inl err, t) | Blocks => Blocks | Panics => Panics end
   | None => Ok (inr pending, t)
   end, [(probeID, cmd)]).

Definition waitForResult (t : Tracker) (w : wake) (requestID : string) (pending : PendingCommand) (policy : DispatchPolicy)
    : outcome (option CommandResultPayload * option go_error * Tracker) :=
  match w with
  | ResultReady =>
      match receive t (pc_Result pending) with
      | None => Blocks
      | Some (result, true, t) => Ok (result, None, t)
      | Some (_, false, t) => Ok (None, Some (Sentinel ContextCanceled), t)
      end
  | TimerFired =>
      match Cancel t requestID with Ok t => Ok (None, Some (Sentinel ErrTimeout), t) | Blocks => Blocks | Panics => Panics end
  | ContextDone e =>
      if dp_CancelOnContextDone policy
      then match Cancel t requestID with Ok t => Ok (None, Some (ctx_Err e), t) | Blocks => Blocks | Panics => Panics end
      else Ok (None, Some (ctx_Err e), t)
  end.

Definition with_stream (cmd : CommandPayload) (stream : bool) : CommandPayload :=
  {| cmd_RequestID := cmd_RequestID cmd; cmd_Command := cmd_Command cmd; cmd_Args := cmd_Args cmd; cmd_Timeout := cmd_Timeout cmd;
     cmd_Level := cmd_Level cmd; cmd_Stream := cmd_Stream cmd || stream |}.

(** The end of [DispatchWithPolicy], once the wait is over. *)
Definition conclude (env : CommandResultEnvelope) (result : option CommandResultPayload) (err : option go_error) : CommandResultEnvelope :=
  match err with
  | Some e =>
      failed env (if errors_Is e ErrTimeout then ResultStateTimeout
                  else if context_error e then ResultStateCanceled
                  else ResultStateResultError) e
  | None =>
      match result with
      | None => failed env ResultStateResultError (Sentinel ErrEmptyResult)
      | Some r => completed env r
      end
  end.

Definition DispatchWithPolicy (t : Tracker) (w : wake) (ch : nat) (now : time) (probeID : string) (cmd : CommandPayload)
    (policy : DispatchPolicy) : outcome (CommandResultEnvelope * Tracker) * sends :=
  let policy := normalized_policy policy in
  let cmd := with_stream cmd (dp_StreamOutput policy) in
  let env := new_envelope (cmd_RequestID cmd) in
  if negb (dp_WaitForResult policy) then
    let '(err, sent) := Dispatch probeID cmd in
    (match err with
     | Some e => Ok (failed env ResultStateDispatchError e, t)
     | None => Ok (dispatched env ResultStateDispatched, t)
     end, sent)
  else
    let '(tracked, sent) := DispatchTracked t ch now probeID cmd in
    (match tracked with
     | Ok (inl e, t) => Ok (failed env ResultStateDispatchError e, t)
     | Ok (inr pending, t) =>
         match waitForResult (while_waiting t) w (cmd_RequestID cmd) pending policy with
         | Ok (result, err, t) => Ok (conclude (dispatched env "") result err, t)
         | Blocks => Blocks
         | Panics => Panics
         end
     | Blocks => Blocks
     | Panics => Panics
     end, sent).

Definition WaitForResult (t : Tracker) (w : wake) (requestID : string) (pending : PendingCommand) (timeout : duration) :=
  waitForResult t w requestID pending (WaitPolicy timeout).

Definition DispatchAndWait (t : Tracker) (w : wake) (ch : nat) (now : time) (probeID : string) (cmd : CommandPayload)
    (timeout : duration) : outcome (option CommandResultPayload * option go_error * Tracker) * sends :=
  let '(r, sent) := DispatchWithPolicy t w ch now probeID cmd (WaitPolicy timeout) in
  (match r with
   | Ok (env, t) => Ok (ce_Result env, ce_Err env, t)
   | Blocks => Blocks
   | Panics => Panics
   end, sent).
End service.

Definition ResultText (result : CommandResultPayload) : string :=
  let output := TrimSpace (res_Stdout result) in
  let output := if output =s "" then TrimSpace (res_Stderr result) else output in
  let output := if output =s "" then ("command completed with exit_code=" +:+ Itoa (res_ExitCode result))%string else output in
  if negb (res_ExitCode result =? 0)
  then ("exit_code=" +:+ Itoa (res_ExitCode result) +:+ String (Ascii.ascii_of_nat 10) "" +:+ output)%string
  else output.

(** ** The invoke adapters (invoke_adapter.go) *)

Notation ProjectionDispatchSurface := string (only parsing).
Record CommandInvokeInput := {
  ci_ProbeID : string;
  ci_Command : CommandPayload;
  ci_Policy : DispatchPolicy;
  ci_Surface : ProjectionDispatchSurface;
}.
Record CommandInvokeProjection := {
  cp_Surface : ProjectionDispatchSurface;
  cp_RequestID : string;
  cp_WaitForResult : bool;
  cp_Envelope : option CommandResultEnvelope;
}.

(** [now] is the reading of the clock; Go's [%] is [Z.rem]. *)
Definition NextCommandRequestID (now : time) : string := ("cmd-" +:+ Itoa (Z.rem now 100000))%string.

Definition with_request_id (cmd : CommandPayload) (id : string) : CommandPayload :=
  {| cmd_RequestID := id; cmd_Command := cmd_Command cmd; cmd_Args := cmd_Args cmd; cmd_Timeout := cmd_Timeout cmd;
     cmd_Level := cmd_Level cmd; cmd_Stream := cmd_Stream cmd |}.

Definition AssembleCommandInvokeHTTP (now : time) (probeID : string) (cmd : CommandPayload) (wantWait wantStream : bool)
    : CommandInvokeInput :=
  let cmd := if cmd_RequestID cmd =s "" then with_request_id cmd (NextCommandRequestID now) else cmd in
  let timeout := if 0 <? cmd_Timeout cmd then to_int64 (cmd_Timeout cmd + 5 * Second) else 30 * Second in
  {| ci_ProbeID := probeID; ci_Command := cmd;
     ci_Policy := if wantWait
                  then {| dp_WaitForResult := true; dp_StreamOutput := wantStream; dp_Timeout := timeout; dp_CancelOnContextDone := true |}
                  else DispatchOnlyPolicy wantStream;
     ci_Surface := "http" |}.

Definition AssembleCommandInvokeMCP (now : time) (probeID command : string) (level : CapabilityLevel) : CommandInvokeInput :=
  {| ci_ProbeID := probeID;
     ci_Command := {| cmd_RequestID := NextCommandRequestID now; cmd_Command := command; cmd_Args := []; cmd_Timeout := 0;
                      cmd_Level := level; cmd_Stream := false |};
     ci_Policy := WaitPolicy (30 * Second); ci_Surface := "mcp" |}.

(** [invoker] is [DispatchWithPolicy] of a service, [None] when it is nil. *)
Definition InvokeCommandForSurface (input : option CommandInvokeInput)
    (invoker : option (string → CommandPayload → DispatchPolicy → option CommandResultEnvelope)) : option CommandInvokeProjection :=
  match input with
  | None => None
  | Some i =>
      Some {| cp_Surface := ci_Surface i; cp_RequestID := cmd_RequestID (ci_Command i);
              cp_WaitForResult := dp_WaitForResult (ci_Policy i);
              cp_Envelope := match invoker with
                             | None => None
                             | Some f => f (ci_ProbeID i) (ci_Command i) (ci_Policy i)
                             end |}
  end.

(** ** Responses (response_envelope_codec.go, invoke_response_codec.go) *)

(** What the codecs hand to the writers. *)
Inductive invoke_payload :=
  | PayloadDispatched (requestID : string)
  | PayloadResult (r : option CommandResultPayload)
  | PayloadText (s : string).

Definition error_envelope (e : HTTPError) : ResponseEnvelope invoke_payload :=
  {| env_HTTPError := Some e; env_MCPError := None; env_HTTPSuccess := None; env_MCPSuccess := None |}.

Definition encodeCommandInvokeHTTPEnvelope (projection : option CommandInvokeProjection) : ResponseEnvelope invoke_payload :=
  match projection with
  | Some {| cp_Envelope := Some env; cp_WaitForResult := wait; cp_RequestID := rid |} =>
      match envelope_HTTPError (Some env) with
      | Some e => error_envelope e
      | None =>
          {| env_HTTPError := None; env_MCPError := None;
             env_HTTPSuccess := Some (if negb wait then PayloadDispatched rid else PayloadResult (ce_Result env));
             env_MCPSuccess := None |}
      end
  | _ => error_envelope (http_error StatusBadGateway "bad_gateway" "command dispatch failed")
  end.

Definition mcp_error (e : go_error) : ResponseEnvelope invoke_payload :=
  {| env_HTTPError := None; env_MCPError := Some e; env_HTTPSuccess := None; env_MCPSuccess := None |}.

Definition encodeCommandInvokeMCPEnvelope (projection : option CommandInvokeProjection) : ResponseEnvelope invoke_payload :=
  match projection with
  | Some {| cp_Envelope := Some env |} =>
      match envelope_MCPError (Some env), ce_Result env with
      | Some e, _ => mcp_error e
      | None, None => mcp_error (Sentinel ErrEmptyResult)
      | None, Some r =>
          {| env_HTTPError := None; env_MCPError := None; env_HTTPSuccess := None; env_MCPSuccess := Some (PayloadText (ResultText r)) |}
      end
  | _ => mcp_error (Sentinel ErrEmptyResult)
  end.

Definition BuildCommandInvokeEnvelope (projection : option CommandInvokeProjection) (surface : Surface) : ResponseEnvelope invoke_payload :=
  if surface =s SurfaceHTTP then encodeCommandInvokeHTTPEnvelope projection
  else if surface =s SurfaceMCP then encodeCommandInvokeMCPEnvelope projection
  else UnsupportedSurfaceEnvelope (UnsupportedSurfaceMessage "command invoke" surface).

Definition EncodeCommandInvokeResponseEnvelope (projection : option CommandInvokeProjection) (surface : ProjectionDispatchSurface)
    : ResponseEnvelope invoke_payload :=
  match Resolve (NewHTTPMCPIdentitySurfaceRegistry "http" "mcp") surface with
  | None => UnsupportedSurfaceEnvelope (UnsupportedSurfaceMessage "command invoke" surface)
  | Some transportSurface => BuildCommandInvokeEnvelope projection transportSurface
  end.

Inductive json_body := ErrorPayload (error code : string) | SuccessPayload (p : option invoke_payload).
Record CommandInvokeHTTPJSONResponse := {
  hr_Status : Z;
  hr_Body : option json_body;
  hr_HasBody : bool;
  hr_SuppressWrite : bool;
}.

(** What the two HTTP callbacks leave in [response]. *)
Definition json_callback (r : CommandInvokeHTTPJSONResponse) (call : written invoke_payload) : CommandInvokeHTTPJSONResponse :=
  match call with
  | WroteHTTPError e =>
      {| hr_Status := he_Status e; hr_Body := Some (ErrorPayload (he_Message e) (he_Code e)); hr_HasBody := true;
         hr_SuppressWrite := hr_SuppressWrite r |}
  | WroteHTTPSuccess p =>
      {| hr_Status := 200; hr_Body := Some (SuccessPayload p); hr_HasBody := true; hr_SuppressWrite := hr_SuppressWrite r |}
  | _ => r
  end.

Definition EncodeCommandInvokeHTTPJSONResponse (projection : option CommandInvokeProjection) : CommandInvokeHTTPJSONResponse :=
  let envelope := BuildCommandInvokeEnvelope projection SurfaceHTTP in
  let kernel := {| k_HTTPError := true; k_MCPError := false; k_HTTPSuccess := true; k_MCPSuccess := false |} in
  let response := foldl json_callback {| hr_Status := 200; hr_Body := None; hr_HasBody := false; hr_SuppressWrite := false |}
                        (WriteForSurface SurfaceHTTP (Some envelope) kernel).1 in
  match env_HTTPError envelope with
  | Some e =>
      if he_SuppressWrite e
      then {| hr_Status := hr_Status response; hr_Body := None; hr_HasBody := false; hr_SuppressWrite := true |}
      else response
  | None => response
  end.

Definition mcp_callback (r : string * option go_error) (call : written invoke_payload) : string * option go_error :=
  match call with
  | WroteMCPError e => (r.1, Some e)
  | WroteMCPSuccess (Some (PayloadText s)) => (s, r.2)
  | WroteMCPSuccess _ => (EmptyString, r.2)
  | _ => r
  end.

Definition EncodeCommandInvokeMCPTextResponse (projection : option CommandInvokeProjection) : string * option go_error :=
  let kernel := {| k_HTTPError := false; k_MCPError := true; k_HTTPSuccess := false; k_MCPSuccess := true |} in
  let '(text, err) := foldl mcp_callback (EmptyString, None)
      (WriteForSurface SurfaceMCP (Some (BuildCommandInvokeEnvelope projection SurfaceMCP)) kernel).1 in
  match err with Some e => (EmptyString, Some e) | None => (text, None) end.

(** ** What a dispatch reports *)

(** Every way a dispatch can end. *)
Inductive dispatch_end (answer : option go_error) (wait : bool) (env : CommandResultEnvelope) : Prop :=
  | end_send_error e : answer = Some e → ce_State env = ResultStateDispatchError → ce_Dispatched env = false →
      ce_Result env = None → ce_Err env = Some e → dispatch_end answer wait env
  | end_dispatched : answer = None → wait = false → ce_State env = ResultStateDispatched → ce_Dispatched env = true →
      ce_Result env = None → ce_Err env = None → dispatch_end answer wait env
  | end_waited st r err : answer = None → wait = true → ce_State env = st → ce_Dispatched env = true →
      ce_Result env = r → ce_Err env = err →
      (st, r, err) ∈ [(ResultStateTimeout, None, Some (Sentinel ErrTimeout)); (ResultStateCanceled, None, Some (Sentinel ContextCanceled));
                      (ResultStateCanceled, None, Some (Sentinel ContextDeadlineExceeded));
                      (ResultStateResultError, None, Some (Sentinel ErrEmptyResult))] ∨
      (st = ResultStateCompleted ∧ is_Some r ∧ err = None) → dispatch_end answer wait env.

Lemma wait_errors t w rid pending policy r err t' :
  waitForResult t w rid pending policy = Ok (r, err, t') →
  err = None ∨ (r = None ∧ (err = Some (Sentinel ErrTimeout) ∨ err = Some (Sentinel ContextCanceled) ∨
                             err = Some (Sentinel ContextDeadlineExceeded))).
Proof.
  unfold waitForResult. destruct w as [| |[]]; simpl; intros H; repeat case_match; simplify_eq; auto 6.
Qed.

Lemma normalized_wait p : dp_WaitForResult (normalized_policy p) = dp_WaitForResult p.
Proof. unfold normalized_policy. by case_match. Qed.
Lemma normalized_stream p : dp_StreamOutput (normalized_policy p) = dp_StreamOutput p.
Proof. unfold normalized_policy. by case_match. Qed.
Lemma normalized_cancel p : dp_CancelOnContextDone (normalized_policy p) = dp_CancelOnContextDone p.
Proof. unfold normalized_policy. by case_match. Qed.

Section reports.
Context (SendTo : string → CommandPayload → option go_error).
Context (during_send while_waiting : Tracker → Tracker).
Let run := DispatchWithPolicy SendTo during_send while_waiting.

Lemma dispatch_ends t w ch now probeID cmd policy env t' sent :
  run t w ch now probeID cmd policy = (Ok (env, t'), sent) →
  sent = [(probeID, with_stream cmd (dp_StreamOutput policy))] ∧ ce_RequestID env = cmd_RequestID cmd ∧
  dispatch_end (SendTo probeID (with_stream cmd (dp_StreamOutput policy))) (dp_WaitForResult policy) env.
Proof.
  unfold run, DispatchWithPolicy, Dispatch, DispatchTracked. rewrite normalized_wait, normalized_stream.
  set (cmd' := with_stream cmd (dp_StreamOutput policy)).
  destruct (dp_WaitForResult policy); simpl.
  - destruct (SendTo probeID cmd') as [e|] eqn:Es.
    + destruct (Cancel _ _) as [t1| |]; intros [= <- <- <-]. split_and!; try done. by apply (end_send_error _ _ _ e).
    + destruct (waitForResult _ _ _ _ _) as [[[r err] t1]| |] eqn:Ew; intros [= <- <- <-].
      apply wait_errors in Ew.
      destruct Ew as [->|(-> & [->|[->| ->]])]; [destruct r as [r|]|..]; (split_and!; [done|done|]);
        (eapply end_waited; [reflexivity..|]); simpl; first [solve [right; split_and!; eauto]|left; set_solver].
  - destruct (SendTo probeID cmd') as [e|] eqn:Es; intros [= <- <- <-]; (split_and!; try done);
      [by apply (end_send_error _ _ _ e)|by apply end_dispatched].
Qed.

Definition projection_of (policy : DispatchPolicy) (env : CommandResultEnvelope) : CommandInvokeProjection :=
  {| cp_Surface := "http"; cp_RequestID := ce_RequestID env; cp_WaitForResult := dp_WaitForResult policy; cp_Envelope := Some env |}.
Definition json_response (status : Z) (b : json_body) : CommandInvokeHTTPJSONResponse :=
  {| hr_Status := status; hr_Body := Some b; hr_HasBody := true; hr_SuppressWrite := false |}.

Lemma encode_http_error policy env h :
  envelope_HTTPError (Some env) = Some h → he_SuppressWrite h = false →
  EncodeCommandInvokeHTTPJSONResponse (Some (projection_of policy env)) =
    json_response (he_Status h) (ErrorPayload (he_Message h) (he_Code h)).
Proof.
  intros Hh Hs. unfold EncodeCommandInvokeHTTPJSONResponse, BuildCommandInvokeEnvelope, encodeCommandInvokeHTTPEnvelope, projection_of.
  rewrite Hh. simpl. by rewrite Hs.
Qed.

(** The HTTP answer follows the outcome of the dispatch.  The command is
    handed to the sender exactly once, with the stream flag of the policy; a
    result is reported if and only if the state is completed, and then it is the
    200 body; fire-and-forget answers 200 with the request id; a timeout is 504;
    a cancelled or expired context writes nothing; an empty result is 502, and so
    is a send error (unless the sender itself reports a timeout or a context
    error), with the sender's message. *)
Theorem dispatch_http_contract t w ch now probeID cmd policy env t' sent :
  run t w ch now probeID cmd policy = (Ok (env, t'), sent) →
  let resp := EncodeCommandInvokeHTTPJSONResponse (Some (projection_of policy env)) in
  sent = [(probeID, with_stream cmd (dp_StreamOutput policy))] ∧
  (is_Some (ce_Result env) ↔ ce_State env = ResultStateCompleted) ∧
  (ce_Dispatched env = false ↔ ce_State env = ResultStateDispatchError) ∧
  (∀ r, ce_Result env = Some r → resp = json_response 200 (SuccessPayload (Some (PayloadResult (Some r))))) ∧
  (ce_State env = ResultStateDispatched →
     resp = json_response 200 (SuccessPayload (Some (PayloadDispatched (cmd_RequestID cmd))))) ∧
  (ce_State env = ResultStateTimeout → resp = json_response 504 (ErrorPayload "timeout waiting for probe response" "timeout")) ∧
  (ce_State env = ResultStateCanceled → hr_SuppressWrite resp = true ∧ hr_HasBody resp = false ∧ hr_Body resp = None) ∧
  (ce_State env = ResultStateResultError → resp = json_response 502 (ErrorPayload "command failed: empty result" "bad_gateway")) ∧
  (∀ e, SendTo probeID (with_stream cmd (dp_StreamOutput policy)) = Some e → errors_Is e ErrTimeout = false →
     context_error e = false → resp = json_response 502 (ErrorPayload (Error e) "bad_gateway")).
Proof.
  intros H resp. subst resp. destruct (dispatch_ends _ _ _ _ _ _ _ _ _ _ H) as (-> & Hr & Hend). split; [done|].
  destruct Hend as [e Ha Hs Hd Hres Herr|Ha Hw Hs Hd Hres Herr|st r err Ha Hw Hs Hd Hres Herr Hc];
    destruct env as [rid st' disp res er]; simpl in *; subst.
  - rewrite Ha. split_and!; try done; try (by split; intros []). intros e' [= <-] Ht Hc.
    rewrite (encode_http_error _ _ (http_error StatusBadGateway "bad_gateway" (Error e))); [done| |done].
    unfold envelope_HTTPError, ce_Err. by rewrite Ht, Hc.
  - unfold projection_of. rewrite Ha, Hw. split_and!; try done; by split; intros [].
  - unfold projection_of. rewrite Ha, Hw. destruct Hc as [Hin|(-> & [x ->] & ->)].
    + repeat (apply elem_of_cons in Hin as [[= -> -> ->]|Hin]; [split_and!; try done; by split; intros []|]). set_solver.
    + split_and!; try done; [intros ? [= ->]; done].
Qed.
End reports.

(** ** The tracked request is released *)

(** Channel [ch] exists and belongs to request [rid] only. *)
Definition owned_by (ch : nat) (rid : string) (t : Tracker) : Prop :=
  is_Some (chans t !! ch) ∧ ∀ id pc, pending t !! id = Some pc → pc_Result pc = ch → id = rid.

Lemma owned_shrink ch rid t t' :
  (∀ id pc, pending t' !! id = Some pc → pending t !! id = Some pc) → (is_Some (chans t !! ch) → is_Some (chans t' !! ch)) →
  owned_by ch rid t → owned_by ch rid t'.
Proof. intros Hp Hc [Hs Ho]. split; [auto|]. intros id pc H. apply Ho. auto. Qed.

Lemma lookup_insert_is_Some_2 {A} (m : gmap nat A) i j x : is_Some (m !! j) → is_Some (<[i := x]> m !! j).
Proof. destruct (decide (i = j)) as [->|]; [by rewrite lookup_insert_eq|by rewrite lookup_insert_ne]. Qed.

Lemma owned_cancel ch rid rid' t t' : Cancel t rid' = Ok t' → owned_by ch rid t → owned_by ch rid t'.
Proof.
  intros Hc. apply owned_shrink; unfold Cancel in Hc; destruct (pending t !! rid') as [pc|]; [|by simplify_eq| |by simplify_eq];
    destruct (chans t !! pc_Result pc) as [c|] eqn:E; try destruct (close c); simplify_eq; simpl; try done.
  1,2: intros id pc' H; by apply lookup_delete_Some in H as [_ H].
  apply lookup_insert_is_Some_2.
Qed.

Lemma owned_step ch rid t t' : tracker_inv t → tracker_step t t' → owned_by ch rid t → owned_by ch rid t'.
Proof.
  intros Hi Hs Ho. destruct Hs as [ch' now rid' probe command level Hn|rid' v|i t' Hc|rid' t' Hc|now iter t' Hp He|ch' v ok t' Hr].
  - destruct Ho as [Hc Ho]. split; simpl; [by apply lookup_insert_is_Some_2|].
    intros id pc [[<- <-]|[_ H]]%lookup_insert_Some E; [|by eapply Ho]. simpl in E. subst. rewrite Hn in Hc. by destruct Hc.
  - revert Ho. apply owned_shrink; unfold Complete; destruct (pending t !! rid') as [pc|]; simpl; try done.
    intros id pc' H. by apply lookup_delete_Some in H as [_ H].
  - revert Ho. unfold complete_send in Hc. destruct (in_flight_sends t !! i) as [[ch' v]|]; [|done].
    destruct (chans t !! ch') as [c|]; [|done]. destruct (send c v); simplify_eq.
    apply owned_shrink; simpl; [done|apply lookup_insert_is_Some_2].
  - by eapply owned_cancel.
  - destruct (expire_ok t now iter Hi Hp) as (t2 & E2 & H2). rewrite E2 in He. injection He as ->. revert Ho. apply owned_shrink.
    + intros id pc H. by apply (expired_pending t now iter t' id pc Hp H2) in H as [H _].
    + intros [c Hc]. destruct (decide (ch ∈ live_chans t)) as [Hl|Hl].
      * destruct (proj1 (elem_live t ch) Hl) as [(id & pc & Hpc & <-)|(v & Hv)].
        -- destruct (stale (now - ttl t) pc) eqn:Es.
           ++ rewrite (ex_told _ _ _ _ H2 id pc); [by eexists|by rewrite Hp; apply elem_of_map_to_list|done].
           ++ assert (Hk : pending t' !! id = Some pc) by (apply (expired_pending t now iter t' id pc Hp H2); done).
              destruct (take_pending_inv t' id pc make_chan (ex_inv _ _ _ _ H2) Hk) as [E _]. by rewrite E.
        -- assert (Hl' : ch ∈ live_chans t') by (apply elem_live; right; exists v; by rewrite (ex_sends _ _ _ _ H2)).
           pose proof (proj1 (Forall_forall _ _) (tk_live _ (ex_inv _ _ _ _ H2)) _ Hl') as E. simpl in E. by rewrite E.
      * destruct (live_only_settled t t' ch (expire_live t now iter t' Hp H2)) as [[Hs _] _]; [by split; [exists c|]|done].
  - revert Ho. unfold receive in Hr. destruct (chans t !! ch') as [c|]; [|done].
    destruct (buffer c); [destruct (closed c); by simplify_eq|]. simplify_eq.
    apply owned_shrink; simpl; [done|apply lookup_insert_is_Some_2].
Qed.

Lemma owned_steps ch rid t t' : rtc tracker_step t t' → tracker_inv t → owned_by ch rid t → owned_by ch rid t'.
Proof.
  induction 1 as [t|t t1 t2 H1 H2 IH]; intros Hi Ho; [done|].
  apply IH; [by eapply step_inv|by eapply owned_step].
Qed.

Lemma inv_steps t t' : rtc tracker_step t t' → tracker_inv t → tracker_inv t'.
Proof. induction 1 as [t|t t1 t2 H1 H2 IH]; intros Hi; [done|]. apply IH. by eapply step_inv. Qed.

(** No pending command refers to channel [ch]. *)
Definition released (ch : nat) (t : Tracker) : Prop := ∀ id pc, pending t !! id = Some pc → pc_Result pc ≠ ch.

Lemma cancel_releases ch rid t t' : owned_by ch rid t → Cancel t rid = Ok t' → released ch t'.
Proof.
  intros Ho Hc id pc Hp E. assert (pending t' !! rid = None) as Hn.
  { unfold Cancel in Hc. destruct (pending t !! rid) as [pc'|] eqn:Ep; [|by simplify_eq].
    destruct (chans t !! pc_Result pc'); try destruct (close _); simplify_eq; apply lookup_delete_eq. }
  assert (id = rid) as -> by exact (proj2 (owned_cancel ch rid rid t t' Hc Ho) id pc Hp E). congruence.
Qed.

Lemma receive_releases ch v ok t t' : tracker_inv t → receive t ch = Some (v, ok, t') → released ch t'.
Proof.
  intros Hi Hr id pc Hp E.
  assert (Hp' : pending t !! id = Some pc).
  { unfold receive in Hr. destruct (chans t !! ch) as [c|]; [|done]. destruct (buffer c); [destruct (closed c); by simplify_eq|by simplify_eq]. }
  destruct (take_pending_inv t id pc make_chan Hi Hp') as [Hc _]. rewrite E in Hc. unfold receive in Hr. by rewrite Hc in Hr.
Qed.

Section release.
Context (SendTo : string → CommandPayload → option go_error).
Context (during_send while_waiting : Tracker → Tracker).
Context (send_env : ∀ t, rtc tracker_step t (during_send t)) (wait_env : ∀ t, rtc tracker_step t (while_waiting t)).
Let run := DispatchWithPolicy SendTo during_send while_waiting.

(** A waiting dispatch never leaks its tracked request, whatever the other
    users of the tracker do while it sends and waits.  It cannot panic, it can
    only stay blocked on a result that is not there, and when it returns (the
    send failed, a result came, the timer fired, or the context ended under the
    cancelling policy) no pending command refers to its channel any more. *)
Theorem dispatch_releases_request d t w ch now probeID cmd policy out sent :
  tracker_reachable d t → chans t !! ch = None → dp_WaitForResult policy = true →
  dp_CancelOnContextDone policy = true →
  run t w ch now probeID cmd policy = (out, sent) →
  match out with
  | Ok (env, t') => released ch t' ∧ tracker_inv t'
  | Blocks => w = ResultReady
  | Panics => False
  end.
Proof.
  intros Hi%reachable_inv Hn Hw Hcan Hrun. unfold run, DispatchWithPolicy, DispatchTracked in Hrun.
  rewrite normalized_wait, Hw, normalized_stream in Hrun. set (cmd' := with_stream cmd (dp_StreamOutput policy)) in *.
  set (t0 := Track t ch now (cmd_RequestID cmd') probeID (cmd_Command cmd') (cmd_Level cmd')) in *.
  assert (Hi0 : tracker_inv t0.2) by (by apply track_inv).
  assert (Ho0 : owned_by ch (cmd_RequestID cmd') t0.2).
  { split; simpl; [by rewrite lookup_insert_eq|]. intros id pc [[<- <-]|[_ H]]%lookup_insert_Some E; [done|].
    destruct (take_pending_inv t id pc make_chan Hi H) as [Hc _]. congruence. }
  assert (Hi1 : tracker_inv (during_send t0.2)) by (eapply inv_steps; eauto).
  assert (Ho1 : owned_by ch (cmd_RequestID cmd') (during_send t0.2)) by (eapply owned_steps; eauto).
  assert (Hi2 : tracker_inv (while_waiting (during_send t0.2))) by (eapply inv_steps; eauto).
  assert (Ho2 : owned_by ch (cmd_RequestID cmd') (while_waiting (during_send t0.2))) by (eapply owned_steps; eauto).
  simpl negb in Hrun. cbv iota in Hrun. rewrite (surjective_pairing t0) in Hrun.
  destruct (SendTo probeID cmd') as [e|].
  - destruct (cancel_ok _ (cmd_RequestID cmd') Hi1) as (t2 & E2 & Hi3). rewrite E2 in Hrun. injection Hrun as <- _.
    split; [exact (cancel_releases _ _ _ _ Ho1 E2)|done].
  - unfold waitForResult in Hrun. rewrite normalized_cancel, Hcan in Hrun.
    destruct (cancel_ok _ (cmd_RequestID cmd') Hi2) as (t2 & E2 & Hi3). destruct w as [| |e].
    + destruct (receive _ _) as [[[r []] t3]|] eqn:Er; injection Hrun as <- _; [| |done];
        (split; [exact (receive_releases _ _ _ _ _ Hi2 Er)|exact (receive_inv _ _ _ _ _ Hi2 Er)]).
    + rewrite E2 in Hrun. injection Hrun as <- _. split; [exact (cancel_releases _ _ _ _ Ho2 E2)|done].
    + rewrite E2 in Hrun. injection Hrun as <- _. split; [exact (cancel_releases _ _ _ _ Ho2 E2)|done].
Qed.
End release.

(** Two commands that share a request id, which [NextCommandRequestID] hands
    out whenever two readings of the clock are a multiple of 100 microseconds
    apart: the first caller is orphaned, and when its timer fires it cancels the
    second one's request.  The second caller is told its context was cancelled,
    so nothing is written to it, and the probe's answer is refused. *)
Theorem shared_request_id_cancels_other d t now k pc1 pc2 policy :
  tracker_reachable d t → 0 ≤ now → 0 ≤ k →
  let rid := NextCommandRequestID now in
  pending t !! rid = Some pc2 → pc_Result pc1 ≠ pc_Result pc2 →
  NextCommandRequestID (now + k * 100000) = rid ∧
  ∃ t', waitForResult t TimerFired rid pc1 policy = Ok (None, Some (Sentinel ErrTimeout), t') ∧
        waitForResult t' ResultReady rid pc2 policy = Ok (None, Some (Sentinel ContextCanceled), t') ∧
        hr_SuppressWrite (EncodeCommandInvokeHTTPJSONResponse (Some (projection_of policy
          (conclude (dispatched (new_envelope rid) "") None (Some (Sentinel ContextCanceled)))))) = true ∧
        ∀ v, ∃ e, Complete t' rid v = (Some e, t').
Proof.
  intros Hi%reachable_inv Hnow Hk rid Hp Hne. split.
  { unfold rid, NextCommandRequestID. rewrite !Z.rem_mod_nonneg by lia. by rewrite Z_mod_plus_full. }
  destruct (take_pending_inv t rid pc2 {| buffer := []; closed := true |} Hi Hp) as [Hc _].
  eexists. split_and!.
  - unfold waitForResult, Cancel. rewrite Hp, Hc. done.
  - unfold waitForResult, receive; simpl. by rewrite lookup_insert_eq.
  - done.
  - intros v. unfold Complete; simpl. rewrite lookup_delete_eq. by eexists.
Qed.

(** ** Concrete runs *)

Definition ex_send (_ : string) (_ : CommandPayload) : option go_error := None.
Definition ex_command : CommandPayload :=
  {| cmd_RequestID := "cmd-17"; cmd_Command := "df"; cmd_Args := []; cmd_Timeout := 0; cmd_Level := CapObserve; cmd_Stream := false |}.
Definition ex_start : Tracker := New (60 * Second).
Definition ex_run : outcome (CommandResultEnvelope * Tracker) * list (string * CommandPayload) :=
  DispatchWithPolicy ex_send id id ex_start TimerFired 0 5 "p1" ex_command (WaitPolicy 0).
Definition ex_env : CommandResultEnvelope := match ex_run.1 with Ok (e, _) => e | _ => new_envelope "" end.
Definition ex_end : Tracker := match ex_run.1 with Ok (_, t) => t | _ => ex_start end.

Lemma dispatch_http_contract_witness :
  EncodeCommandInvokeHTTPJSONResponse (Some (projection_of (WaitPolicy 0) ex_env)) =
    json_response 504 (ErrorPayload "timeout waiting for probe response" "timeout").
Proof.
  destruct (dispatch_http_contract ex_send id id ex_start TimerFired 0 5 "p1" ex_command (WaitPolicy 0) ex_env ex_end
    [("p1", ex_command)] eq_refl) as (_ & _ & _ & _ & _ & H & _).
  apply H. reflexivity.
Defined.

Lemma dispatch_releases_request_witness : released 0 ex_end.
Proof.
  exact (proj1 (dispatch_releases_request ex_send id id (λ t, rtc_refl _ t) (λ t, rtc_refl _ t) (60 * Second) ex_start TimerFired 0 5
    "p1" ex_command (WaitPolicy 0) (Ok (ex_env, ex_end)) [("p1", ex_command)] (rtc_refl _ _) eq_refl eq_refl eq_refl eq_refl)).
Defined.

Definition ex_shared : Tracker :=
  (Track (Track ex_start 0 17 "cmd-17" "p1" "df" CapObserve).2 1 100017 "cmd-17" "p2" "uptime" CapObserve).2.
Definition ex_first : PendingCommand := (Track ex_start 0 17 "cmd-17" "p1" "df" CapObserve).1.
Definition ex_second : PendingCommand :=
  (Track (Track ex_start 0 17 "cmd-17" "p1" "df" CapObserve).2 1 100017 "cmd-17" "p2" "uptime" CapObserve).1.

Lemma ex_shared_reachable : tracker_reachable (60 * Second) ex_shared.
Proof.
  eapply rtc_l; [apply (ts_track _ 0 17 "cmd-17" "p1" "df" CapObserve); done|].
  eapply rtc_l; [apply (ts_track _ 1 100017 "cmd-17" "p2" "uptime" CapObserve); done|]. apply rtc_refl.
Qed.

Lemma shared_request_id_cancels_other_witness :
  NextCommandRequestID 100017 = "cmd-17" ∧
  ∃ t', waitForResult ex_shared TimerFired "cmd-17" ex_first (WaitPolicy 0) = Ok (None, Some (Sentinel ErrTimeout), t') ∧
        waitForResult t' ResultReady "cmd-17" ex_second (WaitPolicy 0) = Ok (None, Some (Sentinel ContextCanceled), t').
Proof.
  assert (E : NextCommandRequestID 17 = "cmd-17") by reflexivity.
  destruct (shared_request_id_cancels_other (60 * Second) ex_shared 17 1 ex_first ex_second (WaitPolicy 0)
    ex_shared_reachable ltac:(lia) ltac:(lia) eq_refl ltac:(discriminate)) as (H1 & t' & H2 & H3 & _).
  rewrite E in H1, H2, H3. split; [exact H1|]. exists t'. by split.
Defined.
