(* ===== verification/AsyncApproval.v ===== *)
(** * Approval of async jobs over HTTP
    (src/internal/controlplane/server/async_jobs_approval.go, workspace_isolation.go,
    the two readers of src/internal/controlplane/config/config.go it uses)

    The handlers drive two stores that know nothing of each other: the approval
    queue in memory and the job table.  A handler returns its HTTP reply and the
    effects it has in order: stream markers and audit events (without their
    detail maps) and the jobs it hands to the dispatcher.  Clock readings come
    from the host of the job table.  What the authentication layer makes of the
    HTTP request is an argument: whether [requirePermission] lets it pass, and
    its workspace scope. *)
From S2P Require Import Prelude GoStrings GoErrors GoTime Protocol ApprovalQueue AsyncTypes GoSql AsyncStore AsyncLifecycle AsyncManager.
Local Open Scope go_scope.
Local Open Scope Z_scope.

(** ** Configuration *)

Record JobsConfig := { ApprovalTimeoutBehavior : string; ApprovalTimeoutSeconds : Z }.

Definition ApprovalTimeoutBehaviorOrDefault (c : JobsConfig) : string :=
  let b := TrimSpace (ApprovalTimeoutBehavior c) in
  if (b =s "cancel") || (b =s "reads_only") || (b =s "escalate") then b else "cancel".

Definition ApprovalTimeoutDuration (c : JobsConfig) : duration :=
  if ApprovalTimeoutSeconds c <=? 0 then 0 else ApprovalTimeoutSeconds c * Second.

(** Which optional parts of the server are set, and its configuration. *)
Record Server := {
  has_asyncJobsManager : bool;
  has_jobsStore : bool;
  has_approvalQueue : bool;
  jobs_cfg : JobsConfig;
  WorkspaceIsolation : bool;
}.

(** ** Requests, replies and effects *)

(** The error of [json.Decoder.Decode] on the body, or the decoded payload. *)
Inductive decision_body := Body (decidedBy reason : string) | BodyEOF | BodyCanceled | BodyError.

(** [ar_Scope] is [None] when [WorkspaceIDFromContext] fails. *)
Record approval_http_request := {
  ar_Permitted : bool;
  ar_ID : string;
  ar_Scope : option string;
  ar_Body : decision_body;
}.

(** [Refused] stands for what [requirePermission] and [workspaceScopeForRequest]
    wrote themselves. *)
Inductive reply := Refused | JSONError (status : Z) (code message : string) | Decided (jobID status : string).

Inductive effect :=
  | Marker (requestID kind message : string)
  | Audited (probeID actor summary : string)
  | DispatchQueued (job : AsyncJob).

Definition normalizeWorkspaceID (workspaceID : string) : string := ToLower (TrimSpace workspaceID).

(** [enforceWorkspaceMatch]: [None] when the request may go on. *)
Definition enforceWorkspaceMatch (s : Server) (r : approval_http_request) (resourceWorkspaceID : string) : option reply :=
  if negb (WorkspaceIsolation s) then None
  else match ar_Scope r with
  | None => Some Refused
  | Some scope =>
      let requestWorkspaceID := normalizeWorkspaceID scope in
      let resource := normalizeWorkspaceID resourceWorkspaceID in
      if requestWorkspaceID =s "*" then None
      else if (resource =s "") || (requestWorkspaceID <>s resource)
      then Some (JSONError 403 "workspace_forbidden" "workspace scope does not include requested resource")
      else None
  end.

Definition isReadOnlyAsyncJobLevel (level : string) : bool :=
  (TrimSpace level =s CapObserve) || (TrimSpace level =s CapDiagnose).

Section handlers.
Context `{Host} {R : Type} (s : Server).

(** The two stores. *)
Record stores := { st_queue : Queue R; st_db : DB }.

Definition on_jobs {A} (m : M A) (st : stores) : result A * stores :=
  let '(r, db) := m (st_db st) in (r, {| st_queue := st_queue st; st_db := db |}).

(** [Decide] on the queue, with two readings of the clock. *)
Definition queue_Decide (st : stores) (id : string) (d : ApprovalDecision) (by_ : string) : result (Request R) * stores :=
  let n := ticks (st_db st) in
  let '(r, q) := Decide (clock n) (clock (S n)) (st_queue st) id d by_ in
  (r, {| st_queue := q; st_db := tick (tick (st_db st)) |}).

(** A nil request without an error is [inr None]. *)
Definition syncApprovalDecision (st : stores) (approvalID : string) (d : ApprovalDecision) (decidedBy : string)
    : result (option (Request R)) * stores :=
  let approvalID := TrimSpace approvalID in
  let decidedBy := TrimSpace decidedBy in
  if negb (has_approvalQueue s) || (approvalID =s "") then (inr None, st)
  else
    let decidedBy := if decidedBy =s "" then "system" else decidedBy in
    match GetRequest (st_queue st) approvalID with
    | None => (inr None, st)
    | Some _ =>
        match queue_Decide st approvalID d decidedBy with
        | (inl e, st') => (inl e, st')
        | (inr req, st') => (inr (Some req), st')
        end
    end.

(** The error replies after [ApproveJob] and [RejectJob]. *)
Definition decision_error (fallback_code fallback_prefix : string) (e : go_error) : reply :=
  if IsAsyncJobConflict e || errors_Is e ErrInvalidAsyncJobTransition then JSONError 409 "already_decided" (Error e)
  else if IsNotFound e then JSONError 404 "not_found" "async job not found"
  else JSONError 500 fallback_code (fallback_prefix +:+ Error e)%string.
Definition approve_error : go_error → reply := decision_error "approve_failed" "approve failed: ".
Definition reject_error : go_error → reply := decision_error "reject_failed" "reject failed: ".

Definition decided_by (b : decision_body) : string :=
  match b with Body by_ _ => if TrimSpace by_ =s "" then "api" else TrimSpace by_ | _ => "api" end.

(** The common start of both handlers, up to the workspace check. *)
Definition load_job (r : approval_http_request) (st : stores) : (reply + AsyncJob) * stores :=
  if negb (ar_Permitted r) then (inl Refused, st)
  else if negb (has_asyncJobsManager s) then (inl (JSONError 503 "jobs_unavailable" "async jobs manager unavailable"), st)
  else
    let jobID := TrimSpace (ar_ID r) in
    if jobID =s "" then (inl (JSONError 400 "missing_id" "job id required"), st)
    else match on_jobs (GetJob jobID) st with
    | (inl e, st) =>
        (inl (if IsNotFound e then JSONError 404 "not_found" "async job not found"
              else JSONError 500 "lookup_failed" ("lookup failed: " +:+ Error e)%string), st)
    | (inr current, st) =>
        match enforceWorkspaceMatch s r (j_WorkspaceID current) with Some rep => (inl rep, st) | None => (inr current, st) end
    end.

(** The end of the approval, once the queue has accepted it. *)
Definition resume_job (st : stores) (jobID decidedBy : string) : reply * list effect * stores :=
  match on_jobs (ApproveJob jobID) st with
  | (inl e, st) => (approve_error e, [], st)
  | (inr job, st) =>
      (Decided (j_ID job) "approved",
       [Marker (j_RequestID job) "approval" "job_approved";
        Audited (j_ProbeID job) decidedBy ("Async job " +:+ j_ID job +:+ " approved")%string;
        DispatchQueued job], st)
  end.

(** The branch for a request the queue has already decided. *)
Definition resume_decided_job (st : stores) (jobID : string) : reply * list effect * stores :=
  match on_jobs (ApproveJob jobID) st with
  | (inl e, st) => (approve_error e, [], st)
  | (inr job, st) => (Decided (j_ID job) "approved", [], st)
  end.

Definition awaiting_second (req : option (Request R)) : bool :=
  match req with
  | Some r => (decision r =s DecisionPending) && (0 <? Z.of_nat (length (ApproverIDs req)))
  | None => false
  end.

Definition recorded_summary (job : AsyncJob) (req : option (Request R)) : string :=
  ("Async job " +:+ j_ID job +:+ " approval recorded (" +:+ Itoa (Z.of_nat (length (ApproverIDs req))) +:+ "/" +:+
   Itoa (RequiredApprovalCount req) +:+ ")")%string.

Definition handleApproveAsyncJob (st : stores) (r : approval_http_request) : reply * list effect * stores :=
  let jobID := TrimSpace (ar_ID r) in
  match load_job r st with
  | (inl rep, st) => (rep, [], st)
  | (inr current, st) =>
      match ar_Body r with
      | BodyError => (JSONError 400 "invalid_body" "invalid request body", [], st)
      | b =>
          let decidedBy := decided_by b in
          match syncApprovalDecision st (j_ApprovalID current) DecisionApproved decidedBy with
          | (inl e, st) =>
              if Contains (Error e) "already approved request" then (JSONError 409 "duplicate_approver" (Error e), [], st)
              else if Contains (Error e) "expired at" then (JSONError 409 "approval_expired" (Error e), [], st)
              else if Contains (Error e) "already decided" then resume_decided_job st jobID
              else (JSONError 400 "invalid_request" (Error e), [], st)
          | (inr req, st) =>
              if awaiting_second req
              then (Decided (j_ID current) "pending_second_approval",
                    [Marker (j_RequestID current) "approval" "approval_recorded";
                     Audited (j_ProbeID current) decidedBy (recorded_summary current req)], st)
              else resume_job st jobID decidedBy
          end
      end
  end.

Definition handleRejectAsyncJob (st : stores) (r : approval_http_request) : reply * list effect * stores :=
  let jobID := TrimSpace (ar_ID r) in
  match load_job r st with
  | (inl rep, st) => (rep, [], st)
  | (inr current, st) =>
      match ar_Body r with
      | BodyError | BodyCanceled => (JSONError 400 "invalid_body" "invalid request body", [], st)
      | b =>
          let decidedBy := decided_by b in
          let given := match b with Body _ reason => TrimSpace reason | _ => ""%string end in
          let reason := if given =s "" then ("rejected by " +:+ decidedBy)%string else given in
          match on_jobs (RejectJob jobID reason) st with
          | (inl e, st) => (reject_error e, [], st)
          | (inr job, st) =>
              let '(_, st) := syncApprovalDecision st (j_ApprovalID job) DecisionDenied decidedBy in
              (Decided (j_ID job) "rejected",
               [Marker (j_RequestID job) "approval" "job_rejected";
                Audited (j_ProbeID job) decidedBy ("Async job " +:+ j_ID job +:+ " rejected: " +:+ reason)%string], st)
          end
      end
  end.

(** ** Approval timeouts *)

Definition recordApprovalTimeoutAudit (job : AsyncJob) (behavior : string) : effect :=
  Audited (j_ProbeID job) "system" ("Async approval timeout handled (" +:+ behavior +:+ "): " +:+ j_ID job)%string.

Definition cancel_timed_out (st : stores) (job : AsyncJob) (behavior reason marker : string) : Z * list effect * stores :=
  match on_jobs (CancelJob (j_ID job) reason) st with
  | (inl _, st) => (0, [], st)
  | (inr _, st) =>
      let '(_, st) := syncApprovalDecision st (j_ApprovalID job) DecisionDenied "system" in
      (1, [recordApprovalTimeoutAudit job behavior; Marker (j_RequestID job) "approval" marker], st)
  end.

(** One round of the loop: whether the job counts as processed, its effects. *)
Definition process_one (now : time) (behavior : string) (extension : duration) (st : stores) (job : AsyncJob) : Z * list effect * stores :=
  if behavior =s "escalate" then
    match on_jobs (ExtendApprovalExpiry (j_ID job) (now + extension)) st with
    | (inl _, st) => (0, [], st)
    | (inr _, st) =>
        (1, [recordApprovalTimeoutAudit job behavior; Marker (j_RequestID job) "approval" "approval_timeout_escalated"], st)
    end
  else if behavior =s "reads_only" then
    if isReadOnlyAsyncJobLevel (j_Level job) then
      match on_jobs (ApproveJob (j_ID job)) st with
      | (inl _, st) => (0, [], st)
      | (inr resumed, st) =>
          let '(_, st) := syncApprovalDecision st (j_ApprovalID job) DecisionApproved "system" in
          (1, [recordApprovalTimeoutAudit resumed behavior;
               Marker (j_RequestID resumed) "approval" "approval_timeout_reads_only_resumed"; DispatchQueued resumed], st)
      end
    else cancel_timed_out st job behavior "approval timeout: reads_only policy blocked mutating command" "approval_timeout_reads_only_cancelled"
  else cancel_timed_out st job behavior "approval timeout: auto-cancelled" "approval_timeout_cancelled".

Fixpoint process_all (now : time) (behavior : string) (extension : duration) (st : stores) (jobs : list AsyncJob)
    : Z * list effect * stores :=
  match jobs with
  | [] => (0, [], st)
  | job :: rest =>
      let '(n, e, st) := process_one now behavior extension st job in
      let '(n', e', st) := process_all now behavior extension st rest in
      (n + n', e ++ e', st)
  end.

Definition processTimedOutApprovalJobs (now : time) (st : stores) : result Z * list effect * stores :=
  if negb (has_asyncJobsManager s) || negb (has_jobsStore s) then (inr 0, [], st)
  else
    let behavior := ApprovalTimeoutBehaviorOrDefault (jobs_cfg s) in
    let d := ApprovalTimeoutDuration (jobs_cfg s) in
    let extension := if d <=? 0 then 900 * Second else d in
    match on_jobs (ListExpiredWaitingApprovalJobs now 100) st with
    | (inl e, st) => (inl (WrapError ("list expired approval jobs: " +:+ Error e)%string e), [], st)
    | (inr expired, st) => let '(n, e, st) := process_all now behavior extension st expired in (inr n, e, st)
    end.
End handlers.
Arguments stores : clear implicits.

(** ** Lemmas on the two stores *)


Section lemmas.
Context `{Host} {R : Type} (s : Server).
Implicit Types (st : stores R).

Lemma get_ok id db job db' :
  GetAsyncJob id db = (inr job, db') →
  rows db' = rows db ∧ ∃ r, r ∈ rows db ∧ j_ID r = TrimSpace id ∧ job = scanAsyncJob r.
Proof.
  intros E. split; [by apply (reads_GetAsyncJob id) in E|]. revert E. unfold GetAsyncJob. cbv zeta.
  destruct (TrimSpace id =s ""); [done|]. unfold query, mbind, M_bind, mret, M_ret, query_row.
  destruct (sql_fault (ticks db)); [done|]. destruct (List.find _ _) as [r|] eqn:Ef; [|done].
  apply List.find_some in Ef as [Hin Hid]. intros [= <- _]. exists r. split_and!; [by apply list_elem_of_In| |done].
  unfold has_id in Hid. by bools.
Qed.

Lemma approve_job_ok id db job db' :
  table_inv (rows db) → ApproveJob id db = (inr job, db') →
  ∃ r r', r ∈ rows db ∧ j_ID r = TrimSpace id ∧ j_State r = AsyncJobStateWaitingApproval ∧
    r' ∈ rows db' ∧ job = scanAsyncJob r' ∧ identity r' = identity r ∧ j_State r' = AsyncJobStateRunning.
Proof.
  intros Hinv. unfold ApproveJob, ApproveAsyncJob. cbv zeta. destruct (String.eqb_spec (TrimSpace id) "") as [|Hne]; [done|].
  rewrite TrimSpace_idem. destruct (TrimSpace id =s ""); [done|]. unfold mbind at 1, M_bind at 1. simpl. intros E.
  pose proof E as E2. apply decide_waiting_ok in E as [(r & Hr & Hin) Hrows]. exists r.
  revert E2. unfold wrap_error, exec, sql_update, mbind, M_bind. destruct (sql_fault _); [done|]. cbv iota beta.
  unfold conflict_or_job. destruct (_ =? 0); [unfold mbind, M_bind; destruct (GetAsyncJob _ _) as [[?|?] ?]; done|].
  intros (Hsame & r' & Hr' & Hid' & ->)%get_ok. rewrite TrimSpace_idem in Hid'. cbn [rows] in Hr'. exists r'.
  apply in_state_spec in Hin as [Hid Hw]. rewrite Hrows. cbn [rows tick] in Hr' |- *.
  assert (Hup : r' = apply_set (approve_clauses (clock (ticks db))) r).
  { apply elem_of_update_where in Hr' as [(x & Hx & Hxin & ->)|[Hx Hxn]].
    - apply in_state_spec in Hxin as [Hxid _]. f_equal. destruct Hinv as [Hd _ _ _ _].
      pose proof (find_unique _ x Hd Hx) as F1. rewrite Hxid, <- Hid, (find_unique _ r Hd Hr) in F1. congruence.
    - exfalso. destruct Hinv as [Hd _ _ _ _]. pose proof (find_unique _ r' Hd Hx) as F1.
      rewrite Hid', <- Hid, (find_unique _ r Hd Hr) in F1. injection F1 as <-.
      unfold in_state in Hxn. by rewrite Hid, Hw, !String.eqb_refl in Hxn. }
  split_and!; [done|done|done|done|done| |by rewrite Hup]. rewrite Hup. apply apply_set_identity.
Qed.

Lemma on_jobs_eq {A} (m : M A) st r st' :
  on_jobs m st = (r, st') → m (st_db st) = (r, st_db st') ∧ st_queue st' = st_queue st.
Proof. unfold on_jobs. destruct (m (st_db st)) as [x db]. by intros [= <- <-]. Qed.

Lemma sync_rows st aid d by_ res st' : syncApprovalDecision s st aid d by_ = (res, st') → rows (st_db st') = rows (st_db st).
Proof.
  unfold syncApprovalDecision, queue_Decide. intros E. repeat case_match; simplify_eq; done.
Qed.
End lemmas.

(** ** Approving a job *)

Section approve.
Context `{Host} {R : Type} (s : Server).
Implicit Types (st : stores R).





End approve.

(** ** Approval timeouts *)

Section timeouts.
Context `{HostLaws} {R : Type} (s : Server).
Implicit Types (st : stores R).

Lemma on_jobs_steps {A} (m : M A) st r st' :
  writes update_step m → on_jobs m st = (r, st') → rtc db_step (rows (st_db st)) (rows (st_db st')).
Proof.
  intros Hw [E _]%on_jobs_eq. destruct (Hw _ _ _ E) as [->|Hs]; [done|]. by apply rtc_once, st_update.
Qed.

Lemma writes_ApproveJob id : writes update_step (ApproveJob id).
Proof. unfold ApproveJob. cbv zeta. case_match; [apply reads_writes, reads_fail|]. apply writes_ApproveAsyncJob. Qed.

Lemma cancel_timed_out_spec st job behavior reason marker n eff st' :
  cancel_timed_out s st job behavior reason marker = (n, eff, st') →
  rtc db_step (rows (st_db st)) (rows (st_db st')) ∧ ∀ j, DispatchQueued j ∉ eff.
Proof.
  unfold cancel_timed_out. destruct (on_jobs _ st) as [[e|j] st1] eqn:E.
  - intros [= <- <- <-]. split; [|by intros j ?%elem_of_nil]. eapply on_jobs_steps; [|exact E]. apply writes_TransitionAsyncJob.
  - apply on_jobs_steps in E; [|apply writes_TransitionAsyncJob].
    destruct (syncApprovalDecision _ _ _ _ _) as [res st2] eqn:Es. intros [= <- <- <-]. split.
    + by rewrite (sync_rows _ _ _ _ _ _ _ Es).
    + intros j' Hin. by repeat (apply elem_of_cons in Hin as [Hin|Hin]; [done|]); apply elem_of_nil in Hin.
Qed.

Lemma process_one_spec now behavior ext st job n eff st' :
  process_one s now behavior ext st job = (n, eff, st') →
  rtc db_step (rows (st_db st)) (rows (st_db st')) ∧
  ∀ j, DispatchQueued j ∈ eff →
    behavior = "reads_only" ∧ isReadOnlyAsyncJobLevel (j_Level job) = true ∧ ∃ db1, ApproveJob (j_ID job) (st_db st) = (inr j, db1).
Proof.
  unfold process_one. destruct (behavior =s "escalate").
  - destruct (on_jobs _ st) as [[e|u] st1] eqn:E; intros [= <- <- <-];
      (split; [eapply on_jobs_steps; [|exact E]; apply writes_ExtendApprovalExpiry|]); intros j Hin;
      exfalso; by repeat (apply elem_of_cons in Hin as [Hin|Hin]; [done|]); apply elem_of_nil in Hin.
  - destruct (String.eqb_spec behavior "reads_only") as [->|]; [destruct (isReadOnlyAsyncJobLevel (j_Level job)) eqn:El|].
    + destruct (on_jobs _ st) as [[e|resumed] st1] eqn:E; pose proof (on_jobs_steps _ _ _ _ (writes_ApproveJob _) E) as Hs.
      * intros [= <- <- <-]. split; [done|]. by intros j ?%elem_of_nil.
      * destruct (syncApprovalDecision _ _ _ _ _) as [res st2] eqn:Es. intros [= <- <- <-].
        split; [by rewrite (sync_rows _ _ _ _ _ _ _ Es)|]. intros j Hin. apply on_jobs_eq in E as [E _].
        do 2 (apply elem_of_cons in Hin as [Hin|Hin]; [done|]). apply list_elem_of_singleton in Hin. injection Hin as ->. eauto.
    + intros [Hs Hn]%cancel_timed_out_spec. split; [done|]. intros j Hj. by apply Hn in Hj.
    + intros [Hs Hn]%cancel_timed_out_spec. split; [done|]. intros j Hj. by apply Hn in Hj.
Qed.

Lemma process_all_spec now behavior ext jobs st n eff st' :
  process_all s now behavior ext st jobs = (n, eff, st') →
  ∀ j, DispatchQueued j ∈ eff →
    behavior = "reads_only" ∧ ∃ job st1 db1, job ∈ jobs ∧ isReadOnlyAsyncJobLevel (j_Level job) = true ∧
      rtc db_step (rows (st_db st)) (rows (st_db st1)) ∧ ApproveJob (j_ID job) (st_db st1) = (inr j, db1).
Proof.
  revert st n eff. induction jobs as [|job jobs IH]; intros st n eff; simpl; [intros [= <- <- <-] j; by intros ?%elem_of_nil|].
  destruct (process_one _ _ _ _ _ _) as [[n1 e1] st1] eqn:E1. destruct (process_all _ _ _ _ _ jobs) as [[n2 e2] st2] eqn:E2.
  intros [= <- <- <-] j Hj. apply process_one_spec in E1 as [Hs Hd]. apply elem_of_app in Hj as [Hj|Hj].
  - destruct (Hd j Hj) as (Hb & Hl & db1 & Ha). split; [done|]. exists job, st, db1. split_and!; try done. by left.
  - destruct (IH _ _ _ E2 j Hj) as (Hb & job' & st3 & db1 & Hin & Hl & Hs3 & Ha). split; [done|].
    exists job', st3, db1. split_and!; [by right|done|by etrans|done].
Qed.

(** The timeout checker runs a command nobody approved only when it is
    configured with reads_only, and then only observe and diagnose jobs whose
    approval window is over; under cancel and escalate, and for every mutating
    job, nothing is dispatched. *)
Theorem timeout_runs_reads_only now st res eff st' j :
  table_inv (rows (st_db st)) → Forall (λ r, TrimSpace (j_ID r) = j_ID r) (rows (st_db st)) →
  processTimedOutApprovalJobs s now st = (res, eff, st') → DispatchQueued j ∈ eff →
  ApprovalTimeoutBehaviorOrDefault (jobs_cfg s) = "reads_only" ∧ isReadOnlyAsyncJobLevel (j_Level j) = true ∧
  ∃ row, row ∈ rows (st_db st) ∧ approval_window_over now row = true ∧ j_ID j = j_ID row ∧ j_Command j = j_Command row ∧
         j_Args j = j_Args row ∧ j_Level j = j_Level row.
Proof.
  intros Hinv Htrim. unfold processTimedOutApprovalJobs. cbv zeta.
  destruct (negb _ || negb _); [intros [= <- <- <-]; by intros ?%elem_of_nil|].
  destruct (on_jobs (ListExpiredWaitingApprovalJobs now 100) st) as [[e|expired] st1] eqn:El; [intros [= <- <- <-]; by intros ?%elem_of_nil|].
  destruct (process_all _ _ _ _ _ _) as [[n e2] st2] eqn:Ep. intros [= <- <- <-] Hj.
  apply on_jobs_eq in El as [El _]. unfold ListExpiredWaitingApprovalJobs, query, select in El.
  destruct (sql_fault _); [done|]. injection El as <- Hdb.
  destruct (process_all_spec _ _ _ _ _ _ _ _ Ep j Hj) as (Hb & job & st3 & db3 & Hin & Hl & Hs & Ha). split; [done|].
  apply list_elem_of_fmap in Hin as (row & -> & Hin). apply (subseteq_take (Z.to_nat (normalizeAsyncJobLimit 100))) in Hin.
  rewrite order_by_perm, list_elem_of_In, filter_In, <- list_elem_of_In in Hin. destruct Hin as [Hrow Hover].
  rewrite <- Hdb in Hs. cbn [tick rows] in Hs.
  destruct (steps_evolve _ _ row Hs Hinv Hrow) as (row3 & Hrow3 & Hid3 & _). pose proof (steps_inv _ _ Hs Hinv) as Hinv3.
  destruct (approve_job_ok _ _ _ _ Hinv3 Ha) as (w & w' & Hw & Hwid & _ & _ & -> & Hident & _).
  rewrite scan_id, (proj1 (Forall_forall _ _) Htrim row Hrow) in Hwid. unfold identity in Hid3, Hident.
  assert (w = row3) as ->.
  { destruct Hinv3 as [Hd _ _ _ _]. pose proof (find_unique _ w Hd Hw) as F. rewrite Hwid in F.
    replace (j_ID row) with (j_ID row3) in F by congruence. rewrite (find_unique _ row3 Hd Hrow3) in F. congruence. }
  assert (Hlev : j_Level w' = j_Level row) by congruence. change (j_Level (scanAsyncJob row)) with (j_Level row) in Hl.
  split; [by change (isReadOnlyAsyncJobLevel (j_Level w') = true); rewrite Hlev|].
  exists row. split_and!; [done|done|..]; cbn; congruence.
Qed.
End timeouts.

(** ** Concrete runs *)

Import StoreExamples.

Module ApprovalRuns.

Definition srv : Server :=
  {| has_asyncJobsManager := true; has_jobsStore := true; has_approvalQueue := true;
     jobs_cfg := {| ApprovalTimeoutBehavior := "reads_only"; ApprovalTimeoutSeconds := 0 |}; WorkspaceIsolation := false |}.
Definition command : CommandPayload :=
  {| cmd_RequestID := "r-1"; cmd_Command := "systemctl"; cmd_Args := ["restart"; "nginx"]; cmd_Timeout := 0; cmd_Level := CapRemediate;
     cmd_Stream := false |}.

(** The job of [StoreExamples.waiting], and its approval request in a queue with
    the given TTL. *)
Definition queue_of (ttl : Z) (second : bool) : Queue unit :=
  (SubmitWithPolicyDetailsAndOptions 0 0 "u-1" (NewQueue ttl 10) "p-1" (Some command) "" "high" "api" "queue" None
     {| so_RequireSecondApprover := second |}).2.
Definition start (ttl : Z) (second : bool) : stores unit := {| st_queue := queue_of ttl second; st_db := waiting |}.
Definition by_alice : approval_http_request := {| ar_Permitted := true; ar_ID := "j-1"; ar_Scope := None; ar_Body := Body "alice" "" |}.
Definition run (st : stores unit) : reply * list effect * stores unit := handleApproveAsyncJob srv st by_alice.


Definition job_state (st : stores unit) : string := j_State (row_of (st_db st)).
Definition votes (st : stores unit) : option (ApprovalDecision * nat) :=
  match requests (st_queue st) !! "u-1" with Some r => Some (decision r, length (Approvals r)) | None => None end.
Definition dispatches (eff : list effect) : nat := length (List.filter (λ e, match e with DispatchQueued _ => true | _ => false end) eff).

Fixpoint dispatched_job (eff : list effect) : option AsyncJob :=
  match eff with [] => None | DispatchQueued j :: _ => Some j | _ :: rest => dispatched_job rest end.
Lemma dispatched_job_in eff : is_Some (dispatched_job eff) → ∃ j, DispatchQueued j ∈ eff.
Proof.
  induction eff as [|e eff IH]; simpl; [by intros []|]. destruct e as [| |j]; intros Hj.
  1,2: destruct (IH Hj) as [j Hin]; exists j; by right.
  exists j. by left.
Qed.

(** A diagnose job whose window is over. *)
Definition read_job : AsyncJob := apply_clause {|
  j_ID := "j-2"; j_WorkspaceID := ""; j_ProbeID := "p-1"; j_RequestID := "r-2"; j_Command := "ping"; j_Args := ["db"];
  j_Level := "diagnose"; j_State := AsyncJobStateWaitingApproval; j_StatusReason := ""; j_ApprovalID := ""; j_ExitCode := None;
  j_Output := ""; j_CreatedAt := 0; j_UpdatedAt := 0; j_StartedAt := None; j_FinishedAt := None; j_ExpiresAt := Some (5 * Second);
  j_ApprovedBy := ""; j_RejectedBy := ""; j_RejectionReason := ""; j_ApprovalDeadline := None |} (SetUpdatedAt 0).
Definition two_waiting : stores unit :=
  {| st_queue := NewQueue 900 10; st_db := {| rows := rows waiting ++ [read_job]; ticks := 50 |} |}.
End ApprovalRuns.
Import ApprovalRuns.




(** A request the queue has already settled against the job still lets it
    run.  The approval of an expired request is refused once with 409; repeated,
    the same call takes the already-decided branch, answers 200 approved and
    moves the job to running, although the request stays expired with no
    approval on record, and nothing is dispatched, so the job never finishes. *)
Theorem expired_approval_runs_job :
  let first := run (start (1 * Second) false) in
  let second := run first.2 in
  (∃ msg, first.1.1 = JSONError 409 "approval_expired" msg) ∧ job_state first.2 = AsyncJobStateWaitingApproval ∧
  second.1.1 = Decided "j-1" "approved" ∧ job_state second.2 = AsyncJobStateRunning ∧
  votes second.2 = Some (DecisionExpired, 0%nat) ∧ dispatches second.1.2 = 0%nat.
Proof. cbv zeta. split_and!; [eexists; vm_compute; reflexivity|vm_compute; reflexivity..]. Qed.

(** The quorum does not survive the queue.  A job whose request needs two
    approvers gets one vote and stays waiting; the queue is in memory, so after a
    restart it is empty, and the same approver's second call then dispatches the
    job alone. *)
Theorem restart_forgets_quorum :
  let first := run (start (900 * Second) true) in
  let restarted := {| st_queue := NewQueue (900 * Second) 10; st_db := st_db first.2 |} in
  let second := run restarted in
  first.1.1 = Decided "j-1" "pending_second_approval" ∧ votes first.2 = Some (DecisionPending, 1%nat) ∧
  dispatches first.1.2 = 0%nat ∧ job_state first.2 = AsyncJobStateWaitingApproval ∧
  second.1.1 = Decided "j-1" "approved" ∧ dispatches second.1.2 = 1%nat ∧ job_state second.2 = AsyncJobStateRunning.
Proof. cbv zeta. split_and!; vm_compute; reflexivity. Qed.

Definition late_result : result Z := (processTimedOutApprovalJobs srv (1000 * Second) two_waiting).1.1.
Definition late_effects : list effect := (processTimedOutApprovalJobs srv (1000 * Second) two_waiting).1.2.
Definition late_end : stores unit := (processTimedOutApprovalJobs srv (1000 * Second) two_waiting).2.

Lemma late_run : processTimedOutApprovalJobs srv (1000 * Second) two_waiting = (late_result, late_effects, late_end).
Proof.
  unfold late_result, late_effects, late_end. by destruct (processTimedOutApprovalJobs srv (1000 * Second) two_waiting) as [[? ?] ?].
Qed.
Lemma late_dispatched : ∃ job, DispatchQueued job ∈ late_effects.
Proof. apply dispatched_job_in. vm_compute. eexists. reflexivity. Qed.
Lemma late_inv : table_inv (rows (st_db two_waiting)).
Proof.
  replace (rows (st_db two_waiting)) with [row_of waiting; read_job] by (vm_compute; reflexivity).
  split; [by repeat constructor; vm_compute; set_solver|by repeat constructor; vm_compute; set_solver| | |].
  - repeat constructor; [by exists LWaiting|by exists LWaiting].
  - repeat constructor.
  - repeat constructor; unfold output_bounded; vm_compute; discriminate.
Qed.
Lemma late_ids : Forall (λ r, TrimSpace (j_ID r) = j_ID r) (rows (st_db two_waiting)).
Proof. replace (rows (st_db two_waiting)) with [row_of waiting; read_job] by (vm_compute; reflexivity). repeat constructor. Qed.

Lemma timeout_runs_reads_only_witness :
  ∃ j, DispatchQueued j ∈ late_effects ∧ isReadOnlyAsyncJobLevel (j_Level j) = true.
Proof.
  destruct late_dispatched as [j Hin]. exists j. split; [exact Hin|].
  exact (proj1 (proj2 (timeout_runs_reads_only srv (1000 * Second) two_waiting late_result late_effects late_end j
    late_inv late_ids late_run Hin))).
Defined.
