(* ===== verification/TokenBroker.v ===== *)
(** * The broker of scoped operation tokens
    (src/internal/controlplane/tokenbroker/broker.go and store.go)

    A runner operation is authorised by a short-lived token bound to a run, a
    probe, an audience, a set of scopes and a session.  The state of the broker
    is the table [token_broker_tokens], the revocations it holds in memory and
    the events it has sent to its audit sink.  JSON columns hold lists of strings
    and TEXT columns instants; both are kept decoded.  [Now] and
    [TokenGenerator] are functions of the number of calls made so far, and the
    lock makes each method one step. *)
From S2P Require Import Prelude GoStrings GoErrors GoTime GoSql.
Local Open Scope go_scope.
Local Open Scope Z_scope.

(** ** Data *)

Record TokenState := {
  t_Token : string;
  t_Scope : list string;
  t_Audience : string;
  t_RunnerID : string;
  t_JobID : string;
  t_Issuer : string;
  t_SessionID : string;
  t_IssuedAt : time;
  t_ExpiresAt : time;
  t_ConsumedAt : option time;
}.

Record Claims := {
  cl_RunID : string;
  cl_ProbeID : string;
  cl_Audience : string;
  cl_Scopes : list string;
  cl_IssuedAt : time;
  cl_ExpiresAt : time;
  cl_Issuer : string;
  cl_SessionID : string;
}.

Record IssueRequest := {
  ir_RunID : string;
  ir_ProbeID : string;
  ir_Audience : string;
  ir_Scopes : list string;
  ir_Issuer : string;
  ir_SessionID : string;
  ir_TTL : duration;
}.

Record IssuedToken := { it_Token : string; it_Claims : Claims }.

Record ValidateRequest := {
  vr_Token : string;
  vr_Scope : string;
  vr_Audience : string;
  vr_RunID : string;
  vr_ProbeID : string;
  vr_SessionID : string;
  vr_Consume : bool;
}.

Definition EventTokenIssued : string := "token.issued".
Definition EventTokenUsed : string := "token.consumed".
Definition EventTokenExpire : string := "token.expired".
Definition EventTokenReject : string := "token.rejected".

Record TokenEvent := {
  te_Type : string;
  te_Token : string;
  te_RunID : string;
  te_ProbeID : string;
  te_Audience : string;
  te_Scopes : list string;
  te_Issuer : string;
  te_SessionID : string;
  te_Reason : string;
  te_IssuedAt : time;
  te_ExpiresAt : time;
  te_UsedAt : time;
}.

(** The state the broker changes: the table, [revoked] and what the sink got. *)
Record BrokerState := {
  tokens : list TokenState;
  revoked : gmap string time;
  sent : list TokenEvent;
}.

Notation B := (M BrokerState) (only parsing).

(** ** The store *)

Section broker.
Context `{Host}.

Definition has_token (token : string) (r : TokenState) : bool := t_Token r =s token.

Definition with_tokens (s : BrokerState) (l : list TokenState) : BrokerState :=
  {| tokens := l; revoked := revoked s; sent := sent s |}.

(** The row [Insert] writes; [consumed_at] is NULL. *)
Definition token_row (st : TokenState) : TokenState :=
  {| t_Token := t_Token st; t_Scope := t_Scope st; t_Audience := t_Audience st; t_RunnerID := t_RunnerID st;
     t_JobID := t_JobID st; t_Issuer := t_Issuer st; t_SessionID := t_SessionID st; t_IssuedAt := t_IssuedAt st;
     t_ExpiresAt := t_ExpiresAt st; t_ConsumedAt := None |}.

Definition Insert (st : TokenState) : B unit :=
  wrap_error (λ e, if Contains (ToLower (Error e)) "unique" then Sentinel ErrStoreTokenExists else errorf_w "insert token" e)
    (exec (λ s, if existsb (has_token (t_Token st)) (tokens s)
                then (inl (ErrorString "UNIQUE constraint failed: token_broker_tokens.token"), s)
                else (inr tt, with_tokens s (tokens s ++ [token_row st])))).

Definition Get (token : string) : B TokenState :=
  wrap_error (λ e, if errors_Is e SqlErrNoRows then Sentinel ErrStoreTokenNotFound else errorf_w "get token" e)
    (query (λ s, match List.find (has_token (TrimSpace token)) (tokens s) with
                 | Some r => inr r | None => inl (Sentinel SqlErrNoRows) end)).

Definition set_consumed (at_ : time) (r : TokenState) : TokenState :=
  {| t_Token := t_Token r; t_Scope := t_Scope r; t_Audience := t_Audience r; t_RunnerID := t_RunnerID r;
     t_JobID := t_JobID r; t_Issuer := t_Issuer r; t_SessionID := t_SessionID r; t_IssuedAt := t_IssuedAt r;
     t_ExpiresAt := t_ExpiresAt r; t_ConsumedAt := Some at_ |}.

(** [WHERE token = ? AND consumed_at IS NULL] *)
Definition unconsumed (token : string) (r : TokenState) : bool :=
  has_token token r && match t_ConsumedAt r with None => true | Some _ => false end.

Definition MarkConsumed (token : string) (consumedAt : time) : B bool :=
  wrap_error (errorf_w "mark consumed")
    (exec (λ s, let p := unconsumed (TrimSpace token) in
      (inr (0 <? Z.of_nat (count_where p (tokens s))),
       with_tokens s (update_where p (set_consumed consumedAt) (tokens s))))).

(** ** The broker *)

Definition defaultTokenTTL : duration := 120 * Second.
Definition defaultMaxScope : Z := 8.

Record Config := {
  DefaultTTL : duration;
  MaxScope : Z;
  Now : option (nat → time);
  TokenGenerator : option (nat → result string);
  AuditSink : bool;
}.

Record Broker := {
  defaultTTL : duration;
  maxScope : Z;
  now : nat → time;
  tokenGenerator : nat → result string;
  auditSink : bool;
}.

(** [rand_Read] fills 32 bytes or fails. *)
Definition generateToken (rand_Read : nat → result string) (n : nat) : result string :=
  match rand_Read n with
  | inl e => inl e
  | inr raw => inr ("lgrt_" +:+ hex_EncodeToString raw)%string
  end.

Definition NewBroker (rand_Read : nat → result string) (cfg : Config) : Broker :=
  {| defaultTTL := if DefaultTTL cfg <=? 0 then defaultTokenTTL else DefaultTTL cfg;
     maxScope := if MaxScope cfg <=? 0 then defaultMaxScope else MaxScope cfg;
     now := match Now cfg with None => clock | Some f => f end;
     tokenGenerator := match TokenGenerator cfg with None => generateToken rand_Read | Some g => g end;
     auditSink := AuditSink cfg |}.

(** Calling a function of the configuration. *)
Definition call {A} (f : nat → result A) : B A := λ db, (f (ticks db), tick db).
Definition read_now (b : Broker) : B time := call (λ n, inr (now b n)).

Fixpoint normalize_scopes_loop (seen : gset string) (l : list string) : list string :=
  match l with
  | [] => []
  | raw :: l' =>
      let scope := TrimSpace raw in
      if scope =s "" then normalize_scopes_loop seen l'
      else if bool_decide (scope ∈ seen) then normalize_scopes_loop seen l'
      else scope :: normalize_scopes_loop ({[scope]} ∪ seen) l'
  end.
Definition normalizeScopes (l : list string) : list string := normalize_scopes_loop ∅ l.

Definition hasScope (scopes : list string) (scope : string) : bool :=
  let scope := TrimSpace scope in existsb (λ granted, TrimSpace granted =s scope) scopes.

Definition emit (b : Broker) (e : TokenEvent) : B unit := λ db,
  (inr tt, if auditSink b
           then {| rows := {| tokens := tokens (rows db); revoked := revoked (rows db); sent := sent (rows db) ++ [e] |};
                   ticks := ticks db |}
           else db).

(** The event of a stored token. *)
Definition state_event (typ reason : string) (st : TokenState) (used : time) : TokenEvent :=
  {| te_Type := typ; te_Token := t_Token st; te_RunID := t_JobID st; te_ProbeID := t_RunnerID st;
     te_Audience := t_Audience st; te_Scopes := t_Scope st; te_Issuer := t_Issuer st; te_SessionID := t_SessionID st;
     te_Reason := reason; te_IssuedAt := t_IssuedAt st; te_ExpiresAt := t_ExpiresAt st; te_UsedAt := used |}.

Definition emitReject (b : Broker) (req : ValidateRequest) (st : option TokenState) (reason : string) : B unit :=
  emit b match st with
  | None => {| te_Type := EventTokenReject; te_Token := TrimSpace (vr_Token req); te_RunID := TrimSpace (vr_RunID req);
               te_ProbeID := TrimSpace (vr_ProbeID req); te_Audience := TrimSpace (vr_Audience req); te_Scopes := [];
               te_Issuer := ""; te_SessionID := TrimSpace (vr_SessionID req); te_Reason := TrimSpace reason;
               te_IssuedAt := zero_time; te_ExpiresAt := zero_time; te_UsedAt := zero_time |}
  | Some st => state_event EventTokenReject (TrimSpace reason) st (default zero_time (t_ConsumedAt st))
  end.

(** The record [Issue] stores for a request. *)
Definition new_state (req : IssueRequest) (scopes : list string) (token : string) (issuedAt expiresAt : time) : TokenState :=
  {| t_Token := token; t_Scope := scopes; t_Audience := TrimSpace (ir_Audience req); t_RunnerID := TrimSpace (ir_ProbeID req);
     t_JobID := TrimSpace (ir_RunID req); t_Issuer := TrimSpace (ir_Issuer req); t_SessionID := TrimSpace (ir_SessionID req);
     t_IssuedAt := issuedAt; t_ExpiresAt := expiresAt; t_ConsumedAt := None |}.

Definition claims_of (st : TokenState) : Claims :=
  {| cl_RunID := t_JobID st; cl_ProbeID := t_RunnerID st; cl_Audience := t_Audience st; cl_Scopes := t_Scope st;
     cl_IssuedAt := t_IssuedAt st; cl_ExpiresAt := t_ExpiresAt st; cl_Issuer := t_Issuer st; cl_SessionID := t_SessionID st |}.

(** The retry loop of [Issue], with the attempts that are left. *)
Fixpoint issue_loop (b : Broker) (mk : string → TokenState) (attempts : nat) : B IssuedToken :=
  match attempts with
  | O => errorf "generate scoped token: collision retries exhausted"
  | S attempts' =>
      generated ← wrap_error (errorf_w "generate scoped token") (call (tokenGenerator b));
      let token := TrimSpace generated in
      if token =s "" then errorf "generate scoped token: empty token"
      else λ db,
        match Insert (mk token) db with
        | (inr _, db') =>
            (_ ← emit b (state_event EventTokenIssued "" (mk token) zero_time);
             mret {| it_Token := token; it_Claims := claims_of (mk token) |}) db'
        | (inl e, db') => if errors_Is e ErrStoreTokenExists then issue_loop b mk attempts' db' else (inl e, db')
        end
  end.

Definition expected (s : sentinel) (what value : string) : go_error :=
  WrapError (sentinel_text s +:+ ": " +:+ what +:+ " " +:+ Quote value)%string (Sentinel s).

Definition Issue (b : Broker) (req : IssueRequest) : B IssuedToken :=
  if TrimSpace (ir_RunID req) =s "" then fail (Sentinel ErrRunIDRequired)
  else if TrimSpace (ir_ProbeID req) =s "" then fail (Sentinel ErrProbeIDRequired)
  else if TrimSpace (ir_Issuer req) =s "" then fail (Sentinel ErrIssuerRequired)
  else if TrimSpace (ir_SessionID req) =s "" then fail (Sentinel ErrSessionMismatch)
  else
    let audience := TrimSpace (ir_Audience req) in
    if audience =s "" then fail (Sentinel ErrAudienceRequired)
    else
      let scopes := normalizeScopes (ir_Scopes req) in
      if Z.of_nat (length scopes) =? 0 then fail (Sentinel ErrScopesRequired)
      else if maxScope b <? Z.of_nat (length scopes)
      then fail (WrapError (sentinel_text ErrScopeLimitExceeded +:+ ": got " +:+ Itoa (Z.of_nat (length scopes)) +:+
                            " > max " +:+ Itoa (maxScope b))%string (Sentinel ErrScopeLimitExceeded))
      else if negb (hasScope scopes audience) then fail (expected ErrScopeRejected "expected scope" audience)
      else
        let ttl := if ir_TTL req <=? 0 then defaultTTL b else ir_TTL req in
        issuedAt ← read_now b;
        issue_loop b (λ token, new_state req scopes token issuedAt (issuedAt + ttl)) 5.

(** The scope and binding checks of [Validate]: the reason sent to the sink and
    the error returned, when one fails. *)
Definition binding_failure (req : ValidateRequest) (st : TokenState) (scope : string) : option (string * go_error) :=
  if negb (hasScope (t_Scope st) scope)
  then Some ("scope_mismatch", expected ErrScopeRejected "expected scope" scope)
  else
    let audience := TrimSpace (vr_Audience req) in
    if (audience <>s "") && (audience <>s TrimSpace (t_Audience st))
    then Some ("audience_mismatch", expected ErrAudienceMismatch "expected audience" (TrimSpace (t_Audience st)))
    else
      let runID := TrimSpace (vr_RunID req) in
      if (runID <>s "") && (runID <>s TrimSpace (t_JobID st))
      then Some ("run_binding_mismatch", expected ErrBindingMismatch "token bound to run_id" (t_JobID st))
      else
        let probeID := TrimSpace (vr_ProbeID req) in
        if (probeID <>s "") && (probeID <>s TrimSpace (t_RunnerID st))
        then Some ("probe_binding_mismatch", expected ErrBindingMismatch "token bound to probe_id" (t_RunnerID st))
        else if (TrimSpace (t_SessionID st) <>s "") && (TrimSpace (t_SessionID st) <>s TrimSpace (vr_SessionID req))
        then Some ("session_mismatch", Sentinel ErrSessionMismatch)
        else None.

Definition reject {A} (b : Broker) (req : ValidateRequest) (st : option TokenState) (reason : string) (e : go_error) : B A :=
  _ ← emitReject b req st reason; fail e.

(** [Validate] once the token is found and not revoked. *)
Definition validate_state (b : Broker) (req : ValidateRequest) (token scope : string) (st : TokenState) : B Claims :=
  now ← read_now b;
  if match t_ConsumedAt st with Some _ => vr_Consume req | None => false end
  then reject b req (Some st) "token_consumed" (Sentinel ErrTokenConsumed)
  else if After now (t_ExpiresAt st) then
    _ ← ignore_error (MarkConsumed token now);
    _ ← emit b (state_event EventTokenExpire "expired" st now);
    fail (Sentinel ErrTokenExpired)
  else
    match binding_failure req st scope with
    | Some (reason, e) => reject b req (Some st) reason e
    | None =>
        _ ← (if vr_Consume req then
               updated ← MarkConsumed token now;
               if negb updated then reject b req (Some st) "token_consumed" (Sentinel ErrTokenConsumed)
               else emit b (state_event EventTokenUsed "" st now)
             else mret tt);
        mret (claims_of st)
    end.

Definition Validate (b : Broker) (req : ValidateRequest) : B Claims :=
  let token := TrimSpace (vr_Token req) in
  if token =s "" then fail (Sentinel ErrTokenRequired)
  else
    let scope := TrimSpace (vr_Scope req) in
    if scope =s "" then fail (Sentinel ErrScopeRequired)
    else λ db,
      match Get token db with
      | (inl e, db') =>
          if errors_Is e ErrStoreTokenNotFound
          then reject b req None "invalid_token" (Sentinel ErrTokenInvalid) db'
          else (inl e, db')
      | (inr st, db') =>
          match revoked (rows db') !! token with
          | Some revokedAt =>
              (_ ← emit b (state_event EventTokenReject "revoked" st revokedAt); fail (Sentinel ErrTokenRevoked)) db'
          | None => validate_state b req token scope st db'
          end
      end.

Definition set_revoked (token : string) (at_ : time) : B unit := λ db,
  (inr tt, {| rows := {| tokens := tokens (rows db); revoked := <[token := at_]> (revoked (rows db)); sent := sent (rows db) |};
              ticks := ticks db |}).

Definition Revoke (b : Broker) (token : string) : B unit :=
  let token := TrimSpace token in
  if token =s "" then fail (Sentinel ErrTokenRequired)
  else
    st ← wrap_error (λ e, if errors_Is e ErrStoreTokenNotFound then Sentinel ErrTokenInvalid else e) (Get token);
    now ← read_now b;
    _ ← set_revoked token now;
    _ ← ignore_error (MarkConsumed token now);
    emit b (state_event EventTokenReject "revoked" st now).

(** A new process on the same database: the revocations of the old one are gone. *)
Definition restart (db : DB BrokerState) : DB BrokerState :=
  {| rows := {| tokens := tokens (rows db); revoked := ∅; sent := sent (rows db) |}; ticks := ticks db |}.
End broker.

(** ** What each method does to the state *)

Lemma elem_of_normalize_loop seen l x :
  x ∈ normalize_scopes_loop seen l ↔ x ∉ seen ∧ x ≠ "" ∧ ∃ raw, raw ∈ l ∧ x = TrimSpace raw.
Proof.
  revert seen. induction l as [|raw l IH]; intros seen; simpl.
  { split; [by intros ?%elem_of_nil|]. intros (_ & _ & raw & ?%elem_of_nil & _). done. }
  assert (Hcons : ∀ P : string → Prop, (∃ r, r ∈ raw :: l ∧ P r) ↔ P raw ∨ ∃ r, r ∈ l ∧ P r).
  { intros P. split; [intros (r & [->|Hr]%elem_of_cons & HP); eauto|].
    intros [HP|(r & Hr & HP)]; [exists raw|exists r]; rewrite elem_of_cons; auto. }
  rewrite Hcons. destruct (String.eqb_spec (TrimSpace raw) "") as [He|He]; [rewrite IH; naive_solver|].
  case_bool_decide as Hs; [rewrite IH; naive_solver|].
  rewrite elem_of_cons, IH, not_elem_of_union, not_elem_of_singleton. destruct (decide (x = TrimSpace raw)); naive_solver.
Qed.

Lemma NoDup_normalize_loop seen l : NoDup (normalize_scopes_loop seen l).
Proof.
  revert seen. induction l as [|raw l IH]; intros seen; simpl; [constructor|].
  repeat case_match; auto. constructor; [|apply IH].
  rewrite elem_of_normalize_loop, elem_of_union, elem_of_singleton. naive_solver.
Qed.

Lemma hasScope_spec scopes scope :
  hasScope scopes scope = true ↔ ∃ g, g ∈ scopes ∧ TrimSpace g = TrimSpace scope.
Proof. unfold hasScope. rewrite existsb_true_Exists. setoid_rewrite String.eqb_eq. done. Qed.

(** What [Issue] guarantees of every record it stores: it is bound to a run, a
    probe, an issuer and a session, and carries at most [maxScope] distinct
    scopes, the audience among them. *)
Record least_privilege (b : Broker) (r : TokenState) : Prop := {
  lp_run : t_JobID r ≠ "";
  lp_probe : t_RunnerID r ≠ "";
  lp_issuer : t_Issuer r ≠ "";
  lp_session : t_SessionID r ≠ "" ∧ TrimSpace (t_SessionID r) = t_SessionID r;
  lp_scopes : NoDup (t_Scope r) ∧ Z.of_nat (length (t_Scope r)) <= maxScope b;
  lp_trimmed : ∀ s, s ∈ t_Scope r → s ≠ "" ∧ TrimSpace s = s;
  lp_audience : t_Audience r ∈ t_Scope r;
  lp_token : t_Token r ≠ "" ∧ TrimSpace (t_Token r) = t_Token r;
}.

Inductive broker_effect (b : Broker) : BrokerState → BrokerState → Prop :=
  | be_sent s e : broker_effect b s {| tokens := tokens s; revoked := revoked s; sent := sent s ++ [e] |}
  | be_insert s r : least_privilege b r → t_ConsumedAt r = None → t_Token r ∉ map t_Token (tokens s) →
      broker_effect b s (with_tokens s (tokens s ++ [r]))
  | be_consume s token at_ :
      broker_effect b s (with_tokens s (update_where (unconsumed token) (set_consumed at_) (tokens s)))
  | be_revoke s token at_ : token ∈ map t_Token (tokens s) →
      broker_effect b s {| tokens := tokens s; revoked := <[token := at_]> (revoked s); sent := sent s |}.

Section effects.
Context `{Host} (b : Broker).

Lemma runs_emit e : runs (broker_effect b) (emit b e).
Proof.
  intros db res db' [= _ <-]. destruct (auditSink b); [|reflexivity]. apply rtc_once. constructor.
Qed.
Lemma runs_reject {A} req st reason e : runs (broker_effect b) (reject (A:=A) b req st reason e).
Proof. apply runs_bind; [apply runs_emit|eauto with legator]. Qed.
Lemma runs_MarkConsumed token at_ : runs (broker_effect b) (MarkConsumed token at_).
Proof. apply runs_wrap, runs_exec. intros s. right. simpl. constructor. Qed.
Lemma reads_call {A} (f : nat → result A) : reads (call f).
Proof. intros db res db' [= _ <-]. done. Qed.
Lemma reads_wrap {A} f (m : M BrokerState A) : reads m → reads (wrap_error f m).
Proof. unfold wrap_error. intros Hm db res db' E. destruct (m db) as [[e|a] db1] eqn:Em; simplify_eq; by eapply Hm. Qed.
Lemma Get_inv token db r db' :
  Get token db = (inr r, db') → r ∈ tokens (rows db) ∧ t_Token r = TrimSpace token ∧ db' = tick db ∧
  List.find (has_token (TrimSpace token)) (tokens (rows db)) = Some r.
Proof.
  unfold Get, wrap_error, query. destruct (sql_fault _); [done|].
  destruct (List.find _ _) as [r'|] eqn:E; [|done]. intros [= -> <-].
  apply List.find_some in E as E'. destruct E' as [Hin%list_elem_of_In Ht%String.eqb_eq]. auto.
Qed.
Lemma reads_Get token : reads (Get token).
Proof. apply reads_wrap, reads_query. Qed.

Lemma runs_Insert st :
  least_privilege b (token_row st) → runs (broker_effect b) (Insert st).
Proof.
  intros Hlp. apply runs_wrap, runs_exec. intros s. destruct (existsb _ _) eqn:E; [by left|right]. simpl.
  apply be_insert; [done|done|]. rewrite list_elem_of_In, in_map_iff. intros (r & Hr & Hin%list_elem_of_In).
  apply existsb_false_Forall in E. rewrite Forall_forall in E. specialize (E r Hin). unfold has_token in E.
  simpl in Hr. by rewrite Hr, String.eqb_refl in E.
Qed.

Lemma runs_issue_loop mk n :
  (∀ token, token ≠ "" → TrimSpace token = token → least_privilege b (token_row (mk token))) →
  runs (broker_effect b) (issue_loop b mk n).
Proof.
  intros Hmk. induction n as [|n IH]; simpl; [eauto with legator|].
  apply runs_bind; [apply runs_reads, reads_wrap, reads_call|]. intros g.
  destruct (String.eqb_spec (TrimSpace g) ""); [eauto with legator|].
  intros db res db' E. destruct (Insert _ db) as [[e|[]] db1] eqn:Ei.
  - assert (Hr : rtc (broker_effect b) (rows db) (rows db1)).
    { eapply runs_Insert; [|exact Ei]. by apply Hmk; [|apply TrimSpace_idem]. }
    destruct (errors_Is e ErrStoreTokenExists); simplify_eq; [|done]. etrans; [exact Hr|by eapply IH].
  - etrans; [eapply runs_Insert; [|exact Ei]; by apply Hmk; [|apply TrimSpace_idem]|].
    eapply runs_bind; [apply runs_emit| |exact E]. intros u. apply runs_reads, reads_ret.
Qed.

Lemma runs_Issue req : runs (broker_effect b) (Issue b req).
Proof.
  unfold Issue. cbv zeta. do 5 (split_str; [eauto with legator|]).
  destruct (Z.eqb_spec (Z.of_nat (length (normalizeScopes (ir_Scopes req)))) 0); [eauto with legator|].
  destruct (Z.ltb_spec (maxScope b) (Z.of_nat (length (normalizeScopes (ir_Scopes req))))); [eauto with legator|].
  destruct (hasScope _ _) eqn:Hh; cbn [negb]; [|eauto with legator].
  apply runs_bind; [apply runs_reads, reads_call|]. intros issuedAt. apply runs_issue_loop. intros token Ht1 Ht2.
  assert (Htrim : ∀ s, s ∈ normalizeScopes (ir_Scopes req) → s ≠ "" ∧ TrimSpace s = s).
  { intros s (_ & ? & raw & _ & ->)%elem_of_normalize_loop. by rewrite TrimSpace_idem. }
  constructor; simpl; rewrite ?TrimSpace_idem; auto.
  - split; [apply NoDup_normalize_loop|lia].
  - apply hasScope_spec in Hh as (g & Hg & Heq). rewrite TrimSpace_idem in Heq. destruct (Htrim g Hg) as [_ Hg2]. congruence.
Qed.

Lemma runs_validate_state req token scope st : runs (broker_effect b) (validate_state b req token scope st).
Proof.
  unfold validate_state. apply runs_bind; [apply runs_reads, reads_call|]. intros now_.
  case_match; [apply runs_reject|]. destruct (After _ _).
  { apply runs_bind; [apply runs_ignore, runs_MarkConsumed|]. intros _.
    apply runs_bind; [apply runs_emit|]. intros _. apply runs_reads, reads_fail. }
  destruct (binding_failure _ _ _) as [[]|]; [apply runs_reject|].
  apply runs_bind; [|intros; apply runs_reads, reads_ret]. destruct (vr_Consume req); [|apply runs_reads, reads_ret].
  apply runs_bind; [apply runs_MarkConsumed|]. intros []; [apply runs_emit|apply runs_reject].
Qed.

Lemma runs_Validate req : runs (broker_effect b) (Validate b req).
Proof.
  unfold Validate. cbv zeta. do 2 (split_str; [eauto with legator|]).
  intros db res db' E. destruct (Get _ db) as [[e|st] db1] eqn:Eg; pose proof (reads_Get _ _ _ _ Eg) as Hr.
  - destruct (errors_Is e _); simplify_eq; rewrite <- Hr; [by eapply runs_reject|done].
  - destruct (revoked _ !! _); rewrite <- Hr; [|by eapply runs_validate_state].
    eapply runs_bind; [apply runs_emit| |exact E]. intros u. apply runs_reads, reads_fail.
Qed.

Lemma runs_Revoke token : runs (broker_effect b) (Revoke b token).
Proof.
  unfold Revoke. cbv zeta. split_str; [eauto with legator|].
  intros db res db' E. unfold mbind at 1, M_bind at 1, wrap_error in E.
  destruct (Get _ db) as [[e|st] db1] eqn:Eg; [simplify_eq; by rewrite (reads_Get _ _ _ _ Eg)|].
  apply Get_inv in Eg as (Hst & Htok & -> & _). rewrite TrimSpace_idem in Htok.
  eapply rtc_l; [apply (be_revoke b (rows db) (TrimSpace token) (now b (ticks (tick db))))|].
  { rewrite <- Htok. apply list_elem_of_In, in_map, list_elem_of_In. done. }
  unfold mbind, M_bind, read_now, call, set_revoked in E. cbv beta iota in E.
  destruct (ignore_error _ _) as [[e|u] db2] eqn:Ei; [done|].
  etrans; [exact (runs_ignore _ _ (runs_MarkConsumed _ _) _ _ _ Ei)|by eapply runs_emit].
Qed.
End effects.

(** ** Validation *)

Section validate.
Context `{Host} (b : Broker).

Lemma MarkConsumed_inv token at_ db updated db' :
  MarkConsumed token at_ db = (inr updated, db') →
  updated = (0 <? Z.of_nat (count_where (unconsumed (TrimSpace token)) (tokens (rows db)))) ∧
  rows db' = with_tokens (rows db) (update_where (unconsumed (TrimSpace token)) (set_consumed at_) (tokens (rows db))).
Proof. unfold MarkConsumed, wrap_error, exec. destruct (sql_fault _); [done|]. by intros [= <- <-]. Qed.

Lemma emit_inv e db u db' : emit b e db = (u, db') → u = inr tt ∧ tokens (rows db') = tokens (rows db) ∧ revoked (rows db') = revoked (rows db).
Proof. unfold emit. intros [= <- <-]. by destruct (auditSink b). Qed.

Lemma reject_inv {A} req st reason e db (c : A) db' : reject b req st reason e db ≠ (inr c, db').
Proof. unfold reject, mbind, M_bind. destruct (emitReject _ _ _ _ db) as [[?|?] ?]; done. Qed.

(** The checks a successful validation has passed. *)
Record admitted (req : ValidateRequest) (now : time) (s : BrokerState) (st : TokenState) : Prop := {
  ad_stored : st ∈ tokens s ∧ t_Token st = TrimSpace (vr_Token req);
  ad_live : t_ExpiresAt st >= now;
  ad_not_revoked : revoked s !! TrimSpace (vr_Token req) = None;
  ad_scope : ∃ g, g ∈ t_Scope st ∧ TrimSpace g = TrimSpace (vr_Scope req);
  ad_audience : TrimSpace (vr_Audience req) = "" ∨ TrimSpace (vr_Audience req) = TrimSpace (t_Audience st);
  ad_run : TrimSpace (vr_RunID req) = "" ∨ TrimSpace (vr_RunID req) = TrimSpace (t_JobID st);
  ad_probe : TrimSpace (vr_ProbeID req) = "" ∨ TrimSpace (vr_ProbeID req) = TrimSpace (t_RunnerID st);
  ad_session : TrimSpace (t_SessionID st) = "" ∨ TrimSpace (t_SessionID st) = TrimSpace (vr_SessionID req);
}.

Lemma nonempty_mismatch a c : (a <>s "") && (a <>s c) = false ↔ a = "" ∨ a = c.
Proof. destruct (String.eqb_spec a ""), (String.eqb_spec a c); naive_solver. Qed.

Lemma binding_ok req st scope :
  binding_failure req st scope = None ↔
  hasScope (t_Scope st) scope = true ∧
  (TrimSpace (vr_Audience req) = "" ∨ TrimSpace (vr_Audience req) = TrimSpace (t_Audience st)) ∧
  (TrimSpace (vr_RunID req) = "" ∨ TrimSpace (vr_RunID req) = TrimSpace (t_JobID st)) ∧
  (TrimSpace (vr_ProbeID req) = "" ∨ TrimSpace (vr_ProbeID req) = TrimSpace (t_RunnerID st)) ∧
  (TrimSpace (t_SessionID st) = "" ∨ TrimSpace (t_SessionID st) = TrimSpace (vr_SessionID req)).
Proof.
  rewrite <- !nonempty_mismatch. unfold binding_failure. cbv zeta.
  destruct (hasScope _ _); cbn [negb]; [|naive_solver].
  repeat match goal with |- context [if ?t then Some _ else _] => destruct t end; naive_solver.
Qed.

Lemma validate_state_inv req token scope st db c db' :
  TrimSpace token = token →
  validate_state b req token scope st db = (inr c, db') →
  c = claims_of st ∧ After (now b (ticks db)) (t_ExpiresAt st) = false ∧ binding_failure req st scope = None ∧
  (vr_Consume req = true → t_ConsumedAt st = None ∧
     tokens (rows db') = update_where (unconsumed token) (set_consumed (now b (ticks db))) (tokens (rows db))).
Proof.
  intros Ht. unfold validate_state, read_now, call, mbind, M_bind. cbv beta iota.
  destruct (match t_ConsumedAt st with Some _ => vr_Consume req | None => false end) eqn:Ec; [by intros ?%reject_inv|].
  destruct (After _ _) eqn:Ea.
  { unfold ignore_error, emit. by intros [=]. }
  destruct (binding_failure _ _ _) as [[]|] eqn:Eb; [by intros ?%reject_inv|].
  destruct (vr_Consume req) eqn:Evc; [|by intros [= <- <-]].
  destruct (MarkConsumed _ _ _) as [[e|updated] db1] eqn:Em; [done|].
  apply MarkConsumed_inv in Em as [Hup Hrows]. rewrite Ht in Hrows. destruct updated; cbn [negb].
  2:{ destruct (reject b req _ _ _ _) as [[?|?] ?] eqn:Er; [done|]. by apply reject_inv in Er. }
  destruct (emit b _ db1) as [u db2] eqn:Ee. apply emit_inv in Ee as (-> & He & _). intros [= <- <-].
  split_and!; try done. intros _. split; [by destruct (t_ConsumedAt st)|]. by rewrite He, Hrows.
Qed.

Lemma Validate_ok req db c db' :
  Validate b req db = (inr c, db') →
  ∃ st now_, admitted req now_ (rows db) st ∧ c = claims_of st ∧
    (vr_Consume req = true → t_ConsumedAt st = None ∧
       tokens (rows db') = update_where (unconsumed (TrimSpace (vr_Token req))) (set_consumed now_) (tokens (rows db))) ∧
    now_ = now b (S (ticks db)) ∧ List.find (has_token (TrimSpace (vr_Token req))) (tokens (rows db)) = Some st.
Proof.
  unfold Validate. cbv zeta. destruct (String.eqb_spec (TrimSpace (vr_Token req)) ""); [done|].
  destruct (String.eqb_spec (TrimSpace (vr_Scope req)) ""); [done|].
  destruct (Get _ db) as [[e|st] db1] eqn:Eg.
  { destruct (errors_Is e _); [by intros ?%reject_inv|done]. }
  apply Get_inv in Eg as (Hst & Htok & -> & Hfind). rewrite TrimSpace_idem in Htok, Hfind.
  destruct (revoked _ !! _) eqn:Er.
  { unfold mbind, M_bind. destruct (emit _ _ _) as [[?|?] ?]; done. }
  intros Hv. apply validate_state_inv in Hv as (-> & Ha & (Hs & Hb)%binding_ok & Hc); [|apply TrimSpace_idem].
  apply hasScope_spec in Hs. rewrite TrimSpace_idem in Hs. unfold After in Ha. apply Z.ltb_ge in Ha.
  exists st, (now b (S (ticks db))). split_and!; try done. constructor; naive_solver lia.
Qed.
End validate.

(** ** Histories *)

(** One call to the broker with its answer, or a new process. *)
Inductive observation :=
  | ObsIssue (req : IssueRequest) (res : result IssuedToken)
  | ObsValidate (req : ValidateRequest) (res : result Claims)
  | ObsRevoke (token : string) (res : result unit)
  | ObsRestart.

Section histories.
Context `{Host} (b : Broker).

Inductive broker_call : DB BrokerState → observation → DB BrokerState → Prop :=
  | bc_issue db req res db' : Issue b req db = (res, db') → broker_call db (ObsIssue req res) db'
  | bc_validate db req res db' : Validate b req db = (res, db') → broker_call db (ObsValidate req res) db'
  | bc_revoke db token res db' : Revoke b token db = (res, db') → broker_call db (ObsRevoke token res) db'
  | bc_restart db : broker_call db ObsRestart (restart db).

Definition broker_run : DB BrokerState → list observation → DB BrokerState → Prop := trace broker_call.

Definition no_tokens : DB BrokerState := {| rows := {| tokens := []; revoked := ∅; sent := [] |}; ticks := 0 |}.

(** The table: one row per token, each as [Issue] wrote it. *)
Definition table_ok (s : BrokerState) : Prop :=
  NoDup (map t_Token (tokens s)) ∧ Forall (least_privilege b) (tokens s) ∧
  ∀ t, is_Some (revoked s !! t) → t ∈ map t_Token (tokens s).

(** Everything but [consumed_at] is immutable, and a consumed token stays so. *)
Definition persists (r r' : TokenState) : Prop :=
  r' = r ∨ t_ConsumedAt r = None ∧ ∃ at_, r' = set_consumed at_ r.

Definition extends (l l' : list TokenState) : Prop := ∀ r, r ∈ l → ∃ r', r' ∈ l' ∧ persists r r'.

Lemma persists_trans : Transitive persists.
Proof.
  intros x y z [->|[Hx [a ->]]] Hyz; [done|]. right. split; [done|].
  destruct Hyz as [->|[? [a' ->]]]; [by exists a|done].
Qed.
Lemma extends_refl l : extends l l.
Proof. intros r Hr. exists r. split; [done|by left]. Qed.
Lemma extends_trans : Transitive extends.
Proof.
  intros l1 l2 l3 H12 H23 r Hr. destruct (H12 r Hr) as (r2 & Hr2 & Hp). destruct (H23 r2 Hr2) as (r3 & Hr3 & Hp').
  exists r3. split; [done|]. by eapply persists_trans.
Qed.

Lemma least_privilege_consumed r at_ : least_privilege b r → least_privilege b (set_consumed at_ r).
Proof. by intros []; constructor. Qed.

Lemma effect_keeps s s' :
  broker_effect b s s' → table_ok s → table_ok s' ∧ extends (tokens s) (tokens s').
Proof.
  intros Hs (Hd & Hl & Hrv). destruct Hs as [s e|s r Hlp Hc Hf|s token at_|s token at_ Hin]; simpl.
  - split; [done|apply extends_refl].
  - split; [split_and!|]; simpl.
    + rewrite map_app. apply NoDup_app. split_and!; [done| |apply NoDup_singleton].
      intros x Hx Hx'%list_elem_of_singleton. simpl in Hx'. congruence.
    + apply Forall_app. split; [done|by apply Forall_singleton].
    + intros t Ht. rewrite map_app, elem_of_app. left. by apply Hrv.
    + intros r' Hr'. exists r'. rewrite elem_of_app. split; [by left|by left].
  - split; [split_and!|]; simpl.
    + by rewrite (map_update_where t_Token).
    + unfold update_where. rewrite Forall_map. eapply Forall_impl; [exact Hl|]. intros r Hr. simpl.
      destruct (unconsumed token r); [by apply least_privilege_consumed|done].
    + by rewrite (map_update_where t_Token).
    + intros r Hr. unfold extends. destruct (unconsumed token r) eqn:E.
      * exists (set_consumed at_ r). rewrite elem_of_update_where. split; [by left; exists r|].
        right. unfold unconsumed in E. apply andb_true_iff in E as [_ E]. destruct (t_ConsumedAt r); [done|eauto].
      * exists r. rewrite elem_of_update_where. split; [by right|by left].
  - split; [split_and!|apply extends_refl]; try done. simpl. intros t. rewrite lookup_insert_is_Some'.
    intros [<-|Ht]; [done|by apply Hrv].
Qed.

Lemma call_keeps db o db' :
  broker_call db o db' → table_ok (rows db) → table_ok (rows db') ∧ extends (tokens (rows db)) (tokens (rows db')).
Proof.
  intros Hc Hok.
  assert (Heff : (rtc (broker_effect b) (rows db) (rows db')) ∨ db' = restart db).
  { destruct Hc as [db req res db' E|db req res db' E|db token res db' E|db]; [left|left|left|by right];
      [by eapply runs_Issue|by eapply runs_Validate|by eapply runs_Revoke]. }
  destruct Heff as [Heff| ->].
  2:{ destruct Hok as (? & ? & _). split; [split_and!|apply extends_refl]; try done. intros t [? Ht]. simpl in Ht. by rewrite lookup_empty in Ht. }
  induction Heff as [s|s1 s2 s3 Hs _ IH]; [split; [done|apply extends_refl]|].
  destruct (effect_keeps _ _ Hs Hok) as [Hok2 He]. destruct (IH Hok2) as [Hok3 He'].
  split; [done|]. by eapply extends_trans.
Qed.

Lemma run_keeps db tr db' :
  broker_run db tr db' → table_ok (rows db) → table_ok (rows db') ∧ extends (tokens (rows db)) (tokens (rows db')).
Proof.
  induction 1 as [db|db1 o db2 tr db3 Hc _ IH]; intros Hok; [split; [done|apply extends_refl]|].
  destruct (call_keeps _ _ _ Hc Hok) as [Hok2 He]. destruct (IH Hok2) as [Hok3 He'].
  split; [done|]. by eapply extends_trans.
Qed.

Lemma no_tokens_ok : table_ok (rows no_tokens).
Proof. split_and!; try constructor. intros t [? Ht]. simpl in Ht. by rewrite lookup_empty in Ht. Qed.

(** ** Single use *)

Definition consumes (token : string) (o : observation) : bool :=
  match o with
  | ObsValidate req (inr _) => vr_Consume req && (TrimSpace (vr_Token req) =s token)
  | _ => false
  end.

Definition consumed_row (token : string) (s : BrokerState) : Prop :=
  ∃ r, r ∈ tokens s ∧ t_Token r = token ∧ t_ConsumedAt r ≠ None.

Lemma consumed_persists token s s' : extends (tokens s) (tokens s') → consumed_row token s → consumed_row token s'.
Proof.
  intros He (r & Hr & Ht & Hc). destruct (He r Hr) as (r' & Hr' & [->|[? _]]); [|done]. by exists r.
Qed.

Lemma consume_uses token db o db' :
  table_ok (rows db) → broker_call db o db' → consumes token o = true →
  ¬ consumed_row token (rows db) ∧ consumed_row token (rows db').
Proof.
  intros (Hd & _) Hc Ho. destruct o as [| req [|c] | |]; try done. simpl in Ho.
  apply andb_true_iff in Ho as [Hcons <-%String.eqb_eq]. inversion Hc as [|? ? ? ? Hv| |]; subst.
  apply Validate_ok in Hv as (st & now_ & [[Hst Htok] _ _ _ _ _ _ _] & _ & Hupd & _ & Hfind).
  destruct (Hupd Hcons) as [Hnone Hrows]. split.
  - intros (r & Hr & Ht & Hne). rewrite <- Htok in Ht.
    apply list_elem_of_lookup_1 in Hr as [i Hi], Hst as [j Hj].
    assert (i = j) as ->; [|congruence].
    eapply (NoDup_lookup _ i j (t_Token st) Hd); rewrite list_lookup_fmap, ?Hi, ?Hj; simpl; congruence.
  - exists (set_consumed now_ st). rewrite Hrows, elem_of_update_where. split_and!; [left|done|done].
    exists st. unfold unconsumed, has_token. by rewrite Htok, String.eqb_refl, Hnone.
Qed.

(** C9. A token authorises one operation: in every history of the broker, with
    any interleaving of issuing, validating, revoking and restarts of the control
    plane and whatever statements the database refuses, at most one validation
    that consumes a given token succeeds. *)
Theorem token_single_use tr db token :
  broker_run no_tokens tr db → (count_where (consumes token) tr <= 1)%nat.
Proof.
  intros Hrun. apply (used_at_most_once broker_call (λ db, table_ok (rows db)) (λ db, consumed_row token (rows db)) _ no_tokens _ db);
    [|by eauto using consume_uses|done|apply no_tokens_ok].
  intros db0 o db' Hc Hok. destruct (call_keeps _ _ _ Hc Hok) as [Hok2 He]. split; [done|by apply consumed_persists].
Qed.
End histories.

(** ** Revocation *)

Section revocation.
Context `{Host} (b : Broker).

Definition grants (token : string) (o : observation) : bool :=
  match o with ObsValidate req (inr _) => TrimSpace (vr_Token req) =s token | _ => false end.
Definition is_restart (o : observation) : bool := match o with ObsRestart => true | _ => false end.

Lemma revoked_persists db o db' token :
  broker_call b db o db' → is_restart o = false → is_Some (revoked (rows db) !! token) → is_Some (revoked (rows db') !! token).
Proof.
  intros Hc Hr Hs.
  assert (Heff : rtc (broker_effect b) (rows db) (rows db')).
  { destruct Hc as [db req res db' E|db req res db' E|db t res db' E|db]; [| | |done];
      [by eapply runs_Issue|by eapply runs_Validate|by eapply runs_Revoke]. }
  clear Hc. induction Heff as [s|s1 s2 s3 He _ IH]; [done|]. apply IH.
  destruct He; simpl in *; try done. rewrite lookup_insert_is_Some. destruct (decide (token0 = token)); auto.
Qed.

Lemma Revoke_revokes token db db' :
  Revoke b token db = (inr tt, db') → is_Some (revoked (rows db') !! TrimSpace token).
Proof.
  unfold Revoke. cbv zeta. destruct (TrimSpace token =s ""); [done|]. unfold mbind, M_bind, wrap_error.
  destruct (Get _ db) as [[e|st] db1]; [by destruct (errors_Is _ _)|].
  unfold read_now, call, set_revoked, ignore_error. cbv beta iota. cbn [rows ticks tick tokens revoked sent].
  destruct (MarkConsumed _ _ _) as [r db2] eqn:Em. intros (_ & _ & ->)%emit_inv. simpl.
  unfold MarkConsumed, wrap_error, exec in Em. destruct (sql_fault _); simplify_eq/=; by rewrite lookup_insert_eq.
Qed.

(** A revocation takes effect at once and for good, as long as the process
    lives: after a successful [Revoke] no later call of any kind, in any order,
    validates that token, whether or not it asks to consume it. *)
Theorem revocation_is_final token db0 db1 tr db2 :
  Revoke b token db0 = (inr tt, db1) → broker_run b db1 tr db2 → forallb (λ o, negb (is_restart o)) tr = true →
  existsb (grants (TrimSpace token)) tr = false.
Proof.
  intros Hrev%Revoke_revokes Hrun. induction Hrun as [|db1 o db2 tr db3 Hc _ IH]; [done|]. simpl.
  intros [Ho%negb_true_iff Htr]%andb_true_iff. rewrite (IH (revoked_persists _ _ _ _ Hc Ho Hrev) Htr), orb_false_r.
  destruct o as [|req [|c]| |]; try done. simpl. apply String.eqb_neq. intros Heq.
  inversion Hc as [|? ? ? ? Hv| |]; subst. apply Validate_ok in Hv as (st & now_ & [_ _ Hn _ _ _ _ _] & _).
  rewrite <- Heq, Hn in Hrev. by destruct Hrev.
Qed.
End revocation.

(** ** What a validation grants *)

Section grant.
Context `{Host} (b : Broker).

(** What a successful validation means, in every reachable state of the
    broker: the token is stored and neither revoked nor past its expiry at the
    time of the call; the requested scope is one of its scopes; the audience, the
    run and the probe are the token's whenever the caller names them; the caller
    presents exactly the session the token was issued to; and the claims are
    those of a least-privilege record ([Issue]'s bounds on the scopes hold).  A
    validation that consumes also found the token unused and has marked it. *)
Theorem validate_grants tr db req c db' :
  broker_run b no_tokens tr db → Validate b req db = (inr c, db') →
  ∃ st, admitted req (now b (S (ticks db))) (rows db) st ∧ least_privilege b st ∧ c = claims_of st ∧
    TrimSpace (vr_SessionID req) = cl_SessionID c ∧ TrimSpace (vr_Scope req) ∈ cl_Scopes c ∧
    Z.of_nat (length (cl_Scopes c)) <= maxScope b ∧
    (vr_Consume req = true → t_ConsumedAt st = None ∧ consumed_row (t_Token st) (rows db')).
Proof.
  intros Hrun Hv. destruct (run_keeps b _ _ _ Hrun (no_tokens_ok b)) as [Hok _]. pose proof Hok as (_ & Hl & _).
  pose proof (consume_uses b (TrimSpace (vr_Token req)) db (ObsValidate req (inr c)) db' Hok (bc_validate b _ _ _ _ Hv)) as Hcons.
  apply Validate_ok in Hv as (st & now_ & Had & -> & Hupd & -> & _). exists st.
  pose proof Had as [[Hst Htok] Hlive Hnr (g & Hg & Hgs) _ _ _ Hses]. rewrite Forall_forall in Hl. pose proof (Hl _ Hst) as Hlp.
  destruct (lp_session _ _ Hlp) as [Hs1 Hs2]. split_and!; try done; simpl.
  - destruct Hses; congruence.
  - destruct (lp_trimmed _ _ Hlp g Hg) as [_ Hg2]. rewrite <- Hgs, Hg2. done.
  - apply (lp_scopes _ _ Hlp).
  - intros Hc. destruct (Hupd Hc) as [Hn _]. split; [done|]. rewrite Htok. apply Hcons. simpl. by rewrite Hc, String.eqb_refl.
Qed.
End grant.

(** ** Issuing and validating *)

Section roundtrip.
Context `{Host} (b : Broker).

Lemma Insert_inv st db u db' :
  Insert st db = (inr u, db') →
  t_Token st ∉ map t_Token (tokens (rows db)) ∧ rows db' = with_tokens (rows db) (tokens (rows db) ++ [token_row st]).
Proof.
  unfold Insert, wrap_error, exec. destruct (sql_fault _); [done|]. destruct (existsb _ _) eqn:E; [done|].
  intros [= _ <-]. split; [|done]. rewrite list_elem_of_In, in_map_iff. intros (r & Hr & Hin%list_elem_of_In).
  apply existsb_false_Forall in E. rewrite Forall_forall in E. specialize (E r Hin). unfold has_token in E.
  by rewrite Hr, String.eqb_refl in E.
Qed.

Lemma Insert_fails st db e db' : Insert st db = (inl e, db') → rows db' = rows db.
Proof.
  unfold Insert, wrap_error, exec. destruct (sql_fault _); [by intros [= _ <-]|].
  destruct (existsb _ _); [by intros [= _ <-]|done].
Qed.

Lemma issue_loop_inv mk n db tok db' :
  (∀ token, t_Token (mk token) = token) →
  issue_loop b mk n db = (inr tok, db') →
  it_Token tok ∉ map t_Token (tokens (rows db)) ∧ TrimSpace (it_Token tok) = it_Token tok ∧ it_Token tok ≠ "" ∧
  it_Claims tok = claims_of (mk (it_Token tok)) ∧ revoked (rows db') = revoked (rows db) ∧
  tokens (rows db') = tokens (rows db) ++ [token_row (mk (it_Token tok))].
Proof.
  intros Hmk. revert db. induction n as [|n IH]; intros db; simpl; [done|].
  unfold mbind at 1, M_bind at 1, wrap_error, call. destruct (tokenGenerator b _) as [?|g]; [done|].
  destruct (String.eqb_spec (TrimSpace g) ""); [done|].
  destruct (Insert _ _) as [[e|u] db1] eqn:Ei.
  - destruct (errors_Is e _); [|done]. intros Hn. apply Insert_fails in Ei as Er. simpl in Er. rewrite <- Er. by apply IH.
  - apply Insert_inv in Ei as [Hf Hr]. simpl in Hf, Hr. unfold mbind, M_bind.
    destruct (emit b _ db1) as [u' db2] eqn:Ee. apply emit_inv in Ee as (-> & Ht & Hrv). intros [= <- <-]. simpl.
    rewrite Hmk in Hf. rewrite Ht, Hrv, Hr, TrimSpace_idem. by split_and!.
Qed.

Lemma Issue_ok req db tok db' :
  Issue b req db = (inr tok, db') →
  ∃ st, tokens (rows db') = tokens (rows db) ++ [st] ∧ revoked (rows db') = revoked (rows db) ∧
    it_Token tok ∉ map t_Token (tokens (rows db)) ∧ t_Token st = it_Token tok ∧ t_ConsumedAt st = None ∧
    TrimSpace (it_Token tok) = it_Token tok ∧ it_Token tok ≠ "" ∧ it_Claims tok = claims_of st.
Proof.
  unfold Issue. cbv zeta. repeat match goal with |- context [if ?t then fail _ else _] => destruct t; [done|] end.
  unfold mbind, M_bind, read_now, call. cbv beta iota.
  intros (Hf & Ht & Hne & Hc & Hr & Hl)%issue_loop_inv; [|done]. simpl in Hl, Hf, Hr. eexists. rewrite Hl. by split_and!.
Qed.

(** A request that names the token's own claims. *)
Definition matching (tok : IssuedToken) (req : ValidateRequest) : Prop :=
  vr_Token req = it_Token tok ∧ TrimSpace (vr_Scope req) ≠ "" ∧ TrimSpace (vr_Scope req) ∈ cl_Scopes (it_Claims tok) ∧
  vr_Audience req = cl_Audience (it_Claims tok) ∧ vr_RunID req = cl_RunID (it_Claims tok) ∧
  vr_ProbeID req = cl_ProbeID (it_Claims tok) ∧ vr_SessionID req = cl_SessionID (it_Claims tok).

Lemma find_token l r : NoDup (map t_Token l) → r ∈ l → List.find (has_token (t_Token r)) l = Some r.
Proof. apply (find_by_key t_Token). Qed.

Context (no_faults : ∀ n, sql_fault n = None).

(** What is issued is what is validated: in every reachable state, a token
    that [Issue] returns is accepted by the next validation that presents its
    claims and one of its scopes before it expires, and the validation answers
    exactly the claims that were issued. *)
Theorem issue_validate_roundtrip tr db ireq tok db1 req :
  broker_run b no_tokens tr db → Issue b ireq db = (inr tok, db1) → matching tok req →
  now b (S (ticks db1)) <= cl_ExpiresAt (it_Claims tok) →
  (Validate b req db1).1 = inr (it_Claims tok).
Proof.
  intros Hrun Hi (HT & Hs0 & Hs & Ha & Hr & Hp & Hse) Hexp.
  destruct (run_keeps b _ _ _ Hrun (no_tokens_ok b)) as [Hok _].
  destruct (call_keeps b _ _ _ (bc_issue b _ _ _ _ Hi) Hok) as [(Hd & _) _]. destruct Hok as (_ & _ & Hrv).
  apply Issue_ok in Hi as (st & Hl & Hrev & Hf & Htok & Hnone & Htrim & Hne & Hcl). rewrite Hcl in *.
  unfold Validate. cbv zeta. rewrite HT, Htrim, (proj2 (String.eqb_neq _ _) Hne), (proj2 (String.eqb_neq _ _) Hs0).
  unfold Get, wrap_error. rewrite (run_query no_faults), Htrim, <- Htok, find_token;
    [|done|rewrite Hl, elem_of_app, list_elem_of_singleton; by right].
  assert (Hnr : revoked (rows db) !! t_Token st = None) by (apply eq_None_not_Some; rewrite Htok; intros ?%Hrv; done).
  cbn [rows tick]. rewrite Hrev, Hnr.
  unfold validate_state, mbind, M_bind, read_now, call. cbv beta iota. rewrite Hnone. cbn [ticks tick].
  unfold After. replace (t_ExpiresAt st <? now b (S (ticks db1))) with false by (simpl in Hexp; lia).
  rewrite (proj2 (binding_ok req st (TrimSpace (vr_Scope req)))).
  2:{ rewrite hasScope_spec, Ha, Hr, Hp, Hse. simpl in *. split_and!; auto. exists (TrimSpace (vr_Scope req)). by split. }
  destruct (vr_Consume req); [|done]. unfold MarkConsumed, wrap_error. rewrite (run_exec no_faults). cbn [fst snd rows tick].
  assert (Hcnt : (0 <? Z.of_nat (count_where (unconsumed (TrimSpace (t_Token st))) (tokens (rows db1)))) = true).
  { apply Z.ltb_lt. rewrite Hl, count_where_app. unfold count_where. simpl. unfold unconsumed, has_token.
    rewrite Htok, Htrim, String.eqb_refl, Hnone. simpl. lia. }
  rewrite Hcnt. done.
Qed.
End roundtrip.

(** ** Concrete histories *)

Module BrokerExamples.
#[export] Existing Instances ExampleHost.host.

Definition broker : Broker :=
  NewBroker (λ _, inr "") {| DefaultTTL := 0; MaxScope := 0; Now := None;
    TokenGenerator := Some (λ n, inr ("tok-" +:+ pretty n)%string); AuditSink := true |}.
Definition issue_req : IssueRequest :=
  {| ir_RunID := "run-1"; ir_ProbeID := "p-1"; ir_Audience := "run.exec"; ir_Scopes := [" run.exec"; "run.logs"; "run.exec"];
     ir_Issuer := "ops"; ir_SessionID := "s-1"; ir_TTL := 60 * Second |}.
Definition validate_req (consume : bool) : ValidateRequest :=
  {| vr_Token := "tok-1"; vr_Scope := "run.logs"; vr_Audience := "run.exec"; vr_RunID := "run-1"; vr_ProbeID := "p-1";
     vr_SessionID := "s-1"; vr_Consume := consume |}.
Definition issued : DB BrokerState := (Issue broker issue_req no_tokens).2.
Definition used : DB BrokerState := (Validate broker (validate_req true) issued).2.
Definition revoked_db : DB BrokerState := (Revoke broker "tok-1" issued).2.
Definition history : list observation :=
  [ObsIssue issue_req (Issue broker issue_req no_tokens).1; ObsValidate (validate_req true) (Validate broker (validate_req true) issued).1].

Lemma issued_run : broker_run broker no_tokens [ObsIssue issue_req (Issue broker issue_req no_tokens).1] issued.
Proof. eapply trace_cons; [apply bc_issue, surjective_pairing|constructor]. Qed.
Lemma history_run : broker_run broker no_tokens history used.
Proof. eapply trace_cons; [apply bc_issue, surjective_pairing|]. eapply trace_cons; [apply bc_validate, surjective_pairing|constructor]. Qed.
End BrokerExamples.
Import BrokerExamples.

(** A restart undoes a revocation.  The set of revoked tokens lives in memory
    only, and the record of a revoked token is merely marked consumed: after a
    restart of the control plane, a token that was revoked, and not expired,
    passes every validation that does not consume it. *)
Theorem revocation_lost_on_restart :
  (Revoke broker "tok-1" issued).1 = inr tt ∧
  (Validate broker (validate_req false) revoked_db).1 = inl (Sentinel ErrTokenRevoked) ∧
  (Validate broker (validate_req false) (restart revoked_db)).1 =
    inr {| cl_RunID := "run-1"; cl_ProbeID := "p-1"; cl_Audience := "run.exec"; cl_Scopes := ["run.exec"; "run.logs"];
           cl_IssuedAt := 0; cl_ExpiresAt := 60 * Second; cl_Issuer := "ops"; cl_SessionID := "s-1" |}.
Proof. vm_compute. auto. Qed.

Lemma token_single_use_witness : count_where (consumes "tok-1") history = 1%nat ∧ (count_where (consumes "tok-1") history <= 1)%nat.
Proof. split; [reflexivity|]. exact (token_single_use broker history used "tok-1" history_run). Defined.

Lemma revocation_is_final_witness :
  existsb (grants "tok-1") [ObsValidate (validate_req false) (Validate broker (validate_req false) revoked_db).1] = false.
Proof.
  apply (revocation_is_final broker "tok-1" issued revoked_db _ (Validate broker (validate_req false) revoked_db).2).
  - reflexivity.
  - eapply trace_cons; [apply bc_validate, surjective_pairing|constructor].
  - reflexivity.
Defined.

Lemma validate_grants_witness : ∃ st, least_privilege broker st ∧ t_Token st = "tok-1".
Proof.
  destruct (validate_grants broker [ObsIssue issue_req (Issue broker issue_req no_tokens).1] issued (validate_req true)
    {| cl_RunID := "run-1"; cl_ProbeID := "p-1"; cl_Audience := "run.exec"; cl_Scopes := ["run.exec"; "run.logs"];
       cl_IssuedAt := 0; cl_ExpiresAt := 60 * Second; cl_Issuer := "ops"; cl_SessionID := "s-1" |} used issued_run)
    as (st & [[_ Ht] _ _ _ _ _ _ _] & Hlp & _); [reflexivity|]. exists st. split; [exact Hlp|exact Ht].
Defined.

Lemma issue_validate_roundtrip_witness :
  ∃ tok, it_Token tok = "tok-1" ∧ (Validate broker (validate_req true) issued).1 = inr (it_Claims tok).
Proof.
  exists {| it_Token := "tok-1"; it_Claims := {| cl_RunID := "run-1"; cl_ProbeID := "p-1"; cl_Audience := "run.exec";
    cl_Scopes := ["run.exec"; "run.logs"]; cl_IssuedAt := 0; cl_ExpiresAt := 60 * Second; cl_Issuer := "ops"; cl_SessionID := "s-1" |} |}.
  split; [reflexivity|].
  apply (@issue_validate_roundtrip ExampleHost.host broker (λ _, eq_refl) [] no_tokens issue_req _ issued (validate_req true) (trace_nil _ _)).
  - reflexivity.
  - split_and!; try reflexivity; [done|]. right. left.
  - vm_compute. discriminate.
Defined.
