(* ===== verification/Runner.v ===== *)
(** * Runners (src/internal/controlplane/runner/manager.go)

    The manager keeps its runners in memory and asks a token broker for the
    single-use tokens that authorise the operations on them.  The broker is an
    interface, the class [tokenBroker] with the laws the manager relies on; the
    broker of TokenBroker discharges them.  Each method is one computation: the
    ones that take the lock of the manager hold it throughout, and the field that
    [IssueRunToken] reads before it calls the broker never changes. *)
From S2P Require Import Prelude GoStrings GoErrors GoTime GoSql TokenBroker.
Local Open Scope go_scope.
Local Open Scope Z_scope.

(** ** Data *)

Definition StateCreated : string := "created".
Definition StateRunning : string := "running".
Definition StateStopped : string := "stopped".
Definition StateDestroyed : string := "destroyed".

Definition AudienceRunnerStart : string := "runner:start".
Definition AudienceRunnerStop : string := "runner:stop".
Definition AudienceRunnerDestroy : string := "runner:destroy".
Definition AudienceRunnerProviderProxy : string := "runner:provider-proxy".

Definition BackendHost : string := "host".
Definition BackendSandbox : string := "sandbox".
Definition defaultRunTokenTTL : duration := 120 * Second.

Record SandboxContract := { sc_Image : string; sc_Command : list string; sc_TimeoutSeconds : Z }.

Record Runner := {
  ru_ID : string;
  ru_Label : string;
  ru_JobID : string;
  ru_Backend : string;
  ru_Sandbox : option SandboxContract;
  ru_State : string;
  ru_CreatedBy : string;
  ru_SessionID : string;
  ru_WorkspaceID : string;
  ru_CreatedAt : time;
  ru_UpdatedAt : time;
  ru_DestroyedAt : option time;
}.

Record CreateRequest := {
  cq_Label : string; cq_JobID : string; cq_Backend : string; cq_Sandbox : option SandboxContract;
  cq_CreatedBy : string; cq_SessionID : string; cq_WorkspaceID : string;
}.
Record IssueTokenRequest := {
  iq_RunnerID : string; iq_JobID : string; iq_Audience : string; iq_Issuer : string; iq_SessionID : string; iq_TTL : duration;
}.
Record IssuedRunToken := {
  rt_Token : string; rt_RunnerID : string; rt_JobID : string; rt_Audience : string; rt_Scopes : list string; rt_Issuer : string;
  rt_IssuedAt : time; rt_ExpiresAt : time; rt_TTL : Z;
}.
Record LifecycleRequest := { lq_RunnerID : string; lq_JobID : string; lq_RunToken : string; lq_SessionID : string }.
Record ValidateRunTokenRequest := {
  vq_RunToken : string; vq_RunID : string; vq_ProbeID : string; vq_SessionID : string; vq_Audience : string; vq_Scope : string; vq_Consume : bool;
}.
Record RunTokenClaims := {
  rc_RunID : string; rc_ProbeID : string; rc_SessionID : string; rc_Issuer : string; rc_Audience : string; rc_Scopes : list string;
  rc_IssuedAt : time; rc_ExpiresAt : time;
}.

(** ** The interface of the token broker *)

Class tokenBroker (S : Type) := {
  tb_Issue : IssueRequest → M S IssuedToken;
  tb_Validate : ValidateRequest → M S Claims;
  tb_Revoke : string → M S unit;
}.

(** What the manager relies on: in the reachable states of the broker
    ([tb_inv]) a token can be spent once, spent tokens stay spent, and a
    validation that succeeds is for a token with the claims the caller names. *)
Class TokenBrokerLaws S `{Host, tokenBroker S} := {
  tb_inv : S → Prop;
  tb_spent : string → S → Prop;
  tb_claims : string → S → option Claims;
  tb_keeps s s' : Prop := tb_inv s → tb_inv s' ∧ (∀ t, tb_spent t s → tb_spent t s');
  tb_issue_keeps req db res db' : tb_Issue req db = (res, db') → tb_keeps (rows db) (rows db');
  tb_validate_keeps req db res db' : tb_Validate req db = (res, db') → tb_keeps (rows db) (rows db');
  tb_revoke_keeps token db res db' : tb_Revoke token db = (res, db') → tb_keeps (rows db) (rows db');
  tb_single_use req db c db' :
    tb_Validate req db = (inr c, db') → tb_inv (rows db) → vr_Consume req = true →
    ¬ tb_spent (TrimSpace (vr_Token req)) (rows db) ∧ tb_spent (TrimSpace (vr_Token req)) (rows db');
  tb_bound req db c db' :
    tb_Validate req db = (inr c, db') → tb_inv (rows db) →
    tb_claims (TrimSpace (vr_Token req)) (rows db) = Some c ∧
    TrimSpace (vr_SessionID req) = cl_SessionID c ∧ TrimSpace (vr_Scope req) ∈ cl_Scopes c ∧
    (TrimSpace (vr_Audience req) = "" ∨ TrimSpace (vr_Audience req) = TrimSpace (cl_Audience c)) ∧
    (TrimSpace (vr_RunID req) = "" ∨ TrimSpace (vr_RunID req) = TrimSpace (cl_RunID c)) ∧
    (TrimSpace (vr_ProbeID req) = "" ∨ TrimSpace (vr_ProbeID req) = TrimSpace (cl_ProbeID c));
}.

(** ** The manager *)

Record ManagerState (S : Type) := { broker_state : S; runners : gmap string Runner }.
Arguments broker_state {S} _.
Arguments runners {S} _.
Arguments Build_ManagerState {S} _ _.

Record Manager := { runTokenTTL : duration; m_now : nat → time; idGenerator : nat → string }.

Definition normalizeAudience (a : string) : string := TrimSpace a.
Definition isAllowedAudience (a : string) : bool :=
  existsb (String.eqb (normalizeAudience a)) [AudienceRunnerStart; AudienceRunnerStop; AudienceRunnerDestroy; AudienceRunnerProviderProxy].
Definition audienceTarget (a : string) : option string :=
  let a := normalizeAudience a in
  if a =s AudienceRunnerStart then Some StateRunning
  else if a =s AudienceRunnerStop then Some StateStopped
  else if a =s AudienceRunnerDestroy then Some StateDestroyed
  else None.

Definition canTransition (current target : string) : bool :=
  if target =s StateRunning then (current =s StateCreated) || (current =s StateStopped)
  else if target =s StateStopped then current =s StateRunning
  else if target =s StateDestroyed then (current =s StateCreated) || (current =s StateRunning) || (current =s StateStopped)
  else false.

Definition wrap_text (s : sentinel) (text : string) : go_error := WrapError (sentinel_text s +:+ ": " +:+ text)%string (Sentinel s).

Definition normalizeBackend (b : string) : result string :=
  let b := TrimSpace b in
  if (b =s "") || (b =s BackendHost) then inr BackendHost
  else if b =s BackendSandbox then inr BackendSandbox
  else inl (wrap_text ErrInvalidBackend b).

Definition normalizeSandboxContract (backend : string) (in_ : option SandboxContract) : result (option SandboxContract) :=
  if backend <>s BackendSandbox then inr None
  else
    let in_ := default {| sc_Image := ""; sc_Command := []; sc_TimeoutSeconds := 0 |} in_ in
    let out := {| sc_Image := TrimSpace (sc_Image in_); sc_Command := List.filter (λ p, p <>s "") (map TrimSpace (sc_Command in_));
                  sc_TimeoutSeconds := sc_TimeoutSeconds in_ |} in
    if Z.of_nat (length (sc_Command out)) =? 0 then inl (Sentinel ErrSandboxCommandRequired)
    else if sc_TimeoutSeconds out <? 0 then inl (wrap_text ErrSandboxContractMalformed "timeout_seconds must be >= 0")
    else inr (Some out).

Definition scope_errors : list sentinel :=
  [ErrScopeRejected; ErrScopeRequired; ErrScopesRequired; ErrRunIDRequired; ErrProbeIDRequired; ErrAudienceRequired; ErrAudienceMismatch;
   ErrBindingMismatch; ErrScopeLimitExceeded].
Definition mapTokenBrokerError (e : go_error) : go_error :=
  if errors_Is e ErrTokenRequired then Sentinel ErrRunTokenRequired
  else if errors_Is e ErrTokenInvalid then Sentinel ErrRunTokenInvalid
  else if errors_Is e ErrTokenExpired then Sentinel ErrRunTokenExpired
  else if errors_Is e ErrTokenRevoked then Sentinel ErrRunTokenRevoked
  else if errors_Is e ErrTokenConsumed then Sentinel ErrRunTokenConsumed
  else if existsb (errors_Is e) scope_errors then wrap_text ErrRunTokenScope (Error e)
  else if errors_Is e ErrSessionMismatch then Sentinel ErrRunTokenSessionBound
  else e.

Record ManagerConfig := { mc_RunTokenTTL : duration; mc_Now : option (nat → time); mc_IDGenerator : option (nat → string) }.
Definition NewManager `{Host} (cfg : ManagerConfig) : Manager :=
  {| runTokenTTL := if mc_RunTokenTTL cfg <=? 0 then defaultRunTokenTTL else mc_RunTokenTTL cfg;
     m_now := default clock (mc_Now cfg); idGenerator := default new_uuid (mc_IDGenerator cfg) |}.

Section manager.
Context `{Host} {S : Type} `{!tokenBroker S} (m : Manager).
Notation R := (GoSql.M (ManagerState S)) (only parsing).

(** A call to the broker, and the map of runners. *)
Definition lift {A} (c : GoSql.M S A) : R A := λ db,
  let '(r, db') := c (Build_DB (broker_state (rows db)) (ticks db)) in
  (r, Build_DB (Build_ManagerState (rows db') (runners (rows db))) (ticks db')).
Definition put_runner (id : string) (r : Runner) : R unit := λ db,
  (inr tt, Build_DB (Build_ManagerState (broker_state (rows db)) (<[id := r]> (runners (rows db)))) (ticks db)).
Definition lookup_runner (id : string) : R Runner := λ db,
  (match runners (rows db) !! id with Some r => inr r | None => inl (Sentinel ErrRunnerNotFound) end, db).
Definition manager_now : R time := λ db, (inr (m_now m (ticks db)), tick db).
Definition new_id : R string := λ db, (inr (idGenerator m (ticks db)), tick db).

Definition CreateRunner (req : CreateRequest) : R Runner :=
  let sessionID := TrimSpace (cq_SessionID req) in
  if sessionID =s "" then fail (Sentinel ErrSessionRequired)
  else match normalizeBackend (cq_Backend req) with
  | inl e => fail e
  | inr backend =>
      match normalizeSandboxContract backend (cq_Sandbox req) with
      | inl e => fail e
      | inr sandbox =>
          now ← manager_now;
          generated ← new_id;
          let id := TrimSpace generated in
          id ← (if id =s "" then uuid_NewString else mret id);
          let r := {| ru_ID := id; ru_Label := TrimSpace (cq_Label req); ru_JobID := TrimSpace (cq_JobID req); ru_Backend := backend;
                      ru_Sandbox := sandbox; ru_State := StateCreated; ru_CreatedBy := TrimSpace (cq_CreatedBy req); ru_SessionID := sessionID;
                      ru_WorkspaceID := ToLower (TrimSpace (cq_WorkspaceID req)); ru_CreatedAt := now; ru_UpdatedAt := now;
                      ru_DestroyedAt := None |} in
          _ ← put_runner id r;
          mret r
      end
  end.

(** The job a token is for: the runner's, when it has one. *)
Definition token_job (requested runnerJob : string) : result string :=
  if (runnerJob <>s "") && (requested =s "") then inr runnerJob
  else if (runnerJob <>s "") && (requested <>s runnerJob)
  then inl (wrap_text ErrRunTokenScope ("token job_id " +:+ Quote requested +:+ " does not match runner job_id " +:+ Quote runnerJob)%string)
  else inr requested.

Definition IssueRunToken (req : IssueTokenRequest) : R IssuedRunToken :=
  let sessionID := TrimSpace (iq_SessionID req) in
  let runnerID := TrimSpace (iq_RunnerID req) in
  let audience := normalizeAudience (iq_Audience req) in
  if sessionID =s "" then fail (Sentinel ErrSessionRequired)
  else if runnerID =s "" then fail (Sentinel ErrRunnerIDRequired)
  else if audience =s "" then fail (Sentinel RunnerErrAudienceRequired)
  else if negb (isAllowedAudience audience) then fail (wrap_text ErrInvalidAudience audience)
  else
    r ← lookup_runner runnerID;
    match token_job (TrimSpace (iq_JobID req)) (TrimSpace (ru_JobID r)) with
    | inl e => fail e
    | inr jobID =>
        let issuer := if TrimSpace (iq_Issuer req) =s "" then sessionID else TrimSpace (iq_Issuer req) in
        issued ← wrap_error mapTokenBrokerError (lift (tb_Issue
          {| ir_RunID := if jobID =s "" then runnerID else jobID; ir_ProbeID := runnerID; ir_Audience := audience; ir_Scopes := [audience];
             ir_Issuer := issuer; ir_SessionID := sessionID; ir_TTL := if iq_TTL req <=? 0 then runTokenTTL m else iq_TTL req |}));
        let c := it_Claims issued in
        mret {| rt_Token := it_Token issued; rt_RunnerID := runnerID; rt_JobID := jobID; rt_Audience := audience; rt_Scopes := cl_Scopes c;
                rt_Issuer := cl_Issuer c; rt_IssuedAt := cl_IssuedAt c; rt_ExpiresAt := cl_ExpiresAt c;
                rt_TTL := Z.max 0 (Z.quot (cl_ExpiresAt c - cl_IssuedAt c) Second) |}
    end.

Definition RevokeRunToken (token : string) : R unit := wrap_error mapTokenBrokerError (lift (tb_Revoke token)).

Definition ValidateRunToken (req : ValidateRunTokenRequest) : R RunTokenClaims :=
  let runToken := TrimSpace (vq_RunToken req) in
  let sessionID := TrimSpace (vq_SessionID req) in
  let audience := normalizeAudience (vq_Audience req) in
  if runToken =s "" then fail (Sentinel ErrRunTokenRequired)
  else if sessionID =s "" then fail (Sentinel ErrSessionRequired)
  else if audience =s "" then fail (Sentinel RunnerErrAudienceRequired)
  else
    let scope := if TrimSpace (vq_Scope req) =s "" then audience else TrimSpace (vq_Scope req) in
    c ← wrap_error mapTokenBrokerError (lift (tb_Validate
      {| vr_Token := runToken; vr_Scope := scope; vr_Audience := audience; vr_RunID := TrimSpace (vq_RunID req);
         vr_ProbeID := TrimSpace (vq_ProbeID req); vr_SessionID := sessionID; vr_Consume := vq_Consume req |}));
    mret {| rc_RunID := TrimSpace (cl_RunID c); rc_ProbeID := TrimSpace (cl_ProbeID c); rc_SessionID := TrimSpace (cl_SessionID c);
            rc_Issuer := TrimSpace (cl_Issuer c); rc_Audience := TrimSpace (cl_Audience c); rc_Scopes := cl_Scopes c;
            rc_IssuedAt := cl_IssuedAt c; rc_ExpiresAt := cl_ExpiresAt c |}.

Definition cannot_move (from to : string) : go_error := wrap_text ErrInvalidTransition ("cannot move from " +:+ from +:+ " to " +:+ to)%string.

(** The request with which a lifecycle operation spends its token. *)
Definition lifecycle_validation (req : LifecycleRequest) (audience runID : string) : ValidateRequest :=
  {| vr_Token := TrimSpace (lq_RunToken req); vr_Scope := audience; vr_Audience := audience; vr_RunID := runID;
     vr_ProbeID := TrimSpace (lq_RunnerID req); vr_SessionID := TrimSpace (lq_SessionID req); vr_Consume := true |}.

Definition prepareTransition (req : LifecycleRequest) (audience target : string) : R Runner :=
  let runnerID := TrimSpace (lq_RunnerID req) in
  let requestedJobID := TrimSpace (lq_JobID req) in
  if TrimSpace (lq_SessionID req) =s "" then fail (Sentinel ErrSessionRequired)
  else if runnerID =s "" then fail (Sentinel ErrRunnerIDRequired)
  else if TrimSpace (lq_RunToken req) =s "" then fail (Sentinel ErrRunTokenRequired)
  else
    r ← lookup_runner runnerID;
    let runnerJobID := TrimSpace (ru_JobID r) in
    if (requestedJobID <>s "") && (runnerJobID <>s "") && (requestedJobID <>s runnerJobID)
    then fail (wrap_text ErrRunTokenScope ("lifecycle job_id " +:+ Quote requestedJobID +:+ " does not match runner job_id " +:+ Quote runnerJobID)%string)
    else
      _ ← wrap_error mapTokenBrokerError
            (lift (tb_Validate (lifecycle_validation req audience (if runnerJobID =s "" then runnerID else runnerJobID))));
      if negb (canTransition (ru_State r) target) then fail (cannot_move (ru_State r) target) else mret r.

Definition PrepareRunnerLifecycle (req : LifecycleRequest) (audience : string) : R Runner :=
  match audienceTarget audience with
  | None => fail (wrap_text ErrInvalidAudience ("unsupported audience " +:+ audience)%string)
  | Some target => prepareTransition req audience target
  end.

Definition moved (r : Runner) (target : string) (now : time) : Runner :=
  {| ru_ID := ru_ID r; ru_Label := ru_Label r; ru_JobID := ru_JobID r; ru_Backend := ru_Backend r; ru_Sandbox := ru_Sandbox r; ru_State := target;
     ru_CreatedBy := ru_CreatedBy r; ru_SessionID := ru_SessionID r; ru_WorkspaceID := ru_WorkspaceID r; ru_CreatedAt := ru_CreatedAt r;
     ru_UpdatedAt := now; ru_DestroyedAt := if target =s StateDestroyed then Some now else ru_DestroyedAt r |}.

Definition CompleteRunnerLifecycle (runnerID target : string) : R Runner :=
  let runnerID := TrimSpace runnerID in
  if runnerID =s "" then fail (Sentinel ErrRunnerIDRequired)
  else
    r ← lookup_runner runnerID;
    if negb (canTransition (ru_State r) target) then fail (cannot_move (ru_State r) target)
    else
      now ← manager_now;
      _ ← put_runner runnerID (moved r target now);
      mret (moved r target now).

Definition lifecycle (req : LifecycleRequest) (audience target : string) : R Runner :=
  _ ← PrepareRunnerLifecycle req audience; CompleteRunnerLifecycle (lq_RunnerID req) target.
Definition StartRunner (req : LifecycleRequest) : R Runner := lifecycle req AudienceRunnerStart StateRunning.
Definition StopRunner (req : LifecycleRequest) : R Runner := lifecycle req AudienceRunnerStop StateStopped.
Definition DestroyRunner (req : LifecycleRequest) : R Runner := lifecycle req AudienceRunnerDestroy StateDestroyed.

Definition GetRunner (runnerID : string) : R Runner :=
  let runnerID := TrimSpace runnerID in
  if runnerID =s "" then fail (Sentinel ErrRunnerIDRequired) else lookup_runner runnerID.

(** The order of a map iteration is the argument [order]. *)
Definition WorkspaceForRun (order : list string) (runID : string) (s : ManagerState S) : option string :=
  let runID := TrimSpace runID in
  if runID =s "" then None
  else match runners s !! runID with
  | Some r => Some (ToLower (TrimSpace (ru_WorkspaceID r)))
  | None =>
      match List.find (λ r, TrimSpace (ru_JobID r) =s runID) (omap (λ k, runners s !! k) order) with
      | Some r => Some (ToLower (TrimSpace (ru_WorkspaceID r)))
      | None => None
      end
  end.
End manager.
