(* ===== verification/RunnerSafety.v ===== *)
(** * What the tokens of a runner authorise

    Histories of the runner manager, for every broker that satisfies the laws of
    the interface: the life of a runner, the authority behind each lifecycle
    operation, and one operation per token.  The broker of TokenBroker satisfies
    the laws. *)
From S2P Require Import Prelude GoStrings GoErrors GoTime GoSql TokenBroker Runner.
Local Open Scope go_scope.
Local Open Scope Z_scope.

(** A call to the manager with its answer. *)
Inductive runner_event :=
  | EvCreate (req : CreateRequest) (res : result Runner)
  | EvIssue (req : IssueTokenRequest) (res : result IssuedRunToken)
  | EvRevoke (token : string) (res : result unit)
  | EvValidate (req : ValidateRunTokenRequest) (res : result RunTokenClaims)
  | EvPrepare (req : LifecycleRequest) (audience : string) (res : result Runner)
  | EvComplete (id target : string) (res : result Runner).

Section safety.
Context {S : Type} `{Host} `{!tokenBroker S} `{!TokenBrokerLaws S} (m : Manager).
Implicit Types db : DB (ManagerState S).

Inductive manager_call : DB (ManagerState S) → runner_event → DB (ManagerState S) → Prop :=
  | mc_create db req res db' : CreateRunner m req db = (res, db') → manager_call db (EvCreate req res) db'
  | mc_issue db req res db' : IssueRunToken m req db = (res, db') → manager_call db (EvIssue req res) db'
  | mc_revoke db token res db' : RevokeRunToken token db = (res, db') → manager_call db (EvRevoke token res) db'
  | mc_validate db req res db' : ValidateRunToken req db = (res, db') → manager_call db (EvValidate req res) db'
  | mc_prepare db req a res db' : PrepareRunnerLifecycle req a db = (res, db') → manager_call db (EvPrepare req a res) db'
  | mc_complete db id target res db' : CompleteRunnerLifecycle m id target db = (res, db') → manager_call db (EvComplete id target res) db'.

(** ** What each method does to the state *)

Definition new_runner (r : Runner) : Prop := ru_State r = StateCreated ∧ ru_DestroyedAt r = None.

(** The broker moved, the runners did not. *)
Definition broker_step (s s' : ManagerState S) : Prop := tb_keeps (broker_state s) (broker_state s') ∧ runners s' = runners s.

Inductive manager_effect : ManagerState S → ManagerState S → Prop :=
  | me_broker s s' : broker_step s s' → manager_effect s s'
  | me_create b rs r : new_runner r → manager_effect (Build_ManagerState b rs) (Build_ManagerState b (<[ru_ID r := r]> rs))
  | me_move b rs id r target now : rs !! id = Some r → canTransition (ru_State r) target = true →
      manager_effect (Build_ManagerState b rs) (Build_ManagerState b (<[id := moved r target now]> rs)).

Lemma lift_eq {A} (c : GoSql.M S A) db res db' :
  lift c db = (res, db') →
  ∃ d, c (Build_DB (broker_state (rows db)) (ticks db)) = (res, d) ∧ db' = Build_DB (Build_ManagerState (rows d) (runners (rows db))) (ticks d).
Proof. unfold lift. destruct (c _) as [r d]. intros [= <- <-]. eauto. Qed.

Lemma runs_lift {A} (c : GoSql.M S A) :
  (∀ (d d' : DB S) res, c d = (res, d') → tb_keeps (rows d) (rows d')) → runs broker_step (lift c).
Proof. intros Hc db res db' (d & E & ->)%lift_eq. apply rtc_once. split; [exact (Hc _ _ _ E)|done]. Qed.
Lemma reads_lookup id : reads (lookup_runner (S:=S) id).
Proof. by intros db res db' [= _ <-]. Qed.
Lemma reads_manager_now : reads (manager_now (S:=S) m).
Proof. by intros db res db' [= _ <-]. Qed.
Lemma reads_new_id : reads (new_id (S:=S) m).
Proof. by intros db res db' [= _ <-]. Qed.
Lemma runs_put r : new_runner r → runs manager_effect (put_runner (S:=S) (ru_ID r) r).
Proof. intros Hr db res db' [= _ <-]. apply rtc_once. destruct db as [[b rs] n]. by apply me_create. Qed.
Hint Resolve reads_lookup reads_manager_now reads_new_id : legator.

Lemma runs_CreateRunner req : runs manager_effect (CreateRunner m req).
Proof.
  unfold CreateRunner. repeat (case_match; [eauto with legator|]). cbv zeta.
  apply runs_bind; [eauto with legator|]. intros now. apply runs_bind; [eauto with legator|]. intros g.
  apply runs_bind; [case_match; eauto with legator|]. intros id. apply runs_bind; [|eauto with legator].
  match goal with |- runs _ (put_runner id ?r) => apply (runs_put r) end. done.
Qed.
Lemma runs_IssueRunToken req : runs broker_step (IssueRunToken m req).
Proof.
  unfold IssueRunToken. cbv zeta. do 3 (split_str; [eauto with legator|]). destruct (isAllowedAudience _); cbn [negb]; [|eauto with legator].
  apply runs_bind; [eauto with legator|]. intros r. case_match; [eauto with legator|].
  apply runs_bind; [|eauto with legator]. apply runs_wrap, runs_lift. intros db db' res E. by eapply tb_issue_keeps.
Qed.
Lemma runs_RevokeRunToken token : runs broker_step (RevokeRunToken token).
Proof. apply runs_wrap, runs_lift. intros db db' res E. by eapply tb_revoke_keeps. Qed.
Lemma runs_ValidateRunToken req : runs broker_step (ValidateRunToken req).
Proof.
  unfold ValidateRunToken. cbv zeta. do 3 (split_str; [eauto with legator|]).
  apply runs_bind; [|eauto with legator]. apply runs_wrap, runs_lift. intros db db' res E. by eapply tb_validate_keeps.
Qed.
Lemma runs_Prepare req a : runs broker_step (PrepareRunnerLifecycle req a).
Proof.
  unfold PrepareRunnerLifecycle, prepareTransition. cbv zeta. case_match; [|eauto with legator].
  do 3 (split_str; [eauto with legator|]). apply runs_bind; [eauto with legator|]. intros r.
  destruct (_ && _); [eauto with legator|]. apply runs_bind; [apply runs_wrap, runs_lift; intros db db' res E; by eapply tb_validate_keeps|].
  intros c. destruct (canTransition _ _); cbn [negb]; eauto with legator.
Qed.

Lemma Complete_ok id target db res db' :
  CompleteRunnerLifecycle m id target db = (res, db') →
  (∃ e, res = inl e) ∧ rows db' = rows db ∨
  ∃ r now, runners (rows db) !! TrimSpace id = Some r ∧ canTransition (ru_State r) target = true ∧ res = inr (moved r target now) ∧
    rows db' = Build_ManagerState (broker_state (rows db)) (<[TrimSpace id := moved r target now]> (runners (rows db))).
Proof.
  unfold CompleteRunnerLifecycle. cbv zeta. case_match; [intros [= <- <-]; left; by eauto|].
  unfold mbind at 1, M_bind, lookup_runner. destruct (runners _ !! _) as [r|] eqn:Er; [|intros [= <- <-]; left; by eauto].
  destruct (canTransition _ _) eqn:Ec; cbn [negb]; [|intros [= <- <-]; left; by eauto].
  intros [= <- <-]. right. by exists r, (m_now m (ticks db)).
Qed.
Lemma runs_Complete id target : runs manager_effect (CompleteRunnerLifecycle m id target).
Proof.
  intros db res db' [[_ ->]|(r & now & Hr & Hc & _ & ->)]%Complete_ok; [reflexivity|]. apply rtc_once.
  destruct db as [[b rs] n]. by apply me_move.
Qed.

Lemma call_effect db e db' : manager_call db e db' → rtc manager_effect (rows db) (rows db').
Proof.
  destruct 1 as [db req res db' E|db req res db' E|db token res db' E|db req res db' E|db req a res db' E|db id target res db' E];
    [by eapply runs_CreateRunner| | | | |by eapply runs_Complete];
    (eapply (runs_mono broker_step); [by constructor| |exact E]);
    auto using runs_IssueRunToken, runs_RevokeRunToken, runs_ValidateRunToken, runs_Prepare.
Qed.

(** ** The life of a runner *)

(** What never changes of a runner. *)
Definition same_runner (r r' : Runner) : Prop :=
  ru_ID r' = ru_ID r ∧ ru_Label r' = ru_Label r ∧ ru_JobID r' = ru_JobID r ∧ ru_Backend r' = ru_Backend r ∧ ru_Sandbox r' = ru_Sandbox r ∧
  ru_CreatedBy r' = ru_CreatedBy r ∧ ru_SessionID r' = ru_SessionID r ∧ ru_WorkspaceID r' = ru_WorkspaceID r ∧ ru_CreatedAt r' = ru_CreatedAt r.
Definition evolves (r r' : Runner) : Prop :=
  same_runner r r' ∧ rtc (λ a b, canTransition a b = true) (ru_State r) (ru_State r') ∧ (ru_State r = StateDestroyed → r' = r).

Lemma runner_evolves_refl r : evolves r r.
Proof. by split_and!. Qed.
Lemma runner_evolves_trans r1 r2 r3 : evolves r1 r2 → evolves r2 r3 → evolves r1 r3.
Proof.
  intros (H1 & T1 & D1) (H2 & T2 & D2). split_and!; [|by etrans|].
  - unfold same_runner in *. intuition congruence.
  - intros Hd. rewrite <- (D1 Hd). apply D2. rewrite (D1 Hd). done.
Qed.
Lemma moved_evolves r target now : canTransition (ru_State r) target = true → evolves r (moved r target now).
Proof.
  intros Hc. split_and!; [by split_and!|by apply rtc_once|]. intros Hd. rewrite Hd in Hc. unfold canTransition in Hc.
  by repeat case_match.
Qed.

(** The runners of a reachable state: filed under their ids, in a known state,
    with a time of destruction exactly when they are destroyed. *)
Definition runners_ok (rs : gmap string Runner) : Prop :=
  ∀ id r, rs !! id = Some r →
    ru_ID r = id ∧ ru_State r ∈ [StateCreated; StateRunning; StateStopped; StateDestroyed] ∧
    (ru_State r = StateDestroyed ↔ is_Some (ru_DestroyedAt r)).

Lemma canTransition_target a b : canTransition a b = true → b ∈ [StateCreated; StateRunning; StateStopped; StateDestroyed] ∧ a ≠ StateDestroyed.
Proof.
  unfold canTransition. intros Hc. repeat case_str; try done; split; try done; set_solver.
Qed.

Lemma effect_runners_ok s s' : manager_effect s s' → runners_ok (runners s) → runners_ok (runners s').
Proof.
  intros He Hok. destruct He as [s s' [_ ->]|b rs r [Hc Hd]|b rs id r target now Hr Ht]; [done| |]; intros id' r'; cbn.
  - destruct (decide (ru_ID r = id')) as [<-|Hne]; [rewrite lookup_insert_eq|rewrite lookup_insert_ne by done; apply Hok].
    intros [= <-]. rewrite Hc, Hd. split_and!; [done|set_solver|]. split; [done|by intros [? ?]].
  - destruct (decide (id = id')) as [<-|Hne]; [rewrite lookup_insert_eq|rewrite lookup_insert_ne by done; apply Hok].
    intros [= <-]. destruct (Hok _ _ Hr) as (Hid & _ & Hdes). apply canTransition_target in Ht as [Hin Hnd]. cbn. split_and!; try done.
    destruct (String.eqb_spec target StateDestroyed) as [->|Hne]; [by split|]. split; [done|]. intros Hs%Hdes. done.
Qed.

Definition created_other (id : string) (e : runner_event) : Prop :=
  match e with EvCreate _ (inr r) => ru_ID r ≠ id | _ => True end.

Lemma Create_ok req db res db' :
  CreateRunner m req db = (res, db') →
  rows db' = rows db ∨ ∃ r, res = inr r ∧ new_runner r ∧ rows db' = Build_ManagerState (broker_state (rows db)) (<[ru_ID r := r]> (runners (rows db))).
Proof.
  unfold CreateRunner. repeat (case_match; [intros [= _ <-]; by left|]). cbv zeta. unfold mbind, M_bind, manager_now, new_id, put_runner.
  cbn. destruct (TrimSpace (idGenerator m _) =s ""); intros [= <- <-]; right; eexists; by split_and!.
Qed.

Lemma broker_steps_runners s s' : rtc broker_step s s' → runners s' = runners s.
Proof. induction 1 as [|s1 s2 s3 [_ Hr] _ IH]; [done|]. by rewrite IH. Qed.

Lemma call_evolves db e db' id r :
  manager_call db e db' → created_other id e → runners (rows db) !! id = Some r → ∃ r', runners (rows db') !! id = Some r' ∧ evolves r r'.
Proof.
  intros Hc He Hr. assert (Hsame : runners (rows db') = runners (rows db) → ∃ r', runners (rows db') !! id = Some r' ∧ evolves r r').
  { intros ->. exists r. split; [done|apply runner_evolves_refl]. }
  destruct Hc as [db req res db' E|db req res db' E|db token res db' E|db req res db' E|db req a res db' E|db i target res db' E].
  - apply Create_ok in E as [E|(r' & -> & _ & E)]; [by apply Hsame; rewrite E|]. rewrite E. cbn in *. exists r.
    rewrite lookup_insert_ne by done. split; [done|apply runner_evolves_refl].
  - by eapply Hsame, broker_steps_runners, runs_IssueRunToken.
  - by eapply Hsame, broker_steps_runners, runs_RevokeRunToken.
  - by eapply Hsame, broker_steps_runners, runs_ValidateRunToken.
  - by eapply Hsame, broker_steps_runners, runs_Prepare.
  - apply Complete_ok in E as [[_ E]|(r' & now & Hi & Ht & _ & E)]; [by apply Hsame; rewrite E|]. rewrite E. cbn.
    destruct (decide (TrimSpace i = id)) as [<-|Hne]; [rewrite lookup_insert_eq|rewrite lookup_insert_ne by done; exists r; split; [done|apply runner_evolves_refl]].
    rewrite Hr in Hi. injection Hi as <-. exists (moved r target now). split; [done|by apply moved_evolves].
Qed.

(** The life of a runner: in every history of the manager, whatever the
    broker answers, the runners stay well formed (filed under their ids, in a
    known state, with a time of destruction exactly when destroyed); a runner
    that exists keeps its identity, job, session, workspace and contract, moves
    only along the transitions of [canTransition], and never changes again once
    it is destroyed, unless a runner with the same id is created. *)
Theorem runner_lifecycle db tr db' :
  trace manager_call db tr db' → runners_ok (runners (rows db)) →
  runners_ok (runners (rows db')) ∧
  ∀ id r, runners (rows db) !! id = Some r → Forall (created_other id) tr → ∃ r', runners (rows db') !! id = Some r' ∧ evolves r r'.
Proof.
  intros Htr Hok. split.
  { eapply (trace_invariant _ (λ db, runners_ok (runners (rows db)))); [|done|done]. intros d e d' Hc%call_effect Hd.
    induction Hc as [|s1 s2 s3 He _ IH]; [done|]. by eapply IH, effect_runners_ok. }
  clear Hok. induction Htr as [db|db1 e db2 tr db3 Hc _ IH]; intros id r Hr Hf; [exists r; split; [done|apply runner_evolves_refl]|].
  apply Forall_cons in Hf as [He Hf]. destruct (call_evolves _ _ _ _ _ Hc He Hr) as (r2 & Hr2 & E2).
  destruct (IH id r2 Hr2 Hf) as (r3 & Hr3 & E3). exists r3. split; [done|by eapply runner_evolves_trans].
Qed.

(** ** Authority *)

Lemma Prepare_ok req a db r db' :
  PrepareRunnerLifecycle req a db = (inr r, db') →
  ∃ target c d, audienceTarget a = Some target ∧ runners (rows db) !! TrimSpace (lq_RunnerID req) = Some r ∧
    canTransition (ru_State r) target = true ∧ TrimSpace (lq_RunnerID req) ≠ "" ∧
    tb_Validate (lifecycle_validation req a (if TrimSpace (ru_JobID r) =s "" then TrimSpace (lq_RunnerID req) else TrimSpace (ru_JobID r)))
      (Build_DB (broker_state (rows db)) (ticks db)) = (inr c, d) ∧
    db' = Build_DB (Build_ManagerState (rows d) (runners (rows db))) (ticks d).
Proof.
  unfold PrepareRunnerLifecycle, prepareTransition. cbv zeta. destruct (audienceTarget a) as [target|]; [|done].
  destruct (_ =s ""); [done|]. destruct (String.eqb_spec (TrimSpace (lq_RunnerID req)) "") as [|Hid]; [done|]. destruct (_ =s ""); [done|].
  intros E. apply bind_inr in E as (r' & db1 & Hl & E). unfold lookup_runner in Hl.
  destruct (runners _ !! _) as [r0|] eqn:Hr; [|done]. injection Hl as -> <-. destruct (_ && _); [done|].
  apply bind_inr in E as (c & db2 & (d & Hv & ->)%wrap_inr%lift_eq & E). destruct (canTransition _ _) eqn:Hc; [|done].
  cbn [negb] in E. apply ret_inr in E as [-> ->]. by exists target, c, d.
Qed.

Definition init_manager (s0 : S) : DB (ManagerState S) := Build_DB (Build_ManagerState s0 ∅) 0.

Lemma effects_keep s s' : rtc manager_effect s s' → tb_inv (broker_state s) →
  tb_inv (broker_state s') ∧ ∀ t, tb_spent t (broker_state s) → tb_spent t (broker_state s').
Proof.
  induction 1 as [s|s1 s2 s3 He _ IH]; intros Hinv; [done|].
  assert (Hk : tb_keeps (broker_state s1) (broker_state s2)) by (destruct He as [s s' [Hk _]| |]; [done|by intros ?..]).
  destruct (Hk Hinv) as [Hinv2 Hsp]. destruct (IH Hinv2) as [Hinv3 Hsp']. eauto.
Qed.

(** Nothing is done to a runner without the authority of a token: when the
    manager lets a start, stop or destroy go ahead, the transition is one that
    [canTransition] allows, and the presented token was issued by the broker to
    the session that presents it, for that audience, for that runner, and for
    the job of the runner (for the runner itself when it has none); it had not
    been spent before and is spent now. *)
Theorem lifecycle_authorised s0 tr db req a r db' :
  tb_inv s0 → trace manager_call (init_manager s0) tr db → PrepareRunnerLifecycle req a db = (inr r, db') →
  ∃ target c, audienceTarget a = Some target ∧ runners (rows db) !! TrimSpace (lq_RunnerID req) = Some r ∧
    canTransition (ru_State r) target = true ∧ tb_claims (TrimSpace (lq_RunToken req)) (broker_state (rows db)) = Some c ∧
    cl_SessionID c = TrimSpace (lq_SessionID req) ∧ TrimSpace a ∈ cl_Scopes c ∧ TrimSpace (cl_Audience c) = TrimSpace a ∧
    TrimSpace (cl_ProbeID c) = TrimSpace (lq_RunnerID req) ∧
    TrimSpace (cl_RunID c) = (if TrimSpace (ru_JobID r) =s "" then TrimSpace (lq_RunnerID req) else TrimSpace (ru_JobID r)) ∧
    ¬ tb_spent (TrimSpace (lq_RunToken req)) (broker_state (rows db)) ∧ tb_spent (TrimSpace (lq_RunToken req)) (broker_state (rows db')).
Proof.
  intros H0 Htr (target & c & d & Ha & Hr & Hc & Hne & Hv & ->)%Prepare_ok.
  assert (Hinv : tb_inv (broker_state (rows db))).
  { eapply (trace_invariant _ (λ db, tb_inv (broker_state (rows db)))); [|exact Htr|done].
    intros d1 e d2 He%call_effect Hi. by apply (effects_keep _ _ He). }
  pose proof (tb_single_use _ _ _ _ Hv Hinv eq_refl) as [Hn Hs]. cbn [lifecycle_validation vr_Token vr_Scope vr_Audience vr_RunID vr_ProbeID vr_SessionID vr_Consume rows] in Hn, Hs. rewrite TrimSpace_idem in Hn, Hs.
  pose proof (tb_bound _ _ _ _ Hv Hinv) as (Hcl & Hses & Hsc & Hau & Hrun & Hpr). cbn [lifecycle_validation vr_Token vr_Scope vr_Audience vr_RunID vr_ProbeID vr_SessionID vr_Consume rows] in Hcl, Hses, Hsc, Hau, Hrun, Hpr.
  rewrite TrimSpace_idem in Hcl, Hses, Hpr. exists target, c. split_and!; try done.
  - destruct Hau as [Hau|]; [|done]. unfold audienceTarget, normalizeAudience in Ha. by rewrite Hau in Ha.
  - by destruct Hpr.
  - destruct (String.eqb_spec (TrimSpace (ru_JobID r)) "") as [E|E]; rewrite TrimSpace_idem in Hrun; by destruct Hrun.
Qed.

(** The calls that use up a token. *)
Definition spends (token : string) (e : runner_event) : bool :=
  match e with
  | EvPrepare req _ (inr _) => TrimSpace (lq_RunToken req) =s token
  | EvValidate req (inr _) => vq_Consume req && (TrimSpace (vq_RunToken req) =s token)
  | _ => false
  end.

Lemma spend_uses token db e db' :
  manager_call db e db' → tb_inv (broker_state (rows db)) → spends token e = true →
  ¬ tb_spent token (broker_state (rows db)) ∧ tb_spent token (broker_state (rows db')).
Proof.
  intros Hc Hinv Hs. destruct Hc as [| | |db req [|c] db' E|db req a [|r] db' E|]; try done; cbn in Hs.
  - apply andb_true_iff in Hs as [Hcons <-%String.eqb_eq]. unfold ValidateRunToken in E. cbv zeta in E.
    do 3 (destruct (_ =s ""); [done|]). apply bind_inr in E as (c' & db1 & (d & Hv & ->)%wrap_inr%lift_eq & [_ ->]%ret_inr).
    pose proof (tb_single_use _ _ _ _ Hv Hinv Hcons) as Hu. cbn [lifecycle_validation vr_Token vr_Scope vr_Audience vr_RunID vr_ProbeID vr_SessionID vr_Consume rows] in Hu. by rewrite TrimSpace_idem in Hu.
  - apply String.eqb_eq in Hs as <-. apply Prepare_ok in E as (target & c & d & _ & _ & _ & _ & Hv & ->).
    pose proof (tb_single_use _ _ _ _ Hv Hinv eq_refl) as Hu. cbn [lifecycle_validation vr_Token vr_Scope vr_Audience vr_RunID vr_ProbeID vr_SessionID vr_Consume rows] in Hu. by rewrite TrimSpace_idem in Hu.
Qed.

(** C13. A token authorises one operation: in every history of the manager, with
    any number of runners, sessions and tokens, at most one lifecycle operation
    or consuming validation succeeds with a given token. *)
Theorem token_authorises_once s0 tr db token :
  tb_inv s0 → trace manager_call (init_manager s0) tr db → (count_where (spends token) tr <= 1)%nat.
Proof.
  intros H0 Htr. apply (used_at_most_once manager_call (λ db, tb_inv (broker_state (rows db))) (λ db, tb_spent token (broker_state (rows db)))
    _ (init_manager s0) _ db); [|by eauto using spend_uses|done|done].
  intros d e d' He%call_effect Hi. destruct (effects_keep _ _ He Hi). eauto.
Qed.
End safety.

(** ** The broker of the control plane *)

Section instance.
Context `{Host} (b : Broker).

#[export] Instance control_plane_broker : tokenBroker BrokerState := {|
  tb_Issue := Issue b; tb_Validate := Validate b; tb_Revoke := Revoke b |}.

Lemma broker_keeps db o db' : broker_call b db o db' → table_ok b (rows db) →
  table_ok b (rows db') ∧ ∀ t, consumed_row t (rows db) → consumed_row t (rows db').
Proof. intros Hc Hok. destruct (call_keeps b _ _ _ Hc Hok) as [Hok' He]. split; [done|]. intros t. by apply consumed_persists. Qed.

#[export] Instance control_plane_broker_laws : TokenBrokerLaws BrokerState.
Proof.
  refine {| tb_inv := table_ok b; tb_spent := consumed_row; tb_claims := λ t s, claims_of <$> List.find (has_token t) (tokens s) |}.
  - intros req db res db' E Hok. by eapply broker_keeps, Hok; apply (bc_issue b _ _ _ _ E).
  - intros req db res db' E Hok. by eapply broker_keeps, Hok; apply (bc_validate b _ _ _ _ E).
  - intros token db res db' E Hok. by eapply broker_keeps, Hok; apply (bc_revoke b _ _ _ _ E).
  - intros req db c db' E Hok Hc. apply (consume_uses b _ db (ObsValidate req (inr c)) db' Hok); [by constructor|]. cbn. by rewrite Hc, String.eqb_refl.
  - intros req db c db' E (_ & Hl & _). apply Validate_ok in E as (st & now_ & Had & -> & _ & _ & Hf). destruct Had as [[Hin _] _ _ (g & Hg & Hgs) Ha Hr Hp Hs].
    rewrite Forall_forall in Hl. pose proof (Hl _ Hin) as Hlp. destruct (lp_session _ _ Hlp) as [Hs1 Hs2]. destruct (lp_trimmed _ _ Hlp g Hg) as [_ Hg2].
    rewrite Hf. split_and!; try done; cbn; [destruct Hs; congruence|congruence].
Defined.
End instance.
