(* ===== verification/AuditLog.v ===== *)
(** * The audit log and its signed hash chain
    (src/internal/controlplane/audit/audit.go, chain.go and store.go)

    The state of a [Store] is the table [audit_events], the in-memory [Log] and
    the hash of the last entry it wrote.  TEXT columns that hold instants are the
    instants, compared by their text; JSON columns are the encoded trees ([None]
    where the value could not be encoded and the column is empty).  Every event
    is recorded in UTC. *)
From S2P Require Import Prelude GoStrings GoErrors GoTime GoSort GoSql GoJson GoCrypto.
Local Open Scope go_scope.
Local Open Scope Z_scope.

Notation EventType := string (only parsing).

Record Event := {
  ev_ID : string;
  ev_Timestamp : time;
  ev_Type : EventType;
  ev_ProbeID : string;
  ev_Actor : string;
  ev_Summary : string;
  ev_WorkspaceID : string;
  ev_Detail : value;
  ev_Before : value;
  ev_After : value;
  ev_PrevHash : string;
  ev_EntryHash : string;
}.

(** ** The in-memory log *)

Record Log := { events : list Event; maxLen : Z }.
Definition NewLog (maxLen : Z) : Log := {| events := []; maxLen := maxLen |}.

(** The slice expression that drops the oldest entries. *)
Definition append_event (evt : Event) (l : Log) : Log :=
  let es := events l ++ [evt] in
  let n := Z.of_nat (length es) in
  {| events := if (0 <? maxLen l) && (maxLen l <? n) then drop (Z.to_nat (n - maxLen l)) es else es; maxLen := maxLen l |}.

Record Filter := {
  f_ProbeID : string;
  f_Type : EventType;
  f_Since : time;
  f_Until : time;
  f_WorkspaceID : string;
  f_Cursor : string;
  f_Limit : Z;
}.

Definition log_match (f : Filter) (evt : Event) : bool :=
  negb ((f_WorkspaceID f <>s "") && (ev_WorkspaceID evt <>s f_WorkspaceID f)) &&
  negb ((f_ProbeID f <>s "") && (ev_ProbeID evt <>s f_ProbeID f)) &&
  negb ((f_Type f <>s "") && (ev_Type evt <>s f_Type f)) &&
  negb (negb (IsZero (f_Since f)) && Before (ev_Timestamp evt) (f_Since f)) &&
  negb (negb (IsZero (f_Until f)) && After (ev_Timestamp evt) (f_Until f)).

(** The loop over the events, newest first, with the result so far. *)
Fixpoint query_loop (f : Filter) (rev_events result : list Event) : list Event :=
  match rev_events with
  | [] => result
  | evt :: rest =>
      if negb (log_match f evt) then query_loop f rest result
      else
        let result := result ++ [evt] in
        if (0 <? f_Limit f) && (f_Limit f <=? Z.of_nat (length result)) then result else query_loop f rest result
  end.
Definition Log_Query (l : Log) (f : Filter) : list Event := query_loop f (rev (events l)) [].

Definition limit_filter (n : Z) : Filter :=
  {| f_ProbeID := ""; f_Type := ""; f_Since := zero_time; f_Until := zero_time; f_WorkspaceID := ""; f_Cursor := ""; f_Limit := n |}.
Definition Log_Recent (l : Log) (n : Z) : list Event := Log_Query l (limit_filter n).
Definition Log_Count (l : Log) : Z := Z.of_nat (length (events l)).

(** ** Entry hashes *)

Definition GenesisHash : string := "0000000000000000000000000000000000000000000000000000000000000000".
Definition chainAlgorithm : string := "hmac-sha256".

(** [rand] is the outcome of [rand.Read] on 32 bytes. *)
Definition GenerateChainKeyHex (rand : result string) : result string :=
  match rand with
  | inl e => inl (errorf_w "generate chain key" e)
  | inr raw => inr (hex_EncodeToString raw)
  end.

Definition hex_error_text (e : hex_error) : string :=
  match e with
  | HexErrLength => "encoding/hex: odd length hex string"
  | HexInvalidByte c =>
      let n := Ascii.nat_of_ascii c in
      let upper k := Ascii.ascii_of_nat (if (k <? 10)%nat then 48 + k else 55 + k)%nat in
      let q := String (Ascii.ascii_of_nat 39) EmptyString in
      ("encoding/hex: invalid byte: U+00" +:+ String (upper (n / 16)%nat) (String (upper (n mod 16)%nat) EmptyString) +:+
       (if (32 <=? n)%nat && (n <? 127)%nat then " " +:+ q +:+ String c q else ""))%string
  end.

Definition DecodeChainKey (raw : string) : result string :=
  let raw := TrimSpace raw in
  if raw =s "" then inl (ErrorString "chain key is required")
  else match hex_DecodeString raw with
  | inl e => inl (errorf_w "decode chain key" (ErrorString (hex_error_text e)))
  | inr decoded =>
      if Z.of_nat (String.length decoded) <? 32 then inl (ErrorString "chain key must be >= 64 hex chars (32 bytes)")
      else inr decoded
  end.

Definition normalizePrevHash (prevHash : string) : string :=
  let prevHash := TrimSpace prevHash in if prevHash =s "" then GenesisHash else prevHash.

(** [entryPayload] as a Go value, its fields in order. *)
Definition entryPayload (evt : Event) : value :=
  VStruct [ ("id", VString (TrimSpace (ev_ID evt)));
            ("timestamp", VString (if IsZero (ev_Timestamp evt) then "" else format_RFC3339Nano (ev_Timestamp evt)));
            ("type", VString (ev_Type evt));
            ("probe_id", VString (TrimSpace (ev_ProbeID evt)));
            ("workspace_id", VString (TrimSpace (ev_WorkspaceID evt)));
            ("actor", VString (TrimSpace (ev_Actor evt)));
            ("summary", VString (ev_Summary evt));
            ("detail", ev_Detail evt); ("before", ev_Before evt); ("after", ev_After evt) ].

Definition canonicalEntryPayload (evt : Event) : result string :=
  match Marshal (entryPayload evt) with
  | inl e => inl (errorf_w "marshal entry payload" e)
  | inr j => inr (render j)
  end.

Definition newline_text : string := String (Ascii.ascii_of_nat 10) EmptyString.

Definition ComputeEntryHash (prevHash : string) (evt : Event) (key : string) : result string :=
  if Z.of_nat (String.length key) =? 0 then inl (ErrorString "chain key is required")
  else match canonicalEntryPayload evt with
  | inl e => inl e
  | inr payload => inr (hex_EncodeToString (hmac_sha256 key (normalizePrevHash prevHash +:+ newline_text +:+ payload)%string))
  end.

(** ** The store *)

(** A row of [audit_events]. *)
Record Row := {
  ar_id : string;
  ar_timestamp : time;
  ar_type : string;
  ar_probe_id : string;
  ar_workspace_id : string;
  ar_actor : string;
  ar_summary : string;
  ar_detail : option json;
  ar_before : option json;
  ar_after : option json;
  ar_prev_hash : string;
  ar_entry_hash : string;
}.

Record StoreState := { table : list Row; log : Log; lastEntryHash : string }.
Record Store := { chainMode : bool; chainKey : string; memoryLimit : Z }.
Record StoreOptions := { ChainMode : bool; ChainKey : string }.
Record VerifyResult := { Valid : bool; EntriesChecked : Z; FirstInvalidAt : option string }.

Notation A := (M StoreState) (only parsing).

Section store.
Context `{Host}.

Definition encode_column (v : value) : option json := match Marshal v with inl _ => None | inr j => Some j end.
Definition decode_column (c : option json) : value := match c with None | Some JNull => VNil | Some j => Unmarshal j end.

Definition row_of_event (evt : Event) : Row :=
  {| ar_id := ev_ID evt; ar_timestamp := ev_Timestamp evt; ar_type := ev_Type evt; ar_probe_id := ev_ProbeID evt;
     ar_workspace_id := TrimSpace (ev_WorkspaceID evt); ar_actor := ev_Actor evt; ar_summary := ev_Summary evt;
     ar_detail := encode_column (ev_Detail evt); ar_before := encode_column (ev_Before evt); ar_after := encode_column (ev_After evt);
     ar_prev_hash := ev_PrevHash evt; ar_entry_hash := ev_EntryHash evt |}.

Definition scanEvent (r : Row) : Event :=
  {| ev_ID := ar_id r; ev_Timestamp := ar_timestamp r; ev_Type := ar_type r; ev_ProbeID := ar_probe_id r;
     ev_Actor := ar_actor r; ev_Summary := ar_summary r; ev_WorkspaceID := ar_workspace_id r;
     ev_Detail := decode_column (ar_detail r); ev_Before := decode_column (ar_before r); ev_After := decode_column (ar_after r);
     ev_PrevHash := ar_prev_hash r; ev_EntryHash := ar_entry_hash r |}.

Definition set_table (s : StoreState) (t : list Row) : StoreState :=
  {| table := t; log := log s; lastEntryHash := lastEntryHash s |}.
Definition put_log (l : Log) : A unit := λ db,
  (inr tt, {| rows := {| table := table (rows db); log := l; lastEntryHash := lastEntryHash (rows db) |}; ticks := ticks db |}).
Definition put_last (h : string) : A unit := λ db,
  (inr tt, {| rows := {| table := table (rows db); log := log (rows db); lastEntryHash := h |}; ticks := ticks db |}).

(** [enrichEvent]: the ID and the timestamp if they are missing. *)
Definition with_id (evt : Event) (id : string) (ts : time) : Event :=
  {| ev_ID := id; ev_Timestamp := ts; ev_Type := ev_Type evt; ev_ProbeID := ev_ProbeID evt; ev_Actor := ev_Actor evt;
     ev_Summary := ev_Summary evt; ev_WorkspaceID := ev_WorkspaceID evt; ev_Detail := ev_Detail evt; ev_Before := ev_Before evt;
     ev_After := ev_After evt; ev_PrevHash := ev_PrevHash evt; ev_EntryHash := ev_EntryHash evt |}.
Definition with_hashes (evt : Event) (prev entry : string) : Event :=
  {| ev_ID := ev_ID evt; ev_Timestamp := ev_Timestamp evt; ev_Type := ev_Type evt; ev_ProbeID := ev_ProbeID evt;
     ev_Actor := ev_Actor evt; ev_Summary := ev_Summary evt; ev_WorkspaceID := ev_WorkspaceID evt; ev_Detail := ev_Detail evt;
     ev_Before := ev_Before evt; ev_After := ev_After evt; ev_PrevHash := prev; ev_EntryHash := entry |}.

Definition enrichEvent (evt : Event) : A Event :=
  id ← (if ev_ID evt =s "" then uuid_NewString else mret (ev_ID evt));
  ts ← (if IsZero (ev_Timestamp evt) then time_now else mret (ev_Timestamp evt));
  mret (with_id evt id ts).

Definition Log_Record (evt : Event) : A unit :=
  evt ← enrichEvent evt;
  l ← gets log;
  put_log (append_event evt l).

Definition insert_or_ignore (r : Row) (t : list Row) : result Z * list Row :=
  if existsb (λ x, ar_id x =s ar_id r) t then (inr 0, t) else (inr 1, t ++ [r]).

Definition persist (evt : Event) : A bool :=
  n ← exec (λ s, let '(n, t) := insert_or_ignore (row_of_event evt) (table s) in (n, set_table s t));
  mret (0 <? n).

(** The locked part of [Record] in chain mode. *)
Definition record_signed (s : Store) (evt : Event) : A Event :=
  last ← gets lastEntryHash;
  let prevHash := if last =s "" then GenesisHash else last in
  let evt := with_hashes evt prevHash (ev_EntryHash evt) in
  match ComputeEntryHash prevHash evt (chainKey s) with
  | inr entryHash =>
      let evt := with_hashes evt prevHash entryHash in
      inserted ← attempt (persist evt);
      match inserted with
      | inr true => _ ← put_last entryHash; mret evt
      | _ => mret evt
      end
  | inl _ => _ ← ignore_error (persist evt); mret evt
  end.

Definition Record_ (s : Store) (evt : Event) : A unit :=
  evt ← enrichEvent evt;
  evt ← (if chainMode s then record_signed s evt else _ ← ignore_error (persist evt); mret evt);
  Log_Record evt.

(** *** Reading the table *)

(** [timestamp, id] ascending, as text. *)
Definition row_time (r : Row) : string := format_RFC3339Nano (ar_timestamp r).
Definition row_le (a b : Row) : bool := lex_leb (row_time a) (ar_id a) (row_time b) (ar_id b).
Arguments row_time : simpl never.
Arguments row_le : simpl never.
Definition row_ge (a b : Row) : bool := row_le b a.

(** The WHERE clause of [buildPersistedQuery]; [cursor] is the timestamp of the
    cursor row and its id, [Some None] when there is no such row. *)
Definition persisted_match (f : Filter) (cursor : option (option (time * string))) (r : Row) : bool :=
  ((f_WorkspaceID f =s "") || (ar_workspace_id r =s f_WorkspaceID f)) &&
  ((f_ProbeID f =s "") || (ar_probe_id r =s f_ProbeID f)) &&
  ((f_Type f =s "") || (ar_type r =s f_Type f)) &&
  (IsZero (f_Since f) || text_le (f_Since f) (ar_timestamp r)) &&
  (IsZero (f_Until f) || text_le (ar_timestamp r) (f_Until f)) &&
  match cursor with
  | None => true
  | Some None => false
  | Some (Some (ts, id)) =>
      text_lt (ar_timestamp r) ts ||
      ((format_RFC3339Nano (ar_timestamp r) =s format_RFC3339Nano ts) && String.ltb (ar_id r) id)
  end.

Definition buildPersistedQuery (f : Filter) : A (option (option (time * string))) :=
  if f_Cursor f =s "" then mret None
  else
    r ← attempt (query (λ s, match List.find (λ r, ar_id r =s f_Cursor f) (table s) with
                             | Some r => inr (ar_timestamp r) | None => inl (Sentinel SqlErrNoRows) end));
    match r with
    | inr ts => mret (Some (Some (ts, f_Cursor f)))
    | inl e => if errors_Is e SqlErrNoRows then mret (Some None) else fail e
    end.

Definition select_rows (f : Filter) (cursor : option (option (time * string))) (t : list Row) : list Row :=
  order_by row_ge (List.filter (persisted_match f cursor) t).

Definition QueryPersisted (f : Filter) : A (list Event) :=
  cursor ← buildPersistedQuery f;
  query (λ s, let l := select_rows f cursor (table s) in
              inr (map scanEvent (if 0 <? f_Limit f then take (Z.to_nat (f_Limit f)) l else l))).

(** The events [StreamJSONL] encodes, one per line; no limit. *)
Definition StreamJSONL (f : Filter) : A (list Event) :=
  cursor ← buildPersistedQuery f;
  query (λ s, inr (map scanEvent (select_rows f cursor (table s)))).

(** The records [StreamCSV] writes, the header first; no limit. *)
Definition csv_header (chain : bool) : list string :=
  ["id"; "timestamp"; "type"; "probe_id"; "actor"; "summary"] ++ (if chain then ["prev_hash"; "entry_hash"] else []).
Definition csv_record (chain : bool) (r : Row) : list string :=
  [ar_id r; format_RFC3339Nano (ar_timestamp r); ar_type r; ar_probe_id r; ar_actor r; ar_summary r] ++
  (if chain then [ar_prev_hash r; ar_entry_hash r] else []).
Definition StreamCSV (s : Store) (f : Filter) : A (list (list string)) :=
  cursor ← buildPersistedQuery f;
  query (λ st, inr (csv_header (chainMode s) :: map (csv_record (chainMode s)) (select_rows f cursor (table st)))).

Definition Count : A Z :=
  n ← attempt (query (λ s, inr (Z.of_nat (length (table s)))));
  match n with inr n => mret n | inl _ => gets (λ s, Log_Count (log s)) end.

Fixpoint record_all (evts : list Event) : A unit :=
  match evts with [] => mret tt | evt :: evts' => _ ← Log_Record evt; record_all evts' end.

Definition loadRecent (s : Store) (limit : Z) : A unit :=
  evts ← QueryPersisted (limit_filter limit);
  _ ← put_log (NewLog (memoryLimit s));
  record_all (rev evts).

Definition latestPersistedEntryHash : A string :=
  query (λ s, inr match order_by row_ge (List.filter (λ r, ar_entry_hash r <>s "") (table s)) with
                  | r :: _ => ar_entry_hash r | [] => EmptyString end).

(** *** Verification *)

Definition stringPtr (v : string) : option string := if TrimSpace v =s "" then None else Some v.

Definition invalid_at (checked : Z) (r : Row) : VerifyResult :=
  {| Valid := false; EntriesChecked := checked; FirstInvalidAt := stringPtr (format_RFC3339Nano (ar_timestamp r)) |}.

Fixpoint verify_loop (key : string) (signedStarted : bool) (expectedPrev : string) (checked : Z) (l : list Row) : result VerifyResult :=
  match l with
  | [] => inr {| Valid := true; EntriesChecked := checked; FirstInvalidAt := None |}
  | r :: l' =>
      let evt := scanEvent r in
      if negb ((ev_PrevHash evt <>s "") || (ev_EntryHash evt <>s "")) then
        if signedStarted then inr (invalid_at checked r) else verify_loop key signedStarted expectedPrev checked l'
      else if (ev_PrevHash evt =s "") || (ev_EntryHash evt =s "") then inr (invalid_at checked r)
      else
        let expectedPrev := if signedStarted then expectedPrev else GenesisHash in
        if ev_PrevHash evt <>s expectedPrev then inr (invalid_at checked r)
        else match ComputeEntryHash (ev_PrevHash evt) evt key with
        | inl e => inl e
        | inr expectedHash =>
            if ev_EntryHash evt <>s expectedHash then inr (invalid_at (checked + 1) r)
            else verify_loop key true (ev_EntryHash evt) (checked + 1) l'
        end
  end.

Definition VerifyChain (s : Store) : A VerifyResult :=
  if negb (chainMode s) then mret {| Valid := true; EntriesChecked := 0; FirstInvalidAt := None |}
  else query (λ st, verify_loop (chainKey s) false GenesisHash 0 (order_by row_le (table st))).

(** *** Retention and opening *)

Definition Purge (s : Store) (olderThan : duration) : A (Z * option go_error) :=
  if olderThan <? 0 then fail (ErrorString "olderThan must be >= 0")
  else
    now ← time_now;
    let old r := text_lt (ar_timestamp r) (now - olderThan) in
    deleted ← exec (λ st, (inr (Z.of_nat (count_where old (table st))),
                           set_table st (List.filter (λ r, negb (old r)) (table st))));
    if 0 <? deleted then
      loaded ← attempt (loadRecent s (memoryLimit s));
      match loaded with
      | inl e => mret (deleted, Some e)
      | inr _ =>
          if chainMode s then
            h ← attempt latestPersistedEntryHash;
            match h with
            | inl e => mret (deleted, Some e)
            | inr h => _ ← put_last h; mret (deleted, None)
            end
          else mret (deleted, None)
      end
    else mret (deleted, None).

(** [NewStoreWithOptions] on a table that exists; [rand] is what [rand.Read]
    gives when a key has to be generated. *)
Definition NewStoreWithOptions (rand : result string) (limit : Z) (opts : StoreOptions) : A Store :=
  key ← (if ChainMode opts then
           let rawKey := TrimSpace (ChainKey opts) in
           match (if rawKey =s "" then GenerateChainKeyHex rand else inr rawKey) with
           | inl e => fail e
           | inr rawKey => match DecodeChainKey rawKey with inl e => fail e | inr k => mret k end
           end
         else mret ""%string);
  let s := {| chainMode := ChainMode opts; chainKey := key; memoryLimit := limit |} in
  _ ← put_log (NewLog limit);
  _ ← put_last "";
  _ ← ignore_error (loadRecent s limit);
  _ ← (if chainMode s then h ← wrap_error (errorf_w "load last entry hash") latestPersistedEntryHash; put_last h else mret tt);
  mret s.
End store.

#[local] Opaque format_RFC3339Nano.

(** ** What verification accepts *)

Definition signed (r : Row) : bool := (ar_prev_hash r <>s "") || (ar_entry_hash r <>s "").

(** A row that continues a chain whose last hash is [prev]. *)
Definition continues (key prev : string) (r : Row) : Prop :=
  ar_prev_hash r = prev ∧ prev ≠ "" ∧ ar_entry_hash r ≠ "" ∧ ComputeEntryHash prev (scanEvent r) key = inr (ar_entry_hash r).

Fixpoint linked (key prev : string) (l : list Row) : Prop :=
  match l with [] => True | r :: l' => continues key prev r ∧ linked key (ar_entry_hash r) l' end.

(** The specification: an unsigned prefix, then a chain from the genesis hash. *)
Definition chain_ok (key : string) (l : list Row) : Prop :=
  ∃ l1 l2, l = l1 ++ l2 ∧ Forall (λ r, signed r = false) l1 ∧ linked key GenesisHash l2.

(** The same, as the loop tracks it. *)
Fixpoint loop_ok (key : string) (started : bool) (prev : string) (l : list Row) : Prop :=
  match l with
  | [] => True
  | r :: l' =>
      if signed r then continues key (if started then prev else GenesisHash) r ∧ loop_ok key true (ar_entry_hash r) l'
      else started = false ∧ loop_ok key false prev l'
  end.

Lemma continues_signed key prev r : continues key prev r → signed r = true.
Proof. intros (Hr & Hp & _). unfold signed. by rewrite Hr, (proj2 (String.eqb_neq _ _) Hp). Qed.

Lemma loop_ok_prefix key st prev l1 l2 : loop_ok key st prev (l1 ++ l2) → loop_ok key st prev l1.
Proof.
  revert st prev. induction l1 as [|x l1 IH]; intros st prev; cbn [app loop_ok]; [done|]. destruct (signed x); naive_solver.
Qed.

Lemma loop_linked key prev l : loop_ok key true prev l ↔ linked key prev l.
Proof.
  revert prev. induction l as [|r l IH]; intros prev; simpl; [done|]. rewrite <- IH.
  destruct (signed r) eqn:E; [done|]. split; [by intros [? _]|]. intros [Hc _]. apply continues_signed in Hc. congruence.
Qed.

Lemma linked_signed key prev l : linked key prev l → List.filter signed l = l.
Proof.
  revert prev. induction l as [|r l IH]; intros prev; [done|]. intros [Hc Hl]. simpl.
  rewrite (continues_signed _ _ _ Hc). f_equal. by eapply IH.
Qed.

Lemma loop_chain_ok key prev l : loop_ok key false prev l ↔ chain_ok key l.
Proof.
  unfold chain_ok. revert prev. induction l as [|r l IH]; intros prev; simpl.
  { split; [intros _; by exists [], []|done]. }
  destruct (signed r) eqn:E.
  - rewrite loop_linked. split; [intros Hl; by exists [], (r :: l)|]. intros ([|r' l1] & l2 & Heq & Hu & Hl); simpl in *.
    + subst l2. exact Hl.
    + apply Forall_cons in Hu as [Hu _]. simplify_eq. congruence.
  - rewrite IH. split.
    + intros (_ & l1 & l2 & -> & Hu & Hl). exists (r :: l1), l2. by rewrite Forall_cons.
    + intros ([|r' l1] & l2 & Heq & Hu & Hl); simpl in *.
      * subst l2. destruct Hl as [Hc _]. apply continues_signed in Hc. congruence.
      * apply Forall_cons in Hu as [_ Hu]. simplify_eq. split; [done|]. by exists l1, l2.
Qed.

Lemma unmarshal_encodes j : ∃ j', Marshal (Unmarshal j) = inr j'.
Proof.
  assert (Hseq : ∀ {A B} (f : A → result B) l, Forall (λ a, ∃ b, f a = inr b) l → ∃ bs, sequence f l = inr bs).
  { intros A B f l. induction 1 as [|a l [b Hb] _ [bs Hbs]]; simpl; [by eexists|]. rewrite Hb, Hbs. by eexists. }
  induction j as [| | | |l IH|fs IH] using json_rect'; simpl; try by eexists.
  - destruct (Hseq _ _ Marshal (map Unmarshal l)) as [bs ->]; [by rewrite Forall_map|by eexists].
  - destruct (Hseq _ _ (on_field Marshal) (map (λ kv, (kv.1, Unmarshal kv.2)) fs)) as [bs ->]; [|by eexists].
    rewrite Forall_map. eapply Forall_impl; [exact IH|]. intros [k j] [j' Hj]. unfold on_field. simpl in *. rewrite Hj. by eexists.
Qed.

Lemma decode_encodes c : ∃ j, Marshal (decode_column c) = inr j.
Proof. destruct c as [j|]; [|by exists JNull]. destruct j; solve [by exists JNull | apply unmarshal_encodes]. Qed.

(** The encoded payload, from the encodings of the three free-form fields. *)
Definition payload_tree (evt : Event) (d b a : json) : json :=
  JObj [ ("id", JStr (TrimSpace (ev_ID evt)));
         ("timestamp", JStr (if IsZero (ev_Timestamp evt) then "" else format_RFC3339Nano (ev_Timestamp evt)));
         ("type", JStr (ev_Type evt)); ("probe_id", JStr (TrimSpace (ev_ProbeID evt)));
         ("workspace_id", JStr (TrimSpace (ev_WorkspaceID evt))); ("actor", JStr (TrimSpace (ev_Actor evt)));
         ("summary", JStr (ev_Summary evt)); ("detail", d); ("before", b); ("after", a) ].

Lemma marshal_payload evt d b a :
  Marshal (ev_Detail evt) = inr d → Marshal (ev_Before evt) = inr b → Marshal (ev_After evt) = inr a →
  Marshal (entryPayload evt) = inr (payload_tree evt d b a).
Proof. intros Hd Hb Ha. unfold entryPayload. cbn [Marshal sequence]. unfold on_field. cbn [fst snd Marshal]. by rewrite Hd, Hb, Ha. Qed.

Lemma payload_encodes r : ∃ p, canonicalEntryPayload (scanEvent r) = inr p.
Proof.
  destruct (decode_encodes (ar_detail r)) as [d Hd], (decode_encodes (ar_before r)) as [b Hb], (decode_encodes (ar_after r)) as [a Ha].
  unfold canonicalEntryPayload. rewrite (marshal_payload (scanEvent r) d b a Hd Hb Ha). by eexists.
Qed.

Lemma hash_computes key prev r : key ≠ "" → ∃ h, ComputeEntryHash prev (scanEvent r) key = inr h.
Proof.
  intros Hk. unfold ComputeEntryHash. destruct (payload_encodes r) as [p ->].
  destruct key; [done|]. simpl. by eexists.
Qed.


(** The outcome of the loop from any of its states. *)
Lemma verify_loop_spec key st prev n l :
  key ≠ "" → ∃ v, verify_loop key st prev n l = inr v ∧
    (Valid v = true → loop_ok key st prev l ∧ EntriesChecked v = n + Z.of_nat (count_where signed l) ∧ FirstInvalidAt v = None) ∧
    (Valid v = false → ∃ l1 r l2, l = l1 ++ r :: l2 ∧ loop_ok key st prev l1 ∧ ¬ loop_ok key st prev (l1 ++ [r]) ∧
       FirstInvalidAt v = stringPtr (row_time r)).
Proof.
  intros Hk. revert st prev n. induction l as [|r l IH]; intros st prev n; cbn [verify_loop].
  { eexists. split; [done|]. split; [|done]. intros _. split_and!; [done|simpl; unfold count_where; simpl; lia|done]. }
  assert (Hbad : ∀ m, ¬ loop_ok key st prev [r] →
    ∃ v, inr (invalid_at m r) = (inr v : result VerifyResult) ∧
      (Valid v = true → loop_ok key st prev (r :: l) ∧ EntriesChecked v = n + Z.of_nat (count_where signed (r :: l)) ∧ FirstInvalidAt v = None) ∧
      (Valid v = false → ∃ l1 r' l2, r :: l = l1 ++ r' :: l2 ∧ loop_ok key st prev l1 ∧ ¬ loop_ok key st prev (l1 ++ [r']) ∧
         FirstInvalidAt v = stringPtr (row_time r'))).
  { intros m Hno. eexists. split; [done|]. split; [done|]. intros _. exists [], r, l. by split_and!. }
  assert (Hgood : ∀ st' prev' m, (∀ l', loop_ok key st prev (r :: l') ↔ loop_ok key st' prev' l') →
    m = n + (if signed r then 1 else 0) →
    ∃ v, verify_loop key st' prev' m l = inr v ∧
      (Valid v = true → loop_ok key st prev (r :: l) ∧ EntriesChecked v = n + Z.of_nat (count_where signed (r :: l)) ∧ FirstInvalidAt v = None) ∧
      (Valid v = false → ∃ l1 r' l2, r :: l = l1 ++ r' :: l2 ∧ loop_ok key st prev l1 ∧ ¬ loop_ok key st prev (l1 ++ [r']) ∧
         FirstInvalidAt v = stringPtr (row_time r'))).
  { intros st' prev' m Hiff ->. destruct (IH st' prev' (n + (if signed r then 1 else 0))) as (v & Hv & Ht & Hf). exists v. split; [done|]. split.
    - intros (Hl & Hc & Hn)%Ht. rewrite Hiff, count_where_cons. split_and!; [done| |done]. destruct (signed r); lia.
    - intros (l1 & r' & l2 & -> & Hok & Hno & Hfi)%Hf. exists (r :: l1), r', l2. split_and!; [done|by rewrite Hiff|by rewrite (Hiff (l1 ++ [r']))|done]. }
  change (ev_PrevHash (scanEvent r)) with (ar_prev_hash r). change (ev_EntryHash (scanEvent r)) with (ar_entry_hash r).
  change ((ar_prev_hash r <>s "") || (ar_entry_hash r <>s "")) with (signed r).
  destruct (signed r) eqn:Es; cbn [negb].
  2:{ destruct st; [|apply Hgood; [intros l'; simpl; rewrite Es; naive_solver|lia]]. apply Hbad. simpl. rewrite Es. by intros []. }
  destruct ((ar_prev_hash r =s "") || (ar_entry_hash r =s "")) eqn:Ee.
  { apply Hbad. simpl. rewrite Es. intros [(Hp & Hp' & He & _) _]. rewrite Hp in Ee.
    by rewrite (proj2 (String.eqb_neq _ _) Hp'), (proj2 (String.eqb_neq _ _) He) in Ee. }
  apply orb_false_iff in Ee as [Ep%String.eqb_neq Ee%String.eqb_neq].
  destruct (String.eqb_spec (ar_prev_hash r) (if st then prev else GenesisHash)) as [Heq|Hne]; cbn [negb].
  2:{ apply Hbad. simpl. rewrite Es. by intros [(Hp & _) _]. }
  destruct (hash_computes key (ar_prev_hash r) r Hk) as [h Hh]. rewrite Hh.
  destruct (String.eqb_spec (ar_entry_hash r) h) as [<-|Hne]; cbn [negb].
  - apply Hgood; [|done]. intros l'. simpl. rewrite Es. split; [by intros [_ ?]|]. intros Hl. split; [|done].
    unfold continues. rewrite <- Heq. by split_and!.
  - apply Hbad. simpl. rewrite Es. intros [(_ & _ & _ & Hc) _]. rewrite <- Heq, Hh in Hc. congruence.
Qed.

(** The entry hashes read in the order of the table form a chain, and nothing
    is said beyond it. *)
Section verify.
Context `{Host} (no_faults : ∀ n, sql_fault n = None) (s : Store) (chain_mode : chainMode s = true) (key_set : chainKey s ≠ "").

(** Verification is exactly the chain specification: on any table, in
    whatever way it came about, [VerifyChain] answers (it never fails while the
    database answers), it answers valid precisely when the rows by timestamp and
    id are an unsigned prefix followed by entries that each carry the hash of the
    one before and their own HMAC, it then has checked every signed row, and
    otherwise it names the timestamp of the first row that breaks the chain. *)
Theorem verify_chain_spec db :
  ∃ v, (VerifyChain s db).1 = inr v ∧
    let l := order_by row_le (table (rows db)) in
    (Valid v = true ↔ chain_ok (chainKey s) l) ∧
    (Valid v = true → EntriesChecked v = Z.of_nat (count_where signed l) ∧ FirstInvalidAt v = None) ∧
    (Valid v = false → ∃ l1 r l2, l = l1 ++ r :: l2 ∧ chain_ok (chainKey s) l1 ∧ ¬ chain_ok (chainKey s) (l1 ++ [r]) ∧
       FirstInvalidAt v = stringPtr (row_time r)).
Proof.
  unfold VerifyChain. rewrite chain_mode. cbn [negb]. rewrite (run_query no_faults). cbn [fst]. cbv zeta.
  destruct (verify_loop_spec (chainKey s) false GenesisHash 0 (order_by row_le (table (rows db))) key_set) as (v & Hv & Ht & Hf).
  exists v. split; [exact Hv|]. split_and!.
  - split; [intros (Hl & _)%Ht; by apply loop_chain_ok in Hl|].
    intros Hc. destruct (Valid v) eqn:Ev; [done|]. destruct (Hf eq_refl) as (l1 & r & l2 & Hl & _ & Hno & _). destruct Hno.
    apply loop_chain_ok with (prev := GenesisHash) in Hc. rewrite Hl in Hc. apply (loop_ok_prefix _ _ _ _ l2). by rewrite <- app_assoc.
  - intros (_ & Hc & Hn)%Ht. split; [lia|done].
  - intros (l1 & r & l2 & Hl & Hok & Hno & Hfi)%Hf. exists l1, r, l2. by rewrite <- !loop_chain_ok.
Qed.
End verify.

(** ** What recording writes *)





Section recording.
Context `{Host} (s : Store) (chain_mode : chainMode s = true) (key_set : chainKey s ≠ "").








End recording.

(** ** A recorded log verifies *)

Definition empty_log (limit : Z) : DB StoreState :=
  {| rows := {| table := []; log := NewLog limit; lastEntryHash := "" |}; ticks := 0 |}.

Lemma row_le_total a b : row_le a b = true ∨ row_le b a = true.
Proof. apply lex_total. Qed.
Lemma row_le_trans a b c : row_le a b = true → row_le b c = true → row_le a c = true.
Proof. apply lex_trans. Qed.
Lemma row_le_same a b : row_le a b = true → row_le b a = true → row_time a = row_time b ∧ ar_id a = ar_id b.
Proof. unfold row_le. apply lex_antisym. Qed.
Lemma row_le_antisym l a b : NoDup (map ar_id l) → a ∈ l → b ∈ l → row_le a b = true → row_le b a = true → a = b.
Proof.
  intros Hd [i Hi]%list_elem_of_lookup_1 [j Hj]%list_elem_of_lookup_1 Hab Hba. destruct (row_le_same a b Hab Hba) as [_ Hid].
  assert (i = j) as ->; [|congruence].
  eapply (NoDup_lookup _ i j (ar_id b) Hd); rewrite list_lookup_fmap, ?Hi, ?Hj; simpl; congruence.
Qed.



(** ** Tamper evidence *)

(** The bytes that are authenticated for a row. *)
Definition message (r : Row) : string :=
  (normalizePrevHash (ar_prev_hash r) +:+ newline_text +:+
   match canonicalEntryPayload (scanEvent r) with inr p => p | inl _ => "" end)%string.

Lemma continues_hash key prev r : continues key prev r → ar_entry_hash r = hex_EncodeToString (hmac_sha256 key (message r)).
Proof.
  intros (Hp & _ & _ & Hc). unfold ComputeEntryHash in Hc. destruct (_ =? 0); [done|]. unfold message. rewrite Hp.
  destruct (canonicalEntryPayload _); [done|]. congruence.
Qed.

(** A previous hash the chain can contain: 64 characters without space. *)
Definition hash_shaped (h : string) : Prop := String.length h = 64%nat ∧ TrimSpace h = h ∧ h ≠ "".
Lemma genesis_shaped : hash_shaped GenesisHash.
Proof. by split_and!. Qed.
Lemma entry_shaped key prev r : continues key prev r → hash_shaped (ar_entry_hash r).
Proof.
  intros Hc. rewrite (continues_hash _ _ _ Hc). split_and!.
  - by rewrite length_hex, length_hmac_sha256.
  - apply TrimSpace_no_space, hex_no_space.
  - intros Hh%(f_equal String.length). by rewrite length_hex, length_hmac_sha256 in Hh.
Qed.

Lemma str_app_inj (a b c d : string) : String.length a = String.length b → (a +:+ c)%string = (b +:+ d)%string → a = b ∧ c = d.
Proof.
  revert b. induction a as [|x a IH]; intros [|y b]; simpl; try done. intros Hlen Heq.
  change (String x (a +:+ c) = String y (b +:+ d)) in Heq. injection Heq as -> Heq.
  destruct (IH b) as [-> ->]; [lia|done|done].
Qed.

Lemma message_inj r1 r2 :
  hash_shaped (ar_prev_hash r1) → hash_shaped (ar_prev_hash r2) → message r1 = message r2 →
  ar_prev_hash r1 = ar_prev_hash r2 ∧ canonicalEntryPayload (scanEvent r1) = canonicalEntryPayload (scanEvent r2).
Proof.
  intros (Hl1 & Ht1 & Hn1) (Hl2 & Ht2 & Hn2). unfold message, normalizePrevHash. cbv zeta.
  rewrite Ht1, Ht2, (proj2 (String.eqb_neq _ _) Hn1), (proj2 (String.eqb_neq _ _) Hn2).
  intros [Hp Hm]%str_app_inj; [|congruence]. split; [done|].
  destruct (payload_encodes r1) as [p1 E1], (payload_encodes r2) as [p2 E2]. rewrite E1, E2 in *.
  apply str_app_inj in Hm as [_ ->]; done.
Qed.

(** Two rows whose messages differ and whose MACs under the key agree. *)
Definition mac_collision (key : string) (r1 r2 : Row) : Prop :=
  message r1 ≠ message r2 ∧ hmac_sha256 key (message r1) = hmac_sha256 key (message r2).

Lemma hex_inj a b : hex_EncodeToString a = hex_EncodeToString b → a = b.
Proof. intros Hh. pose proof (hex_roundtrip a) as Ha. rewrite Hh, hex_roundtrip in Ha. congruence. Qed.

(** Same payload and same hash, row by row. *)
Definition same_entry (r1 r2 : Row) : Prop :=
  ar_entry_hash r1 = ar_entry_hash r2 ∧ ar_prev_hash r1 = ar_prev_hash r2 ∧
  canonicalEntryPayload (scanEvent r1) = canonicalEntryPayload (scanEvent r2).

Lemma linked_same key l1 l2 p1 p2 :
  hash_shaped p1 → hash_shaped p2 → linked key p1 l1 → linked key p2 l2 → length l1 = length l2 →
  ar_entry_hash <$> last l1 = ar_entry_hash <$> last l2 →
  (Forall2 same_entry l1 l2 ∧ (l1 ≠ [] → p1 = p2)) ∨
  ∃ i r1 r2, l1 !! i = Some r1 ∧ l2 !! i = Some r2 ∧ mac_collision key r1 r2.
Proof.
  revert l2 p1 p2. induction l1 as [|r1 l1 IH]; intros [|r2 l2] p1 p2 Hp1 Hp2 Hl1 Hl2 Hlen Hlast; try done.
  { left. by split; [constructor|]. }
  destruct Hl1 as [Hc1 Hl1], Hl2 as [Hc2 Hl2].
  assert (Hhere : ar_entry_hash r1 = ar_entry_hash r2 →
    (same_entry r1 r2 ∧ p1 = p2) ∨ mac_collision key r1 r2).
  { intros Heq. pose proof (continues_hash _ _ _ Hc1) as H1. pose proof (continues_hash _ _ _ Hc2) as H2.
    destruct (decide (message r1 = message r2)) as [Hm|Hm]; [left|right; split; [done|apply hex_inj; congruence]].
    destruct Hc1 as (Hr1 & _), Hc2 as (Hr2 & _). rewrite <- Hr1 in Hp1. rewrite <- Hr2 in Hp2.
    destruct (message_inj r1 r2 Hp1 Hp2 Hm) as [Hprev Hpay]. split; [by split_and!|congruence]. }
  simpl in Hlen. rewrite !last_cons in Hlast.
  assert (Hnext : ar_entry_hash r1 = ar_entry_hash r2 ∧ Forall2 same_entry l1 l2 ∨
    ∃ i a b, l1 !! i = Some a ∧ l2 !! i = Some b ∧ mac_collision key a b).
  { destruct (IH l2 (ar_entry_hash r1) (ar_entry_hash r2)) as [[Hf Hne]|Hcol]; try done; [by eapply entry_shaped|by eapply entry_shaped|lia| | |by right].
    { destruct (last l1) eqn:E1, (last l2) eqn:E2; simpl in *; try done.
      - apply last_None in E2 as ->. apply last_Some in E1 as [? ->]. rewrite length_app in Hlen. simpl in Hlen. lia.
      - apply last_None in E1 as ->. apply last_Some in E2 as [? ->]. rewrite length_app in Hlen. simpl in Hlen. lia. }
    left. split; [|done]. destruct l1 as [|x l1], l2; try done; [simpl in Hlast; congruence|by apply Hne]. }
  destruct Hnext as [[Heq Hf]|(i & a & b & Ha & Hb & Hcol)]; [|right; by exists (S i), a, b].
  destruct (Hhere Heq) as [[Hs ->]|Hcol]; [left; split; [by constructor|done]|right; by exists 0%nat, r1, r2].
Qed.

(** The signed rows in the order verification reads them. *)
Definition entries `{Host} (st : StoreState) : list Row := List.filter signed (order_by row_le (table st)).

Lemma chain_entries key l : chain_ok key l → linked key GenesisHash (List.filter signed l).
Proof.
  intros (u & l' & -> & Hu & Hl). rewrite List.filter_app, (linked_signed _ _ _ Hl).
  replace (List.filter signed u) with (@nil Row); [done|]. symmetry. clear -Hu. induction Hu as [|r u Hr _ IH]; simpl; [done|]. by rewrite Hr.
Qed.

Section tampering.
Context `{Host} (s : Store) (chain_mode : chainMode s = true) (key_set : chainKey s ≠ "").

Lemma verified_entries db v db' :
  VerifyChain s db = (inr v, db') → Valid v = true →
  linked (chainKey s) GenesisHash (entries (rows db)) ∧ EntriesChecked v = Z.of_nat (length (entries (rows db))).
Proof.
  unfold VerifyChain. rewrite chain_mode. cbn [negb]. unfold query. destruct (sql_fault _); [done|]. intros [= Hv _] Hval.
  destruct (verify_loop_spec (chainKey s) false GenesisHash 0 (order_by row_le (table (rows db))) key_set) as (v' & Hv' & Ht & _).
  rewrite Hv in Hv'. injection Hv' as <-. destruct (Ht Hval) as (Hl & Hc & _). split; [|done].
  by apply chain_entries, (loop_chain_ok _ GenesisHash).
Qed.

(** C12. The chain is tamper evident.  Take two states of the log that both verify
    under the same key, with equally many signed entries and the same final entry
    hash.  Then either every signed entry is the same in both, with the same
    payload (id, time, type, probe, workspace, actor, summary, detail, before,
    after) and the same hashes, or the two tables exhibit, at one position, two
    different messages with the same HMAC: changing, inserting, removing or
    reordering entries without being noticed takes a forged MAC. *)
Theorem tamper_evident db1 v1 db1' db2 v2 db2' :
  VerifyChain s db1 = (inr v1, db1') → VerifyChain s db2 = (inr v2, db2') → Valid v1 = true → Valid v2 = true →
  EntriesChecked v1 = EntriesChecked v2 →
  ar_entry_hash <$> last (entries (rows db1)) = ar_entry_hash <$> last (entries (rows db2)) →
  Forall2 same_entry (entries (rows db1)) (entries (rows db2)) ∨
  ∃ i r1 r2, entries (rows db1) !! i = Some r1 ∧ entries (rows db2) !! i = Some r2 ∧ mac_collision (chainKey s) r1 r2.
Proof.
  intros H1 H2 Hv1 Hv2 Hn Hlast. destruct (verified_entries _ _ _ H1 Hv1) as [Hl1 Hc1], (verified_entries _ _ _ H2 Hv2) as [Hl2 Hc2].
  destruct (linked_same (chainKey s) _ _ _ _ genesis_shaped genesis_shaped Hl1 Hl2) as [[Hf _]|Hc]; [lia|done|by left|by right].
Qed.
End tampering.

(** ** Reading the log back *)

(** The in-memory log keeps the newest [maxLen] events. *)
Lemma append_event_spec evt l :
  events (append_event evt l) =
    (if 0 <? maxLen l then drop (length (events l ++ [evt]) - Z.to_nat (maxLen l)) (events l ++ [evt]) else events l ++ [evt]).
Proof.
  unfold append_event. cbv zeta. cbn [events]. destruct (Z.ltb_spec 0 (maxLen l)) as [Hm|Hm]; [|done]. cbn [andb].
  destruct (Z.ltb_spec (maxLen l) (Z.of_nat (length (events l ++ [evt])))).
  - f_equal. lia.
  - replace (length (events l ++ [evt]) - Z.to_nat (maxLen l))%nat with 0%nat by lia. done.
Qed.

Lemma query_loop_spec f l acc :
  (f_Limit f <= 0 ∨ Z.of_nat (length acc) < f_Limit f) →
  query_loop f l acc =
    acc ++ (if 0 <? f_Limit f then take (Z.to_nat (f_Limit f) - length acc) (List.filter (log_match f) l) else List.filter (log_match f) l).
Proof.
  revert acc. induction l as [|e l IH]; intros acc Hlim; cbn [query_loop List.filter].
  { destruct (0 <? f_Limit f); by rewrite ?take_nil, app_nil_r. }
  destruct (log_match f e); cbn [negb]; [|by apply IH].
  destruct (Z.ltb_spec 0 (f_Limit f)) as [Hp|Hp]; cbn [andb].
  - destruct (Z.leb_spec (f_Limit f) (Z.of_nat (length (acc ++ [e])))) as [Hle|Hgt]; rewrite length_app in *; simpl length in *.
    + replace (Z.to_nat (f_Limit f) - length acc)%nat with 1%nat by lia. done.
    + rewrite IH by (rewrite length_app; simpl; lia). replace (0 <? f_Limit f) with true by lia. rewrite <- app_assoc, length_app. simpl.
      replace (Z.to_nat (f_Limit f) - length acc)%nat with (S (Z.to_nat (f_Limit f) - (length acc + 1)))%nat by lia. done.
  - rewrite IH by lia. replace (0 <? f_Limit f) with false by lia. by rewrite <- app_assoc.
Qed.

(** Queries of the in-memory log: [Query] returns the matching events of the
    log, newest first, cut at the limit when there is one. *)
Theorem log_query_spec l f :
  Log_Query l f =
    (if 0 <? f_Limit f then take (Z.to_nat (f_Limit f)) else id) (List.filter (log_match f) (rev (events l))).
Proof.
  unfold Log_Query. rewrite query_loop_spec by (simpl; lia). simpl. rewrite Nat.sub_0_r. by destruct (0 <? f_Limit f).
Qed.

(** *** Pages *)

Definition with_cursor (f : Filter) (id : string) : Filter :=
  {| f_ProbeID := f_ProbeID f; f_Type := f_Type f; f_Since := f_Since f; f_Until := f_Until f; f_WorkspaceID := f_WorkspaceID f;
     f_Cursor := id; f_Limit := f_Limit f |}.

Lemma cursor_before r c :
  text_lt (ar_timestamp r) (ar_timestamp c) ||
    ((format_RFC3339Nano (ar_timestamp r) =s format_RFC3339Nano (ar_timestamp c)) && String.ltb (ar_id r) (ar_id c)) =
  row_le r c && negb (row_le c r).
Proof.
  unfold row_le, lex_leb, text_lt. fold (row_time r) (row_time c). generalize (row_time r) (row_time c) (ar_id r) (ar_id c). intros a b x y.
  change (match String.compare a b with Lt => true | _ => false end) with (String.ltb a b). rewrite (String.eqb_sym b a), !ltb_leb.
  assert (Hle : ∀ u v : string, (u =s v) = false → negb (String.leb v u) = String.leb u v).
  { intros u v Huv%String.eqb_neq. destruct (String.leb u v) eqn:E1, (String.leb v u) eqn:E2; try done.
    - destruct Huv. by apply String.leb_antisym.
    - destruct (String.leb_total u v); congruence. }
  destruct (String.eqb_spec a b) as [->|Hab]; cbn [negb andb].
  - rewrite andb_false_r. cbn [orb]. destruct (String.eqb_spec x y) as [->|Hxy]; simpl; [by destruct (String.leb y y)|].
    rewrite Hle by (by apply String.eqb_neq). by destruct (String.leb x y).
  - rewrite Hle by (by apply String.eqb_neq). destruct (String.leb a b); done.
Qed.

Lemma filter_after l k c :
  NoDup (map ar_id l) → StronglySorted (λ a b, row_ge a b = true) l → l !! k = Some c →
  List.filter (λ r, row_le r c && negb (row_le c r)) l = drop (S k) l.
Proof.
  intros Hd Hs. revert k. induction Hs as [|x l Hs IH Hx]; intros k Hk; [done|]. simpl in Hd. apply NoDup_cons in Hd as [Hxi Hd].
  assert (Hne : ∀ y, y ∈ l → ¬ (row_le x y = true ∧ row_le y x = true)).
  { intros y Hy [H1 H2]. destruct (row_le_same x y H1 H2) as [_ Hid]. destruct Hxi.
    rewrite Hid. apply list_elem_of_In, in_map, list_elem_of_In, Hy. }
  rewrite Forall_forall in Hx. unfold row_ge in Hx. destruct k as [|k]; cbn [lookup list_lookup List.filter drop] in Hk |- *.
  - injection Hk as ->. assert (row_le c c = true) as -> by (destruct (row_le_total c c); done). cbn [negb andb]. rewrite drop_0.
    apply List.forallb_filter_id, forallb_forall. intros y Hy%list_elem_of_In. rewrite (Hx y Hy). cbn [andb].
    apply negb_true_iff. destruct (row_le c y) eqn:E; [|done]. by destruct (Hne y Hy); auto.
  - assert (Hc : c ∈ l) by (by eapply list_elem_of_lookup_2). rewrite (Hx c Hc). cbn [negb].
    rewrite andb_false_r. by apply IH.
Qed.

Section pages.
Context `{HostLaws} (no_faults : ∀ n, sql_fault n = None).

Lemma select_after f k c t :
  NoDup (map ar_id t) → select_rows f None t !! k = Some c →
  select_rows f (Some (Some (ar_timestamp c, ar_id c))) t = drop (S k) (select_rows f None t).
Proof.
  intros Hd Hk.
  assert (Hdf : ∀ p, NoDup (map ar_id (List.filter p t))).
  { intros p. clear -Hd. induction t as [|r t IH]; simpl in *; [constructor|]. apply NoDup_cons in Hd as [Hr Hd].
    destruct (p r); [|by apply IH]. simpl. constructor; [|by apply IH]. intros (x & Hx & Hin)%list_elem_of_In%in_map_iff.
    apply List.filter_In in Hin as [Hin _]. destruct Hr. rewrite <- Hx. by apply list_elem_of_In, in_map. }
  assert (Hsort : ∀ l, StronglySorted (λ a b, row_ge a b = true) (order_by row_ge l)).
  { intros l. apply order_by_sorted; unfold row_ge; [intros x y; apply row_le_total|intros x y z H1 H2; by eapply row_le_trans]. }
  assert (Hfull : NoDup (map ar_id (select_rows f None t))).
  { unfold select_rows. rewrite (Permutation_map ar_id (order_by_perm row_ge _)). apply Hdf. }
  rewrite <- (filter_after _ k c Hfull (Hsort _) Hk).
  assert (Hsplit : List.filter (persisted_match f (Some (Some (ar_timestamp c, ar_id c)))) t =
    List.filter (λ r, row_le r c && negb (row_le c r)) (List.filter (persisted_match f None) t)).
  { clear. induction t as [|r t IH]; [done|]. cbn [List.filter].
    assert (Hr : persisted_match f (Some (Some (ar_timestamp c, ar_id c))) r = persisted_match f None r && (row_le r c && negb (row_le c r))).
    { unfold persisted_match. by rewrite cursor_before, andb_true_r. }
    rewrite Hr. destruct (persisted_match f None r); cbn [andb List.filter]; [|done]. destruct (row_le r c && negb (row_le c r)); by rewrite IH. }
  unfold select_rows. rewrite Hsplit.
  apply (StronglySorted_unique_strong (λ a b, row_ge a b = true)).
  - unfold row_ge. intros a b Ha Hb H1 H2. fold row_ge in Ha, Hb. rewrite order_by_perm in Ha. eapply (row_le_antisym (List.filter (persisted_match f None) t)); [apply Hdf| | |exact H2|exact H1].
    + apply list_elem_of_In, List.filter_In in Ha as [Ha _]. by apply list_elem_of_In.
    + apply list_elem_of_In, List.filter_In in Hb as [Hb _]. apply list_elem_of_In in Hb. by rewrite order_by_perm in Hb.
  - apply Hsort.
  - clear -Hsort. specialize (Hsort (List.filter (persisted_match f None) t)). induction Hsort as [|x l Hs IH Hx]; [constructor|].
    cbn [List.filter]. destruct (_ && _); [|done]. constructor; [done|]. rewrite Forall_forall in *. intros y Hy.
    apply list_elem_of_In, List.filter_In in Hy as [Hy%list_elem_of_In _]. by apply Hx.
  - rewrite order_by_perm. apply filter_bool_perm. by rewrite order_by_perm.
Qed.

Lemma select_with_cursor f id cursor t : select_rows (with_cursor f id) cursor t = select_rows f cursor t.
Proof. unfold select_rows. apply (f_equal (order_by row_ge)), List.filter_ext. intros r. unfold persisted_match. reflexivity. Qed.

Lemma find_row t r : NoDup (map ar_id t) → r ∈ t → List.find (λ x, ar_id x =s ar_id r) t = Some r.
Proof. apply (find_by_key ar_id). Qed.

(** Cursors page through the log without gaps or repeats: with the id of the
    [k]-th event of a filtered listing as cursor, the query continues with the
    events [k+1], [k+2], ... of that listing, up to the limit. *)
Theorem cursor_continues f k c db :
  NoDup (map ar_id (table (rows db))) → f_Cursor f = "" → select_rows f None (table (rows db)) !! k = Some c → ar_id c ≠ "" →
  (QueryPersisted (with_cursor f (ar_id c)) db).1 =
    inr (map scanEvent ((if 0 <? f_Limit f then take (Z.to_nat (f_Limit f)) else id)
                          (drop (S k) (select_rows f None (table (rows db)))))).
Proof.
  intros Hd Hf Hk Hne. unfold QueryPersisted, buildPersistedQuery. cbn [f_Cursor with_cursor f_Limit].
  rewrite (proj2 (String.eqb_neq _ _) Hne). unfold mbind, M_bind, attempt. rewrite (run_query no_faults).
  assert (Hc : c ∈ table (rows db)).
  { apply list_elem_of_lookup_2 in Hk. unfold select_rows in Hk. rewrite order_by_perm in Hk.
    apply list_elem_of_In, List.filter_In in Hk as [Hk _]. by apply list_elem_of_In. }
  rewrite (find_row _ _ Hd Hc). cbv iota beta. unfold mret, M_ret. rewrite (run_query no_faults). cbn [fst rows tick].
  rewrite select_with_cursor, (select_after f k c _ Hd Hk). do 2 f_equal. by destruct (0 <? f_Limit f).
Qed.
End pages.

(** ** Keys *)

(** A generated key is a usable key: whatever 32 bytes the random source
    gives, [DecodeChainKey] accepts what [GenerateChainKeyHex] prints, and yields
    those bytes. *)
Theorem chain_key_roundtrip raw :
  String.length raw = 32%nat → ∃ k, GenerateChainKeyHex (inr raw) = inr k ∧ DecodeChainKey k = inr raw.
Proof.
  intros Hl. eexists. split; [done|]. unfold DecodeChainKey. rewrite (TrimSpace_no_space _ (hex_no_space raw)), hex_roundtrip, Hl.
  destruct (hex_EncodeToString raw) eqn:E; [|done]. apply (f_equal String.length) in E. by rewrite length_hex, Hl in E.
Qed.

(** ** Concrete logs *)

Module AuditExamples.
#[export] Existing Instances ExampleHost.host ExampleHost.host_laws.

Definition key1 : string := "0123456789abcdef0123456789abcdef".
Definition key2 : string := "fedcba9876543210fedcba9876543210".
Definition store1 : Store := {| chainMode := true; chainKey := key1; memoryLimit := 100 |}.
Definition event (id : string) (ts : time) : Event :=
  {| ev_ID := id; ev_Timestamp := ts; ev_Type := "command.sent"; ev_ProbeID := "p-1"; ev_Actor := "ops"; ev_Summary := "uptime";
     ev_WorkspaceID := ""; ev_Detail := VMap [("level", VString "observe"); ("exit", VInt 0)]; ev_Before := VNil; ev_After := VNil;
     ev_PrevHash := ""; ev_EntryHash := "" |}.
Definition record_events (l : list Event) : DB StoreState :=
  foldl (λ db evt, (Record_ store1 evt db).2) (empty_log 100) l.
Definition one : DB StoreState := (Record_ store1 (event "a" (1 * Second)) (empty_log 100)).2.
Definition two : DB StoreState := (Record_ store1 (event "b" (1000 * Second)) one).2.
Definition verdict (s : Store) (db : DB StoreState) : option (bool * Z * option string) :=
  match (VerifyChain s db).1 with inr v => Some (Valid v, EntriesChecked v, FirstInvalidAt v) | inl _ => None end.

Definition row_at (i : nat) : Row := default (row_of_event (event "" 0)) (table (rows two) !! i).
Lemma two_rows : table (rows two) = [row_at 0; row_at 1].
Proof. vm_compute. reflexivity. Qed.
(** A detail that is a struct with the fields [name] and [id]. *)
Definition struct_event : Event :=
  let e := event "a" (1 * Second) in
  {| ev_ID := ev_ID e; ev_Timestamp := ev_Timestamp e; ev_Type := ev_Type e; ev_ProbeID := ev_ProbeID e; ev_Actor := ev_Actor e;
     ev_Summary := ev_Summary e; ev_WorkspaceID := ""; ev_Detail := VStruct [("name", VString "web"); ("id", VInt 1)]; ev_Before := VNil;
     ev_After := VNil; ev_PrevHash := ""; ev_EntryHash := "" |}.
End AuditExamples.
Import AuditExamples.

(** The retention purge breaks the chain.  [VerifyChain] expects the first
    signed row to continue the genesis hash, and [Purge] deletes the oldest rows:
    after an ordinary purge an untouched log is reported as tampered with. *)
Theorem purge_breaks_verification :
  verdict store1 two = Some (true, 2, None) ∧
  (Purge store1 0 two).1 = inr (1, None) ∧
  verdict store1 (Purge store1 0 two).2 = Some (false, 0, Some "1970-01-01T00:16:40Z").
Proof. vm_compute. auto. Qed.

(** The chain is written in the order of recording and verified in the order
    of the timestamps.  An event that carries a later time than the events
    recorded after it, as the job scheduler's retry events do, makes the log
    verify as tampered with. *)
Theorem late_timestamp_breaks_verification :
  verdict store1 (record_events [event "retry" (2000 * Second); event "next" (1000 * Second)]) =
    Some (false, 0, Some "1970-01-01T00:16:40Z").
Proof. vm_compute. reflexivity. Qed.

(** The hash is computed over the value given and verified over the one read back:
    a struct, whose fields encode in the order of their declaration, is read back
    as a map, whose fields encode sorted. *)
Theorem struct_detail_breaks_verification :
  verdict store1 (record_events [struct_event]) = Some (false, 1, Some "1970-01-01T00:00:01Z").
Proof. vm_compute. reflexivity. Qed.

(** A chain key that is generated at start-up and kept nowhere: after a restart
    the new key rejects the entries of the old one. *)
Theorem generated_key_forgotten :
  verdict {| chainMode := true; chainKey := key2; memoryLimit := 100 |} two = Some (false, 1, Some "1970-01-01T00:00:01Z").
Proof. vm_compute. reflexivity. Qed.

Lemma verify_chain_spec_witness : ∃ v, (VerifyChain store1 two).1 = inr v.
Proof.
  destruct (@verify_chain_spec ExampleHost.host (λ _, eq_refl) store1 eq_refl (λ H, ltac:(discriminate H)) two) as (v & Hv & _).
  exists v. exact Hv.
Defined.


Lemma tamper_evident_witness : Forall2 same_entry (entries (rows two)) (entries (rows two)) ∨
  ∃ i r1 r2, entries (rows two) !! i = Some r1 ∧ entries (rows two) !! i = Some r2 ∧ mac_collision key1 r1 r2.
Proof.
  apply (tamper_evident store1 eq_refl (λ H, ltac:(discriminate H)) two {| Valid := true; EntriesChecked := 2; FirstInvalidAt := None |}
    (VerifyChain store1 two).2 two {| Valid := true; EntriesChecked := 2; FirstInvalidAt := None |} (VerifyChain store1 two).2);
    vm_compute; reflexivity.
Defined.

Lemma cursor_continues_witness :
  (QueryPersisted (with_cursor (limit_filter 5) (ar_id (row_at 1))) two).1 = inr [scanEvent (row_at 0)].
Proof.
  rewrite (@cursor_continues ExampleHost.host ExampleHost.host_laws (λ _, eq_refl) (limit_filter 5) 0
    (row_at 1) two).
  - vm_compute. reflexivity.
  - rewrite two_rows. change (NoDup ["a"; "b"]). repeat constructor; rewrite ?elem_of_cons, ?elem_of_nil; naive_solver.
  - reflexivity.
  - vm_compute. reflexivity.
  - vm_compute. discriminate.
Defined.

Lemma chain_key_roundtrip_witness : ∃ k, GenerateChainKeyHex (inr key1) = inr k ∧ DecodeChainKey k = inr key1.
Proof. apply (chain_key_roundtrip key1). reflexivity. Defined.
