(* ===== verification/JobRetry.v ===== *)
(** * Scheduled jobs: data and retry policies
    (src/internal/controlplane/jobs/types.go and retry.go)

    [time.ParseDuration] is the argument [ParseDuration]; the theorems hold for
    every parser.  An int64 product that float64 arithmetic pushes out of range
    converts as [overflow] says. *)
From Stdlib Require Import SpecFloat.
From S2P Require Import Prelude GoStrings GoErrors GoTime GoFloat.
Local Open Scope go_scope.
Local Open Scope Z_scope.

Definition TargetKindProbe : string := "probe".
Definition TargetKindTag : string := "tag".
Definition TargetKindAll : string := "all".

Definition RunStatusQueued : string := "queued".
Definition RunStatusPending : string := "pending".
Definition RunStatusRunning : string := "running".
Definition RunStatusSuccess : string := "success".
Definition RunStatusFailed : string := "failed".
Definition RunStatusCanceled : string := "canceled".
Definition RunStatusDenied : string := "denied".

Record Target := { Kind : string; Value : string }.

Record RetryPolicy := {
  rp_MaxAttempts : Z;
  rp_InitialBackoff : string;
  rp_Multiplier : float64;
  rp_MaxBackoff : string;
}.
Definition no_retry_policy : RetryPolicy :=
  {| rp_MaxAttempts := 0; rp_InitialBackoff := ""; rp_Multiplier := f_zero; rp_MaxBackoff := "" |}.

Record Job := {
  jb_ID : string;
  jb_WorkspaceID : string;
  jb_Name : string;
  jb_Command : string;
  jb_Schedule : string;
  jb_Target : Target;
  jb_RetryPolicy : option RetryPolicy;
  jb_Enabled : bool;
  jb_CreatedAt : time;
  jb_UpdatedAt : time;
  jb_LastRunAt : option time;
  jb_LastStatus : string;
}.

(** The admission rationale is JSON text. *)
Record JobRun := {
  r_ID : string;
  r_WorkspaceID : string;
  r_JobID : string;
  r_ProbeID : string;
  r_RequestID : string;
  r_ExecutionID : string;
  r_Attempt : Z;
  r_MaxAttempts : Z;
  r_RetryScheduledAt : option time;
  r_StartedAt : time;
  r_EndedAt : option time;
  r_Status : string;
  r_AdmissionDecision : string;
  r_AdmissionReason : string;
  r_AdmissionRationale : string;
  r_ExitCode : option Z;
  r_Output : string;
}.

(** ** Resolving a policy *)

Record resolvedRetryPolicy := {
  MaxAttempts : Z;
  InitialBackoff : duration;
  Multiplier : float64;
  MaxBackoff : duration;
}.

Definition defaultRetryMaxAttempts : Z := 1.
Definition defaultRetryInitialBackoff : duration := 5 * Second.
Definition defaultRetryMultiplier : float64 := f_two.

Definition defaultResolvedRetryPolicy : resolvedRetryPolicy :=
  {| MaxAttempts := defaultRetryMaxAttempts; InitialBackoff := defaultRetryInitialBackoff;
     Multiplier := defaultRetryMultiplier; MaxBackoff := 0 |}.

Section retry.
Context (ParseDuration : string → option duration).

Definition err_attempts : go_error := ErrorString "retry_policy.max_attempts must be >= 1".
Definition err_initial : go_error := ErrorString "retry_policy.initial_backoff must be a positive duration".
Definition err_multiplier : go_error := ErrorString "retry_policy.multiplier must be >= 1".
Definition err_max : go_error := ErrorString "retry_policy.max_backoff must be a positive duration".

(** A duration field: the current value when the text is empty. *)
Definition duration_field (text : string) (current : duration) (e : go_error) : result duration :=
  if TrimSpace text =s "" then inr current
  else match ParseDuration (TrimSpace text) with
  | Some d => if d <=? 0 then inl e else inr d
  | None => inl e
  end.

Definition check_resolved (base : resolvedRetryPolicy) : result resolvedRetryPolicy :=
  if MaxAttempts base <=? 0 then inl err_attempts
  else if InitialBackoff base <=? 0 then inl err_initial
  else if SFltb (Multiplier base) f_one then inl err_multiplier
  else if MaxBackoff base <? 0 then inl (ErrorString "retry_policy.max_backoff must be >= 0")
  else inr base.

Definition applyRetryPolicyOverrides (base : resolvedRetryPolicy) (policy : option RetryPolicy) : result resolvedRetryPolicy :=
  match policy with
  | None => inr base
  | Some p =>
      if rp_MaxAttempts p <? 0 then inl err_attempts
      else
        let attempts := if 0 <? rp_MaxAttempts p then rp_MaxAttempts p else MaxAttempts base in
        match duration_field (rp_InitialBackoff p) (InitialBackoff base) err_initial with
        | inl e => inl e
        | inr initial =>
            if SFltb (rp_Multiplier p) f_zero then inl err_multiplier
            else if SFltb f_zero (rp_Multiplier p) && SFltb (rp_Multiplier p) f_one then inl err_multiplier
            else
              let multiplier := if SFltb f_zero (rp_Multiplier p) then rp_Multiplier p else Multiplier base in
              match duration_field (rp_MaxBackoff p) (MaxBackoff base) err_max with
              | inl e => inl e
              | inr max => check_resolved {| MaxAttempts := attempts; InitialBackoff := initial; Multiplier := multiplier; MaxBackoff := max |}
              end
        end
  end.

Definition resolveRetryPolicy (jobPolicy : option RetryPolicy) (global : RetryPolicy) : result resolvedRetryPolicy :=
  match applyRetryPolicyOverrides defaultResolvedRetryPolicy (Some global) with
  | inl e => inl e
  | inr base => applyRetryPolicyOverrides base jobPolicy
  end.

Definition validateRetryPolicy (policy : option RetryPolicy) : option go_error :=
  match policy with
  | None => None
  | Some _ => match resolveRetryPolicy policy no_retry_policy with inl e => Some e | inr _ => None end
  end.
End retry.

(** The delay before the attempt that follows a failed one. *)
Definition nextRetryDelay (overflow : float64 → Z) (p : resolvedRetryPolicy) (failedAttempt : Z) : duration :=
  let failedAttempt := if failedAttempt <? 1 then 1 else failedAttempt in
  let multiplier := Pow (Multiplier p) (failedAttempt - 1) in
  let delay := int64_of_float overflow (fmul (float64_of_int (InitialBackoff p)) multiplier) in
  let delay := if delay <=? 0 then InitialBackoff p else delay in
  if (0 <? MaxBackoff p) && (MaxBackoff p <? delay) then MaxBackoff p else delay.

(** ** Properties *)

(** A policy the scheduler can run with. *)
Record sound_policy (p : resolvedRetryPolicy) : Prop := {
  sp_attempts : 1 <= MaxAttempts p;
  sp_initial : 0 < InitialBackoff p;
  sp_multiplier : SFltb (Multiplier p) f_one = false;
  sp_max : 0 <= MaxBackoff p;
}.

Lemma check_resolved_sound base p : check_resolved base = inr p → sound_policy p.
Proof.
  unfold check_resolved. destruct (Z.leb_spec (MaxAttempts base) 0); [done|]. destruct (Z.leb_spec (InitialBackoff base) 0); [done|].
  destruct (SFltb (Multiplier base) f_one) eqn:E; [done|]. destruct (Z.ltb_spec (MaxBackoff base) 0); [done|].
  intros [= <-]. constructor; auto; lia.
Qed.

Section soundness.
Context (ParseDuration : string → option duration).

Lemma overrides_sound base policy p :
  sound_policy base → applyRetryPolicyOverrides ParseDuration base policy = inr p → sound_policy p.
Proof.
  intros Hb. unfold applyRetryPolicyOverrides. destruct policy as [rp|]; [|by intros [= <-]].
  repeat (case_match; try done); apply check_resolved_sound.
Qed.

Lemma resolve_sound jobPolicy global p : resolveRetryPolicy ParseDuration jobPolicy global = inr p → sound_policy p.
Proof.
  unfold resolveRetryPolicy. intros Hr. destruct (applyRetryPolicyOverrides _ _ (Some global)) as [|base] eqn:E; [done|].
  eapply overrides_sound; [|exact Hr]. eapply overrides_sound; [|exact E]. by constructor.
Qed.

(** Retry policies that resolve are sound, and retry delays are bounded:
    whatever a job and the global configuration say, a policy that resolves has
    at least one attempt and a positive initial backoff, and every delay it
    computes, for every failed attempt and even where the exponential overflows,
    is positive and, when a maximal backoff is set, at most that. *)
Theorem retry_delay_bounded overflow jobPolicy global p n :
  resolveRetryPolicy ParseDuration jobPolicy global = inr p →
  sound_policy p ∧ 0 < nextRetryDelay overflow p n ∧ (0 < MaxBackoff p → nextRetryDelay overflow p n <= MaxBackoff p).
Proof.
  intros Hs%resolve_sound. split; [done|]. destruct Hs as [_ Hi _ Hm]. unfold nextRetryDelay. cbv zeta.
  set (d := int64_of_float _ _). destruct (Z.leb_spec d 0), (Z.ltb_spec 0 (MaxBackoff p)); cbn [andb];
    repeat match goal with |- context [?a <? ?b] => destruct (Z.ltb_spec a b) end; lia.
Qed.
End soundness.

Module RetryExamples.
Definition seconds (s : string) : option duration := if s =s "5s" then Some (5 * Second) else if s =s "1h" then Some Hour else None.
Definition doubling : RetryPolicy :=
  {| rp_MaxAttempts := 40; rp_InitialBackoff := "5s"; rp_Multiplier := f_zero; rp_MaxBackoff := "1h" |}.
Definition resolved : resolvedRetryPolicy :=
  {| MaxAttempts := 40; InitialBackoff := 5 * Second; Multiplier := f_two; MaxBackoff := Hour |}.
End RetryExamples.
Import RetryExamples.

(** The backoff restarts where it overflows.  With an initial backoff of five
    seconds, doubling, and a maximum of an hour, the delay grows to the maximum
    and stays there up to the 31st failed attempt; from the 32nd on the product
    leaves int64, and where such a conversion gives the smallest integer (amd64)
    the scheduler falls back to five seconds instead of the maximum. *)
Theorem backoff_overflow_restarts :
  resolveRetryPolicy seconds (Some doubling) no_retry_policy = inr resolved ∧
  map (nextRetryDelay amd64_overflow resolved) [1; 2; 3; 11; 31] = [5 * Second; 10 * Second; 20 * Second; Hour; Hour] ∧
  nextRetryDelay amd64_overflow resolved 32 = 5 * Second ∧ nextRetryDelay arm64_overflow resolved 32 = Hour.
Proof. vm_compute. auto. Qed.

Lemma retry_delay_bounded_witness : 0 < nextRetryDelay amd64_overflow resolved 7 ∧ nextRetryDelay amd64_overflow resolved 7 <= Hour.
Proof.
  destruct (retry_delay_bounded seconds amd64_overflow (Some doubling) no_retry_policy resolved 7) as (_ & H1 & H2); [reflexivity|].
  split; [exact H1|]. apply H2. reflexivity.
Defined.
