(* ===== verification/JobStore.v ===== *)
(** * The store of scheduled jobs and their runs
    (src/internal/controlplane/jobs/store.go)

    The tables [jobs] and [job_runs] are lists of rows; TEXT columns that hold
    instants are the instants, compared by their text.  The foreign key of
    [job_runs] cascades a deletion, and [request_id] is unique.  [json.Valid] and
    [time.ParseDuration] are arguments. *)
From Stdlib Require Import SpecFloat.
From S2P Require Import Prelude GoStrings GoErrors GoTime GoFloat GoSql GoJson AsyncTypes AsyncStore JobRetry.
Local Open Scope go_scope.
Local Open Scope Z_scope.

Record Tables := { jobs : list Job; runs : list JobRun }.
Notation T := (GoSql.M Tables) (only parsing).

Definition set_jobs (t : Tables) (l : list Job) : Tables := {| jobs := l; runs := runs t |}.
Definition set_runs (t : Tables) (l : list JobRun) : Tables := {| jobs := jobs t; runs := l |}.

Definition job_is (id : string) (j : Job) : bool := jb_ID j =s id.
Definition run_is (id : string) (r : JobRun) : bool := r_ID r =s id.

(** Equality and MAX of two TEXT columns that hold instants. *)
Definition text_of (t : time) : string := format_RFC3339Nano t.
Arguments text_of : simpl never.
Definition max_text (l : list string) : string := foldr (λ a b, if String.leb a b then b else a) EmptyString l.

(** ** Values of the columns *)

(** What the four retry columns keep of a policy. *)
Definition stored_policy (p : option RetryPolicy) : option RetryPolicy :=
  match p with
  | None => None
  | Some p =>
      let attempts := if rp_MaxAttempts p <=? 0 then 0 else rp_MaxAttempts p in
      let initial := TrimSpace (rp_InitialBackoff p) in
      let multiplier := if SFleb (rp_Multiplier p) f_zero then f_zero else rp_Multiplier p in
      let max := TrimSpace (rp_MaxBackoff p) in
      if (rp_MaxAttempts p <=? 0) && (initial =s "") && SFleb (rp_Multiplier p) f_zero && (max =s "") then None
      else Some {| rp_MaxAttempts := attempts; rp_InitialBackoff := initial; rp_Multiplier := multiplier; rp_MaxBackoff := max |}
  end.

Definition isKnownRunStatus (status : string) : bool :=
  existsb (String.eqb (TrimSpace status))
    [RunStatusQueued; RunStatusPending; RunStatusRunning; RunStatusSuccess; RunStatusFailed; RunStatusCanceled; RunStatusDenied].

Definition defaultRunLimit : Z := 50.
Definition maxRunListLimit : Z := 500.
Definition normalizeRunLimit (limit : Z) : Z :=
  if limit <=? 0 then defaultRunLimit else if maxRunListLimit <? limit then maxRunListLimit else limit.
Definition runRetention : duration := 7 * 24 * Hour.

Definition IsInvalidRunTransition (e : go_error) : bool := errors_Is e ErrInvalidRunTransition.
Definition invalid_run_transition (from to : string) : go_error :=
  WrapError (sentinel_text ErrInvalidRunTransition +:+ ": " +:+ from +:+ " -> " +:+ to)%string (Sentinel ErrInvalidRunTransition).

(** An admission rationale: nothing, text (a string or raw bytes) or a value. *)
Inductive rationale := NoRationale | TextRationale (s : string) (raw : bool) | ValueRationale (v : value).

Section jobs.
Context `{Host} (ParseDuration : string → option duration) (json_Valid : string → bool).

Definition mustMarshalAdmissionRationale (r : rationale) : result string :=
  match r with
  | NoRationale => inr EmptyString
  | TextRationale s raw =>
      let trimmed := TrimSpace s in
      if trimmed =s "" then inr EmptyString
      else if raw || json_Valid trimmed then inr trimmed else inr (render_string trimmed)
  | ValueRationale v =>
      match Marshal v with inl e => inl (errorf_w "marshal admission rationale" e) | inr j => inr (render j) end
  end.

Definition serializeAdmissionRationale (raw : string) : string :=
  let trimmed := TrimSpace raw in
  if trimmed =s "" then EmptyString else if negb (json_Valid trimmed) then render_string trimmed else trimmed.

(** ** Jobs *)

Definition validateJob (job : Job) : option go_error :=
  let err m := Some (ErrorString m) in
  if TrimSpace (jb_Name job) =s "" then err "name is required"
  else if TrimSpace (jb_Command job) =s "" then err "command is required"
  else if TrimSpace (jb_Schedule job) =s "" then err "schedule is required"
  else
    let retry := validateRetryPolicy ParseDuration (jb_RetryPolicy job) in
    let kind := Kind (jb_Target job) in
    let no_value := TrimSpace (Value (jb_Target job)) =s "" in
    if kind =s TargetKindProbe then (if no_value then err "target.value is required for probe target" else retry)
    else if kind =s TargetKindTag then (if no_value then err "target.value is required for tag target" else retry)
    else if kind =s TargetKindAll then retry
    else err ("invalid target kind: " +:+ kind)%string.

Definition scanJob (j : Job) : Job := j.

(** The columns of [job] as [CreateJob] writes them. *)
Definition job_row (job : Job) (id : string) (created updated : time) : Job :=
  {| jb_ID := id; jb_WorkspaceID := TrimSpace (jb_WorkspaceID job); jb_Name := TrimSpace (jb_Name job);
     jb_Command := TrimSpace (jb_Command job); jb_Schedule := TrimSpace (jb_Schedule job); jb_Target := jb_Target job;
     jb_RetryPolicy := stored_policy (jb_RetryPolicy job); jb_Enabled := jb_Enabled job; jb_CreatedAt := created;
     jb_UpdatedAt := updated; jb_LastRunAt := jb_LastRunAt job; jb_LastStatus := jb_LastStatus job |}.

Definition CreateJob (job : Job) : T Job :=
  match validateJob job with
  | Some e => fail e
  | None =>
      now ← time_now;
      id ← (if jb_ID job =s "" then uuid_NewString else mret (jb_ID job));
      let created := if IsZero (jb_CreatedAt job) then now else jb_CreatedAt job in
      _ ← wrap_error (errorf_w "insert job") (exec (λ t,
            if existsb (job_is id) (jobs t) then (inl (ErrorString "UNIQUE constraint failed: jobs.id"), t)
            else (inr tt, set_jobs t (jobs t ++ [job_row job id created now]))));
      mret {| jb_ID := id; jb_WorkspaceID := jb_WorkspaceID job; jb_Name := jb_Name job; jb_Command := jb_Command job;
              jb_Schedule := jb_Schedule job; jb_Target := jb_Target job; jb_RetryPolicy := jb_RetryPolicy job;
              jb_Enabled := jb_Enabled job; jb_CreatedAt := created; jb_UpdatedAt := now; jb_LastRunAt := jb_LastRunAt job;
              jb_LastStatus := jb_LastStatus job |}
  end.

Definition GetJob (id : string) : T Job :=
  query (λ t, match List.find (job_is id) (jobs t) with Some j => inr (scanJob j) | None => inl (Sentinel SqlErrNoRows) end).

(** The columns [UpdateJob] sets; the workspace, the creation and the last run stay. *)
Definition updated_job (job : Job) (now : time) (j : Job) : Job :=
  {| jb_ID := jb_ID j; jb_WorkspaceID := jb_WorkspaceID j; jb_Name := TrimSpace (jb_Name job);
     jb_Command := TrimSpace (jb_Command job); jb_Schedule := TrimSpace (jb_Schedule job); jb_Target := jb_Target job;
     jb_RetryPolicy := stored_policy (jb_RetryPolicy job); jb_Enabled := jb_Enabled job; jb_CreatedAt := jb_CreatedAt j;
     jb_UpdatedAt := now; jb_LastRunAt := jb_LastRunAt j; jb_LastStatus := TrimSpace (jb_LastStatus job) |}.

Definition update_jobs (p : Job → bool) (f : Job → Job) : T Z :=
  exec (λ t, (inr (Z.of_nat (count_where p (jobs t))), set_jobs t (update_where p f (jobs t)))).

Definition UpdateJob (job : Job) : T Job :=
  if TrimSpace (jb_ID job) =s "" then errorf "job id required"
  else match validateJob job with
  | Some e => fail e
  | None =>
      now ← time_now;
      n ← wrap_error (errorf_w "update job") (update_jobs (job_is (jb_ID job)) (updated_job job now));
      if n =? 0 then fail (Sentinel SqlErrNoRows) else GetJob (jb_ID job)
  end.

Definition enabled_job (enabled : bool) (now : time) (j : Job) : Job :=
  {| jb_ID := jb_ID j; jb_WorkspaceID := jb_WorkspaceID j; jb_Name := jb_Name j; jb_Command := jb_Command j;
     jb_Schedule := jb_Schedule j; jb_Target := jb_Target j; jb_RetryPolicy := jb_RetryPolicy j; jb_Enabled := enabled;
     jb_CreatedAt := jb_CreatedAt j; jb_UpdatedAt := now; jb_LastRunAt := jb_LastRunAt j; jb_LastStatus := jb_LastStatus j |}.

Definition SetEnabled (id : string) (enabled : bool) : T Job :=
  let id := TrimSpace id in
  if id =s "" then errorf "job id required"
  else
    now ← time_now;
    n ← wrap_error (errorf_w "set enabled") (update_jobs (job_is id) (enabled_job enabled now));
    if n =? 0 then fail (Sentinel SqlErrNoRows) else GetJob id.

Definition updated_desc (a b : Job) : bool := text_le (jb_UpdatedAt b) (jb_UpdatedAt a).
Definition ListJobs : T (list Job) := query (λ t, inr (map scanJob (order_by updated_desc (jobs t)))).
Definition ListJobsByWorkspace (workspaceID : string) : T (list Job) :=
  let workspaceID := TrimSpace workspaceID in
  if workspaceID =s "" then ListJobs
  else query (λ t, inr (map scanJob (order_by updated_desc (List.filter (λ j, jb_WorkspaceID j =s workspaceID) (jobs t))))).

Definition GetJobCheckWorkspace (id expectedWorkspace : string) : T Job :=
  job ← GetJob id;
  if expectedWorkspace =s "" then mret job
  else if (jb_WorkspaceID job <>s "") && (jb_WorkspaceID job <>s expectedWorkspace)
  then fail (Sentinel ErrWorkspaceMismatch) else mret job.

(** The foreign key deletes the runs with the job. *)
Definition DeleteJob (id : string) : T unit :=
  n ← exec (λ t, (inr (Z.of_nat (count_where (job_is id) (jobs t))),
                  {| jobs := List.filter (λ j, negb (job_is id j)) (jobs t);
                     runs := List.filter (λ r, negb ((r_JobID r =s id) && existsb (job_is id) (jobs t))) (runs t) |}));
  if n =? 0 then fail (Sentinel SqlErrNoRows) else mret tt.

(** ** Runs *)

Definition scanRun (r : JobRun) : JobRun :=
  let attempt := if r_Attempt r <=? 0 then 1 else r_Attempt r in
  {| r_ID := r_ID r; r_WorkspaceID := TrimSpace (r_WorkspaceID r); r_JobID := r_JobID r; r_ProbeID := r_ProbeID r;
     r_RequestID := r_RequestID r; r_ExecutionID := if TrimSpace (r_ExecutionID r) =s "" then r_ID r else r_ExecutionID r;
     r_Attempt := attempt; r_MaxAttempts := if r_MaxAttempts r <=? 0 then attempt else r_MaxAttempts r;
     r_RetryScheduledAt := r_RetryScheduledAt r; r_StartedAt := r_StartedAt r; r_EndedAt := r_EndedAt r; r_Status := r_Status r;
     r_AdmissionDecision := TrimSpace (r_AdmissionDecision r); r_AdmissionReason := TrimSpace (r_AdmissionReason r);
     r_AdmissionRationale := TrimSpace (r_AdmissionRationale r); r_ExitCode := r_ExitCode r; r_Output := r_Output r |}.

Definition GetRun (id : string) : T JobRun :=
  query (λ t, match List.find (run_is id) (runs t) with Some r => inr (scanRun r) | None => inl (Sentinel SqlErrNoRows) end).

(** [RecordRunStart]'s run once its defaults are filled in; [Status] may still
    be unknown. *)
Definition defaulted_run (run : JobRun) (id : string) (now : time) : JobRun :=
  let execution := TrimSpace (r_ExecutionID run) in
  let attempt := if r_Attempt run <=? 0 then 1 else r_Attempt run in
  {| r_ID := id; r_WorkspaceID := TrimSpace (r_WorkspaceID run); r_JobID := r_JobID run; r_ProbeID := r_ProbeID run;
     r_RequestID := r_RequestID run; r_ExecutionID := if execution =s "" then id else execution; r_Attempt := attempt;
     r_MaxAttempts := if r_MaxAttempts run <=? 0 then attempt else r_MaxAttempts run; r_RetryScheduledAt := r_RetryScheduledAt run;
     r_StartedAt := if IsZero (r_StartedAt run) then now else r_StartedAt run; r_EndedAt := r_EndedAt run;
     r_Status := if r_Status run =s "" then RunStatusRunning else r_Status run; r_AdmissionDecision := r_AdmissionDecision run;
     r_AdmissionReason := r_AdmissionReason run; r_AdmissionRationale := r_AdmissionRationale run; r_ExitCode := r_ExitCode run;
     r_Output := r_Output run |}.

Definition with_workspace (run : JobRun) (ws : string) : JobRun :=
  {| r_ID := r_ID run; r_WorkspaceID := ws; r_JobID := r_JobID run; r_ProbeID := r_ProbeID run; r_RequestID := r_RequestID run;
     r_ExecutionID := r_ExecutionID run; r_Attempt := r_Attempt run; r_MaxAttempts := r_MaxAttempts run;
     r_RetryScheduledAt := r_RetryScheduledAt run; r_StartedAt := r_StartedAt run; r_EndedAt := r_EndedAt run; r_Status := r_Status run;
     r_AdmissionDecision := r_AdmissionDecision run; r_AdmissionReason := r_AdmissionReason run;
     r_AdmissionRationale := r_AdmissionRationale run; r_ExitCode := r_ExitCode run; r_Output := r_Output run |}.

(** The columns that are written. *)
Definition run_row (run : JobRun) : JobRun :=
  {| r_ID := r_ID run; r_WorkspaceID := r_WorkspaceID run; r_JobID := r_JobID run; r_ProbeID := r_ProbeID run; r_RequestID := r_RequestID run;
     r_ExecutionID := r_ExecutionID run; r_Attempt := r_Attempt run; r_MaxAttempts := r_MaxAttempts run;
     r_RetryScheduledAt := r_RetryScheduledAt run; r_StartedAt := r_StartedAt run; r_EndedAt := r_EndedAt run; r_Status := r_Status run;
     r_AdmissionDecision := TrimSpace (r_AdmissionDecision run); r_AdmissionReason := TrimSpace (r_AdmissionReason run);
     r_AdmissionRationale := serializeAdmissionRationale (r_AdmissionRationale run); r_ExitCode := r_ExitCode run;
     r_Output := truncateOutput (r_Output run) |}.

(** [INSERT INTO job_runs], with its primary key, unique index and foreign key. *)
Definition insert_run (r : JobRun) (t : Tables) : result unit * Tables :=
  if existsb (run_is (r_ID r)) (runs t) then (inl (ErrorString "UNIQUE constraint failed: job_runs.id"), t)
  else if existsb (λ x, r_RequestID x =s r_RequestID r) (runs t)
  then (inl (ErrorString "UNIQUE constraint failed: job_runs.request_id"), t)
  else if negb (existsb (job_is (r_JobID r)) (jobs t)) then (inl (ErrorString "FOREIGN KEY constraint failed"), t)
  else (inr tt, set_runs t (runs t ++ [r])).

Definition started_job (run : JobRun) (now : time) (j : Job) : Job :=
  {| jb_ID := jb_ID j; jb_WorkspaceID := jb_WorkspaceID j; jb_Name := jb_Name j; jb_Command := jb_Command j;
     jb_Schedule := jb_Schedule j; jb_Target := jb_Target j; jb_RetryPolicy := jb_RetryPolicy j; jb_Enabled := jb_Enabled j;
     jb_CreatedAt := jb_CreatedAt j; jb_UpdatedAt := now; jb_LastRunAt := Some (r_StartedAt run); jb_LastStatus := r_Status run |}.

Definition RecordRunStart (run : JobRun) : T JobRun :=
  if TrimSpace (r_JobID run) =s "" then errorf "job_id required"
  else if TrimSpace (r_ProbeID run) =s "" then errorf "probe_id required"
  else if TrimSpace (r_RequestID run) =s "" then errorf "request_id required"
  else
    now ← time_now;
    id ← (if r_ID run =s "" then uuid_NewString else mret (r_ID run));
    let run := defaulted_run run id now in
    if negb (isKnownRunStatus (r_Status run)) then errorf ("invalid run status: " +:+ r_Status run)%string
    else
      _ ← begin_;
      transaction (
        ws ← (if r_WorkspaceID run =s "" then
                query (λ t, match List.find (job_is (r_JobID run)) (jobs t) with
                            | Some j => inr (TrimSpace (jb_WorkspaceID j)) | None => inl (Sentinel SqlErrNoRows) end)
              else mret (r_WorkspaceID run));
        let run := with_workspace run ws in
        _ ← wrap_error (errorf_w "insert run") (exec (insert_run (run_row run)));
        _ ← wrap_error (errorf_w "update job running status") (update_jobs (job_is (r_JobID run)) (started_job run now));
        _ ← commit;
        mret run).

(** *** Status transitions *)

Definition transitioned_run (toStatus : string) (exitCode : option Z) (output : string) (endedAt retryScheduledAt : option time) (r : JobRun) : JobRun :=
  {| r_ID := r_ID r; r_WorkspaceID := r_WorkspaceID r; r_JobID := r_JobID r; r_ProbeID := r_ProbeID r; r_RequestID := r_RequestID r;
     r_ExecutionID := r_ExecutionID r; r_Attempt := r_Attempt r; r_MaxAttempts := r_MaxAttempts r; r_RetryScheduledAt := retryScheduledAt;
     r_StartedAt := r_StartedAt r; r_EndedAt := match endedAt with Some _ => endedAt | None => r_EndedAt r end; r_Status := toStatus;
     r_AdmissionDecision := r_AdmissionDecision r; r_AdmissionReason := r_AdmissionReason r; r_AdmissionRationale := r_AdmissionRationale r;
     r_ExitCode := match exitCode with Some _ => exitCode | None => r_ExitCode r end;
     r_Output := if TrimSpace output =s "" then r_Output r else truncateOutput output |}.

Definition in_batch (jobID latest : string) (r : JobRun) : bool := (r_JobID r =s jobID) && (text_of (r_StartedAt r) =s latest).
Definition count_status (status : string) (l : list JobRun) : Z := Z.of_nat (count_where (λ r, r_Status r =s status) l).

(** The status of a batch of runs that started together. *)
Definition finalStatus (l : list JobRun) : string :=
  if 0 <? count_status RunStatusRunning l then RunStatusRunning
  else if 0 <? count_status RunStatusPending l then RunStatusPending
  else if 0 <? count_status RunStatusQueued l then RunStatusQueued
  else if 0 <? count_status RunStatusFailed l then RunStatusFailed
  else if 0 <? count_status RunStatusDenied l then RunStatusDenied
  else if 0 <? count_status RunStatusCanceled l then RunStatusCanceled
  else RunStatusSuccess.

Definition status_job (status : string) (now : time) (j : Job) : Job :=
  {| jb_ID := jb_ID j; jb_WorkspaceID := jb_WorkspaceID j; jb_Name := jb_Name j; jb_Command := jb_Command j;
     jb_Schedule := jb_Schedule j; jb_Target := jb_Target j; jb_RetryPolicy := jb_RetryPolicy j; jb_Enabled := jb_Enabled j;
     jb_CreatedAt := jb_CreatedAt j; jb_UpdatedAt := now; jb_LastRunAt := jb_LastRunAt j; jb_LastStatus := status |}.

Definition last_run_at (latest : string) (j : Job) : bool :=
  match jb_LastRunAt j with Some t => text_of t =s latest | None => false end.

Definition latest_start (jobID : string) (t : Tables) : string :=
  max_text (map (λ r, text_of (r_StartedAt r)) (List.filter (λ r, r_JobID r =s jobID) (runs t))).

Definition updateJobStatusForLatestBatch (jobID runStartedAt : string) (now : time) : T unit :=
  latest ← query (λ t, inr (latest_start jobID t));
  if (latest =s "") || (latest <>s runStartedAt) then mret tt
  else
    status ← query (λ t, inr (finalStatus (List.filter (in_batch jobID latest) (runs t))));
    _ ← update_jobs (λ j, job_is jobID j && last_run_at latest j) (status_job status now);
    mret tt.

Definition transitionRun (runID : string) (fromStatuses : list string) (toStatus : string) (exitCode : option Z) (output : string)
    (setEndedAt : bool) (retryScheduledAt : option time) : T unit :=
  if negb (isKnownRunStatus toStatus) then errorf ("invalid status: " +:+ toStatus)%string
  else if Z.of_nat (length fromStatuses) =? 0 then errorf "from status required"
  else
    now ← time_now;
    _ ← begin_;
    transaction (
      r ← query (λ t, match List.find (run_is runID) (runs t) with Some r => inr r | None => inl (Sentinel SqlErrNoRows) end);
      let current := r_Status r in
      if negb (existsb (String.eqb current) fromStatuses) then fail (invalid_run_transition current toStatus)
      else
        n ← exec (λ t,
              let p x := run_is runID x && (r_Status x =s current) in
              (inr (Z.of_nat (count_where p (runs t))),
               set_runs t (update_where p (transitioned_run toStatus exitCode output (if setEndedAt then Some now else None) retryScheduledAt) (runs t))));
        if n =? 0 then
          r ← query (λ t, match List.find (run_is runID) (runs t) with Some r => inr r | None => inl (Sentinel SqlErrNoRows) end);
          fail (invalid_run_transition (r_Status r) toStatus)
        else
          _ ← updateJobStatusForLatestBatch (r_JobID r) (text_of (r_StartedAt r)) now;
          commit).

Definition with_run_id {B} (runID : string) (k : string → T B) : T B :=
  let runID := TrimSpace runID in if runID =s "" then errorf "run id required" else k runID.

Definition MarkRunPending (runID : string) : T unit :=
  with_run_id runID (λ runID, transitionRun runID [RunStatusQueued] RunStatusPending None "" false None).
Definition MarkRunRunning (runID : string) : T unit :=
  with_run_id runID (λ runID, transitionRun runID [RunStatusPending] RunStatusRunning None "" false None).

Definition CompleteRunWithRetry (runID status : string) (exitCode : option Z) (output : string) (retryScheduledAt : option time) : T unit :=
  with_run_id runID (λ runID,
    let status := TrimSpace status in
    if (status <>s RunStatusSuccess) && (status <>s RunStatusFailed) then errorf "status must be success or failed"
    else transitionRun runID [RunStatusRunning] status exitCode output true retryScheduledAt).
Definition CompleteRun (runID status : string) (exitCode : option Z) (output : string) : T unit :=
  CompleteRunWithRetry runID status exitCode output None.

Definition active_statuses : list string := [RunStatusQueued; RunStatusPending; RunStatusRunning].

Definition CancelRun (runID reason : string) : T unit :=
  with_run_id runID (λ runID,
    let reason := TrimSpace reason in
    let reason := if reason =s "" then "run canceled" else reason in
    transitionRun runID active_statuses RunStatusCanceled None reason true None).

(** *** Admission *)

Definition admitted_run (decision reason rationale : string) (retryScheduledAt : option time) (r : JobRun) : JobRun :=
  {| r_ID := r_ID r; r_WorkspaceID := r_WorkspaceID r; r_JobID := r_JobID r; r_ProbeID := r_ProbeID r; r_RequestID := r_RequestID r;
     r_ExecutionID := r_ExecutionID r; r_Attempt := r_Attempt r; r_MaxAttempts := r_MaxAttempts r; r_RetryScheduledAt := retryScheduledAt;
     r_StartedAt := r_StartedAt r; r_EndedAt := r_EndedAt r; r_Status := r_Status r; r_AdmissionDecision := decision;
     r_AdmissionReason := reason; r_AdmissionRationale := rationale; r_ExitCode := r_ExitCode r; r_Output := r_Output r |}.

Definition setRunAdmission (runID decision reason : string) (why : rationale) (retryScheduledAt : option time) : T JobRun :=
  with_run_id runID (λ runID,
    match mustMarshalAdmissionRationale why with
    | inl e => fail e
    | inr raw =>
        n ← exec (λ t, (inr (Z.of_nat (count_where (run_is runID) (runs t))),
              set_runs t (update_where (run_is runID) (admitted_run (TrimSpace decision) (TrimSpace reason) raw retryScheduledAt) (runs t))));
        if n =? 0 then fail (Sentinel SqlErrNoRows) else GetRun runID
    end).

Definition MarkRunDenied (runID reason : string) (why : rationale) : T unit :=
  with_run_id runID (λ runID,
    let reason := TrimSpace reason in
    let reason := if reason =s "" then "admission denied by policy" else reason in
    _ ← transitionRun runID active_statuses RunStatusDenied None reason true None;
    _ ← setRunAdmission runID "deny" reason why None;
    mret tt).

Definition UpdateQueuedRunAdmission (runID decision reason : string) (why : rationale) (retryScheduledAt : option time) : T JobRun :=
  run ← GetRun runID;
  if r_Status run <>s RunStatusQueued then fail (invalid_run_transition (r_Status run) RunStatusQueued)
  else setRunAdmission runID decision reason why retryScheduledAt.

(** *** Listings and retention *)

Definition started_desc (a b : JobRun) : bool := text_le (r_StartedAt b) (r_StartedAt a).

Definition ListActiveRunsByJob (jobID : string) : T (list JobRun) :=
  let jobID := TrimSpace jobID in
  if jobID =s "" then errorf "job id required"
  else query (λ t, inr (map scanRun (order_by started_desc
         (List.filter (λ r, (r_JobID r =s jobID) && existsb (String.eqb (r_Status r)) active_statuses) (runs t))))).

Record RunQuery := {
  q_WorkspaceID : string; q_JobID : string; q_ProbeID : string; q_Status : string;
  q_StartedAfter : option time; q_StartedBefore : option time; q_Limit : Z;
}.

Definition run_match (q : RunQuery) (r : JobRun) : bool :=
  let opt field value := (TrimSpace field =s "") || (value =s TrimSpace field) in
  opt (q_WorkspaceID q) (r_WorkspaceID r) && opt (q_JobID q) (r_JobID r) && opt (q_ProbeID q) (r_ProbeID r) && opt (q_Status q) (r_Status r) &&
  match q_StartedAfter q with Some t => text_le t (r_StartedAt r) | None => true end &&
  match q_StartedBefore q with Some t => text_le (r_StartedAt r) t | None => true end.

Definition ListRuns (q : RunQuery) : T (list JobRun) :=
  query (λ t, inr (map scanRun (take (Z.to_nat (normalizeRunLimit (q_Limit q))) (order_by started_desc (List.filter (run_match q) (runs t)))))).
Definition ListRunsByJob (jobID : string) (limit : Z) : T (list JobRun) :=
  ListRuns {| q_WorkspaceID := ""; q_JobID := jobID; q_ProbeID := ""; q_Status := ""; q_StartedAfter := None; q_StartedBefore := None; q_Limit := limit |}.

Definition pruneRunsOlderThan (age : duration) : T unit :=
  now ← time_now;
  exec (λ t, (inr tt, set_runs t (List.filter (λ r, negb (text_lt (r_StartedAt r) (now - age))) (runs t)))).
End jobs.
