(* ===== verification/JobLifecycle.v ===== *)
(** * The life of scheduled jobs and their runs
    (src/internal/controlplane/jobs/store.go)

    [table_step] is what one transaction of the store does to the two tables.
    Every call of the store performs such steps and nothing else, whatever the
    database refuses midway, so invariants and the life of a run are proved by
    induction over the steps. *)
From Stdlib Require Import SpecFloat.
From S2P Require Import Prelude GoStrings GoErrors GoTime GoFloat GoSort GoSql GoJson AsyncTypes AsyncStore AsyncLifecycle JobRetry JobStore.
Local Open Scope go_scope.
Local Open Scope Z_scope.

(** ** The state machine of a run *)

(** The moves the store allows. *)
Inductive run_edge : string → string → Prop :=
  | edge_pending : run_edge RunStatusQueued RunStatusPending
  | edge_running : run_edge RunStatusPending RunStatusRunning
  | edge_success : run_edge RunStatusRunning RunStatusSuccess
  | edge_failed : run_edge RunStatusRunning RunStatusFailed
  | edge_canceled s : s ∈ active_statuses → run_edge s RunStatusCanceled
  | edge_denied s : s ∈ active_statuses → run_edge s RunStatusDenied.

Definition settled_statuses : list string := [RunStatusSuccess; RunStatusFailed; RunStatusCanceled; RunStatusDenied].
Definition settled (s : string) : Prop := s ∈ settled_statuses.

Ltac decide_in := unfold settled; first [ by repeat constructor | intros Hin%list_elem_of_In; simpl in Hin; intuition discriminate ].

Lemma active_cases s : s ∈ active_statuses → s = RunStatusQueued ∨ s = RunStatusPending ∨ s = RunStatusRunning.
Proof. unfold active_statuses. set_solver. Qed.

Lemma active_not_settled s : s ∈ active_statuses → ¬ settled s.
Proof. intros [->|[->| ->]]%active_cases; decide_in. Qed.

Lemma edge_not_settled s s' : run_edge s s' → ¬ settled s.
Proof.
  destruct 1; try by apply active_not_settled.
  all: decide_in.
Qed.

Lemma edge_irrefl s : ¬ run_edge s s.
Proof.
  intros H. inversion H as [| | | |? Hs|? Hs]; subst; try discriminate;
    apply active_not_settled in Hs; apply Hs; decide_in.
Qed.

(** How far a status is from the end. *)
Definition distance (s : string) : nat :=
  if s =s RunStatusQueued then 3 else if s =s RunStatusPending then 2 else if s =s RunStatusRunning then 1 else 0.

Lemma edge_distance s s' : run_edge s s' → (distance s' < distance s)%nat.
Proof.
  destruct 1 as [| | | |s Hs|s Hs]; try (cbv; lia).
  all: destruct (active_cases s Hs) as [->|[->| ->]]; cbv; lia.
Qed.

Definition run_identity (r : JobRun) :=
  (r_ID r, r_WorkspaceID r, r_JobID r, r_ProbeID r, r_RequestID r, r_ExecutionID r, r_Attempt r, r_MaxAttempts r, r_StartedAt r).
Definition run_outcome (r : JobRun) := (r_Status r, r_EndedAt r, r_ExitCode r, r_Output r).

(** One run seen twice: its status has moved along the edges, it ended when
    it settled, and without a move its outcome is untouched. *)
Record run_evolves (r r' : JobRun) : Prop := {
  re_identity : run_identity r' = run_identity r;
  re_moves : rtc run_edge (r_Status r) (r_Status r');
  re_ended : settled (r_Status r') → r_Status r' ≠ r_Status r → is_Some (r_EndedAt r');
  re_still : r_Status r' = r_Status r → run_outcome r' = run_outcome r;
}.

Lemma moves_distance s s' : rtc run_edge s s' → s = s' ∨ (distance s' < distance s)%nat.
Proof. induction 1 as [|a b c He _ [->|IH]]; [by left| |]; apply edge_distance in He; right; lia. Qed.

Lemma moves_antisym s s' : rtc run_edge s s' → rtc run_edge s' s → s = s'.
Proof. intros [|?]%moves_distance [|?]%moves_distance; try done. lia. Qed.

Lemma moves_settled s s' : rtc run_edge s s' → settled s → s' = s.
Proof. destruct 1 as [|a b c He _]; [done|]. intros []%(edge_not_settled _ _ He). Qed.

#[export] Instance run_evolves_preorder : PreOrder run_evolves.
Proof.
  split.
  - intros r. split; [done|constructor|done|done].
  - intros r1 r2 r3 [I1 M1 E1 S1] [I2 M2 E2 S2]. split; [congruence|by etrans| |].
    + intros Hs Hne. destruct (decide (r_Status r3 = r_Status r2)) as [E|E]; [|by apply E2].
      specialize (S2 E). unfold run_outcome in S2. assert (r_EndedAt r3 = r_EndedAt r2) as -> by congruence.
      apply E1; congruence.
    + intros E. rewrite E in M2. pose proof (moves_antisym _ _ M1 M2) as E12.
      rewrite S2, S1; congruence.
Qed.

(** ** Steps of the tables *)

Definition job_ids (t : Tables) : list string := map jb_ID (jobs t).
Definition run_ids (t : Tables) : list string := map r_ID (runs t).

Definition delete_job (id : string) (t : Tables) : Tables :=
  {| jobs := List.filter (λ j, negb (job_is id j)) (jobs t);
     runs := List.filter (λ r, negb ((r_JobID r =s id) && existsb (job_is id) (jobs t))) (runs t) |}.
Definition prune (cutoff : time) (t : Tables) : Tables :=
  set_runs t (List.filter (λ r, negb (text_lt (r_StartedAt r) cutoff)) (runs t)).

(** Updating rows of [jobs] under their ids. *)
Definition touch_jobs (l l' : list Job) : Prop := map jb_ID l' = map jb_ID l.

Inductive table_step (t : Tables) : Tables → Prop :=
  | ts_create j : jb_ID j ∉ job_ids t → table_step t (set_jobs t (jobs t ++ [j]))
  | ts_jobs l : touch_jobs (jobs t) l → table_step t (set_jobs t l)
  | ts_delete id : table_step t (delete_job id t)
  | ts_start r l :
      r_ID r ∉ run_ids t → r_RequestID r ∉ map r_RequestID (runs t) → r_JobID r ∈ job_ids t →
      isKnownRunStatus (r_Status r) = true → Z.of_nat (String.length (r_Output r)) <= maxRunOutputBytes →
      1 <= r_Attempt r → touch_jobs (jobs t) l → table_step t {| jobs := l; runs := runs t ++ [r] |}
  | ts_move id from to code out ended retry l :
      run_edge from to → (settled to → is_Some ended) → touch_jobs (jobs t) l →
      table_step t {| jobs := l;
        runs := update_where (λ x, run_is id x && (r_Status x =s from)) (transitioned_run to code out ended retry) (runs t) |}
  | ts_admit id decision reason rationale retry :
      table_step t (set_runs t (update_where (run_is id) (admitted_run decision reason rationale retry) (runs t)))
  | ts_prune cutoff : table_step t (prune cutoff t).

(** The steps that take runs away: a deletion of a job and retention. *)
Definition removal (t t' : Tables) : Prop := (∃ id, t' = delete_job id t) ∨ (∃ cutoff, t' = prune cutoff t).

Lemma transitioned_evolves to code out ended retry r :
  run_edge (r_Status r) to → (settled to → is_Some ended) → run_evolves r (transitioned_run to code out ended retry r).
Proof.
  intros He Hs. split; simpl; [done|by apply rtc_once| |].
  - intros [t ->]%Hs _. eauto.
  - intros ->. by apply edge_irrefl in He.
Qed.

Lemma admitted_evolves d re ra retry r : run_evolves r (admitted_run d re ra retry r).
Proof. split; [done|constructor|done|done]. Qed.

Lemma update_where_evolves p f l r :
  (∀ x, p x = true → run_evolves x (f x)) → r ∈ l → ∃ r', r' ∈ update_where p f l ∧ run_evolves r r'.
Proof.
  intros Hf Hr. exists (if p r then f r else r). split.
  - apply list_elem_of_In, in_map_iff. exists r. split; [done|by apply list_elem_of_In].
  - destruct (p r) eqn:E; [by apply Hf|reflexivity].
Qed.

(** ** The invariant of the tables *)

Record tables_inv (t : Tables) : Prop := {
  ji_jobs : NoDup (job_ids t);
  ji_runs : NoDup (run_ids t);
  ji_requests : NoDup (map r_RequestID (runs t));
  ji_owner : Forall (λ r, r_JobID r ∈ job_ids t) (runs t);
  ji_status : Forall (λ r, isKnownRunStatus (r_Status r) = true) (runs t);
  ji_output : Forall (λ r, Z.of_nat (String.length (r_Output r)) <= maxRunOutputBytes) (runs t);
  ji_attempt : Forall (λ r, 1 <= r_Attempt r) (runs t);
}.

Lemma NoDup_map_filter {A B} (f : A → B) p l : NoDup (map f l) → NoDup (map f (List.filter p l)).
Proof.
  induction l as [|x l IH]; [done|]. simpl. intros [Hx Hl]%NoDup_cons. destruct (p x); [|by apply IH].
  simpl. apply NoDup_cons. split; [|by apply IH]. intros (y & Hxy & [Hy _]%list_elem_of_In%filter_In)%list_elem_of_fmap.
  apply Hx, list_elem_of_fmap. exists y. split; [done|by apply list_elem_of_In].
Qed.

Lemma Forall_filter_bool {A} (P : A → Prop) p l : Forall P l → Forall P (List.filter p l).
Proof. induction 1 as [|x l Hx _ IH]; simpl; [done|]. destruct (p x); [by constructor|done]. Qed.

Lemma Forall_update_where {A} (P : A → Prop) p f l :
  (∀ x, p x = true → P x → P (f x)) → Forall P l → Forall P (update_where p f l).
Proof. intros Hf. induction 1 as [|x l Hx _ IH]; simpl; [done|]. constructor; [|done]. destruct (p x) eqn:E; auto. Qed.

Lemma NoDup_snoc {A} (l : list A) x : NoDup l → x ∉ l → NoDup (l ++ [x]).
Proof. intros Hl Hx. apply NoDup_app. split_and!; [done| |apply NoDup_singleton]. by intros y Hy ->%list_elem_of_singleton. Qed.

Lemma Forall_snoc {A} (P : A → Prop) l x : Forall P l → P x → Forall P (l ++ [x]).
Proof. intros Hl Hx. apply Forall_app. split; [done|by repeat constructor]. Qed.

(** Only the jobs change, and they keep their ids. *)
Lemma inv_touch t l : touch_jobs (jobs t) l → tables_inv t → tables_inv (set_jobs t l).
Proof. intros Hl [Hj Hr Hq Ho Hs Hu Ha]. unfold touch_jobs in Hl. split; unfold job_ids in *; simpl; rewrite ?Hl; done. Qed.

(** Only the runs change, one by one, and they keep their identity. *)
Lemma inv_update t p f :
  (∀ r, p r = true → run_identity (f r) = run_identity r) →
  (∀ r, p r = true → isKnownRunStatus (r_Status r) = true → isKnownRunStatus (r_Status (f r)) = true) →
  (∀ r, Z.of_nat (String.length (r_Output r)) <= maxRunOutputBytes → Z.of_nat (String.length (r_Output (f r))) <= maxRunOutputBytes) →
  tables_inv t → tables_inv (set_runs t (update_where p f (runs t))).
Proof.
  intros Hid Hst Hout [Hj Hr Hq Ho Hs Hu Ha]. unfold run_identity in Hid.
  split; unfold run_ids, job_ids; simpl; rewrite ?map_update_where; try done; try (apply Forall_update_where; auto);
    intros r Hp; specialize (Hid r Hp); [congruence..| |]; intros Hx; injection Hid; intros; congruence.
Qed.

(** Rows go away. *)
Lemma inv_filter t p : tables_inv t → tables_inv (set_runs t (List.filter p (runs t))).
Proof.
  intros [Hj Hr Hq Ho Hs Hu Ha].
  split; unfold run_ids; simpl; auto using NoDup_map_filter, Forall_filter_bool.
Qed.

Lemma job_is_spec id j : job_is id j = true ↔ jb_ID j = id.
Proof. apply String.eqb_eq. Qed.

Lemma job_exists_spec id l : existsb (job_is id) l = true ↔ id ∈ map jb_ID l.
Proof.
  rewrite existsb_true_Exists, list_elem_of_fmap. split; intros (j & H1 & H2); exists j; rewrite ?job_is_spec in *; auto.
Qed.

Lemma inv_delete t id : tables_inv t → tables_inv (delete_job id t).
Proof.
  intros [Hj Hr Hq Ho Hs Hu Ha]. split; unfold delete_job, run_ids, job_ids in *; simpl; auto using NoDup_map_filter, Forall_filter_bool.
  apply Forall_forall. intros r [Hin Hn]%list_elem_of_In%filter_In.
  eapply Forall_forall in Ho; [|by apply list_elem_of_In].
  assert (Hne : r_JobID r ≠ id).
  { intros <-. rewrite String.eqb_refl, (proj2 (job_exists_spec _ _) Ho) in Hn. done. }
  apply list_elem_of_fmap in Ho as (j & Hj' & Hin'). apply list_elem_of_fmap. exists j. split; [done|].
  apply list_elem_of_In, filter_In. split; [by apply list_elem_of_In|]. unfold job_is. apply negb_true_iff, String.eqb_neq. congruence.
Qed.

Lemma edge_known s s' : run_edge s s' → isKnownRunStatus s' = true.
Proof. by destruct 1. Qed.

Lemma transitioned_output to code out ended retry r :
  Z.of_nat (String.length (r_Output r)) <= maxRunOutputBytes →
  Z.of_nat (String.length (r_Output (transitioned_run to code out ended retry r))) <= maxRunOutputBytes.
Proof. intros Hr. cbn [r_Output transitioned_run]. case_match; [done|apply truncateOutput_bounded]. Qed.

Lemma table_step_inv t t' : table_step t t' → tables_inv t → tables_inv t'.
Proof.
  intros [j Hj|l Hl|id|r l Hi Hq Ho Hs Hu Ha Hl|id from to code out ended retry l He Hend Hl|id d re ra retry|cutoff] Hinv.
  - destruct Hinv as [Hj' Hr Hq Ho Hs Hu Ha]. split; unfold job_ids in *; simpl; rewrite ?map_app; try done; [by apply NoDup_snoc|].
    eapply Forall_impl; [exact Ho|]. intros r Hr'. apply elem_of_app. by left.
  - by apply inv_touch.
  - by apply inv_delete.
  - apply (inv_touch {| jobs := jobs t; runs := runs t ++ [r] |}); [done|].
    destruct Hinv as [Hj' Hr Hq' Ho' Hs' Hu' Ha'].
    split; unfold job_ids, run_ids in *; simpl; rewrite ?map_app; simpl; auto using NoDup_snoc, Forall_snoc.
  - apply (inv_touch (set_runs t _)); [done|]. apply inv_update; [done|intros; by eapply edge_known|apply transitioned_output|done].
  - by apply inv_update.
  - by apply inv_filter.
Qed.

Lemma table_steps_inv t t' : rtc table_step t t' → tables_inv t → tables_inv t'.
Proof. induction 1; eauto using table_step_inv. Qed.

(** ** What becomes of a run *)

Lemma filter_gone t p r :
  NoDup (run_ids t) → r ∈ runs t → r ∈ List.filter p (runs t) ∨ r_ID r ∉ map r_ID (List.filter p (runs t)).
Proof.
  intros Hnd Hr. destruct (p r) eqn:E.
  - left. apply list_elem_of_In, filter_In. split; [by apply list_elem_of_In|done].
  - right. unfold run_ids in Hnd. revert Hnd Hr. induction (runs t) as [|x l IH]; [by intros _ ?%not_elem_of_nil|].
    simpl. intros [Hx Hl]%NoDup_cons [->|Hr]%elem_of_cons.
    + rewrite E. intros (y & Hy & [Hin _]%list_elem_of_In%filter_In)%list_elem_of_fmap.
      apply Hx, list_elem_of_fmap. exists y. split; [done|by apply list_elem_of_In].
    + destruct (p x); [|by apply IH]. simpl. intros [Hid|Hin]%elem_of_cons; [|by apply IH].
      apply Hx. rewrite <- Hid. apply list_elem_of_fmap. eauto.
Qed.

(** A step keeps every run, or removes runs. *)
Lemma step_evolves t t' r :
  NoDup (run_ids t) → table_step t t' → r ∈ runs t →
  (∃ r', r' ∈ runs t' ∧ run_evolves r r') ∨ (removal t t' ∧ r_ID r ∉ run_ids t').
Proof.
  intros Hnd Hst Hr.
  destruct Hst as [j Hj|l Hl|id|r0 l Hi Hq Ho Hs Hu Ha Hl|id from to code out ended retry l He Hend Hl|id d re ra retry|cutoff]; cbn [runs set_jobs set_runs].
  - left. by exists r.
  - left. by exists r.
  - destruct (filter_gone t (λ r, negb ((r_JobID r =s id) && existsb (job_is id) (jobs t))) r Hnd Hr) as [Hk|Hg].
    + left. by exists r.
    + right. split; [left; eauto|done].
  - left. exists r. split; [apply elem_of_app; by left|reflexivity].
  - left. apply update_where_evolves; [|done]. intros x Hx. bools. subst. by apply transitioned_evolves.
  - left. apply update_where_evolves; [|done]. intros x _. apply admitted_evolves.
  - destruct (filter_gone t (λ r, negb (text_lt (r_StartedAt r) cutoff)) r Hnd Hr) as [Hk|Hg].
    + left. by exists r.
    + right. split; [right; eauto|done].
Qed.

(** What became of the run [r] of [t] at [t']: it is there and has evolved,
    or a removal on the way took it. *)
Definition removed_between (t t' : Tables) (r : JobRun) : Prop :=
  ∃ t1 t2 r1, rtc table_step t t1 ∧ r1 ∈ runs t1 ∧ run_evolves r r1 ∧ removal t1 t2 ∧ r_ID r ∉ run_ids t2 ∧ rtc table_step t2 t'.

Lemma steps_evolves t t' r :
  rtc table_step t t' → tables_inv t → r ∈ runs t → (∃ r', r' ∈ runs t' ∧ run_evolves r r') ∨ removed_between t t' r.
Proof.
  intros Hs. revert r. induction Hs as [t|t t1 t' Hst Hs IH]; intros r Hinv Hr; [left; by exists r|].
  destruct (step_evolves t t1 r (ji_runs t Hinv) Hst Hr) as [(r1 & Hr1 & E1)|[Hrem Hg]].
  - pose proof (re_identity _ _ E1) as Hid. unfold run_identity in Hid.
    destruct (IH r1) as [(r' & Hr' & E')|(ta & tb & r2 & Ha & Hr2 & E2 & Hrem & Hg & Hb)]; [by eapply table_step_inv|done| |].
    + left. exists r'. split; [done|by etrans].
    + right. exists ta, tb, r2. split_and!; [by eapply rtc_l|done|by etrans|done| |done].
      assert (r_ID r1 = r_ID r) as <- by congruence. done.
  - right. exists t, t1, r. split_and!; [constructor|done|reflexivity|done..].
Qed.

(** ** Every call performs steps *)

Notation performs m := (GoSql.runs table_step m).

Section calls.
Context `{Host} (ParseDuration : string → option duration) (json_Valid : string → bool).

Lemma touch_update p f l : (∀ j, jb_ID (f j) = jb_ID j) → touch_jobs l (update_where p f l).
Proof. intros Hf. apply map_update_where. auto. Qed.

Lemma runs_update_jobs p f : (∀ j, jb_ID (f j) = jb_ID j) → performs (update_jobs p f).
Proof. intros Hf. apply runs_exec. intros t. right. simpl. by apply ts_jobs, touch_update. Qed.

Lemma reads_GetJob id : reads (GetJob id).
Proof. apply reads_query. Qed.
Lemma reads_GetRun id : reads (GetRun id).
Proof. apply reads_query. Qed.
Hint Resolve reads_GetJob reads_GetRun runs_update_jobs : legator.

Lemma runs_CreateJob job : performs (CreateJob ParseDuration job).
Proof.
  unfold CreateJob. case_match; [eauto with legator|]. apply runs_bind; [eauto with legator|]. intros now.
  apply runs_bind; [case_match; eauto with legator|]. intros id. apply runs_bind; [|eauto with legator].
  apply runs_wrap, runs_exec. intros t. destruct (existsb _ _) eqn:E; [by left|]. right. apply ts_create. simpl.
  intros Hin%job_exists_spec. congruence.
Qed.

Lemma runs_UpdateJob job : performs (UpdateJob ParseDuration job).
Proof.
  unfold UpdateJob. case_match; [eauto with legator|]. case_match; [eauto with legator|].
  apply runs_bind; [eauto with legator|]. intros now.
  apply runs_bind; [by apply runs_wrap, runs_update_jobs|]. intros n. case_match; eauto with legator.
Qed.

Lemma runs_SetEnabled id enabled : performs (SetEnabled id enabled).
Proof.
  unfold SetEnabled. cbv zeta. case_match; [eauto with legator|]. apply runs_bind; [eauto with legator|]. intros now.
  apply runs_bind; [by apply runs_wrap, runs_update_jobs|]. intros n. case_match; eauto with legator.
Qed.

Lemma runs_DeleteJob id : performs (DeleteJob id).
Proof.
  apply runs_bind; [|intros n; case_match; eauto with legator].
  apply runs_exec. intros t. right. apply ts_delete.
Qed.

Lemma existsb_field {A} (f : A → string) x l : existsb (λ r, f r =s x) l = false → x ∉ map f l.
Proof.
  intros Hf (r & -> & Hr)%list_elem_of_fmap. rewrite existsb_false_Forall, Forall_forall in Hf.
  specialize (Hf r Hr). by rewrite String.eqb_refl in Hf.
Qed.

Lemma insert_run_inr r t t' :
  insert_run r t = (inr tt, t') →
  r_ID r ∉ run_ids t ∧ r_RequestID r ∉ map r_RequestID (runs t) ∧ r_JobID r ∈ job_ids t ∧ t' = set_runs t (runs t ++ [r]).
Proof.
  unfold insert_run. intros E. destruct (existsb (run_is _) _) eqn:E1; [done|].
  destruct (existsb (λ x, _) _) eqn:E2; [done|]. destruct (existsb _ (jobs t)) eqn:E3; [|done]. simplify_eq/=.
  split_and!; [by apply (existsb_field r_ID)|by apply existsb_field|by apply job_exists_spec|done].
Qed.

Lemma writes_RecordRunStart run : writes table_step (RecordRunStart json_Valid run).
Proof.
  unfold RecordRunStart. do 3 (case_match; [eauto with legator|]).
  apply writes_bind_after; [eauto with legator|]. intros now.
  apply writes_bind_after; [case_match; eauto with legator|]. intros id. cbv zeta.
  destruct (isKnownRunStatus _) eqn:Hk; cbn [negb]; [|solve [eauto with legator]].
  apply writes_bind_after; [apply reads_query|]. intros _. apply writes_transaction_body. intros db a db' E.
  apply bind_inr in E as (ws & db1 & E1 & E). apply bind_inr in E as ([] & db2 & E2%wrap_inr%exec_inr & E).
  apply bind_inr in E as (n & db3 & E3%wrap_inr%exec_inr & E). apply bind_inr in E as ([] & db4 & [_ E4]%query_inr & E).
  assert (rows db1 = rows db) as Hd by (case_match; [by apply query_inr in E1 as [_ ?]|by injection E1 as _ ->]).
  apply insert_run_inr in E2 as (Hi & Hq & Ho & E2). injection E as <- <-. rewrite Hd in *. injection E3 as _ E3.
  right. rewrite E4, <- E3, E2. cbn [set_jobs set_runs jobs JobStore.runs]. apply ts_start; try done.
  - apply truncateOutput_bounded.
  - cbn [r_Attempt run_row with_workspace defaulted_run]. destruct (Z.leb_spec (r_Attempt run) 0); lia.
  - by apply touch_update.
Qed.

(** The jobs after the status of a batch has been recomputed. *)
Definition batch_jobs (jobID start : string) (now : time) (t : Tables) : list Job :=
  let latest := latest_start jobID t in
  if (latest =s "") || (latest <>s start) then jobs t
  else update_where (λ j, job_is jobID j && last_run_at latest j)
         (status_job (finalStatus (List.filter (in_batch jobID latest) (runs t))) now) (jobs t).

Lemma batch_inr jobID start now db u db' :
  updateJobStatusForLatestBatch jobID start now db = (inr u, db') →
  rows db' = set_jobs (rows db) (batch_jobs jobID start now (rows db)).
Proof.
  unfold updateJobStatusForLatestBatch, batch_jobs. intros E. apply bind_inr in E as (latest & db1 & [[= <-] E1]%query_inr & E).
  cbv zeta. case_match.
  - injection E as _ <-. rewrite E1. by destruct (rows db).
  - apply bind_inr in E as (status & db2 & [[= <-] E2]%query_inr & E).
    apply bind_inr in E as (n & db3 & [= _ E3]%exec_inr & E). injection E as _ <-. rewrite <- E3, E2, E1. done.
Qed.

Lemma touch_batch jobID start now t : touch_jobs (jobs t) (batch_jobs jobID start now t).
Proof. unfold batch_jobs. cbv zeta. case_match; [done|by apply touch_update]. Qed.

Definition move_runs (id from to : string) (code : option Z) (out : string) (ended retry : option time) (t : Tables) : Tables :=
  set_runs t (update_where (λ x, run_is id x && (r_Status x =s from)) (transitioned_run to code out ended retry) (runs t)).

(** A successful transition, completely. *)
Lemma transition_body id from to code out ended retry now db u db' :
  (r ← query (λ t, match List.find (run_is id) (runs t) with Some r => inr r | None => inl (Sentinel SqlErrNoRows) end);
   let current := r_Status r in
   if negb (existsb (String.eqb current) from) then fail (invalid_run_transition current to)
   else
     n ← exec (λ t,
           let p x := run_is id x && (r_Status x =s current) in
           (inr (Z.of_nat (count_where p (runs t))),
            set_runs t (update_where p (transitioned_run to code out ended retry) (runs t))));
     if n =? 0 then
       r ← query (λ t, match List.find (run_is id) (runs t) with Some r => inr r | None => inl (Sentinel SqlErrNoRows) end);
       fail (invalid_run_transition (r_Status r) to)
     else
       _ ← updateJobStatusForLatestBatch (r_JobID r) (text_of (r_StartedAt r)) now;
       commit) db = (inr u, db') →
  ∃ r, List.find (run_is id) (runs (rows db)) = Some r ∧ r_Status r ∈ from ∧
    let t := move_runs id (r_Status r) to code out ended retry (rows db) in
    rows db' = set_jobs t (batch_jobs (r_JobID r) (text_of (r_StartedAt r)) now t).
Proof.
  intros E. apply bind_inr in E as (r & db1 & [Hf E1]%query_inr & E). cbv zeta in E.
  destruct (List.find _ _) as [r0|] eqn:Hr; [|done]. injection Hf as ->.
  destruct (existsb _ from) eqn:Hx; [|done]. cbn [negb] in E.
  apply bind_inr in E as (n & db2 & [= Hn E2]%exec_inr & E). case_match; [by apply bind_inr in E as (? & ? & _ & ?)|].
  apply bind_inr in E as ([] & db3 & E3%batch_inr & [_ E4]%query_inr).
  exists r. split_and!; [done| |].
  - apply existsb_exists in Hx as (s & Hs & <-%String.eqb_eq). by apply list_elem_of_In.
  - cbv zeta. rewrite E4, E3, <- E2, E1. done.
Qed.

Lemma writes_transitionRun id from to code out ended retry :
  (∀ s, s ∈ from → run_edge s to) → (settled to → ended = true) →
  writes table_step (transitionRun id from to code out ended retry).
Proof.
  intros He Hs. unfold transitionRun. case_match; [eauto with legator|]. case_match; [eauto with legator|].
  apply writes_bind_after; [eauto with legator|]. intros now. apply writes_bind_after; [apply reads_query|]. intros _.
  apply writes_transaction_body. intros db u db' (r & Hf & Hr & E)%transition_body. right. rewrite E.
  apply ts_move; [by apply He| |exact (touch_batch _ _ _ (move_runs _ _ _ _ _ _ _ _))]. intros ->%Hs. eauto.
Qed.

Lemma runs_with_run_id {B} id (k : string → GoSql.M Tables B) : (∀ id, performs (k id)) → performs (with_run_id id k).
Proof. intros Hk. unfold with_run_id. cbv zeta. case_match; [eauto with legator|done]. Qed.

Ltac solve_edges := intros s Hs; apply list_elem_of_In in Hs; simpl in Hs; repeat destruct Hs as [<-|Hs]; [constructor..|done].

Lemma runs_MarkRunPending id : performs (MarkRunPending id).
Proof. apply runs_with_run_id. intros. apply runs_writes, writes_transitionRun; [solve_edges|decide_in]. Qed.
Lemma runs_MarkRunRunning id : performs (MarkRunRunning id).
Proof. apply runs_with_run_id. intros. apply runs_writes, writes_transitionRun; [solve_edges|decide_in]. Qed.
Lemma runs_CompleteRunWithRetry id status code out retry : performs (CompleteRunWithRetry id status code out retry).
Proof.
  apply runs_with_run_id. intros. cbv zeta. case_match eqn:E; [eauto with legator|]. apply runs_writes, writes_transitionRun; [|done].
  apply andb_false_iff in E as [E|E]; bools; rewrite E; solve_edges.
Qed.
Lemma runs_CancelRun id reason : performs (CancelRun id reason).
Proof. apply runs_with_run_id. intros. cbv zeta. apply runs_writes, writes_transitionRun; [|done]. intros s Hs. by constructor. Qed.

Lemma runs_setRunAdmission id d re why retry : performs (setRunAdmission json_Valid id d re why retry).
Proof.
  apply runs_with_run_id. intros. case_match; [eauto with legator|]. apply runs_bind; [|intros n; case_match; eauto with legator].
  apply runs_exec. intros t. right. apply ts_admit.
Qed.
Lemma runs_MarkRunDenied id reason why : performs (MarkRunDenied json_Valid id reason why).
Proof.
  apply runs_with_run_id. intros. cbv zeta. apply runs_bind; [|intros _; apply runs_bind; [apply runs_setRunAdmission|eauto with legator]].
  apply runs_writes, writes_transitionRun; [|done]. intros s Hs. by constructor.
Qed.
Lemma runs_UpdateQueuedRunAdmission id d re why retry : performs (UpdateQueuedRunAdmission json_Valid id d re why retry).
Proof. apply runs_bind; [eauto with legator|]. intros r. case_match; [eauto with legator|apply runs_setRunAdmission]. Qed.
Lemma runs_pruneRunsOlderThan age : performs (pruneRunsOlderThan age).
Proof. apply runs_bind; [eauto with legator|]. intros now. apply runs_exec. intros t. right. apply ts_prune. Qed.

(** Everything a caller can ask of the store that writes. *)
Inductive job_call (db : GoSql.DB Tables) : GoSql.DB Tables → Prop :=
  | jc_create job res db' : CreateJob ParseDuration job db = (res, db') → job_call db db'
  | jc_update job res db' : UpdateJob ParseDuration job db = (res, db') → job_call db db'
  | jc_enable id b res db' : SetEnabled id b db = (res, db') → job_call db db'
  | jc_delete id res db' : DeleteJob id db = (res, db') → job_call db db'
  | jc_start run res db' : RecordRunStart json_Valid run db = (res, db') → job_call db db'
  | jc_pending id res db' : MarkRunPending id db = (res, db') → job_call db db'
  | jc_running id res db' : MarkRunRunning id db = (res, db') → job_call db db'
  | jc_complete id status code out retry res db' : CompleteRunWithRetry id status code out retry db = (res, db') → job_call db db'
  | jc_cancel id reason res db' : CancelRun id reason db = (res, db') → job_call db db'
  | jc_denied id reason why res db' : MarkRunDenied json_Valid id reason why db = (res, db') → job_call db db'
  | jc_admission id d reason why retry res db' :
      UpdateQueuedRunAdmission json_Valid id d reason why retry db = (res, db') → job_call db db'
  | jc_prune age res db' : pruneRunsOlderThan age db = (res, db') → job_call db db'.

Lemma job_call_steps db db' : job_call db db' → rtc table_step (rows db) (rows db').
Proof.
  destruct 1 as [job res db' E|job res db' E|id b res db' E|id res db' E|run res db' E|id res db' E|id res db' E|id st code out rt res db' E|id re res db' E|id re why res db' E|id d re why rt res db' E|age res db' E].
  all: match type of E with ?m _ = _ => assert (Hp : performs m); [|by eapply Hp] end.
  - apply runs_CreateJob.
  - apply runs_UpdateJob.
  - apply runs_SetEnabled.
  - apply runs_DeleteJob.
  - apply runs_writes, writes_RecordRunStart.
  - apply runs_MarkRunPending.
  - apply runs_MarkRunRunning.
  - apply runs_CompleteRunWithRetry.
  - apply runs_CancelRun.
  - apply runs_MarkRunDenied.
  - apply runs_UpdateQueuedRunAdmission.
  - apply runs_pruneRunsOlderThan.
Qed.

Lemma job_calls_steps db db' : rtc job_call db db' → rtc table_step (rows db) (rows db').
Proof. induction 1 as [|db db1 db2 Hc _ IH]; [done|]. etrans; [by apply job_call_steps|done]. Qed.
End calls.

(** ** The verdict on a batch *)

Lemma text_of_nonempty t : text_of t ≠ ""%string.
Proof.
  unfold text_of, format_RFC3339Nano. cbv zeta. intros E%(f_equal String.length). rewrite !length_str_app in E.
  change (String.length "T") with 1%nat in E. change (String.length "") with 0%nat in E. lia.
Qed.

Definition exact_status (r : JobRun) : Prop := r_Status r ∈ active_statuses ++ settled_statuses.

Lemma count_status_pos s l : 0 < count_status s l ↔ ∃ r, r ∈ l ∧ r_Status r = s.
Proof.
  unfold count_status. split.
  - intros Hc. destruct (existsb (λ r, r_Status r =s s) l) eqn:E.
    + apply existsb_true_Exists in E as (r & Hr & <-%String.eqb_eq). eauto.
    + rewrite existsb_false_Forall, Forall_forall in E.
      rewrite (proj2 (count_where_zero _ l) E) in Hc. done.
  - intros (r & Hr & <-). destruct (count_where _ l) eqn:E; [|lia]. rewrite count_where_zero in E.
    specialize (E r Hr). by rewrite String.eqb_refl in E.
Qed.

Lemma count_status_none s l r : count_status s l <= 0 → r ∈ l → r_Status r ≠ s.
Proof. intros Hn Hr Hs. assert (0 < count_status s l) by (apply count_status_pos; eauto). lia. Qed.

(** The tests of [finalStatus], in order; what failed of them holds of no run. *)
Ltac apply_none l Hr := repeat match goal with H : ∀ r, r ∈ l → _ |- _ => specialize (H _ Hr) end.
Ltac batch_cases l :=
  unfold finalStatus;
  repeat match goal with
  | |- context [0 <? count_status ?s l] =>
      let E := fresh "E" in destruct (Z.ltb_spec 0 (count_status s l)) as [E|E];
      [apply count_status_pos in E|pose proof (λ r, count_status_none s l r E); clear E]
  end.

Lemma finalStatus_occurs l : finalStatus l ≠ RunStatusSuccess → ∃ r, r ∈ l ∧ r_Status r = finalStatus l.
Proof. batch_cases l; done. Qed.

Lemma finalStatus_active l r : r ∈ l → r_Status r ∈ active_statuses → finalStatus l ∈ active_statuses.
Proof.
  intros Hr Hs. batch_cases l; try (by repeat constructor); exfalso; apply_none l Hr; by destruct (active_cases _ Hs) as [|[|]].
Qed.

Lemma finalStatus_success l r : r ∈ l → exact_status r → finalStatus l = RunStatusSuccess → r_Status r = RunStatusSuccess.
Proof.
  intros Hr Hs. batch_cases l; try discriminate. intros _.
  unfold exact_status, active_statuses, settled_statuses in Hs.
  apply_none l Hr. set_solver.
Qed.

(** The status of a batch is the right summary of its runs. *)
Lemma finalStatus_summary l :
  Forall exact_status l →
  (finalStatus l = RunStatusSuccess ↔ Forall (λ r, r_Status r = RunStatusSuccess) l) ∧
  (settled (finalStatus l) ↔ Forall (λ r, settled (r_Status r)) l) ∧
  (finalStatus l ≠ RunStatusSuccess → Exists (λ r, r_Status r = finalStatus l) l).
Proof.
  intros Hx. rewrite Forall_forall in Hx. split_and!; [split| split|].
  - intros Hf. apply Forall_forall. intros r Hr. eapply finalStatus_success; eauto.
  - intros Hall. destruct (decide (finalStatus l = RunStatusSuccess)) as [|(r & Hr & E)%finalStatus_occurs]; [done|].
    rewrite Forall_forall in Hall. rewrite <- E. auto.
  - intros Hf. apply Forall_forall. intros r Hr. pose proof (Hx r Hr) as Hs. unfold exact_status in Hs.
    apply elem_of_app in Hs as [Hs|Hs]; [|done]. apply (finalStatus_active l r Hr) in Hs.
    by apply active_not_settled in Hs.
  - intros Hall. destruct (decide (finalStatus l = RunStatusSuccess)) as [->|(r & Hr & E)%finalStatus_occurs]; [decide_in|].
    rewrite Forall_forall in Hall. rewrite <- E. auto.
  - intros (r & Hr & E)%finalStatus_occurs. apply Exists_exists. eauto.
Qed.

(** ** Theorems *)

Definition no_tables : GoSql.DB Tables := {| rows := {| jobs := []; JobStore.runs := [] |}; ticks := 0 |}.

Lemma no_tables_inv : tables_inv (rows no_tables).
Proof. split; constructor. Qed.

Section theorems.
Context `{Host} (ParseDuration : string → option duration) (json_Valid : string → bool).
Notation call := (job_call ParseDuration json_Valid).

(** The tables of jobs and runs stay well formed under every sequence of
    store calls and every fault of the database: job ids, run ids and request
    ids are unique, every run belongs to a stored job, its status is a known
    one, its attempt is positive and its output fits the 10 KiB limit. *)
Theorem job_tables_invariant db : rtc call no_tables db → tables_inv (rows db).
Proof. intros Hc. eapply table_steps_inv; [by eapply job_calls_steps|apply no_tables_inv]. Qed.

(** C24. The life of a run, under every sequence of store calls and database
    faults.  Until its job is deleted or retention prunes it the run is there:
    its identity never changes, its status only follows queued, pending,
    running and then success or failed, or from any of the three to canceled or
    denied; a run that settles has an end time, and once settled its status,
    end time, exit code and output never change again. *)
Theorem run_lifecycle db db' r :
  rtc call no_tables db → rtc call db db' → r ∈ JobStore.runs (rows db) →
  removed_between (rows db) (rows db') r ∨
  ∃ r', r' ∈ JobStore.runs (rows db') ∧ run_identity r' = run_identity r ∧ rtc run_edge (r_Status r) (r_Status r') ∧
        (settled (r_Status r') → ¬ settled (r_Status r) → is_Some (r_EndedAt r')) ∧
        (settled (r_Status r) → run_outcome r' = run_outcome r).
Proof.
  intros H0%job_calls_steps H1%job_calls_steps Hr. pose proof (table_steps_inv _ _ H0 no_tables_inv) as Hinv.
  destruct (steps_evolves _ _ r H1 Hinv Hr) as [(r' & Hr' & [Hi Hm He Hs])|]; [right|by left].
  exists r'. split_and!; [done..| |].
  - intros Hs' Hn. apply He; [done|]. by intros E; rewrite E in Hs'.
  - intros Hst. apply Hs. by eapply moves_settled.
Qed.

Lemma find_run_spec id (t : Tables) r : List.find (run_is id) (JobStore.runs t) = Some r → r ∈ JobStore.runs t ∧ r_ID r = id.
Proof. intros [Hin Hid]%find_some. split; [by apply list_elem_of_In|by apply String.eqb_eq]. Qed.

(** The status of a job summarises its latest batch: whenever a transition
    of a run succeeds and the job's last start is the start of that run's batch
    and the latest one, the job's status is success exactly when every run of
    the batch succeeded, is settled exactly when every run is, and otherwise is
    the status of one of the runs. *)
Theorem batch_status_summary id from to code out ended retry db u db' r j :
  transitionRun id from to code out ended retry db = (inr u, db') →
  List.find (run_is id) (JobStore.runs (rows db)) = Some r →
  let batch := List.filter (in_batch (r_JobID r) (text_of (r_StartedAt r))) (JobStore.runs (rows db')) in
  latest_start (r_JobID r) (rows db') = text_of (r_StartedAt r) → Forall exact_status batch →
  j ∈ jobs (rows db') → jb_ID j = r_JobID r → last_run_at (text_of (r_StartedAt r)) j = true →
  (jb_LastStatus j = RunStatusSuccess ↔ Forall (λ x, r_Status x = RunStatusSuccess) batch) ∧
  (settled (jb_LastStatus j) ↔ Forall (λ x, settled (r_Status x)) batch) ∧
  (jb_LastStatus j ≠ RunStatusSuccess → Exists (λ x, r_Status x = jb_LastStatus j) batch).
Proof.
  intros E Hf batch Hl Hx Hj Hid Hlast.
  assert (jb_LastStatus j = finalStatus batch) as ->; [|by apply finalStatus_summary].
  unfold transitionRun in E. case_match; [done|]. case_match; [done|].
  apply bind_inr in E as (now & db1 & [= _ <-] & E). apply bind_inr in E as ([] & db2 & [_ E2]%query_inr & E%transaction_inr).
  apply transition_body in E as (r0 & Hf0 & Hr & E). cbn [rows tick] in E2. rewrite E2 in *.
  rewrite Hf in Hf0. injection Hf0 as <-. cbv zeta in E.
  pose proof Hl as Hl'. subst batch. rewrite E in *. unfold latest_start in Hl, Hl'. cbn [jobs JobStore.runs set_jobs] in *.
  set (t := move_runs _ _ _ _ _ _ _ _) in *. unfold batch_jobs in Hj. cbv zeta in Hj. fold (latest_start (r_JobID r) t) in Hl.
  rewrite Hl, (proj2 (String.eqb_neq _ _) (text_of_nonempty _)), String.eqb_refl in Hj. cbn [orb negb] in Hj.
  apply elem_of_update_where in Hj as [(x & _ & _ & ->)|[_ Hn]]; [done|].
  unfold job_is in Hn. by rewrite Hid, Hlast, String.eqb_refl in Hn.
Qed.
End theorems.

(** *** Without faults *)

Section answers.
Context `{Host} (no_faults : ∀ n, sql_fault n = None).

Lemma find_moved id from f l r :
  (∀ x, r_ID (f x) = r_ID x) → List.find (run_is id) l = Some r → r_Status r = from →
  List.find (run_is id) (update_where (λ x, run_is id x && (r_Status x =s from)) f l) = Some (f r).
Proof.
  unfold run_is. intros Hf. induction l as [|x l IH]; [done|]. simpl.
  destruct (String.eqb_spec (r_ID x) id) as [E|E]; simpl.
  - intros [= <-] Hs. rewrite Hs, String.eqb_refl, Hf, E, String.eqb_refl. done.
  - rewrite (proj2 (String.eqb_neq _ _) E). exact IH.
Qed.

Lemma count_found id from l r :
  List.find (run_is id) l = Some r → r_Status r = from → Z.of_nat (count_where (λ x, run_is id x && (r_Status x =s from)) l) ≠ 0.
Proof.
  intros [Hin Hid]%find_some Hs E. assert (Hz : count_where (λ x, run_is id x && (r_Status x =s from)) l = 0%nat) by lia.
  rewrite count_where_zero in Hz. specialize (Hz r). rewrite list_elem_of_In in Hz. specialize (Hz Hin).
  by rewrite Hid, Hs, String.eqb_refl in Hz.
Qed.

Lemma existsb_in s l : existsb (String.eqb s) l = bool_decide (s ∈ l).
Proof.
  apply eq_bool_prop_intro. rewrite !Is_true_true, bool_decide_eq_true, existsb_true_Exists.
  split; [by intros (x & Hx & ->%String.eqb_eq)|]. intros Hs. exists s. split; [done|apply String.eqb_refl].
Qed.

Lemma run_batch jobID start now db :
  updateJobStatusForLatestBatch jobID start now db =
    (inr tt, {| rows := set_jobs (rows db) (batch_jobs jobID start now (rows db));
                ticks := ticks (updateJobStatusForLatestBatch jobID start now db).2 |}).
Proof.
  destruct (updateJobStatusForLatestBatch _ _ _ db) as [[e|[]] db'] eqn:E; simpl.
  - exfalso. revert E. unfold updateJobStatusForLatestBatch, update_jobs, mbind, M_bind. rewrite (run_query no_faults).
    case_match; [done|]. rewrite (run_query no_faults), (run_exec no_faults). done.
  - rewrite <- (batch_inr _ _ _ _ _ _ E). by destruct db'.
Qed.

(** What a transition does, on a database that answers: an unknown run is
    reported as missing and a status outside the allowed ones as an invalid
    transition, both without touching the tables; otherwise it succeeds, the run
    gets exactly the new status, outcome and retry time, and no other run
    changes. *)
Lemma transitionRun_spec id from to code out ended retry db res db' :
  isKnownRunStatus to = true → from ≠ [] → transitionRun id from to code out ended retry db = (res, db') →
  match List.find (run_is id) (runs (rows db)) with
  | None => res = inl (Sentinel SqlErrNoRows) ∧ rows db' = rows db
  | Some r =>
      if bool_decide (r_Status r ∈ from) then
        res = inr tt ∧ touch_jobs (jobs (rows db)) (jobs (rows db')) ∧
        List.find (run_is id) (runs (rows db')) =
          Some (transitioned_run to code out (if ended then Some (clock (ticks db)) else None) retry r) ∧
        (∀ x, r_ID x ≠ id → x ∈ runs (rows db') ↔ x ∈ runs (rows db))
      else (∃ e, res = inl e ∧ IsInvalidRunTransition e = true) ∧ rows db' = rows db
  end.
Proof.
  intros Hk Hf E. unfold transitionRun in E. rewrite Hk in E.
  assert (Hlen : Z.of_nat (length from) =? 0 = false) by (destruct from; [done|reflexivity]).
  rewrite Hlen in E. cbn [negb] in E. unfold time_now, begin_, transaction in E.
  unfold mbind at 1 2, M_bind at 1 2 in E. rewrite (run_query no_faults) in E. cbn [rows ticks tick] in E.
  revert E. unfold mbind at 1, M_bind at 1. rewrite (run_query no_faults). cbn [rows ticks tick].
  destruct (List.find _ _) as [r|] eqn:Hr; [|by intros [= <- <-]].
  rewrite <- (existsb_in (r_Status r)). destruct (existsb _ from); cbn [negb]; [|intros [= <- <-]; split; [by eexists|done]].
  unfold mbind, M_bind. rewrite (run_exec no_faults). cbv beta zeta. unfold tick. cbn [fst snd rows ticks].
  rewrite (proj2 (Z.eqb_neq _ _) (count_found _ _ _ _ Hr eq_refl)), run_batch. unfold commit. rewrite (run_query no_faults).
  intros [= <- <-]. cbn [rows ticks tick set_jobs set_runs jobs runs]. split_and!; [done| | |].
  - apply (touch_batch _ _ _ (set_runs _ _)).
  - by apply find_moved.
  - intros x Hx. rewrite elem_of_update_where. split.
    + intros [(y & _ & Hy & ->)|[Hy _]]; [|done]. unfold run_is in Hy. bools. done.
    + intros Hin. right. split; [done|]. unfold run_is. by rewrite (proj2 (String.eqb_neq _ _) Hx).
Qed.

(** What a transition does, on a database that answers: an unknown run is
    reported as missing and a status outside the allowed ones as an invalid
    transition, both without touching the tables; otherwise it succeeds, the run
    gets exactly the new status, outcome and retry time, and no other run
    changes. *)
Theorem run_transition_spec id from to code out ended retry db res db' :
  isKnownRunStatus to = true → from ≠ [] → transitionRun id from to code out ended retry db = (res, db') →
  match List.find (run_is id) (runs (rows db)) with
  | None => res = inl (Sentinel SqlErrNoRows) ∧ rows db' = rows db
  | Some r =>
      if bool_decide (r_Status r ∈ from) then
        res = inr tt ∧ touch_jobs (jobs (rows db)) (jobs (rows db')) ∧
        List.find (run_is id) (runs (rows db')) =
          Some (transitioned_run to code out (if ended then Some (clock (ticks db)) else None) retry r) ∧
        (∀ x, r_ID x ≠ id → x ∈ runs (rows db') ↔ x ∈ runs (rows db))
      else (∃ e, res = inl e ∧ IsInvalidRunTransition e = true) ∧ rows db' = rows db
  end.
Proof. apply transitionRun_spec. Qed.

(** One allowed move succeeds. *)
Lemma move_succeeds id from to code out ended retry db r :
  isKnownRunStatus to = true → List.find (run_is id) (runs (rows db)) = Some r → r_Status r ∈ from →
  ∃ db', transitionRun id from to code out ended retry db = (inr tt, db') ∧
    List.find (run_is id) (runs (rows db')) =
      Some (transitioned_run to code out (if ended then Some (clock (ticks db)) else None) retry r).
Proof.
  intros Hk Hr Hs. destruct (transitionRun id from to code out ended retry db) as [res db'] eqn:E.
  pose proof (transitionRun_spec id from to code out ended retry db res db' Hk ltac:(by destruct from; [apply not_elem_of_nil in Hs|]) E) as Ht.
  rewrite Hr, bool_decide_eq_true_2 in Ht by done. destruct Ht as (-> & _ & Hf & _). eauto.
Qed.

(** C38. A queued run can always be brought to its end: on a database that
    answers, marking it pending, marking it running and completing it all
    succeed, and leave it with the status asked for and an end time. *)
Theorem queued_run_completes id status code out db r :
  TrimSpace id = id → id ≠ "" → TrimSpace status = status → status = RunStatusSuccess ∨ status = RunStatusFailed →
  List.find (run_is id) (runs (rows db)) = Some r → r_Status r = RunStatusQueued →
  ∃ db1 db2 db3 r', MarkRunPending id db = (inr tt, db1) ∧ MarkRunRunning id db1 = (inr tt, db2) ∧
    CompleteRun id status code out db2 = (inr tt, db3) ∧ List.find (run_is id) (runs (rows db3)) = Some r' ∧
    run_identity r' = run_identity r ∧ r_Status r' = status ∧ is_Some (r_EndedAt r').
Proof.
  intros Hid Hne Htrim Hst Hr Hs. unfold MarkRunPending, MarkRunRunning, CompleteRun, CompleteRunWithRetry, with_run_id.
  cbv zeta. rewrite Hid, (proj2 (String.eqb_neq _ _) Hne), Htrim.
  destruct (move_succeeds id [RunStatusQueued] RunStatusPending None "" false None db r) as (db1 & E1 & Hf1); [done..|set_solver|].
  destruct (move_succeeds id [RunStatusPending] RunStatusRunning None "" false None db1 _ eq_refl Hf1) as (db2 & E2 & Hf2); [apply list_elem_of_here|].
  assert (Hk : isKnownRunStatus status = true) by (by destruct Hst as [->| ->]).
  destruct (move_succeeds id [RunStatusRunning] status code out true None db2 _ Hk Hf2) as (db3 & E3 & Hf3); [apply list_elem_of_here|].
  eexists db1, db2, db3, _. split_and!; [done|done| |exact Hf3|done|done|by eexists].
  destruct Hst as [->| ->]; exact E3.
Qed.
End answers.

(** ** Witnesses *)

Module JobExamples.
Import ExampleHost.
Definition nightly : Job :=
  {| jb_ID := "job-1"; jb_WorkspaceID := "ws"; jb_Name := "nightly"; jb_Command := "uptime"; jb_Schedule := "5m";
     jb_Target := {| Kind := TargetKindAll; Value := "" |}; jb_RetryPolicy := None; jb_Enabled := true; jb_CreatedAt := zero_time;
     jb_UpdatedAt := zero_time; jb_LastRunAt := None; jb_LastStatus := "" |}.
Definition run_of (id request : string) : JobRun :=
  {| r_ID := id; r_WorkspaceID := ""; r_JobID := "job-1"; r_ProbeID := "p-1"; r_RequestID := request; r_ExecutionID := "";
     r_Attempt := 1; r_MaxAttempts := 1; r_RetryScheduledAt := None; r_StartedAt := 60 * Second; r_EndedAt := None;
     r_Status := RunStatusQueued; r_AdmissionDecision := ""; r_AdmissionReason := ""; r_AdmissionRationale := "";
     r_ExitCode := None; r_Output := "" |}.

Definition no_durations (s : string) : option duration := None.
Definition all_json (s : string) : bool := true.
Notation ex_call := (job_call no_durations all_json).

Definition with_job : GoSql.DB Tables := (CreateJob no_durations nightly no_tables).2.
Definition with_run : GoSql.DB Tables := (RecordRunStart all_json (run_of "r-1" "q-1") with_job).2.
Definition pending : GoSql.DB Tables := (MarkRunPending "r-1" with_run).2.
Definition running : GoSql.DB Tables := (MarkRunRunning "r-1" pending).2.
Definition done_ : GoSql.DB Tables := (CompleteRun "r-1" RunStatusSuccess (Some 0) "ok" running).2.
Definition the_run (db : GoSql.DB Tables) : JobRun := default (run_of "" "") (head (runs (rows db))).

Lemma with_run_reachable : rtc ex_call no_tables with_run.
Proof.
  apply (rtc_l _ _ with_job); [exact (jc_create _ _ _ nightly _ _ (surjective_pairing _))|].
  apply rtc_once. exact (jc_start _ _ _ (run_of "r-1" "q-1") _ _ (surjective_pairing _)).
Qed.
Lemma done_reachable : rtc ex_call with_run done_.
Proof.
  apply (rtc_l _ _ pending); [exact (jc_pending _ _ _ "r-1" _ _ (surjective_pairing _))|].
  apply (rtc_l _ _ running); [exact (jc_running _ _ _ "r-1" _ _ (surjective_pairing _))|].
  apply rtc_once. exact (jc_complete _ _ _ "r-1" RunStatusSuccess (Some 0) "ok" None _ _ (surjective_pairing _)).
Qed.

Lemma job_tables_invariant_witness : NoDup (run_ids (rows with_run)) ∧ run_ids (rows with_run) = ["r-1"%string].
Proof. split; [|vm_compute; reflexivity]. exact (ji_runs _ (job_tables_invariant no_durations all_json with_run with_run_reachable)). Defined.

Lemma run_lifecycle_witness :
  removed_between (rows with_run) (rows done_) (the_run with_run) ∨
  ∃ r', r' ∈ runs (rows done_) ∧ run_identity r' = run_identity (the_run with_run).
Proof.
  assert (Hin : the_run with_run ∈ runs (rows with_run)) by (vm_compute; by left).
  destruct (run_lifecycle no_durations all_json with_run done_ _ with_run_reachable done_reachable Hin) as [Hr|(r' & Hr' & Hi & _)].
  - by left.
  - right. exists r'. by split.
Defined.

Lemma batch_status_summary_witness : jb_LastStatus (default nightly (head (jobs (rows done_)))) = RunStatusSuccess.
Proof.
  destruct (batch_status_summary "r-1" [RunStatusRunning] RunStatusSuccess (Some 0) "ok" true None running tt done_
    (the_run running) (default nightly (head (jobs (rows done_))))) as [[_ Hb] _];
    [vm_compute; reflexivity|vm_compute; reflexivity|vm_compute; reflexivity|vm_compute; repeat constructor|vm_compute; by left|vm_compute; reflexivity|vm_compute; reflexivity|].
  apply Hb. vm_compute. repeat constructor.
Defined.

Lemma run_transition_spec_witness : (MarkRunRunning "r-1" with_run).1 =
  inl (invalid_run_transition RunStatusQueued RunStatusRunning) ∧ rows (MarkRunRunning "r-1" with_run).2 = rows with_run.
Proof.
  split; [vm_compute; reflexivity|].
  pose proof (run_transition_spec host_answers "r-1" [RunStatusPending] RunStatusRunning None "" false None with_run _ _
    eq_refl ltac:(discriminate) (surjective_pairing _)) as Hs.
  vm_compute in Hs |- *. by destruct Hs.
Defined.

Lemma queued_run_completes_witness : ∃ db3, (CompleteRun "r-1" RunStatusSuccess (Some 0) "ok" running) = (inr tt, db3) ∧
  r_Status (the_run db3) = RunStatusSuccess.
Proof.
  destruct (queued_run_completes host_answers "r-1" RunStatusSuccess (Some 0) "ok" with_run (the_run with_run))
    as (db1 & db2 & db3 & r' & E1 & E2 & E3 & Hf & _ & Hs & _); try (vm_compute; reflexivity); [done|by left|].
  exists db3. assert (db1 = pending) as -> by (unfold pending; by rewrite E1).
  assert (db2 = running) as -> by (unfold running; by rewrite E2). split; [exact E3|].
  assert (db3 = done_) as -> by (unfold done_; by rewrite E3). vm_compute. reflexivity.
Defined.
End JobExamples.
