(* ===== verification/JobScheduler.v ===== *)
(** * The scheduler of recurring jobs
    (src/internal/controlplane/jobs/scheduler.go and lifecycle_events.go)

    A goroutine of the scheduler is a program [prog]: a tree of calls and what
    follows each answer.  A call is one lock region of the scheduler, one method
    of the store, or one call of another party (fleet, tracker, hub, admission
    evaluator, observer), whose answer is arbitrary.  Goroutines that wait for a
    timer are data, so that the recursion through [time.NewTimer] needs no fuel.
    [world_step] interleaves the calls of all goroutines.

    Timers may fire at any moment and [spec.Next] of the cron parser is an
    argument; the log lines and the wait group of [Stop] are left out. *)
From Stdlib Require Import SpecFloat.
From S2P Require Import Prelude GoStrings GoErrors GoTime GoFloat GoSort GoSql GoJson Protocol AsyncTypes AsyncStore JobRetry JobStore.
Local Open Scope go_scope.
Local Open Scope Z_scope.

(** ** Lifecycle events *)

Definition EventJobCreated : string := "job.created".
Definition EventJobUpdated : string := "job.updated".
Definition EventJobDeleted : string := "job.deleted".
Definition EventJobRunAdmissionAllowed : string := "job.run.admission_allowed".
Definition EventJobRunAdmissionQueued : string := "job.run.admission_queued".
Definition EventJobRunAdmissionDenied : string := "job.run.admission_denied".
Definition EventJobRunQueued : string := "job.run.queued".
Definition EventJobRunStarted : string := "job.run.started".
Definition EventJobRunRetryScheduled : string := "job.run.retry_scheduled".
Definition EventJobRunSucceeded : string := "job.run.succeeded".
Definition EventJobRunFailed : string := "job.run.failed".
Definition EventJobRunCanceled : string := "job.run.canceled".
Definition EventJobRunDenied : string := "job.run.denied".

Record LifecycleEvent := {
  le_Type : string; le_Timestamp : time; le_Actor : string; le_JobID : string; le_RunID : string;
  le_ExecutionID : string; le_ProbeID : string; le_Attempt : Z; le_MaxAttempts : Z; le_RequestID : string;
  le_AdmissionDecision : string; le_AdmissionReason : string; le_AdmissionRationale : rationale;
  le_DeferredUntil : option time;
}.

Definition normalize (now : time) (e : LifecycleEvent) : LifecycleEvent :=
  {| le_Type := TrimSpace (le_Type e); le_Timestamp := if IsZero (le_Timestamp e) then now else le_Timestamp e;
     le_Actor := TrimSpace (le_Actor e); le_JobID := TrimSpace (le_JobID e); le_RunID := TrimSpace (le_RunID e);
     le_ExecutionID := TrimSpace (le_ExecutionID e); le_ProbeID := TrimSpace (le_ProbeID e); le_Attempt := le_Attempt e;
     le_MaxAttempts := le_MaxAttempts e; le_RequestID := TrimSpace (le_RequestID e);
     le_AdmissionDecision := TrimSpace (le_AdmissionDecision e); le_AdmissionReason := TrimSpace (le_AdmissionReason e);
     le_AdmissionRationale := le_AdmissionRationale e; le_DeferredUntil := le_DeferredUntil e |}.

Definition Summary (e : LifecycleEvent) : string :=
  let target := TrimSpace (le_JobID e) in
  let target := if target =s "" then "unknown" else target in
  let ty := le_Type e in
  ((if ty =s EventJobCreated then "Job created: " else if ty =s EventJobUpdated then "Job updated: "
    else if ty =s EventJobDeleted then "Job deleted: " else if ty =s EventJobRunAdmissionAllowed then "Job run admission allowed: "
    else if ty =s EventJobRunAdmissionQueued then "Job run admission queued: "
    else if ty =s EventJobRunAdmissionDenied then "Job run admission denied: "
    else if ty =s EventJobRunQueued then "Job run queued: " else if ty =s EventJobRunStarted then "Job run started: "
    else if ty =s EventJobRunRetryScheduled then "Job run retry scheduled: "
    else if ty =s EventJobRunSucceeded then "Job run succeeded: " else if ty =s EventJobRunFailed then "Job run failed: "
    else if ty =s EventJobRunCanceled then "Job run canceled: " else if ty =s EventJobRunDenied then "Job run denied: "
    else "Job event: ") +:+ target)%string.

(** An event of a run with nothing to say about admission. *)
Definition run_event (ty : string) (ts : time) (run : JobRun) : LifecycleEvent :=
  {| le_Type := ty; le_Timestamp := ts; le_Actor := "scheduler"; le_JobID := r_JobID run; le_RunID := r_ID run;
     le_ExecutionID := r_ExecutionID run; le_ProbeID := r_ProbeID run; le_Attempt := r_Attempt run; le_MaxAttempts := r_MaxAttempts run;
     le_RequestID := r_RequestID run; le_AdmissionDecision := ""; le_AdmissionReason := ""; le_AdmissionRationale := NoRationale;
     le_DeferredUntil := None |}.
Definition admission_event (ty : string) (ts : time) (run : JobRun) (decision reason : string) (why : rationale) (deferred : option time) : LifecycleEvent :=
  {| le_Type := ty; le_Timestamp := ts; le_Actor := "scheduler"; le_JobID := r_JobID run; le_RunID := r_ID run;
     le_ExecutionID := r_ExecutionID run; le_ProbeID := r_ProbeID run; le_Attempt := r_Attempt run; le_MaxAttempts := r_MaxAttempts run;
     le_RequestID := r_RequestID run; le_AdmissionDecision := decision; le_AdmissionReason := reason; le_AdmissionRationale := why;
     le_DeferredUntil := deferred |}.

(** ** Pure parts *)

Definition defaultCommandTimeout : duration := 60 * Second.
Definition defaultAdmissionRetryDelay : duration := 30 * Second.
Definition AdmissionOutcomeAllow : string := "allow".
Definition AdmissionOutcomeQueue : string := "queue".
Definition AdmissionOutcomeDeny : string := "deny".

Record JobAdmissionDecision := { Outcome : string; Reason : string; Rationale : rationale; RetryAfter : duration }.

Definition inFlightTargetKey (jobID probeID : string) : string := (TrimSpace jobID +:+ "::" +:+ TrimSpace probeID)%string.

(** The loop of [uniqueSorted]; [out] is the [set] as well. *)
Fixpoint unique_ids (ids out : list string) : list string :=
  match ids with
  | [] => out
  | id :: ids =>
      let id := TrimSpace id in
      if id =s "" then unique_ids ids out
      else if existsb (String.eqb id) out then unique_ids ids out
      else unique_ids ids (out ++ [id])
  end.
Definition uniqueSorted (ids : list string) : list string := insertion_sort String.ltb (unique_ids ids []).

Definition formatResultOutput (r : CommandResultPayload) : string :=
  let stdout := TrimSpace (res_Stdout r) in
  let stderr := TrimSpace (res_Stderr r) in
  if (stdout <>s "") && (stderr <>s "") then (stdout +:+ newline +:+ stderr)%string
  else if stdout <>s "" then stdout else if stderr <>s "" then stderr else "".

Section schedule.
Context (ParseDuration : string → option duration) (cron_parse : string → result (time → time)).

Definition isScheduleDue (schedule : string) (lastRunAt : option time) (createdAt now : time) : result bool :=
  let schedule := TrimSpace schedule in
  if schedule =s "" then inl (ErrorString "schedule is required")
  else
    let anchor := if IsZero createdAt then now else createdAt in
    let anchor := match lastRunAt with Some t => t | None => anchor end in
    match ParseDuration schedule with
    | Some interval =>
        if interval <=? 0 then inl (ErrorString "interval must be > 0") else inr (negb (After (anchor + interval) now))
    | None =>
        match cron_parse schedule with
        | inl e => inl e
        | inr next => inr (negb (After (next anchor) now))
        end
    end.
End schedule.

(** ** Calls and programs *)

(** The methods of the store the scheduler uses. *)
Inductive store_req :=
  | SGetJob (id : string) | SListJobs | SGetRun (id : string) | SListActiveRunsByJob (jobID : string)
  | SRecordRunStart (run : JobRun) | SMarkRunPending (id : string) | SMarkRunRunning (id : string)
  | SMarkRunDenied (id reason : string) (why : rationale)
  | SUpdateQueuedRunAdmission (id decision reason : string) (why : rationale) (retryScheduledAt : option time)
  | SCompleteRunWithRetry (id status : string) (exitCode : option Z) (output : string) (retryScheduledAt : option time)
  | SCancelRun (id reason : string).

Definition store_answer (q : store_req) : Type :=
  match q with
  | SGetJob _ => Job | SListJobs => list Job | SGetRun _ => JobRun | SListActiveRunsByJob _ => list JobRun
  | SRecordRunStart _ => JobRun | SUpdateQueuedRunAdmission _ _ _ _ _ => JobRun
  | _ => unit
  end.

(** A goroutine that has been started: one that awaits the result of a
    command, and the two that sleep until a timer fires. *)
Inductive goroutine :=
  | AwaitRunResult (run : JobRun) (requestID : string) (job : Job) (policy : resolvedRetryPolicy) (targetKey : string)
  | RetryTimer (job : Job) (probeID targetKey executionID : string) (attempt : Z) (policy : resolvedRetryPolicy)
  | AdmissionTimer (job : Job) (probeID targetKey executionID : string) (attempt : Z) (policy : resolvedRetryPolicy) (queuedRunID : string).

Inductive call :=
  | Store (q : store_req)
  | Now
  | EvaluateJobAdmission (job : Job) (probeID : string)
  | FleetGet (probeID : string)                 (* the status of the probe *)
  | FleetListByTag (tag : string)
  | FleetList
  | claimTarget (targetKey : string)
  | releaseTarget (targetKey : string)
  | setInFlight (requestID runID targetKey : string)
  | clearInFlight (requestID : string) (releaseTarget : bool)
  | requestIDForRun (runID : string)
  | Track (requestID probeID command level : string)   (* is the pending command there *)
  | TrackerCancel (requestID : string)
  | SendTo (probeID : string) (payload : CommandPayload)
  | ReceiveResult (requestID : string)          (* None: the channel was closed *)
  | setRetry (targetKey : string) (timer : goroutine)
  | deleteRetry (targetKey : string)
  | cancelScheduledRetry (targetKey : string)
  | retryKeys (prefix : string)
  | Observe (e : LifecycleEvent)
  | Go (g : goroutine)
  | StopAll.

Definition answer (c : call) : Type :=
  match c with
  | Store q => result (store_answer q)
  | Now => time
  | EvaluateJobAdmission _ _ => JobAdmissionDecision
  | FleetGet _ => option string
  | FleetListByTag _ | FleetList => list (option string)
  | claimTarget _ | Track _ _ _ _ => bool
  | requestIDForRun _ => string
  | SendTo _ _ => option go_error
  | ReceiveResult _ => option CommandResultPayload
  | retryKeys _ => list string
  | _ => unit
  end.

Inductive prog (A : Type) : Type :=
  | Ret (a : A)
  | Do (c : call) (k : answer c → prog A).
Arguments Ret {A} _.
Arguments Do {A} _ _.

#[export] Instance prog_ret : MRet prog := λ A, Ret.
#[export] Instance prog_bind : MBind prog := λ A B f, fix bind p :=
  match p with Ret a => f a | Do c k => Do c (λ x, bind (k x)) end.
Definition do (c : call) : prog (answer c) := Do c Ret.

Fixpoint for_each {A} (l : list A) (f : A → prog unit) : prog unit :=
  match l with [] => mret tt | x :: l => _ ← f x; for_each l f end.

(** ** The scheduler *)

Section scheduler.
Context (ParseDuration : string → option duration) (cron_parse : string → result (time → time)) (json_Valid : string → bool)
  (json_Unmarshal : string → option value) (overflow : float64 → Z)
  (defaultRetryPolicy : RetryPolicy) (admissionRetryDelay : duration).

Definition admissionRationaleValue (run : JobRun) : rationale :=
  if r_AdmissionRationale run =s "" then NoRationale
  else match json_Unmarshal (r_AdmissionRationale run) with
  | Some v => ValueRationale v | None => TextRationale (r_AdmissionRationale run) false end.

Definition emitLifecycleEvent (e : LifecycleEvent) : prog unit :=
  now ← (if IsZero (le_Timestamp e) then do Now else mret (le_Timestamp e));
  do (Observe (normalize now e)).

Definition evaluateAdmission (job : Job) (probeID : string) : prog JobAdmissionDecision :=
  d ← do (EvaluateJobAdmission job probeID);
  mret {| Outcome := if Outcome d =s "" then AdmissionOutcomeAllow else Outcome d; Reason := TrimSpace (Reason d);
          Rationale := Rationale d; RetryAfter := RetryAfter d |}.

Definition probeOnline (probeID : string) : prog bool :=
  status ← do (FleetGet probeID);
  mret (match status with Some st => EqualFold st "online" | None => false end).

Definition present (l : list (option string)) : list string := omap id l.

Definition resolveTargets (target : Target) : prog (list string) :=
  if Kind target =s TargetKindProbe then mret (uniqueSorted [Value target])
  else if Kind target =s TargetKindTag then (ids ← do (FleetListByTag (Value target)); mret (uniqueSorted (present ids)))
  else if Kind target =s TargetKindAll then (ids ← do FleetList; mret (uniqueSorted (present ids)))
  else mret [].

(** *** Runs of an attempt *)

Definition request_id (job : Job) (probeID : string) (attempt : Z) (now : time) : string :=
  ("job-" +:+ jb_ID job +:+ "-" +:+ probeID +:+ "-attempt-" +:+ pretty attempt +:+ "-" +:+ pretty now)%string.

Definition new_run (job : Job) (probeID executionID : string) (attempt : Z) (policy : resolvedRetryPolicy) (now : time)
    (status decision reason raw : string) (retryScheduledAt endedAt : option time) (output : string) : JobRun :=
  {| r_ID := ""; r_WorkspaceID := ""; r_JobID := jb_ID job; r_ProbeID := probeID; r_RequestID := request_id job probeID attempt now;
     r_ExecutionID := executionID; r_Attempt := attempt; r_MaxAttempts := MaxAttempts policy; r_RetryScheduledAt := retryScheduledAt;
     r_StartedAt := now; r_EndedAt := endedAt; r_Status := status; r_AdmissionDecision := decision; r_AdmissionReason := reason;
     r_AdmissionRationale := raw; r_ExitCode := None; r_Output := output |}.

Definition ensurePendingRun (job : Job) (probeID executionID : string) (attempt : Z) (policy : resolvedRetryPolicy) (now : time)
    (queuedRunID : string) (decision : JobAdmissionDecision) : prog (result JobRun) :=
  let queuedID := TrimSpace queuedRunID in
  if queuedID <>s "" then
    r ← do (Store (SUpdateQueuedRunAdmission queuedID AdmissionOutcomeAllow (TrimSpace (Reason decision)) (Rationale decision) None));
    match r with
    | inl e => mret (inl e)
    | inr _ =>
        r ← do (Store (SMarkRunPending queuedID));
        match r with inl e => mret (inl e) | inr _ => do (Store (SGetRun queuedID)) end
    end
  else
    match mustMarshalAdmissionRationale json_Valid (Rationale decision) with
    | inl e => mret (inl e)
    | inr raw =>
        do (Store (SRecordRunStart (new_run job probeID executionID attempt policy now RunStatusPending AdmissionOutcomeAllow
                                      (TrimSpace (Reason decision)) raw None None "")))
    end.

Definition ensureQueuedRun (job : Job) (probeID executionID : string) (attempt : Z) (policy : resolvedRetryPolicy) (now : time)
    (queuedRunID : string) (decision : JobAdmissionDecision) (retryScheduledAt : time) : prog (result JobRun) :=
  let queuedID := TrimSpace queuedRunID in
  if queuedID <>s "" then
    do (Store (SUpdateQueuedRunAdmission queuedID AdmissionOutcomeQueue (TrimSpace (Reason decision)) (Rationale decision) (Some retryScheduledAt)))
  else
    match mustMarshalAdmissionRationale json_Valid (Rationale decision) with
    | inl e => mret (inl e)
    | inr raw =>
        do (Store (SRecordRunStart (new_run job probeID executionID attempt policy now RunStatusQueued AdmissionOutcomeQueue
                                      (TrimSpace (Reason decision)) raw (Some retryScheduledAt) None "")))
    end.

Definition ensureDeniedRun (job : Job) (probeID executionID : string) (attempt : Z) (policy : resolvedRetryPolicy) (now : time)
    (queuedRunID reason : string) (why : rationale) : prog (result JobRun) :=
  let queuedID := TrimSpace queuedRunID in
  if queuedID <>s "" then
    r ← do (Store (SMarkRunDenied queuedID reason why));
    match r with inl e => mret (inl e) | inr _ => do (Store (SGetRun queuedID)) end
  else
    match mustMarshalAdmissionRationale json_Valid why with
    | inl e => mret (inl e)
    | inr raw =>
        do (Store (SRecordRunStart (new_run job probeID executionID attempt policy now RunStatusDenied AdmissionOutcomeDeny
                                      (TrimSpace reason) raw None (Some now) (TrimSpace reason))))
    end.

(** *** The end of an attempt *)

(** [finishAttempt] once it is known whether, and when, to retry. *)
Definition completeAttempt (run : JobRun) (job : Job) (policy : resolvedRetryPolicy) (targetKey requestID : string) (hadInFlight : bool)
    (status : string) (exitCode : option Z) (output : string) (retryScheduledAt : option time) : prog unit :=
  r ← do (Store (SCompleteRunWithRetry (r_ID run) status exitCode output retryScheduledAt));
  match r with
  | inl _ => if hadInFlight then do (clearInFlight requestID true) else do (releaseTarget targetKey)
  | inr _ =>
      let terminalType := if status =s RunStatusSuccess then EventJobRunSucceeded
                          else if status =s RunStatusCanceled then EventJobRunCanceled else EventJobRunFailed in
      _ ← emitLifecycleEvent (run_event terminalType zero_time run);
      _ ← match retryScheduledAt with
          | Some at_ =>
              _ ← emitLifecycleEvent (run_event EventJobRunRetryScheduled at_ run);
              do (setRetry targetKey (RetryTimer job (r_ProbeID run) targetKey (r_ExecutionID run) (r_Attempt run + 1) policy))
          | None => mret tt
          end;
      let release := match retryScheduledAt with None => true | Some _ => false end in
      if hadInFlight then do (clearInFlight requestID release)
      else if release then do (releaseTarget targetKey) else mret tt
  end.

Definition finishAttempt (run : JobRun) (job : Job) (policy : resolvedRetryPolicy) (targetKey requestID : string) (hadInFlight : bool)
    (status : string) (exitCode : option Z) (output : string) : prog unit :=
  retryScheduledAt ← (if (status =s RunStatusFailed) && (r_Attempt run <? MaxAttempts policy)
                      then (now ← do Now; mret (Some (now + nextRetryDelay overflow policy (r_Attempt run)))) else mret None);
  completeAttempt run job policy targetKey requestID hadInFlight status exitCode output retryScheduledAt.

Definition awaitRunResult (run : JobRun) (requestID : string) (job : Job) (policy : resolvedRetryPolicy) (targetKey : string) : prog unit :=
  result ← do (ReceiveResult requestID);
  match result with
  | None =>
      r ← do (Store (SCancelRun (r_ID run) "command canceled"));
      _ ← match r with inl _ => mret tt | inr _ => emitLifecycleEvent (run_event EventJobRunCanceled zero_time run) end;
      do (clearInFlight requestID true)
  | Some result =>
      let status := if res_ExitCode result =? 0 then RunStatusSuccess else RunStatusFailed in
      finishAttempt run job policy targetKey requestID true status (Some (res_ExitCode result)) (formatResultOutput result)
  end.

(** *** Dispatching an attempt *)

Definition handleAllowedAdmission (job : Job) (probeID targetKey executionID : string) (attempt : Z) (policy : resolvedRetryPolicy)
    (now : time) (queuedRunID : string) (decision : JobAdmissionDecision) : prog unit :=
  r ← ensurePendingRun job probeID executionID attempt policy now queuedRunID decision;
  match r with
  | inl _ => do (releaseTarget targetKey)
  | inr run =>
      let why := admissionRationaleValue run in
      _ ← emitLifecycleEvent (admission_event EventJobRunAdmissionAllowed zero_time run AdmissionOutcomeAllow (TrimSpace (Reason decision)) (Rationale decision) None);
      _ ← emitLifecycleEvent (admission_event EventJobRunQueued (r_StartedAt run) run (r_AdmissionDecision run) (r_AdmissionReason run) why None);
      r ← do (Store (SMarkRunRunning (r_ID run)));
      match r with
      | inl _ => do (releaseTarget targetKey)
      | inr _ =>
          _ ← emitLifecycleEvent (admission_event EventJobRunStarted zero_time run (r_AdmissionDecision run) (r_AdmissionReason run) why None);
          let requestID := r_RequestID run in
          let failed hadInFlight msg := finishAttempt run job policy targetKey requestID hadInFlight RunStatusFailed None msg in
          online ← probeOnline probeID;
          if negb online then failed false "probe offline"
          else
            let payload := {| cmd_RequestID := requestID; cmd_Command := "/bin/sh"; cmd_Args := ["-lc"; jb_Command job];
                              cmd_Timeout := defaultCommandTimeout; cmd_Level := CapObserve; cmd_Stream := true |} in
            pending ← do (Track requestID probeID (jb_Command job) (cmd_Level payload));
            if negb pending then failed false "command tracking unavailable"
            else
              _ ← do (setInFlight requestID (r_ID run) targetKey);
              err ← do (SendTo probeID payload);
              match err with
              | Some _ => _ ← do (TrackerCancel requestID); failed true "probe offline"
              | None => do (Go (AwaitRunResult run requestID job policy targetKey))
              end
      end
  end.

Definition handleQueuedAdmission (job : Job) (probeID targetKey executionID : string) (attempt : Z) (policy : resolvedRetryPolicy)
    (now : time) (queuedRunID : string) (decision : JobAdmissionDecision) : prog unit :=
  let delay := if 0 <? RetryAfter decision then RetryAfter decision else admissionRetryDelay in
  let delay := if delay <=? 0 then defaultAdmissionRetryDelay else delay in
  let scheduledAt := now + delay in
  r ← ensureQueuedRun job probeID executionID attempt policy now queuedRunID decision scheduledAt;
  match r with
  | inl _ => do (releaseTarget targetKey)
  | inr run =>
      _ ← emitLifecycleEvent (admission_event EventJobRunAdmissionQueued now run AdmissionOutcomeQueue (TrimSpace (Reason decision)) (Rationale decision) (Some scheduledAt));
      do (setRetry targetKey (AdmissionTimer job probeID targetKey executionID attempt policy (r_ID run)))
  end.

Definition handleDeniedAdmission (job : Job) (probeID targetKey executionID : string) (attempt : Z) (policy : resolvedRetryPolicy)
    (now : time) (queuedRunID : string) (decision : JobAdmissionDecision) : prog unit :=
  let reason := TrimSpace (Reason decision) in
  let reason := if reason =s "" then "admission denied by policy" else reason in
  r ← ensureDeniedRun job probeID executionID attempt policy now queuedRunID reason (Rationale decision);
  match r with
  | inl _ => do (releaseTarget targetKey)
  | inr run =>
      _ ← emitLifecycleEvent (admission_event EventJobRunAdmissionDenied now run AdmissionOutcomeDeny reason (Rationale decision) None);
      _ ← emitLifecycleEvent (admission_event EventJobRunDenied now run (r_AdmissionDecision run) (r_AdmissionReason run) (admissionRationaleValue run) None);
      do (releaseTarget targetKey)
  end.

Definition dispatchAttempt (job : Job) (probeID targetKey executionID : string) (attempt : Z) (policy : resolvedRetryPolicy)
    (now : time) (queuedRunID : string) : prog unit :=
  decision ← evaluateAdmission job probeID;
  if Outcome decision =s AdmissionOutcomeQueue
  then handleQueuedAdmission job probeID targetKey executionID attempt policy now queuedRunID decision
  else if Outcome decision =s AdmissionOutcomeDeny
  then handleDeniedAdmission job probeID targetKey executionID attempt policy now queuedRunID decision
  else handleAllowedAdmission job probeID targetKey executionID attempt policy now queuedRunID decision.

(** What a goroutine does: the timers from the moment they fire. *)
Definition goroutine_body (g : goroutine) : prog unit :=
  match g with
  | AwaitRunResult run requestID job policy targetKey => awaitRunResult run requestID job policy targetKey
  | RetryTimer job probeID targetKey executionID attempt policy =>
      _ ← do (deleteRetry targetKey);
      latest ← do (Store (SGetJob (jb_ID job)));
      match latest with
      | inr latest =>
          if negb (jb_Enabled latest) then do (releaseTarget targetKey)
          else if MaxAttempts policy <? attempt then do (releaseTarget targetKey)
          else now ← do Now; dispatchAttempt latest probeID targetKey executionID attempt policy now ""
      | inl _ => do (releaseTarget targetKey)
      end
  | AdmissionTimer job probeID targetKey executionID attempt policy queuedRunID =>
      _ ← do (deleteRetry targetKey);
      latest ← do (Store (SGetJob (jb_ID job)));
      match latest with
      | inr latest =>
          if negb (jb_Enabled latest) then do (releaseTarget targetKey)
          else
            run ← do (Store (SGetRun queuedRunID));
            match run with
            | inr run =>
                if r_Status run <>s RunStatusQueued then do (releaseTarget targetKey)
                else now ← do Now; dispatchAttempt latest probeID targetKey executionID attempt policy now queuedRunID
            | inl _ => do (releaseTarget targetKey)
            end
      | inl _ => do (releaseTarget targetKey)
      end
  end.

Definition dispatchProbe (job : Job) (policy : resolvedRetryPolicy) (now : time) (probeID : string) : prog unit :=
  let targetKey := inFlightTargetKey (jb_ID job) probeID in
  claimed ← do (claimTarget targetKey);
  if negb claimed then mret tt
  else
    let executionID := ("jobexec-" +:+ jb_ID job +:+ "-" +:+ probeID +:+ "-" +:+ pretty now)%string in
    dispatchAttempt job probeID targetKey executionID 1 policy now "".

Definition dispatchJob (job : Job) (now : time) : prog (option go_error) :=
  probeIDs ← resolveTargets (jb_Target job);
  if Z.of_nat (length probeIDs) =? 0 then mret (Some (ErrorString "no probes resolved for target"))
  else match resolveRetryPolicy ParseDuration (jb_RetryPolicy job) defaultRetryPolicy with
  | inl e => mret (Some (errorf_w "resolve retry policy" e))
  | inr policy => _ ← for_each probeIDs (dispatchProbe job policy now); mret None
  end.

(** *** Entry points *)

Definition runOnce (now : time) : prog unit :=
  r ← do (Store SListJobs);
  match r with
  | inl _ => mret tt
  | inr jobs =>
      for_each jobs (λ job,
        if negb (jb_Enabled job) then mret tt
        else match isScheduleDue ParseDuration cron_parse (jb_Schedule job) (jb_LastRunAt job) (jb_CreatedAt job) now with
        | inr true => _ ← dispatchJob job now; mret tt
        | _ => mret tt
        end)
  end.

Definition TriggerNow (jobID : string) : prog (option go_error) :=
  r ← do (Store (SGetJob jobID));
  match r with
  | inl e => mret (Some e)
  | inr job => now ← do Now; dispatchJob job now
  end.

Record CancelJobSummary := { CanceledRuns : Z; AlreadyTerminalRuns : Z; CanceledRetries : Z }.

Definition cancelScheduledRetriesForJob (jobID : string) : prog Z :=
  let jobID := TrimSpace jobID in
  if jobID =s "" then mret 0
  else
    keys ← do (retryKeys (jobID +:+ "::")%string);
    _ ← for_each keys (λ key, do (cancelScheduledRetry key));
    mret (Z.of_nat (length keys)).

(** [requestIDForRun] and the cancellation of the command that runs. *)
Definition cancelTracked (runID : string) : prog unit :=
  requestID ← do (requestIDForRun runID);
  if requestID <>s "" then do (TrackerCancel requestID) else mret tt.

(** The loop of [CancelJob]; an error ends it with the summary so far. *)
Fixpoint cancel_runs (l : list JobRun) (sum : CancelJobSummary) : prog (CancelJobSummary * option go_error) :=
  match l with
  | [] => mret (sum, None)
  | run :: l =>
      r ← do (Store (SCancelRun (r_ID run) "canceled via API"));
      match r with
      | inl e =>
          if IsInvalidRunTransition e
          then cancel_runs l {| CanceledRuns := CanceledRuns sum; AlreadyTerminalRuns := AlreadyTerminalRuns sum + 1; CanceledRetries := CanceledRetries sum |}
          else mret (sum, Some e)
      | inr _ =>
          _ ← emitLifecycleEvent (run_event EventJobRunCanceled zero_time run);
          _ ← cancelTracked (r_ID run);
          cancel_runs l {| CanceledRuns := CanceledRuns sum + 1; AlreadyTerminalRuns := AlreadyTerminalRuns sum; CanceledRetries := CanceledRetries sum |}
      end
  end.

Definition CancelJob (jobID : string) : prog (CancelJobSummary * option go_error) :=
  let none := {| CanceledRuns := 0; AlreadyTerminalRuns := 0; CanceledRetries := 0 |} in
  r ← do (Store (SListActiveRunsByJob jobID));
  match r with
  | inl e => mret (none, Some e)
  | inr runs =>
      out ← cancel_runs runs none;
      match out with
      | (sum, Some e) => mret (sum, Some e)
      | (sum, None) =>
          canceled ← cancelScheduledRetriesForJob jobID;
          mret (if 0 <? canceled
                then {| CanceledRuns := CanceledRuns sum; AlreadyTerminalRuns := AlreadyTerminalRuns sum; CanceledRetries := canceled |}
                else sum, None)
      end
  end.

Definition CancelRun (jobID runID : string) : prog (result JobRun) :=
  r ← do (Store (SGetRun runID));
  match r with
  | inl e => mret (inl e)
  | inr run =>
      if TrimSpace (r_JobID run) <>s TrimSpace jobID then mret (inl (Sentinel SqlErrNoRows))
      else
        r ← do (Store (SCancelRun runID "canceled via API"));
        match r with
        | inl e => mret (inl e)
        | inr _ =>
            _ ← emitLifecycleEvent (run_event EventJobRunCanceled zero_time run);
            _ ← cancelTracked runID;
            _ ← do (cancelScheduledRetry (inFlightTargetKey (r_JobID run) (r_ProbeID run)));
            do (Store (SGetRun runID))
        end
  end.

Definition Stop : prog unit := do StopAll.
End scheduler.

(** ** The world of the goroutines *)

(** The maps of the Go struct.  [pendingRetryCancel] holds the context of a
    sleeping goroutine, [sleeping] the goroutine that a context belongs to. *)
Record Scheduler := {
  inFlight : gmap string string;
  runRequest : gmap string string;
  requestTarget : gmap string string;
  activeTargets : gset string;
  pendingRetryCancel : gmap string nat;
}.
Definition no_scheduler : Scheduler :=
  {| inFlight := ∅; runRequest := ∅; requestTarget := ∅; activeTargets := ∅; pendingRetryCancel := ∅ |}.

Record World := {
  sched : Scheduler;
  store : GoSql.DB Tables;
  sleeping : gmap nat goroutine;
  next_ctx : nat;
  sent : list (string * CommandPayload);
  observed : list LifecycleEvent;
  pool : list (prog unit);
}.

Definition with_active (s : Scheduler) (a : gset string) : Scheduler :=
  {| inFlight := inFlight s; runRequest := runRequest s; requestTarget := requestTarget s; activeTargets := a;
     pendingRetryCancel := pendingRetryCancel s |}.
Definition with_pending (s : Scheduler) (a : gset string) (p : gmap string nat) : Scheduler :=
  {| inFlight := inFlight s; runRequest := runRequest s; requestTarget := requestTarget s; activeTargets := a;
     pendingRetryCancel := p |}.

Definition with_sched (w : World) (s : Scheduler) : World :=
  {| sched := s; store := store w; sleeping := sleeping w; next_ctx := next_ctx w; sent := sent w; observed := observed w; pool := pool w |}.
Definition with_store (w : World) (d : GoSql.DB Tables) : World :=
  {| sched := sched w; store := d; sleeping := sleeping w; next_ctx := next_ctx w; sent := sent w; observed := observed w; pool := pool w |}.
Definition with_timers (w : World) (s : Scheduler) (l : gmap nat goroutine) (n : nat) : World :=
  {| sched := s; store := store w; sleeping := l; next_ctx := n; sent := sent w; observed := observed w; pool := pool w |}.
Definition with_pool (w : World) (l : list (prog unit)) : World :=
  {| sched := sched w; store := store w; sleeping := sleeping w; next_ctx := next_ctx w; sent := sent w; observed := observed w; pool := l |}.
Definition with_sent (w : World) (m : string * CommandPayload) : World :=
  {| sched := sched w; store := store w; sleeping := sleeping w; next_ctx := next_ctx w; sent := sent w ++ [m]; observed := observed w; pool := pool w |}.
Definition with_observed (w : World) (e : LifecycleEvent) : World :=
  {| sched := sched w; store := store w; sleeping := sleeping w; next_ctx := next_ctx w; sent := sent w; observed := observed w ++ [e]; pool := pool w |}.

(** *** The lock regions *)

Definition claim_target (k : string) (s : Scheduler) : bool * Scheduler :=
  let k := TrimSpace k in
  if k =s "" then (false, s)
  else if decide (k ∈ activeTargets s) then (false, s)
  else (true, with_active s ({[k]} ∪ activeTargets s)).

Definition release_target (k : string) (s : Scheduler) : Scheduler :=
  let k := TrimSpace k in
  if k =s "" then s else with_active s (activeTargets s ∖ {[k]}).

Definition set_in_flight (requestID runID k : string) (s : Scheduler) : Scheduler :=
  {| inFlight := <[requestID := runID]> (inFlight s); runRequest := <[runID := requestID]> (runRequest s);
     requestTarget := <[requestID := k]> (requestTarget s); activeTargets := activeTargets s; pendingRetryCancel := pendingRetryCancel s |}.

Definition clear_in_flight (requestID : string) (release : bool) (s : Scheduler) : Scheduler :=
  {| inFlight := delete requestID (inFlight s);
     runRequest := match inFlight s !! requestID with Some runID => delete runID (runRequest s) | None => runRequest s end;
     requestTarget := delete requestID (requestTarget s);
     activeTargets := match requestTarget s !! requestID with
                      | Some k => if release then activeTargets s ∖ {[k]} else activeTargets s | None => activeTargets s end;
     pendingRetryCancel := pendingRetryCancel s |}.

Definition request_of_run (runID : string) (s : Scheduler) : string :=
  let runID := TrimSpace runID in
  if runID =s "" then "" else default "" (runRequest s !! runID).

(** [cancel()] ends the goroutine if it still sleeps. *)
Definition cancel_ctx (ctx : option nat) (l : gmap nat goroutine) : gmap nat goroutine :=
  match ctx with Some n => delete n l | None => l end.

Definition set_retry (k : string) (g : goroutine) (w : World) : World :=
  let s := sched w in
  with_timers w (with_pending s (activeTargets s) (<[k := next_ctx w]> (pendingRetryCancel s)))
    (<[next_ctx w := g]> (cancel_ctx (pendingRetryCancel s !! k) (sleeping w))) (S (next_ctx w)).

Definition delete_retry (k : string) (w : World) : World :=
  let s := sched w in with_sched w (with_pending s (activeTargets s) (delete k (pendingRetryCancel s))).

Definition cancel_retry (k : string) (w : World) : World :=
  let s := sched w in
  let k := TrimSpace k in
  if k =s "" then w
  else match pendingRetryCancel s !! k with
  | None => w
  | Some ctx => with_timers w (with_pending s (activeTargets s ∖ {[k]}) (delete k (pendingRetryCancel s)))
                  (delete ctx (sleeping w)) (next_ctx w)
  end.

Definition retry_keys (prefix : string) (s : Scheduler) : list string :=
  List.filter (String.prefix prefix) (map fst (map_to_list (pendingRetryCancel s))).

(** One lock region of [Stop]; the tracker forgets the requests. *)
Definition stop_all (w : World) : World :=
  with_timers w no_scheduler
    (foldr delete (sleeping w) (map snd (map_to_list (pendingRetryCancel (sched w))))) (next_ctx w).

Section world.
Context `{Host} (ParseDuration : string → option duration) (cron_parse : string → result (time → time)) (json_Valid : string → bool)
  (json_Unmarshal : string → option value) (overflow : float64 → Z)
  (defaultRetryPolicy : RetryPolicy) (admissionRetryDelay : duration).

Definition run_store (q : store_req) : GoSql.M Tables (store_answer q) :=
  match q with
  | SGetJob id => GetJob id
  | SListJobs => ListJobs
  | SGetRun id => GetRun id
  | SListActiveRunsByJob id => ListActiveRunsByJob id
  | SRecordRunStart run => RecordRunStart json_Valid run
  | SMarkRunPending id => MarkRunPending id
  | SMarkRunRunning id => MarkRunRunning id
  | SMarkRunDenied id reason why => MarkRunDenied json_Valid id reason why
  | SUpdateQueuedRunAdmission id d reason why t => UpdateQueuedRunAdmission json_Valid id d reason why t
  | SCompleteRunWithRetry id st code out t => CompleteRunWithRetry id st code out t
  | SCancelRun id reason => JobStore.CancelRun id reason
  end.

Notation body := (goroutine_body json_Valid json_Unmarshal overflow admissionRetryDelay).

(** What a call does and may answer.  The other parties answer anything. *)
Definition effect (c : call) (w : World) : answer c → World → Prop :=
  match c as c return answer c → World → Prop with
  | Store q => λ x w', ∃ d, run_store q (store w) = (x, d) ∧ w' = with_store w d
  | claimTarget k => λ x w', x = (claim_target k (sched w)).1 ∧ w' = with_sched w (claim_target k (sched w)).2
  | releaseTarget k => λ _ w', w' = with_sched w (release_target k (sched w))
  | setInFlight requestID runID k => λ _ w', w' = with_sched w (set_in_flight requestID runID k (sched w))
  | clearInFlight requestID release => λ _ w', w' = with_sched w (clear_in_flight requestID release (sched w))
  | requestIDForRun runID => λ x w', x = request_of_run runID (sched w) ∧ w' = w
  | setRetry k g => λ _ w', w' = set_retry k g w
  | deleteRetry k => λ _ w', w' = delete_retry k w
  | cancelScheduledRetry k => λ _ w', w' = cancel_retry k w
  | retryKeys prefix => λ x w', x = retry_keys prefix (sched w) ∧ w' = w
  | SendTo probeID payload => λ x w', w' = match x with None => with_sent w (probeID, payload) | Some _ => w end
  | Observe e => λ _ w', w' = with_observed w e
  | Go g => λ _ w', w' = with_pool w (pool w ++ [body g])
  | StopAll => λ _ w', w' = stop_all w
  | _ => λ _ w', w' = w
  end.

(** The programs that the ticker and the HTTP handlers start. *)
Definition discard {A} (p : prog A) : prog unit := _ ← p; mret tt.
Inductive entry : prog unit → Prop :=
  | e_tick now : entry (runOnce ParseDuration cron_parse json_Valid json_Unmarshal overflow defaultRetryPolicy admissionRetryDelay now)
  | e_trigger id : entry (discard (TriggerNow ParseDuration json_Valid json_Unmarshal overflow defaultRetryPolicy admissionRetryDelay id))
  | e_cancel_job id : entry (discard (CancelJob id))
  | e_cancel_run job run : entry (discard (CancelRun job run))
  | e_stop : entry Stop.

(** One step, in which only calls that [ok] admits are made: somebody starts a program, a goroutine makes a call or ends, a
    timer fires, or another part of the control plane uses the store. *)
Inductive world_step (ok : call → World → Prop) (w : World) : World → Prop :=
  | w_start p : entry p → world_step ok w (with_pool w (pool w ++ [p]))
  | w_call l1 c k l2 x w' :
      pool w = l1 ++ Do c k :: l2 → ok c w → effect c (with_pool w (l1 ++ l2)) x w' → world_step ok w (with_pool w' (k x :: pool w'))
  | w_end l1 l2 : pool w = l1 ++ Ret tt :: l2 → world_step ok w (with_pool w (l1 ++ l2))
  | w_fire n g : sleeping w !! n = Some g →
      world_step ok w (with_pool (with_timers w (sched w) (delete n (sleeping w)) (next_ctx w)) (pool w ++ [body g]))
  | w_store d : world_step ok w (with_store w d).
End world.

Definition idle_world (d : GoSql.DB Tables) : World :=
  {| sched := no_scheduler; store := d; sleeping := ∅; next_ctx := 0; sent := []; observed := []; pool := [] |}.
