(* ===== verification/SchedulerSafety.v ===== *)
(** * Exclusive targets and bounded attempts of the scheduler
    (src/internal/controlplane/jobs/scheduler.go)

    Every goroutine owns resources: the claim on a target, the in-flight entry
    of a request, or a timer that has fired.  [wp] is a precondition on programs
    in terms of what they own; it is shown of every goroutine of the scheduler
    once, and then holds along every interleaving. *)
From Stdlib Require Import SpecFloat.
From S2P Require Import Prelude GoStrings GoErrors GoTime GoFloat GoSort GoSql GoJson Protocol AsyncTypes AsyncStore JobRetry JobStore JobScheduler.
Local Open Scope go_scope.
Local Open Scope Z_scope.

(** ** Ownership *)

Inductive res := Claim (k : string) | Entry (requestID k : string) | Fired (k : string).
#[export] Instance res_eq_dec : EqDecision res.
Proof. solve_decision. Defined.
Notation own := (list res).

(** A target key, as [inFlightTargetKey] makes them. *)
Definition proper_key (k : string) : Prop := TrimSpace k = k ∧ k ≠ ""%string.

Definition attempt_ok (attempt : Z) (policy : resolvedRetryPolicy) : Prop := 1 <= attempt <= MaxAttempts policy.

(** A goroutine that may sleep for the target [k]. *)
Definition timer_ok (k : string) (g : goroutine) : Prop :=
  proper_key k ∧
  match g with
  | RetryTimer _ _ k' _ attempt policy | AdmissionTimer _ _ k' _ attempt policy _ => k' = k ∧ attempt_ok attempt policy
  | AwaitRunResult _ _ _ _ _ => False
  end.

(** What a call requires of its caller. *)
Definition pre (c : call) (o : own) : Prop :=
  match c with
  | Store (SRecordRunStart r) => 1 <= r_Attempt r <= r_MaxAttempts r
  | claimTarget k => o = [] ∧ proper_key k
  | releaseTarget k => proper_key k ∧ ∃ o', o = Claim k :: o'
  | setInFlight _ _ k => o = [Claim k]
  | clearInFlight r true => ∃ k, o = [Claim k; Entry r k]
  | clearInFlight r false => ∃ k, o = [Entry r k]
  | setRetry k g => timer_ok k g ∧ ∃ o', o = Claim k :: o'
  | deleteRetry k => o = [Fired k]
  | SendTo _ payload => ∃ k, o = [Claim k; Entry (cmd_RequestID payload) k]
  | ReceiveResult r => ∃ k, o = [Claim k; Entry r k]
  | Go (AwaitRunResult run r _ policy k) => o = [Claim k; Entry r k] ∧ proper_key k ∧ 1 <= r_Attempt run
  | Go _ => False
  | _ => True
  end.

(** What the caller owns after the answer. *)
Definition post (c : call) : answer c → own → own :=
  match c as c return answer c → own → own with
  | claimTarget k => λ x _, if x then [Claim k] else []
  | releaseTarget _ | setRetry _ _ => λ _ o, tail o
  | setInFlight r _ k => λ _ _, [Claim k; Entry r k]
  | clearInFlight _ _ | Go _ => λ _ _, []
  | deleteRetry k => λ _ _, [Claim k]
  | _ => λ _ o, o
  end.

(** What the store promises of the runs it returns. *)
Definition answers (c : call) : answer c → Prop :=
  match c as c return answer c → Prop with
  | Store q =>
      match q as q return result (store_answer q) → Prop with
      | SRecordRunStart _ | SGetRun _ | SUpdateQueuedRunAdmission _ _ _ _ _ =>
          λ x, match x with inr r => 1 <= r_Attempt r | inl _ => True end
      | _ => λ _, True
      end
  | _ => λ _, True
  end.

Fixpoint wp {A} (p : prog A) (o : own) (Q : A → own → Prop) : Prop :=
  match p with
  | Ret a => Q a o
  | Do c k => pre c o ∧ ∀ x, answers c x → wp (k x) (post c x o) Q
  end.
Definition safe (p : prog unit) (o : own) : Prop := wp p o (λ _ o', o' = []).

Lemma wp_mono {A} (p : prog A) o (Q Q' : A → own → Prop) : (∀ a o, Q a o → Q' a o) → wp p o Q → wp p o Q'.
Proof. intros HQ. revert o. induction p as [a|c k IH]; intros o; [apply HQ|]. intros [Hp Hk]. split; [done|]. intros x Hx. by apply IH, Hk. Qed.

Lemma wp_bind {A B} (p : prog A) (f : A → prog B) o Q : wp p o (λ a o', wp (f a) o' Q) → wp (p ≫= f) o Q.
Proof. revert o. induction p as [a|c k IH]; intros o; [done|]. intros [Hp Hk]. split; [done|]. intros x Hx. by apply IH, Hk. Qed.

Lemma wp_ret {A} (a : A) o (Q : A → own → Prop) : Q a o → wp (mret a) o Q.
Proof. done. Qed.

Lemma wp_do c o (Q : answer c → own → Prop) : pre c o → (∀ x, answers c x → Q x (post c x o)) → wp (do c) o Q.
Proof. by split. Qed.

(** A call that changes nothing and asks for nothing. *)
Lemma wp_emit e o (Q : unit → own → Prop) : Q tt o → wp (emitLifecycleEvent e) o Q.
Proof. intros HQ. apply wp_bind. case_match; [apply wp_do; [done|]; intros x _|apply wp_ret]; by split; [|intros [] _]. Qed.

Lemma wp_for_each {A} (l : list A) f o (Q : unit → own → Prop) :
  (∀ x, x ∈ l → wp (f x) o (λ _ o', o' = o)) → Q tt o → wp (for_each l f) o Q.
Proof.
  intros Hf HQ. induction l as [|x l IH]; [done|]. simpl. apply wp_bind.
  eapply wp_mono; [|apply Hf; by left]. intros a o' ->. apply IH. intros y Hy. apply Hf. by right.
Qed.

#[local] Opaque emitLifecycleEvent.

Ltac wp_pre := cbn [pre]; first [ done | by eauto | idtac ].
Ltac wp_step :=
  first
    [ apply wp_bind | apply wp_emit | apply wp_ret
    | apply wp_do; [solve [wp_pre] | let x := fresh "x" in intros x ?; cbn [post]] ].

(** ** The programs of the scheduler *)

Section programs.
Context (ParseDuration : string → option duration) (cron_parse : string → result (time → time)) (json_Valid : string → bool)
  (json_Unmarshal : string → option value) (overflow : float64 → Z)
  (defaultRetryPolicy : RetryPolicy) (admissionRetryDelay : duration).

(** Programs that leave ownership alone. *)
Definition neutral {A} (p : prog A) : Prop := ∀ o (Q : A → own → Prop), (∀ a, Q a o) → wp p o Q.

Lemma neutral_evaluateAdmission job probeID : neutral (evaluateAdmission job probeID).
Proof. intros o Q HQ. do 2 wp_step. apply HQ. Qed.
Lemma neutral_probeOnline probeID : neutral (probeOnline probeID).
Proof. intros o Q HQ. do 2 wp_step. apply HQ. Qed.
Lemma neutral_resolveTargets t : neutral (resolveTargets t).
Proof. intros o Q HQ. unfold resolveTargets. repeat case_match; repeat wp_step; apply HQ. Qed.
Lemma neutral_cancelTracked runID : neutral (cancelTracked runID).
Proof. intros o Q HQ. do 2 wp_step. case_match; wp_step; apply HQ. Qed.

(** Preparing the run of an attempt: any answer, and a run has an attempt. *)
Definition run_answer (Q : result JobRun → own → Prop) (o : own) : Prop :=
  (∀ e, Q (inl e) o) ∧ (∀ r, 1 <= r_Attempt r → Q (inr r) o).

Lemma wp_get_run id o Q : run_answer Q o → wp (do (Store (SGetRun id))) o Q.
Proof. intros [He Hr]. apply wp_do; [done|]. intros [e|r] Hx; [apply He|by apply Hr]. Qed.
Lemma wp_record run o Q : 1 <= r_Attempt run <= r_MaxAttempts run → run_answer Q o → wp (do (Store (SRecordRunStart run))) o Q.
Proof. intros Ha [He Hr]. apply wp_do; [done|]. intros [e|r] Hx; [apply He|by apply Hr]. Qed.
Lemma wp_update_run id d re why t o Q : run_answer Q o → wp (do (Store (SUpdateQueuedRunAdmission id d re why t))) o Q.
Proof. intros [He Hr]. apply wp_do; [done|]. intros [e|r] Hx; [apply He|by apply Hr]. Qed.

Lemma wp_ensurePendingRun job probeID ex attempt policy now q d o Q :
  attempt_ok attempt policy → run_answer Q o → wp (ensurePendingRun json_Valid job probeID ex attempt policy now q d) o Q.
Proof.
  intros Ha HQ. unfold ensurePendingRun. cbv zeta. case_match.
  - wp_step. apply wp_update_run. split; [intros e; apply HQ|]. intros _ _. do 2 wp_step.
    case_match; [apply HQ|by apply wp_get_run].
  - case_match; [apply HQ|]. by apply wp_record.
Qed.

Lemma wp_ensureQueuedRun job probeID ex attempt policy now q d at_ o Q :
  attempt_ok attempt policy → run_answer Q o → wp (ensureQueuedRun json_Valid job probeID ex attempt policy now q d at_) o Q.
Proof.
  intros Ha HQ. unfold ensureQueuedRun. cbv zeta. case_match; [by apply wp_update_run|].
  case_match; [apply HQ|]. by apply wp_record.
Qed.

Lemma wp_ensureDeniedRun job probeID ex attempt policy now q re why o Q :
  attempt_ok attempt policy → run_answer Q o → wp (ensureDeniedRun json_Valid job probeID ex attempt policy now q re why) o Q.
Proof.
  intros Ha HQ. unfold ensureDeniedRun. cbv zeta. case_match.
  - do 2 wp_step. case_match; [apply HQ|by apply wp_get_run].
  - case_match; [apply HQ|]. by apply wp_record.
Qed.

(** What an attempt owns when it ends. *)
Definition attempt_own (had : bool) (r k : string) : own := if had then [Claim k; Entry r k] else [Claim k].

(** The end of an attempt gives back what it owned, or hands the claim to the
    timer of the next attempt. *)
Lemma safe_completeAttempt run job policy k r had status code out at_ :
  proper_key k → 1 <= r_Attempt run → (is_Some at_ → r_Attempt run < MaxAttempts policy) →
  safe (completeAttempt run job policy k r had status code out at_) (attempt_own had r k).
Proof.
  intros Hk Ha Hat. do 2 wp_step. destruct x as [e|[]].
  - destruct had; (apply wp_do; [wp_pre|done]).
  - do 2 wp_step. apply wp_bind. destruct at_ as [t|].
    + do 2 wp_step. apply wp_do.
      * specialize (Hat ltac:(eauto)). unfold pre, timer_ok, attempt_ok. split; [|destruct had; eauto].
        split_and!; [done..|lia|lia].
      * intros [] _. destruct had; cbn [attempt_own post tail]; [apply wp_do; [wp_pre|done]|done].
    + apply wp_ret. destruct had; (apply wp_do; [wp_pre|done]).
Qed.

#[local] Opaque completeAttempt.

Lemma safe_finishAttempt run job policy k r had status code out :
  proper_key k → 1 <= r_Attempt run →
  safe (finishAttempt overflow run job policy k r had status code out) (attempt_own had r k).
Proof.
  intros Hk Ha. unfold finishAttempt. apply wp_bind.
  destruct ((status =s RunStatusFailed) && (r_Attempt run <? MaxAttempts policy)) eqn:E.
  - bools. repeat wp_step. by apply safe_completeAttempt.
  - wp_step. apply safe_completeAttempt; [done..|]. by intros [? [=]].
Qed.

#[local] Opaque finishAttempt.

Lemma safe_awaitRunResult run r job policy k :
  proper_key k → 1 <= r_Attempt run → safe (awaitRunResult overflow run r job policy k) [Claim k; Entry r k].
Proof.
  intros Hk Ha. do 2 wp_step. destruct x as [result|]; [by apply (safe_finishAttempt _ _ _ _ _ true)|].
  do 2 wp_step. apply wp_bind. destruct x; wp_step; (apply wp_do; [wp_pre|done]).
Qed.

Section attempt.
Context (job : Job) (probeID k executionID : string) (attempt : Z) (policy : resolvedRetryPolicy) (now : time) (q : string).
Context (Hk : proper_key k) (Ha : attempt_ok attempt policy).

Lemma safe_release : safe (do (releaseTarget k)) [Claim k].
Proof. apply wp_do; [wp_pre|done]. Qed.
Hint Resolve safe_release : legator.

Lemma safe_handleAllowedAdmission d :
  safe (handleAllowedAdmission json_Valid json_Unmarshal overflow job probeID k executionID attempt policy now q d) [Claim k].
Proof.
  apply wp_bind, wp_ensurePendingRun; [done|]. split; [intros; apply safe_release|]. intros run Hr. cbv zeta.
  do 4 wp_step. wp_step. wp_step. destruct x as [e|[]]; [apply safe_release|]. do 2 wp_step.
  apply wp_bind, neutral_probeOnline. intros []; cbn [negb]; [|by apply (safe_finishAttempt _ _ _ _ _ false)].
  do 2 wp_step. destruct x; cbn [negb]; [|by apply (safe_finishAttempt _ _ _ _ _ false)].
  do 4 wp_step. destruct x0 as [e|]; [do 2 wp_step; by apply (safe_finishAttempt _ _ _ _ _ true)|].
  apply wp_do; [by split|done].
Qed.

Lemma safe_handleQueuedAdmission d :
  safe (handleQueuedAdmission json_Valid admissionRetryDelay job probeID k executionID attempt policy now q d) [Claim k].
Proof.
  apply wp_bind, wp_ensureQueuedRun; [done|]. split; [intros; apply safe_release|]. intros run Hr. do 2 wp_step.
  apply wp_do; [|done]. split; [by split|eauto].
Qed.

Lemma safe_handleDeniedAdmission d :
  safe (handleDeniedAdmission json_Valid json_Unmarshal job probeID k executionID attempt policy now q d) [Claim k].
Proof.
  apply wp_bind, wp_ensureDeniedRun; [done|]. split; [intros; apply safe_release|]. intros run Hr. do 4 wp_step. apply safe_release.
Qed.

Lemma safe_dispatchAttempt :
  safe (dispatchAttempt json_Valid json_Unmarshal overflow admissionRetryDelay job probeID k executionID attempt policy now q) [Claim k].
Proof.
  apply wp_bind, neutral_evaluateAdmission. intros d.
  repeat case_match; [apply safe_handleQueuedAdmission|apply safe_handleDeniedAdmission|apply safe_handleAllowedAdmission].
Qed.
End attempt.

Notation body := (goroutine_body json_Valid json_Unmarshal overflow admissionRetryDelay).

Lemma safe_timer k g : timer_ok k g → safe (body g) [Fired k].
Proof.
  destruct g as [|job probeID k' ex attempt policy|job probeID k' ex attempt policy q]; intros [Hk Hg]; [done| |];
    destruct Hg as [-> Ha]; do 4 wp_step; destruct x0 as [e|latest]; try by apply safe_release.
  - case_match; [by apply safe_release|]. case_match; [by apply safe_release|]. do 2 wp_step. by apply safe_dispatchAttempt.
  - case_match; [by apply safe_release|]. do 2 wp_step. destruct x0 as [e|run]; [by apply safe_release|].
    case_match; [by apply safe_release|]. do 2 wp_step. by apply safe_dispatchAttempt.
Qed.

(** *** Entry points *)

Lemma inFlightTargetKey_proper j p : proper_key (inFlightTargetKey j p).
Proof. split; [by apply TrimSpace_join|]. unfold inFlightTargetKey. by destruct (TrimSpace j). Qed.

Lemma safe_dispatchProbe job policy now probeID :
  sound_policy policy →
  safe (dispatchProbe json_Valid json_Unmarshal overflow admissionRetryDelay job policy now probeID) [].
Proof.
  intros Hp. apply wp_bind, wp_do; [split; [done|apply inFlightTargetKey_proper]|]. intros [] _; [|done].
  apply safe_dispatchAttempt; [apply inFlightTargetKey_proper|]. destruct Hp. by split.
Qed.

Lemma neutral_dispatchJob job now (Q : option go_error → own → Prop) :
  (∀ a, Q a []) →
  wp (dispatchJob ParseDuration json_Valid json_Unmarshal overflow defaultRetryPolicy admissionRetryDelay job now) [] Q.
Proof.
  intros HQ. apply wp_bind, neutral_resolveTargets. intros ids. case_match; [apply HQ|].
  destruct (resolveRetryPolicy _ _ _) as [e|policy] eqn:E; [apply HQ|]. wp_step.
  apply wp_for_each; [|apply HQ]. intros id _. apply safe_dispatchProbe. by eapply resolve_sound.
Qed.

Lemma neutral_cancel_runs l sum : neutral (cancel_runs l sum).
Proof.
  intros o Q HQ. revert sum. induction l as [|run l IH]; intros sum; [apply HQ|]. cbn [cancel_runs].
  do 2 wp_step. destruct x as [e|[]]; [case_match; [apply IH|apply HQ]|].
  do 2 wp_step. apply wp_bind, neutral_cancelTracked. intros []. apply IH.
Qed.

Lemma neutral_cancelScheduledRetriesForJob id : neutral (cancelScheduledRetriesForJob id).
Proof.
  intros o Q HQ. unfold cancelScheduledRetriesForJob. cbv zeta. case_match; [apply HQ|]. do 3 wp_step.
  apply wp_for_each; [|apply HQ]. intros key _. by apply wp_do.
Qed.

Lemma neutral_CancelJob id : neutral (CancelJob id).
Proof.
  intros o Q HQ. do 2 wp_step. destruct x as [e|runs]; [apply HQ|]. apply wp_bind, neutral_cancel_runs.
  intros [sum [e|]]; [apply HQ|]. apply wp_bind, neutral_cancelScheduledRetriesForJob. intros n. apply HQ.
Qed.

Lemma neutral_CancelRun job id : neutral (CancelRun job id).
Proof.
  intros o Q HQ. do 2 wp_step. destruct x as [e|run]; [apply HQ|]. case_match; [apply HQ|]. do 2 wp_step.
  destruct x as [e|[]]; [apply HQ|]. do 2 wp_step. apply wp_bind, neutral_cancelTracked. intros []. do 3 wp_step. apply HQ.
Qed.

Lemma entry_safe p :
  entry ParseDuration cron_parse json_Valid json_Unmarshal overflow defaultRetryPolicy admissionRetryDelay p → safe p [].
Proof.
  destruct 1 as [now|id|id|job run|].
  - do 2 wp_step. destruct x as [e|jobs]; [done|]. apply wp_for_each; [|done]. intros job _.
    case_match; [done|]. case_match; [done|]. case_match; [|done]. apply wp_bind, neutral_dispatchJob. done.
  - apply wp_bind. do 2 wp_step. destruct x as [e|job]; [done|]. do 2 wp_step. by apply neutral_dispatchJob.
  - apply wp_bind. by apply neutral_CancelJob.
  - apply wp_bind. by apply neutral_CancelRun.
  - by apply wp_do.
Qed.
End programs.

(** ** The maps of the scheduler, and who owns what *)

Definition retry_ctx (w : World) (k : string) : option nat := pendingRetryCancel (sched w) !! k.
Definition timer_key (g : goroutine) : string :=
  match g with AwaitRunResult _ _ _ _ k | RetryTimer _ _ k _ _ _ | AdmissionTimer _ _ k _ _ _ _ => k end.

(** [accounts w R]: the resources [R] of all goroutines and the pending timers
    account for the claimed targets and the in-flight requests, exactly. *)
Record accounts (w : World) (R : own) : Prop := {
  ac_nodup : NoDup R;
  ac_active k : k ∈ activeTargets (sched w) ↔ Claim k ∈ R ∨ is_Some (retry_ctx w k);
  ac_apart k : Claim k ∈ R → retry_ctx w k = None;
  ac_entry r k : requestTarget (sched w) !! r = Some k ↔ Entry r k ∈ R;
  ac_inflight r : is_Some (inFlight (sched w) !! r) ↔ is_Some (requestTarget (sched w) !! r);
  ac_pending k n : retry_ctx w k = Some n → (∃ g, sleeping w !! n = Some g ∧ timer_key g = k) ∨ (Fired k ∈ R ∧ sleeping w !! n = None);
  ac_sleeping n g : sleeping w !! n = Some g → retry_ctx w (timer_key g) = Some n;
  ac_fired k : Fired k ∈ R → ∃ n, retry_ctx w k = Some n ∧ sleeping w !! n = None;
  ac_fresh n : (next_ctx w <= n)%nat → sleeping w !! n = None ∧ ∀ k, retry_ctx w k ≠ Some n;
}.

Lemma accounts_permute w R R' : R ≡ₚ R' → accounts w R → accounts w R'.
Proof.
  intros HR [Hn Ha Hp He Hi Hpe Hs Hf Hfr]. assert (Hin : ∀ x, x ∈ R ↔ x ∈ R') by (intros; by rewrite HR).
  split; [by rewrite <- HR|..]; try done; intros *; rewrite <- ?Hin; auto.
Qed.
#[export] Instance accounts_perm w : Proper ((≡ₚ) ==> iff) (accounts w).
Proof. intros R R' HR. split; by apply accounts_permute. Qed.

(** *** What each call does to the accounts *)

(** Nothing the accounts speak of. *)
Lemma accounts_same w w' R :
  sched w' = sched w → sleeping w' = sleeping w → next_ctx w' = next_ctx w → accounts w R → accounts w' R.
Proof.
  intros Hs Hl Hn [Hnd Ha Hp He Hi Hpe Hsl Hf Hfr]. unfold retry_ctx in *.
  split; unfold retry_ctx; rewrite ?Hs, ?Hl, ?Hn; done.
Qed.

Lemma NoDup_change (o o' R : own) : NoDup (o ++ R) → NoDup o' → (∀ x, x ∈ o' → x ∈ o ∨ x ∉ R) → NoDup (o' ++ R).
Proof.
  rewrite !NoDup_app. intros (Ho & Hd & HR) Ho' Hx. split_and!; [done| |done]. intros x Hin.
  destruct (Hx x Hin); [by apply Hd|done].
Qed.

Lemma accounts_claim w k R :
  proper_key k → accounts w R →
  accounts (with_sched w (claim_target k (sched w)).2) (if (claim_target k (sched w)).1 then Claim k :: R else R).
Proof.
  intros [Hk Hne] Hac. unfold claim_target. cbv zeta. rewrite Hk, (proj2 (String.eqb_neq _ _) Hne).
  destruct (decide _) as [Hin|Hin]; cbn [fst snd]; [by apply (accounts_same w)|].
  destruct Hac as [Hnd Ha Hp He Hi Hpe Hsl Hf Hfr]. unfold retry_ctx in *.
  assert (Hn : Claim k ∉ R ∧ pendingRetryCancel (sched w) !! k = None).
  { rewrite Ha in Hin. split; [by intros ?; apply Hin; left|]. apply eq_None_not_Some. intros ?. apply Hin. by right. }
  destruct Hn as [HnR Hnp]. split; unfold retry_ctx; simpl; try done.
  - by apply NoDup_cons.
  - intros k'. rewrite elem_of_union, elem_of_singleton, elem_of_cons, Ha. naive_solver.
  - intros k'. rewrite elem_of_cons. naive_solver.
  - intros r k'. rewrite elem_of_cons, He. naive_solver.
  - intros k' n Hpk. destruct (Hpe k' n Hpk) as [?|[? ?]]; [by left|right]. split; [by right|done].
  - intros k'. rewrite elem_of_cons. naive_solver.
Qed.

Lemma accounts_drop w k R :
  accounts w (Claim k :: R) → accounts (with_sched w (with_active (sched w) (activeTargets (sched w) ∖ {[k]}))) R.
Proof.
  intros [Hnd Ha Hp He Hi Hpe Hsl Hf Hfr].
  apply NoDup_cons in Hnd as [HnR Hnd]. unfold retry_ctx in *. setoid_rewrite elem_of_cons in Ha. setoid_rewrite elem_of_cons in Hp.
  setoid_rewrite elem_of_cons in He. setoid_rewrite elem_of_cons in Hpe. setoid_rewrite elem_of_cons in Hf.
  specialize (Hp k (or_introl eq_refl)) as Hpk. split; unfold retry_ctx; simpl; try done.
  - intros k'. rewrite elem_of_difference, elem_of_singleton, Ha. split.
    + intros [[[[= ->]|?]|?] Hn]; [done|by left|by right].
    + intros [Hc|Hc]; (split; [by eauto|]); intros ->; [done|]. rewrite Hpk in Hc. by destruct Hc.
  - intros k'. naive_solver.
  - intros r k'. rewrite He. naive_solver.
  - intros k' n Hn. destruct (Hpe k' n Hn) as [?|[[?|?] ?]]; naive_solver.
  - intros k'. naive_solver.
Qed.

Lemma accounts_release w k R :
  proper_key k → accounts w (Claim k :: R) → accounts (with_sched w (release_target k (sched w))) R.
Proof.
  intros [Hk Hne] Hac. unfold release_target. cbv zeta. rewrite Hk, (proj2 (String.eqb_neq _ _) Hne). by apply accounts_drop.
Qed.

Lemma accounts_set_in_flight w r run k R :
  requestTarget (sched w) !! r = None → accounts w (Claim k :: R) →
  accounts (with_sched w (set_in_flight r run k (sched w))) (Claim k :: Entry r k :: R).
Proof.
  intros Hr [Hnd Ha Hp He Hi Hpe Hsl Hf Hfr]. unfold retry_ctx in *.
  assert (HnE : ∀ k', Entry r k' ∉ Claim k :: R) by (intros k' Hin; apply He in Hin; congruence).
  assert (Hperm : Claim k :: Entry r k :: R ≡ₚ Entry r k :: Claim k :: R) by constructor.
  rewrite Hperm. split; unfold retry_ctx; simpl; try done.
  - by apply NoDup_cons.
  - intros k'. rewrite Ha, !elem_of_cons. naive_solver.
  - intros k' [?|?]%elem_of_cons; [done|auto].
  - intros r' k'. rewrite (elem_of_cons _ (Entry r' k')), <- He. destruct (decide (r' = r)) as [->|Hne].
    + rewrite lookup_insert_eq, Hr. naive_solver.
    + rewrite lookup_insert_ne by done. naive_solver.
  - intros r'. destruct (decide (r' = r)) as [->|Hne]; [rewrite !lookup_insert_eq; naive_solver|by rewrite !lookup_insert_ne].
  - intros k' n Hn. destruct (Hpe k' n Hn) as [?|[? ?]]; [by left|right]. split; [by right|done].
  - intros k' [?|?]%elem_of_cons; [done|auto].
Qed.

Lemma accounts_clear_keep w r k R :
  accounts w (Entry r k :: R) → accounts (with_sched w (clear_in_flight r false (sched w))) R.
Proof.
  intros [Hnd Ha Hp He Hi Hpe Hsl Hf Hfr]. apply NoDup_cons in Hnd as [HnR Hnd]. unfold retry_ctx in *.
  assert (Hr : requestTarget (sched w) !! r = Some k) by (apply He; by left).
  split; unfold retry_ctx; simpl; try done.
  - intros k'. rewrite Hr, Ha, elem_of_cons. naive_solver.
  - intros k' Hc. apply Hp. by right.
  - intros r' k'. destruct (decide (r' = r)) as [->|Hne].
    + rewrite lookup_delete_eq. split; [done|]. intros Hc. assert (requestTarget (sched w) !! r = Some k') by (apply He; by right). naive_solver.
    + rewrite lookup_delete_ne, He, elem_of_cons by done. naive_solver.
  - intros r'. destruct (decide (r' = r)) as [->|Hne]; [by rewrite !lookup_delete_eq|by rewrite !lookup_delete_ne].
  - intros k' n Hn. destruct (Hpe k' n Hn) as [?|[[?|?]%elem_of_cons ?]]; naive_solver.
  - intros k' Hc. apply Hf. by right.
Qed.

Lemma accounts_clear w r k R :
  accounts w (Claim k :: Entry r k :: R) → accounts (with_sched w (clear_in_flight r true (sched w))) R.
Proof.
  intros Hac. assert (Hr : requestTarget (sched w) !! r = Some k) by (apply (ac_entry _ _ Hac); set_solver).
  assert (Hac' : accounts w (Entry r k :: Claim k :: R)) by (rewrite perm_swap; exact Hac).
  apply accounts_clear_keep, accounts_drop in Hac'. eapply accounts_same; [..|exact Hac']; simpl; [|done..].
  unfold clear_in_flight, with_active. simpl. by rewrite Hr.
Qed.

Lemma accounts_set_retry w k g R :
  timer_key g = k → accounts w (Claim k :: R) → accounts (set_retry k g w) R.
Proof.
  intros Hg [Hnd Ha Hp He Hi Hpe Hsl Hf Hfr]. apply NoDup_cons in Hnd as [HnR Hnd]. unfold retry_ctx in *.
  pose proof (Hp k ltac:(by left)) as Hpk. destruct (Hfr (next_ctx w) ltac:(lia)) as [Hfs Hfp].
  unfold set_retry. cbv zeta. rewrite Hpk. split; unfold retry_ctx; simpl; try done.
  - intros k'. rewrite Ha, elem_of_cons. destruct (decide (k' = k)) as [->|Hne].
    + rewrite lookup_insert_eq. naive_solver.
    + rewrite lookup_insert_ne by done. naive_solver.
  - intros k' Hc. rewrite lookup_insert_ne; [apply Hp; by right|]. by intros ->.
  - intros r k'. rewrite He, elem_of_cons. naive_solver.
  - intros k' n Hn. destruct (decide (k' = k)) as [->|Hne].
    + rewrite lookup_insert_eq in Hn. simplify_eq. left. exists g. by rewrite lookup_insert_eq.
    + rewrite lookup_insert_ne in Hn by done. assert (n ≠ next_ctx w) by (intros ->; by eapply Hfp).
      rewrite lookup_insert_ne by done. destruct (Hpe k' n Hn) as [?|[[?|?]%elem_of_cons ?]]; naive_solver.
  - intros n g' Hn. destruct (decide (n = next_ctx w)) as [->|Hne].
    + rewrite lookup_insert_eq in Hn. simplify_eq. by rewrite lookup_insert_eq.
    + rewrite lookup_insert_ne in Hn by done. pose proof (Hsl n g' Hn) as Hs'.
      rewrite lookup_insert_ne; [done|]. intros E. rewrite <- E in Hs'. congruence.
  - intros k' Hc. destruct (Hf k' ltac:(by right)) as (n & Hn & Hs). exists n.
    assert (n ≠ next_ctx w) by (intros ->; by eapply Hfp). rewrite (lookup_insert_ne (sleeping w)) by done. split; [|done].
    rewrite lookup_insert_ne; [done|]. intros ->. congruence.
  - intros n Hle. destruct (Hfr n ltac:(lia)) as [Hs Hn]. rewrite (lookup_insert_ne (sleeping w)) by lia. split; [done|].
    intros k'. destruct (decide (k' = k)) as [->|Hne]; [rewrite lookup_insert_eq; intros [= <-]; lia|by rewrite lookup_insert_ne].
Qed.

Lemma accounts_delete_retry w k R : accounts w (Fired k :: R) → accounts (delete_retry k w) (Claim k :: R).
Proof.
  intros [Hnd Ha Hp He Hi Hpe Hsl Hf Hfr]. apply NoDup_cons in Hnd as [HnR Hnd]. unfold retry_ctx in *.
  destruct (Hf k ltac:(by left)) as (n & Hn & Hs).
  assert (HnC : Claim k ∉ R) by (intros Hc; rewrite (Hp k ltac:(by right)) in Hn; done).
  unfold delete_retry. cbv zeta. split; unfold retry_ctx; simpl; try done.
  - by apply NoDup_cons.
  - intros k'. rewrite Ha, !elem_of_cons. destruct (decide (k' = k)) as [->|Hne].
    + rewrite lookup_delete_eq. naive_solver.
    + rewrite lookup_delete_ne by done. naive_solver.
  - intros k' [[= ->]|Hc]%elem_of_cons; [apply lookup_delete_eq|]. rewrite lookup_delete_ne; [apply Hp; by right|]. by intros ->.
  - intros r k'. rewrite He, !elem_of_cons. naive_solver.
  - intros k' n' Hn'. destruct (decide (k' = k)) as [->|Hne]; [by rewrite lookup_delete_eq in Hn'|].
    rewrite lookup_delete_ne in Hn' by done. destruct (Hpe k' n' Hn') as [?|[[?|?]%elem_of_cons ?]]; [by left|congruence|].
    right. split; [by right|done].
  - intros n' g Hg. pose proof (Hsl n' g Hg) as Hs'. rewrite lookup_delete_ne; [done|].
    intros ->. congruence.
  - intros k' [?|Hc]%elem_of_cons; [done|]. destruct (Hf k' ltac:(by right)) as (n' & Hn' & Hs'). exists n'.
    rewrite lookup_delete_ne; [done|]. by intros ->.
  - intros n' Hle. destruct (Hfr n' Hle) as [Hs' Hn']. split; [done|]. intros k'.
    destruct (decide (k' = k)) as [->|Hne]; [by rewrite lookup_delete_eq|by rewrite lookup_delete_ne].
Qed.

Lemma accounts_cancel w k R : Fired (TrimSpace k) ∉ R → accounts w R → accounts (cancel_retry k w) R.
Proof.
  intros Hnf Hac. unfold cancel_retry. cbv zeta. destruct (_ =s _); [done|]. revert Hnf. generalize (TrimSpace k). clear k. intros k Hnf.
  destruct (_ !! k) as [n|] eqn:E; [|done]. destruct Hac as [Hnd Ha Hp He Hi Hpe Hsl Hf Hfr]. unfold retry_ctx in *.
  destruct (Hpe k n E) as [(g & Hg & Hgk)|[? _]]; [|done].
  split; unfold retry_ctx; simpl; try done.
  - intros k'. rewrite elem_of_difference, elem_of_singleton, Ha. destruct (decide (k' = k)) as [->|Hne].
    + rewrite lookup_delete_eq. split; [naive_solver|]. intros [Hc|[? [=]]]. rewrite (Hp k Hc) in E. done.
    + rewrite lookup_delete_ne by done. naive_solver.
  - intros k' Hc. destruct (decide (k' = k)) as [->|Hne]; [apply lookup_delete_eq|]. rewrite lookup_delete_ne by done. auto.
  - intros k' n' Hn'. destruct (decide (k' = k)) as [->|Hne]; [by rewrite lookup_delete_eq in Hn'|].
    rewrite lookup_delete_ne in Hn' by done. destruct (Hpe k' n' Hn') as [(g' & Hg' & Hk')|[? Hs']].
    + left. exists g'. rewrite lookup_delete_ne; [done|]. intros ->. congruence.
    + right. split; [done|]. destruct (decide (n' = n)) as [->|]; [apply lookup_delete_eq|by rewrite lookup_delete_ne].
  - intros n' g' Hg'. destruct (decide (n' = n)) as [->|Hne]; [by rewrite lookup_delete_eq in Hg'|].
    rewrite lookup_delete_ne in Hg' by done. pose proof (Hsl n' g' Hg') as Hs'. rewrite lookup_delete_ne; [done|]. congruence.
  - intros k' Hc. destruct (Hf k' Hc) as (n' & Hn' & Hs'). exists n'. rewrite lookup_delete_ne by (by intros ->). split; [done|].
    destruct (decide (n' = n)) as [->|]; [apply lookup_delete_eq|by rewrite lookup_delete_ne].
  - intros n' Hle. destruct (Hfr n' Hle) as [Hs' Hn']. split.
    + destruct (decide (n' = n)) as [->|]; [apply lookup_delete_eq|by rewrite lookup_delete_ne].
    + intros k'. destruct (decide (k' = k)) as [->|Hne]; [by rewrite lookup_delete_eq|by rewrite lookup_delete_ne].
Qed.

(** A timer fires: its goroutine leaves its bed, and has still to remove its
    entry. *)
Lemma accounts_fire w n g R :
  sleeping w !! n = Some g → accounts w R →
  accounts (with_timers w (sched w) (delete n (sleeping w)) (next_ctx w)) (Fired (timer_key g) :: R).
Proof.
  intros Hg [Hnd Ha Hp He Hi Hpe Hsl Hf Hfr]. unfold retry_ctx in *. pose proof (Hsl n g Hg) as Hn.
  assert (HnF : Fired (timer_key g) ∉ R) by (intros Hc; destruct (Hf _ Hc) as (n' & Hn' & Hs'); congruence).
  split; unfold retry_ctx; simpl; try done.
  - by apply NoDup_cons.
  - intros k'. rewrite Ha, elem_of_cons. naive_solver.
  - intros k' [?|Hc]%elem_of_cons; [done|auto].
  - intros r k'. rewrite He, elem_of_cons. naive_solver.
  - intros k' n' Hn'. destruct (decide (n' = n)) as [->|Hne].
    + right. rewrite lookup_delete_eq. split; [|done]. destruct (Hpe k' n Hn') as [(g' & Hg' & <-)|[_ ?]]; [|congruence].
      simplify_eq. by left.
    + rewrite lookup_delete_ne by done. destruct (Hpe k' n' Hn') as [?|[? ?]]; [by left|right]. split; [by right|done].
  - intros n' g' Hg'. destruct (decide (n' = n)) as [->|Hne]; [by rewrite lookup_delete_eq in Hg'|].
    rewrite lookup_delete_ne in Hg' by done. auto.
  - intros k' [[= ->]|Hc]%elem_of_cons; [exists n; by rewrite lookup_delete_eq|]. destruct (Hf k' Hc) as (n' & Hn' & Hs').
    exists n'. split; [done|]. destruct (decide (n' = n)) as [->|]; [apply lookup_delete_eq|by rewrite lookup_delete_ne].
  - intros n' Hle. destruct (Hfr n' Hle) as [Hs' Hn']. split; [|done].
    destruct (decide (n' = n)) as [->|]; [apply lookup_delete_eq|by rewrite lookup_delete_ne].
Qed.

(** ** Every interleaving *)

(** Goroutine [p] has woken up and is about to remove its timer of [k]. *)
Definition at_delete (k : string) (p : prog unit) : Prop := ∃ next, p = Do (deleteRetry k) next.

(** The calls of an undisturbed scheduler: request ids are not reused while in
    flight, no retry is canceled in the moment between its timer firing and its
    goroutine taking the lock, and the scheduler is not stopped. *)
Definition orderly (c : call) (w : World) : Prop :=
  match c with
  | setInFlight r _ _ => requestTarget (sched w) !! r = None
  | cancelScheduledRetry k => ∀ p, p ∈ pool w → ¬ at_delete (TrimSpace k) p
  | StopAll => False
  | _ => True
  end.

(** What a call leaves to the goroutine it starts. *)
Definition spawned (c : call) : list own :=
  match c with Go (AwaitRunResult _ r _ _ k) => [[Claim k; Entry r k]] | _ => [] end.

Section steps.
Context `{Host} (ParseDuration : string → option duration) (cron_parse : string → result (time → time)) (json_Valid : string → bool)
  (json_Unmarshal : string → option value) (overflow : float64 → Z)
  (defaultRetryPolicy : RetryPolicy) (admissionRetryDelay : duration).
Notation body := (goroutine_body json_Valid json_Unmarshal overflow admissionRetryDelay).
Notation effect := (effect json_Valid json_Unmarshal overflow admissionRetryDelay).
Notation step := (world_step ParseDuration cron_parse json_Valid json_Unmarshal overflow defaultRetryPolicy admissionRetryDelay).

Lemma GetRun_attempt id db r db' : GetRun id db = (inr r, db') → 1 <= r_Attempt r.
Proof.
  intros [Hq _]%query_inr. case_match; [|done]. injection Hq as <-. cbn [r_Attempt scanRun].
  match goal with |- context [?a <=? 0] => destruct (Z.leb_spec a 0); lia end.
Qed.

Lemma RecordRunStart_attempt run db r db' : RecordRunStart json_Valid run db = (inr r, db') → 1 <= r_Attempt r.
Proof.
  unfold RecordRunStart. do 3 (case_match; [done|]). intros E. apply bind_inr in E as (now & db1 & _ & E).
  apply bind_inr in E as (id & db2 & _ & E). cbv zeta in E. case_match; [done|].
  apply bind_inr in E as ([] & db3 & _ & E%transaction_inr).
  repeat (apply bind_inr in E as (? & ? & _ & E)). injection E as <- _. cbn [r_Attempt with_workspace defaulted_run].
  destruct (Z.leb_spec (r_Attempt run) 0); lia.
Qed.

Lemma UpdateQueuedRunAdmission_attempt id d re why t db r db' :
  UpdateQueuedRunAdmission json_Valid id d re why t db = (inr r, db') → 1 <= r_Attempt r.
Proof.
  intros E. apply bind_inr in E as (run & db1 & _ & E). case_match; [done|].
  unfold setRunAdmission, with_run_id in E. cbv zeta in E. case_match; [done|]. case_match; [done|].
  apply bind_inr in E as (n & db2 & _ & E). case_match; [done|]. by eapply GetRun_attempt.
Qed.

Lemma effect_answers c w x w' : effect c w x w' → answers c x.
Proof.
  destruct c as [q| | | | | | | | | | | | | | | | | | | | |]; try done. destruct q; try done; intros (d & E & _); simpl in x, E |- *.
  all: destruct x as [e|r]; [done|]; eauto using GetRun_attempt, RecordRunStart_attempt, UpdateQueuedRunAdmission_attempt.
Qed.

Lemma lookup_foldr_delete {A} (m : gmap nat A) l n g : foldr delete m l !! n = Some g → m !! n = Some g.
Proof. induction l as [|i l IH]; simpl; [done|]. intros [_ Hg]%lookup_delete_Some. auto. Qed.

Lemma effect_timers c o w x w' :
  pre c o → effect c w x w' → (∀ n g, sleeping w !! n = Some g → timer_ok (timer_key g) g) →
  ∀ n g, sleeping w' !! n = Some g → timer_ok (timer_key g) g.
Proof.
  intros Hp He Hs n g Hg.
  assert (Hsame : sleeping w' = sleeping w → timer_ok (timer_key g) g) by (intros E; rewrite E in Hg; eauto).
  destruct c; simpl in He; try (apply Hsame; by destruct_and?; destruct_or?; subst).
  - destruct He as (d & _ & ->). by apply Hsame.
  - subst. destruct x; by apply Hsame.
  - subst. destruct Hp as [Ht _]. unfold set_retry in Hg. simpl in Hg.
    destruct (decide (n = next_ctx w)) as [->|Hne].
    + rewrite lookup_insert_eq in Hg. simplify_eq. destruct g; destruct Ht as [Hk Ht]; [done|by destruct Ht as [-> ?]..].
    + rewrite lookup_insert_ne in Hg by done. eapply Hs.
      destruct (pendingRetryCancel (sched w) !! targetKey) as [m|]; simpl in Hg; [|exact Hg].
      by apply lookup_delete_Some in Hg as [_ Hg].
  - subst. unfold cancel_retry in Hg. cbv zeta in Hg. repeat case_match; eauto. simpl in Hg.
    apply lookup_delete_Some in Hg as [_ Hg]. eauto.
  - subst. eapply Hs. eapply lookup_foldr_delete. exact Hg.
Qed.

(** A call keeps the books. *)
Lemma effect_accounts c o R w x w' :
  pre c o → orderly c w → (∀ k, c = cancelScheduledRetry k → Fired (TrimSpace k) ∉ o ++ R) →
  effect c w x w' → accounts w (o ++ R) → accounts w' (post c x o ++ R ++ concat (spawned c)).
Proof.
  intros Hp Ho Hf He Hac.
  assert (Hsame : sched w' = sched w → sleeping w' = sleeping w → next_ctx w' = next_ctx w → accounts w' (o ++ R ++ [])).
  { intros. rewrite app_nil_r. by eapply accounts_same. }
  destruct c; cbn [spawned concat post] in *; try (simpl in He; destruct_and?; subst; by apply Hsame).
  - destruct He as (d & _ & ->). by apply Hsame.
  - destruct Hp as [-> Hk]. destruct He as [-> ->]. rewrite app_nil_r.
    pose proof (accounts_claim w targetKey R Hk Hac) as Hc. by destruct (claim_target _ _).1.
  - destruct Hp as [Hk [o' ->]]. simpl in He. subst. rewrite app_nil_r. by apply accounts_release.
  - simpl in Hp, Ho, He. subst. rewrite app_nil_r. by apply accounts_set_in_flight.
  - simpl in He. subst. rewrite app_nil_r. match goal with |- context [clear_in_flight _ ?b _] => destruct b end; destruct Hp as [k ->]; simpl.
    + by apply (accounts_clear _ _ k).
    + by apply (accounts_clear_keep _ _ k).
  - simpl in He. subst. destruct x; by apply Hsame.
  - destruct Hp as [Ht [o' ->]]. simpl in He. subst. rewrite app_nil_r. apply accounts_set_retry; [|done].
    destruct timer; destruct Ht as [_ Ht]; [done|by destruct Ht as [-> _]..].
  - simpl in Hp, He. subst. rewrite app_nil_r. by apply accounts_delete_retry.
  - simpl in He. subst. rewrite app_nil_r. by apply accounts_cancel; [apply Hf|].
  - simpl in He. subst. destruct g; [|done..]. destruct Hp as [-> _]. simpl.
    rewrite (Permutation_app_comm R). by apply (accounts_same w).
Qed.

(** A goroutine and what it owns; one whose timer fired has not moved yet. *)
Definition thread_ok (p : prog unit) (o : own) : Prop := safe p o ∧ ∀ k, Fired k ∈ o → at_delete k p.

Record threads_ok (w : World) (owns : list own) : Prop := {
  to_threads : Forall2 thread_ok (pool w) owns;
  to_timers n g : sleeping w !! n = Some g → timer_ok (timer_key g) g;
}.

Lemma post_no_fired c x o k : pre c o → Fired k ∈ post c x o → Fired k ∈ o.
Proof.
  destruct c; simpl; try done; intros Hp Hin.
  - destruct x; set_solver.
  - destruct Hp as [_ [o' ->]]. by right.
  - set_solver.
  - by apply not_elem_of_nil in Hin.
  - destruct Hp as [_ [o' ->]]. by right.
  - set_solver.
  - by apply not_elem_of_nil in Hin.
Qed.

Lemma thread_call c k o x : thread_ok (Do c k) o → answers c x → thread_ok (k x) (post c x o).
Proof.
  intros [[Hp Hk] Hf] Hx. split; [by apply Hk|]. intros t Ht. pose proof (post_no_fired c x o t Hp Ht) as Hin.
  destruct (Hf t Hin) as [next E]. inversion E as [[Hc]]. subst c. simpl in Ht. set_solver.
Qed.

Lemma effect_pool c o w x w' owns :
  pre c o → effect c w x w' → Forall2 thread_ok (pool w) owns → Forall2 thread_ok (pool w') (owns ++ spawned c).
Proof.
  intros Hp He Ht. assert (Hsame : pool w' = pool w → Forall2 thread_ok (pool w') (owns ++ [])) by (intros ->; by rewrite app_nil_r).
  destruct c; cbn [spawned]; try (apply Hsame; simpl in He; by destruct_and?; subst).
  - destruct He as (d & _ & ->). by apply Hsame.
  - simpl in He. subst. apply Hsame. by destruct x.
  - simpl in He. subst. apply Hsame. unfold cancel_retry. cbv zeta. by repeat case_match.
  - simpl in He. subst. destruct g; [|done..]. destruct Hp as (_ & Hk & Ha). simpl. apply Forall2_app; [done|].
    constructor; [|constructor]. split; [by apply safe_awaitRunResult|]. set_solver.
Qed.

(** In an orderly call of [cancelScheduledRetry], no timer of that target has
    just fired. *)
Lemma no_fired_timer (l : list (prog unit)) owns k :
  Forall2 thread_ok l owns → (∀ p, p ∈ l → ¬ at_delete k p) → Fired k ∉ concat owns.
Proof.
  intros Ht Hn Hin. apply list_elem_of_In, in_concat in Hin as (o & Ho%list_elem_of_In & Hin%list_elem_of_In).
  apply list_elem_of_lookup in Ho as [i Hi]. destruct (Forall2_lookup_r _ _ _ _ _ Ht Hi) as (p & Hpi & [_ Hf]).
  apply (Hn p); [by eapply list_elem_of_lookup_2|by apply Hf].
Qed.

Lemma entry_thread p :
  entry ParseDuration cron_parse json_Valid json_Unmarshal overflow defaultRetryPolicy admissionRetryDelay p → thread_ok p [].
Proof. intros He. split; [by eapply entry_safe|]. intros k Hk. by apply not_elem_of_nil in Hk. Qed.

Lemma fired_thread g : timer_ok (timer_key g) g → thread_ok (body g) [Fired (timer_key g)].
Proof.
  intros Hg. split; [by apply safe_timer|]. intros k [= ->]%list_elem_of_singleton. destruct g; [by destruct Hg|..]; by eexists.
Qed.

(** The goroutines stay well behaved, whatever calls are made. *)
Lemma threads_step ok w w' owns : step ok w w' → threads_ok w owns → ∃ owns', threads_ok w' owns'.
Proof.
  intros [p He|l1 c k l2 x w1 Hp Ho He|l1 l2 Hp|n g Hg|d] [Ht Htm].
  - exists (owns ++ [[]]). split; [|done]. apply Forall2_app; [done|]. constructor; [by apply entry_thread|constructor].
  - rewrite Hp in Ht. apply Forall2_app_inv_l in Ht as (o1 & o2 & H1 & H2 & ->).
    apply Forall2_cons_inv_l in H2 as (o & o3 & Hth & H3 & ->). pose proof Hth as [[Hpre _] _].
    exists (post c x o :: (o1 ++ o3) ++ spawned c). split; [|exact (effect_timers c o _ x w1 Hpre He Htm)].
    constructor; [by eapply thread_call, effect_answers|]. eapply effect_pool; [done|exact He|]. by apply Forall2_app.
  - rewrite Hp in Ht. apply Forall2_app_inv_l in Ht as (o1 & o2 & H1 & H2 & ->).
    apply Forall2_cons_inv_l in H2 as (o & o3 & _ & H3 & ->). exists (o1 ++ o3). split; [by apply Forall2_app|done].
  - exists (owns ++ [[Fired (timer_key g)]]). split; [|intros m g'; simpl; intros [_ Hg']%lookup_delete_Some; eauto].
    apply Forall2_app; [done|]. constructor; [by eapply fired_thread, Htm|constructor].
  - by exists owns.
Qed.

Record world_ok (w : World) (owns : list own) : Prop := {
  wo_threads : threads_ok w owns;
  wo_accounts : accounts w (concat owns);
}.

Lemma world_call w owns l1 c k l2 x w' :
  pool w = l1 ++ Do c k :: l2 → orderly c w → effect c (with_pool w (l1 ++ l2)) x w' → world_ok w owns →
  ∃ owns', world_ok (with_pool w' (k x :: pool w')) owns'.
Proof.
  intros Hpool Ho He [[Ht Htm] Hac]. pose proof Ht as Hall. rewrite Hpool in Ht.
  apply Forall2_app_inv_l in Ht as (o1 & o2 & H1 & H2 & ->). apply Forall2_cons_inv_l in H2 as (o & o3 & Hth & H3 & ->).
  set (w0 := with_pool w (l1 ++ l2)) in *. pose proof Hth as [[Hp _] _].
  assert (Hperm : concat (o1 ++ o :: o3) ≡ₚ o ++ concat (o1 ++ o3)).
  { rewrite !concat_app. simpl. by rewrite app_assoc, (Permutation_app_comm (concat o1)), <- app_assoc. }
  assert (Hac0 : accounts w0 (o ++ concat (o1 ++ o3))) by (apply (accounts_same w); [done..|by rewrite <- Hperm]).
  assert (Hcancel : ∀ t, c = cancelScheduledRetry t → Fired (TrimSpace t) ∉ o ++ concat (o1 ++ o3)).
  { intros t ->. rewrite <- Hperm. by eapply no_fired_timer. }
  assert (Ho0 : orderly c w0) by (destruct c; try done; intros p Hin; apply Ho; rewrite Hpool; simpl in Hin; set_solver).
  exists (post c x o :: (o1 ++ o3) ++ spawned c). split; [split|].
  - constructor; [by eapply thread_call, effect_answers|]. eapply effect_pool; [done|exact He|]. by apply Forall2_app.
  - exact (effect_timers c o w0 x w' Hp He Htm).
  - simpl. rewrite concat_app. apply (accounts_same w'); [done..|]. by eapply effect_accounts.
Qed.

Lemma world_step_ok w w' owns : step orderly w w' → world_ok w owns → ∃ owns', world_ok w' owns'.
Proof.
  intros Hst [Hto Hac].
  destruct Hst as [p He|l1 c k l2 x w1 Hp Ho He|l1 l2 Hp|n g Hg|d]; [|by eapply world_call|..]; destruct Hto as [Ht Htm].
  - exists (owns ++ [[]]). split; [split; [|done]|].
    + apply Forall2_app; [done|]. constructor; [by apply entry_thread|constructor].
    + rewrite concat_app, app_nil_r. by apply (accounts_same w).
  - rewrite Hp in Ht. apply Forall2_app_inv_l in Ht as (o1 & o2 & H1 & H2 & ->).
    apply Forall2_cons_inv_l in H2 as (o & o3 & [Hs _] & H3 & ->). cbn in Hs. subst o.
    exists (o1 ++ o3). split; [split; [by apply Forall2_app|done]|]. apply (accounts_same w); [done..|].
    by rewrite concat_app in Hac |- *.
  - exists (owns ++ [[Fired (timer_key g)]]). split; [split|].
    + apply Forall2_app; [done|]. constructor; [by eapply fired_thread, Htm|constructor].
    + intros m g'. simpl. intros [_ Hg']%lookup_delete_Some. eauto.
    + rewrite concat_app. simpl. eapply accounts_permute; [apply Permutation_cons_append|].
      apply (accounts_same (with_timers w (sched w) (delete n (sleeping w)) (next_ctx w))); [done..|]. by apply accounts_fire.
  - exists owns. split; [done|by apply (accounts_same w)].
Qed.

Lemma idle_ok d : world_ok (idle_world d) [].
Proof.
  split; [split; [constructor|done]|]. split; unfold retry_ctx; simpl; try (intros *; rewrite ?lookup_empty; done).
  - constructor.
  - intros k. rewrite lookup_empty. split; [set_solver|]. by intros [?%not_elem_of_nil|[? [=]]].
  - intros r k. rewrite lookup_empty. split; [done|]. by intros ?%not_elem_of_nil.
  - by intros k ?%not_elem_of_nil.
Qed.

Lemma reachable_ok d w : rtc (step orderly) (idle_world d) w → ∃ owns, world_ok w owns.
Proof.
  intros Hs. assert (Hi : ∃ owns, world_ok (idle_world d) owns) by (exists []; apply idle_ok).
  induction Hs as [|w w1 w2 Hst _ IH]; [done|]. apply IH. destruct Hi as [owns Hok]. by eapply world_step_ok.
Qed.

Lemma reachable_threads ok d w : rtc (step ok) (idle_world d) w → ∃ owns, threads_ok w owns.
Proof.
  intros Hs. assert (Hi : ∃ owns, threads_ok (idle_world d) owns) by (exists []; apply idle_ok).
  induction Hs as [|w w1 w2 Hst _ IH]; [done|]. apply IH. destruct Hi as [owns Hok]. by eapply threads_step.
Qed.

(** ** Theorems *)

(** Goroutine number [i] is sending the command of request [r], or awaiting its result. *)
Definition live (w : World) (i : nat) (r : string) : Prop :=
  (∃ p payload next, pool w !! i = Some (Do (SendTo p payload) next) ∧ cmd_RequestID payload = r) ∨
  (∃ next, pool w !! i = Some (Do (ReceiveResult r) next)).

Lemma live_own w owns i r :
  world_ok w owns → live w i r → ∃ k, owns !! i = Some [Claim k; Entry r k] ∧ requestTarget (sched w) !! r = Some k.
Proof.
  intros [[Ht _] Hac] Hl.
  assert (Ho : ∃ k, owns !! i = Some [Claim k; Entry r k]).
  { destruct Hl as [(p & payload & next & Hi & <-)|(next & Hi)];
      destruct (Forall2_lookup_l _ _ _ _ _ Ht Hi) as (o & Ho & [[[k ->] _] _]); eauto. }
  destruct Ho as [k Ho]. exists k. split; [done|]. apply (ac_entry _ _ Hac). apply list_elem_of_In, in_concat.
  exists [Claim k; Entry r k]. split; [by eapply list_elem_of_In, list_elem_of_lookup_2|right; by left].
Qed.

Lemma NoDup_concat_once {A} (ll : list (list A)) i j l1 l2 x :
  NoDup (concat ll) → ll !! i = Some l1 → ll !! j = Some l2 → x ∈ l1 → x ∈ l2 → i = j.
Proof.
  revert i j. induction ll as [|l ll IH]; intros i j; [done|]. simpl. rewrite NoDup_app. intros (_ & Hd & Hnd) Hi Hj H1 H2.
  assert (Hc : ∀ m l', ll !! m = Some l' → x ∈ l' → x ∉ l).
  { intros m l' Hm Hx Hxl. apply (Hd x Hxl). apply list_elem_of_In, in_concat. exists l'. split; apply list_elem_of_In; [by eapply list_elem_of_lookup_2|done]. }
  destruct i, j; simplify_eq/=; [done|by destruct (Hc _ _ Hj H2)|by destruct (Hc _ _ Hi H1)|].
  f_equal. by eapply IH.
Qed.

(** C7. A target runs one attempt at a time.  In every interleaving of ticks,
    triggers, cancellations, timers, results and database faults of an orderly
    scheduler, two goroutines that send a command or await its result for the
    same target are the same goroutine; while it lives the target is claimed, so
    that every further dispatch of it is refused, and no retry sleeps for it. *)
Theorem one_attempt_per_target d w i j r r' k :
  rtc (step orderly) (idle_world d) w → live w i r → live w j r' →
  requestTarget (sched w) !! r = Some k → requestTarget (sched w) !! r' = Some k →
  i = j ∧ k ∈ activeTargets (sched w) ∧ pendingRetryCancel (sched w) !! k = None.
Proof.
  intros Hr Hi Hj Hk Hk'. apply reachable_ok in Hr as [owns Hok].
  destruct (live_own _ _ _ _ Hok Hi) as (k1 & Ho1 & E1). destruct (live_own _ _ _ _ Hok Hj) as (k2 & Ho2 & E2). simplify_eq.
  destruct Hok as [_ Hac]. assert (Hin : Claim k ∈ concat owns).
  { apply list_elem_of_In, in_concat. exists [Claim k; Entry r k]. split; [by eapply list_elem_of_In, list_elem_of_lookup_2|by left]. }
  split_and!.
  - eapply (NoDup_concat_once owns i j _ _ (Claim k) (ac_nodup _ _ Hac) Ho1 Ho2); by left.
  - apply (ac_active _ _ Hac). by left.
  - by apply (ac_apart _ _ Hac).
Qed.

(** Nothing leaks: whenever an orderly scheduler has come to rest, with no
    goroutine running and none asleep, every target is free again and no
    request, and no retry, is left in its maps. *)
Theorem scheduler_releases_all d w :
  rtc (step orderly) (idle_world d) w → pool w = [] → sleeping w = ∅ →
  activeTargets (sched w) = ∅ ∧ requestTarget (sched w) = ∅ ∧ inFlight (sched w) = ∅ ∧ pendingRetryCancel (sched w) = ∅.
Proof.
  intros Hr Hp Hs. apply reachable_ok in Hr as (owns & [Ht _] & Hac). rewrite Hp in Ht. apply Forall2_nil_inv_l in Ht as ->.
  destruct Hac as [_ Ha _ He Hi Hpe _ _ _]. unfold retry_ctx in *. simpl in *.
  assert (Hpn : ∀ k, pendingRetryCancel (sched w) !! k = None).
  { intros k. apply eq_None_not_Some. intros [n Hn]. destruct (Hpe k n Hn) as [(g & Hg & _)|[?%not_elem_of_nil _]]; [|done].
    by rewrite Hs in Hg. }
  assert (Hrn : ∀ r, requestTarget (sched w) !! r = None).
  { intros r. apply eq_None_not_Some. intros [k Hk]. apply He in Hk. by apply not_elem_of_nil in Hk. }
  split_and!; [|by apply map_empty| |by apply map_empty].
  - apply set_eq. intros k. rewrite Ha, Hpn. split; [by intros [?%not_elem_of_nil|[? [=]]]|set_solver].
  - apply map_empty. intros r. apply eq_None_not_Some. rewrite Hi, Hrn. by intros [? [=]].
Qed.

(** Every attempt a thread is about to record, and every attempt a timer waits
    for, is within the bounds of its policy. *)
Definition attempts_in_bounds (w : World) : Prop :=
  (∀ run next, Do (Store (SRecordRunStart run)) next ∈ pool w → 1 <= r_Attempt run <= r_MaxAttempts run) ∧
  (∀ n job probeID k ex attempt policy,
     sleeping w !! n = Some (RetryTimer job probeID k ex attempt policy) → 1 <= attempt <= MaxAttempts policy).

(** Attempts are bounded: whatever the scheduler is asked to do and in
    whatever order, every run it records is numbered between 1 and the number of
    attempts its job's policy allows, and so is every attempt a timer waits for. *)
Theorem attempts_bounded ok d w : rtc (step ok) (idle_world d) w → attempts_in_bounds w.
Proof.
  intros Hr. apply reachable_threads in Hr as (owns & Ht & Htm). split.
  - intros run next [i Hi]%list_elem_of_lookup. destruct (Forall2_lookup_l _ _ _ _ _ Ht Hi) as (o & _ & [[Hp _] _]). exact Hp.
  - intros n job probeID k ex attempt policy Hn. destruct (Htm n _ Hn) as (_ & _ & Ha). exact Ha.
Qed.
End steps.
