(* ===== verification/SchedulerTrace.v ===== *)
(** * Running the scheduler
    (src/internal/controlplane/jobs/scheduler.go)

    [simulate] runs a given interleaving of the scheduler's goroutines, with
    given answers of the other parties, and is sound for [world_step].  It gives
    concrete executions: the instances of the scheduler's theorems, and what
    happens when a cancellation meets a timer that has just fired. *)
From Stdlib Require Import SpecFloat.
From S2P Require Import Prelude GoStrings GoErrors GoTime GoFloat GoSort GoSql GoJson Protocol AsyncTypes AsyncStore JobRetry JobStore JobScheduler SchedulerSafety.
Local Open Scope go_scope.
Local Open Scope Z_scope.

(** The answer of another party. *)
Inductive reply :=
  | RNone | RTime (t : time) | RDecision (d : JobAdmissionDecision) | RStatus (s : option string) | RIDs (l : list (option string))
  | RBool (b : bool) | RError (e : option go_error) | RResult (r : option CommandResultPayload).

Inductive entry_point := Tick (now : time) | Trigger (id : string) | Cancel (id : string) | CancelOne (job run : string) | Shutdown.

Inductive move :=
  | Start (e : entry_point)
  | Turn (i : nat) (x : reply)     (* the next call of goroutine [i] *)
  | End (i : nat)
  | Fire (n : nat).

Section simulate.
Context `{Host} (ParseDuration : string → option duration) (cron_parse : string → result (time → time)) (json_Valid : string → bool)
  (json_Unmarshal : string → option value) (overflow : float64 → Z)
  (defaultRetryPolicy : RetryPolicy) (admissionRetryDelay : duration).
Notation body := (goroutine_body json_Valid json_Unmarshal overflow admissionRetryDelay).
Notation effect := (effect json_Valid json_Unmarshal overflow admissionRetryDelay).
Notation step := (world_step ParseDuration cron_parse json_Valid json_Unmarshal overflow defaultRetryPolicy admissionRetryDelay).
Notation entry := (entry ParseDuration cron_parse json_Valid json_Unmarshal overflow defaultRetryPolicy admissionRetryDelay).

Definition entry_prog (e : entry_point) : prog unit :=
  match e with
  | Tick now => runOnce ParseDuration cron_parse json_Valid json_Unmarshal overflow defaultRetryPolicy admissionRetryDelay now
  | Trigger id => discard (TriggerNow ParseDuration json_Valid json_Unmarshal overflow defaultRetryPolicy admissionRetryDelay id)
  | Cancel id => discard (CancelJob id)
  | CancelOne job run => discard (CancelRun job run)
  | Shutdown => Stop
  end.

Definition perform (c : call) (x : reply) (w : World) : option (answer c * World) :=
  match c as c return option (answer c * World) with
  | Store q => let '(r, d) := run_store json_Valid q (store w) in Some (r, with_store w d)
  | Now => match x with RTime t => Some (t, w) | _ => None end
  | EvaluateJobAdmission _ _ => match x with RDecision d => Some (d, w) | _ => None end
  | FleetGet _ => match x with RStatus s => Some (s, w) | _ => None end
  | FleetListByTag _ => match x with RIDs l => Some (l, w) | _ => None end
  | FleetList => match x with RIDs l => Some (l, w) | _ => None end
  | claimTarget k => Some ((claim_target k (sched w)).1, with_sched w (claim_target k (sched w)).2)
  | releaseTarget k => Some (tt, with_sched w (release_target k (sched w)))
  | setInFlight requestID runID k => Some (tt, with_sched w (set_in_flight requestID runID k (sched w)))
  | clearInFlight requestID release => Some (tt, with_sched w (clear_in_flight requestID release (sched w)))
  | requestIDForRun runID => Some (request_of_run runID (sched w), w)
  | Track _ _ _ _ => match x with RBool b => Some (b, w) | _ => None end
  | TrackerCancel _ => Some (tt, w)
  | SendTo probeID payload =>
      match x with RError e => Some (e, match e with None => with_sent w (probeID, payload) | Some _ => w end) | _ => None end
  | ReceiveResult _ => match x with RResult r => Some (r, w) | _ => None end
  | setRetry k g => Some (tt, set_retry k g w)
  | deleteRetry k => Some (tt, delete_retry k w)
  | cancelScheduledRetry k => Some (tt, cancel_retry k w)
  | retryKeys prefix => Some (retry_keys prefix (sched w), w)
  | Observe e => Some (tt, with_observed w e)
  | Go g => Some (tt, with_pool w (pool w ++ [body g]))
  | StopAll => Some (tt, stop_all w)
  end.

Lemma perform_effect c x w a w' : perform c x w = Some (a, w') → effect c w a w'.
Proof.
  destruct c; simpl; intros E; try (by simplify_eq); try (by destruct x; simplify_eq).
  destruct (run_store json_Valid q (store w)) as [r d] eqn:Eq. simplify_eq. eauto.
Qed.

Definition play (m : move) (w : World) : option World :=
  match m with
  | Start e => Some (with_pool w (pool w ++ [entry_prog e]))
  | Turn i x =>
      match pool w !! i with
      | Some (Do c k) =>
          match perform c x (with_pool w (take i (pool w) ++ drop (S i) (pool w))) with
          | Some (a, w') => Some (with_pool w' (k a :: pool w'))
          | None => None
          end
      | _ => None
      end
  | End i =>
      match pool w !! i with
      | Some (Ret _) => Some (with_pool w (take i (pool w) ++ drop (S i) (pool w)))
      | _ => None
      end
  | Fire n =>
      match sleeping w !! n with
      | Some g => Some (with_pool (with_timers w (sched w) (delete n (sleeping w)) (next_ctx w)) (pool w ++ [body g]))
      | None => None
      end
  end.

Fixpoint simulate (ms : list move) (w : World) : option World :=
  match ms with [] => Some w | m :: ms => match play m w with Some w' => simulate ms w' | None => None end end.

(** Every call of the moves passes the test [ok]. *)
Fixpoint admits (ok : call → World → bool) (ms : list move) (w : World) : bool :=
  match ms with
  | [] => true
  | m :: ms =>
      match m with Turn i _ => match pool w !! i with Some (Do c _) => ok c w | _ => true end | _ => true end &&
      match play m w with Some w' => admits ok ms w' | None => true end
  end.

Lemma play_step (ok : call → World → Prop) m w w' :
  (∀ i x c k, m = Turn i x → pool w !! i = Some (Do c k) → ok c w) → play m w = Some w' → step ok w w'.
Proof.
  destruct m as [e|i x|i|n]; simpl; intros Hok.
  - intros [= <-]. apply w_start. destruct e; constructor.
  - destruct (pool w !! i) as [[|c k]|] eqn:E; [done| |done].
    destruct (perform c x _) as [[a w1]|] eqn:Ep; [|done]. intros [= <-].
    eapply w_call; [by symmetry; apply take_drop_middle|by eapply Hok|by eapply perform_effect].
  - destruct (pool w !! i) as [[[]|]|] eqn:E; [|done|done]. intros [= <-]. eapply w_end. by rewrite take_drop_middle.
  - destruct (sleeping w !! n) as [g|] eqn:E; [|done]. intros [= <-]. by apply w_fire.
Qed.

Lemma simulate_sound (ok : call → World → Prop) okb ms w w' :
  (∀ c w, okb c w = true → ok c w) → admits okb ms w = true → simulate ms w = Some w' → rtc (step ok) w w'.
Proof.
  intros Hb. revert w. induction ms as [|m ms IH]; intros w; simpl; [by intros _ [= <-]|]. intros [Ha Hall]%andb_true_iff.
  destruct (play m w) as [w1|] eqn:E; [|done]. intros Hs. eapply rtc_l; [|by apply IH].
  eapply play_step; [|exact E]. intros i x c k -> Hi. rewrite Hi in Ha. auto.
Qed.
End simulate.

(** [orderly] as a test. *)
Definition orderlyb (c : call) (w : World) : bool :=
  match c with
  | setInFlight r _ _ => match requestTarget (sched w) !! r with None => true | Some _ => false end
  | cancelScheduledRetry k =>
      forallb (λ p, match p with Do (deleteRetry k') _ => negb (k' =s TrimSpace k) | _ => true end) (pool w)
  | StopAll => false
  | _ => true
  end.

Lemma orderlyb_sound c w : orderlyb c w = true → orderly c w.
Proof.
  destruct c; simpl; try done.
  - by case_match.
  - rewrite forallb_forall. intros Hall p Hp [next ->]. apply list_elem_of_In, Hall in Hp. by rewrite String.eqb_refl in Hp.
Qed.

(** ** Executions of one job on one probe *)

Module TraceExamples.
Import ExampleHost.
Definition durations (s : string) : option duration := None.
Definition no_cron (s : string) : result (time → time) := inl (ErrorString "no cron").
Definition valid (s : string) : bool := true.
Definition parse (s : string) : option value := None.

Definition backup : Job :=
  {| jb_ID := "job-1"; jb_WorkspaceID := ""; jb_Name := "backup"; jb_Command := "backup"; jb_Schedule := "1h";
     jb_Target := {| Kind := TargetKindProbe; Value := "p-1" |};
     jb_RetryPolicy := Some {| rp_MaxAttempts := 3; rp_InitialBackoff := ""; rp_Multiplier := f_zero; rp_MaxBackoff := "" |};
     jb_Enabled := true; jb_CreatedAt := 0; jb_UpdatedAt := 0; jb_LastRunAt := None; jb_LastStatus := "" |}.
Definition start_world : World := idle_world {| rows := {| jobs := [backup]; JobStore.runs := [] |}; ticks := 0 |}.

Notation sim := (simulate durations no_cron valid parse amd64_overflow no_retry_policy (30 * Second)).
Notation trace_step := (world_step durations no_cron valid parse amd64_overflow no_retry_policy (30 * Second)).
Notation adm := (admits durations no_cron valid parse amd64_overflow no_retry_policy (30 * Second)).
Definition trigger : entry_point := Trigger "job-1".

Definition allow : reply := RDecision {| Outcome := AdmissionOutcomeAllow; Reason := ""; Rationale := NoRationale; RetryAfter := 0 |}.
Definition exit (code : Z) : reply :=
  RResult (Some {| res_RequestID := ""; res_ExitCode := code; res_Stdout := ""; res_Stderr := ""; res_Duration := 0; res_Truncated := false |}).

(** The goroutine at the head of the pool dispatches an attempt, up to the
    start of the goroutine that awaits the result. *)
Definition attempt_at (t : time) : list move :=
  map (Turn 0) [allow; RNone; RTime t; RNone; RNone; RNone; RTime t; RNone; RStatus (Some "online"); RBool true; RNone; RError None; RNone] ++ [End 0].
(** Goroutine [i], a trigger, does all of its work. *)
Definition trigger_at (i : nat) (t : time) : list move := [Start trigger; Turn i RNone; Turn 0 (RTime t); Turn 0 RNone] ++ attempt_at t.
(** The goroutine at the head receives a failure and schedules a retry. *)
Definition fail_at (t : time) : list move := map (Turn 0) [exit 1; RTime t; RNone; RTime t; RNone; RNone; RNone; RNone] ++ [End 0].
Definition succeed_at (t : time) : list move := map (Turn 0) [exit 0; RNone; RTime t; RNone; RNone] ++ [End 0].
(** The timer's goroutine at the head dispatches the next attempt. *)
Definition retry_at (t : time) : list move := map (Turn 0) [RNone; RNone; RTime t] ++ attempt_at t.

Definition key : string := inFlightTargetKey "job-1" "p-1".

Definition awaits (w : World) : list string :=
  omap (λ p, match p with Do (ReceiveResult r) _ => Some r | _ => None end) (pool w).
Definition targets_of (w : World) : list (option string) := map (λ r, requestTarget (sched w) !! r) (awaits w).

Definition one_attempt : list move := trigger_at 0 Second.
Definition failed_once : list move := one_attempt ++ fail_at (2 * Second).
Definition retried : list move := failed_once ++ [Fire 0] ++ retry_at (9 * Second) ++ succeed_at (10 * Second).
Definition late_cancel : list move :=
  failed_once ++ [Fire 0; Start (Cancel "job-1"); Turn 1 RNone; Turn 0 RNone; Turn 0 RNone; End 0] ++ trigger_at 1 (8 * Second) ++ retry_at (9 * Second).

Definition world_after (ms : list move) : World := default start_world (sim ms start_world).

Lemma orderly_trace ms w : adm orderlyb ms start_world = true → sim ms start_world = Some w → rtc (trace_step orderly) start_world w.
Proof. apply simulate_sound, orderlyb_sound. Qed.
Lemma any_trace ms w :
  adm (λ _ _, true) ms start_world = true → sim ms start_world = Some w → rtc (trace_step (λ _ _, True)) start_world w.
Proof. by apply simulate_sound. Qed.

(** The simulation of a list of moves, named. *)
Lemma run_moves ms : is_Some (sim ms start_world) → sim ms start_world = Some (world_after ms).
Proof. intros [w E]. unfold world_after. by rewrite E. Qed.

Lemma awaits_live w i r : (match pool w !! i with Some (Do (ReceiveResult r') _) => Some r' | _ => None end) = Some r → live w i r.
Proof. intros E. right. repeat case_match; simplify_eq. eauto. Qed.

End TraceExamples.
Import ExampleHost TraceExamples.

(** A late cancellation lets two attempts of one target run at once.  An
    attempt fails and its retry timer fires; before the goroutine of the timer
    takes the lock, the job is canceled, which frees the target; the job is then
    triggered again, and the canceled retry goes on all the same: two goroutines
    await the results of two commands for the same job and probe. *)
Theorem late_cancel_overlaps : ∃ w r r',
  rtc (trace_step (λ _ _, True)) start_world w ∧ r ≠ r' ∧ live w 0 r ∧ live w 1 r' ∧
  requestTarget (sched w) !! r = Some key ∧ requestTarget (sched w) !! r' = Some key.
Proof.
  exists (world_after late_cancel), (request_id backup "p-1" 1 (8 * Second)), (request_id backup "p-1" 2 (9 * Second)).
  split_and!.
  - apply (any_trace late_cancel); [vm_compute; reflexivity|]. apply run_moves. vm_compute. by eexists.
  - done.
  - apply awaits_live. vm_compute. reflexivity.
  - apply awaits_live. vm_compute. reflexivity.
  - vm_compute. reflexivity.
  - vm_compute. reflexivity.
Qed.

Lemma one_attempt_per_target_witness : key ∈ activeTargets (sched (world_after one_attempt)).
Proof.
  assert (Hr : rtc (trace_step orderly) start_world (world_after one_attempt)).
  { apply (orderly_trace one_attempt); [vm_compute; reflexivity|]. apply run_moves. vm_compute. by eexists. }
  assert (Hl : live (world_after one_attempt) 0 (request_id backup "p-1" 1 Second)) by (apply awaits_live; vm_compute; reflexivity).
  apply (one_attempt_per_target durations no_cron valid parse amd64_overflow no_retry_policy (30 * Second) _
    (world_after one_attempt) 0 0 _ _ key Hr Hl Hl); vm_compute; reflexivity.
Defined.

Lemma scheduler_releases_all_witness : activeTargets (sched (world_after retried)) = ∅ ∧ length (sent (world_after retried)) = 2%nat.
Proof.
  assert (Hr : rtc (trace_step orderly) start_world (world_after retried)).
  { apply (orderly_trace retried); [vm_compute; reflexivity|]. apply run_moves. vm_compute. by eexists. }
  split; [|vm_compute; reflexivity].
  apply (scheduler_releases_all durations no_cron valid parse amd64_overflow no_retry_policy (30 * Second) _ (world_after retried) Hr);
    vm_compute; reflexivity.
Defined.

Lemma attempts_bounded_witness : ∃ job probeID k ex attempt policy,
  sleeping (world_after failed_once) !! 0%nat = Some (RetryTimer job probeID k ex attempt policy) ∧ attempt = 2 ∧ 1 <= attempt <= MaxAttempts policy.
Proof.
  assert (Hr : rtc (trace_step (λ _ _, True)) start_world (world_after failed_once)).
  { apply (any_trace failed_once); [vm_compute; reflexivity|]. apply run_moves. vm_compute. by eexists. }
  assert (Hs : ∃ job probeID k ex policy, sleeping (world_after failed_once) !! 0%nat = Some (RetryTimer job probeID k ex 2 policy)).
  { do 5 eexists. vm_compute. reflexivity. }
  destruct Hs as (job & probeID & k & ex & policy & Hs). exists job, probeID, k, ex, 2, policy. split_and!; [exact Hs|done|..];
  by apply (attempts_bounded durations no_cron valid parse amd64_overflow no_retry_policy (30 * Second) _ _ _ Hr) in Hs as [? ?].
Defined.
