(* ===== verification/Auth.v ===== *)
(** * Permissions, roles and scopes
    (src/internal/controlplane/auth/: keys.go, roles.go, custom_roles.go,
    context.go, workspace_scope.go, federation_scope.go; server/useradapter.go and
    workspace_isolation.go)

    A permission is a string.  The context of a request holds the API key or the
    user that the middleware found. *)
From S2P Require Import Prelude GoStrings GoErrors GoTime GoSort.
Local Open Scope go_scope.
Local Open Scope Z_scope.

(** ** Permissions *)

Notation Permission := string (only parsing).
Definition PermFleetRead : Permission := "fleet:read".
Definition PermFleetWrite : Permission := "fleet:write".
Definition PermCommandExec : Permission := "command:exec".
Definition PermApprovalRead : Permission := "approval:read".
Definition PermApprovalWrite : Permission := "approval:write".
Definition PermAuditRead : Permission := "audit:read".
Definition PermWebhookManage : Permission := "webhook:manage".
Definition PermAdmin : Permission := "admin".

Record APIKey := {
  k_ID : string; k_Name : string; k_KeyHash : string; k_KeyPrefix : string; k_Permissions : list Permission;
  k_CreatedAt : time; k_LastUsedAt : option time; k_ExpiresAt : option time; k_Enabled : bool;
}.

(** [p == PermAdmin || p == perm] for one of the permissions. *)
Definition grants (perms : list Permission) (perm : Permission) : bool :=
  existsb (λ p, (p =s PermAdmin) || (p =s perm)) perms.
Definition HasPermission (key : option APIKey) (perm : Permission) : bool :=
  match key with None => false | Some key => grants (k_Permissions key) perm end.

(** *** The column of an API key *)

Definition dquote : ascii := Ascii.ascii_of_nat 34.
Definition quoted (p : Permission) : string := String dquote (p +:+ String dquote EmptyString)%string.
Definition permissionsToJSON (perms : list Permission) : string :=
  match perms with [] => "[]" | _ => ("[" +:+ StringsJoin (map quoted perms) "," +:+ "]")%string end.

(** The loop of [jsonToPermissions]. *)
Fixpoint scan_permissions (raw : string) (inQuote : bool) (current : string) (perms : list Permission) : list Permission :=
  match raw with
  | EmptyString => perms
  | String c raw =>
      if Ascii.eqb c dquote
      then scan_permissions raw (negb inQuote) (if inQuote then EmptyString else current) (if inQuote then perms ++ [current] else perms)
      else if inQuote then scan_permissions raw inQuote (current +:+ String c EmptyString)%string perms
      else scan_permissions raw inQuote current perms
  end.
Definition jsonToPermissions (raw : string) : list Permission :=
  if (raw =s "") || (raw =s "[]") then [] else scan_permissions raw false EmptyString [].

(** *** The column of a custom role *)

Definition comma : ascii := Ascii.ascii_of_nat 44.
Definition encodePermissions (perms : list Permission) : string := StringsJoin perms ",".
Definition decodePermissions (raw : string) : list Permission :=
  if TrimSpace raw =s "" then []
  else List.filter (λ p, p <>s "") (map TrimSpace (split_on comma raw)).

(** ** Roles *)

Notation Role := string (only parsing).
Definition RoleAdmin : Role := "admin".
Definition RoleOperator : Role := "operator".
Definition RoleViewer : Role := "viewer".
Definition RoleAuditor : Role := "auditor".
Definition BuiltInRoles : list Role := [RoleAdmin; RoleOperator; RoleViewer; RoleAuditor].
Definition IsBuiltInRole (role : string) : bool := existsb (String.eqb role) BuiltInRoles.
Definition ValidRole : string → bool := IsBuiltInRole.

(** [lookup] is the optional fallback; the outer option is its registration. *)
Definition RolePermissions (lookup : option (string → option (list Permission))) (role : Role) : list Permission :=
  if role =s RoleAdmin then [PermAdmin]
  else if role =s RoleOperator
  then [PermFleetRead; PermFleetWrite; PermCommandExec; PermApprovalRead; PermApprovalWrite; PermAuditRead; PermWebhookManage]
  else if role =s RoleViewer then [PermFleetRead; PermApprovalRead; PermAuditRead]
  else if role =s RoleAuditor then [PermFleetRead; PermAuditRead; PermApprovalRead]
  else match lookup with None => [] | Some f => default [] (f role) end.

(** ** The context of a request *)

Record AuthenticatedUser := {
  au_ID : string; au_Username : string; au_Role : string; au_SessionID : string; au_WorkspaceID : string;
  au_Permissions : list Permission;
}.
Record Context := { ctx_key : option APIKey; ctx_user : option AuthenticatedUser }.
Definition background : Context := {| ctx_key := None; ctx_user := None |}.

Definition IsAuthenticated (ctx : Context) : bool :=
  match ctx_key ctx, ctx_user ctx with None, None => false | _, _ => true end.
Definition HasPermissionFromContext (ctx : Context) (perm : Permission) : bool :=
  match ctx_key ctx, ctx_user ctx with
  | Some key, _ => HasPermission (Some key) perm
  | None, Some user => grants (au_Permissions user) perm
  | None, None => false
  end.
(** The permissions a context carries. *)
Definition context_permissions (ctx : Context) : option (list Permission) :=
  match ctx_key ctx, ctx_user ctx with
  | Some key, _ => Some (k_Permissions key) | None, Some user => Some (au_Permissions user) | None, None => None end.

(** ** Workspaces *)

Definition workspaceGrantPrefix : string := "workspace:".
Definition scope_missing : go_error := Sentinel ErrWorkspaceScopeMissing.
Definition scope_ambiguous : go_error := Sentinel ErrWorkspaceScopeAmbiguous.

(** What the loop of [WorkspaceIDFromPermissions] takes from one permission. *)
Inductive grant := NoGrant | AdminGrant | AllGrant | WorkspaceGrant (id : string).
Definition workspace_grant (perm : Permission) : grant :=
  let raw := TrimSpace perm in
  if raw =s "" then NoGrant
  else if EqualFold raw PermAdmin then AdminGrant
  else if negb (HasPrefix (ToLower raw) workspaceGrantPrefix) then NoGrant
  else
    let value := TrimSpace (drop_str (String.length workspaceGrantPrefix) raw) in
    if value =s "" then NoGrant else if value =s "*" then AllGrant else WorkspaceGrant (ToLower value).

(** The loop, with the set of workspaces so far. *)
Fixpoint workspace_loop (perms : list Permission) (set : gset string) : result string :=
  match perms with
  | [] =>
      match elements set with
      | [] => inl scope_missing
      | [id] => inr id
      | _ => inl scope_ambiguous
      end
  | p :: perms =>
      match workspace_grant p with
      | NoGrant => workspace_loop perms set
      | AdminGrant | AllGrant => inr "*"
      | WorkspaceGrant id => workspace_loop perms ({[id]} ∪ set)
      end
  end.
Definition WorkspaceIDFromPermissions (perms : list Permission) : result string := workspace_loop perms ∅.
Definition WorkspaceIDFromContext (ctx : Context) : result string :=
  match context_permissions ctx with Some perms => WorkspaceIDFromPermissions perms | None => inl scope_missing end.

(** *** The scope that the middleware attaches *)

Record WorkspaceScope := { ws_WorkspaceID : string; ws_Restricted : bool; ws_Authenticated : bool }.

(** [workspaceClaimsFromPermissions]: [None] for a wildcard. *)
Fixpoint workspace_claims (perms : list Permission) (ids : list string) : option (list string) :=
  match perms with
  | [] => Some ids
  | p :: perms =>
      let raw := TrimSpace p in
      if raw =s "" then workspace_claims perms ids
      else if negb (HasPrefix raw workspaceGrantPrefix) then workspace_claims perms ids
      else
        let claim := TrimSpace (TrimPrefix raw workspaceGrantPrefix) in
        if claim =s "" then workspace_claims perms ids
        else if (ToLower claim =s "*") || (ToLower claim =s "all") then None
        else if existsb (String.eqb claim) ids then workspace_claims perms ids
        else workspace_claims perms (ids ++ [claim])
  end.
Definition workspaceClaimsFromPermissions (perms : list Permission) : option (list string) := workspace_claims perms [].

Definition restricted (id : string) : WorkspaceScope := {| ws_WorkspaceID := id; ws_Restricted := true; ws_Authenticated := true |}.
Definition everything : WorkspaceScope := {| ws_WorkspaceID := ""; ws_Restricted := false; ws_Authenticated := true |}.

Definition resolveWorkspaceScopeFromAuth (ctx : Context) : WorkspaceScope :=
  match ctx_key ctx, ctx_user ctx with
  | Some key, _ =>
      match workspaceClaimsFromPermissions (k_Permissions key) with
      | None => everything
      | Some (id :: _) => restricted id
      | Some [] => restricted (TrimSpace (k_ID key))
      end
  | None, Some user =>
      match workspaceClaimsFromPermissions (au_Permissions user) with
      | None => everything
      | Some (id :: _) => restricted id
      | Some [] =>
          let ws := TrimSpace (au_WorkspaceID user) in
          if ws <>s "" then restricted ws else restricted (TrimSpace (au_ID user))
      end
  | None, None => {| ws_WorkspaceID := ""; ws_Restricted := false; ws_Authenticated := false |}
  end.

(** *** Isolation in the server *)

Inductive http_reply := Serve | HTTPError (status : Z) (code : string) | RedirectToLogin.
Definition normalizeWorkspaceID (id : string) : string := ToLower (TrimSpace id).

Section isolation.
Context (isolation_enabled : bool).

Definition writeWorkspaceScopeError (e : go_error) : http_reply :=
  if errors_Is e ErrWorkspaceScopeAmbiguous then HTTPError 403 "workspace_scope_ambiguous" else HTTPError 403 "workspace_scope_required".

Definition workspaceScopeForRequest (ctx : Context) : http_reply + string :=
  if negb isolation_enabled then inr ""
  else match WorkspaceIDFromContext ctx with
  | inl e => inl (writeWorkspaceScopeError e)
  | inr id => inr (normalizeWorkspaceID id)
  end.

Definition workspaceScopeForList (ctx : Context) : http_reply + string :=
  match workspaceScopeForRequest ctx with
  | inl e => inl e
  | inr id => inr (if id =s "*" then "" else id)
  end.

Definition enforceWorkspaceMatch (ctx : Context) (resourceWorkspaceID : string) : http_reply :=
  if negb isolation_enabled then Serve
  else match workspaceScopeForRequest ctx with
  | inl e => e
  | inr id =>
      if id =s "*" then Serve
      else
        let resource := normalizeWorkspaceID resourceWorkspaceID in
        if (resource =s "") || (id <>s resource) then HTTPError 403 "workspace_forbidden" else Serve
  end.

(** [withWorkspaceScope]: the scope the handler sees, "" for all workspaces. *)
Definition withWorkspaceScope (ctx : Context) : http_reply + option string :=
  if negb isolation_enabled then inr None
  else match workspaceScopeForRequest ctx with
  | inl e => inl e
  | inr id => inr (Some (if id =s "*" then "" else id))
  end.

(** The filter of the audit evidence export, "" for no filter. *)
Definition workspaceJobFilter (ctx : Context) : string :=
  if negb isolation_enabled then ""
  else match WorkspaceIDFromContext ctx with
  | inl _ => ""
  | inr id => if id =s "*" then "" else normalizeWorkspaceID id
  end.
End isolation.

(** ** Federation scopes *)

Record FederationAccessScope := { TenantIDs : list string; OrgIDs : list string; ScopeIDs : list string }.

Fixpoint parseFederationGrantValue (raw : string) (prefixes : list string) : option string :=
  match prefixes with
  | [] => None
  | prefix :: prefixes =>
      if negb (HasPrefix raw prefix) then parseFederationGrantValue raw prefixes
      else
        let tail := TrimSpace (TrimPrefix raw prefix) in
        if tail =s "" then None
        else match split_on comma tail with
        | [] => None
        | first :: _ => let first := TrimSpace first in if first =s "" then None else Some first
        end
  end.

(** One dimension: the grants so far, or a wildcard. *)
Definition dimension := option (gset string).
Definition add_grant (d : dimension) (value : string) : dimension :=
  match d with None => None | Some s => if value =s "*" then None else Some ({[value]} ∪ s) end.

Fixpoint federation_loop (perms : list Permission) (t o s : dimension) : dimension * dimension * dimension :=
  match perms with
  | [] => (t, o, s)
  | p :: perms =>
      let raw := TrimSpace (ToLower p) in
      if raw =s "" then federation_loop perms t o s
      else match parseFederationGrantValue raw ["tenant:"; "federation:tenant:"] with
      | Some v => federation_loop perms (add_grant t v) o s
      | None =>
          match parseFederationGrantValue raw ["org:"; "federation:org:"] with
          | Some v => federation_loop perms t (add_grant o v) s
          | None =>
              match parseFederationGrantValue raw ["scope:"; "federation:scope:"] with
              | Some v => federation_loop perms t o (add_grant s v)
              | None => federation_loop perms t o s
              end
          end
      end
  end.

(** No restriction is the empty list. *)
Definition sortedKeys (d : dimension) : list string :=
  match d with None => [] | Some s => insertion_sort String.ltb (elements s) end.
Definition FederationAccessScopeFromPermissions (perms : list Permission) : FederationAccessScope :=
  let '(t, o, s) := federation_loop perms (Some ∅) (Some ∅) (Some ∅) in
  {| TenantIDs := sortedKeys t; OrgIDs := sortedKeys o; ScopeIDs := sortedKeys s |}.

(** ** Stored permissions read back *)

Definition no_char (c : ascii) (s : string) : bool := all_chars (λ d, negb (Ascii.eqb d c)) s.

Lemma scan_word p cur rest acc :
  no_char dquote p = true →
  scan_permissions (p +:+ String dquote rest)%string true cur acc = scan_permissions rest false EmptyString (acc ++ [(cur +:+ p)%string]).
Proof.
  revert cur. induction p as [|c p IH]; intros cur.
  - intros _. simpl. by rewrite str_app_nil_r.
  - unfold no_char. intros [Hc%negb_true_iff Hp]%andb_true_iff.
    change ((String c p +:+ String dquote rest)%string) with (String c (p +:+ String dquote rest)%string).
    cbn [scan_permissions]. rewrite Hc, IH, str_app_assoc by done. done.
Qed.

Lemma scan_quoted p rest acc :
  no_char dquote p = true →
  scan_permissions (quoted p +:+ rest)%string false EmptyString acc = scan_permissions rest false EmptyString (acc ++ [p]).
Proof.
  intros Hp. change (scan_permissions ((p +:+ String dquote EmptyString) +:+ rest)%string true EmptyString acc = scan_permissions rest false EmptyString (acc ++ [p])).
  rewrite str_app_assoc. by apply (scan_word p EmptyString rest acc).
Qed.

Lemma scan_joined ps acc :
  Forall (λ p, no_char dquote p = true) ps →
  scan_permissions (StringsJoin (map quoted ps) "," +:+ "]")%string false EmptyString acc = acc ++ ps.
Proof.
  intros Hps. revert acc. induction Hps as [|p ps Hp Hps IH]; intros acc; [by rewrite app_nil_r|].
  destruct ps as [|q ps]; [change (StringsJoin (map quoted [p]) ",") with (quoted p); by rewrite scan_quoted|].
  change (StringsJoin (map quoted (p :: q :: ps)) ",") with (quoted p +:+ "," +:+ StringsJoin (map quoted (q :: ps)) ",")%string.
  rewrite !str_app_assoc, scan_quoted by done.
  change (scan_permissions (StringsJoin (map quoted (q :: ps)) "," +:+ "]")%string false EmptyString (acc ++ [p]) = acc ++ p :: q :: ps).
  rewrite IH, <- app_assoc. done.
Qed.

(** The permissions of an API key survive their storage: written to their
    column and read back by the hand-written scanner, they are the same list,
    provided that none contains a double quote. *)
Theorem key_permissions_roundtrip ps :
  Forall (λ p, no_char dquote p = true) ps → jsonToPermissions (permissionsToJSON ps) = ps.
Proof.
  intros Hps. destruct ps as [|p ps]; [done|].
  assert (Hne : ∀ t, (quoted p +:+ t)%string ≠ "]"%string) by done.
  unfold jsonToPermissions, permissionsToJSON. set (body := StringsJoin (map quoted (p :: ps)) ",").
  assert (("[" +:+ body +:+ "]")%string =s "[]" = false) as E.
  { apply String.eqb_neq. intros [= E]. revert E. subst body. destruct ps; simpl; [apply Hne|rewrite str_app_assoc; apply Hne]. }
  rewrite E. cbn [orb String.eqb].
  change (scan_permissions (body +:+ "]")%string false EmptyString [] = p :: ps). unfold body. by rewrite scan_joined.
Qed.

(** What a double quote does: a key issued with the one permission
    [fleet:read","admin] is not an administrator when it is issued, and is one
    whenever it is read back from the store; a custom role with the permission
    [fleet:read,admin] gains the same by a comma. *)
Theorem permission_injection :
  let p := ("fleet:read" +:+ String dquote ("," +:+ String dquote "admin"))%string in
  let q := "fleet:read,admin"%string in
  grants [p] PermAdmin = false ∧ jsonToPermissions (permissionsToJSON [p]) = [PermFleetRead; PermAdmin] ∧
  grants [q] PermAdmin = false ∧ decodePermissions (encodePermissions [q]) = [PermFleetRead; PermAdmin].
Proof. vm_compute. auto. Qed.

(** *** Custom roles *)

Definition plain_permission (p : Permission) : Prop := TrimSpace p = p ∧ p ≠ ""%string ∧ no_char comma p = true.

Lemma split_no_comma p : no_char comma p = true → split_on comma p = [p].
Proof.
  induction p as [|c p IH]; [done|]. unfold no_char. intros [Hc%negb_true_iff Hp]%andb_true_iff.
  cbn [split_on]. by rewrite Hc, IH.
Qed.

Lemma split_joined p rest : no_char comma p = true → split_on comma (p +:+ String comma rest)%string = p :: split_on comma rest.
Proof.
  induction p as [|c p IH]; [done|]. unfold no_char. intros [Hc%negb_true_iff Hp]%andb_true_iff.
  change ((String c p +:+ String comma rest)%string) with (String c (p +:+ String comma rest)%string).
  cbn [split_on]. by rewrite Hc, IH.
Qed.

Lemma split_encoded ps : ps ≠ [] → Forall plain_permission ps → split_on comma (encodePermissions ps) = ps.
Proof.
  intros Hne Hps. induction Hps as [|p ps (_ & _ & Hp) Hps IH]; [done|].
  destruct ps as [|q ps]; [by apply split_no_comma|].
  change (encodePermissions (p :: q :: ps)) with (p +:+ String comma (encodePermissions (q :: ps)))%string.
  rewrite split_joined by done. by rewrite IH.
Qed.

(** The permissions of a custom role survive their storage when they are
    trimmed, not empty and free of commas. *)
Theorem role_permissions_roundtrip ps :
  Forall plain_permission ps → decodePermissions (encodePermissions ps) = ps.
Proof.
  intros Hps. destruct ps as [|p ps]; [done|]. unfold decodePermissions.
  assert (Hmap : map TrimSpace (p :: ps) = p :: ps).
  { rewrite <- (map_id (p :: ps)) at 2. apply map_ext_Forall. eapply Forall_impl; [exact Hps|]. by intros x [? _]. }
  assert (Hfilter : List.filter (λ p, p <>s "") (p :: ps) = p :: ps).
  { clear Hmap. induction Hps as [|x l (_ & Hx & _) _ IH]; [done|]. simpl. rewrite (proj2 (String.eqb_neq _ _) Hx). simpl. by rewrite IH. }
  rewrite split_encoded, Hmap, Hfilter by done. destruct (String.eqb_spec (TrimSpace (encodePermissions (p :: ps))) "") as [E|]; [|done].
  exfalso. revert E. apply Forall_cons in Hps as [(Ht & Hne & _) _]. destruct p as [|c p]; [done|]. apply TrimSpace_head in Ht.
  by destruct ps; apply TrimSpace_nonempty.
Qed.

(** ** Workspace isolation *)

Lemma workspace_loop_spec perms set id :
  workspace_loop perms set = inr id →
  (id = "*"%string ∧ Exists (λ p, workspace_grant p = AdminGrant ∨ workspace_grant p = AllGrant) perms) ∨
  ((∀ x, x ∈ set → x = id) ∧ Forall (λ p, workspace_grant p = NoGrant ∨ workspace_grant p = WorkspaceGrant id) perms ∧
   (id ∈ set ∨ Exists (λ p, workspace_grant p = WorkspaceGrant id) perms)).
Proof.
  revert set. induction perms as [|p perms IH]; intros set; simpl.
  - destruct (elements set) as [|x [|]] eqn:E; [done| |done]. intros [= ->]. right.
    assert (Hset : ∀ y, y ∈ set ↔ y = id) by (intros y; by rewrite <- elem_of_elements, E, list_elem_of_singleton).
    split_and!; [by intros ? ?%Hset|constructor|left; by apply Hset].
  - destruct (workspace_grant p) as [| | |v] eqn:Eg; [|by intros [= <-]; left; split; [|left; auto]..|].
    + intros [[-> He]|(Hs & Hf & Ho)]%IH; [left; split; [done|by right]|right]. split_and!; [done|by constructor; auto|].
      destruct Ho; [by left|right; by right].
    + intros [[-> He]|(Hs & Hf & Ho)]%IH; [left; split; [done|by right]|right].
      assert (v = id) as -> by (apply Hs; set_solver). split_and!; [set_solver|constructor; auto|right; by left].
Qed.

Lemma lower_char_star c : lower_char c = "*"%char → c = "*"%char.
Proof. destruct c as [[] [] [] [] [] [] [] []]; vm_compute; by intros [=]. Qed.
Lemma ToLower_star s : ToLower s = "*"%string → s = "*"%string.
Proof.
  destruct s as [|c [|d s]]; [done| |done]. simpl. intros [= E]. by rewrite (lower_char_star c E).
Qed.

(** What a workspace grant looks like: lower case, trimmed, not a wildcard. *)
Lemma workspace_grant_spec p id :
  workspace_grant p = WorkspaceGrant id → normalizeWorkspaceID id = id ∧ id ≠ ""%string ∧ id ≠ "*"%string.
Proof.
  unfold workspace_grant. cbv zeta. do 3 (case_match; [done|]).
  assert (Hi : TrimSpace (TrimSpace (drop_str (String.length workspaceGrantPrefix) (TrimSpace p)))
             = TrimSpace (drop_str (String.length workspaceGrantPrefix) (TrimSpace p))) by apply TrimSpace_idem.
  revert Hi. generalize (TrimSpace (drop_str (String.length workspaceGrantPrefix) (TrimSpace p))). intros v Hi.
  destruct (String.eqb_spec v "") as [|Hne]; [done|]. destruct (String.eqb_spec v "*") as [|Hns]; [done|].
  intros [= <-]. split_and!.
  - unfold normalizeWorkspaceID. by rewrite TrimSpace_ToLower, Hi, ToLower_idem.
  - by destruct v.
  - by intros E%ToLower_star.
Qed.

Lemma scope_error_refuses e : writeWorkspaceScopeError e ≠ Serve.
Proof. unfold writeWorkspaceScopeError. by case_match. Qed.

(** Isolation holds: with isolation enabled, a request is let through to a
    resource only if its key or session is an administrator's or has a wildcard
    grant, or if the resource has a workspace and every workspace grant of the
    caller names it; a caller with no grant, or with grants for two workspaces,
    gets nothing. *)
Theorem isolation_enforced ctx resource :
  enforceWorkspaceMatch true ctx resource = Serve →
  ∃ perms, context_permissions ctx = Some perms ∧
    (Exists (λ p, workspace_grant p = AdminGrant ∨ workspace_grant p = AllGrant) perms ∨
     let id := normalizeWorkspaceID resource in
     id ≠ ""%string ∧ Exists (λ p, workspace_grant p = WorkspaceGrant id) perms ∧
     Forall (λ p, workspace_grant p = NoGrant ∨ workspace_grant p = WorkspaceGrant id) perms).
Proof.
  unfold enforceWorkspaceMatch, workspaceScopeForRequest, WorkspaceIDFromContext. cbn [negb]. cbv zeta.
  destruct (context_permissions ctx) as [perms|]; [|by intros ?%scope_error_refuses].
  destruct (WorkspaceIDFromPermissions perms) as [e|id] eqn:E; [by intros ?%scope_error_refuses|].
  intros Hs. exists perms. split; [done|].
  apply workspace_loop_spec in E as [[_ He]|(_ & Hf & Ho)]; [by left|right].
  destruct Ho as [?|Ho]; [set_solver|]. pose proof Ho as Hid. apply Exists_exists in Hid as (p & _ & Hp).
  apply workspace_grant_spec in Hp as (Hn & Hid0 & Hstar). rewrite Hn, (proj2 (String.eqb_neq _ _) Hstar) in Hs.
  destruct (String.eqb_spec (normalizeWorkspaceID resource) "") as [|Hne]; [done|]. cbn [orb] in Hs.
  destruct (String.eqb_spec id (normalizeWorkspaceID resource)) as [<-|]; [|done]. by split_and!.
Qed.

(** ** Witnesses and defects *)

Module AuthExamples.
Definition key_with (perms : list Permission) : Context :=
  {| ctx_key := Some {| k_ID := "k-1"; k_Name := "ci"; k_KeyHash := ""; k_KeyPrefix := ""; k_Permissions := perms; k_CreatedAt := 0;
                        k_LastUsedAt := None; k_ExpiresAt := None; k_Enabled := true |}; ctx_user := None |}.
End AuthExamples.
Import AuthExamples.

(** The audit evidence export fails open: with isolation enabled, a key that
    may read the audit log and has no workspace grant, or grants for two
    workspaces, is refused by every scoped endpoint, but the filter of the
    evidence export is empty for it, exactly as for an administrator. *)
Theorem evidence_export_fails_open :
  let nobody := key_with [PermAuditRead] in
  let two := key_with [PermAuditRead; "workspace:a"; "workspace:b"] in
  HasPermissionFromContext nobody PermAuditRead = true ∧
  workspaceScopeForList true nobody = inl (HTTPError 403 "workspace_scope_required") ∧ workspaceJobFilter true nobody = "" ∧
  workspaceScopeForList true two = inl (HTTPError 403 "workspace_scope_ambiguous") ∧ workspaceJobFilter true two = "" ∧
  workspaceJobFilter true (key_with [PermAdmin]) = "" ∧ workspaceJobFilter true (key_with ["workspace:a"]) = "a".
Proof. vm_compute. auto 10. Qed.

(** The two resolvers of workspace scopes disagree: the one the middleware
    attaches keeps the case of a claim, takes the first of several and restricts
    an administrator without claims to a workspace named after the key. *)
Theorem workspace_resolvers_disagree :
  let mixed := key_with ["workspace:Team"] in
  let two := key_with ["workspace:a"; "workspace:b"] in
  let admin := key_with [PermAdmin] in
  WorkspaceIDFromContext mixed = inr "team"%string ∧ resolveWorkspaceScopeFromAuth mixed = restricted "Team" ∧
  WorkspaceIDFromContext two = inl scope_ambiguous ∧ resolveWorkspaceScopeFromAuth two = restricted "a" ∧
  WorkspaceIDFromContext admin = inr "*"%string ∧ resolveWorkspaceScopeFromAuth admin = restricted "k-1".
Proof. vm_compute. auto 10. Qed.

Lemma key_permissions_roundtrip_witness : jsonToPermissions (permissionsToJSON [PermFleetRead; "workspace:a"; ""]) = [PermFleetRead; "workspace:a"%string; ""%string].
Proof. apply key_permissions_roundtrip. vm_compute. repeat constructor. Defined.
Lemma role_permissions_roundtrip_witness : decodePermissions (encodePermissions [PermFleetRead; PermAuditRead]) = [PermFleetRead; PermAuditRead].
Proof. apply role_permissions_roundtrip. repeat constructor; vm_compute; done. Defined.
Lemma isolation_enforced_witness : ∃ perms, context_permissions (key_with [PermFleetRead; "workspace:Team"]) = Some perms ∧ Exists (λ p, workspace_grant p = WorkspaceGrant "team") perms.
Proof.
  destruct (isolation_enforced (key_with [PermFleetRead; "workspace:Team"]) " TEAM ") as (perms & E & Hp); [vm_compute; reflexivity|].
  exists perms. split; [exact E|]. destruct Hp as [Hp|(_ & Hp & _)]; [|exact Hp].
  injection E as <-. exfalso. repeat (apply Exists_cons in Hp as [Hp|Hp]; [vm_compute in Hp; by destruct Hp|]). by apply Exists_nil in Hp.
Defined.
