(* ===== verification/RunnerHandlers.v ===== *)
(** * The HTTP handlers of runners (src/internal/controlplane/server/runner_handlers.go)

    A handler works on the state of the runner manager, the calls made to the
    execution backend and the audit events.  The backend is a parameter that
    answers each call with an error text or nothing.  The lifecycle handler is in
    three parts, because requests interleave between them: [lifecycle_before]
    checks and spends the token, [executeRunnerLifecycle] calls the backend,
    [lifecycle_after] moves the runner. *)
From S2P Require Import Prelude GoStrings GoErrors GoTime GoSql TokenBroker Runner RunnerSafety Auth.
Local Open Scope go_scope.
Local Open Scope Z_scope.

(** ** Requests to the backend and replies *)

Record StartExecutionRequest := {
  se_RunnerID : string; se_JobID : string; se_SessionID : string; se_Image : string; se_Command : list string; se_Timeout : duration;
}.
Inductive backend_call :=
  | BackendStart (req : StartExecutionRequest)
  | BackendStop (runnerID reason : string)
  | BackendTeardown (runnerID reason : string).

Definition EventRunnerCreated : string := "runner.created".
Definition EventRunnerStarted : string := "runner.started".
Definition EventRunnerStopped : string := "runner.stopped".
Definition EventRunnerDestroyed : string := "runner.destroyed".
Definition EventRunnerTeardown : string := "runner.teardown".
Definition EventRunnerError : string := "runner.error".
Definition EventRunnerRunTokenIssued : string := "runner.run_token_issued".

(** An audit event: type, actor, and the runner it is about. *)
Record runner_audit := { ra_Type : string; ra_Actor : string; ra_Runner : string }.

Inductive runner_reply :=
  | Refused (status : Z) (code : string)
  | Replied (status : Z) (r : Runner)
  | RepliedToken (status : Z) (t : IssuedRunToken).

Record ServerState (S : Type) := { sv_manager : ManagerState S; sv_calls : list backend_call; sv_audit : list runner_audit }.
Arguments sv_manager {S} _.
Arguments sv_calls {S} _.
Arguments sv_audit {S} _.
Arguments Build_ServerState {S} _ _ _.

Definition audienceTargetState (audience : string) : option string :=
  if audience =s AudienceRunnerStart then Some StateRunning
  else if audience =s AudienceRunnerStop then Some StateStopped
  else if audience =s AudienceRunnerDestroy then Some StateDestroyed
  else None.

(** Session and actor of the signed-in user; an API key has no session. *)
Definition runnerSessionContext (ctx : Context) : option (string * string) :=
  match ctx_user ctx with
  | None => None
  | Some user =>
      let sessionID := TrimSpace (au_SessionID user) in
      if sessionID =s "" then None
      else
        let actor := if TrimSpace (au_Username user) =s "" then TrimSpace (au_ID user) else TrimSpace (au_Username user) in
        Some (sessionID, if actor =s "" then "session" else actor)
  end.

Definition writeRunnerError (e : go_error) : runner_reply :=
  let has s := errors_Is e s in
  if has ErrSessionRequired then Refused 401 "session_required"
  else if has ErrRunnerNotFound then Refused 404 "not_found"
  else if has ErrRunnerIDRequired || has RunnerErrAudienceRequired || has ErrInvalidAudience || has ErrRunTokenRequired || has ErrInvalidBackend ||
          has ErrSandboxCommandRequired || has ErrSandboxContractMalformed then Refused 400 "invalid_request"
  else if has ErrRunTokenInvalid then Refused 401 "invalid_run_token"
  else if has ErrRunTokenExpired then Refused 401 "expired_run_token"
  else if has ErrRunTokenRevoked then Refused 401 "revoked_run_token"
  else if has ErrRunTokenConsumed then Refused 409 "run_token_consumed"
  else if has ErrRunTokenSessionBound || has ErrRunTokenScope then Refused 403 "run_token_scope_rejected"
  else if has ErrInvalidTransition then Refused 409 "invalid_transition"
  else if has ErrBackendUnavailable then Refused 503 "runner_backend_unavailable"
  else if has ErrBackendStartFailed || has ErrBackendStopFailed || has ErrBackendTeardownFailed then Refused 502 "runner_backend_error"
  else Refused 500 "internal_error".

(** A refusal of the workspace checks. *)
Definition refusal_of (r : http_reply) : runner_reply :=
  match r with HTTPError status code => Refused status code | RedirectToLogin => Refused 302 "login" | Serve => Refused 200 "" end.

Record ServerConfig := {
  cf_isolation : bool; cf_available : bool; cf_backend : bool; cf_sandboxImage : string; cf_sandboxTimeout : duration;
}.

Record create_body := { cb_Label : string; cb_JobID : string; cb_Backend : string; cb_Sandbox : option SandboxContract }.
Record token_body := { kb_RunnerID : string; kb_JobID : string; kb_Audience : string; kb_TTLSeconds : Z }.

Section handlers.
Context `{Host} {S : Type} `{!tokenBroker S} (m : Manager) (cfg : ServerConfig).
(** What the backend answers to its [n]-th call: an error text, or nothing. *)
Context (backend : nat → backend_call → option string).
Notation W := (GoSql.M (ServerState S)) (only parsing).

Definition on_manager {A} (c : GoSql.M (ManagerState S) A) : W A := λ db,
  let '(r, db') := c (Build_DB (sv_manager (rows db)) (ticks db)) in
  (r, Build_DB (Build_ServerState (rows db') (sv_calls (rows db)) (sv_audit (rows db))) (ticks db')).
Definition recordAudit (type actor runner : string) : W unit := λ db,
  (inr tt, Build_DB (Build_ServerState (sv_manager (rows db)) (sv_calls (rows db))
     (sv_audit (rows db) ++ [{| ra_Type := type; ra_Actor := actor; ra_Runner := runner |}])) (ticks db)).
Definition call_backend (c : backend_call) : W (option string) := λ db,
  (inr (backend (length (sv_calls (rows db))) c),
   Build_DB (Build_ServerState (sv_manager (rows db)) (sv_calls (rows db) ++ [c]) (sv_audit (rows db))) (ticks db)).
Definition failed (s : sentinel) (text : option string) : option go_error := wrap_text s <$> text.

(** The contract of a sandbox runner, with the defaults of the configuration. *)
Definition sandbox_contract (backend : string) (sandbox : option SandboxContract) : option SandboxContract :=
  if backend <>s BackendSandbox then None
  else
    let c := default {| sc_Image := ""; sc_Command := []; sc_TimeoutSeconds := 0 |} sandbox in
    let image := TrimSpace (sc_Image c) in
    let seconds := if (sc_TimeoutSeconds c <=? 0) && (0 <? cf_sandboxTimeout cfg) then Z.quot (cf_sandboxTimeout cfg) Second else sc_TimeoutSeconds c in
    Some {| sc_Image := if image =s "" then TrimSpace (cf_sandboxImage cfg) else image; sc_Command := sc_Command c; sc_TimeoutSeconds := seconds |}.

Definition handleCreateRunner (ctx : Context) (body : option create_body) : W runner_reply :=
  if negb (cf_available cfg) then mret (Refused 503 "service_unavailable")
  else match runnerSessionContext ctx with
  | None => mret (Refused 401 "session_required")
  | Some (sessionID, actor) =>
      match workspaceScopeForRequest (cf_isolation cfg) ctx with
      | inl r => mret (refusal_of r)
      | inr workspaceID =>
          match body with
          | None => mret (Refused 400 "invalid_request")
          | Some req =>
              let backend := TrimSpace (cb_Backend req) in
              created ← attempt (on_manager (CreateRunner m
                {| cq_Label := TrimSpace (cb_Label req); cq_JobID := TrimSpace (cb_JobID req); cq_Backend := backend;
                   cq_Sandbox := sandbox_contract backend (cb_Sandbox req); cq_CreatedBy := actor; cq_SessionID := sessionID;
                   cq_WorkspaceID := if workspaceID =s "*" then "" else workspaceID |}));
              match created with
              | inl e => mret (writeRunnerError e)
              | inr r => _ ← recordAudit EventRunnerCreated actor (ru_ID r); mret (Replied 201 r)
              end
          end
      end
  end.

Definition handleIssueRunToken (ctx : Context) (body : option token_body) : W runner_reply :=
  if negb (cf_available cfg) then mret (Refused 503 "service_unavailable")
  else match runnerSessionContext ctx, body with
  | None, _ => mret (Refused 401 "session_required")
  | Some _, None => mret (Refused 400 "invalid_request")
  | Some (sessionID, actor), Some req =>
      target ← attempt (on_manager (GetRunner (TrimSpace (kb_RunnerID req))));
      match target with
      | inl e => mret (writeRunnerError e)
      | inr target =>
          match enforceWorkspaceMatch (cf_isolation cfg) ctx (ru_WorkspaceID target) with
          | Serve =>
              issued ← attempt (on_manager (IssueRunToken m
                {| iq_RunnerID := TrimSpace (kb_RunnerID req); iq_JobID := TrimSpace (kb_JobID req); iq_Audience := TrimSpace (kb_Audience req);
                   iq_Issuer := actor; iq_SessionID := sessionID; iq_TTL := to_int64 (kb_TTLSeconds req * Second) |}));
              match issued with
              | inl e => mret (writeRunnerError e)
              | inr t => _ ← recordAudit EventRunnerRunTokenIssued actor (rt_RunnerID t); mret (RepliedToken 201 t)
              end
          | r => mret (refusal_of r)
          end
      end
  end.

(** ** The backend *)

Definition join_errors (a b : option go_error) : option go_error :=
  match a, b with Some x, Some y => Some (JoinError x y) | Some x, None => Some (WrapError (Error x) x) | None, Some y => Some (WrapError (Error y) y) | None, None => None end.

Definition stopAndTeardownRunnerExecution (r : Runner) (reason : string) : W (option go_error) :=
  if ru_Backend r <>s BackendSandbox then mret None
  else if negb (cf_backend cfg) then mret (Some (Sentinel ErrBackendUnavailable))
  else
    stopped ← call_backend (BackendStop (ru_ID r) reason);
    torn ← call_backend (BackendTeardown (ru_ID r) reason);
    match join_errors (failed ErrBackendStopFailed stopped) (failed ErrBackendTeardownFailed torn) with
    | Some e => mret (Some e)
    | None => _ ← recordAudit EventRunnerTeardown "system" (ru_ID r); mret None
    end.

Definition executeRunnerLifecycle (audience : string) (r : Runner) : W (option go_error) :=
  if ru_Backend r <>s BackendSandbox then mret None
  else if negb (cf_backend cfg) then mret (Some (Sentinel ErrBackendUnavailable))
  else if audience =s AudienceRunnerStart then
    match ru_Sandbox r with
    | None => mret (Some (Sentinel ErrSandboxContractMalformed))
    | Some c =>
        started ← call_backend (BackendStart
          {| se_RunnerID := ru_ID r; se_JobID := ru_JobID r; se_SessionID := ru_SessionID r; se_Image := sc_Image c; se_Command := sc_Command c;
             se_Timeout := if 0 <? sc_TimeoutSeconds c then to_int64 (sc_TimeoutSeconds c * Second) else 0 |});
        mret (failed ErrBackendStartFailed started)
    end
  else if audience =s AudienceRunnerStop then stopAndTeardownRunnerExecution r "stop"
  else if audience =s AudienceRunnerDestroy then
    if ru_State r =s StateRunning then stopAndTeardownRunnerExecution r "destroy_running"
    else
      torn ← call_backend (BackendTeardown (ru_ID r) "destroy");
      match failed ErrBackendTeardownFailed torn with
      | Some e => mret (Some e)
      | None => _ ← recordAudit EventRunnerTeardown "system" (ru_ID r); mret None
      end
  else mret None.

(** ** Start, stop and destroy *)

(** A lifecycle request: the id of its path and its body, [None] when it does
    not decode. *)
Record lifecycle_http := { lh_ID : string; lh_Body : option (string * string) (* run_token, job_id *) }.

Definition lifecycle_before (ctx : Context) (req : lifecycle_http) (audience : string) : W (runner_reply + (Runner * string)) :=
  if negb (cf_available cfg) then mret (inl (Refused 503 "service_unavailable"))
  else
    let runnerID := TrimSpace (lh_ID req) in
    if runnerID =s "" then mret (inl (Refused 400 "invalid_request"))
    else match runnerSessionContext ctx, lh_Body req with
    | None, _ => mret (inl (Refused 401 "session_required"))
    | Some _, None => mret (inl (Refused 400 "invalid_request"))
    | Some (sessionID, actor), Some (token, jobID) =>
        current ← attempt (on_manager (GetRunner runnerID));
        match current with
        | inl e => mret (inl (writeRunnerError e))
        | inr current =>
            match enforceWorkspaceMatch (cf_isolation cfg) ctx (ru_WorkspaceID current) with
            | Serve =>
                prepared ← attempt (on_manager (PrepareRunnerLifecycle
                  {| lq_RunnerID := runnerID; lq_JobID := TrimSpace jobID; lq_RunToken := TrimSpace token; lq_SessionID := sessionID |} audience));
                match prepared with
                | inl e => mret (inl (writeRunnerError e))
                | inr r => mret (inr (r, actor))
                end
            | r => mret (inl (refusal_of r))
            end
        end
    end.

Definition lifecycle_after (prepared : Runner) (actor audience eventType : string) : W runner_reply :=
  match audienceTargetState audience with
  | None => mret (Refused 500 "internal_error")
  | Some target =>
      updated ← attempt (on_manager (CompleteRunnerLifecycle m (ru_ID prepared) target));
      match updated with
      | inl e => mret (writeRunnerError e)
      | inr r => _ ← recordAudit eventType actor (ru_ID r); mret (Replied 200 r)
      end
  end.

Definition handleRunnerLifecycle (ctx : Context) (req : lifecycle_http) (audience eventType : string) : W runner_reply :=
  before ← lifecycle_before ctx req audience;
  match before with
  | inl reply => mret reply
  | inr (prepared, actor) =>
      err ← executeRunnerLifecycle audience prepared;
      match err with
      | Some e => _ ← recordAudit EventRunnerError actor (ru_ID prepared); mret (writeRunnerError e)
      | None => lifecycle_after prepared actor audience eventType
      end
  end.

Definition handleStartRunner (ctx : Context) (req : lifecycle_http) : W runner_reply := handleRunnerLifecycle ctx req AudienceRunnerStart EventRunnerStarted.
Definition handleStopRunner (ctx : Context) (req : lifecycle_http) : W runner_reply := handleRunnerLifecycle ctx req AudienceRunnerStop EventRunnerStopped.
Definition handleDestroyRunner (ctx : Context) (req : lifecycle_http) : W runner_reply := handleRunnerLifecycle ctx req AudienceRunnerDestroy EventRunnerDestroyed.
End handlers.

(** ** What the lifecycle handler guarantees *)

Section guarantees.
Context {S : Type} `{Host} `{!tokenBroker S} `{!TokenBrokerLaws S} (m : Manager) (cfg : ServerConfig).
Context (backend : nat → backend_call → option string).
Implicit Types db : DB (ServerState S).

Definition manager_db db : DB (ManagerState S) := Build_DB (sv_manager (rows db)) (ticks db).

Lemma on_manager_eq {A} (c : GoSql.M (ManagerState S) A) db res db' :
  on_manager c db = (res, db') →
  c (manager_db db) = (res, manager_db db') ∧ sv_calls (rows db') = sv_calls (rows db) ∧ sv_audit (rows db') = sv_audit (rows db).
Proof. unfold on_manager, manager_db. destruct (c _) as [r [s n]]. by intros [= <- <-]. Qed.

(** The computations of this file that leave the manager alone. *)
Definition manager_same {A} (c : GoSql.M (ServerState S) A) : Prop := ∀ db res db', c db = (res, db') → manager_db db' = manager_db db.
Lemma same_ret {A} (a : A) : manager_same (mret a).
Proof. by intros db res db' [= _ <-]. Qed.
Lemma same_audit type actor runner : manager_same (recordAudit type actor runner).
Proof. by intros db res db' [= _ <-]. Qed.
Lemma same_call c : manager_same (call_backend backend c).
Proof. by intros db res db' [= _ <-]. Qed.
Lemma same_bind {A B} (c : GoSql.M (ServerState S) A) (f : A → GoSql.M (ServerState S) B) :
  manager_same c → (∀ a, manager_same (f a)) → manager_same (c ≫= f).
Proof.
  unfold mbind, M_bind. intros Hc Hf db res db' E. destruct (c db) as [[e|a] db1] eqn:Ec; [injection E as _ <-; by eapply Hc|].
  etrans; [by eapply Hf|by eapply Hc].
Qed.
Hint Resolve same_ret same_audit same_call same_bind : legator.

Lemma same_stop r reason : manager_same (stopAndTeardownRunnerExecution cfg backend r reason).
Proof.
  unfold stopAndTeardownRunnerExecution. destruct (_ =s _); cbn [negb]; [|eauto with legator].
  destruct (cf_backend cfg); cbn [negb]; [|eauto with legator].
  apply same_bind; [eauto with legator|]. intros a. apply same_bind; [eauto with legator|]. intros b. case_match; eauto with legator.
Qed.
Lemma same_execute audience r : manager_same (executeRunnerLifecycle cfg backend audience r).
Proof.
  unfold executeRunnerLifecycle. destruct (ru_Backend r =s _); cbn [negb]; [|eauto with legator].
  destruct (cf_backend cfg); cbn [negb]; [|eauto with legator].
  destruct (audience =s _); [case_match; eauto with legator|]. destruct (audience =s _); [apply same_stop|].
  destruct (audience =s _); [|eauto with legator]. destruct (ru_State r =s _); [apply same_stop|].
  apply same_bind; [eauto with legator|]. intros a. case_match; eauto with legator.
Qed.

(** A call whose error is turned into a reply. *)
Lemma attempt_manager {A} (c : GoSql.M (ManagerState S) A) db r db' :
  attempt (on_manager c) db = (inr r, db') → c (manager_db db) = (r, manager_db db') ∧ sv_calls (rows db') = sv_calls (rows db).
Proof. by intros (E & Hc & _)%attempt_inr%on_manager_eq. Qed.

Lemma GetRunner_db id (d : DB (ManagerState S)) r d' : GetRunner id d = (r, d') → d' = d.
Proof. unfold GetRunner. case_match; by intros [= _ <-]. Qed.

(** What the first part of the handler has established when it lets the request
    through, and that it leaves the runners alone otherwise. *)
Lemma before_spec ctx req audience db out db' :
  lifecycle_before cfg ctx req audience db = (inr out, db') →
  runners (sv_manager (rows db')) = runners (sv_manager (rows db)) ∧ sv_calls (rows db') = sv_calls (rows db) ∧
  match out with
  | inl reply => ∀ st r, reply ≠ Replied st r
  | inr (r, actor) => ∃ sessionID token job,
      runnerSessionContext ctx = Some (sessionID, actor) ∧ lh_Body req = Some (token, job) ∧
      enforceWorkspaceMatch (cf_isolation cfg) ctx (ru_WorkspaceID r) = Serve ∧
      PrepareRunnerLifecycle {| lq_RunnerID := TrimSpace (lh_ID req); lq_JobID := TrimSpace job; lq_RunToken := TrimSpace token; lq_SessionID := sessionID |}
        audience (manager_db db) = (inr r, manager_db db')
  end.
Proof.
  unfold lifecycle_before. cbv zeta. destruct (cf_available cfg); cbn [negb]; [|by intros [-> ->]%ret_inr].
  destruct (_ =s ""); [by intros [-> ->]%ret_inr|]. destruct (runnerSessionContext ctx) as [[sessionID actor]|]; [|by intros [-> ->]%ret_inr].
  destruct (lh_Body req) as [[token job]|]; [|by intros [-> ->]%ret_inr].
  intros E. apply bind_inr in E as (cur & db1 & [Hg Hc1]%attempt_manager & E). pose proof (GetRunner_db _ _ _ _ Hg) as Hdb1.
  assert (Hm1 : sv_manager (rows db1) = sv_manager (rows db)) by (by injection Hdb1).
  destruct cur as [e|cur]; [apply ret_inr in E as [-> ->]; split_and!; [by rewrite Hm1|done|unfold writeRunnerError; intros ? ?; repeat case_match; done]|].
  destruct (enforceWorkspaceMatch _ _ _) as [|status code|] eqn:Hw; [|apply ret_inr in E as [-> ->]; by rewrite Hm1..].
  apply bind_inr in E as (prep & db2 & [Hp Hc2]%attempt_manager & E). rewrite Hdb1 in Hp. pose proof Hp as Hrs.
  apply runs_Prepare, broker_steps_runners in Hrs. cbn in Hrs.
  destruct prep as [e|r]; apply ret_inr in E as [-> ->]; (split; [done|]; split; [congruence|]); [unfold writeRunnerError; intros ? ?; repeat case_match; done|].
  exists sessionID, token, job. split_and!; try done.
  apply Prepare_ok in Hp as (target & c & d & _ & Hr & _). cbn [lq_RunnerID] in Hr. rewrite TrimSpace_idem in Hr.
  unfold GetRunner in Hg. destruct (_ =s ""); [done|]. unfold lookup_runner in Hg. cbn [rows manager_db] in Hg, Hr. rewrite TrimSpace_idem, Hr in Hg. by injection Hg as <-.
Qed.

(** The calls that carry out an operation on a sandbox runner. *)
Definition start_request (r : Runner) (c : SandboxContract) : StartExecutionRequest :=
  {| se_RunnerID := ru_ID r; se_JobID := ru_JobID r; se_SessionID := ru_SessionID r; se_Image := sc_Image c; se_Command := sc_Command c;
     se_Timeout := if 0 <? sc_TimeoutSeconds c then to_int64 (sc_TimeoutSeconds c * Second) else 0 |}.
Inductive carries_out (r : Runner) : string → list backend_call → Prop :=
  | co_start c : ru_Sandbox r = Some c → carries_out r AudienceRunnerStart [BackendStart (start_request r c)]
  | co_stop : carries_out r AudienceRunnerStop [BackendStop (ru_ID r) "stop"; BackendTeardown (ru_ID r) "stop"]
  | co_destroy_running : ru_State r = StateRunning →
      carries_out r AudienceRunnerDestroy [BackendStop (ru_ID r) "destroy_running"; BackendTeardown (ru_ID r) "destroy_running"]
  | co_destroy : ru_State r ≠ StateRunning → carries_out r AudienceRunnerDestroy [BackendTeardown (ru_ID r) "destroy"].

(** The calls were made, and the backend accepted each of them. *)
Definition accepted (before : list backend_call) (cs after : list backend_call) : Prop :=
  after = before ++ cs ∧ ∀ i c, cs !! i = Some c → backend (length before + i) c = None.

Lemma stop_none r reason db db' :
  ru_Backend r = BackendSandbox → stopAndTeardownRunnerExecution cfg backend r reason db = (inr None, db') →
  accepted (sv_calls (rows db)) [BackendStop (ru_ID r) reason; BackendTeardown (ru_ID r) reason] (sv_calls (rows db')).
Proof.
  intros Hb. unfold stopAndTeardownRunnerExecution. rewrite Hb. cbn [negb String.eqb]. destruct (cf_backend cfg); [|done].
  intros E. apply bind_inr in E as (a & db1 & [= Ha <-] & E). apply bind_inr in E as (b & db2 & [= Hc <-] & E).
  cbn [rows sv_calls] in Hc. rewrite length_app in Hc. destruct a as [ea|], b as [eb|]; try done. cbn in E.
  injection E as <-. cbn. split; [by rewrite <- app_assoc|]. intros [|[|i]] c [= <-]; rewrite ?Nat.add_0_r; done.
Qed.

Lemma execute_none audience r db db' :
  audience ∈ [AudienceRunnerStart; AudienceRunnerStop; AudienceRunnerDestroy] → ru_Backend r = BackendSandbox →
  executeRunnerLifecycle cfg backend audience r db = (inr None, db') →
  ∃ cs, carries_out r audience cs ∧ accepted (sv_calls (rows db)) cs (sv_calls (rows db')).
Proof.
  intros Ha Hb. unfold executeRunnerLifecycle. rewrite Hb. cbn [negb String.eqb]. destruct (cf_backend cfg); [|done].
  assert (Hone : ∀ c l l', l' = l ++ [c] → backend (length l) c = None → accepted l [c] l').
  { intros c l l' -> Hc. split; [done|]. intros [|i] c' [= <-]. by rewrite Nat.add_0_r. }
  repeat (apply elem_of_cons in Ha as [->|Ha]); [..|by apply not_elem_of_nil in Ha]; cbn [negb String.eqb Ascii.eqb Bool.eqb andb AudienceRunnerStart].
  - destruct (ru_Sandbox r) as [c|] eqn:Hc; [|done]. intros E. apply bind_inr in E as (a & db1 & [= Hx <-] & E).
    destruct a; [done|]. injection E as <-. exists [BackendStart (start_request r c)]. split; [by constructor|]. by apply Hone.
  - intros E. exists [BackendStop (ru_ID r) "stop"; BackendTeardown (ru_ID r) "stop"]. split; [constructor|by eapply stop_none].
  - destruct (String.eqb_spec (ru_State r) StateRunning) as [Hs|Hs]; intros E.
    + exists [BackendStop (ru_ID r) "destroy_running"; BackendTeardown (ru_ID r) "destroy_running"]. split; [by constructor|by eapply stop_none].
    + apply bind_inr in E as (a & db1 & [= Hx <-] & E). destruct a; [done|]. cbn in E. injection E as <-.
      exists [BackendTeardown (ru_ID r) "destroy"]. split; [by constructor|]. by apply Hone.
Qed.

Lemma host_calls audience r db res db' :
  ru_Backend r ≠ BackendSandbox → executeRunnerLifecycle cfg backend audience r db = (res, db') → db' = db.
Proof. intros Hb. unfold executeRunnerLifecycle. apply String.eqb_neq in Hb. rewrite Hb. by intros [= _ <-]. Qed.

Lemma lifecycle_target a : a ∈ [AudienceRunnerStart; AudienceRunnerStop; AudienceRunnerDestroy] → audienceTargetState a = audienceTarget a.
Proof. intros Ha. by repeat (apply elem_of_cons in Ha as [->|Ha]); [..|apply not_elem_of_nil in Ha]. Qed.

Lemma after_spec r actor audience ev db out db' :
  lifecycle_after m r actor audience ev db = (inr out, db') →
  match out with
  | Replied st r' => ∃ target r0 now, st = 200 ∧ audienceTargetState audience = Some target ∧ r' = moved r0 target now ∧
      runners (sv_manager (rows db)) !! TrimSpace (ru_ID r) = Some r0 ∧ canTransition (ru_State r0) target = true ∧
      sv_manager (rows db') = Build_ManagerState (broker_state (sv_manager (rows db))) (<[TrimSpace (ru_ID r) := r']> (runners (sv_manager (rows db)))) ∧
      sv_calls (rows db') = sv_calls (rows db)
  | _ => sv_manager (rows db') = sv_manager (rows db)
  end.
Proof.
  unfold lifecycle_after. destruct (audienceTargetState audience) as [target|]; [|by intros [-> ->]%ret_inr].
  intros E. apply bind_inr in E as (upd & db1 & (Hc & Hcalls & _)%attempt_inr%on_manager_eq & E). pose proof (Complete_ok m _ _ _ _ _ Hc) as Hok.
  destruct upd as [e|r'].
  - apply ret_inr in E as [-> ->]. destruct Hok as [[_ Hok]|(? & ? & _ & _ & [=] & _)]. unfold writeRunnerError. repeat case_match; done.
  - apply bind_inr in E as ([] & db2 & [= <-] & [-> ->]%ret_inr). destruct Hok as [[[? [=]] _]|(r0 & now & Hr & Ht & [= ->] & Hrows)].
    exists target, r0, now. split_and!; done.
Qed.

(** What it takes to get the reply that the operation was done, and what is then
    the case: the request is that of a signed-in user whose workspace is the
    runner's; the token was unspent and now is spent; the transition was
    allowed and is recorded; and for a sandbox runner the backend accepted every
    call that carries the operation out. *)
Record carried_out (ctx : Context) (req : lifecycle_http) (audience : string) (db db' : DB (ServerState S)) (reply : runner_reply) : Prop := {
  co_session : is_Some (runnerSessionContext ctx);
  co_runner r : runners (sv_manager (rows db)) !! TrimSpace (lh_ID req) = Some r →
    enforceWorkspaceMatch (cf_isolation cfg) ctx (ru_WorkspaceID r) = Serve ∧
    (ru_Backend r = BackendSandbox → ∃ cs, carries_out r audience cs ∧ accepted (sv_calls (rows db)) cs (sv_calls (rows db'))) ∧
    ∃ target now, audienceTarget audience = Some target ∧ canTransition (ru_State r) target = true ∧ reply = Replied 200 (moved r target now) ∧
      runners (sv_manager (rows db')) = <[TrimSpace (lh_ID req) := moved r target now]> (runners (sv_manager (rows db)));
  co_exists : is_Some (runners (sv_manager (rows db)) !! TrimSpace (lh_ID req));
  co_token : ∃ token job, lh_Body req = Some (token, job) ∧
    ¬ tb_spent (TrimSpace token) (broker_state (sv_manager (rows db))) ∧ tb_spent (TrimSpace token) (broker_state (sv_manager (rows db')));
}.

Lemma manager_db_inj db1 db2 : manager_db db1 = manager_db db2 → sv_manager (rows db1) = sv_manager (rows db2).
Proof. by intros [=]. Qed.

(** C14. The lifecycle handler: a start, stop or destroy request either changes no
    runner, or is answered 200 with everything that takes done; in particular a
    backend that refuses a call leaves the runner in its state. *)
Theorem lifecycle_handler_spec ctx req audience ev db reply db' :
  audience ∈ [AudienceRunnerStart; AudienceRunnerStop; AudienceRunnerDestroy] →
  tb_inv (broker_state (sv_manager (rows db))) → runners_ok (runners (sv_manager (rows db))) →
  handleRunnerLifecycle m cfg backend ctx req audience ev db = (inr reply, db') →
  (∀ st r, reply ≠ Replied st r) ∧ runners (sv_manager (rows db')) = runners (sv_manager (rows db)) ∨
  carried_out ctx req audience db db' reply.
Proof.
  intros Ha Hinv Hok E. apply bind_inr in E as (out & db1 & (Hrs1 & Hcalls1 & Hout)%before_spec & E).
  destruct out as [r0|[r actor]]; [apply ret_inr in E as [-> ->]; by left|]. destruct Hout as (session & token & job & Hses & Hbody & Hws & Hprep).
  apply bind_inr in E as (err & db2 & Hexec & E). pose proof (same_execute _ _ _ _ _ Hexec) as Hsame%manager_db_inj.
  destruct err as [e|].
  { apply bind_inr in E as ([] & db3 & [= <-] & [-> ->]%ret_inr). left. cbn. rewrite Hsame, Hrs1. split; [|done].
    unfold writeRunnerError. intros ? ?. repeat case_match; done. }
  apply after_spec in E. apply Prepare_ok in Hprep as (target & c & d & Htg & Hr & Hct & _ & Hv & Hd). cbn [lq_RunnerID] in Hr. rewrite TrimSpace_idem in Hr.
  cbn [manager_db rows] in Hr. destruct reply as [st code|st r'|st t]; [left; by rewrite E, Hsame, Hrs1| |left; by rewrite E, Hsame, Hrs1].
  destruct E as (target' & r0 & now & -> & Htg' & -> & Hr0 & Hct' & Hrows & Hcalls). right.
  destruct (Hok _ _ Hr) as (Hid & _). rewrite Hsame, Hrs1, Hid, TrimSpace_idem, Hr in Hr0. injection Hr0 as <-.
  rewrite (lifecycle_target _ Ha), Htg in Htg'. injection Htg' as <-.
  pose proof (tb_single_use _ _ _ _ Hv Hinv eq_refl) as [Hn Hs]. cbn [lifecycle_validation vr_Token lq_RunToken rows manager_db] in Hn, Hs. rewrite !TrimSpace_idem in Hn, Hs.
  assert (Hbs : broker_state (sv_manager (rows db1)) = rows d) by (by injection Hd as ->).
  constructor; [by eauto| |by eauto|].
  - intros r1 Hr1. rewrite Hr in Hr1. injection Hr1 as <-. split; [done|]. split.
    + intros Hsb. destruct (execute_none _ _ _ _ Ha Hsb Hexec) as (cs & Hco & Hacc). exists cs. split; [done|]. by rewrite Hcalls, <- Hcalls1.
    + exists target, now. split_and!; try done. by rewrite Hrows, Hsame, Hrs1, Hid, TrimSpace_idem.
  - exists token, job. split_and!; [done|done|]. by rewrite Hrows, Hsame, Hbs.
Qed.
End guarantees.

(** ** Concrete runs *)

Module RunnerExamples.
#[export] Existing Instances ExampleHost.host.
Definition broker : Broker :=
  NewBroker (λ _, inr "") {| DefaultTTL := 0; MaxScope := 0; Now := None;
    TokenGenerator := Some (λ n, inr ("tok-" +:+ pretty n)%string); AuditSink := false |}.
#[export] Instance tokens_of_broker : tokenBroker BrokerState := control_plane_broker broker.
#[export] Instance laws_of_broker : TokenBrokerLaws BrokerState := control_plane_broker_laws broker.

Definition manager : Manager := NewManager {| mc_RunTokenTTL := 0; mc_Now := None; mc_IDGenerator := Some (λ _, "run-1"%string) |}.
Definition server : ServerConfig :=
  {| cf_isolation := false; cf_available := true; cf_backend := true; cf_sandboxImage := "alpine"; cf_sandboxTimeout := 600 * Second |}.
Definition accepts (_ : nat) (_ : backend_call) : option string := None.
Definition refuses (_ : nat) (_ : backend_call) : option string := Some "no space left"%string.
Definition alice_ctx : Context :=
  {| ctx_key := None;
     ctx_user := Some {| au_ID := "u-1"; au_Username := "alice"; au_Role := "operator"; au_SessionID := "s-1"; au_WorkspaceID := ""; au_Permissions := [] |} |}.

Definition db0 : DB (ServerState BrokerState) :=
  Build_DB (Build_ServerState (Build_ManagerState (rows no_tokens) ∅) [] []) 0.
Definition sandbox_body : create_body :=
  {| cb_Label := "ci"; cb_JobID := ""; cb_Backend := "sandbox"; cb_Sandbox := Some {| sc_Image := ""; sc_Command := ["make"; " test "]; sc_TimeoutSeconds := 0 |} |}.
Definition token_for (job audience : string) : token_body := {| kb_RunnerID := "run-1"; kb_JobID := job; kb_Audience := audience; kb_TTLSeconds := 0 |}.
Definition created : DB (ServerState BrokerState) := (handleCreateRunner manager server alice_ctx (Some sandbox_body) db0).2.
Definition issue (b : token_body) (db : DB (ServerState BrokerState)) : string * DB (ServerState BrokerState) :=
  match handleIssueRunToken manager server alice_ctx (Some b) db with
  | (inr (RepliedToken _ t), db') => (rt_Token t, db')
  | (_, db') => ("", db')
  end.
Definition token1 : string := (issue (token_for "" AudienceRunnerStart) created).1.
Definition with_token : DB (ServerState BrokerState) := (issue (token_for "" AudienceRunnerStart) created).2.
Definition token2 : string := (issue (token_for "" AudienceRunnerStart) with_token).1.
Definition with_tokens : DB (ServerState BrokerState) := (issue (token_for "" AudienceRunnerStart) with_token).2.
Definition start_req (token : string) : lifecycle_http := {| lh_ID := "run-1"; lh_Body := Some (token, ""%string) |}.
Definition status (x : result runner_reply * DB (ServerState BrokerState)) : Z :=
  match x.1 with inr (Replied st _) | inr (RepliedToken st _) | inr (Refused st _) => st | inl _ => 0 end.
Definition state_of (db : DB (ServerState BrokerState)) : option string := ru_State <$> runners (sv_manager (rows db)) !! "run-1"%string.
End RunnerExamples.
Import RunnerExamples.

(** Two start requests whose token checks both come before the first of them
    moves the runner start it twice: the backend gets two start calls, and the
    second request is then answered 409 with its container running. *)
Theorem runner_started_twice :
  ∃ db1 p1 a1 db2 p2 a2,
    lifecycle_before server alice_ctx (start_req token1) AudienceRunnerStart with_tokens = (inr (inr (p1, a1)), db1) ∧
    lifecycle_before server alice_ctx (start_req token2) AudienceRunnerStart db1 = (inr (inr (p2, a2)), db2) ∧
    let db3 := (executeRunnerLifecycle server accepts AudienceRunnerStart p1 db2).2 in
    let db4 := (executeRunnerLifecycle server accepts AudienceRunnerStart p2 db3).2 in
    let first := lifecycle_after manager p1 a1 AudienceRunnerStart EventRunnerStarted db4 in
    let second := lifecycle_after manager p2 a2 AudienceRunnerStart EventRunnerStarted first.2 in
    length (sv_calls (rows db4)) = 2%nat ∧ status first = 200 ∧ status second = 409 ∧ state_of second.2 = Some StateRunning.
Proof.
  do 6 eexists. split; [vm_compute; reflexivity|]. split; [vm_compute; reflexivity|]. vm_compute. auto.
Qed.

(** A token issued for a job of a runner that was created without one is
    refused by every lifecycle operation of that runner: issuing binds it to the
    job, starting asks for one that is bound to the runner. *)
Theorem job_token_refused :
  let issued := issue (token_for "job-7" AudienceRunnerStart) created in
  let started := handleRunnerLifecycle manager server accepts alice_ctx (start_req issued.1) AudienceRunnerStart EventRunnerStarted issued.2 in
  issued.1 ≠ ""%string ∧ status started = 403 ∧ state_of started.2 = Some StateCreated ∧
  status (handleRunnerLifecycle manager server accepts alice_ctx (start_req token1) AudienceRunnerStart EventRunnerStarted with_token) = 200.
Proof. vm_compute. split_and!; [discriminate|reflexivity..]. Qed.

(** A backend failure spends the token: the runner stays as it was, and the
    same request cannot be repeated. *)
Example failed_start_spends_token :
  let failed := handleRunnerLifecycle manager server refuses alice_ctx (start_req token1) AudienceRunnerStart EventRunnerStarted with_token in
  let again := handleRunnerLifecycle manager server accepts alice_ctx (start_req token1) AudienceRunnerStart EventRunnerStarted failed.2 in
  status failed = 502 ∧ state_of failed.2 = Some StateCreated ∧ status again = 409.
Proof. vm_compute. auto. Qed.

(** A history of the manager: create, issue, prepare, complete. *)
Module ManagerExamples.
Definition create_req : CreateRequest :=
  {| cq_Label := "ci"; cq_JobID := "job-1"; cq_Backend := ""; cq_Sandbox := None; cq_CreatedBy := "alice"; cq_SessionID := "s-1"; cq_WorkspaceID := "Team" |}.
Definition issue_req : IssueTokenRequest :=
  {| iq_RunnerID := "run-1"; iq_JobID := ""; iq_Audience := AudienceRunnerStart; iq_Issuer := ""; iq_SessionID := "s-1"; iq_TTL := 0 |}.
Definition m0 : DB (ManagerState BrokerState) := init_manager (rows no_tokens).
Definition m1 : DB (ManagerState BrokerState) := (CreateRunner manager create_req m0).2.
Definition m2 : DB (ManagerState BrokerState) := (IssueRunToken manager issue_req m1).2.
Definition prepare_req : LifecycleRequest :=
  {| lq_RunnerID := "run-1"; lq_JobID := "job-1"; lq_RunToken := match (IssueRunToken manager issue_req m1).1 with inr t => rt_Token t | inl _ => ""%string end;
     lq_SessionID := "s-1" |}.
Definition m3 : DB (ManagerState BrokerState) := (PrepareRunnerLifecycle prepare_req AudienceRunnerStart m2).2.
Definition m4 : DB (ManagerState BrokerState) := (CompleteRunnerLifecycle manager "run-1" StateRunning m3).2.
Definition issue_event : runner_event := EvIssue issue_req (IssueRunToken manager issue_req m1).1.
Definition prepare_event : runner_event := EvPrepare prepare_req AudienceRunnerStart (PrepareRunnerLifecycle prepare_req AudienceRunnerStart m2).1.
Definition complete_event : runner_event := EvComplete "run-1" StateRunning (CompleteRunnerLifecycle manager "run-1" StateRunning m3).1.
Definition create_event : runner_event := EvCreate create_req (CreateRunner manager create_req m0).1.

Lemma trace_from_m1 : trace (manager_call manager) m1 [issue_event; prepare_event; complete_event] m4.
Proof.
  eapply trace_cons; [apply mc_issue, surjective_pairing|]. eapply trace_cons; [apply mc_prepare, surjective_pairing|].
  eapply trace_cons; [apply mc_complete, surjective_pairing|constructor].
Qed.
Lemma trace_to_m2 : trace (manager_call manager) m0 [create_event; issue_event] m2.
Proof. eapply trace_cons; [apply mc_create, surjective_pairing|]. eapply trace_cons; [apply mc_issue, surjective_pairing|constructor]. Qed.
Lemma trace_to_m4 : trace (manager_call manager) m0 [create_event; issue_event; prepare_event; complete_event] m4.
Proof. eapply trace_cons; [apply mc_create, surjective_pairing|exact trace_from_m1]. Qed.

Lemma no_tokens_inv : tb_inv (rows no_tokens).
Proof. exact (no_tokens_ok broker). Qed.
Lemma runners_ok_m1 : runners_ok (runners (rows m1)).
Proof.
  apply map_Forall_to_list. set (l := map_to_list (runners (rows m1))). vm_compute in l. subst l.
  repeat constructor; [discriminate|by intros [? ?]].
Qed.
Lemma m2_inv : tb_inv (broker_state (rows m2)).
Proof.
  eapply (trace_invariant (manager_call manager) (λ db, tb_inv (broker_state (rows db)))); [|exact trace_to_m2|exact no_tokens_inv].
  intros d1 e d2 He%call_effect Hi. by apply (effects_keep _ _ He).
Qed.
(** The server after the first two calls. *)
Definition server_db : DB (ServerState BrokerState) := Build_DB (Build_ServerState (rows m2) [] []) (ticks m2).
End ManagerExamples.
Import ManagerExamples.

Lemma runner_lifecycle_witness :
  ∃ r r', runners (rows m1) !! "run-1"%string = Some r ∧ runners (rows m4) !! "run-1"%string = Some r' ∧ evolves r r' ∧ ru_State r' = StateRunning.
Proof.
  destruct (runner_lifecycle manager m1 _ m4 trace_from_m1 runners_ok_m1) as [_ He].
  destruct (runners (rows m1) !! "run-1"%string) as [r|] eqn:Er; [|vm_compute in Er; discriminate].
  destruct (He "run-1"%string r Er) as (r' & Hr' & Hev); [repeat constructor|].
  exists r, r'. split_and!; [reflexivity|exact Hr'|exact Hev|]. vm_compute in Hr'. injection Hr' as <-. reflexivity.
Defined.

Lemma lifecycle_authorised_witness :
  ∃ c, tb_claims (lq_RunToken prepare_req) (broker_state (rows m2)) = Some c ∧ cl_SessionID c = "s-1"%string ∧ cl_ProbeID c = "run-1"%string ∧ cl_RunID c = "job-1"%string.
Proof.
  destruct (runners (rows m2) !! "run-1"%string) as [r|] eqn:Er; [|vm_compute in Er; discriminate].
  destruct (lifecycle_authorised manager (rows no_tokens) _ m2 prepare_req AudienceRunnerStart r m3 no_tokens_inv trace_to_m2)
    as (target & c & _ & _ & _ & Hc & _).
  - vm_compute in Er. injection Er as <-. vm_compute. reflexivity.
  - exists c. split; [exact Hc|]. vm_compute in Hc. injection Hc as <-. split_and!; reflexivity.
Defined.

Lemma token_authorises_once_witness :
  count_where (spends (lq_RunToken prepare_req)) [create_event; issue_event; prepare_event; complete_event] = 1%nat ∧
  (count_where (spends (lq_RunToken prepare_req)) [create_event; issue_event; prepare_event; complete_event] <= 1)%nat.
Proof.
  split; [vm_compute; reflexivity|].
  exact (token_authorises_once manager (rows no_tokens) _ m4 (lq_RunToken prepare_req) no_tokens_inv trace_to_m4).
Defined.

Lemma lifecycle_handler_spec_witness :
  let req := start_req (lq_RunToken prepare_req) in
  let x := handleRunnerLifecycle manager server accepts alice_ctx req AudienceRunnerStart EventRunnerStarted server_db in
  ∃ reply, x.1 = inr reply ∧ carried_out server accepts alice_ctx req AudienceRunnerStart server_db x.2 reply.
Proof.
  intros req x. destruct x.1 as [e|reply] eqn:Ex; [vm_compute in Ex; discriminate|]. exists reply. split; [reflexivity|].
  destruct (lifecycle_handler_spec manager server accepts alice_ctx req AudienceRunnerStart EventRunnerStarted server_db reply x.2)
    as [[Hn _]|Hc]; [left|exact m2_inv| | | |exact Hc].
  - apply map_Forall_to_list. set (l := map_to_list (runners (sv_manager (rows server_db)))). vm_compute in l. subst l.
    repeat constructor; [discriminate|by intros [? ?]].
  - rewrite <- Ex. apply surjective_pairing.
  - vm_compute in Ex. injection Ex as <-. by destruct (Hn 200 _ eq_refl).
Defined.
