(* ===== verification/Sandbox.v ===== *)
(** * The tables of the sandbox subsystem (src/internal/controlplane/sandbox)

    Sessions, tasks, artifacts, output chunks and templates share one SQLite
    handle, so they are one state.  A TEXT column that holds an instant or a JSON
    document is the instant or the value; instants are ordered by their text.
    The [map[string]string] metadata is a finite map. *)
From S2P Require Import Prelude GoStrings GoErrors GoTime GoSort GoSql GoCrypto.
Local Open Scope go_scope.
Local Open Scope Z_scope.

(** ** model.go *)

Definition StateCreated : string := "created".
Definition StateProvisioning : string := "provisioning".
Definition StateReady : string := "ready".
Definition StateRunning : string := "running".
Definition StateFailed : string := "failed".
Definition StateDestroyed : string := "destroyed".

Definition validTransitions (from : string) : option (list string) :=
  if from =s StateCreated then Some [StateProvisioning]
  else if from =s StateProvisioning then Some [StateReady; StateFailed]
  else if from =s StateReady then Some [StateRunning; StateDestroyed]
  else if from =s StateRunning then Some [StateFailed; StateDestroyed]
  else if from =s StateFailed then Some []
  else if from =s StateDestroyed then Some []
  else None.

Definition ValidateTransition (from to : string) : option go_error :=
  match validTransitions from with
  | None => Some (ErrorString ("unknown state " +:+ Quote from)%string)
  | Some allowed =>
      if existsb (String.eqb to) allowed then None
      else Some (ErrorString ("transition " +:+ Quote from +:+ " → " +:+ Quote to +:+ " is not allowed")%string)
  end.

Record SandboxSession := {
  sx_ID : string; sx_WorkspaceID : string; sx_ProbeID : string; sx_TemplateID : string; sx_RuntimeClass : string;
  sx_State : string; sx_TaskID : string; sx_CreatedBy : string; sx_CreatedAt : time; sx_UpdatedAt : time;
  sx_DestroyedAt : option time; sx_TTL : duration; sx_Metadata : gmap string string; sx_ErrorMessage : string;
}.
Definition IsTerminal (s : SandboxSession) : bool := (sx_State s =s StateFailed) || (sx_State s =s StateDestroyed).
Record ListFilter := { lf_WorkspaceID : string; lf_State : string; lf_ProbeID : string; lf_Limit : Z }.

(** ** task.go *)

Definition TaskStateQueued : string := "queued".
Definition TaskStateRunning : string := "running".
Definition TaskStateSucceeded : string := "succeeded".
Definition TaskStateFailed : string := "failed".
Definition TaskStateCancelled : string := "cancelled".
Definition TaskKindCommand : string := "command".
Definition TaskKindRepo : string := "repo".
Definition MaxOutputBytes : Z := 64 * 1024.
Definition DefaultTaskTimeoutSecs : Z := 300.
Definition MaxTaskTimeoutSecs : Z := 3600.

Definition validTaskTransitions (from : string) : option (list string) :=
  if from =s TaskStateQueued then Some [TaskStateRunning; TaskStateCancelled]
  else if from =s TaskStateRunning then Some [TaskStateSucceeded; TaskStateFailed; TaskStateCancelled]
  else if from =s TaskStateSucceeded then Some []
  else if from =s TaskStateFailed then Some []
  else if from =s TaskStateCancelled then Some []
  else None.

Definition ValidateTaskTransition (from to : string) : option go_error :=
  match validTaskTransitions from with
  | None => Some (ErrorString ("unknown task state " +:+ Quote from)%string)
  | Some allowed =>
      if existsb (String.eqb to) allowed then None
      else Some (ErrorString ("task transition " +:+ Quote from +:+ " → " +:+ Quote to +:+ " is not allowed")%string)
  end.

Record Task := {
  tk_ID : string; tk_SandboxID : string; tk_WorkspaceID : string; tk_Kind : string; tk_Command : list string;
  tk_RepoURL : string; tk_RepoBranch : string; tk_RepoCommand : list string; tk_Image : string; tk_TimeoutSecs : Z;
  tk_State : string; tk_ExitCode : Z; tk_Output : string; tk_CreatedAt : time; tk_StartedAt : option time;
  tk_CompletedAt : option time; tk_ErrorMessage : string;
}.
Definition task_IsTerminal (t : Task) : bool :=
  (tk_State t =s TaskStateSucceeded) || (tk_State t =s TaskStateFailed) || (tk_State t =s TaskStateCancelled).
Record TaskListFilter := { tf_SandboxID : string; tf_WorkspaceID : string; tf_State : string; tf_Limit : Z }.

(** ** artifact.go *)

Definition ArtifactKindFile : string := "file".
Definition ArtifactKindDiff : string := "diff".
Definition ArtifactKindLog : string := "log".
Definition MaxArtifactSizeBytes : Z := 5 * 1024 * 1024.
Definition MaxSandboxArtifactBytes : Z := 50 * 1024 * 1024.

Record Artifact := {
  af_ID : string; af_TaskID : string; af_SandboxID : string; af_WorkspaceID : string; af_Path : string; af_Kind : string;
  af_Size : Z; af_SHA256 : string; af_MimeType : string; af_DiffSummary : string; af_Content : string; af_CreatedAt : time;
}.
Record ArtifactListFilter := { xf_SandboxID : string; xf_TaskID : string; xf_WorkspaceID : string }.

Definition line_break : ascii := Ascii.ascii_of_nat 10.
(** The lines that start with [c] but not with three of them. *)
Definition diff_line (c : ascii) (line : string) : bool :=
  match line with
  | EmptyString => false
  | String a _ => Ascii.eqb a c && negb (HasPrefix line (String c (String c (String c EmptyString))))
  end.
Definition ParseDiffSummary (content : string) : string :=
  let lines := split_on line_break content in
  ("+" +:+ Itoa (Z.of_nat (count_where (diff_line "+"%char) lines)) +:+ " -" +:+
   Itoa (Z.of_nat (count_where (diff_line "-"%char) lines)))%string.

(** ** stream.go *)

Definition MaxChunkSize : Z := 8 * 1024.
Definition StreamStdout : string := "stdout".
Definition StreamStderr : string := "stderr".
Record OutputChunk := {
  oc_ID : string; oc_TaskID : string; oc_SandboxID : string; oc_Sequence : Z; oc_Stream : string; oc_Data : string; oc_Timestamp : time;
}.

(** ** The tables *)

Record Tables := { sessions : list SandboxSession; tasks : list Task; artifacts : list Artifact; chunks : list OutputChunk }.
Definition set_sessions (t : Tables) l : Tables := {| sessions := l; tasks := tasks t; artifacts := artifacts t; chunks := chunks t |}.
Definition set_tasks (t : Tables) l : Tables := {| sessions := sessions t; tasks := l; artifacts := artifacts t; chunks := chunks t |}.
Definition set_artifacts (t : Tables) l : Tables := {| sessions := sessions t; tasks := tasks t; artifacts := l; chunks := chunks t |}.
Definition set_chunks (t : Tables) l : Tables := {| sessions := sessions t; tasks := tasks t; artifacts := artifacts t; chunks := l |}.

Notation T := (GoSql.M Tables) (only parsing).

(** [INSERT] into a table whose primary key is [key]. *)
Definition insert_row {A} (table : string) (key : A → string) (row : A) (l : list A) : result unit * list A :=
  if existsb (λ r, key r =s key row) l then (inl (ErrorString ("UNIQUE constraint failed: " +:+ table +:+ ".id")%string), l)
  else (inr tt, l ++ [row]).
(** A filter clause that an empty text leaves out. *)
Definition matches (wanted column : string) : bool := (wanted =s "") || (column =s wanted).
(** [LIMIT] with the default of 100. *)
Definition list_limit (n : Z) : nat := Z.to_nat (if n <=? 0 then 100 else n).

Definition session_is (id : string) (s : SandboxSession) : bool := sx_ID s =s id.
Definition task_is (id : string) (t : Task) : bool := tk_ID t =s id.
Definition artifact_is (id : string) (a : Artifact) : bool := af_ID a =s id.

Section stores.
Context `{Host}.

(** ** store.go *)

Definition Create (sess : SandboxSession) : T SandboxSession :=
  id ← (if sx_ID sess =s "" then uuid_NewString else mret (sx_ID sess));
  now ← time_now;
  let row := {| sx_ID := id; sx_WorkspaceID := sx_WorkspaceID sess; sx_ProbeID := sx_ProbeID sess; sx_TemplateID := sx_TemplateID sess;
                sx_RuntimeClass := sx_RuntimeClass sess; sx_State := StateCreated; sx_TaskID := sx_TaskID sess; sx_CreatedBy := sx_CreatedBy sess;
                sx_CreatedAt := now; sx_UpdatedAt := now; sx_DestroyedAt := sx_DestroyedAt sess; sx_TTL := sx_TTL sess;
                sx_Metadata := sx_Metadata sess; sx_ErrorMessage := sx_ErrorMessage sess |} in
  _ ← wrap_error (errorf_w "insert sandbox session") (exec (λ t,
        let '(r, l) := insert_row "sandbox_sessions" sx_ID row (sessions t) in (r, set_sessions t l)));
  mret row.

Definition Get (id : string) : T (option SandboxSession) := query (λ t, inr (List.find (session_is id) (sessions t))).

(** The rule of [GetForWorkspace] and its twins: an empty workspace on either
    side matches. *)
Definition visible (workspaceID owner : string) : bool := (workspaceID =s "") || (owner =s "") || (owner =s workspaceID).

Definition GetForWorkspace (id workspaceID : string) : T (option SandboxSession) :=
  sess ← Get id;
  match sess with
  | None => mret None
  | Some s => mret (if visible workspaceID (sx_WorkspaceID s) then Some s else None)
  end.

Definition created_desc {A} (at_ : A → time) (a b : A) : bool := text_le (at_ b) (at_ a).
Definition List_ (f : ListFilter) : T (list SandboxSession) :=
  wrap_error (errorf_w "list sandbox sessions") (query (λ t, inr (firstn (list_limit (lf_Limit f)) (order_by (created_desc sx_CreatedAt)
    (List.filter (λ s, matches (lf_WorkspaceID f) (sx_WorkspaceID s) && matches (lf_State f) (sx_State s) && matches (lf_ProbeID f) (sx_ProbeID s))
       (sessions t)))))).

Definition update_sessions (p : SandboxSession → bool) (f : SandboxSession → SandboxSession) : T Z :=
  exec (λ t, (inr (Z.of_nat (count_where p (sessions t))), set_sessions t (update_where p f (sessions t)))).

(** The columns [Update] sets, and those [Transition] sets. *)
Definition edited (sess : SandboxSession) (now : time) (s : SandboxSession) : SandboxSession :=
  {| sx_ID := sx_ID s; sx_WorkspaceID := sx_WorkspaceID s; sx_ProbeID := sx_ProbeID s; sx_TemplateID := sx_TemplateID s;
     sx_RuntimeClass := sx_RuntimeClass s; sx_State := sx_State s; sx_TaskID := sx_TaskID sess; sx_CreatedBy := sx_CreatedBy s;
     sx_CreatedAt := sx_CreatedAt s; sx_UpdatedAt := now; sx_DestroyedAt := sx_DestroyedAt s; sx_TTL := sx_TTL s;
     sx_Metadata := sx_Metadata sess; sx_ErrorMessage := sx_ErrorMessage sess |}.
Definition moved (to : string) (now : time) (s : SandboxSession) : SandboxSession :=
  {| sx_ID := sx_ID s; sx_WorkspaceID := sx_WorkspaceID s; sx_ProbeID := sx_ProbeID s; sx_TemplateID := sx_TemplateID s;
     sx_RuntimeClass := sx_RuntimeClass s; sx_State := to; sx_TaskID := sx_TaskID s; sx_CreatedBy := sx_CreatedBy s;
     sx_CreatedAt := sx_CreatedAt s; sx_UpdatedAt := now; sx_DestroyedAt := if to =s StateDestroyed then Some now else sx_DestroyedAt s;
     sx_TTL := sx_TTL s; sx_Metadata := sx_Metadata s; sx_ErrorMessage := sx_ErrorMessage s |}.

Definition Update (sess : SandboxSession) : T unit :=
  now ← time_now;
  n ← wrap_error (errorf_w "update sandbox session") (update_sessions (session_is (sx_ID sess)) (edited sess now));
  if n =? 0 then errorf ("sandbox session " +:+ Quote (sx_ID sess) +:+ " not found")%string else mret tt.

Definition state_mismatch (from current : string) : string :=
  ("state mismatch: expected " +:+ Quote from +:+ ", current is " +:+ Quote current)%string.

(** The row can be deleted between the update and the read, hence the option. *)
Definition Transition (id from to : string) : T (option SandboxSession) :=
  match ValidateTransition from to with
  | Some e => fail e
  | None =>
      now ← time_now;
      n ← wrap_error (errorf_w "transition sandbox session") (update_sessions (λ s, session_is id s && (sx_State s =s from)) (moved to now));
      if n =? 0 then
        existing ← Get id;
        match existing with
        | None => errorf ("sandbox session " +:+ Quote id +:+ " not found")%string
        | Some s => errorf (state_mismatch from (sx_State s))
        end
      else Get id
  end.

Definition Delete (id : string) : T unit :=
  n ← wrap_error (errorf_w "delete sandbox session") (exec (λ t,
        (inr (Z.of_nat (count_where (session_is id) (sessions t))), set_sessions t (List.filter (λ s, negb (session_is id s)) (sessions t)))));
  if n =? 0 then errorf ("sandbox session " +:+ Quote id +:+ " not found")%string else mret tt.

(** A count that answers 0 when the query fails. *)
Definition count_or_zero (f : Tables → Z) : T Z :=
  r ← attempt (query (λ t, inr (f t)));
  mret (match r with inr n => n | inl _ => 0 end).
Definition Count (workspaceID : string) : T Z :=
  count_or_zero (λ t, Z.of_nat (count_where (λ s, matches workspaceID (sx_WorkspaceID s)) (sessions t))).
Definition CountActive (workspaceID : string) : T Z :=
  count_or_zero (λ t, Z.of_nat (count_where (λ s, negb (IsTerminal s) && matches workspaceID (sx_WorkspaceID s)) (sessions t))).

(** ** task_store.go *)

Definition cap_output (s : string) : string :=
  if MaxOutputBytes <? Z.of_nat (String.length s) then take_str (Z.to_nat MaxOutputBytes) s else s.
Arguments cap_output : simpl never.
Definition clamp_timeout (n : Z) : Z :=
  let n := if n <=? 0 then DefaultTaskTimeoutSecs else n in
  if MaxTaskTimeoutSecs <? n then MaxTaskTimeoutSecs else n.

Definition queued_task (task : Task) (id : string) (now : time) (started completed : option time) (output : string) : Task :=
  {| tk_ID := id; tk_SandboxID := tk_SandboxID task; tk_WorkspaceID := tk_WorkspaceID task; tk_Kind := tk_Kind task;
     tk_Command := tk_Command task; tk_RepoURL := tk_RepoURL task; tk_RepoBranch := tk_RepoBranch task; tk_RepoCommand := tk_RepoCommand task;
     tk_Image := tk_Image task; tk_TimeoutSecs := clamp_timeout (tk_TimeoutSecs task); tk_State := TaskStateQueued;
     tk_ExitCode := tk_ExitCode task; tk_Output := output; tk_CreatedAt := now; tk_StartedAt := started; tk_CompletedAt := completed;
     tk_ErrorMessage := tk_ErrorMessage task |}.

Definition CreateTask (task : Task) : T Task :=
  id ← (if tk_ID task =s "" then uuid_NewString else mret (tk_ID task));
  now ← time_now;
  _ ← wrap_error (errorf_w "insert sandbox task") (exec (λ t,
        let '(r, l) := insert_row "sandbox_tasks" tk_ID (queued_task task id now None None (cap_output (tk_Output task))) (tasks t) in (r, set_tasks t l)));
  mret (queued_task task id now (tk_StartedAt task) (tk_CompletedAt task) (tk_Output task)).

Definition GetTask (id : string) : T (option Task) := query (λ t, inr (List.find (task_is id) (tasks t))).
Definition GetTaskForWorkspace (id workspaceID : string) : T (option Task) :=
  task ← GetTask id;
  match task with
  | None => mret None
  | Some k => mret (if visible workspaceID (tk_WorkspaceID k) then Some k else None)
  end.

Definition ListTasks (f : TaskListFilter) : T (list Task) :=
  wrap_error (errorf_w "list sandbox tasks") (query (λ t, inr (firstn (list_limit (tf_Limit f)) (order_by (created_desc tk_CreatedAt)
    (List.filter (λ k, matches (tf_SandboxID f) (tk_SandboxID k) && matches (tf_WorkspaceID f) (tk_WorkspaceID k) && matches (tf_State f) (tk_State k))
       (tasks t)))))).

Definition update_tasks (p : Task → bool) (f : Task → Task) : T Z :=
  exec (λ t, (inr (Z.of_nat (count_where p (tasks t))), set_tasks t (update_where p f (tasks t)))).

Definition edited_task (task k : Task) : Task :=
  {| tk_ID := tk_ID k; tk_SandboxID := tk_SandboxID k; tk_WorkspaceID := tk_WorkspaceID k; tk_Kind := tk_Kind k;
     tk_Command := tk_Command k; tk_RepoURL := tk_RepoURL k; tk_RepoBranch := tk_RepoBranch k; tk_RepoCommand := tk_RepoCommand k;
     tk_Image := tk_Image k; tk_TimeoutSecs := tk_TimeoutSecs k; tk_State := tk_State k; tk_ExitCode := tk_ExitCode task;
     tk_Output := cap_output (tk_Output task); tk_CreatedAt := tk_CreatedAt k; tk_StartedAt := tk_StartedAt task;
     tk_CompletedAt := tk_CompletedAt task; tk_ErrorMessage := tk_ErrorMessage task |}.

Definition UpdateTask (task : Task) : T unit :=
  n ← wrap_error (errorf_w "update sandbox task") (update_tasks (task_is (tk_ID task)) (edited_task task));
  if n =? 0 then errorf ("sandbox task " +:+ Quote (tk_ID task) +:+ " not found")%string else mret tt.

Definition moved_task (to : string) (now : time) (k : Task) : Task :=
  {| tk_ID := tk_ID k; tk_SandboxID := tk_SandboxID k; tk_WorkspaceID := tk_WorkspaceID k; tk_Kind := tk_Kind k;
     tk_Command := tk_Command k; tk_RepoURL := tk_RepoURL k; tk_RepoBranch := tk_RepoBranch k; tk_RepoCommand := tk_RepoCommand k;
     tk_Image := tk_Image k; tk_TimeoutSecs := tk_TimeoutSecs k; tk_State := to; tk_ExitCode := tk_ExitCode k; tk_Output := tk_Output k;
     tk_CreatedAt := tk_CreatedAt k; tk_StartedAt := if to =s TaskStateRunning then Some now else tk_StartedAt k;
     tk_CompletedAt := if (to =s TaskStateSucceeded) || (to =s TaskStateFailed) || (to =s TaskStateCancelled) then Some now else tk_CompletedAt k;
     tk_ErrorMessage := tk_ErrorMessage k |}.

Definition TransitionTask (id from to : string) : T (option Task) :=
  match ValidateTaskTransition from to with
  | Some e => fail e
  | None =>
      now ← time_now;
      n ← wrap_error (errorf_w "transition sandbox task") (update_tasks (λ k, task_is id k && (tk_State k =s from)) (moved_task to now));
      if n =? 0 then
        existing ← GetTask id;
        match existing with
        | None => errorf ("sandbox task " +:+ Quote id +:+ " not found")%string
        | Some k => errorf (state_mismatch from (tk_State k))
        end
      else GetTask id
  end.

(** ** artifact_store.go *)

Definition sum_sizes (l : list Artifact) : Z := foldr (λ a n, af_Size a + n) 0 l.
Definition sandboxTotalSize (sandboxID workspaceID : string) : T Z :=
  query (λ t, inr (sum_sizes (List.filter (λ a, (af_SandboxID a =s sandboxID) && matches workspaceID (af_WorkspaceID a)) (artifacts t)))).

Definition stored_artifact (a : Artifact) (id : string) (now : time) : Artifact :=
  {| af_ID := id; af_TaskID := af_TaskID a; af_SandboxID := af_SandboxID a; af_WorkspaceID := af_WorkspaceID a; af_Path := af_Path a;
     af_Kind := af_Kind a; af_Size := Z.of_nat (String.length (af_Content a)); af_SHA256 := hex_EncodeToString (sha256 (af_Content a));
     af_MimeType := af_MimeType a;
     af_DiffSummary := if (af_Kind a =s ArtifactKindDiff) && (af_DiffSummary a =s "") then ParseDiffSummary (af_Content a) else af_DiffSummary a;
     af_Content := af_Content a; af_CreatedAt := now |}.

(** The quota is read by one statement and the row is inserted by another, with no
    lock or transaction around them: [between] is what other requests do to the
    tables after the first and before the second. *)
Definition meanwhile (between : Tables → Tables) : T unit := λ db, (inr tt, {| rows := between (rows db); ticks := ticks db |}).
Definition CreateArtifact (between : Tables → Tables) (a : Artifact) : T Artifact :=
  id ← (if af_ID a =s "" then uuid_NewString else mret (af_ID a));
  now ← time_now;
  let size := Z.of_nat (String.length (af_Content a)) in
  if MaxArtifactSizeBytes <? size
  then errorf ("artifact too large: " +:+ Itoa size +:+ " bytes (limit " +:+ Itoa MaxArtifactSizeBytes +:+ ")")%string
  else
    current ← wrap_error (errorf_w "check sandbox artifact quota") (sandboxTotalSize (af_SandboxID a) (af_WorkspaceID a));
    if MaxSandboxArtifactBytes <? current + size
    then errorf ("sandbox artifact quota exceeded: current " +:+ Itoa current +:+ " + new " +:+ Itoa size +:+ " > limit " +:+ Itoa MaxSandboxArtifactBytes)%string
    else
      _ ← meanwhile between;
      _ ← wrap_error (errorf_w "insert sandbox artifact") (exec (λ t,
            let '(r, l) := insert_row "sandbox_artifacts" af_ID (stored_artifact a id now) (artifacts t) in (r, set_artifacts t l)));
      mret (stored_artifact a id now).

Definition GetArtifact (id workspaceID : string) : T (option Artifact) :=
  query (λ t, inr (match List.find (artifact_is id) (artifacts t) with
                   | Some a => if visible workspaceID (af_WorkspaceID a) then Some a else None
                   | None => None
                   end)).

Definition without_content (a : Artifact) : Artifact :=
  {| af_ID := af_ID a; af_TaskID := af_TaskID a; af_SandboxID := af_SandboxID a; af_WorkspaceID := af_WorkspaceID a; af_Path := af_Path a;
     af_Kind := af_Kind a; af_Size := af_Size a; af_SHA256 := af_SHA256 a; af_MimeType := af_MimeType a; af_DiffSummary := af_DiffSummary a;
     af_Content := EmptyString; af_CreatedAt := af_CreatedAt a |}.
Definition created_asc (a b : Artifact) : bool := text_le (af_CreatedAt a) (af_CreatedAt b).
Definition ListArtifacts (f : ArtifactListFilter) : T (list Artifact) :=
  wrap_error (errorf_w "list sandbox artifacts") (query (λ t, inr (map without_content (order_by created_asc
    (List.filter (λ a, matches (xf_SandboxID f) (af_SandboxID a) && matches (xf_WorkspaceID f) (af_WorkspaceID a) && matches (xf_TaskID f) (af_TaskID a))
       (artifacts t)))))).
Definition DeleteArtifacts (sandboxID : string) : T unit :=
  wrap_error (errorf_w "delete sandbox artifacts") (exec (λ t,
    (inr tt, set_artifacts t (List.filter (λ a, af_SandboxID a <>s sandboxID) (artifacts t))))).

(** ** stream_store.go *)

Definition stamped (c : OutputChunk) (id : string) (ts : time) : OutputChunk :=
  {| oc_ID := id; oc_TaskID := oc_TaskID c; oc_SandboxID := oc_SandboxID c; oc_Sequence := oc_Sequence c; oc_Stream := oc_Stream c;
     oc_Data := oc_Data c; oc_Timestamp := ts |}.
Definition insert_chunk (c : OutputChunk) : T unit :=
  exec (λ t, let '(r, l) := insert_row "sandbox_output_chunks" oc_ID c (chunks t) in (r, set_chunks t l)).

Definition AppendChunk (c : OutputChunk) : T OutputChunk :=
  id ← (if oc_ID c =s "" then uuid_NewString else mret (oc_ID c));
  ts ← (if IsZero (oc_Timestamp c) then time_now else mret (oc_Timestamp c));
  _ ← wrap_error (errorf_w "insert output chunk") (insert_chunk (stamped c id ts));
  mret (stamped c id ts).

Fixpoint append_loop (now : time) (cs : list OutputChunk) : T (list OutputChunk) :=
  match cs with
  | [] => mret []
  | c :: cs =>
      id ← (if oc_ID c =s "" then uuid_NewString else mret (oc_ID c));
      let c' := stamped c id (if IsZero (oc_Timestamp c) then now else oc_Timestamp c) in
      _ ← wrap_error (errorf_w ("insert chunk " +:+ Itoa (oc_Sequence c))%string) (insert_chunk c');
      rest ← append_loop now cs;
      mret (c' :: rest)
  end.
(** The chunks are passed by pointer: the caller sees their ids and timestamps. *)
Definition AppendChunks (cs : list OutputChunk) : T (list OutputChunk) :=
  match cs with
  | [] => mret []
  | _ =>
      _ ← wrap_error (errorf_w "begin transaction") begin_;
      transaction (
        _ ← wrap_error (errorf_w "prepare insert") (query (λ _, inr tt));
        now ← time_now;
        cs' ← append_loop now cs;
        _ ← wrap_error (errorf_w "commit") commit;
        mret cs')
  end.

Definition clampLimit (limit : Z) : Z := if limit <=? 0 then 100 else if 1000 <? limit then 1000 else limit.
Definition by_sequence (a b : OutputChunk) : bool := oc_Sequence a <=? oc_Sequence b.
Definition list_chunks (p : OutputChunk → bool) (since limit : Z) (t : Tables) : list OutputChunk :=
  firstn (Z.to_nat (clampLimit limit)) (order_by by_sequence (List.filter (λ c, p c && (since <? oc_Sequence c)) (chunks t))).
Definition ListChunks (taskID : string) (since limit : Z) : T (list OutputChunk) :=
  wrap_error (errorf_w "list chunks by task") (query (λ t, inr (list_chunks (λ c, oc_TaskID c =s taskID) since limit t))).
Definition ListChunksBySandbox (sandboxID : string) (since limit : Z) : T (list OutputChunk) :=
  wrap_error (errorf_w "list chunks by sandbox") (query (λ t, inr (list_chunks (λ c, oc_SandboxID c =s sandboxID) since limit t))).
Definition PurgeChunks (sandboxID : string) : T unit :=
  wrap_error (errorf_w ("purge chunks for sandbox " +:+ Quote sandboxID)%string) (exec (λ t,
    (inr tt, set_chunks t (List.filter (λ c, oc_SandboxID c <>s sandboxID) (chunks t))))).

Definition max_sequence (l : list OutputChunk) : option Z :=
  foldr (λ c acc, Some (match acc with Some m => Z.max (oc_Sequence c) m | None => oc_Sequence c end)) None l.
Definition NextSequence (taskID : string) : T Z :=
  m ← wrap_error (errorf_w "query max sequence") (query (λ t, inr (max_sequence (List.filter (λ c, oc_TaskID c =s taskID) (chunks t)))));
  mret (match m with None => 1 | Some m => to_int64 (m + 1) end).
End stores.
