(* ===== verification/SandboxHub.v ===== *)
(** * The fan-out of sandbox output (src/internal/controlplane/sandbox/stream_hub.go)

    Subscribers are pointers into a heap; a channel is the list of its buffered
    chunks, oldest first.  [subs] is read and written under the mutex, each
    region being one definition; the sends of [Broadcast] happen outside it and
    interleave with receives, with other broadcasts and with unsubscriptions.
    [unsubscribe] shifts the slice in place, which nobody can observe: [Broadcast]
    copies it under the lock and [Evict] takes it out of the map. *)
From S2P Require Import Prelude GoStrings GoErrors GoTime Sandbox.
Local Open Scope go_scope.

Definition hubChannelBuffer : nat := 256.

(** [sb_sandbox] is the variable captured by the cleanup function. *)
Record subscriber := { sb_sandbox : string; ch : list OutputChunk; done : bool }.
Record StreamHub := { subs : gmap string (list nat); heap : list subscriber }.
Definition NewStreamHub : StreamHub := {| subs := ∅; heap := [] |}.

Definition subs_of (id : string) (h : StreamHub) : list nat := default [] (subs h !! id).
Definition set_heap (h : StreamHub) (l : list subscriber) : StreamHub := {| subs := subs h; heap := l |}.
Definition set_subs (h : StreamHub) (m : gmap string (list nat)) : StreamHub := {| subs := m; heap := heap h |}.
Definition set_ch (s : subscriber) (l : list OutputChunk) : subscriber := {| sb_sandbox := sb_sandbox s; ch := l; done := done s |}.
Definition closed (s : subscriber) : subscriber := {| sb_sandbox := sb_sandbox s; ch := ch s; done := true |}.

Definition Subscribe (id : string) (h : StreamHub) : nat * StreamHub :=
  let n := length (heap h) in
  (n, {| subs := <[id := subs_of id h ++ [n]]> (subs h); heap := heap h ++ [{| sb_sandbox := id; ch := []; done := false |}] |}).

(** The cleanup function of a subscription, in its two halves. *)
Definition close_sub (n : nat) (h : StreamHub) : StreamHub := set_heap h (alter closed n (heap h)).
Fixpoint remove_first (n : nat) (l : list nat) : list nat :=
  match l with [] => [] | m :: l => if Nat.eqb m n then l else m :: remove_first n l end.
Definition remove_sub (n : nat) (h : StreamHub) : StreamHub :=
  match heap h !! n with
  | None => h
  | Some s =>
      let id := sb_sandbox s in
      let l := remove_first n (subs_of id h) in
      set_subs h (match l with [] => delete id (subs h) | _ => <[id := l]> (subs h) end)
  end.
Definition unsubscribe (n : nat) (h : StreamHub) : StreamHub := remove_sub n (close_sub n h).

(** The three selects of [Broadcast] for one subscriber. *)
Definition room (s : subscriber) : bool := Nat.ltb (length (ch s)) hubChannelBuffer.
Definition push (c : OutputChunk) (s : subscriber) : subscriber := set_ch s (ch s ++ [c]).
Definition drain (s : subscriber) : subscriber := set_ch s (tail (ch s)).
Definition try_push (c : OutputChunk) (s : subscriber) : subscriber := if room s then push c s else s.

(** What they do together when nothing comes between them.  When the
    subscriber is done and its buffer has room both cases of the select are
    ready, and Go picks one: [skip]. *)
Definition offer (skip : bool) (c : OutputChunk) (s : subscriber) : subscriber :=
  if room s then (if done s && skip then s else push c s)
  else if done s then s else try_push c (drain s).
Definition Broadcast (skip : nat → bool) (c : OutputChunk) (h : StreamHub) : StreamHub :=
  set_heap h (foldl (λ l n, alter (offer (skip n) c) n l) (heap h) (subs_of (oc_SandboxID c) h)).

Definition Evict (id : string) (h : StreamHub) : StreamHub :=
  {| subs := delete id (subs h); heap := foldl (λ l n, alter closed n l) (heap h) (subs_of id h) |}.
Definition Close (h : StreamHub) : StreamHub := foldl (λ h id, Evict id h) h (map_to_list (subs h)).*1.
Definition SubscriberCount (id : string) (h : StreamHub) : nat := length (subs_of id h).

(** ** Interleavings *)

(** A goroutine inside [Broadcast] or [Evict]. *)
Inductive hub_thread :=
  | Offering (c : OutputChunk) (rest : list nat)
  | Draining (c : OutputChunk) (n : nat) (rest : list nat)
  | Retrying (c : OutputChunk) (n : nat) (rest : list nat)
  | Closing (rest : list nat).

Record hub_state := { hs_hub : StreamHub; hs_threads : list hub_thread }.

Inductive hub_event :=
  | HSubscribed (n : nat) (id : string)
  | HBroadcast (c : OutputChunk)
  | HReceived (n : nat) (c : OutputChunk)
  | HInternal.

Inductive hub_step : hub_state → hub_event → hub_state → Prop :=
  | hub_subscribe h ts id :
      hub_step {| hs_hub := h; hs_threads := ts |} (HSubscribed (length (heap h)) id) {| hs_hub := (Subscribe id h).2; hs_threads := ts |}
  | hub_close h ts n : hub_step {| hs_hub := h; hs_threads := ts |} HInternal {| hs_hub := close_sub n h; hs_threads := ts |}
  | hub_remove h ts n : hub_step {| hs_hub := h; hs_threads := ts |} HInternal {| hs_hub := remove_sub n h; hs_threads := ts |}
  | hub_receive h ts n s c l :
      heap h !! n = Some s → ch s = c :: l →
      hub_step {| hs_hub := h; hs_threads := ts |} (HReceived n c) {| hs_hub := set_heap h (alter drain n (heap h)); hs_threads := ts |}
  | hub_broadcast h ts c :
      hub_step {| hs_hub := h; hs_threads := ts |} (HBroadcast c) {| hs_hub := h; hs_threads := Offering c (subs_of (oc_SandboxID c) h) :: ts |}
  | hub_skip h ts1 ts2 c n l s :
      heap h !! n = Some s → done s = true →
      hub_step {| hs_hub := h; hs_threads := ts1 ++ Offering c (n :: l) :: ts2 |} HInternal {| hs_hub := h; hs_threads := ts1 ++ Offering c l :: ts2 |}
  | hub_send h ts1 ts2 c n l s :
      heap h !! n = Some s → room s = true →
      hub_step {| hs_hub := h; hs_threads := ts1 ++ Offering c (n :: l) :: ts2 |} HInternal
        {| hs_hub := set_heap h (alter (push c) n (heap h)); hs_threads := ts1 ++ Offering c l :: ts2 |}
  | hub_full h ts1 ts2 c n l s :
      heap h !! n = Some s → done s = false → room s = false →
      hub_step {| hs_hub := h; hs_threads := ts1 ++ Offering c (n :: l) :: ts2 |} HInternal {| hs_hub := h; hs_threads := ts1 ++ Draining c n l :: ts2 |}
  | hub_drain h ts1 ts2 c n l :
      hub_step {| hs_hub := h; hs_threads := ts1 ++ Draining c n l :: ts2 |} HInternal
        {| hs_hub := set_heap h (alter drain n (heap h)); hs_threads := ts1 ++ Retrying c n l :: ts2 |}
  | hub_retry h ts1 ts2 c n l :
      hub_step {| hs_hub := h; hs_threads := ts1 ++ Retrying c n l :: ts2 |} HInternal
        {| hs_hub := set_heap h (alter (try_push c) n (heap h)); hs_threads := ts1 ++ Offering c l :: ts2 |}
  | hub_evict h ts id :
      hub_step {| hs_hub := h; hs_threads := ts |} HInternal {| hs_hub := set_subs h (delete id (subs h)); hs_threads := Closing (subs_of id h) :: ts |}
  | hub_evict_close h ts1 ts2 n l :
      hub_step {| hs_hub := h; hs_threads := ts1 ++ Closing (n :: l) :: ts2 |} HInternal
        {| hs_hub := close_sub n h; hs_threads := ts1 ++ Closing l :: ts2 |}.

(** The steps a goroutine has left at most. *)
Definition thread_work (t : hub_thread) : nat :=
  match t with
  | Offering _ l => 3 * length l
  | Draining _ _ l => 3 * length l + 2
  | Retrying _ _ l => 3 * length l + 1
  | Closing l => length l
  end.

Definition no_subscribers : hub_state := {| hs_hub := NewStreamHub; hs_threads := [] |}.

(** ** The invariant *)

(** [n] points to a subscriber of [id]. *)
Definition points (h : list subscriber) (id : string) (n : nat) : Prop := ∃ s, h !! n = Some s ∧ sb_sandbox s = id.

(** What a history explains: a subscriber was made by a subscription, the chunks
    it holds were broadcast for its sandbox, and its buffer is bounded. *)
Record subscriber_ok (past : list hub_event) (n : nat) (s : subscriber) : Prop := {
  so_bounded : (length (ch s) <= hubChannelBuffer)%nat;
  so_subscribed : HSubscribed n (sb_sandbox s) ∈ past;
  so_chunks : Forall (λ c, oc_SandboxID c = sb_sandbox s ∧ HBroadcast c ∈ past) (ch s);
}.
Definition sending (past : list hub_event) (h : list subscriber) (c : OutputChunk) (l : list nat) : Prop :=
  HBroadcast c ∈ past ∧ Forall (points h (oc_SandboxID c)) l.
Definition thread_ok (past : list hub_event) (h : list subscriber) (t : hub_thread) : Prop :=
  match t with
  | Offering c l => sending past h c l
  | Draining c n l | Retrying c n l => points h (oc_SandboxID c) n ∧ sending past h c l
  | Closing _ => True
  end.
Record hub_ok (past : list hub_event) (h : StreamHub) (ts : list hub_thread) : Prop := {
  ok_heap : ∀ n s, heap h !! n = Some s → subscriber_ok past n s;
  ok_subs : ∀ id, Forall (points (heap h) id) (subs_of id h);
  ok_threads : Forall (thread_ok past (heap h)) ts;
}.

(** A heap in which pointers keep pointing to subscribers of the same sandbox. *)
Definition heap_evolves (l l' : list subscriber) : Prop := ∀ id n, points l id n → points l' id n.

Lemma thread_mono past past' l l' t : heap_evolves l l' → past ⊆ past' → thread_ok past l t → thread_ok past' l' t.
Proof.
  intros He Hp. assert (HS : ∀ c k, sending past l c k → sending past' l' c k).
  { intros c k [Hc Hk]. split; [by apply Hp|]. eapply Forall_impl; [exact Hk|]. eauto. }
  destruct t; simpl; try done; [apply HS|intros [? ?]; eauto..].
Qed.

Lemma alter_evolves (f : subscriber → subscriber) n l : (∀ s, sb_sandbox (f s) = sb_sandbox s) → heap_evolves l (alter f n l).
Proof.
  intros Hf id m (s & Hm & Hs). unfold points. rewrite list_lookup_alter. destruct (decide (n = m)) as [->|].
  - rewrite Hm. exists (f s). split; [done|]. by rewrite Hf.
  - by exists s.
Qed.
Lemma app_evolves l k : heap_evolves l (l ++ k).
Proof. intros id n (s & Hn & Hs). exists s. split; [by apply lookup_app_l_Some|done]. Qed.

Lemma subscriber_mono past past' n s : past ⊆ past' → subscriber_ok past n s → subscriber_ok past' n s.
Proof. intros Hp [Hb Hs Hc]. constructor; [done|by apply Hp|]. eapply Forall_impl; [exact Hc|]. intros c [? ?]. eauto. Qed.

Lemma hub_ok_mono past past' h ts : past ⊆ past' → hub_ok past h ts → hub_ok past' h ts.
Proof.
  intros Hp [Hh Hs Ht]. constructor; [|done|].
  - intros n s Hn. by eapply subscriber_mono, Hh.
  - eapply Forall_impl; [exact Ht|]. intros t. apply thread_mono; [|done]. by intros ? ?.
Qed.

(** Changing one subscriber, and the threads, keeps the invariant. *)
Lemma hub_ok_alter past h ts ts' f n :
  hub_ok past h ts → (∀ s, sb_sandbox (f s) = sb_sandbox s) →
  (∀ s, heap h !! n = Some s → subscriber_ok past n s → subscriber_ok past n (f s)) →
  Forall (thread_ok past (heap h)) ts' → hub_ok past (set_heap h (alter f n (heap h))) ts'.
Proof.
  intros [Hh Hs Ht] Hf Hok Hts. pose proof (alter_evolves f n (heap h) Hf) as He. constructor; cbn.
  - intros m s. rewrite list_lookup_alter. destruct (decide (n = m)) as [->|]; [|by apply Hh].
    intros (s0 & Hs0 & ->)%fmap_Some_1. eauto.
  - intros id. eapply Forall_impl; [apply Hs|]. eauto.
  - eapply Forall_impl; [exact Hts|]. intros t. by apply thread_mono.
Qed.

Lemma hub_ok_threads past h ts ts' : hub_ok past h ts → Forall (thread_ok past (heap h)) ts' → hub_ok past h ts'.
Proof. intros []. by constructor. Qed.

(** One thread of many takes a step. *)
Lemma threads_swap past h ts1 t t' ts2 :
  Forall (thread_ok past h) (ts1 ++ t :: ts2) → (thread_ok past h t → thread_ok past h t') → Forall (thread_ok past h) (ts1 ++ t' :: ts2).
Proof. rewrite !Forall_app, !Forall_cons. naive_solver. Qed.
Lemma thread_of past h ts1 t ts2 : Forall (thread_ok past h) (ts1 ++ t :: ts2) → thread_ok past h t.
Proof. rewrite Forall_app, Forall_cons. naive_solver. Qed.
Lemma sending_tail past h c n l : sending past h c (n :: l) → points h (oc_SandboxID c) n ∧ sending past h c l.
Proof. intros [Hc [Hn Hl]%Forall_cons]. by repeat split. Qed.

Lemma remove_first_incl n l m : m ∈ remove_first n l → m ∈ l.
Proof. induction l as [|x l IH]; [done|]. simpl. destruct (Nat.eqb x n); rewrite !elem_of_cons; naive_solver. Qed.

Lemma remove_sub_incl n h id m : m ∈ subs_of id (remove_sub n h) → m ∈ subs_of id h.
Proof.
  unfold remove_sub. destruct (heap h !! n) as [s|]; [|done]. unfold subs_of at 1. cbn.
  destruct (remove_first n (subs_of (sb_sandbox s) h)) as [|x l] eqn:E.
  - destruct (decide (sb_sandbox s = id)) as [<-|Hne]; [by rewrite lookup_delete_eq, elem_of_nil|by rewrite lookup_delete_ne].
  - destruct (decide (sb_sandbox s = id)) as [<-|Hne]; [|by rewrite lookup_insert_ne].
    rewrite lookup_insert_eq. cbn [default]. rewrite <- E. apply remove_first_incl.
Qed.
Lemma remove_sub_heap n h : heap (remove_sub n h) = heap h.
Proof. unfold remove_sub. by destruct (heap h !! n). Qed.

Lemma subscriber_ok_drain past n s : subscriber_ok past n s → subscriber_ok past n (drain s).
Proof.
  intros [Hl Hs Hc]. constructor; cbn; [destruct (ch s); simpl in *; lia|done|]. destruct (ch s); [done|]. by apply Forall_cons in Hc as [].
Qed.
Lemma subscriber_ok_push past n s c :
  room s = true → oc_SandboxID c = sb_sandbox s → HBroadcast c ∈ past → subscriber_ok past n s → subscriber_ok past n (push c s).
Proof.
  unfold room. intros Hr%Nat.ltb_lt Hc Hb [Hl Hs Hf]. constructor; cbn; [rewrite length_app; simpl; lia|done|].
  by apply Forall_app_2, Forall_singleton.
Qed.
Lemma subscriber_ok_close past n s : subscriber_ok past n s → subscriber_ok past n (closed s).
Proof. by intros []. Qed.
#[local] Hint Resolve subscriber_ok_drain subscriber_ok_push subscriber_ok_close : legator.

Lemma subscribe_ok past h ts id :
  HSubscribed (length (heap h)) id ∈ past → hub_ok past h ts → hub_ok past (Subscribe id h).2 ts.
Proof.
  intros He [Hh Hs Ht]. constructor; cbn.
  - intros n s [Hn|[Hn Hlk]]%lookup_app_Some; [by apply Hh|]. destruct (n - length (heap h))%nat eqn:E; [|done].
    replace n with (length (heap h)) by lia. cbn in Hlk. injection Hlk as <-. constructor; cbn; [lia|done|done].
  - intros id'. unfold subs_of. cbn. destruct (decide (id = id')) as [->|Hne].
    + rewrite lookup_insert_eq. cbn [default]. apply Forall_app_2; [eapply Forall_impl; [apply Hs|apply app_evolves]|].
      apply Forall_singleton. eexists. by rewrite list_lookup_middle.
    + rewrite lookup_insert_ne by done. eapply Forall_impl; [apply Hs|apply app_evolves].
  - eapply Forall_impl; [exact Ht|]. intros t. by apply thread_mono; [apply app_evolves|].
Qed.

Lemma evict_ok past h ts id : hub_ok past h ts → hub_ok past (set_subs h (delete id (subs h))) (Closing (subs_of id h) :: ts).
Proof.
  intros [Hh Hs Ht]. constructor; cbn; [done| |by constructor]. intros id'. unfold subs_of. cbn. destruct (decide (id = id')) as [->|Hne].
  - rewrite lookup_delete_eq. constructor.
  - rewrite lookup_delete_ne by done. apply Hs.
Qed.

Lemma hub_step_ok past st e st' :
  hub_step st e st' → e ∈ past → hub_ok past (hs_hub st) (hs_threads st) → hub_ok past (hs_hub st') (hs_threads st').
Proof.
  destruct 1 as [h ts id|h ts n|h ts n|h ts n s c l Hn Hc|h ts c|h ts1 ts2 c n l s Hn Hd|h ts1 ts2 c n l s Hn Hr|h ts1 ts2 c n l s Hn Hd Hr
    |h ts1 ts2 c n l|h ts1 ts2 c n l|h ts id|h ts1 ts2 n l]; cbn [hs_hub hs_threads]; intros He Hok; pose proof Hok as [Hh Hs Ht].
  - by apply subscribe_ok.
  - apply (hub_ok_alter _ _ ts); auto with legator.
  - constructor; rewrite ?remove_sub_heap; try done. intros id. apply Forall_forall. intros m Hm%remove_sub_incl.
    by eapply Forall_forall in Hm; [|apply Hs].
  - apply (hub_ok_alter _ _ ts); auto with legator.
  - apply (hub_ok_threads _ _ ts); [done|]. by constructor; [split|].
  - eapply hub_ok_threads, threads_swap; [done|done|]. by intros [_ ?]%sending_tail.
  - pose proof (thread_of _ _ _ _ _ Ht) as [(s' & Hs' & Hsb) [Hb _]]%sending_tail. rewrite Hn in Hs'. injection Hs' as <-.
    eapply hub_ok_alter; [done|done| |eapply threads_swap; [done|by intros [_ ?]%sending_tail]].
    intros s0 Hs0. rewrite Hn in Hs0. injection Hs0 as <-. auto with legator.
  - eapply hub_ok_threads, threads_swap; [done|done|]. by intros ?%sending_tail.
  - eapply hub_ok_alter; [done|done|auto with legator|by eapply threads_swap].
  - pose proof (thread_of _ _ _ _ _ Ht) as [(s & Hn & Hsb) [Hb _]].
    eapply hub_ok_alter; [done|by unfold try_push; intros s0; destruct (room s0)| |eapply threads_swap; [done|by intros [_ ?]]].
    intros s' Hs'. rewrite Hn in Hs'. injection Hs' as <-. unfold try_push. destruct (room s) eqn:Hr; auto with legator.
  - by apply evict_ok.
  - eapply hub_ok_alter; [done|done|auto with legator|by eapply threads_swap].
Qed.

Lemma hub_trace_ok past st tr st' :
  trace hub_step st tr st' → hub_ok past (hs_hub st) (hs_threads st) → hub_ok (past ++ tr) (hs_hub st') (hs_threads st').
Proof.
  intros Htr. revert past. induction Htr as [st|s1 e s2 tr s3 Hs _ IH]; intros past Hok; [by rewrite app_nil_r|].
  rewrite cons_middle, app_assoc. apply IH. eapply hub_step_ok; [exact Hs|set_solver|]. eapply hub_ok_mono; [|exact Hok]. set_solver.
Qed.

Lemma empty_hub_ok : hub_ok [] NewStreamHub [].
Proof. constructor; [done| |done]. intros id. unfold subs_of. cbn. by rewrite lookup_empty. Qed.

(** ** What the hub guarantees *)

(** Whatever the interleaving of broadcasts, receives, unsubscriptions and
    evictions: a subscriber only receives chunks that were broadcast for the
    sandbox it subscribed to, no buffer ever exceeds its 256 chunks, and a
    broadcast or an eviction that has work left can always take a step that
    leaves it less, so no slow or departed client blocks it and it comes to an
    end. *)
Theorem hub_delivery_safe tr st :
  trace hub_step no_subscribers tr st →
  (∀ tr1 n c tr2, tr = tr1 ++ HReceived n c :: tr2 → HSubscribed n (oc_SandboxID c) ∈ tr1 ∧ HBroadcast c ∈ tr1) ∧
  (∀ n s, heap (hs_hub st) !! n = Some s → (length (ch s) <= hubChannelBuffer)%nat) ∧
  (∀ ts1 t ts2, hs_threads st = ts1 ++ t :: ts2 → thread_work t ≠ 0%nat →
     ∃ h' t', hub_step st HInternal {| hs_hub := h'; hs_threads := ts1 ++ t' :: ts2 |} ∧ (thread_work t' < thread_work t)%nat).
Proof.
  intros Htr. pose proof (hub_trace_ok [] _ _ _ Htr empty_hub_ok) as Hok. cbn in Hok. split_and!.
  - intros tr1 n c tr2 ->. apply trace_app_inv in Htr as (st1 & Htr1 & Htr2). pose proof (hub_trace_ok [] _ _ _ Htr1 empty_hub_ok) as [Hh _ _].
    inversion Htr2 as [|s1 e s2 tr' s3 Hst Htr3]; subst. inversion Hst as [| | |h ts n' s c' l Hn Hc| | | | | | | |]; subst.
    destruct (Hh n s Hn) as [_ Hs Hcs]. rewrite Hc in Hcs. apply Forall_cons in Hcs as [[Hid Hb] _]. by rewrite Hid.
  - intros n s Hn. apply (ok_heap _ _ _ Hok n s Hn).
  - intros ts1 t ts2 Hts Hw. destruct st as [h ts]. cbn in *. subst ts. pose proof (thread_of _ _ _ _ _ (ok_threads _ _ _ Hok)) as Ht.
    destruct t as [c [|n l]|c n l|c n l|[|n l]]; cbn in Hw; try lia.
    + apply sending_tail in Ht as [(s & Hn & _) _]. destruct (done s) eqn:Hd; [|destruct (room s) eqn:Hr].
      * do 2 eexists. split; [by eapply hub_skip|cbn; lia].
      * do 2 eexists. split; [by eapply hub_send|cbn; lia].
      * do 2 eexists. split; [by eapply hub_full|cbn; lia].
    + do 2 eexists. split; [apply hub_drain|cbn; lia].
    + do 2 eexists. split; [apply hub_retry|cbn; lia].
    + do 2 eexists. split; [apply hub_evict_close|cbn; lia].
Qed.

(** ** A broadcast that nothing interrupts *)

Lemma foldl_alter_ne {A} (f : nat → A → A) ns (l : list A) n : n ∉ ns → foldl (λ l n, alter (f n) n l) l ns !! n = l !! n.
Proof.
  revert l. induction ns as [|m ns IH]; intros l; [done|]. rewrite not_elem_of_cons. intros [Hne Hin]. simpl.
  rewrite IH by done. by apply list_lookup_alter_ne.
Qed.
Lemma foldl_alter_in {A} (f : nat → A → A) ns (l : list A) n :
  NoDup ns → n ∈ ns → foldl (λ l n, alter (f n) n l) l ns !! n = f n <$> (l !! n).
Proof.
  revert l. induction ns as [|m ns IH]; intros l; [by intros _ ?%elem_of_nil|]. rewrite NoDup_cons. intros [Hm Hnd] [->|Hn]%elem_of_cons; simpl.
  - rewrite foldl_alter_ne by done. apply list_lookup_alter_eq.
  - rewrite IH by done. rewrite list_lookup_alter_ne; [done|]. by intros ->.
Qed.

(** The subscriptions of a sandbox are distinct pointers. *)
Definition hub_nodup (h : StreamHub) : Prop := ∀ id, NoDup (subs_of id h) ∧ Forall (λ n, n < length (heap h))%nat (subs_of id h).

Lemma remove_first_NoDup n l : NoDup l → NoDup (remove_first n l).
Proof.
  induction 1 as [|x l Hx Hl IH]; simpl; [constructor|]. destruct (Nat.eqb x n); [done|]. constructor; [|done]. by intros ?%remove_first_incl.
Qed.
Lemma subscribe_nodup id h : hub_nodup h → hub_nodup (Subscribe id h).2.
Proof.
  intros Hnd id'. destruct (Hnd id) as [Hd Hl]. destruct (Hnd id') as [Hd' Hl']. unfold subs_of. cbn. rewrite length_app. cbn.
  assert (HL : ∀ l, Forall (λ n, n < length (heap h))%nat l → Forall (λ n, n < length (heap h) + 1)%nat l).
  { intros l Hk. eapply Forall_impl; [exact Hk|]. simpl. lia. }
  destruct (decide (id = id')) as [<-|Hne]; [rewrite lookup_insert_eq|rewrite lookup_insert_ne by done; by split; [|apply HL]]. cbn [default]. split.
  - apply NoDup_app. split_and!; [done| |by apply NoDup_singleton]. intros m Hm ->%list_elem_of_singleton.
    eapply Forall_forall in Hl; [|exact Hm]. lia.
  - apply Forall_app_2; [by apply HL|]. apply Forall_singleton. lia.
Qed.
Lemma unsubscribe_nodup n h : hub_nodup h → hub_nodup (unsubscribe n h).
Proof.
  intros Hnd id. unfold unsubscribe. set (h1 := close_sub n h). assert (H1 : hub_nodup h1).
  { intros id'. unfold h1, close_sub. cbn. rewrite length_alter. apply Hnd. }
  rewrite remove_sub_heap. destruct (H1 id) as [Hd Hl]. split.
  - unfold remove_sub. destruct (heap h1 !! n) as [s|]; [|done]. unfold subs_of at 1. cbn. pose proof (remove_first_NoDup n _ (proj1 (H1 (sb_sandbox s)))) as Hr.
    destruct (remove_first n (subs_of (sb_sandbox s) h1)) as [|x l] eqn:E; destruct (decide (sb_sandbox s = id)) as [<-|Hne].
    + rewrite lookup_delete_eq. constructor.
    + by rewrite lookup_delete_ne.
    + by rewrite lookup_insert_eq.
    + by rewrite lookup_insert_ne.
  - apply Forall_forall. intros m Hm%remove_sub_incl. by eapply Forall_forall in Hl.
Qed.
Lemma broadcast_nodup skip c h : hub_nodup h → hub_nodup (Broadcast skip c h).
Proof.
  intros Hnd id. assert (HL : length (heap (Broadcast skip c h)) = length (heap h)).
  { unfold Broadcast. cbn. generalize (heap h). induction (subs_of _ h) as [|n ns IH]; intros l; [done|]. cbn. by rewrite IH, length_alter. }
  rewrite HL. apply Hnd.
Qed.

(** A broadcast that nothing interrupts reaches every live subscriber of the
    sandbox of the chunk: the chunk is the newest of its buffer and only a full
    buffer loses something, its oldest chunk; the buffers of everybody else stay
    as they are. *)
Theorem broadcast_delivers skip c h n s :
  hub_nodup h → (length (ch s) <= hubChannelBuffer)%nat → heap h !! n = Some s →
  heap (Broadcast skip c h) !! n =
    Some (if decide (n ∈ subs_of (oc_SandboxID c) h) then
            if done s then offer (skip n) c s
            else set_ch s ((if room s then ch s else tail (ch s)) ++ [c])
          else s).
Proof.
  intros Hnd Hlen Hn. destruct (Hnd (oc_SandboxID c)) as [Hd _]. unfold Broadcast. cbn [heap set_heap]. case_decide as Hin.
  - rewrite (foldl_alter_in (λ n, offer (skip n) c)), Hn by done. apply (f_equal Some). destruct (done s) eqn:Es; [done|]. unfold offer. rewrite Es.
    unfold room in *. destruct (Nat.ltb_spec (length (ch s)) hubChannelBuffer); [done|]. unfold try_push, room. cbn [ch drain set_ch].
    rewrite (proj2 (Nat.ltb_lt _ _)); [done|]. unfold hubChannelBuffer in *. destruct (ch s); simpl in *; lia.
  - rewrite (foldl_alter_ne (λ n, offer (skip n) c)) by done. by rewrite Hn.
Qed.

(** ** A concrete run *)

Module HubExamples.
Definition chunk (sandbox : string) (n : Z) : OutputChunk :=
  {| oc_ID := ""; oc_TaskID := "t-1"; oc_SandboxID := sandbox; oc_Sequence := n; oc_Stream := StreamStdout; oc_Data := "x"; oc_Timestamp := 0%Z |}.
Definition hub1 : StreamHub := (Subscribe "b" (Subscribe "a" NewStreamHub).2).2.
Lemma hub1_nodup : hub_nodup hub1.
Proof. apply subscribe_nodup, subscribe_nodup. intros id. unfold subs_of. cbn. rewrite lookup_empty. cbn. split; constructor. Qed.
Definition hub_trace : list hub_event := [HSubscribed 0 "a"; HBroadcast (chunk "a" 1); HInternal; HReceived 0 (chunk "a" 1)].
Lemma hub_trace_runs : ∃ st, trace hub_step no_subscribers hub_trace st.
Proof.
  eexists. eapply trace_cons; [apply hub_subscribe|]. eapply trace_cons; [apply hub_broadcast|].
  eapply trace_cons; [eapply (hub_send _ [] [] _ 0%nat []); reflexivity|].
  eapply trace_cons; [eapply hub_receive; reflexivity|apply trace_nil].
Qed.
End HubExamples.
Import HubExamples.

Lemma hub_delivery_safe_witness : HSubscribed 0 "a" ∈ take 3 hub_trace ∧ HBroadcast (chunk "a" 1) ∈ take 3 hub_trace.
Proof.
  destruct hub_trace_runs as [st Hst]. destruct (hub_delivery_safe hub_trace st Hst) as [Hr _].
  exact (Hr (take 3 hub_trace) 0%nat (chunk "a" 1) [] eq_refl).
Defined.

Lemma broadcast_delivers_witness :
  heap (Broadcast (λ _, false) (chunk "a" 1) hub1) !! 0%nat = Some {| sb_sandbox := "a"; ch := [chunk "a" 1]; done := false |}.
Proof.
  rewrite (broadcast_delivers (λ _, false) (chunk "a" 1) hub1 0%nat {| sb_sandbox := "a"; ch := []; done := false |} hub1_nodup);
    [vm_compute; reflexivity|cbn; lia|reflexivity].
Defined.
