(* ===== verification/SandboxHandlers.v ===== *)
(** * The endpoints of the sandbox subsystem
    (src/internal/controlplane/sandbox: lane.go, handlers.go, task_handlers.go,
    artifact_handlers.go, stream_handlers.go, replay_builder.go, replay_handlers.go)

    A request is its path values, its [workspace_id] query parameter, trimmed, and
    its decoded body; [None] stands for a body that does not decode.  A reply is
    its status with the value or the error code; messages are dropped.  The
    event bus and the audit recorder are the list of what was sent to them. *)
From S2P Require Import Prelude GoStrings GoErrors GoTime GoSort GoSql Sandbox SandboxHub.
Local Open Scope go_scope.
Local Open Scope Z_scope.

(** ** lane.go *)

Definition LaneContainer : string := "container".
Definition LaneKata : string := "kata".
Definition LaneWasm : string := "wasm".
Record LaneDefaults := {
  ld_RuntimeClass : string; ld_TemplateID : string; ld_CPUMillis : Z; ld_MemoryMiB : Z;
  ld_AllowedCapabilities : list string; ld_HostDirectAllowed : bool;
}.
Definition laneRegistry : list (string * LaneDefaults) :=
  [(LaneContainer, {| ld_RuntimeClass := "runc"; ld_TemplateID := "diagnose"; ld_CPUMillis := 1000; ld_MemoryMiB := 512;
                      ld_AllowedCapabilities := []; ld_HostDirectAllowed := false |});
   (LaneKata, {| ld_RuntimeClass := "kata-containers"; ld_TemplateID := "full-remediate"; ld_CPUMillis := 2000; ld_MemoryMiB := 1024;
                 ld_AllowedCapabilities := []; ld_HostDirectAllowed := false |});
   (LaneWasm, {| ld_RuntimeClass := "wasmtime"; ld_TemplateID := "wasm-fast-lane"; ld_CPUMillis := 500; ld_MemoryMiB := 256;
                 ld_AllowedCapabilities := []; ld_HostDirectAllowed := false |})].
Definition no_lane : LaneDefaults :=
  {| ld_RuntimeClass := ""; ld_TemplateID := ""; ld_CPUMillis := 0; ld_MemoryMiB := 0; ld_AllowedCapabilities := []; ld_HostDirectAllowed := false |}.
Definition ResolveLane (lane : string) : result LaneDefaults :=
  if lane =s "" then inr no_lane
  else match List.find (λ kv, kv.1 =s lane) laneRegistry with
  | Some kv => inr kv.2
  | None => inl (ErrorString ("unknown lane " +:+ Quote lane +:+ ": must be one of container, kata, wasm")%string)
  end.

(** ** Replies, emissions and the state of the handlers *)

Inductive event_data :=
  | ChunkEvent (c : OutputChunk)
  | TaskStateEvent (taskID kind from to : string)
  | ArtifactEvent (artifactID path kind : string) (size : Z) (diffSummary : string).
Record ReplayEvent := { re_Timestamp : time; re_Data : event_data }.
Record ReplayTimeline := {
  rl_SandboxID : string; rl_StartTime : time; rl_EndTime : time; rl_Duration : duration; rl_EventCount : Z; rl_Events : list ReplayEvent;
}.
Record ReplaySummary := { rs_SandboxID : string; rs_StartTime : time; rs_EndTime : time; rs_Duration : duration; rs_EventCount : Z }.

Inductive sandbox_reply :=
  | Failed (status : Z) (code : string)
  | SessionReply (status : Z) (s : SandboxSession)
  | SessionsReply (l : list SandboxSession)
  | TaskReply (status : Z) (k : Task)
  | TasksReply (l : list Task)
  | ArtifactReply (status : Z) (a : Artifact)
  | ArtifactsReply (l : list Artifact)
  | ContentReply (mime filename content : string)
  | NextSequenceReply (n : Z)
  | ChunksReply (l : list OutputChunk)
  | TimelineReply (t : ReplayTimeline)
  | SummaryReply (s : ReplaySummary)
  | Panicked.

Inductive emission :=
  | Audited (type probeID actor : string)
  | Published (type probeID : string) (at_ : time).

Record Box := { tables : Tables; hub : StreamHub; emitted : list emission }.
Notation W := (GoSql.M Box) (only parsing).

Record HandlerPolicy := { AllowedRuntimes : list string; MaxConcurrent : Z; ProbeValidator : option (string → bool) }.

Record create_body := {
  cb_WorkspaceID : string; cb_ProbeID : string; cb_TemplateID : string; cb_Lane : string; cb_RuntimeClass : string;
  cb_CreatedBy : string; cb_TTLSeconds : Z; cb_Metadata : option (gmap string string);
}.
Record transition_body := { tb_From : string; tb_To : string; tb_ErrorMessage : string; tb_TaskID : string }.
Record task_body := {
  kb_Kind : string; kb_Command : list string; kb_RepoURL : string; kb_RepoBranch : string; kb_RepoCommand : list string;
  kb_Image : string; kb_TimeoutSecs : Z;
}.
(** A multipart form; reading the file may fail. *)
Record upload_form := {
  uf_path : string; uf_kind : string; uf_task_id : string; uf_mime_type : string; uf_file : option (result string);
}.
Record incoming_chunk := { ic_TaskID : string; ic_Sequence : Z; ic_Stream : string; ic_Data : string; ic_Timestamp : time }.

Section handlers.
Context `{Host}.

Definition on_tables {A} (m : GoSql.M Tables A) : W A := λ db,
  let '(r, d) := m (Build_DB (tables (rows db)) (ticks db)) in
  (r, Build_DB {| tables := rows d; hub := hub (rows db); emitted := emitted (rows db) |} (ticks d)).
Definition on_hub (f : StreamHub → StreamHub) : W unit := λ db,
  (inr tt, Build_DB {| tables := tables (rows db); hub := f (hub (rows db)); emitted := emitted (rows db) |} (ticks db)).
Definition emit (e : emission) : W unit := λ db,
  (inr tt, Build_DB {| tables := tables (rows db); hub := hub (rows db); emitted := emitted (rows db) ++ [e] |} (ticks db)).
Definition emitAudit (type probeID actor : string) : W unit := emit (Audited type probeID actor).
Definition emitEvent (type probeID : string) : W unit := now ← time_now; emit (Published type probeID now).

(** A store call whose error becomes a reply. *)
Definition store_call {A} (m : GoSql.M Tables A) (on_error : go_error → sandbox_reply) (k : A → W sandbox_reply) : W sandbox_reply :=
  r ← attempt (on_tables m);
  match r with inl e => mret (on_error e) | inr a => k a end.
Definition internal_error (_ : go_error) : sandbox_reply := Failed 500 "internal_error".
Definition conflict (_ : go_error) : sandbox_reply := Failed 409 "transition_failed".

(** The first steps of every endpoint below a session. *)
Definition with_session (id wsID : string) (k : SandboxSession → W sandbox_reply) : W sandbox_reply :=
  if id =s "" then mret (Failed 400 "invalid_request")
  else store_call (GetForWorkspace id wsID) internal_error (λ sess,
    match sess with None => mret (Failed 404 "not_found") | Some s => k s end).

(** ** handlers.go *)

(** The body once the defaults of its lane are applied. *)
Definition apply_lane (body : create_body) : result create_body :=
  let lane := TrimSpace (cb_Lane body) in
  if lane =s "" then inr body
  else match ResolveLane lane with
  | inl e => inl e
  | inr ld => inr
      {| cb_WorkspaceID := cb_WorkspaceID body; cb_ProbeID := cb_ProbeID body;
         cb_TemplateID := if TrimSpace (cb_TemplateID body) =s "" then ld_TemplateID ld else cb_TemplateID body;
         cb_Lane := cb_Lane body;
         cb_RuntimeClass := if TrimSpace (cb_RuntimeClass body) =s "" then ld_RuntimeClass ld else cb_RuntimeClass body;
         cb_CreatedBy := cb_CreatedBy body; cb_TTLSeconds := cb_TTLSeconds body;
         cb_Metadata := Some (<["lane_memory_mib"%string := Itoa (ld_MemoryMiB ld)]> (<["lane_cpu_millis"%string := Itoa (ld_CPUMillis ld)]>
                          (<["lane"%string := lane]> (default ∅ (cb_Metadata body))))) |}
  end.

Definition new_session (body : create_body) : SandboxSession :=
  {| sx_ID := ""; sx_WorkspaceID := TrimSpace (cb_WorkspaceID body); sx_ProbeID := TrimSpace (cb_ProbeID body);
     sx_TemplateID := TrimSpace (cb_TemplateID body); sx_RuntimeClass := TrimSpace (cb_RuntimeClass body); sx_State := "";
     sx_TaskID := ""; sx_CreatedBy := TrimSpace (cb_CreatedBy body); sx_CreatedAt := zero_time; sx_UpdatedAt := zero_time;
     sx_DestroyedAt := None; sx_TTL := to_int64 (cb_TTLSeconds body * Second); sx_Metadata := default ∅ (cb_Metadata body); sx_ErrorMessage := "" |}.

Definition HandleCreate (policy : HandlerPolicy) (body : option create_body) : W sandbox_reply :=
  match body with
  | None => mret (Failed 400 "invalid_request")
  | Some body =>
      match apply_lane body with
      | inl _ => mret (Failed 400 "invalid_lane")
      | inr body =>
          let runtimeClass := TrimSpace (cb_RuntimeClass body) in
          let probeID := TrimSpace (cb_ProbeID body) in
          if runtimeClass =s "" then mret (Failed 400 "invalid_request")
          else if negb (Nat.eqb (length (AllowedRuntimes policy)) 0) && negb (existsb (λ rt, EqualFold rt runtimeClass) (AllowedRuntimes policy))
          then mret (Failed 403 "runtime_not_allowed")
          else if match ProbeValidator policy with Some valid => (probeID <>s "") && negb (valid probeID) | None => false end
          then mret (Failed 422 "probe_not_found")
          else
            over ← (if 0 <? MaxConcurrent policy
                    then active ← on_tables (CountActive ""); mret (MaxConcurrent policy <=? active)
                    else mret false);
            if over : bool then mret (Failed 429 "max_concurrent_exceeded")
            else store_call (Create (new_session body)) internal_error (λ created,
              _ ← emitAudit "sandbox.created" (sx_ProbeID created) (sx_CreatedBy created);
              _ ← emitEvent "sandbox.created" (sx_ProbeID created);
              mret (SessionReply 201 created))
      end
  end.

Definition HandleList (workspace state probe : string) : W sandbox_reply :=
  store_call (List_ {| lf_WorkspaceID := workspace; lf_State := TrimSpace state; lf_ProbeID := TrimSpace probe; lf_Limit := 0 |})
    internal_error (λ l, mret (SessionsReply l)).

Definition HandleGet (id wsID : string) : W sandbox_reply := with_session id wsID (λ s, mret (SessionReply 200 s)).

Definition HandleDestroy (id wsID : string) : W sandbox_reply :=
  with_session id wsID (λ existing,
    if IsTerminal existing then mret (Failed 409 "already_terminal")
    else store_call (Transition id (sx_State existing) StateDestroyed) conflict (λ updated,
      match updated with
      | None => mret Panicked
      | Some u =>
          _ ← emitAudit "sandbox.destroyed" (sx_ProbeID u) "api";
          _ ← emitEvent "sandbox.destroyed" (sx_ProbeID u);
          mret (SessionReply 200 u)
      end)).

(** The optional columns a transition carries: both are written when one is set. *)
Definition set_result (s : SandboxSession) (errorMessage taskID : string) : SandboxSession :=
  {| sx_ID := sx_ID s; sx_WorkspaceID := sx_WorkspaceID s; sx_ProbeID := sx_ProbeID s; sx_TemplateID := sx_TemplateID s;
     sx_RuntimeClass := sx_RuntimeClass s; sx_State := sx_State s; sx_TaskID := taskID; sx_CreatedBy := sx_CreatedBy s;
     sx_CreatedAt := sx_CreatedAt s; sx_UpdatedAt := sx_UpdatedAt s; sx_DestroyedAt := sx_DestroyedAt s; sx_TTL := sx_TTL s;
     sx_Metadata := sx_Metadata s; sx_ErrorMessage := errorMessage |}.
Definition persist_result (id : string) (u : SandboxSession) (body : transition_body) : W SandboxSession :=
  if (tb_ErrorMessage body <>s "") || (tb_TaskID body <>s "") then
    let u := set_result u (tb_ErrorMessage body) (tb_TaskID body) in
    _ ← ignore_error (on_tables (Update u));
    refreshed ← attempt (on_tables (Get id));
    mret (match refreshed with inr (Some s) => s | _ => u end)
  else mret u.

Definition HandleTransition (id wsID : string) (body : option transition_body) : W sandbox_reply :=
  if id =s "" then mret (Failed 400 "invalid_request")
  else match body with
  | None => mret (Failed 400 "invalid_request")
  | Some body =>
      let from := TrimSpace (tb_From body) in
      let to := TrimSpace (tb_To body) in
      if (from =s "") || (to =s "") then mret (Failed 400 "invalid_request")
      else with_session id wsID (λ _,
        store_call (Transition id from to) conflict (λ updated,
          match updated with
          | None => mret Panicked
          | Some u =>
              u ← persist_result id u body;
              _ ← emitAudit ("sandbox." +:+ to)%string (sx_ProbeID u) "api";
              _ ← emitEvent ("sandbox." +:+ to)%string (sx_ProbeID u);
              mret (SessionReply 200 u)
          end))
  end.

(** ** task_handlers.go *)

Definition task_body_ok (body : task_body) : bool :=
  let kind := TrimSpace (kb_Kind body) in
  if kind =s "" then false
  else if kind =s TaskKindCommand then negb (Nat.eqb (length (kb_Command body)) 0)
  else if kind =s TaskKindRepo then TrimSpace (kb_RepoURL body) <>s ""
  else false.
Definition new_task (sandboxID : string) (sess : SandboxSession) (body : task_body) : Task :=
  {| tk_ID := ""; tk_SandboxID := sandboxID; tk_WorkspaceID := sx_WorkspaceID sess; tk_Kind := TrimSpace (kb_Kind body);
     tk_Command := kb_Command body; tk_RepoURL := TrimSpace (kb_RepoURL body); tk_RepoBranch := TrimSpace (kb_RepoBranch body);
     tk_RepoCommand := kb_RepoCommand body; tk_Image := TrimSpace (kb_Image body); tk_TimeoutSecs := clamp_timeout (kb_TimeoutSecs body);
     tk_State := ""; tk_ExitCode := 0; tk_Output := ""; tk_CreatedAt := zero_time; tk_StartedAt := None; tk_CompletedAt := None; tk_ErrorMessage := "" |}.

Definition HandleCreateTask (sandboxID wsID : string) (body : option task_body) : W sandbox_reply :=
  with_session sandboxID wsID (λ sess,
    if (sx_State sess <>s StateReady) && (sx_State sess <>s StateRunning) then mret (Failed 409 "sandbox_not_ready")
    else match body with
    | None => mret (Failed 400 "invalid_request")
    | Some body =>
        if negb (task_body_ok body) then mret (Failed 400 "invalid_request")
        else store_call (CreateTask (new_task sandboxID sess body)) internal_error (λ created,
          _ ← (if sx_State sess =s StateReady then ignore_error (on_tables (Transition sandboxID StateReady StateRunning)) else mret tt);
          _ ← emitAudit "sandbox.task.created" (sx_ProbeID sess) "api";
          _ ← emitEvent "sandbox.task.created" (sx_ProbeID sess);
          mret (TaskReply 201 created))
    end).

Definition HandleListTasks (sandboxID wsID : string) : W sandbox_reply :=
  with_session sandboxID wsID (λ sess,
    store_call (ListTasks {| tf_SandboxID := sandboxID; tf_WorkspaceID := sx_WorkspaceID sess; tf_State := ""; tf_Limit := 0 |})
      internal_error (λ l, mret (TasksReply l))).

Definition with_task (sandboxID taskID wsID : string) (k : SandboxSession → Task → W sandbox_reply) : W sandbox_reply :=
  if (sandboxID =s "") || (taskID =s "") then mret (Failed 400 "invalid_request")
  else with_session sandboxID wsID (λ sess,
    store_call (GetTaskForWorkspace taskID (sx_WorkspaceID sess)) internal_error (λ task,
      match task with
      | Some t => if tk_SandboxID t =s sandboxID then k sess t else mret (Failed 404 "not_found")
      | None => mret (Failed 404 "not_found")
      end)).
Definition HandleGetTask (sandboxID taskID wsID : string) : W sandbox_reply :=
  with_task sandboxID taskID wsID (λ _ t, mret (TaskReply 200 t)).

Definition HandleCancelTask (sandboxID taskID wsID : string) : W sandbox_reply :=
  with_task sandboxID taskID wsID (λ sess t,
    if (tk_State t <>s TaskStateQueued) && (tk_State t <>s TaskStateRunning) then mret (Failed 409 "task_not_cancellable")
    else store_call (TransitionTask taskID (tk_State t) TaskStateCancelled) conflict (λ cancelled,
      _ ← emitAudit "sandbox.task.cancelled" (sx_ProbeID sess) "api";
      _ ← emitEvent "sandbox.task.cancelled" (sx_ProbeID sess);
      (* a nil task is encoded as [null] *)
      mret (match cancelled with Some k => TaskReply 200 k | None => Failed 200 "null" end))).

(** ** artifact_handlers.go *)

Definition detectMimeType (path : string) : string :=
  let lower := ToLower path in
  let any := existsb (HasSuffix lower) in
  if any [".diff"; ".patch"]%string then "text/x-diff"
  else if any [".log"]%string then "text/plain"
  else if any [".json"]%string then "application/json"
  else if any [".yaml"; ".yml"]%string then "application/yaml"
  else if any [".txt"]%string then "text/plain"
  else if any [".html"; ".htm"]%string then "text/html"
  else if any [".sh"]%string then "text/x-shellscript"
  else if any [".go"]%string then "text/x-go"
  else if any [".py"]%string then "text/x-python"
  else "application/octet-stream".

Definition isQuotaError (e : go_error) : bool := Contains (Error e) "too large" || Contains (Error e) "quota exceeded".

Definition new_artifact (sandboxID : string) (sess : SandboxSession) (form : upload_form) (path kind content : string) : Artifact :=
  let mime := TrimSpace (uf_mime_type form) in
  {| af_ID := ""; af_TaskID := TrimSpace (uf_task_id form); af_SandboxID := sandboxID; af_WorkspaceID := sx_WorkspaceID sess; af_Path := path;
     af_Kind := kind; af_Size := 0; af_SHA256 := ""; af_MimeType := if mime =s "" then detectMimeType path else mime; af_DiffSummary := "";
     af_Content := content; af_CreatedAt := zero_time |}.

(** At most one byte more than the limit is read. *)
Definition read_limited (content : string) : string := take_str (Z.to_nat (MaxArtifactSizeBytes + 1)) content.
Arguments read_limited : simpl never.

Definition HandleUploadArtifact (between : Tables → Tables) (sandboxID wsID : string) (form : option upload_form) : W sandbox_reply :=
  with_session sandboxID wsID (λ sess,
    match form with
    | None => mret (Failed 400 "invalid_request")
    | Some form =>
        let path := TrimSpace (uf_path form) in
        let kind := TrimSpace (uf_kind form) in
        let kind := if kind =s "" then ArtifactKindFile else kind in
        if path =s "" then mret (Failed 400 "invalid_request")
        else if negb ((kind =s ArtifactKindFile) || (kind =s ArtifactKindDiff) || (kind =s ArtifactKindLog)) then mret (Failed 400 "invalid_request")
        else match uf_file form with
        | None => mret (Failed 400 "invalid_request")
        | Some (inl _) => mret (Failed 500 "internal_error")
        | Some (inr file) =>
            let content := read_limited file in
            if MaxArtifactSizeBytes <? Z.of_nat (String.length content) then mret (Failed 413 "artifact_too_large")
            else store_call (CreateArtifact between (new_artifact sandboxID sess form path kind content))
              (λ e, if isQuotaError e then Failed 413 "sandbox_quota_exceeded" else Failed 500 "internal_error") (λ created,
              _ ← emitAudit "sandbox.artifact.uploaded" (sx_ProbeID sess) "api";
              _ ← emitEvent "sandbox.artifact.uploaded" (sx_ProbeID sess);
              mret (ArtifactReply 201 (without_content created)))
        end
    end).

Definition HandleListArtifacts (sandboxID wsID taskID : string) : W sandbox_reply :=
  with_session sandboxID wsID (λ sess,
    store_call (ListArtifacts {| xf_SandboxID := sandboxID; xf_TaskID := TrimSpace taskID; xf_WorkspaceID := sx_WorkspaceID sess |})
      internal_error (λ l, mret (ArtifactsReply l))).

Definition with_artifact (sandboxID artifactID wsID : string) (k : Artifact → W sandbox_reply) : W sandbox_reply :=
  if (sandboxID =s "") || (artifactID =s "") then mret (Failed 400 "invalid_request")
  else with_session sandboxID wsID (λ sess,
    store_call (GetArtifact artifactID (sx_WorkspaceID sess)) internal_error (λ artifact,
      match artifact with
      | Some a => if af_SandboxID a =s sandboxID then k a else mret (Failed 404 "not_found")
      | None => mret (Failed 404 "not_found")
      end)).
Definition HandleGetArtifact (sandboxID artifactID wsID : string) : W sandbox_reply :=
  with_artifact sandboxID artifactID wsID (λ a, mret (ArtifactReply 200 (without_content a))).

(** What follows the last slash or backslash. *)
Definition is_slash (c : ascii) : bool := Ascii.eqb c "/" || Ascii.eqb c "\".
Fixpoint base_name (s acc : string) : string :=
  match s with
  | EmptyString => acc
  | String c s => base_name s (if is_slash c then EmptyString else acc +:+ String c EmptyString)%string
  end.
Definition HandleDownloadArtifact (sandboxID artifactID wsID : string) : W sandbox_reply :=
  with_artifact sandboxID artifactID wsID (λ a,
    let filename := base_name (af_Path a) "" in
    mret (ContentReply (if af_MimeType a =s "" then "application/octet-stream" else af_MimeType a)
            (if filename =s "" then af_ID a else filename) (af_Content a))).

(** ** stream_handlers.go *)

Definition cap_data (s : string) : string := if MaxChunkSize <? Z.of_nat (String.length s) then take_str (Z.to_nat MaxChunkSize) s else s.
Arguments cap_data : simpl never.
(** One chunk of the request; a missing timestamp reads the clock. *)
Definition accept_chunk (sandboxID : string) (ic : incoming_chunk) : W OutputChunk :=
  let stream := TrimSpace (ic_Stream ic) in
  ts ← (if IsZero (ic_Timestamp ic) then time_now else mret (ic_Timestamp ic));
  mret {| oc_ID := ""; oc_TaskID := TrimSpace (ic_TaskID ic); oc_SandboxID := sandboxID; oc_Sequence := ic_Sequence ic;
          oc_Stream := if (stream =s StreamStdout) || (stream =s StreamStderr) then stream else StreamStdout;
          oc_Data := cap_data (ic_Data ic);
          oc_Timestamp := ts |}.
Fixpoint accept_chunks (sandboxID : string) (l : list incoming_chunk) : W (list OutputChunk) :=
  match l with
  | [] => mret []
  | ic :: l => c ← accept_chunk sandboxID ic; rest ← accept_chunks sandboxID l; mret (c :: rest)
  end.
Definition greatest_sequence (l : list OutputChunk) : Z := foldl (λ m c, Z.max m (oc_Sequence c)) 0 l.

(** [skip] is what the select of a broadcast picks for subscribers that are done. *)
Definition HandleIngestOutput (skip : nat → bool) (sandboxID wsID : string) (incoming : option (list incoming_chunk)) : W sandbox_reply :=
  with_session sandboxID wsID (λ sess,
    if sx_State sess <>s StateRunning then mret (Failed 409 "sandbox_not_running")
    else match incoming with
    | None => mret (Failed 400 "invalid_request")
    | Some [] => mret (NextSequenceReply 0)
    | Some l =>
        cs ← accept_chunks sandboxID l;
        store_call (AppendChunks cs) internal_error (λ cs',
          _ ← on_hub (λ h, foldl (λ h c, Broadcast skip c h) h cs');
          _ ← emitAudit "sandbox.output.ingested" (sx_ProbeID sess) "probe";
          mret (NextSequenceReply (to_int64 (greatest_sequence cs' + 1))))
    end).

(** [since] is what [ParseInt] returns for the parameter, 0 without one; [limit]
    is the parameter when it is an integer. *)
Definition HandleGetOutput (sandboxID wsID taskID : string) (since : Z) (limit : option Z) : W sandbox_reply :=
  with_session sandboxID wsID (λ _,
    let taskID := TrimSpace taskID in
    let limit := match limit with Some n => if 0 <? n then n else 100 | None => 100 end in
    store_call (if taskID <>s "" then ListChunks taskID since limit else ListChunksBySandbox sandboxID since limit)
      internal_error (λ l, mret (ChunksReply l))).

(** ** replay_builder.go and replay_handlers.go *)

(** The batches of [BuildTimeline].  Each full batch moves [since] past at least
    one chunk, so as many rounds as there are chunks, and one more, are enough. *)
Definition batch_size : Z := 1000.
Fixpoint fetch_chunks (fuel : nat) (sandboxID : string) (since : Z) : GoSql.M Tables (list OutputChunk) :=
  match fuel with
  | O => mret []
  | Datatypes.S fuel =>
      batch ← ListChunksBySandbox sandboxID since batch_size;
      if Z.of_nat (length batch) <? batch_size then mret batch
      else rest ← fetch_chunks fuel sandboxID (foldl (λ m c, Z.max m (oc_Sequence c)) since batch); mret (batch ++ rest)
  end.

Definition chunk_event (c : OutputChunk) : ReplayEvent := {| re_Timestamp := oc_Timestamp c; re_Data := ChunkEvent c |}.
Definition task_events (t : Task) : list ReplayEvent :=
  {| re_Timestamp := tk_CreatedAt t; re_Data := TaskStateEvent (tk_ID t) (tk_Kind t) "" TaskStateQueued |} ::
  match tk_StartedAt t with
  | Some at_ => [{| re_Timestamp := at_; re_Data := TaskStateEvent (tk_ID t) (tk_Kind t) TaskStateQueued TaskStateRunning |}]
  | None => []
  end ++
  match tk_CompletedAt t with
  | Some at_ => if task_IsTerminal t
      then [{| re_Timestamp := at_; re_Data := TaskStateEvent (tk_ID t) (tk_Kind t) TaskStateRunning (tk_State t) |}] else []
  | None => []
  end.
Definition artifact_event (a : Artifact) : ReplayEvent :=
  {| re_Timestamp := af_CreatedAt a; re_Data := ArtifactEvent (af_ID a) (af_Path a) (af_Kind a) (af_Size a) (af_DiffSummary a) |}.
Definition event_before (a b : ReplayEvent) : bool := Before (re_Timestamp a) (re_Timestamp b).

Definition timeline (sandboxID : string) (events : list ReplayEvent) : ReplayTimeline :=
  let start := match events with e :: _ => re_Timestamp e | [] => zero_time end in
  let end_ := match last events with Some e => re_Timestamp e | None => zero_time end in
  {| rl_SandboxID := sandboxID; rl_StartTime := start; rl_EndTime := end_; rl_Duration := time_Sub end_ start;
     rl_EventCount := Z.of_nat (length events); rl_Events := events |}.

Definition BuildTimeline (sandboxID workspaceID : string) : GoSql.M Tables ReplayTimeline :=
  fuel ← gets (λ t, Datatypes.S (length (chunks t)));
  cs ← fetch_chunks fuel sandboxID 0;
  ts ← ListTasks {| tf_SandboxID := sandboxID; tf_WorkspaceID := workspaceID; tf_State := ""; tf_Limit := 500 |};
  l ← ListArtifacts {| xf_SandboxID := sandboxID; xf_TaskID := ""; xf_WorkspaceID := workspaceID |};
  mret (timeline sandboxID (insertion_sort event_before (map chunk_event cs ++ flat_map task_events ts ++ map artifact_event l))).

Definition Summary (t : ReplayTimeline) : ReplaySummary :=
  {| rs_SandboxID := rl_SandboxID t; rs_StartTime := rl_StartTime t; rs_EndTime := rl_EndTime t; rs_Duration := rl_Duration t; rs_EventCount := rl_EventCount t |}.

Definition HandleReplay (sandboxID wsID force : string) : W sandbox_reply :=
  with_session sandboxID wsID (λ sess,
    let force := (force =s "1") || (force =s "true") in
    if negb force && negb (IsTerminal sess) then mret (Failed 409 "sandbox_not_terminal")
    else
      _ ← emitAudit "sandbox.replay_accessed" (sx_ProbeID sess) "api";
      store_call (BuildTimeline sandboxID wsID) internal_error (λ t, mret (TimelineReply t))).

Definition HandleReplaySummary (sandboxID wsID : string) : W sandbox_reply :=
  with_session sandboxID wsID (λ _,
    store_call (BuildTimeline sandboxID wsID) internal_error (λ t, mret (SummaryReply (Summary t)))).
End handlers.
