(* ===== verification/SandboxSafety.v ===== *)
(** * What the sandbox subsystem guarantees

    Histories of requests to the endpoints of [SandboxHandlers], with every
    failure of the database, and what they preserve. *)
From S2P Require Import Prelude GoStrings GoErrors GoTime GoSort GoSql GoCrypto Sandbox SandboxHub SandboxHandlers.
Local Open Scope go_scope.
Local Open Scope Z_scope.

(** ** Requests *)

Inductive request :=
  | RCreate (policy : HandlerPolicy) (body : option create_body)
  | RList (workspace state probe : string)
  | RGet (id wsID : string)
  | RDestroy (id wsID : string)
  | RTransition (id wsID : string) (body : option transition_body)
  | RCreateTask (id wsID : string) (body : option task_body)
  | RListTasks (id wsID : string)
  | RGetTask (id taskID wsID : string)
  | RCancelTask (id taskID wsID : string)
  | RUpload (id wsID : string) (form : option upload_form)
  | RListArtifacts (id wsID taskID : string)
  | RGetArtifact (id artifactID wsID : string)
  | RDownload (id artifactID wsID : string)
  | RIngest (skip : nat → bool) (id wsID : string) (incoming : option (list incoming_chunk))
  | RGetOutput (id wsID taskID : string) (since : Z) (limit : option Z)
  | RReplay (id wsID force : string)
  | RReplaySummary (id wsID : string).

Section requests.
Context `{Host}.

(** A request among others: [between] is what they do in its window, when it is an
    upload. *)
Definition serve_among (between : Tables → Tables) (r : request) : GoSql.M Box sandbox_reply :=
  match r with
  | RCreate policy body => HandleCreate policy body
  | RList w s p => HandleList w s p
  | RGet id ws => HandleGet id ws
  | RDestroy id ws => HandleDestroy id ws
  | RTransition id ws body => HandleTransition id ws body
  | RCreateTask id ws body => HandleCreateTask id ws body
  | RListTasks id ws => HandleListTasks id ws
  | RGetTask id task ws => HandleGetTask id task ws
  | RCancelTask id task ws => HandleCancelTask id task ws
  | RUpload id ws form => HandleUploadArtifact between id ws form
  | RListArtifacts id ws task => HandleListArtifacts id ws task
  | RGetArtifact id a ws => HandleGetArtifact id a ws
  | RDownload id a ws => HandleDownloadArtifact id a ws
  | RIngest skip id ws incoming => HandleIngestOutput skip id ws incoming
  | RGetOutput id ws task since limit => HandleGetOutput id ws task since limit
  | RReplay id ws force => HandleReplay id ws force
  | RReplaySummary id ws => HandleReplaySummary id ws
  end.

Definition alone (t : Tables) : Tables := t.
Definition serve (r : request) : GoSql.M Box sandbox_reply := serve_among alone r.

Definition served (db : DB Box) (e : request * sandbox_reply) (db' : DB Box) : Prop := serve e.1 db = (inr e.2, db').

End requests.

Section steps.
Context `{Host}.

(** ** The writes of the endpoints

    [strict] is whether uploads run one after the other. *)

Context (strict : Prop).

(** The session [id] exists and belongs to workspace [ws]. *)
Definition owned (t : Tables) (id ws : string) : Prop := ∃ s, s ∈ sessions t ∧ sx_ID s = id ∧ sx_WorkspaceID s = ws.
Definition fresh_in {A} (key : A → string) (x : A) (l : list A) : Prop := key x ∉ map key l.
Definition of_sandbox (id : string) (a : Artifact) : bool := af_SandboxID a =s id.
Definition recorded (a : Artifact) : Prop :=
  af_Size a = Z.of_nat (String.length (af_Content a)) ∧ af_Size a <= MaxArtifactSizeBytes ∧ af_SHA256 a = hex_EncodeToString (sha256 (af_Content a)).

Inductive sandbox_effect : Tables → Tables → Prop :=
  | se_create t s :
      fresh_in sx_ID s (sessions t) → sx_State s = StateCreated → sx_DestroyedAt s = None →
      sandbox_effect t (set_sessions t (sessions t ++ [s]))
  | se_edit t sess now : sandbox_effect t (set_sessions t (update_where (session_is (sx_ID sess)) (edited sess now) (sessions t)))
  | se_move t id from to now :
      ValidateTransition from to = None →
      sandbox_effect t (set_sessions t (update_where (λ s, session_is id s && (sx_State s =s from)) (moved to now) (sessions t)))
  | se_task t k :
      fresh_in tk_ID k (tasks t) → owned t (tk_SandboxID k) (tk_WorkspaceID k) → tk_State k = TaskStateQueued → tk_CompletedAt k = None →
      1 <= tk_TimeoutSecs k <= MaxTaskTimeoutSecs → sandbox_effect t (set_tasks t (tasks t ++ [k]))
  | se_move_task t id from to now :
      ValidateTaskTransition from to = None →
      sandbox_effect t (set_tasks t (update_where (λ k, task_is id k && (tk_State k =s from)) (moved_task to now) (tasks t)))
  | se_artifact t a :
      fresh_in af_ID a (artifacts t) → owned t (af_SandboxID a) (af_WorkspaceID a) → recorded a →
      (strict → sum_sizes (List.filter (λ b, (af_SandboxID b =s af_SandboxID a) && matches (af_WorkspaceID a) (af_WorkspaceID b)) (artifacts t)) + af_Size a
        <= MaxSandboxArtifactBytes) →
      sandbox_effect t (set_artifacts t (artifacts t ++ [a]))
  | se_chunk t c :
      fresh_in oc_ID c (chunks t) → (∃ ws, owned t (oc_SandboxID c) ws) → Z.of_nat (String.length (oc_Data c)) <= MaxChunkSize →
      sandbox_effect t (set_chunks t (chunks t ++ [c])).

Lemma insert_row_ok {A} table (key : A → string) row l u l' :
  insert_row table key row l = (inr u, l') → fresh_in key row l ∧ l' = l ++ [row].
Proof.
  unfold insert_row. destruct (existsb _ l) eqn:E; [done|]. intros [= _ <-]. split; [|done].
  rewrite existsb_false_Forall, Forall_forall in E. intros (x & Hk & Hx)%list_elem_of_fmap. specialize (E x Hx). bools. congruence.
Qed.
Lemma insert_row_cases {A} table (key : A → string) row l r l' :
  insert_row table key row l = (r, l') → l' = l ∨ fresh_in key row l ∧ l' = l ++ [row].
Proof.
  intros E. destruct r as [e|u]; [left|right; by eapply insert_row_ok]. unfold insert_row in E. destruct (existsb _ l); by simplify_eq.
Qed.

(** ** Taking handlers apart *)

Definition with_tables (db : DB Box) (t : Tables) (n : nat) : DB Box :=
  Build_DB {| tables := t; hub := hub (rows db); emitted := emitted (rows db) |} n.
Definition tables_db (db : DB Box) : DB Tables := Build_DB (tables (rows db)) (ticks db).

Lemma on_tables_eq {A} (m : GoSql.M Tables A) db r db' :
  on_tables m db = (r, db') → ∃ d, m (tables_db db) = (r, d) ∧ db' = with_tables db (rows d) (ticks d).
Proof. unfold on_tables. fold (tables_db db). destruct (m (tables_db db)) as [r0 d]. intros [= <- <-]. by exists d. Qed.

Lemma store_call_eq {A} (m : GoSql.M Tables A) on_error k db res db' :
  store_call m on_error k db = (res, db') →
  ∃ r d, m (tables_db db) = (r, d) ∧
    match r with
    | inl e => res = inr (on_error e) ∧ db' = with_tables db (rows d) (ticks d)
    | inr a => k a (with_tables db (rows d) (ticks d)) = (res, db')
    end.
Proof.
  unfold store_call, attempt, mbind, M_bind. destruct (on_tables m db) as [r db1] eqn:E. apply on_tables_eq in E as (d & Hm & ->).
  intros Hk. exists r, d. split; [done|]. destruct r; [|done]. by injection Hk as <- <-.
Qed.

Lemma find_id id (l : list SandboxSession) s : List.find (session_is id) l = Some s → s ∈ l ∧ sx_ID s = id.
Proof. intros [Hs Hid]%find_some. split; [by apply list_elem_of_In|]. by apply String.eqb_eq. Qed.

(** What [with_session] hands on: the session of the table, visible to the
    workspace, with the tables as they were. *)
Lemma with_session_eq id ws k db res db' :
  with_session id ws k db = (res, db') →
  (tables (rows db') = tables (rows db) ∧ ∃ st code, res = inr (Failed st code)) ∨
  ∃ s n, List.find (session_is id) (sessions (tables (rows db))) = Some s ∧ visible ws (sx_WorkspaceID s) = true ∧
    k s (with_tables db (tables (rows db)) n) = (res, db').
Proof.
  unfold with_session. destruct (id =s ""); [intros [= <- <-]; left; split; [done|by eauto]|].
  intros (r & d & Hg & Hk)%store_call_eq. unfold GetForWorkspace, Get, query, mbind, M_bind in Hg. cbn in Hg.
  destruct (sql_fault (ticks db)) as [e|].
  - injection Hg as <- <-. destruct Hk as [-> ->]. left. split; [done|]. by eexists _, _.
  - destruct (List.find _ _) as [s|] eqn:Ef.
    + destruct (visible ws (sx_WorkspaceID s)) eqn:Ev; injection Hg as <- <-; [right; by eexists s, _|].
      injection Hk as <- <-. left. split; [done|by eauto].
    + injection Hg as <- <-. injection Hk as <- <-. left. split; [done|by eauto].
Qed.

(** [box_runs m]: whatever [m] answers, the tables take steps of [sandbox_effect]. *)
Definition steps : Tables → Tables → Prop := rtc sandbox_effect.
Definition box_runs {A} (m : GoSql.M Box A) : Prop := ∀ db res db', m db = (res, db') → steps (tables (rows db)) (tables (rows db')).

Lemma box_ret {A} (a : A) : box_runs (mret a).
Proof. intros db res db' [= _ <-]. constructor. Qed.
Lemma box_emit e : box_runs (emit e).
Proof. intros db res db' [= _ <-]. constructor. Qed.
Lemma box_hub f : box_runs (on_hub f).
Proof. intros db res db' [= _ <-]. constructor. Qed.
Lemma box_time : box_runs time_now.
Proof. intros db res db' [= _ <-]. constructor. Qed.
Lemma box_bind {A B} (m : GoSql.M Box A) (f : A → GoSql.M Box B) : box_runs m → (∀ a, box_runs (f a)) → box_runs (m ≫= f).
Proof.
  intros Hm Hf db res db'. unfold mbind, M_bind. destruct (m db) as [[e|a] db1] eqn:E; intros Hk; simplify_eq.
  - by eapply Hm.
  - etrans; [by eapply Hm|by eapply Hf].
Qed.
Lemma box_tables {A} (m : GoSql.M Tables A) : runs sandbox_effect m → box_runs (on_tables m).
Proof. intros Hm db res db' (d & Hd & ->)%on_tables_eq. by eapply Hm in Hd. Qed.
Lemma box_attempt {A} (m : GoSql.M Box A) : box_runs m → box_runs (attempt m).
Proof. unfold attempt. intros Hm db res db' E. destruct (m db) eqn:Em. simplify_eq. by eapply Hm. Qed.
Lemma box_ignore {A} (m : GoSql.M Box A) : box_runs m → box_runs (ignore_error m).
Proof. intros Hm db res db' [= _ <-]. by eapply Hm, surjective_pairing. Qed.
Lemma box_store_call {A} (m : GoSql.M Tables A) on_error k :
  runs sandbox_effect m → (∀ a, box_runs (k a)) → box_runs (store_call m on_error k).
Proof.
  intros Hm Hk db res db' (r & d & Hd & E)%store_call_eq. eapply Hm in Hd. destruct r as [e|a].
  - by destruct E as [_ ->].
  - etrans; [exact Hd|]. by eapply Hk in E.
Qed.
Lemma box_emitAudit a b c : box_runs (emitAudit a b c).
Proof. apply box_emit. Qed.
Lemma box_emitEvent a b : box_runs (emitEvent a b).
Proof. apply box_bind; [apply box_time|]. intros. apply box_emit. Qed.
#[local] Hint Resolve box_ret box_hub box_time box_bind box_tables box_attempt box_ignore box_store_call box_emitAudit box_emitEvent : legator.

Lemma runs_update_sessions p f :
  (∀ t, sandbox_effect t (set_sessions t (update_where p f (sessions t)))) → runs sandbox_effect (update_sessions p f).
Proof. intros He. apply runs_exec. intros t. right. apply He. Qed.

Lemma runs_Update sess : runs sandbox_effect (Update sess).
Proof.
  apply runs_bind; [auto with legator|]. intros now. apply runs_bind.
  - apply runs_wrap, runs_update_sessions. intros t. apply se_edit.
  - intros n. case_match; auto with legator.
Qed.

Lemma runs_Transition id from to : runs sandbox_effect (Transition id from to).
Proof.
  unfold Transition. destruct (ValidateTransition from to) eqn:Ev; [auto with legator|].
  apply runs_bind; [auto with legator|]. intros now. apply runs_bind.
  - apply runs_wrap, runs_update_sessions. intros t. by apply se_move.
  - intros n. case_match; [|by apply runs_reads, reads_query]. apply runs_bind; [by apply runs_reads, reads_query|]. intros s. case_match; auto with legator.
Qed.

Lemma runs_TransitionTask id from to : runs sandbox_effect (TransitionTask id from to).
Proof.
  unfold TransitionTask. destruct (ValidateTaskTransition from to) eqn:Ev; [auto with legator|].
  apply runs_bind; [auto with legator|]. intros now. apply runs_bind.
  - apply runs_wrap, runs_exec. intros t. right. by apply se_move_task.
  - intros n. case_match; [|by apply runs_reads, reads_query]. apply runs_bind; [by apply runs_reads, reads_query|]. intros s. case_match; auto with legator.
Qed.

Lemma runs_Create sess : sx_DestroyedAt sess = None → runs sandbox_effect (Create sess).
Proof.
  intros Hd. apply runs_bind; [case_match; auto with legator|]. intros id. apply runs_bind; [auto with legator|]. intros now.
  apply runs_bind; [|auto with legator]. apply runs_wrap, runs_exec. intros t. destruct (insert_row _ _ _ _) as [r l] eqn:E.
  apply insert_row_cases in E as [->|[Hf ->]]; [left; by destruct t|right]. by apply se_create.
Qed.

Lemma clamp_timeout_bounds n : 1 <= clamp_timeout n <= MaxTaskTimeoutSecs.
Proof. unfold clamp_timeout, DefaultTaskTimeoutSecs, MaxTaskTimeoutSecs. repeat case_match; bools; lia. Qed.

Lemma set_tasks_same t : set_tasks t (tasks t) = t.
Proof. by destruct t. Qed.
Lemma set_artifacts_same t : set_artifacts t (artifacts t) = t.
Proof. by destruct t. Qed.
Lemma set_chunks_same t : set_chunks t (chunks t) = t.
Proof. by destruct t. Qed.

(** Computations that take steps when [P] holds of the tables they start from. *)
Definition steps_if {A} (P : Tables → Prop) (m : GoSql.M Tables A) : Prop :=
  ∀ db r d, P (rows db) → m db = (r, d) → steps (rows db) (rows d).

Lemma steps_if_read {A B} P (m : GoSql.M Tables A) (f : A → GoSql.M Tables B) : reads m → (∀ a, steps_if P (f a)) → steps_if P (m ≫= f).
Proof.
  intros Hm Hf db r d HP. unfold mbind, M_bind. destruct (m db) as [[e|a] d1] eqn:E; apply Hm in E; intros Hk; simplify_eq; rewrite <- E.
  - constructor.
  - eapply Hf; [|exact Hk]. by rewrite E.
Qed.
Lemma steps_if_query {A B} P e (g : Tables → result A) (f : A → GoSql.M Tables B) :
  (∀ a, steps_if (λ t, P t ∧ g t = inr a) (f a)) → steps_if P (wrap_error e (query g) ≫= f).
Proof.
  intros Hf db r d HP. unfold wrap_error, query, mbind, M_bind. destruct (sql_fault _); [intros [= _ <-]; constructor|].
  destruct (g (rows db)) as [e'|a] eqn:Eg; [intros [= _ <-]; constructor|]. intros Hk. by eapply Hf in Hk.
Qed.
Lemma steps_if_last {A B} P (m : GoSql.M Tables A) (f : A → GoSql.M Tables B) : steps_if P m → (∀ a, reads (f a)) → steps_if P (m ≫= f).
Proof.
  intros Hm Hf db r d HP. unfold mbind, M_bind. destruct (m db) as [[e|a] d1] eqn:E; intros Hk; simplify_eq.
  - by eapply Hm.
  - rewrite (Hf _ _ _ _ Hk). by eapply Hm.
Qed.
Lemma steps_if_fail {A} P msg : steps_if P (errorf msg : GoSql.M Tables A).
Proof. intros db r d _ [= _ <-]. constructor. Qed.
Lemma steps_if_exec {A} P e (f : Tables → result A * Tables) :
  (∀ t, P t → (f t).2 = t ∨ sandbox_effect t (f t).2) → steps_if P (wrap_error e (exec f)).
Proof.
  intros Hf db r d HP. unfold wrap_error, exec. destruct (sql_fault _); [intros [= _ <-]; constructor|]. specialize (Hf _ HP).
  destruct (f (rows db)) as [[e'|a] t']; intros [= _ <-]; cbn in *; (destruct Hf as [<-|He]; [constructor|by apply rtc_once]).
Qed.

Lemma reads_fresh_id (id : string) : reads (S:=Tables) (if id =s "" then uuid_NewString else mret id).
Proof. case_match; auto with legator. Qed.
#[local] Hint Resolve reads_fresh_id : legator.

Lemma CreateTask_steps task : steps_if (λ t, owned t (tk_SandboxID task) (tk_WorkspaceID task)) (CreateTask task).
Proof.
  apply steps_if_read; [auto with legator|]. intros id. apply steps_if_read; [auto with legator|]. intros now.
  apply steps_if_last; [|auto with legator]. apply steps_if_exec. intros t Ho. destruct (insert_row _ _ _ _) as [r l] eqn:E.
  apply insert_row_cases in E as [->|[Hf ->]]; [left; apply set_tasks_same|right]. apply se_task; try done. apply clamp_timeout_bounds.
Qed.

(** An update that keeps identity and owner keeps what is owned. *)
Lemma owned_update t p f id ws :
  (∀ s, sx_ID (f s) = sx_ID s ∧ sx_WorkspaceID (f s) = sx_WorkspaceID s) → owned t id ws → owned (set_sessions t (update_where p f (sessions t))) id ws.
Proof.
  intros Hf (s & Hs & Hid & Hws). exists (if p s then f s else s). split.
  - cbn. rewrite elem_of_update_where. destruct (p s) eqn:E; eauto.
  - destruct (p s); [destruct (Hf s); split; congruence|done].
Qed.
Lemma owned_app t l id ws : owned t id ws → owned (set_sessions t (sessions t ++ l)) id ws.
Proof. intros (s & Hs & Hid). exists s. split; [|done]. apply elem_of_app. by left. Qed.

Lemma effect_owned t t' id ws : sandbox_effect t t' → owned t id ws → owned t' id ws.
Proof. destruct 1; intros Ho; try done; [by apply owned_app|by apply owned_update..]. Qed.
Lemma steps_owned t t' id ws : steps t t' → owned t id ws → owned t' id ws.
Proof. induction 1; eauto using effect_owned. Qed.

(** What others may do in the window of an upload: steps of their own, and nothing
    when requests run one after the other. *)
Definition neighbours (between : Tables → Tables) : Prop := (∀ t, steps t (between t)) ∧ (strict → ∀ t, between t = t).
Lemma steps_if_meanwhile {B} P Q between (f : unit → GoSql.M Tables B) :
  (∀ t, steps t (between t)) → (∀ t, P t → Q (between t)) → steps_if Q (f tt) → steps_if P (meanwhile between ≫= f).
Proof. intros Hb HQ Hf db r d HP. cbn. intros E. etrans; [apply Hb|]. apply Hf in E; [done|]. by apply HQ. Qed.

Lemma CreateArtifact_steps between a :
  neighbours between → steps_if (λ t, owned t (af_SandboxID a) (af_WorkspaceID a)) (CreateArtifact between a).
Proof.
  intros [Hb Hs]. apply steps_if_read; [auto with legator|]. intros id. apply steps_if_read; [auto with legator|]. intros now. cbv zeta.
  destruct (Z.ltb_spec MaxArtifactSizeBytes (Z.of_nat (String.length (af_Content a)))); [apply steps_if_fail|].
  apply steps_if_query. intros current. destruct (Z.ltb_spec MaxSandboxArtifactBytes (current + Z.of_nat (String.length (af_Content a)))); [apply steps_if_fail|].
  eapply (steps_if_meanwhile _ (λ t, owned t (af_SandboxID a) (af_WorkspaceID a) ∧ (strict → current = sum_sizes (List.filter (λ b,
    (af_SandboxID b =s af_SandboxID a) && matches (af_WorkspaceID a) (af_WorkspaceID b)) (artifacts t))))); [done| |].
  { intros t [Ho [= <-]]. split; [exact (steps_owned _ _ _ _ (Hb t) Ho)|]. intros Hst. by rewrite Hs. }
  apply steps_if_last; [|auto with legator]. apply steps_if_exec. intros t [Ho Hc]. destruct (insert_row _ _ _ _) as [r l] eqn:E.
  apply insert_row_cases in E as [->|[Hf ->]]; [left; apply set_artifacts_same|right]. apply se_artifact; try done. intros Hst. specialize (Hc Hst). by subst current.
Qed.

(** The chunks of one request. *)
Definition chunk_ok (id : string) (c : OutputChunk) : Prop := oc_SandboxID c = id ∧ Z.of_nat (String.length (oc_Data c)) <= MaxChunkSize.

Lemma insert_chunk_steps id ws c e db r d :
  owned (rows db) id ws → chunk_ok id c → wrap_error e (insert_chunk c) db = (r, d) → steps (rows db) (rows d) ∧ owned (rows d) id ws.
Proof.
  intros Ho [Hid Hlen] (r0 & E & _)%wrap_cases. unfold insert_chunk, exec in E. destruct (sql_fault _); [injection E as _ <-; by split; [constructor|]|].
  destruct (insert_row _ _ _ _) as [r' l] eqn:Ei. injection E as _ <-. cbn. split; [|done].
  apply insert_row_cases in Ei as [->|[Hf ->]]; [rewrite set_chunks_same; constructor|].
  apply rtc_once, se_chunk; [done|exists ws; by rewrite <- Hid in Ho|done].
Qed.

Lemma append_loop_steps id ws now cs db r d :
  owned (rows db) id ws → Forall (chunk_ok id) cs → append_loop now cs db = (r, d) → steps (rows db) (rows d).
Proof.
  revert db r d. induction cs as [|c cs IH]; intros db r d Ho Hcs; cbn [append_loop]; [intros [= _ <-]; constructor|].
  apply Forall_cons in Hcs as [Hc Hcs].
  intros [(e & E%reads_fresh_id & _)|(cid & d1 & E%reads_fresh_id & Hk)]%bind_cases; rewrite <- E in *; [constructor|]. cbv zeta in Hk.
  apply bind_cases in Hk as [(e & Hi & _)|([] & d2 & Hi & Hk)]; apply (insert_chunk_steps id ws) in Hi as [Hs2 Ho2]; [|done|done| |done|done]; [done|].
  etrans; [exact Hs2|]. apply bind_cases in Hk as [(e & Hl & _)|(rest & d3 & Hl & Hk)]; apply IH in Hl; try done. by injection Hk as _ <-.
Qed.

Lemma steps_if_transaction {A} P (m : GoSql.M Tables A) : steps_if P m → steps_if P (transaction m).
Proof.
  unfold transaction. intros Hm db r d HP E. destruct (m db) as [[e|a] d1] eqn:Em; injection E as _ <-; [constructor|by eapply Hm].
Qed.

Lemma AppendChunks_steps id ws cs : Forall (chunk_ok id) cs → steps_if (λ t, owned t id ws) (AppendChunks cs).
Proof.
  intros Hcs. unfold AppendChunks. destruct cs as [|c cs]; [intros db r d _ [= _ <-]; constructor|].
  apply steps_if_query. intros []. apply steps_if_transaction, steps_if_query. intros []. apply steps_if_read; [auto with legator|]. intros now.
  apply steps_if_last; [intros db r d [[Ho _] _]; by apply (append_loop_steps id ws)|]. intros cs'.
  apply reads_bind; [|auto with legator]. intros db r d E. unfold wrap_error in E. destruct (commit db) as [[]] eqn:Ec; injection E as _ <-; by apply reads_query in Ec.
Qed.

(** ** Every endpoint takes steps *)

Lemma runs_read {A} (m : GoSql.M Tables A) : reads m → runs sandbox_effect m.
Proof. apply runs_reads. Qed.
Lemma reads_wrap_error {S A} f (m : GoSql.M S A) : reads m → reads (wrap_error f m).
Proof. intros Hm db r d (r0 & E & _)%wrap_cases. by apply Hm in E. Qed.
#[local] Hint Resolve runs_Update runs_Transition runs_TransitionTask runs_read reads_wrap_error reads_query : legator.

Lemma reads_session_get id : reads (Get id).
Proof. apply reads_query. Qed.
Lemma reads_GetTaskForWorkspace id ws : reads (GetTaskForWorkspace id ws).
Proof. apply reads_bind; [apply reads_query|]. intros []; auto with legator. Qed.
Lemma reads_fetch fuel id since : reads (fetch_chunks fuel id since).
Proof.
  revert since. induction fuel as [|fuel IH]; intros since; cbn [fetch_chunks]; [auto with legator|].
  apply reads_bind; [apply reads_wrap_error, reads_query|]. intros batch. case_match; auto with legator.
Qed.
Lemma reads_BuildTimeline id ws : reads (BuildTimeline id ws).
Proof.
  apply reads_bind; [auto with legator|]. intros fuel. apply reads_bind; [apply reads_fetch|]. intros cs.
  apply reads_bind; [apply reads_wrap_error, reads_query|]. intros ts. apply reads_bind; [apply reads_wrap_error, reads_query|]. auto with legator.
Qed.
Lemma reads_List f : reads (List_ f).
Proof. apply reads_wrap_error, reads_query. Qed.
Lemma reads_ListTasks f : reads (ListTasks f).
Proof. apply reads_wrap_error, reads_query. Qed.
Lemma reads_ListArtifacts f : reads (ListArtifacts f).
Proof. apply reads_wrap_error, reads_query. Qed.
Lemma reads_GetArtifact id ws : reads (GetArtifact id ws).
Proof. apply reads_query. Qed.
Lemma reads_chunks (p : bool) task id since limit : reads (if p then ListChunks task since limit else ListChunksBySandbox id since limit).
Proof. destruct p; apply reads_wrap_error, reads_query. Qed.
#[local] Hint Resolve reads_session_get reads_GetTaskForWorkspace reads_BuildTimeline reads_List reads_ListTasks reads_ListArtifacts reads_GetArtifact reads_chunks : legator.

Lemma box_with_session id ws k : (∀ s, box_runs (k s)) → box_runs (with_session id ws k).
Proof.
  intros Hk db res db' [[E _]|(s & n & _ & _ & E)]%with_session_eq; [rewrite E; constructor|]. by eapply Hk in E.
Qed.
(** ... and when the rest depends on the session being there. *)
Lemma box_under_session id ws k :
  (∀ s db res db', owned (tables (rows db)) id (sx_WorkspaceID s) → k s db = (res, db') → steps (tables (rows db)) (tables (rows db'))) →
  box_runs (with_session id ws k).
Proof.
  intros Hk db res db' [[E _]|(s & n & Hf & _ & E)]%with_session_eq; [rewrite E; constructor|].
  apply find_id in Hf as [Hs Hid]. eapply Hk in E; [done|]. by exists s.
Qed.
Lemma store_call_if {A} P (m : GoSql.M Tables A) on_error k db res db' :
  steps_if P m → (∀ a, box_runs (k a)) → P (tables (rows db)) → store_call m on_error k db = (res, db') →
  steps (tables (rows db)) (tables (rows db')).
Proof.
  intros Hm Hk HP (r & d & Hd & E)%store_call_eq. apply Hm in Hd; [|done]. destruct r as [e|a].
  - by destruct E as [_ ->].
  - etrans; [exact Hd|]. by eapply Hk in E.
Qed.
#[local] Hint Resolve box_with_session : legator.

Lemma cap_data_bounded s : Z.of_nat (String.length (cap_data s)) <= MaxChunkSize.
Proof.
  unfold cap_data. destruct (Z.ltb_spec MaxChunkSize (Z.of_nat (String.length s))); [|done].
  pose proof (length_take_str (Z.to_nat MaxChunkSize) s) as Hl. assert (0 <= MaxChunkSize) by done. lia.
Qed.

Lemma accept_chunks_ok id l db r db' :
  accept_chunks id l db = (r, db') → tables (rows db') = tables (rows db) ∧ ∃ cs, r = inr cs ∧ Forall (chunk_ok id) cs.
Proof.
  revert db r db'. induction l as [|ic l IH]; intros db r db'; cbn [accept_chunks]; [intros [= <- <-]; split; [done|by exists []]|].
  intros Hb. apply bind_cases in Hb as [(e & E & _)|(c & db1 & E & Hk)]; unfold accept_chunk in E; cbv zeta in E.
  { destruct (IsZero _); discriminate E. }
  assert (tables (rows db1) = tables (rows db) ∧ chunk_ok id c) as [Ht Hc].
  { destruct (IsZero _); injection E as <- <-; (split; [done|]); (split; [done|]); apply cap_data_bounded. }
  apply bind_cases in Hk as [(e & E2 & ->)|(cs & db2 & E2 & Hk)]; apply IH in E2 as (Ht2 & cs' & Hr & Hcs); [done|].
  injection Hr as <-. injection Hk as <- <-. rewrite Ht2, Ht. split; [done|]. exists (c :: cs). split; [done|]. by constructor.
Qed.

Lemma box_HandleCreate policy body : box_runs (HandleCreate policy body).
Proof.
  unfold HandleCreate. destruct body as [body|]; [|auto with legator]. destruct (apply_lane body); [auto with legator|]. cbv zeta.
  do 2 (case_match; [auto with legator|]). destruct (match ProbeValidator policy with Some _ => _ | None => _ end); [auto with legator|].
  apply box_bind. { destruct (0 <? MaxConcurrent policy); [|auto with legator]. apply box_bind; [apply box_tables, runs_read|auto with legator].
    apply reads_bind; [apply reads_attempt, reads_query|auto with legator]. }
  intros []; [auto with legator|]. apply box_store_call; [by apply runs_Create|]. intros created. auto 10 with legator.
Qed.

Lemma box_HandleCreateTask id ws body : box_runs (HandleCreateTask id ws body).
Proof.
  apply box_under_session. intros s db res db' Ho. case_match; [apply box_ret|]. destruct body as [body|]; [|apply box_ret].
  case_match; [apply box_ret|]. eapply (store_call_if (λ t, owned t id (sx_WorkspaceID s))); [apply (CreateTask_steps (new_task id s body))| |done].
  intros created. apply box_bind; [case_match; auto with legator|]. auto 10 with legator.
Qed.

Lemma box_HandleUpload between id ws form : neighbours between → box_runs (HandleUploadArtifact between id ws form).
Proof.
  intros Hb. apply box_under_session. intros s db res db' Ho. destruct form as [form|]; [|apply box_ret]. cbv zeta.
  generalize (if TrimSpace (uf_kind form) =s "" then ArtifactKindFile else TrimSpace (uf_kind form)). intros kind.
  destruct (TrimSpace (uf_path form) =s ""); [apply box_ret|]. destruct (negb _); [apply box_ret|].
  destruct (uf_file form) as [[e|file]|]; [apply box_ret| |apply box_ret]. destruct (_ <? _); [apply box_ret|].
  eapply (store_call_if (λ t, owned t id (sx_WorkspaceID s))); [|auto 10 with legator|done].
  intros d r d' Hd. by apply (CreateArtifact_steps between (new_artifact id s form _ _ _)).
Qed.

Lemma box_HandleIngest skip id ws incoming : box_runs (HandleIngestOutput skip id ws incoming).
Proof.
  apply box_under_session. intros s db res db' Ho. case_match; [apply box_ret|]. destruct incoming as [[|ic l]|]; [apply box_ret| |apply box_ret].
  intros Hb. apply bind_cases in Hb as [(e & E & _)|(cs & db1 & E & Hk)]; apply accept_chunks_ok in E as (Ht & cs' & Hr & Hcs); [done|].
  injection Hr as <-. rewrite <- Ht in *. eapply (store_call_if _ _ _ _ _ _ _ (AppendChunks_steps id (sx_WorkspaceID s) cs Hcs)); [|done|exact Hk].
  intros cs'. apply box_bind; [apply box_hub|]. auto with legator.
Qed.

Lemma box_persist id u body : box_runs (persist_result id u body).
Proof. unfold persist_result. case_match; [|auto with legator]. apply box_bind; [auto with legator|]. intros _. apply box_bind; auto with legator. Qed.

Lemma among_steps between r : neighbours between → box_runs (serve_among between r).
Proof.
  intros Hb. destruct r; cbn [serve_among].
  - apply box_HandleCreate.
  - apply box_store_call; auto with legator.
  - apply box_with_session; auto with legator.
  - apply box_with_session. intros s. case_match; [auto with legator|]. apply box_store_call; [auto with legator|]. intros []; auto 10 with legator.
  - unfold HandleTransition. case_match; [auto with legator|]. destruct body as [body|]; [|auto with legator]. cbv zeta.
    case_match; [auto with legator|]. apply box_with_session. intros s. apply box_store_call; [auto with legator|].
    intros [u|]; [|auto with legator]. apply box_bind; [apply box_persist|]. auto 10 with legator.
  - apply box_HandleCreateTask.
  - apply box_with_session. intros s. apply box_store_call; auto with legator.
  - unfold HandleGetTask, with_task. case_match; [auto with legator|]. apply box_with_session. intros s. apply box_store_call; [auto with legator|].
    intros [k|]; [case_match|]; auto with legator.
  - unfold HandleCancelTask, with_task. case_match; [auto with legator|]. apply box_with_session. intros s. apply box_store_call; [auto with legator|].
    intros [k|]; [|auto with legator]. destruct (_ =s id); [|auto with legator]. destruct (_ && _); [auto with legator|].
    apply box_store_call; auto 10 with legator.
  - by apply box_HandleUpload.
  - apply box_with_session. intros s. apply box_store_call; auto with legator.
  - unfold HandleGetArtifact, with_artifact. case_match; [auto with legator|]. apply box_with_session. intros s. apply box_store_call; [auto with legator|].
    intros [k|]; [case_match|]; auto with legator.
  - unfold HandleDownloadArtifact, with_artifact. case_match; [auto with legator|]. apply box_with_session. intros s. apply box_store_call; [auto with legator|].
    intros [k|]; [case_match|]; auto with legator.
  - apply box_HandleIngest.
  - apply box_with_session. intros s. apply box_store_call; auto with legator.
  - apply box_with_session. intros s. cbv zeta. destruct (_ && _); [auto with legator|]. apply box_bind; [auto with legator|]. intros _. apply box_store_call; auto with legator.
  - apply box_with_session. intros s. apply box_store_call; auto with legator.
Qed.

Lemma serve_steps r : box_runs (serve r).
Proof. apply among_steps. split; [|done]. intros t. constructor. Qed.

(** ** The invariant of the tables *)

Definition allowed (from to : string) : Prop := ValidateTransition from to = None.
Definition known_states : list string := [StateCreated; StateProvisioning; StateReady; StateRunning; StateFailed; StateDestroyed].
Definition known_task_states : list string := [TaskStateQueued; TaskStateRunning; TaskStateSucceeded; TaskStateFailed; TaskStateCancelled].

Lemma allowed_pairs from to : allowed from to →
  (from, to) ∈ [(StateCreated, StateProvisioning); (StateProvisioning, StateReady); (StateProvisioning, StateFailed); (StateReady, StateRunning);
                (StateReady, StateDestroyed); (StateRunning, StateFailed); (StateRunning, StateDestroyed)].
Proof.
  unfold allowed, ValidateTransition, validTransitions. repeat (split_str; [subst from|]); try done; destruct (existsb _ _) eqn:E; try done;
    apply existsb_true_Exists in E as (x & Hx & ->%String.eqb_eq); set_solver.
Qed.
Lemma task_pairs from to : ValidateTaskTransition from to = None →
  (from, to) ∈ [(TaskStateQueued, TaskStateRunning); (TaskStateQueued, TaskStateCancelled); (TaskStateRunning, TaskStateSucceeded);
                (TaskStateRunning, TaskStateFailed); (TaskStateRunning, TaskStateCancelled)].
Proof.
  unfold ValidateTaskTransition, validTaskTransitions. repeat (split_str; [subst from|]); try done; destruct (existsb _ _) eqn:E; try done;
    apply existsb_true_Exists in E as (x & Hx & ->%String.eqb_eq); set_solver.
Qed.

Definition session_ok (s : SandboxSession) : Prop :=
  sx_State s ∈ known_states ∧ (sx_State s = StateDestroyed ↔ is_Some (sx_DestroyedAt s)).
Definition task_ok (t : Tables) (k : Task) : Prop :=
  owned t (tk_SandboxID k) (tk_WorkspaceID k) ∧ tk_State k ∈ known_task_states ∧ (task_IsTerminal k = true ↔ is_Some (tk_CompletedAt k)) ∧
  1 <= tk_TimeoutSecs k <= MaxTaskTimeoutSecs.

Record tables_ok (t : Tables) : Prop := {
  ok_session_ids : NoDup (map sx_ID (sessions t));
  ok_sessions : Forall session_ok (sessions t);
  ok_task_ids : NoDup (map tk_ID (tasks t));
  ok_tasks : Forall (task_ok t) (tasks t);
  ok_artifact_ids : NoDup (map af_ID (artifacts t));
  ok_artifacts : Forall (λ a, owned t (af_SandboxID a) (af_WorkspaceID a) ∧ recorded a) (artifacts t);
  ok_chunk_ids : NoDup (map oc_ID (chunks t));
  ok_chunks : Forall (λ c, (∃ ws, owned t (oc_SandboxID c) ws) ∧ Z.of_nat (String.length (oc_Data c)) <= MaxChunkSize) (chunks t);
}.
Definition within_quota (t : Tables) : Prop := ∀ id, sum_sizes (List.filter (of_sandbox id) (artifacts t)) <= MaxSandboxArtifactBytes.

(** Changing the sessions so that owners stay. *)
Lemma tables_ok_sessions t l :
  tables_ok t → (∀ id ws, owned t id ws → owned (set_sessions t l) id ws) → NoDup (map sx_ID l) → Forall session_ok l → tables_ok (set_sessions t l).
Proof.
  intros [Hsi Hs Hti Ht Hai Ha Hci Hc] Ho Hnd Hl. constructor; try done; cbn.
  - eapply Forall_impl; [exact Ht|]. intros k (? & ? & ?). split; eauto.
  - eapply Forall_impl; [exact Ha|]. intros a [? ?]. split; eauto.
  - eapply Forall_impl; [exact Hc|]. intros c [[ws ?] ?]. split; [exists ws|]; eauto.
Qed.

Lemma update_sessions_ok t p f :
  tables_ok t → (∀ s, sx_ID (f s) = sx_ID s ∧ sx_WorkspaceID (f s) = sx_WorkspaceID s) → (∀ s, p s = true → session_ok s → session_ok (f s)) →
  tables_ok (set_sessions t (update_where p f (sessions t))).
Proof.
  intros Hok Hf Hp. apply tables_ok_sessions; [done|by intros; apply owned_update| |].
  - rewrite map_update_where; [by apply ok_session_ids|]. intros s _. apply Hf.
  - apply Forall_forall. intros s' [(s & Hs & Hps & ->)|[Hs _]]%elem_of_update_where; [apply Hp; [done|]|];
      by eapply Forall_forall in Hs; [|apply ok_sessions].
Qed.

Lemma NoDup_fresh {A} (key : A → string) (x : A) l : NoDup (map key l) → fresh_in key x l → NoDup (map key (l ++ [x])).
Proof.
  intros Hl Hx. rewrite map_app. apply NoDup_app. split_and!; [done| |apply NoDup_singleton].
  intros y Hy ->%list_elem_of_singleton. by apply Hx.
Qed.

Lemma sum_sizes_app l1 l2 : sum_sizes (l1 ++ l2) = sum_sizes l1 + sum_sizes l2.
Proof. induction l1 as [|a l IH]; simpl; [done|]. rewrite IH. lia. Qed.

(** The workspace filter of the quota changes nothing: a sandbox has one owner. *)
Lemma quota_filter t a :
  tables_ok t → owned t (af_SandboxID a) (af_WorkspaceID a) →
  List.filter (λ b, (af_SandboxID b =s af_SandboxID a) && matches (af_WorkspaceID a) (af_WorkspaceID b)) (artifacts t) =
  List.filter (of_sandbox (af_SandboxID a)) (artifacts t).
Proof.
  intros Hok Ho. apply filter_ext_in. intros b Hb%list_elem_of_In. unfold of_sandbox. destruct (String.eqb_spec (af_SandboxID b) (af_SandboxID a)) as [E|]; [|done].
  destruct (proj1 (Forall_forall _ _) (ok_artifacts _ Hok) b Hb) as [Hob _]. cbn. rewrite E in Hob. unfold matches.
  assert (af_WorkspaceID b = af_WorkspaceID a) as ->; [|by rewrite String.eqb_refl, orb_true_r].
  destruct Ho as (s & Hs & Hid & <-), Hob as (s' & Hs' & Hid' & <-). f_equal. eapply key_inj; [by apply ok_session_ids|done..|congruence].
Qed.

Lemma moved_ok id from to now s :
  allowed from to → session_is id s && (sx_State s =s from) = true → session_ok s → session_ok (moved to now s).
Proof.
  intros Ha Hp [Hk Hd]. bools. unfold session_ok. cbn. pose proof (allowed_pairs _ _ Ha) as Hpairs.
  assert (to ∈ known_states ∧ from ≠ StateDestroyed) as [Ht Hnd] by (split; [set_solver|intros ->; set_solver]).
  split; [done|]. destruct (String.eqb_spec to StateDestroyed); [by split|]. split; [done|]. intros Hs%Hd. congruence.
Qed.

Lemma moved_task_ok t id from to now k :
  ValidateTaskTransition from to = None → task_is id k && (tk_State k =s from) = true → task_ok t k → task_ok t (moved_task to now k).
Proof.
  intros Ha%task_pairs Hp (Ho & Hk & Hc & Hb). bools. rewrite !elem_of_cons, elem_of_nil in Ha. unfold task_ok, task_IsTerminal in *. cbn.
  split; [done|]. unfold known_task_states.
  destruct_or! Ha; try done; injection Ha as -> ->; (split_and!; [rewrite !elem_of_cons; tauto|..|apply Hb|apply Hb]); cbn; try done.
  rewrite <- Hc. by replace (tk_State k) with TaskStateQueued.
Qed.

Lemma effect_ok t t' : sandbox_effect t t' → tables_ok t → tables_ok t'.
Proof.
  destruct 1 as [t s Hf Hs Hd|t sess now|t id from to now Ha|t k Hf Ho Hs Hc Hb|t id from to now Ha|t a Hf Ho Hr Hq|t c Hf Ho Hl]; intros Hok; pose proof Hok as [].
  - apply tables_ok_sessions; [done|by intros; apply owned_app|by apply NoDup_fresh|]. apply Forall_app_2, Forall_singleton; [done|].
    split; [rewrite Hs; left|]. rewrite Hs, Hd. split; [done|by intros [? ?]].
  - by apply update_sessions_ok.
  - apply update_sessions_ok; [done|done|]. intros s. by apply moved_ok.
  - constructor; try done; cbn; [by apply NoDup_fresh|]. apply Forall_app_2, Forall_singleton; [done|]. split_and!; [done|rewrite Hs; left|..|apply Hb|apply Hb].
    unfold task_IsTerminal. rewrite Hs, Hc. split; [done|by intros [? ?]].
  - constructor; try done; cbn; [by rewrite map_update_where|]. apply Forall_forall.
    intros k' [(k & Hk & Hp & ->)|[Hk _]]%elem_of_update_where; eapply Forall_forall in Hk; eauto. by eapply moved_task_ok.
  - constructor; try done; cbn; [by apply NoDup_fresh|by apply Forall_app_2, Forall_singleton].
  - constructor; try done; cbn; [by apply NoDup_fresh|by apply Forall_app_2, Forall_singleton].
Qed.

Lemma steps_ok t t' : steps t t' → tables_ok t → tables_ok t'.
Proof. induction 1; eauto using effect_ok. Qed.

Lemma effect_quota t t' : strict → sandbox_effect t t' → tables_ok t → within_quota t → within_quota t'.
Proof.
  intros Hst He Hok Hq. destruct He as [| | | | |t a Hf Ho Hr Hsum|]; try exact Hq. specialize (Hsum Hst). rewrite quota_filter in Hsum by done.
  intros id. specialize (Hq id). cbn. rewrite List.filter_app, sum_sizes_app. cbn. unfold of_sandbox at 2.
  destruct (String.eqb_spec (af_SandboxID a) id) as [<-|]; cbn; lia.
Qed.
Lemma steps_quota t t' : strict → steps t t' → tables_ok t → within_quota t → within_quota t'.
Proof. intros Hst. induction 1; eauto using effect_ok, effect_quota. Qed.

(** ** Lifecycle *)

(** What stays of a session, and how its state may move. *)
Record evolved (s s' : SandboxSession) : Prop := {
  ev_id : sx_ID s' = sx_ID s;
  ev_workspace : sx_WorkspaceID s' = sx_WorkspaceID s;
  ev_runtime : sx_ProbeID s' = sx_ProbeID s ∧ sx_TemplateID s' = sx_TemplateID s ∧ sx_RuntimeClass s' = sx_RuntimeClass s ∧ sx_TTL s' = sx_TTL s;
  ev_created : sx_CreatedBy s' = sx_CreatedBy s ∧ sx_CreatedAt s' = sx_CreatedAt s;
  ev_state : rtc allowed (sx_State s) (sx_State s');
}.
Lemma evolved_refl s : evolved s s.
Proof. by constructor. Qed.
Lemma evolved_trans s1 s2 s3 : evolved s1 s2 → evolved s2 s3 → evolved s1 s3.
Proof.
  intros [? ? ? ? H1] [? ? ? ? H2]. constructor; [intuition congruence..|by etrans].
Qed.

Definition all_evolve (l l' : list SandboxSession) : Prop := ∀ s, s ∈ l → ∃ s', s' ∈ l' ∧ evolved s s'.
Lemma sessions_update_evolves p f l : (∀ s, p s = true → evolved s (f s)) → all_evolve l (update_where p f l).
Proof.
  intros Hf s Hs. exists (if p s then f s else s). split.
  - rewrite elem_of_update_where. destruct (p s) eqn:E; eauto.
  - destruct (p s) eqn:E; [by apply Hf|apply evolved_refl].
Qed.

Lemma effect_evolves t t' : sandbox_effect t t' → all_evolve (sessions t) (sessions t').
Proof.
  destruct 1 as [t s0 Hf Hs Hd|t sess now|t id from to now Ha| | | |]; cbn; try (intros s Hin; exists s; split; [done|apply evolved_refl]).
  - intros s Hin. exists s. split; [apply elem_of_app; by left|apply evolved_refl].
  - apply sessions_update_evolves. intros s _. by constructor.
  - apply sessions_update_evolves. intros s Hp. bools. constructor; try done. cbn. apply rtc_once. unfold allowed. congruence.
Qed.
Lemma tables_steps_evolve t t' : steps t t' → all_evolve (sessions t) (sessions t').
Proof.
  induction 1 as [t|t1 t2 t3 He _ IH]; intros s Hs; [exists s; split; [done|apply evolved_refl]|].
  destruct (effect_evolves _ _ He s Hs) as (s2 & Hs2 & E2). destruct (IH s2 Hs2) as (s3 & Hs3 & E3). exists s3. split; [done|by eapply evolved_trans].
Qed.

Lemma history_steps db tr db' : trace served db tr db' → steps (tables (rows db)) (tables (rows db')).
Proof. induction 1 as [db|s1 e s2 tr s3 Hs _ IH]; [constructor|]. etrans; [by eapply serve_steps|done]. Qed.

Lemma terminal_final a b : rtc allowed a b → a = StateFailed ∨ a = StateDestroyed → b = a.
Proof. intros [|x y z Ha _] Hx; [done|]. apply allowed_pairs in Ha. destruct Hx as [-> | ->]; set_solver. Qed.

Definition empty_box : DB Box := Build_DB {| tables := {| sessions := []; tasks := []; artifacts := []; chunks := [] |}; hub := NewStreamHub; emitted := [] |} 0.
Lemma empty_ok : tables_ok (tables (rows empty_box)).
Proof. by constructor; try constructor. Qed.

(** A history in which uploads may overlap. *)
Definition served_among (db : DB Box) (e : (Tables → Tables) * request * sandbox_reply) (db' : DB Box) : Prop :=
  serve_among e.1.1 e.1.2 db = (inr e.2, db').
Lemma among_history db tr db' :
  trace served_among db tr db' → Forall (λ e, neighbours e.1.1) tr → steps (tables (rows db)) (tables (rows db')).
Proof.
  induction 1 as [db|s1 e s2 tr s3 Hs _ IH]; intros Hn; [constructor|]. apply Forall_cons in Hn as [He Hn].
  etrans; [by eapply among_steps|by apply IH].
Qed.
End steps.

(** C25. Whatever requests are served, with whatever failures of the database in
    between, and with other requests writing between the quota check and the
    INSERT of an upload: ids stay unique; a session is in one of the six states
    and has a destruction time exactly when it is destroyed; a task, an artifact
    and an output chunk belong to a session that exists, tasks and artifacts to
    the workspace of that session; a task has a completion time exactly when it is
    finished and a timeout of at most an hour; an artifact is recorded with the
    size and the SHA-256 of its content and is at most 5 MB.  When uploads do not
    overlap, the artifacts of a sandbox are together at most 50 MB; when they do,
    they can be more ([quota_overrun]). *)
Theorem sandbox_tables_invariant `{Host} tr db :
  trace served_among empty_box tr db → Forall (λ e, ∀ t, steps False t (e.1.1 t)) tr →
  tables_ok (tables (rows db)) ∧ (Forall (λ e, ∀ t, e.1.1 t = t) tr → within_quota (tables (rows db))).
Proof.
  intros Htr Hn. split.
  - eapply steps_ok, empty_ok. eapply among_history; [exact Htr|]. eapply Forall_impl; [exact Hn|]. by split.
  - intros Ha. assert (Hs : steps True (tables (rows empty_box)) (tables (rows db))).
    { eapply among_history; [exact Htr|]. eapply Forall_impl; [exact Ha|]. cbn. intros e He. split; [|done]. intros t. rewrite He. constructor. }
    exact (steps_quota _ _ _ I Hs empty_ok (λ _, ltac:(done))).
Qed.

Section lifecycle.
Context `{Host}.

(** A session is never lost or handed to another workspace: whatever is
    served after, it is there with its identity, owner and runtime, its state has
    moved along allowed transitions only, and once failed or destroyed it stays
    so. *)
Theorem sandbox_lifecycle db tr db' s :
  trace served db tr db' → s ∈ sessions (tables (rows db)) →
  ∃ s', s' ∈ sessions (tables (rows db')) ∧ evolved s s' ∧ (IsTerminal s = true → sx_State s' = sx_State s).
Proof.
  intros Htr%(history_steps True) Hs. destruct (tables_steps_evolve _ _ _ Htr s Hs) as (s' & Hs' & He). exists s'. split_and!; [done..|].
  unfold IsTerminal. intros Ht. apply terminal_final; [apply He|]. apply orb_true_iff in Ht as [?%String.eqb_eq|?%String.eqb_eq]; auto.
Qed.

(** ** Transitions *)

Lemma count_where_zero_update {A} (p : A → bool) (f : A → A) l : count_where p l = 0%nat → update_where p f l = l.
Proof.
  rewrite count_where_zero. intros Hp. unfold update_where. rewrite <- (map_id l) at 2. apply map_ext_in. intros x Hx%list_elem_of_In. by rewrite Hp.
Qed.

(** After an update of the rows with a key, the row found under it. *)
Lemma find_updated {A} (key : A → string) id (q : A → bool) (f : A → A) l x :
  NoDup (map key l) → (∀ y, key (f y) = key y) → x ∈ l → key x = id → q x = true →
  List.find (λ y, key y =s id) (update_where (λ y, (key y =s id) && q y) f l) = Some (f x).
Proof.
  intros Hnd Hf Hx <- Hq. rewrite <- (Hf x). apply (find_by_key key).
  - by rewrite map_update_where.
  - apply elem_of_update_where. left. exists x. by rewrite Hf, String.eqb_refl, Hq.
Qed.

Lemma count_positive {A} (p : A → bool) l : (Z.of_nat (count_where p l) =? 0) = false → ∃ x, x ∈ l ∧ p x = true.
Proof.
  intros Hn. bools. destruct (existsb p l) eqn:E; [by apply existsb_true_Exists|]. rewrite existsb_false_Forall, Forall_forall in E.
  rewrite (proj2 (count_where_zero p l) E) in Hn. done.
Qed.

(** What a transition answers and does. *)
Lemma transition_cases id from to db res d :
  Transition id from to db = (res, d) → tables_ok (rows db) →
  let moves now := sessions (rows d) = update_where (λ s, session_is id s && (sx_State s =s from)) (moved to now) (sessions (rows db)) in
  match res with
  | inr o => allowed from to ∧ ∃ s now, s ∈ sessions (rows db) ∧ sx_ID s = id ∧ sx_State s = from ∧ o = Some (moved to now s) ∧ moves now
  | inl _ => rows d = rows db ∨
      allowed from to ∧ ∃ s now, s ∈ sessions (rows db) ∧ sx_ID s = id ∧ sx_State s = from ∧ moves now
  end.
Proof.
  intros E Hok moves. unfold Transition in E. destruct (ValidateTransition from to) as [e|] eqn:Hv; [injection E as <- <-; by left|].
  apply bind_cases in E as [(e & [=] & _)|(now & d1 & [= <- <-] & E)]. set (now := clock (ticks db)) in *.
  apply bind_cases in E as [(e & (r0 & Eu & Hr0)%wrap_cases & ->)|(n & d2 & (r0 & Eu & Hr0)%wrap_cases & E)];
    unfold update_sessions, exec in Eu; cbn [rows ticks tick] in Eu; (destruct (sql_fault _); [|]); injection Eu as <- <-; try done; [by left|].
  injection Hr0 as ->. destruct (Z.eqb_spec (Z.of_nat (count_where (λ s, session_is id s && (sx_State s =s from)) (sessions (rows db)))) 0) as [Hz|Hz].
  - assert (Hs : set_sessions (rows db) (update_where (λ s, session_is id s && (sx_State s =s from)) (moved to now) (sessions (rows db))) = rows db).
    { apply (Nat2Z.inj _ 0), count_where_zero_update with (f := moved to now) in Hz. rewrite Hz. by destruct (rows db). }
    apply bind_cases in E as [(e & Eg & ->)|(o & d3 & Eg & E)]; apply reads_session_get in Eg; cbn [rows] in Eg; rewrite Hs in Eg; [by left|].
    destruct o; injection E as <- <-; by left.
  - destruct (count_positive _ _ (proj2 (Z.eqb_neq _ _) Hz)) as (s & Hin & [Hid%String.eqb_eq Hst%String.eqb_eq]%andb_true_iff). unfold Get, query in E. cbn [rows ticks] in E.
    destruct (sql_fault _); injection E as <- <-; cbn [rows tick sessions set_sessions].
    + right. split; [done|]. by exists s, now.
    + split; [done|]. exists s, now. split_and!; try done. unfold session_is. rewrite (find_updated sx_ID id (λ s, sx_State s =s from) (moved to now) _ s); try done;
        [by apply ok_session_ids|by rewrite Hst, String.eqb_refl].
Qed.

(** A transition is an optimistic lock: it answers with the session exactly
    when the state machine allows the move and the session was in the state the
    caller expected, and then that session is moved, stamped, and nothing else is
    changed; when it answers an error the sessions are unchanged, but for the
    move itself when only the final read fails. *)
Theorem sandbox_transition_spec id from to db res d :
  Transition id from to db = (res, d) → tables_ok (rows db) →
  let moves now := sessions (rows d) = update_where (λ s, session_is id s && (sx_State s =s from)) (moved to now) (sessions (rows db)) in
  match res with
  | inr o => allowed from to ∧ ∃ s now, s ∈ sessions (rows db) ∧ sx_ID s = id ∧ sx_State s = from ∧ o = Some (moved to now s) ∧ moves now
  | inl _ => rows d = rows db ∨
      allowed from to ∧ ∃ s now, s ∈ sessions (rows db) ∧ sx_ID s = id ∧ sx_State s = from ∧ moves now
  end.
Proof. intros E Hok. exact (transition_cases _ _ _ _ _ _ E Hok). Qed.
End lifecycle.
