(* ===== verification/SandboxIsolation.v ===== *)
(** * Workspaces of the sandbox subsystem

    What a request with a [workspace_id] gets to see and to change. *)
From S2P Require Import Prelude GoStrings GoErrors GoTime GoSort GoSql GoCrypto Sandbox SandboxHub SandboxHandlers SandboxSafety.
Local Open Scope go_scope.
Local Open Scope Z_scope.

(** The workspace a request is limited to, the session it names, and whether it
    reads output by the id of a task. *)
Definition request_ws (r : request) : option string :=
  match r with
  | RCreate _ _ => None
  | RList ws _ _ | RGet _ ws | RDestroy _ ws | RTransition _ ws _ | RCreateTask _ ws _ | RListTasks _ ws | RGetTask _ _ ws | RCancelTask _ _ ws
  | RUpload _ ws _ | RListArtifacts _ ws _ | RGetArtifact _ _ ws | RDownload _ _ ws | RIngest _ _ ws _ | RGetOutput _ ws _ _ _
  | RReplay _ ws _ | RReplaySummary _ ws => Some ws
  end.
Definition request_session (r : request) : option string :=
  match r with
  | RCreate _ _ | RList _ _ _ => None
  | RGet id _ | RDestroy id _ | RTransition id _ _ | RCreateTask id _ _ | RListTasks id _ | RGetTask id _ _ | RCancelTask id _ _
  | RUpload id _ _ | RListArtifacts id _ _ | RGetArtifact id _ _ | RDownload id _ _ | RIngest _ id _ _ | RGetOutput id _ _ _ _
  | RReplay id _ _ | RReplaySummary id _ => Some id
  end.
Definition by_task (r : request) : bool := match r with RGetOutput _ _ task _ _ => TrimSpace task <>s "" | _ => false end.

(** Everything a reply shows is of a workspace that [ws] may see. *)
Definition chunk_within (t : Tables) (ws : string) (c : OutputChunk) : Prop := ∃ o, owned t (oc_SandboxID c) o ∧ visible ws o = true.
Definition event_within (t : Tables) (ws : string) (e : ReplayEvent) : Prop :=
  match re_Data e with
  | ChunkEvent c => chunk_within t ws c
  | TaskStateEvent id _ _ _ => ∃ k, k ∈ tasks t ∧ tk_ID k = id ∧ visible ws (tk_WorkspaceID k) = true
  | ArtifactEvent id _ _ _ _ => ∃ a, a ∈ artifacts t ∧ af_ID a = id ∧ visible ws (af_WorkspaceID a) = true
  end.
Definition reply_within (t : Tables) (ws : string) (r : sandbox_reply) : Prop :=
  match r with
  | SessionReply _ s => visible ws (sx_WorkspaceID s) = true
  | SessionsReply l => Forall (λ s, visible ws (sx_WorkspaceID s) = true) l
  | TaskReply _ k => visible ws (tk_WorkspaceID k) = true
  | TasksReply l => Forall (λ k, visible ws (tk_WorkspaceID k) = true) l
  | ArtifactReply _ a => visible ws (af_WorkspaceID a) = true
  | ArtifactsReply l => Forall (λ a, visible ws (af_WorkspaceID a) = true) l
  | ContentReply _ _ content => ∃ a, a ∈ artifacts t ∧ af_Content a = content ∧ visible ws (af_WorkspaceID a) = true
  | ChunksReply l => Forall (chunk_within t ws) l
  | TimelineReply tl => Forall (event_within t ws) (rl_Events tl)
  | Failed _ _ | NextSequenceReply _ | SummaryReply _ | Panicked => True
  end.

Section isolation.
Context `{Host} `{!HostLaws}.

(** Every endpoint below a session refuses at once or begins with the session. *)
Lemma named_shape r id ws :
  request_session r = Some id → request_ws r = Some ws →
  (∃ st code, ∀ db, serve r db = (inr (Failed st code), db)) ∨ ∃ k, ∀ db, serve r db = with_session id ws k db.
Proof.
  destruct r; cbn; intros [= <-] [= <-]; unfold HandleGet, HandleDestroy, HandleTransition, HandleCreateTask, HandleListTasks, HandleGetTask,
    HandleCancelTask, with_task, HandleUploadArtifact, HandleListArtifacts, HandleGetArtifact, HandleDownloadArtifact, with_artifact,
    HandleIngestOutput, HandleGetOutput, HandleReplay, HandleReplaySummary; try (right; eexists; intros db; reflexivity); cbv zeta.
  1: destruct (id0 =s ""); [left; eexists _, _; intros db; reflexivity|]; destruct body as [body|]; [|left; eexists _, _; intros db; reflexivity].
  all: destruct (_ || _); [left; eexists _, _; intros db; reflexivity|right; eexists; intros db; reflexivity].
Qed.

Lemma matches_visible ws o : matches ws o = true → visible ws o = true.
Proof. unfold matches, visible. destruct (ws =s ""); [done|]. cbn. intros ->. apply orb_true_r. Qed.

Lemma matches_ne a b : a ≠ ""%string → matches a b = true → b = a.
Proof. unfold matches. destruct (String.eqb_spec a ""); [done|]. intros _. cbn. apply String.eqb_eq. Qed.

(** Rows of a limited, ordered query. *)
Lemma limited_rows {A} n le (p : A → bool) (l : list A) x : x ∈ firstn n (order_by le (List.filter p l)) → x ∈ l ∧ p x = true.
Proof.
  intros (i & Hx%list_elem_of_lookup_2 & _)%elem_of_take. rewrite order_by_perm in Hx. apply list_elem_of_In, List.filter_In in Hx as [Hx Hp]. split; [by apply list_elem_of_In|done].
Qed.
Lemma ordered_rows {A} le (p : A → bool) (l : list A) x : x ∈ order_by le (List.filter p l) → x ∈ l ∧ p x = true.
Proof. rewrite order_by_perm. intros [Hx Hp]%list_elem_of_In%List.filter_In. split; [by apply list_elem_of_In|done]. Qed.

Lemma wrapped_query {A} e (g : Tables → result A) db r d :
  wrap_error e (query g) db = (r, d) → (∃ err, r = inl err) ∨ match g (rows db) with inr a => r = inr a | inl err => r = inl (e err) end.
Proof. intros (r0 & E & ->)%wrap_cases. unfold query in E. destruct (sql_fault _); injection E as <- <-; [left; by eexists|right; by destruct (g _)]. Qed.

(** What a task or an artifact handed out by the store is. *)
Lemma GetTaskForWorkspace_some id ws db k d :
  GetTaskForWorkspace id ws db = (inr (Some k), d) → rows d = rows db ∧ k ∈ tasks (rows db) ∧ tk_ID k = id ∧ visible ws (tk_WorkspaceID k) = true.
Proof.
  intros (o & d1 & [Hq Hd]%query_inr & E)%bind_inr. injection Hq as <-. destruct (List.find _ _) as [k0|] eqn:Ef; [|by injection E].
  apply find_some in Ef as [Hk%list_elem_of_In Hid%String.eqb_eq]. destruct (visible ws (tk_WorkspaceID k0)) eqn:Ev; apply ret_inr in E as [E ->]; simplify_eq. done.
Qed.
Lemma GetArtifact_some id ws db a d :
  GetArtifact id ws db = (inr (Some a), d) → rows d = rows db ∧ a ∈ artifacts (rows db) ∧ af_ID a = id ∧ visible ws (af_WorkspaceID a) = true.
Proof.
  intros [Hq Hd]%query_inr. injection Hq as Hq. destruct (List.find _ _) as [a0|] eqn:Ef; [|done].
  apply find_some in Ef as [Ha%list_elem_of_In Hid%String.eqb_eq]. destruct (visible ws (af_WorkspaceID a0)) eqn:Ev; [|done]. by injection Hq as <-.
Qed.

Lemma TransitionTask_owner id from to db k d :
  TransitionTask id from to db = (inr (Some k), d) → ∃ k0, k0 ∈ tasks (rows db) ∧ tk_ID k0 = id ∧ tk_WorkspaceID k = tk_WorkspaceID k0.
Proof.
  unfold TransitionTask. destruct (ValidateTaskTransition from to); [done|]. intros (now & d1 & [= <- <-] & E)%bind_inr.
  apply bind_inr in E as (n & d2 & Eu%wrap_inr%exec_inr & E). injection Eu as _ Hd2. destruct (n =? 0).
  { apply bind_inr in E as (o & d3 & _ & E). by destruct o. }
  apply query_inr in E as [Hq _]. injection Hq as [Hk%list_elem_of_In Hid%String.eqb_eq]%find_some. rewrite <- Hd2 in Hk. cbn in Hk.
  apply elem_of_update_where in Hk as [(k0 & Hk0 & Hp & ->)|[Hk _]]; [exists k0|exists k]; by bools.
Qed.

Lemma session_evolves db db' s s' :
  steps True (tables (rows db)) (tables (rows db')) → tables_ok (tables (rows db)) → s ∈ sessions (tables (rows db)) → s' ∈ sessions (tables (rows db')) → sx_ID s' = sx_ID s →
  sx_WorkspaceID s' = sx_WorkspaceID s.
Proof.
  intros Hst Hok Hs Hs' Hid. destruct (tables_steps_evolve _ _ _ Hst s Hs) as (s2 & Hs2 & He). pose proof (steps_ok _ _ _ Hst Hok) as Hok'.
  rewrite <- (ev_workspace _ _ He). f_equal. eapply key_inj; [by apply ok_session_ids|done|done|]. rewrite Hid. symmetry. apply He.
Qed.

Lemma emits_reply a b c e f (r : sandbox_reply) (db : DB Box) res db' :
  (emitAudit a b c ≫= λ _, emitEvent e f ≫= λ _, mret r) db = (inr res, db') → res = r ∧ tables (rows db') = tables (rows db).
Proof. by intros [= <- <-]. Qed.

Lemma persist_owner id u body db u' db' :
  persist_result id u body db = (inr u', db') →
  sx_WorkspaceID u' = sx_WorkspaceID u ∨ u' ∈ sessions (tables (rows db')) ∧ sx_ID u' = id.
Proof.
  unfold persist_result. destruct (_ || _); [|intros [= <- <-]; by left]. intros ([] & db1 & _ & E)%bind_inr.
  apply bind_inr in E as (r & db2 & Eg%attempt_inr & [-> ->]%ret_inr). apply on_tables_eq in Eg as (d & Eg & ->). cbn [rows with_tables tables].
  unfold Get, query in Eg. destruct (sql_fault _); injection Eg as <- <-; [by left|]. cbn [rows tick].
  destruct (List.find _ _) as [s|] eqn:Ef; [right; by apply find_id|by left].
Qed.

Lemma transition_within id ws from to db s reply db' (k : option SandboxSession → GoSql.M Box sandbox_reply) :
  tables_ok (tables (rows db)) → s ∈ sessions (tables (rows db)) → sx_ID s = id → visible ws (sx_WorkspaceID s) = true →
  (∀ u db1 reply db', steps True (tables (rows db)) (tables (rows db1)) → sx_WorkspaceID u = sx_WorkspaceID s →
     k (Some u) db1 = (inr reply, db') → reply_within (tables (rows db')) ws reply) →
  store_call (Transition id from to) conflict k db = (inr reply, db') → reply_within (tables (rows db')) ws reply.
Proof.
  intros Hok Hs Hid Hv Hk (r & d & Hd & E)%store_call_eq. pose proof (runs_Transition True _ _ _ _ _ _ Hd) as Hst. apply transition_cases in Hd; [|done].
  destruct r as [e|o]; [by destruct E as [[= ->] ->]|]. destruct Hd as (_ & s0 & now & Hs0 & Hid0 & _ & -> & _). eapply Hk; [| |exact E]; [done|].
  cbn. f_equal. eapply key_inj; [by apply (ok_session_ids _ Hok)|done|done|congruence].
Qed.

Lemma destroy_within id ws db reply db' :
  tables_ok (tables (rows db)) → HandleDestroy id ws db = (inr reply, db') → reply_within (tables (rows db')) ws reply.
Proof.
  intros Hok [[_ (st & code & [= ->])]|(s & n & [Hs Hid]%find_id & Hv & E)]%with_session_eq; [done|].
  destruct (IsTerminal s); [by injection E as <- <-|]. eapply transition_within in E; try done. cbn. intros u db1 r1 db2 _ Hu [-> _]%emits_reply. cbn. by rewrite Hu.
Qed.

Lemma transition_handler_within id ws body db reply db' :
  tables_ok (tables (rows db)) → HandleTransition id ws body db = (inr reply, db') → reply_within (tables (rows db')) ws reply.
Proof.
  unfold HandleTransition. intros Hok. destruct (id =s ""); [by intros [= <- <-]|]. destruct body as [body|]; [|by intros [= <- <-]]. cbv zeta.
  destruct (_ || _); [by intros [= <- <-]|]. intros [[_ (st & code & [= ->])]|(s & n & [Hs Hid]%find_id & Hv & E)]%with_session_eq; [done|].
  eapply transition_within in E; try done. intros u db1 r1 db2 Hst Hu Hb. apply bind_inr in Hb as (u' & db3 & Hp & [-> Ht]%emits_reply). cbn.
  pose proof (box_persist True _ _ _ _ _ _ Hp) as Hst2. apply persist_owner in Hp as [->|[Hin Hid']]; [by rewrite Hu|].
  rewrite (session_evolves (with_tables db (tables (rows db)) n) db3 s u'); try done; [by etrans|congruence].
Qed.

(** A store call that only reads, and what follows its answer. *)
Lemma read_within {A} (m : GoSql.M Tables A) on_error (k : A → sandbox_reply) t ws db reply db' :
  reads m → tables (rows db) = t → (∀ e, ∃ st code, on_error e = Failed st code) →
  (∀ a d, m (tables_db db) = (inr a, d) → reply_within t ws (k a)) →
  store_call m on_error (λ a, mret (k a)) db = (inr reply, db') → reply_within (tables (rows db')) ws reply.
Proof.
  intros Hm <- He Hk (r & d & Hd & E)%store_call_eq. pose proof (Hm _ _ _ Hd) as Hr. destruct r as [e|a].
  - destruct E as [[= ->] ->]. by destruct (He e) as (st & code & ->).
  - injection E as <- <-. cbn. rewrite Hr. by eapply Hk.
Qed.
Lemma internal_fails e : ∃ st code, internal_error e = Failed st code.
Proof. by eexists _, _. Qed.

Lemma create_task_within id ws body db reply db' :
  HandleCreateTask id ws body db = (inr reply, db') → reply_within (tables (rows db')) ws reply.
Proof.
  intros [[_ (st & code & [= ->])]|(s & n & _ & Hv & E)]%with_session_eq; [done|]. destruct (_ && _); [by injection E as <- <-|].
  destruct body as [body|]; [|by injection E as <- <-]. destruct (negb _); [by injection E as <- <-|].
  apply store_call_eq in E as (r & d & Hd & E). destruct r as [e|k]; [by destruct E as [[= ->] ->]|].
  apply bind_inr in E as (u & db1 & _ & [-> _]%emits_reply). cbn. unfold CreateTask in Hd. apply bind_inr in Hd as (tid & d1 & _ & Hd).
  apply bind_inr in Hd as (now & d2 & _ & Hd). apply bind_inr in Hd as (u2 & d3 & _ & [-> _]%ret_inr). done.
Qed.

(** The task of a path, with the session it belongs to. *)
Lemma with_task_eq id task ws k db res db' :
  with_task id task ws k db = (inr res, db') → tables_ok (tables (rows db)) →
  (∃ st code, res = Failed st code) ∨
  ∃ s t n, t ∈ tasks (tables (rows db)) ∧ tk_ID t = task ∧ visible ws (tk_WorkspaceID t) = true ∧
    k s t (with_tables db (tables (rows db)) n) = (inr res, db').
Proof.
  unfold with_task. intros Hw Hok. destruct (_ || _); [injection Hw as <- <-; left; by eauto|].
  apply with_session_eq in Hw as [[_ (st & code & [= ->])]|(s & n & [Hs Hid]%find_id & Hv & E)]; [left; by eauto|].
  apply store_call_eq in E as (r & d & Hd & E). destruct r as [e|o]; [destruct E as [[= ->] _]; left; by eauto|].
  destruct o as [t|]; [|injection E as <- <-; left; by eauto]. apply GetTaskForWorkspace_some in Hd as (Hr & Ht & Htid & _). cbn in Hr, Ht.
  destruct (String.eqb_spec (tk_SandboxID t) id) as [Hsid|]; [|injection E as <- <-; left; by eauto]. right. rewrite Hr in E. exists s, t, (ticks d). split_and!; try done.
  destruct (proj1 (Forall_forall _ _) (ok_tasks _ Hok) t Ht) as ((s0 & Hs0 & Hid0 & Hws0) & _). rewrite <- Hws0.
  replace s0 with s; [done|]. eapply key_inj; [by apply (ok_session_ids _ Hok)|done|done|congruence].
Qed.
Lemma with_artifact_eq id artifact ws k db res db' :
  with_artifact id artifact ws k db = (inr res, db') → tables_ok (tables (rows db)) →
  (∃ st code, res = Failed st code) ∨
  ∃ a n, a ∈ artifacts (tables (rows db)) ∧ af_ID a = artifact ∧ visible ws (af_WorkspaceID a) = true ∧
    k a (with_tables db (tables (rows db)) n) = (inr res, db').
Proof.
  unfold with_artifact. intros Hw Hok. destruct (_ || _); [injection Hw as <- <-; left; by eauto|].
  apply with_session_eq in Hw as [[_ (st & code & [= ->])]|(s & n & [Hs Hid]%find_id & Hv & E)]; [left; by eauto|].
  apply store_call_eq in E as (r & d & Hd & E). destruct r as [e|o]; [destruct E as [[= ->] _]; left; by eauto|].
  destruct o as [a|]; [|injection E as <- <-; left; by eauto]. apply GetArtifact_some in Hd as (Hr & Ha & Haid & _). cbn in Hr, Ha.
  destruct (String.eqb_spec (af_SandboxID a) id) as [Hsid|]; [|injection E as <- <-; left; by eauto]. right. rewrite Hr in E. exists a, (ticks d). split_and!; try done.
  destruct (proj1 (Forall_forall _ _) (ok_artifacts _ Hok) a Ha) as ((s0 & Hs0 & Hid0 & Hws0) & _). rewrite <- Hws0.
  replace s0 with s; [done|]. eapply key_inj; [by apply (ok_session_ids _ Hok)|done|done|congruence].
Qed.

Lemma cancel_within id task ws db reply db' :
  tables_ok (tables (rows db)) → HandleCancelTask id task ws db = (inr reply, db') → reply_within (tables (rows db')) ws reply.
Proof.
  intros Hok Hw. apply with_task_eq in Hw as [(st & code & ->)|(s & t & n & Ht & Htid & Hv & E)]; [done| |done].
  destruct (_ && _); [by injection E as <- <-|]. apply store_call_eq in E as (r & d & Hd & E). destruct r as [e|o]; [by destruct E as [[= ->] ->]|].
  apply emits_reply in E as [-> _]. destruct o as [k|]; [|done]. cbn. apply TransitionTask_owner in Hd as (k0 & Hk0 & Hid0 & ->). cbn in Hk0.
  replace k0 with t; [done|]. eapply key_inj; [by apply (ok_task_ids _ Hok)|done|done|congruence].
Qed.

Lemma upload_within id ws form db reply db' :
  HandleUploadArtifact alone id ws form db = (inr reply, db') → reply_within (tables (rows db')) ws reply.
Proof.
  intros [[_ (st & code & [= ->])]|(s & n & _ & Hv & E)]%with_session_eq; [done|]. destruct form as [form|]; [|by injection E as <- <-]. cbv zeta in E.
  revert E. generalize (if TrimSpace (uf_kind form) =s "" then ArtifactKindFile else TrimSpace (uf_kind form)). intros kind E.
  destruct (TrimSpace (uf_path form) =s ""); [by injection E as <- <-|]. destruct (negb _); [by injection E as <- <-|].
  destruct (uf_file form) as [[e|file]|]; [by injection E as <- <-| |by injection E as <- <-]. destruct (_ <? _); [by injection E as <- <-|].
  apply store_call_eq in E as (r & d & Hd & E). destruct r as [e|a]; [destruct E as [[= ->] ->]; by destruct (isQuotaError e)|].
  apply emits_reply in E as [-> _]. cbn. unfold CreateArtifact in Hd. apply bind_inr in Hd as (aid & d1 & _ & Hd).
  apply bind_inr in Hd as (now & d2 & _ & Hd). cbv zeta in Hd. destruct (_ <? _); [done|]. apply bind_inr in Hd as (cur & d3 & _ & Hd).
  destruct (_ <? _); [done|]. apply bind_inr in Hd as (u & d5 & _ & Hd). apply bind_inr in Hd as (u2 & d4 & _ & [-> _]%ret_inr). done.
Qed.

Lemma ingest_within skip id ws incoming db reply db' :
  HandleIngestOutput skip id ws incoming db = (inr reply, db') → reply_within (tables (rows db')) ws reply.
Proof.
  intros [[_ (st & code & [= ->])]|(s & n & _ & Hv & E)]%with_session_eq; [done|]. destruct (negb _); [by injection E as <- <-|].
  destruct incoming as [[|ic l]|]; [by injection E as <- <-| |by injection E as <- <-]. apply bind_inr in E as (cs & db1 & _ & E).
  apply store_call_eq in E as (r & d & _ & E). destruct r as [e|cs']; [by destruct E as [[= ->] ->]|]. by injection E as <- <-.
Qed.

Lemma with_session_id id ws k db res db' : with_session id ws k db = (inr res, db') → (∃ st code, res = Failed st code) ∨ id ≠ "".
Proof. unfold with_session. destruct (String.eqb_spec id "") as [->|]; [intros [= <- <-]; left; by eauto|by right]. Qed.

(** Rows under a session are of the workspace of that session. *)
Lemma task_of_session t s k : tables_ok t → s ∈ sessions t → k ∈ tasks t → tk_SandboxID k = sx_ID s → tk_WorkspaceID k = sx_WorkspaceID s.
Proof.
  intros Hok Hs Hk E. destruct (proj1 (Forall_forall _ _) (ok_tasks _ Hok) k Hk) as ((s0 & Hs0 & Hid0 & <-) & _).
  f_equal. eapply key_inj; [by apply (ok_session_ids _ Hok)|done|done|congruence].
Qed.
Lemma artifact_of_session t s a : tables_ok t → s ∈ sessions t → a ∈ artifacts t → af_SandboxID a = sx_ID s → af_WorkspaceID a = sx_WorkspaceID s.
Proof.
  intros Hok Hs Ha E. destruct (proj1 (Forall_forall _ _) (ok_artifacts _ Hok) a Ha) as ((s0 & Hs0 & Hid0 & <-) & _).
  f_equal. eapply key_inj; [by apply (ok_session_ids _ Hok)|done|done|congruence].
Qed.

Lemma list_tasks_within id ws db reply db' :
  tables_ok (tables (rows db)) → HandleListTasks id ws db = (inr reply, db') → reply_within (tables (rows db')) ws reply.
Proof.
  intros Hok Hw. destruct (with_session_id _ _ _ _ _ _ Hw) as [(st & code & ->)|Hne]; [done|].
  apply with_session_eq in Hw as [[_ (st & code & [= ->])]|(s & n & [Hs Hid]%find_id & Hv & E)]; [done|].
  eapply (read_within _ _ TasksReply _ ws); [apply reads_ListTasks|reflexivity|apply internal_fails| |exact E].
  intros l d Hl%wrap_inr. apply query_inr in Hl as [Hl _]. injection Hl as <-. cbn [reply_within]. apply Forall_forall. intros k [Hk Hp]%limited_rows. bools.
  cbn in *. rewrite (task_of_session _ s k Hok Hs Hk); [done|]. rewrite Hid. by apply matches_ne.
Qed.
Lemma list_artifacts_within id ws task db reply db' :
  tables_ok (tables (rows db)) → HandleListArtifacts id ws task db = (inr reply, db') → reply_within (tables (rows db')) ws reply.
Proof.
  intros Hok Hw. destruct (with_session_id _ _ _ _ _ _ Hw) as [(st & code & ->)|Hne]; [done|].
  apply with_session_eq in Hw as [[_ (st & code & [= ->])]|(s & n & [Hs Hid]%find_id & Hv & E)]; [done|].
  eapply (read_within _ _ ArtifactsReply _ ws); [apply reads_ListArtifacts|reflexivity|apply internal_fails| |exact E].
  intros l d Hl%wrap_inr. apply query_inr in Hl as [Hl _]. injection Hl as <-. cbn [reply_within]. apply Forall_map, Forall_forall. intros a [Ha Hp]%ordered_rows. bools.
  cbn in *. rewrite (artifact_of_session _ s a Hok Hs Ha); [done|]. rewrite Hid. by apply matches_ne.
Qed.

Lemma sandbox_chunks id since limit db cs d :
  ListChunksBySandbox id since limit db = (inr cs, d) → rows d = rows db ∧ ∀ c, c ∈ cs → c ∈ chunks (rows db) ∧ oc_SandboxID c = id.
Proof.
  intros Hl%wrap_inr. apply query_inr in Hl as [Hl Hr]. split; [done|]. injection Hl as <-. intros c [Hc Hp]%limited_rows. by bools.
Qed.
Lemma fetched_chunks fuel id since db cs d :
  fetch_chunks fuel id since db = (inr cs, d) → rows d = rows db ∧ ∀ c, c ∈ cs → c ∈ chunks (rows db) ∧ oc_SandboxID c = id.
Proof.
  revert since db cs d. induction fuel as [|fuel IH]; intros since db cs d; cbn [fetch_chunks]; [intros [= <- <-]; split; [done|by intros c ?%elem_of_nil]|].
  intros (batch & d1 & [Hr Hc]%sandbox_chunks & E)%bind_inr. destruct (_ <? _); [by apply ret_inr in E as [-> ->]|].
  apply bind_inr in E as (rest & d2 & [Hr2 Hc2]%IH & [-> ->]%ret_inr). rewrite Hr2, Hr. split; [done|]. rewrite Hr in Hc2.
  intros c [?|?]%elem_of_app; auto.
Qed.

Lemma get_output_within id ws task since limit db reply db' :
  TrimSpace task = "" → HandleGetOutput id ws task since limit db = (inr reply, db') → reply_within (tables (rows db')) ws reply.
Proof.
  intros Ht [[_ (st & code & [= ->])]|(s & n & [Hs Hid]%find_id & Hv & E)]%with_session_eq; [done|]. cbv zeta in E. rewrite Ht in E. cbn [negb String.eqb] in E.
  eapply (read_within _ _ ChunksReply _ ws); [apply (reads_chunks false task)|reflexivity|apply internal_fails| |exact E].
  intros l d [_ Hl]%sandbox_chunks. apply Forall_forall. intros c [_ Hc]%Hl. exists (sx_WorkspaceID s). split; [|done]. exists s. split_and!; [done|congruence|done].
Qed.

Lemma timeline_within id ws s db tl d :
  s ∈ sessions (rows db) → sx_ID s = id → visible ws (sx_WorkspaceID s) = true → BuildTimeline id ws db = (inr tl, d) → Forall (event_within (rows db) ws) (rl_Events tl).
Proof.
  intros Hs Hid Hv (fuel & d1 & [= <- <-] & E)%bind_inr. apply bind_inr in E as (cs & d2 & [Hr Hcs]%fetched_chunks & E).
  apply bind_inr in E as (ts & d3 & Hts%wrap_inr & E). apply query_inr in Hts as [Hts Hr3]. injection Hts as <-.
  apply bind_inr in E as (l & d4 & Hl%wrap_inr & [-> _]%ret_inr). apply query_inr in Hl as [Hl _]. injection Hl as <-. rewrite Hr3, Hr. cbn [rl_Events timeline].
  rewrite insertion_sort_perm, !Forall_app. split_and!.
  - apply Forall_map, Forall_forall. intros c [_ Hc]%Hcs. exists (sx_WorkspaceID s). split; [|done]. exists s. split_and!; [done|cbn; congruence|done].
  - apply Forall_forall. intros e He%list_elem_of_In. apply in_flat_map in He as (k & Hk%list_elem_of_In & He). apply limited_rows in Hk as [Hk Hp]. bools.
    unfold task_events in He. rewrite <- list_elem_of_In in He. assert (HP : ∃ k0, k0 ∈ tasks (rows db) ∧ tk_ID k0 = tk_ID k ∧ visible ws (tk_WorkspaceID k0) = true)
      by (exists k; eauto using matches_visible). destruct (tk_StartedAt k), (tk_CompletedAt k), (task_IsTerminal k); set_unfold in He; destruct_or! He; subst e; done.
  - apply Forall_map, Forall_map, Forall_forall. intros a [Ha Hp]%ordered_rows. bools. exists a. split_and!; [done|done|by apply matches_visible].
Qed.

(** C15. A request that carries a workspace id only sees that workspace: every
    session, task, artifact, chunk and replay event it is shown belongs to that
    workspace or to none, and a request that names a session of another workspace
    is refused and changes nothing.  Output asked for by the id of a task is the
    exception ([task_output_leaks]). *)
Theorem sandbox_isolation req ws db reply db' :
  tables_ok (tables (rows db)) → request_ws req = Some ws → by_task req = false → served db (req, reply) db' →
  reply_within (tables (rows db')) ws reply ∧
  ∀ id, request_session req = Some id →
    (∀ s, s ∈ sessions (tables (rows db)) → sx_ID s = id → visible ws (sx_WorkspaceID s) = false) →
    (∃ st code, reply = Failed st code) ∧ tables (rows db') = tables (rows db).
Proof.
  unfold served. cbn [fst snd]. intros Hok Hws Hby E. split.
  - destruct req; cbn in Hws; simplify_eq; cbn [serve] in E; eauto using destroy_within, transition_handler_within, create_task_within,
      list_tasks_within, cancel_within, upload_within, list_artifacts_within, ingest_within.
    + eapply (read_within _ _ SessionsReply _ ws); [apply reads_List|reflexivity|apply internal_fails| |exact E].
      intros l d Hl%wrap_inr. apply query_inr in Hl as [Hl _]. injection Hl as <-. apply Forall_forall. intros s [_ Hp]%limited_rows. bools. by apply matches_visible.
    + apply with_session_eq in E as [[_ (st & code & [= ->])]|(s & n & _ & Hv & E)]; [done|]. by injection E as <- <-.
    + apply with_task_eq in E as [(st & code & ->)|(s & t & n & Ht & Htid & Hv & E)]; [done| |done]. by injection E as <- <-.
    + apply with_artifact_eq in E as [(st & code & ->)|(a & n & Ha & Haid & Hv & E)]; [done| |done]. by injection E as <- <-.
    + apply with_artifact_eq in E as [(st & code & ->)|(a & n & Ha & Haid & Hv & E)]; [done| |done]. injection E as <- <-. by exists a.
    + cbn in Hby. bools. by eapply get_output_within.
    + apply with_session_eq in E as [[_ (st & code & [= ->])]|(s & n & [Hs Hid]%find_id & Hv & E)]; [done|]. cbv zeta in E.
      destruct (_ && _); [by injection E as <- <-|]. apply bind_inr in E as (u & db1 & [= <- <-] & E).
      eapply (read_within _ _ TimelineReply _ ws); [apply reads_BuildTimeline|reflexivity|apply internal_fails| |exact E].
      intros tl d Htl. by eapply (timeline_within id ws s) in Htl.
    + apply with_session_eq in E as [[_ (st & code & [= ->])]|(s & n & [Hs Hid]%find_id & Hv & E)]; [done|].
      by eapply (read_within _ _ (λ t, SummaryReply (Summary t)) _ ws); [apply reads_BuildTimeline|reflexivity|apply internal_fails| |exact E].
  - intros id Hid Hno. destruct (named_shape _ _ _ Hid Hws) as [(st & code & Hsh)|[k Hsh]]; rewrite Hsh in E; [injection E as <- <-; by eauto|].
    apply with_session_eq in E as [[Ht (st & code & [= ->])]|(s & n & [Hs Hsid]%find_id & Hv & _)]; [by eauto|]. by rewrite (Hno s Hs Hsid) in Hv.
Qed.
End isolation.
