(* ===== verification/SandboxReplay.v ===== *)
(** * Replays and artifacts of the sandbox subsystem

    What a replay timeline contains, that an artifact comes back as it was
    uploaded, and concrete runs of the endpoints. *)
From S2P Require Import Prelude GoStrings GoErrors GoTime GoSort GoSql GoCrypto Sandbox SandboxHub SandboxHandlers SandboxSafety SandboxIsolation.
From stdpp Require Import sorting.
Local Open Scope go_scope.
Local Open Scope Z_scope.

(** The chunks of a sandbox after a sequence number. *)
Definition pending (id : string) (since : Z) (t : Tables) : list OutputChunk :=
  List.filter (λ c, (oc_SandboxID c =s id) && (since <? oc_Sequence c)) (chunks t).
(** A sandbox numbers its chunks without repeats. *)
Definition distinct_sequences (id : string) (t : Tables) : Prop :=
  NoDup (map oc_Sequence (List.filter (λ c, oc_SandboxID c =s id) (chunks t))).

Definition seq_max (since : Z) (l : list OutputChunk) : Z := foldl (λ m c, Z.max m (oc_Sequence c)) since l.
Lemma seq_max_spec since l :
  since <= seq_max since l ∧ Forall (λ c, oc_Sequence c <= seq_max since l) l ∧
  (seq_max since l = since ∨ ∃ c, c ∈ l ∧ seq_max since l = oc_Sequence c).
Proof.
  revert since. induction l as [|c l IH]; intros since; [split_and!; [done|constructor|by left]|]. unfold seq_max in *. cbn [foldl].
  destruct (IH (Z.max since (oc_Sequence c))) as (Hge & Hall & Hin). split_and!; [lia|constructor; [lia|done]|].
  destruct Hin as [->|(c' & Hc' & ->)]; [destruct (Z.max_spec since (oc_Sequence c)) as [[_ ->]|[_ ->]]|]; [right; exists c; set_solver|by left|right; exists c'; set_solver].
Qed.

(** In a list sorted by sequence without repeats, what follows a prefix is what
    comes after its greatest sequence number. *)
Lemma after_prefix since pre post :
  StronglySorted (λ a b, by_sequence a b = true) (pre ++ post) → NoDup (map oc_Sequence (pre ++ post)) → pre ≠ [] →
  Forall (λ c, since < oc_Sequence c) pre → List.filter (λ c, seq_max since pre <? oc_Sequence c) (pre ++ post) = post.
Proof.
  intros Hs Hnd Hne Hpos. destruct (seq_max_spec since pre) as (_ & Hall & Hin). rewrite List.filter_app.
  assert (Hpre : List.filter (λ c, seq_max since pre <? oc_Sequence c) pre = []).
  { clear -Hall. revert Hall. generalize (seq_max since pre) as m. intros m. induction 1 as [|c l Hc _ IH]; [done|]. cbn. destruct (Z.ltb_spec m (oc_Sequence c)); [lia|done]. }
  rewrite Hpre. cbn [app]. assert (Hm : ∃ c, c ∈ pre ∧ seq_max since pre = oc_Sequence c).
  { destruct Hin as [E|]; [|done]. destruct pre as [|c pre]; [done|]. apply Forall_cons in Hall as [Hc _]. apply Forall_cons in Hpos as [Hp _]. lia. }
  destruct Hm as (c & Hc & ->). rewrite <- (List.filter_true post) at 2. apply filter_ext_in. intros b Hb%list_elem_of_In. apply Z.ltb_lt.
  assert (Hle : oc_Sequence c <= oc_Sequence b) by (apply Z.leb_le; exact (StronglySorted_app_1_elem_of _ pre post c b Hs Hc Hb)).
  rewrite map_app in Hnd. apply NoDup_app in Hnd as (_ & Hd & _). destruct (Z.eq_dec (oc_Sequence c) (oc_Sequence b)) as [E|]; [|lia].
  destruct (Hd (oc_Sequence c)); [by apply list_elem_of_fmap_2|]. rewrite E. by apply list_elem_of_fmap_2.
Qed.

Section replay.
Context `{Host} `{!HostLaws} (no_faults : ∀ n, sql_fault n = None).

Lemma run_chunks id since limit db :
  ListChunksBySandbox id since limit db = (inr (firstn (Z.to_nat (clampLimit limit)) (order_by by_sequence (pending id since (rows db)))), tick db).
Proof. unfold ListChunksBySandbox, wrap_error. by rewrite run_query. Qed.

Lemma distinct_pending id since t : distinct_sequences id t → NoDup (map oc_Sequence (pending id since t)).
Proof.
  unfold distinct_sequences, pending. induction (chunks t) as [|c l IH]; [done|]. cbn. destruct (oc_SandboxID c =s id); [|done]. cbn. rewrite NoDup_cons.
  intros [Hc Hl]. destruct (since <? oc_Sequence c); [|auto]. cbn. constructor; [|auto]. intros (x & Hx & Hin)%list_elem_of_fmap. apply Hc. rewrite Hx.
  apply list_elem_of_fmap_2. apply list_elem_of_In, List.filter_In in Hin as [Hin Hp]. bools. apply list_elem_of_In, List.filter_In. split; [done|by apply String.eqb_eq].
Qed.

Lemma pending_later id since m t : since <= m → pending id m t = List.filter (λ c, m <? oc_Sequence c) (pending id since t).
Proof.
  intros Hm. unfold pending. induction (chunks t) as [|c l IH]; [done|]. cbn. destruct (oc_SandboxID c =s id); cbn; [|done].
  destruct (Z.ltb_spec since (oc_Sequence c)); cbn; destruct (Z.ltb_spec m (oc_Sequence c)); cbn; rewrite ?IH; done || lia.
Qed.

(** The batches fetch every pending chunk once, within the fuel given. *)
Lemma fetch_complete fuel id since db :
  distinct_sequences id (rows db) → (length (pending id since (rows db)) < fuel)%nat →
  ∃ cs d, fetch_chunks fuel id since db = (inr cs, d) ∧ rows d = rows db ∧ cs ≡ₚ pending id since (rows db).
Proof.
  intros Hd. revert since db Hd. induction fuel as [|fuel IH]; intros since db Hd Hf; [lia|]. cbn [fetch_chunks].
  unfold mbind, M_bind. rewrite run_chunks. change (clampLimit batch_size) with batch_size. set (l := order_by by_sequence (pending id since (rows db))).
  assert (Hl : l ≡ₚ pending id since (rows db)) by apply order_by_perm.
  assert (Hsorted : StronglySorted (λ a b, by_sequence a b = true) l).
  { apply order_by_sorted; unfold by_sequence; [intros x y|intros x y z]; rewrite !Z.leb_le; lia. }
  pose proof (take_drop (Z.to_nat batch_size) l) as Htd. set (pre := take (Z.to_nat batch_size) l) in *. set (post := drop (Z.to_nat batch_size) l) in *.
  destruct (Z.ltb_spec (Z.of_nat (length pre)) batch_size) as [Hlt|Hge].
  - exists pre, (tick db). split_and!; [done|done|]. assert (Hpost : post = []).
    { apply nil_length_inv. unfold post, pre in *. rewrite length_take in Hlt. rewrite length_drop. lia. }
    by rewrite Hpost, app_nil_r in Htd; rewrite Htd.
  - fold (seq_max since pre). assert (Hne : pre ≠ []) by (intros E; rewrite E in Hge; done).
    assert (Hnd : NoDup (map oc_Sequence (pre ++ post))) by (rewrite Htd, Hl; by apply distinct_pending).
    assert (Hpos : Forall (λ c, since < oc_Sequence c) pre).
    { apply Forall_forall. intros c Hc. assert (Hin : c ∈ pending id since (rows db)) by (rewrite <- Hl, <- Htd; apply elem_of_app; by left).
      apply list_elem_of_In, List.filter_In in Hin as [_ Hp]. by bools. }
    rewrite <- Htd in Hsorted. pose proof (after_prefix since pre post Hsorted Hnd Hne Hpos) as Hafter.
    assert (Hrest : pending id (seq_max since pre) (rows db) ≡ₚ post).
    { rewrite (pending_later id since) by apply seq_max_spec. rewrite <- Hafter. apply filter_bool_perm. by rewrite Htd, Hl. }
    assert (Hlen : (length (pending id (seq_max since pre) (rows (tick db))) < fuel)%nat).
    { cbn. rewrite Hrest. apply (f_equal length) in Htd. rewrite length_app in Htd. pose proof (Permutation_length Hl). destruct pre; [done|]. cbn in Htd. lia. }
    destruct (IH (seq_max since pre) (tick db) Hd Hlen) as (cs & d & -> & Hr & Hcs). exists (pre ++ cs), d. split_and!; [done|done|].
    rewrite Hcs. cbn [rows tick]. by rewrite Hrest, Htd.
Qed.

Definition replay_tasks (id ws : string) (t : Tables) : list Task :=
  List.filter (λ k, matches id (tk_SandboxID k) && matches ws (tk_WorkspaceID k) && matches "" (tk_State k)) (tasks t).
Definition replay_artifacts (id ws : string) (t : Tables) : list Artifact :=
  List.filter (λ a, matches id (af_SandboxID a) && matches ws (af_WorkspaceID a) && matches "" (af_TaskID a)) (artifacts t).

Lemma events_sorted l : StronglySorted (λ a b, re_Timestamp a <= re_Timestamp b) (insertion_sort event_before l).
Proof.
  eapply StronglySorted_weaken; [|apply insertion_sort_sorted]; unfold event_before, Before.
  - intros a b. cbn. rewrite Z.ltb_ge. done.
  - intros x y z. rewrite !Z.ltb_ge. lia.
  - intros x y. rewrite Z.ltb_lt, Z.ltb_ge. lia.
Qed.
Lemma timeline_bounds id l :
  StronglySorted (λ a b, re_Timestamp a <= re_Timestamp b) l → Forall (λ e, rl_StartTime (timeline id l) <= re_Timestamp e <= rl_EndTime (timeline id l)) l.
Proof.
  intros Hs. apply Forall_forall. intros e He. split; cbn.
  - inversion Hs as [|x l' _ Hx]; subst; [by apply elem_of_nil in He|]. apply elem_of_cons in He as [->|He]; [done|]. by eapply Forall_forall in Hx.
  - destruct (last l) as [z|] eqn:Hz; [|apply last_None in Hz; subst; by apply elem_of_nil in He]. apply last_Some in Hz as [l' ->].
    apply elem_of_app in He as [He| ->%list_elem_of_singleton]; [|done]. apply (StronglySorted_app_1_elem_of _ l' [z] e z Hs He). set_solver.
Qed.

(** The replay of a sandbox is complete and in order: when its chunks carry
    distinct positive sequence numbers and it has at most 500 tasks, building its
    timeline terminates with every output chunk, every recorded change of a task
    and every artifact, each once, sorted by their timestamps, from the first to
    the last of which it extends. *)
Theorem replay_complete id ws db :
  distinct_sequences id (rows db) → Forall (λ c, oc_SandboxID c = id → 0 < oc_Sequence c) (chunks (rows db)) →
  (length (replay_tasks id ws (rows db)) <= 500)%nat →
  ∃ tl d, BuildTimeline id ws db = (inr tl, d) ∧ rows d = rows db ∧
    rl_Events tl ≡ₚ map chunk_event (List.filter (λ c, oc_SandboxID c =s id) (chunks (rows db))) ++
                    flat_map task_events (replay_tasks id ws (rows db)) ++ map artifact_event (replay_artifacts id ws (rows db)) ∧
    StronglySorted (λ a b, re_Timestamp a <= re_Timestamp b) (rl_Events tl) ∧
    rl_EventCount tl = Z.of_nat (length (rl_Events tl)) ∧ Forall (λ e, rl_StartTime tl <= re_Timestamp e <= rl_EndTime tl) (rl_Events tl).
Proof.
  intros Hd Hpos Hlen. destruct (fetch_complete (Datatypes.S (length (chunks (rows db)))) id 0 db Hd) as (cs & d & Hfetch & Hr & Hcs).
  { unfold pending. pose proof (List.filter_length_le (λ c, (oc_SandboxID c =s id) && (0 <? oc_Sequence c)) (chunks (rows db))). lia. }
  assert (Hall : pending id 0 (rows db) = List.filter (λ c, oc_SandboxID c =s id) (chunks (rows db))).
  { apply filter_ext_in. intros c Hc%list_elem_of_In. eapply Forall_forall in Hpos; [|exact Hc]. destruct (String.eqb_spec (oc_SandboxID c) id); [|done].
    cbn. apply Z.ltb_lt. auto. }
  unfold BuildTimeline, gets, mbind, M_bind. rewrite Hfetch. unfold ListTasks, ListArtifacts, wrap_error. rewrite !run_query by done. cbn [rows tick].
  do 2 eexists. split; [reflexivity|]. split; [done|].
  match goal with |- context [insertion_sort event_before ?l] => set (events := l) end.
  pose proof (events_sorted events) as Hs. split_and!; [|exact Hs|done|by apply timeline_bounds].
  cbn [rl_Events timeline]. rewrite insertion_sort_perm. unfold events. rewrite Hr, Hcs, Hall. apply Permutation_app_head, Permutation_app.
  - apply Permutation_flat_map. rewrite take_ge; [apply order_by_perm|]. by rewrite order_by_perm.
  - rewrite map_map. apply (Permutation_map artifact_event), order_by_perm.
Qed.

(** Sequence numbers are per task, and the batches of a replay continue after
    the last number they saw: of 1001 tasks of a sandbox that each sent their first
    chunk, the replay loses the chunk of one. *)
Theorem replay_loses_output id n db fuel :
  0 < n → Forall (λ c, oc_SandboxID c = id ∧ oc_Sequence c = n) (chunks (rows db)) → length (chunks (rows db)) = 1001%nat → (2 <= fuel)%nat →
  ∃ cs d, fetch_chunks fuel id 0 db = (inr cs, d) ∧ length cs = 1000%nat.
Proof.
  intros Hn Hall Hlen Hfuel. assert (Hp : ∀ since, pending id since (rows db) = if since <? n then chunks (rows db) else []).
  { intros since. transitivity (List.filter (λ _, since <? n) (chunks (rows db))).
    - apply filter_ext_in. intros c Hc%list_elem_of_In. destruct (proj1 (Forall_forall _ _) Hall c Hc) as [-> ->]. by rewrite String.eqb_refl.
    - destruct (since <? n); [apply List.filter_true|apply List.filter_false]. }
  destruct fuel as [|[|fuel]]; [lia|lia|]. cbn [fetch_chunks]. unfold mbind, M_bind. rewrite run_chunks. change (clampLimit batch_size) with batch_size.
  set (batch := firstn (Z.to_nat batch_size) (order_by by_sequence (pending id 0 (rows db)))).
  assert (Hb : length batch = 1000%nat).
  { unfold batch. rewrite length_take, order_by_perm, Hp. destruct (Z.ltb_spec 0 n); [|lia]. rewrite Hlen. reflexivity. }
  assert (Hmax : foldl (λ m c, Z.max m (oc_Sequence c)) 0 batch = n).
  { destruct (seq_max_spec 0 batch) as (_ & Hge & Hin). fold (seq_max 0 batch). assert (Hseq : ∀ c, c ∈ batch → oc_Sequence c = n).
    { intros c (i & Hc%list_elem_of_lookup_2 & _)%elem_of_take. rewrite order_by_perm, Hp in Hc. case_match; [|by apply elem_of_nil in Hc].
      by destruct (proj1 (Forall_forall _ _) Hall c Hc). }
    destruct Hin as [E|(c & Hc & ->)]; [|auto]. destruct batch as [|c l]; [done|]. apply Forall_cons in Hge as [Hc _]. rewrite (Hseq c) in Hc by set_solver. lia. }
  rewrite Hb. change (Z.of_nat 1000 <? batch_size) with false. cbn match. cbn [fetch_chunks]. unfold mbind, M_bind. rewrite run_chunks, Hmax. cbn [rows tick]. rewrite Hp, Z.ltb_irrefl.
  assert (Hnil : order_by by_sequence (@nil OutputChunk) = []) by (apply Permutation_nil; symmetry; apply order_by_perm). rewrite Hnil.
  do 2 eexists. split; [by rewrite take_nil|]. by rewrite length_app, Hb.
Qed.

(** ** Artifacts *)

Lemma take_all n s : (String.length (take_str (Datatypes.S n) s) <= n)%nat → take_str (Datatypes.S n) s = s.
Proof.
  revert s. induction n as [|n IH]; intros [|c s] Hl; [done|simpl in Hl; lia|done|].
  change (take_str (Datatypes.S (Datatypes.S n)) (String c s)) with (String c (take_str (Datatypes.S n) s)) in *.
  f_equal. apply IH. cbn [String.length] in Hl. lia.
Qed.
Lemma read_limited_all s : Z.of_nat (String.length (read_limited s)) <= MaxArtifactSizeBytes → read_limited s = s.
Proof.
  unfold read_limited. assert (0 <= MaxArtifactSizeBytes) by done. generalize dependent MaxArtifactSizeBytes. intros m Hm Hl.
  rewrite Z2Nat.inj_add in * by lia. change (Z.to_nat 1) with 1%nat in *. rewrite Nat.add_1_r in *. apply take_all. lia.
Qed.

Lemma run_with_session id ws k db s :
  id ≠ ""%string → List.find (session_is id) (sessions (tables (rows db))) = Some s → visible ws (sx_WorkspaceID s) = true →
  with_session id ws k db = k s (with_tables db (tables (rows db)) (Datatypes.S (ticks db))).
Proof.
  intros Hid Hf Hv. unfold with_session. destruct (String.eqb_spec id ""); [done|]. unfold store_call, attempt, on_tables, GetForWorkspace, Get, mbind, M_bind.
  rewrite run_query by done. cbn [rows]. rewrite Hf. cbn [rows tick ticks]. by rewrite Hv.
Qed.

(** What is uploaded comes back: an artifact that was accepted is recorded
    with the size and the SHA-256 of the file, and downloading it under the same
    sandbox and workspace answers exactly the bytes of the file. *)
Theorem artifact_roundtrip id ws form file db st a db1 :
  (∀ n, new_uuid n ≠ ""%string) → tables_ok (tables (rows db)) → uf_file form = Some (inr file) →
  HandleUploadArtifact alone id ws (Some form) db = (inr (ArtifactReply st a), db1) →
  af_Size a = Z.of_nat (String.length file) ∧ af_SHA256 a = hex_EncodeToString (sha256 file) ∧
  ∃ mime name db2, HandleDownloadArtifact id (af_ID a) ws db1 = (inr (ContentReply mime name file), db2).
Proof.
  intros Huuid Hok Hfile Hup. destruct (with_session_id _ _ _ _ _ _ Hup) as [(? & ? & [=])|Hne].
  apply with_session_eq in Hup as [[_ (? & ? & [=])]|(s & n & Hf & Hv & E)]. cbv zeta in E.
  revert E. generalize (if TrimSpace (uf_kind form) =s "" then ArtifactKindFile else TrimSpace (uf_kind form)). intros kind E.
  destruct (TrimSpace (uf_path form) =s ""); [done|]. destruct (negb _); [done|]. rewrite Hfile in E.
  destruct (Z.ltb_spec MaxArtifactSizeBytes (Z.of_nat (String.length (read_limited file)))) as [|Hle]; [done|]. rewrite read_limited_all in E by done.
  apply store_call_eq in E as (r & d & Hd & E). destruct r as [e|a0]; [destruct E as [[=] _]; by destruct (isQuotaError e)|].
  apply emits_reply in E as [[= -> ->] Ht1]. cbn [rows with_tables tables] in Ht1.
  apply bind_inr in Hd as (aid & d1 & Haid & Hd). cbn [new_artifact af_ID String.eqb] in Haid. injection Haid as <- <-.
  apply bind_inr in Hd as (now & d2 & [= <- <-] & Hd). cbv zeta in Hd. destruct (_ <? _); [done|]. apply bind_inr in Hd as (cur & d3 & Hq%wrap_inr & Hd).
  apply query_inr in Hq as [_ Hr3]. destruct (_ <? _); [done|]. apply bind_inr in Hd as ([] & d5 & [= <-] & Hd).
  apply bind_inr in Hd as (u & d4 & Hi%wrap_inr%exec_inr & [-> ->]%ret_inr). cbn [rows] in Hi. unfold alone in Hi.
  rewrite Hr3 in Hi. cbn [rows tick tables_db with_tables tables] in Hi. destruct (insert_row _ _ _ _) as [ri l] eqn:Ei. injection Hi as -> Hd4.
  apply insert_row_ok in Ei as [Hfresh ->]. set (row := stored_artifact _ _ _) in *. split_and!; [done|done|].
  rewrite <- Hd4 in Ht1. unfold HandleDownloadArtifact, with_artifact. destruct (String.eqb_spec id ""); [done|].
  destruct (String.eqb_spec (af_ID (without_content row)) "") as [Hbad|_]; [by destruct (Huuid _ Hbad)|]. cbn [orb].
  assert (Hf1 : List.find (session_is id) (sessions (tables (rows db1))) = Some s) by (by rewrite Ht1).
  rewrite (run_with_session id ws _ db1 s) by done. unfold store_call, attempt, on_tables, GetArtifact, mbind, M_bind.
  rewrite run_query by done. cbn [rows with_tables tables tick ticks]. rewrite Ht1. cbn [artifacts set_artifacts].
  assert (Hfind : List.find (artifact_is (af_ID (without_content row))) (artifacts (tables (rows db)) ++ [row]) = Some row).
  { apply (find_by_key af_ID _ row); [apply NoDup_fresh; [by apply ok_artifact_ids|done]|set_solver]. }
  rewrite Hfind. assert (Hvr : visible (sx_WorkspaceID s) (af_WorkspaceID row) = true) by (unfold visible; cbn; rewrite String.eqb_refl; apply orb_true_r).
  rewrite Hvr. cbn [af_SandboxID row stored_artifact new_artifact]. rewrite String.eqb_refl. do 3 eexists. reflexivity.
Qed.
End replay.

(** ** Concrete runs *)

Module SandboxExamples.
#[export] Existing Instances ExampleHost.host ExampleHost.host_laws.
Definition no_policy : HandlerPolicy := {| AllowedRuntimes := []; MaxConcurrent := 0; ProbeValidator := None |}.
Definition body_for (ws lane runtime : string) : create_body :=
  {| cb_WorkspaceID := ws; cb_ProbeID := "p-1"; cb_TemplateID := ""; cb_Lane := lane; cb_RuntimeClass := runtime; cb_CreatedBy := "alice";
     cb_TTLSeconds := 60; cb_Metadata := None |}.
Definition move_to (from to err task : string) : option transition_body :=
  Some {| tb_From := from; tb_To := to; tb_ErrorMessage := err; tb_TaskID := task |}.
Definition run (r : request) (db : DB Box) : DB Box := (serve r db).2.
Definition reply_to (r : request) (db : DB Box) : option sandbox_reply := match (serve r db).1 with inr reply => Some reply | inl _ => None end.
Definition ready (id : string) (db : DB Box) : DB Box :=
  run (RTransition id "" (move_to StateProvisioning StateReady "" "")) (run (RTransition id "" (move_to StateCreated StateProvisioning "" "")) db).

(** Two sessions, of workspaces [a] and [b], both ready. *)
Definition two_sessions : DB Box :=
  run (RCreate no_policy (Some (body_for "b" "wasm" ""))) (run (RCreate no_policy (Some (body_for "a" "" "runc"))) empty_box).
Definition id_at (n : nat) (db : DB Box) : string := match sessions (tables (rows db)) !! n with Some s => sx_ID s | None => ""%string end.
Definition id_a : string := Eval vm_compute in id_at 0 two_sessions.
Definition id_b : string := Eval vm_compute in id_at 1 two_sessions.
Definition task_req : option task_body :=
  Some {| kb_Kind := "command"; kb_Command := ["make"]; kb_RepoURL := ""; kb_RepoBranch := ""; kb_RepoCommand := []; kb_Image := ""; kb_TimeoutSecs := 0 |}.
Definition with_tasks : DB Box := run (RCreateTask id_b "b" task_req) (ready id_b (ready id_a two_sessions)).
Definition task_b : string := Eval vm_compute in match tasks (tables (rows with_tasks)) with k :: _ => tk_ID k | [] => ""%string end.
Definition secret : incoming_chunk := {| ic_TaskID := task_b; ic_Sequence := 1; ic_Stream := "stdout"; ic_Data := "secret of b"; ic_Timestamp := zero_time |}.

Definition requests : list request :=
  [RCreate no_policy (Some (body_for "a" "" "runc")); RCreate no_policy (Some (body_for "b" "wasm" ""));
   RTransition id_a "" (move_to StateCreated StateProvisioning "" ""); RTransition id_a "" (move_to StateProvisioning StateReady "" "");
   RTransition id_b "" (move_to StateCreated StateProvisioning "" ""); RTransition id_b "" (move_to StateProvisioning StateReady "" "");
   RCreateTask id_b "b" task_req; RIngest (λ _, false) id_b "b" (Some [secret])].
Fixpoint history (l : list request) (db : DB Box) : option (list (request * sandbox_reply) * DB Box) :=
  match l with
  | [] => Some ([], db)
  | r :: l =>
      match serve r db with
      | (inr reply, db') => match history l db' with Some (tr, db2) => Some ((r, reply) :: tr, db2) | None => None end
      | (inl _, _) => None
      end
  end.
Lemma history_trace l db tr db' : history l db = Some (tr, db') → trace served db tr db'.
Proof.
  revert db tr. induction l as [|r l IH]; intros db tr; cbn; [intros [= <- <-]; constructor|].
  destruct (serve r db) as [[e|reply] db1] eqn:E; [done|]. destruct (history l db1) as [[tr1 db2]|] eqn:Eh; [|done]. intros [= <- <-].
  econstructor; [exact E|by apply IH].
Qed.
Lemma alone_trace db tr db' : trace served db tr db' → trace served_among db (map (λ e, (alone, e.1, e.2)) tr) db'.
Proof. induction 1; cbn; econstructor; eauto. Qed.
Definition with_output : DB Box := match history requests empty_box with Some (_, db) => db | None => empty_box end.
Lemma output_history : ∃ tr, trace served empty_box tr with_output.
Proof.
  unfold with_output. destruct (history requests empty_box) as [[tr db]|] eqn:E; [|vm_compute in E; discriminate]. exists tr. by apply history_trace in E.
Qed.
Lemma output_ok : tables_ok (tables (rows with_output)).
Proof. destruct output_history as [tr Htr]. exact (steps_ok _ _ _ (history_steps True _ _ _ Htr) empty_ok). Qed.
End SandboxExamples.
Import SandboxExamples.

(** Output asked for by the id of a task is not checked against the session: a
    caller that is limited to workspace [a] reads the output of a task of
    workspace [b] through any session of its own. *)
Theorem task_output_leaks :
  ∃ c, reply_to (RGetOutput id_a "a" task_b 0 None) with_output = Some (ChunksReply [c]) ∧ oc_SandboxID c = id_b ∧ oc_Data c = "secret of b"%string ∧
    reply_to (RGet id_b "a") with_output = Some (Failed 404 "not_found").
Proof. eexists. vm_compute. split_and!; reflexivity. Qed.

(** The quota is checked before the row is inserted, without a lock: two uploads
    to a sandbox that overlap are both accepted although together they exceed it. *)
Theorem quota_overrun `{Host} a b db :
  let used t := sum_sizes (List.filter (λ x, (af_SandboxID x =s af_SandboxID a) && matches (af_WorkspaceID a) (af_WorkspaceID x)) (artifacts t)) in
  let size x := Z.of_nat (String.length (af_Content x)) in
  let between t := rows (CreateArtifact alone b {| rows := t; ticks := ticks db |}).2 in
  (∀ n, sql_fault n = None) → af_ID a ≠ ""%string → af_ID b ≠ ""%string → af_ID a ≠ af_ID b →
  af_ID a ∉ map af_ID (artifacts (rows db)) → af_ID b ∉ map af_ID (artifacts (rows db)) →
  af_SandboxID b = af_SandboxID a → af_WorkspaceID b = af_WorkspaceID a → size a <= MaxArtifactSizeBytes → size b <= MaxArtifactSizeBytes →
  used (rows db) + size a <= MaxSandboxArtifactBytes → used (rows db) + size b <= MaxSandboxArtifactBytes →
  MaxSandboxArtifactBytes < used (rows db) + size a + size b →
  ∃ created db', CreateArtifact between a db = (inr created, db') ∧ MaxSandboxArtifactBytes < used (rows db').
Proof.
  intros used size between Hn Ha Hb Hab Hfa Hfb Hs Hw Hla Hlb Hqa Hqb Hover.
  assert (Hfresh : ∀ x l, af_ID x ∉ map af_ID l → insert_row "sandbox_artifacts" af_ID x l = (inr tt, l ++ [x])).
  { intros x l Hx. unfold insert_row. rewrite (proj2 (existsb_false_Forall _ l)); [done|]. apply Forall_forall. intros y Hy.
    apply String.eqb_neq. intros E. apply Hx. rewrite <- E. by apply list_elem_of_fmap_2. }
  assert (Hbetween : between (rows db) = set_artifacts (rows db) (artifacts (rows db) ++ [stored_artifact b (af_ID b) (clock (ticks db))])).
  { unfold between, CreateArtifact. rewrite (proj2 (String.eqb_neq _ _) Hb). unfold mbind, M_bind, wrap_error, sandboxTotalSize. cbn.
    fold (size b). rewrite (proj2 (Z.ltb_ge _ _)) by done. rewrite run_query by done. cbn. rewrite Hs, Hw. fold (used (rows db)).
    rewrite (proj2 (Z.ltb_ge _ _)) by done. cbn. rewrite run_exec by done. cbn. unfold alone. by rewrite Hfresh. }
  unfold CreateArtifact. rewrite (proj2 (String.eqb_neq _ _) Ha). unfold mbind, M_bind, wrap_error, sandboxTotalSize. cbn -[between].
  fold (size a). rewrite (proj2 (Z.ltb_ge _ _)) by done. rewrite run_query by done. cbn -[between]. fold (used (rows db)).
  rewrite (proj2 (Z.ltb_ge _ _)) by done. cbn -[between]. rewrite run_exec by done. cbn -[between]. rewrite Hbetween. cbn. rewrite Hfresh.
  2:{ cbn. rewrite map_app, elem_of_app. cbn. intros [?|?%list_elem_of_singleton]; done. }
  eexists _, _. split; [done|]. cbn. unfold used. cbn. rewrite !List.filter_app, !sum_sizes_app. cbn. rewrite Hs, Hw, String.eqb_refl.
  unfold matches. rewrite String.eqb_refl, orb_true_r. cbn. fold (size a) (size b). unfold used, matches in Hover. lia.
Qed.

(** Reporting a failure without repeating the task id forgets the task of the
    session: both columns are written when one of them is given. *)
Theorem failure_report_forgets_task :
  let db := run (RTransition id_a "" (move_to StateReady StateRunning "" "task-9")) with_tasks in
  let db' := run (RTransition id_a "" (move_to StateRunning StateFailed "boom" "")) db in
  (sx_TaskID <$> head (sessions (tables (rows db)))) = Some "task-9"%string ∧ (sx_TaskID <$> head (sessions (tables (rows db')))) = Some ""%string.
Proof. vm_compute. auto. Qed.

(** A session that was never provisioned cannot be destroyed, although it is not
    terminal: the state machine has no such transition. *)
Example created_not_destroyed : reply_to (RDestroy id_a "a") two_sessions = Some (Failed 409 "transition_failed").
Proof. vm_compute. reflexivity. Qed.

(** The runtime class of the request wins over the one of the lane it names. *)
Example lane_keeps_runtime :
  let db := run (RCreate no_policy (Some (body_for "a" "wasm" "runc"))) empty_box in
  (λ s, (sx_RuntimeClass s, sx_Metadata s !! "lane"%string)) <$> sessions (tables (rows db)) = [("runc"%string, Some "wasm"%string)].
Proof. vm_compute. reflexivity. Qed.

(** The replay of a task that was cancelled in the queue says that it was
    running. *)
Example cancelled_queued_task_replayed :
  let db := run (RCancelTask id_b task_b "b") with_tasks in
  match reply_to (RReplay id_b "b" "1") db with
  | Some (TimelineReply tl) => map re_Data (rl_Events tl) =
      [TaskStateEvent task_b "command" "" TaskStateQueued; TaskStateEvent task_b "command" TaskStateRunning TaskStateCancelled]
  | _ => False
  end.
Proof. vm_compute. reflexivity. Qed.

(** ** The theorems at concrete inputs *)

Lemma sandbox_tables_invariant_witness : tables_ok (tables (rows with_output)) ∧ length (chunks (tables (rows with_output))) = 1%nat.
Proof.
  destruct output_history as [tr Htr]. split; [|vm_compute; reflexivity].
  refine (proj1 (sandbox_tables_invariant (map (λ e, (alone, e.1, e.2)) tr) with_output (alone_trace _ _ _ Htr) _)).
  apply Forall_forall. intros e (x & -> & _)%list_elem_of_fmap t. apply rtc_refl.
Defined.

Module SandboxWitnesses.
Definition after (l : list request) (db : DB Box) : DB Box := match history l db with Some (_, db') => db' | None => db end.
Lemma after_trace l db : history l db ≠ None → ∃ tr, trace served db tr (after l db).
Proof. unfold after. destruct (history l db) as [[tr db']|] eqn:E; [|done]. intros _. exists tr. by apply history_trace in E. Qed.
Definition early : DB Box := after (take 2 requests) empty_box.
Definition late : DB Box := after (drop 2 requests) early.
Definition first_session (db : DB Box) : SandboxSession :=
  match sessions (tables (rows db)) with s :: _ => s | [] => new_session (body_for "" "" "") end.
Lemma first_session_in db : sessions (tables (rows db)) ≠ [] → first_session db ∈ sessions (tables (rows db)).
Proof. unfold first_session. destruct (sessions _); [done|]. intros _. left. Qed.
Definition form : upload_form :=
  {| uf_path := "out/report.diff"; uf_kind := "diff"; uf_task_id := ""; uf_mime_type := ""; uf_file := Some (inr "+a"%string) |}.
Definition upload : result sandbox_reply * DB Box := serve (RUpload id_b "b" (Some form)) with_output.
End SandboxWitnesses.
Import SandboxWitnesses.

Lemma sandbox_lifecycle_witness :
  sx_State (first_session early) = StateCreated ∧
  ∃ s', s' ∈ sessions (tables (rows late)) ∧ evolved (first_session early) s' ∧ sx_State s' = StateReady.
Proof.
  split; [vm_compute; reflexivity|].
  destruct (after_trace (drop 2 requests) early ltac:(vm_compute; discriminate)) as [tr Htr].
  destruct (sandbox_lifecycle early tr late (first_session early) Htr (first_session_in early ltac:(vm_compute; discriminate))) as (s' & Hs' & He & _).
  exists s'. split_and!; [exact Hs'|exact He|]. destruct He as [Hid _ _ _ _]. vm_compute in Hid. revert Hid Hs'.
  set (l := sessions (tables (rows late))). vm_compute in l. subst l. rewrite !elem_of_cons, elem_of_nil. intros Hid [->|[->|[]]]; [reflexivity|discriminate Hid].
Defined.

Lemma sandbox_transition_spec_witness :
  let x := Transition id_b StateRunning StateFailed (tables_db with_output) in
  ∃ s now, x.1 = inr (Some (moved StateFailed now s)) ∧ sx_State s = StateRunning.
Proof.
  intros x. pose proof (sandbox_transition_spec id_b StateRunning StateFailed (tables_db with_output) x.1 x.2 (surjective_pairing _) output_ok) as Ht. cbv zeta in Ht.
  destruct x.1 as [e|o] eqn:Ex; [vm_compute in Ex; discriminate|]. destruct Ht as (_ & s & now & _ & _ & Hst & -> & _). exists s, now. split; [reflexivity|exact Hst].
Defined.

Lemma sandbox_isolation_witness :
  reply_to (RGet id_b "a") with_output = Some (Failed 404 "not_found") ∧ ∃ st code, (serve (RGet id_b "a") with_output).1 = inr (Failed st code).
Proof.
  split; [vm_compute; reflexivity|]. destruct (serve (RGet id_b "a") with_output).1 as [e|reply] eqn:Er; [vm_compute in Er; discriminate|].
  destruct (sandbox_isolation (RGet id_b "a") "a" with_output reply (serve (RGet id_b "a") with_output).2 output_ok eq_refl eq_refl) as [_ Hno].
  - unfold served. cbn [fst snd]. rewrite <- Er. apply surjective_pairing.
  - destruct (Hno id_b eq_refl) as [(st & code & ->) _]; [|exists st, code; reflexivity].
    intros s. set (l := sessions (tables (rows with_output))). vm_compute in l. subst l. rewrite !elem_of_cons, elem_of_nil.
    intros [->|[->|[]]] Hid; [discriminate Hid|reflexivity].
Defined.

Lemma replay_complete_witness :
  ∃ tl d, BuildTimeline id_b "b" (tables_db with_output) = (inr tl, d) ∧ rl_EventCount tl = 2.
Proof.
  destruct (replay_complete ExampleHost.host_answers id_b "b" (tables_db with_output)) as (tl & d & Hb & _ & _ & _ & _ & _).
  - vm_compute. constructor; [by intros ?%elem_of_nil|constructor].
  - set (l := chunks (rows (tables_db with_output))). vm_compute in l. subst l. constructor; [intros _; reflexivity|constructor].
  - vm_compute. lia.
  - exists tl, d. split; [exact Hb|]. vm_compute in Hb. injection Hb as <- _. reflexivity.
Defined.

Lemma artifact_roundtrip_witness :
  ∃ a mime name db2, upload.1 = inr (ArtifactReply 201 a) ∧ af_Size a = 2 ∧
    HandleDownloadArtifact id_b (af_ID a) "b" upload.2 = (inr (ContentReply mime name "+a"), db2).
Proof.
  destruct upload.1 as [e|[]] eqn:Eu; try (vm_compute in Eu; discriminate). rename a into art.
  destruct (artifact_roundtrip ExampleHost.host_answers id_b "b" form "+a" with_output status art upload.2) as (Hsz & _ & mime & name & db2 & Hd);
    [|exact output_ok|reflexivity|..].
  - intros n. discriminate.
  - change (upload = (inr (ArtifactReply status art), upload.2)). rewrite <- Eu. apply surjective_pairing.
  - exists art, mime, name, db2. split_and!; [|exact Hsz|exact Hd]. vm_compute in Eu. injection Eu as <- _. reflexivity.
Defined.
