(* ===== verification/AuthStores.v ===== *)
(** * Users, sessions, API keys and the middleware
    (src/internal/controlplane/auth/: keys.go, custom_roles.go, middleware.go,
    login.go, ratelimit.go; session/store.go, users/store.go, server/useradapter.go,
    and requirePermission of server/routes.go)

    The four SQLite tables are one state.  The permissions of keys and roles are
    kept as the text of their columns.  bcrypt and the random source are a class
    of their own, with the one law of bcrypt the code relies on.  The update of
    [last_used], which [Validate] leaves to a goroutine, is the call [touchKey]. *)
From S2P Require Import Prelude GoStrings GoErrors GoTime GoSort GoSql Auth.
Local Open Scope go_scope.
Local Open Scope Z_scope.

(** ** Tables *)

Record key_row := {
  kr_ID : string; kr_Name : string; kr_KeyHash : string; kr_KeyPrefix : string; kr_Permissions : string;
  kr_CreatedAt : time; kr_LastUsed : option time; kr_ExpiresAt : option time; kr_Enabled : bool;
}.
Record role_row := { rr_Name : string; rr_Permissions : string; rr_Description : string; rr_CreatedAt : time }.
Record CustomRole := { cr_Name : string; cr_Permissions : list Permission; cr_Description : string; cr_CreatedAt : time }.
Record User := {
  u_ID : string; u_Username : string; u_DisplayName : string; u_PasswordHash : string; u_Role : string; u_Enabled : bool;
  u_CreatedAt : time; u_LastLogin : option time;
}.
Record Session := { s_ID : string; s_UserID : string; s_CreatedAt : time; s_ExpiresAt : time; s_LastActive : time }.

Record AuthDB := { api_keys : list key_row; custom_roles : list role_row; users : list User; sessions : list Session }.
Notation A := (GoSql.M AuthDB) (only parsing).
Definition set_keys (t : AuthDB) l := {| api_keys := l; custom_roles := custom_roles t; users := users t; sessions := sessions t |}.
Definition set_roles (t : AuthDB) l := {| api_keys := api_keys t; custom_roles := l; users := users t; sessions := sessions t |}.
Definition set_users (t : AuthDB) l := {| api_keys := api_keys t; custom_roles := custom_roles t; users := l; sessions := sessions t |}.
Definition set_sessions (t : AuthDB) l := {| api_keys := api_keys t; custom_roles := custom_roles t; users := users t; sessions := l |}.

(** [bcrypt] and [crypto/rand]; the argument [n] stands for the randomness of
    the [n]-th call. *)
Class Secrets := {
  GenerateFromPassword : nat → string → result string;
  CompareHashAndPassword : string → string → bool;
  rand_Read : nat → result string;
}.
Class SecretsLaws `{Secrets} := {
  bcrypt_accepts n p h : GenerateFromPassword n p = inr h → CompareHashAndPassword h p = true;
  rand_length n raw : rand_Read n = inr raw → String.length raw = 32%nat;
}.

Section stores.
Context `{Host} `{Secrets}.

Definition external {B} (f : nat → result B) : A B := λ db, (f (ticks db), tick db).
Definition unique_failed (column : string) : go_error := ErrorString ("UNIQUE constraint failed: " +:+ column)%string.

(** ** API keys *)

Definition with_prefix (prefix : string) (k : key_row) : bool := kr_KeyPrefix k =s prefix.
Definition key_is (id : string) (k : key_row) : bool := kr_ID k =s id.

Definition scan_key (k : key_row) : APIKey :=
  {| k_ID := kr_ID k; k_Name := kr_Name k; k_KeyHash := kr_KeyHash k; k_KeyPrefix := kr_KeyPrefix k;
     k_Permissions := jsonToPermissions (kr_Permissions k); k_CreatedAt := kr_CreatedAt k; k_LastUsedAt := kr_LastUsed k;
     k_ExpiresAt := kr_ExpiresAt k; k_Enabled := kr_Enabled k |}.

Definition CreateKey (name : string) (permissions : list Permission) (expiresAt : option time) : A (APIKey * string) :=
  raw ← wrap_error (errorf_w "generate key") (external rand_Read);
  let plainKey := ("lgk_" +:+ hex_EncodeToString raw)%string in
  hash ← wrap_error (errorf_w "hash key") (external (λ n, GenerateFromPassword n plainKey));
  now ← time_now;
  id ← uuid_NewString;
  let row := {| kr_ID := id; kr_Name := name; kr_KeyHash := hash; kr_KeyPrefix := take_str 12 plainKey;
                kr_Permissions := permissionsToJSON permissions; kr_CreatedAt := now; kr_LastUsed := None; kr_ExpiresAt := expiresAt;
                kr_Enabled := true |} in
  _ ← wrap_error (errorf_w "store key") (exec (λ t,
        if existsb (key_is id) (api_keys t) then (inl (unique_failed "api_keys.id"), t)
        else (inr tt, set_keys t (api_keys t ++ [row]))));
  mret ({| k_ID := id; k_Name := name; k_KeyHash := hash; k_KeyPrefix := take_str 12 plainKey; k_Permissions := permissions;
           k_CreatedAt := now; k_LastUsedAt := None; k_ExpiresAt := expiresAt; k_Enabled := true |}, plainKey).

Definition used_at (now : time) (k : APIKey) : APIKey :=
  {| k_ID := k_ID k; k_Name := k_Name k; k_KeyHash := k_KeyHash k; k_KeyPrefix := k_KeyPrefix k; k_Permissions := k_Permissions k;
     k_CreatedAt := k_CreatedAt k; k_LastUsedAt := Some now; k_ExpiresAt := k_ExpiresAt k; k_Enabled := k_Enabled k |}.

Definition ValidateKey (plainKey : string) : A APIKey :=
  if (String.length plainKey <? 12)%nat then errorf "invalid key format"
  else
    key ← wrap_error (λ _, ErrorString "key not found")
      (query (λ t, match List.find (with_prefix (take_str 12 plainKey)) (api_keys t) with
                   | Some k => inr (scan_key k) | None => inl (Sentinel SqlErrNoRows) end));
    if negb (k_Enabled key) then errorf "key disabled"
    else
      expired ← match k_ExpiresAt key with Some t => (now ← time_now; mret (After now t)) | None => mret false end;
      if (expired : bool) then errorf "key expired"
      else if negb (CompareHashAndPassword (k_KeyHash key) plainKey) then errorf "invalid key"
      else now ← time_now; mret (used_at now key).

Definition touchKey (id : string) (now : time) : A unit :=
  ignore_error (exec (λ t, (inr tt, set_keys t (update_where (key_is id) (λ k,
    {| kr_ID := kr_ID k; kr_Name := kr_Name k; kr_KeyHash := kr_KeyHash k; kr_KeyPrefix := kr_KeyPrefix k; kr_Permissions := kr_Permissions k;
       kr_CreatedAt := kr_CreatedAt k; kr_LastUsed := Some now; kr_ExpiresAt := kr_ExpiresAt k; kr_Enabled := kr_Enabled k |}) (api_keys t))))).

Definition ListKeys : A (list APIKey) :=
  query (λ t, inr (map scan_key (order_by (λ a b, text_le (kr_CreatedAt b) (kr_CreatedAt a)) (api_keys t)))).

Definition disabled_key (k : key_row) : key_row :=
  {| kr_ID := kr_ID k; kr_Name := kr_Name k; kr_KeyHash := kr_KeyHash k; kr_KeyPrefix := kr_KeyPrefix k; kr_Permissions := kr_Permissions k;
     kr_CreatedAt := kr_CreatedAt k; kr_LastUsed := kr_LastUsed k; kr_ExpiresAt := kr_ExpiresAt k; kr_Enabled := false |}.
Definition key_not_found (id : string) : go_error := ErrorString ("key not found: " +:+ id)%string.

Definition RevokeKey (id : string) : A unit :=
  n ← exec (λ t, (inr (Z.of_nat (count_where (key_is id) (api_keys t))), set_keys t (update_where (key_is id) disabled_key (api_keys t))));
  if n =? 0 then fail (key_not_found id) else mret tt.
Definition DeleteKey (id : string) : A unit :=
  n ← exec (λ t, (inr (Z.of_nat (count_where (key_is id) (api_keys t))), set_keys t (List.filter (λ k, negb (key_is id k)) (api_keys t))));
  if n =? 0 then fail (key_not_found id) else mret tt.

(** ** Custom roles *)

Definition role_is (name : string) (r : role_row) : bool := rr_Name r =s name.
Definition scan_role (r : role_row) : CustomRole :=
  {| cr_Name := rr_Name r; cr_Permissions := decodePermissions (rr_Permissions r); cr_Description := rr_Description r; cr_CreatedAt := rr_CreatedAt r |}.

Definition CreateRole (name : string) (permissions : list Permission) (description : string) : A CustomRole :=
  let name := TrimSpace name in
  if name =s "" then errorf "role name required"
  else if IsBuiltInRole name then fail (Sentinel ErrBuiltInRole)
  else
    now ← time_now;
    let row := {| rr_Name := name; rr_Permissions := encodePermissions permissions; rr_Description := description; rr_CreatedAt := now |} in
    _ ← wrap_error (λ e, if Contains (Error e) "UNIQUE constraint" then Sentinel ErrCustomRoleExists else errorf_w "create custom role" e)
          (exec (λ t, if existsb (role_is name) (custom_roles t) then (inl (unique_failed "custom_roles.name"), t)
                      else (inr tt, set_roles t (custom_roles t ++ [row]))));
    mret {| cr_Name := name; cr_Permissions := permissions; cr_Description := description; cr_CreatedAt := now |}.

Definition no_rows_as (s : sentinel) (prefix : string) (e : go_error) : go_error :=
  if errors_Is e SqlErrNoRows then Sentinel s else errorf_w prefix e.

Definition GetRole (name : string) : A CustomRole :=
  wrap_error (no_rows_as ErrCustomRoleNotFound "get custom role")
    (query (λ t, match List.find (role_is name) (custom_roles t) with Some r => inr (scan_role r) | None => inl (Sentinel SqlErrNoRows) end)).

Definition ListRoles : A (list CustomRole) :=
  wrap_error (errorf_w "list custom roles")
    (query (λ t, inr (map scan_role (order_by (λ a b, String.leb (rr_Name a) (rr_Name b)) (custom_roles t))))).

Definition UpdateRole (name : string) (permissions : list Permission) (description : string) : A CustomRole :=
  let name := TrimSpace name in
  if IsBuiltInRole name then fail (Sentinel ErrBuiltInRole)
  else
    n ← wrap_error (errorf_w "update custom role") (exec (λ t,
          (inr (Z.of_nat (count_where (role_is name) (custom_roles t))),
           set_roles t (update_where (role_is name) (λ r, {| rr_Name := rr_Name r; rr_Permissions := encodePermissions permissions;
                                                             rr_Description := description; rr_CreatedAt := rr_CreatedAt r |}) (custom_roles t)))));
    if n =? 0 then fail (Sentinel ErrCustomRoleNotFound) else GetRole name.

Definition DeleteRole (name : string) : A unit :=
  if IsBuiltInRole name then fail (Sentinel ErrBuiltInRole)
  else
    n ← wrap_error (errorf_w "delete custom role") (exec (λ t,
          (inr (Z.of_nat (count_where (role_is name) (custom_roles t))), set_roles t (List.filter (λ r, negb (role_is name r)) (custom_roles t)))));
    if n =? 0 then fail (Sentinel ErrCustomRoleNotFound) else mret tt.

Definition GetPermissions (name : string) : A (option (list Permission)) :=
  r ← attempt (GetRole name);
  mret (match r with inl _ => None | inr cr => Some (cr_Permissions cr) end).

(** [roleResolver]; no lookup is registered with [RolePermissions]. *)
Definition PermissionsForRole (role : string) : A (list Permission) :=
  match RolePermissions None role with
  | [] => custom ← GetPermissions role; mret (default [] custom)
  | perms => mret perms
  end.

(** ** Users *)

Definition user_is (id : string) (u : User) : bool := u_ID u =s id.
Definition validRole (role : string) : bool := TrimSpace role <>s "".
Definition username_error (prefix : string) (e : go_error) : go_error :=
  if Contains (Error e) "UNIQUE constraint failed: users.username" then Sentinel ErrUsernameAlreadyUsed else errorf_w prefix e.

Definition CreateWithID (id username displayName password role : string) : A User :=
  if negb (validRole role) then fail (Sentinel ErrInvalidRole)
  else
    let username := TrimSpace username in
    if username =s "" then errorf "username required"
    else
      id ← (if id =s "" then uuid_NewString else mret id);
      hash ← wrap_error (errorf_w "hash password") (external (λ n, GenerateFromPassword n password));
      now ← time_now;
      let u := {| u_ID := id; u_Username := username; u_DisplayName := displayName; u_PasswordHash := hash; u_Role := role;
                  u_Enabled := true; u_CreatedAt := now; u_LastLogin := None |} in
      _ ← wrap_error (username_error "create user") (exec (λ t,
            if existsb (user_is id) (users t) then (inl (unique_failed "users.id"), t)
            else if existsb (λ x, u_Username x =s username) (users t) then (inl (unique_failed "users.username"), t)
            else (inr tt, set_users t (users t ++ [u]))));
      mret u.
Definition CreateUser (username displayName password role : string) : A User :=
  id ← uuid_NewString; CreateWithID id username displayName password role.

Definition query_user (p : User → bool) : A User :=
  wrap_error (no_rows_as ErrUserNotFound "scan user")
    (query (λ t, match List.find p (users t) with Some u => inr u | None => inl (Sentinel SqlErrNoRows) end)).
Definition GetUser (id : string) : A User := query_user (user_is id).
Definition GetByUsername (username : string) : A User := query_user (λ u, u_Username u =s username).
Definition ListUsers : A (list User) :=
  wrap_error (errorf_w "list users") (query (λ t, inr (order_by (λ a b, text_le (u_CreatedAt a) (u_CreatedAt b)) (users t)))).

Definition update_user (prefix : go_error → go_error) (id : string) (f : User → User) : A unit :=
  n ← wrap_error prefix (exec (λ t, (inr (Z.of_nat (count_where (user_is id) (users t))), set_users t (update_where (user_is id) f (users t)))));
  if n =? 0 then fail (Sentinel ErrUserNotFound) else mret tt.

Definition with_user (u : User) (username display hash role : string) (enabled : bool) (login : option time) : User :=
  {| u_ID := u_ID u; u_Username := username; u_DisplayName := display; u_PasswordHash := hash; u_Role := role; u_Enabled := enabled;
     u_CreatedAt := u_CreatedAt u; u_LastLogin := login |}.

Definition UpdatePassword (id newPassword : string) : A unit :=
  hash ← wrap_error (errorf_w "hash password") (external (λ n, GenerateFromPassword n newPassword));
  update_user (errorf_w "update password") id (λ u, with_user u (u_Username u) (u_DisplayName u) hash (u_Role u) (u_Enabled u) (u_LastLogin u)).
Definition UpdateUserRole (id role : string) : A unit :=
  let role := TrimSpace role in
  if role =s "" then fail (Sentinel ErrInvalidRole)
  else update_user (errorf_w "update role") id (λ u, with_user u (u_Username u) (u_DisplayName u) (u_PasswordHash u) role (u_Enabled u) (u_LastLogin u)).
(** The unique index makes the whole statement fail when the name is taken. *)
Definition UpdateProfile (id username displayName : string) : A unit :=
  let username := TrimSpace username in
  if username =s "" then errorf "username required"
  else
    n ← wrap_error (username_error "update profile") (exec (λ t,
          if existsb (user_is id) (users t) && existsb (λ x, (u_Username x =s username) && negb (user_is id x)) (users t)
          then (inl (unique_failed "users.username"), t)
          else (inr (Z.of_nat (count_where (user_is id) (users t))),
                set_users t (update_where (user_is id) (λ u, with_user u username displayName (u_PasswordHash u) (u_Role u) (u_Enabled u) (u_LastLogin u)) (users t)))));
    if n =? 0 then fail (Sentinel ErrUserNotFound) else mret tt.
Definition SetEnabled (id : string) (enabled : bool) : A unit :=
  update_user (errorf_w "set enabled") id (λ u, with_user u (u_Username u) (u_DisplayName u) (u_PasswordHash u) (u_Role u) enabled (u_LastLogin u)).
Definition DeleteUser (id : string) : A unit :=
  n ← wrap_error (errorf_w "delete user") (exec (λ t,
        (inr (Z.of_nat (count_where (user_is id) (users t))), set_users t (List.filter (λ u, negb (user_is id u)) (users t)))));
  if n =? 0 then fail (Sentinel ErrUserNotFound) else mret tt.

Definition Authenticate (username password : string) : A User :=
  u ← wrap_error (λ e, if errors_Is e ErrUserNotFound then Sentinel ErrInvalidCredentials else e) (GetByUsername username);
  if negb (u_Enabled u) then fail (Sentinel ErrUserDisabled)
  else if negb (CompareHashAndPassword (u_PasswordHash u) password) then fail (Sentinel ErrInvalidCredentials)
  else
    now ← time_now;
    let logged u := with_user u (u_Username u) (u_DisplayName u) (u_PasswordHash u) (u_Role u) (u_Enabled u) (Some now) in
    _ ← wrap_error (errorf_w "update last_login") (exec (λ t, (inr tt, set_users t (update_where (user_is (u_ID u)) logged (users t)))));
    mret (logged u).

(** ** Sessions *)

Definition DefaultSessionLifetime : duration := 24 * Hour.
Definition session_is (token : string) (s : Session) : bool := s_ID s =s token.
Definition active_at (now : time) (s : Session) : Session :=
  {| s_ID := s_ID s; s_UserID := s_UserID s; s_CreatedAt := s_CreatedAt s; s_ExpiresAt := s_ExpiresAt s; s_LastActive := now |}.

Definition CreateSession (lifetime : duration) (userID : string) : A Session :=
  raw ← wrap_error (errorf_w "generate session token") (external rand_Read);
  let token := hex_EncodeToString raw in
  now ← time_now;
  let sess := {| s_ID := token; s_UserID := userID; s_CreatedAt := now; s_ExpiresAt := now + lifetime; s_LastActive := now |} in
  _ ← wrap_error (errorf_w "create session") (exec (λ t,
        if existsb (session_is token) (sessions t) then (inl (unique_failed "sessions.id"), t)
        else (inr tt, set_sessions t (sessions t ++ [sess]))));
  mret sess.

Definition get_session (token : string) : A Session :=
  wrap_error (no_rows_as ErrSessionNotFound "get session")
    (query (λ t, match List.find (session_is token) (sessions t) with Some s => inr s | None => inl (Sentinel SqlErrNoRows) end)).

Definition delete_sessions (p : Session → bool) : A Z :=
  exec (λ t, (inr (Z.of_nat (count_where p (sessions t))), set_sessions t (List.filter (λ s, negb (p s)) (sessions t)))).

Definition ValidateSession (token : string) : A Session :=
  sess ← get_session token;
  now ← time_now;
  if After now (s_ExpiresAt sess) then (_ ← ignore_error (delete_sessions (session_is token)); fail (Sentinel ErrSessionExpired))
  else
    _ ← wrap_error (errorf_w "update last_active") (exec (λ t, (inr tt, set_sessions t (update_where (session_is token) (active_at now) (sessions t)))));
    mret (active_at now sess).
Definition DeleteSession (token : string) : A unit :=
  _ ← wrap_error (errorf_w "delete session") (delete_sessions (session_is token)); mret tt.
Definition DeleteByUser (userID : string) : A unit :=
  _ ← wrap_error (errorf_w "delete sessions by user") (delete_sessions (λ s, s_UserID s =s userID)); mret tt.
Definition Cleanup : A Z :=
  now ← time_now; wrap_error (errorf_w "cleanup sessions") (delete_sessions (λ s, text_le (s_ExpiresAt s) now)).

(** [sessionAdapter.Validate] *)
Record SessionInfo := { si_Token : string; si_UserID : string; si_Username : string; si_Role : string }.
Definition adapter_Validate (token : string) : A SessionInfo :=
  sess ← ValidateSession token;
  u ← wrap_error (errorf_w "lookup session user") (GetUser (s_UserID sess));
  if negb (u_Enabled u) then (_ ← ignore_error (DeleteSession token); errorf "user account disabled")
  else mret {| si_Token := s_ID sess; si_UserID := u_ID u; si_Username := u_Username u; si_Role := u_Role u |}.
End stores.
