(* ===== verification/AuthMiddleware.v ===== *)
(** * Authentication of requests
    (src/internal/controlplane/auth/middleware.go, login.go, ratelimit.go;
    requirePermission of server/routes.go and the chain of server/server.go)

    A request is its method, its path, its Authorization header and its session cookie. The
    middleware answers it or passes it on with a context; [guarded] is a handler
    registered with [withPermission] behind the middleware. *)
From S2P Require Import Prelude GoStrings GoErrors GoTime GoSort GoSql Auth AuthStores.
Local Open Scope go_scope.
Local Open Scope Z_scope.

Record http_request := { rq_Method : string; rq_Path : string; rq_Authorization : string; rq_Cookie : option string }.

(** What the middleware does with a request. *)
Inductive outcome := Next (ctx : Context) | Reply (r : http_reply).

Record AuthMiddleware := {
  mw_store : bool;                (* is there a key store *)
  mw_skipExact : list string;
  mw_skipPrefix : list string;
  mw_sessions : bool;             (* is there a session validator *)
  mw_resolver : bool;             (* is there a permission resolver *)
}.

Definition NewMiddleware (store : bool) (skipPaths : list string) : AuthMiddleware :=
  {| mw_store := store;
     mw_skipExact := List.filter (λ p, negb (HasSuffix p "*")) skipPaths;
     mw_skipPrefix := map (λ p, TrimSuffix p "*") (List.filter (λ p, HasSuffix p "*") skipPaths);
     mw_sessions := false; mw_resolver := false |}.
Definition SetSessionAuth (m : AuthMiddleware) (validator resolver : bool) : AuthMiddleware :=
  {| mw_store := mw_store m; mw_skipExact := mw_skipExact m; mw_skipPrefix := mw_skipPrefix m; mw_sessions := validator; mw_resolver := resolver |}.

(** The paths server.go leaves open. *)
Definition server_skip_paths : list string :=
  ["/healthz"; "/version"; "/api/v1/register"; "/api/v1/auth/permissions"; "/api/v1/openapi.yaml"; "/download/*"; "/artifacts/*"; "/install.sh";
   "/ws/probe"; "/login"; "/logout"; "/auth/oidc/login"; "/auth/oidc/callback"; "/static/*"; "/site/*"].

Definition shouldSkip (m : AuthMiddleware) (path : string) : bool :=
  (path =s "/login") || (path =s "/logout") || HasPrefix path "/static/" || existsb (String.eqb path) (mw_skipExact m) ||
  existsb (HasPrefix path) (mw_skipPrefix m).

Definition isWebLoginRedirectPath (path : string) : bool :=
  existsb (String.eqb path) ["/"; "/approvals"; "/audit"; "/alerts"; "/model-dock"; "/cloud-connectors"; "/network-devices"; "/discovery"; "/fleet/chat"] ||
  HasPrefix path "/probe/" || HasPrefix path "/chat/".

Section middleware.
Context `{Host} `{Secrets}.
Notation A := (GoSql.M AuthDB) (only parsing).

(** [None]: not handled, try the session. *)
Definition tryAPIKeyAuth (m : AuthMiddleware) (r : http_request) : A (option outcome) :=
  let header := rq_Authorization r in
  let answer status code := mret (Some (Reply (HTTPError status code))) in
  if header =s "" then mret None
  else if negb (HasPrefix header "Bearer ") then answer 401 "invalid authorization format"
  else
    let token := TrimSpace (TrimPrefix header "Bearer ") in
    if token =s "" then answer 401 "empty bearer token"
    else if negb (HasPrefix token "lgk_") then mret None
    else if negb (mw_store m) then answer 401 "invalid api key"
    else
      key ← attempt (ValidateKey token);
      match key with
      | inl e => if Contains (Error e) "expired" then answer 403 "api key expired" else answer 401 "invalid api key"
      | inr key => mret (Some (Next {| ctx_key := Some key; ctx_user := None |}))
      end.

Definition trySessionAuth (m : AuthMiddleware) (r : http_request) : A (option outcome) :=
  if negb (mw_sessions m) then mret None
  else match rq_Cookie r with
  | None => mret None
  | Some value =>
      if TrimSpace value =s "" then mret None
      else
        session ← attempt (adapter_Validate value);
        match session with
        | inl _ => mret None
        | inr session =>
            perms ← (if mw_resolver m then PermissionsForRole (si_Role session) else mret []);
            mret (Some (Next {| ctx_key := None;
              ctx_user := Some {| au_ID := si_UserID session; au_Username := si_Username session; au_Role := si_Role session;
                                  au_SessionID := si_Token session; au_WorkspaceID := ""; au_Permissions := perms |} |}))
        end
  end.

Definition Wrap (m : AuthMiddleware) (r : http_request) : A outcome :=
  if shouldSkip m (rq_Path r) then mret (Next background)
  else
    key ← tryAPIKeyAuth m r;
    match key with
    | Some o => mret o
    | None =>
        session ← trySessionAuth m r;
        match session with
        | Some o => mret o
        | None => if isWebLoginRedirectPath (rq_Path r) then mret (Reply RedirectToLogin) else mret (Reply (HTTPError 401 "authentication required"))
        end
    end.

(** What [recordAuthorizationDenied] puts in the audit log. *)
Record denial := { d_Actor : string; d_Method : string; d_Path : string; d_Permission : Permission; d_Reason : string }.
Definition actor_name (name id : string) : string := if name <>s "" then name else if id <>s "" then id else "anonymous".
Definition denied_actor (ctx : Context) : string :=
  match ctx_user ctx, ctx_key ctx with
  | Some user, _ => actor_name (au_Username user) (au_ID user)
  | None, Some key => actor_name (k_Name key) (k_ID key)
  | None, None => "anonymous"
  end.
Definition recordAuthorizationDenied (ctx : Context) (r : http_request) (perm : Permission) (reason : string) : denial :=
  {| d_Actor := denied_actor ctx; d_Method := rq_Method r; d_Path := rq_Path r; d_Permission := perm; d_Reason := reason |}.

(** [configured]: there is a key store or a session validator. *)
Definition requirePermission (configured : bool) (ctx : Context) (r : http_request) (perm : Permission) : http_reply * list denial :=
  if negb configured then (Serve, [])
  else if negb (IsAuthenticated ctx) then (HTTPError 401 "unauthorized", [recordAuthorizationDenied ctx r perm "authentication_required"])
  else if negb (HasPermissionFromContext ctx perm) then (HTTPError 403 "forbidden", [recordAuthorizationDenied ctx r perm "insufficient_permissions"])
  else (Serve, []).

(** The middleware that server.go builds, when there is a key store or a session
    validator, and a handler behind it that is registered with [withPermission]. *)
Definition server_middleware (keys sessions : bool) : AuthMiddleware :=
  SetSessionAuth (NewMiddleware keys server_skip_paths) sessions sessions.
Definition guarded (keys sessions : bool) (perm : Permission) (r : http_request) : A (http_reply * list denial) :=
  o ← (if keys || sessions then Wrap (server_middleware keys sessions) r else mret (Next background));
  mret (match o with Reply reply => (reply, []) | Next ctx => requirePermission (keys || sessions) ctx r perm end).

(** ** Logging in and out *)

(** The audit events of the login handler, with their actors. *)
Inductive login_event := EventLoginFailed (actor : string) | EventLoginSuccess (actor : string).

(** [HandleLoginWithAudit] (which [HandleLogin] calls without an auditor): the
    events it records, and the cookie it sets before it redirects to the
    dashboard or the status of the page it renders.  [form] is the submitted
    user name and password, [None] when the form does not parse. *)
Definition HandleLogin (available : bool) (lifetime : duration) (form : option (string * string)) : A (list login_event * (Z + string)) :=
  if negb available then mret ([], inl 503)
  else match form with
  | None => mret ([], inl 400)
  | Some (username, password) =>
      let username := TrimSpace username in
      if (username =s "") || (password =s "") then mret ([], inl 401)
      else
        user ← attempt (Authenticate username password);
        match user with
        | inl _ => mret ([EventLoginFailed username], inl 401)
        | inr user =>
            sess ← attempt (CreateSession lifetime (u_ID user));
            match sess with
            | inl _ => mret ([], inl 500)
            | inr sess => if TrimSpace (s_ID sess) =s "" then mret ([], inl 500) else mret ([EventLoginSuccess (u_ID user)], inr (s_ID sess))
            end
        end
  end.
Definition HandleLogout (cookie : option string) : A unit :=
  match cookie with
  | Some value => if value =s "" then mret tt else ignore_error (DeleteSession value)
  | None => mret tt
  end.
End middleware.

(** ** The rate limiter *)

Record window := { w_count : Z; w_resetAt : time }.
Record RateLimiter := { rl_windows : gmap string window; rl_limit : Z; rl_window : duration }.
Definition NewRateLimiter (limit : Z) (windowSize : duration) : RateLimiter := {| rl_windows := ∅; rl_limit := limit; rl_window := windowSize |}.
Definition set_window (rl : RateLimiter) (keyID : string) (w : window) : RateLimiter :=
  {| rl_windows := <[keyID := w]> (rl_windows rl); rl_limit := rl_limit rl; rl_window := rl_window rl |}.

Definition Allow (now : time) (rl : RateLimiter) (keyID : string) : bool * RateLimiter :=
  let fresh := (true, set_window rl keyID {| w_count := 1; w_resetAt := now + rl_window rl |}) in
  match rl_windows rl !! keyID with
  | None => fresh
  | Some w =>
      if After now (w_resetAt w) then fresh
      else if rl_limit rl <=? w_count w then (false, rl)
      else (true, set_window rl keyID {| w_count := w_count w + 1; w_resetAt := w_resetAt w |})
  end.
Definition Remaining (now : time) (rl : RateLimiter) (keyID : string) : Z :=
  match rl_windows rl !! keyID with
  | None => rl_limit rl
  | Some w => if After now (w_resetAt w) then rl_limit rl else Z.max 0 (rl_limit rl - w_count w)
  end.

(** ** What a served request proves *)

Section theorems.
Context `{Host} `{Secrets}.

(** An API key of the table that grants [perm] to the request at [now]. *)
Definition key_credential (t : AuthDB) (now : time) (r : http_request) (perm : Permission) : Prop :=
  ∃ row, row ∈ api_keys t ∧ HasPrefix (rq_Authorization r) "Bearer " = true ∧
    let token := TrimSpace (TrimPrefix (rq_Authorization r) "Bearer ") in
    HasPrefix token "lgk_" = true ∧ kr_KeyPrefix row = take_str 12 token ∧ CompareHashAndPassword (kr_KeyHash row) token = true ∧
    kr_Enabled row = true ∧ (∀ e, kr_ExpiresAt row = Some e → now <= e) ∧
    grants (jsonToPermissions (kr_Permissions row)) perm = true.

(** The permissions of a role, built in or stored. *)
Definition role_permissions (t : AuthDB) (role : string) : list Permission :=
  match RolePermissions None role with
  | [] => match List.find (role_is role) (custom_roles t) with Some r => decodePermissions (rr_Permissions r) | None => [] end
  | perms => perms
  end.

(** A live session of an enabled user whose role grants [perm]. *)
Definition session_credential (t : AuthDB) (now : time) (r : http_request) (perm : Permission) : Prop :=
  ∃ sess u, sess ∈ sessions t ∧ rq_Cookie r = Some (s_ID sess) ∧ now <= s_ExpiresAt sess ∧
    u ∈ users t ∧ u_ID u = s_UserID sess ∧ u_Enabled u = true ∧ grants (role_permissions t (u_Role u)) perm = true.

Lemma find_elem {B} (p : B → bool) l x : List.find p l = Some x → x ∈ l ∧ p x = true.
Proof. intros [Hin Hp]%find_some. by rewrite list_elem_of_In. Qed.

Lemma ValidateKey_inr token db key db' :
  ValidateKey token db = (inr key, db') →
  ∃ row, row ∈ api_keys (rows db) ∧ kr_ID row = k_ID key ∧ kr_KeyPrefix row = take_str 12 token ∧ CompareHashAndPassword (kr_KeyHash row) token = true ∧
    kr_Enabled row = true ∧ (∀ e, kr_ExpiresAt row = Some e → clock (S (ticks db)) <= e) ∧ k_Permissions key = jsonToPermissions (kr_Permissions row).
Proof.
  unfold ValidateKey. case_match; [done|]. intros E. apply bind_inr in E as (k & db1 & [Hq Ht]%wrap_inr%query_tick & E).
  destruct (List.find _ _) as [row|] eqn:Hf; [|done]. injection Hq as <-. apply find_elem in Hf as [Hin Hp%String.eqb_eq].
  destruct (k_Enabled (scan_key row)) eqn:Hen; [|done]. cbn [negb] in E.
  apply bind_inr in E as (expired & db2 & He & E). destruct expired; [done|].
  destruct (CompareHashAndPassword _ _) eqn:Hc; [|done]. cbn [negb] in E.
  apply bind_inr in E as (now & db3 & _ & [-> _]%ret_inr). exists row. split_and!; try done.
  intros e Hexp. cbn [k_ExpiresAt scan_key] in He. rewrite Hexp in He. apply bind_inr in He as (n & db4 & [= <- <-] & [Ha _]%ret_inr).
  rewrite Ht in Ha. unfold After in Ha. symmetry in Ha. by apply Z.ltb_ge in Ha.
Qed.

Lemma adapter_inr token db si db' :
  adapter_Validate token db = (inr si, db') →
  ∃ sess u, sess ∈ sessions (rows db) ∧ s_ID sess = token ∧ clock (S (ticks db)) <= s_ExpiresAt sess ∧ u ∈ users (rows db) ∧
    u_ID u = s_UserID sess ∧ u_Enabled u = true ∧ si_Role si = u_Role u ∧
    custom_roles (rows db') = custom_roles (rows db).
Proof.
  intros E. apply bind_inr in E as (s & db1 & Hs & E). apply bind_inr in E as (u & db2 & [Hq E2]%wrap_inr%wrap_inr%query_inr & E).
  unfold ValidateSession in Hs. apply bind_inr in Hs as (sess & db3 & [Hf ->]%wrap_inr%query_tick & Hs).
  destruct (List.find _ (sessions _)) as [x|] eqn:Hx; [|done]. injection Hf as ->. apply find_elem in Hx as [Hin Hid%String.eqb_eq].
  apply bind_inr in Hs as (now & db4 & [= <- <-] & Hs). destruct (After _ _) eqn:Ha.
  { by apply bind_inr in Hs as ([] & db5 & _ & ?). }
  apply bind_inr in Hs as ([] & db5 & [= E5]%wrap_inr%exec_inr & [-> ->]%ret_inr).
  cbn [tick rows] in E5. rewrite <- E5 in *. cbn [users set_sessions custom_roles] in *.
  destruct (List.find _ (users _)) as [u'|] eqn:Hu; [|done]. injection Hq as ->. apply find_elem in Hu as [Huin Hu%String.eqb_eq].
  destruct (u_Enabled u) eqn:Hen; [|by apply bind_inr in E as (? & ? & _ & ?)]. cbn [negb] in E. apply ret_inr in E as [-> ->].
  exists sess, u. rewrite E2. split_and!; try done. unfold After in Ha. by apply Z.ltb_ge in Ha.
Qed.

Lemma PermissionsForRole_inr role db perms db' perm :
  PermissionsForRole role db = (inr perms, db') → grants perms perm = true → grants (role_permissions (rows db) role) perm = true.
Proof.
  unfold PermissionsForRole, role_permissions. destruct (RolePermissions None role) as [|p ps]; [|by intros [-> _]%ret_inr].
  intros E. apply bind_inr in E as (custom & db1 & Hc & [-> _]%ret_inr). unfold GetPermissions in Hc.
  apply bind_inr in Hc as (r & db2 & Hr%attempt_inr & [-> _]%ret_inr). destruct r as [e|cr]; [done|].
  apply wrap_inr, query_inr in Hr as [Hq _]. destruct (List.find _ _) as [row|]; [|done]. by injection Hq as <-.
Qed.

Lemma Wrap_key_or_session m r db ctx db' :
  Wrap m r db = (inr (Next ctx), db') → IsAuthenticated ctx = true →
  (∃ db1, tryAPIKeyAuth m r db = (inr (Some (Next ctx)), db1)) ∨
  (∃ db1 db2, tryAPIKeyAuth m r db = (inr None, db1) ∧ trySessionAuth m r db1 = (inr (Some (Next ctx)), db2)).
Proof.
  unfold Wrap. case_match; [by intros [[= ->] _]%ret_inr|]. intros E _. apply bind_inr in E as ([o|] & db1 & Hk & E).
  - apply ret_inr in E as [-> _]. eauto.
  - apply bind_inr in E as ([o|] & db2 & Hs & E); [apply ret_inr in E as [-> _]; eauto|]. by case_match.
Qed.

Lemma tryAPIKeyAuth_key m r db ctx db' perm :
  tryAPIKeyAuth m r db = (inr (Some (Next ctx)), db') → HasPermissionFromContext ctx perm = true →
  key_credential (rows db) (clock (S (ticks db))) r perm.
Proof.
  unfold tryAPIKeyAuth. repeat (case_match; [done|]). intros E Hp. apply bind_inr in E as ([e|key] & db1 & Hk%attempt_inr & E); [by case_match|].
  apply ret_inr in E as [[= ->] _]. apply ValidateKey_inr in Hk as (row & ? & _ & ? & ? & ? & ? & Hperms). rewrite !negb_false_iff in *.
  exists row. split_and!; try done. by rewrite <- Hperms.
Qed.
Lemma tryAPIKeyAuth_none m r db db' : tryAPIKeyAuth m r db = (inr None, db') → db' = db.
Proof.
  unfold tryAPIKeyAuth. repeat (case_match; try by intros [_ ->]%ret_inr).
  intros E. apply bind_inr in E as ([e|key] & db1 & _ & E); [by case_match|done].
Qed.
Lemma tryAPIKeyAuth_reply m r db reply db' : tryAPIKeyAuth m r db = (inr (Some (Reply reply)), db') → reply ≠ Serve.
Proof.
  unfold tryAPIKeyAuth. repeat (case_match; try by intros [= <- _]). intros E.
  apply bind_inr in E as ([e|key] & db1 & _ & E); [|done]. by case_match; injection E as <- _.
Qed.
Lemma trySessionAuth_reply m r db reply db' : trySessionAuth m r db ≠ (inr (Some (Reply reply)), db').
Proof.
  unfold trySessionAuth. repeat (case_match; try done). all: intros E;
    apply bind_inr in E as ([e|si] & db1 & _ & E); [done|]; by apply bind_inr in E as (perms & db2 & _ & ?).
Qed.
Lemma Wrap_reply m r db reply db' : Wrap m r db = (inr (Reply reply), db') → reply ≠ Serve.
Proof.
  unfold Wrap. case_match; [done|]. intros E. apply bind_inr in E as ([o|] & db1 & Hk & E).
  - apply ret_inr in E as [<- _]. by eapply tryAPIKeyAuth_reply.
  - apply bind_inr in E as ([o|] & db2 & Hs & E); [|by case_match; injection E as <- _].
    apply ret_inr in E as [<- _]. by apply trySessionAuth_reply in Hs.
Qed.

Lemma trySessionAuth_user m r db ctx db' perm :
  mw_resolver m = mw_sessions m → trySessionAuth m r db = (inr (Some (Next ctx)), db') → HasPermissionFromContext ctx perm = true →
  session_credential (rows db) (clock (S (ticks db))) r perm.
Proof.
  intros Hm. unfold trySessionAuth. rewrite Hm. destruct (mw_sessions m); [|done]. cbn [negb]. destruct (rq_Cookie r) as [value|] eqn:Hc; [|done].
  case_match; [done|]. intros E Hp. apply bind_inr in E as ([e|si] & db1 & Hs%attempt_inr & E); [done|].
  apply bind_inr in E as (perms & db2 & Hr & [[= ->] _]%ret_inr). apply adapter_inr in Hs as (sess & u & ? & <- & ? & ? & ? & ? & Hrole & Hroles).
  cbn in Hp. exists sess, u. split_and!; try done. apply (PermissionsForRole_inr _ _ _ _ perm) in Hr; [|done].
  rewrite Hrole in Hr. unfold role_permissions in *. by rewrite Hroles in Hr.
Qed.

(** C6. Whatever the database and the clock do, a handler that is registered
    with a permission is only reached by a request that carries a key of the
    table which is enabled, not expired, whose hash accepts the presented text
    and whose permissions grant the one required, or the cookie of a session
    that is not expired and belongs to an enabled user whose role grants it
    (when the server is configured with keys or sessions; otherwise it serves
    everyone). *)
Theorem guarded_serves keys sessions perm r db log db' :
  keys || sessions = true → guarded keys sessions perm r db = (inr (Serve, log), db') →
  let now := clock (S (ticks db)) in
  key_credential (rows db) now r perm ∨ session_credential (rows db) now r perm.
Proof.
  unfold guarded. intros -> E. apply bind_inr in E as ([ctx|reply] & db1 & Hw & [Hserve _]%ret_inr).
  2:{ apply Wrap_reply in Hw. congruence. }
  unfold requirePermission in Hserve. cbn [negb] in Hserve. destruct (IsAuthenticated ctx) eqn:Ha; [|done]. destruct (HasPermissionFromContext ctx perm) eqn:Hp; [|done].
  apply Wrap_key_or_session in Hw as [(db2 & Hk)|(db2 & db3 & ->%tryAPIKeyAuth_none & Hs)]; [|right|done].
  - left. by eapply tryAPIKeyAuth_key.
  - by eapply (trySessionAuth_user (server_middleware keys sessions)).
Qed.
End theorems.
