(* ===== verification/AuthLifecycle.v ===== *)
(** * The life of keys and sessions
    (src/internal/controlplane/auth/, session/store.go, users/store.go)

    [auth_call] is every operation of the authentication stores and every
    request the middleware handles.  The theorems hold for every sequence of
    them, with every history of database faults: a revoked key and a session
    that was logged out are never accepted again, a key that was created and a
    login that succeeded are accepted.  Then the fixed window of the rate
    limiter. *)
From S2P Require Import Prelude GoStrings GoErrors GoTime GoSort GoSql Auth AuthStores AuthMiddleware.
Local Open Scope go_scope.
Local Open Scope Z_scope.

Inductive auth_call :=
  | CCreateKey (name : string) (permissions : list Permission) (expiresAt : option time)
  | CValidateKey (plainKey : string)
  | CTouchKey (id : string) (now : time)
  | CRevokeKey (id : string)
  | CDeleteKey (id : string)
  | CCreateRole (name : string) (permissions : list Permission) (description : string)
  | CUpdateRole (name : string) (permissions : list Permission) (description : string)
  | CDeleteRole (name : string)
  | CCreateUser (id username displayName password role : string)
  | CUpdatePassword (id newPassword : string)
  | CUpdateUserRole (id role : string)
  | CUpdateProfile (id username displayName : string)
  | CSetEnabled (id : string) (enabled : bool)
  | CDeleteUser (id : string)
  | CLogin (lifetime : duration) (form : option (string * string))
  | CLogout (cookie : option string)
  | CDeleteByUser (userID : string)
  | CCleanup
  | CRequest (keys sessions : bool) (perm : Permission) (r : http_request).

Section calls.
Context `{Host} `{Secrets}.
Notation A := (GoSql.M AuthDB) (only parsing).

Definition run_call (c : auth_call) : A unit :=
  match c with
  | CCreateKey name permissions expiresAt => ignore_error (CreateKey name permissions expiresAt)
  | CValidateKey plainKey => ignore_error (ValidateKey plainKey)
  | CTouchKey id now => touchKey id now
  | CRevokeKey id => ignore_error (RevokeKey id)
  | CDeleteKey id => ignore_error (DeleteKey id)
  | CCreateRole name permissions description => ignore_error (CreateRole name permissions description)
  | CUpdateRole name permissions description => ignore_error (UpdateRole name permissions description)
  | CDeleteRole name => ignore_error (DeleteRole name)
  | CCreateUser id username displayName password role => ignore_error (CreateWithID id username displayName password role)
  | CUpdatePassword id newPassword => ignore_error (UpdatePassword id newPassword)
  | CUpdateUserRole id role => ignore_error (UpdateUserRole id role)
  | CUpdateProfile id username displayName => ignore_error (UpdateProfile id username displayName)
  | CSetEnabled id enabled => ignore_error (SetEnabled id enabled)
  | CDeleteUser id => ignore_error (DeleteUser id)
  | CLogin lifetime form => ignore_error (HandleLogin true lifetime form)
  | CLogout cookie => HandleLogout cookie
  | CDeleteByUser userID => ignore_error (DeleteByUser userID)
  | CCleanup => ignore_error Cleanup
  | CRequest keys sessions perm r => ignore_error (guarded keys sessions perm r)
  end.
Definition run_calls (cs : list auth_call) (db : DB AuthDB) : DB AuthDB := foldl (λ db c, (run_call c db).2) db cs.

Lemma run_calls_keeps P cs db : (∀ c, keeps P (run_call c)) → P db → P (run_calls cs db).
Proof. intros Hc. revert db. induction cs as [|c cs IH]; intros db HP; [done|]. simpl. by apply IH, Hc. Qed.

(** ** Invariants over every call *)

Lemma keeps_external {B} P (f : nat → result B) : (∀ db, P db → P (tick db)) → keeps P (external f).
Proof. intros Ht db HP. by apply Ht. Qed.

(** Every statement of the program preserves [P] when the readings of the host
    and the writes to each table do. *)
Ltac keeps_step :=
  repeat lazymatch goal with
  | |- ∀ _, _ => intros ?
  | |- keeps _ (let _ := _ in _) => cbv zeta
  | |- keeps _ (mret _) => apply keeps_ret
  | |- keeps _ (fail _) => apply keeps_fail
  | |- keeps _ (errorf _) => apply keeps_errorf
  | |- keeps _ (ignore_error _) => apply keeps_ignore
  | |- keeps _ (attempt _) => apply keeps_attempt
  | |- keeps _ (wrap_error _ _) => apply keeps_wrap
  | |- keeps _ (query _) => apply keeps_query; assumption
  | |- keeps _ time_now => apply keeps_time; assumption
  | |- keeps _ uuid_NewString => apply keeps_uuid; assumption
  | |- keeps _ (external _) => apply keeps_external; assumption
  | |- keeps _ (exec _) => apply keeps_exec; [assumption|]
  | |- keeps _ (_ ≫= _) => apply keeps_bind
  | |- keeps _ (match ?x with _ => _ end) => destruct x
  end.

Section invariant.
Context (P : DB AuthDB → Prop) (P_tick : ∀ db, P db → P (tick db)).
Context (P_roles : ∀ t l n, P (Build_DB t n) → P (Build_DB (set_roles t l) (S n))).
Context (P_users : ∀ t l n, P (Build_DB t n) → P (Build_DB (set_users t l) (S n))).
Context (P_CreateKey : ∀ name perms expires, keeps P (CreateKey name perms expires)).
Context (P_touch : ∀ id now, keeps P (touchKey id now)).
Context (P_Revoke : ∀ id, keeps P (RevokeKey id)).
Context (P_DeleteKey : ∀ id, keeps P (DeleteKey id)).
Context (P_CreateSession : ∀ lifetime user, keeps P (CreateSession lifetime user)).
Context (P_active : ∀ token now n t, P (Build_DB t n) → P (Build_DB (set_sessions t (update_where (session_is token) (active_at now) (sessions t))) (S n))).
Context (P_delete : ∀ p, keeps P (delete_sessions p)).

Lemma calls_keep c : keeps P (run_call c).
Proof.
  assert (P_tick' : ∀ t n, P (Build_DB t n) → P (Build_DB t (S n))) by (intros t n; apply (P_tick (Build_DB t n))).
  destruct c; unfold run_call, CreateRole, UpdateRole, DeleteRole, GetRole, CreateWithID, UpdatePassword, UpdateUserRole, UpdateProfile, SetEnabled,
    update_user, DeleteUser, HandleLogin, HandleLogout, Authenticate, GetByUsername, DeleteByUser, Cleanup, DeleteSession, guarded, Wrap, tryAPIKeyAuth,
    trySessionAuth, adapter_Validate, ValidateSession, GetUser, query_user, get_session, ValidateKey, PermissionsForRole, GetPermissions, GetRole, DeleteSession;
    keeps_step; repeat case_match; cbn; eauto.
Qed.
End invariant.

(** ** Revocation *)

(** Every key [id] in the table is disabled, and no UUID to come is [id]. *)
Definition key_dead (id : string) (db : DB AuthDB) : Prop :=
  (∀ k, k ∈ api_keys (rows db) → kr_ID k = id → kr_Enabled k = false) ∧ (∀ n, (ticks db ≤ n)%nat → new_uuid n ≠ id).

Lemma key_dead_tick id db : key_dead id db → key_dead id (tick db).
Proof. intros [Hk Hn]. split; [done|]. cbn. intros n Hle. apply Hn. lia. Qed.
Lemma key_dead_write id t t' n :
  key_dead id (Build_DB t n) → ((∀ k, k ∈ api_keys t → kr_ID k = id → kr_Enabled k = false) → ∀ k, k ∈ api_keys t' → kr_ID k = id → kr_Enabled k = false) →
  key_dead id (Build_DB t' (S n)).
Proof. intros [Hk Hn] Ht. split; [by apply Ht|]. cbn in *. intros m Hm. apply Hn. lia. Qed.

Lemma key_dead_update id id' (f : key_row → key_row) n t :
  (∀ k, kr_ID (f k) = kr_ID k) → (∀ k, kr_Enabled k = false → kr_Enabled (f k) = false) →
  key_dead id (Build_DB t n) → key_dead id (Build_DB (set_keys t (update_where (key_is id') f (api_keys t))) (S n)).
Proof.
  intros Hid Hen Hd. eapply key_dead_write; [done|]. intros Hk k Hin Heq. cbn in Hin.
  apply elem_of_update_where in Hin as [(x & Hx & _ & ->)|[Hx _]]; [|by apply Hk]. apply Hen, Hk; [done|]. by rewrite Hid in Heq.
Qed.

Lemma uuid_dead {B} id (f : string → GoSql.M AuthDB B) : (∀ id', id' ≠ id → keeps (key_dead id) (f id')) → keeps (key_dead id) (uuid_NewString ≫= f).
Proof. intros Hf db Hd. apply (Hf (new_uuid (ticks db))); [by apply Hd|by apply key_dead_tick]. Qed.
Lemma CreateKey_dead id name perms expires : keeps (key_dead id) (CreateKey name perms expires).
Proof.
  pose proof (key_dead_tick id) as Ht. apply keeps_bind; [by apply keeps_wrap, keeps_external|]. intros raw.
  apply keeps_bind; [by apply keeps_wrap, keeps_external|]. intros hash. apply keeps_bind; [by apply keeps_time|]. intros now.
  apply uuid_dead. intros id' Hne. keeps_step. case_match; [by apply (Ht (Build_DB s n))|]. eapply key_dead_write; [done|]. intros Hk k Hin Heq.
  cbn in Hin. apply elem_of_app in Hin as [Hin|Hin%list_elem_of_singleton]; [by apply Hk|by subst k].
Qed.
Lemma touchKey_dead id id' now : keeps (key_dead id) (touchKey id' now).
Proof. apply keeps_ignore, keeps_exec; [apply key_dead_tick|]. intros s n Hs. by apply key_dead_update. Qed.
Lemma RevokeKey_dead id id' : keeps (key_dead id) (RevokeKey id').
Proof.
  apply keeps_bind; [|intros k; case_match; [apply keeps_fail|apply keeps_ret]]. apply keeps_exec; [apply key_dead_tick|].
  intros s n Hs. by apply key_dead_update.
Qed.
Lemma DeleteKey_dead id id' : keeps (key_dead id) (DeleteKey id').
Proof.
  apply keeps_bind; [|intros k; case_match; [apply keeps_fail|apply keeps_ret]]. apply keeps_exec; [apply key_dead_tick|].
  intros s n Hs. apply (key_dead_write _ _ _ _ Hs). intros Hk k Hin. apply Hk. cbn in Hin. rewrite list_elem_of_In in *. by apply filter_In in Hin as [? _].
Qed.
Lemma sessions_dead id t l n : key_dead id (Build_DB t n) → key_dead id (Build_DB (set_sessions t l) (S n)).
Proof. intros Hd. by apply (key_dead_write _ _ _ _ Hd). Qed.
Lemma CreateSession_dead id lifetime user : keeps (key_dead id) (CreateSession lifetime user).
Proof.
  pose proof (key_dead_tick id) as Ht. unfold CreateSession. keeps_step. case_match; [by apply (Ht (Build_DB s n))|by apply sessions_dead].
Qed.

Lemma calls_key_dead id c : keeps (key_dead id) (run_call c).
Proof.
  apply calls_keep; eauto using key_dead_tick, CreateKey_dead, touchKey_dead, RevokeKey_dead, DeleteKey_dead, CreateSession_dead, sessions_dead.
  - intros t l n Hd. by apply (key_dead_write _ _ _ _ Hd).
  - intros t l n Hd. by apply (key_dead_write _ _ _ _ Hd).
  - intros p. apply keeps_exec; [apply key_dead_tick|]. intros s n Hs. by apply sessions_dead.
Qed.

(** C28. Revocation is final: once [Revoke] or [Delete] of a key returned, no later
    sequence of store operations and requests, with any faults of the database,
    makes [Validate] accept that key again for any text, as long as the UUID
    generator does not repeat its id. *)
Theorem revoked_key_refused id db db1 cs token key db3 :
  RevokeKey id db = (inr tt, db1) ∨ DeleteKey id db = (inr tt, db1) → (∀ n, (ticks db ≤ n)%nat → new_uuid n ≠ id) →
  ValidateKey token (run_calls cs db1) = (inr key, db3) → k_ID key ≠ id.
Proof.
  intros Hrev Hn Hv Hid. assert (Hd : key_dead id db1).
  { destruct Hrev as [Hrev|Hrev]; apply bind_inr in Hrev as (m & db2 & He & Hr);
      (destruct (m =? 0); [done|]; apply ret_inr in Hr as [_ ->]); pose proof (exec_ticks _ _ _ _ He) as Htk; apply exec_inr in He; injection He as _ Hrows;
      (split; [rewrite <- Hrows|intros n Hle; apply Hn; lia]); cbn; intros k Hin Heq.
    - apply elem_of_update_where in Hin as [(x & _ & _ & ->)|[_ Hx%String.eqb_neq]]; done.
    - rewrite list_elem_of_In in Hin. apply filter_In in Hin as [_ Hx%negb_true_iff%String.eqb_neq]. done. }
  assert (Hd2 := run_calls_keeps _ cs _ (calls_key_dead id) Hd). destruct Hd2 as [Hk _].
  apply ValidateKey_inr in Hv as (row & Hin & Hr & _ & _ & Hen & _). rewrite (Hk row Hin) in Hen; [done|]. by rewrite Hr.
Qed.

(** ** Logging out *)

(** No session [token] is in the table, and none will be drawn. *)
Definition session_dead (token : string) (db : DB AuthDB) : Prop :=
  (∀ s, s ∈ sessions (rows db) → s_ID s ≠ token) ∧ (∀ n raw, (ticks db ≤ n)%nat → rand_Read n = inr raw → hex_EncodeToString raw ≠ token).

Lemma session_dead_tick token db : session_dead token db → session_dead token (tick db).
Proof. intros [Hs Hn]. split; [done|]. cbn. intros n raw Hle. apply Hn. lia. Qed.
Lemma session_dead_write token t t' n :
  session_dead token (Build_DB t n) → (∀ s, s ∈ sessions t' → s_ID s ≠ token ∨ s ∈ sessions t) → session_dead token (Build_DB t' (S n)).
Proof.
  intros [Hs Hn] Ht. split; [intros s Hin; destruct (Ht s Hin); [done|by apply Hs]|]. cbn in *. intros m raw Hm. apply Hn. lia.
Qed.
Lemma rand_dead {B} token (f : string → GoSql.M AuthDB B) e :
  (∀ raw, hex_EncodeToString raw ≠ token → keeps (session_dead token) (f raw)) → keeps (session_dead token) (wrap_error e (external rand_Read) ≫= f).
Proof.
  intros Hf db Hd. unfold mbind, M_bind, wrap_error, external. destruct (rand_Read (ticks db)) as [e'|raw] eqn:E; [by apply session_dead_tick|].
  apply Hf; [by apply Hd in E|by apply session_dead_tick].
Qed.
Lemma CreateSession_session_dead token lifetime user : keeps (session_dead token) (CreateSession lifetime user).
Proof.
  pose proof (session_dead_tick token) as Ht. apply rand_dead. intros raw Hraw. keeps_step. case_match; [by apply (Ht (Build_DB s n))|].
  eapply session_dead_write; [done|]. intros x Hin. cbn in Hin. apply elem_of_app in Hin as [Hin|Hin%list_elem_of_singleton]; [by right|by subst x; left].
Qed.
Lemma keys_session_dead token t l n : session_dead token (Build_DB t n) → session_dead token (Build_DB (set_keys t l) (S n)).
Proof. intros Hd. apply (session_dead_write _ _ _ _ Hd). by right. Qed.

Lemma calls_session_dead token c : keeps (session_dead token) (run_call c).
Proof.
  pose proof (session_dead_tick token) as Ht.
  assert (Hkeys : ∀ t l n, session_dead token (Build_DB t n) → session_dead token (Build_DB (set_keys t l) (S n))) by apply keys_session_dead.
  apply calls_keep; auto using CreateSession_session_dead.
  - intros t l n Hd. apply (session_dead_write _ _ _ _ Hd). by right.
  - intros t l n Hd. apply (session_dead_write _ _ _ _ Hd). by right.
  - intros. unfold CreateKey. keeps_step. case_match; [by apply (Ht (Build_DB s n))|by apply Hkeys].
  - intros. unfold touchKey. keeps_step. by apply Hkeys.
  - intros. unfold RevokeKey. keeps_step. by apply Hkeys.
  - intros. unfold DeleteKey. keeps_step. by apply Hkeys.
  - intros token' now n t [Hs Hn]. apply (session_dead_write _ t); [done|]. intros s Hin. left. cbn in Hin.
    apply elem_of_update_where in Hin as [(x & Hx & _ & ->)|[Hx _]]; [exact (Hs x Hx)|exact (Hs s Hx)].
  - intros p. unfold delete_sessions. keeps_step. eapply session_dead_write; [done|]. intros x Hin. right. cbn in Hin.
    rewrite list_elem_of_In in *. by apply filter_In in Hin as [? _].
Qed.

(** Logging out is final: once the session of a cookie was deleted, by
    [Delete] or by [DeleteByUser] of its user, no later sequence of store
    operations, logins and requests makes the session adapter accept the cookie
    again, as long as the random source does not repeat the token. *)
Theorem ended_session_refused token db db1 cs si db3 :
  DeleteSession token db = (inr tt, db1) ∨
    (∃ user, DeleteByUser user db = (inr tt, db1) ∧ ∀ s, s ∈ sessions (rows db) → s_ID s = token → s_UserID s = user) →
  (∀ n raw, (ticks db ≤ n)%nat → rand_Read n = inr raw → hex_EncodeToString raw ≠ token) →
  adapter_Validate token (run_calls cs db1) ≠ (inr si, db3).
Proof.
  intros Hend Hn Hv. assert (Hd : session_dead token db1).
  { destruct Hend as [Hend|(user & Hend & Huser)]; apply bind_inr in Hend as (m & db2 & He%wrap_inr & [_ ->]%ret_inr);
      pose proof (exec_ticks _ _ _ _ He) as Htk; apply exec_inr in He; injection He as _ Hrows;
      (split; [rewrite <- Hrows|intros n raw Hle; apply Hn; lia]); cbn; intros s [Hin Hp%negb_true_iff%String.eqb_neq]%list_elem_of_In%filter_In; [done|].
    intros Hid. by apply Hp, Huser; [apply list_elem_of_In|]. }
  destruct (run_calls_keeps _ cs _ (calls_session_dead token) Hd) as [Hs _].
  apply adapter_inr in Hv as (sess & u & Hin & Hid & _). by apply (Hs sess).
Qed.

(** ** Credentials that are accepted *)

Section accepted.
Context (no_faults : ∀ n, sql_fault n = None) `{!SecretsLaws}.

Lemma find_skip {B} (p : B → bool) l x : Forall (λ y, p y = false) l → p x = true → List.find p (l ++ [x]) = Some x.
Proof. intros Hl Hx. induction Hl as [|y l Hy _ IH]; simpl; [by rewrite Hx|by rewrite Hy]. Qed.

Lemma TrimPrefix_app p t : TrimPrefix (p +:+ t)%string p = t.
Proof. unfold TrimPrefix. rewrite HasPrefix_app. induction p as [|c p IH]; [done|]. simpl. apply IH. Qed.

Definition plain_key (raw : string) : string := ("lgk_" +:+ hex_EncodeToString raw)%string.
Lemma plain_key_trim raw : TrimSpace (plain_key raw) = plain_key raw.
Proof. apply TrimSpace_no_space. apply (hex_no_space raw). Qed.

(** The answer to an authenticated request: served, or refused with 403 and an
    entry in the audit log. *)
Definition permitted (granted : bool) (actor : string) (r : http_request) (perm : Permission) : http_reply * list denial :=
  if granted then (Serve, [])
  else (HTTPError 403 "forbidden",
        [{| d_Actor := actor; d_Method := rq_Method r; d_Path := rq_Path r; d_Permission := perm; d_Reason := "insufficient_permissions" |}]).

(** A key of the table, presented as a bearer token. *)
Lemma guarded_key method path cookie raw (row : key_row) db sess perm :
  let plain := plain_key raw in
  String.length raw = 32%nat → shouldSkip (server_middleware true sess) path = false →
  List.find (with_prefix (take_str 12 plain)) (api_keys (rows db)) = Some row → kr_Enabled row = true →
  CompareHashAndPassword (kr_KeyHash row) plain = true → (∀ e, kr_ExpiresAt row = Some e → clock (S (ticks db)) <= e) →
  let r := {| rq_Method := method; rq_Path := path; rq_Authorization := ("Bearer " +:+ plain)%string; rq_Cookie := cookie |} in
  (guarded true sess perm r db).1 = inr (permitted (grants (jsonToPermissions (kr_Permissions row)) perm) (actor_name (kr_Name row) (kr_ID row)) r perm).
Proof.
  intros plain Hlen Hskip Hfind Hen Hcmp Hexp r. subst r. unfold guarded, Wrap. cbn [orb rq_Path]. rewrite Hskip. unfold tryAPIKeyAuth. cbn [rq_Authorization].
  rewrite (HasPrefix_app "Bearer " plain), (TrimPrefix_app "Bearer " plain). subst plain. rewrite plain_key_trim.
  change (HasPrefix (plain_key raw) "lgk_") with (HasPrefix ("lgk_" +:+ hex_EncodeToString raw)%string "lgk_").
  rewrite HasPrefix_app. change (("Bearer " +:+ plain_key raw)%string =s "") with false.
  change (plain_key raw =s "") with false. cbn [negb mw_store server_middleware SetSessionAuth NewMiddleware].
  unfold ValidateKey. replace (String.length (plain_key raw) <? 12)%nat with false.
  2:{ symmetry. apply Nat.ltb_ge. change (12 <= 4 + String.length (hex_EncodeToString raw))%nat. rewrite length_hex, Hlen. lia. }
  set (plain := plain_key raw) in *. unfold mbind, M_bind, wrap_error, attempt. rewrite (run_query no_faults), Hfind. cbn.
  rewrite Hen. cbn. destruct (kr_ExpiresAt row) as [e|] eqn:He; cbn; rewrite ?Hcmp; cbn.
  - replace (After (clock (S (ticks db))) e) with false by (symmetry; apply Z.ltb_ge, Hexp; done). cbn. unfold permitted, grants. by destruct (existsb _ _).
  - unfold permitted, grants. by destruct (existsb _ _).
Qed.

(** A key that was issued works until it expires: presented as the bearer token
    of a request for a guarded path, the text [Create] returned is accepted, and
    the request is served exactly when the permissions the key was created with
    grant the one the handler requires; otherwise the reply is 403. *)
Theorem issued_key_served name perms expires db key plain db1 sess method path cookie perm :
  CreateKey name perms expires db = (inr (key, plain), db1) → Forall (λ p, no_char dquote p = true) perms →
  (∀ k, k ∈ api_keys (rows db) → kr_KeyPrefix k ≠ take_str 12 plain) → (∀ e, expires = Some e → clock (S (ticks db1)) <= e) →
  shouldSkip (server_middleware true sess) path = false →
  let r := {| rq_Method := method; rq_Path := path; rq_Authorization := ("Bearer " +:+ plain)%string; rq_Cookie := cookie |} in
  (guarded true sess perm r db1).1 = inr (permitted (grants perms perm) (actor_name name (k_ID key)) r perm).
Proof.
  intros E Hq Hfresh Hexp Hskip r. subst r. apply bind_inr in E as (raw & db2 & Hraw%wrap_inr & E). injection Hraw as Hraw <-.
  apply bind_inr in E as (hash & db3 & Hhash%wrap_inr & E). injection Hhash as Hhash <-. apply bind_inr in E as (now & db4 & [= _ <-] & E).
  apply bind_inr in E as (id & db5 & [= _ <-] & E). apply bind_inr in E as ([] & db6 & He%wrap_inr%exec_inr & E). apply ret_inr in E as [[= -> ->] ->].
  destruct (existsb _ _); [done|]. injection He as He. rewrite <- (key_permissions_roundtrip perms Hq).
  match type of He with set_keys _ (_ ++ [?r]) = _ => set (row := r) in He end.
  apply (guarded_key method path cookie raw row); [by eapply rand_length|done| |done|by eapply bcrypt_accepts|done].
  rewrite <- He. cbn. apply find_skip; [|apply String.eqb_refl]. apply Forall_forall. intros k Hin. by apply String.eqb_neq, Hfresh.
Qed.

Lemma run_PermissionsForRole role db : (PermissionsForRole role db).1 = inr (role_permissions (rows db) role).
Proof.
  unfold PermissionsForRole, role_permissions. destruct (RolePermissions None role); [|done].
  unfold GetPermissions, GetRole, mbind, M_bind, attempt, wrap_error. rewrite (run_query no_faults). by destruct (List.find _ _).
Qed.

(** The cookie of a live session. *)
Lemma guarded_session method path keys token sess u db perm :
  shouldSkip (server_middleware keys true) path = false → TrimSpace token =s "" = false →
  List.find (session_is token) (sessions (rows db)) = Some sess → List.find (user_is (s_UserID sess)) (users (rows db)) = Some u →
  u_Enabled u = true → clock (S (ticks db)) <= s_ExpiresAt sess →
  let r := {| rq_Method := method; rq_Path := path; rq_Authorization := ""; rq_Cookie := Some token |} in
  (guarded keys true perm r db).1 = inr (permitted (grants (role_permissions (rows db) (u_Role u)) perm) (actor_name (u_Username u) (u_ID u)) r perm).
Proof.
  intros Hskip Htok Hsess Hu Hen Hexp r. subst r. unfold guarded, Wrap. rewrite orb_true_r. cbn [rq_Path]. rewrite Hskip. unfold tryAPIKeyAuth, trySessionAuth.
  cbn [rq_Authorization rq_Cookie String.eqb mw_sessions mw_resolver server_middleware SetSessionAuth negb]. rewrite Htok.
  unfold adapter_Validate, ValidateSession, get_session, GetUser, query_user, mbind, M_bind, wrap_error, attempt, time_now. cbn.
  rewrite (run_query no_faults), Hsess. cbn.
  replace (After (clock (S (ticks db))) (s_ExpiresAt sess)) with false by (symmetry; apply Z.ltb_ge; done).
  rewrite (run_exec no_faults). cbn. rewrite (run_query no_faults). cbn. rewrite Hu. cbn. rewrite Hen. cbn [negb mret M_ret].
  match goal with |- context [PermissionsForRole (si_Role _) ?db'] => pose proof (run_PermissionsForRole (u_Role u) db') as Hp; set (db2 := db') in * end.
  cbn [si_Role]. destruct (PermissionsForRole (u_Role u) db2) as [[e|perms] db3]; [done|]. injection Hp as ->.
  change (role_permissions (rows db2) (u_Role u)) with (role_permissions (rows db) (u_Role u)). unfold requirePermission, permitted. cbn. unfold permitted, grants. by destruct (existsb _ _).
Qed.

Lemma find_user_update us u id f :
  NoDup (map u_ID us) → u ∈ us → u_ID u = id → (∀ x, u_ID (f x) = u_ID x) → List.find (user_is id) (update_where (user_is id) f us) = Some (f u).
Proof.
  intros Hnd Hin <- Hf. induction us as [|x us IH]; [by apply not_elem_of_nil in Hin|]. apply NoDup_cons in Hnd as [Hx Hnd]. simpl.
  destruct (user_is (u_ID u) x) eqn:E.
  - unfold user_is in *. rewrite Hf, E. apply String.eqb_eq in E. apply elem_of_cons in Hin as [->|Hin]; [done|].
    destruct Hx. rewrite E. by apply list_elem_of_fmap_2.
  - rewrite E. apply IH; [done|]. apply elem_of_cons in Hin as [->|Hin]; [|done]. unfold user_is in E. by rewrite String.eqb_refl in E.
Qed.

Lemma Authenticate_inr username password db u db1 :
  Authenticate username password db = (inr u, db1) → NoDup (map u_ID (users (rows db))) →
  ∃ u0, u0 ∈ users (rows db) ∧ u_Username u0 = username ∧ u_Enabled u0 = true ∧ CompareHashAndPassword (u_PasswordHash u0) password = true ∧
    List.find (user_is (u_ID u)) (users (rows db1)) = Some u ∧ u_Enabled u = true ∧ u_Role u = u_Role u0 ∧ u_Username u = u_Username u0 ∧ u_ID u = u_ID u0 ∧ custom_roles (rows db1) = custom_roles (rows db) ∧
    sessions (rows db1) = sessions (rows db).
Proof.
  intros E Hnd. apply bind_inr in E as (u0 & db2 & [Hq Hr]%wrap_inr%wrap_inr%query_inr & E).
  destruct (List.find _ _) as [x|] eqn:Hf; [|done]. injection Hq as ->. apply find_elem in Hf as [Hin Hname%String.eqb_eq].
  destruct (u_Enabled u0) eqn:Hen; [|done]. destruct (CompareHashAndPassword _ _) eqn:Hc; [|done]. cbn [negb] in E.
  apply bind_inr in E as (now & db3 & [= _ <-] & E). apply bind_inr in E as ([] & db4 & He%wrap_inr%exec_inr & [-> ->]%ret_inr).
  injection He as He. rewrite <- He. cbn. rewrite Hr. exists u0. split_and!; try done. by apply (find_user_update _ u0).
Qed.

(** A login that succeeded opens a session: the credentials were those of an
    enabled user, and while the session lasts its cookie is accepted on guarded
    paths, the requests served exactly when the role of that user, built in or
    stored, grants the required permission. *)
Theorem login_served lifetime username password db events token db1 keys method path perm :
  HandleLogin true lifetime (Some (username, password)) db = (inr (events, inr token), db1) → NoDup (map u_ID (users (rows db))) →
  (∀ s, s ∈ sessions (rows db1) → s_ID s = token → clock (S (ticks db1)) <= s_ExpiresAt s) → shouldSkip (server_middleware keys true) path = false →
  ∃ u, u ∈ users (rows db) ∧ u_Username u = TrimSpace username ∧ u_Enabled u = true ∧ CompareHashAndPassword (u_PasswordHash u) password = true ∧
    let r := {| rq_Method := method; rq_Path := path; rq_Authorization := ""; rq_Cookie := Some token |} in
    (guarded keys true perm r db1).1 = inr (permitted (grants (role_permissions (rows db) (u_Role u)) perm) (actor_name (u_Username u) (u_ID u)) r perm).
Proof.
  intros E Hnd Hlive Hskip. unfold HandleLogin in E. cbn [negb] in E. case_match; [done|]. apply bind_inr in E as ([e|u] & db2 & Ha%attempt_inr & E); [done|].
  apply Authenticate_inr in Ha as (u0 & Hin & Hname & Hen0 & Hcmp & Hfind & Hen & Hrole & Huname & Hid & Hroles & Hsess); [|done].
  apply bind_inr in E as ([e|sess] & db3 & Hs%attempt_inr & E); [done|]. destruct (TrimSpace (s_ID sess) =s "") eqn:Htok; [done|].
  apply ret_inr in E as [[= -> ->] ->]. apply bind_inr in Hs as (raw & db4 & [= _ <-]%wrap_inr & Hs).
  apply bind_inr in Hs as (now & db5 & [= _ <-] & Hs). apply bind_inr in Hs as ([] & db6 & He%wrap_inr%exec_inr & [Hx ->]%ret_inr).
  destruct (existsb _ _) eqn:Hnew; [done|]. injection He as He. apply existsb_false_Forall in Hnew. rewrite <- Hx in He. cbn [rows tick] in *.
  exists u0. split_and!; try done. unfold role_permissions. rewrite <- Hrole, <- Hroles, <- Huname, <- Hid.
  assert (Hcr : custom_roles (rows db6) = custom_roles (rows db2)) by by rewrite <- He. rewrite <- Hcr.
  assert (Hss : sessions (rows db6) = sessions (rows db2) ++ [sess]) by by rewrite <- He.
  apply (guarded_session method path keys (s_ID sess) sess u); try done.
  - rewrite Hss. apply find_skip; [|apply String.eqb_refl]. by rewrite Hx.
  - rewrite <- He. cbn. by rewrite Hx.
  - apply Hlive; [|done]. rewrite Hss. apply elem_of_app. right. by apply list_elem_of_singleton.
Qed.
End accepted.
End calls.

(** ** The rate limiter *)

Definition allow_all (rl : RateLimiter) (keyID : string) (times : list time) : nat * RateLimiter :=
  foldl (λ acc now, let '(ok, rl) := Allow now acc.2 keyID in ((if ok then S acc.1 else acc.1), rl)) (0%nat, rl) times.

(** The limiter counts in windows that start with the first request after the
    last one ended, not in a sliding window as its comment says: with a limit of
    100 requests per minute, 199 requests pass within a nanosecond. *)
Theorem rate_limit_not_sliding :
  let minute := 60 * Second in
  let rl := (allow_all (NewRateLimiter 100 minute) "k" [0]).2 in
  let burst := repeat minute 99 ++ repeat (minute + 1) 100 in
  (allow_all rl "k" burst).1 = 199%nat ∧ Forall (λ t, minute <= t <= minute + 1) burst.
Proof.
  intros minute rl burst. split; [vm_compute; reflexivity|].
  apply Forall_app. split; apply Forall_forall; intros x Hx%list_elem_of_In%repeat_spec; subst x; lia.
Qed.

(** ** Instances *)

Module AuthExamples.
Import ExampleHost.
Fixpoint repeat_char (n : nat) (c : ascii) : string :=
  match n with O => EmptyString | S n => String c (repeat_char n c) end.
#[export] Instance secrets : Secrets := {|
  GenerateFromPassword := λ _ p, inr ("$2a$" +:+ p)%string;
  CompareHashAndPassword := λ h p, h =s ("$2a$" +:+ p)%string;
  rand_Read := λ n, inr (repeat_char 32 (if (n <? 4)%nat then "a" else "b")) |}.
#[export] Instance secrets_laws : SecretsLaws.
Proof. split; [intros n p h [= <-]; apply String.eqb_refl|]. intros n raw [= <-]. by destruct (n <? 4)%nat. Qed.

Definition alice : User :=
  {| u_ID := "usr-1"; u_Username := "alice"; u_DisplayName := "Alice"; u_PasswordHash := "$2a$secret"; u_Role := "operator"; u_Enabled := true;
     u_CreatedAt := 0; u_LastLogin := None |}.
Definition db0 : DB AuthDB := Build_DB {| api_keys := []; custom_roles := []; users := [alice]; sessions := [] |} 0.
Definition plain : string := ("lgk_" +:+ hex_EncodeToString (repeat_char 32 "a"))%string.
Definition with_key : DB AuthDB := (CreateKey "ci" [PermFleetRead; "workspace:a"] (Some (2 * Hour)) db0).2.
Definition key_id : string := new_uuid 3.
Definition logged_in : DB AuthDB := (HandleLogin true DefaultSessionLifetime (Some (" alice ", "secret")) db0).2.
Definition token : string := hex_EncodeToString (repeat_char 32 "a").
Definition request : http_request := {| rq_Method := "GET"; rq_Path := "/api/v1/probes"; rq_Authorization := ("Bearer " +:+ plain)%string; rq_Cookie := None |}.

Lemma later_uuid n : (4 <= n)%nat → new_uuid n ≠ key_id.
Proof. intros Hn E. assert (pretty n = pretty 3%nat) as E' by (by injection E). apply (inj pretty) in E'. lia. Qed.
Lemma later_token n raw : (4 <= n)%nat → rand_Read n = inr raw → hex_EncodeToString raw ≠ token.
Proof.
  intros Hn. unfold rand_Read, secrets. destruct (Nat.ltb_spec n 4); [lia|]. intros Hraw E.
  assert (raw = repeat_char 32 "b") as -> by congruence. vm_compute in E. discriminate E.
Qed.

Lemma guarded_serves_witness :
  (guarded true true PermFleetRead request with_key).1 = inr (Serve, []) ∧
  key_credential (rows with_key) (clock (S (ticks with_key))) request PermFleetRead.
Proof.
  split; [vm_compute; reflexivity|].
  destruct (guarded_serves true true PermFleetRead request with_key [] (guarded true true PermFleetRead request with_key).2) as [Hk|Hs].
  - reflexivity.
  - vm_compute. reflexivity.
  - exact Hk.
  - exfalso. destruct Hs as (sess & u & Hin & _). by apply not_elem_of_nil in Hin.
Defined.

Lemma revoked_key_refused_witness :
  let db1 := (RevokeKey key_id with_key).2 in
  RevokeKey key_id with_key = (inr tt, db1) ∧
  ∀ key db3, ValidateKey plain (run_calls [CTouchKey key_id 7; CCreateKey "ci" [PermAdmin] None; CRequest true true PermFleetRead request] db1) = (inr key, db3) →
    k_ID key ≠ key_id.
Proof.
  intros db1. split; [vm_compute; reflexivity|]. intros key db3. apply (revoked_key_refused key_id with_key).
  - left. vm_compute. reflexivity.
  - intros n Hn. apply later_uuid. vm_compute in Hn. lia.
Defined.

Lemma ended_session_refused_witness :
  let db1 := (DeleteSession token logged_in).2 in
  adapter_Validate token logged_in ≠ (inl (Sentinel ErrSessionNotFound), logged_in) ∧
  ∀ si db3, adapter_Validate token (run_calls [CLogin DefaultSessionLifetime (Some ("alice", "secret")); CCleanup] db1) ≠ (inr si, db3).
Proof.
  intros db1. split; [by vm_compute|]. intros si db3. apply (ended_session_refused token logged_in).
  - left. vm_compute. reflexivity.
  - intros n raw Hn. apply later_token. vm_compute in Hn. lia.
Defined.

Lemma issued_key_served_witness :
  (guarded true true PermFleetRead request with_key).1 = inr (permitted true "ci" request PermFleetRead) ∧
  (guarded true true PermFleetWrite request with_key).1 = inr (permitted false "ci" request PermFleetWrite).
Proof.
  split.
  - eapply (issued_key_served host_answers "ci" [PermFleetRead; "workspace:a"] (Some (2 * Hour)) db0 _ plain with_key true "GET" "/api/v1/probes" None PermFleetRead);
      [vm_compute; reflexivity|repeat constructor|by intros k ?%not_elem_of_nil|by intros e [= <-]|vm_compute; reflexivity].
  - eapply (issued_key_served host_answers "ci" [PermFleetRead; "workspace:a"] (Some (2 * Hour)) db0 _ plain with_key true "GET" "/api/v1/probes" None PermFleetWrite);
      [vm_compute; reflexivity|repeat constructor|by intros k ?%not_elem_of_nil|by intros e [= <-]|vm_compute; reflexivity].
Defined.

Lemma login_served_witness :
  ∃ u, u ∈ users (rows db0) ∧ u_Username u = "alice"%string ∧
    let r := {| rq_Method := "GET"; rq_Path := "/api/v1/probes"; rq_Authorization := ""; rq_Cookie := Some token |} in
    (guarded true true PermFleetRead r logged_in).1 =
    inr (permitted (grants (role_permissions (rows db0) (u_Role u)) PermFleetRead) (actor_name (u_Username u) (u_ID u)) r PermFleetRead).
Proof.
  destruct (login_served host_answers DefaultSessionLifetime " alice " "secret" db0 [EventLoginSuccess "usr-1"] token logged_in true "GET" "/api/v1/probes" PermFleetRead)
    as (u & Hin & Hname & _ & _ & Hg).
  - vm_compute. reflexivity.
  - vm_compute. apply NoDup_singleton.
  - intros s Hs _. vm_compute in Hs. apply list_elem_of_singleton in Hs as ->. by vm_compute.
  - vm_compute. reflexivity.
  - exists u. split; [exact Hin|]. split; [exact Hname|exact Hg].
Defined.
End AuthExamples.
