(* ===== verification/FleetManager.v ===== *)
(** * The fleet in memory
    (src/internal/controlplane/fleet/manager.go, health.go, inventory.go, remote_probe.go)

    The manager keeps the probes in a map under one lock; every operation is a
    lock region and is given here as one computation.  The probes it hands out are
    shared pointers, and the callers only read them, so they are given by value.
    [disk] is the table of the store that wraps the manager (FleetStore); the
    manager never touches it. *)
From Stdlib Require Import SpecFloat.
From S2P Require Import Prelude GoStrings GoErrors GoTime GoFloat GoSort GoSql GoRuntime Protocol.
Local Open Scope Z_scope.
Local Open Scope go_scope.

(** ** Data *)

Definition ProbeTypeAgent : string := "agent".
Definition ProbeTypeRemote : string := "remote".

Record HealthScore := { hs_Score : Z; hs_Status : string; hs_Warnings : list string }.

Record RemoteProbeConfig := {
  rc_Host : string;
  rc_Port : Z;
  rc_Username : string;
  rc_AuthMode : string;
  rc_HasPassword : bool;
  rc_HasPrivateKey : bool;
}.
Record RemoteProbeCredentials := { cr_Password : string; cr_PrivateKey : string }.

Record ProbeState := {
  pb_ID : string;
  pb_Hostname : string;
  pb_OS : string;
  pb_Arch : string;
  pb_Status : string;
  pb_Type : string;
  pb_PolicyLevel : CapabilityLevel;
  pb_APIKey : string;
  pb_Registered : time;
  pb_LastSeen : time;
  pb_Inventory : option InventoryPayload;
  pb_Labels : gmap string string;
  pb_Tags : list string;
  pb_Health : option HealthScore;
  pb_TenantID : string;
  pb_Remote : option RemoteProbeConfig;
  pb_RemoteCredentials : option RemoteProbeCredentials;
  pb_lastHB : option HeartbeatPayload;
}.

(** A row of the table [probes].  A TEXT column that holds an instant or a JSON
    document is given by its value; [remote_credentials] is the JSON object the
    store writes, which leaves out the empty fields. *)
Record ProbeRow := {
  row_id : string;
  row_hostname : string;
  row_os : string;
  row_arch : string;
  row_status : string;
  row_probe_type : string;
  row_policy_level : string;
  row_api_key : string;
  row_registered : time;
  row_last_seen : time;
  row_labels : gmap string string;
  row_tags : list string;
  row_inventory : option InventoryPayload;
  row_tenant_id : string;
  row_remote : option RemoteProbeConfig;
  row_remote_credentials : option (gmap string string);
}.

(** [id] is the primary key of the table. *)
Record Fleet := { probes : gmap string ProbeState; disk : gmap string ProbeRow }.
Notation F := (GoSql.M Fleet) (only parsing).
Definition set_probes (f : gmap string ProbeState → gmap string ProbeState) (s : Fleet) : Fleet :=
  {| probes := f (probes s); disk := disk s |}.

Record RemoteProbeRegistration := {
  rp_ID : string;
  rp_Hostname : string;
  rp_OS : string;
  rp_Arch : string;
  rp_Tags : list string;
  rp_TenantID : string;
  rp_PolicyLevel : CapabilityLevel;
  rp_Remote : RemoteProbeConfig;
  rp_Credentials : RemoteProbeCredentials;
}.

(** The assignments of the operations. *)
Definition set_status (v : string) (p : ProbeState) : ProbeState :=
  {| pb_ID := pb_ID p; pb_Hostname := pb_Hostname p; pb_OS := pb_OS p; pb_Arch := pb_Arch p; pb_Status := v; pb_Type := pb_Type p;
     pb_PolicyLevel := pb_PolicyLevel p; pb_APIKey := pb_APIKey p; pb_Registered := pb_Registered p; pb_LastSeen := pb_LastSeen p;
     pb_Inventory := pb_Inventory p; pb_Labels := pb_Labels p; pb_Tags := pb_Tags p; pb_Health := pb_Health p; pb_TenantID := pb_TenantID p;
     pb_Remote := pb_Remote p; pb_RemoteCredentials := pb_RemoteCredentials p; pb_lastHB := pb_lastHB p |}.
Definition set_last_seen (v : time) (p : ProbeState) : ProbeState :=
  {| pb_ID := pb_ID p; pb_Hostname := pb_Hostname p; pb_OS := pb_OS p; pb_Arch := pb_Arch p; pb_Status := pb_Status p; pb_Type := pb_Type p;
     pb_PolicyLevel := pb_PolicyLevel p; pb_APIKey := pb_APIKey p; pb_Registered := pb_Registered p; pb_LastSeen := v;
     pb_Inventory := pb_Inventory p; pb_Labels := pb_Labels p; pb_Tags := pb_Tags p; pb_Health := pb_Health p; pb_TenantID := pb_TenantID p;
     pb_Remote := pb_Remote p; pb_RemoteCredentials := pb_RemoteCredentials p; pb_lastHB := pb_lastHB p |}.
Definition set_heartbeat (hb : option HeartbeatPayload) (h : HealthScore) (p : ProbeState) : ProbeState :=
  {| pb_ID := pb_ID p; pb_Hostname := pb_Hostname p; pb_OS := pb_OS p; pb_Arch := pb_Arch p; pb_Status := pb_Status p; pb_Type := pb_Type p;
     pb_PolicyLevel := pb_PolicyLevel p; pb_APIKey := pb_APIKey p; pb_Registered := pb_Registered p; pb_LastSeen := pb_LastSeen p;
     pb_Inventory := pb_Inventory p; pb_Labels := pb_Labels p; pb_Tags := pb_Tags p; pb_Health := Some h; pb_TenantID := pb_TenantID p;
     pb_Remote := pb_Remote p; pb_RemoteCredentials := pb_RemoteCredentials p; pb_lastHB := hb |}.
Definition set_inventory (v : option InventoryPayload) (p : ProbeState) : ProbeState :=
  {| pb_ID := pb_ID p; pb_Hostname := pb_Hostname p; pb_OS := pb_OS p; pb_Arch := pb_Arch p; pb_Status := pb_Status p; pb_Type := pb_Type p;
     pb_PolicyLevel := pb_PolicyLevel p; pb_APIKey := pb_APIKey p; pb_Registered := pb_Registered p; pb_LastSeen := pb_LastSeen p;
     pb_Inventory := v; pb_Labels := pb_Labels p; pb_Tags := pb_Tags p; pb_Health := pb_Health p; pb_TenantID := pb_TenantID p;
     pb_Remote := pb_Remote p; pb_RemoteCredentials := pb_RemoteCredentials p; pb_lastHB := pb_lastHB p |}.
Definition set_level (v : CapabilityLevel) (p : ProbeState) : ProbeState :=
  {| pb_ID := pb_ID p; pb_Hostname := pb_Hostname p; pb_OS := pb_OS p; pb_Arch := pb_Arch p; pb_Status := pb_Status p; pb_Type := pb_Type p;
     pb_PolicyLevel := v; pb_APIKey := pb_APIKey p; pb_Registered := pb_Registered p; pb_LastSeen := pb_LastSeen p;
     pb_Inventory := pb_Inventory p; pb_Labels := pb_Labels p; pb_Tags := pb_Tags p; pb_Health := pb_Health p; pb_TenantID := pb_TenantID p;
     pb_Remote := pb_Remote p; pb_RemoteCredentials := pb_RemoteCredentials p; pb_lastHB := pb_lastHB p |}.
Definition set_key (v : string) (p : ProbeState) : ProbeState :=
  {| pb_ID := pb_ID p; pb_Hostname := pb_Hostname p; pb_OS := pb_OS p; pb_Arch := pb_Arch p; pb_Status := pb_Status p; pb_Type := pb_Type p;
     pb_PolicyLevel := pb_PolicyLevel p; pb_APIKey := v; pb_Registered := pb_Registered p; pb_LastSeen := pb_LastSeen p;
     pb_Inventory := pb_Inventory p; pb_Labels := pb_Labels p; pb_Tags := pb_Tags p; pb_Health := pb_Health p; pb_TenantID := pb_TenantID p;
     pb_Remote := pb_Remote p; pb_RemoteCredentials := pb_RemoteCredentials p; pb_lastHB := pb_lastHB p |}.
Definition set_tags (v : list string) (p : ProbeState) : ProbeState :=
  {| pb_ID := pb_ID p; pb_Hostname := pb_Hostname p; pb_OS := pb_OS p; pb_Arch := pb_Arch p; pb_Status := pb_Status p; pb_Type := pb_Type p;
     pb_PolicyLevel := pb_PolicyLevel p; pb_APIKey := pb_APIKey p; pb_Registered := pb_Registered p; pb_LastSeen := pb_LastSeen p;
     pb_Inventory := pb_Inventory p; pb_Labels := pb_Labels p; pb_Tags := v; pb_Health := pb_Health p; pb_TenantID := pb_TenantID p;
     pb_Remote := pb_Remote p; pb_RemoteCredentials := pb_RemoteCredentials p; pb_lastHB := pb_lastHB p |}.
Definition set_tenant (v : string) (p : ProbeState) : ProbeState :=
  {| pb_ID := pb_ID p; pb_Hostname := pb_Hostname p; pb_OS := pb_OS p; pb_Arch := pb_Arch p; pb_Status := pb_Status p; pb_Type := pb_Type p;
     pb_PolicyLevel := pb_PolicyLevel p; pb_APIKey := pb_APIKey p; pb_Registered := pb_Registered p; pb_LastSeen := pb_LastSeen p;
     pb_Inventory := pb_Inventory p; pb_Labels := pb_Labels p; pb_Tags := pb_Tags p; pb_Health := pb_Health p; pb_TenantID := v;
     pb_Remote := pb_Remote p; pb_RemoteCredentials := pb_RemoteCredentials p; pb_lastHB := pb_lastHB p |}.

(** ** Health *)

Definition loadHighThreshold : spec_float := float64_of_int 4.
Definition loadCritThreshold : spec_float := float64_of_int 8.
Definition memHighPct : spec_float := float64_of_int 85.
Definition memCritPct : spec_float := float64_of_int 95.
Definition diskHighPct : spec_float := float64_of_int 80.
Definition diskCritPct : spec_float := float64_of_int 95.

(** One check: what it takes off the score, and its warning. *)
Definition check (value crit high : spec_float) (critical warning : string) (acc : Z * list string) : Z * list string :=
  if fge value crit then (acc.1 - 30, acc.2 ++ [critical])
  else if fge value high then (acc.1 - 15, acc.2 ++ [warning])
  else acc.

(** [float64(used) / float64(total) * 100] *)
Definition percent (used total : Z) : spec_float := fmul (fdiv (float64_of_int used) (float64_of_int total)) (float64_of_int 100).

Definition health_status (score : Z) : string :=
  if 80 <=? score then "healthy" else if 50 <=? score then "warning" else if 20 <=? score then "degraded" else "critical".

Definition cpu_count (inv : option InventoryPayload) : Z :=
  match inv with Some i => if 0 <? inv_CPUs i then inv_CPUs i else 1 | None => 1 end.

Definition ScoreHealth (hb : option HeartbeatPayload) (inv : option InventoryPayload) : HealthScore :=
  match hb with
  | None => {| hs_Score := 0; hs_Status := "unknown"; hs_Warnings := ["no heartbeat data"] |}
  | Some hb =>
      let load := (hb_Load hb).1.1 in
      let cpus := cpu_count inv in
      let loadPerCPU := fdiv load (float64_of_int cpus) in
      let acc := check loadPerCPU (fdiv loadCritThreshold (float64_of_int cpus)) (fdiv loadHighThreshold (float64_of_int cpus))
                   "critical load average" "high load average" (100, []) in
      let acc := if 0 <? hb_MemTotal hb
                 then check (percent (hb_MemUsed hb) (hb_MemTotal hb)) memCritPct memHighPct "critical memory usage" "high memory usage" acc
                 else acc in
      let acc := if 0 <? hb_DiskTotal hb
                 then check (percent (hb_DiskUsed hb) (hb_DiskTotal hb)) diskCritPct diskHighPct "critical disk usage" "high disk usage" acc
                 else acc in
      let score := if acc.1 <? 0 then 0 else acc.1 in
      {| hs_Score := score; hs_Status := health_status score; hs_Warnings := acc.2 |}
  end.

(** ** Helpers *)

Definition hostnameStatusRank (status : string) : Z :=
  let s := ToLower (TrimSpace status) in
  if s =s "online" then 4 else if s =s "degraded" then 3 else if s =s "pending" then 2 else if s =s "offline" then 1 else 0.

Definition betterHostnameCandidate (candidate current : ProbeState) : bool :=
  let candidateRank := hostnameStatusRank (pb_Status candidate) in
  let currentRank := hostnameStatusRank (pb_Status current) in
  if negb (candidateRank =? currentRank) then currentRank <? candidateRank
  else if negb (pb_LastSeen candidate =? pb_LastSeen current) then After (pb_LastSeen candidate) (pb_LastSeen current)
  else if negb (pb_Registered candidate =? pb_Registered current) then After (pb_Registered candidate) (pb_Registered current)
  else String.ltb (pb_ID candidate) (pb_ID current).

(** The loop of [normalizeTags], with the set [seen]. *)
Fixpoint normalize_tags (seen : gset string) (tags : list string) : list string :=
  match tags with
  | [] => []
  | raw :: rest =>
      let t := ToLower (TrimSpace raw) in
      if t =s "" then normalize_tags seen rest
      else if decide (t ∈ seen) then normalize_tags seen rest
      else t :: normalize_tags ({[t]} ∪ seen) rest
  end.
Definition normalizeTags (tags : list string) : list string := normalize_tags ∅ tags.

Definition normalizeRemotePort (port : Z) : Z := if port <=? 0 then 22 else port.

Definition normalizeProbeType (probeType : string) : string :=
  let t := ToLower (TrimSpace probeType) in if t =s "" then ProbeTypeAgent else t.

(** [counts[k]++] *)
Definition count_up (k : string) (m : gmap string Z) : gmap string Z := <[k := default 0 (m !! k) + 1]> m.

Definition unknown_probe (id : string) : go_error := ErrorString ("unknown probe: " +:+ id)%string.

(** ** Operations *)

Section manager.
Context `{Host} `{Runtime}.

(** The probe under an id, or the error every operation answers for an id it does
    not know. *)
Definition known (id : string) : F ProbeState :=
  p ← gets (λ s, probes s !! id);
  match p with Some ps => mret ps | None => fail (unknown_probe id) end.
Definition put_probe (id : string) (ps : ProbeState) : F unit := puts (set_probes (λ m, <[id := ps]> m)).

Definition new_probe (id hostname os arch : string) (now : time) : ProbeState :=
  {| pb_ID := id; pb_Hostname := hostname; pb_OS := os; pb_Arch := arch; pb_Status := "online"; pb_Type := ProbeTypeAgent;
     pb_PolicyLevel := CapObserve; pb_APIKey := ""; pb_Registered := now; pb_LastSeen := now; pb_Inventory := None; pb_Labels := ∅;
     pb_Tags := []; pb_Health := None; pb_TenantID := ""; pb_Remote := None; pb_RemoteCredentials := None; pb_lastHB := None |}.

Definition Register (id hostname os arch : string) : F ProbeState :=
  now ← time_now;
  let ps := new_probe id hostname os arch now in
  _ ← put_probe id ps;
  mret ps.

Definition remote_probe (id : string) (spec : RemoteProbeRegistration) (now : time) : ProbeState :=
  let password := TrimSpace (cr_Password (rp_Credentials spec)) in
  let privateKey := TrimSpace (cr_PrivateKey (rp_Credentials spec)) in
  let remote := {| rc_Host := TrimSpace (rc_Host (rp_Remote spec)); rc_Port := normalizeRemotePort (rc_Port (rp_Remote spec));
                   rc_Username := TrimSpace (rc_Username (rp_Remote spec)); rc_AuthMode := TrimSpace (rc_AuthMode (rp_Remote spec));
                   rc_HasPassword := password <>s ""; rc_HasPrivateKey := privateKey <>s "" |} in
  {| pb_ID := id; pb_Hostname := if TrimSpace (rp_Hostname spec) =s "" then rc_Host remote else TrimSpace (rp_Hostname spec);
     pb_OS := TrimSpace (rp_OS spec); pb_Arch := TrimSpace (rp_Arch spec); pb_Status := "pending"; pb_Type := ProbeTypeRemote;
     pb_PolicyLevel := if rp_PolicyLevel spec =s "" then CapObserve else rp_PolicyLevel spec; pb_APIKey := "";
     pb_Registered := now; pb_LastSeen := now; pb_Inventory := None; pb_Labels := ∅; pb_Tags := normalizeTags (rp_Tags spec);
     pb_Health := None; pb_TenantID := TrimSpace (rp_TenantID spec); pb_Remote := Some remote;
     pb_RemoteCredentials := Some {| cr_Password := password; cr_PrivateKey := privateKey |}; pb_lastHB := None |}.

Definition RegisterRemote (spec : RemoteProbeRegistration) : F ProbeState :=
  let id := TrimSpace (rp_ID spec) in
  if id =s "" then errorf "remote probe id is required"
  else if TrimSpace (rc_Host (rp_Remote spec)) =s "" then errorf "remote host is required"
  else if TrimSpace (rc_Username (rp_Remote spec)) =s "" then errorf "remote username is required"
  else if (TrimSpace (cr_Password (rp_Credentials spec)) =s "") && (TrimSpace (cr_PrivateKey (rp_Credentials spec)) =s "")
  then errorf "remote probe requires password or private key"
  else
    now ← time_now;
    let ps := remote_probe id spec now in
    _ ← put_probe id ps;
    mret ps.

Definition Heartbeat (id : string) (hb : option HeartbeatPayload) : F unit :=
  ps ← known id;
  now ← time_now;
  let h := ScoreHealth hb (pb_Inventory ps) in
  let status := if (hs_Status h =s "critical") || (hs_Status h =s "degraded") then "degraded"%string else "online"%string in
  put_probe id (set_status status (set_heartbeat hb h (set_last_seen now ps))).

Definition UpdateInventory (id : string) (inv : option InventoryPayload) : F unit :=
  ps ← known id;
  now ← time_now;
  put_probe id (set_last_seen now (set_inventory inv ps)).

Definition Get (id : string) : F (option ProbeState) := gets (λ s, probes s !! id).

(** The loop of [FindByHostname]: the best candidate so far. *)
Definition better_of (hostname : string) (best : option ProbeState) (candidate : ProbeState) : option ProbeState :=
  if pb_Hostname candidate <>s hostname then best
  else match best with
       | None => Some candidate
       | Some b => if betterHostnameCandidate candidate b then Some candidate else best
       end.

Definition FindByHostname (hostname : string) : F (option ProbeState) :=
  entries ← range probes;
  mret (foldl (better_of hostname) None (map snd entries)).

Definition List_ : F (list ProbeState) :=
  entries ← range probes;
  mret (map snd entries).

Definition ListRemote : F (list ProbeState) :=
  entries ← range probes;
  mret (List.filter (λ ps, normalizeProbeType (pb_Type ps) =s ProbeTypeRemote) (map snd entries)).

Definition SetPolicy (id : string) (level : CapabilityLevel) : F unit :=
  ps ← known id; put_probe id (set_level level ps).
Definition SetAPIKey (id apiKey : string) : F unit :=
  ps ← known id; put_probe id (set_key apiKey ps).
Definition SetTags (id : string) (tags : list string) : F unit :=
  ps ← known id; put_probe id (set_tags (normalizeTags tags) ps).
Definition SetTenantID (id tenantID : string) : F unit :=
  ps ← known id; put_probe id (set_tenant tenantID ps).

Definition SetStatus (id status : string) : F unit :=
  ps ← known id;
  let status := ToLower (TrimSpace status) in
  if status =s "" then errorf "status is required"
  else if (status =s "online") || (status =s "degraded")
  then (now ← time_now; put_probe id (set_last_seen now (set_status status ps)))
  else put_probe id (set_status status ps).

Definition SetOnline (id : string) : F unit :=
  ps ← known id;
  now ← time_now;
  put_probe id (set_last_seen now (set_status "online" ps)).

(** [time.Now().UTC().Add(-d)] *)
Definition cutoff_before (now : time) (d : duration) : time := now + to_int64 (- d).

(** The loop of [MarkOffline] changes each probe by itself. *)
Definition mark_stale (cutoff : time) (ps : ProbeState) : ProbeState :=
  if (pb_Status ps <>s "offline") && Before (pb_LastSeen ps) cutoff then set_status "offline" ps else ps.
Definition MarkOffline (threshold : duration) : F unit :=
  now ← time_now;
  puts (set_probes (fmap (mark_stale (cutoff_before now threshold)))).

Definition Count : F (gmap string Z) :=
  entries ← range probes;
  mret (foldl (λ m ps, count_up (pb_Status ps) m) ∅ (map snd entries)).

Definition ListByTag (tag : string) : F (list ProbeState) :=
  let tag := ToLower (TrimSpace tag) in
  if tag =s "" then mret []
  else
    entries ← range probes;
    mret (List.filter (λ ps, existsb (λ t, t =s tag) (pb_Tags ps)) (map snd entries)).

Definition TagCounts : F (gmap string Z) :=
  entries ← range probes;
  mret (foldl (λ m t, count_up t m) ∅ (flat_map pb_Tags (map snd entries))).

Definition Delete (id : string) : F unit :=
  _ ← known id;
  puts (set_probes (delete id)).

Definition expired_offline (cutoff : time) (ps : ProbeState) : bool := (pb_Status ps =s "offline") && Before (pb_LastSeen ps) cutoff.
Definition delete_all (ids : list string) (m : gmap string ProbeState) : gmap string ProbeState := foldl (λ m id, delete id m) m ids.
Definition CleanupOffline (olderThan : duration) : F (list string) :=
  now ← time_now;
  entries ← range probes;
  let removed := map fst (List.filter (λ kv, expired_offline (cutoff_before now olderThan) kv.2) entries) in
  _ ← puts (set_probes (delete_all removed));
  mret removed.

Definition ListByTenant (tenantID : string) : F (list ProbeState) :=
  entries ← range probes;
  mret (List.filter (λ ps, pb_TenantID ps =s tenantID) (map snd entries)).
End manager.
