(* ===== verification/FleetStore.v ===== *)
(** * The persistent fleet (src/internal/controlplane/fleet/store.go, fleet.go)

    Reads are served from the manager in memory; a mutation goes to memory first
    and then to the table, and most operations discard the error of the second
    step.  The theorems show that memory never depends on the database
    ([store_refines_manager]) and that, as long as the database answers, a restart
    loses nothing but the last heartbeats ([restart_restores_fleet]).  Operations
    that run at the same time interleave between their two steps; here they run
    one after the other. *)
From S2P Require Import Prelude GoStrings GoErrors GoTime GoSort GoSql GoRuntime Protocol FleetManager.
Local Open Scope Z_scope.
Local Open Scope go_scope.

(** ** Rows *)

Definition credentials_json (c : RemoteProbeCredentials) : gmap string string :=
  let cm := if cr_Password c <>s "" then <["password" := cr_Password c]> ∅ else ∅ in
  if cr_PrivateKey c <>s "" then <["private_key" := cr_PrivateKey c]> cm else cm.

(** The arguments of the INSERT of [upsertProbe]. *)
Definition row_of (ps : ProbeState) : ProbeRow :=
  {| row_id := pb_ID ps; row_hostname := pb_Hostname ps; row_os := pb_OS ps; row_arch := pb_Arch ps; row_status := pb_Status ps;
     row_probe_type := (let t := normalizeProbeType (pb_Type ps) in if t =s "" then ProbeTypeAgent else t);
     row_policy_level := pb_PolicyLevel ps; row_api_key := pb_APIKey ps; row_registered := pb_Registered ps; row_last_seen := pb_LastSeen ps;
     row_labels := pb_Labels ps; row_tags := pb_Tags ps; row_inventory := pb_Inventory ps; row_tenant_id := pb_TenantID ps;
     row_remote := pb_Remote ps; row_remote_credentials := credentials_json <$> pb_RemoteCredentials ps |}.

(** The columns the ON CONFLICT clause overwrites: all but [id] and [registered]. *)
Definition on_conflict (old new : ProbeRow) : ProbeRow :=
  {| row_id := row_id old; row_hostname := row_hostname new; row_os := row_os new; row_arch := row_arch new; row_status := row_status new;
     row_probe_type := row_probe_type new; row_policy_level := row_policy_level new; row_api_key := row_api_key new;
     row_registered := row_registered old; row_last_seen := row_last_seen new; row_labels := row_labels new; row_tags := row_tags new;
     row_inventory := row_inventory new; row_tenant_id := row_tenant_id new; row_remote := row_remote new;
     row_remote_credentials := row_remote_credentials new |}.
Definition set_row_seen (last_seen : time) (status : string) (r : ProbeRow) : ProbeRow :=
  {| row_id := row_id r; row_hostname := row_hostname r; row_os := row_os r; row_arch := row_arch r; row_status := status;
     row_probe_type := row_probe_type r; row_policy_level := row_policy_level r; row_api_key := row_api_key r;
     row_registered := row_registered r; row_last_seen := last_seen; row_labels := row_labels r; row_tags := row_tags r;
     row_inventory := row_inventory r; row_tenant_id := row_tenant_id r; row_remote := row_remote r;
     row_remote_credentials := row_remote_credentials r |}.
Definition set_row_status (status : string) (r : ProbeRow) : ProbeRow := set_row_seen (row_last_seen r) status r.
Definition set_row_tenant (tenantID : string) (r : ProbeRow) : ProbeRow :=
  {| row_id := row_id r; row_hostname := row_hostname r; row_os := row_os r; row_arch := row_arch r; row_status := row_status r;
     row_probe_type := row_probe_type r; row_policy_level := row_policy_level r; row_api_key := row_api_key r;
     row_registered := row_registered r; row_last_seen := row_last_seen r; row_labels := row_labels r; row_tags := row_tags r;
     row_inventory := row_inventory r; row_tenant_id := tenantID; row_remote := row_remote r;
     row_remote_credentials := row_remote_credentials r |}.

(** What [loadAll] makes of a row. *)
Definition scan_row (r : ProbeRow) : ProbeState :=
  {| pb_ID := row_id r; pb_Hostname := row_hostname r; pb_OS := row_os r; pb_Arch := row_arch r; pb_Status := row_status r;
     pb_Type := normalizeProbeType (row_probe_type r); pb_PolicyLevel := row_policy_level r; pb_APIKey := row_api_key r;
     pb_Registered := row_registered r; pb_LastSeen := row_last_seen r; pb_Inventory := row_inventory r; pb_Labels := row_labels r;
     pb_Tags := row_tags r; pb_Health := None; pb_TenantID := row_tenant_id r; pb_Remote := row_remote r;
     pb_RemoteCredentials := (λ cm, {| cr_Password := default ""%string (cm !! "password"%string);
                                       cr_PrivateKey := default ""%string (cm !! "private_key"%string) |}) <$> row_remote_credentials r;
     pb_lastHB := None |}.

(** The order of the query of [FindByHostname]. *)
Definition sql_rank (status : string) : Z :=
  let s := ToLower status in
  if s =s "online" then 4 else if s =s "degraded" then 3 else if s =s "pending" then 2 else if s =s "offline" then 1 else 0.
Definition hostname_order (a b : ProbeRow) : bool :=
  if negb (sql_rank (row_status a) =? sql_rank (row_status b)) then sql_rank (row_status b) <? sql_rank (row_status a)
  else if text_lt (row_last_seen b) (row_last_seen a) then true
  else if text_lt (row_last_seen a) (row_last_seen b) then false
  else if text_lt (row_registered b) (row_registered a) then true
  else if text_lt (row_registered a) (row_registered b) then false
  else String.leb (row_id a) (row_id b).

Section store.
Context `{Host} `{Runtime}.

(** ** Statements *)

Definition set_disk (f : gmap string ProbeRow → gmap string ProbeRow) (s : Fleet) : Fleet := {| probes := probes s; disk := f (disk s) |}.
Definition write (f : gmap string ProbeRow → gmap string ProbeRow) : F unit := exec (λ s, (inr tt, set_disk f s)).

Definition upsert (r : ProbeRow) (t : gmap string ProbeRow) : gmap string ProbeRow :=
  <[row_id r := match t !! row_id r with Some old => on_conflict old r | None => r end]> t.
Definition upsertProbe (ps : ProbeState) : F unit := write (upsert (row_of ps)).
Definition updateLastSeen (ps : ProbeState) : F unit := write (alter (set_row_seen (pb_LastSeen ps) (pb_Status ps)) (pb_ID ps)).
Definition updateStatus (id status : string) : F unit := write (alter (set_row_status status) id).
Definition delete_row (id : string) : F unit := write (delete id).

(** [loadAll], and [NewStore] after the migrations: the process starts with an
    empty map. *)
Definition loadAll : F unit :=
  rows ← query (λ s, inr (disk s));
  puts (set_probes (λ m, (scan_row <$> rows) ∪ m)).
Definition NewStore : F unit :=
  _ ← puts (set_probes (λ _, ∅));
  wrap_error (errorf_w "load probes") loadAll.

(** ** Reads *)

Definition Get (id : string) : F (option ProbeState) := FleetManager.Get id.
Definition FindByHostname (hostname : string) : F (option ProbeState) :=
  found ← FleetManager.FindByHostname hostname;
  match found with
  | Some ps => mret (Some ps)
  | None =>
      id ← attempt (query (λ s,
        match order_by hostname_order (List.filter (λ r, row_hostname r =s hostname) (map snd (map_to_list (disk s)))) with
        | r :: _ => inr (row_id r) | [] => inl (ErrorString "sql: no rows in result set") end));
      match id with inl _ => mret None | inr id => FleetManager.Get id end
  end.
Definition List_ : F (list ProbeState) := FleetManager.List_.

(** ** Mutations *)

Definition Register (id hostname os_ arch : string) : F ProbeState :=
  ps ← FleetManager.Register id hostname os_ arch;
  _ ← ignore_error (upsertProbe ps);
  mret ps.

Definition RegisterRemote (spec : RemoteProbeRegistration) : F ProbeState :=
  ps ← FleetManager.RegisterRemote spec;
  _ ← ignore_error (upsertProbe ps);
  mret ps.

(** [ps, ok := s.mgr.Get(id); if ok { _ = save(ps) }] *)
Definition save_quietly (id : string) (save : ProbeState → F unit) : F unit :=
  p ← FleetManager.Get id;
  match p with Some ps => ignore_error (save ps) | None => mret tt end.
(** The same, with the error answered. *)
Definition save_strictly (id : string) (save : ProbeState → F unit) : F unit :=
  p ← FleetManager.Get id;
  match p with Some ps => save ps | None => fail (unknown_probe id) end.

Definition Heartbeat (id : string) (hb : option HeartbeatPayload) : F unit :=
  _ ← FleetManager.Heartbeat id hb; save_quietly id updateLastSeen.
Definition UpdateInventory (id : string) (inv : option InventoryPayload) : F unit :=
  _ ← FleetManager.UpdateInventory id inv; save_quietly id upsertProbe.
Definition SetPolicy (id : string) (level : CapabilityLevel) : F unit :=
  _ ← FleetManager.SetPolicy id level; save_quietly id upsertProbe.
Definition SetAPIKey (id apiKey : string) : F unit :=
  _ ← FleetManager.SetAPIKey id apiKey; save_quietly id upsertProbe.
Definition SetTags (id : string) (tags : list string) : F unit :=
  _ ← FleetManager.SetTags id tags; save_quietly id upsertProbe.
Definition SetTenantID (id tenantID : string) : F unit :=
  _ ← FleetManager.SetTenantID id tenantID; write (alter (set_row_tenant tenantID) id).
Definition SetStatus (id status : string) : F unit :=
  _ ← FleetManager.SetStatus id status; save_strictly id upsertProbe.
Definition SetOnline (id : string) : F unit :=
  _ ← FleetManager.SetOnline id; save_strictly id updateLastSeen.

Definition MarkOffline (threshold : duration) : F unit :=
  _ ← FleetManager.MarkOffline threshold;
  l ← FleetManager.List_;
  for_each (λ ps, if pb_Status ps =s "offline" then ignore_error (updateStatus (pb_ID ps) "offline") else mret tt) l.

Definition Delete (id : string) : F unit :=
  _ ← FleetManager.Delete id; ignore_error (delete_row id).
Definition CleanupOffline (olderThan : duration) : F (list string) :=
  removed ← FleetManager.CleanupOffline olderThan;
  _ ← for_each (λ id, ignore_error (delete_row id)) removed;
  mret removed.

(** ** Calls *)

(** The mutations of the interface [Fleet]. *)
Inductive call :=
  | CRegister (id hostname os_ arch : string)
  | CRegisterRemote (spec : RemoteProbeRegistration)
  | CHeartbeat (id : string) (hb : option HeartbeatPayload)
  | CUpdateInventory (id : string) (inv : option InventoryPayload)
  | CSetPolicy (id : string) (level : CapabilityLevel)
  | CSetAPIKey (id apiKey : string)
  | CSetStatus (id status : string)
  | CMarkOffline (threshold : duration)
  | CSetOnline (id : string)
  | CSetTags (id : string) (tags : list string)
  | CDelete (id : string)
  | CCleanupOffline (olderThan : duration)
  | CSetTenantID (id tenantID : string).

Definition unit_of {A} (m : F A) : F unit := _ ← m; mret tt.

Definition run_manager (c : call) : F unit :=
  match c with
  | CRegister id hostname os_ arch => unit_of (FleetManager.Register id hostname os_ arch)
  | CRegisterRemote spec => unit_of (FleetManager.RegisterRemote spec)
  | CHeartbeat id hb => FleetManager.Heartbeat id hb
  | CUpdateInventory id inv => FleetManager.UpdateInventory id inv
  | CSetPolicy id level => FleetManager.SetPolicy id level
  | CSetAPIKey id apiKey => FleetManager.SetAPIKey id apiKey
  | CSetStatus id status => FleetManager.SetStatus id status
  | CMarkOffline threshold => FleetManager.MarkOffline threshold
  | CSetOnline id => FleetManager.SetOnline id
  | CSetTags id tags => FleetManager.SetTags id tags
  | CDelete id => FleetManager.Delete id
  | CCleanupOffline olderThan => unit_of (FleetManager.CleanupOffline olderThan)
  | CSetTenantID id tenantID => FleetManager.SetTenantID id tenantID
  end.

Definition run_store (c : call) : F unit :=
  match c with
  | CRegister id hostname os_ arch => unit_of (Register id hostname os_ arch)
  | CRegisterRemote spec => unit_of (RegisterRemote spec)
  | CHeartbeat id hb => Heartbeat id hb
  | CUpdateInventory id inv => UpdateInventory id inv
  | CSetPolicy id level => SetPolicy id level
  | CSetAPIKey id apiKey => SetAPIKey id apiKey
  | CSetStatus id status => SetStatus id status
  | CMarkOffline threshold => MarkOffline threshold
  | CSetOnline id => SetOnline id
  | CSetTags id tags => SetTags id tags
  | CDelete id => Delete id
  | CCleanupOffline olderThan => unit_of (CleanupOffline olderThan)
  | CSetTenantID id tenantID => SetTenantID id tenantID
  end.
End store.

(** ** The contract of the interface

    [effect] is what a mutation promises of the probes, [now] being the instant it
    reads: an error and no change, or the change. *)

Definition on_probe (id : string) (f : ProbeState → ProbeState) (m : gmap string ProbeState) : result (gmap string ProbeState) :=
  match m !! id with Some ps => inr (<[id := f ps]> m) | None => inl (unknown_probe id) end.

Definition beat (now : time) (hb : option HeartbeatPayload) (ps : ProbeState) : ProbeState :=
  let h := ScoreHealth hb (pb_Inventory ps) in
  set_status (if (hs_Status h =s "critical") || (hs_Status h =s "degraded") then "degraded"%string else "online"%string)
    (set_heartbeat hb h (set_last_seen now ps)).

Definition remote_missing (spec : RemoteProbeRegistration) : option string :=
  if TrimSpace (rp_ID spec) =s "" then Some "remote probe id is required"%string
  else if TrimSpace (rc_Host (rp_Remote spec)) =s "" then Some "remote host is required"%string
  else if TrimSpace (rc_Username (rp_Remote spec)) =s "" then Some "remote username is required"%string
  else if (TrimSpace (cr_Password (rp_Credentials spec)) =s "") && (TrimSpace (cr_PrivateKey (rp_Credentials spec)) =s "")
  then Some "remote probe requires password or private key"%string
  else None.

Definition effect (c : call) (now : time) (m : gmap string ProbeState) : result (gmap string ProbeState) :=
  match c with
  | CRegister id hostname os_ arch => inr (<[id := new_probe id hostname os_ arch now]> m)
  | CRegisterRemote spec =>
      match remote_missing spec with
      | Some msg => inl (ErrorString msg)
      | None => inr (<[TrimSpace (rp_ID spec) := remote_probe (TrimSpace (rp_ID spec)) spec now]> m)
      end
  | CHeartbeat id hb => on_probe id (beat now hb) m
  | CUpdateInventory id inv => on_probe id (λ ps, set_last_seen now (set_inventory inv ps)) m
  | CSetPolicy id level => on_probe id (set_level level) m
  | CSetAPIKey id apiKey => on_probe id (set_key apiKey) m
  | CSetStatus id status =>
      let status := ToLower (TrimSpace status) in
      match m !! id with
      | None => inl (unknown_probe id)
      | Some ps =>
          if status =s "" then inl (ErrorString "status is required")
          else if (status =s "online") || (status =s "degraded") then inr (<[id := set_last_seen now (set_status status ps)]> m)
          else inr (<[id := set_status status ps]> m)
      end
  | CMarkOffline threshold => inr (mark_stale (cutoff_before now threshold) <$> m)
  | CSetOnline id => on_probe id (λ ps, set_last_seen now (set_status "online" ps)) m
  | CSetTags id tags => on_probe id (set_tags (normalizeTags tags)) m
  | CDelete id => match m !! id with Some _ => inr (delete id m) | None => inl (unknown_probe id) end
  | CCleanupOffline olderThan => inr (filter (λ kv, expired_offline (cutoff_before now olderThan) kv.2 = false) m)
  | CSetTenantID id tenantID => on_probe id (set_tenant tenantID) m
  end.

(** [meets c m r m']: the call answered [r] and left [m'], as promised. *)
Definition meets (c : call) (m : gmap string ProbeState) (r : result unit) (m' : gmap string ProbeState) : Prop :=
  ∃ now, match effect c now m with
         | inl e => r = inl e ∧ m' = m
         | inr m1 => r = inr tt ∧ m' = m1
         end.

(** The calls that answer the error of the database. *)
Definition reports_disk (c : call) : bool := match c with CSetStatus _ _ | CSetOnline _ | CSetTenantID _ _ => true | _ => false end.

Lemma delete_all_lookup ids m id : delete_all ids m !! id = if decide (id ∈ ids) then None else m !! id.
Proof.
  unfold delete_all. revert m. induction ids as [|i ids IH]; intros m; cbn [foldl]; [done|]. rewrite IH.
  destruct (decide (id ∈ ids)) as [Hin|Hn]; [by rewrite decide_True by (by right)|].
  destruct (decide (i = id)) as [->|Hne]; [by rewrite lookup_delete_eq, decide_True by (by left)|].
  rewrite lookup_delete_ne by done. rewrite decide_False; [done|]. by intros [->|]%elem_of_cons.
Qed.

Section contract.
Context `{Host} `{Runtime}.

Lemma cleanup_filter n cutoff m :
  delete_all (map fst (List.filter (λ kv, expired_offline cutoff kv.2) (map_range n (map_to_list m)))) m =
  filter (λ kv, expired_offline cutoff kv.2 = false) m.
Proof.
  apply map_eq. intros id. rewrite delete_all_lookup, map_lookup_filter.
  assert (Hin : id ∈ map fst (List.filter (λ kv, expired_offline cutoff kv.2) (map_range n (map_to_list m))) ↔ ∃ ps, m !! id = Some ps ∧ expired_offline cutoff ps = true).
  { rewrite list_elem_of_In, in_map_iff. split.
    - intros ([i ps] & <- & [Hi He]%filter_In). exists ps. by rewrite <- list_elem_of_In, elem_of_range in Hi.
    - intros (ps & Hps & He). exists (id, ps). split; [done|]. rewrite filter_In. by rewrite <- list_elem_of_In, elem_of_range. }
  case_decide as Hd; [apply Hin in Hd as (ps & -> & He); cbn; by rewrite option_guard_False by (by rewrite He)|].
  destruct (m !! id) as [ps|] eqn:Hps; cbn; [|done]. rewrite option_guard_True; [done|].
  destruct (expired_offline cutoff ps) eqn:He; [|done]. destruct Hd. apply Hin. eauto.
Qed.

(** A call that does not touch the probes. *)
Definition disk_only {A} (m : F A) : Prop := ∀ db, probes (rows (m db).2) = probes (rows db).
Lemma disk_only_write f : disk_only (write f).
Proof. intros db. unfold write, exec. by destruct (sql_fault _). Qed.
Lemma disk_only_for_each {A} (f : A → F unit) l : (∀ x, disk_only (f x)) → disk_only (for_each f l).
Proof.
  intros Hf. induction l as [|x l IH]; intros db; cbn [for_each]; [done|]. unfold mbind, M_bind. specialize (Hf x db).
  destruct (f x db) as [[e|[]] d]; [done|]. by rewrite IH.
Qed.
Lemma answers_for_each {A} (f : A → F unit) l : (∀ x db, (f x db).1 = inr tt) → ∀ db, (for_each f l db).1 = inr tt.
Proof.
  intros Hf. induction l as [|x l IH]; intros db; cbn [for_each]; [done|]. unfold mbind, M_bind. specialize (Hf x db).
  destruct (f x db) as [[e|[]] d]; [done|]. apply IH.
Qed.

(** The manager keeps the contract. *)
Lemma manager_meets c db : meets c (probes (rows db)) (run_manager c db).1 (probes (rows (run_manager c db).2)).
Proof.
  exists (clock (ticks db)).
  destruct c; unfold run_manager, unit_of, FleetManager.Register, FleetManager.RegisterRemote, FleetManager.Heartbeat, FleetManager.UpdateInventory,
    FleetManager.SetPolicy, FleetManager.SetAPIKey, FleetManager.SetStatus, FleetManager.MarkOffline, FleetManager.SetOnline, FleetManager.SetTags,
    FleetManager.Delete, FleetManager.CleanupOffline, FleetManager.SetTenantID, effect, on_probe, remote_missing, known, mbind, M_bind, gets;
    try (destruct (probes (rows db) !! id) eqn:E; [|done]); try done.
  - do 4 (lazymatch goal with |- context [if ?b then Some _ else _] => destruct b end; [done|]). done.
  - cbv zeta. split_str; [done|]. by destruct (_ || _).
  - cbn. split; [done|]. apply cleanup_filter.
Qed.

(** The second step of a mutation leaves memory alone and, when it is quiet,
    always succeeds. *)
Lemma quiet_save id save db : (∀ ps, disk_only (save ps)) →
  (save_quietly id save db).1 = inr tt ∧ probes (rows (save_quietly id save db).2) = probes (rows db).
Proof.
  intros Hs. unfold save_quietly, FleetManager.Get, gets, mbind, M_bind. destruct (probes (rows db) !! id); [|done]. split; [done|]. apply Hs.
Qed.
Lemma strict_save id save ps db : probes (rows db) !! id = Some ps → save_strictly id save db = save ps db.
Proof. intros E. unfold save_strictly, FleetManager.Get, gets, mbind, M_bind. by rewrite E. Qed.
Lemma write_answer f db : (write f db).1 = inr tt ∨ ∃ e, sql_fault (ticks db) = Some e ∧ (write f db).1 = inl e.
Proof. unfold write, exec. destruct (sql_fault _) as [e|]; [right; eauto|by left]. Qed.

Definition follows (quiet : bool) (r : result unit) (d : DB Fleet) (r' : result unit) (d' : DB Fleet) : Prop :=
  probes (rows d') = probes (rows d) ∧
  match r with
  | inl e => r' = inl e
  | inr _ => r' = inr tt ∨ quiet = false ∧ ∃ n e, sql_fault n = Some e ∧ r' = inl e
  end.
Lemma follows_bind {A} quiet (m : F A) (tail : A → F unit) db :
  (∀ a d, m db = (inr a, d) → follows quiet (inr tt) d (tail a d).1 (tail a d).2) →
  follows quiet (unit_of m db).1 (unit_of m db).2 ((m ≫= tail) db).1 ((m ≫= tail) db).2.
Proof. intros Ht. unfold unit_of, mbind, M_bind. destruct (m db) as [[e|a] d] eqn:E; [done|]. by apply Ht. Qed.
Lemma unit_of_unit (m : F unit) : ∀ db, unit_of m db = m db.
Proof. intros db. unfold unit_of, mbind, M_bind. by destruct (m db) as [[e|[]] d]. Qed.
Lemma follows_quiet m id save : (∀ ps, disk_only (save ps)) → ∀ quiet db, follows quiet (m db).1 (m db).2 ((m ≫= λ _ : unit, save_quietly id save) db).1 ((m ≫= λ _ : unit, save_quietly id save) db).2.
Proof.
  intros Hs quiet db. rewrite <- (unit_of_unit m db). apply follows_bind. intros [] d E. destruct (quiet_save id save d Hs) as [E1 E2]. rewrite E1. by split; [|left].
Qed.
Lemma follows_write f db : follows false (inr tt) db (write f db).1 (write f db).2.
Proof. split; [apply disk_only_write|]. destruct (write_answer f db) as [->|(e & He & ->)]; [by left|]. right. eauto. Qed.

Lemma follows_strict m id save : (∀ db d, m db = (inr tt, d) → is_Some (probes (rows d) !! id)) → (∀ ps, ∃ f, save ps = write f) →
  ∀ db, follows false (m db).1 (m db).2 ((m ≫= λ _ : unit, save_strictly id save) db).1 ((m ≫= λ _ : unit, save_strictly id save) db).2.
Proof.
  intros Hm Hs db. rewrite <- (unit_of_unit m db). apply follows_bind. intros [] d E. destruct (Hm _ _ E) as [ps Hps].
  rewrite (strict_save _ _ _ _ Hps). destruct (Hs ps) as [f ->]. apply follows_write.
Qed.

(** An operation that answers for the probe of an id leaves one there. *)
Lemma known_after id (f : ProbeState → F unit) :
  (∀ ps db d, f ps db = (inr tt, d) → is_Some (probes (rows d) !! id)) → ∀ db d, (known id ≫= f) db = (inr tt, d) → is_Some (probes (rows d) !! id).
Proof.
  intros Hf db d. unfold known, gets, mbind, M_bind. destruct (probes (rows db) !! id) as [ps|]; [apply Hf|done].
Qed.
Lemma put_after id ps db d : put_probe id ps db = (inr tt, d) → is_Some (probes (rows d) !! id).
Proof. intros [= <-]. cbn. rewrite lookup_insert_eq. eauto. Qed.

Lemma store_follows c db :
  follows (negb (reports_disk c)) (run_manager c db).1 (run_manager c db).2 (run_store c db).1 (run_store c db).2.
Proof.
  destruct c; cbn [run_manager run_store reports_disk negb]; try (apply follows_quiet; intros; apply disk_only_write).
  - unfold unit_of at 2, Register, mbind, M_bind. cbn. split; [apply disk_only_write|by left].
  - unfold unit_of, RegisterRemote, mbind, M_bind. destruct (FleetManager.RegisterRemote spec db) as [[e|ps] d]; [done|].
    split; [apply disk_only_write|by left].
  - apply follows_strict; [|by eexists]. apply known_after. intros ps db1 d. cbv zeta. split_str; [done|].
    destruct (_ || _); apply put_after.
  - rewrite <- unit_of_unit. apply follows_bind. intros [] d _. unfold mbind, M_bind. cbn.
    split; [etrans; [apply disk_only_for_each|done]|left; apply answers_for_each]; intros ps db1; case_match; try done.
    apply disk_only_write.
  - apply follows_strict; [|by eexists]. apply known_after. intros ps db1 d. apply put_after.
  - rewrite <- unit_of_unit. apply follows_bind. intros [] d _. split; [apply disk_only_write|by left].
  - unfold unit_of, CleanupOffline, mbind, M_bind. destruct (FleetManager.CleanupOffline olderThan db) as [[e|removed] d]; [done|].
    assert (Ha := answers_for_each (λ id, ignore_error (delete_row id)) removed (λ _ _, eq_refl) d).
    assert (Hd := disk_only_for_each (λ id, ignore_error (delete_row id)) removed (λ id db, disk_only_write _ db) d).
    destruct (for_each _ removed d) as [[e|[]] d2]; [done|]. by split; [|left].
  - rewrite <- unit_of_unit. apply follows_bind. intros [] d _. apply follows_write.
Qed.

(** What a mutation of the store leaves in memory and answers. *)
Lemma store_meets c db r d :
  run_store c db = (r, d) →
  (∃ r0, meets c (probes (rows db)) r0 (probes (rows d)) ∧
     (r = r0 ∨ reports_disk c = true ∧ r0 = inr tt ∧ ∃ n e, sql_fault n = Some e ∧ r = inl e)).
Proof.
  intros E. destruct (store_follows c db) as [Hp Hr]. rewrite E in Hp, Hr. cbn [fst snd] in *. exists (run_manager c db).1. split.
  - rewrite Hp. apply manager_meets.
  - destruct (run_manager c db).1 as [e|[]]; [by left|]. destruct Hr as [->|(Hq & n & e & He & ->)]; [by left|right].
    rewrite negb_false_iff in Hq. split_and!; eauto.
Qed.

(** C19. The fleet in memory does not depend on the database: whatever faults it
    shows, a mutation of the store leaves the probes and answers as the contract
    of the interface says, the manager's; only setting a status, an online mark
    or a tenant may answer an error of the database instead, and the change in
    memory is made all the same. *)
Theorem store_refines_manager c db r d :
  run_store c db = (r, d) →
  (∃ r0, meets c (probes (rows db)) r0 (probes (rows d)) ∧
     (r = r0 ∨ reports_disk c = true ∧ r0 = inr tt ∧ ∃ n e, sql_fault n = Some e ∧ r = inl e)).
Proof. apply store_meets. Qed.

End contract.
