(* ===== verification/FleetRestart.v ===== *)
(** * The fleet across restarts, and its lookups

    The invariant of the fleet, the agreement of memory and table while the
    database answers, and what the lookups by hostname and by tag return whatever
    order the map is visited in. *)
From Stdlib Require Import SpecFloat.
From S2P Require Import Prelude GoStrings GoErrors GoTime GoFloat GoSort GoSql GoRuntime Protocol FleetManager FleetStore.
Local Open Scope Z_scope.
Local Open Scope go_scope.

(** ** Tags *)

Definition tag_ok (t : string) : Prop := t ≠ ""%string ∧ ToLower (TrimSpace t) = t.
Definition tags_ok (l : list string) : Prop := NoDup l ∧ Forall tag_ok l.

Lemma lower_trim_idem s : ToLower (TrimSpace (ToLower (TrimSpace s))) = ToLower (TrimSpace s).
Proof. by rewrite TrimSpace_ToLower, TrimSpace_idem, ToLower_idem. Qed.

Lemma elem_of_normalize_tags t seen l : t ∈ normalize_tags seen l ↔ t ≠ ""%string ∧ t ∉ seen ∧ ∃ raw, raw ∈ l ∧ ToLower (TrimSpace raw) = t.
Proof.
  revert seen. induction l as [|raw l IH]; intros seen; cbn [normalize_tags]; cbv zeta.
  - split; [by intros ?%elem_of_nil|]. by intros (_ & _ & raw & ?%elem_of_nil & _).
  - destruct (String.eqb_spec (ToLower (TrimSpace raw)) "") as [E|E]; [|case_decide as Hs].
    + rewrite IH. split; [intros (? & ? & r & ? & ?)|intros (Hn & ? & r & [->|Hr]%elem_of_cons & Ht)].
      * split_and!; [done..|]. exists r. split; [by right|done].
      * by rewrite Ht in E.
      * eauto.
    + rewrite IH. split; [intros (? & ? & r & ? & ?)|intros (Hn & Hm & r & [->|Hr]%elem_of_cons & Ht)].
      * split_and!; [done..|]. exists r. split; [by right|done].
      * by rewrite Ht in Hs.
      * eauto.
    + rewrite elem_of_cons, IH. split; [intros [->|(? & ? & r & ? & ?)]|intros (Hn & Hm & r & [->|Hr]%elem_of_cons & Ht)].
      * split_and!; [done..|]. exists raw. split; [by left|done].
      * split_and!; [done|set_solver|]. exists r. split; [by right|done].
      * by left.
      * destruct (decide (t = ToLower (TrimSpace raw))); [by left|right]. split_and!; [done|set_solver|eauto].
Qed.

Lemma normalize_tags_NoDup seen l : NoDup (normalize_tags seen l).
Proof.
  revert seen. induction l as [|raw l IH]; intros seen; cbn [normalize_tags]; cbv zeta; [constructor|].
  split_str; [done|]. case_decide; [done|]. constructor; [|done]. rewrite elem_of_normalize_tags. set_solver.
Qed.

(** The tags a probe carries are the normalised forms of those it was given. *)
Lemma normalizeTags_ok l : tags_ok (normalizeTags l).
Proof.
  split; [apply normalize_tags_NoDup|]. rewrite Forall_forall. intros t (Hn & _ & raw & _ & <-)%elem_of_normalize_tags.
  split; [done|apply lower_trim_idem].
Qed.

(** ** The invariant *)

Record probe_ok (id : string) (ps : ProbeState) : Prop := {
  ok_id : pb_ID ps = id;
  ok_type : normalizeProbeType (pb_Type ps) = pb_Type ps;
  ok_tags : tags_ok (pb_Tags ps);
}.
Definition fleet_ok (m : gmap string ProbeState) : Prop := map_Forall probe_ok m.

Lemma ok_insert id ps m : fleet_ok m → probe_ok id ps → fleet_ok (<[id := ps]> m).
Proof. intros Hm Hp. by apply map_Forall_insert_2. Qed.
Lemma ok_on_probe id f m m' : fleet_ok m → (∀ ps, probe_ok id ps → probe_ok id (f ps)) → on_probe id f m = inr m' → fleet_ok m'.
Proof.
  unfold on_probe. intros Hm Hf E. destruct (m !! id) as [ps|] eqn:Hps; [|done]. injection E as <-. apply ok_insert; [done|]. apply Hf, (Hm _ _ Hps).
Qed.
Lemma probe_ok_same id ps ps' : probe_ok id ps → pb_ID ps' = pb_ID ps → pb_Type ps' = pb_Type ps → pb_Tags ps' = pb_Tags ps → probe_ok id ps'.
Proof. intros [H1 H2 H3] E1 E2 E3. constructor; [by rewrite E1|by rewrite E2|by rewrite E3]. Qed.

Lemma mark_stale_cases cutoff ps : mark_stale cutoff ps = ps ∨ mark_stale cutoff ps = set_status "offline" ps.
Proof. unfold mark_stale. destruct (_ && _); auto. Qed.

Lemma fleet_effect_ok c now m m' : effect c now m = inr m' → fleet_ok m → fleet_ok m'.
Proof.
  intros E Hm. destruct c; cbn [effect] in E; try (eapply ok_on_probe; [done| |exact E]; intros ps Hp; by eapply probe_ok_same).
  - injection E as <-. apply ok_insert; [done|]. constructor; [done..|]. split; constructor.
  - destruct (remote_missing spec); [done|]. injection E as <-. apply ok_insert; [done|]. constructor; [done..|apply normalizeTags_ok].
  - destruct (m !! id) as [ps|] eqn:Hps; [|done]. pose proof (Hm _ _ Hps) as Hp. revert E. cbv zeta. split_str; [done|].
    destruct (_ || _); intros [= <-]; (apply ok_insert; [done|]); by eapply probe_ok_same.
  - injection E as <-. intros id ps. rewrite lookup_fmap_Some. intros (ps0 & Hms & Hps%Hm).
    destruct (mark_stale_cases (cutoff_before now threshold) ps0) as [E|E]; rewrite E in Hms; subst ps; [done|by eapply probe_ok_same].
  - eapply ok_on_probe; [done| |exact E]. intros ps [H1 H2 H3]. constructor; [done..|]. apply normalizeTags_ok.
  - destruct (m !! id); [|done]. injection E as <-. by apply map_Forall_delete.
  - injection E as <-. intros id ps [Hps _]%map_lookup_filter_Some. by apply Hm.
Qed.

(** ** Memory and table *)

Definition registered_at (t : time) (r : ProbeRow) : ProbeRow :=
  on_conflict {| row_id := row_id r; row_hostname := ""; row_os := ""; row_arch := ""; row_status := ""; row_probe_type := "";
                 row_policy_level := ""; row_api_key := ""; row_registered := t; row_last_seen := 0; row_labels := ∅; row_tags := [];
                 row_inventory := None; row_tenant_id := ""; row_remote := None; row_remote_credentials := None |} r.

(** The row of a probe, but for the instant it was registered: the table keeps
    the first. *)
Definition persisted (ps : ProbeState) (r : ProbeRow) : Prop := ∃ t, r = registered_at t (row_of ps).
Definition mirrors (m : gmap string ProbeState) (t : gmap string ProbeRow) : Prop := ∀ id, option_Forall2 persisted (m !! id) (t !! id).

Lemma mirrors_change id ps ps' (f : ProbeRow → ProbeRow) m t :
  mirrors m t → m !! id = Some ps → (∀ r, persisted ps r → persisted ps' (f r)) → mirrors (<[id := ps']> m) (alter f id t).
Proof.
  intros Hm Hps Hf i. destruct (decide (id = i)) as [<-|Hne].
  - rewrite lookup_insert_eq, lookup_alter_eq. specialize (Hm id). rewrite Hps in Hm. inversion Hm; subst. constructor. auto.
  - rewrite lookup_insert_ne, lookup_alter_ne by done. apply Hm.
Qed.
Lemma mirrors_upsert id ps m t : mirrors m t → fleet_ok m → pb_ID ps = id → mirrors (<[id := ps]> m) (upsert (row_of ps) t).
Proof.
  intros Hm Hok Hid i. unfold upsert. cbn [row_of row_id]. rewrite Hid. destruct (decide (id = i)) as [<-|Hne].
  - rewrite !lookup_insert_eq. constructor. specialize (Hm id). inversion Hm as [ps0 r [at0 ->] E1 E2|].
    + exists at0. symmetry in E1. pose proof (ok_id _ _ (Hok _ _ E1)) as Hid0. unfold registered_at, on_conflict. cbn. by rewrite Hid0, Hid.
    + exists (pb_Registered ps). done.
  - rewrite !lookup_insert_ne by done. apply Hm.
Qed.
Lemma mirrors_delete id m t : mirrors m t → mirrors (delete id m) (delete id t).
Proof.
  intros Hm i. destruct (decide (id = i)) as [<-|Hne]; [rewrite !lookup_delete_eq; constructor|]. rewrite !lookup_delete_ne by done. apply Hm.
Qed.

(** The rows after the loops of [MarkOffline] and [CleanupOffline]. *)
Definition offline_rows (l : list ProbeState) (t : gmap string ProbeRow) : gmap string ProbeRow :=
  foldl (λ t ps, if pb_Status ps =s "offline" then alter (set_row_status "offline") (pb_ID ps) t else t) t l.
Definition delete_rows (ids : list string) (t : gmap string ProbeRow) : gmap string ProbeRow := foldl (λ t id, delete id t) t ids.

Lemma offline_rows_lookup l t id :
  offline_rows l t !! id = if existsb (λ ps, (pb_Status ps =s "offline") && (pb_ID ps =s id)) l then set_row_status "offline" <$> t !! id else t !! id.
Proof.
  unfold offline_rows. revert t. induction l as [|ps l IH]; intros t; cbn [foldl existsb]; [done|]. rewrite IH.
  destruct (pb_Status ps =s "offline") eqn:Es; cbn [andb orb]; [|done].
  destruct (String.eqb_spec (pb_ID ps) id) as [->|Hne]; cbn [orb].
  - rewrite lookup_alter_eq. case_match; [|done]. by destruct (t !! id).
  - by rewrite lookup_alter_ne.
Qed.
Lemma delete_rows_lookup ids t id : delete_rows ids t !! id = if decide (id ∈ ids) then None else t !! id.
Proof.
  unfold delete_rows. revert t. induction ids as [|i ids IH]; intros t; cbn [foldl]; [done|]. rewrite IH.
  destruct (decide (id ∈ ids)) as [Hin|Hn]; [by rewrite decide_True by (by right)|].
  destruct (decide (i = id)) as [->|Hne]; [by rewrite lookup_delete_eq, decide_True by (by left)|].
  rewrite lookup_delete_ne by done. rewrite decide_False; [done|]. by intros [->|]%elem_of_cons.
Qed.

Lemma mirrors_delete_all ids m t : mirrors m t → mirrors (delete_all ids m) (delete_rows ids t).
Proof. intros Hm i. rewrite delete_all_lookup, delete_rows_lookup. case_decide; [constructor|apply Hm]. Qed.

Lemma mirrors_offline `{Runtime} n cutoff m t : fleet_ok m → mirrors m t →
  mirrors (mark_stale cutoff <$> m) (offline_rows (map snd (map_range n (map_to_list (mark_stale cutoff <$> m)))) t).
Proof.
  intros Hok Hm id. rewrite offline_rows_lookup, lookup_fmap. specialize (Hm id). inversion Hm as [ps r [t0 ->] E1 E2|E1 E2]; cbn.
  2: case_match; cbn; constructor.
  symmetry in E1. set (ps' := mark_stale cutoff ps).
  assert (Hid : pb_ID ps' = id) by (unfold ps'; destruct (mark_stale_cases cutoff ps) as [->| ->]; apply (ok_id _ _ (Hok _ _ E1))).
  assert (Hin : existsb (λ p, (pb_Status p =s "offline") && (pb_ID p =s id)) (map snd (map_range n (map_to_list (mark_stale cutoff <$> m)))) = (pb_Status ps' =s "offline")).
  { apply eq_true_iff_eq. rewrite existsb_exists. split.
    - intros (p & ([i q] & <- & Hi%list_elem_of_In)%in_map_iff & [Hs Hp]%andb_true_iff). rewrite elem_of_range, lookup_fmap_Some in Hi.
      destruct Hi as (q0 & Hq & Hi). cbn in *. apply String.eqb_eq in Hp. assert (i = id) as ->.
      { rewrite <- Hp, <- Hq. destruct (mark_stale_cases cutoff q0) as [->| ->]; symmetry; apply (ok_id _ _ (Hok _ _ Hi)). }
      rewrite Hi in E1. injection E1 as ->. subst ps'. by rewrite Hq.
    - intros Hs. exists ps'. rewrite Hs, Hid, String.eqb_refl. split; [|done]. apply in_map_iff. exists (id, ps'). split; [done|].
      apply list_elem_of_In, elem_of_range. by rewrite lookup_fmap, E1. }
  rewrite Hin. destruct (String.eqb_spec (pb_Status ps') "offline") as [Hs|Hs]; constructor; exists t0.
  - unfold ps' in *. destruct (mark_stale_cases cutoff ps) as [E|E]; rewrite E in *; unfold set_row_status, set_row_seen, registered_at, on_conflict; cbn; [by rewrite Hs|done].
  - unfold ps' in *. destruct (mark_stale_cases cutoff ps) as [E|E]; rewrite E in *; [done|by destruct Hs].
Qed.

Section restart.
Context `{Host} `{Runtime} (no_faults : ∀ n, sql_fault n = None).

Lemma run_write f db : write f db = (inr tt, {| rows := set_disk f (rows db); ticks := S (ticks db) |}).
Proof. unfold write. by rewrite run_exec. Qed.

Lemma rows_offline l db :
  rows (for_each (λ ps, if pb_Status ps =s "offline" then ignore_error (updateStatus (pb_ID ps) "offline") else mret tt) l db).2 =
  set_disk (offline_rows l) (rows db).
Proof.
  revert db. induction l as [|ps l IH]; intros db; [by destruct db as [[]]|]. cbn [for_each]. unfold mbind, M_bind, ignore_error.
  unfold offline_rows, updateStatus. cbn [foldl]. destruct (pb_Status ps =s "offline"); [rewrite run_write|cbn]; by rewrite IH.
Qed.
Lemma rows_delete ids db : rows (for_each (λ id, ignore_error (delete_row id)) ids db).2 = set_disk (delete_rows ids) (rows db).
Proof.
  revert db. induction ids as [|id ids IH]; intros db; [by destruct db as [[]]|]. cbn [for_each]. unfold mbind, M_bind, ignore_error, delete_row.
  rewrite run_write. cbn [snd]. rewrite IH. done.
Qed.

Definition mirrored (s : Fleet) : Prop := mirrors (probes s) (disk s).
Definition agrees (s : Fleet) : Prop := fleet_ok (probes s) ∧ mirrored s.

(** An operation on the probe of an id, followed by one statement on its row. *)
Lemma mirrored_known id (f : ProbeState → F unit) (tail : F unit) db :
  mirrored (rows db) →
  (∀ ps, probes (rows db) !! id = Some ps → match f ps db with (inl _, d) => rows d = rows db | (inr _, d) => mirrored (rows (tail d).2) end) →
  mirrored (rows (((known id ≫= f) ≫= λ _, tail) db).2).
Proof.
  intros Hm Hf. unfold known, gets, mbind, M_bind. destruct (probes (rows db) !! id) as [ps|]; [|done]. specialize (Hf ps eq_refl).
  cbn. destruct (f ps db) as [[e|[]] d]; [by cbn; rewrite Hf|done].
Qed.

Definition put_at (id : string) (ps : ProbeState) (s : Fleet) : Fleet := set_probes (λ m, <[id := ps]> m) s.
Lemma mirrored_upsert id ps s : agrees s → pb_ID ps = id → mirrored (set_disk (upsert (row_of ps)) (put_at id ps s)).
Proof. intros [Hok Hm] Hid. by apply mirrors_upsert. Qed.
Lemma mirrored_change id ps ps' id' f s :
  id' = id → mirrored s → probes s !! id = Some ps → (∀ r, persisted ps r → persisted ps' (f r)) → mirrored (set_disk (alter f id') (put_at id ps' s)).
Proof. intros -> Hm Hps Hf. by eapply mirrors_change. Qed.

Lemma mirrored_quiet id save ps s n f : (∀ ps, save ps = write (f ps)) → mirrored (set_disk (f ps) (put_at id ps s)) →
  mirrored (rows (save_quietly id save {| rows := put_at id ps s; ticks := n |}).2).
Proof.
  intros Hs Hm. unfold save_quietly, FleetManager.Get, gets, mbind, M_bind. cbn. rewrite lookup_insert_eq. unfold ignore_error. by rewrite Hs, run_write.
Qed.
Lemma mirrored_strict id save ps s n f : (∀ ps, save ps = write (f ps)) → mirrored (set_disk (f ps) (put_at id ps s)) →
  mirrored (rows (save_strictly id save {| rows := put_at id ps s; ticks := n |}).2).
Proof. intros Hs Hm. erewrite strict_save by (cbn; by rewrite lookup_insert_eq). by rewrite Hs, run_write. Qed.
#[local] Arguments write : simpl never.

(** Every mutation keeps the table in agreement with memory. *)
Lemma mirrored_call c db : agrees (rows db) → mirrored (rows (run_store c db).2).
Proof.
  intros Ha. pose proof Ha as [Hok Hm]. assert (Hid : ∀ i ps, probes (rows db) !! i = Some ps → pb_ID ps = i) by (intros i ps Hps; apply (ok_id _ _ (Hok _ _ Hps))).
  destruct c; cbn [run_store].
  - unfold unit_of, Register, FleetManager.Register, mbind, M_bind, ignore_error, upsertProbe. cbn. rewrite run_write. by apply mirrored_upsert.
  - unfold unit_of, RegisterRemote, FleetManager.RegisterRemote, mbind, M_bind, ignore_error, upsertProbe. cbv zeta.
    do 4 (lazymatch goal with |- context [if ?b then errorf _ else _] => destruct b end; [exact Hm|]).
    cbn. rewrite run_write. by apply mirrored_upsert.
  - apply mirrored_known; [done|]. intros ps Hps. unfold mbind, M_bind. cbn. apply (mirrored_quiet id updateLastSeen _ (rows db) _ _ (λ _, eq_refl)). 
    apply (mirrored_change id ps); [exact (Hid _ _ Hps)|done..|]. intros r [t ->]. by exists t.
  - apply mirrored_known; [done|]. intros ps Hps. unfold mbind, M_bind. cbn. apply (mirrored_quiet id upsertProbe _ (rows db) _ _ (λ _, eq_refl)).
    apply mirrored_upsert; [done|]. exact (Hid _ _ Hps).
  - apply mirrored_known; [done|]. intros ps Hps. cbn. apply (mirrored_quiet id upsertProbe _ (rows db) _ _ (λ _, eq_refl)). apply mirrored_upsert; [done|]. exact (Hid _ _ Hps).
  - apply mirrored_known; [done|]. intros ps Hps. cbn. apply (mirrored_quiet id upsertProbe _ (rows db) _ _ (λ _, eq_refl)). apply mirrored_upsert; [done|]. exact (Hid _ _ Hps).
  - apply mirrored_known; [done|]. intros ps Hps. cbv zeta. split_str; [done|]. destruct (_ || _); unfold mbind, M_bind; cbn;
      apply (mirrored_strict id upsertProbe _ (rows db) _ _ (λ _, eq_refl)); (apply mirrored_upsert; [done|]); exact (Hid _ _ Hps).
  - unfold MarkOffline, FleetManager.MarkOffline, FleetManager.List_, mbind, M_bind. cbn. rewrite rows_offline. cbn. by apply mirrors_offline.
  - apply mirrored_known; [done|]. intros ps Hps. unfold mbind, M_bind. cbn. apply (mirrored_strict id updateLastSeen _ (rows db) _ _ (λ _, eq_refl)). 
    apply (mirrored_change id ps); [exact (Hid _ _ Hps)|done..|]. intros r [t ->]. by exists t.
  - apply mirrored_known; [done|]. intros ps Hps. cbn. apply (mirrored_quiet id upsertProbe _ (rows db) _ _ (λ _, eq_refl)). apply mirrored_upsert; [done|]. exact (Hid _ _ Hps).
  - apply mirrored_known; [done|]. intros ps Hps. unfold ignore_error, delete_row. cbn. rewrite run_write. by apply mirrors_delete.
  - unfold unit_of, CleanupOffline, FleetManager.CleanupOffline, mbind, M_bind. cbn.
    assert (Hr := rows_delete (map fst (List.filter (λ kv, expired_offline (cutoff_before (clock (ticks db)) olderThan) kv.2)
      (map_range (S (ticks db)) (map_to_list (probes (rows db))))))). lazymatch goal with |- context [for_each ?f ?l ?d] => specialize (Hr d); destruct (for_each f l d) as [[e|[]] d2] end; cbn in Hr |- *;
      rewrite Hr; by apply mirrors_delete_all.
  - apply mirrored_known; [done|]. intros ps Hps. cbn. rewrite run_write. apply (mirrored_change id ps (set_tenant tenantID ps) _ _ (rows db)); [done..|]. intros r [t ->]. by exists t.
Qed.
(** ** Restarts *)

Inductive event := Call (c : call) | Restart.
Definition run_event (e : event) : F unit := match e with Call c => run_store c | Restart => NewStore end.
Definition run_events (l : list event) (db : DB Fleet) : DB Fleet := foldl (λ d e, (run_event e d).2) db l.

(** What a restart leaves of a probe. *)
Definition reloaded (registered : time) (ps : ProbeState) : ProbeState :=
  {| pb_ID := pb_ID ps; pb_Hostname := pb_Hostname ps; pb_OS := pb_OS ps; pb_Arch := pb_Arch ps; pb_Status := pb_Status ps; pb_Type := pb_Type ps;
     pb_PolicyLevel := pb_PolicyLevel ps; pb_APIKey := pb_APIKey ps; pb_Registered := registered; pb_LastSeen := pb_LastSeen ps;
     pb_Inventory := pb_Inventory ps; pb_Labels := pb_Labels ps; pb_Tags := pb_Tags ps; pb_Health := None; pb_TenantID := pb_TenantID ps;
     pb_Remote := pb_Remote ps; pb_RemoteCredentials := pb_RemoteCredentials ps; pb_lastHB := None |}.

Lemma credentials_roundtrip c :
  {| cr_Password := default ""%string (credentials_json c !! "password"%string);
     cr_PrivateKey := default ""%string (credentials_json c !! "private_key"%string) |} = c.
Proof.
  destruct c as [p k]. unfold credentials_json. cbn [cr_Password cr_PrivateKey].
  destruct (String.eqb_spec p "") as [->|], (String.eqb_spec k "") as [->|]; cbn [negb]; by simplify_map_eq.
Qed.
Lemma normalizeProbeType_nonempty t : normalizeProbeType t ≠ ""%string.
Proof. unfold normalizeProbeType. cbv zeta. by split_str. Qed.
Lemma scan_persisted id ps t : probe_ok id ps → scan_row (registered_at t (row_of ps)) = reloaded t ps.
Proof.
  intros [_ Hty _]. unfold scan_row, reloaded, registered_at, on_conflict, row_of. cbn. cbv zeta. f_equal.
  - by rewrite Hty, (proj2 (String.eqb_neq _ _)), Hty by (rewrite <- Hty; apply normalizeProbeType_nonempty).
  - destruct (pb_RemoteCredentials ps) as [c|]; [|done]. cbn. f_equal. apply credentials_roundtrip.
Qed.

Lemma run_NewStore db :
  NewStore db = (inr tt, {| rows := {| probes := scan_row <$> disk (rows db); disk := disk (rows db) |}; ticks := S (ticks db) |}).
Proof.
  unfold NewStore, loadAll, wrap_error, mbind, M_bind. cbn. rewrite (run_query no_faults). cbn. unfold set_probes. cbn.
  by rewrite (right_id_L ∅ (∪)).
Qed.

Lemma agrees_reload s : agrees s → agrees {| probes := scan_row <$> disk s; disk := disk s |}.
Proof.
  intros [Hok Hm]. split; intros id; cbn.
  - intros ps. rewrite lookup_fmap_Some. intros (r & <- & Hr). specialize (Hm id). rewrite Hr in Hm. inversion Hm as [ps0 r0 [t ->] E1 E2|]; subst.
    symmetry in E1. specialize (Hok _ _ E1). rewrite (scan_persisted id ps0 t Hok). by eapply probe_ok_same.
  - rewrite lookup_fmap. specialize (Hm id). inversion Hm as [ps0 r0 [t ->] E1 E2|E1 E2]; cbn; constructor.
    symmetry in E1. specialize (Hok _ _ E1). exists t. by rewrite (scan_persisted id ps0 t Hok).
Qed.

Lemma agrees_event e db : agrees (rows db) → agrees (rows (run_event e db).2).
Proof.
  intros Ha. destruct e as [c|]; cbn [run_event]; [|rewrite run_NewStore; by apply agrees_reload]. split; [|by apply mirrored_call].
  destruct (store_meets c db _ _ (surjective_pairing _)) as (r0 & (now & Hef) & _). destruct Ha as [Hok _].
  destruct (effect c now (probes (rows db))) as [e|m] eqn:E; destruct Hef as [_ ->]; [done|by eapply fleet_effect_ok].
Qed.
Lemma agrees_events l db : agrees (rows db) → agrees (rows (run_events l db)).
Proof. revert db. induction l as [|e l IH]; intros db Ha; [done|]. cbn. by apply IH, agrees_event. Qed.
Lemma agrees_empty : agrees {| probes := ∅; disk := ∅ |}.
Proof. split; [apply map_Forall_empty|]. intros id. cbn. rewrite !lookup_empty. constructor. Qed.
End restart.

(** C20. While the database answers, a restart loses nothing but the health and the
    last heartbeats: after any history of mutations and restarts that began with
    an empty store, opening the store again brings back exactly the probes that
    were in memory, each with its key, level, tags, tenant, inventory and
    credentials, and with the registration instant of the table. *)
Theorem restart_restores_fleet `{Host} `{Runtime} l n :
  (∀ k, sql_fault k = None) →
  let db := run_events l {| rows := {| probes := ∅; disk := ∅ |}; ticks := n |} in
  let '(res, db') := NewStore db in
  res = inr tt ∧
  ∀ id, option_Forall2 (λ ps ps', ∃ r, disk (rows db) !! id = Some r ∧ ps' = reloaded (row_registered r) ps) (probes (rows db) !! id) (probes (rows db') !! id).
Proof.
  intros Hnf db. rewrite (run_NewStore Hnf). split; [done|]. intros id. cbn [rows probes].
  assert (agrees (rows db)) as [Hok Hm] by (apply agrees_events; [done|apply agrees_empty]).
  rewrite lookup_fmap. specialize (Hm id). inversion Hm as [ps r [t ->] E1 E2|E1 E2]; cbn; constructor.
  symmetry in E1. eexists. split; [done|]. by rewrite (scan_persisted id ps t (Hok _ _ E1)).
Qed.

(** ** Lookups *)

Lemma string_lt_trans a b c : String.ltb a b = true → String.ltb b c = true → String.ltb a c = true.
Proof.
  rewrite !ltb_leb, !andb_true_iff, !negb_true_iff, !String.eqb_neq, !leb_le. intros [H1 N1] [H2 N2]. split; [by etrans|].
  intros ->. apply N1. by apply (anti_symm String.le).
Qed.
Lemma string_lt_total a b : a ≠ b → String.ltb a b = true ∨ String.ltb b a = true.
Proof.
  intros Hne. rewrite !ltb_leb, !andb_true_iff, !negb_true_iff, !String.eqb_neq. destruct (String.leb_total a b); [left|right]; split; congruence.
Qed.

(** The preference as an order. *)
Definition preferred (a b : ProbeState) : Prop :=
  hostnameStatusRank (pb_Status b) < hostnameStatusRank (pb_Status a) ∨ hostnameStatusRank (pb_Status a) = hostnameStatusRank (pb_Status b) ∧
  (pb_LastSeen b < pb_LastSeen a ∨ pb_LastSeen a = pb_LastSeen b ∧
  (pb_Registered b < pb_Registered a ∨ pb_Registered a = pb_Registered b ∧ String.ltb (pb_ID a) (pb_ID b) = true)).

Lemma better_preferred a b : betterHostnameCandidate a b = true ↔ preferred a b.
Proof.
  unfold betterHostnameCandidate, preferred, After. cbv zeta.
  destruct (Z.eqb_spec (hostnameStatusRank (pb_Status a)) (hostnameStatusRank (pb_Status b))) as [E1|E1]; cbn [negb]; [|rewrite Z.ltb_lt; lia].
  destruct (Z.eqb_spec (pb_LastSeen a) (pb_LastSeen b)) as [E2|E2]; cbn [negb]; [|rewrite Z.ltb_lt; lia].
  destruct (Z.eqb_spec (pb_Registered a) (pb_Registered b)) as [E3|E3]; cbn [negb]; [|rewrite Z.ltb_lt; lia].
  intuition lia.
Qed.
Lemma preferred_trans a b c : preferred a b → preferred b c → preferred a c.
Proof. unfold preferred. pose proof (string_lt_trans (pb_ID a) (pb_ID b) (pb_ID c)). intuition lia. Qed.
Lemma preferred_total a b : pb_ID a ≠ pb_ID b → preferred a b ∨ preferred b a.
Proof.
  unfold preferred. intros Hne%string_lt_total. pose proof (Z.lt_trichotomy (hostnameStatusRank (pb_Status a)) (hostnameStatusRank (pb_Status b))).
  pose proof (Z.lt_trichotomy (pb_LastSeen a) (pb_LastSeen b)). pose proof (Z.lt_trichotomy (pb_Registered a) (pb_Registered b)). intuition.
Qed.

(** A running maximum of a strict order that compares any two elements. *)
Section best.
Context {A : Type} (better : A → A → bool) (trans : ∀ x y z, better x y = true → better y z = true → better x z = true).
Definition pick (b c : A) : A := if better c b then c else b.

Lemma foldl_pick x l : (∀ p q, p ∈ x :: l → q ∈ x :: l → p = q ∨ better p q = true ∨ better q p = true) →
  foldl pick x l ∈ x :: l ∧ ∀ p, p ∈ x :: l → p = foldl pick x l ∨ better (foldl pick x l) p = true.
Proof.
  revert x. induction l as [|y l IH]; intros x Ht; cbn [foldl]; [split; [by left|]; intros p [->|?%elem_of_nil]%elem_of_cons; [by left|done]|].
  assert (Hsub : pick x y ∈ x :: y :: l) by (unfold pick; destruct (better y x); [right; left|left]).
  destruct (IH (pick x y)) as [Hin Hbest].
  { assert (Hs : ∀ p, p ∈ pick x y :: l → p ∈ x :: y :: l) by (intros p [->|Hp]%elem_of_cons; [done|by right; right]). intros p q Hp Hq. apply Ht; by apply Hs. }
  split; [apply elem_of_cons in Hin as [->|Hin]; [done|by right; right]|].
  assert (Hpick : ∀ p, p = x ∨ p = y → p = pick x y ∨ better (pick x y) p = true).
  { unfold pick. destruct (better y x) eqn:E; intros p [->| ->]; auto. destruct (Ht x y) as [|[|]]; [by left|by right; left|by left|by right|congruence]. }
  assert (Hw : ∀ p, p = pick x y ∨ better (pick x y) p = true → p = foldl pick (pick x y) l ∨ better (foldl pick (pick x y) l) p = true).
  { intros p [->|Hp]; [by apply Hbest; left|]. destruct (Hbest (pick x y)) as [E|E]; [by left|right; by rewrite <- E|right; by eapply trans]. }
  intros p [->|[->|Hp]%elem_of_cons]%elem_of_cons; [by apply Hw, Hpick; left|by apply Hw, Hpick; right|by apply Hbest; right].
Qed.
End best.

(** The loop of [FindByHostname] is that maximum over the candidates. *)
Lemma find_loop hostname best l :
  foldl (better_of hostname) best l =
  match best, List.filter (λ p, pb_Hostname p =s hostname) l with
  | Some b, c => Some (foldl (pick betterHostnameCandidate) b c)
  | None, x :: c => Some (foldl (pick betterHostnameCandidate) x c)
  | None, [] => None
  end.
Proof.
  revert best. induction l as [|x l IH]; intros best; cbn [foldl List.filter]; [by destruct best|]. rewrite IH. unfold better_of.
  destruct (pb_Hostname x =s hostname); cbn [negb]; [|done]. destruct best as [b|]; [|done]. cbn [foldl].
  assert (E : pick betterHostnameCandidate b x = if betterHostnameCandidate x b then x else b) by done. rewrite E. by destruct (betterHostnameCandidate x b).
Qed.

Lemma range_values `{Runtime} n (m : gmap string ProbeState) ps : fleet_ok m → ps ∈ map snd (map_range n (map_to_list m)) ↔ m !! pb_ID ps = Some ps.
Proof.
  intros Hok. rewrite list_elem_of_In, in_map_iff. split.
  - intros ([id p] & <- & Hin%list_elem_of_In%elem_of_range). cbn. by rewrite (ok_id _ _ (Hok _ _ Hin)).
  - intros Hps. exists (pb_ID ps, ps). split; [done|]. by apply list_elem_of_In, elem_of_range.
Qed.

(** What [FindByHostname] answers. *)
Lemma hostname_lookup `{Host} `{Runtime} hostname db o db' :
  fleet_ok (probes (rows db)) → FleetManager.FindByHostname hostname db = (inr o, db') →
  match o with
  | Some w => probes (rows db) !! pb_ID w = Some w ∧ pb_Hostname w = hostname ∧
      ∀ id p, probes (rows db) !! id = Some p → pb_Hostname p = hostname → p = w ∨ preferred w p
  | None => ∀ id p, probes (rows db) !! id = Some p → pb_Hostname p ≠ hostname
  end.
Proof.
  intros Hok [= <- _]. rewrite find_loop. set (c := List.filter _ _).
  assert (Hc : ∀ p, p ∈ c ↔ probes (rows db) !! pb_ID p = Some p ∧ pb_Hostname p = hostname).
  { intros p. unfold c. rewrite list_elem_of_In, filter_In, <- list_elem_of_In, range_values, String.eqb_eq by done. done. }
  assert (Hk : ∀ id p, probes (rows db) !! id = Some p → pb_Hostname p = hostname → p ∈ c).
  { intros id p Hp Hh. apply Hc. by rewrite (ok_id _ _ (Hok _ _ Hp)). }
  clearbody c. destruct c as [|x c]; [intros id p Hp Hh; by apply (not_elem_of_nil p), (Hk id)|].
  destruct (foldl_pick betterHostnameCandidate) with (x := x) (l := c) as [Hin Hbest].
  - intros a b d. rewrite !better_preferred. apply preferred_trans.
  - intros p q [Hp _]%Hc [Hq _]%Hc. rewrite !better_preferred. destruct (decide (pb_ID p = pb_ID q)) as [E|E]; [left|right; by apply preferred_total].
    rewrite E, Hq in Hp. by injection Hp.
  - apply Hc in Hin as [Hin Hh]. split_and!; [done..|]. intros id p Hp Hph. rewrite <- better_preferred. by apply Hbest, (Hk id).
Qed.

(** Looking a probe up by hostname does not depend on the order in which the
    map is visited: the answer is a probe of that hostname that is preferred to
    every other one (an online probe before a degraded, pending and offline one,
    then the most recently seen, the most recently registered, the smallest id),
    and there is none only when no probe has that hostname. *)
Theorem hostname_choice `{Host} `{Runtime} hostname db o db' :
  fleet_ok (probes (rows db)) → FleetManager.FindByHostname hostname db = (inr o, db') →
  match o with
  | Some w => probes (rows db) !! pb_ID w = Some w ∧ pb_Hostname w = hostname ∧
      ∀ id p, probes (rows db) !! id = Some p → pb_Hostname p = hostname → p = w ∨ preferred w p
  | None => ∀ id p, probes (rows db) !! id = Some p → pb_Hostname p ≠ hostname
  end.
Proof. apply hostname_lookup. Qed.

(** While the table agrees with memory, the query behind [FindByHostname] finds
    nothing that memory does not have. *)
Lemma fallback_idle `{Host} `{!HostLaws} `{Runtime} hostname db o db' :
  agrees (rows db) → FleetStore.FindByHostname hostname db = (inr o, db') → o = foldl (better_of hostname) None (map snd (map_range (ticks db) (map_to_list (probes (rows db))))).
Proof.
  intros [Hok Hm]. unfold FindByHostname, FleetManager.FindByHostname, mbind, M_bind. cbn. rewrite find_loop. set (c := List.filter _ (map snd (map_range _ _))).
  assert (Hc : ∀ p, p ∈ c ↔ probes (rows db) !! pb_ID p = Some p ∧ pb_Hostname p = hostname).
  { intros p. unfold c. rewrite list_elem_of_In, filter_In, <- list_elem_of_In, range_values, String.eqb_eq by done. done. }
  clearbody c. destruct c as [|x c]; [|by intros [= <- _]]. unfold attempt, query. cbn.
  assert (Hempty : List.filter (λ r, row_hostname r =s hostname) (map snd (map_to_list (disk (rows db)))) = []).
  { destruct (List.filter _ _) as [|r l] eqn:E; [done|]. assert (Hr : In r (r :: l)) by by left. rewrite <- E in Hr.
    apply filter_In in Hr as [([id r'] & <- & Hr%list_elem_of_In)%in_map_iff Hh%String.eqb_eq]. rewrite elem_of_map_to_list in Hr.
    specialize (Hm id). rewrite Hr in Hm. inversion Hm as [ps r0 [t Et] E1 E2|]; subst. cbn in *. symmetry in E1.
    destruct (not_elem_of_nil ps). apply Hc. rewrite (ok_id _ _ (Hok _ _ E1)). done. }
  rewrite Hempty. pose proof (order_by_perm hostname_order (@nil ProbeRow)) as Hp. apply Permutation_nil_r in Hp. rewrite Hp.
  destruct (sql_fault (S (ticks db))); cbn; by intros [= <- _].
Qed.

(** Setting tags and listing by tag fit together: a probe is listed under a text
    exactly when that text, trimmed and in lower case, is the normal form of a tag
    it was given. *)
Theorem tagged_probe_listed `{Host} `{Runtime} id tags tag db db1 l db2 :
  fleet_ok (probes (rows db)) → FleetManager.SetTags id tags db = (inr tt, db1) → FleetManager.ListByTag tag db1 = (inr l, db2) →
  ToLower (TrimSpace tag) ≠ ""%string →
  (∃ ps, ps ∈ l ∧ pb_ID ps = id) ↔ ∃ raw, raw ∈ tags ∧ ToLower (TrimSpace raw) = ToLower (TrimSpace tag).
Proof.
  intros Hok Hs Hl Hne. pose proof (manager_meets (CSetTags id tags) db) as (now & Hef). cbn [run_manager] in Hef. rewrite Hs in Hef. cbn in Hef.
  unfold on_probe in Hef. destruct (probes (rows db) !! id) as [ps|] eqn:Hps; [|by destruct Hef]. destruct Hef as [_ Hm].
  assert (Hok1 : fleet_ok (probes (rows db1))).
  { rewrite Hm. apply ok_insert; [done|]. pose proof (Hok _ _ Hps) as [H1 H2 H3]. constructor; [done..|apply normalizeTags_ok]. }
  unfold ListByTag in Hl. cbv zeta in Hl. rewrite (proj2 (String.eqb_neq _ _) Hne) in Hl. injection Hl as <- _.
  trans (ToLower (TrimSpace tag) ∈ normalizeTags tags); [|unfold normalizeTags; rewrite elem_of_normalize_tags; set_solver].
  split.
  - intros (p & Hp & Hid). rewrite list_elem_of_In, filter_In, <- list_elem_of_In, range_values in Hp by done. destruct Hp as [Hp Ht].
    rewrite Hid, Hm, lookup_insert_eq in Hp. injection Hp as <-. by apply existsb_exists in Ht as (t & Ht%list_elem_of_In & ->%String.eqb_eq).
  - intros Ht. exists (set_tags (normalizeTags tags) ps). pose proof (ok_id _ _ (Hok _ _ Hps)) as Hid. split; [|done].
    rewrite list_elem_of_In, filter_In, <- list_elem_of_In, range_values by done. split; [cbn; by rewrite Hid, Hm, lookup_insert_eq|].
    apply existsb_exists. exists (ToLower (TrimSpace tag)). split; [by apply list_elem_of_In|apply String.eqb_refl].
Qed.

(** ** Health *)

(** A score is 100 less 30 for each critical reading and 15 for each high one, so
    it never falls below 10: the status is critical only when load, memory and
    disk all are. *)
Theorem health_score_range hb inv :
  ∃ critical high : Z, 0 <= critical ∧ 0 <= high ∧ critical + high <= 3 ∧
    hs_Score (ScoreHealth (Some hb) inv) = 100 - 30 * critical - 15 * high ∧
    (hs_Status (ScoreHealth (Some hb) inv) = "critical"%string ↔ critical = 3).
Proof.
  assert (Hcheck : ∀ v c h wc wh acc a b, acc.1 = 100 - 30 * a - 15 * b → ∃ a' b', a <= a' ∧ b <= b' ∧ a' + b' <= a + b + 1 ∧ (check v c h wc wh acc).1 = 100 - 30 * a' - 15 * b').
  { intros v c h wc wh acc a b E. unfold check. destruct (fge v c); [exists (a + 1), b; cbn; lia|]. destruct (fge v h); [exists a, (b + 1); cbn; lia|]. exists a, b. lia. }
  unfold ScoreHealth. cbv zeta. set (load := check _ _ _ _ _ (100, [])).
  assert (∃ a b, 0 <= a ∧ 0 <= b ∧ a + b <= 1 ∧ load.1 = 100 - 30 * a - 15 * b) as (a1 & b1 & ? & ? & ? & Eload) by (by apply (Hcheck _ _ _ _ _ (100, []) 0 0)).
  set (mem := if 0 <? hb_MemTotal hb then _ else load).
  assert (∃ a b, a1 <= a ∧ b1 <= b ∧ a + b <= a1 + b1 + 1 ∧ mem.1 = 100 - 30 * a - 15 * b) as (a2 & b2 & ? & ? & ? & Emem).
  { unfold mem. destruct (0 <? hb_MemTotal hb); [by apply Hcheck|exists a1, b1; lia]. }
  set (dsk := if 0 <? hb_DiskTotal hb then _ else mem).
  assert (∃ a b, a2 <= a ∧ b2 <= b ∧ a + b <= a2 + b2 + 1 ∧ dsk.1 = 100 - 30 * a - 15 * b) as (a3 & b3 & ? & ? & ? & Edsk).
  { unfold dsk. destruct (0 <? hb_DiskTotal hb); [by apply Hcheck|exists a2, b2; lia]. }
  exists a3, b3. cbn [hs_Score hs_Status]. rewrite Edsk. assert ((100 - 30 * a3 - 15 * b3 <? 0) = false) as -> by lia. split_and!; [lia..|].
  unfold health_status. repeat case_match; bools; split; try done; try lia.
Qed.
