(* ===== verification/FleetInventory.v ===== *)
(** * Fleet-wide inventory (src/internal/controlplane/fleet/inventory.go)

    One pass over the probes collects the summaries and the totals; the totals
    are counted in [int] and [uint64], which wrap around. *)
From S2P Require Import Prelude GoStrings GoErrors GoTime GoSort GoSql GoRuntime Protocol FleetManager.
Local Open Scope Z_scope.
Local Open Scope go_scope.

Record InventoryFilter := { if_Tag : string; if_Status : string }.

Record ProbeInventorySummary := {
  sm_ID : string;
  sm_Hostname : string;
  sm_Status : string;
  sm_OS : string;
  sm_Arch : string;
  sm_Kernel : string;
  sm_PolicyLevel : CapabilityLevel;
  sm_Tags : list string;
  sm_LastSeen : time;
  sm_CollectedAt : time;
  sm_CPUs : Z;
  sm_RAMBytes : Z;
  sm_DiskBytes : Z;
}.

Record FleetAggregates := {
  ag_TotalProbes : Z;
  ag_Online : Z;
  ag_TotalCPUs : Z;
  ag_TotalRAMBytes : Z;
  ag_ProbesByOS : gmap string Z;
  ag_TagDistribution : gmap string Z;
}.

Record FleetInventory := { fi_Probes : list ProbeInventorySummary; fi_Aggregates : FleetAggregates }.

Definition hasTag (tags : list string) (want : string) : bool := existsb (λ tag, EqualFold tag want) tags.

Definition toInventorySummary (ps : ProbeState) : ProbeInventorySummary :=
  match pb_Inventory ps with
  | None =>
      {| sm_ID := pb_ID ps; sm_Hostname := pb_Hostname ps; sm_Status := pb_Status ps; sm_OS := pb_OS ps; sm_Arch := pb_Arch ps; sm_Kernel := "";
         sm_PolicyLevel := pb_PolicyLevel ps; sm_Tags := pb_Tags ps; sm_LastSeen := pb_LastSeen ps; sm_CollectedAt := zero_time;
         sm_CPUs := 0; sm_RAMBytes := 0; sm_DiskBytes := 0 |}
  | Some inv =>
      {| sm_ID := pb_ID ps; sm_Hostname := if pb_Hostname ps =s "" then inv_Hostname inv else pb_Hostname ps; sm_Status := pb_Status ps;
         sm_OS := if inv_OS inv <>s "" then inv_OS inv else pb_OS ps; sm_Arch := if inv_Arch inv <>s "" then inv_Arch inv else pb_Arch ps;
         sm_Kernel := inv_Kernel inv; sm_PolicyLevel := pb_PolicyLevel ps; sm_Tags := pb_Tags ps; sm_LastSeen := pb_LastSeen ps;
         sm_CollectedAt := inv_CollectedAt inv; sm_CPUs := inv_CPUs inv; sm_RAMBytes := inv_MemTotal inv; sm_DiskBytes := inv_DiskTotal inv |}
  end.

(** The guards at the top of the loop. *)
Definition selected (filter : InventoryFilter) (ps : ProbeState) : bool :=
  let statusFilter := ToLower (TrimSpace (if_Status filter)) in
  let tagFilter := ToLower (TrimSpace (if_Tag filter)) in
  negb ((statusFilter <>s "") && (ToLower (pb_Status ps) <>s statusFilter)) &&
  negb ((tagFilter <>s "") && negb (hasTag (pb_Tags ps) tagFilter)).

Definition os_key (s : ProbeInventorySummary) : string :=
  let k := ToLower (TrimSpace (sm_OS s)) in if k =s "" then "unknown" else k.

Definition to_uint64 (z : Z) : Z := z mod 2 ^ 64.

(** The body of the loop on a selected probe. *)
Definition add_summary (a : FleetAggregates) (s : ProbeInventorySummary) : FleetAggregates :=
  {| ag_TotalProbes := ag_TotalProbes a + 1;
     ag_Online := if EqualFold (sm_Status s) "online" then ag_Online a + 1 else ag_Online a;
     ag_TotalCPUs := to_int64 (ag_TotalCPUs a + sm_CPUs s);
     ag_TotalRAMBytes := to_uint64 (ag_TotalRAMBytes a + sm_RAMBytes s);
     ag_ProbesByOS := count_up (os_key s) (ag_ProbesByOS a);
     ag_TagDistribution := foldl (λ m t, count_up t m) (ag_TagDistribution a) (sm_Tags s) |}.

Definition no_aggregates : FleetAggregates :=
  {| ag_TotalProbes := 0; ag_Online := 0; ag_TotalCPUs := 0; ag_TotalRAMBytes := 0; ag_ProbesByOS := ∅; ag_TagDistribution := ∅ |}.

Definition sort_name (s : ProbeInventorySummary) : string :=
  let n := ToLower (TrimSpace (sm_Hostname s)) in if n =s "" then sm_ID s else n.
Definition by_name (lhs rhs : ProbeInventorySummary) : bool := String.ltb (sort_name lhs) (sort_name rhs).

Definition Inventory `{Host} `{Runtime} (filter : InventoryFilter) : F FleetInventory :=
  entries ← range probes;
  let summaries := map toInventorySummary (List.filter (selected filter) (map snd entries)) in
  mret {| fi_Probes := sort_Slice by_name summaries; fi_Aggregates := foldl add_summary no_aggregates summaries |}.

(** ** Theorems *)

Definition sum_of (f : ProbeInventorySummary → Z) (l : list ProbeInventorySummary) : Z := foldr (λ s n, f s + n) 0 l.
(** How often [k] occurs in the texts [f] gives. *)
Definition occurrences (k : string) (l : list string) : Z := Z.of_nat (count_where (String.eqb k) l).

Lemma to_int64_add a b : to_int64 (to_int64 a + b) = to_int64 (a + b).
Proof.
  unfold to_int64. f_equal. replace ((a + 2 ^ 63) mod 2 ^ 64 - 2 ^ 63 + b + 2 ^ 63) with ((a + 2 ^ 63) mod 2 ^ 64 + b) by lia.
  rewrite Z.add_mod_idemp_l by lia. f_equal. lia.
Qed.

Lemma count_up_lookup k k' m : default 0 (count_up k m !! k') = default 0 (m !! k') + (if k' =s k then 1 else 0).
Proof.
  unfold count_up. destruct (String.eqb_spec k' k) as [->|Hne]; [by rewrite lookup_insert_eq|]. rewrite lookup_insert_ne by done. lia.
Qed.
Lemma count_all_lookup l m k : default 0 (foldl (λ m t, count_up t m) m l !! k) = default 0 (m !! k) + occurrences k l.
Proof.
  revert m. induction l as [|t l IH]; intros m; cbn [foldl]; [unfold occurrences; cbn; lia|]. rewrite IH, count_up_lookup.
  unfold occurrences. rewrite count_where_cons. destruct (k =s t); lia.
Qed.

Lemma aggregates_of l a : foldl add_summary a l =
  {| ag_TotalProbes := ag_TotalProbes a + Z.of_nat (length l);
     ag_Online := ag_Online a + Z.of_nat (count_where (λ s, EqualFold (sm_Status s) "online") l);
     ag_TotalCPUs := ag_TotalCPUs (foldl add_summary a l); ag_TotalRAMBytes := ag_TotalRAMBytes (foldl add_summary a l);
     ag_ProbesByOS := foldl (λ m t, count_up t m) (ag_ProbesByOS a) (map os_key l);
     ag_TagDistribution := foldl (λ m t, count_up t m) (ag_TagDistribution a) (flat_map sm_Tags l) |}.
Proof.
  revert a. induction l as [|s l IH]; intros a; cbn [foldl map flat_map length]; [destruct a; cbn; f_equal; lia|].
  rewrite IH at 1. rewrite count_where_cons. cbn. rewrite foldl_app. f_equal; [lia|]. destruct (EqualFold (sm_Status s) "online"); cbn; lia.
Qed.
Lemma total_cpus l a : ag_TotalCPUs a = to_int64 (ag_TotalCPUs a) → ag_TotalCPUs (foldl add_summary a l) = to_int64 (ag_TotalCPUs a + sum_of sm_CPUs l).
Proof.
  revert a. induction l as [|s l IH]; intros a Ha; cbn [foldl sum_of foldr]; [by rewrite Z.add_0_r|]. rewrite IH; cbn.
  - rewrite to_int64_add. unfold sum_of. f_equal. lia.
  - rewrite <- (Z.add_0_r (to_int64 (ag_TotalCPUs a + sm_CPUs s))) at 2. by rewrite to_int64_add, Z.add_0_r.
Qed.
Lemma total_ram l a : ag_TotalRAMBytes a = to_uint64 (ag_TotalRAMBytes a) → ag_TotalRAMBytes (foldl add_summary a l) = to_uint64 (ag_TotalRAMBytes a + sum_of sm_RAMBytes l).
Proof.
  revert a. unfold to_uint64. induction l as [|s l IH]; intros a Ha; cbn [foldl sum_of foldr]; [by rewrite Z.add_0_r|]. rewrite IH; cbn; unfold to_uint64.
  - rewrite Z.add_mod_idemp_l by lia. f_equal. unfold sum_of. lia.
  - by rewrite Z.mod_mod by lia.
Qed.

#[export] Instance sum_of_perm f : Proper ((≡ₚ) ==> eq) (sum_of f).
Proof. unfold sum_of. induction 1; cbn; lia. Qed.
#[export] Instance count_where_perm {A} (p : A → bool) : Proper ((≡ₚ) ==> eq) (count_where p).
Proof. intros l1 l2 Hl. unfold count_where. by rewrite (filter_bool_perm p _ _ Hl). Qed.
#[export] Instance occurrences_perm k : Proper ((≡ₚ) ==> eq) (occurrences k).
Proof. intros l1 l2 Hl. unfold occurrences. by rewrite Hl. Qed.
Lemma map_perm {A B} (f : A → B) l1 l2 : l1 ≡ₚ l2 → map f l1 ≡ₚ map f l2.
Proof. apply Permutation_map. Qed.

Lemma by_name_le x y : by_name y x = false ↔ String.le (sort_name x) (sort_name y).
Proof.
  unfold by_name. rewrite ltb_leb, <- leb_le, andb_false_iff, negb_false_iff, String.eqb_eq. split.
  - intros [Hl| ->]; [|apply leb_le; by apply reflexivity]. destruct (String.leb_total (sort_name x) (sort_name y)); congruence.
  - intros Hl. destruct (String.leb (sort_name y) (sort_name x)) eqn:E; [right|by left]. apply (anti_symm String.le); by apply leb_le.
Qed.

(** The inventory does not depend on the order in which the map is visited:
    it lists one summary for each probe that passes the filters, sorted by name,
    and its totals are those of these probes: their number, how many are online,
    the sums of processors and memory in machine arithmetic, and how many there
    are of each operating system and each tag. *)
Theorem inventory_spec `{Host} `{Runtime} filter db inv db' :
  Inventory filter db = (inr inv, db') →
  let sel := map toInventorySummary (List.filter (selected filter) (map snd (map_to_list (probes (rows db))))) in
  let a := fi_Aggregates inv in
  fi_Probes inv ≡ₚ sel ∧
  StronglySorted (λ x y, String.le (sort_name x) (sort_name y)) (fi_Probes inv) ∧
  ag_TotalProbes a = Z.of_nat (length sel) ∧
  ag_Online a = Z.of_nat (count_where (λ s, EqualFold (sm_Status s) "online") sel) ∧
  ag_TotalCPUs a = to_int64 (sum_of sm_CPUs sel) ∧ ag_TotalRAMBytes a = to_uint64 (sum_of sm_RAMBytes sel) ∧
  (∀ k, default 0 (ag_ProbesByOS a !! k) = occurrences k (map os_key sel)) ∧
  (∀ k, default 0 (ag_TagDistribution a !! k) = occurrences k (flat_map sm_Tags sel)).
Proof.
  intros [= <- _] sel a. set (seen := map toInventorySummary _) in a. cbn [fi_Probes fi_Aggregates] in *.
  assert (Hp : seen ≡ₚ sel) by (apply map_perm, filter_bool_perm, map_perm, map_range_perm).
  assert (Ha : a = foldl add_summary no_aggregates seen) by done. split_and!.
  - fold seen. by rewrite sort_Slice_perm.
  - eapply StronglySorted_weaken; [|apply sort_Slice_sorted].
    + intros x y. by rewrite by_name_le.
    + intros x y Hxy. rewrite by_name_le, <- leb_le. unfold by_name in Hxy. rewrite ltb_leb in Hxy. by bools.
    + intros x y z. rewrite !by_name_le. by intros ?; etrans.
  - rewrite Ha, aggregates_of. cbn. by rewrite Hp.
  - rewrite Ha, aggregates_of. cbn. by rewrite Hp.
  - rewrite Ha, total_cpus by done. cbn. by rewrite Hp.
  - rewrite Ha, total_ram by done. cbn. by rewrite Hp.
  - intros k. rewrite Ha, aggregates_of. cbn. rewrite count_all_lookup. cbn. by rewrite (map_perm os_key _ _ Hp).
  - intros k. rewrite Ha, aggregates_of. cbn. rewrite count_all_lookup. cbn. by rewrite Hp.
Qed.
