(* ===== verification/RegTokens.v ===== *)
(** * Registration tokens (src/internal/controlplane/api/token_store.go)

    The tokens are served from a map in memory; every change is also written to a
    table, and its errors are discarded.  Opening the store again reads the table.
    [crypto/rand] is the class [Secrets]. *)
From S2P Require Import Prelude GoStrings GoErrors GoTime GoCrypto GoSort GoSql GoRuntime AuthStores.
Local Open Scope Z_scope.
Local Open Scope go_scope.

Record Token := {
  tk_Value : string;
  tk_Created : time;
  tk_Expires : time;
  tk_Used : bool;
  tk_MultiUse : bool;
  tk_TenantID : string;
  tk_InstallCommand : string;
}.
Definition set_used (t : Token) : Token :=
  {| tk_Value := tk_Value t; tk_Created := tk_Created t; tk_Expires := tk_Expires t; tk_Used := true; tk_MultiUse := tk_MultiUse t;
     tk_TenantID := tk_TenantID t; tk_InstallCommand := tk_InstallCommand t |}.

(** A row of the table [tokens], whose primary key is [value]. *)
Record token_row := {
  tr_created_at : time;
  tr_expires_at : time;
  tr_used : Z;
  tr_multi_use : Z;
  tr_install_command : option string;
  tr_tenant_id : string;
}.

Record TokenStore := { tokens : gmap string Token; token_rows : gmap string token_row; secret : string; serverURL : string }.
Notation T := (GoSql.M TokenStore) (only parsing).
Definition set_tokens (f : gmap string Token → gmap string Token) (s : TokenStore) : TokenStore :=
  {| tokens := f (tokens s); token_rows := token_rows s; secret := secret s; serverURL := serverURL s |}.
Definition set_rows (f : gmap string token_row → gmap string token_row) (s : TokenStore) : TokenStore :=
  {| tokens := tokens s; token_rows := f (token_rows s); secret := secret s; serverURL := serverURL s |}.

Record GenerateOptions := { go_MultiUse : bool; go_NoExpiry : bool; go_TenantID : string }.

(** [strings.TrimRight(s, "/")] *)
Fixpoint trim_slashes (s : string) : string :=
  match s with
  | EmptyString => EmptyString
  | String c s' => match trim_slashes s' with EmptyString => if Ascii.eqb c "/" then EmptyString else String c EmptyString | r => String c r end
  end.

Definition installCommand (serverURL token : string) : string :=
  let serverURL := trim_slashes (TrimSpace serverURL) in
  if (serverURL =s "") || (token =s "") then ""
  else ("curl -sSL " +:+ serverURL +:+ "/install.sh | sudo bash -s -- --server " +:+ serverURL +:+ " --token " +:+ token)%string.

Definition boolToInt (v : bool) : Z := if v then 1 else 0.
Definition nullableString (v : string) : option string := if TrimSpace v =s "" then None else Some v.

Definition token_row_of (t : Token) : token_row :=
  {| tr_created_at := tk_Created t; tr_expires_at := tk_Expires t; tr_used := boolToInt (tk_Used t); tr_multi_use := boolToInt (tk_MultiUse t);
     tr_install_command := nullableString (tk_InstallCommand t); tr_tenant_id := tk_TenantID t |}.
Definition scan_token (value : string) (r : token_row) : Token :=
  {| tk_Value := value; tk_Created := tr_created_at r; tk_Expires := tr_expires_at r; tk_Used := tr_used r =? 1; tk_MultiUse := tr_multi_use r =? 1;
     tk_TenantID := tr_tenant_id r; tk_InstallCommand := default ""%string (tr_install_command r) |}.
Definition set_row_used (used : bool) (r : token_row) : token_row :=
  {| tr_created_at := tr_created_at r; tr_expires_at := tr_expires_at r; tr_used := boolToInt used; tr_multi_use := tr_multi_use r;
     tr_install_command := tr_install_command r; tr_tenant_id := tr_tenant_id r |}.

Definition Minute : Z := 60 * Second.

Section store.
Context `{Host} `{Runtime} `{Secrets}.

Definition upsertToken (t : Token) : T unit := exec (λ s, (inr tt, set_rows (λ m, <[tk_Value t := token_row_of t]> m) s)).
Definition updateUsed (value : string) (used : bool) : T unit := exec (λ s, (inr tt, set_rows (alter (set_row_used used) value) s)).

Definition load_tokens : T unit :=
  rows ← query (λ s, inr (token_rows s));
  puts (set_tokens (λ m, map_imap (λ v r, Some (scan_token v r)) rows ∪ m)).

(** [NewTokenStore] after the migrations: a process starts with an empty map and a
    new secret. *)
Definition new_secret : T (result string) := λ db, (inr (rand_Read (ticks db)), tick db).
Definition NewTokenStore : T unit :=
  raw ← new_secret;
  _ ← puts (λ s, {| tokens := ∅; token_rows := token_rows s; secret := match raw with inr b => b | inl _ => string_of (repeat 0 32) end; serverURL := "" |});
  wrap_error (errorf_w "load tokens") load_tokens.

Definition SetServerURL (url : string) : T unit :=
  puts (λ s, {| tokens := tokens s; token_rows := token_rows s; secret := secret s; serverURL := trim_slashes (TrimSpace url) |}).

Definition GenerateWithOptions (opts : GenerateOptions) : T Token :=
  now ← time_now;
  uuid ← uuid_NewString;
  let id := take_str 12 uuid in
  s ← gets (λ s, s);
  let sig := take_str 16 (hex_EncodeToString (hmac_sha256 (secret s) id)) in
  let expiry := if go_NoExpiry opts then now + 100 * 365 * 24 * Hour else now + 30 * Minute in
  let value := ("prb_" +:+ id +:+ "_" +:+ Itoa (now / Second) +:+ "_" +:+ sig)%string in
  let token := {| tk_Value := value; tk_Created := now; tk_Expires := expiry; tk_Used := false; tk_MultiUse := go_MultiUse opts;
                  tk_TenantID := go_TenantID opts;
                  tk_InstallCommand := if serverURL s <>s "" then installCommand (serverURL s) value else "" |} in
  _ ← puts (set_tokens (λ m, <[value := token]> m));
  _ ← ignore_error (upsertToken token);
  mret token.
Definition Generate : T Token := GenerateWithOptions {| go_MultiUse := false; go_NoExpiry := false; go_TenantID := "" |}.

Definition ConsumeGetTenant (value : string) : T (bool * string) :=
  t ← gets (λ s, tokens s !! value);
  match t with
  | None => mret (false, ""%string)
  | Some t =>
      now ← time_now;
      if After now (tk_Expires t) then mret (false, ""%string)
      else if tk_Used t then mret (false, ""%string)
      else if negb (tk_MultiUse t) then
        _ ← puts (set_tokens (λ m, <[value := set_used t]> m));
        _ ← ignore_error (updateUsed (tk_Value t) true);
        mret (true, tk_TenantID t)
      else mret (true, tk_TenantID t)
  end.
Definition Consume (value : string) : T bool :=
  r ← ConsumeGetTenant value; mret r.1.

Definition ListActive : T (list Token) :=
  now ← time_now;
  entries ← range tokens;
  mret (List.filter (λ t, negb (tk_Used t) && Before now (tk_Expires t)) (map snd entries)).
Definition Count : T Z := gets (λ s, Z.of_nat (size (tokens s))).
End store.

(** ** Histories *)

Inductive token_event :=
  | TGenerated (value : string)
  | TConsumed (value : string) (valid : bool)
  | TReopened
  | TServerURL.

Section safety.
Context `{Host} `{Runtime} `{Secrets}.

Inductive token_step : DB TokenStore → token_event → DB TokenStore → Prop :=
  | step_generate opts db t db' : GenerateWithOptions opts db = (inr t, db') → token_step db (TGenerated (tk_Value t)) db'
  | step_consume value db r db' : ConsumeGetTenant value db = (inr r, db') → token_step db (TConsumed value r.1) db'
  | step_reopen db db' : NewTokenStore db = (inr tt, db') → token_step db TReopened db'
  | step_url url db db' : SetServerURL url db = (inr tt, db') → token_step db TServerURL db'.

Definition accepted (v : string) (e : token_event) : bool := match e with TConsumed v' true => v' =s v | _ => false end.

(** A token that was issued for one registration, in memory and in the table. *)
Definition single_use (v : string) (s : TokenStore) : Prop :=
  (∀ t, tokens s !! v = Some t → tk_MultiUse t = false ∧ tk_Value t = v) ∧ (∀ r, token_rows s !! v = Some r → tr_multi_use r = 0).
(** It has been used; the table says so too, unless a statement failed. *)
Definition spent (v : string) (s : TokenStore) : Prop :=
  (∀ t, tokens s !! v = Some t → tk_Used t = true) ∧
  ((∀ n, sql_fault n = None) → ∀ r, token_rows s !! v = Some r → tr_used r = 1).

(** What a consumption does. *)
Lemma consume_cases v db r db' :
  ConsumeGetTenant v db = (inr r, db') →
  rows db' = rows db ∧ r.1 = false ∨
  ∃ t, tokens (rows db) !! v = Some t ∧ clock (ticks db) <= tk_Expires t ∧ tk_Used t = false ∧ r = (true, tk_TenantID t) ∧
    (tk_MultiUse t = true ∧ rows db' = rows db ∨
     tk_MultiUse t = false ∧ tokens (rows db') = <[v := set_used t]> (tokens (rows db)) ∧
     (token_rows (rows db') = alter (set_row_used true) (tk_Value t) (token_rows (rows db)) ∨
      token_rows (rows db') = token_rows (rows db) ∧ ¬ (∀ n, sql_fault n = None))).
Proof.
  unfold ConsumeGetTenant, gets, mbind, M_bind. destruct (tokens (rows db) !! v) as [t|] eqn:Et; [|intros [= <- <-]; by left].
  cbn. unfold After. destruct (Z.ltb_spec (tk_Expires t) (clock (ticks db))); [intros [= <- <-]; by left|].
  destruct (tk_Used t) eqn:Eu; [intros [= <- <-]; by left|]. destruct (tk_MultiUse t) eqn:Em; cbn; intros [= <- <-]; right; exists t; split_and!; try done.
  - by left.
  - right. split; [done|]. unfold updateUsed, exec. cbn. destruct (sql_fault _) as [e|] eqn:Ef; cbn; (split; [done|]); [right|by left].
    split; [done|]. intros Hn. by rewrite Hn in Ef.
Qed.

Lemma consume_later v db r db' : ConsumeGetTenant v db = (r, db') → (ticks db ≤ ticks db')%nat.
Proof.
  unfold ConsumeGetTenant, gets, mbind, M_bind. destruct (tokens (rows db) !! v) as [t|]; [|by intros [= _ <-]]. cbn.
  repeat case_match; intros [= _ <-]; cbn; try lia. unfold updateUsed, exec. cbn. destruct (sql_fault _); cbn; lia.
Qed.

Lemma generate_elsewhere opts db t db' v :
  GenerateWithOptions opts db = (inr t, db') → tk_Value t ≠ v → tokens (rows db') !! v = tokens (rows db) !! v ∧ token_rows (rows db') !! v = token_rows (rows db) !! v.
Proof.
  unfold GenerateWithOptions, mbind, M_bind, ignore_error, upsertToken, exec. cbn. intros [= <- <-] Hne. cbn in Hne.
  destruct (sql_fault _); cbn; by rewrite ?lookup_insert_ne.
Qed.

Lemma reopen_eq db db' : NewTokenStore db = (inr tt, db') →
  token_rows (rows db') = token_rows (rows db) ∧ ∀ v, tokens (rows db') !! v = scan_token v <$> token_rows (rows db) !! v.
Proof.
  unfold NewTokenStore, load_tokens, wrap_error, mbind, M_bind, query. cbn. destruct (sql_fault _); [done|]. cbn. intros [= <-]. cbn. split; [done|].
  intros v. rewrite (right_id_L ∅ (∪)), map_lookup_imap. by destruct (token_rows (rows db) !! v).
Qed.

(** The steps of a history that does not issue [v] again, and reopens the store
    only when the database answers. *)
Definition relevant (v : string) (db : DB TokenStore) (e : token_event) (db' : DB TokenStore) : Prop :=
  token_step db e db' ∧ e ≠ TGenerated v ∧ (e = TReopened → ∀ n, sql_fault n = None).

Lemma relevant_keeps v db e db' : relevant v db e db' → single_use v (rows db) → single_use v (rows db') ∧ (spent v (rows db) → spent v (rows db')).
Proof.
  intros (Hs & Hg & Hr) Hu. destruct Hs as [opts db t db' E|w db r db' E|db db' E|url db db' [= <-]]; [| | |done].
  - assert (Hne : tk_Value t ≠ v) by congruence. destruct (generate_elsewhere _ _ _ _ _ E Hne) as [E1 E2]. unfold single_use, spent. by rewrite E1, E2.
  - apply consume_cases in E as [[-> _]|(t & Ht & _ & Hnu & _ & [[_ ->]|(Hm & Et & Hrows)])]; [done..|].
    destruct Hu as [Hu1 Hu2]. unfold single_use, spent. rewrite Et. destruct (decide (w = v)) as [->|Hne].
    + rewrite lookup_insert_eq. destruct (Hu1 _ Ht) as [_ Hv]. split.
      * split; [intros t' [= <-]; done|]. destruct Hrows as [->|[-> _]]; [|done]. rewrite Hv, lookup_alter_eq. intros r' (r0 & Hr0 & ->)%fmap_Some. by apply Hu2 in Hr0.
      * intros [Hsp _]. specialize (Hsp _ Ht). congruence.
    + rewrite lookup_insert_ne by done. destruct Hrows as [->|[-> _]]; [|done].
      destruct (decide (tk_Value t = v)) as [->|Hv]; [|by rewrite lookup_alter_ne]. rewrite lookup_alter_eq. split.
      * split; [done|]. intros r' (r0 & Hr0 & ->)%fmap_Some. by apply Hu2 in Hr0.
      * intros [Hsp1 Hsp2]. split; [done|]. intros Hn r' (r0 & Hr0 & ->)%fmap_Some. done.
  - specialize (Hr eq_refl). destruct (reopen_eq _ _ E) as [E1 E2]. destruct Hu as [Hu1 Hu2]. unfold single_use, spent. rewrite E1, E2. split.
    + split; [|done]. intros t (r & Hrow & ->)%fmap_Some. cbn. by rewrite (Hu2 _ Hrow).
    + intros [_ Hsp]. split; [|done]. intros t (r & Hrow & ->)%fmap_Some. cbn. by rewrite (Hsp Hr _ Hrow).
Qed.

Lemma relevant_spends v db e db' : relevant v db e db' → single_use v (rows db) → accepted v e = true → ¬ spent v (rows db) ∧ spent v (rows db').
Proof.
  intros (Hs & _ & _) [Hu1 Hu2] Ha. destruct Hs as [opts db t db' E|w db r db' E|db db' E|url db db' E]; try done. cbn in Ha.
  apply consume_cases in E as [[_ Hf]|(t & Ht & _ & Hnu & -> & Hc)]; [by rewrite Hf in Ha|]. cbn in Ha. apply String.eqb_eq in Ha as ->.
  destruct (Hu1 _ Ht) as [Hm Hv]. destruct Hc as [[Hm' _]|(_ & Et & Hrows)]; [congruence|]. unfold spent. split.
  - intros [Hsp _]. specialize (Hsp _ Ht). congruence.
  - rewrite Et, lookup_insert_eq. split; [by intros t' [= <-]|]. intros Hn r'. destruct Hrows as [->|[_ Hbad]]; [|done].
    rewrite Hv, lookup_alter_eq. by intros (r0 & Hr0 & ->)%fmap_Some.
Qed.

Lemma relevant_trace v db tr db' :
  trace token_step db tr db' → (∀ e, e ∈ tr → e ≠ TGenerated v ∧ (e = TReopened → ∀ n, sql_fault n = None)) → trace (relevant v) db tr db'.
Proof.
  induction 1 as [|db e db1 tr db2 Hs _ IH]; intros He; [constructor|]. econstructor; [|apply IH; intros e' He'; apply He; by right].
  destruct (He e) as [? ?]; [by left|]. by split.
Qed.

(** C10. A registration token that is not multi-use registers one probe: in any
    history of issuing, using, and reopening the store it is accepted at most
    once, whatever statements fail as long as the store is not reopened, and
    across restarts as long as the database answers. *)
Theorem registration_token_single_use v tr db db' :
  trace token_step db tr db' → single_use v (rows db) → TGenerated v ∉ tr → (∀ n, sql_fault n = None) ∨ TReopened ∉ tr →
  (count_where (accepted v) tr <= 1)%nat.
Proof.
  intros Htr Hu Hg Hr. apply (used_at_most_once (relevant v) (λ db, single_use v (rows db)) (λ db, spent v (rows db)) (accepted v) db tr db'); try done.
  - intros s e s' Hs Hi. by apply (relevant_keeps v s e s').
  - intros s e s' Hs Hi. by apply (relevant_spends v s e s').
  - apply relevant_trace; [done|]. intros e He. split; [by intros ->|]. intros -> n. destruct Hr as [Hr|Hr]; [done|by destruct Hr].
Qed.
End safety.
