(* ===== verification/Registration.v ===== *)
(** * Registering probes and rotating their keys
    (src/internal/controlplane/api/register.go, server/probe_mtls.go,
    server/routes.go [handleRotateKey])

    The handlers see the fleet through the interface of fleet/fleet.go: the class
    [probeFleet] gives the operations they use, [ProbeFleetLaws] what they promise,
    and both the store and the manager alone keep the promise.  Their state is the
    token store next to the fleet. *)
From S2P Require Import Prelude GoStrings GoErrors GoTime GoCrypto GoSort GoSql GoRuntime Protocol AuthStores RegTokens FleetManager FleetStore FleetRestart.
Local Open Scope Z_scope.
Local Open Scope go_scope.

(** ** The interface *)

Class probeFleet (S : Type) := {
  fl_probes : S → gmap string ProbeState;
  fl_do : call → GoSql.M S unit;
  fl_Get : string → GoSql.M S (option ProbeState);
  fl_FindByHostname : string → GoSql.M S (option ProbeState);
  fl_List : GoSql.M S (list ProbeState);
  (** What is stored next to the probes names their hostnames. *)
  fl_synced : S → Prop;
}.

(** The readings of a call are later than those before it. *)
Definition since {S} (n : nat) (db : DB S) : Prop := (n ≤ ticks db)%nat.

Class ProbeFleetLaws S `{Host, !probeFleet S} := {
  (** A mutation keeps the contract of the interface; the errors of the database
      may replace the answer, not the change. *)
  do_meets c db r d : fl_do c db = (r, d) → ∃ r0, meets c (fl_probes (rows db)) r0 (fl_probes (rows d)) ∧ (r = r0 ∨ reports_disk c = true ∧ ∃ e, r = inl e);
  get_answers id db r d : fl_Get id db = (r, d) → r = inr (fl_probes (rows db) !! id) ∧ rows d = rows db;
  (** A lookup by hostname answers a probe of the fleet, of that hostname when
      there is one or when the stored hostnames are those of the probes. *)
  find_answers hostname db r d : fl_FindByHostname hostname db = (r, d) → fleet_ok (fl_probes (rows db)) → rows d = rows db ∧
    match r with
    | inl _ => False
    | inr None => ∀ id p, fl_probes (rows db) !! id = Some p → pb_Hostname p ≠ hostname
    | inr (Some w) => fl_probes (rows db) !! pb_ID w = Some w ∧
        (∀ id p, fl_probes (rows db) !! id = Some p → pb_Hostname p = hostname → pb_Hostname w = hostname) ∧
        (fl_synced (rows db) → pb_Hostname w = hostname)
    end;
  list_answers db r d : fl_List db = (r, d) → rows d = rows db ∧ ∃ l, r = inr l ∧ l ≡ₚ map snd (map_to_list (fl_probes (rows db)));
  do_later c n : keeps (since n) (fl_do c);
  list_later n : keeps (since n) fl_List;
  find_later hostname n : keeps (since n) (fl_FindByHostname hostname);
}.

Section implementations.
Context `{HostLaws} `{Runtime}.

(** The hostname of a row is that of the probe it is about. *)
Definition hostnames_agree (s : Fleet) : Prop :=
  ∀ id row p, disk s !! id = Some row → probes s !! row_id row = Some p → row_hostname row = pb_Hostname p.
Lemma agrees_hostnames s : agrees s → hostnames_agree s.
Proof.
  intros [Hok Hm] id row p Hrow Hp. specialize (Hm id). rewrite Hrow in Hm. inversion Hm as [q r [at0 ->] Hq|]; subst. cbn in Hp |- *.
  symmetry in Hq. rewrite (ok_id _ _ (Hok _ _ Hq)) in Hp. congruence.
Qed.

#[export] Instance fleet_store : probeFleet Fleet :=
  {| fl_probes := probes; fl_do := run_store; fl_Get := FleetStore.Get; fl_FindByHostname := FleetStore.FindByHostname; fl_List := FleetStore.List_;
     fl_synced := hostnames_agree |}.
Definition fleet_manager : probeFleet Fleet :=
  {| fl_probes := probes; fl_do := run_manager; fl_Get := FleetManager.Get; fl_FindByHostname := FleetManager.FindByHostname; fl_List := FleetManager.List_;
     fl_synced := λ _, True |}.

Lemma list_range db r d : FleetManager.List_ db = (r, d) → rows d = rows db ∧ ∃ l, r = inr l ∧ l ≡ₚ map snd (map_to_list (probes (rows db))).
Proof. intros [= <- <-]. split; [done|]. eexists. split; [done|]. apply Permutation_map, map_range_perm. Qed.

(** Nothing turns the count of readings back. *)
Lemma since_range n (m : Fleet → gmap string ProbeState) : keeps (since n) (range m).
Proof. intros db Hn. unfold since in *. cbn. lia. Qed.
Lemma since_for_each {A} n (f : A → GoSql.M Fleet unit) l : (∀ x, keeps (since n) (f x)) → keeps (since n) (for_each f l).
Proof. intros Hf. induction l as [|x l IH]; cbn; [apply keeps_ret|apply keeps_bind; auto]. Qed.
Lemma since_tick n (db : DB Fleet) : since n db → since n (tick db).
Proof. unfold since. cbn. lia. Qed.
Lemma since_puts n f : keeps (since n) (puts f : GoSql.M Fleet unit).
Proof. by intros db Hn. Qed.
Lemma since_gets {A} n (f : Fleet → A) : keeps (since n) (gets f).
Proof. by intros db Hn. Qed.
Lemma since_write n f : keeps (since n) (write f).
Proof. apply keeps_exec; [apply since_tick|]. unfold since. cbn. lia. Qed.
Lemma since_known n id : keeps (since n) (known id).
Proof. apply keeps_bind; [apply since_gets|]. intros [p|]; [apply keeps_ret|apply keeps_fail]. Qed.

#[local] Hint Resolve keeps_bind keeps_ret keeps_fail keeps_errorf keeps_ignore keeps_time keeps_attempt keeps_query since_tick since_puts since_gets since_range
  since_for_each since_write since_known : since.
Ltac since := repeat first [apply keeps_bind; [|intros ?] | case_match | eauto with since].
Lemma manager_later c n : keeps (since n) (run_manager c).
Proof.
  destruct c; cbn [run_manager]; unfold unit_of, FleetManager.Register, FleetManager.RegisterRemote, FleetManager.Heartbeat,
    FleetManager.UpdateInventory, FleetManager.SetPolicy, FleetManager.SetAPIKey, FleetManager.SetStatus, FleetManager.MarkOffline,
    FleetManager.SetOnline, FleetManager.SetTags, FleetManager.Delete, FleetManager.CleanupOffline, FleetManager.SetTenantID, put_probe;
    cbv zeta; since.
Qed.
Lemma save_later n id save : (∀ ps, keeps (since n) (save ps)) → keeps (since n) (save_quietly id save) ∧ keeps (since n) (save_strictly id save).
Proof. intros Hs. split; apply keeps_bind; [apply since_gets| |apply since_gets|]; intros [ps|]; eauto with since. Qed.
Lemma store_later c n : keeps (since n) (run_store c).
Proof.
  pose proof (manager_later c n) as Hm. pose proof (save_later n) as Hsave.
  destruct c; cbn [run_store run_manager] in *; unfold unit_of in *; try (apply keeps_bind; [exact Hm|intros _]);
    try (apply Hsave; intros ps; apply since_write).
  all: unfold Register, RegisterRemote, CleanupOffline, FleetManager.List_, FleetManager.Register, FleetManager.RegisterRemote,
    FleetManager.CleanupOffline, put_probe, upsertProbe, updateStatus, delete_row; cbv zeta; since.
  all: apply since_for_each; intros x; since.
Qed.

#[export] Instance fleet_manager_laws : @ProbeFleetLaws Fleet _ fleet_manager.
Proof.
  constructor; cbn.
  - intros c db r d E. exists r. split; [|by left]. pose proof (manager_meets c db) as Hm. by rewrite E in Hm.
  - by intros id db r d [= <- <-].
  - intros hostname db r d E Hok. assert (Hr : rows d = rows db) by (by injection E as _ <-). split; [done|].
    assert (∃ o, r = inr o) as [o ->] by (injection E as <- _; by eexists). pose proof (hostname_lookup hostname db o d Hok E) as Hc.
    destruct o as [w|]; [|done]. destruct Hc as (Hw & Hh & _). by split.
  - apply list_range.
  - apply manager_later.
  - intros n. unfold FleetManager.List_. since.
  - intros hostname n. unfold FleetManager.FindByHostname. since.
Qed.

#[export] Instance fleet_store_laws : ProbeFleetLaws Fleet.
Proof.
  constructor; cbn.
  - intros c db r d E. destruct (store_meets c db r d E) as (r0 & Hm & [->|(Hd & _ & n & e & _ & ->)]); exists r0; split; [done|by left|done|right; split; [done|by eexists]].
  - by intros id db r d [= <- <-].
  - intros hostname db r d E Hok. unfold FindByHostname in E. unfold mbind, M_bind in E.
    destruct (FleetManager.FindByHostname hostname db) as [r1 d1] eqn:E1. assert (Hr1 : rows d1 = rows db) by (by injection E1 as _ <-).
    assert (∃ o, r1 = inr o) as [o ->] by (injection E1 as <- _; by eexists). pose proof (hostname_lookup hostname db o d1 Hok E1) as Hc.
    destruct o as [w|]; [injection E as <- <-; destruct Hc as (Hw & Hh & _); by split|].
    unfold attempt, query in E. destruct (sql_fault (ticks d1)); cbn in E; [injection E as <- <-; by split|].
    destruct (order_by _ _) as [|row l] eqn:Ho; cbn in E; injection E as <- <-; [by split|]. cbn. rewrite Hr1. split; [done|].
    destruct (probes (rows db) !! row_id row) as [w|] eqn:Hw; [|done]. rewrite (ok_id _ _ (Hok _ _ Hw)).
    split_and!; [done|intros id p Hp Hh; by destruct (Hc id p)|]. intros Hs.
    assert (Hin : row ∈ List.filter (λ r, row_hostname r =s hostname) (map snd (map_to_list (disk (rows d1)))))
      by (rewrite <- (order_by_perm hostname_order), Ho; by left).
    apply list_elem_of_In, filter_In in Hin as [([id row'] & Hrow & Hin%list_elem_of_In%elem_of_map_to_list)%in_map_iff Hh].
    cbn in Hrow. subst row'. rewrite Hr1 in Hin. apply String.eqb_eq in Hh. by rewrite <- (Hs id row w Hin Hw).
  - apply list_range.
  - apply store_later.
  - intros n. unfold List_, FleetManager.List_. since.
  - intros hostname n. unfold FindByHostname, FleetManager.FindByHostname, FleetManager.Get. since.
Qed.
End implementations.

(** ** Requests *)

Record RegisterRequest := {
  rq_Token : string;
  rq_Hostname : string;
  rq_OS : string;
  rq_Arch : string;
  rq_Version : string;
  rq_Tags : list string;
}.
Record RegisterResponse := { rr_ProbeID : string; rr_APIKey : string; rr_PolicyID : string }.
Record registerProbeResult := { rg_probeID : string; rg_apiKey : string; rg_reRegistered : bool; rg_cleanedStale : list string }.

(** The parts of a request the token endpoints read. *)
Record url_request := {
  ur_ForwardedHost : string;
  ur_Host : string;
  ur_ForwardedProto : string;
  ur_TLS : bool;
  ur_MultiUse : string;
  ur_NoExpiry : string;
  ur_TenantID : string;
}.

Definition requestBaseURL (r : url_request) : string :=
  let host := if TrimSpace (ur_ForwardedHost r) =s "" then TrimSpace (ur_Host r) else TrimSpace (ur_ForwardedHost r) in
  if host =s "" then ""
  else if HasPrefix host "http://" || HasPrefix host "https://" then trim_slashes host
  else
    let scheme := TrimSpace (ur_ForwardedProto r) in
    ((if scheme =s "" then if ur_TLS r then "https" else "http" else scheme) +:+ "://" +:+ host)%string.

Definition tokenWithInstallCommand (t : Token) (fallbackBaseURL : string) : Token :=
  if tk_InstallCommand t =s ""
  then {| tk_Value := tk_Value t; tk_Created := tk_Created t; tk_Expires := tk_Expires t; tk_Used := tk_Used t; tk_MultiUse := tk_MultiUse t;
          tk_TenantID := tk_TenantID t; tk_InstallCommand := installCommand fallbackBaseURL (tk_Value t) |}
  else t.

Definition EventProbeRegistered : string := "probe.registered".
Definition EventTokenGenerated : string := "token.generated".
Definition EventProbeKeyRotated : string := "probe.key_rotated".
Record audit_event := { ae_Type : string; ae_ProbeID : string; ae_Actor : string; ae_Summary : string }.

Inductive reg_reply :=
  | RegFailed (status : Z) (error : string)
  | RegCreated (resp : RegisterResponse)
  | RegToken (t : Token)
  | RegTokens (l : list Token) (count total : Z)
  | RegRotated (probeID newKey : string).

(** ** Handlers *)

Record Reg (S : Type) := { reg_tokens : TokenStore; reg_fleet : S }.
Arguments reg_tokens {S} _.
Arguments reg_fleet {S} _.
Arguments Build_Reg {S} _ _.

Section handlers.
Context {S : Type} `{Host} `{Runtime} `{Secrets} `{!probeFleet S}.
Notation R := (GoSql.M (Reg S)) (only parsing).

Definition on_tokens {A} : GoSql.M TokenStore A → R A := zoom reg_tokens (λ t s, {| reg_tokens := t; reg_fleet := reg_fleet s |}).
Definition on_fleet {A} : GoSql.M S A → R A := zoom reg_fleet (λ f s, {| reg_tokens := reg_tokens s; reg_fleet := f |}).

(** The randomness of a call is that of its position in the history. *)
Definition GenerateAPIKey : R string := λ db,
  (match rand_Read (ticks db) with
   | inl e => inl (errorf_w "generate api key" e)
   | inr b => inr ("lgk_" +:+ hex_EncodeToString b)%string
   end, tick db).

Definition shouldPruneDuplicateProbe (ps : ProbeState) (now : time) : bool :=
  let status := ToLower (TrimSpace (pb_Status ps)) in
  if status =s "offline" then true
  else if status =s "online" then false
  else if IsZero (pb_LastSeen ps) then true
  else 30 * Minute <? time_Sub now (pb_LastSeen ps).

(** The loop of [cleanupStaleHostnameDuplicates]. *)
Fixpoint prune (canonicalID hostname : string) (now : time) (l : list ProbeState) : R (list string) :=
  match l with
  | [] => mret []
  | ps :: l' =>
      if (pb_ID ps =s canonicalID) || (pb_Hostname ps <>s hostname) then prune canonicalID hostname now l'
      else if negb (shouldPruneDuplicateProbe ps now) then prune canonicalID hostname now l'
      else
        deleted ← attempt (on_fleet (fl_do (CDelete (pb_ID ps))));
        rest ← prune canonicalID hostname now l';
        mret (match deleted with inr _ => pb_ID ps :: rest | inl _ => rest end)
  end.

Definition cleanupStaleHostnameDuplicates (canonicalID hostname : string) : R (list string) :=
  let hostname := TrimSpace hostname in
  if hostname =s "" then mret []
  else
    now ← time_now;
    l ← on_fleet fl_List;
    removed ← prune canonicalID hostname now l;
    mret (insertion_sort String.ltb removed).

Definition registerProbe (req : RegisterRequest) : R registerProbeResult :=
  uuid ← uuid_NewString;
  existing ← on_fleet (fl_FindByHostname (rq_Hostname req));
  let '(probeID, reRegistered) :=
    match existing with Some ps => (pb_ID ps, true) | None => (("prb-" +:+ take_str 8 uuid)%string, false) end in
  apiKey ← GenerateAPIKey;
  _ ← on_fleet (fl_do (CRegister probeID (rq_Hostname req) (rq_OS req) (rq_Arch req)));
  _ ← ignore_error (on_fleet (fl_do (CSetAPIKey probeID apiKey)));
  _ ← ignore_error (on_fleet (fl_do (CSetTags probeID (rq_Tags req))));
  cleaned ← cleanupStaleHostnameDuplicates probeID (rq_Hostname req);
  mret {| rg_probeID := probeID; rg_apiKey := apiKey; rg_reRegistered := reRegistered; rg_cleanedStale := cleaned |}.

(** [HandleRegister], with the audit event of [HandleRegisterWithAudit] when
    [audited]. *)
Definition handle_register (audited : bool) (body : option RegisterRequest) : R (reg_reply * list audit_event) :=
  match body with
  | None => mret (RegFailed 400 "invalid request", [])
  | Some req =>
      consumed ← on_tokens (ConsumeGetTenant (rq_Token req));
      let '(valid, tenantID) := consumed in
      if negb valid then mret (RegFailed 401 "invalid or expired token", [])
      else
        result ← attempt (registerProbe req);
        match result with
        | inl _ => mret (RegFailed 500 "failed to generate api key", [])
        | inr res =>
            _ ← (if tenantID <>s "" then ignore_error (on_fleet (fl_do (CSetTenantID (rg_probeID res) tenantID))) else mret tt);
            mret (RegCreated {| rr_ProbeID := rg_probeID res; rr_APIKey := rg_apiKey res; rr_PolicyID := "default-observe" |},
                  if audited then
                    [{| ae_Type := EventProbeRegistered; ae_ProbeID := rg_probeID res; ae_Actor := "system";
                        ae_Summary := ((if rg_reRegistered res then "Probe re-registered: " else "Probe registered: ") +:+ rq_Hostname req)%string |}]
                  else [])
        end
  end.
Definition HandleRegister : option RegisterRequest → R (reg_reply * list audit_event) := handle_register false.
Definition HandleRegisterWithAudit : option RegisterRequest → R (reg_reply * list audit_event) := handle_register true.

(** [HandleGenerateToken] and [HandleGenerateTokenWithAudit]. *)
Definition handle_generate_token (audited : bool) (r : url_request) : R (reg_reply * list audit_event) :=
  token ← on_tokens (GenerateWithOptions {| go_MultiUse := EqualFold (TrimSpace (ur_MultiUse r)) "true";
                                            go_NoExpiry := EqualFold (TrimSpace (ur_NoExpiry r)) "true"; go_TenantID := TrimSpace (ur_TenantID r) |});
  mret (RegToken (tokenWithInstallCommand token (requestBaseURL r)),
        if audited then [{| ae_Type := EventTokenGenerated; ae_ProbeID := ""; ae_Actor := "api"; ae_Summary := "Registration token generated" |}] else []).
Definition HandleGenerateToken : url_request → R (reg_reply * list audit_event) := handle_generate_token false.
Definition HandleGenerateTokenWithAudit : url_request → R (reg_reply * list audit_event) := handle_generate_token true.

Definition HandleListTokens (r : url_request) : R (reg_reply * list audit_event) :=
  active ← on_tokens ListActive;
  total ← on_tokens RegTokens.Count;
  let l := map (λ t, tokenWithInstallCommand t (requestBaseURL r)) active in
  mret (RegTokens l (Z.of_nat (length l)) total, []).

(** The check of the key a probe presents when it connects. *)
Definition validateProbeAPIKey (probeID bearerToken : string) : R bool :=
  p ← on_fleet (fl_Get probeID);
  match p with
  | None => mret false
  | Some ps => if pb_APIKey ps =s "" then mret false else mret (pb_APIKey ps =s bearerToken)
  end.

(** [permitted] is the answer of [requirePermission], [send] that of the hub. *)
Definition handleRotateKey (permitted : bool) (send : string → KeyRotationPayload → option go_error) (id : string) : R (reg_reply * list audit_event) :=
  if negb permitted then mret (RegFailed 403 "forbidden", [])
  else
    p ← on_fleet (fl_Get id);
    match p with
    | None => mret (RegFailed 404 "not_found", [])
    | Some ps =>
        newKey ← attempt GenerateAPIKey;
        match newKey with
        | inl _ => mret (RegFailed 500 "internal_error", [])
        | inr newKey =>
            let previousKey := pb_APIKey ps in
            set ← attempt (on_fleet (fl_do (CSetAPIKey id newKey)));
            match set with
            | inl _ => mret (RegFailed 404 "not_found", [])
            | inr _ =>
                match send id {| kr_NewKey := newKey; kr_Expiry := "" |} with
                | Some _ =>
                    _ ← ignore_error (on_fleet (fl_do (CSetAPIKey id previousKey)));
                    mret (RegFailed 502 "bad_gateway", [])
                | None =>
                    mret (RegRotated id newKey,
                          [{| ae_Type := EventProbeKeyRotated; ae_ProbeID := id; ae_Actor := "api"; ae_Summary := "Probe API key rotated" |}])
                end
            end
        end
    end.
End handlers.

(** ** Theorems *)

Section safety.
Context {S : Type} `{Host} `{Runtime} `{Secrets} `{!probeFleet S} `{!ProbeFleetLaws S}.

Definition view (db : DB (Reg S)) : gmap string ProbeState := fl_probes (reg_fleet (rows db)).
Definition same_tokens (db db' : DB (Reg S)) : Prop := reg_tokens (rows db') = reg_tokens (rows db).

Lemma on_fleet_do c db r db' : on_fleet (fl_do c) db = (r, db') →
  same_tokens db db' ∧ ∃ now, match effect c now (view db) with
    | inl e => view db' = view db ∧ (r = inl e ∨ reports_disk c = true ∧ ∃ e, r = inl e)
    | inr m => view db' = m ∧ (r = inr tt ∨ reports_disk c = true ∧ ∃ e, r = inl e)
    end.
Proof.
  unfold on_fleet. intros (d & E & Hr & _)%zoom_eq. unfold same_tokens, view. rewrite Hr. split; [done|].
  destruct (do_meets _ _ _ _ E) as (r0 & (now & Hm) & Hans). exists now. cbn in Hm |- *.
  destruct (effect c now _) as [e|m]; destruct Hm as [-> ->]; done.
Qed.
Lemma ignore_inr {A B} (m : GoSql.M A B) db r db' : ignore_error m db = (r, db') → r = inr tt ∧ ∃ r', m db = (r', db').
Proof. intros [= <- <-]. split; [done|]. exists (m db).1. apply surjective_pairing. Qed.

(** Changing a probe of the fleet, with the error discarded. *)
Lemma ignored_change c id f ps db r db' : (∀ now m, effect c now m = on_probe id f m) → view db !! id = Some ps →
  ignore_error (on_fleet (fl_do c)) db = (r, db') → r = inr tt ∧ same_tokens db db' ∧ view db' = <[id := f ps]> (view db).
Proof.
  intros Hc Hps (-> & r' & (Ht & now & Hm)%on_fleet_do)%ignore_inr. rewrite Hc in Hm. unfold on_probe in Hm. rewrite Hps in Hm. by destruct Hm as [-> _].
Qed.

Definition later {A} (m : GoSql.M (Reg S) A) : Prop := ∀ n, keeps (since n) m.
Lemma later_bind {A B} (m : GoSql.M (Reg S) A) (f : A → GoSql.M (Reg S) B) : later m → (∀ a, later (f a)) → later (m ≫= f).
Proof. intros Hm Hf n. apply keeps_bind; [apply Hm|intros a; apply Hf]. Qed.









Lemma validate_eq probeID bearer db : (validateProbeAPIKey probeID bearer db).1 =
  inr (match view db !! probeID with Some ps => (pb_APIKey ps <>s "") && (pb_APIKey ps =s bearer) | None => false end).
Proof.
  unfold validateProbeAPIKey, mbind, M_bind. destruct (on_fleet (fl_Get probeID) db) as [r d] eqn:E. apply zoom_eq in E as (d' & E & _ & _).
  apply get_answers in E as [-> _]. cbn. unfold view. destruct (_ !! probeID) as [ps|]; [|done]. by destruct (pb_APIKey ps =s "").
Qed.


(** C22. Rotating a key is all or nothing: when it answers the new key, the probe
    connects with that key and no other; when it fails, also after the probe could
    not be told, the probe connects with the key it had; and no other probe is
    affected either way. *)
Theorem key_rotation_atomic permitted send id db reply ev db' :
  handleRotateKey permitted send id db = (inr (reply, ev), db') →
  (∀ other, other ≠ id → view db' !! other = view db !! other) ∧
  match reply with
  | RegRotated id' key => id' = id ∧ permitted = true ∧ send id {| kr_NewKey := key; kr_Expiry := "" |} = None ∧
      ∀ bearer, (validateProbeAPIKey id bearer db').1 = inr (key =s bearer)
  | _ => ∀ bearer, (validateProbeAPIKey id bearer db').1 = (validateProbeAPIKey id bearer db).1
  end.
Proof.
  unfold handleRotateKey. destruct permitted; cbn [negb]; [|by intros [= <- _ <-]].
  intros (p & d1 & (d & Eg & Hr & _)%zoom_eq & E)%bind_inr. apply get_answers in Eg as [[= ->] Hd]. rewrite Hd in Hr. cbn in Hr, E.
  assert (Hv1 : view d1 = view db) by (unfold view; by rewrite Hr). change (fl_probes (reg_fleet (rows db))) with (view db) in E.
  destruct (view db !! id) as [ps|] eqn:Hps; [|injection E as <- _ <-; split; [by rewrite Hv1|intros b; by rewrite !validate_eq, Hv1]].
  apply bind_inr in E as (newKey & d2 & [= <- <-] & E).
  destruct (rand_Read (ticks d1)) as [e|raw]; [injection E as <- _ <-; split; [intros o _|intros b; rewrite !validate_eq]; by change (view (tick d1)) with (view d1); rewrite Hv1|].
  set (key := ("lgk_" +:+ hex_EncodeToString raw)%string) in *. apply bind_inr in E as (set_ & d3 & (_ & now & Hm)%attempt_inr%on_fleet_do & E).
  cbn [effect] in Hm. unfold on_probe in Hm. change (view (tick d1)) with (view d1) in Hm. rewrite Hv1, Hps in Hm. destruct Hm as [Hv3 [->|[[=] _]]].
  destruct (send id _) as [err|] eqn:Es.
  - apply bind_inr in E as (u & d4 & E4 & [= <- _ <-]).
    destruct (ignored_change (CSetAPIKey id (pb_APIKey ps)) id (set_key (pb_APIKey ps)) (set_key key ps) _ _ _ (λ _ _, eq_refl) ltac:(by rewrite Hv3, lookup_insert_eq) E4) as (_ & _ & Hv4).
    rewrite Hv3, insert_insert_eq in Hv4. split; [intros o Hne; by rewrite Hv4, lookup_insert_ne|]. intros b. by rewrite !validate_eq, Hv4, lookup_insert_eq, Hps.
  - injection E as <- _ <-. split; [intros o Hne; by rewrite Hv3, lookup_insert_ne|]. split_and!; [done..|]. intros b. by rewrite validate_eq, Hv3, lookup_insert_eq.
Qed.
End safety.
