(* ===== verification/FleetExamples.v ===== *)
(** * The fleet and the registration at work

    Concrete histories: the theorems of the fleet, the token store and the
    registration applied to them, and behaviours of the code that its authors
    would not expect. *)
From Stdlib Require Import SpecFloat.
From S2P Require Import Prelude GoStrings GoErrors GoTime GoFloat GoSort GoSql GoRuntime Protocol AuthStores RegTokens FleetManager FleetStore FleetRestart FleetInventory Registration.
Import ExampleHost ExampleRuntime.
Local Open Scope Z_scope.

Module FleetRun.
(** Randomness that differs from call to call. *)
#[export] Instance secrets : Secrets :=
  {| GenerateFromPassword := λ _ p, inr p; CompareHashAndPassword := λ h p, String.eqb h p; rand_Read := λ n, inr (pretty n) |}.

(** A database that fails one statement. *)
Definition failing (k : nat) : Host :=
  {| sql_fault := λ n, if Nat.eqb n k then Some (ErrorString "database is locked") else None; clock := @clock host; new_uuid := @new_uuid host;
     order_by := @order_by host |}.

Definition db0 : DB Fleet := {| rows := {| probes := ∅; disk := ∅ |}; ticks := 0 |}.
Definition beat8 : HeartbeatPayload :=
  {| hb_ProbeID := "p-1"; hb_Uptime := 60; hb_Load := (float64_of_int 8, float64_of_int 4, float64_of_int 2); hb_MemUsed := 1; hb_MemTotal := 4;
     hb_DiskUsed := 1; hb_DiskTotal := 4 |}.
Definition cores (n : Z) : InventoryPayload :=
  {| inv_ProbeID := "p-1"; inv_Hostname := "web"; inv_OS := "linux"; inv_Arch := "amd64"; inv_Kernel := "6.8"; inv_CPUs := n; inv_MemTotal := 2 ^ 40;
     inv_DiskTotal := 2 ^ 40; inv_Interfaces := []; inv_Packages := []; inv_Services := []; inv_Users := []; inv_Labels := ∅; inv_Metadata := ∅;
     inv_CollectedAt := 0 |}.
Definition history : list event :=
  [Call (CRegister "p-1" "web" "linux" "amd64"); Call (CSetTags "p-1" [" Prod "; "prod"; ""]); Call (CUpdateInventory "p-1" (Some (cores 64)));
   Call (CRegister "p-2" "web" "linux" "arm64"); Call (CSetPolicy "p-2" CapRemediate); Call (CHeartbeat "p-1" (Some beat8)); Restart;
   Call (CSetTenantID "p-2" "a"); Call (CMarkOffline 1); Call (CSetOnline "p-2"); Call (CDelete "p-9")].
Definition later : DB Fleet := run_events history db0.

Definition reg0 : DB (Reg Fleet) :=
  {| rows := {| reg_tokens := {| tokens := ∅; token_rows := ∅; secret := "s"; serverURL := "" |}; reg_fleet := {| probes := ∅; disk := ∅ |} |}; ticks := 0 |}.
Definition issue (opts : GenerateOptions) (db : DB (Reg Fleet)) : string * DB (Reg Fleet) :=
  match on_tokens (GenerateWithOptions opts) db with (inr t, d) => (tk_Value t, d) | (inl _, d) => (""%string, d) end.
Definition for_tenant (t : string) : GenerateOptions := {| go_MultiUse := false; go_NoExpiry := false; go_TenantID := t |}.
Definition request (token hostname : string) : RegisterRequest :=
  {| rq_Token := token; rq_Hostname := hostname; rq_OS := "linux"; rq_Arch := "amd64"; rq_Version := "1"; rq_Tags := ["Web"] |}.
(** Issues a token of a tenant and registers a probe with it. *)
Definition enrolled (tenant hostname : string) (db : DB (Reg Fleet)) : (string * string) * DB (Reg Fleet) :=
  let '(v, d) := issue (for_tenant tenant) db in
  match HandleRegisterWithAudit (Some (request v hostname)) d with
  | (inr (RegCreated resp, _), d') => ((rr_ProbeID resp, rr_APIKey resp), d')
  | (_, d') => ((""%string, ""%string), d')
  end.
Definition first := enrolled "a" "web" reg0.
Definition tenant_of (id : string) (db : DB (Reg Fleet)) : option string := pb_TenantID <$> view db !! id.
Definition connects (id key : string) (db : DB (Reg Fleet)) : result bool := (validateProbeAPIKey id key db).1.
End FleetRun.
Import FleetRun.

(** ** Behaviours *)

(** The load is divided by the number of processors and so is the threshold: a
    load of 8 is critical on a machine with 64 processors. *)
Theorem load_not_per_cpu : hs_Warnings (ScoreHealth (Some beat8) (Some (cores 64))) = ["critical load average"%string] ∧
  ScoreHealth (Some beat8) (Some (cores 64)) = ScoreHealth (Some beat8) (Some (cores 1)).
Proof. vm_compute. done. Qed.

(** A probe that registers again with a token of no tenant loses its tenant, also
    in the table. *)
Theorem reregistration_drops_tenant :
  let again := enrolled "" "web" first.2 in
  again.1.1 = first.1.1 ∧ tenant_of first.1.1 first.2 = Some "a"%string ∧ tenant_of again.1.1 again.2 = Some ""%string ∧
  (row_tenant_id <$> disk (reg_fleet (rows again.2)) !! again.1.1) = Some ""%string.
Proof. vm_compute. done. Qed.

(** A token of one tenant takes over the probe of another: naming its hostname is
    enough to get its id with a new key, and the key it had is refused.  Probes
    that give no hostname take over one another. *)
Theorem registration_takes_over :
  let thief := enrolled "b" "web" first.2 in
  thief.1.1 = first.1.1 ∧ connects first.1.1 first.1.2 first.2 = inr true ∧ connects first.1.1 first.1.2 thief.2 = inr false ∧
  connects thief.1.1 thief.1.2 thief.2 = inr true ∧ tenant_of first.1.1 thief.2 = Some "b"%string ∧
  (let one := enrolled "" "" reg0 in let two := enrolled "" "" one.2 in two.1.1 = one.1.1 ∧ connects one.1.1 one.1.2 two.2 = inr false).
Proof. vm_compute. repeat split. Qed.

(** A token is spent before the key is generated: when that fails the probe is not
    registered and the token is gone. *)
Theorem token_spent_without_probe :
  let broken : Secrets := {| GenerateFromPassword := λ _ p, inr p; CompareHashAndPassword := λ h p, String.eqb h p; rand_Read := λ _, inl (ErrorString "entropy") |} in
  let '(v, d) := issue (for_tenant "") reg0 in
  let failed := @HandleRegister Fleet host broken fleet_store (Some (request v "web")) d in
  failed.1 = inr (RegFailed 500 "failed to generate api key", []) ∧ view failed.2 = ∅ ∧
  (HandleRegister (Some (request v "web")) failed.2).1 = inr (RegFailed 401 "invalid or expired token", []).
Proof. vm_compute. done. Qed.

(** Errors of the table are discarded: a probe whose row could not be deleted is
    back after a restart, with its key, and a token whose use could not be
    recorded is accepted again. *)
Theorem deleted_probe_returns :
  let d1 := run_events [Call (CRegister "p-1" "web" "linux" "amd64"); Call (CSetAPIKey "p-1" "k")] db0 in
  let broken := @FleetStore.Delete (failing (ticks d1)) "p-1" d1 in
  broken.1 = inr tt ∧ probes (rows broken.2) !! "p-1"%string = None ∧
  (pb_APIKey <$> probes (rows (NewStore broken.2).2) !! "p-1"%string) = Some "k"%string.
Proof. vm_compute. done. Qed.

Theorem used_token_revived :
  let tokens0 : DB TokenStore := {| rows := reg_tokens (rows reg0); ticks := 0 |} in
  match GenerateWithOptions (for_tenant "") tokens0 with
  | (inr t, d) =>
      let used := @ConsumeGetTenant (failing (S (ticks d))) (tk_Value t) d in
      used.1 = inr (true, ""%string) ∧ (ConsumeGetTenant (tk_Value t) used.2).1 = inr (false, ""%string) ∧
      (ConsumeGetTenant (tk_Value t) (NewTokenStore used.2).2).1 = inr (true, ""%string)
  | _ => False
  end.
Proof. vm_compute. done. Qed.

(** A probe that is registered again under another hostname, with a write that
    fails, is still found under the hostname of its old row. *)
Theorem stale_row_takes_probe :
  let d1 := run_events [Call (CRegister "p-1" "web" "linux" "amd64")] db0 in
  let broken := @FleetStore.Register (failing (S (ticks d1))) "p-1" "db" "linux" "amd64" d1 in
  match (FleetStore.FindByHostname "web" broken.2).1 with
  | inr (Some w) => pb_ID w = "p-1"%string ∧ pb_Hostname w = "db"%string
  | _ => False
  end.
Proof. vm_compute. done. Qed.

(** ** Witnesses *)

Lemma later_ok : fleet_ok (probes (rows later)).
Proof. apply (agrees_events host_answers history db0), agrees_empty. Defined.

Lemma store_refines_manager_witness :
  let x := run_store (CSetPolicy "p-1" CapDiagnose) later in
  ∃ r0, meets (CSetPolicy "p-1" CapDiagnose) (probes (rows later)) r0 (probes (rows x.2)) ∧ x.1 = inr tt.
Proof.
  intros x. destruct (store_refines_manager (CSetPolicy "p-1" CapDiagnose) later x.1 x.2 (surjective_pairing _)) as (r0 & Hm & _).
  exists r0. split; [exact Hm|vm_compute; reflexivity].
Defined.

Lemma restart_restores_fleet_witness :
  (NewStore later).1 = inr tt ∧ size (probes (rows (NewStore later).2)) = 2%nat ∧
  ∀ id, option_Forall2 (λ ps ps', ∃ r, disk (rows later) !! id = Some r ∧ ps' = reloaded (row_registered r) ps)
    (probes (rows later) !! id) (probes (rows (NewStore later).2) !! id).
Proof.
  pose proof (restart_restores_fleet history 0 host_answers) as Hr. cbv zeta in Hr. change (run_events history _) with later in Hr.
  destruct (NewStore later) as [res db'] eqn:E. destruct Hr as [-> Hp]. split; [reflexivity|split; [|exact Hp]].
  apply (f_equal snd) in E. cbn [snd] in E |- *. rewrite <- E. vm_compute. reflexivity.
Defined.

Lemma hostname_choice_witness : ∃ w, (FleetManager.FindByHostname "web" later).1 = inr (Some w) ∧ pb_ID w = "p-2"%string ∧
  ∀ id p, probes (rows later) !! id = Some p → pb_Hostname p = "web"%string → p = w ∨ preferred w p.
Proof.
  destruct (FleetManager.FindByHostname "web" later) as [[e|o] db'] eqn:E; [exfalso; apply (f_equal fst) in E; vm_compute in E; discriminate|].
  pose proof (hostname_choice "web" later o db' later_ok E) as Hc.
  assert (Ho : (pb_ID <$> o) = Some "p-2"%string).
  { apply (f_equal fst) in E. cbn [fst] in E. assert (Eo : o = match (FleetManager.FindByHostname "web" later).1 with inr o => o | _ => None end) by (rewrite E; reflexivity).
    rewrite Eo. vm_compute. reflexivity. }
  destruct o as [w|]; [|discriminate]. destruct Hc as (_ & _ & Hb). exists w. split; [reflexivity|]. split; [by injection Ho|exact Hb].
Defined.

Lemma tagged_probe_listed_witness :
  let d := (FleetManager.SetTags "p-1" ["  DB"] later).2 in
  ∃ l d2, FleetManager.ListByTag "db " d = (inr l, d2) ∧ ∃ ps, ps ∈ l ∧ pb_ID ps = "p-1"%string.
Proof.
  intros d. destruct (FleetManager.ListByTag "db " d) as [[e|l] d2] eqn:E; [exfalso; apply (f_equal fst) in E; vm_compute in E; discriminate|].
  exists l, d2. split; [reflexivity|]. apply (tagged_probe_listed "p-1" ["  DB"%string] "db " later d l d2 later_ok); [|exact E|vm_compute; discriminate|].
  - vm_compute. reflexivity.
  - exists "  DB"%string. split; [left|vm_compute; reflexivity].
Defined.

Lemma inventory_spec_witness : ∃ inv db', Inventory {| if_Tag := "prod"; if_Status := "" |} later = (inr inv, db') ∧ ag_TotalProbes (fi_Aggregates inv) = 1 ∧
  ag_TotalCPUs (fi_Aggregates inv) = 64.
Proof.
  destruct (Inventory {| if_Tag := "prod"; if_Status := "" |} later) as [[e|inv] db'] eqn:E; [exfalso; apply (f_equal fst) in E; vm_compute in E; discriminate|].
  exists inv, db'. split; [reflexivity|]. destruct (inventory_spec {| if_Tag := "prod"; if_Status := "" |} later inv db' E) as (_ & _ & -> & _ & -> & _).
  split; vm_compute; reflexivity.
Defined.


Lemma key_rotation_atomic_witness :
  connects first.1.1 first.1.2 first.2 = inr true ∧
  ∀ bearer, connects first.1.1 bearer (handleRotateKey true (λ _ _, Some (ErrorString "probe not connected")) first.1.1 first.2).2 = connects first.1.1 bearer first.2.
Proof.
  split; [vm_compute; reflexivity|]. destruct (handleRotateKey true (λ _ _, Some (ErrorString "probe not connected")) first.1.1 first.2) as [[e|[reply ev]] db'] eqn:E;
    [exfalso; apply (f_equal fst) in E; vm_compute in E; discriminate|].
  destruct (key_rotation_atomic true (λ _ _, Some (ErrorString "probe not connected")) first.1.1 first.2 reply ev db' E) as [_ Hr].
  destruct reply; try exact Hr. exfalso. by destruct Hr as (_ & _ & Hs & _).
Defined.

(** A token used twice, with a restart in between. *)
Module TokenRun.
Definition tokens0 : DB TokenStore := {| rows := reg_tokens (rows reg0); ticks := 0 |}.
Definition issued : DB TokenStore := (GenerateWithOptions (for_tenant "a") tokens0).2.
Definition value : string := match GenerateWithOptions (for_tenant "a") tokens0 with (inr t, _) => tk_Value t | _ => "" end.
Definition used := ConsumeGetTenant value issued.
Definition reopened := NewTokenStore used.2.
Definition again := ConsumeGetTenant value reopened.2.
Definition token_history : list token_event := [TConsumed value true; TReopened; TConsumed value false].
End TokenRun.
Import TokenRun.

Lemma token_history_runs : trace token_step issued token_history again.2.
Proof.
  apply trace_cons with used.2; [apply (step_consume value issued (true, "a"%string)); vm_compute; reflexivity|].
  apply trace_cons with reopened.2; [apply step_reopen; vm_compute; reflexivity|].
  apply trace_cons with again.2; [apply (step_consume value reopened.2 (false, ""%string)); vm_compute; reflexivity|]. apply trace_nil.
Defined.

Lemma registration_token_single_use_witness : used.1 = inr (true, "a"%string) ∧ (count_where (accepted value) token_history <= 1)%nat.
Proof.
  split; [vm_compute; reflexivity|]. apply (registration_token_single_use value token_history issued again.2 token_history_runs).
  - split; [intros t Ht|intros r Hr].
    + assert (E : tokens (rows issued) !! value = Some t) by exact Ht. vm_compute in E. injection E as <-. split; vm_compute; reflexivity.
    + assert (E : token_rows (rows issued) !! value = Some r) by exact Hr. vm_compute in E. injection E as <-. vm_compute. reflexivity.
  - unfold token_history. rewrite !elem_of_cons, elem_of_nil. intros [?|[?|[?|[]]]]; discriminate.
  - left. exact host_answers.
Defined.
