(* ===== verification/CommandHandler.v ===== *)
(** * The command endpoint
    (src/internal/controlplane/server/routes.go [handleDispatchCommand],
    [handleSimulateCommandPolicy], [invokeRemoteCommand]; server/async_jobs.go)

    The handler that ties the command path together: it evaluates the policy,
    asks for a breakglass confirmation, creates the async job, and then denies,
    submits for approval, hands the job to the worker, or dispatches.  Its state is
    the approval queue and the job table.  It returns what it replies and its
    effects in order: stream markers, audit events and bus events without their
    detail maps, and every call that can start the command on a probe.  The probes
    are those of the fleet, the invoker is [DispatchWithPolicy] of the dispatch
    core, the remote executor (SSH) is a parameter. *)
From S2P Require Import Prelude GoStrings GoErrors GoTime Protocol PolicyTemplates ApprovalQueue CapacityPolicy ApprovalService.
From S2P Require Import AsyncTypes GoSql AsyncStore AsyncLifecycle AsyncManager CommandDispatch AsyncApproval Auth FleetManager.
Local Open Scope go_scope.
Local Open Scope Z_scope.

(** ** Effects *)

Definition StreamEventPolicy : string := "policy".
Definition StreamEventApproval : string := "approval".
Definition StreamEventDispatch : string := "dispatch".
Definition StreamEventResult : string := "result".
Definition StreamEventJob : string := "job".

Inductive plane_effect :=
  | PMarker (requestID kind data : string)
  | PAudit (type probeID actor summary : string)
  | PEvent (type probeID summary : string)
  | PInvoke (probeID : string) (cmd : CommandPayload) (policy : DispatchPolicy)
  | PRemote (probeID : string) (cmd : CommandPayload)
  | PSpawnRemote (probeID : string) (cmd : CommandPayload).

(** The effects that can start the command on a probe. *)
Definition starts (e : plane_effect) : option (string * CommandPayload) :=
  match e with PInvoke p c _ | PRemote p c | PSpawnRemote p c => Some (p, c) | _ => None end.

(** ** Requests and replies *)

Record dispatch_request := {
  dq_Permitted : bool;                    (* the answer of [requirePermission] *)
  dq_Context : Auth.Context;
  dq_ProbeID : string;
  dq_Body : option CommandPayload;        (* [None] when the body does not decode *)
  dq_BreakglassReason : string;
  dq_BreakglassToken : string;
  dq_Wait : string;
  dq_Stream : string;
}.

Inductive cmd_reply :=
  | CRefused                                              (* written by [requirePermission] or the workspace check *)
  | CError (status : Z) (code message : string)
  | CBlocked (reason_code : string) (lane : ExecutionClass)
  | CDenied (d : CommandPolicyDecision)
  | CPending (approvalID : string) (d : CommandPolicyDecision)
  | CQueued (requestID jobID reason : string)
  | CRendered (r : option CommandInvokeHTTPJSONResponse).  (* [None] when nothing is written *)

Notation plane_state := (AsyncApproval.stores CommandPolicyRationale) (only parsing).

(** [pl_Others] is what the rest of the server (the worker, the scheduler, other
    requests) does to the two stores just before each access of this request. *)
Record plane := {
  pl_SandboxEnforcement : bool;
  pl_TwoPersonMode : bool;
  pl_Isolation : bool;
  pl_Service : Service;                                   (* the approval core *)
  pl_Capacity : provider_reply;                           (* what its capacity provider answers *)
  pl_Manager : option AsyncManager;
  pl_Scheduler : option AsyncWorkerConfig;
  pl_Probes : gmap string ProbeState;
  pl_Invoker : option (string → CommandPayload → DispatchPolicy → option CommandResultEnvelope);
  pl_Remote : option (ProbeState → CommandPayload → result CommandResultPayload);
  pl_Others : plane_state → plane_state;
}.

(** ** The monad: the two stores, and the effects in order

    Nothing holds the stores for the length of a request: every call on the job
    table, the queue and the worker (which has a mutex of its own) is one step,
    and the others run in between. *)

Definition P (A : Type) : Type := plane_state → A * list plane_effect * plane_state.
#[export] Instance P_ret : MRet P := λ A a st, (a, [], st).
#[export] Instance P_bind : MBind P := λ A B f m st,
  let '(a, e1, st1) := m st in let '(b, e2, st2) := f a st1 in (b, e1 ++ e2, st2).

Section handler.
Context `{Host} (s : plane).

Definition emit (e : plane_effect) : P unit := λ st, (tt, [e], st).
Definition jobs_call {A} (m : AsyncStore.M A) : P (result A) := λ st, let '(r, st') := on_jobs m (pl_Others s st) in (r, [], st').
Definition read_clock : P time := λ st,
  (clock (ticks (st_db st)), [], {| st_queue := st_queue st; st_db := tick (st_db st) |}).

Definition appendCommandStreamMarker (requestID kind data : string) : P unit :=
  if TrimSpace requestID =s "" then mret tt else emit (PMarker (TrimSpace requestID) kind data).

(** ** Async jobs (async_jobs.go) *)

Definition createAsyncCommandJob (probeID workspaceID : string) (cmd : CommandPayload) : P (option AsyncJob * option go_error) :=
  match pl_Manager s with
  | None => mret (None, None)
  | Some m =>
      job ← jobs_call (CreateForCommandInWorkspace m probeID workspaceID cmd);
      match job with
      | inl e => mret (None, Some e)
      | inr job =>
          _ ← emit (PAudit "job.created" probeID "api" ("Async job created: " +:+ j_ID job)%string);
          _ ← appendCommandStreamMarker (j_RequestID job) StreamEventJob "async_job_created";
          mret (Some job, None)
      end
  end.

Definition markAsyncJobRunning (jobID : string) : P unit :=
  match pl_Manager s with
  | None => mret tt
  | Some _ =>
      if TrimSpace jobID =s "" then mret tt
      else
        job ← jobs_call (MarkRunning jobID);
        match job with
        | inl _ => mret tt
        | inr job => emit (PAudit "job.run.started" (j_ProbeID job) "api" ("Async job started: " +:+ j_ID job)%string)
        end
  end.

Definition markAsyncJobRunningByRequestID (requestID : string) : P unit :=
  match pl_Manager s with
  | None => mret tt
  | Some _ =>
      if TrimSpace requestID =s "" then mret tt
      else
        job ← jobs_call (MarkRunningByRequestID requestID);
        match job with
        | inl _ => mret tt
        | inr job =>
            _ ← emit (PAudit "job.run.started" (j_ProbeID job) "approval" ("Async job started after approval: " +:+ j_ID job)%string);
            appendCommandStreamMarker (j_RequestID job) StreamEventApproval "approval_granted"
        end
  end.

Definition markAsyncJobWaitingApproval (jobID approvalID : string) (expiresAt : option time) (reason : string) : P unit :=
  match pl_Manager s with
  | None => mret tt
  | Some _ =>
      if TrimSpace jobID =s "" then mret tt
      else
        job ← jobs_call (MarkWaitingApproval jobID approvalID reason expiresAt);
        match job with
        | inl _ => mret tt
        | inr job =>
            _ ← emit (PAudit "approval.requested" (j_ProbeID job) "api" ("Async job waiting approval: " +:+ j_ID job)%string);
            appendCommandStreamMarker (j_RequestID job) StreamEventApproval "pending_approval"
        end
  end.

Definition failAsyncJobByRequestID (requestID reason output : string) (exitCode : option Z) : P unit :=
  match pl_Manager s with
  | None => mret tt
  | Some _ =>
      if TrimSpace requestID =s "" then mret tt
      else
        job ← jobs_call (MarkFailedByRequestID requestID reason output exitCode);
        match job with
        | inl _ => mret tt
        | inr job =>
            _ ← emit (PAudit "job.run.failed" (j_ProbeID job) "system" ("Async job failed: " +:+ j_ID job)%string);
            appendCommandStreamMarker (j_RequestID job) StreamEventResult "job_failed"
        end
  end.

Definition completeAsyncJobByRequestID (requestID : string) (exitCode : Z) (output : string) : P unit :=
  match pl_Manager s with
  | None => mret tt
  | Some _ =>
      if TrimSpace requestID =s "" then mret tt
      else if negb (exitCode =? 0)
      then failAsyncJobByRequestID requestID ("command exited with code " +:+ Itoa exitCode)%string output (Some exitCode)
      else
        job ← jobs_call (MarkSucceededByRequestID requestID exitCode output);
        match job with
        | inl _ => mret tt
        | inr job =>
            _ ← emit (PAudit "job.run.succeeded" (j_ProbeID job) "system" ("Async job succeeded: " +:+ j_ID job)%string);
            appendCommandStreamMarker (j_RequestID job) StreamEventResult "job_succeeded"
        end
  end.

(** [strings.TrimSpace(result.Stdout)], or the same of [Stderr] when it is empty. *)
Definition result_output (r : CommandResultPayload) : string :=
  if TrimSpace (res_Stdout r) =s "" then TrimSpace (res_Stderr r) else TrimSpace (res_Stdout r).

(** ** Remote probes *)

(** The closure [run] of [invokeRemoteCommand]. *)
Definition remote_run (execute : ProbeState → CommandPayload → result CommandResultPayload) (ps : ProbeState) (cmd : CommandPayload)
    : P CommandResultEnvelope :=
  _ ← emit (PRemote (pb_ID ps) cmd);
  match execute ps cmd with
  | inl e =>
      let e := if errors_Is e ContextDeadlineExceeded then Sentinel ErrTimeout else e in
      _ ← failAsyncJobByRequestID (cmd_RequestID cmd) (Error e) "" None;
      mret {| ce_RequestID := cmd_RequestID cmd; ce_State := ""; ce_Dispatched := true; ce_Result := None; ce_Err := Some e |}
  | inr r =>
      _ ← emit (PAudit "command.result" (pb_ID ps) "remote-probe" ("Remote command completed: " +:+ cmd_RequestID cmd)%string);
      _ ← emit (PEvent (if res_ExitCode r =? 0 then "command.completed" else "command.failed") (pb_ID ps)
                  ("Command " +:+ cmd_RequestID cmd +:+ " exit=" +:+ Itoa (res_ExitCode r))%string);
      _ ← appendCommandStreamMarker (cmd_RequestID cmd) StreamEventResult "command_result";
      _ ← completeAsyncJobByRequestID (cmd_RequestID cmd) (res_ExitCode r) (result_output r);
      mret {| ce_RequestID := cmd_RequestID cmd; ce_State := ""; ce_Dispatched := true; ce_Result := Some r; ce_Err := None |}
  end.

(** Without waiting, [run] is left to a goroutine of its own. *)
Definition invokeRemoteCommand (ps : ProbeState) (cmd : CommandPayload) (waitForResult : bool) : P CommandInvokeProjection :=
  let projection env := {| cp_Surface := "http"; cp_RequestID := cmd_RequestID cmd; cp_WaitForResult := waitForResult; cp_Envelope := Some env |} in
  match pl_Remote s with
  | None =>
      mret (projection {| ce_RequestID := cmd_RequestID cmd; ce_State := ""; ce_Dispatched := false; ce_Result := None;
                          ce_Err := Some (ErrorString "remote executor unavailable") |})
  | Some execute =>
      if waitForResult then (env ← remote_run execute ps cmd; mret (projection env))
      else
        _ ← emit (PSpawnRemote (pb_ID ps) cmd);
        mret (projection {| ce_RequestID := cmd_RequestID cmd; ce_State := ""; ce_Dispatched := true; ce_Result := None; ce_Err := None |})
  end.

Definition is_remote (ps : ProbeState) : bool := EqualFold (pb_Type ps) ProbeTypeRemote.

(** ** The worker's dispatcher *)

Definition job_command (now : time) (job : AsyncJob) : CommandPayload :=
  let rid := TrimSpace (j_RequestID job) in
  {| cmd_RequestID := if rid =s "" then NextCommandRequestID now else rid; cmd_Command := TrimSpace (j_Command job); cmd_Args := j_Args job;
     cmd_Timeout := 0; cmd_Level := TrimSpace (j_Level job); cmd_Stream := false |}.

Definition envelope_failure (env : option CommandResultEnvelope) (fallback : string) : option go_error :=
  match env with
  | Some e => if ce_Dispatched e then None else Some (default (ErrorString fallback) (ce_Err e))
  | None => Some (ErrorString fallback)
  end.

(** [dispatchQueuedAsyncJob]: its error, and its effects.  It does not touch the
    stores. *)
Definition dispatchQueuedAsyncJob (now : time) (job : AsyncJob) : option go_error * list plane_effect :=
  match pl_Invoker s with
  | None => (Some (ErrorString "dispatch core unavailable"), [])
  | Some invoke =>
      match pl_Probes s !! j_ProbeID job with
      | None => (Some (ErrorString "probe not found"), [])
      | Some ps =>
          let cmd := job_command now job in
          let '(failure, started) :=
            if is_remote ps then
              match pl_Remote s with
              | None => (Some (ErrorString "remote executor unavailable"), [])
              | Some _ => (None, [PSpawnRemote (pb_ID ps) cmd])
              end
            else (envelope_failure (invoke (pb_ID ps) cmd (DispatchOnlyPolicy false)) "command dispatch failed",
                  [PInvoke (pb_ID ps) cmd (DispatchOnlyPolicy false)]) in
          match failure with
          | Some e => (Some e, started)
          | None =>
              (None, started ++
                [PAudit "job.run.started" (pb_ID ps) "scheduler" ("Async job started: " +:+ j_ID job)%string;
                 PAudit "command.sent" (pb_ID ps) "api" ("Command dispatched: " +:+ cmd_Command cmd)%string;
                 PEvent "command.dispatched" (pb_ID ps) ("Command dispatched: " +:+ cmd_Command cmd)%string] ++
                if cmd_RequestID cmd =s "" then [] else [PMarker (cmd_RequestID cmd) StreamEventDispatch "command_dispatched"])
          end
      end
  end.

(** [DispatchNow] of the worker, whose dispatcher is [dispatchQueuedAsyncJob]. *)
Definition worker_dispatch (cfg : AsyncWorkerConfig) (jobID : string) (now : time) : P (AsyncDispatchResult * option go_error) := λ st,
  let st := pl_Others s st in
  let '(r, err, db) := DispatchNow cfg jobID (λ job, (dispatchQueuedAsyncJob now job).1) (st_db st) in
  let effects := match ar_Outcome r =s AsyncDispatchOutcomeStarted, ar_Job r with
                 | true, Some job => (dispatchQueuedAsyncJob now job).2
                 | _, _ => []
                 end in
  ((r, err), effects, {| st_queue := st_queue st; st_db := db |}).
Definition dispatch_now (cfg : AsyncWorkerConfig) (jobID : string) : P (AsyncDispatchResult * option go_error) :=
  read_clock ≫= worker_dispatch cfg jobID.

(** ** The steps of the handler *)

Definition decide (id : string) (cmd : CommandPayload) (ps : ProbeState) : CommandPolicyDecision :=
  EvaluateCommandPolicyForProbe (pl_Service s) (pl_Capacity s) id (Some cmd) (pb_PolicyLevel ps).

(** The clock is read for a request without an id. *)
Definition assemble (id : string) (cmd : CommandPayload) (wantWait wantStream : bool) : P CommandInvokeInput :=
  now ← (if cmd_RequestID cmd =s "" then read_clock else mret 0);
  mret (AssembleCommandInvokeHTTP now id cmd wantWait wantStream).

Definition breakglass_actor (ctx : Auth.Context) : string :=
  let named name id := if name <>s "" then name else if id <>s "" then id else "api" in
  match ctx_user ctx, ctx_key ctx with
  | Some user, _ => named (au_Username user) (au_ID user)
  | None, Some key => named (k_Name key) (k_ID key)
  | None, None => "api"
  end.

(** Why sandbox enforcement blocks the command, if it does. *)
Definition breakglass_block (d : CommandPolicyDecision) (b : BreakglassConfirmation) : option string :=
  if negb (bc_Confirmed b) then Some "sandbox_enforcement.breakglass_required"%string
  else if (bc_Method b =s BreakglassConfirmReasonField) &&
          negb (BreakglassReasonAllowed (bc_Reason b) (bg_AllowedReasons (cpp_Breakglass (d_Policy d))))
  then Some "sandbox_enforcement.breakglass_reason_not_allowed"%string
  else None.

Definition breakglass_applies (d : CommandPolicyDecision) : bool :=
  pl_SandboxEnforcement s && RequiresBreakglassConfirmation (Classifier.cc_Category (d_Classification d)) (d_Lane d).

Definition breakglass_gate (r : dispatch_request) (cmd : CommandPayload) (d : CommandPolicyDecision) (b : BreakglassConfirmation)
    : P (option cmd_reply) :=
  if breakglass_applies d then
    match breakglass_block d b with
    | Some reason => mret (Some (CBlocked reason (d_Lane d)))
    | None =>
        _ ← emit (PAudit "breakglass.command" (dq_ProbeID r) (breakglass_actor (dq_Context r))
                    ("Breakglass confirmed for command: " +:+ cmd_Command cmd)%string);
        _ ← appendCommandStreamMarker (cmd_RequestID cmd) StreamEventPolicy "breakglass_confirmed";
        mret None
    end
  else mret None.

Definition deny_command (id : string) (cmd : CommandPayload) (d : CommandPolicyDecision) : P cmd_reply :=
  _ ← failAsyncJobByRequestID (cmd_RequestID cmd) ("command denied by policy: " +:+ d_ReasonCode d)%string "" None;
  _ ← emit (PAudit "auth.authorization_denied" id "api"
              ("Command denied by policy: " +:+ cmd_Command cmd +:+ " (" +:+ d_ReasonCode d +:+ ")")%string);
  mret (CDenied d).

(** [SubmitWithWorkspaceAndOptions] on the queue: two clock readings and a UUID. *)
Definition queue_Submit (workspaceID probeID : string) (cmd : CommandPayload) (reason : string) (d : CommandPolicyDecision)
    (second : bool) : P (result (Request CommandPolicyRationale)) := λ st,
  let st := pl_Others s st in
  let n := ticks (st_db st) in
  let '(r, q) := SubmitWithWorkspaceAndOptions (clock n) (clock (S n)) (new_uuid (S (S n))) (st_queue st) workspaceID probeID (Some cmd)
                   reason (d_RiskLevel d) "api" (d_Outcome d) (Some (d_Rationale d)) {| so_RequireSecondApprover := second |} in
  (r, [], {| st_queue := q; st_db := tick (tick (tick (st_db st))) |}).

Definition queue_command (r : dispatch_request) (cmd : CommandPayload) (d : CommandPolicyDecision) (b : BreakglassConfirmation)
    (job : option AsyncJob) : P cmd_reply :=
  let reason := if bc_Confirmed b then "Manual command dispatch (breakglass)"%string else "Manual command dispatch"%string in
  let second := pl_TwoPersonMode s && (3 <=? d_RiskTier d) && cpp_RequireSecondApprover (d_Policy d) in
  req ← queue_Submit (Auth.workspaceJobFilter (pl_Isolation s) (dq_Context r)) (dq_ProbeID r) cmd reason d second;
  match req with
  | inl e =>
      let message := ("approval queue: " +:+ Error e)%string in
      _ ← failAsyncJobByRequestID (cmd_RequestID cmd) message "" None;
      mret (CError 503 "service_unavailable" message)
  | inr req =>
      _ ← match job with
          | Some job => markAsyncJobWaitingApproval (j_ID job) (ID req) (Some (ExpiresAt req)) "command waiting for approval"
          | None => mret tt
          end;
      _ ← appendCommandStreamMarker (cmd_RequestID cmd) StreamEventApproval "pending_approval";
      _ ← emit (PAudit "approval.requested" (dq_ProbeID r) "api"
                  ("Approval required for: " +:+ cmd_Command cmd +:+ " (risk: " +:+ RiskLevel req +:+ ", lane: " +:+ d_Lane d +:+ ")")%string);
      mret (CPending (ID req) d)
  end.

(** [renderDispatchCommandHTTP] *)
Definition renderDispatchCommandHTTP (projection : option CommandInvokeProjection) : cmd_reply :=
  let response := EncodeCommandInvokeHTTPJSONResponse projection in
  CRendered (if hr_SuppressWrite response || negb (hr_HasBody response) then None else Some response).

(** The branch that hands the job to the worker. *)
Definition dispatch_async (cfg : AsyncWorkerConfig) (cmd : CommandPayload) (job : AsyncJob) : P cmd_reply :=
  answer ← dispatch_now cfg (j_ID job);
  match answer.2 with
  | Some e =>
      _ ← failAsyncJobByRequestID (cmd_RequestID cmd) (Error e) "" None;
      mret (CError 502 "bad_gateway" (Error e))
  | None =>
      mret (if ar_Outcome answer.1 =s AsyncDispatchOutcomeQueued then CQueued (cmd_RequestID cmd) (j_ID job) (ar_Reason answer.1)
            else renderDispatchCommandHTTP
                   (Some {| cp_Surface := "http"; cp_RequestID := cmd_RequestID cmd; cp_WaitForResult := false;
                            cp_Envelope := Some {| ce_RequestID := cmd_RequestID cmd; ce_State := ResultStateDispatched;
                                                   ce_Dispatched := true; ce_Result := None; ce_Err := None |} |}))
  end.

(** What follows a dispatch: the record of it, or the failure of its job. *)
Definition dispatch_outcome (id : string) (cmd : CommandPayload) (audited published fallback : string)
    (projection : option CommandInvokeProjection) : P unit :=
  match envelope_failure (projection ≫= cp_Envelope) fallback with
  | None =>
      _ ← emit (PAudit "command.sent" id "api" (audited +:+ cmd_Command cmd)%string);
      _ ← emit (PEvent "command.dispatched" id (published +:+ cmd_Command cmd)%string);
      appendCommandStreamMarker (cmd_RequestID cmd) StreamEventDispatch "command_dispatched"
  | Some e => failAsyncJobByRequestID (cmd_RequestID cmd) (Error e) "" None
  end.

Definition settle_waited (cmd : CommandPayload) (wantWait : bool) (projection : option CommandInvokeProjection) : P unit :=
  match wantWait, projection ≫= cp_Envelope with
  | true, Some env =>
      match ce_Result env, ce_Err env with
      | Some result, _ => completeAsyncJobByRequestID (res_RequestID result) (res_ExitCode result) (result_output result)
      | None, Some e => failAsyncJobByRequestID (cmd_RequestID cmd) (Error e) "" None
      | None, None => mret tt
      end
  | _, _ => mret tt
  end.

Definition dispatch_sync (ps : ProbeState) (input : CommandInvokeInput) (wantWait : bool) (job : option AsyncJob) : P cmd_reply :=
  let cmd := ci_Command input in
  let id := ci_ProbeID input in
  _ ← match job with Some job => markAsyncJobRunning (j_ID job) | None => mret tt end;
  if is_remote ps then
    projection ← invokeRemoteCommand ps cmd wantWait;
    _ ← dispatch_outcome id cmd "Command dispatched (remote): " "Remote command dispatched: " "remote command dispatch failed" (Some projection);
    mret (renderDispatchCommandHTTP (Some projection))
  else
    _ ← match pl_Invoker s with Some _ => emit (PInvoke id cmd (ci_Policy input)) | None => mret tt end;
    let projection := InvokeCommandForSurface (Some input) (pl_Invoker s) in
    _ ← dispatch_outcome id cmd "Command dispatched: " "Command dispatched: " "command dispatch failed" projection;
    _ ← settle_waited cmd wantWait projection;
    mret (renderDispatchCommandHTTP projection).

(** The [switch] on the decision and what follows it. *)
Definition act_on (r : dispatch_request) (ps : ProbeState) (input : CommandInvokeInput) (wantWait : bool)
    (d : CommandPolicyDecision) (b : BreakglassConfirmation) (job : option AsyncJob) : P cmd_reply :=
  let cmd := ci_Command input in
  if d_Outcome d =s CommandPolicyDecisionDeny then deny_command (dq_ProbeID r) cmd d
  else if d_Outcome d =s CommandPolicyDecisionQueue then queue_command r cmd d b job
  else match job, pl_Scheduler s with
  | Some job', Some cfg => if wantWait then dispatch_sync ps input wantWait job else dispatch_async cfg cmd job'
  | _, _ => dispatch_sync ps input wantWait job
  end.

Definition saturated (err : option go_error) : option go_error :=
  e ← err; if IsAsyncQueueSaturated e then Some e else None.

Definition query_flag (v : string) : bool := (v =s "true") || (v =s "1").

Definition handleDispatchCommand (r : dispatch_request) : P cmd_reply :=
  let id := dq_ProbeID r in
  if negb (dq_Permitted r) then mret CRefused
  else match pl_Probes s !! id with
  | None => mret (CError 404 "not_found" "probe not found")
  | Some ps =>
      match dq_Body r with
      | None => mret (CError 400 "invalid_request" "invalid request")
      | Some body =>
          let wantWait := query_flag (dq_Wait r) in
          input ← assemble id body wantWait (query_flag (dq_Stream r));
          let cmd := ci_Command input in
          let d := decide id cmd ps in
          let b := ResolveBreakglassConfirmation (dq_BreakglassReason r) (dq_BreakglassToken r) in
          _ ← appendCommandStreamMarker (cmd_RequestID cmd) StreamEventPolicy "policy_decision";
          blocked ← breakglass_gate r cmd d b;
          match blocked with
          | Some reply => mret reply
          | None =>
              match Auth.workspaceScopeForList (pl_Isolation s) (dq_Context r) with
              | inl _ => mret CRefused
              | inr workspaceID =>
                  created ← createAsyncCommandJob id workspaceID cmd;
                  match saturated created.2 with
                  | Some e => mret (CError 429 "queue_saturated" (Error e))
                  | None => act_on r ps input wantWait d b created.1
                  end
              end
          end
      end
  end.

(** ** Previewing the decision *)

Record simulate_request := {
  sq_Permitted : bool;
  sq_ProbeID : string;
  sq_Body : option (CommandPayload * string);     (* the request id, command, args and level, and [policy_id] *)
}.

Inductive preview_reply :=
  | VRefused
  | VError (status : Z) (code message : string)
  | VPreview (probeID requestID : string) (cmd : CommandPayload) (d : CommandPolicyDecision).

Definition preview_profile (t : Template) : CommandPolicyProfile :=
  {| cpp_PolicyID := tpl_ID t; cpp_ExecutionClassRequired := tpl_ExecutionClassRequired t; cpp_SandboxRequired := tpl_SandboxRequired t;
     cpp_ApprovalMode := tpl_ApprovalMode t; cpp_RequireSecondApprover := false; cpp_Breakglass := tpl_Breakglass t |}.

Definition preview_command (body : CommandPayload) : CommandPayload :=
  {| cmd_RequestID := cmd_RequestID body; cmd_Command := TrimSpace (cmd_Command body); cmd_Args := cmd_Args body; cmd_Timeout := 0;
     cmd_Level := cmd_Level body; cmd_Stream := false |}.

Definition handleSimulateCommandPolicy (templates : string → option Template) (r : simulate_request) : preview_reply :=
  let id := sq_ProbeID r in
  if negb (sq_Permitted r) then VRefused
  else match pl_Probes s !! id, sq_Body r with
  | None, _ => VError 404 "not_found" "probe not found"
  | Some _, None => VError 400 "invalid_request" "invalid request"
  | Some ps, Some (body, policyID) =>
      if TrimSpace (cmd_Command body) =s "" then VError 400 "invalid_request" "command is required"
      else
        let cmd := preview_command body in
        let preview override := VPreview id (TrimSpace (cmd_RequestID cmd)) cmd
              (EvaluateCommandPolicyPreview (pl_Service s) (pl_Capacity s) id (Some cmd) (pb_PolicyLevel ps) override) in
        if TrimSpace policyID =s "" then preview None
        else match templates (TrimSpace policyID) with
        | None => VError 404 "not_found" "policy template not found"
        | Some t => preview (Some (preview_profile t))
        end
  end.
End handler.
