(* ===== verification/CommandGate.v ===== *)
(** * What the command endpoint lets through

    Theorems on [handleDispatchCommand] of CommandHandler.v: which requests reach
    a probe, and what a request that needs an approval leaves behind in the two
    stores. *)
From S2P Require Import Prelude GoStrings GoErrors GoTime Protocol PolicyTemplates ApprovalQueue CapacityPolicy ApprovalService.
From S2P Require Import AsyncTypes GoSql AsyncStore AsyncLifecycle AsyncManager CommandDispatch AsyncApproval Auth FleetManager CommandHandler.
Local Open Scope go_scope.
Local Open Scope Z_scope.

(** ** Which computations start nothing *)

Section starts.
Context `{Host}.

(** What a run of the handler started. *)
Definition started {A} (x : A * list plane_effect * plane_state) : list (string * CommandPayload) := omap starts x.1.2.
Definition quiet {A} (m : P A) : Prop := ∀ st, started (m st) = [].

Lemma started_bind {A B} (m : P A) (f : A → P B) st :
  started ((m ≫= f) st) = started (m st) ++ started (f (m st).1.1 (m st).2).
Proof.
  unfold started, mbind, P_bind. destruct (m st) as [[a e1] st1]. cbn [fst snd]. destruct (f a st1) as [[b e2] st2]. cbn [fst snd].
  apply omap_app.
Qed.
Lemma bind_value {A B} (m : P A) (f : A → P B) st : ((m ≫= f) st).1.1 = (f (m st).1.1 (m st).2).1.1.
Proof. unfold mbind, P_bind. destruct (m st) as [[a e1] st1]. cbn [fst snd]. by destruct (f a st1) as [[b e2] st2]. Qed.
Lemma bind_state {A B} (m : P A) (f : A → P B) st : ((m ≫= f) st).2 = (f (m st).1.1 (m st).2).2.
Proof. unfold mbind, P_bind. destruct (m st) as [[a e1] st1]. cbn [fst snd]. by destruct (f a st1) as [[b e2] st2]. Qed.
Lemma quiet_bind {A B} (m : P A) (f : A → P B) : quiet m → (∀ a, quiet (f a)) → quiet (m ≫= f).
Proof. intros Hm Hf st. by rewrite started_bind, Hm, Hf. Qed.
Lemma quiet_then {A B} (m : P A) (f : A → P B) st : quiet m → started ((m ≫= f) st) = started (f (m st).1.1 (m st).2).
Proof. intros Hm. by rewrite started_bind, Hm. Qed.
Lemma then_quiet {A B} (m : P A) (f : A → P B) st : (∀ a, quiet (f a)) → started ((m ≫= f) st) = started (m st).
Proof. intros Hf. rewrite started_bind, Hf. apply app_nil_r. Qed.
Lemma quiet_ret {A} (a : A) : quiet (mret a).
Proof. done. Qed.
Lemma quiet_emit e : starts e = None → quiet (emit e).
Proof. intros He st. unfold started. simpl. by rewrite He. Qed.
Lemma quiet_jobs_call s {A} (m : AsyncStore.M A) : quiet (jobs_call s m).
Proof. intros st. unfold started, jobs_call. by destruct (on_jobs m _). Qed.
Lemma quiet_clock : quiet read_clock.
Proof. done. Qed.
End starts.

Create HintDb quiet.
#[export] Hint Resolve quiet_bind quiet_ret quiet_jobs_call quiet_clock : quiet.
#[export] Hint Extern 1 (quiet (emit _)) => apply quiet_emit; reflexivity : quiet.

(** Splits the conditions of a handler and leaves the composition to the hints. *)
Ltac quiet := cbv zeta; repeat (case_match; cbv zeta); eauto with quiet.

Section handler.
Context `{Host} (s : plane).

Lemma quiet_marker requestID kind data : quiet (appendCommandStreamMarker requestID kind data).
Proof. unfold appendCommandStreamMarker. quiet. Qed.
Lemma marker_state requestID kind data st : (appendCommandStreamMarker requestID kind data st).2 = st.
Proof. unfold appendCommandStreamMarker. by case_match. Qed.
Hint Resolve quiet_marker : quiet.
Lemma quiet_createAsyncCommandJob probeID workspaceID cmd : quiet (createAsyncCommandJob s probeID workspaceID cmd).
Proof. unfold createAsyncCommandJob. case_match; [|quiet]. apply quiet_bind; [quiet|]. intros [e|job]; quiet. Qed.
Lemma quiet_markAsyncJobRunning jobID : quiet (markAsyncJobRunning s jobID).
Proof. unfold markAsyncJobRunning. case_match; [|quiet]. case_match; [quiet|]. apply quiet_bind; [quiet|]. intros [e|job]; quiet. Qed.
Lemma quiet_markAsyncJobWaitingApproval jobID approvalID expiresAt reason : quiet (markAsyncJobWaitingApproval s jobID approvalID expiresAt reason).
Proof. unfold markAsyncJobWaitingApproval. case_match; [|quiet]. case_match; [quiet|]. apply quiet_bind; [quiet|]. intros [e|job]; quiet. Qed.
Lemma quiet_failAsyncJob requestID reason output exitCode : quiet (failAsyncJobByRequestID s requestID reason output exitCode).
Proof. unfold failAsyncJobByRequestID. case_match; [|quiet]. case_match; [quiet|]. apply quiet_bind; [quiet|]. intros [e|job]; quiet. Qed.
Hint Resolve quiet_createAsyncCommandJob quiet_markAsyncJobRunning quiet_markAsyncJobWaitingApproval quiet_failAsyncJob : quiet.
Lemma quiet_completeAsyncJob requestID exitCode output : quiet (completeAsyncJobByRequestID s requestID exitCode output).
Proof.
  unfold completeAsyncJobByRequestID. case_match; [|quiet]. case_match; [quiet|]. case_match; [quiet|].
  apply quiet_bind; [quiet|]. intros [e|job]; quiet.
Qed.
Hint Resolve quiet_completeAsyncJob : quiet.

Lemma quiet_assemble id cmd wait stream : quiet (assemble id cmd wait stream).
Proof. unfold assemble. apply quiet_bind; quiet. Qed.
Lemma quiet_breakglass_gate r cmd d b : quiet (breakglass_gate s r cmd d b).
Proof. unfold breakglass_gate. quiet. Qed.
Lemma quiet_deny_command id cmd d : quiet (deny_command s id cmd d).
Proof. unfold deny_command. quiet. Qed.
Lemma quiet_queue_Submit w id cmd reason d second : quiet (queue_Submit s w id cmd reason d second).
Proof. intros st. unfold started, queue_Submit. by destruct (SubmitWithWorkspaceAndOptions _ _ _ _ _ _ _ _ _ _ _ _ _). Qed.
Hint Resolve quiet_assemble quiet_breakglass_gate quiet_queue_Submit : quiet.
Lemma quiet_queue_command r cmd d b job : quiet (queue_command s r cmd d b job).
Proof. unfold queue_command. apply quiet_bind; [quiet|]. intros [e|req]; quiet. Qed.
Lemma quiet_dispatch_outcome id cmd a p f projection : quiet (dispatch_outcome s id cmd a p f projection).
Proof. unfold dispatch_outcome. quiet. Qed.
Lemma quiet_settle_waited cmd wait projection : quiet (settle_waited s cmd wait projection).
Proof. unfold settle_waited. quiet. Qed.
Hint Resolve quiet_deny_command quiet_queue_command quiet_dispatch_outcome quiet_settle_waited : quiet.

(** ** What the two dispatch branches start *)

Lemma started_remote ps cmd wait st :
  started (invokeRemoteCommand s ps cmd wait st) = [] ∨ started (invokeRemoteCommand s ps cmd wait st) = [(pb_ID ps, cmd)].
Proof.
  unfold invokeRemoteCommand. destruct (pl_Remote s) as [execute|]; [|by left]. right. destruct wait; [|done].
  rewrite then_quiet by quiet. unfold remote_run. rewrite then_quiet; [done|]. intros _. quiet.
Qed.

Lemma started_sync ps input wait job st :
  pb_ID ps = ci_ProbeID input →
  started (dispatch_sync s ps input wait job st) = [] ∨
  started (dispatch_sync s ps input wait job st) = [(ci_ProbeID input, ci_Command input)].
Proof.
  intros Hid. unfold dispatch_sync. cbv zeta. rewrite quiet_then by quiet. set (st1 := snd _). clearbody st1.
  destruct (is_remote ps).
  - rewrite then_quiet by quiet. rewrite <- Hid. apply started_remote.
  - destruct (pl_Invoker s) as [f|].
    + right. by rewrite then_quiet by quiet.
    + left. rewrite quiet_then by quiet. apply quiet_bind; quiet.
Qed.
End handler.

(** ** The job the worker claims is the one the handler created *)

(** Two commands that are the same to a probe, blanks around them apart. *)
Record same_command (c c' : CommandPayload) : Prop := {
  same_text : TrimSpace (cmd_Command c) = TrimSpace (cmd_Command c');
  same_args : cmd_Args c = cmd_Args c';
  same_level : TrimSpace (cmd_Level c) = TrimSpace (cmd_Level c');
}.

(** A row that carries a command for a probe. *)
Record carries (id : string) (cmd : CommandPayload) (r : AsyncJob) : Prop := {
  row_probe : j_ProbeID r = TrimSpace id;
  row_text : TrimSpace (j_Command r) = TrimSpace (cmd_Command cmd);
  row_args : j_Args r = cmd_Args cmd;
  row_level : TrimSpace (j_Level r) = TrimSpace (cmd_Level cmd);
}.

Lemma carries_scan id cmd r : carries id cmd r → carries id cmd (scanAsyncJob r).
Proof. by intros []. Qed.
Lemma carries_identity id cmd r r' : identity r' = identity r → carries id cmd r → carries id cmd r'.
Proof. intros [= _ _ Hp _ Hc Ha Hl _] [? ? ? ?]. split; congruence. Qed.
Lemma carries_command now id cmd r : carries id cmd r → same_command (job_command now r) cmd.
Proof. intros [? ? ? ?]. split; cbn [job_command cmd_Command cmd_Args cmd_Level]; rewrite ?TrimSpace_idem; done. Qed.

Lemma update_step_identity l l' : update_step l l' → map identity l' = map identity l.
Proof. intros []; apply map_update_where; intros; apply apply_set_identity. Qed.

Lemma find_identity l l' jobID r :
  map identity l' = map identity l → List.find (has_id jobID) l = Some r →
  ∃ r', List.find (has_id jobID) l' = Some r' ∧ identity r' = identity r.
Proof.
  revert l'. induction l as [|x l IH]; intros [|x' l']; try done. cbn [map List.find]. intros [= Hx Hl]. 
  assert (has_id jobID x' = has_id jobID x) as -> by (unfold has_id; congruence).
  destruct (has_id jobID x); [intros [= <-]; exists x'; unfold identity; split; [done|congruence]|by apply IH].
Qed.

(** No statement takes a job away or changes what it carries. *)
Lemma step_find l l' jobID r :
  rtc db_step l l' → List.find (has_id jobID) l = Some r → ∃ r', List.find (has_id jobID) l' = Some r' ∧ identity r' = identity r.
Proof.
  intros Hs. revert r. induction Hs as [l|l l1 l2 Hstep _ IH]; intros r Hf; [eauto|].
  assert (∃ r1, List.find (has_id jobID) l1 = Some r1 ∧ identity r1 = identity r) as (r1 & Hf1 & <-); [|by apply IH].
  destruct Hstep as [j l1 Hi _ _ _|l1 Hu].
  - revert Hi. unfold sql_insert. destruct (existsb _ l); [done|]. destruct (existsb _ l); [done|]. intros [= <-]. exists r. split; [|done].
    clear -Hf. induction l as [|x l IH]; cbn [app List.find] in *; [done|]. destruct (has_id jobID x); auto.
  - eapply find_identity; [by apply update_step_identity|done].
Qed.

Section worker.
Context `{Host} (s : plane).
Context (clean_ids : ∀ n, TrimSpace (new_uuid n) = new_uuid n).
Context (others_step : ∀ st, rtc db_step (rows (st_db st)) (rows (st_db (pl_Others s st)))).

(** The table holds a job under [jobID] that carries the command. *)
Definition holds (id : string) (cmd : CommandPayload) (jobID : string) (db : DB) : Prop :=
  TrimSpace jobID = jobID ∧ ∃ r, List.find (has_id jobID) (rows db) = Some r ∧ carries id cmd r.

Lemma holds_steps id cmd jobID db db' : rtc db_step (rows db) (rows db') → holds id cmd jobID db → holds id cmd jobID db'.
Proof.
  intros Hs (Ht & r & Hf & Hc). split; [done|]. destruct (step_find _ _ _ _ Hs Hf) as (r' & Hf' & Hi). eauto using carries_identity.
Qed.

Lemma get_found jobID db job db' r :
  TrimSpace jobID = jobID → List.find (has_id jobID) (rows db) = Some r →
  GetAsyncJob jobID db = (inr job, db') → job = scanAsyncJob r ∧ rows db' = rows db.
Proof.
  intros Ht Hf. unfold GetAsyncJob. cbv zeta. rewrite Ht. destruct (jobID =s ""); [done|].
  intros (r' & db1 & [Hq Hr]%query_inr & [-> ->]%ret_inr)%bind_inr. unfold query_row in Hq. rewrite Hf in Hq. by simplify_eq.
Qed.

Lemma insert_found row l l' : sql_insert row l = (inr tt, l') → List.find (has_id (j_ID row)) l' = Some row.
Proof.
  unfold sql_insert. destruct (existsb _ l) eqn:He; [done|]. destruct (existsb (λ r, j_RequestID r =s _) l); [done|]. intros [= <-].
  induction l as [|x l IH]; cbn [app List.find] in *; [unfold has_id; by rewrite String.eqb_refl|].
  apply orb_false_iff in He as [Hx He]. unfold has_id at 1. rewrite Hx. by apply IH.
Qed.

(** The row a command's job is created with. *)
Lemma create_row m id w cmd db job db' :
  CreateForCommandInWorkspace m id w cmd db = (inr job, db') →
  ∃ row n, job = scanAsyncJob row ∧ sql_insert row (rows db) = (inr tt, rows db') ∧ carries id cmd row ∧
    j_State row = AsyncJobStateQueued ∧ j_ID row = new_uuid n.
Proof.
  intros E. assert (∃ j db1, CreateAsyncJob j db1 = (inr job, db') ∧ rows db1 = rows db ∧ j_ID j = "" ∧ j_State j = AsyncJobStateQueued ∧
    j_ProbeID j = TrimSpace id ∧ j_Command j = TrimSpace (cmd_Command cmd) ∧ j_Args j = cmd_Args cmd ∧ j_Level j = cmd_Level cmd)
    as (j & db1 & Ec & Hr & Hid & Hs & Hp & Hc & Ha & Hl).
  { revert E. unfold CreateForCommandInWorkspace, CreateJob. destruct (0 <? _).
    - intros (n & db1 & [_ Hr]%count_queued_reads & E)%bind_inr. destruct (_ <=? n); [done|]. eauto 12.
    - eauto 12. }
  clear E. revert Ec. unfold CreateAsyncJob. destruct (_ =s ""); [done|]. destruct (_ =s ""); [done|].
  intros (rid & db2 & Hrid & (jid & db3 & Hj & Ec)%bind_inr)%bind_inr. rewrite Hid in Hj. cbn in Hj. injection Hj as <- <-.
  assert (Hr2 : rows db2 = rows db1). { revert Hrid. destruct (TrimSpace (j_RequestID j) =s ""); [|by intros [_ ->]%ret_inr]. intros (u & ? & Hu & [_ ->]%ret_inr)%bind_inr. by apply reads_uuid in Hu. }
  rewrite Hs in Ec. cbv zeta in Ec. change (normalizeAsyncJobState AsyncJobStateQueued) with AsyncJobStateQueued in Ec. cbn in Ec.
  change (negb true) with false in Ec. apply bind_inr in Ec as (now & db4 & Hnow%reads_time & Ec).
  apply bind_inr in Ec as ([] & db5 & Ex & Eg). apply wrap_inr, exec_inr in Ex. rewrite Hnow in Ex. cbn [rows tick] in Ex. rewrite Hr2, Hr in Ex.
  pose proof (insert_found _ _ _ Ex) as Hf. cbn [insert_row j_ID] in Hf.
  destruct (get_found _ _ _ _ _ (clean_ids _) Hf Eg) as [-> Hrows]. do 2 eexists. rewrite Hrows. split_and!; [done|exact Ex| |done|done].
  split; cbn [insert_row j_ProbeID j_Command j_Args j_Level]; rewrite ?Hp, ?Hc, ?Hl, ?TrimSpace_idem; done.
Qed.

Lemma create_holds m id w cmd db job db' :
  CreateForCommandInWorkspace m id w cmd db = (inr job, db') → holds id cmd (j_ID job) db'.
Proof.
  intros (row & n & -> & Hi & Hc & _ & Hid)%create_row. rewrite scan_id. split; [by rewrite Hid|]. apply insert_found in Hi. eauto.
Qed.

Lemma transition_holds id cmd jobID to opts db job db' :
  holds id cmd jobID db → TransitionAsyncJob jobID to opts db = (inr job, db') → carries id cmd job.
Proof.
  intros (Ht & r & Hf & Hc) E.
  assert (Hid : map identity (rows db') = map identity (rows db)).
  { destruct (writes_TransitionAsyncJob jobID to opts db _ _ E) as [->|Hstep]; [done|by apply update_step_identity]. }
  destruct (find_identity _ _ _ _ Hid Hf) as (r' & Hf' & Hi). apply (carries_identity _ _ _ _ Hi) in Hc.
  revert E. unfold TransitionAsyncJob. cbv zeta. rewrite Ht. destruct (jobID =s ""); [done|]. destruct (negb _); [done|].
  intros (now & db1 & _ & ([] & db2 & _ & ([] & db3 & _ & Eg)%bind_inr)%bind_inr)%bind_inr.
  rewrite (reads_GetAsyncJob _ _ _ _ Eg) in Hf'. destruct (get_found _ _ _ _ _ Ht Hf' Eg) as [-> _]. by apply carries_scan.
Qed.

Lemma claim_holds id cmd cfg job total byProbe db claimed reason total' byProbe' db' :
  holds id cmd (j_ID job) db → claimQueuedJob cfg job total byProbe db = (inr (Some claimed, reason, total', byProbe'), db') →
  carries id cmd claimed.
Proof.
  intros Hh. unfold claimQueuedJob. destruct (_ <=? _); [done|]. destruct (_ && _); [done|].
  destruct (TransitionAsyncJob _ _ _ _) as [[e|j] db1] eqn:E; [by destruct (_ || _)|]. intros [= <- _ _ _ _]. by eapply transition_holds.
Qed.

(** What the worker dispatches. *)
Lemma dispatch_now_job id cmd cfg jobID answer db r err db' job :
  holds id cmd jobID db → DispatchNow cfg jobID answer db = (r, err, db') → ar_Outcome r = AsyncDispatchOutcomeStarted → ar_Job r = Some job →
  carries id cmd job.
Proof.
  intros Hh. pose proof Hh as (Ht & row & Hf & Hc). unfold DispatchNow. cbv zeta. rewrite Ht. destruct (jobID =s ""); [by intros [= <- _ _]|].
  destruct (GetAsyncJob jobID db) as [[e|j] db1] eqn:Eg; [by intros [= <- _ _]|].
  destruct (get_found _ _ _ _ _ Ht Hf Eg) as [-> Hr1]. destruct (_ <>s _); [by intros [= <- _ _]|].
  destruct (RunningAsyncJobsByProbe db1) as [[e|byProbe] db2] eqn:Er; [by intros [= <- _ _]|].
  assert (Hr2 : rows db2 = rows db) by (rewrite <- Hr1; revert Er; unfold RunningAsyncJobsByProbe; apply reads_query).
  destruct (claimQueuedJob _ _ _ _ _) as [[e|[[[[claimed|] reason] total'] byProbe']] db3] eqn:Ec; [by intros [= <- _ _]| |by intros [= <- _ _]].
  destruct (dispatchClaimedSync _ _ _) as [err' db4]. intros [= <- _ _] _ [= <-].
  eapply claim_holds; [|exact Ec]. apply List.find_some in Hf as Hin. destruct Hin as [_ Hj]. unfold has_id in Hj. bools.
  unfold holds. rewrite scan_id, Hr2, Hj. eauto.
Qed.

Lemma started_queued now job :
  omap starts (dispatchQueuedAsyncJob s now job).2 = [] ∨
  ∃ ps, pl_Probes s !! j_ProbeID job = Some ps ∧
    omap starts (dispatchQueuedAsyncJob s now job).2 = [(pb_ID ps, job_command now job)].
Proof.
  unfold dispatchQueuedAsyncJob. destruct (pl_Invoker s) as [invoke|]; [|by left].
  destruct (pl_Probes s !! _) as [ps|] eqn:Ep; [|by left]. cbv zeta. destruct (is_remote ps).
  - destruct (pl_Remote s); [|by left]. right. exists ps. split; [done|]. cbn. by case_match.
  - right. exists ps. split; [done|]. destruct (envelope_failure _ _); [done|]. cbn. by case_match.
Qed.

Lemma started_async id cmd cfg job st :
  (∀ k ps, pl_Probes s !! k = Some ps → pb_ID ps = k) → TrimSpace id = id → holds id cmd (j_ID job) (st_db st) →
  started (dispatch_async s cfg cmd job st) = [] ∨
  ∃ c, started (dispatch_async s cfg cmd job st) = [(id, c)] ∧ same_command c cmd.
Proof.
  intros Hkeys Hid Hh. unfold dispatch_async.
  rewrite then_quiet. 2:{ intros [r [e|]]; cbn [snd]; [|quiet]. apply quiet_bind; [apply quiet_failAsyncJob|quiet]. }
  unfold dispatch_now. rewrite quiet_then by quiet. cbn [read_clock fst snd]. set (now := clock _). unfold worker_dispatch.
  destruct (DispatchNow _ _ _ _) as [[r err] db'] eqn:Ed. unfold started. cbn [fst snd].
  destruct (String.eqb_spec (ar_Outcome r) AsyncDispatchOutcomeStarted) as [Ho|]; [|by left].
  destruct (ar_Job r) as [claimed|] eqn:Ej; [|by left].
  assert (Hc : carries id cmd claimed) by (eapply dispatch_now_job; [|exact Ed|done|done]; eapply holds_steps; [apply others_step|exact Hh]).
  destruct (started_queued now claimed) as [Hn|(ps & Hp & Hs)]; [by left|right]. rewrite Hs. exists (job_command now claimed).
  split; [|by eapply carries_command]. apply Hkeys in Hp. rewrite Hp. destruct Hc as [-> _ _ _]. by rewrite Hid.
Qed.
End worker.

(** ** The gate *)

Lemma decide_request_id `{Host} s id cmd rid ps : decide s id (with_request_id cmd rid) ps = decide s id cmd ps.
Proof. by destruct cmd. Qed.

Lemma assembled `{Host} id body wait stream st :
  let input := (assemble id body wait stream st).1.1 in
  ci_ProbeID input = id ∧ (ci_Command input = body ∨ ∃ rid, ci_Command input = with_request_id body rid).
Proof.
  unfold assemble, AssembleCommandInvokeHTTP. cbv zeta. destruct (cmd_RequestID body =s ""); cbn [mbind P_bind mret P_ret read_clock fst snd];
    split; eauto.
Qed.

Lemma same_command_refl c : same_command c c.
Proof. done. Qed.
Lemma same_command_assembled c body cmd :
  cmd = body ∨ (∃ rid, cmd = with_request_id body rid) → same_command c cmd → same_command c body.
Proof. by intros [->|[rid ->]] []. Qed.

Lemma created_holds `{Host} s id w cmd st job :
  (∀ n, TrimSpace (new_uuid n) = new_uuid n) → (createAsyncCommandJob s id w cmd st).1.1.1 = Some job →
  holds id cmd (j_ID job) (st_db (createAsyncCommandJob s id w cmd st).2).
Proof.
  intros Hclean. unfold createAsyncCommandJob. destruct (pl_Manager s) as [m|]; [|done].
  rewrite bind_value, bind_state. unfold jobs_call, on_jobs.
  destruct (CreateForCommandInWorkspace m id w cmd (st_db (pl_Others s st))) as [[e|j] db'] eqn:E; cbn [fst snd]; [done|].
  rewrite !bind_value, !bind_state, marker_state. apply create_holds in E; [|done]. by intros [= <-].
Qed.

Section gate.
Context `{Host} (s : plane).
Context (clean_ids : ∀ n, TrimSpace (new_uuid n) = new_uuid n).
Context (others_step : ∀ st, rtc db_step (rows (st_db st)) (rows (st_db (pl_Others s st)))).
Context (keyed : ∀ k ps, pl_Probes s !! k = Some ps → pb_ID ps = k).

Lemma started_act_on r ps input wait d b job st :
  outcome_ok (d_Outcome d) → pl_Probes s !! ci_ProbeID input = Some ps → TrimSpace (ci_ProbeID input) = ci_ProbeID input →
  (∀ j, job = Some j → holds (ci_ProbeID input) (ci_Command input) (j_ID j) (st_db st)) →
  let started := started (act_on s r ps input wait d b job st) in
  started = [] ∨ d_Outcome d = CommandPolicyDecisionAllow ∧ ∃ c, started = [(ci_ProbeID input, c)] ∧ same_command c (ci_Command input).
Proof.
  intros Hok Hp Ht Hj. cbv zeta. unfold act_on. cbv zeta.
  destruct (String.eqb_spec (d_Outcome d) CommandPolicyDecisionDeny); [left; apply quiet_deny_command|].
  destruct (String.eqb_spec (d_Outcome d) CommandPolicyDecisionQueue); [left; apply quiet_queue_command|].
  assert (Ha : d_Outcome d = CommandPolicyDecisionAllow) by (destruct Hok as [|[|]]; done).
  assert (Hsync : ∀ wait', started (dispatch_sync s ps input wait' job st) = [] ∨ d_Outcome d = CommandPolicyDecisionAllow ∧
    ∃ c, started (dispatch_sync s ps input wait' job st) = [(ci_ProbeID input, c)] ∧ same_command c (ci_Command input)).
  { intros wait'. destruct (started_sync s ps input wait' job st) as [|E]; [by apply keyed|by left|right]. eauto using same_command_refl. }
  destruct job as [j|]; [|done]. destruct (pl_Scheduler s) as [cfg|]; [|done]. destruct wait; [done|].
  destruct (started_async s others_step (ci_ProbeID input) (ci_Command input) cfg j st keyed Ht (Hj j eq_refl)) as [|(c & E & Hs)]; [by left|right; eauto].
Qed.

End gate.

(** C4. The command endpoint is a gate.  The calls that one request makes start at
    most one command, and if they start one, then the caller had the permission,
    the probe is registered, the policy evaluated for that probe and that command
    answered allow, sandbox enforcement either does not apply to the command or was
    confirmed with a reason the policy allows or with a token, the caller's
    workspace scope is resolved, and what is started is the command of the request
    (blanks around it apart), on the probe of the request.  This holds for the
    three ways the handler can start a command (the dispatch core, a remote
    executor, [DispatchNow] of the job worker), whatever the database, the invoker
    and the executor answer, and whatever calls on the job store and on the queue
    the rest of the server makes between two calls of the request.  Its conditions:
    the probe id of the request and the generated ids have no blanks around them,
    and the fleet holds each probe under its own id.  It says nothing of what the
    others start: the request leaves its job queued before it acts on the decision,
    and a pass of the worker in that window starts it
    ([denied_command_overtaken]). *)
Theorem command_gate `{Host} s r st :
  (∀ n, TrimSpace (new_uuid n) = new_uuid n) →
  (∀ k ps, pl_Probes s !! k = Some ps → pb_ID ps = k) →
  (∀ st, rtc db_step (rows (st_db st)) (rows (st_db (pl_Others s st)))) →
  TrimSpace (dq_ProbeID r) = dq_ProbeID r →
  let id := dq_ProbeID r in
  let run := started (handleDispatchCommand s r st) in
  run = [] ∨
  dq_Permitted r = true ∧
  ∃ ps body c, pl_Probes s !! id = Some ps ∧ dq_Body r = Some body ∧ run = [(id, c)] ∧ same_command c body ∧
    let d := decide s id body ps in
    d_Outcome d = CommandPolicyDecisionAllow ∧
    (breakglass_applies s d = true → breakglass_block d (ResolveBreakglassConfirmation (dq_BreakglassReason r) (dq_BreakglassToken r)) = None) ∧
    ∃ w, Auth.workspaceScopeForList (pl_Isolation s) (dq_Context r) = inr w.
Proof.
  intros clean_ids keyed others_step Ht. cbv zeta. unfold handleDispatchCommand. cbv zeta. destruct (dq_Permitted r); [|by left]. cbn [negb].
  destruct (pl_Probes s !! _) as [ps|] eqn:Ep; [|by left]. destruct (dq_Body r) as [body|]; [|by left].
  rewrite quiet_then by apply quiet_assemble.
  destruct (assembled (dq_ProbeID r) body (query_flag (dq_Wait r)) (query_flag (dq_Stream r)) st) as [Hid Hcmd].
  set (input := (assemble _ _ _ _ st).1.1) in *. set (st1 := (assemble _ _ _ _ st).2). clearbody input st1.
  assert (Hd : decide s (dq_ProbeID r) (ci_Command input) ps = decide s (dq_ProbeID r) body ps).
  { destruct Hcmd as [->|[rid ->]]; [done|apply decide_request_id]. }
  rewrite Hd. set (d := decide s (dq_ProbeID r) body ps) in *. set (b := ResolveBreakglassConfirmation _ _).
  rewrite quiet_then by apply quiet_marker. set (st2 := snd _). clearbody st2.
  rewrite quiet_then by apply quiet_breakglass_gate. set (st3 := snd (breakglass_gate _ _ _ _ _ _)). clearbody st3.
  assert (Hgate : (breakglass_gate s r (ci_Command input) d b st2).1.1 = None → breakglass_applies s d = true → breakglass_block d b = None).
  { unfold breakglass_gate. destruct (breakglass_applies s d); [|done]. destruct (breakglass_block d b); done. }
  destruct (breakglass_gate s r (ci_Command input) d b st2).1.1 as [reply|]; [by left|]. specialize (Hgate eq_refl).
  destruct (Auth.workspaceScopeForList _ _) as [|w]; [by left|].
  rewrite quiet_then by apply quiet_createAsyncCommandJob.
  destruct (saturated _); [by left|].
  pose proof (λ j, created_holds s (dq_ProbeID r) w (ci_Command input) st3 j clean_ids) as Hj.
  rewrite <- Hid in *. edestruct (started_act_on s others_step keyed) as [E|(Ha & c & E & Hs)]; [apply final_answer|exact Ep|exact Ht|exact Hj|left; exact E|right].
  split; [done|]. exists ps, body, c. split_and!; eauto using same_command_assembled; rewrite Hid; [exact Ha|exact Hgate].
Qed.

(** ** A command that waits for an approval *)

Section pending.
Context `{Host} (s : plane).
Context (clean_ids : ∀ n, TrimSpace (new_uuid n) = new_uuid n) (no_faults : ∀ n, sql_fault n = None).
Context (ids_not_empty : ∀ n, new_uuid n ≠ "") (undisturbed : ∀ st, pl_Others s st = st).

(** Why a job is not created when the queue is not saturated: the command or the
    probe is blank, or an id is already in the table. *)
Definition unaccepted (id : string) (cmd : CommandPayload) (l : list AsyncJob) : Prop :=
  TrimSpace id = "" ∨ TrimSpace (cmd_Command cmd) = "" ∨
  ∃ x n, x ∈ l ∧ (j_ID x = new_uuid n ∨ j_RequestID x = TrimSpace (cmd_RequestID cmd) ∨ j_RequestID x = ("job-" +:+ new_uuid n)%string).

Lemma insert_refused row l e l' :
  sql_insert row l = (inl e, l') → l' = l ∧ ∃ x, x ∈ l ∧ (j_ID x = j_ID row ∨ j_RequestID x = j_RequestID row).
Proof.
  unfold sql_insert. destruct (existsb (λ r, j_ID r =s _) l) eqn:E1; [|destruct (existsb (λ r, j_RequestID r =s _) l) eqn:E2; [|done]];
    intros [= _ <-]; (split; [done|]); [apply existsb_exists in E1 as (x & Hx & Hb)|apply existsb_exists in E2 as (x & Hx & Hb)];
    exists x; split; (by apply list_elem_of_In) || (bools; eauto).
Qed.

Lemma create_job_refused j db e db' :
  j_ID j = "" → j_State j = AsyncJobStateQueued → CreateAsyncJob j db = (inl e, db') →
  rows db' = rows db ∧
  (TrimSpace (j_ProbeID j) = "" ∨ TrimSpace (j_Command j) = "" ∨
   ∃ x n, x ∈ rows db ∧ (j_ID x = new_uuid n ∨ j_RequestID x = TrimSpace (j_RequestID j) ∨ j_RequestID x = ("job-" +:+ new_uuid n)%string)).
Proof.
  intros Hid Hs. unfold CreateAsyncJob. destruct (String.eqb_spec (TrimSpace (j_ProbeID j)) ""); [intros [= _ <-]; by auto|].
  destruct (String.eqb_spec (TrimSpace (j_Command j)) ""); [intros [= _ <-]; by auto|].
  set (rid := if TrimSpace (j_RequestID j) =s "" then _ else _).
  assert (Hrid : ∀ r db2, rid db = (r, db2) → rows db2 = rows db ∧ ∃ t, r = inr t ∧ (t = TrimSpace (j_RequestID j) ∨ ∃ n, t = ("job-" +:+ new_uuid n)%string)).
  { intros r db2. unfold rid. destruct (TrimSpace (j_RequestID j) =s ""); cbn; intros [= <- <-]; eauto 7. }
  clearbody rid. intros [(? & Hr & _)|(r & db2 & [Hr2 (t & [= <-] & Ht)]%Hrid & E)]%bind_cases; [by apply Hrid in Hr as (_ & ? & ? & _)|].
  rewrite <- Hr2. clear Hrid. revert E. rewrite Hid.
  intros [(? & [=] & _)|(jid & db3 & Hj & E)]%bind_cases. cbn in Hj. injection Hj as <- <-. revert E.
  cbv zeta. rewrite Hs. change (normalizeAsyncJobState AsyncJobStateQueued) with AsyncJobStateQueued. cbn [String.eqb].
  change (negb (isKnownAsyncJobState _)) with false. cbv iota.
  intros [(? & [=] & _)|(now & db4 & Hnow%reads_time & E)]%bind_cases. revert E.
  change (rows db2) with (rows (tick db2)). rewrite <- Hnow.
  intros [(e' & (r0 & Ex & Hr0)%wrap_cases & _)|([] & db5 & Ex%wrap_inr%exec_inr & E)]%bind_cases.
  - destruct r0 as [e0|]; [|done]. rewrite (run_exec no_faults) in Ex. destruct (sql_insert _ _) as [? l] eqn:Ei. injection Ex as -> <-.
    apply insert_refused in Ei as [-> (x & Hx & Hor)]. cbn [insert_row j_ID j_RequestID rows] in *. split; [done|]. right; right. exists x.
    destruct Hor as [Hor|Hor]; [by eauto|]. destruct Ht as [Ht|[n' Ht]]; [exists 0%nat|exists n']; rewrite Hor, Ht; auto.
  - exfalso. apply insert_found in Ex. cbn [insert_row j_ID] in Ex. revert E. unfold GetAsyncJob. cbv zeta.
    rewrite clean_ids, (proj2 (String.eqb_neq _ _) (ids_not_empty _)).
    unfold mbind, M_bind. rewrite (run_query no_faults). unfold query_row. by rewrite Ex.
Qed.

Lemma create_refused m id w cmd db e db' :
  CreateForCommandInWorkspace m id w cmd db = (inl e, db') → IsAsyncQueueSaturated e = false →
  rows db' = rows db ∧ unaccepted id cmd (rows db).
Proof.
  unfold CreateForCommandInWorkspace, CreateJob. set (j := set_state _ _).
  assert (Hc : ∀ db1, rows db1 = rows db → CreateAsyncJob j db1 = (inl e, db') → rows db' = rows db ∧ unaccepted id cmd (rows db)).
  { intros db1 <- (-> & Hu)%create_job_refused; [|done|done]. split; [done|]. unfold unaccepted.
    change (j_ProbeID j) with (TrimSpace id) in Hu. change (j_Command j) with (TrimSpace (cmd_Command cmd)) in Hu.
    change (j_RequestID j) with (TrimSpace (cmd_RequestID cmd)) in Hu. by rewrite !TrimSpace_idem in Hu. }
  destruct (0 <? _); [|intros E _; by apply (Hc db)].
  intros [(e' & En & _)|(n & db1 & [_ Hr]%count_queued_reads & E)]%bind_cases Hsat.
  - revert En. unfold CountAsyncJobsByState, query. simpl. by rewrite no_faults.
  - destruct (_ <=? n); [by injection E as <- <-|]. by apply (Hc db1).
Qed.

(** The request that [SubmitWithWorkspaceAndOptions] leaves in the queue. *)
Lemma submitted_request now_evict now uuid (q : Queue CommandPolicyRationale) w id cmd reason risk by_ pd pr opts req q' :
  SubmitWithWorkspaceAndOptions now_evict now uuid q w id cmd reason risk by_ pd pr opts = (inr req, q') →
  requests q' !! ID req = Some req ∧ ID req = uuid ∧ decision req = DecisionPending ∧ ProbeID req = id ∧ Command req = cmd ∧
  Approvals req = [] ∧ RequiredApprovals req = (if so_RequireSecondApprover opts then 2 else 1) ∧ ExpiresAt req = now + ttl q.
Proof.
  unfold SubmitWithWorkspaceAndOptions, SubmitWithPolicyDetailsAndOptions. cbv zeta. destruct (_ <=? _); [done|].
  unfold tag_workspace. cbn [ID set_requests requests]. rewrite lookup_insert_eq.
  destruct (TrimSpace w <>s ""); cbn [requests set_requests]; rewrite lookup_insert_eq; intros [= <- <-]; cbn; by rewrite lookup_insert_eq.
Qed.

(** The job of a command, once it waits for approval [approvalID]. *)
Record awaiting (id : string) (cmd : CommandPayload) (approvalID : string) (expires : time) (row : AsyncJob) : Prop := {
  aw_carries : carries id cmd row;
  aw_state : j_State row = AsyncJobStateWaitingApproval;
  aw_approval : j_ApprovalID row = approvalID;
  aw_expires : j_ExpiresAt row = Some expires;
}.

Lemma waiting_row id cmd row now approvalID reason expires :
  carries id cmd row → TrimSpace approvalID = approvalID → approvalID ≠ "" →
  awaiting id cmd approvalID expires
    (apply_set (transition_clauses AsyncJobStateWaitingApproval now (transition_options reason approvalID None "" (Some expires))) row).
Proof.
  intros Hc Ht Hne. split.
  - eapply carries_identity; [apply apply_set_identity|done].
  - apply transition_clauses_state.
  - unfold transition_clauses, when_nonempty. cbn [to_StatusReason to_ApprovalID to_Output to_ApprovedBy to_RejectedBy to_RejectionReason transition_options].
    rewrite Ht, (proj2 (String.eqb_neq _ _) Hne). cbn. destruct (TrimSpace reason =s ""); done.
  - unfold transition_clauses, when_nonempty. cbn [to_StatusReason to_ApprovalID to_Output to_ApprovedBy to_RejectedBy to_RejectionReason transition_options].
    rewrite Ht, (proj2 (String.eqb_neq _ _) Hne). cbn. destruct (TrimSpace reason =s ""); done.
Qed.
Lemma create_inv m id w cmd db res db' :
  table_inv (rows db) → CreateForCommandInWorkspace m id w cmd db = (res, db') → table_inv (rows db').
Proof.
  intros Hi. unfold CreateForCommandInWorkspace, CreateJob. destruct (0 <? _).
  - intros [(e & En & _)|(n & db1 & [_ Hr]%count_queued_reads & E)]%bind_cases.
    + revert En. unfold CountAsyncJobsByState, query. simpl. by rewrite no_faults.
    + destruct (_ <=? n); [injection E as _ <-; by rewrite Hr|]. apply create_depth in E; [apply E|by rewrite Hr].
  - intros E. apply create_depth in E; [apply E|done].
Qed.

Lemma insert_app row l l' : sql_insert row l = (inr tt, l') → l' = l ++ [row] ∧ count_where (has_id (j_ID row)) l = 0%nat.
Proof.
  unfold sql_insert. destruct (existsb _ l) eqn:He; [done|]. destruct (existsb (λ r, j_RequestID r =s _) l); [done|].
  intros [= <-]. split; [done|].
  apply count_where_zero. intros x Hx. destruct (has_id (j_ID row) x) eqn:E; [|done]. 
  assert (existsb (λ r, j_ID r =s j_ID row) l = true) by (apply existsb_exists; exists x; split; [by apply list_elem_of_In|done]). congruence.
Qed.

Lemma mark_waiting_row m l row n id cmd approvalID expires reason st :
  pl_Manager s = Some m → table_inv (rows (st_db st)) → sql_insert row l = (inr tt, rows (st_db st)) →
  carries id cmd row → j_State row = AsyncJobStateQueued → j_ID row = new_uuid n → TrimSpace approvalID = approvalID → approvalID ≠ "" →
  let st' := (markAsyncJobWaitingApproval s (j_ID row) approvalID (Some expires) reason st).2 in
  st_queue st' = st_queue st ∧ ∃ row', rows (st_db st') = l ++ [row'] ∧ awaiting id cmd approvalID expires row'.
Proof.
  intros Hm Hi Hins Hc Hq Hid Ht Hne. cbv zeta. unfold markAsyncJobWaitingApproval. rewrite Hm, Hid, clean_ids.
  rewrite (proj2 (String.eqb_neq _ _) (ids_not_empty _)), bind_state. unfold jobs_call, on_jobs, MarkWaitingApproval. rewrite undisturbed.
  destruct (TransitionAsyncJob (new_uuid n) _ _ _) as [res db'] eqn:E. cbn [fst snd].
  pose proof (insert_found _ _ _ Hins) as Hf. rewrite Hid in Hf.
  eapply run_transition in E; [|done|done|apply ids_not_empty|apply clean_ids|by exists LWaiting|exact Hf].
  rewrite Hq in E. cbn in E. destruct E as (now & -> & _ & Hrows). rewrite bind_state, marker_state. cbn [emit fst snd st_queue st_db].
  split; [done|]. eexists. split; [|by apply waiting_row].
  apply insert_app in Hins as [Hl Hz]. rewrite Hrows, Hl. unfold update_where. rewrite map_app. fold (update_where (A := AsyncJob)).
  f_equal; [|cbn; unfold has_id; by rewrite Hid, String.eqb_refl].
  rewrite <- Hid. apply (update_where_none _ _ _ Hz).
Qed.
(** What [createAsyncCommandJob] leaves, when the queue is not saturated. *)
Lemma created_job m id w cmd st :
  pl_Manager s = Some m → table_inv (rows (st_db st)) →
  let run := createAsyncCommandJob s id w cmd st in
  saturated run.1.1.2 = None → st_queue run.2 = st_queue st ∧ table_inv (rows (st_db run.2)) ∧
  match run.1.1.1 with
  | None => rows (st_db run.2) = rows (st_db st) ∧ unaccepted id cmd (rows (st_db st))
  | Some job => ∃ row n, job = scanAsyncJob row ∧ sql_insert row (rows (st_db st)) = (inr tt, rows (st_db run.2)) ∧ carries id cmd row ∧
      j_State row = AsyncJobStateQueued ∧ j_ID row = new_uuid n
  end.
Proof.
  intros Hm Hi. cbv zeta. unfold createAsyncCommandJob. rewrite Hm, bind_value, bind_state. unfold jobs_call, on_jobs. rewrite undisturbed.
  destruct (CreateForCommandInWorkspace m id w cmd (st_db st)) as [[e|j] db'] eqn:E; cbn [fst snd].
  - unfold saturated. cbn. destruct (IsAsyncQueueSaturated e) eqn:Es; [done|]. intros _.
    split_and!; [done|by eapply create_inv|by eapply create_refused|by eapply create_refused].
  - rewrite !bind_value, !bind_state, marker_state. intros _. split_and!; [done|by eapply create_inv|]. by apply create_row in E.
Qed.

Definition second_approver (d : CommandPolicyDecision) : bool :=
  pl_TwoPersonMode s && (3 <=? d_RiskTier d) && cpp_RequireSecondApprover (d_Policy d).

(** A request of the queue that waits for its approvals. *)
Record pending_request (id : string) (cmd : CommandPayload) (d : CommandPolicyDecision) (req : Request CommandPolicyRationale) : Prop := {
  pr_decision : decision req = DecisionPending;
  pr_approvals : Approvals req = [];
  pr_probe : ProbeID req = id;
  pr_command : Command req = Some cmd;
  pr_quorum : RequiredApprovals req = if second_approver d then 2 else 1;
}.

Lemma queued_command r cmd d b job st aid d' :
  (queue_command s r cmd d b job st).1.1 = CPending aid d' →
  let st' := (queue_command s r cmd d b job st).2 in
  d' = d ∧ ∃ req n st1, ID req = aid ∧ requests (st_queue st1) !! aid = Some req ∧ pending_request (dq_ProbeID r) cmd d req ∧ aid = new_uuid n ∧
    rows (st_db st1) = rows (st_db st) ∧
    st' = match job with
          | Some job => (markAsyncJobWaitingApproval s (j_ID job) aid (Some (ExpiresAt req)) "command waiting for approval" st1).2
          | None => st1
          end.
Proof.
  cbv zeta. unfold queue_command. cbv zeta. rewrite bind_value, bind_state. unfold queue_Submit. rewrite undisturbed. cbv zeta. fold (second_approver d).
  destruct (SubmitWithWorkspaceAndOptions _ _ _ _ _ _ _ _ _ _ _ _ _) as [[e|req] q] eqn:Es; cbn [fst snd].
  { by rewrite bind_value. }
  rewrite !bind_value, !bind_state, marker_state. intros [= <- <-]. split; [done|].
  apply submitted_request in Es as (Hl & Hid & Hd & Hp & Hc & Ha & Hq & _). exists req. eexists. eexists {| st_queue := q; st_db := _ |}.
  split_and!; [done|exact Hl|by split|exact Hid| |by destruct job]. done.
Qed.

Lemma act_on_queue r ps input wait d b job st aid d' :
  (act_on s r ps input wait d b job st).1.1 = CPending aid d' →
  d_Outcome d = CommandPolicyDecisionQueue ∧ act_on s r ps input wait d b job = queue_command s r (ci_Command input) d b job.
Proof.
  unfold act_on. cbv zeta. destruct (d_Outcome d =s _); [unfold deny_command; by rewrite !bind_value|].
  destruct (String.eqb_spec (d_Outcome d) CommandPolicyDecisionQueue) as [Hd|]; [done|].
  assert (Hsync : (dispatch_sync s ps input wait job st).1.1 ≠ CPending aid d').
  { unfold dispatch_sync. cbv zeta. rewrite bind_value. destruct (is_remote ps); by rewrite !bind_value. }
  assert (Hasync : ∀ cfg j, (dispatch_async s cfg (ci_Command input) j st).1.1 ≠ CPending aid d').
  { intros cfg j. unfold dispatch_async. rewrite bind_value. destruct (dispatch_now _ _ _ _) as [[[a [e|]] ?] ?]; cbn [fst snd];
      [by rewrite bind_value|]. cbn. by destruct (_ =s _). }
  destruct job as [j|]; [|done]. destruct (pl_Scheduler s) as [cfg|]; [|done]. destruct wait; [done|]. by intros E%Hasync.
Qed.
Lemma assemble_rows id cmd wait stream st : rows (st_db (assemble id cmd wait stream st).2) = rows (st_db st).
Proof. unfold assemble. rewrite bind_state. by destruct (cmd_RequestID cmd =s ""). Qed.
Lemma gate_state r cmd d b st : (breakglass_gate s r cmd d b st).2 = st.
Proof.
  unfold breakglass_gate. destruct (breakglass_applies s d); [|done]. destruct (breakglass_block d b); [done|].
  by rewrite !bind_state, marker_state.
Qed.
Lemma gate_reply r cmd d b st aid d' : (breakglass_gate s r cmd d b st).1.1 ≠ Some (CPending aid d').
Proof.
  unfold breakglass_gate. destruct (breakglass_applies s d); [|done]. destruct (breakglass_block d b); [done|]. by rewrite !bind_value.
Qed.

End pending.

(** C16. When the endpoint answers that a command needs an approval, the policy's
    decision was to queue it, the approval queue holds a pending request for that
    probe and that command, without any approval yet and with the quorum the
    policy asks for (two approvers for a high-risk command under a two-person
    policy), and the job table either gained exactly one job, which carries the
    command, waits for that approval and expires with it, or is unchanged; and it
    is unchanged only when there is no job manager, the probe or the command is
    blank, or an id is already in use.  Its conditions: the database answers every
    statement of the request (the handler ignores a failure to mark the job as
    waiting, [failed_mark_leaves_queued]), nobody else uses the two stores while
    the request is served ([denied_command_overtaken]), the job table satisfies
    its invariant, and the generated ids are not empty and have no blanks around
    them. *)
Theorem pending_command_awaits `{Host} s r st aid d :
  (∀ n, sql_fault n = None) →
  (∀ st, pl_Others s st = st) →
  (∀ n, TrimSpace (new_uuid n) = new_uuid n) →
  (∀ n, new_uuid n ≠ "") →
  table_inv (rows (st_db st)) →
  (handleDispatchCommand s r st).1.1 = CPending aid d →
  let st' := (handleDispatchCommand s r st).2 in
  let id := dq_ProbeID r in
  ∃ ps body cmd req, pl_Probes s !! id = Some ps ∧ dq_Body r = Some body ∧ same_command cmd body ∧
    d = decide s id body ps ∧ d_Outcome d = CommandPolicyDecisionQueue ∧
    requests (st_queue st') !! aid = Some req ∧ pending_request s id cmd d req ∧
    ((∃ row, rows (st_db st') = rows (st_db st) ++ [row] ∧ awaiting id body aid (ExpiresAt req) row) ∨
     rows (st_db st') = rows (st_db st) ∧ (pl_Manager s = None ∨ unaccepted id cmd (rows (st_db st)))).
Proof.
  intros no_faults undisturbed clean_ids ids_not_empty Hi. cbv zeta. unfold handleDispatchCommand. cbv zeta. destruct (dq_Permitted r); [|done]. cbn [negb].
  destruct (pl_Probes s !! _) as [ps|] eqn:Ep; [|done]. destruct (dq_Body r) as [body|]; [|done].
  rewrite bind_value, bind_state. pose proof (assemble_rows (dq_ProbeID r) body (query_flag (dq_Wait r)) (query_flag (dq_Stream r)) st) as Hr1.
  destruct (assembled (dq_ProbeID r) body (query_flag (dq_Wait r)) (query_flag (dq_Stream r)) st) as [Hid Hcmd].
  set (input := (assemble _ _ _ _ st).1.1) in *. set (st1 := (assemble _ _ _ _ st).2) in *. clearbody input st1.
  assert (Hd : decide s (dq_ProbeID r) (ci_Command input) ps = decide s (dq_ProbeID r) body ps).
  { destruct Hcmd as [->|[rid ->]]; [done|apply decide_request_id]. }
  rewrite Hd. set (d0 := decide s (dq_ProbeID r) body ps) in *. set (b := ResolveBreakglassConfirmation _ _).
  rewrite !bind_value, !bind_state, marker_state, gate_state.
  pose proof (gate_reply s r (ci_Command input) d0 b st1 aid d) as Hg.
  destruct (breakglass_gate s r (ci_Command input) d0 b st1).1.1 as [reply|]; [cbn; congruence|].
  destruct (Auth.workspaceScopeForList _ _) as [|w]; [done|]. rewrite bind_value, bind_state.
  destruct (saturated _) eqn:Hsat; [done|]. intros Hp. destruct (act_on_queue s _ _ _ _ _ _ _ _ _ _ Hp) as [Ho Heq]. rewrite Heq in *.
  destruct (queued_command s undisturbed _ _ _ _ _ _ _ _ Hp) as (-> & req & n & st2 & Hidr & Hl & Hreq & Haid & Hr2 & ->).
  pose proof (same_command_assembled _ _ _ Hcmd (same_command_refl (ci_Command input))) as Hsame.
  exists ps, body, (ci_Command input), req. rewrite <- Hr1.
  destruct (pl_Manager s) as [m|] eqn:Hm.
  2:{ unfold createAsyncCommandJob in *. rewrite Hm in *. cbn [fst snd mret P_ret] in *. rewrite Hr2. eauto 12. }
  rewrite <- Hr1 in Hi. destruct (created_job s clean_ids no_faults ids_not_empty undisturbed m (dq_ProbeID r) w (ci_Command input) st1 Hm Hi Hsat) as (Hq & Hi' & Hjob).
  destruct (createAsyncCommandJob s (dq_ProbeID r) w (ci_Command input) st1).1.1.1 as [job|].
  - destruct Hjob as (row & k & -> & Hins & Hc & Hq' & Hk). rewrite <- Hr2 in Hi', Hins.
    assert (Hc' : carries (dq_ProbeID r) body row) by (destruct Hc, Hsame; split; congruence).
    destruct (mark_waiting_row s clean_ids no_faults ids_not_empty undisturbed m (rows (st_db st1)) row k (dq_ProbeID r) body aid (ExpiresAt req) "command waiting for approval" st2)
      as (Hqs & row' & Hrows & Haw); rewrite ?Haid; auto. rewrite scan_id, <- Haid, Hqs. eauto 14.
  - destruct Hjob as [Hr3 Hu]. rewrite Hr2, Hr3. eauto 14.
Qed.
