(* ===== verification/CommandExamples.v ===== *)
(** * The command endpoint at work

    Concrete requests: the theorems of CommandGate.v applied to them, and
    behaviours of the endpoint that its documentation does not suggest. *)
From S2P Require Import Prelude GoStrings GoErrors GoTime Protocol PolicyTemplates ApprovalQueue CapacityPolicy ApprovalService.
From S2P Require Import AsyncTypes GoSql AsyncStore AsyncLifecycle AsyncManager CommandDispatch AsyncApproval Auth FleetManager CommandHandler CommandGate.
Local Open Scope go_scope.
Local Open Scope Z_scope.

Module CommandRun.
(** A database that always answers, and ids of visible characters. *)
Fixpoint mark (n : nat) : string := match n with O => "u"%string | S n => String "i" (mark n) end.
#[export] Instance desk : Host | 0 :=
  {| sql_fault := λ _, None; clock := λ n, Z.of_nat n * Second; new_uuid := mark;
     order_by := @order_by ExampleHost.host |}.
(** The same with a database that does not answer at the tick [k]. *)
Definition failing (k : nat) : Host :=
  {| sql_fault := λ n, if Nat.eqb n k then Some (ErrorString "disk I/O error") else None; clock := @clock desk; new_uuid := @new_uuid desk;
     order_by := @order_by desk |}.
Lemma clean n : TrimSpace (@new_uuid desk n) = @new_uuid desk n.
Proof. apply TrimSpace_no_space. induction n as [|n IH]; [done|]. exact IH. Qed.
Lemma not_empty n : @new_uuid desk n ≠ "".
Proof. by destruct n. Qed.

Definition web : ProbeState := set_level CapRemediate (new_probe "p-1" "web" "linux" "amd64" 0).
Definition core : Service := {| capacityThresholds := DefaultCapacityThresholds; twoPersonMode := true; appliedPolicy := ∅ |}.
Definition answer (probeID : string) (cmd : CommandPayload) (policy : DispatchPolicy) : option CommandResultEnvelope :=
  let env := dispatched (new_envelope (cmd_RequestID cmd)) ResultStateDispatched in
  Some (if dp_WaitForResult policy
        then completed env {| res_RequestID := cmd_RequestID cmd; res_ExitCode := 0; res_Stdout := "5% used"; res_Stderr := ""; res_Duration := 1; res_Truncated := false |}
        else env).
Definition worker : AsyncWorkerConfig := {| MaxInFlight := 8; MaxPerProbe := 0; PollInterval := 200 * Millisecond; FetchBatchSize := 64 |}.
(** What the rest of the server does: nothing, or a pass of the worker. *)
Definition worker_pass (st : plane_state) : plane_state := {| st_queue := st_queue st; st_db := (drainQueued worker (st_db st)).2 |}.
Definition alone (st : plane_state) : plane_state := st.
Definition server_with (others : plane_state → plane_state) (applied : gmap string appliedPolicyContext) (enforce : bool) : plane :=
  {| pl_SandboxEnforcement := enforce; pl_TwoPersonMode := true; pl_Isolation := true;
     pl_Service := {| capacityThresholds := DefaultCapacityThresholds; twoPersonMode := true; appliedPolicy := applied |}; pl_Capacity := None;
     pl_Manager := Some {| maxQueueDepth := 0 |};
     pl_Scheduler := Some worker;
     pl_Probes := {[ "p-1" := web ]}; pl_Invoker := Some answer; pl_Remote := None;
     pl_Others := others |}.
Definition server := server_with alone.
Definition empty : AsyncApproval.stores CommandPolicyRationale :=
  {| st_queue := NewQueue (900 * Second) 100; st_db := {| rows := []; ticks := 0 |} |}.
Definition of_workspace (w : string) : Auth.Context := Auth.AuthExamples.key_with [("workspace:" +:+ w)%string].
Definition run (workspace requestID command : string) (args : list string) (wait stream : string) (timeout : Z) : dispatch_request :=
  {| dq_Permitted := true; dq_Context := of_workspace workspace; dq_ProbeID := "p-1";
     dq_Body := Some {| cmd_RequestID := requestID; cmd_Command := command; cmd_Args := args; cmd_Timeout := timeout; cmd_Level := ""; cmd_Stream := false |};
     dq_BreakglassReason := ""; dq_BreakglassToken := ""; dq_Wait := wait; dq_Stream := stream |}.
Lemma keyed : ∀ k ps, ({[ "p-1" := web ]} : gmap string ProbeState) !! k = Some ps → pb_ID ps = k.
Proof. intros k ps [<- <-]%lookup_singleton_Some. reflexivity. Qed.
End CommandRun.
Import CommandRun.

Module Requests.
Definition plain : plane := server ∅ true.
Definition step (s : plane) (r : dispatch_request) (st : plane_state) : plane_state := (handleDispatchCommand s r st).2.
Definition reply_of (s : plane) (r : dispatch_request) (st : plane_state) : cmd_reply := (handleDispatchCommand s r st).1.1.
Definition jobs_of (st : plane_state) : list (string * string * string * string) :=
  map (λ j, (j_WorkspaceID j, j_Command j, j_State j, j_Output j)) (rows (st_db st)).
(** A policy that lets mutations run on the host for one reason. *)
Definition outage_only : gmap string appliedPolicyContext :=
  {[ "p-1" := {| apc_PolicyID := "pol-1"; apc_Options :=
       {| opt_ExecutionClassRequired := ExecBreakglassDirect; opt_SandboxRequired := false; opt_ApprovalMode := ApprovalNone;
          opt_RequireSecondApprover := false; opt_RequireSecondApproverSet := true;
          opt_Breakglass := {| bg_Enabled := true; bg_AllowedReasons := ["service_outage"%string]; bg_RequireTypedConfirmation := true |};
          opt_MaxRuntimeSec := 0; opt_AllowedScopes := None; opt_RuntimeClass := ""; opt_CPUMillis := 0; opt_MemoryMiB := 0;
          opt_AllowedCapabilities := None |} |} ]}.
Definition restart (reason token : string) : dispatch_request :=
  let r := run "a" "r-2" "systemctl" ["restart"; "nginx"]%string "" "" 0 in
  {| dq_Permitted := dq_Permitted r; dq_Context := dq_Context r; dq_ProbeID := dq_ProbeID r; dq_Body := dq_Body r;
     dq_BreakglassReason := reason; dq_BreakglassToken := token; dq_Wait := dq_Wait r; dq_Stream := dq_Stream r |}.
Definition du : dispatch_request := run "a" "r-1" "du" ["-h"]%string "" "" 0.
Definition status (rep : cmd_reply) : string :=
  match rep with
  | CBlocked why _ => why | CPending _ _ => "pending" | CDenied _ => "denied" | CError _ code _ => code | CQueued _ _ _ => "queued"
  | CRefused => "refused" | CRendered _ => "rendered"
  end.
End Requests.
Import Requests.

(** ** Behaviours *)

(** The job is created queued before the decision is acted on.  A pass of the
    worker in between claims it and hands it to the dispatcher: the caller is told
    that the policy denied the command, and the command was sent to the probe. *)
Theorem denied_command_overtaken :
  let r := run "a" "r-1" "frobnicate" [] "" "" 0 in
  let s := server_with worker_pass ∅ true in
  status (reply_of s r empty) = "denied"%string ∧ started (handleDispatchCommand s r empty) = [] ∧
  let created := (createAsyncCommandJob s "p-1" "a" (default empty_command (dq_Body r)) empty).2 in
  map cmd_Command (map snd (flat_map (λ job, omap starts (dispatchQueuedAsyncJob s 0 job).2) (drainQueued worker (st_db created)).1)) = ["frobnicate"%string].
Proof. vm_compute. auto. Qed.

(** A failure to mark the job as waiting is ignored: the caller is told that the
    command waits for an approval, and its job is left queued for the worker. *)
Theorem failed_mark_leaves_queued :
  let r := run "a" "r-1" "systemctl" ["restart"; "nginx"]%string "" "" 0 in
  let after := @handleDispatchCommand (failing 8) plain r empty in
  status after.1.1 = "pending"%string ∧ jobs_of after.2 = [("a", "systemctl", "queued", "")]%string.
Proof. vm_compute. auto. Qed.

(** The request id comes from the caller and names the job: with workspace
    isolation on, a caller of workspace b that reuses the id of a running job of
    workspace a settles that job, with the output of its own command, or fails
    it, with a command the policy denies. *)
Theorem job_settled_by_other_workspace :
  let st := step plain du empty in
  jobs_of st = [("a", "du", "running", "")]%string ∧
  jobs_of (step plain (run "b" "r-1" "df" [] "true" "" 0) st) = [("a", "du", "succeeded", "5% used")]%string ∧
  jobs_of (step plain (run "b" "r-1" "frobnicate" [] "" "" 0) st) = [("a", "du", "failed", "")]%string.
Proof. vm_compute. auto. Qed.

(** A command that the job worker dispatches loses its timeout and its stream
    flag: the same request, with and without [wait=true]. *)
Theorem async_dispatch_drops_options :
  let options r := match omap (λ e, match e with PInvoke _ c p => Some (cmd_Timeout c, dp_StreamOutput p) | _ => None end)
                            (handleDispatchCommand plain r empty).1.2 with o :: _ => Some o | [] => None end in
  options (run "a" "r-1" "df" [] "true" "true" (60 * Second)) = Some (60 * Second, true) ∧
  options (run "a" "r-1" "df" [] "" "true" (60 * Second)) = Some (0, false).
Proof. vm_compute. auto. Qed.

(** The reasons a policy allows bind [breakglass_reason] only: any non-empty
    [breakglass_token] confirms the same command. *)
Theorem breakglass_token_bypasses_reasons :
  let s := server outage_only true in
  status (reply_of s (restart "" "") empty) = "sandbox_enforcement.breakglass_required"%string ∧
  status (reply_of s (restart "because" "") empty) = "sandbox_enforcement.breakglass_reason_not_allowed"%string ∧
  status (reply_of s (restart "service_outage" "") empty) = "pending"%string ∧
  status (reply_of s (restart "" "because") empty) = "pending"%string.
Proof. vm_compute. auto. Qed.

(** A preview of a policy template never shows that a second approver is needed,
    whatever the template says. *)
Theorem preview_hides_second_approver s templates r body policyID probeID requestID cmd d :
  sq_Body r = Some (body, policyID) → TrimSpace policyID ≠ "" →
  handleSimulateCommandPolicy s templates r = VPreview probeID requestID cmd d → cpp_RequireSecondApprover (d_Policy d) = false.
Proof.
  unfold handleSimulateCommandPolicy. cbv zeta. intros Hb Hp. destruct (negb _); [done|]. destruct (pl_Probes s !! _) as [ps|]; [|done]. rewrite Hb.
  destruct (_ =s ""); [done|]. rewrite (proj2 (String.eqb_neq _ _) Hp). destruct (templates _) as [t|]; [|done]. intros [= _ _ _ <-].
  unfold EvaluateCommandPolicyPreview.
  destruct (final_from_lane (pl_Service s) (pl_Capacity s) (sq_ProbeID r) (Some (preview_command body)) (pb_PolicyLevel ps) (Some (preview_profile t))) as [_ Hpol _ _ _ _ _].
  by rewrite Hpol.
Qed.

(** ** Witnesses *)

Lemma command_gate_witness :
  started (handleDispatchCommand plain du empty) ≠ [] ∧ d_Outcome (decide plain "p-1" (default empty_command (dq_Body du)) web) = CommandPolicyDecisionAllow.
Proof.
  split; [by vm_compute|].
  destruct (command_gate plain du empty clean keyed (λ st, rtc_refl _ _) eq_refl) as [E|(_ & ps & body & c & Hp & Hb & _ & _ & Ho & _)].
  - exfalso. vm_compute in E. discriminate E.
  - assert (ps = web) as -> by (vm_compute in Hp; vm_compute; congruence).
    assert (body = default empty_command (dq_Body du)) as -> by (by injection Hb as <-). exact Ho.
Defined.

Lemma pending_command_awaits_witness :
  let r := run "a" "r-1" "systemctl" ["restart"; "nginx"]%string "" "" 0 in
  ∃ aid d, reply_of plain r empty = CPending aid d ∧
    ∃ row, rows (st_db (step plain r empty)) = [row] ∧ j_State row = AsyncJobStateWaitingApproval ∧ j_ApprovalID row = aid.
Proof.
  intros r. destruct (reply_of plain r empty) as [| | | |aid d| |] eqn:E; try (vm_compute in E; discriminate E).
  exists aid, d. split; [reflexivity|].
  destruct (@pending_command_awaits desk plain r empty aid d (λ _, eq_refl) (λ _, eq_refl) clean not_empty table_inv_nil E)
    as (ps & body & cmd & req & _ & _ & _ & _ & _ & _ & _ & [(row & Hr & [_ Hs Ha _])|[Hr _]]).
  - exists row. exact (conj Hr (conj Hs Ha)).
  - exfalso. vm_compute in Hr. discriminate Hr.
Defined.
