(* ===== verification/PackTypes.v ===== *)
(** * Automation packs: definitions and their validation
    (src/internal/controlplane/automationpacks/types.go, validation.go)

    A value of type [any] is what [encoding/json] decodes into it.  A Go map is the
    list of its entries in the order of one iteration.  User-supplied regular
    expressions and the printing of a [float64] come from a [Text] class. *)
From Stdlib Require Import SpecFloat.
From S2P Require Import Prelude GoStrings GoErrors GoTime GoFloat.
Local Open Scope go_scope.
Local Open Scope Z_scope.

(** ** Values *)

(** The numbers of JSON are floats; [VInt] and [VStrings] are values the code
    builds itself.  A nil map inside an interface is not equal to an empty one. *)
Inductive any :=
  | VNil
  | VBool (b : bool)
  | VNumber (f : float64)
  | VInt (n : Z)
  | VString (s : string)
  | VStrings (l : list string)
  | VArray (l : list any)
  | VMap (m : list (string * any))
  | VNilMap.

Notation map_any := (list (string * any)) (only parsing).

Section any_ind.
Context (P : any → Prop).
Context (Hnil : P VNil) (Hbool : ∀ b, P (VBool b)) (Hnum : ∀ f, P (VNumber f)) (Hint : ∀ n, P (VInt n)).
Context (Hstr : ∀ s, P (VString s)) (Hstrs : ∀ l, P (VStrings l)).
Context (Harr : ∀ l, Forall P l → P (VArray l)) (Hmap : ∀ m, Forall (λ kv, P kv.2) m → P (VMap m)) (Hnilmap : P VNilMap).

Fixpoint any_nested_ind (v : any) : P v :=
  match v with
  | VNil => Hnil
  | VBool b => Hbool b
  | VNumber f => Hnum f
  | VInt n => Hint n
  | VString s => Hstr s
  | VStrings l => Hstrs l
  | VArray l => Harr l ((fix go l : Forall P l := match l with [] => @List.Forall_nil _ P | x :: l' => @List.Forall_cons _ P x l' (any_nested_ind x) (go l') end) l)
  | VMap m => Hmap m ((fix go m : Forall (λ kv, P kv.2) m :=
      match m with [] => @List.Forall_nil _ _ | kv :: m' => @List.Forall_cons _ (λ kv, P kv.2) kv m' (any_nested_ind kv.2) (go m') end) m)
  | VNilMap => Hnilmap
  end.
End any_ind.

(** [m[key]] *)
Fixpoint lookup_key {A} (key : string) (m : list (string * A)) : option A :=
  match m with [] => None | (k, v) :: m' => if k =s key then Some v else lookup_key key m' end.

Class Text := {
  regexp_MatchString : string → string → option bool;   (* [None] when the pattern does not compile *)
  format_shortest : float64 → string;                   (* [fmt.Sprint] *)
  format_plain : float64 → string;                      (* [strconv.FormatFloat(v, 'f', -1, 64)] *)
}.

(** [math.Mod(v, 1) == 0] *)
Definition is_whole (f : float64) : bool :=
  match f with
  | S754_zero _ => true
  | S754_finite _ m e => (0 <=? e) || (Z.pos m mod 2 ^ (- e) =? 0)
  | _ => false
  end.

(** ** Definitions *)

Definition InputTypeString : string := "string".
Definition InputTypeNumber : string := "number".
Definition InputTypeInteger : string := "integer".
Definition InputTypeBoolean : string := "boolean".
Definition InputTypeArray : string := "array".
Definition InputTypeObject : string := "object".

Record Metadata := { md_ID : string; md_Name : string; md_Version : string; md_Description : string }.

Record InputConstraints := {
  ic_MinLength : option Z;
  ic_MaxLength : option Z;
  ic_Pattern : string;
  ic_Minimum : option float64;
  ic_Maximum : option float64;
  ic_Enum : list any;
  ic_MinItems : option Z;
  ic_MaxItems : option Z;
}.

Record Input := {
  in_Name : string;
  in_Type : string;
  in_Description : string;
  in_Required : bool;
  in_Default : any;
  in_Constraints : InputConstraints;
}.

Record ApprovalRequirement := {
  ar_Required : bool;
  ar_Policy : string;
  ar_Reason : string;
  ar_MinimumApprovers : Z;
  ar_ApproverRoles : list string;
}.

Record ExpectedOutcome := {
  eo_ID : string;
  eo_Description : string;
  eo_SuccessCriteria : string;
  eo_StepID : string;
  eo_Required : bool;
}.

Record RollbackHook := { rh_Action : string; rh_Parameters : map_any; rh_TimeoutSeconds : Z }.

Record Step := {
  sp_ID : string;
  sp_Name : string;
  sp_Description : string;
  sp_Action : string;
  sp_Parameters : map_any;
  sp_Mutating : option bool;
  sp_TimeoutSeconds : Z;
  sp_MaxRetries : Z;
  sp_Rollback : option RollbackHook;
  sp_Approval : option ApprovalRequirement;
  sp_ExpectedOutcomes : list ExpectedOutcome;
}.

Record Definition_ := {
  df_Metadata : Metadata;
  df_Inputs : list Input;
  df_Approval : option ApprovalRequirement;
  df_Steps : list Step;
  df_ExpectedOutcomes : list ExpectedOutcome;
  df_CreatedAt : time;
  df_UpdatedAt : time;
}.

Record DefinitionSummary := {
  ds_Metadata : Metadata;
  ds_InputCount : nat;
  ds_StepCount : nat;
  ds_CreatedAt : time;
  ds_UpdatedAt : time;
}.

(** The errors of the package: the two that list issues, and the others. *)
Inductive pack_error :=
  | ValidationError (issues : list string)
  | InputValidationError (issues : list string)
  | PackError (e : go_error)
  | ErrNotFound
  | ErrAlreadyExists
  | ErrExecutionNotFound.

(** ** Normalisation *)

Definition normalizeApproval (a : ApprovalRequirement) : ApprovalRequirement :=
  {| ar_Required := ar_Required a; ar_Policy := TrimSpace (ar_Policy a); ar_Reason := TrimSpace (ar_Reason a);
     ar_MinimumApprovers := ar_MinimumApprovers a; ar_ApproverRoles := map TrimSpace (ar_ApproverRoles a) |}.

Definition normalizeOutcome (o : ExpectedOutcome) : ExpectedOutcome :=
  {| eo_ID := TrimSpace (eo_ID o); eo_Description := TrimSpace (eo_Description o); eo_SuccessCriteria := TrimSpace (eo_SuccessCriteria o);
     eo_StepID := TrimSpace (eo_StepID o); eo_Required := eo_Required o |}.

Definition normalize_constraints (c : InputConstraints) : InputConstraints :=
  {| ic_MinLength := ic_MinLength c; ic_MaxLength := ic_MaxLength c; ic_Pattern := TrimSpace (ic_Pattern c); ic_Minimum := ic_Minimum c;
     ic_Maximum := ic_Maximum c; ic_Enum := ic_Enum c; ic_MinItems := ic_MinItems c; ic_MaxItems := ic_MaxItems c |}.

Definition normalize_input (i : Input) : Input :=
  {| in_Name := TrimSpace (in_Name i); in_Type := TrimSpace (ToLower (in_Type i)); in_Description := TrimSpace (in_Description i);
     in_Required := in_Required i; in_Default := in_Default i; in_Constraints := normalize_constraints (in_Constraints i) |}.

Definition normalize_rollback (h : RollbackHook) : RollbackHook :=
  {| rh_Action := TrimSpace (rh_Action h); rh_Parameters := rh_Parameters h; rh_TimeoutSeconds := rh_TimeoutSeconds h |}.

Definition normalize_step (s : Step) : Step :=
  {| sp_ID := TrimSpace (sp_ID s); sp_Name := TrimSpace (sp_Name s); sp_Description := TrimSpace (sp_Description s);
     sp_Action := TrimSpace (sp_Action s); sp_Parameters := sp_Parameters s; sp_Mutating := sp_Mutating s;
     sp_TimeoutSeconds := sp_TimeoutSeconds s; sp_MaxRetries := sp_MaxRetries s; sp_Rollback := normalize_rollback <$> sp_Rollback s;
     sp_Approval := normalizeApproval <$> sp_Approval s; sp_ExpectedOutcomes := map normalizeOutcome (sp_ExpectedOutcomes s) |}.

Definition normalize_metadata (m : Metadata) : Metadata :=
  {| md_ID := TrimSpace (ToLower (md_ID m)); md_Name := TrimSpace (md_Name m); md_Version := TrimSpace (md_Version m);
     md_Description := TrimSpace (md_Description m) |}.

Definition normalizeDefinition (d : Definition_) : Definition_ :=
  {| df_Metadata := normalize_metadata (df_Metadata d); df_Inputs := map normalize_input (df_Inputs d);
     df_Approval := normalizeApproval <$> df_Approval d; df_Steps := map normalize_step (df_Steps d);
     df_ExpectedOutcomes := map normalizeOutcome (df_ExpectedOutcomes d); df_CreatedAt := df_CreatedAt d; df_UpdatedAt := df_UpdatedAt d |}.

(** ** The two fixed patterns *)

Definition is_digit (c : ascii) : bool := (48 <=? Z.of_nat (nat_of_ascii c)) && (Z.of_nat (nat_of_ascii c) <=? 57).
Definition is_lower_letter (c : ascii) : bool := (97 <=? Z.of_nat (nat_of_ascii c)) && (Z.of_nat (nat_of_ascii c) <=? 122).
Definition is_upper_letter (c : ascii) : bool := (65 <=? Z.of_nat (nat_of_ascii c)) && (Z.of_nat (nat_of_ascii c) <=? 90).
Definition id_start (c : ascii) : bool := is_lower_letter c || is_digit c.
Definition id_char (c : ascii) : bool := id_start c || char_in c "._-".

(** [^[a-z0-9][a-z0-9._-]{1,127}$] *)
Definition definitionIDPattern (s : string) : bool :=
  match s with
  | EmptyString => false
  | String c rest => id_start c && all_chars id_char rest && (1 <=? Z.of_nat (String.length rest)) && (Z.of_nat (String.length rest) <=? 127)
  end.

(** The longest prefix of characters that satisfy [p], and the rest. *)
Fixpoint span (p : ascii → bool) (s : string) : string * string :=
  match s with
  | EmptyString => (EmptyString, EmptyString)
  | String c s' => if p c then let '(a, b) := span p s' in (String c a, b) else (EmptyString, s)
  end.

(** [[0-9]+] and a dot. *)
Definition digits_dot (s : string) : option string :=
  let '(d, rest) := span is_digit s in
  if d =s "" then None else match rest with String "."%char rest' => Some rest' | _ => None end.

Definition suffix_char (c : ascii) : bool := is_digit c || is_lower_letter c || is_upper_letter c || char_in c ".-".

(** [^[0-9]+\.[0-9]+\.[0-9]+(?:[-+][0-9A-Za-z.-]+)?$] *)
Definition semverPattern (s : string) : bool :=
  match digits_dot s ≫= digits_dot with
  | None => false
  | Some s' =>
      let '(d, rest) := span is_digit s' in
      (d <>s "") &&
      match rest with
      | EmptyString => true
      | String c suffix => char_in c "-+" && (suffix <>s "") && all_chars suffix_char suffix
      end
  end.

(** ** Validation *)

Definition isSupportedInputType (t : string) : bool :=
  (t =s InputTypeString) || (t =s InputTypeNumber) || (t =s InputTypeInteger) || (t =s InputTypeBoolean) || (t =s InputTypeArray) ||
  (t =s InputTypeObject).

Definition isNumeric (v : any) : bool := match v with VNumber _ | VInt _ => true | _ => false end.
Definition isInteger (v : any) : bool := match v with VNumber f => is_whole f | VInt _ => true | _ => false end.

Definition valueMatchesType (v : any) (inputType : string) : bool :=
  if inputType =s InputTypeString then match v with VString _ => true | _ => false end
  else if inputType =s InputTypeBoolean then match v with VBool _ => true | _ => false end
  else if inputType =s InputTypeNumber then isNumeric v
  else if inputType =s InputTypeInteger then isInteger v
  else if inputType =s InputTypeArray then match v with VArray _ => true | _ => false end
  else if inputType =s InputTypeObject then match v with VMap _ | VNilMap => true | _ => false end
  else false.

(** [issues = append(issues, message)] under a condition. *)
Definition issue_if (b : bool) (message : string) : list string := if b then [message] else [].
Definition set_ {A} (o : option A) : bool := match o with Some _ => true | None => false end.
Definition negative (o : option Z) : bool := match o with Some n => n <? 0 | None => false end.
(** [a != nil && b != nil && *b < *a] *)
Definition below (a b : option Z) : bool := match a, b with Some a, Some b => b <? a | _, _ => false end.
Definition not_nil (v : any) : bool := match v with VNil => false | _ => true end.

Definition validateApproval (path : string) (a : option ApprovalRequirement) : list string :=
  match a with
  | None => []
  | Some a =>
      if ar_MinimumApprovers a <? 0 then [(path +:+ ".minimum_approvers cannot be negative")%string]
      else if ar_Required a && (ar_MinimumApprovers a =? 0) then [(path +:+ ".minimum_approvers must be >= 1 when required=true")%string]
      else if (0 <? ar_MinimumApprovers a) && (0 <? Z.of_nat (length (ar_ApproverRoles a))) &&
              (Z.of_nat (length (ar_ApproverRoles a)) <? ar_MinimumApprovers a)
      then [(path +:+ ".minimum_approvers cannot exceed approver_roles length")%string]
      else []
  end.

(** [fmt.Sprintf("%s[%d]", prefix, i)] *)
Definition indexed (prefix : string) (i : nat) : string := (prefix +:+ "[" +:+ Itoa (Z.of_nat i) +:+ "]")%string.

Section text.
Context `{Text}.

(** [regexp.Compile] succeeds. *)
Definition compiles (pattern : string) : bool := set_ (regexp_MatchString pattern "").

Definition text_constraints (c : InputConstraints) : bool := set_ (ic_MinLength c) || set_ (ic_MaxLength c) || (ic_Pattern c <>s "").
Definition item_constraints (c : InputConstraints) : bool := set_ (ic_MinItems c) || set_ (ic_MaxItems c).
Definition number_constraints (c : InputConstraints) : bool := set_ (ic_Minimum c) || set_ (ic_Maximum c).

(** The [switch] of [validateInputConstraints]. *)
Definition constraint_issues (path inputType : string) (c : InputConstraints) : list string :=
  let at_ (b : bool) (m : string) := issue_if b (path +:+ ".constraints" +:+ m)%string in
  if inputType =s InputTypeString then
    at_ (negative (ic_MinLength c)) ".min_length cannot be negative" ++ at_ (negative (ic_MaxLength c)) ".max_length cannot be negative" ++
    at_ (below (ic_MinLength c) (ic_MaxLength c)) ".max_length must be >= min_length" ++
    at_ ((ic_Pattern c <>s "") && negb (compiles (ic_Pattern c))) ".pattern must be a valid regex" ++
    at_ (number_constraints c) ".minimum/maximum only apply to number or integer" ++
    at_ (item_constraints c) ".min_items/max_items only apply to array"
  else if (inputType =s InputTypeNumber) || (inputType =s InputTypeInteger) then
    at_ (match ic_Minimum c, ic_Maximum c with Some lo, Some hi => SFltb hi lo | _, _ => false end) ".maximum must be >= minimum" ++
    at_ (text_constraints c) ".min_length/max_length/pattern only apply to string" ++
    at_ (item_constraints c) ".min_items/max_items only apply to array"
  else if inputType =s InputTypeBoolean then
    at_ (text_constraints c || number_constraints c || item_constraints c) " are not supported for boolean inputs"
  else if inputType =s InputTypeArray then
    at_ (negative (ic_MinItems c)) ".min_items cannot be negative" ++ at_ (negative (ic_MaxItems c)) ".max_items cannot be negative" ++
    at_ (below (ic_MinItems c) (ic_MaxItems c)) ".max_items must be >= min_items" ++
    at_ (text_constraints c || number_constraints c) ".min_length/max_length/pattern/minimum/maximum do not apply to array"
  else if inputType =s InputTypeObject then
    at_ (text_constraints c || number_constraints c || item_constraints c) " are not supported for object inputs"
  else [].

Definition validateInputConstraints (path : string) (i : Input) : list string :=
  constraint_issues path (in_Type i) (in_Constraints i) ++
  issue_if (not_nil (in_Default i) && negb (valueMatchesType (in_Default i) (in_Type i))) (path +:+ ".default does not match declared input type")%string ++
  concat (imap (λ k v, issue_if (negb (valueMatchesType v (in_Type i)))
                         (indexed (path +:+ ".constraints.enum")%string k +:+ " does not match declared input type")%string)
               (ic_Enum (in_Constraints i))).

(** The loops over inputs and steps keep the names seen so far. *)
Definition name_issues (prefix field name : string) (seen : list string) : list string * list string :=
  if name =s "" then ([(prefix +:+ "." +:+ field +:+ " is required")%string], seen)
  else if existsb (String.eqb name) seen then ([(prefix +:+ "." +:+ field +:+ " " +:+ Quote name +:+ " must be unique")%string], seen)
  else ([], name :: seen).

Fixpoint input_issues (idx : nat) (seen : list string) (inputs : list Input) : list string :=
  match inputs with
  | [] => []
  | i :: rest =>
      let prefix := indexed "inputs" idx in
      let '(issues, seen) := name_issues prefix "name" (in_Name i) seen in
      issues ++
      issue_if (negb (isSupportedInputType (in_Type i))) (prefix +:+ ".type must be one of: string, number, integer, boolean, array, object")%string ++
      validateInputConstraints prefix i ++ input_issues (S idx) seen rest
  end.

Definition rollback_issues (prefix : string) (h : option RollbackHook) : list string :=
  match h with
  | None => []
  | Some h =>
      issue_if (rh_Action h =s "") (prefix +:+ ".rollback.action is required when rollback is configured")%string ++
      issue_if (rh_TimeoutSeconds h <? 0) (prefix +:+ ".rollback.timeout_seconds cannot be negative")%string
  end.

(** The issues of the first loop over the steps, and the set of step ids. *)
Fixpoint step_issues (idx : nat) (seen : list string) (steps : list Step) : list string * list string :=
  match steps with
  | [] => ([], seen)
  | st :: rest =>
      let prefix := indexed "steps" idx in
      let '(issues, seen) := name_issues prefix "id" (sp_ID st) seen in
      let '(more, seen) := step_issues (S idx) seen rest in
      (issues ++ issue_if (sp_Action st =s "") (prefix +:+ ".action is required")%string ++
       validateApproval (prefix +:+ ".approval")%string (sp_Approval st) ++
       issue_if (sp_TimeoutSeconds st <? 0) (prefix +:+ ".timeout_seconds cannot be negative")%string ++
       issue_if (sp_MaxRetries st <? 0) (prefix +:+ ".max_retries cannot be negative")%string ++
       rollback_issues prefix (sp_Rollback st) ++ more, seen)
  end.

Definition validateOutcome (path : string) (o : ExpectedOutcome) (stepIDs : list string) : list string :=
  issue_if (eo_Description o =s "") (path +:+ ".description is required")%string ++
  issue_if (eo_SuccessCriteria o =s "") (path +:+ ".success_criteria is required")%string ++
  issue_if ((eo_StepID o <>s "") && negb (existsb (String.eqb (eo_StepID o)) stepIDs)) (path +:+ ".step_id must reference an existing step id")%string.

Definition outcome_issues (prefix : string) (outcomes : list ExpectedOutcome) (stepIDs : list string) : list string :=
  concat (imap (λ k o, validateOutcome (indexed (prefix +:+ "expected_outcomes")%string k) o stepIDs) outcomes).

Definition metadata_issues (m : Metadata) : list string :=
  (if md_ID m =s "" then ["metadata.id is required"%string]
   else issue_if (negb (definitionIDPattern (md_ID m))) "metadata.id must match ^[a-z0-9][a-z0-9._-]{1,127}$") ++
  issue_if (md_Name m =s "") "metadata.name is required" ++
  (if md_Version m =s "" then ["metadata.version is required"%string]
   else issue_if (negb (semverPattern (md_Version m))) "metadata.version must be semantic version format (e.g. 1.0.0)").

(** The issues of a definition that is already normalised. *)
Definition definition_issues (d : Definition_) : list string :=
  let '(issues_of_steps, stepIDs) := step_issues 0 [] (df_Steps d) in
  metadata_issues (df_Metadata d) ++ validateApproval "approval" (df_Approval d) ++ input_issues 0 [] (df_Inputs d) ++
  issue_if (Nat.eqb (length (df_Steps d)) 0) "steps must contain at least one step" ++ issues_of_steps ++
  concat (imap (λ k st, outcome_issues (indexed "steps" k +:+ ".")%string (sp_ExpectedOutcomes st) stepIDs) (df_Steps d)) ++
  outcome_issues "" (df_ExpectedOutcomes d) stepIDs ++
  issue_if (Nat.eqb (length (df_ExpectedOutcomes d) + sum_list (map (λ st, length (sp_ExpectedOutcomes st)) (df_Steps d))) 0)
    "at least one expected outcome is required (workflow-level or step-level)".

(** [ValidateDefinition]: the normalised definition, or the issues. *)
Definition ValidateDefinition (d : Definition_) : list string + Definition_ :=
  let d := normalizeDefinition d in
  match definition_issues d with [] => inr d | issues => inl issues end.
End text.
