(* ===== verification/PackDryRun.v ===== *)
(** * Automation packs: inputs, templates and dry runs
    (src/internal/controlplane/automationpacks/dryrun.go)

    [simulate n] is what the policy simulator answers at its call number [n]. *)
From Stdlib Require Import SpecFloat.
From S2P Require Import Prelude GoStrings GoErrors GoTime GoFloat GoSort Protocol ApprovalQueue PackTypes.
Local Open Scope go_scope.
Local Open Scope Z_scope.

Definition PolicyOutcomeAllow : string := "allow".
Definition PolicyOutcomeQueue : string := "queue".
Definition PolicyOutcomeDeny : string := "deny".

Record PolicySimulation := { ps_Outcome : string; ps_RiskLevel : string; ps_Summary : string; ps_Rationale : any }.
Record PolicySimulationRequest := { pq_Definition : Metadata; pq_Step : Step; pq_Command : CommandPayload }.

Record DryRunStepResult := {
  dr_Order : Z;
  dr_ID : string;
  dr_Name : string;
  dr_Description : string;
  dr_Action : string;
  dr_ResolvedParams : map_any;
  dr_PredictedRisk : string;
  dr_ApprovalRequired : bool;
  dr_PolicySimulation : PolicySimulation;
  dr_PredictedOutcomes : list ExpectedOutcome;
}.

Record DryRunRiskSummary := { rs_AllowCount : Z; rs_QueueCount : Z; rs_DenyCount : Z; rs_Highest : string; rs_Reasons : list string }.

Record DryRunResult := {
  dy_NonMutating : bool;
  dy_Metadata : Metadata;
  dy_ResolvedInputs : map_any;
  dy_Steps : list DryRunStepResult;
  dy_ExpectedOutcomes : list ExpectedOutcome;
  dy_WorkflowPolicy : PolicySimulation;
  dy_RiskSummary : DryRunRiskSummary;
}.

(** ** Values *)

(** [cloneValue]: an empty map comes back as a nil one. *)
Fixpoint cloneValue (v : any) : any :=
  match v with
  | VArray l => VArray (map cloneValue l)
  | VMap [] => VNilMap
  | VMap m => VMap (map (λ kv, (kv.1, cloneValue kv.2)) m)
  | v => v
  end.
Definition cloneMap (m : map_any) : map_any := map (λ kv, (kv.1, cloneValue kv.2)) m.

(** [reflect.DeepEqual] *)
Fixpoint DeepEqual (a b : any) : bool :=
  match a, b with
  | VNil, VNil | VNilMap, VNilMap => true
  | VBool x, VBool y => Bool.eqb x y
  | VNumber x, VNumber y => SFeqb x y
  | VInt x, VInt y => x =? y
  | VString x, VString y => x =s y
  | VStrings x, VStrings y => bool_decide (x = y)
  | VArray l, VArray k =>
      (fix go l k := match l, k with [], [] => true | x :: l, y :: k => DeepEqual x y && go l k | _, _ => false end) l k
  | VMap m, VMap n =>
      Nat.eqb (length m) (length n) && forallb (λ kv, match lookup_key kv.1 n with Some w => DeepEqual kv.2 w | None => false end) m
  | _, _ => false
  end.

Definition toFloat64 (v : any) : option float64 := 
  match v with VNumber f => Some f | VInt n => Some (float64_of_int n) | _ => None end.
Definition valuesEqual (a b : any) : bool :=
  match toFloat64 a, toFloat64 b with Some x, Some y => SFeqb x y | _, _ => DeepEqual a b end.

Fixpoint unique_from (seen : list string) (values : list string) : list string :=
  match values with
  | [] => []
  | v :: rest =>
      let v := TrimSpace v in
      if (v =s "") || existsb (String.eqb v) seen then unique_from seen rest else v :: unique_from (v :: seen) rest
  end.
Definition uniqueStrings (values : list string) : list string := unique_from [] values.

Section text.
Context `{Text}.

(** [fmt.Sprint]: the entries of a map in the order of their keys. *)
Fixpoint Sprint (v : any) : string :=
  match v with
  | VNil => "<nil>"
  | VBool b => if b then "true" else "false"
  | VNumber f => format_shortest f
  | VInt n => Itoa n
  | VString s => s
  | VStrings l => "[" +:+ StringsJoin l " " +:+ "]"
  | VArray l => "[" +:+ StringsJoin (map Sprint l) " " +:+ "]"
  | VMap m =>
      "map[" +:+ StringsJoin (map (λ kv, kv.1 +:+ ":" +:+ kv.2) (insertion_sort (λ x y, String.ltb x.1 y.1) (map (λ kv, (kv.1, Sprint kv.2)) m))) " " +:+ "]"
  | VNilMap => "map[]"
  end%string.

Definition trimFloat (f : float64) : string :=
  if is_whole f then Itoa (int64_of_float amd64_overflow f) else format_plain f.

(** ** Inputs *)

Definition too_short (o : option Z) (n : nat) : bool := match o with Some m => Z.of_nat n <? m | None => false end.
Definition too_long (o : option Z) (n : nat) : bool := match o with Some m => m <? Z.of_nat n | None => false end.
Definition bound_text (o : option Z) : string := match o with Some n => Itoa n | None => "" end.
Definition float_text (o : option float64) : string := match o with Some f => trimFloat f | None => "" end.

(** The [switch] of [validateInputValue]. *)
Definition value_issues (prefix : string) (i : Input) (v : any) : list string :=
  let c := in_Constraints i in
  if in_Type i =s InputTypeString then
    let str := match v with VString s => s | _ => ""%string end in
    issue_if (too_short (ic_MinLength c) (String.length str)) (prefix +:+ " must be at least " +:+ bound_text (ic_MinLength c) +:+ " characters")%string ++
    issue_if (too_long (ic_MaxLength c) (String.length str)) (prefix +:+ " must be at most " +:+ bound_text (ic_MaxLength c) +:+ " characters")%string ++
    issue_if ((ic_Pattern c <>s "") && match regexp_MatchString (ic_Pattern c) str with Some false => true | _ => false end)
      (prefix +:+ " must match pattern " +:+ Quote (ic_Pattern c))%string
  else if (in_Type i =s InputTypeNumber) || (in_Type i =s InputTypeInteger) then
    match toFloat64 v with
    | None => [(prefix +:+ " must be numeric")%string]
    | Some n =>
        issue_if (match ic_Minimum c with Some m => SFltb n m | None => false end) (prefix +:+ " must be >= " +:+ float_text (ic_Minimum c))%string ++
        issue_if (match ic_Maximum c with Some m => SFltb m n | None => false end) (prefix +:+ " must be <= " +:+ float_text (ic_Maximum c))%string ++
        issue_if ((in_Type i =s InputTypeInteger) && negb (isInteger v)) (prefix +:+ " must be an integer")%string
    end
  else if in_Type i =s InputTypeArray then
    let n := match v with VArray l => length l | _ => 0%nat end in
    issue_if (too_short (ic_MinItems c) n) (prefix +:+ " must have at least " +:+ bound_text (ic_MinItems c) +:+ " items")%string ++
    issue_if (too_long (ic_MaxItems c) n) (prefix +:+ " must have at most " +:+ bound_text (ic_MaxItems c) +:+ " items")%string
  else [].

Definition in_enum (c : InputConstraints) (v : any) : bool :=
  match ic_Enum c with [] => true | enum => existsb (λ candidate, valuesEqual candidate v) enum end.

Definition validateInputValue (i : Input) (v : any) : list string :=
  let prefix := ("inputs." +:+ in_Name i)%string in
  value_issues prefix i v ++ issue_if (negb (in_enum (in_Constraints i) v)) (prefix +:+ " must be one of the declared enum values")%string.

(** The value of one input, if it has one. *)
Definition input_value (i : Input) (provided : map_any) : option any :=
  match lookup_key (in_Name i) provided with
  | Some v => Some v
  | None => if not_nil (in_Default i) then Some (cloneValue (in_Default i)) else None
  end.

(** The loop of [resolveInputs]: [resolved[name] = value] on the entries so far. *)
Definition set_key (key : string) (v : any) (m : map_any) : map_any := (key, v) :: List.filter (λ kv, kv.1 <>s key) m.

Fixpoint resolve_loop (inputs : list Input) (provided resolved : map_any) : map_any * list string :=
  match inputs with
  | [] => (resolved, [])
  | i :: rest =>
      match input_value i provided with
      | None =>
          let '(r, issues) := resolve_loop rest provided resolved in
          (r, issue_if (in_Required i) ("inputs." +:+ in_Name i +:+ " is required")%string ++ issues)
      | Some v =>
          if negb (valueMatchesType v (in_Type i)) then
            let '(r, issues) := resolve_loop rest provided resolved in
            (r, ("inputs." +:+ in_Name i +:+ " must be type " +:+ in_Type i)%string :: issues)
          else
            let '(r, issues) := resolve_loop rest provided (set_key (in_Name i) (cloneValue v) resolved) in
            (r, validateInputValue i v ++ issues)
      end
  end.

Definition resolveInputs (inputs : list Input) (provided : map_any) : pack_error + map_any :=
  let provided := cloneMap provided in
  let '(resolved, issues) := resolve_loop inputs provided [] in
  let unknown := List.filter (λ kv, negb (existsb (λ i, in_Name i =s kv.1) inputs)) provided in
  match issues ++ map (λ kv, ("inputs." +:+ kv.1 +:+ " is not declared in definition")%string) unknown with
  | [] => inr resolved
  | issues => inl (InputValidationError (uniqueStrings issues))
  end.

(** ** Templates *)

Definition regexp_space (c : ascii) : bool :=
  match nat_of_ascii c with 9 | 10 | 12 | 13 | 32 => true | _ => false end%nat.
Definition template_char (c : ascii) : bool := is_digit c || is_lower_letter c || is_upper_letter c || char_in c "._-".

(** The template [\{\{\s*inputs\.([A-Za-z0-9._-]+)\s*\}\}] at the start of the text:
    the name and what follows the template. *)
Definition template_at (s : string) : option (string * string) :=
  if negb (HasPrefix s "{{") then None
  else
    let s := (span regexp_space (drop_str 2 s)).2 in
    if negb (HasPrefix s "inputs.") then None
    else
      let '(name, s) := span template_char (drop_str 7 s) in
      let s := (span regexp_space s).2 in
      if (name =s "") || negb (HasPrefix s "}}") then None else Some (name, drop_str 2 s).

(** [exactInputTemplatePattern.FindStringSubmatch] *)
Definition exact_template (s : string) : option string :=
  match template_at s with Some (name, EmptyString) => Some name | _ => None end.

(** [inlineInputTemplatePattern.ReplaceAllStringFunc]; [skip] characters of the
    text belong to a template that is already replaced. *)
Fixpoint replace_templates (inputs : map_any) (skip : nat) (s : string) : string :=
  match s with
  | EmptyString => EmptyString
  | String c rest =>
      match skip with
      | S skip => replace_templates inputs skip rest
      | O =>
          match template_at s with
          | Some (name, after) =>
              let len := (String.length s - String.length after)%nat in
              let text := match lookup_key name inputs with Some v => Sprint v | None => take_str len s end in
              (text +:+ replace_templates inputs (len - 1) rest)%string
          | None => String c (replace_templates inputs 0 rest)
          end
      end
  end.

Definition resolveStringValue (s : string) (inputs : map_any) : any :=
  match exact_template (TrimSpace s) with
  | Some name => match lookup_key name inputs with Some v => cloneValue v | None => VString s end
  | None => VString (replace_templates inputs 0 s)
  end.

Fixpoint resolveValue (v : any) (inputs : map_any) : any :=
  match v with
  | VMap m => VMap (map (λ kv, (kv.1, resolveValue kv.2 inputs)) m)
  | VNilMap => VMap []
  | VArray l => VArray (map (λ x, resolveValue x inputs) l)
  | VString s => resolveStringValue s inputs
  | v => cloneValue v
  end.

Definition resolveStepParameters (params inputs : map_any) : map_any := map (λ kv, (kv.1, resolveValue kv.2 inputs)) params.

(** ** Commands *)

Definition stringifyArgs (v : any) : list string :=
  match v with VStrings l => l | VArray l => map Sprint l | VNil => [] | v => [Sprint v] end.

Definition commandPayloadForStep (st : Step) (resolved : map_any) (idx : nat) : CommandPayload :=
  let command := TrimSpace (sp_Action st) in
  let command := match lookup_key "command" resolved with
                 | Some (VString text) => if TrimSpace text <>s "" then TrimSpace text else command
                 | _ => command end in
  let args := match lookup_key "args" resolved with Some v => stringifyArgs v | None => [] end in
  {| cmd_RequestID := ("dryrun-" +:+ sp_ID st +:+ "-" +:+ Itoa (Z.of_nat idx + 1))%string; cmd_Command := if command =s "" then "noop" else command;
     cmd_Args := args; cmd_Timeout := 0; cmd_Level := CapObserve; cmd_Stream := false |}.

(** ** Policy predictions *)

Definition outcome_rank (value : string) : Z :=
  let v := ToLower (TrimSpace value) in
  if v =s PolicyOutcomeAllow then 1 else if v =s PolicyOutcomeQueue then 2 else if v =s PolicyOutcomeDeny then 3 else 0.

Definition mergePolicyOutcome (current candidate : string) : string :=
  if outcome_rank current <? outcome_rank candidate then ToLower (TrimSpace candidate)
  else if current =s "" then PolicyOutcomeAllow else ToLower (TrimSpace current).

Definition set_outcome (p : PolicySimulation) (o : string) : PolicySimulation :=
  {| ps_Outcome := o; ps_RiskLevel := ps_RiskLevel p; ps_Summary := ps_Summary p; ps_Rationale := ps_Rationale p |}.
Definition set_risk (p : PolicySimulation) (r : string) : PolicySimulation :=
  {| ps_Outcome := ps_Outcome p; ps_RiskLevel := r; ps_Summary := ps_Summary p; ps_Rationale := ps_Rationale p |}.
Definition set_summary (p : PolicySimulation) (t : string) : PolicySimulation :=
  {| ps_Outcome := ps_Outcome p; ps_RiskLevel := ps_RiskLevel p; ps_Summary := t; ps_Rationale := ps_Rationale p |}.

(** The defaults both the dry run and the execution apply to an answer. *)
Definition with_defaults (p : PolicySimulation) (cmd : CommandPayload) : PolicySimulation :=
  let p := if ps_Outcome p =s "" then set_outcome p PolicyOutcomeAllow else p in
  if ps_RiskLevel p =s "" then set_risk p (ClassifyRisk cmd) else p.

Definition required (a : option ApprovalRequirement) : bool := match a with Some a => ar_Required a | None => false end.
Definition minimum_approvers (a : ApprovalRequirement) : Z := if ar_MinimumApprovers a <=? 0 then 1 else ar_MinimumApprovers a.

Definition applyApprovalSimulation (p : PolicySimulation) (a : option ApprovalRequirement) (scope : string) : PolicySimulation :=
  match a with
  | Some a =>
      if negb (ar_Required a) then p
      else
        let p := if TrimSpace (ps_Outcome p) =s "" then set_outcome p PolicyOutcomeAllow else p in
        let p := set_outcome p (mergePolicyOutcome (ps_Outcome p) PolicyOutcomeQueue) in
        let note := (scope +:+ " requires manual approval (" +:+ Itoa (minimum_approvers a) +:+ " approver minimum)")%string in
        if ps_Summary p =s "" then set_summary p note
        else if negb (Contains (ps_Summary p) note) then set_summary p (ps_Summary p +:+ "; " +:+ note)%string else p
  | None => p
  end.

Definition updateRiskSummary (r : DryRunRiskSummary) (p : PolicySimulation) : DryRunRiskSummary :=
  let outcome := ToLower (TrimSpace (ps_Outcome p)) in
  let outcome := if outcome =s "" then PolicyOutcomeAllow else outcome in
  let text := TrimSpace (ps_Summary p) in
  let reasons := if (text <>s "") && (outcome <>s PolicyOutcomeAllow) then rs_Reasons r ++ [text] else rs_Reasons r in
  let count o n := if outcome =s o then n + 1 else n in
  {| rs_AllowCount := count PolicyOutcomeAllow (rs_AllowCount r); rs_QueueCount := count PolicyOutcomeQueue (rs_QueueCount r);
     rs_DenyCount := count PolicyOutcomeDeny (rs_DenyCount r); rs_Highest := mergePolicyOutcome (rs_Highest r) outcome;
     rs_Reasons := uniqueStrings reasons |}.

(** ** The dry run *)

Context (simulate : nat → PolicySimulationRequest → PolicySimulation).

Definition predict (d : Definition_) (inputs : map_any) (idx : nat) (st : Step) : PolicySimulation :=
  let cmd := commandPayloadForStep st (resolveStepParameters (sp_Parameters st) inputs) idx in
  applyApprovalSimulation (with_defaults (simulate idx {| pq_Definition := df_Metadata d; pq_Step := st; pq_Command := cmd |}) cmd)
    (sp_Approval st) ("step " +:+ Quote (sp_ID st))%string.

Definition plan_step (d : Definition_) (inputs : map_any) (idx : nat) (st : Step) : DryRunStepResult :=
  let params := resolveStepParameters (sp_Parameters st) inputs in
  {| dr_Order := Z.of_nat idx + 1; dr_ID := sp_ID st; dr_Name := sp_Name st; dr_Description := sp_Description st; dr_Action := sp_Action st;
     dr_ResolvedParams := params; dr_PredictedRisk := ClassifyRisk (commandPayloadForStep st params idx);
     dr_ApprovalRequired := required (sp_Approval st); dr_PolicySimulation := predict d inputs idx st;
     dr_PredictedOutcomes := sp_ExpectedOutcomes st |}.

(** What the loop over the steps accumulates: the outcome of the workflow, the
    summary and the reasons. *)
Definition plan_merge (acc : string * DryRunRiskSummary * list string) (r : DryRunStepResult) : string * DryRunRiskSummary * list string :=
  let '(outcome, summary, reasons) := acc in
  let p := dr_PolicySimulation r in
  let text := TrimSpace (ps_Summary p) in
  (mergePolicyOutcome outcome (ps_Outcome p), updateRiskSummary summary p,
   if (text <>s "") && (ps_Outcome p <>s PolicyOutcomeAllow) then reasons ++ [("step " +:+ dr_ID r +:+ ": " +:+ text)%string] else reasons).

Definition workflow_policy (d : Definition_) (acc : string * DryRunRiskSummary * list string) : PolicySimulation * DryRunRiskSummary :=
  let '(outcome, summary, reasons) := acc in
  let w := applyApprovalSimulation {| ps_Outcome := outcome; ps_RiskLevel := ""; ps_Summary := ""; ps_Rationale := VNil |} (df_Approval d) "workflow" in
  let summary := if ps_Outcome w <>s outcome then updateRiskSummary summary w else summary in
  let reasons := if ps_Summary w <>s "" then reasons ++ [ps_Summary w] else reasons in
  let set_highest s rs := {| rs_AllowCount := rs_AllowCount s; rs_QueueCount := rs_QueueCount s; rs_DenyCount := rs_DenyCount s;
                             rs_Highest := ps_Outcome w; rs_Reasons := rs |} in
  match reasons with
  | [] => (set_summary w "all steps predicted allow", set_highest summary (rs_Reasons summary))
  | _ => (set_summary w (StringsJoin (uniqueStrings reasons) "; "), set_highest summary (uniqueStrings reasons))
  end.

Definition runDryRun (d : Definition_) (provided : map_any) : pack_error + DryRunResult :=
  match ValidateDefinition d with
  | inl issues => inl (ValidationError issues)
  | inr d =>
      match resolveInputs (df_Inputs d) provided with
      | inl e => inl e
      | inr inputs =>
          let steps := imap (plan_step d inputs) (df_Steps d) in
          let start := (PolicyOutcomeAllow, {| rs_AllowCount := 0; rs_QueueCount := 0; rs_DenyCount := 0; rs_Highest := PolicyOutcomeAllow; rs_Reasons := [] |}, []) in
          let '(w, summary) := workflow_policy d (foldl plan_merge start steps) in
          inr {| dy_NonMutating := true; dy_Metadata := df_Metadata d; dy_ResolvedInputs := inputs; dy_Steps := steps;
                 dy_ExpectedOutcomes := df_ExpectedOutcomes d; dy_WorkflowPolicy := w; dy_RiskSummary := summary |}
      end
  end.
End text.

(** [noopPolicySimulator] *)
Definition noop_simulate (_ : nat) (r : PolicySimulationRequest) : PolicySimulation :=
  {| ps_Outcome := PolicyOutcomeAllow; ps_RiskLevel := ClassifyRisk (pq_Command r); ps_Summary := "policy simulator unavailable; default allow";
     ps_Rationale := VNil |}.
