(* ===== verification/PackRuntime.v ===== *)
(** * Automation packs: execution
    (src/internal/controlplane/automationpacks/execution.go)

    An execution runs the steps of a definition in order, each behind the policy
    gate and the approval checkpoints when it mutates, with retries, and rolls the
    finished steps back when one fails or is blocked.  [X] threads the execution,
    the readings of the clock and the log of the questions to the policy simulator
    and the calls of the action runner, with their answers; [act n] is what the
    runner answers at reading [n]. *)
From S2P Require Import Prelude GoStrings GoErrors GoTime GoFloat Protocol ApprovalQueue PackTypes PackDryRun.
Local Open Scope go_scope.
Local Open Scope Z_scope.

Definition ExecutionStatusRunning : string := "running".
Definition ExecutionStatusSucceeded : string := "succeeded".
Definition ExecutionStatusFailed : string := "failed".
Definition ExecutionStatusBlocked : string := "blocked".
Definition StepStatusPending : string := "pending".
Definition StepStatusRunning : string := "running".
Definition StepStatusSucceeded : string := "succeeded".
Definition StepStatusFailed : string := "failed".
Definition StepStatusTimedOut : string := "timed_out".
Definition StepStatusBlocked : string := "blocked".
Definition StepStatusSkipped : string := "skipped".
Definition RollbackStatusNotRequired : string := "not_required".
Definition RollbackStatusCompleted : string := "completed".
Definition RollbackStatusPartial : string := "partial".
Definition TimelineEventExecutionStarted : string := "execution.started".
Definition TimelineEventExecutionFinished : string := "execution.finished".
Definition TimelineEventStepStarted : string := "step.started".
Definition TimelineEventStepPolicy : string := "step.policy_evaluated".
Definition TimelineEventStepApprovalCheck : string := "step.approval_checkpoint".
Definition TimelineEventStepApprovalResult : string := "step.approval_decision".
Definition TimelineEventStepAttemptStarted : string := "step.attempt.started".
Definition TimelineEventStepAttemptResult : string := "step.attempt.result".
Definition TimelineEventStepFinished : string := "step.finished".
Definition TimelineEventStepBlocked : string := "step.blocked".
Definition TimelineEventStepSkipped : string := "step.skipped".
Definition TimelineEventRollbackStarted : string := "rollback.started".
Definition TimelineEventRollbackFinished : string := "rollback.finished".
Definition ArtifactTypeStdoutSnippet : string := "stdout_snippet".
Definition ArtifactTypeStderrSnippet : string := "stderr_snippet".
Definition ArtifactTypeErrorContext : string := "error_context".
Definition ArtifactTypePolicyRationale : string := "policy_rationale".
Definition ArtifactTypeApproval : string := "approval_checkpoint".
Definition ArtifactTypeActionMessage : string := "action_message".
Definition ArtifactTypeActionPayload : string := "action_payload".

(** ** Data *)

Record ApprovalDecision_ := { ad_Approved : bool; ad_ApproverCount : Z; ad_ApprovedBy : list string; ad_Note : string }.
Definition no_decision : ApprovalDecision_ := {| ad_Approved := false; ad_ApproverCount := 0; ad_ApprovedBy := []; ad_Note := "" |}.
Record ExecutionApprovalContext := { ac_Workflow : ApprovalDecision_; ac_Steps : list (string * ApprovalDecision_) }.

Record StartExecutionRequest := {
  sr_DefinitionID : string;
  sr_Version : string;
  sr_Inputs : map_any;
  sr_ApprovalContext : ExecutionApprovalContext;
}.

Record ApprovalCheckpoint := {
  ck_Scope : string;
  ck_Required : bool;
  ck_MinimumApprovers : Z;
  ck_Approved : bool;
  ck_ApproverCount : Z;
  ck_ApprovedBy : list string;
  ck_Note : string;
  ck_Reason : string;
}.

Record ExecutionTimelineEvent := {
  tl_ID : string;
  tl_Sequence : Z;
  tl_Timestamp : time;
  tl_Type : string;
  tl_StepID : string;
  tl_Attempt : Z;
  tl_Status : string;
  tl_Message : string;
  tl_Data : map_any;
}.

Record ExecutionArtifact := {
  af_ID : string;
  af_EventID : string;
  af_StepID : string;
  af_Attempt : Z;
  af_Type : string;
  af_Timestamp : time;
  af_Data : map_any;
}.

Record ExecutionReplay := {
  xr_ExecutionID : string;
  xr_Deterministic : bool;
  xr_EventCount : nat;
  xr_ArtifactCount : nat;
  xr_OrderedEventIDs : list string;
  xr_FirstTimestamp : option time;
  xr_LastTimestamp : option time;
}.

Record ExecutionFailure := { xf_StepID : string; xf_Category : string; xf_Message : string }.

Record ExecutionStepAttempt := { at_Attempt : Z; at_Status : string; at_StartedAt : time; at_FinishedAt : option time; at_Error : string }.

Record RollbackExecutionStep := {
  rx_StepID : string;
  rx_Action : string;
  rx_Status : string;
  rx_StartedAt : time;
  rx_FinishedAt : option time;
  rx_Error : string;
  rx_Output : map_any;
}.

Record ExecutionStep := {
  es_Order : Z;
  es_ID : string;
  es_Name : string;
  es_Action : string;
  es_Mutating : bool;
  es_Status : string;
  es_Attempts : Z;
  es_MaxRetries : Z;
  es_TimeoutSeconds : Z;
  es_StartedAt : option time;
  es_FinishedAt : option time;
  es_Error : string;
  es_ResolvedParameters : map_any;
  es_PolicySimulation : PolicySimulation;
  es_AttemptHistory : list ExecutionStepAttempt;
  es_Output : map_any;
  es_Rollback : option RollbackExecutionStep;
}.

Record Execution := {
  ex_ID : string;
  ex_Metadata : Metadata;
  ex_Status : string;
  ex_StartedAt : time;
  ex_FinishedAt : option time;
  ex_ResolvedInputs : map_any;
  ex_Steps : list ExecutionStep;
  ex_Failure : option ExecutionFailure;
  ex_RollbackStatus : string;
  ex_Rollback : list RollbackExecutionStep;
  ex_Timeline : list ExecutionTimelineEvent;
  ex_Artifacts : list ExecutionArtifact;
}.

Record ActionRequest := {
  rq_Definition : Metadata;
  rq_ExecutionID : string;
  rq_StepID : string;
  rq_Action : string;
  rq_Parameters : map_any;
  rq_Inputs : map_any;
  rq_Attempt : Z;
  rq_Rollback : bool;
}.

Record ActionResult := {
  rr_Output : map_any;
  rr_Message : string;
  rr_StdoutSnippet : string;
  rr_StderrSnippet : string;
  rr_Artifacts : map_any;
}.

(** ** Assignments to fields *)

Definition set_es_start (v : time) (mutating : bool) (params : map_any) (s : ExecutionStep) : ExecutionStep :=
  {| es_Order := es_Order s; es_ID := es_ID s; es_Name := es_Name s; es_Action := es_Action s; es_Mutating := mutating; es_Status := StepStatusRunning;
     es_Attempts := es_Attempts s; es_MaxRetries := es_MaxRetries s; es_TimeoutSeconds := es_TimeoutSeconds s; es_StartedAt := Some v;
     es_FinishedAt := es_FinishedAt s; es_Error := es_Error s; es_ResolvedParameters := params; es_PolicySimulation := es_PolicySimulation s;
     es_AttemptHistory := es_AttemptHistory s; es_Output := es_Output s; es_Rollback := es_Rollback s |}.
Definition set_es_status (v : string) (s : ExecutionStep) : ExecutionStep :=
  {| es_Order := es_Order s; es_ID := es_ID s; es_Name := es_Name s; es_Action := es_Action s; es_Mutating := es_Mutating s; es_Status := v;
     es_Attempts := es_Attempts s; es_MaxRetries := es_MaxRetries s; es_TimeoutSeconds := es_TimeoutSeconds s; es_StartedAt := es_StartedAt s;
     es_FinishedAt := es_FinishedAt s; es_Error := es_Error s; es_ResolvedParameters := es_ResolvedParameters s; es_PolicySimulation := es_PolicySimulation s;
     es_AttemptHistory := es_AttemptHistory s; es_Output := es_Output s; es_Rollback := es_Rollback s |}.
Definition set_es_times (started finished : option time) (s : ExecutionStep) : ExecutionStep :=
  {| es_Order := es_Order s; es_ID := es_ID s; es_Name := es_Name s; es_Action := es_Action s; es_Mutating := es_Mutating s; es_Status := es_Status s;
     es_Attempts := es_Attempts s; es_MaxRetries := es_MaxRetries s; es_TimeoutSeconds := es_TimeoutSeconds s; es_StartedAt := started;
     es_FinishedAt := finished; es_Error := es_Error s; es_ResolvedParameters := es_ResolvedParameters s; es_PolicySimulation := es_PolicySimulation s;
     es_AttemptHistory := es_AttemptHistory s; es_Output := es_Output s; es_Rollback := es_Rollback s |}.
Definition set_es_finished (v : time) (s : ExecutionStep) : ExecutionStep := set_es_times (es_StartedAt s) (Some v) s.
Definition set_es_error (v : string) (s : ExecutionStep) : ExecutionStep :=
  {| es_Order := es_Order s; es_ID := es_ID s; es_Name := es_Name s; es_Action := es_Action s; es_Mutating := es_Mutating s; es_Status := es_Status s;
     es_Attempts := es_Attempts s; es_MaxRetries := es_MaxRetries s; es_TimeoutSeconds := es_TimeoutSeconds s; es_StartedAt := es_StartedAt s;
     es_FinishedAt := es_FinishedAt s; es_Error := v; es_ResolvedParameters := es_ResolvedParameters s; es_PolicySimulation := es_PolicySimulation s;
     es_AttemptHistory := es_AttemptHistory s; es_Output := es_Output s; es_Rollback := es_Rollback s |}.
Definition set_es_policy (v : PolicySimulation) (s : ExecutionStep) : ExecutionStep :=
  {| es_Order := es_Order s; es_ID := es_ID s; es_Name := es_Name s; es_Action := es_Action s; es_Mutating := es_Mutating s; es_Status := es_Status s;
     es_Attempts := es_Attempts s; es_MaxRetries := es_MaxRetries s; es_TimeoutSeconds := es_TimeoutSeconds s; es_StartedAt := es_StartedAt s;
     es_FinishedAt := es_FinishedAt s; es_Error := es_Error s; es_ResolvedParameters := es_ResolvedParameters s; es_PolicySimulation := v;
     es_AttemptHistory := es_AttemptHistory s; es_Output := es_Output s; es_Rollback := es_Rollback s |}.
Definition add_es_attempt (attempts : Z) (v : ExecutionStepAttempt) (s : ExecutionStep) : ExecutionStep :=
  {| es_Order := es_Order s; es_ID := es_ID s; es_Name := es_Name s; es_Action := es_Action s; es_Mutating := es_Mutating s; es_Status := es_Status s;
     es_Attempts := attempts; es_MaxRetries := es_MaxRetries s; es_TimeoutSeconds := es_TimeoutSeconds s; es_StartedAt := es_StartedAt s;
     es_FinishedAt := es_FinishedAt s; es_Error := es_Error s; es_ResolvedParameters := es_ResolvedParameters s; es_PolicySimulation := es_PolicySimulation s;
     es_AttemptHistory := es_AttemptHistory s ++ [v]; es_Output := es_Output s; es_Rollback := es_Rollback s |}.
Definition set_es_output (v : map_any) (s : ExecutionStep) : ExecutionStep :=
  {| es_Order := es_Order s; es_ID := es_ID s; es_Name := es_Name s; es_Action := es_Action s; es_Mutating := es_Mutating s; es_Status := es_Status s;
     es_Attempts := es_Attempts s; es_MaxRetries := es_MaxRetries s; es_TimeoutSeconds := es_TimeoutSeconds s; es_StartedAt := es_StartedAt s;
     es_FinishedAt := es_FinishedAt s; es_Error := es_Error s; es_ResolvedParameters := es_ResolvedParameters s; es_PolicySimulation := es_PolicySimulation s;
     es_AttemptHistory := es_AttemptHistory s; es_Output := v; es_Rollback := es_Rollback s |}.
Definition set_es_rollback (v : RollbackExecutionStep) (s : ExecutionStep) : ExecutionStep :=
  {| es_Order := es_Order s; es_ID := es_ID s; es_Name := es_Name s; es_Action := es_Action s; es_Mutating := es_Mutating s; es_Status := es_Status s;
     es_Attempts := es_Attempts s; es_MaxRetries := es_MaxRetries s; es_TimeoutSeconds := es_TimeoutSeconds s; es_StartedAt := es_StartedAt s;
     es_FinishedAt := es_FinishedAt s; es_Error := es_Error s; es_ResolvedParameters := es_ResolvedParameters s; es_PolicySimulation := es_PolicySimulation s;
     es_AttemptHistory := es_AttemptHistory s; es_Output := es_Output s; es_Rollback := Some v |}.

Definition set_ex_status (v : string) (f : option ExecutionFailure) (x : Execution) : Execution :=
  {| ex_ID := ex_ID x; ex_Metadata := ex_Metadata x; ex_Status := v; ex_StartedAt := ex_StartedAt x; ex_FinishedAt := ex_FinishedAt x;
     ex_ResolvedInputs := ex_ResolvedInputs x; ex_Steps := ex_Steps x; ex_Failure := f; ex_RollbackStatus := ex_RollbackStatus x;
     ex_Rollback := ex_Rollback x; ex_Timeline := ex_Timeline x; ex_Artifacts := ex_Artifacts x |}.
Definition set_ex_finished (v : time) (x : Execution) : Execution :=
  {| ex_ID := ex_ID x; ex_Metadata := ex_Metadata x; ex_Status := ex_Status x; ex_StartedAt := ex_StartedAt x; ex_FinishedAt := Some v;
     ex_ResolvedInputs := ex_ResolvedInputs x; ex_Steps := ex_Steps x; ex_Failure := ex_Failure x; ex_RollbackStatus := ex_RollbackStatus x;
     ex_Rollback := ex_Rollback x; ex_Timeline := ex_Timeline x; ex_Artifacts := ex_Artifacts x |}.
Definition set_ex_steps (f : list ExecutionStep → list ExecutionStep) (x : Execution) : Execution :=
  {| ex_ID := ex_ID x; ex_Metadata := ex_Metadata x; ex_Status := ex_Status x; ex_StartedAt := ex_StartedAt x; ex_FinishedAt := ex_FinishedAt x;
     ex_ResolvedInputs := ex_ResolvedInputs x; ex_Steps := f (ex_Steps x); ex_Failure := ex_Failure x; ex_RollbackStatus := ex_RollbackStatus x;
     ex_Rollback := ex_Rollback x; ex_Timeline := ex_Timeline x; ex_Artifacts := ex_Artifacts x |}.
Definition set_ex_rollback (status : string) (l : list RollbackExecutionStep) (x : Execution) : Execution :=
  {| ex_ID := ex_ID x; ex_Metadata := ex_Metadata x; ex_Status := ex_Status x; ex_StartedAt := ex_StartedAt x; ex_FinishedAt := ex_FinishedAt x;
     ex_ResolvedInputs := ex_ResolvedInputs x; ex_Steps := ex_Steps x; ex_Failure := ex_Failure x; ex_RollbackStatus := status;
     ex_Rollback := l; ex_Timeline := ex_Timeline x; ex_Artifacts := ex_Artifacts x |}.
Definition set_ex_trail (t : list ExecutionTimelineEvent) (a : list ExecutionArtifact) (x : Execution) : Execution :=
  {| ex_ID := ex_ID x; ex_Metadata := ex_Metadata x; ex_Status := ex_Status x; ex_StartedAt := ex_StartedAt x; ex_FinishedAt := ex_FinishedAt x;
     ex_ResolvedInputs := ex_ResolvedInputs x; ex_Steps := ex_Steps x; ex_Failure := ex_Failure x; ex_RollbackStatus := ex_RollbackStatus x;
     ex_Rollback := ex_Rollback x; ex_Timeline := t; ex_Artifacts := a |}.

(** ** Pure helpers *)

Definition stepDecision (c : ExecutionApprovalContext) (stepID : string) : ApprovalDecision_ :=
  default no_decision (lookup_key (TrimSpace stepID) (ac_Steps c)).

Definition evaluateApprovalCheckpoint (a : option ApprovalRequirement) (d : ApprovalDecision_) (scope : string) : option ApprovalCheckpoint :=
  match a with
  | None => None
  | Some a =>
      if negb (ar_Required a) then None
      else
        let minimum := minimum_approvers a in
        let reason :=
          if negb (ad_Approved d) then (scope +:+ " approval required (" +:+ Itoa minimum +:+ " approver minimum)")%string
          else if (0 <? ad_ApproverCount d) && (ad_ApproverCount d <? minimum)
          then (scope +:+ " approval requires " +:+ Itoa minimum +:+ " approvers; got " +:+ Itoa (ad_ApproverCount d))%string
          else if (ad_ApproverCount d =? 0) && (1 <? minimum) then (scope +:+ " approval requires " +:+ Itoa minimum +:+ " approvers")%string
          else ""%string in
        let approved := TrimSpace reason =s "" in
        Some {| ck_Scope := TrimSpace scope; ck_Required := true; ck_MinimumApprovers := minimum; ck_Approved := approved;
                ck_ApproverCount := ad_ApproverCount d; ck_ApprovedBy := ad_ApprovedBy d; ck_Note := TrimSpace (ad_Note d);
                ck_Reason := if approved then "approval requirement satisfied" else reason |}
  end.

(** The ellipsis is three bytes of UTF-8. *)
Definition ellipsis : string :=
  String (Ascii.ascii_of_nat 226) (String (Ascii.ascii_of_nat 128) (String (Ascii.ascii_of_nat 166) "")).
Definition trimSnippet (value : string) : string :=
  let trimmed := TrimSpace value in
  if trimmed =s "" then "" else if Z.of_nat (String.length trimmed) <=? 1024 then trimmed else (take_str 1024 trimmed +:+ ellipsis)%string.

Definition normalizeRetryCount (n : Z) : Z := if n <? 0 then 0 else n.

(** Products of durations wrap around. *)
Definition stepTimeout (seconds : Z) (fallback : duration) : duration :=
  if 0 <? seconds then to_int64 (seconds * Second) else if fallback <=? 0 then 30 * Second else fallback.

(** [int(d.Seconds())] *)
Definition timeoutSeconds (seconds : Z) (fallback : duration) : Z :=
  let d := stepTimeout seconds fallback in
  int64_of_float amd64_overflow (fadd (float64_of_int (Z.quot d Second)) (fdiv (float64_of_int (Z.rem d Second)) (float64_of_int Second))).

Definition readOnlyPrefixes : list string :=
  [ "cat "; "ls"; "find "; "grep "; "head "; "tail "; "stat "; "df"; "du "; "ps"; "top"; "id"; "whoami"; "uname"; "echo "; "printf "; "journalctl";
    "kubectl get"; "kubectl describe"; "systemctl status" ]%string.
Definition mutatingActions : list string :=
  [ ""; "run"; "run_command"; "exec"; "execute"; "apply"; "patch"; "delete"; "create"; "update"; "upload_artifact"; "rollback" ]%string.
Definition readOnlyActions : list string :=
  [ "noop"; "read"; "read_file"; "list"; "list_files"; "get"; "describe"; "status"; "check"; "inventory" ]%string.

Definition isTimeoutError (e : go_error) : bool :=
  if errors_Is e ContextDeadlineExceeded then true else default false (errors_As_timeout e).

Definition buildExecutionReplay (x : Execution) : ExecutionReplay :=
  {| xr_ExecutionID := ex_ID x; xr_Deterministic := true; xr_EventCount := length (ex_Timeline x); xr_ArtifactCount := length (ex_Artifacts x);
     xr_OrderedEventIDs := map tl_ID (ex_Timeline x); xr_FirstTimestamp := tl_Timestamp <$> head (ex_Timeline x);
     xr_LastTimestamp := tl_Timestamp <$> last (ex_Timeline x) |}.

Definition clone_rollback (r : RollbackExecutionStep) : RollbackExecutionStep :=
  {| rx_StepID := rx_StepID r; rx_Action := rx_Action r; rx_Status := rx_Status r; rx_StartedAt := rx_StartedAt r; rx_FinishedAt := rx_FinishedAt r;
     rx_Error := rx_Error r; rx_Output := cloneMap (rx_Output r) |}.
Definition clone_step (s : ExecutionStep) : ExecutionStep :=
  {| es_Order := es_Order s; es_ID := es_ID s; es_Name := es_Name s; es_Action := es_Action s; es_Mutating := es_Mutating s; es_Status := es_Status s;
     es_Attempts := es_Attempts s; es_MaxRetries := es_MaxRetries s; es_TimeoutSeconds := es_TimeoutSeconds s; es_StartedAt := es_StartedAt s;
     es_FinishedAt := es_FinishedAt s; es_Error := es_Error s; es_ResolvedParameters := cloneMap (es_ResolvedParameters s);
     es_PolicySimulation := es_PolicySimulation s; es_AttemptHistory := es_AttemptHistory s; es_Output := cloneMap (es_Output s);
     es_Rollback := clone_rollback <$> es_Rollback s |}.
Definition clone_event (e : ExecutionTimelineEvent) : ExecutionTimelineEvent :=
  {| tl_ID := tl_ID e; tl_Sequence := tl_Sequence e; tl_Timestamp := tl_Timestamp e; tl_Type := tl_Type e; tl_StepID := tl_StepID e;
     tl_Attempt := tl_Attempt e; tl_Status := tl_Status e; tl_Message := tl_Message e; tl_Data := cloneMap (tl_Data e) |}.
Definition clone_artifact (a : ExecutionArtifact) : ExecutionArtifact :=
  {| af_ID := af_ID a; af_EventID := af_EventID a; af_StepID := af_StepID a; af_Attempt := af_Attempt a; af_Type := af_Type a;
     af_Timestamp := af_Timestamp a; af_Data := cloneMap (af_Data a) |}.
Definition cloneExecution (x : Execution) : Execution :=
  {| ex_ID := ex_ID x; ex_Metadata := ex_Metadata x; ex_Status := ex_Status x; ex_StartedAt := ex_StartedAt x; ex_FinishedAt := ex_FinishedAt x;
     ex_ResolvedInputs := cloneMap (ex_ResolvedInputs x); ex_Steps := map clone_step (ex_Steps x); ex_Failure := ex_Failure x;
     ex_RollbackStatus := ex_RollbackStatus x; ex_Rollback := map clone_rollback (ex_Rollback x); ex_Timeline := map clone_event (ex_Timeline x);
     ex_Artifacts := map clone_artifact (ex_Artifacts x) |}.

(** [%06d] *)
Definition pad6 (n : Z) : string := if n <? 1000000 then digits 6 n else Itoa n.

Section text.
Context `{Text}.

Definition commandLooksMutating (command : string) : bool :=
  let text := ToLower (TrimSpace command) in
  if text =s "" then true
  else if existsb (HasPrefix text) readOnlyPrefixes then false
  else
    let params := [("command"%string, VString text)] in
    let st := {| sp_ID := "classify"; sp_Name := ""; sp_Description := ""; sp_Action := text; sp_Parameters := params; sp_Mutating := None;
                 sp_TimeoutSeconds := 0; sp_MaxRetries := 0; sp_Rollback := None; sp_Approval := None; sp_ExpectedOutcomes := [] |} in
    ClassifyRisk (commandPayloadForStep st params 0) <>s "low".

Definition inferStepMutating (st : Step) (params : map_any) (idx : nat) : bool :=
  match sp_Mutating st with
  | Some b => b
  | None =>
      let action := ToLower (TrimSpace (sp_Action st)) in
      if existsb (String.eqb action) mutatingActions
      then if action =s "run_command" then commandLooksMutating (cmd_Command (commandPayloadForStep st params idx)) else true
      else if existsb (String.eqb action) readOnlyActions then false
      else negb (existsb (HasPrefix action) ["read_"; "list_"; "get_"; "describe_"; "check_"]%string)
  end.

(** ** The monad of a run *)

(** What the run asked of its collaborators, with the answers. *)
Inductive pack_event :=
  | Asked (req : PolicySimulationRequest) (answer : PolicySimulation)
  | Called (timeout : duration) (req : ActionRequest) (answer : result (option ActionResult)).

Record run_state := { rn_exec : Execution; rn_ticks : nat; rn_log : list pack_event }.
Definition X (A : Type) : Type := run_state → A * run_state.
#[export] Instance X_ret : MRet X := λ A a s, (a, s).
#[export] Instance X_bind : MBind X := λ A B f m s, let '(a, s1) := m s in f a s1.

Context (clock : nat → time) (simulate : nat → PolicySimulationRequest → PolicySimulation).
Context (act : nat → duration → ActionRequest → result (option ActionResult)).
Context (defaultStepTimeout : duration).

Definition now : X time := λ s, (clock (rn_ticks s), {| rn_exec := rn_exec s; rn_ticks := S (rn_ticks s); rn_log := rn_log s |}).
Definition modify (f : Execution → Execution) : X unit := λ s, (tt, {| rn_exec := f (rn_exec s); rn_ticks := rn_ticks s; rn_log := rn_log s |}).
Definition gets_exec {A} (f : Execution → A) : X A := λ s, (f (rn_exec s), s).
Definition modify_step (idx : nat) (f : ExecutionStep → ExecutionStep) : X unit := modify (set_ex_steps (alter f idx)).

(** A call of the action runner, under a deadline. *)
Definition run_action (timeout : duration) (req : ActionRequest) : X (result (option ActionResult)) := λ s,
  let answer := act (rn_ticks s) timeout req in
  (answer, {| rn_exec := rn_exec s; rn_ticks := S (rn_ticks s); rn_log := rn_log s ++ [Called timeout req answer] |}).
Definition ask_policy (req : PolicySimulationRequest) : X PolicySimulation := λ s,
  let answer := simulate (rn_ticks s) req in
  (answer, {| rn_exec := rn_exec s; rn_ticks := S (rn_ticks s); rn_log := rn_log s ++ [Asked req answer] |}).

(** ** The trail *)

Definition recordTimeline (type stepID : string) (attempt : Z) (status message : string) (timestamp : time) (data : map_any) : X string :=
  timestamp ← (if IsZero timestamp then now else mret timestamp);
  x ← gets_exec id;
  let seq := Z.of_nat (length (ex_Timeline x)) + 1 in
  let eventID := (ex_ID x +:+ "-evt-" +:+ pad6 seq)%string in
  _ ← modify (λ x, set_ex_trail (ex_Timeline x ++ [{| tl_ID := eventID; tl_Sequence := seq; tl_Timestamp := timestamp; tl_Type := TrimSpace type;
                tl_StepID := TrimSpace stepID; tl_Attempt := attempt; tl_Status := TrimSpace status; tl_Message := TrimSpace message;
                tl_Data := cloneMap data |}]) (ex_Artifacts x) x);
  mret eventID.

Definition recordArtifact (eventID stepID : string) (attempt : Z) (type : string) (timestamp : time) (data : map_any) : X unit :=
  timestamp ← (if IsZero timestamp then now else mret timestamp);
  x ← gets_exec id;
  let artifactID := (ex_ID x +:+ "-art-" +:+ pad6 (Z.of_nat (length (ex_Artifacts x)) + 1))%string in
  modify (λ x, set_ex_trail (ex_Timeline x) (ex_Artifacts x ++ [{| af_ID := artifactID; af_EventID := TrimSpace eventID; af_StepID := TrimSpace stepID;
            af_Attempt := attempt; af_Type := TrimSpace type; af_Timestamp := timestamp; af_Data := cloneMap data |}]) x).

Definition when (b : bool) (m : X unit) : X unit := if b then m else mret tt.

Definition captureActionArtifacts (eventID stepID : string) (attempt : Z) (r : option ActionResult) (timestamp : time) : X unit :=
  match r with
  | None => mret tt
  | Some r =>
      let art type data := recordArtifact eventID stepID attempt type timestamp data in
      let stdout := trimSnippet (rr_StdoutSnippet r) in
      let stderr := trimSnippet (rr_StderrSnippet r) in
      let text := TrimSpace (rr_Message r) in
      _ ← when (stdout <>s "") (art ArtifactTypeStdoutSnippet [("snippet", VString stdout)]%string);
      _ ← when (stderr <>s "") (art ArtifactTypeStderrSnippet [("snippet", VString stderr)]%string);
      _ ← when (text <>s "") (art ArtifactTypeActionMessage [("message", VString (trimSnippet text))]%string);
      when (negb (Nat.eqb (length (rr_Artifacts r)) 0)) (art ArtifactTypeActionPayload (cloneMap (rr_Artifacts r)))
  end.

Definition checkpoint_data (c : ApprovalCheckpoint) : map_any :=
  [("scope", VString (ck_Scope c)); ("required", VBool (ck_Required c)); ("minimum_approvers", VInt (ck_MinimumApprovers c));
   ("approved", VBool (ck_Approved c)); ("approver_count", VInt (ck_ApproverCount c)); ("approved_by", VStrings (ck_ApprovedBy c));
   ("note", VString (ck_Note c)); ("reason", VString (ck_Reason c))]%string.

Definition recordApprovalCheckpoint (stepID : string) (c : ApprovalCheckpoint) : X string :=
  let status := if ck_Approved c then "approved"%string else "blocked"%string in
  t ← now;
  eventID ← recordTimeline TimelineEventStepApprovalCheck stepID 0 status (ck_Reason c) t (checkpoint_data c);
  t ← now;
  _ ← recordTimeline TimelineEventStepApprovalResult stepID 0 status (ck_Reason c) t (checkpoint_data c);
  t ← now;
  _ ← recordArtifact eventID stepID 0 ArtifactTypeApproval t (checkpoint_data c);
  mret eventID.

(** ** Ending an execution *)

Section run.
Context (d : Definition_) (inputs : map_any) (approvals : ExecutionApprovalContext).

(** The loop of [markRemainingSkipped] over the steps from [idx] on. *)
Fixpoint skip_from (idx n : nat) : X unit :=
  match n with
  | O => mret tt
  | S n =>
      step ← gets_exec (λ x, ex_Steps x !! idx);
      _ ← match step with
          | Some s =>
              if es_Status s <>s StepStatusPending then mret tt
              else
                t ← now;
                _ ← modify_step idx (λ s, set_es_times (Some t) (Some t) (set_es_status StepStatusSkipped s));
                _ ← recordTimeline TimelineEventStepSkipped (es_ID s) 0 StepStatusSkipped "step skipped" t [];
                mret tt
          | None => mret tt
          end;
      skip_from (S idx) n
  end.
Definition markRemainingSkipped (failed : nat) : X unit :=
  n ← gets_exec (λ x, length (ex_Steps x));
  skip_from (S failed) (n - S failed).

Definition action_request (execID : string) (st : Step) (action : string) (params : map_any) (attempt : Z) (rollback : bool) : ActionRequest :=
  {| rq_Definition := df_Metadata d; rq_ExecutionID := execID; rq_StepID := sp_ID st; rq_Action := action; rq_Parameters := params;
     rq_Inputs := inputs; rq_Attempt := attempt; rq_Rollback := rollback |}.

(** One round of [runRollbackChain]. *)
Definition rollback_step (stepIdx : nat) (st : Step) (h : RollbackHook) : X unit :=
  started ← now;
  startedEventID ← recordTimeline TimelineEventRollbackStarted (sp_ID st) 1 StepStatusRunning "rollback started" started [("action", VString (rh_Action h))]%string;
  execID ← gets_exec ex_ID;
  answer ← run_action (stepTimeout (rh_TimeoutSeconds h) defaultStepTimeout)
             (action_request execID st (rh_Action h) (resolveStepParameters (rh_Parameters h) inputs) 1 true);
  finished ← now;
  let result status error output :=
    {| rx_StepID := sp_ID st; rx_Action := rh_Action h; rx_Status := status; rx_StartedAt := started; rx_FinishedAt := Some finished;
       rx_Error := error; rx_Output := output |} in
  rolled ← match answer with
           | inl e =>
               _ ← modify (λ x, set_ex_rollback RollbackStatusPartial (ex_Rollback x) x);
               _ ← recordArtifact startedEventID (sp_ID st) 1 ArtifactTypeErrorContext finished
                     [("phase", VString "rollback"); ("error", VString (Error e)); ("action", VString (rh_Action h)); ("timeout", VBool (isTimeoutError e))]%string;
               mret (result StepStatusFailed (Error e) [])
           | inr r =>
               _ ← captureActionArtifacts startedEventID (sp_ID st) 1 r finished;
               mret (result StepStatusSucceeded "" (match r with Some r => cloneMap (rr_Output r) | None => [] end))
           end;
  _ ← recordTimeline TimelineEventRollbackFinished (sp_ID st) 1 (rx_Status rolled) (rx_Error rolled) finished [("action", VString (rh_Action h))]%string;
  _ ← modify (λ x, set_ex_rollback (ex_RollbackStatus x) (ex_Rollback x ++ [rolled]) x);
  modify_step stepIdx (set_es_rollback rolled).

(** The loop of [runRollbackChain], over the indexes from the last to the first. *)
Fixpoint rollback_loop (indexes : list nat) : X unit :=
  match indexes with
  | [] => mret tt
  | i :: rest =>
      _ ← match df_Steps d !! i with
          | Some st => match sp_Rollback st with Some h => rollback_step i st h | None => mret tt end
          | None => mret tt
          end;
      rollback_loop rest
  end.

Definition runRollbackChain (succeeded : list nat) : X unit :=
  match succeeded with
  | [] => modify (λ x, set_ex_rollback RollbackStatusNotRequired (ex_Rollback x) x)
  | _ =>
      _ ← modify (λ x, set_ex_rollback RollbackStatusCompleted (ex_Rollback x) x);
      _ ← rollback_loop (rev succeeded);
      modify (λ x, if Nat.eqb (length (ex_Rollback x)) 0 then set_ex_rollback RollbackStatusNotRequired (ex_Rollback x) x else x)
  end.

Definition step_id (idx : nat) : string := match df_Steps d !! idx with Some st => sp_ID st | None => ""%string end.

Definition failure (idx : nat) (category message : string) : option ExecutionFailure :=
  Some {| xf_StepID := step_id idx; xf_Category := category; xf_Message := TrimSpace message |}.

(** What [failExecution] and [blockExecution] share: the steps that are left, the
    rollback and the last event. *)
Definition wind_up (idx : nat) (status message : string) (category : map_any) (succeeded : list nat) : X unit :=
  _ ← markRemainingSkipped idx;
  _ ← runRollbackChain succeeded;
  finished ← now;
  _ ← modify (set_ex_finished finished);
  rollback ← gets_exec ex_RollbackStatus;
  _ ← recordTimeline TimelineEventExecutionFinished "" 0 status message finished (("rollback_status"%string, VString rollback) :: category);
  mret tt.

Definition failExecution (idx : nat) (message : string) (succeeded : list nat) : X unit :=
  _ ← modify (set_ex_status ExecutionStatusFailed (failure idx "execution" message));
  t ← now;
  _ ← recordArtifact "" (step_id idx) 0 ArtifactTypeErrorContext t [("category", VString "execution"); ("message", VString (TrimSpace message))]%string;
  wind_up idx ExecutionStatusFailed message [] succeeded.

Definition blockExecution (idx : nat) (category message : string) (succeeded : list nat) : X unit :=
  finished ← now;
  _ ← modify_step idx (λ s, set_es_finished finished (set_es_error (TrimSpace message) (set_es_status StepStatusBlocked s)));
  blockedEventID ← recordTimeline TimelineEventStepBlocked (step_id idx) 0 StepStatusBlocked message finished [("category", VString category)]%string;
  _ ← recordArtifact blockedEventID (step_id idx) 0 ArtifactTypeErrorContext finished
        [("category", VString category); ("message", VString (TrimSpace message))]%string;
  _ ← modify (set_ex_status ExecutionStatusBlocked (failure idx category message));
  wind_up idx ExecutionStatusBlocked message [("category"%string, VString category)] succeeded.

(** ** One step *)

(** The gate in front of a mutating step: the category and the message it is
    blocked with, if it is. *)
Definition policy_gate (idx : nat) (st : Step) (params : map_any) : X (option (string * string)) :=
  let cmd := commandPayloadForStep st params idx in
  answer ← ask_policy {| pq_Definition := df_Metadata d; pq_Step := st; pq_Command := cmd |};
  let policy := with_defaults answer cmd in
  let policy := set_outcome policy (ToLower (TrimSpace (ps_Outcome policy))) in
  let data := [("outcome", VString (ps_Outcome policy)); ("risk_level", VString (ps_RiskLevel policy)); ("summary", VString (TrimSpace (ps_Summary policy)));
               ("rationale", cloneValue (ps_Rationale policy))]%string in
  _ ← modify_step idx (set_es_policy policy);
  t ← now;
  policyEventID ← recordTimeline TimelineEventStepPolicy (sp_ID st) 0 (ps_Outcome policy) (TrimSpace (ps_Summary policy)) t data;
  t ← now;
  _ ← recordArtifact policyEventID (sp_ID st) 0 ArtifactTypePolicyRationale t data;
  mret (if ps_Outcome policy =s PolicyOutcomeDeny
        then Some ("policy", "step " +:+ sp_ID st +:+ " denied by policy: " +:+ TrimSpace (ps_Summary policy))%string
        else if ps_Outcome policy =s PolicyOutcomeQueue then Some ("policy", "step " +:+ sp_ID st +:+ " requires approval by policy gate")%string
        else None).

Definition approval_gate (st : Step) (c : option ApprovalCheckpoint) : X (option (string * string)) :=
  match c with
  | None => mret None
  | Some c =>
      eventID ← recordApprovalCheckpoint (sp_ID st) c;
      if ck_Approved c then mret None
      else
        t ← now;
        _ ← recordArtifact eventID (sp_ID st) 0 ArtifactTypeErrorContext t
              [("category", VString "approval"); ("scope", VString (ck_Scope c)); ("reason", VString (ck_Reason c))]%string;
        mret (Some ("approval"%string, ck_Reason c))
  end.

Definition workflow_checkpoint : option ApprovalCheckpoint := evaluateApprovalCheckpoint (df_Approval d) (ac_Workflow approvals) "workflow".
Definition step_checkpoint (st : Step) : option ApprovalCheckpoint :=
  evaluateApprovalCheckpoint (sp_Approval st) (stepDecision approvals (sp_ID st)) ("step " +:+ sp_ID st)%string.

Definition gates (idx : nat) (st : Step) (params : map_any) : X (option (string * string)) :=
  blocked ← policy_gate idx st params;
  match blocked with
  | Some why => mret (Some why)
  | None =>
      blocked ← approval_gate st workflow_checkpoint;
      match blocked with Some why => mret (Some why) | None => approval_gate st (step_checkpoint st) end
  end.

Definition attempt_state (attempt : Z) (status : string) (started finished : time) (error : string) : ExecutionStepAttempt :=
  {| at_Attempt := attempt; at_Status := status; at_StartedAt := started; at_FinishedAt := Some finished; at_Error := error |}.

(** The successful end of an attempt, and of its step. *)
Definition attempt_succeeded (idx : nat) (st : Step) (attempt : Z) (started finished : time) (r : option ActionResult) : X unit :=
  _ ← modify_step idx (λ s,
        add_es_attempt attempt (attempt_state attempt StepStatusSucceeded started finished "")
          (match r with Some r => set_es_output (cloneMap (rr_Output r)) | None => λ s, s end (set_es_status StepStatusSucceeded s)));
  eventID ← recordTimeline TimelineEventStepAttemptResult (sp_ID st) attempt StepStatusSucceeded "step attempt succeeded" finished [];
  _ ← captureActionArtifacts eventID (sp_ID st) attempt r finished;
  t ← now;
  _ ← modify_step idx (set_es_finished t);
  _ ← recordTimeline TimelineEventStepFinished (sp_ID st) 0 StepStatusSucceeded "step completed" t [("attempts", VInt attempt)]%string;
  mret tt.

Definition failed_status (e : go_error) : string := if isTimeoutError e then StepStatusTimedOut else StepStatusFailed.

Definition attempt_failed (idx : nat) (st : Step) (attempt : Z) (started finished : time) (e : go_error) : X unit :=
  _ ← modify_step idx (λ s, set_es_error (Error e) (add_es_attempt attempt (attempt_state attempt (failed_status e) started finished (Error e)) s));
  eventID ← recordTimeline TimelineEventStepAttemptResult (sp_ID st) attempt (failed_status e) (Error e) finished [];
  recordArtifact eventID (sp_ID st) attempt ArtifactTypeErrorContext finished
    [("phase", VString "step"); ("error", VString (Error e)); ("timeout", VBool (isTimeoutError e)); ("action", VString (sp_Action st))]%string.

Definition step_failed (idx : nat) (st : Step) (attempt : Z) (e : go_error) : X unit :=
  t ← now;
  _ ← modify_step idx (λ s, set_es_finished t (set_es_status (failed_status e) s));
  _ ← recordTimeline TimelineEventStepFinished (sp_ID st) 0 (failed_status e) (Error e) t [("attempts", VInt attempt)]%string;
  mret tt.

(** How a step ends: it succeeded, it failed, or its loop made no attempt. *)
Inductive step_end := Succeeded | Failed (e : go_error) | NoAttempt.

(** The attempts, [n] of them, starting with number [attempt]. *)
Fixpoint attempts (idx : nat) (st : Step) (params : map_any) (n : nat) (attempt : Z) : X step_end :=
  match n with
  | O => mret NoAttempt
  | S n =>
      started ← now;
      _ ← recordTimeline TimelineEventStepAttemptStarted (sp_ID st) attempt StepStatusRunning "step attempt started" started [];
      execID ← gets_exec ex_ID;
      answer ← run_action (stepTimeout (sp_TimeoutSeconds st) defaultStepTimeout) (action_request execID st (sp_Action st) params attempt false);
      finished ← now;
      match answer with
      | inr r =>
          _ ← attempt_succeeded idx st attempt started finished r;
          mret Succeeded
      | inl e =>
          _ ← attempt_failed idx st attempt started finished e;
          match n with
          | O => _ ← step_failed idx st attempt e; mret (Failed e)
          | S _ => attempts idx st params n (attempt + 1)
          end
      end
  end.

(** [maxAttempts := step.MaxRetries + 1] on 64 bits. *)
Definition max_attempts (st : Step) : nat := Z.to_nat (to_int64 (normalizeRetryCount (sp_MaxRetries st) + 1)).

Definition start_step (idx : nat) (st : Step) (params : map_any) (mutating : bool) : X unit :=
  t ← now;
  _ ← modify_step idx (set_es_start t mutating (cloneMap params));
  _ ← recordTimeline TimelineEventStepStarted (sp_ID st) 0 StepStatusRunning "step started" t
        [("order", VInt (Z.of_nat idx + 1)); ("action", VString (sp_Action st)); ("mutating", VBool mutating)]%string;
  mret tt.

(** The body of the loop over the steps: the indexes that succeeded so far, or
    [None] when the execution is over. *)
Definition run_step (idx : nat) (st : Step) (succeeded : list nat) : X (option (list nat)) :=
  let params := resolveStepParameters (sp_Parameters st) inputs in
  let mutating := inferStepMutating st params idx in
  _ ← start_step idx st params mutating;
  blocked ← (if mutating then gates idx st params else mret None);
  match blocked with
  | Some (category, message) => _ ← blockExecution idx category message succeeded; mret None
  | None =>
      ended ← attempts idx st params (max_attempts st) 1;
      match ended with
      | Succeeded => mret (Some (succeeded ++ [idx]))
      | NoAttempt => mret (Some succeeded)
      | Failed e => _ ← failExecution idx ("step " +:+ sp_ID st +:+ " failed: " +:+ Error e)%string succeeded; mret None
      end
  end.

(** The loop: [true] when every step was passed. *)
Fixpoint run_steps (idx : nat) (steps : list Step) (succeeded : list nat) : X bool :=
  match steps with
  | [] => mret true
  | st :: rest =>
      next ← run_step idx st succeeded;
      match next with None => mret false | Some succeeded => run_steps (S idx) rest succeeded end
  end.

Definition finish_execution : X unit :=
  _ ← modify (λ x, set_ex_status ExecutionStatusSucceeded (ex_Failure x) x);
  t ← now;
  _ ← modify (λ x, set_ex_rollback RollbackStatusNotRequired (ex_Rollback x) (set_ex_finished t x));
  _ ← recordTimeline TimelineEventExecutionFinished "" 0 ExecutionStatusSucceeded "execution completed" t
        [("rollback_status", VString RollbackStatusNotRequired)]%string;
  mret tt.

Definition no_simulation : PolicySimulation := {| ps_Outcome := ""; ps_RiskLevel := ""; ps_Summary := ""; ps_Rationale := VNil |}.

Definition new_step (idx : nat) (st : Step) : ExecutionStep :=
  {| es_Order := Z.of_nat idx + 1; es_ID := sp_ID st; es_Name := sp_Name st; es_Action := sp_Action st; es_Mutating := false; es_Status := StepStatusPending;
     es_Attempts := 0; es_MaxRetries := normalizeRetryCount (sp_MaxRetries st); es_TimeoutSeconds := timeoutSeconds (sp_TimeoutSeconds st) defaultStepTimeout;
     es_StartedAt := None; es_FinishedAt := None; es_Error := ""; es_ResolvedParameters := []; es_PolicySimulation := no_simulation;
     es_AttemptHistory := []; es_Output := []; es_Rollback := None |}.

(** The execution as [Start] creates it.  The steps are filled in after the first
    event. *)
Definition new_execution (execID : string) (started : time) : Execution :=
  {| ex_ID := execID; ex_Metadata := df_Metadata d; ex_Status := ExecutionStatusRunning; ex_StartedAt := started; ex_FinishedAt := None;
     ex_ResolvedInputs := cloneMap inputs; ex_Steps := imap new_step (df_Steps d); ex_Failure := None; ex_RollbackStatus := RollbackStatusNotRequired;
     ex_Rollback := []; ex_Timeline := []; ex_Artifacts := [] |}.

(** [Start] from the first event on. *)
Definition run_execution (started : time) : X unit :=
  _ ← recordTimeline TimelineEventExecutionStarted "" 0 ExecutionStatusRunning "execution started" started
        [("definition_id", VString (md_ID (df_Metadata d))); ("definition_version", VString (md_Version (df_Metadata d)))]%string;
  passed ← run_steps 0 (df_Steps d) [];
  (if passed : bool then finish_execution else mret tt).
End run.
End text.

(** [noopActionRunner] *)
Definition noop_act (_ : nat) (_ : duration) (r : ActionRequest) : result (option ActionResult) :=
  if EqualFold (TrimSpace (rq_Action r)) "noop"
  then inr (Some {| rr_Output := []; rr_Message := "noop action completed"; rr_StdoutSnippet := ""; rr_StderrSnippet := ""; rr_Artifacts := [] |})
  else inl (ErrorString ("no action runner configured for action " +:+ Quote (rq_Action r))%string).
