(* ===== verification/PackStore.v ===== *)
(** * Automation packs: the store, the runtime and the endpoints
    (src/internal/controlplane/automationpacks/store.go, handlers.go, and
    [ExecutionRuntime] of execution.go; the simulator that
    src/internal/controlplane/server/server.go plugs in)

    The state is the table of definitions and the executions in memory.  A call
    that fails with an error of the package returns it as a value. *)
From S2P Require Import Prelude GoStrings GoErrors GoTime Protocol ApprovalQueue CapacityPolicy GoSql GoRuntime PackTypes PackDryRun PackRuntime.
Local Open Scope go_scope.
Local Open Scope Z_scope.

Record PackRow := {
  pr_ID : string;
  pr_Version : string;
  pr_Name : string;
  pr_Description : string;
  pr_Definition : Definition_;
  pr_CreatedAt : time;
  pr_UpdatedAt : time;
}.

Record Packs := { pk_rows : list PackRow; pk_executions : gmap string Execution; pk_sequence : Z }.
Definition set_pk_rows (l : list PackRow) (p : Packs) : Packs :=
  {| pk_rows := l; pk_executions := pk_executions p; pk_sequence := pk_sequence p |}.
Definition set_pk_executions (m : gmap string Execution) (p : Packs) : Packs :=
  {| pk_rows := pk_rows p; pk_executions := m; pk_sequence := pk_sequence p |}.
Definition set_pk_sequence (n : Z) (p : Packs) : Packs :=
  {| pk_rows := pk_rows p; pk_executions := pk_executions p; pk_sequence := n |}.

Definition stamp (d : Definition_) (t : time) : Definition_ :=
  {| df_Metadata := df_Metadata d; df_Inputs := df_Inputs d; df_Approval := df_Approval d; df_Steps := df_Steps d;
     df_ExpectedOutcomes := df_ExpectedOutcomes d; df_CreatedAt := t; df_UpdatedAt := t |}.
Definition pack_row (d : Definition_) (t : time) : PackRow :=
  {| pr_ID := md_ID (df_Metadata d); pr_Version := md_Version (df_Metadata d); pr_Name := md_Name (df_Metadata d);
     pr_Description := md_Description (df_Metadata d); pr_Definition := d; pr_CreatedAt := t; pr_UpdatedAt := t |}.

Definition same_key (id version : string) (r : PackRow) : bool := (pr_ID r =s id) && (pr_Version r =s version).
Definition key_violation : go_error :=
  ErrorString "constraint failed: UNIQUE constraint failed: automation_packs.id, automation_packs.version (1555)".
Definition insert_pack (r : PackRow) (p : Packs) : result unit * Packs :=
  if existsb (same_key (pr_ID r) (pr_Version r)) (pk_rows p) then (inl key_violation, p) else (inr tt, set_pk_rows (pk_rows p ++ [r]) p).

(** [ORDER BY id ASC, version DESC, updated_at DESC] *)
Definition listing_order (a b : PackRow) : bool :=
  if pr_ID a =s pr_ID b
  then if pr_Version a =s pr_Version b then text_le (pr_UpdatedAt b) (pr_UpdatedAt a) else String.leb (pr_Version b) (pr_Version a)
  else String.leb (pr_ID a) (pr_ID b).
Definition latest_first (a b : PackRow) : bool := text_le (pr_UpdatedAt b) (pr_UpdatedAt a).

Definition summary_of (r : PackRow) : DefinitionSummary :=
  {| ds_Metadata := {| md_ID := pr_ID r; md_Name := pr_Name r; md_Version := pr_Version r; md_Description := pr_Description r |};
     ds_InputCount := length (df_Inputs (pr_Definition r)); ds_StepCount := length (df_Steps (pr_Definition r));
     ds_CreatedAt := pr_CreatedAt r; ds_UpdatedAt := pr_UpdatedAt r |}.

Section store.
Context `{Host} `{Text}.
Notation M := (M Packs).
Notation answer A := (M (pack_error + A)) (only parsing).

(** ** Definitions *)

Definition GetDefinition (id version : string) : answer Definition_ :=
  let id := TrimSpace (ToLower id) in
  let version := TrimSpace version in
  if id =s "" then mret (inl ErrNotFound)
  else
    row ← attempt (query (λ p,
      inr (if version =s "" then head (order_by latest_first (List.filter (λ r, pr_ID r =s id) (pk_rows p)))
           else List.find (same_key id version) (pk_rows p))));
    mret match row with
         | inl e => inl (PackError e)
         | inr None => inl ErrNotFound
         | inr (Some r) => inr (pr_Definition r)
         end.

Definition CreateDefinition (d : Definition_) : answer Definition_ :=
  match ValidateDefinition d with
  | inl issues => mret (inl (ValidationError issues))
  | inr d =>
      now ← time_now;
      inserted ← attempt (exec (insert_pack (pack_row (stamp d now) now)));
      match inserted with
      | inl e =>
          mret (inl (if Contains (ToLower (Error e)) "unique" then ErrAlreadyExists
                     else PackError (WrapError ("insert automation pack: " +:+ Error e)%string e)))
      | inr _ => GetDefinition (md_ID (df_Metadata d)) (md_Version (df_Metadata d))
      end
  end.

Definition ListDefinitions : M (list DefinitionSummary) :=
  query (λ p, inr (map summary_of (order_by listing_order (pk_rows p)))).

(** ** The runtime *)

Context (simulate : nat → PolicySimulationRequest → PolicySimulation).
Context (act : nat → duration → ActionRequest → result (option ActionResult)).
Definition defaultStepTimeout : duration := 30 * Second.

(** The sequence is a [uint64]. *)
Definition nextExecutionID : M string :=
  n ← gets (λ p, (pk_sequence p + 1) mod 2 ^ 64);
  _ ← puts (set_pk_sequence n);
  now ← time_now;
  mret ("apexec-" +:+ Itoa now +:+ "-" +:+ Itoa n)%string.

(** Runs an execution on the clock of the host. *)
Definition run_on_host (d : Definition_) (inputs : map_any) (approvals : ExecutionApprovalContext) (execID : string) (started : time)
    : M (Execution * list pack_event) := λ db,
  let '(_, s) := run_execution clock simulate act defaultStepTimeout d inputs approvals started
                   {| rn_exec := new_execution defaultStepTimeout d inputs execID started; rn_ticks := ticks db; rn_log := [] |} in
  (inr (rn_exec s, rn_log s), {| rows := rows db; ticks := rn_ticks s |}).

Definition persistAndClone (x : Execution) : M Execution :=
  let clone := cloneExecution x in
  _ ← puts (λ p, set_pk_executions (<[ex_ID x := clone]> (pk_executions p)) p);
  mret (cloneExecution clone).

(** [Start] returns the execution; the log of its calls comes with it. *)
Definition Start (r : StartExecutionRequest) : answer (Execution * list pack_event) :=
  let definitionID := TrimSpace (ToLower (sr_DefinitionID r)) in
  if definitionID =s "" then mret (inl (ValidationError ["definition id is required"%string]))
  else
    found ← GetDefinition definitionID (TrimSpace (sr_Version r));
    match found with
    | inl e => mret (inl e)
    | inr d =>
        match resolveInputs (df_Inputs d) (sr_Inputs r) with
        | inl e => mret (inl e)
        | inr inputs =>
            started ← time_now;
            execID ← nextExecutionID;
            ran ← run_on_host d inputs (sr_ApprovalContext r) execID started;
            x ← persistAndClone ran.1;
            mret (inr (x, ran.2))
        end
    end.

Definition Get (executionID : string) : answer Execution :=
  let id := TrimSpace executionID in
  if id =s "" then mret (inl ErrExecutionNotFound)
  else x ← gets (λ p, pk_executions p !! id); mret (match x with Some x => inr (cloneExecution x) | None => inl ErrExecutionNotFound end).

Definition from_execution {A} (f : Execution → A) (executionID : string) : answer A :=
  x ← Get executionID; mret (match x with inl e => inl e | inr x => inr (f x) end).
Definition GetTimeline : string → answer (list ExecutionTimelineEvent) := from_execution (λ x, map clone_event (ex_Timeline x)).
Definition GetArtifacts : string → answer (list ExecutionArtifact) := from_execution (λ x, map clone_artifact (ex_Artifacts x)).
Definition GetReplay : string → answer ExecutionReplay := from_execution buildExecutionReplay.

(** ** Endpoints *)

Inductive pack_reply :=
  | PError (status : Z) (code message : string)
  | PCreated (d : Definition_)
  | PListed (l : list DefinitionSummary)
  | PFound (d : Definition_)
  | PDryRun (r : DryRunResult)
  | PStarted (x : Execution)
  | PExecution (x : Execution)
  | PTimeline (executionID : string) (l : list ExecutionTimelineEvent) (r : ExecutionReplay)
  | PArtifacts (executionID : string) (l : list ExecutionArtifact).

Definition validation_text (prefix : string) (issues : list string) : string :=
  match issues with [] => prefix | _ => (prefix +:+ ": " +:+ StringsJoin issues "; ")%string end.
Definition invalid_schema (issues : list string) : pack_reply := PError 400 "invalid_schema" (validation_text "validation failed" issues).
Definition invalid_inputs (issues : list string) : pack_reply := PError 400 "invalid_inputs" (validation_text "input validation failed" issues).

(** A body that does not decode is [None]. *)
Definition HandleCreateDefinition (body : option Definition_) : M pack_reply :=
  match body with
  | None => mret (PError 400 "invalid_request" "invalid request body")
  | Some d =>
      created ← CreateDefinition d;
      mret match created with
           | inr d => PCreated d
           | inl (ValidationError issues) => invalid_schema issues
           | inl ErrAlreadyExists => PError 409 "conflict" "automation pack definition already exists for id/version"
           | inl _ => PError 500 "internal_error" "failed to create automation pack definition"
           end
  end.

Definition HandleListDefinitions : M pack_reply :=
  l ← attempt ListDefinitions;
  mret match l with
       | inr l => PListed l
       | inl _ => PError 500 "internal_error" "failed to list automation pack definitions"
       end.

Definition HandleGetDefinition (id version : string) : M pack_reply :=
  if TrimSpace id =s "" then mret (PError 400 "invalid_request" "automation pack id is required")
  else
    d ← GetDefinition (TrimSpace id) (TrimSpace version);
    mret match d with
         | inr d => PFound d
         | inl ErrNotFound => PError 404 "not_found" "automation pack definition not found"
         | inl _ => PError 500 "internal_error" "failed to load automation pack definition"
         end.

Definition HandleDryRunDefinition (body : option (Definition_ * map_any)) : M pack_reply :=
  mret match body with
       | None => PError 400 "invalid_request" "invalid request body"
       | Some (d, inputs) =>
           match runDryRun simulate d inputs with
           | inr r => PDryRun r
           | inl (ValidationError issues) => invalid_schema issues
           | inl (InputValidationError issues) => invalid_inputs issues
           | inl _ => PError 500 "internal_error" "failed to dry-run automation pack definition"
           end
       end.

(** An empty body decodes to the zero request. *)
Definition HandleStartExecution (id : string) (body : option StartExecutionRequest) : M pack_reply :=
  let definitionID := TrimSpace id in
  if definitionID =s "" then mret (PError 400 "invalid_request" "automation pack id is required")
  else match body with
  | None => mret (PError 400 "invalid_request" "invalid request body")
  | Some r =>
      started ← Start {| sr_DefinitionID := definitionID; sr_Version := sr_Version r; sr_Inputs := sr_Inputs r; sr_ApprovalContext := sr_ApprovalContext r |};
      mret match started with
           | inr (x, _) => PStarted x
           | inl ErrNotFound => PError 404 "not_found" "automation pack definition not found"
           | inl (ValidationError issues) => invalid_schema issues
           | inl (InputValidationError issues) => invalid_inputs issues
           | inl _ => PError 500 "internal_error" "failed to execute automation pack"
           end
  end.

Definition with_execution {A} (executionID what : string) (get : string → answer A) (k : A → M pack_reply) : M pack_reply :=
  if TrimSpace executionID =s "" then mret (PError 400 "invalid_request" "execution id is required")
  else
    a ← get (TrimSpace executionID);
    match a with
    | inr a => k a
    | inl ErrExecutionNotFound => mret (PError 404 "not_found" "automation pack execution not found")
    | inl _ => mret (PError 500 "internal_error" ("failed to load automation pack " +:+ what)%string)
    end.

Definition HandleGetExecution (executionID : string) : M pack_reply :=
  with_execution executionID "execution" Get (λ x, mret (PExecution x)).

Definition filter_field {A} (f : A → string) (value : string) (l : list A) : list A :=
  if value =s "" then l else List.filter (λ x, EqualFold (TrimSpace (f x)) value) l.
Definition filterTimelineByStep (l : list ExecutionTimelineEvent) (stepID : string) := filter_field tl_StepID stepID l.
Definition filterTimelineByType (l : list ExecutionTimelineEvent) (eventType : string) := filter_field tl_Type eventType l.
Definition filterArtifactsByStep (l : list ExecutionArtifact) (stepID : string) := filter_field af_StepID stepID l.
Definition filterArtifactsByType (l : list ExecutionArtifact) (artifactType : string) := filter_field af_Type artifactType l.

Definition HandleGetExecutionTimeline (executionID stepID eventType : string) : M pack_reply :=
  with_execution executionID "timeline" GetTimeline (λ timeline,
    with_execution executionID "replay payload" GetReplay (λ replay,
      mret (PTimeline (TrimSpace executionID)
              (filterTimelineByType (filterTimelineByStep timeline (TrimSpace stepID)) (TrimSpace (ToLower eventType))) replay))).

Definition HandleGetExecutionArtifacts (executionID stepID artifactType : string) : M pack_reply :=
  with_execution executionID "artifacts" GetArtifacts (λ artifacts,
    mret (PArtifacts (TrimSpace executionID)
            (filterArtifactsByType (filterArtifactsByStep artifacts (TrimSpace stepID)) (TrimSpace (ToLower artifactType))))).
End store.

(** The simulator of the server: the command policy, evaluated for no probe in
    particular and for the level observe, if there is an approval service.
    [capacity n] is what the capacity provider answers.  The rationale of the decision
    is a Go struct that is only passed on and shown; it is left out. *)
Definition server_simulate (core : option Service) (capacity : nat → option (result (option CapacitySignals))) (n : nat) (r : PolicySimulationRequest)
    : PolicySimulation :=
  match core with
  | None => {| ps_Outcome := PolicyOutcomeAllow; ps_RiskLevel := ""; ps_Summary := "approval policy engine unavailable; default allow"; ps_Rationale := VNil |}
  | Some core =>
      let d := EvaluateCommandPolicy core (capacity n) (Some (pq_Command r)) CapObserve in
      {| ps_Outcome := d_Outcome d; ps_RiskLevel := d_RiskLevel d; ps_Summary := TrimSpace (ra_Summary (d_Rationale d)); ps_Rationale := VNil |}
  end.
