(* ===== verification/PackSafety.v ===== *)
(** * Automation packs: what an execution does
    (src/internal/controlplane/automationpacks/execution.go)

    The abstract specification is a saga: the steps run in order, each behind its
    gate, up to one that fails or is refused; then the finished ones are undone in
    the reverse order.  The run is related to it by triples over a [view] of its
    state, which leaves the trail out. *)
From S2P Require Import Prelude GoStrings GoErrors GoTime GoFloat Protocol ApprovalQueue PackTypes PackDryRun PackRuntime.
Local Open Scope go_scope.
Local Open Scope Z_scope.

Create HintDb quiet.

(** ** The view and the triples *)

Record View := {
  v_id : string;
  v_status : string;
  v_failure : option ExecutionFailure;
  v_steps : list string;
  v_rollback : string;
  v_rolled : list string;
  v_log : list pack_event;
}.
Definition view (s : run_state) : View :=
  let x := rn_exec s in
  {| v_id := ex_ID x; v_status := ex_Status x; v_failure := ex_Failure x; v_steps := map es_Status (ex_Steps x);
     v_rollback := ex_RollbackStatus x; v_rolled := map rx_StepID (ex_Rollback x); v_log := rn_log s |}.

Definition add_log (l : list pack_event) (v : View) : View :=
  {| v_id := v_id v; v_status := v_status v; v_failure := v_failure v; v_steps := v_steps v; v_rollback := v_rollback v;
     v_rolled := v_rolled v; v_log := v_log v ++ l |}.
Definition mark (idx : nat) (status : string) (v : View) : View :=
  {| v_id := v_id v; v_status := v_status v; v_failure := v_failure v; v_steps := <[idx := status]> (v_steps v); v_rollback := v_rollback v;
     v_rolled := v_rolled v; v_log := v_log v |}.
Definition conclude (status : string) (f : option ExecutionFailure) (v : View) : View :=
  {| v_id := v_id v; v_status := status; v_failure := f; v_steps := v_steps v; v_rollback := v_rollback v; v_rolled := v_rolled v; v_log := v_log v |}.
Definition rolled (status : string) (ids : list string) (v : View) : View :=
  {| v_id := v_id v; v_status := v_status v; v_failure := v_failure v; v_steps := v_steps v; v_rollback := status; v_rolled := v_rolled v ++ ids;
     v_log := v_log v |}.

Definition set_steps (l : list string) (v : View) : View :=
  {| v_id := v_id v; v_status := v_status v; v_failure := v_failure v; v_steps := l; v_rollback := v_rollback v; v_rolled := v_rolled v; v_log := v_log v |}.

Lemma View_eta v :
  v = {| v_id := v_id v; v_status := v_status v; v_failure := v_failure v; v_steps := v_steps v; v_rollback := v_rollback v; v_rolled := v_rolled v;
         v_log := v_log v |}.
Proof. by destruct v. Qed.

Section run.
Context `{Text} (clock : nat → time) (simulate : nat → PolicySimulationRequest → PolicySimulation).
Context (act : nat → duration → ActionRequest → result (option ActionResult)) (defaultStepTimeout : duration).

(** The answers in the log are the collaborators'. *)
Definition honest (l : list pack_event) : Prop :=
  Forall (λ ev, match ev with Asked req answer => ∃ n, answer = simulate n req | Called timeout req answer => ∃ n, answer = act n timeout req end) l.

Definition triple {A} (v : View) (m : X A) (Q : A → View → Prop) : Prop :=
  ∀ s, view s = v → honest (v_log v) → Q (m s).1 (view (m s).2) ∧ honest (v_log (view (m s).2)).
Definition Quiet {A} (m : X A) : Prop := ∀ s, view (m s).2 = view s.

Section rules.
Context {A B : Type}.
Implicit Types (v : View) (m : X A) (f : A → X B).

Lemma triple_bind v m f Q : triple v m (λ a v', triple v' (f a) Q) → triple v (m ≫= f) Q.
Proof.
  intros Hm s Hs Hh. destruct (Hm s Hs Hh) as [Hf Hh']. unfold mbind, X_bind. destruct (m s) as [a s']. exact (Hf s' eq_refl Hh').
Qed.
Lemma triple_ret v (a : A) (Q : A → View → Prop) : Q a v → triple v (mret a) Q.
Proof. intros HQ s <- Hh. by split. Qed.
Lemma triple_quiet v m (Q : A → View → Prop) : Quiet m → (∀ a, Q a v) → triple v m Q.
Proof. intros Hm HQ s <- Hh. rewrite Hm. split; [apply HQ|done]. Qed.
Lemma triple_mono v m (Q R : A → View → Prop) : triple v m Q → (∀ a v', Q a v' → R a v') → triple v m R.
Proof. intros Hm HQR s Hs Hh. destruct (Hm s Hs Hh). split; [by apply HQR|done]. Qed.

Lemma quiet_seq m f : Quiet m → (∀ a, Quiet (f a)) → Quiet (m ≫= f).
Proof. intros Hm Hf s. unfold mbind, X_bind. specialize (Hm s). destruct (m s) as [a s']. rewrite Hf. exact Hm. Qed.
Lemma quiet_pure (a : A) : Quiet (mret a).
Proof. intros s. reflexivity. Qed.
Lemma quiet_gets (f : Execution → A) : Quiet (gets_exec f).
Proof. intros s. reflexivity. Qed.
End rules.
#[local] Hint Resolve quiet_pure quiet_gets : quiet.

Lemma triple_modify v f g Q :
  (∀ s, view {| rn_exec := f (rn_exec s); rn_ticks := rn_ticks s; rn_log := rn_log s |} = g (view s)) → Q tt (g v) → triple v (modify f) Q.
Proof. intros Hf HQ s <- Hh. unfold modify. cbn [fst snd]. split; [rewrite Hf; exact HQ|exact Hh]. Qed.
Lemma triple_gets {A} v (f : Execution → A) (g : View → A) (Q : A → View → Prop) :
  (∀ s, f (rn_exec s) = g (view s)) → Q (g v) v → triple v (gets_exec f) Q.
Proof. intros Hf HQ s <- Hh. unfold gets_exec. cbn [fst snd]. rewrite Hf. by split. Qed.

Lemma statuses_alter f idx steps status :
  (∀ s, es_Status (f s) = status) → map es_Status (alter f idx steps) = <[idx := status]> (map es_Status steps).
Proof.
  intros Hf. revert idx. induction steps as [|s steps IH]; intros [|idx]; try reflexivity; cbn; [by rewrite Hf|].
  f_equal. apply IH.
Qed.
Lemma statuses_keep f idx steps :
  (∀ s, es_Status (f s) = es_Status s) → map es_Status (alter f idx steps) = map es_Status steps.
Proof.
  intros Hf. revert idx. induction steps as [|s steps IH]; intros [|idx]; try reflexivity; cbn; [by rewrite Hf|].
  f_equal. apply IH.
Qed.

Lemma quiet_modify_step idx f : (∀ s, es_Status (f s) = es_Status s) → Quiet (modify_step idx f).
Proof. intros Hf s. unfold modify_step, modify, view. cbn. by rewrite statuses_keep. Qed.
Lemma triple_mark v idx f status (Q : unit → View → Prop) :
  (∀ s, es_Status (f s) = status) → Q tt (mark idx status v) → triple v (modify_step idx f) Q.
Proof. intros Hf HQ. apply (triple_modify _ _ (mark idx status)); [|done]. intros s. unfold view. cbn. by rewrite (statuses_alter _ _ _ status). Qed.

Ltac quiet_step := first
  [ apply quiet_seq; [|intros ?]
  | solve [eauto with quiet]
  | apply quiet_modify_step; intros ?; reflexivity
  | match goal with |- Quiet (if ?b then _ else _) => destruct b | |- Quiet (match ?o with _ => _ end) => destruct o end ].
Ltac quiet := repeat quiet_step.

(** Steps past one quiet operation at the head of a program. *)
Ltac skip := apply triple_bind; (apply triple_quiet; [solve [quiet]|]); intros ?.

(** Computes the view a chain of updates leads to. *)
Ltac normal_view :=
  match goal with
  | |- ?P (add_log ?l ?v) => rewrite (View_eta (add_log l v))
  | |- ?P (rolled ?t ?l ?v) => rewrite (View_eta (rolled t l v))
  | |- mark ?i ?t ?v = _ => rewrite (View_eta (mark i t v))
  end; cbn [v_id v_status v_failure v_steps v_rollback v_rolled v_log rolled add_log conclude mark set_steps].


Lemma quiet_now : Quiet (now clock).
Proof. intros s. reflexivity. Qed.
#[local] Hint Resolve quiet_now : quiet.

Lemma quiet_recordTimeline type stepID attempt status message t data : Quiet (recordTimeline clock type stepID attempt status message t data).
Proof. unfold recordTimeline. quiet. Qed.
Lemma quiet_recordArtifact eventID stepID attempt type t data : Quiet (recordArtifact clock eventID stepID attempt type t data).
Proof. unfold recordArtifact. quiet. Qed.
#[local] Hint Resolve quiet_recordTimeline quiet_recordArtifact : quiet.

Lemma quiet_capture eventID stepID attempt r t : Quiet (captureActionArtifacts clock eventID stepID attempt r t).
Proof. unfold captureActionArtifacts, when. quiet. Qed.
Lemma quiet_recordApproval stepID c : Quiet (recordApprovalCheckpoint clock stepID c).
Proof. unfold recordApprovalCheckpoint. quiet. Qed.
#[local] Hint Resolve quiet_capture quiet_recordApproval : quiet.

Lemma triple_act v timeout req (Q : result (option ActionResult) → View → Prop) :
  (∀ answer, Q answer (add_log [Called timeout req answer] v)) → triple v (run_action act timeout req) Q.
Proof. intros HQ s <- Hh. split; [apply HQ|]. apply Forall_app. split; [exact Hh|]. constructor; [by eexists|constructor]. Qed.
Lemma triple_ask v req (Q : PolicySimulation → View → Prop) :
  (∀ answer, Q answer (add_log [Asked req answer] v)) → triple v (ask_policy simulate req) Q.
Proof. intros HQ s <- Hh. split; [apply HQ|]. apply Forall_app. split; [exact Hh|]. constructor; [by eexists|constructor]. Qed.

Context (d : Definition_) (inputs : map_any) (approvals : ExecutionApprovalContext) (execID : string).

(** ** The saga *)

Notation params st := (resolveStepParameters (sp_Parameters st) inputs).
Definition mutates (idx : nat) (st : Step) : bool := inferStepMutating st (params st) idx.

(** The question put to the policy, and the verdict that is read from the answer. *)
Definition question (idx : nat) (st : Step) : PolicySimulationRequest :=
  {| pq_Definition := df_Metadata d; pq_Step := st; pq_Command := commandPayloadForStep st (params st) idx |}.
Definition verdict (p : PolicySimulation) : string :=
  ToLower (TrimSpace (if ps_Outcome p =s "" then PolicyOutcomeAllow else ps_Outcome p)).
Definition lets_pass (p : PolicySimulation) : Prop := verdict p ≠ PolicyOutcomeDeny ∧ verdict p ≠ PolicyOutcomeQueue.

(** An approval is met when it is not required, or when it was given and the count
    that came with it does not contradict the minimum. *)
Definition approval_met (a : option ApprovalRequirement) (given : ApprovalDecision_) : Prop :=
  match a with
  | Some a =>
      ar_Required a = true →
      ad_Approved given = true ∧ (minimum_approvers a <= ad_ApproverCount given ∨ ad_ApproverCount given < 0 ∨
                                  ad_ApproverCount given = 0 ∧ minimum_approvers a = 1)
  | None => True
  end.
Definition approvals_met (st : Step) : Prop :=
  approval_met (df_Approval d) (ac_Workflow approvals) ∧ approval_met (sp_Approval st) (stepDecision approvals (sp_ID st)).

(** What the gate of a step leaves in the log when it lets the step pass, and when
    it does not. *)
Inductive cleared (idx : nat) (st : Step) : list pack_event → Prop :=
  | cleared_reads : mutates idx st = false → cleared idx st []
  | cleared_mutates p : mutates idx st = true → lets_pass p → approvals_met st → cleared idx st [Asked (question idx st) p].
Inductive refused (idx : nat) (st : Step) : list pack_event → Prop :=
  | refused_step p : mutates idx st = true → ¬ (lets_pass p ∧ approvals_met st) → refused idx st [Asked (question idx st) p].

Definition attempt_call (st : Step) (attempt : Z) (answer : result (option ActionResult)) : pack_event :=
  Called (stepTimeout (sp_TimeoutSeconds st) defaultStepTimeout) (action_request d inputs execID st (sp_Action st) (params st) attempt false) answer.
Definition undo_call (st : Step) (h : RollbackHook) (answer : result (option ActionResult)) : pack_event :=
  Called (stepTimeout (rh_TimeoutSeconds h) defaultStepTimeout)
    (action_request d inputs execID st (rh_Action h) (resolveStepParameters (rh_Parameters h) inputs) 1 true) answer.

(** The calls of attempts that failed with these errors. *)
Definition failures (st : Step) (from : Z) (errors : list go_error) : list pack_event :=
  imap (λ i e, attempt_call st (from + Z.of_nat i) (inl e)) errors.

(** [passed]: some attempts failed and the next one succeeded, within the budget. *)
Definition passed (st : Step) (log : list pack_event) : Prop :=
  ∃ errors r, (length errors < max_attempts st)%nat ∧ log = failures st 1 errors ++ [attempt_call st (1 + Z.of_nat (length errors)) (inr r)].
(** [exhausted]: every attempt of the budget failed, the last one with [e]. *)
Definition exhausted (st : Step) (e : go_error) (log : list pack_event) : Prop :=
  ∃ errors, S (length errors) = max_attempts st ∧ log = failures st 1 (errors ++ [e]).

(** The steps passed from index [idx] on. *)
Inductive ran : nat → list Step → list pack_event → Prop :=
  | ran_nil idx : ran idx [] []
  | ran_step idx st rest gate tries log :
      cleared idx st gate → passed st tries → ran (S idx) rest log → ran idx (st :: rest) (gate ++ tries ++ log).

(** The steps that are undone, with the answers of their hooks. *)
Inductive undone : list Step → list (result (option ActionResult)) → list pack_event → Prop :=
  | undone_nil : undone [] [] []
  | undone_none st rest answers log : sp_Rollback st = None → undone rest answers log → undone (st :: rest) answers log
  | undone_hook st h rest answer answers log :
      sp_Rollback st = Some h → undone rest answers log → undone (st :: rest) (answer :: answers) (undo_call st h answer :: log).

Definition rollback_status (answers : list (result (option ActionResult))) : string :=
  match answers with
  | [] => RollbackStatusNotRequired
  | _ => if forallb (λ a, match a with inr _ => true | inl _ => false end) answers then RollbackStatusCompleted else RollbackStatusPartial
  end.
Definition hooked (steps : list Step) : list Step := List.filter (λ st, set_ (sp_Rollback st)) steps.

Definition succeeded_all (steps : list Step) : list string := replicate (length steps) StepStatusSucceeded.
Definition skipped_all (steps : list Step) : list string := replicate (length steps) StepStatusSkipped.

(** How an execution ends. *)
Inductive saga : View → Prop :=
  | saga_done log :
      ran 0 (df_Steps d) log →
      saga {| v_id := execID; v_status := ExecutionStatusSucceeded; v_failure := None; v_steps := succeeded_all (df_Steps d);
              v_rollback := RollbackStatusNotRequired; v_rolled := []; v_log := log |}
  | saga_failed before st after e gate tries log undo answers message :
      df_Steps d = before ++ st :: after → ran 0 before log → cleared (length before) st gate → exhausted st e tries →
      undone (rev before) answers undo →
      saga {| v_id := execID; v_status := ExecutionStatusFailed;
              v_failure := Some {| xf_StepID := sp_ID st; xf_Category := "execution"; xf_Message := message |};
              v_steps := succeeded_all before ++ failed_status e :: skipped_all after;
              v_rollback := rollback_status answers; v_rolled := map sp_ID (hooked (rev before)); v_log := log ++ gate ++ tries ++ undo |}
  | saga_blocked before st after gate log undo answers category message :
      df_Steps d = before ++ st :: after → ran 0 before log → refused (length before) st gate → undone (rev before) answers undo →
      saga {| v_id := execID; v_status := ExecutionStatusBlocked;
              v_failure := Some {| xf_StepID := sp_ID st; xf_Category := category; xf_Message := message |};
              v_steps := succeeded_all before ++ StepStatusBlocked :: skipped_all after;
              v_rollback := rollback_status answers; v_rolled := map sp_ID (hooked (rev before)); v_log := log ++ gate ++ undo |}.

(** ** The gates *)

Lemma checkpoint_met a given c scope :
  is_space c = false →
  match evaluateApprovalCheckpoint a given (String c scope) with Some k => ck_Approved k = true | None => True end ↔ approval_met a given.
Proof.
  intros Hc. unfold evaluateApprovalCheckpoint, approval_met. destruct a as [a|]; [|done].
  destruct (ar_Required a); cbn -[TrimSpace String.eqb minimum_approvers]; [|by split].
  assert (Hmin : 1 <= minimum_approvers a) by (unfold minimum_approvers; destruct (Z.leb_spec (ar_MinimumApprovers a) 0); lia).
  set (m := minimum_approvers a) in *. clearbody m.
  assert (Hne : ∀ t, TrimSpace (String c scope +:+ t) =s "" = false) by (intros t; apply String.eqb_neq, (TrimSpace_nonempty c (scope +:+ t)), Hc).
  destruct (ad_Approved given); cbn -[TrimSpace String.eqb]; [|rewrite Hne; split; [done|intros HF; by destruct (HF eq_refl)]].
  set (n := ad_ApproverCount given). clearbody n.
  destruct (Z.ltb_spec 0 n), (Z.ltb_spec n m), (Z.eqb_spec n 0), (Z.ltb_spec 1 m); cbn -[TrimSpace String.eqb];
    rewrite ?Hne; split; intros HF; try done; try (intros _; split; [done|lia]); destruct (HF eq_refl) as [_ ?]; lia.
Qed.

Lemma policy_gate_triple v idx st :
  triple v (policy_gate clock simulate d idx st (params st))
    (λ r v', ∃ p, v' = add_log [Asked (question idx st) p] v ∧ (r = None ↔ lets_pass p)).
Proof.
  unfold policy_gate. apply triple_bind, triple_ask. intros p. do 5 skip. apply triple_ret. exists p. split; [done|].
  unfold lets_pass. 
  assert (E : ps_Outcome (set_outcome (with_defaults p (commandPayloadForStep st (params st) idx))
     (ToLower (TrimSpace (ps_Outcome (with_defaults p (commandPayloadForStep st (params st) idx)))))) = verdict p).
  { unfold verdict, with_defaults. cbn. by destruct (ps_Outcome p =s "") eqn:E; cbn; destruct (ps_RiskLevel p =s ""); cbn; rewrite ?E. }
  rewrite E. by split_str; [|split_str]; simplify_eq; naive_solver.
Qed.

Lemma approval_gate_triple v st a given c scope :
  is_space c = false →
  triple v (approval_gate clock st (evaluateApprovalCheckpoint a given (String c scope))) (λ r v', v' = v ∧ (r = None ↔ approval_met a given)).
Proof.
  intros Hc. pose proof (checkpoint_met a given c scope Hc) as Hmet. unfold approval_gate.
  destruct (evaluateApprovalCheckpoint a given (String c scope)) as [k|]; [|apply triple_ret; naive_solver].
  skip. destruct (ck_Approved k); [apply triple_ret; naive_solver|]. do 2 skip. apply triple_ret. naive_solver.
Qed.

Lemma gates_triple v idx st :
  triple v (gates clock simulate d approvals idx st (params st))
    (λ r v', ∃ p, v' = add_log [Asked (question idx st) p] v ∧ (r = None ↔ lets_pass p ∧ approvals_met st)).
Proof.
  unfold gates. eapply triple_bind, triple_mono; [apply policy_gate_triple|]. intros r1 v1 (p & -> & H1).
  destruct r1 as [why|]; [apply triple_ret; exists p; split; [done|]; naive_solver|].
  eapply triple_bind, triple_mono; [by apply approval_gate_triple|]. intros r2 v2 [-> H2].
  destruct r2 as [why|]; [apply triple_ret; exists p; split; [done|]; unfold approvals_met; naive_solver|].
  eapply triple_mono; [by apply approval_gate_triple|]. intros r3 v3 [-> H3]. exists p. split; [done|]. unfold approvals_met. naive_solver.
Qed.

Lemma gate_triple v idx st :
  triple v (if mutates idx st then gates clock simulate d approvals idx st (params st) else mret None)
    (λ r v', ∃ g, v' = add_log g v ∧ match r with None => cleared idx st g | Some _ => refused idx st g end).
Proof.
  destruct (mutates idx st) eqn:Hm.
  - eapply triple_mono; [apply gates_triple|]. intros r v' (p & -> & Hr). eexists. split; [done|].
    destruct r as [why|]; [apply refused_step; [done|]; intros HF; by apply Hr in HF|].
    destruct (proj1 Hr eq_refl). by apply cleared_mutates.
  - apply triple_ret. exists []. split; [|by apply cleared_reads]. by destruct v; unfold add_log; cbn; rewrite app_nil_r.
Qed.

(** ** The attempts *)

Lemma failures_cons st a e errors : failures st a (e :: errors) = attempt_call st a (inl e) :: failures st (a + 1) errors.
Proof.
  unfold failures. rewrite imap_cons. f_equal; [f_equal; lia|]. apply imap_ext. intros i x _. unfold compose. cbn. f_equal. lia.
Qed.

Lemma add_log_app l k v : add_log k (add_log l v) = add_log (l ++ k) v.
Proof. unfold add_log. cbn. by rewrite app_assoc. Qed.

Lemma attempts_triple idx st n a v :
  v_id v = execID →
  triple v (attempts clock act defaultStepTimeout d inputs idx st (params st) n a)
    (λ r v', match r with
             | NoAttempt => n = 0%nat ∧ v' = v
             | Succeeded => ∃ errors r, (length errors < n)%nat ∧
                 v' = mark idx StepStatusSucceeded (add_log (failures st a errors ++ [attempt_call st (a + Z.of_nat (length errors)) (inr r)]) v)
             | Failed e => ∃ errors, S (length errors) = n ∧ v' = mark idx (failed_status e) (add_log (failures st a (errors ++ [e])) v)
             end).
Proof.
  revert a v. induction n as [|n IH]; intros a v Hid; cbn [attempts]; [by apply triple_ret|].
  do 2 skip. apply triple_bind, (triple_gets _ _ v_id); [done|]. rewrite Hid. apply triple_bind, triple_act. intros answer. skip.
  destruct answer as [e|r].
  - assert (Hf : Quiet (attempt_failed clock idx st a a0 a2 e)) by (unfold attempt_failed; quiet).
    apply triple_bind, triple_quiet; [exact Hf|]. intros _. destruct n as [|n].
    + unfold step_failed. apply triple_bind. skip. apply triple_bind, (triple_mark _ _ _ (failed_status e)); [done|]. skip. do 2 apply triple_ret.
      exists []. split; [done|]. rewrite app_nil_l, failures_cons. done.
    + eapply triple_mono; [by apply IH|]. intros [|e'|] v'; [| |by intros []].
      * intros (errors & r & Hl & ->). exists (e :: errors), r. rewrite add_log_app, failures_cons. split; [cbn; lia|].
        cbn [app length]. replace (a + 1 + Z.of_nat (length errors)) with (a + Z.of_nat (S (length errors))) by lia. done.
      * intros (errors & Hl & ->). exists (e :: errors). rewrite add_log_app. cbn [app]. rewrite failures_cons. split; [cbn; lia|done].
  - unfold attempt_succeeded. apply triple_bind. apply triple_bind, (triple_mark _ _ _ StepStatusSucceeded); [by destruct r|]. do 5 skip.
    do 2 apply triple_ret. exists [], r. split; [cbn; lia|]. unfold failures. cbn. by rewrite Z.add_0_r.
Qed.

(** ** The end of a run *)

Lemma triple_gets_any {A} v (f : Execution → A) (Q : A → View → Prop) :
  (∀ s, view s = v → Q (f (rn_exec s)) v) → triple v (gets_exec f) Q.
Proof. intros HQ s Hs Hh. unfold gets_exec. cbn [fst snd]. rewrite Hs. split; [by apply HQ|done]. Qed.

Lemma insert_middle {A} (l k : list A) x y : <[length l := y]> (l ++ x :: k) = l ++ y :: k.
Proof. rewrite <- (Nat.add_0_r (length l)). by rewrite insert_app_r. Qed.

Lemma skip_from_triple pre n v :
  v_steps v = pre ++ replicate n StepStatusPending →
  triple v (skip_from clock (length pre) n) (λ _ v', v' = set_steps (pre ++ replicate n StepStatusSkipped) v).
Proof.
  revert pre v. induction n as [|n IH]; intros pre v Hv; cbn [skip_from].
  - apply triple_ret. change (replicate 0 StepStatusSkipped) with (replicate 0 StepStatusPending). rewrite <- Hv. by destruct v.
  - apply triple_bind, triple_gets_any. intros s <-.
    assert (Hs : map es_Status (ex_Steps (rn_exec s)) !! length pre = Some StepStatusPending).
    { change (map es_Status (ex_Steps (rn_exec s))) with (v_steps (view s)). rewrite Hv. cbn [replicate]. by rewrite list_lookup_middle. }
    rewrite list_lookup_fmap in Hs. destruct (ex_Steps (rn_exec s) !! length pre) as [step|]; [|done].
    injection Hs as ->. cbn [negb String.eqb]. rewrite String.eqb_refl. cbn [negb].
    apply triple_bind. skip. apply triple_bind, (triple_mark _ _ _ StepStatusSkipped); [done|]. skip. apply triple_ret.
    replace (S (length pre)) with (length (pre ++ [StepStatusSkipped])) by (rewrite length_app; cbn; lia).
    eapply triple_mono; [apply IH; cbn [mark v_steps]; rewrite Hv; cbn [replicate]; by rewrite insert_middle, <- app_assoc|].
    intros _ v' ->. unfold set_steps, mark. cbn. by rewrite <- app_assoc.
Qed.

Lemma rollback_step_triple v i st h :
  v_id v = execID →
  triple v (rollback_step clock act defaultStepTimeout d inputs i st h)
    (λ _ v', ∃ answer, v' = rolled (match answer with inl _ => RollbackStatusPartial | inr _ => v_rollback v end) [sp_ID st]
                              (add_log [undo_call st h answer] v)).
Proof.
  intros Hid. unfold rollback_step. do 2 skip. apply triple_bind, (triple_gets _ _ v_id); [done|]. rewrite Hid. apply triple_bind, triple_act.
  intros answer. skip. apply triple_bind. destruct answer as [e|r].
  - apply triple_bind, (triple_modify _ _ (rolled RollbackStatusPartial [])); [intros s; unfold view, rolled; cbn; by rewrite app_nil_r|].
    skip. apply triple_ret. skip. apply triple_bind.
    apply (triple_modify _ _ (λ v, rolled (v_rollback v) [sp_ID st] v)); [intros s; unfold view, rolled; cbn; by rewrite map_app|].
    apply triple_quiet; [quiet|]. intros _. eexists (inl e). unfold rolled. cbn. by rewrite app_nil_r.
  - skip. apply triple_ret. skip. apply triple_bind.
    apply (triple_modify _ _ (λ v, rolled (v_rollback v) [sp_ID st] v)); [intros s; unfold view, rolled; cbn; by rewrite map_app|].
    apply triple_quiet; [quiet|]. intros _. by eexists (inr r).
Qed.

Definition went_well (a : result (option ActionResult)) : bool := match a with inr _ => true | inl _ => false end.

Lemma rollback_loop_triple indexes steps v :
  v_id v = execID → Forall2 (λ i st, df_Steps d !! i = Some st) indexes steps →
  triple v (rollback_loop clock act defaultStepTimeout d inputs indexes)
    (λ _ v', ∃ answers log, undone steps answers log ∧
       v' = rolled (if forallb went_well answers then v_rollback v else RollbackStatusPartial) (map sp_ID (hooked steps)) (add_log log v)).
Proof.
  intros Hid Hall. revert v Hid. induction Hall as [|i st indexes steps Hi _ IH]; intros v Hid; cbn [rollback_loop].
  - apply triple_ret. exists [], []. split; [constructor|]. unfold rolled, add_log. cbn. rewrite !app_nil_r. by destruct v.
  - rewrite Hi. unfold hooked. cbn [List.filter]. destruct (sp_Rollback st) as [h|] eqn:Hh; cbn [set_].
    + eapply triple_bind, triple_mono; [by apply rollback_step_triple|]. intros _ v1 (answer & ->).
      eapply triple_mono; [by apply IH|]. intros _ v2 (answers & log & Hu & ->). exists (answer :: answers), (undo_call st h answer :: log).
      split; [by apply undone_hook|]. unfold rolled, add_log. cbn. rewrite <- !app_assoc. cbn.
      by destruct answer; cbn; [destruct (forallb _ _)|].
    + apply triple_bind, triple_ret. eapply triple_mono; [by apply IH|]. intros _ v2 (answers & log & Hu & ->). exists answers, log.
      split; [by apply undone_none|done].
Qed.

Lemma undone_length steps answers log : undone steps answers log → length answers = length (hooked steps).
Proof. induction 1 as [|st ? ? ? E|st h ? ? ? ? E]; unfold hooked in *; cbn; rewrite ?E; cbn; lia. Qed.

Lemma rollback_chain_triple succeeded before v :
  v_id v = execID → v_rolled v = [] → Forall2 (λ i st, df_Steps d !! i = Some st) succeeded before →
  triple v (runRollbackChain clock act defaultStepTimeout d inputs succeeded)
    (λ _ v', ∃ answers log, undone (rev before) answers log ∧
       v' = rolled (rollback_status answers) (map sp_ID (hooked (rev before))) (add_log log v)).
Proof.
  intros Hid Hrolled Hall. unfold runRollbackChain. destruct Hall as [|i st succeeded before Hi Hall].
  - apply (triple_modify _ _ (rolled RollbackStatusNotRequired [])); [intros s; unfold view, rolled; cbn; by rewrite app_nil_r|].
    exists [], []. split; [constructor|]. unfold add_log. cbn. rewrite app_nil_r. by destruct v.
  - apply triple_bind, (triple_modify _ _ (rolled RollbackStatusCompleted [])); [intros s; unfold view, rolled; cbn; by rewrite app_nil_r|].
    eapply triple_bind, triple_mono.
    { apply (rollback_loop_triple _ (rev (st :: before))); [done|]. rewrite !rev_alt. apply (Forall2_reverse _ (i :: succeeded) (st :: before)). by constructor. }
    intros _ v' (answers & log & Hu & ->). pose proof (undone_length _ _ _ Hu) as Hlen.
    apply (triple_modify _ _ (λ v, if Nat.eqb (length (v_rolled v)) 0 then rolled RollbackStatusNotRequired [] v else v)).
    { intros s. unfold view. cbn. rewrite length_map. destruct (Nat.eqb _ _); [|done]. unfold rolled. cbn. by rewrite app_nil_r. }
    exists answers, log. split; [done|]. unfold rolled, add_log. cbn [v_rolled v_id v_status v_failure v_steps v_rollback v_log].
    rewrite Hrolled. rewrite app_nil_l, app_nil_l, length_map, <- Hlen, app_nil_r.
    destruct answers as [|x answers]; [|done]. cbn. destruct (hooked _); done.
Qed.

Lemma wind_up_triple idx status message category succeeded before pre after v :
  v_id v = execID → v_rolled v = [] → v_steps v = pre ++ replicate (length after) StepStatusPending → length pre = S idx →
  Forall2 (λ i st, df_Steps d !! i = Some st) succeeded before →
  triple v (wind_up clock act defaultStepTimeout d inputs idx status message category succeeded)
    (λ _ v', ∃ answers log, undone (rev before) answers log ∧
       v' = rolled (rollback_status answers) (map sp_ID (hooked (rev before))) (add_log log (set_steps (pre ++ skipped_all after) v))).
Proof.
  intros Hid Hrolled Hsteps Hpre Hall. unfold wind_up, markRemainingSkipped.
  apply triple_bind, triple_bind, (triple_gets _ _ (λ v, length (v_steps v))); [intros s; cbn; by rewrite length_map|].
  rewrite Hsteps, length_app, length_replicate, Hpre. replace (S idx + length after - S idx)%nat with (length after) by lia.
  rewrite <- Hpre. eapply triple_mono; [by apply skip_from_triple|]. intros _ v1 ->.
  eapply triple_bind, triple_mono; [by apply rollback_chain_triple|]. intros _ v2 (answers & log & Hu & ->).
  skip. apply triple_bind, (triple_modify _ _ id); [done|]. do 2 skip. apply triple_ret. by exists answers, log.
Qed.

(** ** The steps *)

(** The state between two steps. *)
Definition progress (before after : list Step) (log : list pack_event) : View :=
  {| v_id := execID; v_status := ExecutionStatusRunning; v_failure := None;
     v_steps := succeeded_all before ++ replicate (length after) StepStatusPending; v_rollback := RollbackStatusNotRequired; v_rolled := [];
     v_log := log |}.

Lemma ran_snoc idx before st log gate tries :
  ran idx before log → cleared (idx + length before) st gate → passed st tries → ran idx (before ++ [st]) (log ++ gate ++ tries).
Proof.
  induction 1 as [idx|idx st' rest g t l Hg Ht _ IH]; cbn; intros Hc Hp.
  - rewrite Nat.add_0_r in Hc. rewrite <- (app_nil_r tries). apply ran_step; [done..|constructor].
  - rewrite <- !app_assoc. constructor; [done..|]. apply IH; [|done]. by rewrite Nat.add_succ_l, <- Nat.add_succ_r.
Qed.

Lemma seq_steps before after :
  df_Steps d = before ++ after → Forall2 (λ i st, df_Steps d !! i = Some st) (seq 0 (length before)) before.
Proof.
  intros ->. apply Forall2_same_length_lookup_2; [by rewrite length_seq|]. intros i k st Hk Hst.
  apply lookup_seq in Hk as [-> _]. by apply lookup_app_l_Some.
Qed.

Lemma step_id_middle before st after : df_Steps d = before ++ st :: after → step_id d (length before) = sp_ID st.
Proof. intros E. unfold step_id. by rewrite E, list_lookup_middle. Qed.

Notation all_attempted := (Forall (λ st, max_attempts st ≠ 0%nat)).

Lemma length_succeeded before : length (succeeded_all before) = length before.
Proof. apply length_replicate. Qed.

Lemma run_step_triple before st after log :
  df_Steps d = before ++ st :: after → max_attempts st ≠ 0%nat → ran 0 before log →
  triple (progress before (st :: after) log)
    (run_step clock simulate act defaultStepTimeout d inputs approvals (length before) st (seq 0 (length before)))
    (λ r v', match r with
             | Some succeeded => succeeded = seq 0 (length (before ++ [st])) ∧ ∃ more, v' = progress (before ++ [st]) after (log ++ more) ∧
                                   ran 0 (before ++ [st]) (log ++ more)
             | None => saga v'
             end).
Proof.
  intros Hd Hmax Hran. unfold run_step. apply triple_bind. unfold start_step. skip.
  apply triple_bind, (triple_mark _ _ _ StepStatusRunning); [done|]. skip. apply triple_ret.
  eapply triple_bind, triple_mono; [apply gate_triple|]. intros r v (gate & -> & Hgate).
  pose proof (length_succeeded before) as Hlen.
  destruct r as [[category message]|].
  - unfold blockExecution. apply triple_bind. skip. apply triple_bind, (triple_mark _ _ _ StepStatusBlocked); [done|]. do 2 skip.
    apply triple_bind, (triple_modify _ _ (conclude ExecutionStatusBlocked (failure d (length before) category message))); [done|].
    eapply triple_mono.
    { eapply (wind_up_triple _ _ _ _ _ before (succeeded_all before ++ [StepStatusBlocked]) after); [done|done| | |by eapply seq_steps].
      - cbn. rewrite <- Hlen, !insert_middle, <- app_assoc. done.
      - rewrite length_app. cbn. lia. }
    intros _ v (answers & undo & Hu & ->). apply triple_ret. unfold failure. rewrite (step_id_middle before st after Hd).
    normal_view. cbn [v_id v_status v_failure v_steps v_rollback v_rolled v_log progress]. rewrite <- !app_assoc. by eapply saga_blocked.
  - eapply triple_bind, triple_mono; [by apply attempts_triple|]. intros [|e|] v.
    + intros (errors & r & Herr & ->). apply triple_ret. split; [by rewrite length_app, seq_app|].
      eexists. split; [|apply (ran_snoc 0); [done|exact Hgate|by exists errors, r]].
      normal_view. cbn [v_id v_status v_failure v_steps v_rollback v_rolled v_log progress]. unfold progress, succeeded_all. rewrite <- !app_assoc. f_equal. rewrite length_app, replicate_add, <- app_assoc.
      cbn [length replicate app]. fold (succeeded_all before). by rewrite <- Hlen, !insert_middle.
    + intros (errors & Herr & ->). unfold failExecution. apply triple_bind.
      apply triple_bind, (triple_modify _ _ (conclude ExecutionStatusFailed (failure d (length before) "execution" ("step " +:+ sp_ID st +:+ " failed: " +:+ Error e)%string))); [done|].
      do 2 skip. eapply triple_mono.
      { eapply (wind_up_triple _ _ _ _ _ before (succeeded_all before ++ [failed_status e]) after); [done|done| | |by eapply seq_steps].
        - cbn. rewrite <- Hlen, !insert_middle, <- app_assoc. done.
        - rewrite length_app. cbn. lia. }
      intros _ v (answers & undo & Hu & ->). apply triple_ret. unfold failure. rewrite (step_id_middle before st after Hd).
      normal_view. cbn [v_id v_status v_failure v_steps v_rollback v_rolled v_log progress]. rewrite <- !app_assoc. eapply saga_failed; [done..| |done]. by exists errors.
    + intros [HF _]. by rewrite HF in Hmax.
Qed.

Lemma run_steps_triple before after log :
  df_Steps d = before ++ after → all_attempted after → ran 0 before log →
  triple (progress before after log)
    (run_steps clock simulate act defaultStepTimeout d inputs approvals (length before) after (seq 0 (length before)))
    (λ b v', if b : bool then ∃ log', v' = progress (df_Steps d) [] log' ∧ ran 0 (df_Steps d) log' else saga v').
Proof.
  revert before log. induction after as [|st after IH]; intros before log Hd Hall Hran; cbn [run_steps].
  - apply triple_ret. exists log. rewrite app_nil_r in Hd. by rewrite Hd.
  - apply Forall_cons in Hall as [Hst Hall]. eapply triple_bind, triple_mono; [by apply run_step_triple|].
    intros [succeeded|] v; [|by intros; apply triple_ret]. intros (-> & more & -> & Hran').
    replace (S (length before)) with (length (before ++ [st])) by (rewrite length_app; cbn; lia).
    apply IH; [|done..]. by rewrite <- app_assoc.
Qed.

Lemma map_imap_const {B} (f : nat → Step → B) (g : B → string) c l : (∀ i st, g (f i st) = c) → map g (imap f l) = replicate (length l) c.
Proof.
  intros Hc. revert f Hc. induction l as [|x l IH]; intros f Hc; [done|]. rewrite imap_cons. cbn. rewrite Hc. f_equal. apply IH. intros i st. apply Hc.
Qed.

(** From a fresh execution, the run is a saga. *)
Lemma run_execution_saga started ticks :
  all_attempted (df_Steps d) →
  let s := (run_execution clock simulate act defaultStepTimeout d inputs approvals started
              {| rn_exec := new_execution defaultStepTimeout d inputs execID started; rn_ticks := ticks; rn_log := [] |}).2 in
  saga (view s) ∧ honest (rn_log s).
Proof.
  intros Hall s.
  assert (Ht : triple (progress [] (df_Steps d) []) (run_execution clock simulate act defaultStepTimeout d inputs approvals started) (λ _ v, saga v)).
  - unfold run_execution. skip. eapply triple_bind, triple_mono; [apply (run_steps_triple [] (df_Steps d) []); [done..|constructor]|].
    intros [|] v; [|by intros; apply triple_ret]. intros (log & -> & Hran). unfold finish_execution.
    apply triple_bind, (triple_modify _ _ (λ v, conclude ExecutionStatusSucceeded (v_failure v) v)); [done|]. skip.
    apply triple_bind, (triple_modify _ _ (rolled RollbackStatusNotRequired [])); [intros s1; unfold view, rolled; cbn; by rewrite app_nil_r|].
    skip. apply triple_ret. unfold rolled, conclude, progress. cbn. rewrite app_nil_r. by apply saga_done.
  - refine (Ht _ _ ltac:(constructor)). unfold view, progress. cbn. f_equal. by apply map_imap_const.
Qed.

(** ** What precedes a call *)

(** The request [req] is made, after the calls [l], for the step [st] at index [k]:
    its gate let it pass and its earlier attempts failed. *)
Definition due (k : nat) (st : Step) (req : ActionRequest) (l : list pack_event) : Prop :=
  (∃ attempt, req = action_request d inputs execID st (sp_Action st) (params st) attempt false ∧
     1 <= attempt <= Z.of_nat (max_attempts st) ∧ ∀ n, 1 <= n < attempt → ∃ e, attempt_call st n (inl e) ∈ l) ∧
  (mutates k st = true → approvals_met st ∧ ∃ p, lets_pass p ∧ Asked (question k st) p ∈ l).

Definition finished (st : Step) (l : list pack_event) : Prop := ∃ n r, attempt_call st n (inr r) ∈ l.

Lemma due_app k st req l1 l2 : due k st req l2 → due k st req (l1 ++ l2).
Proof.
  intros [(a & -> & Ha & Hn) Hg]. split.
  - exists a. split_and!; [done|lia..|]. intros n Hlt. destruct (Hn n Hlt) as [e He]. exists e. apply elem_of_app. by right.
  - intros Hm. destruct (Hg Hm) as (Hmet & p & Hp & Hin). split; [done|]. exists p. split; [done|]. apply elem_of_app. by right.
Qed.
Lemma finished_app st l1 l2 : finished st l1 ∨ finished st l2 → finished st (l1 ++ l2).
Proof. intros [(n & r & Hin)|(n & r & Hin)]; exists n, r; apply elem_of_app; naive_solver. Qed.

Lemma failures_lookup st a errors i ev :
  failures st a errors !! i = Some ev ↔ ∃ e, errors !! i = Some e ∧ ev = attempt_call st (a + Z.of_nat i) (inl e).
Proof. unfold failures. rewrite list_lookup_imap. destruct (errors !! i) as [e|]; cbn; naive_solver. Qed.
Lemma length_failures st a errors : length (failures st a errors) = length errors.
Proof. apply length_imap. Qed.

(** The attempts in a run of failures that one more answer may follow. *)
Lemma tries_due k st gate errors last i t req answer :
  cleared k st gate → (length errors < max_attempts st)%nat →
  (failures st 1 errors ++ [attempt_call st (1 + Z.of_nat (length errors)) last]) !! i = Some (Called t req answer) →
  due k st req (gate ++ take i (failures st 1 errors ++ [attempt_call st (1 + Z.of_nat (length errors)) last])).
Proof.
  intros Hgate Hlen Hi. set (tries := failures st 1 errors ++ _) in *.
  assert (Hlt : (i <= length errors)%nat).
  { apply lookup_lt_Some in Hi. unfold tries in Hi. rewrite length_app, length_failures in Hi. cbn in Hi. lia. }
  split.
  - exists (1 + Z.of_nat i). split_and!; [|lia..|].
    + unfold tries in Hi. destruct (decide (i = length errors)) as [->|Hne].
      * rewrite lookup_app_r, length_failures, Nat.sub_diag in Hi by (rewrite length_failures; lia). by injection Hi.
      * rewrite lookup_app_l in Hi by (rewrite length_failures; lia). apply failures_lookup in Hi as (e & _ & Hev). by injection Hev.
    + intros n Hn. destruct (lookup_lt_is_Some_2 errors (Z.to_nat (n - 1))) as [e He]; [lia|]. exists e. apply elem_of_app. right.
      apply (list_elem_of_lookup_2 _ (Z.to_nat (n - 1))). rewrite lookup_take_lt by lia. unfold tries.
      rewrite lookup_app_l by (rewrite length_failures; lia). apply failures_lookup. exists e. split; [done|]. f_equal. lia.
  - intros Hm. destruct Hgate as [Hr|p _ Hp Hmet]; [congruence|]. split; [done|]. exists p. split; [done|]. apply elem_of_app. left. by left.
Qed.

Lemma cleared_no_call k st gate i t req answer : cleared k st gate → gate !! i ≠ Some (Called t req answer).
Proof. intros [|]; [done|]. by destruct i. Qed.

Lemma ran_due idx steps log :
  ran idx steps log → ∀ i t req answer, log !! i = Some (Called t req answer) →
  ∃ k st, steps !! k = Some st ∧ due (idx + k) st req (take i log) ∧ ∀ j st', (j < k)%nat → steps !! j = Some st' → finished st' (take i log).
Proof.
  induction 1 as [|idx st rest gate tries log Hgate Htries _ IH]; intros i t req answer Hi; [done|].
  apply lookup_app_Some in Hi as [Hi|[Hge Hi]]; [by eapply cleared_no_call in Hi|].
  rewrite take_app_ge by done. set (i1 := (i - length gate)%nat) in *. clearbody i1.
  apply lookup_app_Some in Hi as [Hi|[Hge1 Hi]].
  - exists 0%nat, st. split; [done|]. rewrite Nat.add_0_r. split; [|lia].
    rewrite take_app_le by (apply lookup_lt_Some in Hi; lia). destruct Htries as (errors & r & Hlen & ->). by eapply tries_due.
  - rewrite take_app_ge by done. destruct (IH _ _ _ _ Hi) as (k & st' & Hk & Hdue & Hfin). exists (S k), st'.
    split; [done|]. rewrite Nat.add_succ_r. split; [by apply due_app, due_app|]. intros [|j] st'' Hj Hst.
    + injection Hst as ->. apply finished_app. right. apply finished_app. left. destruct Htries as (errors & r & _ & ->).
      eexists _, r. apply elem_of_app. right. by left.
    + apply finished_app. right. apply finished_app. right. eapply Hfin; [|done]. lia.
Qed.

Lemma ran_finished idx steps log : ran idx steps log → ∀ st, st ∈ steps → finished st log.
Proof.
  induction 1 as [|idx st rest gate tries log _ Htries _ IH]; intros st' Hst; [by apply not_elem_of_nil in Hst|].
  apply finished_app. right. apply finished_app. apply elem_of_cons in Hst as [->|Hst]; [left|right; by apply IH].
  destruct Htries as (errors & r & _ & ->). eexists _, r. apply elem_of_app. right. by left.
Qed.

Lemma undone_rollback steps answers log i t req answer :
  undone steps answers log → log !! i = Some (Called t req answer) →
  ∃ st h, st ∈ steps ∧ sp_Rollback st = Some h ∧ Called t req answer = undo_call st h answer.
Proof.
  intros Hu. revert i. induction Hu as [|st rest answers log _ _ IH|st h rest a answers log Hh _ IH]; intros i Hi; [done| |].
  - destruct (IH i Hi) as (st' & h & Hin & Hrest). exists st', h. split; [by right|done].
  - destruct i as [|i]; [injection Hi as <- <- <-; exists st, h; split; [by left|done]|].
    destruct (IH i Hi) as (st' & h' & Hin & Hrest). exists st', h'. split; [by right|done].
Qed.
Lemma undone_no_forward steps answers log i t req answer :
  undone steps answers log → log !! i = Some (Called t req answer) → rq_Rollback req = true.
Proof. intros Hu Hi. destruct (undone_rollback _ _ _ _ _ _ _ Hu Hi) as (st & h & _ & _ & E). by injection E as -> ->. Qed.

Lemma ran_prefix_due before rest log more i t req answer :
  ran 0 before log → log !! i = Some (Called t req answer) →
  ∃ k st, (before ++ rest) !! k = Some st ∧ due k st req (take i (log ++ more)) ∧
    ∀ j st', (j < k)%nat → (before ++ rest) !! j = Some st' → finished st' (take i (log ++ more)).
Proof.
  intros Hran Hi. rewrite take_app_le by (apply lookup_lt_Some in Hi; lia). eapply ran_due in Hi as (k & st & Hk & Hdue & Hfin); [|done].
  exists k, st. split; [by apply lookup_app_l_Some|]. split; [done|]. intros j st' Hj Hst. apply (Hfin j); [done|].
  apply lookup_lt_Some in Hk. by rewrite lookup_app_l in Hst by lia.
Qed.

Lemma saga_due v i t req answer :
  saga v → v_log v !! i = Some (Called t req answer) → rq_Rollback req = false →
  ∃ k st, df_Steps d !! k = Some st ∧ due k st req (take i (v_log v)) ∧
    ∀ j st', (j < k)%nat → df_Steps d !! j = Some st' → finished st' (take i (v_log v)).
Proof.
  intros Hs Hi Hreq. destruct Hs as [log Hran|before st after e gate tries log undo answers m Hd Hran Hgate Htries Hundo
                                    |before st after gate log undo answers c m Hd Hran Hgate Hundo]; cbn [v_log] in *.
  - exact (ran_due _ _ _ Hran _ _ _ _ Hi).
  - rewrite Hd. apply lookup_app_Some in Hi as [Hi|[Hge Hi]]; [by eapply ran_prefix_due|].
    rewrite take_app_ge by done. apply lookup_app_Some in Hi as [Hi|[Hge1 Hi]]; [by eapply cleared_no_call in Hi|].
    rewrite take_app_ge by done. apply lookup_app_Some in Hi as [Hi|[_ Hi]]; [|eapply undone_no_forward in Hi; [congruence|done]].
    exists (length before), st. split; [by rewrite list_lookup_middle|]. split.
    + apply due_app. rewrite take_app_le by (apply lookup_lt_Some in Hi; lia).
      destruct Htries as (errors & Hlen & Htries). unfold failures in Htries. rewrite imap_app in Htries. cbn in Htries.
      rewrite Nat.add_0_r in Htries. rewrite Htries in *. eapply (tries_due _ _ _ _ (inl e)); [done|lia|done].
    + intros j st' Hj Hst. apply finished_app. left. eapply ran_finished; [done|].
      rewrite lookup_app_l in Hst by lia. by eapply list_elem_of_lookup_2.
  - rewrite Hd. apply lookup_app_Some in Hi as [Hi|[Hge Hi]]; [by eapply ran_prefix_due|].
    apply lookup_app_Some in Hi as [Hi|[_ Hi]]; [|eapply undone_no_forward in Hi; [congruence|done]].
    destruct Hgate as [p _ _]. by destruct (i - length log)%nat.
Qed.
End run.
