(* ===== verification/PackValidation.v ===== *)
(** * Automation packs: what validation accepts
    (src/internal/controlplane/automationpacks/validation.go)

    [well_formed] says what a definition has to be, without the messages; the
    validation accepts exactly the definitions that are well formed once
    normalised. *)
From Stdlib Require Import SpecFloat.
From S2P Require Import Prelude GoStrings GoErrors GoTime GoFloat PackTypes.
Local Open Scope go_scope.
Local Open Scope Z_scope.

(** ** Lists of issues *)

Lemma issue_if_nil b m : issue_if b m = [] ↔ b = false.
Proof. by destruct b. Qed.
Lemma concat_imap_nil {A B} (f : nat → A → list B) (P : A → Prop) l :
  (∀ i x, f i x = [] ↔ P x) → concat (imap f l) = [] ↔ Forall P l.
Proof.
  intros Hf. revert f Hf. induction l as [|x l IH]; intros f Hf; [by split|]. rewrite imap_cons. cbn. rewrite app_nil, Forall_cons, Hf.
  by rewrite (IH (f ∘ S) (λ i, Hf (S i))).
Qed.
Lemma existsb_elem x l : existsb (String.eqb x) l = true ↔ x ∈ l.
Proof. rewrite existsb_exists. setoid_rewrite String.eqb_eq. setoid_rewrite <- list_elem_of_In. naive_solver. Qed.
Lemma existsb_not_elem x l : existsb (String.eqb x) l = false ↔ x ∉ l.
Proof. rewrite <- existsb_elem. by destruct (existsb _ _). Qed.

(** ** Well-formed definitions *)

Definition sign_ok (o : option Z) : Prop := ∀ n, o = Some n → 0 <= n.
Definition order_ok (a b : option Z) : Prop := ∀ lo hi, a = Some lo → b = Some hi → lo <= hi.

Definition approval_ok (a : option ApprovalRequirement) : Prop :=
  ∀ r, a = Some r →
    0 <= ar_MinimumApprovers r ∧ (ar_Required r = true → 1 <= ar_MinimumApprovers r) ∧
    (ar_ApproverRoles r ≠ [] → ar_MinimumApprovers r <= Z.of_nat (length (ar_ApproverRoles r))).

Section text.
Context `{Text}.

Definition no_text (c : InputConstraints) : Prop := ic_MinLength c = None ∧ ic_MaxLength c = None ∧ ic_Pattern c = "".
Definition no_numbers (c : InputConstraints) : Prop := ic_Minimum c = None ∧ ic_Maximum c = None.
Definition no_items (c : InputConstraints) : Prop := ic_MinItems c = None ∧ ic_MaxItems c = None.

(** The constraints that a type allows. *)
Inductive constraints_fit : string → InputConstraints → Prop :=
  | fit_string c :
      sign_ok (ic_MinLength c) → sign_ok (ic_MaxLength c) → order_ok (ic_MinLength c) (ic_MaxLength c) →
      (ic_Pattern c ≠ "" → is_Some (regexp_MatchString (ic_Pattern c) "")) → no_numbers c → no_items c → constraints_fit InputTypeString c
  | fit_number t c :
      t = InputTypeNumber ∨ t = InputTypeInteger →
      (∀ lo hi, ic_Minimum c = Some lo → ic_Maximum c = Some hi → SFltb hi lo = false) → no_text c → no_items c → constraints_fit t c
  | fit_plain t c : t = InputTypeBoolean ∨ t = InputTypeObject → no_text c → no_numbers c → no_items c → constraints_fit t c
  | fit_array c :
      sign_ok (ic_MinItems c) → sign_ok (ic_MaxItems c) → order_ok (ic_MinItems c) (ic_MaxItems c) → no_text c → no_numbers c →
      constraints_fit InputTypeArray c.

Definition input_ok (i : Input) : Prop :=
  in_Name i ≠ "" ∧ constraints_fit (in_Type i) (in_Constraints i) ∧
  (in_Default i ≠ VNil → valueMatchesType (in_Default i) (in_Type i) = true) ∧
  Forall (λ v, valueMatchesType v (in_Type i) = true) (ic_Enum (in_Constraints i)).

Definition hook_ok (h : option RollbackHook) : Prop := ∀ r, h = Some r → rh_Action r ≠ "" ∧ 0 <= rh_TimeoutSeconds r.
Definition outcome_ok (ids : list string) (o : ExpectedOutcome) : Prop :=
  eo_Description o ≠ "" ∧ eo_SuccessCriteria o ≠ "" ∧ (eo_StepID o ≠ "" → eo_StepID o ∈ ids).
Definition step_ok (st : Step) : Prop :=
  sp_ID st ≠ "" ∧ sp_Action st ≠ "" ∧ approval_ok (sp_Approval st) ∧ 0 <= sp_TimeoutSeconds st ∧ 0 <= sp_MaxRetries st ∧ hook_ok (sp_Rollback st).

Record well_formed (d : Definition_) : Prop := {
  wf_id : definitionIDPattern (md_ID (df_Metadata d)) = true;
  wf_name : md_Name (df_Metadata d) ≠ "";
  wf_version : semverPattern (md_Version (df_Metadata d)) = true;
  wf_approval : approval_ok (df_Approval d);
  wf_input_names : NoDup (map in_Name (df_Inputs d));
  wf_inputs : Forall input_ok (df_Inputs d);
  wf_nonempty : df_Steps d ≠ [];
  wf_step_ids : NoDup (map sp_ID (df_Steps d));
  wf_steps : Forall step_ok (df_Steps d);
  wf_outcomes : Forall (outcome_ok (map sp_ID (df_Steps d))) (df_ExpectedOutcomes d ++ mjoin (map sp_ExpectedOutcomes (df_Steps d)));
  wf_some_outcome : df_ExpectedOutcomes d ++ mjoin (map sp_ExpectedOutcomes (df_Steps d)) ≠ [];
}.

(** ** The parts *)

Lemma negative_ok o : negative o = false ↔ sign_ok o.
Proof. unfold negative, sign_ok. destruct o as [n|]; [rewrite Z.ltb_ge; naive_solver|naive_solver]. Qed.
Lemma below_ok a b : below a b = false ↔ order_ok a b.
Proof. unfold below, order_ok. destruct a as [lo|], b as [hi|]; [rewrite Z.ltb_ge; naive_solver|naive_solver..]. Qed.
Lemma set_false {A} (o : option A) : set_ o = false ↔ o = None.
Proof. by destruct o. Qed.
Lemma text_constraints_ok c : text_constraints c = false ↔ no_text c.
Proof. unfold text_constraints, no_text. rewrite !orb_false_iff, !set_false, negb_false_iff, String.eqb_eq. tauto. Qed.
Lemma number_constraints_ok c : number_constraints c = false ↔ no_numbers c.
Proof. unfold number_constraints, no_numbers. by rewrite orb_false_iff, !set_false. Qed.
Lemma item_constraints_ok c : item_constraints c = false ↔ no_items c.
Proof. unfold item_constraints, no_items. by rewrite orb_false_iff, !set_false. Qed.

Lemma validateApproval_ok path a : validateApproval path a = [] ↔ approval_ok a.
Proof.
  unfold validateApproval, approval_ok. destruct a as [r|]; [|naive_solver].
  set (n := ar_MinimumApprovers r). set (k := length (ar_ApproverRoles r)).
  assert (Hk : ar_ApproverRoles r ≠ [] ↔ 0 < Z.of_nat k) by (unfold k; destruct (ar_ApproverRoles r); cbn; split; [done|lia|lia|done]).
  destruct (Z.ltb_spec n 0); [split; [done|intros Hr; destruct (Hr r eq_refl); lia]|].
  destruct (ar_Required r) eqn:Hr; cbn; [destruct (Z.eqb_spec n 0); cbn|].
  1: { split; [done|]. intros HF. destruct (HF r eq_refl) as (_ & HF' & _). specialize (HF' Hr). lia. }
  all: destruct (Z.ltb_spec 0 n), (Z.ltb_spec 0 (Z.of_nat k)), (Z.ltb_spec (Z.of_nat k) n); cbn;
    (split; [intros E; first [discriminate E|intros ? [= <-]; split_and!; [lia|intros; first [congruence|lia]|rewrite Hk; lia]]
            |intros HF; first [done|exfalso; destruct (HF r eq_refl) as (_ & _ & HF'); rewrite Hk in HF'; lia]]).
Qed.

(** Decides the comparisons between constants. *)
Ltac eval_types := repeat match goal with
  | |- context [String.eqb ?a ?b] =>
      match eval compute in (String.eqb a b) with true => change (String.eqb a b) with true | false => change (String.eqb a b) with false end
  end; cbn [orb negb].

Lemma compiles_ok c : (ic_Pattern c <>s "") && negb (compiles (ic_Pattern c)) = false ↔ (ic_Pattern c ≠ "" → is_Some (regexp_MatchString (ic_Pattern c) "")).
Proof.
  unfold compiles. destruct (String.eqb_spec (ic_Pattern c) ""); cbn; [naive_solver|]. rewrite negb_false_iff.
  destruct (regexp_MatchString _ _); cbn; [naive_solver|]. split; [done|]. intros HF. by destruct (HF n).
Qed.

Lemma constraint_issues_ok path t c : isSupportedInputType t = true ∧ constraint_issues path t c = [] ↔ constraints_fit t c.
Proof.
  assert (Hall : isSupportedInputType t = true → t ∈ [InputTypeString; InputTypeNumber; InputTypeInteger; InputTypeBoolean; InputTypeArray; InputTypeObject]).
  { unfold isSupportedInputType. rewrite !orb_true_iff, !String.eqb_eq. set_solver. }
  unfold constraint_issues. split.
  - intros [Hs HF]. apply Hall in Hs. rewrite !elem_of_cons, elem_of_nil in Hs. revert HF.
    destruct Hs as [->|[->|[->|[->|[->|[->|[]]]]]]]; eval_types; rewrite ?app_nil, ?issue_if_nil, ?orb_false_iff, ?negative_ok, ?below_ok,
      ?text_constraints_ok, ?number_constraints_ok, ?item_constraints_ok, ?compiles_ok.
    + intros (? & ? & ? & ? & ? & ?). by apply fit_string.
    + intros (Hm & ? & ?). apply fit_number; [by left| |done..]. intros lo hi E1 E2. by rewrite E1, E2 in Hm.
    + intros (Hm & ? & ?). apply fit_number; [by right| |done..]. intros lo hi E1 E2. by rewrite E1, E2 in Hm.
    + intros [[? ?] ?]. apply fit_plain; [by left|done..].
    + intros (? & ? & ? & ? & ?). by apply fit_array.
    + intros [[? ?] ?]. apply fit_plain; [by right|done..].
  - intros [c' ? ? ? ? ? ?|t' c' Ht Hm ? ?|t' c' Ht ? ? ?|c' ? ? ? ? ?]; [|destruct Ht as [->| ->]|destruct Ht as [->| ->]|]; (split; [reflexivity|]);
      eval_types; rewrite ?app_nil, ?issue_if_nil, ?orb_false_iff, ?negative_ok, ?below_ok, ?text_constraints_ok, ?number_constraints_ok,
      ?item_constraints_ok, ?compiles_ok; split_and!; try done.
    all: destruct (ic_Minimum c') as [lo|], (ic_Maximum c') as [hi|]; try done; by apply (Hm lo hi).
Qed.

Lemma validateInputConstraints_ok path i :
  isSupportedInputType (in_Type i) = true ∧ validateInputConstraints path i = [] ↔
  constraints_fit (in_Type i) (in_Constraints i) ∧ (in_Default i ≠ VNil → valueMatchesType (in_Default i) (in_Type i) = true) ∧
  Forall (λ v, valueMatchesType v (in_Type i) = true) (ic_Enum (in_Constraints i)).
Proof.
  rewrite <- (constraint_issues_ok path). unfold validateInputConstraints. rewrite !app_nil, issue_if_nil.
  rewrite (concat_imap_nil _ (λ v, valueMatchesType v (in_Type i) = true)) by (intros k v; by rewrite issue_if_nil, negb_false_iff).
  assert (Hd : not_nil (in_Default i) && negb (valueMatchesType (in_Default i) (in_Type i)) = false ↔
               (in_Default i ≠ VNil → valueMatchesType (in_Default i) (in_Type i) = true)).
  { destruct (in_Default i); cbn [not_nil andb]; rewrite ?negb_false_iff; naive_solver. }
  rewrite Hd. tauto.
Qed.

Lemma name_issues_ok prefix field name seen issues seen' :
  name_issues prefix field name seen = (issues, seen') → (issues = [] ↔ name ≠ "" ∧ name ∉ seen) ∧ (issues = [] → seen' = name :: seen).
Proof.
  unfold name_issues. destruct (String.eqb_spec name "") as [->|Hne]; [intros [= <- <-]; split; [split; [done|by intros []]|done]|].
  destruct (existsb _ _) eqn:E; intros [= <- <-].
  - apply existsb_elem in E. split; [split; [done|by intros []]|done].
  - apply existsb_not_elem in E. naive_solver.
Qed.

(** The names of a list that are all new and distinct. *)
Definition fresh_names (seen names : list string) : Prop := NoDup names ∧ ∀ n, n ∈ names → n ∉ seen.
Lemma fresh_cons seen n names : fresh_names seen (n :: names) ↔ n ∉ seen ∧ fresh_names (n :: seen) names.
Proof. unfold fresh_names. rewrite NoDup_cons. setoid_rewrite elem_of_cons. naive_solver. Qed.

Lemma input_issues_ok idx seen inputs :
  input_issues idx seen inputs = [] ↔ fresh_names seen (map in_Name inputs) ∧ Forall input_ok inputs.
Proof.
  revert idx seen. induction inputs as [|i inputs IH]; intros idx seen; cbn [input_issues map].
  - unfold fresh_names. split; [|done]. intros _. split; [split; [constructor|set_solver]|constructor].
  - destruct (name_issues _ _ _ _) as [issues seen'] eqn:Hn. apply name_issues_ok in Hn as [Hn Hseen].
    rewrite !app_nil, issue_if_nil, negb_false_iff, fresh_cons, Forall_cons. unfold input_ok at 1.
    pose proof (validateInputConstraints_ok (indexed "inputs" idx) i) as Hv. split.
    + intros (Hi & Hs & Hc & Hrest). rewrite (Hseen Hi) in Hrest. apply IH in Hrest as [? ?]. apply Hn in Hi as [? ?].
      destruct (proj1 Hv (conj Hs Hc)) as (? & ? & ?). by split_and!.
    + intros [[Hnew Hfresh] [[Hne Hok] Hall]]. assert (Hi : issues = []) by (by apply Hn). rewrite (Hseen Hi). rewrite IH.
      destruct (proj2 Hv Hok). by split_and!.
Qed.

Lemma rollback_issues_ok prefix h : rollback_issues prefix h = [] ↔ hook_ok h.
Proof.
  unfold rollback_issues, hook_ok. destruct h as [r|]; [|naive_solver].
  rewrite app_nil, !issue_if_nil, String.eqb_neq, Z.ltb_ge. split; [by intros ? r' [= <-]|intros HF; by apply HF].
Qed.

Lemma step_issues_ok idx seen steps issues ids :
  step_issues idx seen steps = (issues, ids) →
  (issues = [] ↔ fresh_names seen (map sp_ID steps) ∧ Forall step_ok steps) ∧ (issues = [] → ids = rev (map sp_ID steps) ++ seen).
Proof.
  revert idx seen issues ids. induction steps as [|st steps IH]; intros idx seen issues ids; cbn [step_issues map].
  - intros [= <- <-]. split; [|done]. unfold fresh_names. split; [|done]. intros _. split; [split; [constructor|set_solver]|constructor].
  - destruct (name_issues _ _ _ _) as [i1 seen1] eqn:Hn. apply name_issues_ok in Hn as [Hn Hseen].
    destruct (step_issues _ _ steps) as [more ids'] eqn:Hs. intros [= <- <-]. apply IH in Hs as [Hm Hids].
    rewrite !app_nil, !issue_if_nil, validateApproval_ok, rollback_issues_ok, String.eqb_neq, !Z.ltb_ge, fresh_cons, Forall_cons.
    unfold step_ok at 1. split.
    + split.
      * intros (H1 & H2 & H3 & H4 & H5 & H6 & H7). rewrite (Hseen H1) in Hm. apply Hn in H1 as [? ?]. apply Hm in H7 as [? ?]. by split_and!.
      * intros [[Hnew Hfresh] [(H1 & H2 & H3 & H4 & H5 & H6) Hall]]. assert (Hi : i1 = []) by (by apply Hn). rewrite (Hseen Hi) in Hm.
        split_and!; try done. by apply Hm.
    + intros (H1 & _ & _ & _ & _ & _ & H7). rewrite (Hids H7), (Hseen H1). cbn. by rewrite <- app_assoc.
Qed.

Lemma validateOutcome_ok path o ids ids' : (∀ x, x ∈ ids ↔ x ∈ ids') → validateOutcome path o ids = [] ↔ outcome_ok ids' o.
Proof.
  intros Hids. unfold validateOutcome, outcome_ok. rewrite !app_nil, !issue_if_nil, !String.eqb_neq.
  assert (E : (eo_StepID o <>s "") && negb (existsb (String.eqb (eo_StepID o)) ids) = false ↔ (eo_StepID o ≠ "" → eo_StepID o ∈ ids')).
  { destruct (String.eqb_spec (eo_StepID o) ""); cbn; [naive_solver|]. rewrite negb_false_iff, existsb_elem, Hids. naive_solver. }
  by rewrite E.
Qed.
Lemma outcome_issues_ok prefix outcomes ids ids' :
  (∀ x, x ∈ ids ↔ x ∈ ids') → outcome_issues prefix outcomes ids = [] ↔ Forall (outcome_ok ids') outcomes.
Proof. intros Hids. apply concat_imap_nil. intros i o. by apply validateOutcome_ok. Qed.

Lemma metadata_issues_ok m :
  metadata_issues m = [] ↔ definitionIDPattern (md_ID m) = true ∧ md_Name m ≠ "" ∧ semverPattern (md_Version m) = true.
Proof.
  unfold metadata_issues. rewrite !app_nil, issue_if_nil, String.eqb_neq.
  destruct (String.eqb_spec (md_ID m) "") as [->|_]; [by split; [intros [? _]|intros [? _]]|].
  destruct (String.eqb_spec (md_Version m) "") as [->|_]; [by split; [intros (_ & _ & ?)|intros (_ & _ & ?)]|].
  by rewrite !issue_if_nil, !negb_false_iff.
Qed.

Lemma outcome_count d :
  Nat.eqb (length (df_ExpectedOutcomes d) + sum_list (map (λ st, length (sp_ExpectedOutcomes st)) (df_Steps d))) 0 = false ↔
  df_ExpectedOutcomes d ++ mjoin (map sp_ExpectedOutcomes (df_Steps d)) ≠ [].
Proof.
  assert (E : length (df_ExpectedOutcomes d ++ mjoin (map sp_ExpectedOutcomes (df_Steps d))) =
              (length (df_ExpectedOutcomes d) + sum_list (map (λ st, length (sp_ExpectedOutcomes st)) (df_Steps d)))%nat).
  { rewrite length_app. f_equal. induction (df_Steps d) as [|st l IH]; [done|]. cbn. rewrite length_app. by f_equal. }
  rewrite <- E, Nat.eqb_neq. destruct (_ ++ _); cbn; split; congruence.
Qed.

Lemma definition_issues_ok d : definition_issues d = [] ↔ well_formed d.
Proof.
  unfold definition_issues. destruct (step_issues 0 [] (df_Steps d)) as [issues ids] eqn:Hs. apply step_issues_ok in Hs as [Hs Hids].
  rewrite !app_nil, metadata_issues_ok, validateApproval_ok, input_issues_ok, !issue_if_nil, outcome_count, Hs.
  assert (Hne : Nat.eqb (length (df_Steps d)) 0 = false ↔ df_Steps d ≠ []) by (destruct (df_Steps d); cbn; split; congruence).
  assert (Hfresh : ∀ l, fresh_names [] l ↔ NoDup l) by (intros l; unfold fresh_names; set_solver).
  rewrite Hne, !Hfresh.
  assert (Hout : issues = [] →
    (concat (imap (λ k st, outcome_issues (indexed "steps" k +:+ ".")%string (sp_ExpectedOutcomes st) ids) (df_Steps d)) = [] ∧
     outcome_issues "" (df_ExpectedOutcomes d) ids = []) ↔
    Forall (outcome_ok (map sp_ID (df_Steps d))) (df_ExpectedOutcomes d ++ mjoin (map sp_ExpectedOutcomes (df_Steps d)))).
  { intros Hi. specialize (Hids Hi). rewrite app_nil_r in Hids.
    assert (Hmem : ∀ x, x ∈ ids ↔ x ∈ map sp_ID (df_Steps d)) by (intros x; rewrite Hids, !list_elem_of_In; by rewrite <- in_rev).
    rewrite Forall_app, (outcome_issues_ok _ _ _ _ Hmem).
    rewrite (concat_imap_nil _ (λ st, Forall (outcome_ok (map sp_ID (df_Steps d))) (sp_ExpectedOutcomes st)))
      by (intros k st; by apply outcome_issues_ok).
    generalize (outcome_ok (map sp_ID (df_Steps d))). intros P. 
    assert (Hj : Forall P (mjoin (map sp_ExpectedOutcomes (df_Steps d))) ↔ Forall (λ st, Forall P (sp_ExpectedOutcomes st)) (df_Steps d)).
    { clear. induction (df_Steps d) as [|st l IH]; [by split|]. cbn. rewrite Forall_app, Forall_cons. by rewrite IH. }
    rewrite Hj. tauto. }
  split; [intros HF|intros [? ? ? ? ? ? ? ? ? ? ?]].
  - destruct HF as ((? & ? & ?) & ? & [? ?] & ? & Hst & ? & ? & ?). assert (Hnil : issues = []) by (apply Hs; by rewrite Hfresh). specialize (Hout Hnil). destruct Hst. split; try done.
    by apply Hout.
  - assert (Hst : NoDup (map sp_ID (df_Steps d)) ∧ Forall step_ok (df_Steps d)) by done.
    assert (Hnil : issues = []) by (apply Hs; by rewrite Hfresh). specialize (Hout Hnil).
    destruct (proj2 Hout ltac:(assumption)). split_and!; done.
Qed.

Lemma TrimSpace_ToLower_idem t : TrimSpace (ToLower (TrimSpace (ToLower t))) = TrimSpace (ToLower t).
Proof. by rewrite !TrimSpace_ToLower, ToLower_idem, TrimSpace_idem. Qed.

(** Normalising twice changes nothing. *)
Lemma normalizeDefinition_idem d : normalizeDefinition (normalizeDefinition d) = normalizeDefinition d.
Proof.
  assert (Ha : ∀ a : option ApprovalRequirement, normalizeApproval <$> (normalizeApproval <$> a) = normalizeApproval <$> a).
  { intros [a|]; [|done]. cbn -[TrimSpace ToLower]. unfold normalizeApproval. cbn -[TrimSpace ToLower]. rewrite !TrimSpace_idem, map_map. do 2 f_equal. apply map_ext. apply TrimSpace_idem. }
  assert (Ho : ∀ l, map normalizeOutcome (map normalizeOutcome l) = map normalizeOutcome l).
  { intros l. rewrite map_map. apply map_ext. intros o. unfold normalizeOutcome. cbn -[TrimSpace ToLower]. by rewrite !TrimSpace_idem. }
  unfold normalizeDefinition. cbn -[TrimSpace ToLower]. rewrite Ha, Ho. f_equal.
  - unfold normalize_metadata. cbn -[TrimSpace ToLower]. by rewrite TrimSpace_ToLower_idem, !TrimSpace_idem.
  - rewrite map_map. apply map_ext. intros i. unfold normalize_input, normalize_constraints. cbn -[TrimSpace ToLower]. by rewrite TrimSpace_ToLower_idem, !TrimSpace_idem.
  - rewrite map_map. apply map_ext. intros st. unfold normalize_step. cbn -[TrimSpace ToLower]. rewrite Ha, Ho, !TrimSpace_idem. f_equal.
    destruct (sp_Rollback st) as [h|]; [|done]. cbn -[TrimSpace ToLower]. unfold normalize_rollback. cbn -[TrimSpace ToLower]. by rewrite TrimSpace_idem.
Qed.

Lemma ValidateDefinition_inr d d' : ValidateDefinition d = inr d' ↔ d' = normalizeDefinition d ∧ well_formed d'.
Proof.
  unfold ValidateDefinition. pose proof (definition_issues_ok (normalizeDefinition d)) as Hok. destruct (definition_issues _) as [|i l].
  - split; [intros [= <-]; split; [done|]; by apply Hok|by intros [-> _]].
  - split; [done|]. intros [-> HF]. by apply Hok in HF.
Qed.

(** C26. The validation accepts a definition exactly when it is well formed once
    normalised, and returns the normalised one: the id and the version match their
    patterns, names and step ids are non-empty and distinct, the constraints of an
    input fit its type, its default and its enum have its type, approvals, timeouts,
    retries and hooks are in range, there is a step and an outcome, and every outcome
    that names a step names one of the definition; what was accepted is accepted
    again unchanged. *)
Theorem validation_exact d d' :
  (ValidateDefinition d = inr d' ↔ d' = normalizeDefinition d ∧ well_formed d') ∧
  (ValidateDefinition d = inr d' → ValidateDefinition d' = inr d').
Proof.
  split; [apply ValidateDefinition_inr|]. intros [-> Hwf]%ValidateDefinition_inr. apply ValidateDefinition_inr.
  by rewrite normalizeDefinition_idem.
Qed.
End text.
