(* ===== verification/PackGuarantees.v ===== *)
(** * Automation packs: guarantees of the store and of the runtime
    (src/internal/controlplane/automationpacks)

    What a caller of the endpoints can rely on: a definition that was created is
    well formed and is the one served; an execution is a saga of it, in which no
    mutating step runs before it was cleared; a dry run that predicts "allow" is
    not contradicted by the execution. *)
From S2P Require Import Prelude GoStrings GoErrors GoTime GoFloat Protocol ApprovalQueue CapacityPolicy GoSql GoRuntime PackTypes PackDryRun PackRuntime.
From S2P Require Import PackStore PackSafety PackValidation.
Local Open Scope go_scope.
Local Open Scope Z_scope.

(** ** Copies *)

Lemma cloneValue_idem v : cloneValue (cloneValue v) = cloneValue v.
Proof.
  induction v as [| | | | | |l IH|m IH|] using any_nested_ind; try reflexivity; cbn.
  - f_equal. rewrite map_map. apply map_ext_Forall. exact IH.
  - destruct m as [|kv m]; [done|]. cbn. do 2 f_equal.
    + apply Forall_cons in IH as [IH _]. by rewrite IH.
    + apply Forall_cons in IH as [_ IH]. rewrite map_map. apply map_ext_Forall. eapply Forall_impl; [exact IH|]. intros [k x] E. cbn in *. by rewrite E.
Qed.
Lemma cloneMap_idem m : cloneMap (cloneMap m) = cloneMap m.
Proof. unfold cloneMap. rewrite map_map. apply map_ext. intros [k v]. cbn. by rewrite cloneValue_idem. Qed.
Lemma clone_rollback_idem r : clone_rollback (clone_rollback r) = clone_rollback r.
Proof. unfold clone_rollback. cbn. by rewrite cloneMap_idem. Qed.
Lemma clone_step_idem s : clone_step (clone_step s) = clone_step s.
Proof.
  unfold clone_step. cbn. rewrite !cloneMap_idem. destruct (es_Rollback s) as [r|]; cbn; [|done]. by rewrite clone_rollback_idem.
Qed.
Lemma clone_event_idem e : clone_event (clone_event e) = clone_event e.
Proof. unfold clone_event. cbn. by rewrite cloneMap_idem. Qed.
Lemma clone_artifact_idem a : clone_artifact (clone_artifact a) = clone_artifact a.
Proof. unfold clone_artifact. cbn. by rewrite cloneMap_idem. Qed.
Lemma cloneExecution_idem x : cloneExecution (cloneExecution x) = cloneExecution x.
Proof.
  unfold cloneExecution. cbn. rewrite !map_map, cloneMap_idem.
  f_equal; apply map_ext; auto using clone_step_idem, clone_rollback_idem, clone_event_idem, clone_artifact_idem.
Qed.

(** The view of an execution that was returned with its log. *)
Definition view_of (x : Execution) (log : list pack_event) : View := view {| rn_exec := x; rn_ticks := 0; rn_log := log |}.
Lemma view_clone s : view_of (cloneExecution (rn_exec s)) (rn_log s) = view s.
Proof. unfold view_of, view, cloneExecution. cbn. rewrite !map_map. reflexivity. Qed.

Lemma max_attempts_pos st : sp_MaxRetries st < 2 ^ 63 - 1 → max_attempts st = Z.to_nat (1 + Z.max 0 (sp_MaxRetries st)).
Proof.
  intros Hlt. unfold max_attempts, normalizeRetryCount. f_equal. unfold to_int64.
  destruct (Z.ltb_spec (sp_MaxRetries st) 0); rewrite Z.mod_small; lia.
Qed.

Section packs.
Context `{HostLaws} `{Text}.
Context (simulate : nat → PolicySimulationRequest → PolicySimulation).
Context (act : nat → duration → ActionRequest → result (option ActionResult)).
Notation start := (PackStore.Start simulate act).
Implicit Types (db : DB Packs) (d : Definition_).

(** No step asks for the largest number of retries an [int] can hold: the budget
    of attempts, one more, does not overflow.  Validation does not exclude it
    ([retries_overflow] in PackExamples.v). *)
Definition bounded d : Prop := Forall (λ st, sp_MaxRetries st < 2 ^ 63 - 1) (df_Steps d).

Lemma bounded_attempts d : bounded d → Forall (λ st, max_attempts st ≠ 0%nat) (df_Steps d).
Proof. intros Hb. eapply Forall_impl; [exact Hb|]. intros st Hst. cbn in Hst. rewrite max_attempts_pos by done. lia. Qed.

(** The row a definition is read from. *)
Lemma GetDefinition_inr id version db d db' :
  GetDefinition id version db = (inr (inr d), db') →
  db' = tick db ∧ ∃ row, row ∈ pk_rows (rows db) ∧ pr_Definition row = d ∧ pr_ID row = TrimSpace (ToLower id) ∧
    (TrimSpace version ≠ "" → List.find (same_key (TrimSpace (ToLower id)) (TrimSpace version)) (pk_rows (rows db)) = Some row).
Proof.
  unfold GetDefinition. destruct (_ =s "") eqn:Hid; [done|]. intros (row & db1 & Hq & Hr)%bind_inr. apply attempt_inr in Hq.
  apply ret_inr in Hr as [Hr ->]. destruct row as [e|[row|]]; [done| |done]. injection Hr as ->.
  apply query_tick in Hq as [Hq ->]. injection Hq as Hq. split; [done|]. exists row.
  destruct (TrimSpace version =s "") eqn:Hv; bools.
  - assert (Hin : row ∈ List.filter (λ r, pr_ID r =s TrimSpace (ToLower id)) (pk_rows (rows db))).
    { rewrite <- (order_by_perm latest_first). destruct (order_by _ _); [done|]. injection Hq as ->. by left. }
    apply list_elem_of_In, filter_In in Hin as [Hin Hkey]. bools. split_and!; [by apply list_elem_of_In|done..].
  - pose proof (find_some _ _ Hq) as [Hin Hkey]. unfold same_key in Hkey. bools. split_and!; [by apply list_elem_of_In|done..].
Qed.

Lemma Start_ran r db x log db' :
  start r db = (inr (inr (x, log)), db') →
  ∃ row inputs started execID n s,
    (GetDefinition (TrimSpace (ToLower (sr_DefinitionID r))) (TrimSpace (sr_Version r)) db).1 = inr (inr (pr_Definition row)) ∧
    row ∈ pk_rows (rows db) ∧ pr_ID row = TrimSpace (ToLower (sr_DefinitionID r)) ∧
    resolveInputs (df_Inputs (pr_Definition row)) (sr_Inputs r) = inr inputs ∧
    (run_execution clock simulate act PackStore.defaultStepTimeout (pr_Definition row) inputs (sr_ApprovalContext r) started
       {| rn_exec := new_execution PackStore.defaultStepTimeout (pr_Definition row) inputs execID started; rn_ticks := n; rn_log := [] |}).2 = s ∧
    x = cloneExecution (rn_exec s) ∧ log = rn_log s ∧
    pk_rows (rows db') = pk_rows (rows db) ∧ pk_executions (rows db') = <[ex_ID x := x]> (pk_executions (rows db)).
Proof.
  unfold Start. destruct (_ =s "") eqn:Hid; [done|]. intros (found & db1 & Hg & Hr)%bind_inr. destruct found as [e|d]; [done|].
  pose proof (GetDefinition_inr _ _ _ _ _ Hg) as (-> & row & Hin & <- & Hkey & _).
  destruct (resolveInputs _ _) as [e|inputs] eqn:Hi; [done|].
  apply bind_inr in Hr as (started & db2 & Ht & Hr). injection Ht as <- <-.
  apply bind_inr in Hr as (execID & db3 & Hn & Hr). unfold nextExecutionID in Hn.
  apply bind_inr in Hn as (n & db4 & Hn0 & Hn). injection Hn0 as <- <-.
  apply bind_inr in Hn as ([] & db5 & Hp & Hn). injection Hp as <-.
  apply bind_inr in Hn as (t & db6 & Ht & Hn). injection Ht as <- <-. apply ret_inr in Hn as [-> ->].
  apply bind_inr in Hr as (ran & db7 & Hrun & Hr). unfold run_on_host in Hrun.
  match type of Hrun with context [run_execution ?a ?b ?c ?d ?e ?f ?g ?h ?i] => destruct (run_execution a b c d e f g h i) as [u s] eqn:Hs end.
  injection Hrun as <- <-. apply bind_inr in Hr as (y & db8 & Hp & Hr). unfold persistAndClone in Hp.
  apply bind_inr in Hp as ([] & db9 & Hp0 & Hp). injection Hp0 as <-. apply ret_inr in Hp as [-> ->].
  apply ret_inr in Hr as [Hr ->]. injection Hr as -> ->. rewrite cloneExecution_idem.
  eexists row, inputs, _, _, _, s. rewrite Hs, Hg. split_and!; try done. rewrite Hkey. by autorewrite with legator.
Qed.

Lemma Start_saga r db x log db' :
  start r db = (inr (inr (x, log)), db') →
  ∃ row inputs, row ∈ pk_rows (rows db) ∧ pr_ID row = TrimSpace (ToLower (sr_DefinitionID r)) ∧
    (GetDefinition (TrimSpace (ToLower (sr_DefinitionID r))) (TrimSpace (sr_Version r)) db).1 = inr (inr (pr_Definition row)) ∧
    resolveInputs (df_Inputs (pr_Definition row)) (sr_Inputs r) = inr inputs ∧
    pk_executions (rows db') !! ex_ID x = Some x ∧
    (bounded (pr_Definition row) →
     saga PackStore.defaultStepTimeout (pr_Definition row) inputs (sr_ApprovalContext r) (ex_ID x) (view_of x log) ∧ honest simulate act log).
Proof.
  intros (row & inputs & started & execID & n & s & Hg & Hin & Hkey & Hi & Hs & -> & -> & _ & Hx)%Start_ran.
  exists row, inputs. split_and!; try done; [by rewrite Hx, lookup_insert_eq|].
  intros Hb. rewrite view_clone.
  pose proof (run_execution_saga clock simulate act PackStore.defaultStepTimeout (pr_Definition row) inputs (sr_ApprovalContext r) execID started n
    (bounded_attempts _ Hb)) as [Hsaga Hhonest].
  rewrite Hs in Hsaga, Hhonest. replace (ex_ID (cloneExecution (rn_exec s))) with execID; [done|].
  cbn. change (ex_ID (rn_exec s)) with (v_id (view s)). by destruct Hsaga.
Qed.

(** C18. Every execution that the runtime returns is a saga of the stored definition
    it names, and is the one kept under its id: the steps run in order and each is
    attempted at most one time more than its retries; when one fails or is refused
    the later ones are skipped, and of the earlier ones exactly those with a rollback
    hook are undone, once each, the last one first; the statuses of the execution, of
    its steps and of the rollback say what happened.  The answers in the log are those
    of the policy simulator and of the action runner.  The condition [bounded] on the
    definition is needed: a step with 2^63 - 1 retries, which validation accepts, is
    never attempted and is left running in an execution that is reported as succeeded
    ([retries_overflow]). *)
Theorem execution_is_saga r db x log db' :
  start r db = (inr (inr (x, log)), db') →
  ∃ row inputs, row ∈ pk_rows (rows db) ∧ pr_ID row = TrimSpace (ToLower (sr_DefinitionID r)) ∧
    resolveInputs (df_Inputs (pr_Definition row)) (sr_Inputs r) = inr inputs ∧
    pk_executions (rows db') !! ex_ID x = Some x ∧
    (bounded (pr_Definition row) →
     saga PackStore.defaultStepTimeout (pr_Definition row) inputs (sr_ApprovalContext r) (ex_ID x) (view_of x log) ∧
     honest simulate act log ∧
     Forall (λ st, max_attempts st = Z.to_nat (1 + Z.max 0 (sp_MaxRetries st))) (df_Steps (pr_Definition row))).
Proof.
  intros (row & inputs & ? & ? & _ & ? & ? & Hs)%Start_saga. exists row, inputs. split_and!; try done. intros Hb. destruct (Hs Hb). do 2 (split; [done|]).
  eapply Forall_impl; [exact Hb|]. intros st. apply max_attempts_pos.
Qed.

(** C5. No mutating step of an execution is run before it was cleared: when the
    action runner is called other than to roll back, the call is an attempt of a step
    of the stored definition, within its retries, all its earlier attempts failed,
    every earlier step has succeeded and, if the step mutates, the policy was asked
    about it before and answered neither "deny" nor "queue", and the approvals the
    definition requires of the workflow and of the step were given ([approval_met]):
    the caller said that it was approved, with a count of approvers that reaches the
    minimum or that is absent or zero where the minimum is one; a negative count is
    also accepted, whatever the minimum ([negative_count_approves]).  Two conditions:
    the definition is [bounded], since a step with 2^63 - 1 retries, which validation
    accepts, is never attempted and does not stop the steps after it
    ([retries_overflow]); and the call is not one of a rollback. *)
Theorem mutation_needs_clearance r db x log db' i timeout req answer :
  start r db = (inr (inr (x, log)), db') →
  log !! i = Some (Called timeout req answer) → rq_Rollback req = false →
  ∃ row inputs, row ∈ pk_rows (rows db) ∧ pr_ID row = TrimSpace (ToLower (sr_DefinitionID r)) ∧
    resolveInputs (df_Inputs (pr_Definition row)) (sr_Inputs r) = inr inputs ∧
    (bounded (pr_Definition row) →
     ∃ k st, df_Steps (pr_Definition row) !! k = Some st ∧
       due PackStore.defaultStepTimeout (pr_Definition row) inputs (sr_ApprovalContext r) (ex_ID x) k st req (take i log) ∧
       ∀ j st', (j < k)%nat → df_Steps (pr_Definition row) !! j = Some st' →
         finished PackStore.defaultStepTimeout (pr_Definition row) inputs (ex_ID x) st' (take i log)).
Proof.
  intros (row & inputs & ? & ? & _ & ? & _ & Hs)%Start_saga Hi Hreq. exists row, inputs. split_and!; try done. intros Hb.
  by apply (saga_due clock simulate act _ _ _ _ _ (view_of x log) i timeout req answer (proj1 (Hs Hb))).
Qed.

(** ** Definitions *)

Lemma well_formed_stamp d t : well_formed d → well_formed (stamp d t).
Proof. by intros []. Qed.

Lemma find_app_l {A} (f : A → bool) l k x : List.find f l = Some x → List.find f (l ++ k) = Some x.
Proof. induction l as [|y l IH]; [done|]. cbn. by destruct (f y). Qed.
Lemma find_snoc {A} (f : A → bool) l x : existsb f l = false → f x = true → List.find f (l ++ [x]) = Some x.
Proof. induction l as [|y l IH]; cbn; [by intros _ ->|]. intros [-> Hl]%orb_false_iff. by apply IH. Qed.

(** The key of a definition as the store compares it. *)
Definition key_of d : PackRow → bool := same_key (md_ID (df_Metadata d)) (md_Version (df_Metadata d)).

Lemma CreateDefinition_inr d db d1 db1 :
  CreateDefinition d db = (inr (inr d1), db1) →
  ∃ t, d1 = stamp (normalizeDefinition d) t ∧ well_formed d1 ∧ existsb (key_of d1) (pk_rows (rows db)) = false ∧
    pk_rows (rows db1) = pk_rows (rows db) ++ [pack_row d1 t] ∧ pk_executions (rows db1) = pk_executions (rows db).
Proof.
  unfold CreateDefinition. destruct (ValidateDefinition d) as [issues|d'] eqn:Hv; [done|]. apply ValidateDefinition_inr in Hv as [-> Hwf].
  set (n := normalizeDefinition d) in *. intros (t & db2 & Ht & Hr)%bind_inr. injection Ht as <- <-.
  apply bind_inr in Hr as (ins & db3 & Hi & Hr). apply attempt_inr in Hi. destruct ins as [e|[]]; [done|].
  apply exec_inr in Hi. unfold insert_pack in Hi. destruct (existsb _ _) eqn:Hnew; [done|]. injection Hi as Hrows.
  apply GetDefinition_inr in Hr as (-> & row & _ & Hdef & _ & Hfind).
  set (t := clock (ticks db)) in *. cbn [pack_row pr_ID pr_Version stamp df_Metadata] in Hnew.
  assert (Ek : TrimSpace (ToLower (md_ID (df_Metadata n))) = md_ID (df_Metadata n)) by apply TrimSpace_ToLower_idem.
  assert (Ev : TrimSpace (md_Version (df_Metadata n)) = md_Version (df_Metadata n)) by apply TrimSpace_idem.
  rewrite Ek, Ev in Hfind. rewrite <- Hrows in Hfind. cbn [rows tick] in *.
  cbn [set_pk_rows pk_rows] in Hfind. rewrite find_snoc in Hfind; [|done|].
  2: { unfold same_key, pack_row. cbn. by rewrite !String.eqb_refl. }
  assert (Hver : md_Version (df_Metadata n) ≠ "") by (intros HF; pose proof (wf_version _ Hwf) as Hp; by rewrite HF in Hp).
  injection (Hfind Hver) as Hrow.
  exists t. rewrite <- Hdef, <- Hrow. cbn [pack_row pr_Definition]. rewrite <- Hrows. split_and!; try done. by apply well_formed_stamp.
Qed.

(** The requests of the API. *)
Inductive pack_call :=
  | CallCreate (body : option Definition_)
  | CallList
  | CallGet (id version : string)
  | CallDryRun (body : option (Definition_ * list (string * any)))
  | CallStart (id : string) (body : option StartExecutionRequest)
  | CallExecution (executionID : string)
  | CallTimeline (executionID stepID eventType : string)
  | CallArtifacts (executionID stepID artifactType : string).
Definition serve (c : pack_call) : M Packs pack_reply :=
  match c with
  | CallCreate body => HandleCreateDefinition body
  | CallList => HandleListDefinitions
  | CallGet id version => HandleGetDefinition id version
  | CallDryRun body => HandleDryRunDefinition simulate body
  | CallStart id body => HandleStartExecution simulate act id body
  | CallExecution id => HandleGetExecution id
  | CallTimeline id stepID eventType => HandleGetExecutionTimeline id stepID eventType
  | CallArtifacts id stepID artifactType => HandleGetExecutionArtifacts id stepID artifactType
  end.
Definition serve_all (calls : list pack_call) db : DB Packs := foldl (λ db c, (serve c db).2) db calls.

(** The rows are only added to. *)
Definition holds (l : list PackRow) db : Prop := l `prefix_of` pk_rows (rows db).

Lemma holds_read l {A} (m : M Packs A) : reads m → keeps (holds l) m.
Proof. intros Hm db Hl. unfold holds. destruct (m db) as [r db'] eqn:E. cbn. by rewrite (Hm _ _ _ E). Qed.
Lemma GetDefinition_reads id version : reads (GetDefinition id version).
Proof. unfold GetDefinition. case_match; eauto 10 with legator. Qed.
Lemma from_execution_reads {A} (f : Execution → A) id : reads (from_execution f id).
Proof. unfold from_execution, Get. apply reads_bind; [|eauto with legator]. case_match; eauto 10 with legator. Qed.
Lemma with_execution_reads {A} id what (get : string → M Packs (pack_error + A)) k :
  (∀ i, reads (get i)) → (∀ a, reads (k a)) → reads (with_execution id what get k).
Proof.
  intros Hg Hk. unfold with_execution. case_match; [eauto with legator|]. apply reads_bind; [done|]. intros [[]|a]; eauto with legator.
Qed.

Lemma create_keeps_rows l d : keeps (holds l) (CreateDefinition d).
Proof.
  unfold CreateDefinition. destruct (ValidateDefinition d) as [|d']; [by apply keeps_ret|].
  apply keeps_bind; [by apply keeps_time|]. intros t. apply keeps_bind.
  - apply keeps_attempt, keeps_exec; [done|]. intros p n Hl. unfold insert_pack. case_match; [done|]. unfold holds in *. cbn in *.
    by apply prefix_app_r.
  - intros [e|u]; [by apply keeps_ret|]. apply holds_read, GetDefinition_reads.
Qed.
Lemma start_keeps_rows l r : keeps (holds l) (start r).
Proof.
  unfold Start. case_match; [by apply keeps_ret|]. apply keeps_bind; [apply holds_read, GetDefinition_reads|]. intros [e|d]; [by apply keeps_ret|].
  case_match; [by apply keeps_ret|]. apply keeps_bind; [by apply keeps_time|]. intros t. apply keeps_bind; [by intros db Hl|].
  intros execID. apply keeps_bind.
  - intros db Hl. unfold run_on_host. by case_match.
  - intros ran. by intros db Hl.
Qed.

Lemma serve_holds l c : keeps (holds l) (serve c).
Proof.
  destruct c as [[d|]| |id version|body|id [r|]|id|id stepID eventType|id stepID artifactType]; cbn [serve].
  - apply keeps_bind; [apply create_keeps_rows|]. intros a. by apply keeps_ret.
  - by apply keeps_ret.
  - apply holds_read. unfold HandleListDefinitions, ListDefinitions. eauto 10 with legator.
  - apply holds_read. unfold HandleGetDefinition. case_match; eauto using GetDefinition_reads with legator.
  - by apply keeps_ret.
  - unfold HandleStartExecution. case_match; [by apply keeps_ret|]. apply keeps_bind; [apply start_keeps_rows|]. intros a. by apply keeps_ret.
  - unfold HandleStartExecution. by case_match; apply keeps_ret.
  - apply holds_read, with_execution_reads; [|eauto with legator]. intros i. unfold Get. case_match; eauto 10 with legator.
  - apply holds_read, with_execution_reads; [intros; apply from_execution_reads|]. intros timeline. apply with_execution_reads.
    + intros; apply from_execution_reads.
    + eauto with legator.
  - apply holds_read, with_execution_reads; [intros; apply from_execution_reads|eauto with legator].
Qed.
Lemma serve_all_holds l calls db : holds l db → holds l (serve_all calls db).
Proof. revert db. induction calls as [|c calls IH]; intros db Hl; [done|]. apply IH, serve_holds, Hl. Qed.

Lemma key_of_pack_row d t : key_of d (pack_row d t) = true.
Proof. unfold key_of, same_key, pack_row. cbn. by rewrite !String.eqb_refl. Qed.

(** A definition that is kept under its key is the one served. *)
Lemma GetDefinition_kept d t l db id version :
  well_formed d → existsb (key_of d) l = false → holds (l ++ [pack_row d t]) db → sql_fault (ticks db) = None →
  TrimSpace (ToLower id) = md_ID (df_Metadata d) → TrimSpace version = md_Version (df_Metadata d) →
  GetDefinition id version db = (inr (inr d), tick db).
Proof.
  intros Hwf Hnew [more Hrows] Hsql Hid Hversion. unfold GetDefinition. rewrite Hid, Hversion.
  assert (Hne : md_ID (df_Metadata d) ≠ "") by (intros HF; pose proof (wf_id _ Hwf) as Hp; by rewrite HF in Hp).
  assert (Hver : md_Version (df_Metadata d) ≠ "") by (intros HF; pose proof (wf_version _ Hwf) as Hp; by rewrite HF in Hp).
  apply String.eqb_neq in Hne, Hver. rewrite Hne, Hver. unfold mbind, M_bind, attempt, query. rewrite Hsql, Hrows.
  fold (key_of d). by rewrite (find_app_l _ _ _ (pack_row d t)) by (apply find_snoc; [done|apply key_of_pack_row]).
Qed.

(** A definition that the endpoint reports as created is well formed, is the
    normalised body, had a new id and version, and is the one served under them from
    then on, whatever requests come in between, as long as the database answers. *)
Theorem created_definition_served d db d1 db1 :
  HandleCreateDefinition (Some d) db = (inr (PCreated d1), db1) →
  well_formed d1 ∧ (∃ t, d1 = stamp (normalizeDefinition d) t) ∧ existsb (key_of d1) (pk_rows (rows db)) = false ∧
  ∀ calls id version, let db2 := serve_all calls db1 in
    sql_fault (ticks db2) = None → TrimSpace (ToLower id) = md_ID (df_Metadata d1) → TrimSpace version = md_Version (df_Metadata d1) →
    (HandleGetDefinition id version db2).1 = inr (PFound d1).
Proof.
  unfold HandleCreateDefinition. intros (c & db' & Hc & Hr)%bind_inr. apply ret_inr in Hr as [Hr <-].
  destruct c as [[]|d']; try done. injection Hr as <-. apply CreateDefinition_inr in Hc as (t & -> & Hwf & Hnew & Hrows & _).
  set (d1 := stamp (normalizeDefinition d) t) in *. do 3 (split; [first [done|by exists t]|]).
  intros calls id version. set (db2 := serve_all calls db1). intros Hsql Hid Hversion. unfold HandleGetDefinition.
  destruct (String.eqb_spec (TrimSpace id) "") as [E|_].
  { rewrite TrimSpace_ToLower, E in Hid. pose proof (wf_id _ Hwf) as Hp. rewrite <- Hid in Hp. done. }
  assert (Hget : GetDefinition (TrimSpace id) (TrimSpace version) db2 = (inr (inr d1), tick db2)); [|by unfold mbind, M_bind; rewrite Hget].
  eapply (GetDefinition_kept d1 t); [done|done| |done| |by rewrite TrimSpace_idem].
  - apply serve_all_holds. unfold holds. by rewrite Hrows.
  - by rewrite TrimSpace_ToLower, TrimSpace_idem, <- TrimSpace_ToLower.
Qed.

(** ** Dry runs *)

Lemma outcome_rank_canonical o : outcome_rank (ToLower (TrimSpace o)) = outcome_rank o.
Proof. unfold outcome_rank. by rewrite TrimSpace_ToLower, TrimSpace_idem, ToLower_idem. Qed.
Lemma merge_ge a b : outcome_rank a <= outcome_rank (mergePolicyOutcome a b) ∧ outcome_rank b <= outcome_rank (mergePolicyOutcome a b).
Proof.
  unfold mergePolicyOutcome. destruct (Z.ltb_spec (outcome_rank a) (outcome_rank b)); [rewrite outcome_rank_canonical; lia|].
  destruct (String.eqb_spec a "") as [->|]; [|rewrite outcome_rank_canonical; lia].
  change (outcome_rank "") with 0 in *. change (outcome_rank PolicyOutcomeAllow) with 1. lia.
Qed.

(** A prediction that may block an execution. *)
Definition hard (o : string) : Prop := 2 <= outcome_rank o.

Lemma approval_simulation_hard p a scope :
  (hard (ps_Outcome p) ∨ required a = true) → hard (ps_Outcome (applyApprovalSimulation p a scope)).
Proof.
  unfold applyApprovalSimulation, hard. destruct a as [a|]; [|by intros [?|?]]. cbn [required]. destruct (ar_Required a); [|by intros [?|?]].
  intros HF. cbn [negb]. set (q := if TrimSpace (ps_Outcome p) =s "" then _ else p). clearbody q.
  assert (Hge : hard (mergePolicyOutcome (ps_Outcome q) PolicyOutcomeQueue)).
  { unfold hard. destruct (merge_ge (ps_Outcome q) PolicyOutcomeQueue) as [_ Hq]. exact Hq. }
  split_str; [exact Hge|]. destruct (negb _); exact Hge.
Qed.

Lemma verdict_hard p cmd : ¬ lets_pass p → hard (ps_Outcome (with_defaults p cmd)).
Proof.
  intros HF. assert (E : outcome_rank (ps_Outcome (with_defaults p cmd)) = outcome_rank (verdict p)).
  { unfold verdict, with_defaults. rewrite outcome_rank_canonical. f_equal.
    by destruct (ps_Outcome p =s "") eqn:E; cbn; destruct (ps_RiskLevel p =s ""); cbn; rewrite ?E. }
  unfold hard, lets_pass in *. rewrite E. destruct (decide (verdict p = PolicyOutcomeDeny)) as [->|]; [done|].
  destruct (decide (verdict p = PolicyOutcomeQueue)) as [->|]; [done|]. by destruct HF.
Qed.

Lemma plan_merge_hard acc steps :
  hard acc.1.1 ∨ Exists (λ r, hard (ps_Outcome (dr_PolicySimulation r))) steps → hard (foldl plan_merge acc steps).1.1.
Proof.
  revert acc. induction steps as [|r steps IH]; intros [[o s] reasons] HF; cbn [foldl].
  - by destruct HF as [?|?%Exists_nil].
  - apply IH. cbn [plan_merge fst]. destruct (merge_ge o (ps_Outcome (dr_PolicySimulation r))) as [H1' H2']. unfold hard in *. cbn in HF.
    destruct HF as [HF|[HF|HF]%Exists_cons]; [left; lia|left; lia|by right].
Qed.

Lemma workflow_policy_hard d acc : hard acc.1.1 ∨ required (df_Approval d) = true → hard (ps_Outcome (workflow_policy d acc).1).
Proof.
  destruct acc as [[o s] reasons]. intros HF. unfold workflow_policy.
  pose proof (approval_simulation_hard {| ps_Outcome := o; ps_RiskLevel := ""; ps_Summary := ""; ps_Rationale := VNil |} (df_Approval d) "workflow" HF) as Hw.
  by destruct (if _ : bool then _ else reasons).
Qed.

(** What the dry run says of a step that an execution would refuse. *)
Lemma dry_run_hard d provided r k st n :
  (∀ n m q, simulate n q = simulate m q) → runDryRun simulate d provided = inr r →
  df_Steps (normalizeDefinition d) !! k = Some st →
  (¬ lets_pass (simulate n (question (normalizeDefinition d) (dy_ResolvedInputs r) k st)) ∨ required (sp_Approval st) = true ∨
   required (df_Approval (normalizeDefinition d)) = true) →
  hard (ps_Outcome (dy_WorkflowPolicy r)).
Proof.
  intros Hstable. unfold runDryRun. destruct (ValidateDefinition d) as [|d'] eqn:Hv; [done|].
  apply ValidateDefinition_inr in Hv as [-> _]. set (nd := normalizeDefinition d).
  destruct (resolveInputs _ _) as [|inputs]; [done|]. destruct (workflow_policy _ _) as [w summary] eqn:Ew. intros [= <-] Hk HF.
  cbn [dy_WorkflowPolicy dy_ResolvedInputs] in *. change w with (w, summary).1. rewrite <- Ew. apply workflow_policy_hard.
  destruct HF as [HF|[HF|HF]]; [left|left|by right]; apply plan_merge_hard; right; apply Exists_exists;
    exists (plan_step simulate nd inputs k st); (split; [apply (list_elem_of_lookup_2 _ k); by rewrite list_lookup_imap, Hk|]);
    apply approval_simulation_hard; [left|by right].
  apply verdict_hard. by rewrite (Hstable k n).
Qed.

Lemma GetDefinition_found d t l db id version d' db' :
  well_formed d → existsb (key_of d) l = false → holds (l ++ [pack_row d t]) db →
  TrimSpace (ToLower id) = md_ID (df_Metadata d) → TrimSpace version = md_Version (df_Metadata d) →
  GetDefinition id version db = (inr (inr d'), db') → d' = d.
Proof.
  intros Hwf Hnew [more Hrows] Hid Hversion (_ & row & _ & <- & _ & Hfind)%GetDefinition_inr. rewrite Hid, Hversion, Hrows in Hfind.
  rewrite (find_app_l _ _ _ (pack_row d t)) in Hfind by (apply find_snoc; [done|apply key_of_pack_row]).
  assert (Hver : md_Version (df_Metadata d) ≠ "") by (intros HF; pose proof (wf_version _ Hwf) as Hp; by rewrite HF in Hp).
  by injection (Hfind Hver) as <-.
Qed.

Lemma lets_pass_dec p : lets_pass p ∨ ¬ lets_pass p.
Proof. unfold lets_pass. destruct (decide (verdict p = PolicyOutcomeDeny)), (decide (verdict p = PolicyOutcomeQueue)); naive_solver. Qed.
Lemma not_required_met a given : required a = false → approval_met a given.
Proof. destruct a as [a|]; cbn; [|done]. congruence. Qed.

(** C21. A dry run that predicts "allow" for a workflow is not contradicted: when the
    definition is then created, no execution of it with the same inputs is blocked,
    whatever requests come in between and whatever approvals come with it, as long as
    the policy simulator answers a question the same way each time and no step asks
    for 2^63 - 1 retries ([bounded]). *)
Theorem dry_run_not_contradicted d provided r db d1 db1 calls approvals x log db2 :
  (∀ n m q, simulate n q = simulate m q) →
  runDryRun simulate d provided = inr r → ps_Outcome (dy_WorkflowPolicy r) = PolicyOutcomeAllow →
  CreateDefinition d db = (inr (inr d1), db1) → bounded d1 →
  start {| sr_DefinitionID := md_ID (df_Metadata d1); sr_Version := md_Version (df_Metadata d1); sr_Inputs := provided; sr_ApprovalContext := approvals |}
    (serve_all calls db1) = (inr (inr (x, log)), db2) →
  ex_Status x ≠ ExecutionStatusBlocked.
Proof.
  intros Hstable Hdry Hallow (t & Hd1 & Hwf & Hnew & Hrows & _)%CreateDefinition_inr Hb (row & inputs & _ & _ & Hg & Hi & _ & Hs)%Start_saga Hblocked.
  cbn [sr_DefinitionID sr_Version sr_Inputs sr_ApprovalContext] in *.
  destruct (GetDefinition _ _ _) as [g db3] eqn:Hget in Hg. cbn in Hg. subst g.
  assert (Hrow : pr_Definition row = d1).
  { eapply (GetDefinition_found d1 t); [done|done| | | |exact Hget].
    - apply serve_all_holds. unfold holds. by rewrite Hrows.
    - rewrite Hd1. cbn [stamp df_Metadata normalizeDefinition normalize_metadata md_ID]. by rewrite !TrimSpace_ToLower_idem.
    - rewrite Hd1. cbn [stamp df_Metadata normalizeDefinition normalize_metadata md_Version]. by rewrite !TrimSpace_idem. }
  rewrite Hrow in Hs, Hi. destruct (Hs Hb) as [Hsaga Hhonest]. clear Hs.
  assert (Hinputs : dy_ResolvedInputs r = inputs).
  { revert Hdry. unfold runDryRun. destruct (ValidateDefinition d) as [|d'] eqn:Hv; [done|]. apply ValidateDefinition_inr in Hv as [-> _].
    rewrite Hd1 in Hi. cbn [stamp df_Inputs] in Hi. rewrite Hi. destruct (workflow_policy _ _). by intros [= <-]. }
  change (ex_Status x) with (v_status (view_of x log)) in Hblocked. change log with (v_log (view_of x log)) in Hhonest.
  destruct Hsaga as [| |before st after gate l undo answers category message Hsteps _ [p _ HF] _]; [done|done|]. cbn [v_log] in Hhonest.
  apply Forall_app in Hhonest as [_ Hhonest]. apply Forall_app in Hhonest as [Hhonest _]. apply Forall_cons in Hhonest as [[n ->] _].
  assert (Hhard : hard (ps_Outcome (dy_WorkflowPolicy r))).
  { eapply (dry_run_hard d provided r (length before) st n); [done|done| |].
    - rewrite Hd1 in Hsteps. cbn [stamp df_Steps] in Hsteps. by rewrite Hsteps, list_lookup_middle.
    - rewrite Hinputs. rewrite Hd1 in HF. destruct (lets_pass_dec (simulate n (question (normalizeDefinition d) inputs (length before) st))) as [Hp|]; [|by left].
      right. destruct (required (sp_Approval st)) eqn:E1; [by left|]. destruct (required (df_Approval (normalizeDefinition d))) eqn:E2; [by right|].
      destruct HF. split; [exact Hp|]. split; by apply not_required_met. }
  by rewrite Hallow in Hhard.
Qed.
End packs.
