(* ===== verification/PackExamples.v ===== *)
(** * Automation packs at work

    A deployment in three steps, run with an action runner that cannot verify it;
    the theorems of PackGuarantees.v applied to it, and behaviours that the
    documentation does not suggest. *)
From S2P Require Import Prelude GoStrings GoErrors GoTime GoFloat Protocol PolicyTemplates ApprovalQueue CapacityPolicy GoSql GoRuntime PackTypes.
From S2P Require Import PackDryRun PackRuntime PackStore PackSafety PackValidation PackGuarantees.
Import ExampleHost.
Local Open Scope go_scope.
Local Open Scope Z_scope.

Module PackRun.
(** Patterns that match everything; whole numbers printed as integers. *)
#[export] Instance plain_text : Text :=
  {| regexp_MatchString := λ _ _, Some true; format_shortest := λ f, Itoa (int64_of_float amd64_overflow f);
     format_plain := λ f, Itoa (int64_of_float amd64_overflow f) |}.

Definition no_constraints : InputConstraints :=
  {| ic_MinLength := None; ic_MaxLength := None; ic_Pattern := ""; ic_Minimum := None; ic_Maximum := None; ic_Enum := []; ic_MinItems := None; ic_MaxItems := None |}.
Definition one_approver : ApprovalRequirement :=
  {| ar_Required := true; ar_Policy := ""; ar_Reason := ""; ar_MinimumApprovers := 1; ar_ApproverRoles := ["ops"%string] |}.
Definition outcome : ExpectedOutcome :=
  {| eo_ID := ""; eo_Description := "deployed"; eo_SuccessCriteria := "the service answers"; eo_StepID := "apply"; eo_Required := true |}.
Definition step (id action : string) (retries : Z) (undo : option RollbackHook) (approval : option ApprovalRequirement) : Step :=
  {| sp_ID := id; sp_Name := ""; sp_Description := ""; sp_Action := action; sp_Parameters := [("target", VString "{{ inputs.host }}")]%string;
     sp_Mutating := None; sp_TimeoutSeconds := 10; sp_MaxRetries := retries; sp_Rollback := undo; sp_Approval := approval; sp_ExpectedOutcomes := [] |}.
Definition undo_apply : RollbackHook := {| rh_Action := "undo_apply"; rh_Parameters := [("target", VString "{{inputs.host}}")]%string; rh_TimeoutSeconds := 0 |}.
Definition pack (version : string) (approval : option ApprovalRequirement) (steps : list Step) : Definition_ :=
  {| df_Metadata := {| md_ID := "Ops.Deploy "; md_Name := "Deploy"; md_Version := version; md_Description := "" |};
     df_Inputs := [ {| in_Name := "host"; in_Type := "String"; in_Description := ""; in_Required := true; in_Default := VNil; in_Constraints := no_constraints |} ];
     df_Approval := None; df_Steps := steps; df_ExpectedOutcomes := [outcome]; df_CreatedAt := 0; df_UpdatedAt := 0 |}.
Definition deploy : Definition_ :=
  pack "1.0.0" None [step "inspect" "read" 0 None None; step "apply" "apply" 2 (Some undo_apply) (Some one_approver); step "verify" "check" 1 None None].

Definition yes (n : Z) : ApprovalDecision_ := {| ad_Approved := true; ad_ApproverCount := n; ad_ApprovedBy := []; ad_Note := "" |}.
Definition approved (n : Z) : ExecutionApprovalContext := {| ac_Workflow := no_decision; ac_Steps := [("apply"%string, yes n)] |}.
Definition request (approvals : ExecutionApprovalContext) : StartExecutionRequest :=
  {| sr_DefinitionID := "ops.deploy"; sr_Version := ""; sr_Inputs := [("host", VString "web-1")]%string; sr_ApprovalContext := approvals |}.

(** The runner fails the verification; the policy allows what it is asked about. *)
Definition runner (_ : nat) (_ : duration) (r : ActionRequest) : result (option ActionResult) :=
  if rq_StepID r =s "verify" then inl (ErrorString "no answer") else inr None.
Definition allow (_ : nat) (_ : PolicySimulationRequest) : PolicySimulation :=
  {| ps_Outcome := "allow"; ps_RiskLevel := "low"; ps_Summary := ""; ps_Rationale := VNil |}.

Definition empty : DB Packs := {| rows := {| pk_rows := []; pk_executions := ∅; pk_sequence := 0 |}; ticks := 0 |}.
Definition stored (d : Definition_) : DB Packs := (HandleCreateDefinition (Some d) empty).2.
Definition started (d : Definition_) (approvals : ExecutionApprovalContext) :=
  (PackStore.Start allow runner (request approvals) (stored d)).1.

(** What a log did, in short. *)
Definition brief (e : pack_event) : string * string * bool * bool :=
  match e with
  | Asked q p => (sp_ID (pq_Step q), ps_Outcome p, false, true)
  | Called _ r a => (rq_StepID r, rq_Action r, rq_Rollback r, match a with inr _ => true | inl _ => false end)
  end.
Definition story (r : result (pack_error + Execution * list pack_event)) :=
  match r with
  | inr (inr (x, log)) => Some (ex_Status x, map es_Status (ex_Steps x), ex_RollbackStatus x, map brief log)
  | _ => None
  end.
End PackRun.
Import PackRun.

Example deploy_story :
  story (started deploy (approved 1)) =
  Some ("failed", ["succeeded"; "succeeded"; "failed"], "completed",
        [("inspect", "read", false, true); ("apply", "allow", false, true); ("apply", "apply", false, true); ("verify", "check", false, false);
         ("verify", "check", false, false); ("apply", "undo_apply", true, true)])%string.
Proof. vm_compute. reflexivity. Qed.

(** ** The theorems at work *)

Lemma deploy_started :
  ∃ x log db' timeout req answer,
    PackStore.Start allow runner (request (approved 1)) (stored deploy) = (inr (inr (x, log)), db') ∧
    log !! 2%nat = Some (Called timeout req answer) ∧ rq_Rollback req = false ∧ rq_StepID req = "apply"%string.
Proof. eexists _, _, _, _, _, _. split; [vm_compute; reflexivity|]. by split_and!. Qed.
Lemma deploy_bounded row : row ∈ pk_rows (rows (stored deploy)) → bounded (pr_Definition row).
Proof.
  intros Hin. assert (E : pk_rows (rows (stored deploy)) = [pack_row (stamp (normalizeDefinition deploy) 0) 0]) by (vm_compute; reflexivity).
  rewrite E in Hin. apply list_elem_of_singleton in Hin as ->. repeat constructor.
Qed.

(** C1 at the deployment: it fails at its last step and its second one is undone. *)
Lemma execution_is_saga_witness :
  ∃ x log db' row inputs,
    PackStore.Start allow runner (request (approved 1)) (stored deploy) = (inr (inr (x, log)), db') ∧ row ∈ pk_rows (rows (stored deploy)) ∧
    saga PackStore.defaultStepTimeout (pr_Definition row) inputs (approved 1) (ex_ID x) (view_of x log).
Proof.
  destruct deploy_started as (x & log & db' & timeout & req & answer & E & _).
  destruct (execution_is_saga allow runner _ _ _ _ _ E) as (row & inputs & Hrow & _ & _ & _ & Hs).
  exists x, log, db', row, inputs. split; [exact E|]. split; [exact Hrow|]. exact (proj1 (Hs (deploy_bounded row Hrow))).
Defined.

(** C1 at the call of the mutating step: the policy was asked and the approval given. *)
Lemma mutation_needs_clearance_witness :
  ∃ x log db' timeout req answer row inputs k st,
    PackStore.Start allow runner (request (approved 1)) (stored deploy) = (inr (inr (x, log)), db') ∧
    log !! 2%nat = Some (Called timeout req answer) ∧ df_Steps (pr_Definition row) !! k = Some st ∧
    due PackStore.defaultStepTimeout (pr_Definition row) inputs (approved 1) (ex_ID x) k st req (take 2 log).
Proof.
  destruct deploy_started as (x & log & db' & timeout & req & answer & E & Hi & Hr & _).
  destruct (mutation_needs_clearance allow runner _ _ _ _ _ _ _ _ _ E Hi Hr) as (row & inputs & Hrow & _ & _ & Hs).
  destruct (Hs (deploy_bounded row Hrow)) as (k & st & Hk & Hdue & _).
  exists x, log, db', timeout, req, answer, row, inputs, k, st. exact (conj E (conj Hi (conj Hk Hdue))).
Defined.

(** C1 at the deployment, read back under its name in another spelling. *)
Lemma created_definition_served_witness :
  ∃ d1 db1, HandleCreateDefinition (Some deploy) empty = (inr (PCreated d1), db1) ∧
    (HandleGetDefinition " OPS.deploy" "1.0.0 " (serve_all allow runner [CallList; CallCreate (Some deploy)] db1)).1 = inr (PFound d1).
Proof.
  assert (E : ∃ d1 db1, HandleCreateDefinition (Some deploy) empty = (inr (PCreated d1), db1) ∧ md_ID (df_Metadata d1) = "ops.deploy"%string ∧
                        md_Version (df_Metadata d1) = "1.0.0"%string) by (eexists _, _; split; [vm_compute; reflexivity|by split]).
  destruct E as (d1 & db1 & E & Hid & Hv). exists d1, db1. split; [exact E|].
  destruct (created_definition_served allow runner _ _ _ _ E) as (_ & _ & _ & Hget). apply Hget; [reflexivity|by rewrite Hid|by rewrite Hv].
Defined.

Definition simple : Definition_ := pack "1.0.0" None [step "inspect" "read" 0 None None; step "apply" "apply" 2 (Some undo_apply) None].
(** C1 at a deployment that needs no approval: the dry run says allow and the
    execution is not blocked. *)
Lemma dry_run_not_contradicted_witness :
  ∃ r x log db2, runDryRun allow simple [("host", VString "web-1")]%string = inr r ∧
    PackStore.Start allow runner {| sr_DefinitionID := "ops.deploy"; sr_Version := "1.0.0"; sr_Inputs := [("host", VString "web-1")]%string;
                                    sr_ApprovalContext := approved 0 |} (serve_all allow runner [CallList] (stored simple)) = (inr (inr (x, log)), db2) ∧
    ex_Status x ≠ ExecutionStatusBlocked.
Proof.
  assert (Hd : ∃ r, runDryRun allow simple [("host", VString "web-1")]%string = inr r ∧ ps_Outcome (dy_WorkflowPolicy r) = PolicyOutcomeAllow)
    by (eexists; split; [vm_compute; reflexivity|reflexivity]).
  assert (Hc : CreateDefinition simple empty = (inr (inr (stamp (normalizeDefinition simple) 0)), stored simple)) by (vm_compute; reflexivity).
  assert (Hs : ∃ x log db2, PackStore.Start allow runner {| sr_DefinitionID := "ops.deploy"; sr_Version := "1.0.0";
      sr_Inputs := [("host", VString "web-1")]%string; sr_ApprovalContext := approved 0 |} (serve_all allow runner [CallList] (stored simple)) =
      (inr (inr (x, log)), db2)) by (eexists _, _, _; vm_compute; reflexivity).
  destruct Hd as (r & Hd & Ho), Hs as (x & log & db2 & Hs). exists r, x, log, db2. split; [exact Hd|]. split; [exact Hs|].
  refine (dry_run_not_contradicted allow runner simple _ r empty _ (stored simple) [CallList] (approved 0) x log db2 (λ _ _ _, eq_refl) Hd Ho Hc _ Hs).
  repeat constructor.
Defined.

(** ** Behaviours *)

(** A count of approvers below zero meets any minimum. *)
Theorem negative_count_approves :
  let two := {| ar_Required := true; ar_Policy := ""; ar_Reason := ""; ar_MinimumApprovers := 2; ar_ApproverRoles := [] |} in
  let d := pack "1.0.0" None [step "apply" "apply" 0 None (Some two)] in
  story (started d (approved 1)) = Some ("blocked", ["blocked"], "not_required", [("apply", "allow", false, true)])%string ∧
  story (started d (approved (-1))) =
    Some ("succeeded", ["succeeded"], "not_required", [("apply", "allow", false, true); ("apply", "apply", false, true)])%string.
Proof. vm_compute. split; reflexivity. Qed.

(** The largest number of retries overflows: the step is not attempted at all, and
    the execution succeeds while the step is left running. *)
Theorem retries_overflow :
  story (started (pack "1.0.0" None [step "apply" "apply" (2 ^ 63 - 1) None None]) (approved 1)) =
  Some ("succeeded", ["running"], "not_required", [("apply", "allow", false, true)])%string.
Proof. vm_compute. reflexivity. Qed.

(** A timeout over 292 years overflows to a deadline in the past. *)
Theorem timeout_overflow : stepTimeout 9223372037 PackStore.defaultStepTimeout = -9223372036709551616.
Proof. vm_compute. reflexivity. Qed.

(** Commands are read-only by prefix: the gates are not consulted for a deletion by
    [find], nor for the tools whose names begin like those of read-only ones. *)
Theorem read_only_by_prefix :
  let run text := {| sp_ID := "apply"; sp_Name := ""; sp_Description := ""; sp_Action := "run_command"; sp_Parameters := [("command", VString text)]%string;
                     sp_Mutating := None; sp_TimeoutSeconds := 0; sp_MaxRetries := 0; sp_Rollback := None; sp_Approval := Some one_approver;
                     sp_ExpectedOutcomes := [] |} in
  Forall (λ text, inferStepMutating (run text) [("command", VString text)]%string 0 = false)
    ["find / -delete"; "psql -c 'drop table users'"; "echo x > /etc/passwd"; "topgun --wipe"]%string ∧
  story (started (pack "1.0.0" None [run "psql -c 'drop table users'"%string]) {| ac_Workflow := no_decision; ac_Steps := [] |}) =
    Some ("succeeded", ["succeeded"], "not_required", [("apply", "run_command", false, true)])%string.
Proof.
  split; [|vm_compute; reflexivity]. repeat first [apply Forall_nil_2|apply Forall_cons_2; [vm_compute; reflexivity|]].
Qed.

(** Without a version the definition stored last is returned, not the one with the
    highest version. *)
Theorem last_stored_not_latest_version :
  let one := step "apply" "read" 0 None None in
  let db := serve_all allow runner [CallCreate (Some (pack "2.0.0" None [one])); CallCreate (Some (pack "1.0.0" None [one]))] empty in
  match (HandleGetDefinition "ops.deploy" "" db).1 with inr (PFound d) => md_Version (df_Metadata d) | _ => ""%string end = "1.0.0"%string.
Proof. vm_compute. reflexivity. Qed.

(** An outcome of the policy that is none of the three lets a mutating step pass. *)
Theorem unknown_outcome_passes :
  let unsure (_ : nat) (_ : PolicySimulationRequest) : PolicySimulation := {| ps_Outcome := "defer"; ps_RiskLevel := ""; ps_Summary := ""; ps_Rationale := VNil |} in
  story (PackStore.Start unsure runner (request (approved 1)) (stored simple)).1 =
  Some ("succeeded", ["succeeded"; "succeeded"], "not_required",
        [("inspect", "read", false, true); ("apply", "defer", false, true); ("apply", "apply", false, true)])%string.
Proof. vm_compute. reflexivity. Qed.

(** The server installs no action runner, so a step other than a "noop" fails,
    also when its policy allows it. *)
Theorem server_has_no_runner :
  let core := Some {| capacityThresholds := DefaultCapacityThresholds; twoPersonMode := false; appliedPolicy := ∅ |} in
  let run := {| sp_ID := "apply"; sp_Name := ""; sp_Description := ""; sp_Action := "run_command"; sp_Parameters := [("command", VString "uptime")]%string;
                sp_Mutating := None; sp_TimeoutSeconds := 30; sp_MaxRetries := 1; sp_Rollback := None; sp_Approval := None; sp_ExpectedOutcomes := [] |} in
  match (PackStore.Start (server_simulate core (λ _, None)) noop_act (request (approved 0)) (stored (pack "1.0.0" None [run]))).1 with
  | inr (inr (x, _)) => (ex_Status x, xf_Message <$> ex_Failure x)
  | _ => (""%string, None)
  end = ("failed", Some ("step apply failed: no action runner configured for action " +:+ Quote "run_command"))%string.
Proof. vm_compute. reflexivity. Qed.
