(* ===== verification/CommandStream.v ===== *)
(** * The command stream recorder
    (src/internal/controlplane/cmdtracker/stream_recorder.go, and the stream and
    replay endpoints of src/internal/controlplane/server/routes.go)

    The recorder keeps the events of a request in a table, the position of each
    request in memory, and live subscribers.  Subscribers are pointers into a heap; a
    channel is the list of its buffered events, oldest first.  Every operation holds
    the mutex, so operations run one after the other; a receive takes the oldest event
    of a channel at any time.  Sequence numbers are [Z]: they start at 1 and grow by
    one per stored row. *)
From S2P Require Import Prelude GoStrings GoErrors GoTime GoFloat Protocol GoSql GoRuntime PackTypes PackDryRun AsyncTypes AsyncStore Auth.
Local Open Scope go_scope.
Local Open Scope Z_scope.

Definition defaultStreamReplayLimit : Z := 500.
Definition maxStreamReplayLimit : Z := 5000.
Definition StreamEventOutput : string := "output".
Definition StreamEventResult : string := "result".

Record StreamEvent := {
  se_RequestID : string;
  se_Seq : Z;
  se_Kind : string;
  se_Stream : string;
  se_Data : string;
  se_ChunkSeq : Z;
  se_Final : bool;
  se_ExitCode : option Z;
  se_Meta : list (string * any);
  se_CreatedAt : time;
}.

Record StreamReplayQuery := { q_ResumeToken : string; q_LastSeq : Z; q_Since : option time; q_Limit : Z }.

Record StreamReplayResult := {
  sr_Events : list StreamEvent;
  sr_EarliestSeq : Z;
  sr_LatestSeq : Z;
  sr_NextSeq : Z;
  sr_HasMore : bool;
  sr_Truncated : bool;
  sr_MissedFromSeq : Z;
  sr_MissedToSeq : Z;
  sr_ResumeToken : string;
}.

Record StreamRetention := { MaxEventsPerRequest : Z; MaxEventsTotal : Z; MaxAge : duration }.
Definition normalizeStreamRetention (cfg : StreamRetention) : StreamRetention :=
  {| MaxEventsPerRequest := if MaxEventsPerRequest cfg <=? 0 then 2000 else MaxEventsPerRequest cfg;
     MaxEventsTotal := if MaxEventsTotal cfg <=? 0 then 100000 else MaxEventsTotal cfg;
     MaxAge := if MaxAge cfg <=? 0 then 24 * 3600 * Second else MaxAge cfg |}.

Record StreamSubscriber := { sub_RequestID : string; sub_Ch : list StreamEvent; sub_cap : nat; sub_afterSeq : Z; sub_done : bool }.
Record streamState := { nextSeq : Z; nextOutputSeq : Z; pendingOutput : gmap Z OutputChunkPayload }.

Record StreamRecorder := {
  rc_rows : list StreamEvent;
  rc_states : gmap string streamState;
  rc_subs : gmap string (list nat);
  rc_heap : list StreamSubscriber;
}.
Definition set_rc_rows (l : list StreamEvent) (r : StreamRecorder) : StreamRecorder :=
  {| rc_rows := l; rc_states := rc_states r; rc_subs := rc_subs r; rc_heap := rc_heap r |}.
Definition set_rc_state (id : string) (s : streamState) (r : StreamRecorder) : StreamRecorder :=
  {| rc_rows := rc_rows r; rc_states := <[id := s]> (rc_states r); rc_subs := rc_subs r; rc_heap := rc_heap r |}.
Definition set_rc_subs (m : gmap string (list nat)) (h : list StreamSubscriber) (r : StreamRecorder) : StreamRecorder :=
  {| rc_rows := rc_rows r; rc_states := rc_states r; rc_subs := m; rc_heap := h |}.

(** ** Resume tokens *)

(** [strconv.ParseInt(s, 10, 64)] *)
Fixpoint dec_value (acc : Z) (s : string) : option Z :=
  match s with
  | EmptyString => Some acc
  | String c s => if is_digit c then dec_value (acc * 10 + (Z.of_nat (nat_of_ascii c) - 48)) s else None
  end.
Definition in_int64 (n : Z) : option Z := if (- 2 ^ 63 <=? n) && (n <? 2 ^ 63) then Some n else None.
Definition ParseInt (s : string) : option Z :=
  match s with
  | String "-"%char EmptyString | String "+"%char EmptyString | EmptyString => None
  | String "-"%char s => n ← dec_value 0 s; in_int64 (- n)
  | String "+"%char s => n ← dec_value 0 s; in_int64 n
  | s => n ← dec_value 0 s; in_int64 n
  end.

(** The text before and after the last colon, if there is one. *)
Fixpoint split_last_colon (s : string) : option (string * string) :=
  match s with
  | EmptyString => None
  | String c rest =>
      match split_last_colon rest with
      | Some (a, b) => Some (String c a, b)
      | None => if Ascii.eqb c ":" then Some (EmptyString, rest) else None
      end
  end.

Definition EncodeResumeToken (requestID : string) (seq : Z) : string :=
  let requestID := TrimSpace requestID in
  if requestID =s "" then "" else (requestID +:+ ":" +:+ Itoa (Z.max 0 seq))%string.

Definition invalid_token : go_error := ErrorString "invalid resume token".
Definition DecodeResumeToken (token : string) : result (string * Z) :=
  let token := TrimSpace token in
  if token =s "" then inr (""%string, 0)
  else match split_last_colon token with
  | None | Some (EmptyString, _) | Some (_, EmptyString) => inl invalid_token
  | Some (before, after) =>
      let requestID := TrimSpace before in
      if requestID =s "" then inl invalid_token
      else match ParseInt (TrimSpace after) with
      | Some seq => if seq <? 0 then inl invalid_token else inr (requestID, seq)
      | None => inl invalid_token
      end
  end.

Definition token_mismatch : go_error := ErrorString "resume token request_id mismatch".
Definition resolveReplayCursor (requestID : string) (q : StreamReplayQuery) : result Z :=
  let lastSeq := if q_LastSeq q <? 0 then 0 else q_LastSeq q in
  if TrimSpace (q_ResumeToken q) =s "" then inr lastSeq
  else match DecodeResumeToken (q_ResumeToken q) with
  | inl e => inl e
  | inr (tokenReqID, seq) =>
      if (tokenReqID <>s "") && (tokenReqID <>s requestID) then inl token_mismatch else inr (if lastSeq <? seq then seq else lastSeq)
  end.

(** ** The table *)

Definition of_request (requestID : string) (e : StreamEvent) : bool := se_RequestID e =s requestID.
Definition max_of (l : list Z) : option Z := match l with [] => None | n :: l => Some (foldl Z.max n l) end.
Definition min_of (l : list Z) : option Z := match l with [] => None | n :: l => Some (foldl Z.min n l) end.
Definition seqs_of (requestID : string) (l : list StreamEvent) : list Z := map se_Seq (List.filter (of_request requestID) l).
Definition chunk_seqs_of (requestID : string) (l : list StreamEvent) : list Z :=
  map se_ChunkSeq (List.filter (λ e, of_request requestID e && (se_Kind e =s StreamEventOutput)) l).

Definition same_event (a b : StreamEvent) : bool := (se_RequestID a =s se_RequestID b) && (se_Seq a =? se_Seq b).
Definition duplicate_event : go_error :=
  ErrorString "constraint failed: UNIQUE constraint failed: command_stream_events.request_id, command_stream_events.seq (1555)".
Definition insert_event (e : StreamEvent) (r : StreamRecorder) : result unit * StreamRecorder :=
  if existsb (same_event e) (rc_rows r) then (inl duplicate_event, r) else (inr tt, set_rc_rows (rc_rows r ++ [e]) r).
Definition delete_where (p : StreamEvent → bool) (r : StreamRecorder) : result unit * StreamRecorder :=
  (inr tt, set_rc_rows (List.filter (λ e, negb (p e)) (rc_rows r)) r).

(** [ORDER BY created_at ASC, request_id ASC, seq ASC] *)
Definition oldest_first (a b : StreamEvent) : bool :=
  if text_lt (se_CreatedAt a) (se_CreatedAt b) then true else if text_lt (se_CreatedAt b) (se_CreatedAt a) then false
  else if se_RequestID a =s se_RequestID b then se_Seq a <=? se_Seq b else String.leb (se_RequestID a) (se_RequestID b).
Definition by_seq (a b : StreamEvent) : bool := se_Seq a <=? se_Seq b.

Section recorder.
Context `{Host} (retention : StreamRetention) (coin : nat → bool).
Notation M := (GoSql.M StreamRecorder).

(** [GROUP BY request_id]: one row per request, in no particular order. *)
Definition request_ids (l : list StreamEvent) : list string := order_by (λ _ _, true) (remove_dups (map se_RequestID l)).

Fixpoint delete_older (items : list (string * Z)) : M unit :=
  match items with
  | [] => mret tt
  | (requestID, cutoffSeq) :: items =>
      _ ← exec (delete_where (λ e, of_request requestID e && (se_Seq e <=? cutoffSeq)));
      delete_older items
  end.

Definition prune_by_age : M unit :=
  if MaxAge retention <=? 0 then mret tt
  else now ← time_now; exec (delete_where (λ e, text_lt (se_CreatedAt e) (now - MaxAge retention))).

Definition prune_by_request : M unit :=
  if MaxEventsPerRequest retention <=? 0 then mret tt
  else
    groups ← query (λ r, inr (map (λ id, (id, default 0 (max_of (seqs_of id (rc_rows r))) - MaxEventsPerRequest retention)) (request_ids (rc_rows r))));
    delete_older (List.filter (λ g, 0 <? g.2) groups).

Definition prune_by_total : M unit :=
  if MaxEventsTotal retention <=? 0 then mret tt
  else
    total ← query (λ r, inr (Z.of_nat (length (rc_rows r))));
    let excess := total - MaxEventsTotal retention in
    if excess <=? 0 then mret tt
    else exec (λ r, let doomed := take (Z.to_nat excess) (order_by oldest_first (rc_rows r)) in delete_where (λ e, existsb (same_event e) doomed) r).

Definition pruneLocked : M unit :=
  _ ← prune_by_age;
  _ ← prune_by_request;
  prune_by_total.

(** [NewStreamRecorder] on an existing table. *)
Definition NewStreamRecorder (rows : list StreamEvent) : StreamRecorder := {| rc_rows := rows; rc_states := ∅; rc_subs := ∅; rc_heap := [] |}.
Definition reopen : M unit :=
  _ ← puts (λ r, NewStreamRecorder (rc_rows r));
  pruneLocked.

Definition loadStateLocked (requestID : string) : M streamState :=
  known ← gets (λ r, rc_states r !! requestID);
  match known with
  | Some s => mret s
  | None =>
      maxSeq ← query (λ r, inr (max_of (seqs_of requestID (rc_rows r))));
      maxChunk ← query (λ r, inr (max_of (chunk_seqs_of requestID (rc_rows r))));
      let s := {| nextSeq := match maxSeq with Some n => n + 1 | None => 1 end;
                  nextOutputSeq := match maxChunk with Some n => n + 1 | None => 1 end; pendingOutput := ∅ |} in
      _ ← puts (set_rc_state requestID s);
      mret s
  end.

(** The send to one subscriber: when it is done and has room both cases of the
    select are ready, and Go picks one. *)
Definition room (s : StreamSubscriber) : bool := Nat.ltb (length (sub_Ch s)) (sub_cap s).
Definition push_event (e : StreamEvent) (s : StreamSubscriber) : StreamSubscriber :=
  {| sub_RequestID := sub_RequestID s; sub_Ch := sub_Ch s ++ [e]; sub_cap := sub_cap s; sub_afterSeq := sub_afterSeq s; sub_done := sub_done s |}.
Definition offer_event (skip : bool) (e : StreamEvent) (s : StreamSubscriber) : StreamSubscriber :=
  if se_Seq e <=? sub_afterSeq s then s else if negb (room s) then s else if sub_done s && skip then s else push_event e s.
Definition subs_of (requestID : string) (r : StreamRecorder) : list nat := default [] (rc_subs r !! requestID).
Definition dispatchLocked (e : StreamEvent) : M unit :=
  puts (λ r, set_rc_subs (rc_subs r) (foldl (λ h n, alter (offer_event (coin n) e) n h) (rc_heap r) (subs_of (se_RequestID e) r)) r).

Definition stamp_event (requestID : string) (seq : Z) (now : time) (e : StreamEvent) : StreamEvent :=
  {| se_RequestID := requestID; se_Seq := seq; se_Kind := se_Kind e; se_Stream := se_Stream e; se_Data := se_Data e; se_ChunkSeq := se_ChunkSeq e;
     se_Final := se_Final e; se_ExitCode := se_ExitCode e; se_Meta := se_Meta e; se_CreatedAt := now |}.
Definition set_nextSeq (n : Z) (s : streamState) : streamState :=
  {| nextSeq := n; nextOutputSeq := nextOutputSeq s; pendingOutput := pendingOutput s |}.
Definition set_output (n : Z) (p : gmap Z OutputChunkPayload) (s : streamState) : streamState :=
  {| nextSeq := nextSeq s; nextOutputSeq := n; pendingOutput := p |}.

(** The state is a pointer: an assignment is seen by every holder. *)
Definition modify_state (requestID : string) (f : streamState → streamState) : M unit :=
  puts (λ r, match rc_states r !! requestID with Some s => set_rc_state requestID (f s) r | None => r end).

Definition insertEventLocked (requestID : string) (evt : StreamEvent) : M StreamEvent :=
  state ← loadStateLocked requestID;
  let seq := if nextSeq state <=? 0 then 1 else nextSeq state in
  _ ← modify_state requestID (set_nextSeq seq);
  now ← time_now;
  let evt := stamp_event requestID seq now evt in
  _ ← exec (insert_event evt);
  _ ← modify_state requestID (set_nextSeq (seq + 1));
  _ ← pruneLocked;
  _ ← dispatchLocked evt;
  mret evt.

(** ** Operations *)

Definition AppendMarker (requestID kind data : string) (meta : list (string * any)) : M (option StreamEvent) :=
  let requestID := TrimSpace requestID in
  if requestID =s "" then mret None
  else
    let kind := if TrimSpace kind =s "" then StreamEventResult else TrimSpace kind in
    e ← insertEventLocked requestID {| se_RequestID := requestID; se_Seq := 0; se_Kind := kind; se_Stream := ""; se_Data := TrimSpace data;
          se_ChunkSeq := 0; se_Final := false; se_ExitCode := None; se_Meta := meta; se_CreatedAt := 0 |};
    mret (Some e).

Definition output_event (requestID : string) (c : OutputChunkPayload) : StreamEvent :=
  {| se_RequestID := requestID; se_Seq := 0; se_Kind := StreamEventOutput; se_Stream := TrimSpace (chunk_Stream c); se_Data := chunk_Data c;
     se_ChunkSeq := chunk_Seq c; se_Final := chunk_Final c; se_ExitCode := if chunk_Final c then Some (chunk_ExitCode c) else None; se_Meta := [];
     se_CreatedAt := 0 |}.

(** The loop of [AppendOutputChunk]; each round takes a chunk out of the pending
    ones. *)
Fixpoint flush (fuel : nat) (requestID : string) : M (list StreamEvent) :=
  match fuel with
  | O => mret []
  | S fuel =>
      state ← loadStateLocked requestID;
      match pendingOutput state !! nextOutputSeq state with
      | None => mret []
      | Some next =>
          _ ← modify_state requestID (λ s, set_output (nextOutputSeq s) (delete (nextOutputSeq s) (pendingOutput s)) s);
          stored ← insertEventLocked requestID (output_event requestID next);
          _ ← modify_state requestID (λ s, set_output (nextOutputSeq s + 1) (pendingOutput s) s);
          rest ← flush fuel requestID;
          mret (stored :: rest)
      end
  end.

Definition set_chunk_seq (n : Z) (c : OutputChunkPayload) : OutputChunkPayload :=
  {| chunk_RequestID := chunk_RequestID c; chunk_Stream := chunk_Stream c; chunk_Data := chunk_Data c; chunk_Seq := n; chunk_Final := chunk_Final c;
     chunk_ExitCode := chunk_ExitCode c |}.
Definition keep_first (c : OutputChunkPayload) (s : streamState) : streamState :=
  match pendingOutput s !! chunk_Seq c with
  | Some _ => s
  | None => set_output (nextOutputSeq s) (<[chunk_Seq c := c]> (pendingOutput s)) s
  end.

Definition AppendOutputChunk (chunk : OutputChunkPayload) : M (list StreamEvent) :=
  let requestID := TrimSpace (chunk_RequestID chunk) in
  if requestID =s "" then mret []
  else
    state ← loadStateLocked requestID;
    let chunk := if chunk_Seq chunk <=? 0 then set_chunk_seq (nextOutputSeq state) chunk else chunk in
    if chunk_Seq chunk <? nextOutputSeq state then mret []
    else
      _ ← modify_state requestID (keep_first chunk);
      n ← gets (λ r, match rc_states r !! requestID with Some s => size (pendingOutput s) | None => 0%nat end);
      flush (S n) requestID.

(** The column [kind] is trimmed when it is read. *)
Definition scanStreamEvent (e : StreamEvent) : StreamEvent :=
  {| se_RequestID := se_RequestID e; se_Seq := se_Seq e; se_Kind := TrimSpace (se_Kind e); se_Stream := se_Stream e; se_Data := se_Data e;
     se_ChunkSeq := se_ChunkSeq e; se_Final := se_Final e; se_ExitCode := se_ExitCode e; se_Meta := se_Meta e; se_CreatedAt := se_CreatedAt e |}.

Definition replay_limit (q : StreamReplayQuery) : Z :=
  let limit := if q_Limit q <=? 0 then defaultStreamReplayLimit else q_Limit q in
  if maxStreamReplayLimit <? limit then maxStreamReplayLimit else limit.
Definition since_ok (q : StreamReplayQuery) (e : StreamEvent) : bool :=
  match q_Since q with Some t => IsZero t || text_le t (se_CreatedAt e) | None => true end.

Definition no_replay : StreamReplayResult :=
  {| sr_Events := []; sr_EarliestSeq := 0; sr_LatestSeq := 0; sr_NextSeq := 0; sr_HasMore := false; sr_Truncated := false; sr_MissedFromSeq := 0;
     sr_MissedToSeq := 0; sr_ResumeToken := "" |}.

Definition replayLocked (requestID : string) (q : StreamReplayQuery) : M StreamReplayResult :=
  match resolveReplayCursor requestID q with
  | inl e => fail e
  | inr lastSeq =>
      let lastSeq := if lastSeq <? 0 then 0 else lastSeq in
      let limit := replay_limit q in
      ends ← query (λ r, inr (min_of (seqs_of requestID (rc_rows r)), max_of (seqs_of requestID (rc_rows r))));
      let earliest := default 0 ends.1 in
      let latest := default 0 ends.2 in
      let truncated := (0 <? earliest) && (to_int64 (lastSeq + 1) <? earliest) in
      events ← query (λ r, inr (map scanStreamEvent (take (Z.to_nat (limit + 1)) (order_by by_seq
                  (List.filter (λ e, of_request requestID e && (lastSeq <? se_Seq e) && since_ok q e) (rc_rows r))))));
      let page := take (Z.to_nat limit) events in
      let next := match last page with
                  | Some e => se_Seq e
                  | None => if (0 <? latest) && (latest <? lastSeq) then latest else lastSeq end in
      let next := if next <? 0 then 0 else next in
      mret {| sr_Events := page; sr_EarliestSeq := earliest; sr_LatestSeq := latest; sr_NextSeq := next;
              sr_HasMore := limit <? Z.of_nat (length events); sr_Truncated := truncated;
              sr_MissedFromSeq := if truncated then to_int64 (lastSeq + 1) else 0; sr_MissedToSeq := if truncated then earliest - 1 else 0;
              sr_ResumeToken := EncodeResumeToken requestID next |}
  end.

Definition Replay (requestID : string) (q : StreamReplayQuery) : M StreamReplayResult :=
  if TrimSpace requestID =s "" then mret no_replay else replayLocked (TrimSpace requestID) q.

(** [ReplayAndSubscribe] returns the address of the subscriber, if there is one. *)
Definition ReplayAndSubscribe (requestID : string) (q : StreamReplayQuery) (bufSize : Z) : M (StreamReplayResult * option nat) :=
  let requestID := TrimSpace requestID in
  if requestID =s "" then mret (no_replay, None)
  else
    result ← replayLocked requestID q;
    let sub := {| sub_RequestID := requestID; sub_Ch := []; sub_cap := if bufSize <=? 0 then 256%nat else Z.to_nat bufSize;
                  sub_afterSeq := sr_NextSeq result; sub_done := false |} in
    n ← gets (λ r, length (rc_heap r));
    _ ← puts (λ r, set_rc_subs (<[requestID := subs_of requestID r ++ [n]]> (rc_subs r)) (rc_heap r ++ [sub]) r);
    mret (result, Some n).

(** The cleanup function, in its two halves, and a receive. *)
Definition close_done (s : StreamSubscriber) : StreamSubscriber :=
  {| sub_RequestID := sub_RequestID s; sub_Ch := sub_Ch s; sub_cap := sub_cap s; sub_afterSeq := sub_afterSeq s; sub_done := true |}.
Fixpoint remove_first (n : nat) (l : list nat) : list nat :=
  match l with [] => [] | m :: l => if Nat.eqb m n then l else m :: remove_first n l end.
Definition close_subscriber (n : nat) (r : StreamRecorder) : StreamRecorder := set_rc_subs (rc_subs r) (alter close_done n (rc_heap r)) r.
Definition remove_subscriber (requestID : string) (n : nat) (r : StreamRecorder) : StreamRecorder :=
  let l := remove_first n (subs_of requestID r) in
  set_rc_subs (match l with [] => delete requestID (rc_subs r) | _ => <[requestID := l]> (rc_subs r) end) (rc_heap r) r.
Definition receive (n : nat) (r : StreamRecorder) : option (StreamEvent * StreamRecorder) :=
  match rc_heap r !! n with
  | Some s =>
      match sub_Ch s with
      | [] => None
      | e :: rest =>
          Some (e, set_rc_subs (rc_subs r) (<[n := {| sub_RequestID := sub_RequestID s; sub_Ch := rest; sub_cap := sub_cap s;
                                                      sub_afterSeq := sub_afterSeq s; sub_done := sub_done s |}]> (rc_heap r)) r)
      end
  | None => None
  end.

(** ** The endpoints *)

(** A request to read a stream.  [tq_Since] is the parameter, if it is there, as
    [parseRFC3339] reads it. *)
Record stream_request := {
  tq_Permitted : bool;
  tq_Context : Auth.Context;
  tq_RequestID : string;
  tq_ResumeToken : string;
  tq_Cursor : string;
  tq_LastSeq : string;
  tq_LastEventID : string;
  tq_Since : option (option time);
  tq_Limit : string;
}.

Inductive stream_reply :=
  | SRefused
  | SError (status : Z) (code message : string)
  | SReplay (requestID : string) (r : StreamReplayResult)
  | SStream (requestID : string) (meta : StreamReplayResult) (written : list StreamEvent) (listening : option nat)
  | SHub (requestID : string).

Definition bad_query (message : string) : result StreamReplayQuery := inl (ErrorString message).
Definition token_of (r : stream_request) : string :=
  if TrimSpace (tq_ResumeToken r) =s "" then TrimSpace (tq_Cursor r) else TrimSpace (tq_ResumeToken r).
(** The parameter [last_seq], and the header that may raise it. *)
Definition last_seq_of (r : stream_request) : option Z :=
  if TrimSpace (tq_LastSeq r) =s "" then Some 0
  else match ParseInt (TrimSpace (tq_LastSeq r)) with Some n => if n <? 0 then None else Some n | None => None end.
Definition raise_to_header (r : stream_request) (n : Z) : Z :=
  match ParseInt (TrimSpace (tq_LastEventID r)) with Some m => if n <? m then m else n | None => n end.
Definition limit_of (r : stream_request) : option Z :=
  if TrimSpace (tq_Limit r) =s "" then Some 2000
  else match ParseInt (TrimSpace (tq_Limit r)) with Some n => if n <=? 0 then None else Some n | None => None end.

Definition commandReplayQueryFromRequest (r : stream_request) (requestID : string) : result StreamReplayQuery :=
  match last_seq_of r with
  | None => bad_query "last_seq must be a non-negative integer"
  | Some lastSeq =>
      match tq_Since r with
      | Some None => bad_query "invalid since timestamp"
      | since =>
          match limit_of r with
          | None => bad_query "limit must be a positive integer"
          | Some limit =>
              let q := {| q_ResumeToken := token_of r; q_LastSeq := raise_to_header r lastSeq; q_Since := mjoin since; q_Limit := limit |} in
              if token_of r =s "" then inr q
              else match DecodeResumeToken (token_of r) with
              | inl e => inl e
              | inr (tokenReqID, _) => if (tokenReqID <>s "") && (tokenReqID <>s requestID) then inl token_mismatch else inr q
              end
          end
      end
  end.

Section endpoints.
Context (isolation : bool) (jobs : option (string → result AsyncJob)) (recording : bool).

(** The check of the workspace: the job that owns the request, if it is found. *)
Definition stream_forbidden (r : stream_request) (requestID : string) : bool :=
  let wsID := workspaceJobFilter isolation (tq_Context r) in
  (wsID <>s "") &&
  match jobs with
  | Some get => match get requestID with inr job => (j_WorkspaceID job <>s "") && (j_WorkspaceID job <>s wsID) | inl _ => false end
  | None => false
  end.

Definition forbidden_stream : stream_reply := SError 403 "workspace_forbidden" "access to this stream is not permitted for your workspace".

Definition handleCommandReplay (r : stream_request) : M stream_reply :=
  let requestID := TrimSpace (tq_RequestID r) in
  if negb (tq_Permitted r) then mret SRefused
  else if requestID =s "" then mret (SError 400 "invalid_request" "request_id required")
  else if stream_forbidden r requestID then mret forbidden_stream
  else if negb recording then mret (SError 503 "service_unavailable" "command stream replay unavailable")
  else match commandReplayQueryFromRequest r requestID with
  | inl e => mret (SError 400 "invalid_request" (Error e))
  | inr q =>
      replay ← attempt (Replay requestID q);
      mret match replay with inl e => SError 500 "internal_error" (Error e) | inr replay => SReplay requestID replay end
  end.

(** The events that are written before the stream ends: up to the final chunk. *)
Definition is_final (e : StreamEvent) : bool := (se_Kind e =s StreamEventOutput) && se_Final e.
Fixpoint until_final (l : list StreamEvent) : list StreamEvent * bool :=
  match l with
  | [] => ([], false)
  | e :: l => if is_final e then ([e], true) else let '(w, ended) := until_final l in (e :: w, ended)
  end.

(** [handleSSEStream] up to the live part: when the replay has the final chunk the
    deferred cleanup runs, otherwise the handler listens to its subscriber and writes
    what it receives. *)
Definition handleSSEStream (r : stream_request) : M stream_reply :=
  let requestID := TrimSpace (tq_RequestID r) in
  if negb (tq_Permitted r) then mret SRefused
  else if requestID =s "" then mret (SError 400 "invalid_request" "request_id required")
  else if stream_forbidden r requestID then mret forbidden_stream
  else match commandReplayQueryFromRequest r requestID with
  | inl e => mret (SError 400 "invalid_request" (Error e))
  | inr q =>
      if negb recording then mret (SHub requestID)
      else
        subscribed ← attempt (ReplayAndSubscribe requestID q 256);
        match subscribed with
        | inl e => mret (SError 500 "internal_error" (Error e))
        | inr (replay, sub) =>
            let '(written, ended) := until_final (sr_Events replay) in
            match sub, ended with
            | Some n, true =>
                _ ← puts (λ r, remove_subscriber requestID n (close_subscriber n r));
                mret (SStream requestID replay written None)
            | _, _ => mret (SStream requestID replay written sub)
            end
        end
  end.
End endpoints.
End recorder.
