(* ===== verification/StreamSafety.v ===== *)
(** * The command stream recorder: what it guarantees
    (src/internal/controlplane/cmdtracker/stream_recorder.go)

    Over a database that answers, whatever operations come in between: the output of
    a command is recorded once and in the order of its chunks, in whatever order they
    arrive; a subscriber receives every event after the page it was handed; the table
    stays within its bounds.  [stream_op] is one operation of a caller. *)
From S2P Require Import Prelude GoStrings GoErrors GoTime GoFloat Protocol GoSort GoSql GoRuntime PackTypes CommandStream.
Local Open Scope go_scope.
Local Open Scope Z_scope.

(** ** Lists *)

Lemma foldl_max_ge l a : a <= foldl Z.max a l ∧ (∀ n, n ∈ l → n <= foldl Z.max a l) ∧ (foldl Z.max a l = a ∨ foldl Z.max a l ∈ l).
Proof.
  revert a. induction l as [|x l IH]; intros a; cbn; [set_solver by lia|]. destruct (IH (Z.max a x)) as (H1 & H2 & H3). split_and!; [lia| |].
  - intros n [->|Hn]%elem_of_cons; [lia|by apply H2].
  - destruct H3 as [H3|H3]; [|right; by right]. rewrite H3. destruct (Z.max_spec a x) as [[_ ->]|[_ ->]]; [right; by left|by left].
Qed.
Lemma max_of_spec l : match max_of l with Some m => m ∈ l ∧ ∀ n, n ∈ l → n <= m | None => l = [] end.
Proof.
  destruct l as [|a l]; cbn; [done|]. destruct (foldl_max_ge l a) as (H1 & H2 & H3). split.
  - destruct H3 as [->|H3]; [by left|by right].
  - intros n [->|Hn]%elem_of_cons; [done|by apply H2].
Qed.

Section stream.
Context `{HostLaws} (retention : StreamRetention) (coin : nat → bool) (no_faults : ∀ n, sql_fault n = None).
Implicit Types (db : DB StreamRecorder) (r : StreamRecorder) (id : string).

(** ** Pruning *)

(** Rows are deleted and nothing else changes. *)
Definition shrinks r r' : Prop :=
  rc_rows r' `sublist_of` rc_rows r ∧ rc_states r' = rc_states r ∧ rc_subs r' = rc_subs r ∧ rc_heap r' = rc_heap r.
#[local] Instance shrinks_refl : Reflexive shrinks.
Proof. intros r. by split_and!. Qed.
#[local] Instance shrinks_trans : Transitive shrinks.
Proof. intros r1 r2 r3 (? & ? & ? & ?) (? & ? & ? & ?). split_and!; try congruence. by etrans. Qed.

Lemma delete_shrinks p r : (delete_where p r).1 = inr tt ∧ shrinks r (delete_where p r).2.
Proof. split; [done|]. split_and!; try done. apply filter_sublist. Qed.

Definition succeeds (m : GoSql.M StreamRecorder unit) : Prop := ∀ db, ∃ db', m db = (inr tt, db') ∧ shrinks (rows db) (rows db').
Lemma succeeds_ret : succeeds (mret tt).
Proof. intros db. by exists db. Qed.
Lemma succeeds_bind m f : succeeds m → succeeds f → succeeds (m ≫= λ _, f).
Proof.
  intros Hm Hf db. destruct (Hm db) as (db1 & E1 & S1), (Hf db1) as (db2 & E2 & S2). exists db2. unfold mbind, M_bind. rewrite E1.
  split; [done|by etrans].
Qed.
Lemma succeeds_exec f : (∀ r, (f r).1 = inr tt ∧ shrinks r (f r).2) → succeeds (exec f).
Proof. intros Hf db. rewrite (run_exec no_faults). destruct (Hf (rows db)) as [E HS]. eexists. split; [by rewrite E|done]. Qed.
Lemma succeeds_query {A} (f : StreamRecorder → A) k : (∀ a, succeeds (k a)) → succeeds (query (λ r, inr (f r)) ≫= k).
Proof. intros Hk db. unfold mbind, M_bind. rewrite (run_query no_faults). destruct (Hk (f (rows db)) (tick db)) as (db' & E & HS). by exists db'. Qed.
Lemma succeeds_time k : (∀ t, succeeds (k t)) → succeeds (time_now ≫= k).
Proof. intros Hk db. destruct (Hk (clock (ticks db)) (tick db)) as (db' & E & HS). by exists db'. Qed.

Lemma delete_older_succeeds items : succeeds (delete_older items).
Proof.
  induction items as [|[id n] items IH]; [apply succeeds_ret|]. apply succeeds_bind; [|done]. apply succeeds_exec. intros r. apply delete_shrinks.
Qed.
Lemma prune_by_age_succeeds : succeeds (prune_by_age retention).
Proof. unfold prune_by_age. case_match; [apply succeeds_ret|]. apply succeeds_time. intros t. apply succeeds_exec. intros r. apply delete_shrinks. Qed.
Lemma prune_by_request_succeeds : succeeds (prune_by_request retention).
Proof. unfold prune_by_request. case_match; [apply succeeds_ret|]. apply succeeds_query. intros groups. apply delete_older_succeeds. Qed.
Lemma prune_by_total_succeeds : succeeds (prune_by_total retention).
Proof.
  unfold prune_by_total. case_match; [apply succeeds_ret|]. apply succeeds_query. intros total. case_match; [apply succeeds_ret|].
  apply succeeds_exec. intros r. apply delete_shrinks.
Qed.
Lemma prune_succeeds : succeeds (pruneLocked retention).
Proof. apply succeeds_bind; [apply prune_by_age_succeeds|]. apply succeeds_bind; [apply prune_by_request_succeeds|apply prune_by_total_succeeds]. Qed.

(** ** Retention *)

(** The table is within its bounds, those that are set. *)
Definition count_of id (l : list StreamEvent) : Z := Z.of_nat (length (List.filter (of_request id) l)).
Record within (l : list StreamEvent) : Prop := {
  wi_request id : 0 < MaxEventsPerRequest retention → count_of id l <= MaxEventsPerRequest retention;
  wi_total : 0 < MaxEventsTotal retention → Z.of_nat (length l) <= MaxEventsTotal retention;
}.
Lemma count_sublist id l k : l `sublist_of` k → count_of id l <= count_of id k.
Proof. intros Hs%(sublist_filter_bool (of_request id))%sublist_length. unfold count_of. lia. Qed.

Definition keys (l : list StreamEvent) : list (string * Z) := map (λ e, (se_RequestID e, se_Seq e)) l.
(** Rows have distinct keys and positive numbers. *)
Definition table_ok (l : list StreamEvent) : Prop := NoDup (keys l) ∧ Forall (λ e, 1 <= se_Seq e) l.
Lemma table_sublist l k : l `sublist_of` k → table_ok k → table_ok l.
Proof.
  intros Hs [H1 H2]. split; [eapply sublist_NoDup; [exact H1|by apply sublist_map]|]. rewrite Forall_forall in *. intros e He.
  apply H2. by eapply sublist_elem.
Qed.

Lemma elem_seqs id l n : n ∈ seqs_of id l ↔ ∃ e, e ∈ l ∧ se_RequestID e = id ∧ se_Seq e = n.
Proof.
  unfold seqs_of. rewrite list_elem_of_fmap. setoid_rewrite elem_filter_bool. unfold of_request. setoid_rewrite String.eqb_eq. naive_solver.
Qed.

(** Distinct integers of an interval are no more than its length. *)
Lemma interval_count (l : list Z) a b : NoDup l → (∀ n, n ∈ l → a < n <= b) → Z.of_nat (length l) <= Z.max 0 (b - a).
Proof.
  intros Hnd Hin. assert (Hs : l ⊆+ seqZ (a + 1) (b - a)).
  { apply NoDup_submseteq; [done|]. intros n Hn. apply elem_of_seqZ. specialize (Hin n Hn). lia. }
  apply submseteq_length in Hs. rewrite length_seqZ in Hs. lia.
Qed.

Lemma seqs_nodup id l : NoDup (keys l) → NoDup (seqs_of id l).
Proof.
  intros Hnd. apply (NoDup_fmap_1 (λ n, (id, n))). unfold seqs_of. 
  replace (_ <$> map se_Seq _) with (keys (List.filter (of_request id) l)).
  - eapply sublist_NoDup; [exact Hnd|]. apply sublist_map, filter_sublist.
  - unfold keys. rewrite <- list_fmap_compose. apply map_ext_in. intros e [_ He]%filter_In. apply String.eqb_eq in He. by rewrite He.
Qed.

Lemma delete_older_run items db e :
  e ∈ rc_rows (rows (delete_older items db).2) → ∀ id n, (id, n) ∈ items → se_RequestID e = id → n < se_Seq e.
Proof.
  revert db. induction items as [|[i m] items IH]; intros db; cbn [delete_older]; [intros _ id n Hn; by apply elem_of_nil in Hn|].
  unfold mbind at 1, M_bind at 1. rewrite (run_exec no_faults). cbn [delete_where fst snd]. intros He id n [[= -> ->]|Hn]%elem_of_cons Hid; [|by eapply IH].
  match type of He with context [delete_older items ?d] => destruct (delete_older_succeeds items d) as (db2 & E & Hs & _); rewrite E in He end.
  apply (sublist_elem _ _ _ Hs), elem_filter_bool in He as [Hp _]. unfold of_request in Hp. rewrite Hid, String.eqb_refl in Hp. cbn in Hp.
  destruct (Z.leb_spec (se_Seq e) m); [done|lia].
Qed.

Lemma prune_by_request_within db id :
  table_ok (rc_rows (rows db)) → 0 < MaxEventsPerRequest retention →
  count_of id (rc_rows (rows (prune_by_request retention db).2)) <= MaxEventsPerRequest retention.
Proof.
  intros [Hnd Hpos] Hmax. unfold prune_by_request. destruct (Z.leb_spec (MaxEventsPerRequest retention) 0); [lia|].
  unfold mbind, M_bind. rewrite (run_query no_faults). set (groups := map _ _). set (l := rc_rows (rows db)) in *.
  destruct (delete_older_succeeds (List.filter (λ g, 0 <? g.2) groups) (tick db)) as (db2 & E & Hs & _).
  pose proof (delete_older_run (List.filter (λ g, 0 <? g.2) groups) (tick db)) as Hdel. rewrite E in *. cbn [snd] in *.
  set (k := rc_rows (rows db2)) in *. change (rc_rows (rows (tick db))) with l in Hs. set (b := default 0 (max_of (seqs_of id l))).
  assert (Hcount : count_of id k = Z.of_nat (length (seqs_of id k))) by (unfold count_of, seqs_of; by rewrite length_map). rewrite Hcount.
  replace (MaxEventsPerRequest retention) with (Z.max 0 (b - (b - MaxEventsPerRequest retention))) by lia.
  apply interval_count; [apply seqs_nodup; by eapply table_sublist; [exact Hs|]|].
  intros n (e & He & Hid & <-)%elem_seqs. assert (Hl : e ∈ l) by (by eapply sublist_elem). split.
  - destruct (Z.ltb_spec 0 (b - MaxEventsPerRequest retention)); [|rewrite Forall_forall in Hpos; specialize (Hpos e Hl); lia].
    apply (Hdel e He id); [|done]. apply elem_filter_bool. split; [by apply Z.ltb_lt|]. apply list_elem_of_fmap. exists id. split; [done|].
    unfold request_ids. rewrite order_by_perm, elem_of_remove_dups. apply list_elem_of_fmap. by exists e.
  - pose proof (max_of_spec (seqs_of id l)) as Hm. assert (Hin : se_Seq e ∈ seqs_of id l) by (apply elem_seqs; by exists e).
    unfold b. destruct (max_of _); [by apply Hm|]. rewrite Hm in Hin. by apply elem_of_nil in Hin.
Qed.

Lemma same_event_refl e : same_event e e = true.
Proof. unfold same_event. by rewrite String.eqb_refl, Z.eqb_refl. Qed.
Lemma prune_by_total_within db : 0 < MaxEventsTotal retention → Z.of_nat (length (rc_rows (rows (prune_by_total retention db).2))) <= MaxEventsTotal retention.
Proof.
  intros Hmax. unfold prune_by_total. destruct (Z.leb_spec (MaxEventsTotal retention) 0); [lia|]. unfold mbind, M_bind. rewrite (run_query no_faults).
  set (l := rc_rows (rows db)). destruct (Z.leb_spec (Z.of_nat (length l) - MaxEventsTotal retention) 0) as [Hle|Hgt].
  { cbn. fold l. lia. }
  rewrite (run_exec no_faults). change (rows (tick db)) with (rows db). fold l. set (n := Z.to_nat _). set (o := order_by oldest_first l).
  cbn [snd rows delete_where set_rc_rows rc_rows]. fold l. set (p := λ e, negb (existsb (same_event e) (take n o))).
  assert (Ho : List.filter p o = List.filter p (drop n o)).
  { rewrite <- (take_drop n o) at 1. rewrite List.filter_app. replace (List.filter p (take n o)) with (@nil StreamEvent); [done|].
    symmetry. destruct (List.filter p (take n o)) as [|e k] eqn:E; [done|]. assert (He : e ∈ List.filter p (take n o)) by (rewrite E; by left).
    apply elem_filter_bool in He as [Hp He]. unfold p in Hp. apply negb_true_iff, existsb_false_Forall in Hp. rewrite Forall_forall in Hp.
    specialize (Hp e He). by rewrite same_event_refl in Hp. }
  assert (Hperm : length (List.filter p l) = length (List.filter p o)) by (apply Permutation_length, filter_bool_perm; symmetry; apply order_by_perm).
  rewrite Hperm, Ho. pose proof (sublist_length _ _ (filter_sublist p (drop n o))) as Hlen. rewrite length_drop in Hlen.
  assert (length o = length l) by (apply Permutation_length, order_by_perm). lia.
Qed.

Lemma prune_within db : table_ok (rc_rows (rows db)) → within (rc_rows (rows (pruneLocked retention db).2)).
Proof.
  intros Ht. unfold pruneLocked, mbind, M_bind.
  destruct (prune_by_age_succeeds db) as (db1 & -> & Hs1 & _). pose proof (table_sublist _ _ Hs1 Ht) as Ht1.
  pose proof (prune_by_request_within db1) as Hr. destruct (prune_by_request_succeeds db1) as (db2 & E2 & Hs2 & _). rewrite E2 in *. cbn [snd] in Hr.
  split; [|by intros ?; apply prune_by_total_within]. intros id Hmax. destruct (prune_by_total_succeeds db2) as (db3 & -> & Hs3 & _). cbn [snd].
  etrans; [by apply count_sublist|]. by apply Hr.
Qed.

(** ** The state of a request *)

(** What [loadStateLocked] finds or builds. *)
Definition state_of id r : streamState :=
  match rc_states r !! id with
  | Some s => s
  | None => {| nextSeq := match max_of (seqs_of id (rc_rows r)) with Some n => n + 1 | None => 1 end;
               nextOutputSeq := match max_of (chunk_seqs_of id (rc_rows r)) with Some n => n + 1 | None => 1 end; pendingOutput := ∅ |}
  end.

(** Rows have distinct keys and positive numbers; a request that is in memory
    numbers its next event above its rows; a subscriber is listed under its request. *)
Record stream_ok r : Prop := {
  so_keys : NoDup (map (λ e, (se_RequestID e, se_Seq e)) (rc_rows r));
  so_pos e : e ∈ rc_rows r → 1 <= se_Seq e;
  so_next id s : rc_states r !! id = Some s → 1 <= nextSeq s ∧ ∀ e, e ∈ rc_rows r → se_RequestID e = id → se_Seq e < nextSeq s;
  so_subs id n : n ∈ subs_of id r → ∃ sub, rc_heap r !! n = Some sub ∧ sub_RequestID sub = id;
  so_once id : NoDup (subs_of id r);
}.

Lemma state_of_next id r : stream_ok r → 1 <= nextSeq (state_of id r) ∧ ∀ e, e ∈ rc_rows r → se_RequestID e = id → se_Seq e < nextSeq (state_of id r).
Proof.
  intros Hok. unfold state_of. destruct (rc_states r !! id) as [s|] eqn:E; [by apply (so_next _ Hok) in E|]. cbn.
  pose proof (max_of_spec (seqs_of id (rc_rows r))) as Hm. destruct (max_of _) as [m|].
  - destruct Hm as [Hin Hmax]. apply elem_seqs in Hin as (e & He & _ & <-). split; [by pose proof (so_pos _ Hok e He); lia|].
    intros e' He' Hid. enough (se_Seq e' <= se_Seq e) by lia. apply Hmax, elem_seqs. by exists e'.
  - split; [done|]. intros e He Hid. assert (se_Seq e ∈ seqs_of id (rc_rows r)) as Hin by (apply elem_seqs; by exists e).
    rewrite Hm in Hin. by apply elem_of_nil in Hin.
Qed.

Lemma load_run id db :
  ∃ n, loadStateLocked id db = (inr (state_of id (rows db)), {| rows := set_rc_state id (state_of id (rows db)) (rows db); ticks := n |}).
Proof.
  unfold loadStateLocked, state_of. unfold mbind at 1, M_bind at 1. cbn [gets]. destruct (rc_states (rows db) !! id) as [s|] eqn:E.
  - exists (ticks db). unfold mret, M_ret. do 2 f_equal. destruct db as [[ro st su he] n]. cbn in *. unfold set_rc_state. cbn. by rewrite insert_id.
  - unfold mbind, M_bind. rewrite (run_query no_faults). cbn [rows tick ticks]. rewrite (run_query no_faults). by eexists.
Qed.

Lemma set_state_ok id s r :
  stream_ok r → 1 <= nextSeq s → (∀ e, e ∈ rc_rows r → se_RequestID e = id → se_Seq e < nextSeq s) → stream_ok (set_rc_state id s r).
Proof.
  intros Hok Hpos Hlt. destruct Hok as [H1 H2 H3 H4 H5]. split; try done. intros id' s' Hs. cbn in Hs.
  destruct (decide (id' = id)) as [->|Hne]; [rewrite lookup_insert_eq in Hs; injection Hs as <-; done|].
  rewrite lookup_insert_ne in Hs by done. by apply H3.
Qed.
Lemma shrinks_ok r r' : stream_ok r → shrinks r r' → stream_ok r'.
Proof.
  intros [H1 H2 H3 H4 H5] (Hsub & Hst & Hsu & Hh). assert (Hin : ∀ e, e ∈ rc_rows r' → e ∈ rc_rows r) by (intros e; by apply sublist_elem).
  split.
  - eapply sublist_NoDup; [exact H1|by apply sublist_map].
  - intros e He. by apply H2, Hin.
  - intros id s Hs. rewrite Hst in Hs. destruct (H3 id s Hs) as [? Hlt]. split; [done|]. intros e He. by apply Hlt, Hin.
  - intros id n. unfold subs_of. rewrite Hsu, Hh. apply H4.
  - intros id. unfold subs_of. rewrite Hsu. apply H5.
Qed.

(** The heap after an event was offered to the subscribers of its request. *)
Definition dispatched (e : StreamEvent) r : list StreamSubscriber :=
  foldl (λ h n, alter (offer_event (coin n) e) n h) (rc_heap r) (subs_of (se_RequestID e) r).

(** The event that is stored, and what storing it does. *)
Record inserted id (evt e : StreamEvent) r r' : Prop := {
  ins_event : ∃ t, e = stamp_event id (nextSeq (state_of id r)) t evt;
  ins_rows : rc_rows r' `sublist_of` rc_rows r ++ [e];
  ins_states : rc_states r' = <[id := set_nextSeq (nextSeq (state_of id r) + 1) (state_of id r)]> (rc_states r);
  ins_subs : rc_subs r' = rc_subs r;
  ins_heap : rc_heap r' = dispatched e r;
  ins_within : within (rc_rows r');
}.

Lemma offer_request c e sub : sub_RequestID (offer_event c e sub) = sub_RequestID sub.
Proof. unfold offer_event. repeat case_match; done. Qed.
Lemma offers_lookup e (l : list nat) (h : list StreamSubscriber) n : NoDup l →
  foldl (λ h n, alter (offer_event (coin n) e) n h) h l !! n =
  (if bool_decide (n ∈ l) then offer_event (coin n) e <$> h !! n else h !! n).
Proof.
  revert h. induction l as [|m l IH]; intros h Hnd; cbn [foldl]; [by rewrite bool_decide_eq_false_2 by apply not_elem_of_nil|].
  apply NoDup_cons in Hnd as [Hm Hnd]. rewrite IH by done. destruct (decide (n = m)) as [->|Hne].
  - rewrite bool_decide_eq_false_2, bool_decide_eq_true_2, list_lookup_alter_eq; [done|by left|done].
  - rewrite list_lookup_alter_ne by done. destruct (decide (n ∈ l)); [rewrite !bool_decide_eq_true_2; [done|by right|done]|].
    rewrite !bool_decide_eq_false_2; [done| |done]. by intros [?|?]%elem_of_cons.
Qed.

(** The new row has a key of its own. *)
Lemma stamped_table id t evt r : stream_ok r → table_ok (rc_rows r ++ [stamp_event id (nextSeq (state_of id r)) t evt]).
Proof.
  intros Hok. destruct (state_of_next id r Hok) as [Hpos Hlt]. destruct Hok as [H1 H2 _ _ _]. split.
  - unfold keys. rewrite map_app. apply NoDup_app. split; [done|]. split; [|apply NoDup_singleton].
    intros x (y & -> & Hy)%list_elem_of_fmap [= E1 E2]%list_elem_of_singleton. specialize (Hlt y Hy E1). cbn in E2. lia.
  - apply Forall_app. split; [by apply Forall_forall|]. by repeat constructor.
Qed.

Lemma insert_run id evt db :
  stream_ok (rows db) → ∃ e db', insertEventLocked retention coin id evt db = (inr e, db') ∧ inserted id evt e (rows db) (rows db').
Proof.
  intros Hok. unfold insertEventLocked. destruct (load_run id db) as [n Hload]. unfold mbind at 1, M_bind at 1. rewrite Hload. clear Hload.
  set (r := rows db) in *. set (s := state_of id r). destruct (state_of_next id r Hok) as [Hpos Hlt]. fold s in Hpos, Hlt.
  assert (E : (if nextSeq s <=? 0 then 1 else nextSeq s) = nextSeq s) by (destruct (Z.leb_spec (nextSeq s) 0); lia). rewrite E.
  unfold modify_state, puts, time_now. unfold mbind at 1, M_bind at 1. cbn [rows ticks tick]. unfold set_rc_state at 2. cbn [rc_states].
  rewrite lookup_insert_eq. unfold mbind at 1, M_bind at 1. cbn [rows ticks tick].
  set (e := stamp_event id (nextSeq s) (clock n) evt).
  unfold mbind at 1, M_bind at 1. rewrite (run_exec no_faults). unfold insert_event, tick, set_rc_state. cbn [rows ticks rc_rows rc_states rc_subs rc_heap].
  assert (Hnew : existsb (same_event e) (rc_rows r) = false).
  { apply existsb_false_Forall, Forall_forall. intros e' He'. unfold same_event. cbn.
    destruct (String.eqb_spec id (se_RequestID e')) as [Hid|]; [|done]. cbn. apply Z.eqb_neq. specialize (Hlt e' He' (eq_sym Hid)). lia. }
  rewrite Hnew. unfold set_rc_rows. cbn [fst snd rows ticks rc_rows rc_states rc_subs rc_heap]. unfold mbind at 1, M_bind at 1.
  cbn [rows ticks rc_rows rc_states rc_subs rc_heap]. rewrite lookup_insert_eq. cbn [rows ticks rc_rows rc_states rc_subs rc_heap set_nextSeq nextOutputSeq pendingOutput].
  unfold mbind at 1, M_bind at 1.
  match goal with |- context [pruneLocked retention ?d] => pose proof (prune_within d (stamped_table id (clock n) evt r Hok)) as Hw; destruct (prune_succeeds d) as (db2 & Ep & (Hp1 & Hp2 & Hp3 & Hp4)) end.
  rewrite Ep in Hw |- *. clear Ep. cbn [snd] in Hw. cbn [rows rc_rows rc_states rc_subs rc_heap] in Hp1, Hp2, Hp3, Hp4.
  eexists e, _. split; [reflexivity|]. split; cbn [dispatchLocked puts rows set_rc_subs rc_rows rc_states rc_subs rc_heap].
  - by eexists.
  - exact Hp1.
  - rewrite Hp2. by rewrite !insert_insert_eq.
  - exact Hp3.
  - unfold dispatched, subs_of. rewrite Hp3, Hp4. reflexivity.
  - exact Hw.
Qed.

Lemma inserted_ok id evt e r r' : stream_ok r → inserted id evt e r r' → stream_ok r'.
Proof.
  intros Hok [[t ->] Hrows Hst Hsu Hh _]. destruct (state_of_next id r Hok) as [Hpos Hlt].
  destruct (table_sublist _ _ Hrows (stamped_table id t evt r Hok)) as [Hkeys Hnum]. rewrite Forall_forall in Hnum. set (e := stamp_event _ _ _ _) in *.
  assert (Hin : ∀ x, x ∈ rc_rows r' → x ∈ rc_rows r ∨ x = e) by (intros x Hx%(sublist_elem _ _ _ Hrows); set_solver).
  destruct Hok as [H1 H2 H3 H4 H5]. split; [done|done| | |].
  - intros id' s Hs. rewrite Hst in Hs. destruct (decide (id' = id)) as [->|Hne].
    + rewrite lookup_insert_eq in Hs. injection Hs as <-. cbn. split; [lia|]. intros x [Hx| ->]%Hin Hid; [specialize (Hlt x Hx Hid)|cbn]; lia.
    + rewrite lookup_insert_ne in Hs by done. destruct (H3 id' s Hs) as [? Hl]. split; [done|]. intros x [Hx| ->]%Hin Hid; [by apply Hl|done].
  - intros id' n. unfold subs_of. rewrite Hsu, Hh. intros Hn. destruct (H4 id' n Hn) as (sub & Hsub & Hr). unfold dispatched.
    rewrite offers_lookup by apply H5. case_bool_decide; rewrite Hsub; cbn; eexists; (split; [reflexivity|]); [by rewrite offer_request|done].
  - intros id'. unfold subs_of. rewrite Hsu. apply H5.
Qed.

(** ** What an append does *)

Definition offered (n : nat) (l : list StreamEvent) (sub : StreamSubscriber) : StreamSubscriber := foldl (λ s e, offer_event (coin n) e s) sub l.

(** The events [l] of the request [id] were stored, in this order. *)
Record appends id (l : list StreamEvent) r r' : Prop := {
  ap_ok : stream_ok r';
  ap_ids : Forall (λ e, se_RequestID e = id) l;
  ap_seqs : map se_Seq l = seqZ (nextSeq (state_of id r)) (Z.of_nat (length l));
  ap_next : nextSeq (state_of id r') = nextSeq (state_of id r) + Z.of_nat (length l);
  ap_rows : rc_rows r' `sublist_of` rc_rows r ++ l;
  ap_within : within (rc_rows r) → within (rc_rows r');
  ap_known : l ≠ [] → is_Some (rc_states r' !! id);
  ap_keeps : is_Some (rc_states r !! id) → is_Some (rc_states r' !! id);
  ap_states id' : id' ≠ id → rc_states r' !! id' = rc_states r !! id';
  ap_subs : rc_subs r' = rc_subs r;
  ap_heap n : rc_heap r' !! n = if bool_decide (n ∈ subs_of id r) then offered n l <$> rc_heap r !! n else rc_heap r !! n;
}.

Lemma appends_trans id l1 l2 r1 r2 r3 : appends id l1 r1 r2 → appends id l2 r2 r3 → appends id (l1 ++ l2) r1 r3.
Proof.
  intros A1 A2. split.
  - apply A2.
  - apply Forall_app. split; [apply A1|apply A2].
  - rewrite map_app, (ap_seqs _ _ _ _ A1), (ap_seqs _ _ _ _ A2), (ap_next _ _ _ _ A1), length_app, Nat2Z.inj_add. by rewrite seqZ_app by lia.
  - rewrite (ap_next _ _ _ _ A2), (ap_next _ _ _ _ A1), length_app. lia.
  - etrans; [apply A2|]. rewrite app_assoc. apply sublist_app; [apply A1|done].
  - intros Hw. by apply (ap_within _ _ _ _ A2), (ap_within _ _ _ _ A1).
  - intros Hne. destruct (decide (l2 = [])) as [->|Hl2]; [|by apply A2].
    apply (ap_keeps _ _ _ _ A2), (ap_known _ _ _ _ A1). by rewrite app_nil_r in Hne.
  - intros Hk. by apply (ap_keeps _ _ _ _ A2), (ap_keeps _ _ _ _ A1).
  - intros id' Hid. by rewrite (ap_states _ _ _ _ A2), (ap_states _ _ _ _ A1).
  - by rewrite (ap_subs _ _ _ _ A2), (ap_subs _ _ _ _ A1).
  - intros n. rewrite (ap_heap _ _ _ _ A2), (ap_heap _ _ _ _ A1). unfold subs_of. rewrite (ap_subs _ _ _ _ A1). case_bool_decide; [|done].
    destruct (rc_heap r1 !! n); [|done]. cbn. unfold offered. by rewrite foldl_app.
Qed.

(** A request that is not in memory has no rows, and this stays so. *)
Definition seen id r : Prop := rc_states r !! id = None → ∀ e, e ∈ rc_rows r → se_RequestID e ≠ id.
Lemma appends_seen id l r r' : appends id l r r' → seen id r → seen id r'.
Proof.
  intros A Hs HN e He. destruct l as [|x l]; [|destruct (ap_known _ _ _ _ A) as [? HS]; [done|by rewrite HN in HS]].
  apply (sublist_elem _ _ _ (ap_rows _ _ _ _ A)) in He. rewrite app_nil_r in He. apply Hs; [|done].
  destruct (rc_states r !! id) as [s|] eqn:E; [|done]. destruct (ap_keeps _ _ _ _ A) as [? HS]; [by rewrite E|by rewrite HN in HS].
Qed.

Lemma state_of_known id s r : rc_states r !! id = Some s → state_of id r = s.
Proof. unfold state_of. by intros ->. Qed.

Lemma inserted_state id evt e r r' :
  inserted id evt e r r' → rc_states r' !! id = Some (set_nextSeq (nextSeq (state_of id r) + 1) (state_of id r)).
Proof. intros Hi. rewrite (ins_states _ _ _ _ _ Hi). apply lookup_insert_eq. Qed.

Lemma inserted_appends id evt e r r' : stream_ok r → inserted id evt e r r' → appends id [e] r r'.
Proof.
  intros Hok Hi. pose proof (inserted_state _ _ _ _ _ Hi) as Hst. destruct (ins_event _ _ _ _ _ Hi) as [t He]. split.
  - by eapply inserted_ok.
  - rewrite He. by repeat constructor.
  - by rewrite He.
  - by rewrite (state_of_known _ _ _ Hst).
  - apply Hi.
  - intros _. apply Hi.
  - by rewrite Hst.
  - by rewrite Hst.
  - intros id' Hne. rewrite (ins_states _ _ _ _ _ Hi). by apply lookup_insert_ne.
  - apply Hi.
  - intros n. rewrite (ins_heap _ _ _ _ _ Hi). unfold dispatched. rewrite offers_lookup by apply Hok.
    by replace (se_RequestID e) with id by (by rewrite He).
Qed.

(** A change of the state of a request that leaves its numbering alone. *)
Lemma output_appends id s r :
  stream_ok r → nextSeq s = nextSeq (state_of id r) → appends id [] r (set_rc_state id s r).
Proof.
  intros Hok Hs. destruct (state_of_next id r Hok) as [Hpos Hlt]. split; try done.
  - apply set_state_ok; [done|lia|]. intros e He Hid. rewrite Hs. by apply Hlt.
  - rewrite (state_of_known id s) by apply lookup_insert_eq. rewrite Hs. cbn. lia.
  - by rewrite app_nil_r.
  - intros _. exists s. apply lookup_insert_eq.
  - intros id' Hne. by apply lookup_insert_ne.
  - intros n. case_bool_decide; [|done]. cbn. by destruct (rc_heap r !! n).
Qed.

Lemma modify_run id f s db :
  rc_states (rows db) !! id = Some s → modify_state id f db = (inr tt, {| rows := set_rc_state id (f s) (rows db); ticks := ticks db |}).
Proof. unfold modify_state, puts. by intros ->. Qed.

(** ** Flushing the pending chunks *)

(** [l] holds the output of the chunks [cs]. *)
Definition output_of id (c : OutputChunkPayload) (e : StreamEvent) : Prop := ∃ seq t, e = stamp_event id seq t (output_event id c).

Lemma flush_run fuel id db :
  stream_ok (rows db) → (size (pendingOutput (state_of id (rows db))) < fuel)%nat →
  ∃ cs l db' s', flush retention coin fuel id db = (inr l, db') ∧ appends id l (rows db) (rows db') ∧ rc_states (rows db') !! id = Some s' ∧
    Forall2 (output_of id) cs l ∧
    let s := state_of id (rows db) in
    nextOutputSeq s' = nextOutputSeq s + Z.of_nat (length cs) ∧
    (∀ i c, cs !! i = Some c → pendingOutput s !! (nextOutputSeq s + Z.of_nat i) = Some c) ∧
    (∀ k, pendingOutput s' !! k = if (nextOutputSeq s <=? k) && (k <? nextOutputSeq s') then None else pendingOutput s !! k) ∧
    pendingOutput s' !! nextOutputSeq s' = None.
Proof.
  revert db. induction fuel as [|fuel IH]; intros db Hok Hsize; [lia|]. cbn [flush].
  destruct (load_run id db) as [n Hload]. unfold mbind at 1, M_bind at 1. rewrite Hload. clear Hload. set (r := rows db) in *.
  set (s := state_of id r) in *. destruct (pendingOutput s !! nextOutputSeq s) as [next|] eqn:Hnext.
  2: { exists [], [], {| rows := set_rc_state id s r; ticks := n |}, s. split; [done|]. split; [by apply output_appends|].
       split; [apply lookup_insert_eq|]. split; [constructor|]. cbn. split_and!; [lia|done| |done].
       intros k. destruct (Z.leb_spec (nextOutputSeq s) k), (Z.ltb_spec k (nextOutputSeq s)); try done. lia. }
  unfold mbind at 1, M_bind at 1. rewrite (modify_run id _ s) by apply lookup_insert_eq. cbn [rows ticks].
  set (s1 := set_output (nextOutputSeq s) (delete (nextOutputSeq s) (pendingOutput s)) s).
  set (r1 := set_rc_state id s1 (set_rc_state id s r)).
  assert (A1 : appends id [] r r1).
  { change [] with ([] ++ [] : list StreamEvent). eapply appends_trans; [by apply (output_appends id s)|].
    apply output_appends; [by apply (output_appends id s)|]. by rewrite (state_of_known id s) by apply lookup_insert_eq. }
  assert (Es1 : state_of id r1 = s1) by (apply state_of_known, lookup_insert_eq).
  destruct (insert_run id (output_event id next) {| rows := r1; ticks := n |} (ap_ok _ _ _ _ A1)) as (e & db2 & Eins & Hins). cbn [rows] in Hins.
  unfold mbind at 1, M_bind at 1. rewrite Eins. pose proof (inserted_appends _ _ _ _ _ (ap_ok _ _ _ _ A1) Hins) as A2.
  pose proof (inserted_state _ _ _ _ _ Hins) as Hst2. rewrite Es1 in Hst2.
  unfold mbind at 1, M_bind at 1. rewrite (modify_run id _ _ _ Hst2). clear Eins.
  set (s3 := set_output (nextOutputSeq (set_nextSeq (nextSeq s1 + 1) s1) + 1) _ _). set (r3 := set_rc_state id s3 (rows db2)).
  assert (A3 : appends id [] (rows db2) r3) by (apply output_appends; [apply A2|by rewrite (state_of_known _ _ _ Hst2)]).
  assert (Es3 : state_of id r3 = s3) by (apply state_of_known, lookup_insert_eq).
  assert (A : appends id [e] r r3).
  { change [e] with ([] ++ [e] ++ []). eapply appends_trans; [exact A1|]. by eapply appends_trans. }
  destruct (IH {| rows := r3; ticks := ticks db2 |}) as (cs & l & db' & s' & Ef & Af & Hs' & Hall & Hn & Hcs & Hp & Hend).
  { apply A3. }
  { cbn [rows]. rewrite Es3. cbn. rewrite map_size_delete, Hnext. cbn in Hsize. 
    assert (size (pendingOutput s) ≠ 0%nat) by (rewrite map_size_empty_iff; intros E; by rewrite E, lookup_empty in Hnext). lia. }
  cbn [rows] in *. rewrite Es3 in Hn, Hcs, Hp. cbn [nextOutputSeq pendingOutput s3 set_output s1 set_nextSeq] in Hn, Hcs, Hp.
  unfold mbind, M_bind. rewrite Ef. exists (next :: cs), (e :: l), db', s'. split; [done|]. split.
  { change (e :: l) with ([e] ++ l). by eapply appends_trans. }
  split; [done|]. split.
  { constructor; [|done]. destruct (ins_event _ _ _ _ _ Hins) as [t ->]. by eexists _, t. }
  cbn zeta. split; [cbn [length]; lia|]. split.
  { intros [|i] c Hc; cbn in Hc; [injection Hc as <-; by rewrite Z.add_0_r|]. apply Hcs in Hc. rewrite lookup_delete_ne in Hc by lia. rewrite <- Hc. f_equal. lia. }
  split; [|done]. intros k. rewrite Hp. destruct (decide (k = nextOutputSeq s)) as [->|Hne].
  - rewrite lookup_delete_eq. destruct (Z.leb_spec (nextOutputSeq s) (nextOutputSeq s)), (Z.ltb_spec (nextOutputSeq s) (nextOutputSeq s')); try lia; cbn; by case_match.
  - rewrite lookup_delete_ne by done.
    destruct (Z.leb_spec (nextOutputSeq s + 1) k), (Z.leb_spec (nextOutputSeq s) k), (Z.ltb_spec k (nextOutputSeq s')); cbn; try done; lia.
Qed.

(** ** Histories *)

Inductive stream_op :=
  | OMarker (id kind data : string) (meta : list (string * any))
  | OChunk (c : OutputChunkPayload)
  | OReplay (id : string) (q : StreamReplayQuery)
  | OSubscribe (id : string) (q : StreamReplayQuery) (bufSize : Z)
  | OClose (n : nat)
  | ORemove (id : string) (n : nat)
  | OReceive (n : nat).

(** What an operation stores. *)
Definition run_op (o : stream_op) db : list StreamEvent * DB StreamRecorder :=
  let silent r := ([], {| rows := r; ticks := ticks db |}) in
  match o with
  | OMarker id kind data meta =>
      let '(res, db') := AppendMarker retention coin id kind data meta db in
      (match res with inr (Some e) => [e] | _ => [] end, db')
  | OChunk c => let '(res, db') := AppendOutputChunk retention coin c db in (match res with inr l => l | inl _ => [] end, db')
  | OReplay id q => ([], (Replay id q db).2)
  | OSubscribe id q bufSize => ([], (ReplayAndSubscribe id q bufSize db).2)
  | OClose n => silent (close_subscriber n (rows db))
  | ORemove id n => silent (remove_subscriber id n (rows db))
  | OReceive n => silent (match receive n (rows db) with Some (_, r) => r | None => rows db end)
  end.
Fixpoint run_ops (ops : list stream_op) db : list (stream_op * list StreamEvent) * DB StreamRecorder :=
  match ops with
  | [] => ([], db)
  | o :: ops => let '(l, db1) := run_op o db in let '(t, db2) := run_ops ops db1 in ((o, l) :: t, db2)
  end.

Definition chunk_of id (o : stream_op) : option OutputChunkPayload :=
  match o with OChunk c => if TrimSpace (chunk_RequestID c) =s id then Some c else None | _ => None end.
(** The chunks of a request, in the order they arrive; the events its chunks were
    stored as; all the events of the request. *)
Definition arrivals id (ops : list stream_op) : list OutputChunkPayload := omap (chunk_of id) ops.
Definition outputs id (t : list (stream_op * list StreamEvent)) : list StreamEvent :=
  concat (map (λ ol, if chunk_of id ol.1 then ol.2 else []) t).
Definition events_of id (t : list (stream_op * list StreamEvent)) : list StreamEvent := List.filter (of_request id) (concat (map snd t)).

(** The first chunk with a number. *)
Definition arrived (k : Z) (l : list OutputChunkPayload) : option OutputChunkPayload := List.find (λ c, chunk_Seq c =? k) l.
Lemma arrived_app k l c : arrived k (l ++ [c]) = match arrived k l with Some c' => Some c' | None => if chunk_Seq c =? k then Some c else None end.
Proof. unfold arrived. induction l as [|x l IH]; cbn; [done|]. by destruct (chunk_Seq x =? k). Qed.

(** A request the recorder has not seen. *)
Definition unseen id r : Prop := rc_states r !! id = None ∧ ∀ e, e ∈ rc_rows r → se_RequestID e ≠ id.
Definition fresh_state : streamState := {| nextSeq := 1; nextOutputSeq := 1; pendingOutput := ∅ |}.
Lemma unseen_state id r : unseen id r → state_of id r = fresh_state.
Proof.
  intros [Hs Hr]. unfold state_of. rewrite Hs.
  assert (E : ∀ p, List.filter (λ e, of_request id e && p e) (rc_rows r) = []).
  { intros p. induction (rc_rows r) as [|e l IH]; [done|]. cbn. unfold of_request.
    destruct (String.eqb_spec (se_RequestID e) id) as [HF|]; [exfalso; eapply Hr; [by left|done]|]. apply IH. intros x Hx. apply Hr. by right. }
  unfold seqs_of, chunk_seqs_of. rewrite E. specialize (E (λ _, true)).
  erewrite filter_ext in E; [rewrite E; done|]. intros e. apply andb_true_r.
Qed.

(** The states of requests that an operation leaves alone. *)
Definition leaves id r r' : Prop :=
  rc_states r' !! id = rc_states r !! id ∧ ((∀ e, e ∈ rc_rows r → se_RequestID e ≠ id) → ∀ e, e ∈ rc_rows r' → se_RequestID e ≠ id).

Lemma leaves_state id r r' : leaves id r r' → seen id r → state_of id r' = state_of id r ∧ seen id r'.
Proof.
  intros [Hs Hr] Hseen. split; [|intros HN; apply Hr, Hseen; congruence].
  destruct (rc_states r !! id) as [s|] eqn:Es; [by rewrite !(state_of_known id s) by congruence|].
  rewrite !unseen_state; [done|by split; auto|split; [done|auto]].
Qed.

(** What was recorded of a request: [outs] for the arrivals [A]. *)
Record tracks id (A : list OutputChunkPayload) (outs : list StreamEvent) r : Prop := {
  tr_next : nextOutputSeq (state_of id r) = 1 + Z.of_nat (length outs);
  tr_pending k : pendingOutput (state_of id r) !! k = if k <=? Z.of_nat (length outs) then None else arrived k A;
  tr_gap : arrived (1 + Z.of_nat (length outs)) A = None;
  tr_outs i e : outs !! i = Some e → ∃ c, arrived (1 + Z.of_nat i) A = Some c ∧ output_of id c e;
  tr_seen : seen id r;
}.

Lemma tracks_state id A outs r r' :
  nextOutputSeq (state_of id r') = nextOutputSeq (state_of id r) → pendingOutput (state_of id r') = pendingOutput (state_of id r) →
  (rc_states r' !! id = None → ∀ e, e ∈ rc_rows r' → se_RequestID e ≠ id) → tracks id A outs r → tracks id A outs r'.
Proof. intros E1 E2 E3 [T1 T2 T3 T4 T5]. split; try done; [by rewrite E1|]. intros k. by rewrite E2. Qed.

Lemma tracks_leaves id A outs r r' : leaves id r r' → tracks id A outs r → tracks id A outs r'.
Proof.
  intros Hl Ht. destruct (leaves_state _ _ _ Hl (tr_seen _ _ _ _ Ht)) as [E Hs]. by eapply tracks_state; [rewrite E|rewrite E| |].
Qed.

Lemma appends_leaves id id' l r r' : id' ≠ id → appends id' l r r' → leaves id r r'.
Proof.
  intros Hne A. split; [by apply (ap_states _ _ _ _ A)|]. intros Hr e He. apply (sublist_elem _ _ _ (ap_rows _ _ _ _ A)) in He.
  apply elem_of_app in He as [He|He]; [by apply Hr|]. pose proof (ap_ids _ _ _ _ A) as Hids. rewrite Forall_forall in Hids. by rewrite (Hids e He).
Qed.

Lemma appends_nil id r : stream_ok r → appends id [] r r.
Proof.
  intros Hok. split; try done; [cbn; lia|by rewrite app_nil_r|]. intros n. case_bool_decide; [|done]. by destruct (rc_heap r !! n).
Qed.

Lemma marker_run id kind data meta db :
  stream_ok (rows db) →
  ∃ l db', run_op (OMarker id kind data meta) db = (l, db') ∧ appends (TrimSpace id) l (rows db) (rows db') ∧
    nextOutputSeq (state_of (TrimSpace id) (rows db')) = nextOutputSeq (state_of (TrimSpace id) (rows db)) ∧
    pendingOutput (state_of (TrimSpace id) (rows db')) = pendingOutput (state_of (TrimSpace id) (rows db)).
Proof.
  intros Hok. cbn [run_op]. unfold AppendMarker. destruct (String.eqb_spec (TrimSpace id) "") as [E|_].
  { exists [], db. split; [done|]. split; [by apply appends_nil|done]. }
  set (evt := {| se_RequestID := TrimSpace id |}). destruct (insert_run (TrimSpace id) evt db Hok) as (e & db' & Ei & Hi).
  unfold mbind, M_bind. rewrite Ei. exists [e], db'. split; [done|]. split; [by eapply inserted_appends|].
  rewrite (state_of_known _ _ _ (inserted_state _ _ _ _ _ Hi)). done.
Qed.

Lemma keep_first_next c s : nextSeq (keep_first c s) = nextSeq s ∧ nextOutputSeq (keep_first c s) = nextOutputSeq s.
Proof. unfold keep_first. by case_match. Qed.
Lemma keep_first_lookup c s k :
  pendingOutput (keep_first c s) !! k = match pendingOutput s !! k with Some x => Some x | None => if chunk_Seq c =? k then Some c else None end.
Proof.
  unfold keep_first. destruct (Z.eqb_spec (chunk_Seq c) k) as [<-|Hne].
  - destruct (pendingOutput s !! chunk_Seq c) eqn:E; [by rewrite E|]. cbn. by rewrite lookup_insert_eq.
  - case_match; cbn; [by destruct (_ !! k)|]. rewrite lookup_insert_ne by done. by destruct (_ !! k).
Qed.

(** The chunk with the number it is stored under. *)
Definition numbered (s : streamState) (c : OutputChunkPayload) : OutputChunkPayload :=
  if chunk_Seq c <=? 0 then set_chunk_seq (nextOutputSeq s) c else c.

Lemma chunk_run c db :
  stream_ok (rows db) → let id := TrimSpace (chunk_RequestID c) in let s := state_of id (rows db) in let c' := numbered s c in
  ∃ l db', run_op (OChunk c) db = (l, db') ∧ appends id l (rows db) (rows db') ∧
    (id = "" → l = []) ∧
    (id ≠ "" → is_Some (rc_states (rows db') !! id) ∧ let s' := state_of id (rows db') in
     if chunk_Seq c' <? nextOutputSeq s then l = [] ∧ s' = s
     else ∃ cs, Forall2 (output_of id) cs l ∧ nextOutputSeq s' = nextOutputSeq s + Z.of_nat (length cs) ∧
       (∀ i x, cs !! i = Some x → pendingOutput (keep_first c' s) !! (nextOutputSeq s + Z.of_nat i) = Some x) ∧
       (∀ k, pendingOutput s' !! k = if (nextOutputSeq s <=? k) && (k <? nextOutputSeq s') then None else pendingOutput (keep_first c' s) !! k) ∧
       pendingOutput s' !! nextOutputSeq s' = None).
Proof.
  intros Hok id s c'. cbn [run_op]. unfold AppendOutputChunk. fold id. destruct (String.eqb_spec id "") as [E|Hne].
  { exists [], db. split; [done|]. split; [by apply appends_nil|]. split; [done|]. by intros ?. }
  destruct (load_run id db) as [n Hload]. unfold mbind at 1, M_bind at 1. rewrite Hload. clear Hload. fold s. fold (numbered s c). fold c'.
  set (r := rows db) in *. assert (A1 : appends id [] r (set_rc_state id s r)) by (by apply output_appends).
  destruct (chunk_Seq c' <? nextOutputSeq s).
  { exists [], {| rows := set_rc_state id s r; ticks := n |}. split; [done|]. split; [done|]. split; [done|]. intros _. cbn [rows].
    split; [exists s; apply lookup_insert_eq|]. split; [done|]. apply state_of_known, lookup_insert_eq. }
  unfold mbind at 1, M_bind at 1. rewrite (modify_run id _ s) by apply lookup_insert_eq. cbn [rows ticks].
  unfold mbind at 1, M_bind at 1. cbn [gets rows]. set (s1 := keep_first c' s). set (r1 := set_rc_state id s1 (set_rc_state id s r)).
  assert (Es1 : rc_states r1 !! id = Some s1) by apply lookup_insert_eq. rewrite Es1.
  assert (A2 : appends id [] (set_rc_state id s r) r1).
  { apply output_appends; [apply A1|]. rewrite (state_of_known id s) by apply lookup_insert_eq. apply keep_first_next. }
  destruct (flush_run (S (size (pendingOutput s1))) id {| rows := r1; ticks := n |}) as (cs & l & db' & s' & Ef & Af & Hs' & Hall & Hn & Hcs & Hp & Hend).
  { apply A2. }
  { cbn [rows]. rewrite (state_of_known _ _ _ Es1). lia. }
  cbn [rows] in *. rewrite (state_of_known _ _ _ Es1) in Hn, Hcs, Hp. rewrite Ef. exists l, db'. split; [done|]. split.
  { change l with ([] ++ [] ++ l). eapply appends_trans; [exact A1|]. by eapply appends_trans. }
  split; [done|]. intros _. split; [by rewrite Hs'|]. rewrite (state_of_known _ _ _ Hs').
  pose proof (proj2 (keep_first_next c' s)) as En. fold s1 in En. rewrite En in *. by exists cs.
Qed.

Lemma tracks_chunk id A outs r r' c l :
  tracks id A outs r → 1 <= chunk_Seq c → is_Some (rc_states r' !! id) →
  (let s := state_of id r in let s' := state_of id r' in
   if chunk_Seq c <? nextOutputSeq s then l = [] ∧ s' = s
   else ∃ cs, Forall2 (output_of id) cs l ∧ nextOutputSeq s' = nextOutputSeq s + Z.of_nat (length cs) ∧
     (∀ i x, cs !! i = Some x → pendingOutput (keep_first c s) !! (nextOutputSeq s + Z.of_nat i) = Some x) ∧
     (∀ k, pendingOutput s' !! k = if (nextOutputSeq s <=? k) && (k <? nextOutputSeq s') then None else pendingOutput (keep_first c s) !! k) ∧
     pendingOutput s' !! nextOutputSeq s' = None) →
  tracks id (A ++ [c]) (outs ++ l) r'.
Proof.
  intros [T1 T2 T3 T4 T5] Hc Hknown. cbn zeta. set (s := state_of id r) in *.
  assert (Harr : ∀ k, Z.of_nat (length outs) < k → pendingOutput (keep_first c s) !! k = arrived k (A ++ [c])).
  { intros k Hk. rewrite keep_first_lookup, T2, arrived_app. destruct (Z.leb_spec k (Z.of_nat (length outs))); [lia|done]. }
  assert (Hold : ∀ k x, arrived k A = Some x → arrived k (A ++ [c]) = Some x) by (intros k x Hx; by rewrite arrived_app, Hx).
  assert (Hseen : rc_states r' !! id = None → ∀ e, e ∈ rc_rows r' → se_RequestID e ≠ id) by (intros HN; rewrite HN in Hknown; by destruct Hknown).
  destruct (Z.ltb_spec (chunk_Seq c) (nextOutputSeq s)) as [Hlt|Hge].
  - intros [-> Es]. rewrite app_nil_r. split; try done; [by rewrite Es| | |].
    + intros k. rewrite Es, T2, arrived_app. destruct (Z.leb_spec k (Z.of_nat (length outs))); [done|]. destruct (arrived k A); [done|].
      destruct (Z.eqb_spec (chunk_Seq c) k); [lia|done].
    + rewrite arrived_app, T3. destruct (Z.eqb_spec (chunk_Seq c) (1 + Z.of_nat (length outs))); [lia|done].
    + intros i e He. destruct (T4 i e He) as (x & Hx & Ho). exists x. auto.
  - intros (cs & Hall & Hn & Hcs & Hp & Hend). pose proof (Forall2_length _ _ _ Hall) as Hlen.
    assert (En : nextOutputSeq (state_of id r') = 1 + Z.of_nat (length (outs ++ l))) by (rewrite length_app, Hn, T1; lia).
    split; try done.
    + intros k. rewrite Hp, En. destruct (Z.leb_spec (nextOutputSeq s) k), (Z.ltb_spec k (1 + Z.of_nat (length (outs ++ l)))),
        (Z.leb_spec k (Z.of_nat (length (outs ++ l)))); cbn; try lia; try done; try (apply Harr; lia).
      rewrite keep_first_lookup, T2. destruct (Z.leb_spec k (Z.of_nat (length outs))); [|rewrite length_app in *; lia].
      destruct (Z.eqb_spec (chunk_Seq c) k); [lia|done].
    + rewrite <- Harr by (rewrite length_app; lia). rewrite Hp, En in Hend. 
      destruct (Z.leb_spec (nextOutputSeq s) (1 + Z.of_nat (length (outs ++ l)))), (Z.ltb_spec (1 + Z.of_nat (length (outs ++ l))) (1 + Z.of_nat (length (outs ++ l))));
        cbn in Hend; try done; lia.
    + intros i e He. apply lookup_app_Some in He as [He|[Hi He]].
      * destruct (T4 i e He) as (x & Hx & Ho). exists x. auto.
      * destruct (Forall2_lookup_r _ _ _ _ _ Hall He) as (x & Hx & Ho). exists x. split; [|done]. apply Hcs in Hx. rewrite T1 in Hx.
        rewrite <- Harr by lia. rewrite <- Hx. f_equal. lia.
Qed.

(** ** Readers *)

Lemma replayLocked_reads id q : reads (replayLocked id q).
Proof. unfold replayLocked. case_match; eauto 10 with legator. Qed.
Lemma Replay_reads id q : reads (Replay id q).
Proof. unfold Replay. case_match; [eauto with legator|apply replayLocked_reads]. Qed.

(** The recorder with one more subscriber. *)
Definition with_subscriber id (sub : StreamSubscriber) r : StreamRecorder :=
  set_rc_subs (<[id := subs_of id r ++ [length (rc_heap r)]]> (rc_subs r)) (rc_heap r ++ [sub]) r.

Lemma subscribe_run id q bufSize db :
  (∃ e db', ReplayAndSubscribe id q bufSize db = (inl e, db') ∧ rows db' = rows db) ∨
  (TrimSpace id = "" ∧ ReplayAndSubscribe id q bufSize db = (inr (no_replay, None), db)) ∨
  ∃ res db', TrimSpace id ≠ "" ∧ (∃ db1, replayLocked (TrimSpace id) q db = (inr res, db1)) ∧
    ReplayAndSubscribe id q bufSize db = (inr (res, Some (length (rc_heap (rows db)))), db') ∧
    rows db' = with_subscriber (TrimSpace id) {| sub_RequestID := TrimSpace id; sub_Ch := []; sub_cap := if bufSize <=? 0 then 256%nat else Z.to_nat bufSize;
                                                 sub_afterSeq := sr_NextSeq res; sub_done := false |} (rows db).
Proof.
  unfold ReplayAndSubscribe. destruct (String.eqb_spec (TrimSpace id) "") as [E|Hne]; [right; by left|].
  unfold mbind, M_bind, puts. destruct (replayLocked (TrimSpace id) q db) as [[e|res] db1] eqn:Er.
  - left. exists e, db1. split; [done|]. by eapply replayLocked_reads.
  - right; right. exists res. pose proof (replayLocked_reads _ _ _ _ _ Er) as Hrows. eexists. split; [done|]. split; [by exists db1|].
    cbn [gets]. rewrite Hrows. done.
Qed.

Lemma subs_of_lt id n r : stream_ok r → n ∈ subs_of id r → (n < length (rc_heap r))%nat.
Proof. intros Hok Hn. destruct (so_subs _ Hok id n Hn) as (sub & Hsub & _). by eapply lookup_lt_Some. Qed.

Lemma with_subscriber_ok id sub r : stream_ok r → sub_RequestID sub = id → stream_ok (with_subscriber id sub r).
Proof.
  intros Hok Hid. pose proof Hok as [H1 H2 H3 H4 H5]. split; try done.
  - intros id' n Hn. unfold subs_of in Hn. cbn in Hn |- *. destruct (decide (id' = id)) as [->|Hne].
    + rewrite lookup_insert_eq in Hn. cbn in Hn. apply elem_of_app in Hn as [Hn|Hn%list_elem_of_singleton].
      * destruct (H4 id n Hn) as (x & Hx & ?). exists x. split; [by apply lookup_app_l_Some|done].
      * exists sub. split; [|done]. rewrite Hn. by apply list_lookup_middle.
    + rewrite lookup_insert_ne in Hn by done. destruct (H4 id' n Hn) as (x & Hx & ?). exists x. split; [by apply lookup_app_l_Some|done].
  - intros id'. unfold subs_of. cbn. destruct (decide (id' = id)) as [->|Hne]; [|rewrite lookup_insert_ne by done; apply H5].
    rewrite lookup_insert_eq. cbn. apply NoDup_app. split; [apply H5|]. split; [|apply NoDup_singleton].
    intros n Hn Hn'%list_elem_of_singleton. apply (subs_of_lt _ _ _ Hok) in Hn. lia.
Qed.

Lemma remove_first_sublist n l : remove_first n l `sublist_of` l.
Proof. induction l as [|m l IH]; cbn; [done|]. destruct (Nat.eqb m n); by constructor. Qed.

(** The heap may change as long as the subscribers keep their requests. *)
Lemma heap_ok h r : stream_ok r → (∀ n sub, rc_heap r !! n = Some sub → ∃ sub', h !! n = Some sub' ∧ sub_RequestID sub' = sub_RequestID sub) →
  stream_ok (set_rc_subs (rc_subs r) h r).
Proof.
  intros [H1 H2 H3 H4 H5] Hh. split; try done. intros id n Hn. destruct (H4 id n Hn) as (sub & Hsub & Hr).
  destruct (Hh n sub Hsub) as (sub' & Hsub' & E). exists sub'. split; [done|congruence].
Qed.
Lemma close_ok n r : stream_ok r → stream_ok (close_subscriber n r).
Proof.
  intros Hok. apply heap_ok; [done|]. intros m sub Hsub. destruct (decide (m = n)) as [->|Hne].
  - rewrite list_lookup_alter_eq, Hsub. by eexists.
  - rewrite list_lookup_alter_ne by done. by eexists.
Qed.
Lemma remove_ok id n r : stream_ok r → stream_ok (remove_subscriber id n r).
Proof.
  intros [H1 H2 H3 H4 H5]. assert (Hs : ∀ id', subs_of id' (remove_subscriber id n r) `sublist_of` subs_of id' r).
  { intros id'. unfold remove_subscriber, subs_of. pose proof (remove_first_sublist n (subs_of id r)) as Hf. cbn.
    destruct (decide (id' = id)) as [->|Hne].
    - unfold subs_of in Hf. destruct (remove_first _ _) as [|x l] eqn:E; [rewrite lookup_delete_eq|rewrite lookup_insert_eq]; cbn; [apply sublist_nil_l|done].
    - destruct (remove_first _ _); [rewrite lookup_delete_ne by done|rewrite lookup_insert_ne by done]; done. }
  split; try done.
  - intros id' m Hm. apply H4. eapply sublist_elem; [apply Hs|exact Hm].
  - intros id'. eapply sublist_NoDup; [apply H5|apply Hs].
Qed.
Lemma receive_ok n e r r' : stream_ok r → receive n r = Some (e, r') → stream_ok r' ∧ rc_rows r' = rc_rows r ∧ rc_states r' = rc_states r.
Proof.
  intros Hok. unfold receive. destruct (rc_heap r !! n) as [sub|] eqn:Hsub; [|done]. destruct (sub_Ch sub) as [|x rest]; [done|].
  intros [= <- <-]. split; [|done]. apply heap_ok; [done|]. intros m sub' Hm. destruct (decide (m = n)) as [->|Hne].
  - rewrite list_lookup_insert_eq by (by eapply lookup_lt_Some). eexists. split; [done|]. cbn. congruence.
  - rewrite list_lookup_insert_ne by done. by eexists.
Qed.

(** Every operation keeps the invariant, and stores events of one request. *)
Lemma op_run o db :
  stream_ok (rows db) → ∃ id l db', run_op o db = (l, db') ∧ stream_ok (rows db') ∧
    match o with
    | OMarker i _ _ _ => id = TrimSpace i ∧ appends id l (rows db) (rows db')
    | OChunk c => id = TrimSpace (chunk_RequestID c) ∧ appends id l (rows db) (rows db')
    | _ => l = [] ∧ rc_rows (rows db') = rc_rows (rows db) ∧ rc_states (rows db') = rc_states (rows db)
    end.
Proof.
  intros Hok. destruct o as [i kind data meta|c|i q|i q bufSize|n|i n|n].
  - destruct (marker_run i kind data meta db Hok) as (l & db' & E & A & _). exists (TrimSpace i), l, db'. split; [done|]. split; [apply A|done].
  - destruct (chunk_run c db Hok) as (l & db' & E & A & _). exists (TrimSpace (chunk_RequestID c)), l, db'. split; [done|]. split; [apply A|done].
  - cbn [run_op]. destruct (Replay i q db) as [res db'] eqn:E. exists "", [], db'. split; [done|]. by rewrite (Replay_reads _ _ _ _ _ E).
  - cbn [run_op]. destruct (subscribe_run i q bufSize db) as [(e & db' & E & Hr)|[[_ E]|(res & db' & _ & _ & E & Hr)]]; rewrite E.
    + exists "", [], db'. by rewrite Hr.
    + by exists "", [], db.
    + exists "", [], db'. split; [done|]. rewrite Hr. split; [by apply with_subscriber_ok|done].
  - exists "", []. eexists. split; [done|]. split; [by apply close_ok|done].
  - exists "", []. eexists. split; [done|]. split; [by apply remove_ok|done].
  - exists "", []. eexists. split; [done|]. cbn [rows]. destruct (receive n (rows db)) as [[e r']|] eqn:E; [|done]. destruct (receive_ok n e _ _ Hok E) as (? & ? & ?). done.
Qed.

(** ** The record of a request *)

Lemma filter_own id l : Forall (λ e, se_RequestID e = id) l → List.filter (of_request id) l = l.
Proof. induction 1 as [|e l He _ IH]; [done|]. cbn. unfold of_request at 1. by rewrite He, String.eqb_refl, IH. Qed.
Lemma filter_other id id' l : id' ≠ id → Forall (λ e, se_RequestID e = id') l → List.filter (of_request id) l = [].
Proof. intros Hne. induction 1 as [|e l He _ IH]; [done|]. cbn. unfold of_request at 1. rewrite He. by destruct (String.eqb_spec id' id). Qed.

(** One operation, seen from the request [id]: it stores [l], which are events of
    this request or of none of its business. *)
Definition op_request (o : stream_op) : option string :=
  match o with OMarker i _ _ _ => Some (TrimSpace i) | OChunk c => Some (TrimSpace (chunk_RequestID c)) | _ => None end.

Lemma op_seen id o db l db' :
  stream_ok (rows db) → run_op o db = (l, db') →
  stream_ok (rows db') ∧
  ((op_request o = Some id ∧ appends id l (rows db) (rows db')) ∨
   (op_request o ≠ Some id ∧ leaves id (rows db) (rows db') ∧ List.filter (of_request id) l = [])).
Proof.
  intros Hok E. destruct (op_run o db Hok) as (id' & l' & db1 & E' & Hok' & Ho). rewrite E in E'. injection E' as <- <-. split; [done|].
  destruct o as [i kind data meta|c|i q|i q bufSize|n|i n|n]; cbn [op_request].
  1, 2: destruct Ho as [-> A]; match type of A with appends ?i _ _ _ => destruct (decide (i = id)) as [Hi|Hne] end;
    [left; by rewrite Hi in *|right; split; [congruence|]; split; [by eapply appends_leaves|by eapply filter_other, A]].
  all: right; destruct Ho as (-> & Hr & Hs); split; [done|]; split; [|done]; split; [by rewrite Hs|by rewrite Hr].
Qed.

Lemma tracks_op id A outs o db l db' :
  id ≠ "" → stream_ok (rows db) → run_op o db = (l, db') → tracks id A outs (rows db) → Forall (λ c, 1 <= chunk_Seq c) (option_list (chunk_of id o)) →
  tracks id (A ++ option_list (chunk_of id o)) (outs ++ if chunk_of id o then l else []) (rows db').
Proof.
  intros Hid Hok E Ht Hc. destruct (op_seen id o db l db' Hok E) as [Hok' [[Ho Ap]|(Ho & Hl & _)]].
  - destruct o as [i kind data meta|c|i q|i q bufSize|n|i n|n]; try done; injection Ho as Ho.
    + cbn [chunk_of option_list]. rewrite !app_nil_r. destruct (marker_run i kind data meta db Hok) as (l' & db1 & E' & _ & E1 & E2).
      rewrite E in E'. injection E' as <- <-. rewrite Ho in E1, E2. eapply tracks_state; [exact E1|exact E2| |exact Ht].
      apply (appends_seen _ _ _ _ Ap), Ht.
    + cbn [chunk_of] in *. rewrite (proj2 (String.eqb_eq _ _) Ho) in *. cbn [option_list] in *. apply Forall_cons in Hc as [Hc _].
      destruct (chunk_run c db Hok) as (l' & db1 & E' & _ & _ & Hrest). rewrite E in E'. injection E' as <- <-. rewrite Ho in Hrest.
      destruct (Hrest Hid) as [Hk Hrest']. unfold numbered in Hrest'. destruct (Z.leb_spec (chunk_Seq c) 0); [lia|].
      by eapply tracks_chunk.
  - assert (En : chunk_of id o = None).
    { destruct o; try done. cbn. destruct (String.eqb_spec (TrimSpace (chunk_RequestID c)) id) as [E1|]; [|done]. cbn in Ho. congruence. }
    rewrite En. cbn [option_list]. rewrite !app_nil_r. by eapply tracks_leaves.
Qed.

Lemma arrivals_cons id o ops : arrivals id (o :: ops) = option_list (chunk_of id o) ++ arrivals id ops.
Proof. unfold arrivals. cbn. by destruct (chunk_of id o). Qed.

Lemma run_tracks id ops db A outs t db' :
  id ≠ "" → stream_ok (rows db) → tracks id A outs (rows db) → Forall (λ c, 1 <= chunk_Seq c) (arrivals id ops) → run_ops ops db = (t, db') →
  stream_ok (rows db') ∧ tracks id (A ++ arrivals id ops) (outs ++ outputs id t) (rows db').
Proof.
  intros Hid. revert db A outs t db'. induction ops as [|o ops IH]; intros db A outs t db' Hok Ht Hall E; cbn [run_ops] in E.
  - injection E as <- <-. cbn. rewrite !app_nil_r. done.
  - destruct (run_op o db) as [l db1] eqn:Eo. destruct (run_ops ops db1) as [t' db2] eqn:Er. injection E as <- <-.
    rewrite arrivals_cons in *. apply Forall_app in Hall as [Hc Hall]. pose proof (tracks_op _ _ _ _ _ _ _ Hid Hok Eo Ht Hc) as Ht1.
    destruct (IH db1 _ _ t' db2 (proj1 (op_seen id _ _ _ _ Hok Eo)) Ht1 Hall Er) as [Hok2 Ht2]. split; [done|].
    unfold outputs. cbn. by rewrite <- !app_assoc in *.
Qed.

(** The events of a request are numbered one after the other. *)
Lemma run_numbers id ops db t db' :
  stream_ok (rows db) → seen id (rows db) → run_ops ops db = (t, db') →
  map se_Seq (events_of id t) = seqZ (nextSeq (state_of id (rows db))) (Z.of_nat (length (events_of id t))).
Proof.
  revert db t db'. induction ops as [|o ops IH]; intros db t db' Hok Hseen E; cbn [run_ops] in E; [by injection E as <- <-|].
  destruct (run_op o db) as [l db1] eqn:Eo. destruct (run_ops ops db1) as [t' db2] eqn:Er. injection E as <- <-.
  unfold events_of. cbn [map concat snd]. rewrite List.filter_app. fold (events_of id t').
  destruct (op_seen id _ _ _ _ Hok Eo) as [Hok1 [[_ Ap]|(_ & Hl & El)]].
  - rewrite filter_own by apply Ap. assert (Hseen1 : seen id (rows db1)).
    { by apply (appends_seen _ _ _ _ Ap). }
    rewrite map_app, (ap_seqs _ _ _ _ Ap), (IH _ _ _ Hok1 Hseen1 Er), (ap_next _ _ _ _ Ap), length_app, Nat2Z.inj_add. by rewrite seqZ_app by lia.
  - destruct (leaves_state _ _ _ Hl Hseen) as [Es Hs]. by rewrite El, app_nil_l, (IH db1 t' db2 Hok1 Hs Er), Es.
Qed.

(** The table stays within its bounds. *)
Lemma run_within ops db t db' :
  stream_ok (rows db) → within (rc_rows (rows db)) → run_ops ops db = (t, db') → stream_ok (rows db') ∧ within (rc_rows (rows db')).
Proof.
  revert db t db'. induction ops as [|o ops IH]; intros db t db' Hok Hw E; cbn [run_ops] in E; [by injection E as <- <-|].
  destruct (run_op o db) as [l db1] eqn:Eo. destruct (run_ops ops db1) as [t' db2] eqn:Er. injection E as <- <-.
  destruct (op_run o db Hok) as (id & l' & db1' & Eo' & Hok' & Ho). rewrite Eo in Eo'. injection Eo' as <- <-. apply (IH db1 t' db2); [done| |done].
  destruct o; try (by destruct Ho as (_ & -> & _)); destruct Ho as [_ A]; by apply (ap_within _ _ _ _ A).
Qed.

Lemma reopen_run db : table_ok (rc_rows (rows db)) →
  ∃ db', reopen retention db = (inr tt, db') ∧ stream_ok (rows db') ∧ within (rc_rows (rows db')) ∧ rc_rows (rows db') `sublist_of` rc_rows (rows db) ∧
    rc_states (rows db') = ∅ ∧ rc_subs (rows db') = ∅.
Proof.
  intros Ht. unfold reopen, puts. unfold mbind, M_bind. set (d := {| rows := NewStreamRecorder (rc_rows (rows db)) |}).
  pose proof (prune_within d Ht) as Hw. destruct (prune_succeeds d) as (db' & E & Hs). rewrite E in *. exists db'. split; [done|].
  split; [|by split; [exact Hw|split; [apply Hs|split; apply Hs]]]. eapply shrinks_ok; [|exact Hs]. destruct Ht as [H1 H2]. split; try done.
  - intros e He. rewrite Forall_forall in H2. by apply H2.
  - intros id n Hn. by apply elem_of_nil in Hn.
  - intros id. apply NoDup_nil_2.
Qed.
End stream.
