(* ===== verification/StreamGuarantees.v ===== *)
(** * The command stream recorder: the theorems
    (src/internal/controlplane/cmdtracker/stream_recorder.go)

    Output is recorded once and in order, the table stays within its bounds, a
    subscriber sees every event after its page, and a resume token comes back as the
    position it was made of.  The subscriber's theorem follows one reader through a
    history: [feeding] says what it has received and what waits in its channel. *)
From S2P Require Import Prelude GoStrings GoErrors GoTime GoFloat Protocol GoSort GoSql GoRuntime PackTypes CommandStream StreamSafety.
Local Open Scope go_scope.
Local Open Scope Z_scope.

(** ** Resume tokens *)

Lemma digit_char n : (n < 10)%N → is_digit (pretty_N_char n) = true ∧ Z.of_nat (nat_of_ascii (pretty_N_char n)) - 48 = Z.of_N n.
Proof. intros Hn. repeat (destruct n as [|n]; [done|]; try done). by destruct n as [[[[]|[]|]|[[]|[]|]|]|[[[]|[]|]|[[]|[]|]|]|]. Qed.

(** Reading back the decimal digits of a number. *)
Lemma dec_value_go x s : dec_value 0 (pretty_N_go x s) = dec_value (Z.of_N x) s.
Proof.
  revert s. induction (N.lt_wf_0 x) as [x _ IH]; intros s. destruct (decide (x = 0%N)) as [->|Hx]; [by rewrite pretty_N_go_0|].
  rewrite pretty_N_go_step by lia. rewrite IH by (apply N.div_lt; lia). cbn [dec_value].
  destruct (digit_char (x mod 10)) as [-> ->]; [by apply N.mod_lt|]. f_equal. rewrite N2Z.inj_div, N2Z.inj_mod. pose proof (Z.div_mod (Z.of_N x) 10). lia.
Qed.
Lemma digits_go x s : all_chars is_digit s = true → all_chars is_digit (pretty_N_go x s) = true.
Proof.
  revert s. induction (N.lt_wf_0 x) as [x _ IH]; intros s Hs. destruct (decide (x = 0%N)) as [->|Hx]; [by rewrite pretty_N_go_0|].
  rewrite pretty_N_go_step by lia. apply IH; [apply N.div_lt; lia|]. cbn [all_chars]. rewrite Hs.
  by destruct (digit_char (x mod 10)) as [-> _]; [apply N.mod_lt|].
Qed.
Lemma Itoa_spec n : 0 <= n → all_chars is_digit (Itoa n) = true ∧ Itoa n ≠ "" ∧ dec_value 0 (Itoa n) = Some n.
Proof.
  intros Hn. destruct n as [|p|p]; [done| |lia]. change (Itoa (Z.pos p)) with (pretty_N_go (N.pos p) ""). split; [by apply digits_go|].
  pose proof (dec_value_go (N.pos p) "") as E. cbn [dec_value] in E. split; [|done]. intros H0. rewrite H0 in E. done.
Qed.

Lemma ParseInt_digits s : all_chars is_digit s = true → s ≠ "" → ParseInt s = (n ← dec_value 0 s; in_int64 n).
Proof. intros Hs Hne. destruct s as [|c s]; [done|]. apply andb_prop in Hs as [Hc _]. destruct c as [[] [] [] [] [] [] [] []]; done. Qed.
Lemma split_colon a d : all_chars is_digit d = true → split_last_colon (a +:+ ":" +:+ d)%string = Some (a, d).
Proof.
  intros Hd. assert (Hn : split_last_colon d = None).
  { induction d as [|c d IH]; [done|]. apply andb_prop in Hd as [Hc Hd]. cbn. rewrite IH by done. destruct (Ascii.eqb_spec c ":") as [->|]; done. }
  induction a as [|c a IH].
  - change (split_last_colon (String ":" d) = Some (""%string, d)). cbn. by rewrite Hn.
  - change (split_last_colon (String c (a +:+ ":" +:+ d)%string) = Some (String c a, d)). cbn [split_last_colon]. by rewrite IH.
Qed.
Lemma digits_no_space s : all_chars is_digit s = true → all_chars (λ c, negb (is_space c)) s = true.
Proof.
  induction s as [|c s IH]; [done|]. intros [Hc Hs]%andb_prop. cbn [all_chars]. rewrite IH by done.
  destruct c as [[] [] [] [] [] [] [] []]; done.
Qed.

(** C33. Decoding the resume token of a request at a position gives back the trimmed
    request and the position, whatever characters the request id has, colons
    included. *)
Theorem resume_token_roundtrip id seq :
  TrimSpace id ≠ "" → 0 <= seq < 2 ^ 63 → DecodeResumeToken (EncodeResumeToken id seq) = inr (TrimSpace id, seq).
Proof.
  intros Hid Hseq. unfold EncodeResumeToken. destruct (String.eqb_spec (TrimSpace id) "") as [|_]; [done|].
  rewrite Z.max_r by lia. destruct (Itoa_spec seq) as (Hd & Hne & Hv); [lia|]. set (d := Itoa seq) in *.
  pose proof (TrimSpace_no_space d (digits_no_space d Hd)) as Ht.
  assert (Htok : TrimSpace (TrimSpace id +:+ ":" +:+ d)%string = (TrimSpace id +:+ ":" +:+ d)%string).
  { pose proof (digits_no_space d Hd) as Hs. destruct d as [|c d']; [done|]. apply andb_prop in Hs as [Hc Hs%TrimSpace_no_space].
    pose proof (TrimSpace_join id ":" c d' eq_refl (proj1 (negb_true_iff _) Hc)) as E. by rewrite Hs in E. }
  unfold DecodeResumeToken. rewrite Htok, (split_colon _ _ Hd), Ht, TrimSpace_idem, (ParseInt_digits _ Hd Hne), Hv.
  assert (Hi : in_int64 seq = Some seq) by (unfold in_int64; destruct (Z.leb_spec (- 2 ^ 63) seq), (Z.ltb_spec seq (2 ^ 63)); done || lia).
  cbn [mbind option_bind]. rewrite Hi. destruct (Z.ltb_spec seq 0); [lia|].
  destruct (TrimSpace id) as [|c id']; [done|]. by destruct d.
Qed.

Section stream.
Context `{HostLaws} (retention : StreamRetention) (coin : nat → bool).
Implicit Types (db : DB StreamRecorder) (r : StreamRecorder) (id : string).

(** C30. Whatever else the recorder is asked in between, and in whatever order the
    numbered chunks of a command arrive, repeated ones included, as long as the
    database answers every statement: the output events of the request are, one after
    the other, those of the chunks 1, 2, 3, ..., each made of the first chunk that came
    with its number; they stop only at a number that has not arrived; and the events of
    the request, markers included, are numbered 1, 2, 3, ... without a gap.  After a
    failed prune this no longer holds ([failed_prune_stalls]). *)
Theorem output_recorded_in_order id ops db t db' :
  (∀ n, sql_fault n = None) → id ≠ "" → stream_ok (rows db) → unseen id (rows db) → Forall (λ c, 1 <= chunk_Seq c) (arrivals id ops) →
  run_ops retention coin ops db = (t, db') →
  (∀ i e, outputs id t !! i = Some e → ∃ c, arrived (1 + Z.of_nat i) (arrivals id ops) = Some c ∧ output_of id c e) ∧
  arrived (1 + Z.of_nat (length (outputs id t))) (arrivals id ops) = None ∧
  map se_Seq (events_of id t) = seqZ 1 (Z.of_nat (length (events_of id t))).
Proof.
  intros no_faults Hid Hok Hun Hall E. pose proof (unseen_state id _ Hun) as Es. assert (Hseen : seen id (rows db)) by (intros _; apply Hun).
  assert (Ht : tracks id [] [] (rows db)).
  { split; rewrite ?Es; try done. intros k. cbn. by case_match. }
  destruct (run_tracks retention coin no_faults id ops db [] [] t db' Hid Hok Ht Hall E) as [_ [_ _ T3 T4 _]].
  split; [exact T4|]. split; [exact T3|]. rewrite (run_numbers retention coin no_faults id ops db t db' Hok Hseen E). by rewrite Es.
Qed.

(** C32. After the recorder was opened on any table of distinct, positively numbered
    rows, whatever the configuration: the table never holds more than the normalised
    number of events of one request, nor more than the normalised number in all, after
    any sequence of operations, as long as the database answers every statement (an
    event that was inserted stays when the prune after it fails). *)
Theorem retention_bounds cfg db res db1 ops t db2 id :
  (∀ n, sql_fault n = None) → retention = normalizeStreamRetention cfg → table_ok (rc_rows (rows db)) → reopen retention db = (res, db1) → run_ops retention coin ops db1 = (t, db2) →
  count_of id (rc_rows (rows db2)) <= MaxEventsPerRequest retention ∧ Z.of_nat (length (rc_rows (rows db2))) <= MaxEventsTotal retention.
Proof.
  intros no_faults Hcfg Ht Er E. destruct (reopen_run retention no_faults db Ht) as (db' & Er' & Hok & Hw & _). rewrite Er in Er'. injection Er' as -> ->.
  destruct (run_within retention coin no_faults ops db' t db2 Hok Hw E) as [_ [H1 H2]].
  rewrite Hcfg in *. split; [apply H1|apply H2]; unfold normalizeStreamRetention; cbn; case_match; try apply Z.leb_gt; done.
Qed.

(** ** One subscriber *)

Section subscriber.
Context (no_faults : ∀ n, sql_fault n = None).

(** What the subscriber takes out of its channel during a history. *)
Definition takes (n : nat) (o : stream_op) r : list StreamEvent :=
  match o with OReceive m => if Nat.eqb m n then match receive n r with Some (e, _) => [e] | None => [] end else [] | _ => [] end.
Fixpoint received (n : nat) (ops : list stream_op) db : list StreamEvent :=
  match ops with [] => [] | o :: ops => takes n o (rows db) ++ received n ops (run_op retention coin o db).2 end.

(** No operation ends the subscription [n]. *)
Definition ends (n : nat) (o : stream_op) : bool := match o with OClose m => Nat.eqb m n | ORemove _ m => Nat.eqb m n | _ => false end.

(** The subscriber [n] of [id] listens for what comes after [a]; it has taken [got],
    and [got] with what waits is [sent]. *)
Record feeding id (n cap : nat) (a : Z) (got sent : list StreamEvent) r : Prop := {
  fd_listed : n ∈ subs_of id r;
  fd_sub : ∃ sub, rc_heap r !! n = Some sub ∧ sub_cap sub = cap ∧ sub_afterSeq sub = a ∧ sub_done sub = false ∧ got ++ sub_Ch sub = sent;
  fd_above : a < nextSeq (state_of id r);
  fd_seen : seen id r;
}.

Lemma offered_all n l sub :
  sub_done sub = false → (length (sub_Ch sub) + length l ≤ sub_cap sub)%nat → Forall (λ e, sub_afterSeq sub < se_Seq e) l →
  let sub' := offered coin n l sub in
  sub_Ch sub' = sub_Ch sub ++ l ∧ sub_cap sub' = sub_cap sub ∧ sub_afterSeq sub' = sub_afterSeq sub ∧ sub_done sub' = false.
Proof.
  revert sub. induction l as [|e l IH]; intros sub Hd Hroom Hl; cbn zeta; [by rewrite app_nil_r|].
  apply Forall_cons in Hl as [He Hl]. cbn [length] in Hroom. unfold offered. cbn [foldl].
  assert (E : offer_event (coin n) e sub = push_event e sub).
  { unfold offer_event, room. destruct (Z.leb_spec (se_Seq e) (sub_afterSeq sub)); [lia|]. rewrite (proj2 (Nat.ltb_lt _ _)) by lia. by rewrite Hd. }
  rewrite E. fold (offered coin n l (push_event e sub)). destruct (IH (push_event e sub)) as (-> & -> & -> & ->); cbn [push_event sub_Ch sub_cap sub_done sub_afterSeq]; try done.
  - rewrite length_app. cbn. lia.
  - by rewrite <- app_assoc.
Qed.


Lemma remove_first_keeps n m l : m ≠ n → n ∈ l → n ∈ remove_first m l.
Proof.
  intros Hne. induction l as [|x l IH]; [done|]. cbn. intros [->|Hn]%elem_of_cons; [rewrite (proj2 (Nat.eqb_neq _ _)) by done; by left|].
  destruct (Nat.eqb x m); [done|right; by apply IH].
Qed.
Lemma remove_keeps i m n id r : m ≠ n → n ∈ subs_of id r → n ∈ subs_of id (remove_subscriber i m r).
Proof.
  intros Hne Hn. unfold remove_subscriber. destruct (decide (i = id)) as [->|Hi].
  - pose proof (remove_first_keeps n m _ Hne Hn) as Hk. destruct (remove_first m (subs_of id r)) as [|x l]; [by apply elem_of_nil in Hk|].
    unfold subs_of. cbn. by rewrite lookup_insert_eq.
  - unfold subs_of. cbn. by case_match; [rewrite lookup_delete_ne|rewrite lookup_insert_ne].
Qed.

(** [sub'] is [sub] with [got] taken out of its channel. *)
Definition takes_from (got : list StreamEvent) (sub sub' : StreamSubscriber) : Prop :=
  sub_cap sub' = sub_cap sub ∧ sub_afterSeq sub' = sub_afterSeq sub ∧ sub_done sub' = sub_done sub ∧ got ++ sub_Ch sub' = sub_Ch sub.

Lemma receive_takes m n r sub :
  rc_heap r !! n = Some sub →
  ∃ sub', rc_heap match receive m r with Some (_, r') => r' | None => r end !! n = Some sub' ∧ takes_from (takes n (OReceive m) r) sub sub'.
Proof.
  intros Hn. cbn [takes]. destruct (Nat.eqb_spec m n) as [->|Hne].
  - unfold receive. rewrite Hn. destruct (sub_Ch sub) as [|e rest] eqn:Ec; [by exists sub|]. eexists. split.
    + cbn. apply list_lookup_insert_eq. by eapply lookup_lt_Some.
    + by split_and!.
  - exists sub. split; [|by split_and!]. unfold receive. destruct (rc_heap r !! m) as [x|]; [|done]. destruct (sub_Ch x); [done|]. cbn.
    by rewrite list_lookup_insert_ne.
Qed.

(** An operation that is not an append to [id] and does not end the subscription
    leaves it alone, but for a receive. *)
Lemma op_spares id n o db l db' sub :
  stream_ok (rows db) → ends n o = false → op_request o ≠ Some id → run_op retention coin o db = (l, db') →
  n ∈ subs_of id (rows db) → rc_heap (rows db) !! n = Some sub →
  n ∈ subs_of id (rows db') ∧ ∃ sub', rc_heap (rows db') !! n = Some sub' ∧ takes_from (takes n o (rows db)) sub sub'.
Proof.
  intros Hok He Ho E Hn Hsub. assert (Hsame : takes_from [] sub sub) by (by split_and!).
  destruct (op_run retention coin no_faults o db Hok) as (i & l' & db1 & E' & _ & Hr). rewrite E in E'. injection E' as <- <-.
  assert (Hap : ∀ i, i ≠ id → appends retention coin i l (rows db) (rows db') → n ∈ subs_of id (rows db') ∧ rc_heap (rows db') !! n = Some sub).
  { intros j Hj A. unfold subs_of. rewrite (ap_subs _ _ _ _ _ _ A). split; [done|]. rewrite (ap_heap _ _ _ _ _ _ A).
    rewrite bool_decide_eq_false_2; [done|]. intros Hin. destruct (so_subs _ Hok j n Hin) as (x & Hx & Hxj), (so_subs _ Hok id n Hn) as (y & Hy & Hyi). congruence. }
  destruct o as [j kind data meta|c|j q|j q bufSize|m|j m|m]; cbn [takes op_request ends] in *.
  - destruct Hr as [-> A]. destruct (Hap (TrimSpace j) ltac:(congruence) A). split; [done|]. by exists sub.
  - destruct Hr as [-> A]. destruct (Hap (TrimSpace (chunk_RequestID c)) ltac:(congruence) A). split; [done|]. by exists sub.
  - injection E as _ <-. destruct (Replay j q db) as [res d] eqn:Er. cbn [snd]. rewrite (Replay_reads _ _ _ _ _ Er). split; [done|]. by exists sub.
  - injection E as _ <-. destruct (subscribe_run j q bufSize db) as [(e & d & -> & Hd)|[[_ ->]|(res & d & _ & _ & -> & Hd)]]; cbn [snd]; rewrite ?Hd.
    1, 2: split; [done|]; by exists sub.
    split; [|exists sub; split; [by apply lookup_app_l_Some|done]]. unfold subs_of, with_subscriber. cbn.
    destruct (decide (TrimSpace j = id)) as [->|Hne]; [rewrite lookup_insert_eq; cbn; apply elem_of_app; by left|by rewrite lookup_insert_ne].
  - injection E as _ <-. apply Nat.eqb_neq in He. split; [done|]. exists sub. split; [|done]. cbn. by rewrite list_lookup_alter_ne.
  - injection E as _ <-. apply Nat.eqb_neq in He. split; [by apply remove_keeps|]. by exists sub.
  - injection E as _ <-. cbn [rows]. split; [|by apply receive_takes]. unfold receive. destruct (rc_heap (rows db) !! m) as [x|]; [|done].
    by destruct (sub_Ch x).
Qed.

Lemma feeding_op id n cap a got sent o db l db' :
  stream_ok (rows db) → ends n o = false → run_op retention coin o db = (l, db') → feeding id n cap a got sent (rows db) →
  (length sent + length (List.filter (of_request id) l) ≤ cap)%nat →
  feeding id n cap a (got ++ takes n o (rows db)) (sent ++ List.filter (of_request id) l) (rows db').
Proof.
  intros Hok He E [Hn (sub & Hsub & Hcap & Ha & Hd & Hsent) Habove Hseen] Hroom.
  destruct (op_seen retention coin no_faults id o db l db' Hok E) as [_ [[Ho A]|(Ho & Hl & Ef)]].
  - assert (Et : takes n o (rows db) = []) by (by destruct o). rewrite Et, app_nil_r. rewrite filter_own in * by apply A.
    assert (Hlater : Forall (λ e, sub_afterSeq sub < se_Seq e) l).
    { apply Forall_forall. intros e He'. assert (Hin : se_Seq e ∈ map se_Seq l) by (apply list_elem_of_fmap; by exists e).
      rewrite (ap_seqs _ _ _ _ _ _ A), elem_of_seqZ in Hin. lia. }
    destruct (offered_all n l sub Hd) as (E1 & E2 & E3 & E4); [|done|].
    { rewrite <- Hsent in Hroom. rewrite length_app in Hroom. lia. }
    split.
    + unfold subs_of. by rewrite (ap_subs _ _ _ _ _ _ A).
    + exists (offered coin n l sub). rewrite (ap_heap _ _ _ _ _ _ A), bool_decide_eq_true_2, Hsub by done. split; [done|].
      split_and!; [congruence|congruence|done|]. by rewrite E1, app_assoc, Hsent.
    + rewrite (ap_next _ _ _ _ _ _ A). lia.
    + by eapply appends_seen.
  - destruct (op_spares id n o db l db' sub Hok He Ho E Hn Hsub) as [Hn' (sub' & Hsub' & E1 & E2 & E3 & E4)].
    destruct (leaves_state _ _ _ Hl Hseen) as [Es Hseen']. rewrite Ef, app_nil_r. split; [done| |by rewrite Es|done].
    exists sub'. split_and!; try congruence. by rewrite <- app_assoc, E4.
Qed.

Lemma events_cons id o l t : events_of id ((o, l) :: t) = List.filter (of_request id) l ++ events_of id t.
Proof. unfold events_of. cbn. apply List.filter_app. Qed.

Lemma run_feeding id n cap a ops db t db' got sent :
  stream_ok (rows db) → forallb (λ o, negb (ends n o)) ops = true → run_ops retention coin ops db = (t, db') → feeding id n cap a got sent (rows db) →
  (length sent + length (events_of id t) ≤ cap)%nat →
  feeding id n cap a (got ++ received n ops db) (sent ++ events_of id t) (rows db').
Proof.
  revert db t got sent. induction ops as [|o ops IH]; intros db t got sent Hok He E Hf Hroom; cbn [run_ops received] in *.
  - injection E as <- <-. by rewrite !app_nil_r.
  - destruct (run_op retention coin o db) as [l db1] eqn:Eo. destruct (run_ops retention coin ops db1) as [t' db2] eqn:Er. injection E as <- <-.
    apply andb_prop in He as [He%negb_true_iff Hes]. rewrite events_cons, length_app in *. rewrite !app_assoc. cbn [snd].
    eapply IH; [apply (proj1 (op_seen retention coin no_faults id o db l db1 Hok Eo))|done|done| |rewrite length_app; lia].
    eapply feeding_op; [done|done|done|done|lia].
Qed.

(** ** The page *)

Lemma cursor_nonneg id q cursor : resolveReplayCursor id q = inr cursor → 0 <= cursor.
Proof.
  unfold resolveReplayCursor. set (l := if q_LastSeq q <? 0 then 0 else q_LastSeq q).
  assert (0 <= l) by (subst l; destruct (Z.ltb_spec (q_LastSeq q) 0); lia). case_match; [by intros [= <-]|].
  case_match; [done|]. case_match. case_match; [done|]. intros [= <-]. destruct (Z.ltb_spec l z); lia.
Qed.
Lemma replay_limit_pos q : 0 < replay_limit q.
Proof.
  unfold replay_limit, maxStreamReplayLimit, defaultStreamReplayLimit. destruct (Z.leb_spec (q_Limit q) 0); [done|]. by destruct (Z.ltb_spec 5000 (q_Limit q)).
Qed.

(** The rows of a request above a position, in order. *)
Definition rows_above id (cursor : Z) r : list StreamEvent :=
  order_by by_seq (List.filter (λ e, of_request id e && (cursor <? se_Seq e)) (rc_rows r)).

Lemma last_of_page (l : list StreamEvent) e n : last (take n (map scanStreamEvent l)) = Some e → ∃ x, x ∈ l ∧ se_Seq x = se_Seq e.
Proof.
  intros (k & E)%last_Some. assert (He : e ∈ map scanStreamEvent l).
  { rewrite <- (take_drop n (map scanStreamEvent l)), E. set_solver. }
  apply list_elem_of_fmap in He as (x & -> & Hx). by exists x.
Qed.

Lemma whole_page {A} (l : list A) (m : Z) : 0 < m → (m <? Z.of_nat (length (take (Z.to_nat (m + 1)) l))) = false →
  take (Z.to_nat (m + 1)) l = l ∧ take (Z.to_nat m) l = l.
Proof. intros Hm Hlen%Z.ltb_ge. rewrite length_take in Hlen. split; apply take_ge; lia. Qed.

Lemma replay_page id q cursor db res db1 :
  stream_ok (rows db) → resolveReplayCursor id q = inr cursor → (cursor = 0 ∨ ∃ e, e ∈ rc_rows (rows db) ∧ se_RequestID e = id) →
  q_Since q = None → replayLocked id q db = (inr res, db1) → sr_HasMore res = false →
  sr_Events res = map scanStreamEvent (rows_above id cursor (rows db)) ∧ sr_NextSeq res < nextSeq (state_of id (rows db)).
Proof.
  intros Hok Hc Hrows Hq E Hmore. pose proof (cursor_nonneg _ _ _ Hc) as Hpos. destruct (state_of_next id _ Hok) as [Hnext Hlt].
  unfold replayLocked in E. rewrite Hc in E. rewrite (proj2 (Z.ltb_ge cursor 0) Hpos) in E. unfold mbind, M_bind in E.
  rewrite (run_query no_faults) in E. cbn [fst snd] in E. rewrite (run_query no_faults) in E. cbn [rows tick] in E.
  assert (Ef : ∀ l, List.filter (λ e, of_request id e && (cursor <? se_Seq e) && since_ok q e) l = List.filter (λ e, of_request id e && (cursor <? se_Seq e)) l).
  { intros l. apply filter_ext. intros e. unfold since_ok. rewrite Hq. apply andb_true_r. }
  rewrite Ef in E. fold (rows_above id cursor (rows db)) in E. set (l := rows_above id cursor (rows db)) in *. injection E as <- _. cbn [sr_HasMore sr_Events sr_NextSeq] in *.
  rewrite length_map in Hmore. destruct (whole_page l _ (replay_limit_pos q) Hmore) as [-> Ep]. rewrite firstn_map, Ep. split; [done|].
  rewrite <- (firstn_all (map scanStreamEvent l)). assert (Hlast : ∀ e, last (take (length (map scanStreamEvent l)) (map scanStreamEvent l)) = Some e → se_Seq e < nextSeq (state_of id (rows db))).
  { intros e (x & Hx & <-)%last_of_page. unfold l, rows_above in Hx. rewrite order_by_perm in Hx. apply elem_filter_bool in Hx as [Hp Hx].
    apply andb_prop in Hp as [Hp%String.eqb_eq _]. by apply Hlt. }
  destruct (last _) as [e|]; [specialize (Hlast e eq_refl)|]; [by destruct (Z.ltb_spec (se_Seq e) 0); lia|].
  pose proof (max_of_spec (seqs_of id (rc_rows (rows db)))) as Hm. destruct (max_of _) as [m|]; cbn [from_option]; unfold Datatypes.id in *.
  - destruct Hm as [(x & Hx & Hid & <-)%elem_seqs _]. specialize (Hlt x Hx Hid). pose proof (so_pos _ Hok x Hx).
    destruct (Z.ltb_spec 0 (se_Seq x)), (Z.ltb_spec (se_Seq x) cursor); cbn [andb]; try lia;
      match goal with |- context [?a <? 0] => destruct (Z.ltb_spec a 0) end; lia.
  - destruct Hrows as [->|(e & He & Hid)]; [by apply (Z.lt_le_trans _ 1)|]. assert (Hin : se_Seq e ∈ seqs_of id (rc_rows (rows db))) by (apply elem_seqs; by exists e).
    rewrite Hm in Hin. by apply elem_of_nil in Hin.
Qed.

End subscriber.

(** C31. A reader that subscribes gets a page of everything the table holds of the
    request after its position, in order, and from then on, whatever else happens,
    every event that is stored for the request, once and in order: what it has
    received followed by what waits in its channel.  This is when the database answers
    every statement (an event whose prune fails is stored and not sent), the page is
    whole, no time bound was given, the request is in memory if it has rows, the
    position is not beyond an empty stream, the subscription is not ended, and the new
    events fit the channel. *)
Theorem subscription_without_gaps id q bufSize cursor db res n db1 ops t db2 :
  (∀ n, sql_fault n = None) → stream_ok (rows db) → seen id (rows db) → TrimSpace id = id → resolveReplayCursor id q = inr cursor → q_Since q = None →
  (cursor = 0 ∨ ∃ e, e ∈ rc_rows (rows db) ∧ se_RequestID e = id) →
  ReplayAndSubscribe id q bufSize db = (inr (res, Some n), db1) → sr_HasMore res = false →
  run_ops retention coin ops db1 = (t, db2) → forallb (λ o, negb (ends n o)) ops = true →
  (length (events_of id t) ≤ if (bufSize <=? 0)%Z then 256 else Z.to_nat bufSize)%nat →
  sr_Events res = map scanStreamEvent (rows_above id cursor (rows db)) ∧ StronglySorted (λ a b, se_Seq a <= se_Seq b) (rows_above id cursor (rows db)) ∧
  (∃ sub, rc_heap (rows db2) !! n = Some sub ∧ received n ops db1 ++ sub_Ch sub = events_of id t) ∧
  map se_Seq (events_of id t) = seqZ (nextSeq (state_of id (rows db))) (Z.of_nat (length (events_of id t))) ∧
  sr_NextSeq res < nextSeq (state_of id (rows db)).
Proof.
  intros no_faults Hok Hseen Htrim Hc Hq Hrows E Hmore Er He Hroom.
  destruct (subscribe_run id q bufSize db) as [(e & d & E' & _)|[[_ E']|(res' & d & Hne & (d' & El) & E' & Hd)]]; rewrite E in E'; try done.
  injection E' as <- -> <-. rewrite Htrim in El, Hd.
  destruct (replay_page no_faults id q cursor db res d' Hok Hc Hrows Hq El Hmore) as [Hpage Hafter]. split; [done|]. split.
  { eapply StronglySorted_weaken; [|apply (order_by_sorted by_seq)]; unfold by_seq.
    - intros x y. apply Z.leb_le.
    - intros x y. rewrite !Z.leb_le. lia.
    - intros x y z. rewrite !Z.leb_le. lia. }
  assert (Es : state_of id (rows db1) = state_of id (rows db)) by (by rewrite Hd).
  assert (Hok1 : stream_ok (rows db1)) by (rewrite Hd; by apply with_subscriber_ok).
  assert (Hseen1 : seen id (rows db1)) by (by rewrite Hd).
  assert (Hf : feeding id (length (rc_heap (rows db))) (if bufSize <=? 0 then 256 else Z.to_nat bufSize) (sr_NextSeq res) [] [] (rows db1)).
  { split; [| |by rewrite Es|done]; rewrite Hd.
    - unfold subs_of. cbn. rewrite lookup_insert_eq. cbn. apply elem_of_app. right. by left.
    - eexists. split; [cbn; by apply list_lookup_middle|done]. }
  pose proof (run_feeding no_faults _ _ _ _ ops db1 t db2 [] [] Hok1 He Er Hf Hroom) as [_ (sub & Hsub & _ & _ & _ & Hgot) _ _].
  split; [by exists sub|]. split; [|done]. rewrite <- Es. by eapply run_numbers.
Qed.
End stream.
