(* ===== verification/StreamExamples.v ===== *)
(** * The command stream recorder at work

    A command whose output arrives out of order and twice, a reader that follows it;
    the theorems of StreamGuarantees.v applied to it, and behaviours that the comments
    of the recorder do not suggest. *)
From S2P Require Import Prelude GoStrings GoErrors GoTime GoFloat Protocol GoSort GoSql GoRuntime PackTypes AsyncTypes Auth CommandStream.
From S2P Require Import StreamSafety StreamGuarantees.
Import ExampleHost.
Local Open Scope go_scope.
Local Open Scope Z_scope.

Module StreamRun.
(** Defaults, but for ten events per request. *)
Definition config : StreamRetention := {| MaxEventsPerRequest := 10; MaxEventsTotal := 0; MaxAge := -1 |}.
Definition kept : StreamRetention := normalizeStreamRetention config.
Definition heads : nat → bool := λ _, false.

Definition chunk (n : Z) (data : string) (final : bool) : OutputChunkPayload :=
  {| chunk_RequestID := " r-1 "; chunk_Stream := "stdout"; chunk_Data := data; chunk_Seq := n; chunk_Final := final; chunk_ExitCode := 0 |}.
Definition history : list stream_op :=
  [OMarker "r-1" "queued" "" []; OChunk (chunk 2 "b" false); OChunk (chunk 1 "a" false); OChunk (chunk 2 "again" false); OMarker "r-2" "queued" "" [];
   OChunk (chunk 3 "c" true)].
Definition db0 : DB StreamRecorder := {| rows := NewStreamRecorder []; ticks := 0 |}.
Definition query (last limit : Z) : StreamReplayQuery := {| q_ResumeToken := ""; q_LastSeq := last; q_Since := None; q_Limit := limit |}.
Definition reader : StreamReplayResult * option nat := match (ReplayAndSubscribe "r-1" (query 0 0) 4 db0).1 with inr x => x | inl _ => (no_replay, None) end.
Definition following : list stream_op := history ++ [OReceive 0; OReceive 0].

Lemma empty_stream_ok : stream_ok (rows db0).
Proof.
  split; cbn; try done; [constructor|intros e He; by apply elem_of_nil in He|intros id n Hn; by apply elem_of_nil in Hn|intros id; constructor].
Qed.
Lemma empty_unseen id : unseen id (rows db0).
Proof. split; [done|]. intros e He. by apply elem_of_nil in He. Qed.

Definition shown (l : list StreamEvent) : list (Z * string) := map (λ e, (se_Seq e, se_Data e)) l.

(** The output of [r-1]: the first chunk of each number, in order. *)
Lemma output_recorded_in_order_witness :
  let run := run_ops kept heads history db0 in
  shown (outputs "r-1" run.1) = [(2, "a"); (3, "b"); (4, "c")]%string ∧ map se_Seq (events_of "r-1" run.1) = [1; 2; 3; 4] ∧
  ∀ i e, outputs "r-1" run.1 !! i = Some e → ∃ c, arrived (1 + Z.of_nat i) (arrivals "r-1" history) = Some c ∧ output_of "r-1" c e.
Proof.
  cbn zeta. split; [vm_compute; reflexivity|]. split; [vm_compute; reflexivity|].
  destruct (output_recorded_in_order kept heads "r-1" history db0 (run_ops kept heads history db0).1 (run_ops kept heads history db0).2 host_answers)
    as [Hout _]; [done|exact empty_stream_ok|apply empty_unseen|by repeat constructor|by destruct (run_ops _ _ _ _)|exact Hout].
Defined.

Lemma retention_bounds_witness :
  let opened := reopen kept db0 in let run := run_ops kept heads history opened.2 in
  count_of "r-1" (rc_rows (rows run.2)) = 4 ∧ count_of "r-1" (rc_rows (rows run.2)) <= 10.
Proof.
  cbn zeta. split; [vm_compute; reflexivity|].
  destruct (retention_bounds kept heads config db0 (reopen kept db0).1 (reopen kept db0).2 history
    (run_ops kept heads history (reopen kept db0).2).1 (run_ops kept heads history (reopen kept db0).2).2 "r-1" host_answers) as [Hc _];
    [done|by split; constructor|by destruct (reopen _ _)|by destruct (run_ops _ _ _ _)|exact Hc].
Defined.

Lemma resume_token_roundtrip_witness : DecodeResumeToken (EncodeResumeToken " job:7 " 12) = inr ("job:7"%string, 12).
Proof. apply (resume_token_roundtrip " job:7 " 12); [vm_compute; discriminate|lia]. Defined.

Lemma subscription_without_gaps_witness :
  let sub := ReplayAndSubscribe "r-1" (query 0 0) 4 db0 in let run := run_ops kept heads following sub.2 in
  shown (received kept heads 0 following sub.2) = [(1, ""); (2, "a")]%string ∧
  ∃ s, rc_heap (rows run.2) !! 0%nat = Some s ∧ received kept heads 0 following sub.2 ++ sub_Ch s = events_of "r-1" run.1.
Proof.
  cbn zeta. split; [vm_compute; reflexivity|].
  destruct (subscription_without_gaps kept heads "r-1" (query 0 0) 4 0 db0 reader.1 0 (ReplayAndSubscribe "r-1" (query 0 0) 4 db0).2
    following (run_ops kept heads following (ReplayAndSubscribe "r-1" (query 0 0) 4 db0).2).1
    (run_ops kept heads following (ReplayAndSubscribe "r-1" (query 0 0) 4 db0).2).2 host_answers)
    as (_ & _ & Hs & _);
    [exact empty_stream_ok|intros _; apply empty_unseen|done|done|done|by left|vm_compute; reflexivity|vm_compute; reflexivity|by destruct (run_ops _ _ _ _)
    |vm_compute; reflexivity|vm_compute; lia|exact Hs].
Defined.

(** *** Behaviours that the comments do not suggest *)

Definition three : list stream_op := [OChunk (chunk 1 "a" false); OChunk (chunk 2 "b" false); OChunk (chunk 3 "c" true)].
Definition channel (n : nat) (db : DB StreamRecorder) : list StreamEvent := match rc_heap (rows db) !! n with Some s => sub_Ch s | None => [] end.

(** A page that is cut at its limit leaves a gap: the second and the final chunk are
    neither on the page nor ever sent, and a marker that comes later is. *)
Theorem partial_page_leaves_gap :
  let before := (run_ops kept heads three db0).2 in
  let sub := ReplayAndSubscribe "r-1" (query 0 1) 4 before in
  let after := (run_ops kept heads [OMarker "r-1" "result" "exit 0" []] sub.2).2 in
  match sub.1 with inr (page, Some n) => shown (sr_Events page) = [(1, "a")]%string ∧ sr_HasMore page = true ∧ shown (channel n after) = [(4, "exit 0")]%string | _ => False end.
Proof. vm_compute. done. Qed.

(** An event that finds the channel full is dropped without a trace; the next one
    that fits is sent. *)
Theorem full_channel_drops :
  let sub := (ReplayAndSubscribe "r-1" (query 0 0) 1 db0).2 in
  let after := (run_ops kept heads [OChunk (chunk 1 "a" false); OChunk (chunk 2 "b" false); OReceive 0; OChunk (chunk 3 "c" true)] sub).2 in
  shown (channel 0 after) = [(3, "c")]%string ∧ shown (rc_rows (rows after)) = [(1, "a"); (2, "b"); (3, "c")]%string.
Proof. vm_compute. done. Qed.

(** A reader that comes back with a position while the table has nothing of the
    request hears nothing until the numbering passes that position. *)
Theorem stale_position_starves :
  let sub := ReplayAndSubscribe "r-1" (query 5 0) 4 db0 in
  let after := (run_ops kept heads three sub.2).2 in
  match sub.1 with inr (page, Some n) => sr_NextSeq page = 5 ∧ sr_Truncated page = false ∧ channel n after = [] ∧ length (rc_rows (rows after)) = 3%nat | _ => False end.
Proof. vm_compute. done. Qed.

(** The greatest position wraps: the page reports a truncation from a negative
    number. *)
Theorem greatest_position_truncated :
  match (Replay "r-1" (query (2 ^ 63 - 1) 0) (run_ops kept heads three db0).2).1 with
  | inr page => sr_Truncated page = true ∧ sr_MissedFromSeq page = - 2 ^ 63 ∧ sr_MissedToSeq page = 0
  | inl _ => False
  end.
Proof. vm_compute. done. Qed.

(** A database that fails one statement: the pruning after the first chunk. *)
Definition failing (k : nat) : Host :=
  {| sql_fault := λ n, if Nat.eqb n k then Some (ErrorString "database is locked") else None; clock := @clock host; new_uuid := @new_uuid host;
     order_by := @order_by host |}.

(** When the pruning after an insert fails, the row is stored and nobody is told: the
    chunks that follow wait for ever, and the first chunk, sent again, is stored a
    second time. *)
Theorem failed_prune_stalls :
  let db := (@run_ops (failing 5) kept heads three db0).2 in
  let again := (@run_ops (failing 5) kept heads [OChunk (chunk 1 "a" false)] db).2 in
  (@AppendOutputChunk (failing 5) kept heads (chunk 1 "a" false) db0).1 = inl (ErrorString "database is locked") ∧
  shown (rc_rows (rows db)) = [(1, "a")]%string ∧
  shown (rc_rows (rows again)) = [(1, "a"); (2, "a"); (3, "b"); (4, "c")]%string.
Proof. vm_compute. done. Qed.

(** The workspace of a stream is that of its job: a request without a job, such as a
    synchronous command, is served to every workspace. *)
Definition asking (ws : string) : stream_request :=
  {| tq_Permitted := true; tq_Context := AuthExamples.key_with [PermCommandExec; ("workspace:" +:+ ws)%string]; tq_RequestID := "r-1"; tq_ResumeToken := "";
     tq_Cursor := ""; tq_LastSeq := ""; tq_LastEventID := ""; tq_Since := None; tq_Limit := "" |}.
Theorem stream_without_job_is_open ws :
  stream_forbidden true (Some (λ _, inl (Sentinel SqlErrNoRows))) (asking ws) "r-1" = false ∧
  match (handleCommandReplay true (Some (λ _, inl (Sentinel SqlErrNoRows))) true (asking ws) (run_ops kept heads three db0).2).1 with
  | inr (SReplay _ page) => shown (sr_Events page) = [(1, "a"); (2, "b"); (3, "c")]%string
  | _ => False
  end.
Proof.
  assert (E : stream_forbidden true (Some (λ _, inl (Sentinel SqlErrNoRows))) (asking ws) "r-1" = false) by apply andb_false_r. split; [done|].
  unfold handleCommandReplay. change (TrimSpace (tq_RequestID (asking ws))) with "r-1"%string. rewrite E. vm_compute. done.
Qed.
End StreamRun.
