(* ===== verification/AlertStore.v ===== *)
(** * Alert rules, alert events and notification channels
    (src/internal/controlplane/alerts/types.go, store.go, channels.go)

    The three tables of the alerts database, with the maps the engine keeps in memory
    beside them ([firing], [pending]) and the notifications it has sent ([sent]), in
    one state.  A column that holds a JSON document or an instant is given by its
    value.  [net/url] and [net/mail] are arguments of what uses them. *)
From S2P Require Import Prelude GoStrings GoErrors GoTime GoFloat GoSort GoSql GoRuntime.
Local Open Scope go_scope.
Local Open Scope Z_scope.

(** ** Data *)

Record AlertCondition := { cd_Type : string; cd_Threshold : float64; cd_Duration : string; cd_Tags : list string; cd_Severity : string }.
Record AlertAction := { ac_Type : string; ac_WebhookID : string; ac_ChannelID : string }.
Record AlertRule := {
  ru_ID : string;
  ru_Name : string;
  ru_Description : string;
  ru_Enabled : bool;
  ru_Condition : AlertCondition;
  ru_Actions : list AlertAction;
  ru_CreatedAt : time;
  ru_UpdatedAt : time;
}.
Record AlertEvent := {
  ev_ID : string;
  ev_RuleID : string;
  ev_RuleName : string;
  ev_ProbeID : string;
  ev_Status : string;
  ev_Message : string;
  ev_FiredAt : time;
  ev_ResolvedAt : option time;
}.
Record FiringKey := { fk_RuleID : string; fk_ProbeID : string }.
#[export] Instance FiringKey_eq : EqDecision FiringKey.
Proof. solve_decision. Defined.
#[export] Instance FiringKey_countable : Countable FiringKey.
Proof. by refine (inj_countable' (λ k, (fk_RuleID k, fk_ProbeID k)) (λ p, {| fk_RuleID := p.1; fk_ProbeID := p.2 |}) _); intros []. Defined.

Definition ChannelTypeSlack : string := "slack".
Definition ChannelTypeEmail : string := "email".
Definition ChannelTypePagerDuty : string := "pagerduty".
Definition defaultPagerDutyEventsAPIURL : string := "https://events.pagerduty.com/v2/enqueue".

Record SlackChannelConfig := { sl_WebhookURL : string; sl_Channel : string }.
Record EmailChannelConfig := { em_SMTPHost : string; em_SMTPPort : Z; em_Username : string; em_Password : string; em_From : string; em_To : list string }.
Record PagerDutyChannelConfig := { pd_IntegrationKey : string; pd_EventsAPIURL : string }.
Record NotificationChannel := {
  ch_ID : string;
  ch_Name : string;
  ch_Type : string;
  ch_Enabled : bool;
  ch_Slack : option SlackChannelConfig;
  ch_Email : option EmailChannelConfig;
  ch_PagerDuty : option PagerDutyChannelConfig;
  ch_CreatedAt : time;
  ch_UpdatedAt : time;
}.

(** What the engine sends: an event on the bus, a channel delivery that a goroutine
    makes, the record of an attempt, a call of the webhook notifier. *)
Record notificationMessage := {
  nm_EventType : string; nm_Summary : string; nm_ProbeID : string; nm_RuleID : string; nm_RuleName : string; nm_Detail : option AlertEvent;
}.
Record NotificationAuditRecord := {
  na_Kind : string;
  na_Success : bool;
  na_ChannelID : string;
  na_ChannelName : string;
  na_ChannelType : string;
  na_RuleID : string;
  na_RuleName : string;
  na_ProbeID : string;
  na_EventType : string;
  na_Error : string;
}.
Inductive notification :=
  | NPublish (type probeID summary : string) (detail : AlertEvent) (at_ : time)
  | NSend (ch : NotificationChannel) (msg : notificationMessage)
  | NAudit (r : NotificationAuditRecord)
  | NNotify (type probeID summary : string) (detail : AlertEvent).

Record Alerts := {
  al_rules : list AlertRule;
  al_events : list AlertEvent;
  al_channels : list NotificationChannel;
  firing : gmap FiringKey AlertEvent;
  pending : gmap FiringKey time;
  sent : list notification;
}.
Definition set_rules (l : list AlertRule) (s : Alerts) : Alerts :=
  {| al_rules := l; al_events := al_events s; al_channels := al_channels s; firing := firing s; pending := pending s; sent := sent s |}.
Definition set_events (l : list AlertEvent) (s : Alerts) : Alerts :=
  {| al_rules := al_rules s; al_events := l; al_channels := al_channels s; firing := firing s; pending := pending s; sent := sent s |}.
Definition set_channels (l : list NotificationChannel) (s : Alerts) : Alerts :=
  {| al_rules := al_rules s; al_events := al_events s; al_channels := l; firing := firing s; pending := pending s; sent := sent s |}.
Definition set_firing (m : gmap FiringKey AlertEvent) (s : Alerts) : Alerts :=
  {| al_rules := al_rules s; al_events := al_events s; al_channels := al_channels s; firing := m; pending := pending s; sent := sent s |}.
Definition set_pending (m : gmap FiringKey time) (s : Alerts) : Alerts :=
  {| al_rules := al_rules s; al_events := al_events s; al_channels := al_channels s; firing := firing s; pending := m; sent := sent s |}.
Definition add_sent (n : notification) (s : Alerts) : Alerts :=
  {| al_rules := al_rules s; al_events := al_events s; al_channels := al_channels s; firing := firing s; pending := pending s; sent := sent s ++ [n] |}.

Definition not_found : go_error := Sentinel SqlErrNoRows.
Definition IsNotFound (e : go_error) : bool := errors_Is e SqlErrNoRows.

(** A statement on one row of a table, by its primary key. *)
Section table.
Context {A : Type} (id : A → string).
Definition has_id (i : string) (a : A) : bool := id a =s i.
Definition scan_one (i : string) (l : list A) : result A := match List.find (has_id i) l with Some a => inr a | None => inl not_found end.
Definition insert_one (violation : go_error) (a : A) (l : list A) : result unit * list A :=
  if existsb (has_id (id a)) l then (inl violation, l) else (inr tt, l ++ [a]).
(** The number of rows that changed. *)
Definition update_one (i : string) (f : A → A) (l : list A) : Z * list A :=
  (Z.of_nat (length (List.filter (has_id i) l)), map (λ a, if has_id i a then f a else a) l).
Definition delete_one (i : string) (l : list A) : Z * list A :=
  (Z.of_nat (length (List.filter (has_id i) l)), List.filter (λ a, negb (has_id i a)) l).
(** [ON CONFLICT(id) DO UPDATE] of every other column. *)
Definition upsert_one (a : A) (l : list A) : list A :=
  if existsb (has_id (id a)) l then map (λ b, if has_id (id a) b then a else b) l else l ++ [a].
End table.

Definition unique_violation (table : string) : go_error :=
  ErrorString ("constraint failed: UNIQUE constraint failed: " +:+ table +:+ ".id (1555)")%string.
(** [rows, _ := result.RowsAffected(); if rows == 0 { return sql.ErrNoRows }] *)
Definition need_row {S} (n : Z) : M S unit := if n =? 0 then fail not_found else mret tt.

(** [ORDER BY updated_at DESC], [ORDER BY fired_at DESC] *)
Definition newest {A} (at_ : A → time) (a b : A) : bool := text_le (at_ b) (at_ a).

Section store.
Context `{Host}.
Notation M := (GoSql.M Alerts).

(** A statement on one of the tables. *)
Definition on_rules {A} (f : list AlertRule → A * list AlertRule) (s : Alerts) : result A * Alerts :=
  let '(a, l) := f (al_rules s) in (inr a, set_rules l s).
Definition on_channels {A} (f : list NotificationChannel → A * list NotificationChannel) (s : Alerts) : result A * Alerts :=
  let '(a, l) := f (al_channels s) in (inr a, set_channels l s).

(** ** Rules *)

Definition stamp_rule (id : string) (created updated : time) (r : AlertRule) : AlertRule :=
  {| ru_ID := id; ru_Name := ru_Name r; ru_Description := ru_Description r; ru_Enabled := ru_Enabled r; ru_Condition := ru_Condition r;
     ru_Actions := ru_Actions r; ru_CreatedAt := created; ru_UpdatedAt := updated |}.

Definition CreateRule (rule : AlertRule) : M AlertRule :=
  now ← time_now;
  id ← (if ru_ID rule =s "" then uuid_NewString else mret (ru_ID rule));
  let rule := stamp_rule id (if IsZero (ru_CreatedAt rule) then now else ru_CreatedAt rule) now rule in
  _ ← wrap_error (errorf_w "insert alert rule")
        (exec (λ s, let '(r, l) := insert_one ru_ID (unique_violation "alert_rules") rule (al_rules s) in (r, set_rules l s)));
  mret rule.

Definition GetRule (id : string) : M AlertRule := query (λ s, scan_one ru_ID id (al_rules s)).

(** The columns that [UPDATE alert_rules] sets. *)
Definition overwrite_rule (rule old : AlertRule) : AlertRule := stamp_rule (ru_ID old) (ru_CreatedAt old) (ru_UpdatedAt rule) rule.
Definition UpdateRule (rule : AlertRule) : M AlertRule :=
  if ru_ID rule =s "" then errorf "rule id required"
  else
    now ← time_now;
    let rule := stamp_rule (ru_ID rule) (ru_CreatedAt rule) now rule in
    n ← wrap_error (errorf_w "update alert rule") (exec (on_rules (update_one ru_ID (ru_ID rule) (overwrite_rule rule))));
    _ ← need_row n;
    GetRule (ru_ID rule).

Definition ListRules : M (list AlertRule) := query (λ s, inr (order_by (newest ru_UpdatedAt) (al_rules s))).
Definition DeleteRule (id : string) : M unit :=
  n ← exec (on_rules (delete_one ru_ID id));
  need_row n.

(** ** Events *)

Definition stamp_event (id : string) (fired : time) (resolved : option time) (e : AlertEvent) : AlertEvent :=
  {| ev_ID := id; ev_RuleID := ev_RuleID e; ev_RuleName := ev_RuleName e; ev_ProbeID := ev_ProbeID e; ev_Status := ev_Status e;
     ev_Message := ev_Message e; ev_FiredAt := fired; ev_ResolvedAt := resolved |}.
Definition RecordEvent (event : AlertEvent) : M unit :=
  id ← (if ev_ID event =s "" then uuid_NewString else mret (ev_ID event));
  fired ← (if IsZero (ev_FiredAt event) then time_now else mret (ev_FiredAt event));
  resolved ← (match ev_ResolvedAt event with
              | None => if ev_Status event =s "resolved" then now ← time_now; mret (Some now) else mret None
              | r => mret r
              end);
  exec (λ s, (inr tt, set_events (upsert_one ev_ID (stamp_event id fired resolved event) (al_events s)) s)).

(** The listings answer nothing when the query fails. *)
Definition or_nothing {A} (m : M (list A)) : M (list A) :=
  r ← attempt m;
  mret (match r with inr l => l | inl _ => [] end).
Definition ListEvents (ruleID : string) (limit : Z) : M (list AlertEvent) :=
  let limit := if limit <=? 0 then 100 else limit in
  or_nothing (query (λ s, inr (take (Z.to_nat limit) (order_by (newest ev_FiredAt)
    (List.filter (λ e, (ruleID =s "") || (ev_RuleID e =s ruleID)) (al_events s)))))).
Definition is_firing (e : AlertEvent) : bool := ev_Status e =s "firing".
Definition ActiveAlerts : M (list AlertEvent) := or_nothing (query (λ s, inr (order_by (newest ev_FiredAt) (List.filter is_firing (al_events s))))).

(** ** Channels *)

Section channels.
(** [url.ParseRequestURI], to the scheme and the host, and [mail.ParseAddress]. *)
Context (ParseRequestURI : string → result (string * string)) (ParseAddress : string → bool).

Definition validateWebhookURL (raw : string) : result unit :=
  match ParseRequestURI (TrimSpace raw) with
  | inl e => inl e
  | inr (scheme, host) =>
      if host =s "" then inl (ErrorString "host is required")
      else
        let scheme := ToLower (TrimSpace scheme) in
        if (scheme <>s "http") && (scheme <>s "https") then inl (ErrorString "scheme must be http or https") else inr tt
  end.

Definition with_config (name type : string) (sl : option SlackChannelConfig) (em : option EmailChannelConfig) (pd : option PagerDutyChannelConfig)
    (c : NotificationChannel) : NotificationChannel :=
  {| ch_ID := ch_ID c; ch_Name := name; ch_Type := type; ch_Enabled := ch_Enabled c; ch_Slack := sl; ch_Email := em; ch_PagerDuty := pd;
     ch_CreatedAt := ch_CreatedAt c; ch_UpdatedAt := ch_UpdatedAt c |}.

Definition normalize_slack (c : option SlackChannelConfig) : SlackChannelConfig :=
  let c := default {| sl_WebhookURL := ""; sl_Channel := "" |} c in
  {| sl_WebhookURL := TrimSpace (sl_WebhookURL c); sl_Channel := TrimSpace (sl_Channel c) |}.
Definition normalize_email (c : option EmailChannelConfig) : EmailChannelConfig :=
  let c := default {| em_SMTPHost := ""; em_SMTPPort := 0; em_Username := ""; em_Password := ""; em_From := ""; em_To := [] |} c in
  {| em_SMTPHost := TrimSpace (em_SMTPHost c); em_SMTPPort := em_SMTPPort c; em_Username := TrimSpace (em_Username c); em_Password := em_Password c;
     em_From := TrimSpace (em_From c); em_To := List.filter (λ a, a <>s "") (map TrimSpace (em_To c)) |}.
Definition normalize_pagerduty (c : option PagerDutyChannelConfig) : PagerDutyChannelConfig :=
  let c := default {| pd_IntegrationKey := ""; pd_EventsAPIURL := "" |} c in
  {| pd_IntegrationKey := TrimSpace (pd_IntegrationKey c); pd_EventsAPIURL := TrimSpace (pd_EventsAPIURL c) |}.

Definition email_error (c : EmailChannelConfig) : option go_error :=
  if em_SMTPHost c =s "" then Some (ErrorString "email.smtp_host is required")
  else if (em_SMTPPort c <=? 0) || (65535 <? em_SMTPPort c) then Some (ErrorString "email.smtp_port must be between 1 and 65535")
  else if em_From c =s "" then Some (ErrorString "email.from is required")
  else if negb (ParseAddress (em_From c)) then Some (ErrorString "email.from is invalid")
  else match em_To c with
  | [] => Some (ErrorString "email.to must include at least one recipient")
  | _ =>
      match List.find (λ a, negb (ParseAddress a)) (em_To c) with
      | Some a => Some (ErrorString ("email.to contains invalid recipient: " +:+ a)%string)
      | None => None
      end
  end.

Definition normalizeChannelInput (channel : NotificationChannel) : result NotificationChannel :=
  let name := TrimSpace (ch_Name channel) in
  let type := ToLower (TrimSpace (ch_Type channel)) in
  if name =s "" then inl (ErrorString "name is required")
  else if type =s ChannelTypeSlack then
    let c := normalize_slack (ch_Slack channel) in
    match validateWebhookURL (sl_WebhookURL c) with
    | inl e => inl (errorf_w "invalid slack webhook_url" e)
    | inr _ => inr (with_config name type (Some c) None None channel)
    end
  else if type =s ChannelTypeEmail then
    let c := normalize_email (ch_Email channel) in
    match email_error c with Some e => inl e | None => inr (with_config name type None (Some c) None channel) end
  else if type =s ChannelTypePagerDuty then
    let c := normalize_pagerduty (ch_PagerDuty channel) in
    if pd_IntegrationKey c =s "" then inl (ErrorString "pagerduty.integration_key is required")
    else match (if pd_EventsAPIURL c <>s "" then validateWebhookURL (pd_EventsAPIURL c) else inr tt) with
    | inl e => inl (errorf_w "invalid pagerduty.events_api_url" e)
    | inr _ => inr (with_config name type None None (Some c) channel)
    end
  else inl (ErrorString ("unsupported channel type: " +:+ type)%string).
End channels.

Definition stamp_channel (id : string) (created updated : time) (c : NotificationChannel) : NotificationChannel :=
  {| ch_ID := id; ch_Name := ch_Name c; ch_Type := ch_Type c; ch_Enabled := ch_Enabled c; ch_Slack := ch_Slack c; ch_Email := ch_Email c;
     ch_PagerDuty := ch_PagerDuty c; ch_CreatedAt := created; ch_UpdatedAt := updated |}.
Definition CreateChannel (channel : NotificationChannel) : M NotificationChannel :=
  now ← time_now;
  id ← (if ch_ID channel =s "" then uuid_NewString else mret (ch_ID channel));
  let channel := stamp_channel id (if IsZero (ch_CreatedAt channel) then now else ch_CreatedAt channel) now channel in
  _ ← wrap_error (errorf_w "insert channel")
        (exec (λ s, let '(r, l) := insert_one ch_ID (unique_violation "notification_channels") channel (al_channels s) in (r, set_channels l s)));
  mret channel.
Definition GetChannel (id : string) : M NotificationChannel := query (λ s, scan_one ch_ID id (al_channels s)).
Definition overwrite_channel (c old : NotificationChannel) : NotificationChannel := stamp_channel (ch_ID old) (ch_CreatedAt old) (ch_UpdatedAt c) c.
Definition UpdateChannel (channel : NotificationChannel) : M NotificationChannel :=
  if TrimSpace (ch_ID channel) =s "" then errorf "channel id required"
  else
    now ← time_now;
    let channel := stamp_channel (ch_ID channel) (ch_CreatedAt channel) now channel in
    n ← wrap_error (errorf_w "update channel") (exec (on_channels (update_one ch_ID (ch_ID channel) (overwrite_channel channel))));
    _ ← need_row n;
    GetChannel (ch_ID channel).
Definition ListChannels : M (list NotificationChannel) := query (λ s, inr (order_by (newest ch_UpdatedAt) (al_channels s))).
Definition DeleteChannel (id : string) : M unit :=
  n ← exec (on_channels (delete_one ch_ID id));
  need_row n.
End store.
