(* ===== verification/AlertRouting.v ===== *)
(** * Alert routing and escalation policies
    (src/internal/controlplane/alerts/routing.go, routing_store.go, routing_handlers.go)

    The two tables of the routing database, the resolution of the policy that owns an
    alert, and the endpoints.  The body of a request is what the JSON decoder makes of
    it, [None] when it does not decode. *)
From S2P Require Import Prelude GoStrings GoErrors GoTime GoSort GoSql GoRuntime AlertStore.
Local Open Scope go_scope.
Local Open Scope Z_scope.

Record RoutingMatcher := { ma_Field : string; ma_Op : string; ma_Value : string }.
Record RoutingPolicy := {
  rp_ID : string;
  rp_Name : string;
  rp_Description : string;
  rp_Priority : Z;
  rp_IsDefault : bool;
  rp_Matchers : list RoutingMatcher;
  rp_OwnerLabel : string;
  rp_OwnerContact : string;
  rp_EscalationPolicyID : string;
  rp_RunbookURL : string;
  rp_CreatedAt : time;
  rp_UpdatedAt : time;
}.
Record EscalationStep := {
  es_Order : Z; es_Target : string; es_TargetType : string; es_DelayMin : Z; es_RunbookURL : string; es_Description : string;
}.
Record EscalationPolicy := {
  ep_ID : string; ep_Name : string; ep_Description : string; ep_Steps : list EscalationStep; ep_CreatedAt : time; ep_UpdatedAt : time;
}.
Record RoutingContext := {
  rx_RuleID : string; rx_RuleName : string; rx_ConditionType : string; rx_Severity : string; rx_Tags : list string; rx_ProbeID : string;
}.
Record RoutingExplain := { xp_MatchedBy : string; xp_FallbackUsed : bool; xp_Reason : string }.
Record RoutingOutcome := {
  ro_RuleID : string;
  ro_ProbeID : string;
  ro_PolicyID : string;
  ro_PolicyName : string;
  ro_OwnerLabel : string;
  ro_OwnerContact : string;
  ro_RunbookURL : string;
  ro_EscalationPolicyID : string;
  ro_EscalationSteps : list EscalationStep;
  ro_Explain : RoutingExplain;
}.

Record RoutingStore := { rs_policies : list RoutingPolicy; rs_escalations : list EscalationPolicy }.

(** ** Matching *)

Definition matchOp (op candidate value : string) : bool :=
  let c := ToLower (TrimSpace candidate) in
  let v := ToLower (TrimSpace value) in
  let op := ToLower (TrimSpace op) in
  if (op =s "") || (op =s "eq") then c =s v
  else if op =s "contains" then Contains c v
  else if op =s "prefix" then HasPrefix c v
  else false.
Definition matchTagField (op value : string) (tags : list string) : bool := existsb (λ tag, matchOp op tag value) tags.
Definition matcherMatches (m : RoutingMatcher) (ctx : RoutingContext) : bool :=
  let field := ToLower (TrimSpace (ma_Field m)) in
  if field =s "severity" then matchOp (ma_Op m) (rx_Severity ctx) (ma_Value m)
  else if field =s "condition_type" then matchOp (ma_Op m) (rx_ConditionType ctx) (ma_Value m)
  else if field =s "rule_name" then matchOp (ma_Op m) (rx_RuleName ctx) (ma_Value m)
  else if field =s "tag" then matchTagField (ma_Op m) (ma_Value m) (rx_Tags ctx)
  else false.
Definition policyMatches (policy : RoutingPolicy) (ctx : RoutingContext) : bool := forallb (λ m, matcherMatches m ctx) (rp_Matchers policy).
Definition describeMatcher (p : RoutingPolicy) : string :=
  match rp_Matchers p with
  | [] => "wildcard (no matchers)"
  | ms => StringsJoin (map (λ m, ma_Field m +:+ "=" +:+ ma_Value m)%string ms) ", "
  end.

(** ** Validation *)

Definition validateRoutingMatcher (m : RoutingMatcher) : option go_error :=
  if negb (existsb (String.eqb (ToLower (TrimSpace (ma_Field m)))) ["severity"; "condition_type"; "rule_name"; "tag"]%string)
  then Some (ErrorString ("unsupported matcher field " +:+ Quote (ma_Field m) +:+ "; must be severity, condition_type, rule_name, or tag")%string)
  else if negb (existsb (String.eqb (ToLower (TrimSpace (ma_Op m)))) [""; "eq"; "contains"; "prefix"]%string)
  then Some (ErrorString ("unsupported matcher op " +:+ Quote (ma_Op m) +:+ "; must be eq, contains, or prefix")%string)
  else if TrimSpace (ma_Value m) =s "" then Some (ErrorString "matcher value is required")
  else None.
(** The first error of a list of checks. *)
Fixpoint first_error {A} (f : A → option go_error) (l : list A) : option go_error :=
  match l with [] => None | a :: l => match f a with Some e => Some e | None => first_error f l end end.
Definition validateRoutingPolicy (p : RoutingPolicy) : option go_error :=
  if TrimSpace (rp_Name p) =s "" then Some (ErrorString "name is required")
  else if TrimSpace (rp_OwnerLabel p) =s "" then Some (ErrorString "owner_label is required")
  else first_error validateRoutingMatcher (rp_Matchers p).
Definition step_error (s : EscalationStep) : option go_error :=
  if TrimSpace (es_Target s) =s "" then Some (ErrorString "step target is required")
  else if TrimSpace (es_TargetType s) =s "" then Some (ErrorString "step target_type is required")
  else if es_Order s <=? 0 then Some (ErrorString "step order must be >= 1")
  else None.
Definition validateEscalationPolicy (p : EscalationPolicy) : option go_error :=
  if TrimSpace (ep_Name p) =s "" then Some (ErrorString "name is required") else first_error step_error (ep_Steps p).

Section routing.
Context `{Host} `{Runtime}.
Notation M := (GoSql.M RoutingStore).

Definition on_policies {A} (f : list RoutingPolicy → result A * list RoutingPolicy) (s : RoutingStore) : result A * RoutingStore :=
  let '(a, l) := f (rs_policies s) in (a, {| rs_policies := l; rs_escalations := rs_escalations s |}).
Definition on_escalations {A} (f : list EscalationPolicy → result A * list EscalationPolicy) (s : RoutingStore) : result A * RoutingStore :=
  let '(a, l) := f (rs_escalations s) in (a, {| rs_policies := rs_policies s; rs_escalations := l |}).
Definition always {A B} (f : B → A * B) (b : B) : result A * B := let '(a, b) := f b in (inr a, b).

(** ** The store *)

Definition stamp_policy (id : string) (created updated : time) (p : RoutingPolicy) : RoutingPolicy :=
  {| rp_ID := id; rp_Name := rp_Name p; rp_Description := rp_Description p; rp_Priority := rp_Priority p; rp_IsDefault := rp_IsDefault p;
     rp_Matchers := rp_Matchers p; rp_OwnerLabel := rp_OwnerLabel p; rp_OwnerContact := rp_OwnerContact p;
     rp_EscalationPolicyID := rp_EscalationPolicyID p; rp_RunbookURL := rp_RunbookURL p; rp_CreatedAt := created; rp_UpdatedAt := updated |}.
Definition CreateRoutingPolicy (p : RoutingPolicy) : M RoutingPolicy :=
  now ← time_now;
  id ← (if rp_ID p =s "" then uuid_NewString else mret (rp_ID p));
  let p := stamp_policy id now now p in
  _ ← wrap_error (errorf_w "insert routing policy") (exec (on_policies (insert_one rp_ID (unique_violation "routing_policies") p)));
  mret p.
Definition GetRoutingPolicy (id : string) : M RoutingPolicy := query (λ s, scan_one rp_ID id (rs_policies s)).
Definition UpdateRoutingPolicy (p : RoutingPolicy) : M RoutingPolicy :=
  if rp_ID p =s "" then errorf "routing policy id required"
  else
    existing ← GetRoutingPolicy (rp_ID p);
    now ← time_now;
    let p := stamp_policy (rp_ID p) (rp_CreatedAt existing) now p in
    n ← wrap_error (errorf_w "update routing policy")
          (exec (on_policies (always (update_one rp_ID (rp_ID p) (λ old, stamp_policy (rp_ID old) (rp_CreatedAt old) now p)))));
    _ ← need_row n;
    mret p.
(** [ORDER BY priority DESC, updated_at DESC] *)
Definition policy_order (a b : RoutingPolicy) : bool :=
  if rp_Priority a =? rp_Priority b then newest rp_UpdatedAt a b else rp_Priority b <? rp_Priority a.
Definition ListRoutingPolicies : M (list RoutingPolicy) := query (λ s, inr (order_by policy_order (rs_policies s))).
Definition DeleteRoutingPolicy (id : string) : M unit :=
  n ← exec (on_policies (always (delete_one rp_ID id)));
  need_row n.

Definition stamp_escalation (id : string) (created updated : time) (p : EscalationPolicy) : EscalationPolicy :=
  {| ep_ID := id; ep_Name := ep_Name p; ep_Description := ep_Description p; ep_Steps := ep_Steps p; ep_CreatedAt := created; ep_UpdatedAt := updated |}.
Definition CreateEscalationPolicy (p : EscalationPolicy) : M EscalationPolicy :=
  now ← time_now;
  id ← (if ep_ID p =s "" then uuid_NewString else mret (ep_ID p));
  let p := stamp_escalation id now now p in
  _ ← wrap_error (errorf_w "insert escalation policy") (exec (on_escalations (insert_one ep_ID (unique_violation "escalation_policies") p)));
  mret p.
Definition GetEscalationPolicy (id : string) : M EscalationPolicy := query (λ s, scan_one ep_ID id (rs_escalations s)).
Definition UpdateEscalationPolicy (p : EscalationPolicy) : M EscalationPolicy :=
  if ep_ID p =s "" then errorf "escalation policy id required"
  else
    existing ← GetEscalationPolicy (ep_ID p);
    now ← time_now;
    let p := stamp_escalation (ep_ID p) (ep_CreatedAt existing) now p in
    n ← wrap_error (errorf_w "update escalation policy")
          (exec (on_escalations (always (update_one ep_ID (ep_ID p) (λ old, stamp_escalation (ep_ID old) (ep_CreatedAt old) now p)))));
    _ ← need_row n;
    mret p.
Definition ListEscalationPolicies : M (list EscalationPolicy) := query (λ s, inr (order_by (newest ep_UpdatedAt) (rs_escalations s))).
Definition DeleteEscalationPolicy (id : string) : M unit :=
  n ← exec (on_escalations (always (delete_one ep_ID id)));
  need_row n.

(** ** Resolution *)

Definition buildOutcome (ctx : RoutingContext) (p : RoutingPolicy) (fallback : bool) (matchedBy : string) : M RoutingOutcome :=
  let reason := if fallback then "no specific policy matched; using default fallback policy"%string else ("matched by " +:+ matchedBy)%string in
  steps ← (if rp_EscalationPolicyID p <>s "" then
             ep ← attempt (GetEscalationPolicy (rp_EscalationPolicyID p));
             mret (match ep with inr ep => ep_Steps ep | inl _ => [] end)
           else mret []);
  mret {| ro_RuleID := rx_RuleID ctx; ro_ProbeID := rx_ProbeID ctx; ro_PolicyID := rp_ID p; ro_PolicyName := rp_Name p;
          ro_OwnerLabel := rp_OwnerLabel p; ro_OwnerContact := rp_OwnerContact p; ro_RunbookURL := rp_RunbookURL p;
          ro_EscalationPolicyID := rp_EscalationPolicyID p; ro_EscalationSteps := steps;
          ro_Explain := {| xp_MatchedBy := matchedBy; xp_FallbackUsed := fallback; xp_Reason := reason |} |}.

Definition no_policies (ctx : RoutingContext) : RoutingOutcome :=
  {| ro_RuleID := rx_RuleID ctx; ro_ProbeID := rx_ProbeID ctx; ro_PolicyID := ""; ro_PolicyName := "none"; ro_OwnerLabel := ""; ro_OwnerContact := "";
     ro_RunbookURL := ""; ro_EscalationPolicyID := ""; ro_EscalationSteps := [];
     ro_Explain := {| xp_MatchedBy := ""; xp_FallbackUsed := true; xp_Reason := "no routing policies configured" |} |}.

(** The loop: the first policy that matches, or else the default so far. *)
Fixpoint select (ctx : RoutingContext) (defaultPolicy : option RoutingPolicy) (policies : list RoutingPolicy) : option (RoutingPolicy * bool) :=
  match policies with
  | [] => p ← defaultPolicy; Some (p, true)
  | p :: policies =>
      if rp_IsDefault p then
        select ctx (match defaultPolicy with Some d => if rp_Priority d <? rp_Priority p then Some p else Some d | None => Some p end) policies
      else if policyMatches p ctx then Some (p, false)
      else select ctx defaultPolicy policies
  end.

Definition Resolve (ctx : RoutingContext) : M RoutingOutcome :=
  policies ← ListRoutingPolicies;
  let policies := sort_Slice (λ a b, rp_Priority b <? rp_Priority a) policies in
  match select ctx None policies with
  | Some (p, false) => buildOutcome ctx p false (describeMatcher p)
  | Some (p, true) => buildOutcome ctx p true "default policy"
  | None => mret (no_policies ctx)
  end.

(** ** The endpoints *)

Inductive routing_reply :=
  | RError (status : Z) (code message : string)
  | RPolicies (l : list RoutingPolicy)
  | RPolicy (status : Z) (p : RoutingPolicy)
  | REscalations (l : list EscalationPolicy)
  | REscalation (status : Z) (p : EscalationPolicy)
  | ROutcome (o : RoutingOutcome)
  | RNoContent.
Definition internal (e : go_error) : routing_reply := RError 500 "internal_error" (Error e).
Definition bad_body : routing_reply := RError 400 "invalid_request" "invalid JSON body".
Definition missing_id : routing_reply := RError 400 "invalid_request" "missing policy id".
Definition missing_or (what : string) (e : go_error) : routing_reply :=
  if IsNotFound e then RError 404 "not_found" (what +:+ " not found")%string else internal e.
(** A call, and the replies to its error and its value. *)
Definition reply {A} (m : M A) (bad : go_error → routing_reply) (good : A → routing_reply) : M routing_reply :=
  r ← attempt m;
  mret (match r with inl e => bad e | inr a => good a end).

Definition HandleListRoutingPolicies : M routing_reply := reply ListRoutingPolicies internal RPolicies.
Definition HandleCreateRoutingPolicy (body : option RoutingPolicy) : M routing_reply :=
  match body with
  | None => mret bad_body
  | Some req =>
      let req := stamp_policy "" (rp_CreatedAt req) (rp_UpdatedAt req) req in
      match validateRoutingPolicy req with
      | Some e => mret (RError 400 "invalid_routing_policy" (Error e))
      | None => reply (CreateRoutingPolicy req) internal (RPolicy 201)
      end
  end.
Definition HandleGetRoutingPolicy (id : string) : M routing_reply :=
  if TrimSpace id =s "" then mret missing_id else reply (GetRoutingPolicy (TrimSpace id)) (missing_or "routing policy") (RPolicy 200).
Definition HandleUpdateRoutingPolicy (id : string) (body : option RoutingPolicy) : M routing_reply :=
  let id := TrimSpace id in
  if id =s "" then mret missing_id
  else
    existing ← attempt (GetRoutingPolicy id);
    match existing, body with
    | inl e, _ => mret (missing_or "routing policy" e)
    | inr _, None => mret bad_body
    | inr _, Some req =>
        let req := stamp_policy id (rp_CreatedAt req) (rp_UpdatedAt req) req in
        match validateRoutingPolicy req with
        | Some e => mret (RError 400 "invalid_routing_policy" (Error e))
        | None => reply (UpdateRoutingPolicy req) (missing_or "routing policy") (RPolicy 200)
        end
    end.
Definition HandleDeleteRoutingPolicy (id : string) : M routing_reply :=
  if TrimSpace id =s "" then mret missing_id else reply (DeleteRoutingPolicy (TrimSpace id)) (missing_or "routing policy") (λ _, RNoContent).
Definition HandleResolveRouting (body : option RoutingContext) : M routing_reply :=
  match body with None => mret bad_body | Some ctx => reply (Resolve ctx) internal ROutcome end.

Definition HandleListEscalationPolicies : M routing_reply := reply ListEscalationPolicies internal REscalations.
Definition HandleCreateEscalationPolicy (body : option EscalationPolicy) : M routing_reply :=
  match body with
  | None => mret bad_body
  | Some req =>
      let req := stamp_escalation "" (ep_CreatedAt req) (ep_UpdatedAt req) req in
      match validateEscalationPolicy req with
      | Some e => mret (RError 400 "invalid_escalation_policy" (Error e))
      | None => reply (CreateEscalationPolicy req) internal (REscalation 201)
      end
  end.
Definition HandleGetEscalationPolicy (id : string) : M routing_reply :=
  if TrimSpace id =s "" then mret missing_id else reply (GetEscalationPolicy (TrimSpace id)) (missing_or "escalation policy") (REscalation 200).
Definition HandleUpdateEscalationPolicy (id : string) (body : option EscalationPolicy) : M routing_reply :=
  let id := TrimSpace id in
  if id =s "" then mret missing_id
  else
    existing ← attempt (GetEscalationPolicy id);
    match existing, body with
    | inl e, _ => mret (missing_or "escalation policy" e)
    | inr _, None => mret bad_body
    | inr _, Some req =>
        let req := stamp_escalation id (ep_CreatedAt req) (ep_UpdatedAt req) req in
        match validateEscalationPolicy req with
        | Some e => mret (RError 400 "invalid_escalation_policy" (Error e))
        | None => reply (UpdateEscalationPolicy req) (missing_or "escalation policy") (REscalation 200)
        end
    end.
Definition HandleDeleteEscalationPolicy (id : string) : M routing_reply :=
  if TrimSpace id =s "" then mret missing_id else reply (DeleteEscalationPolicy (TrimSpace id)) (missing_or "escalation policy") (λ _, RNoContent).
End routing.
