(* ===== verification/AlertEngine.v ===== *)
(** * The alert engine
    (src/internal/controlplane/alerts/engine.go, handlers.go, channel_handlers.go)

    One pass of the evaluation is [Evaluate]: the rules are read, every enabled rule is
    tested on every probe, alerts that start and end are recorded and delivered.  The
    pass holds the mutex; the probes are those the fleet lists at that moment.  The
    engine has a store and a fleet, as the server builds it.  [time.ParseDuration] is
    an argument.  Deliveries to channels run in goroutines: [NSend] starts one, and
    [send_outcome] is what it does, given the answers of the other side. *)
From Stdlib Require Import SpecFloat.
From S2P Require Import Prelude GoStrings GoErrors GoTime GoFloat GoSort GoSql GoRuntime Protocol FleetManager AlertStore.
Local Open Scope go_scope.
Local Open Scope Z_scope.

(** ** Text *)

Definition upper_char (c : ascii) : ascii :=
  let n := nat_of_ascii c in if Nat.leb 97 n && Nat.leb n 122 then ascii_of_nat (n - 32) else c.
Fixpoint ToUpper (s : string) : string := match s with EmptyString => EmptyString | String c s => String (upper_char c) (ToUpper s) end.

(** [%.1f]: the exact value, rounded to even. *)
Definition round_half_even (n d : Z) : Z :=
  let q := n / d in
  let r := n mod d in
  if 2 * r <? d then q else if d <? 2 * r then q + 1 else if Z.even q then q else q + 1.
Definition tenths (n : Z) : string := (Itoa (n / 10) +:+ "." +:+ Itoa (n mod 10))%string.
Definition format_1f (x : float64) : string :=
  match x with
  | S754_nan => "NaN"
  | S754_infinity s => if s then "-Inf" else "+Inf"
  | S754_zero s => if s then "-0.0" else "0.0"
  | S754_finite s m e =>
      let n := if 0 <=? e then 10 * Zpos m * 2 ^ e else round_half_even (10 * Zpos m) (2 ^ (- e)) in
      ((if s then "-" else "") +:+ tenths n)%string
  end.

(** [Duration.Round(time.Second)], and [Duration.String] of a duration that is zero
    or at least a second. *)
Definition round_second (d : duration) : duration :=
  let q := Z.quot d Second in
  let r := Z.abs (Z.rem d Second) in
  let q := if 2 * r <? Second then q else q + Z.sgn d in
  Z.max (- 2 ^ 63) (Z.min (2 ^ 63 - 1) (q * Second)).
Definition duration_text (d : duration) : string :=
  let a := Z.abs d in
  let secs := a / Second in
  let frac := if a mod Second =? 0 then "" else ("." +:+ trim_zeros (digits 9 (a mod Second)))%string in
  let s := (Itoa (secs mod 60) +:+ frac +:+ "s")%string in
  let text :=
    if secs <? 60 then s
    else if secs <? 3600 then (Itoa (secs / 60) +:+ "m" +:+ s)%string
    else (Itoa (secs / 3600) +:+ "h" +:+ Itoa (secs / 60 mod 60) +:+ "m" +:+ s)%string in
  ((if (d <? 0)%Z then "-" else "") +:+ text)%string.

(** ** Conditions *)

Definition AlertFired : string := "alert.fired".
Definition AlertResolved : string := "alert.resolved".

Definition matchTags (probeTags ruleTags : list string) : bool :=
  let set := map (λ t, ToLower (TrimSpace t)) probeTags in
  forallb (λ t, let needle := ToLower (TrimSpace t) in (needle =s "") || existsb (String.eqb needle) set) ruleTags.

Section engine.
Context `{Host} `{Runtime} (ParseDuration : string → result duration).
(** The webhooks of the notifier, if there is one; whether there is a bus, and an
    audit recorder. *)
Context (webhooks : option (list string)) (bus auditing : bool).
Notation M := (GoSql.M Alerts).

Definition parseRuleDuration (raw : string) : result duration :=
  let value := TrimSpace raw in if value =s "" then inr 0 else ParseDuration value.

Definition percent (x : float64) : float64 := fmul x (float64_of_int 100).
Definition exceeds (probeID what : string) (usage threshold : float64) : option string :=
  if SFleb usage threshold then None
  else Some ("Probe " +:+ probeID +:+ " " +:+ what +:+ " usage " +:+ format_1f usage +:+ "% exceeds " +:+ format_1f threshold +:+ "%")%string.

(** The message, when the condition is met. *)
Definition conditionMet (rule : AlertRule) (probe : ProbeState) (now : time) : option string :=
  let c := ru_Condition rule in
  if cd_Type c =s "probe_offline" then
    if pb_Status probe <>s "offline" then None
    else match parseRuleDuration (cd_Duration c) with
    | inl _ => None
    | inr dur =>
        let offlineFor := time_Sub now (pb_LastSeen probe) in
        if (0 <? dur) && (offlineFor <? dur) then None
        else Some ("Probe " +:+ pb_ID probe +:+ " has been offline for " +:+ duration_text (round_second offlineFor))%string
    end
  else if cd_Type c =s "disk_threshold" then
    match pb_lastHB probe with
    | Some hb =>
        if hb_DiskTotal hb =? 0 then None
        else exceeds (pb_ID probe) "disk" (percent (fdiv (float64_of_int (hb_DiskUsed hb)) (float64_of_int (hb_DiskTotal hb)))) (cd_Threshold c)
    | None => None
    end
  else if cd_Type c =s "cpu_threshold" then
    match pb_lastHB probe with
    | Some hb =>
        let cpus := match pb_Inventory probe with
                    | Some inv => if 0 <? inv_CPUs inv then float64_of_int (inv_CPUs inv) else f_one
                    | None => f_one end in
        exceeds (pb_ID probe) "CPU" (percent (fdiv (hb_Load hb).1.1 cpus)) (cd_Threshold c)
    | None => None
    end
  else None.

(** ** Delivery *)

Definition send (n : notification) : M unit := puts (add_sent n).
Definition recordNotificationAudit (r : NotificationAuditRecord) : M unit := if auditing then send (NAudit r) else mret tt.
Definition delivery_record (rule : AlertRule) (evt : AlertEvent) (evtType : string) (ok : bool) (id name type err : string) : NotificationAuditRecord :=
  {| na_Kind := "delivery"; na_Success := ok; na_ChannelID := id; na_ChannelName := name; na_ChannelType := type; na_RuleID := ru_ID rule;
     na_RuleName := ru_Name rule; na_ProbeID := ev_ProbeID evt; na_EventType := evtType; na_Error := err |}.
Definition summary_of (evt : AlertEvent) : string := ("[" +:+ ToUpper (ev_Status evt) +:+ "] " +:+ ev_Message evt)%string.

(** The ids of the channels that the actions of a rule name. *)
Definition wanted (rule : AlertRule) : gset string :=
  list_to_set (List.filter (λ id, id <>s "") (map (λ a, TrimSpace (ac_ChannelID a)) (List.filter (λ a, ac_Type a =s "channel") (ru_Actions rule)))).
Definition range_set (s : gset string) : M (list string) := λ db, (inr (map_range (ticks db) (elements s)), tick db).
Definition by_id (l : list NotificationChannel) : gmap string NotificationChannel := foldl (λ m c, <[ch_ID c := c]> m) ∅ l.

Definition deliver_to (rule : AlertRule) (evt : AlertEvent) (evtType : string) (channels : gmap string NotificationChannel) (id : string) : M unit :=
  match channels !! id with
  | None => recordNotificationAudit (delivery_record rule evt evtType false id "" "" "channel not found")
  | Some ch =>
      if negb (ch_Enabled ch)
      then recordNotificationAudit (delivery_record rule evt evtType false (ch_ID ch) (ch_Name ch) (ch_Type ch) "channel disabled")
      else send (NSend ch {| nm_EventType := evtType; nm_Summary := summary_of evt; nm_ProbeID := ev_ProbeID evt; nm_RuleID := ru_ID rule;
                             nm_RuleName := ru_Name rule; nm_Detail := Some evt |})
  end.
Definition deliverNotificationChannels (rule : AlertRule) (evt : AlertEvent) (evtType : string) : M unit :=
  if bool_decide (wanted rule = ∅) then mret tt
  else
    channels ← attempt ListChannels;
    ids ← range_set (wanted rule);
    match channels with
    | inl e => for_each (λ id, recordNotificationAudit (delivery_record rule evt evtType false id "" "" (Error e))) ids
    | inr l => for_each (deliver_to rule evt evtType (by_id l)) ids
    end.

Definition deliver (rule : AlertRule) (evt : AlertEvent) (evtType : string) : M unit :=
  let summary := summary_of evt in
  _ ← (if bus then now ← time_now; send (NPublish evtType (ev_ProbeID evt) summary evt now) else mret tt);
  _ ← deliverNotificationChannels rule evt evtType;
  match webhooks with
  | None => mret tt
  | Some available =>
      match ru_Actions rule with
      | [] => send (NNotify evtType (ev_ProbeID evt) summary evt)
      | actions =>
          if existsb (λ a, (ac_Type a =s "webhook") && existsb (String.eqb (ac_WebhookID a)) available) actions
          then send (NNotify evtType (ev_ProbeID evt) summary evt) else mret tt
      end
  end.

(** ** The evaluation *)

Definition key_of (rule : AlertRule) (probe : ProbeState) : FiringKey := {| fk_RuleID := ru_ID rule; fk_ProbeID := pb_ID probe |}.
Definition set_wait (k : FiringKey) (t : option time) : M unit :=
  puts (λ s, set_pending (match t with Some t => <[k := t]> (pending s) | None => delete k (pending s) end) s).
Definition set_fire (k : FiringKey) (e : option AlertEvent) : M unit :=
  puts (λ s, set_firing (match e with Some e => <[k := e]> (firing s) | None => delete k (firing s) end) s).

(** The condition is met: whether it has been met for long enough. *)
Definition persisted (rule : AlertRule) (dur : duration) (now : time) (k : FiringKey) : M bool :=
  if (cd_Type (ru_Condition rule) <>s "probe_offline") && (0 <? dur) then
    since ← gets (λ s, pending s !! k);
    match since with
    | None => _ ← set_wait k (Some now); mret false
    | Some since => mret (negb (time_Sub now since <? dur))
    end
  else mret true.

Definition start_alert (rule : AlertRule) (probe : ProbeState) (message : string) (now : time) : M unit :=
  already ← gets (λ s, firing s !! key_of rule probe);
  match already with
  | Some _ => mret tt
  | None =>
      id ← uuid_NewString;
      let evt := {| ev_ID := id; ev_RuleID := ru_ID rule; ev_RuleName := ru_Name rule; ev_ProbeID := pb_ID probe; ev_Status := "firing";
                    ev_Message := message; ev_FiredAt := now; ev_ResolvedAt := None |} in
      recorded ← attempt (RecordEvent evt);
      match recorded with
      | inl _ => mret tt
      | inr _ =>
          _ ← set_fire (key_of rule probe) (Some evt);
          deliver rule evt AlertFired
      end
  end.

(** One rule on one probe; the answer is the key, when it is matched. *)
Definition test_probe (rule : AlertRule) (dur : duration) (now : time) (probe : ProbeState) : M (option FiringKey) :=
  let k := key_of rule probe in
  if negb (matchTags (pb_Tags probe) (cd_Tags (ru_Condition rule))) then mret None
  else match conditionMet rule probe now with
  | None => _ ← set_wait k None; mret None
  | Some message =>
      long ← persisted rule dur now k;
      if negb long then mret None
      else
        _ ← set_wait k None;
        _ ← start_alert rule probe message now;
        mret (Some k)
  end.

Fixpoint test_probes (rule : AlertRule) (dur : duration) (now : time) (probes : list ProbeState) : M (list FiringKey) :=
  match probes with
  | [] => mret []
  | p :: probes =>
      k ← test_probe rule dur now p;
      ks ← test_probes rule dur now probes;
      mret (option_list k ++ ks)
  end.
Fixpoint test_rules (rules : list AlertRule) (now : time) (probes : list ProbeState) : M (list FiringKey) :=
  match rules with
  | [] => mret []
  | r :: rules =>
      here ← (if negb (ru_Enabled r) then mret []
              else match parseRuleDuration (cd_Duration (ru_Condition r)) with
              | inl _ => mret []
              | inr dur => test_probes r dur now probes
              end);
      rest ← test_rules rules now probes;
      mret (here ++ rest)
  end.

Definition resolved_event (k : FiringKey) (now : time) (e : AlertEvent) : AlertEvent :=
  {| ev_ID := ev_ID e; ev_RuleID := ev_RuleID e; ev_RuleName := ev_RuleName e; ev_ProbeID := ev_ProbeID e; ev_Status := "resolved";
     ev_Message := ("Alert resolved for probe " +:+ fk_ProbeID k)%string; ev_FiredAt := ev_FiredAt e; ev_ResolvedAt := Some now |}.
(** A rule with an id and a name, and nothing else. *)
Definition bare_condition : AlertCondition := {| cd_Type := ""; cd_Threshold := f_zero; cd_Duration := ""; cd_Tags := []; cd_Severity := "" |}.
Definition bare_rule (id name : string) : AlertRule :=
  {| ru_ID := id; ru_Name := name; ru_Description := ""; ru_Enabled := false; ru_Condition := bare_condition; ru_Actions := [];
     ru_CreatedAt := zero_time; ru_UpdatedAt := zero_time |}.

Definition enabled_rule (id : string) (r : AlertRule) : bool := ru_Enabled r && (ru_ID r =s id).
Definition end_alert (rules : list AlertRule) (now : time) (ke : FiringKey * AlertEvent) : M unit :=
  let '(k, e) := ke in
  let resolved := resolved_event k now e in
  recorded ← attempt (RecordEvent resolved);
  match recorded with
  | inl _ => mret tt
  | inr _ =>
      let rule := default (bare_rule (ev_RuleID resolved) (ev_RuleName resolved)) (List.find (enabled_rule (fk_RuleID k)) rules) in
      _ ← deliver rule resolved AlertResolved;
      _ ← set_fire k None;
      set_wait k None
  end.

Definition range_firing : M (list (FiringKey * AlertEvent)) := λ db, (inr (map_range (ticks db) (map_to_list (firing (rows db)))), tick db).
Definition forget_waits (rules : list AlertRule) : M unit :=
  puts (λ s, set_pending (filter (λ kt, existsb (enabled_rule (fk_RuleID kt.1)) rules = true) (pending s)) s).

Definition Evaluate (probes : list ProbeState) : M unit :=
  rules ← ListRules;
  now ← time_now;
  matched ← test_rules rules now probes;
  alerts ← range_firing;
  _ ← for_each (end_alert rules now) (List.filter (λ ke, negb (bool_decide (ke.1 ∈ matched))) alerts);
  forget_waits rules.

(** [NewEngine] on the tables of the store. *)
Definition NewEngine : M unit :=
  active ← ActiveAlerts;
  puts (λ s, {| al_rules := al_rules s; al_events := al_events s; al_channels := al_channels s;
                firing := foldl (λ m e, <[{| fk_RuleID := ev_RuleID e; fk_ProbeID := ev_ProbeID e |} := e]> m) ∅ active; pending := ∅; sent := sent s |}).

Definition firing_order (a b : AlertEvent) : bool :=
  if ev_RuleID a =s ev_RuleID b then String.ltb (ev_ProbeID a) (ev_ProbeID b) else String.ltb (ev_RuleID a) (ev_RuleID b).
Definition SnapshotFiring : M (list AlertEvent) :=
  l ← range_firing;
  mret (sort_Slice firing_order (map snd l)).
End engine.
