(* ===== verification/AlertHandlers.v ===== *)
(** * The endpoints of alerts and notification channels
    (src/internal/controlplane/alerts/handlers.go, channel_handlers.go)

    The body of a request is what the JSON decoder makes of it, [None] when it does not
    decode.  The other side of a delivery is a [Network]: it answers HTTP requests and
    the commands of an SMTP session. *)
From S2P Require Import Prelude GoStrings GoErrors GoTime GoFloat GoSort GoSql GoRuntime Protocol FleetManager AlertStore AlertEngine.
From Stdlib Require Import SpecFloat.
Local Open Scope go_scope.
Local Open Scope Z_scope.

(** ** Sending *)

(** The JSON objects that are posted. *)
Inductive http_body :=
  | SlackBody (text : string) (channel : option string)
  | PagerDutyBody (routing_key event_action summary source severity : string) (event_type rule_id rule_name probe_id : string) (detail : option AlertEvent).

Inductive smtp_call :=
  | SDial (addr : string)
  | SNewClient (host : string)
  | SStartTLS (server : string)
  | SAuth (username password host : string)
  | SMail (from : string)
  | SRcpt (to : string)
  | SData
  | SWrite (raw : string)
  | SCloseBody
  | SQuit.

(** [http.NewRequest], [Client.Do] to the status code, the SMTP commands, and whether
    the server offers STARTTLS. *)
Class Network := {
  NewRequest : string → result unit;
  Do : string → http_body → result Z;
  smtp : smtp_call → option go_error;
  offers_tls : string → bool;
}.

Definition coalesce (value fallback : string) : string := if TrimSpace value =s "" then fallback else value.

Section send.
Context `{Network}.

(** A POST, with the names its errors get. *)
Definition post (build sending answered url : string) (body : http_body) : option go_error :=
  match NewRequest url with
  | inl e => Some (errorf_w build e)
  | inr _ =>
      match Do url body with
      | inl e => Some (errorf_w sending e)
      | inr code => if (code <? 200) || (300 <=? code) then Some (ErrorString (answered +:+ Itoa code)%string) else None
      end
  end.

Definition sendSlack (channel : NotificationChannel) (msg : notificationMessage) : option go_error :=
  match ch_Slack channel with
  | None => Some (ErrorString "slack config missing")
  | Some c =>
      post "build slack request" "send slack webhook" "slack webhook returned status " (sl_WebhookURL c)
        (SlackBody (nm_Summary msg) (if TrimSpace (sl_Channel c) <>s "" then Some (sl_Channel c) else None))
  end.

Definition sendPagerDuty (channel : NotificationChannel) (msg : notificationMessage) : option go_error :=
  match ch_PagerDuty channel with
  | None => Some (ErrorString "pagerduty config missing")
  | Some c =>
      let endpoint := if TrimSpace (pd_EventsAPIURL c) <>s "" then pd_EventsAPIURL c else defaultPagerDutyEventsAPIURL in
      post "build pagerduty request" "send pagerduty event" "pagerduty API returned status " endpoint
        (PagerDutyBody (pd_IntegrationKey c) "trigger" (nm_Summary msg) (coalesce (nm_ProbeID msg) "legator") "critical"
           (nm_EventType msg) (nm_RuleID msg) (nm_RuleName msg) (nm_ProbeID msg) (nm_Detail msg))
  end.

Definition crlf : string := String "013"%char (String "010"%char "").
Definition lf : string := String "010"%char "".
Definition mail_body (msg : notificationMessage) : string :=
  ("Event: " +:+ nm_EventType msg +:+ lf +:+ "Rule: " +:+ nm_RuleName msg +:+ " (" +:+ nm_RuleID msg +:+ ")" +:+ lf +:+ "Probe: " +:+ nm_ProbeID msg +:+
   lf +:+ lf +:+ nm_Summary msg +:+ lf)%string.
Definition mail_text (c : EmailChannelConfig) (msg : notificationMessage) : string :=
  let subject := if nm_EventType msg =s "notification.test" then "[Legator] Test notification" else "[Legator] Alert notification" in
  ("From: " +:+ em_From c +:+ crlf +:+ "To: " +:+ StringsJoin (em_To c) ", " +:+ crlf +:+ "Subject: " +:+ subject +:+ crlf +:+ "MIME-Version: 1.0" +:+ crlf +:+
   "Content-Type: text/plain; charset=UTF-8" +:+ crlf +:+ crlf +:+ mail_body msg)%string.

(** The commands of the session, each with the name its error gets. *)
Definition session (c : EmailChannelConfig) (msg : notificationMessage) : list (smtp_call * string) :=
  [(SDial (em_SMTPHost c +:+ ":" +:+ Itoa (em_SMTPPort c))%string, "dial smtp"%string); (SNewClient (em_SMTPHost c), "smtp client"%string)] ++
  (if offers_tls (em_SMTPHost c) then [(SStartTLS (em_SMTPHost c), "smtp starttls"%string)] else []) ++
  (if TrimSpace (em_Username c) <>s "" then [(SAuth (em_Username c) (em_Password c) (em_SMTPHost c), "smtp auth"%string)] else []) ++
  [(SMail (em_From c), "smtp from"%string)] ++
  map (λ to, (SRcpt to, ("smtp recipient " +:+ to)%string)) (em_To c) ++
  [(SData, "smtp data"%string); (SWrite (mail_text c msg), "smtp write"%string); (SCloseBody, "smtp close body"%string); (SQuit, "smtp quit"%string)].
Fixpoint converse (l : list (smtp_call * string)) : option go_error :=
  match l with
  | [] => None
  | (call, name) :: l => match smtp call with Some e => Some (errorf_w name e) | None => converse l end
  end.
Definition sendEmail (channel : NotificationChannel) (msg : notificationMessage) : option go_error :=
  match ch_Email channel with None => Some (ErrorString "email config missing") | Some c => converse (session c msg) end.

Definition sendToChannel (channel : NotificationChannel) (msg : notificationMessage) : option go_error :=
  if ch_Type channel =s ChannelTypeSlack then sendSlack channel msg
  else if ch_Type channel =s ChannelTypeEmail then sendEmail channel msg
  else if ch_Type channel =s ChannelTypePagerDuty then sendPagerDuty channel msg
  else Some (ErrorString ("unsupported channel type: " +:+ ch_Type channel)%string).

Definition error_text (e : option go_error) : string := match e with Some e => Error e | None => "" end.
(** The record that the goroutine of a delivery leaves. *)
Definition send_outcome (channel : NotificationChannel) (msg : notificationMessage) : NotificationAuditRecord :=
  let err := sendToChannel channel msg in
  {| na_Kind := "delivery"; na_Success := match err with None => true | Some _ => false end; na_ChannelID := ch_ID channel; na_ChannelName := ch_Name channel;
     na_ChannelType := ch_Type channel; na_RuleID := nm_RuleID msg; na_RuleName := nm_RuleName msg; na_ProbeID := nm_ProbeID msg;
     na_EventType := nm_EventType msg; na_Error := error_text err |}.
End send.

(** ** Rules *)

Record rule_request := { rq_Name : string; rq_Description : string; rq_Enabled : bool; rq_Condition : AlertCondition; rq_Actions : list AlertAction }.

Inductive alert_reply :=
  | AError (status : Z) (code message : string)
  | ARules (l : list AlertRule)
  | ARule (status : Z) (r : AlertRule)
  | AHistory (ruleID : string) (l : list AlertEvent)
  | AActive (l : list AlertEvent)
  | AChannels (l : list NotificationChannel)
  | AChannel (status : Z) (c : NotificationChannel)
  | ATested (channelID : string)
  | ANoContent.
Definition failed (e : go_error) : alert_reply := AError 500 "internal_error" (Error e).
Definition missing_or (what : string) (e : go_error) : alert_reply :=
  if IsNotFound e then AError 404 "not_found" (what +:+ " not found")%string else failed e.
Definition bad_json : alert_reply := AError 400 "invalid_request" "invalid JSON body".

Section handlers.
Context `{Host} `{Runtime} `{Network} (ParseDuration : string → result duration).
Context (ParseRequestURI : string → result (string * string)) (ParseAddress : string → bool).
Context (webhooks : option (list string)) (auditing : bool).
Notation M := (GoSql.M Alerts).

Definition answer {A} (m : M A) (bad : go_error → alert_reply) (good : A → alert_reply) : M alert_reply :=
  r ← attempt m;
  mret (match r with inl e => bad e | inr a => good a end).

Definition action_error (hooks channels : list string) (a : AlertAction) : option go_error :=
  let unknown l id := match l with [] => false | _ => negb (existsb (String.eqb id) l) end in
  if ac_Type a =s "webhook" then
    if TrimSpace (ac_WebhookID a) =s "" then Some (ErrorString "webhook_id is required")
    else if unknown hooks (ac_WebhookID a) then Some (ErrorString ("unknown webhook id: " +:+ ac_WebhookID a)%string) else None
  else if ac_Type a =s "channel" then
    if TrimSpace (ac_ChannelID a) =s "" then Some (ErrorString "channel_id is required")
    else if unknown channels (ac_ChannelID a) then Some (ErrorString ("unknown channel id: " +:+ ac_ChannelID a)%string) else None
  else Some (ErrorString ("unsupported action type: " +:+ ac_Type a)%string).
Fixpoint first_bad_action (hooks channels : list string) (l : list AlertAction) : option go_error :=
  match l with [] => None | a :: l => match action_error hooks channels a with Some e => Some e | None => first_bad_action hooks channels l end end.

Definition is_threshold (c : AlertCondition) : bool := (cd_Type c =s "disk_threshold") || (cd_Type c =s "cpu_threshold").
(** An error is a value here: the handler answers 400 with it. *)
Definition validateRule (rule : AlertRule) : M (option go_error) :=
  let c := ru_Condition rule in
  if TrimSpace (ru_Name rule) =s "" then mret (Some (ErrorString "name is required"))
  else if negb ((cd_Type c =s "probe_offline") || is_threshold c) then mret (Some (ErrorString ("unsupported condition type: " +:+ cd_Type c)%string))
  else match parseRuleDuration ParseDuration (cd_Duration c) with
  | inl e => mret (Some (errorf_w "invalid duration" e))
  | inr _ =>
      if is_threshold c && (SFleb (cd_Threshold c) f_zero || SFltb (float64_of_int 1000) (cd_Threshold c))
      then mret (Some (ErrorString "threshold must be > 0"))
      else match ru_Actions rule with
      | [] => mret None
      | actions =>
          channels ← attempt ListChannels;
          mret (match channels with
                | inl e => Some (errorf_w "list channels" e)
                | inr l => first_bad_action (default [] webhooks) (map ch_ID l) actions
                end)
      end
  end.

Definition rule_of (id : string) (created updated : time) (q : rule_request) : AlertRule :=
  {| ru_ID := id; ru_Name := TrimSpace (rq_Name q); ru_Description := TrimSpace (rq_Description q); ru_Enabled := rq_Enabled q;
     ru_Condition := rq_Condition q; ru_Actions := rq_Actions q; ru_CreatedAt := created; ru_UpdatedAt := updated |}.

Definition HandleListRules : M alert_reply := answer ListRules failed ARules.
Definition HandleCreateRule (body : option rule_request) : M alert_reply :=
  match body with
  | None => mret bad_json
  | Some req =>
      id ← uuid_NewString;
      let rule := rule_of id zero_time zero_time req in
      invalid ← validateRule rule;
      match invalid with
      | Some e => mret (AError 400 "invalid_rule" (Error e))
      | None => answer (CreateRule rule) failed (ARule 201)
      end
  end.
Definition no_rule_id : alert_reply := AError 400 "invalid_request" "missing rule id".
Definition HandleGetRule (id : string) : M alert_reply :=
  if TrimSpace id =s "" then mret no_rule_id else answer (GetRule (TrimSpace id)) (missing_or "rule") (ARule 200).
Definition HandleUpdateRule (id : string) (body : option rule_request) : M alert_reply :=
  let id := TrimSpace id in
  if id =s "" then mret no_rule_id
  else
    existing ← attempt (GetRule id);
    match existing, body with
    | inl e, _ => mret (missing_or "rule" e)
    | inr _, None => mret bad_json
    | inr existing, Some req =>
        now ← time_now;
        let rule := rule_of id (ru_CreatedAt existing) now req in
        invalid ← validateRule rule;
        match invalid with
        | Some e => mret (AError 400 "invalid_rule" (Error e))
        | None => answer (UpdateRule rule) (missing_or "rule") (ARule 200)
        end
    end.

(** The alerts of a deleted rule are dropped from memory. *)
Definition forget_rule (id : string) (s : Alerts) : Alerts :=
  set_pending (filter (λ kt, fk_RuleID kt.1 ≠ id) (pending s)) (set_firing (filter (λ ke, fk_RuleID ke.1 ≠ id) (firing s)) s).
Definition HandleDeleteRule (id : string) : M alert_reply :=
  let id := TrimSpace id in
  if id =s "" then mret no_rule_id
  else
    deleted ← attempt (DeleteRule id);
    match deleted with
    | inl e => mret (missing_or "rule" e)
    | inr _ => _ ← puts (forget_rule id); mret ANoContent
    end.

(** [limit] is the parameter as [strconv.Atoi] reads it, if it is there. *)
Definition HandleRuleHistory (id : string) (limit : option (option Z)) : M alert_reply :=
  let id := TrimSpace id in
  if id =s "" then mret no_rule_id
  else
    let bad := mret (AError 400 "invalid_request" "limit must be a positive integer") in
    let run limit :=
      known ← attempt (GetRule id);
      match known with
      | inl e => mret (missing_or "rule" e)
      | inr _ => l ← ListEvents id limit; mret (AHistory id l)
      end in
    match limit with
    | None => run 100
    | Some None => bad
    | Some (Some n) => if n <=? 0 then bad else run n
    end.
Definition HandleActiveAlerts : M alert_reply := l ← ActiveAlerts; mret (AActive l).

(** ** Channels *)

Definition no_channel_id : alert_reply := AError 400 "invalid_request" "missing channel id".
Definition HandleListChannels : M alert_reply := answer ListChannels failed AChannels.
Definition HandleCreateChannel (body : option NotificationChannel) : M alert_reply :=
  match body with
  | None => mret bad_json
  | Some req =>
      match normalizeChannelInput ParseRequestURI ParseAddress req with
      | inl e => mret (AError 400 "invalid_channel" (Error e))
      | inr c => answer (CreateChannel c) failed (AChannel 201)
      end
  end.
Definition HandleGetChannel (id : string) : M alert_reply :=
  if TrimSpace id =s "" then mret no_channel_id else answer (GetChannel (TrimSpace id)) (missing_or "channel") (AChannel 200).
Definition HandleUpdateChannel (id : string) (body : option NotificationChannel) : M alert_reply :=
  let id := TrimSpace id in
  if id =s "" then mret no_channel_id
  else
    existing ← attempt (GetChannel id);
    match existing, body with
    | inl e, _ => mret (missing_or "channel" e)
    | inr _, None => mret bad_json
    | inr existing, Some req =>
        match normalizeChannelInput ParseRequestURI ParseAddress (stamp_channel id (ch_CreatedAt existing) (ch_UpdatedAt req) req) with
        | inl e => mret (AError 400 "invalid_channel" (Error e))
        | inr c => answer (UpdateChannel c) (missing_or "channel") (AChannel 200)
        end
    end.

Definition references (channelID : string) (r : AlertRule) : bool :=
  existsb (λ a, (ac_Type a =s "channel") && (TrimSpace (ac_ChannelID a) =s channelID)) (ru_Actions r).
Definition rulesReferencingChannel (channelID : string) : M (list string) :=
  rules ← ListRules;
  mret (map ru_ID (List.filter (references channelID) rules)).
Definition HandleDeleteChannel (id : string) : M alert_reply :=
  let id := TrimSpace id in
  if id =s "" then mret no_channel_id
  else
    used ← attempt (rulesReferencingChannel id);
    match used with
    | inl e => mret (failed e)
    | inr (rule :: _) => mret (AError 409 "channel_in_use" ("channel is referenced by rule " +:+ rule)%string)
    | inr [] => answer (DeleteChannel id) (missing_or "channel") (λ _, ANoContent)
    end.

Definition test_message (channel : NotificationChannel) : notificationMessage :=
  {| nm_EventType := "notification.test"; nm_Summary := ("[TEST] Legator notification channel " +:+ ch_Name channel)%string; nm_ProbeID := "";
     nm_RuleID := "test"; nm_RuleName := "test"; nm_Detail := None |}.
Definition test_record (channel : NotificationChannel) (err : option go_error) : NotificationAuditRecord :=
  {| na_Kind := "test"; na_Success := match err with None => true | Some _ => false end; na_ChannelID := ch_ID channel; na_ChannelName := ch_Name channel;
     na_ChannelType := ch_Type channel; na_RuleID := ""; na_RuleName := ""; na_ProbeID := ""; na_EventType := "notification.test"; na_Error := error_text err |}.
Definition HandleTestChannel (id : string) : M alert_reply :=
  let id := TrimSpace id in
  if id =s "" then mret no_channel_id
  else
    found ← attempt (GetChannel id);
    match found with
    | inl e => mret (missing_or "channel" e)
    | inr channel =>
        if negb (ch_Enabled channel) then mret (AError 400 "invalid_channel" "channel is disabled")
        else
          _ ← time_now;
          let err := sendToChannel channel (test_message channel) in
          _ ← recordNotificationAudit auditing (test_record channel err);
          mret (match err with Some e => AError 502 "delivery_failed" (Error e) | None => ATested (ch_ID channel) end)
    end.
End handlers.
