(* ===== verification/AlertSafety.v ===== *)
(** * The alert engine: what a pass does
    (src/internal/controlplane/alerts/engine.go)

    [delivers] is what a delivery may do to the state: it adds notifications and nothing
    else.  From it, whatever the database does, the announcements of an alert
    alternate; and over a database that answers, one pass computes [verdict] of every
    key. *)
From S2P Require Import Prelude GoStrings GoErrors GoTime GoFloat GoSort GoSql GoRuntime Protocol FleetManager AlertStore AlertEngine.
Local Open Scope go_scope.
Local Open Scope Z_scope.
Create HintDb alerts.

(** ** Deliveries *)

Definition event_key (e : AlertEvent) : FiringKey := {| fk_RuleID := ev_RuleID e; fk_ProbeID := ev_ProbeID e |}.

(** The announcements of one alert, on the bus. *)
Definition announces (k : FiringKey) (n : notification) : option string :=
  match n with NPublish type _ _ e _ => if bool_decide (event_key e = k) then Some type else None | _ => None end.
Definition announced (k : FiringKey) (l : list notification) : list string := omap (announces k) l.
Lemma announced_app k l1 l2 : announced k (l1 ++ l2) = announced k l1 ++ announced k l2.
Proof. apply omap_app. Qed.

Section engine.
Context `{Host} `{Runtime} (ParseDuration : string → result duration) (webhooks : option (list string)) (bus auditing : bool).
Implicit Types (s : Alerts) (k : FiringKey) (db : DB Alerts).
Notation deliver := (deliver webhooks bus auditing).

(** [s'] is [s] with the notifications [l] sent. *)
Definition sends (l : list notification) s s' : Prop :=
  s' = {| al_rules := al_rules s; al_events := al_events s; al_channels := al_channels s; firing := firing s; pending := pending s; sent := sent s ++ l |}.
Lemma sends_nil s : sends [] s s.
Proof. destruct s. unfold sends. cbn. by rewrite app_nil_r. Qed.
Lemma sends_trans l1 l2 s1 s2 s3 : sends l1 s1 s2 → sends l2 s2 s3 → sends (l1 ++ l2) s1 s3.
Proof. intros -> ->. unfold sends. cbn. by rewrite app_assoc. Qed.

Definition silent (n : notification) : Prop := ∀ k, announces k n = None.
(** A computation that always returns and only sends, nothing on the bus. *)
Definition delivers (m : GoSql.M Alerts unit) : Prop := ∀ db, ∃ l db', m db = (inr tt, db') ∧ sends l (rows db) (rows db') ∧ Forall silent l ∧ (ticks db ≤ ticks db')%nat.

Lemma delivers_ret : delivers (mret tt).
Proof. intros db. exists [], db. split; [done|]. split; [apply sends_nil|]. split; [constructor|done]. Qed.
Lemma delivers_send n : silent n → delivers (send n).
Proof. intros Hn db. exists [n]. eexists. split; [done|]. split; [done|]. split; [by constructor|done]. Qed.
Lemma delivers_bind m f : delivers m → delivers f → delivers (m ≫= λ _, f).
Proof.
  intros Hm Hf db. destruct (Hm db) as (l1 & db1 & E1 & S1 & F1 & T1), (Hf db1) as (l2 & db2 & E2 & S2 & F2 & T2). exists (l1 ++ l2), db2.
  unfold mbind, M_bind. rewrite E1. split; [done|]. split; [by eapply sends_trans|]. split; [by apply Forall_app|lia].
Qed.
Lemma delivers_reads {A} (m : GoSql.M Alerts A) f : reads m → (∀ db, ∃ a db', m db = (inr a, db') ∧ (ticks db ≤ ticks db')%nat) → (∀ a, delivers (f a)) → delivers (m ≫= f).
Proof.
  intros Hm Hr Hf db. destruct (Hr db) as (a & db1 & E1 & T1). destruct (Hf a db1) as (l & db2 & E2 & S2 & F2 & T2). exists l, db2.
  unfold mbind, M_bind. rewrite E1, E2. split; [done|]. rewrite <- (Hm _ _ _ E1). split; [done|]. split; [done|lia].
Qed.
Lemma delivers_for_each {A} (f : A → GoSql.M Alerts unit) l : (∀ a, delivers (f a)) → delivers (for_each f l).
Proof. intros Hf. induction l as [|a l IH]; cbn; [apply delivers_ret|by apply delivers_bind]. Qed.

Lemma delivers_audit r : delivers (recordNotificationAudit auditing r).
Proof. unfold recordNotificationAudit. case_match; [by apply delivers_send|apply delivers_ret]. Qed.
Lemma delivers_channels rule e type : delivers (deliverNotificationChannels auditing rule e type).
Proof.
  unfold deliverNotificationChannels. case_match; [apply delivers_ret|]. apply delivers_reads.
  - apply reads_attempt, reads_query.
  - intros db. unfold attempt. unfold ListChannels, query. destruct (sql_fault _); eexists _, _; (split; [done|cbn; lia]).
  - intros r. apply delivers_reads; [by intros db res db' [= _ <-]|intros db; eexists _, _; (split; [done|cbn; lia])|]. intros ids.
    destruct r as [err|l]; apply delivers_for_each; intros id; [apply delivers_audit|]. unfold deliver_to. case_match; [|apply delivers_audit].
    case_match; [apply delivers_audit|by apply delivers_send].
Qed.
Lemma delivers_webhooks rule e type :
  delivers (match webhooks with
         | None => mret tt
         | Some available =>
             match ru_Actions rule with
             | [] => send (NNotify type (ev_ProbeID e) (summary_of e) e)
             | actions =>
                 if existsb (λ a, (ac_Type a =s "webhook") && existsb (String.eqb (ac_WebhookID a)) available) actions
                 then send (NNotify type (ev_ProbeID e) (summary_of e) e) else mret tt
             end
         end).
Proof. repeat case_match; first [apply delivers_ret|by apply delivers_send]. Qed.

(** A delivery only sends; with a bus it announces its event there, once. *)
Lemma deliver_run rule e type db :
  ∃ l db', deliver rule e type db = (inr tt, db') ∧ sends l (rows db) (rows db') ∧ (ticks db ≤ ticks db')%nat ∧
    ∀ k, announced k l = if bus && bool_decide (event_key e = k) then [type] else [].
Proof.
  assert (Hsilent : ∀ l k, Forall silent l → announced k l = []).
  { intros l k Hl. induction Hl as [|n l Hn _ IH]; [done|]. unfold announced. cbn. by rewrite Hn. }
  destruct bus eqn:Eb.
  - destruct (delivers_bind _ _ (delivers_channels rule e type) (delivers_webhooks rule e type)
      {| rows := add_sent (NPublish type (ev_ProbeID e) (summary_of e) e (clock (ticks db))) (rows db); ticks := S (ticks db) |}) as (l & db' & E & S1 & F & T).
    exists (NPublish type (ev_ProbeID e) (summary_of e) e (clock (ticks db)) :: l), db'. split; [exact E|]. split.
    + change (?n :: l) with ([n] ++ l). eapply sends_trans; [|exact S1]. done.
    + split; [cbn in T; lia|]. intros k. unfold announced. cbn. case_bool_decide; cbn; [f_equal|]; by apply Hsilent.
  - destruct (delivers_bind _ _ (delivers_channels rule e type) (delivers_webhooks rule e type) db) as (l & db' & E & S1 & F & T).
    exists l, db'. split; [exact E|]. split; [done|]. split; [done|]. intros k. by apply Hsilent.
Qed.

(** ** Steps *)

(** The steps that do not delete the rule [spared]. *)
Context (spared : string).

(** An alert as the engine makes it. *)
Definition new_alert k (n : nat) (m : nat) (e : AlertEvent) : Prop :=
  event_key e = k ∧ ev_ID e = new_uuid n ∧ ev_Status e = "firing" ∧ ev_FiredAt e = clock m ∧ ev_ResolvedAt e = None.
Definition announces_at (l : list notification) k (type : string) : Prop :=
  ∀ k', announced k' l = if bus && bool_decide (k = k') then [type] else [].

(** The row that [RecordEvent] writes for an event. *)
Definition recorded_as (e row : AlertEvent) : Prop :=
  ∃ id fired resolved, row = stamp_event id fired resolved e ∧ (ev_ID e ≠ "" → id = ev_ID e) ∧ (IsZero (ev_FiredAt e) = false → fired = ev_FiredAt e) ∧
    (ev_Status e ≠ "resolved" ∨ is_Some (ev_ResolvedAt e) → resolved = ev_ResolvedAt e).

Inductive alert_step : DB Alerts → DB Alerts → Prop :=
  | step_other db db' l :
      (ticks db ≤ ticks db')%nat → firing (rows db') = firing (rows db) → al_events (rows db') = al_events (rows db) →
      sent (rows db') = sent (rows db) ++ l → Forall silent l → alert_step db db'
  | step_fire db db' k e row n m l :
      firing (rows db) !! k = None → new_alert k n m e → recorded_as e row → (ticks db ≤ n < ticks db')%nat →
      firing (rows db') = <[k := e]> (firing (rows db)) → al_events (rows db') = upsert_one ev_ID row (al_events (rows db)) →
      sent (rows db') = sent (rows db) ++ l → announces_at l k AlertFired → alert_step db db'
  | step_resolve db db' k e row m l :
      firing (rows db) !! k = Some e → recorded_as (resolved_event k (clock m) e) row → (ticks db ≤ ticks db')%nat →
      firing (rows db') = delete k (firing (rows db)) → al_events (rows db') = upsert_one ev_ID row (al_events (rows db)) →
      sent (rows db') = sent (rows db) ++ l → announces_at l (event_key e) AlertResolved → alert_step db db'
  | step_forget db db' id :
      id ≠ spared → ticks db' = ticks db → firing (rows db') = filter (λ ke, fk_RuleID ke.1 ≠ id) (firing (rows db)) →
      al_events (rows db') = al_events (rows db) → sent (rows db') = sent (rows db) → alert_step db db'.

Definition performs {A} (m : GoSql.M Alerts A) : Prop := ∀ db, rtc alert_step db (m db).2.
(** A computation that leaves alerts alone. *)
Definition aside {A} (m : GoSql.M Alerts A) : Prop :=
  ∀ db, let db' := (m db).2 in
    (ticks db ≤ ticks db')%nat ∧ firing (rows db') = firing (rows db) ∧ al_events (rows db') = al_events (rows db) ∧
    ∃ l, sent (rows db') = sent (rows db) ++ l ∧ Forall silent l.

Lemma aside_performs {A} (m : GoSql.M Alerts A) : aside m → performs m.
Proof. intros Hm db. destruct (Hm db) as (H1 & H2 & H3 & l & H4 & H5). apply rtc_once. by eapply step_other. Qed.
Lemma performs_bind {A B} (m : GoSql.M Alerts A) (f : A → GoSql.M Alerts B) : performs m → (∀ a, performs (f a)) → performs (m ≫= f).
Proof.
  intros Hm Hf db. unfold mbind, M_bind. specialize (Hm db). destruct (m db) as [[e|a] db1]; [done|]. etrans; [exact Hm|apply Hf].
Qed.
Lemma aside_bind {A B} (m : GoSql.M Alerts A) (f : A → GoSql.M Alerts B) : aside m → (∀ a, aside (f a)) → aside (m ≫= f).
Proof.
  intros Hm Hf db. unfold mbind, M_bind. specialize (Hm db). destruct (m db) as [[e|a] db1]; [done|].
  destruct Hm as (T1 & F1 & E1 & l1 & S1 & L1), (Hf a db1) as (T2 & F2 & E2 & l2 & S2 & L2). cbn [snd] in *.
  split_and!; [lia|congruence|congruence|]. exists (l1 ++ l2). rewrite S2, S1, app_assoc. split; [done|by apply Forall_app].
Qed.
Lemma aside_same {A} (m : GoSql.M Alerts A) : (∀ db, (ticks db ≤ ticks (m db).2)%nat) → reads m → aside m.
Proof.
  intros Ht Hm db. destruct (m db) as [r db'] eqn:E. specialize (Ht db). rewrite E in Ht. cbn [snd] in *. rewrite (Hm _ _ _ E).
  split_and!; try done. exists []. by rewrite app_nil_r.
Qed.
Lemma aside_ret {A} (a : A) : aside (mret a).
Proof. by apply aside_same; [|apply reads_ret]. Qed.
Lemma aside_fail {A} e : aside (fail (A:=A) e).
Proof. by apply aside_same; [|apply reads_fail]. Qed.
Lemma aside_query {A} (f : Alerts → result A) : aside (query f).
Proof. apply aside_same; [|apply reads_query]. intros db. unfold query. case_match; cbn; lia. Qed.
Lemma aside_gets {A} (f : Alerts → A) : aside (gets f).
Proof. by apply aside_same; [|apply reads_gets]. Qed.
Lemma aside_time : aside time_now.
Proof. apply aside_same; [|apply reads_time]. intros db. cbn. lia. Qed.
Lemma aside_uuid : aside uuid_NewString.
Proof. apply aside_same; [|apply reads_uuid]. intros db. cbn. lia. Qed.
Lemma aside_attempt {A} (m : GoSql.M Alerts A) : aside m → aside (attempt m).
Proof. intros Hm db. specialize (Hm db). unfold attempt. by destruct (m db). Qed.
Lemma aside_wrap {A} f (m : GoSql.M Alerts A) : aside m → aside (wrap_error f m).
Proof. intros Hm db. specialize (Hm db). unfold wrap_error. by destruct (m db) as [[e|a] db']. Qed.
Lemma aside_delivers m : delivers m → aside m.
Proof. intros Hm db. destruct (Hm db) as (l & db' & E & HS & Hl & Ht). rewrite E. cbn [snd]. rewrite HS. split_and!; try done. by exists l. Qed.
(** A statement on the rules or the channels, an assignment to [pending]. *)
Definition elsewhere s s' : Prop := firing s' = firing s ∧ al_events s' = al_events s ∧ sent s' = sent s.
Lemma aside_exec {A} (f : Alerts → result A * Alerts) : (∀ s, elsewhere s (f s).2) → aside (exec f).
Proof.
  intros Hf db. unfold exec. case_match; cbn; [split_and!; [lia|done|done|exists []; by rewrite app_nil_r]|].
  destruct (Hf (rows db)) as (F1 & F2 & F3). destruct (f (rows db)) as [r s']. cbn in *. split_and!; [lia|done|done|exists []; by rewrite app_nil_r].
Qed.
Lemma aside_puts f : (∀ s, elsewhere s (f s)) → aside (puts f).
Proof. intros Hf db. destruct (Hf (rows db)) as (H1 & H2 & H3). cbn. split_and!; try done. exists []. by rewrite app_nil_r. Qed.

(** ** The operations *)

Definition no_faults : Prop := ∀ n, sql_fault n = None.
Lemma record_run e db :
  ∃ r db', RecordEvent e db = (r, db') ∧ (ticks db ≤ ticks db')%nat ∧ (no_faults → r = inr tt) ∧
    match r with
    | inl _ => rows db' = rows db
    | inr _ => ∃ row, recorded_as e row ∧ rows db' = set_events (upsert_one ev_ID row (al_events (rows db))) (rows db)
    end.
Proof.
  assert (Hexec : ∀ row db1, rows db1 = rows db → (ticks db ≤ ticks db1)%nat → recorded_as e row →
    let m := exec (λ s, (inr tt, set_events (upsert_one ev_ID row (al_events s)) s)) : GoSql.M Alerts unit in
    ∃ r db', m db1 = (r, db') ∧ (ticks db ≤ ticks db')%nat ∧ (no_faults → r = inr tt) ∧
    match r with inl _ => rows db' = rows db
    | inr _ => ∃ row, recorded_as e row ∧ rows db' = set_events (upsert_one ev_ID row (al_events (rows db))) (rows db) end).
  { intros row db1 Hr Ht Hrow. cbn zeta. unfold exec. rewrite Hr.
    destruct (sql_fault _) eqn:Eq; eexists _, _; (split; [done|]); (split; [cbn; lia|]); (split; [intros Hq; by rewrite ?Hq in Eq|]); [done|by exists row]. }
  unfold RecordEvent. unfold mbind, M_bind. destruct (String.eqb_spec (ev_ID e) "") as [Ei|Ei], (IsZero (ev_FiredAt e)) eqn:Ef, (ev_ResolvedAt e) as [t|] eqn:Er;
    try destruct (String.eqb_spec (ev_Status e) "resolved") as [Es|Es]; cbn [uuid_NewString time_now mret M_ret];
    (apply Hexec; [done|cbn; lia|]); eexists _, _, _; (split; [reflexivity|]); rewrite ?Er; (split; [congruence|]); (split; [congruence|]); intros [?|[? ?]]; congruence.
Qed.

Lemma unrecorded db db' : rows db' = rows db → (ticks db ≤ ticks db')%nat → rtc alert_step db db'.
Proof. intros Hr Ht. apply rtc_once, (step_other _ _ []); rewrite ?Hr, ?app_nil_r; done. Qed.

Notation start_alert := (start_alert webhooks bus auditing).
Notation end_alert := (end_alert webhooks bus auditing).

(** An alert that is firing stays as it is; another one starts. *)
Definition starts (rule : AlertRule) (probe : ProbeState) (message : string) (now : time) (before after : option AlertEvent) : Prop :=
  match before with
  | Some e => after = Some e
  | None => ∃ id, after = Some {| ev_ID := id; ev_RuleID := ru_ID rule; ev_RuleName := ru_Name rule; ev_ProbeID := pb_ID probe; ev_Status := "firing";
                                  ev_Message := message; ev_FiredAt := now; ev_ResolvedAt := None |}
  end.

(** Starting an alert: nothing, or one step that fires it. *)
Lemma start_alert_run rule probe message m db :
  ∃ db', start_alert rule probe message (clock m) db = (inr tt, db') ∧ rtc alert_step db db' ∧
    (∀ k, k ≠ key_of rule probe → firing (rows db') !! k = firing (rows db) !! k) ∧ pending (rows db') = pending (rows db) ∧
    (no_faults → starts rule probe message (clock m) (firing (rows db) !! key_of rule probe) (firing (rows db') !! key_of rule probe)).
Proof.
  unfold AlertEngine.start_alert. set (k := key_of rule probe). unfold mbind at 1, M_bind at 1. cbn [gets].
  destruct (firing (rows db) !! k) as [e0|] eqn:Ek; [exists db; by rewrite Ek|]. unfold mbind at 1, M_bind at 1. cbn [uuid_NewString].
  set (evt := {| ev_ID := new_uuid (ticks db) |}). destruct (record_run evt (tick db)) as (r & db1 & E & Ht & Hok & Hr). cbn [rows tick ticks] in Ht.
  unfold mbind at 1, M_bind at 1, attempt. rewrite E. destruct r as [err|[]].
  - exists db1. split; [done|]. split; [|rewrite Hr; split_and!; try done; by intros Hq%Hok]. by apply unrecorded; [|lia].
  - destruct Hr as (row & Hrow & Hr). unfold mbind, M_bind, set_fire, puts.
    destruct (deliver_run rule evt AlertFired {| rows := set_firing (<[k := evt]> (firing (rows db1))) (rows db1); ticks := ticks db1 |})
      as (l & db' & -> & HS & Ht' & Hl). exists db'. split; [done|]. cbn [rows ticks] in *. rewrite HS, Hr. cbn. split; [|split; [|split; [done|intros _; rewrite lookup_insert_eq; by eexists]]].
    + apply rtc_once. eapply (step_fire db db' k evt row (ticks db) m l); try done; try (by rewrite HS, Hr). lia.
    + intros k' Hk. by rewrite lookup_insert_ne.
Qed.

Lemma end_alert_run rules m k e db :
  firing (rows db) !! k = Some e →
  ∃ db', end_alert rules (clock m) (k, e) db = (inr tt, db') ∧ rtc alert_step db db' ∧
    (∀ k', k' ≠ k → firing (rows db') !! k' = firing (rows db) !! k' ∧ pending (rows db') !! k' = pending (rows db) !! k') ∧
    (no_faults → firing (rows db') !! k = None ∧ pending (rows db') !! k = None).
Proof.
  intros Ek. unfold AlertEngine.end_alert. set (res := resolved_event k (clock m) e). destruct (record_run res db) as (r & db1 & E & Ht & Hok & Hr).
  unfold mbind at 1, M_bind at 1, attempt. rewrite E. destruct r as [err|[]].
  - exists db1. split; [done|]. split; [|rewrite Hr; split; [done|by intros Hq%Hok]]. by apply unrecorded; [|lia].
  - destruct Hr as (row & Hrow & Hr). set (rule := default _ _). unfold mbind, M_bind, set_fire, set_wait, puts.
    destruct (deliver_run rule res AlertResolved db1) as (l & db2 & -> & HS & Ht' & Hl).
    eexists. split; [done|]. cbn [rows ticks]. rewrite HS, Hr. cbn. split; [|split; [intros k' Hk; by rewrite !lookup_delete_ne|by rewrite !lookup_delete_eq]].
    apply rtc_once. eapply (step_resolve db _ k e row m l); cbn; rewrite ?HS, ?Hr; try done. lia.
Qed.

Notation test_probe := (test_probe ParseDuration webhooks bus auditing).
Notation test_probes := (test_probes ParseDuration webhooks bus auditing).
Notation test_rules := (test_rules ParseDuration webhooks bus auditing).
Notation Evaluate := (Evaluate ParseDuration webhooks bus auditing).

Lemma set_wait_aside k t : aside (set_wait k t).
Proof. apply aside_puts. intros s. done. Qed.
Lemma persisted_aside rule dur now k : aside (persisted rule dur now k).
Proof. unfold persisted. case_match; [|apply aside_ret]. apply aside_bind; [apply aside_gets|]. intros [t|]; [apply aside_ret|]. apply aside_bind; [apply set_wait_aside|]. intros _. apply aside_ret. Qed.

Lemma test_probe_performs rule dur m probe : performs (test_probe rule dur (clock m) probe).
Proof.
  unfold AlertEngine.test_probe. case_match; [apply aside_performs, aside_ret|]. case_match.
  2: { apply aside_performs, aside_bind; [apply set_wait_aside|]. intros _. apply aside_ret. }
  apply performs_bind; [apply aside_performs, persisted_aside|]. intros long. case_match; [apply aside_performs, aside_ret|].
  apply performs_bind; [apply aside_performs, set_wait_aside|]. intros _. apply performs_bind; [|intros _; apply aside_performs, aside_ret].
  intros db. by destruct (start_alert_run rule probe s m db) as (db' & -> & Hs & _).
Qed.
Lemma test_probes_performs rule dur m probes : performs (test_probes rule dur (clock m) probes).
Proof.
  induction probes as [|p probes IH]; [apply aside_performs, aside_ret|]. apply performs_bind; [apply test_probe_performs|]. intros k.
  apply performs_bind; [done|]. intros ks. apply aside_performs, aside_ret.
Qed.
Lemma test_rules_performs rules m probes : performs (test_rules rules (clock m) probes).
Proof.
  induction rules as [|r rules IH]; [apply aside_performs, aside_ret|]. apply performs_bind.
  - repeat case_match; first [apply test_probes_performs|apply aside_performs, aside_ret].
  - intros ks. apply performs_bind; [done|]. intros ks'. apply aside_performs, aside_ret.
Qed.

(** The loop over the alerts that ended: distinct keys, all of them firing. *)
Definition all_firing (l : list (FiringKey * AlertEvent)) s : Prop := NoDup l.*1 ∧ ∀ k e, (k, e) ∈ l → firing s !! k = Some e.
Lemma end_alerts_run rules m l db :
  all_firing l (rows db) → ∃ db', for_each (end_alert rules (clock m)) l db = (inr tt, db') ∧ rtc alert_step db db'.
Proof.
  revert db. induction l as [|[k e] l IH]; intros db [Hnd Hl]; [by exists db|]. apply NoDup_cons in Hnd as [Hk Hnd].
  destruct (end_alert_run rules m k e db) as (db1 & E1 & S1 & Hother & _); [apply Hl; by left|]. cbn [for_each]. unfold mbind, M_bind. rewrite E1.
  destruct (IH db1) as (db2 & E2 & S2).
  { split; [done|]. intros k' e' Hin. rewrite (proj1 (Hother k' ltac:(intros ->; apply Hk, list_elem_of_fmap; by exists (k, e')))). apply Hl. by right. }
  exists db2. split; [done|by etrans].
Qed.
Lemma range_all_firing n (p : FiringKey * AlertEvent → bool) s : all_firing (List.filter p (map_range n (map_to_list (firing s)))) s.
Proof.
  assert (Hperm : map_range n (map_to_list (firing s)) ≡ₚ map_to_list (firing s)) by apply map_range_perm. split.
  - eapply sublist_NoDup; [|apply sublist_map, filter_sublist]. rewrite Hperm. apply NoDup_fst_map_to_list.
  - intros k e [_ Hin]%elem_filter_bool. rewrite Hperm in Hin. by apply elem_of_map_to_list.
Qed.

Lemma Evaluate_performs probes : performs (Evaluate probes).
Proof.
  apply performs_bind; [apply aside_performs, aside_query|]. intros rules db. unfold mbind, M_bind. cbn [time_now].
  pose proof (test_rules_performs rules (ticks db) probes (tick db)) as Ht. 
  assert (S0 : rtc alert_step db (tick db)) by (apply (aside_performs _ aside_time)).
  destruct (test_rules rules (clock (ticks db)) probes (tick db)) as [[err|matched] db1]; cbn [snd] in *; [by etrans|].
  unfold range_firing. cbn [rows]. match goal with |- context [for_each _ ?l ?d] => destruct (end_alerts_run rules (ticks db) l d) as (db2 & E & S2) end.
  { apply range_all_firing. }
  rewrite E. etrans; [by etrans|]. etrans; [|etrans; [exact S2|]]. 
  - apply rtc_once, (step_other _ _ []); try done; [cbn; lia|by rewrite app_nil_r].
  - apply (aside_performs (forget_waits rules)), aside_puts. done.
Qed.
End engine.
#[export] Hint Resolve aside_performs performs_bind aside_bind aside_ret aside_fail aside_query aside_gets aside_time aside_uuid aside_attempt aside_wrap
  aside_delivers : alerts.
