(* ===== verification/RoutingSafety.v ===== *)
(** * Alert routing: the precedence of policies
    (src/internal/controlplane/alerts/routing_store.go) *)
From S2P Require Import Prelude GoStrings GoErrors GoTime GoSort GoSql GoRuntime AlertStore AlertRouting.
Local Open Scope go_scope.
Local Open Scope Z_scope.

(** A policy that is not a fallback and matches; the best of a set of policies. *)
Definition specific (ctx : RoutingContext) (p : RoutingPolicy) : Prop := rp_IsDefault p = false ∧ policyMatches p ctx = true.
Definition best (P : RoutingPolicy → Prop) (l : list RoutingPolicy) (p : RoutingPolicy) : Prop :=
  p ∈ l ∧ P p ∧ ∀ q, q ∈ l → P q → rp_Priority q <= rp_Priority p.

Lemma best_perm P l l' p : l ≡ₚ l' → best P l p → best P l' p.
Proof. intros Hl (Hp & HP & Hmax). split_and!; [by rewrite <- Hl|done|]. intros q. rewrite <- Hl. apply Hmax. Qed.

(** The steps of an escalation policy, none when it is not there. *)
Definition steps_of (id : string) (s : RoutingStore) : list EscalationStep :=
  match List.find (has_id ep_ID id) (rs_escalations s) with Some ep => if id =s "" then [] else ep_Steps ep | None => [] end.
Definition outcome_of (s : RoutingStore) (ctx : RoutingContext) (p : RoutingPolicy) (fallback : bool) (o : RoutingOutcome) : Prop :=
  ro_RuleID o = rx_RuleID ctx ∧ ro_ProbeID o = rx_ProbeID ctx ∧ ro_PolicyID o = rp_ID p ∧ ro_PolicyName o = rp_Name p ∧
  ro_OwnerLabel o = rp_OwnerLabel p ∧ ro_OwnerContact o = rp_OwnerContact p ∧ ro_RunbookURL o = rp_RunbookURL p ∧
  ro_EscalationSteps o = steps_of (rp_EscalationPolicyID p) s ∧ xp_FallbackUsed (ro_Explain o) = fallback.

Section routing.
Context `{HostLaws} `{Runtime} (no_faults : ∀ n, sql_fault n = None).

(** The loop over policies in the order of priority. *)
Lemma select_spec ctx d l :
  StronglySorted (λ p q, rp_Priority q <= rp_Priority p) l →
  (∀ p, d = Some p → rp_IsDefault p = true ∧ ∀ q, q ∈ l → rp_Priority q <= rp_Priority p) →
  match select ctx d l with
  | Some (p, false) => best (specific ctx) l p
  | Some (p, true) => (∀ q, q ∈ l → ¬ specific ctx q) ∧ (d = Some p ∨ d = None ∧ best (λ q, rp_IsDefault q = true) l p)
  | None => d = None ∧ (∀ q, q ∈ l → ¬ specific ctx q ∧ rp_IsDefault q = false)
  end.
Proof.
  revert d. induction l as [|p l IH]; intros d Hs Hd; cbn [select].
  - destruct d as [p|]; cbn; split; try done; try (by intros q ?%elem_of_nil). by left.
  - apply StronglySorted_inv in Hs as [Hs Hp]. rewrite Forall_forall in Hp. destruct (rp_IsDefault p) eqn:Ep.
    + set (d' := match d with Some d0 => _ | None => _ end).
      assert (Ed : d' = Some p ∨ d = d' ∧ is_Some d).
      { unfold d'. destruct d as [d0|]; [|by left]. destruct (Z.ltb_spec (rp_Priority d0) (rp_Priority p)) as [Hlt|]; [by left|right; by eauto]. }
      assert (Hd' : ∀ x, d' = Some x → rp_IsDefault x = true ∧ ∀ q, q ∈ l → rp_Priority q <= rp_Priority x).
      { intros x Hx. destruct Ed as [E|[E _]]; [rewrite E in Hx; injection Hx as <-; split; [done|]; intros q Hq; by apply Hp|].
        rewrite <- E in Hx. destruct (Hd x Hx) as [Hdx Hmax]. split; [done|]. intros q Hq. apply Hmax. by right. }
      specialize (IH d' Hs Hd'). destruct (select ctx d' l) as [[q []]|].
      * destruct IH as [Hno Hq]. split; [intros x [->|Hx]%elem_of_cons; [intros [E _]; congruence|by apply Hno]|].
        destruct Ed as [E|[E [d0 E0]]]; [|left; rewrite E; destruct Hq as [Hq|[Hq _]]; [done|congruence]].
        destruct Hq as [Hq|[Hq _]]; [|congruence]. rewrite E in Hq. injection Hq as <-.
        destruct d as [d0|] eqn:E0; [|right; split; [done|]; split_and!; [by left|done|]; intros x [->|Hx]%elem_of_cons _; [lia|by apply Hp]].
        destruct (Hd d0 eq_refl) as [_ Hmax]. specialize (Hmax p ltac:(by left)). unfold d' in E.
        destruct (Z.ltb_spec (rp_Priority d0) (rp_Priority p)); [lia|]. injection E as ->. by left.
      * destruct IH as (Hq & HP & Hmax). split_and!; [by right|done|]. intros x [->|Hx]%elem_of_cons HPx; [destruct HPx; congruence|by apply Hmax].
      * destruct IH as [Hn _]. destruct Ed as [E|[E [d0 E0]]]; congruence.
    + destruct (policyMatches p ctx) eqn:Em.
      * split_and!; [by left|done|]. intros q [->|Hq]%elem_of_cons _; [lia|by apply Hp].
      * assert (Hnot : ¬ specific ctx p) by (intros [_ E]; congruence).
        specialize (IH d Hs ltac:(intros x Hx; destruct (Hd x Hx) as [? Hm]; split; [done|]; intros q Hq; apply Hm; by right)).
        destruct (select ctx d l) as [[q []]|].
        -- destruct IH as [Hno Hq]. split; [intros x [->|Hx]%elem_of_cons; [done|by apply Hno]|]. destruct Hq as [Hq|[Hq (B1 & B2 & B3)]]; [by left|right].
           split; [done|]. split_and!; [by right|done|]. intros x [->|Hx]%elem_of_cons Hx'; [congruence|by apply B3].
        -- destruct IH as (Hq & HP & Hmax). split_and!; [by right|done|]. intros x [->|Hx]%elem_of_cons HPx; [done|by apply Hmax].
        -- destruct IH as [Hn Hall]. split; [done|]. intros x [->|Hx]%elem_of_cons; [done|by apply Hall].
Qed.

Lemma build_run ctx p fallback why db :
  ∃ o db', buildOutcome ctx p fallback why db = (inr o, db') ∧ rows db' = rows db ∧ outcome_of (rows db) ctx p fallback o.
Proof.
  unfold buildOutcome, steps_of, outcome_of, steps_of, GetEscalationPolicy, attempt, mbind, M_bind.
  destruct (String.eqb_spec (rp_EscalationPolicyID p) "") as [E|E]; cbn [negb].
  - eexists _, _. split; [done|]. split; [done|]. cbn. split_and!; try done. by destruct (List.find _ _).
  - rewrite (run_query no_faults). eexists _, _. split; [done|]. split; [done|]. cbn. split_and!; try done. unfold scan_one. by destruct (List.find _ _).
Qed.

(** C37. Resolving the route of an alert over a database that answers always gives an
    outcome, and changes nothing: the highest priority among the policies that are not
    fallbacks and whose matchers all match, whatever the priority of the fallbacks;
    without any, the fallback of highest priority; without policies of either kind,
    the outcome that names none.  The outcome carries the owner, the runbook and the
    escalation steps of that policy. *)
Theorem routing_precedence ctx db :
  ∃ o db', Resolve ctx db = (inr o, db') ∧ rows db' = rows db ∧
    let l := rs_policies (rows db) in
    ((∃ p, best (specific ctx) l p ∧ outcome_of (rows db) ctx p false o) ∨
     (∀ q, q ∈ l → ¬ specific ctx q) ∧
     ((∃ p, best (λ q, rp_IsDefault q = true) l p ∧ outcome_of (rows db) ctx p true o) ∨
      (∀ q, q ∈ l → rp_IsDefault q = false) ∧ o = no_policies ctx)).
Proof.
  unfold Resolve, ListRoutingPolicies. unfold mbind, M_bind. rewrite (run_query no_faults).
  set (l := sort_Slice _ _). assert (Hl : l ≡ₚ rs_policies (rows db)) by (etrans; [apply sort_Slice_perm|apply order_by_perm]).
  assert (Hs : StronglySorted (λ p q, rp_Priority q <= rp_Priority p) l).
  { eapply StronglySorted_weaken; [|apply sort_Slice_sorted].
    - intros p q. cbn. intros Hlt%Z.ltb_ge. done.
    - intros p q Hlt%Z.ltb_lt. apply Z.ltb_ge. lia.
    - intros p q r Hpq%Z.ltb_ge Hqr%Z.ltb_ge. apply Z.ltb_ge. lia. }
  pose proof (select_spec ctx None l Hs ltac:(done)) as Hsel. destruct (select ctx None l) as [[p []]|].
  - destruct (build_run ctx p true "default policy" (tick db)) as (o & db' & E & Hr & Ho). exists o, db'. split; [done|]. split; [done|]. right.
    destruct Hsel as [Hno [|[_ Hbest]]]; [done|]. split; [intros q; rewrite <- Hl; apply Hno|]. left. exists p. split; [by eapply best_perm|done].
  - destruct (build_run ctx p false (describeMatcher p) (tick db)) as (o & db' & E & Hr & Ho). exists o, db'. split; [done|]. split; [done|]. left.
    exists p. split; [by eapply best_perm|done].
  - eexists _, _. split; [done|]. split; [done|]. right. destruct Hsel as [_ Hno]. split; [intros q; rewrite <- Hl; apply Hno|]. right.
    split; [intros q; rewrite <- Hl; apply Hno|done].
Qed.
End routing.
