(* ===== verification/AlertPass.v ===== *)
(** * One pass of the alert engine, key by key
    (src/internal/controlplane/alerts/engine.go)

    The abstract specification of [Evaluate]: for the key of a rule and a probe, the
    pass finds a [verdict] that depends on the rule, the probe, the clock and since
    when the key waits, and the key's alert and waiting change by that verdict alone. *)
From S2P Require Import Prelude GoStrings GoErrors GoTime GoFloat GoSort GoSql GoRuntime Protocol FleetManager AlertStore AlertEngine AlertSafety.
Local Open Scope go_scope.
Local Open Scope Z_scope.

(** ** The specification *)

(** Not tested; the condition is not met; met, and waiting since; met for long
    enough. *)
Inductive verdict := VUntested | VClear | VWaiting (since : time) | VMatched (rule : AlertRule) (probe : ProbeState) (message : string).

(** What a verdict makes of the time a key waits since, before alerts are ended. *)
Definition waiting (v : verdict) (since : option time) : option time :=
  match v with VUntested => since | VClear | VMatched _ _ _ => None | VWaiting t => Some t end.
Definition is_matched (v : verdict) : bool := match v with VMatched _ _ _ => true | _ => false end.
Definition join (v1 v2 : verdict) : verdict := match v1 with VUntested => v2 | _ => v1 end.

Section pass.
Context `{HostLaws} `{Runtime} (ParseDuration : string → result duration) (webhooks : option (list string)) (bus auditing : bool).
Context (answers : no_faults).
Implicit Types (s : Alerts) (k : FiringKey) (db : DB Alerts).

(** Whether a condition that is met has been met for long enough. *)
Definition long_enough (rule : AlertRule) (dur : duration) (now : time) (since : option time) : bool :=
  if (cd_Type (ru_Condition rule) <>s "probe_offline") && (0 <? dur)
  then match since with Some t => negb (time_Sub now t <? dur) | None => false end
  else true.
Definition judge (rule : AlertRule) (dur : duration) (now : time) (probe : ProbeState) (since : option time) : verdict :=
  if negb (matchTags (pb_Tags probe) (cd_Tags (ru_Condition rule))) then VUntested
  else match conditionMet ParseDuration rule probe now with
  | None => VClear
  | Some message => if long_enough rule dur now since then VMatched rule probe message else VWaiting (default now since)
  end.
Definition find_probe (id : string) (probes : list ProbeState) : option ProbeState := List.find (λ p, pb_ID p =s id) probes.
Definition verdict_of (rules : list AlertRule) (probes : list ProbeState) (now : time) k (since : option time) : verdict :=
  match List.find (enabled_rule (fk_RuleID k)) rules, find_probe (fk_ProbeID k) probes with
  | Some r, Some p =>
      match parseRuleDuration ParseDuration (cd_Duration (ru_Condition r)) with inr dur => judge r dur now p since | inl _ => VUntested end
  | _, _ => VUntested
  end.

(** What the tests of a pass do to one key. *)
Definition fires (v : verdict) (now : time) (before after : option AlertEvent) : Prop :=
  match v with VMatched r p m => starts r p m now before after | _ => after = before end.
Definition transits (v : verdict) (now : time) k s s' (ks : list FiringKey) : Prop :=
  pending s' !! k = waiting v (pending s !! k) ∧ fires v now (firing s !! k) (firing s' !! k) ∧ (k ∈ ks ↔ is_matched v = true).

(** ** The tests *)

Lemma if_same {A} (b : bool) (x : A) : (if b then x else x) = x.
Proof. by destruct b. Qed.
Lemma transits_same now k s ks : k ∉ ks → transits VUntested now k s s ks.
Proof. intros Hk. split_and!; done. Qed.
Lemma transits_join v1 v2 now k s s1 s2 ks1 ks2 :
  transits v1 now k s s1 ks1 → transits v2 now k s1 s2 ks2 → v1 = VUntested ∨ v2 = VUntested → transits (join v1 v2) now k s s2 (ks1 ++ ks2).
Proof.
  unfold transits. intros (P1 & F1 & K1) (P2 & F2 & K2) Hv. rewrite elem_of_app, K1, K2. destruct Hv as [->| ->].
  - cbn in *. rewrite <- P1, <- F1. by split_and!; [| |intuition].
  - destruct v1; cbn in *; rewrite ?P2, ?F2; split_and!; try done; intuition.
Qed.

Notation test_probe := (test_probe ParseDuration webhooks bus auditing).
Notation test_probes := (test_probes ParseDuration webhooks bus auditing).
Notation test_rules := (test_rules ParseDuration webhooks bus auditing).

Lemma key_of_eq rule probe k : key_of rule probe = k ↔ ru_ID rule = fk_RuleID k ∧ pb_ID probe = fk_ProbeID k.
Proof. destruct k as [a b]. unfold key_of. cbn. split; [by intros [= -> ->]|by intros [-> ->]]. Qed.

Lemma test_probe_run rule dur m probe db :
  ∃ r db', test_probe rule dur (clock m) probe db = (inr r, db') ∧
    ∀ k, transits (if bool_decide (key_of rule probe = k) then judge rule dur (clock m) probe (pending (rows db) !! k) else VUntested) (clock m) k
           (rows db) (rows db') (option_list r).
Proof.
  set (k0 := key_of rule probe). unfold AlertEngine.test_probe, judge. fold k0. destruct (matchTags _ _).
  2: { cbn [negb]. exists None, db. split; [done|]. intros k. rewrite if_same.
       apply transits_same, not_elem_of_nil. }
  cbn [negb]. destruct (conditionMet _ _ _ _) as [msg|].
  2: { exists None. eexists. split; [done|]. intros k. cbn [rows]. case_bool_decide as Ek.
       - subst k. split_and!; cbn; [by rewrite lookup_delete_eq|done|by split; [intros ?%elem_of_nil|]].
       - split_and!; cbn; [by rewrite lookup_delete_ne|done|by split; [intros ?%elem_of_nil|]]. }
  (* the condition is met *)
  set (since := pending (rows db) !! k0). set (long := long_enough rule dur (clock m) since).
  assert (Hp : ∃ db1, persisted rule dur (clock m) k0 db = (inr long, db1) ∧
    rows db1 = if long then rows db else set_pending (<[k0 := default (clock m) since]> (pending (rows db))) (rows db)).
  { unfold persisted, long, long_enough. destruct ((_ <>s _) && (0 <? dur)); [|by exists db]. unfold mbind, M_bind. cbn [gets]. fold since.
    destruct since as [t|] eqn:Es; [|by eexists]. exists db. split; [done|]. case_match; [done|]. cbn. unfold since in Es.
    rewrite insert_id by done. by destruct (rows db). }
  destruct Hp as (db1 & Ep & Hr1). unfold mbind at 1, M_bind at 1. rewrite Ep. destruct long eqn:El; cbn [negb].
  2: { exists None, db1. split; [done|]. intros k. rewrite Hr1. cbn [option_list]. case_bool_decide as Ek.
       - subst k. fold since. fold long. rewrite El. split_and!; cbn; [by rewrite lookup_insert_eq|done|by split; [intros ?%elem_of_nil|]].
       - split_and!; cbn; [by rewrite lookup_insert_ne|done|by split; [intros ?%elem_of_nil|]]. }
  unfold mbind at 1, M_bind at 1. cbn [set_wait puts]. set (db2 := {| rows := set_pending _ _ |}).
  destruct (start_alert_run webhooks bus auditing "" rule probe msg m db2) as (db3 & E3 & _ & Hother & Hpend & Hstart). specialize (Hstart answers).
  unfold mbind, M_bind. rewrite E3. exists (Some k0), db3. split; [done|]. intros k. unfold transits. rewrite Hpend. cbn [db2 rows set_pending pending firing] in *.
  rewrite Hr1 in *. cbn [option_list]. case_bool_decide as Ek.
  - subst k. fold since. fold long. rewrite El. split_and!; [cbn; by rewrite lookup_delete_eq|exact Hstart|]. split; [done|]. intros _. by left.
  - split_and!; [cbn; by rewrite lookup_delete_ne|apply Hother; intros E; by destruct Ek|]. split; [intros ->%list_elem_of_singleton; done|done].
Qed.

(** The verdict of one rule on a key. *)
Definition rule_verdict (rule : AlertRule) (dur : duration) (now : time) (probes : list ProbeState) k (since : option time) : verdict :=
  if ru_ID rule =s fk_RuleID k then match find_probe (fk_ProbeID k) probes with Some p => judge rule dur now p since | None => VUntested end else VUntested.

Lemma find_probe_none id probes : (∀ p, p ∈ probes → pb_ID p ≠ id) → find_probe id probes = None.
Proof.
  unfold find_probe. induction probes as [|p probes IH]; intros Hp; [done|]. cbn. destruct (String.eqb_spec (pb_ID p) id) as [E|_].
  - by destruct (Hp p); [left|].
  - apply IH. intros q Hq. apply Hp. by right.
Qed.

Lemma test_probes_run rule dur m probes db :
  NoDup (map pb_ID probes) →
  ∃ ks db', test_probes rule dur (clock m) probes db = (inr ks, db') ∧
    ∀ k, transits (rule_verdict rule dur (clock m) probes k (pending (rows db) !! k)) (clock m) k (rows db) (rows db') ks.
Proof.
  revert db. induction probes as [|p probes IH]; intros db Hnd.
  - exists [], db. split; [done|]. intros k. unfold rule_verdict. cbn. rewrite if_same.
    apply transits_same, not_elem_of_nil.
  - apply NoDup_cons in Hnd as [Hp Hnd]. destruct (test_probe_run rule dur m p db) as (r & db1 & E1 & T1).
    destruct (IH db1 Hnd) as (ks & db2 & E2 & T2). cbn [AlertEngine.test_probes]. unfold mbind, M_bind. rewrite E1, E2.
    exists (option_list r ++ ks), db2. split; [done|]. intros k. specialize (T1 k). specialize (T2 k).
    assert (Habsent : pb_ID p = fk_ProbeID k → find_probe (fk_ProbeID k) probes = None).
    { intros E. apply find_probe_none. intros q Hq Eq. apply Hp. rewrite E, <- Eq. apply list_elem_of_fmap. by exists q. }
    unfold rule_verdict in *. destruct (String.eqb_spec (ru_ID rule) (fk_RuleID k)) as [Er|Er].
    2: { rewrite bool_decide_eq_false_2 in T1 by (rewrite key_of_eq; tauto). exact (transits_join _ _ _ _ _ _ _ _ _ T1 T2 (or_introl eq_refl)). }
    unfold find_probe. cbn [List.find]. fold (find_probe (fk_ProbeID k) probes). destruct (String.eqb_spec (pb_ID p) (fk_ProbeID k)) as [Ep|Ep].
    + rewrite bool_decide_eq_true_2 in T1 by (rewrite key_of_eq; done). rewrite (Habsent Ep) in T2.
      pose proof (transits_join _ _ _ _ _ _ _ _ _ T1 T2 (or_intror eq_refl)) as T. by destruct (judge _ _ _ _ _).
    + rewrite bool_decide_eq_false_2 in T1 by (rewrite key_of_eq; tauto). 
      pose proof (transits_join _ _ _ _ _ _ _ _ _ T1 T2 (or_introl eq_refl)) as T. cbn [join] in T. by rewrite (proj1 T1) in T.
Qed.

Lemma rule_untested rule dur now probes k since : ru_ID rule ≠ fk_RuleID k → rule_verdict rule dur now probes k since = VUntested.
Proof. intros Hr. unfold rule_verdict. by destruct (String.eqb_spec (ru_ID rule) (fk_RuleID k)). Qed.
Lemma find_rule_none id rules : id ∉ map ru_ID rules → List.find (enabled_rule id) rules = None.
Proof.
  induction rules as [|r rules IH]; [done|]. cbn [map List.find]. intros [Hne Hr]%not_elem_of_cons. unfold enabled_rule at 1.
  destruct (String.eqb_spec (ru_ID r) id); [done|]. rewrite andb_false_r. by apply IH.
Qed.

Lemma test_rules_run rules m probes db :
  NoDup (map ru_ID rules) → NoDup (map pb_ID probes) →
  ∃ ks db', test_rules rules (clock m) probes db = (inr ks, db') ∧
    ∀ k, transits (verdict_of rules probes (clock m) k (pending (rows db) !! k)) (clock m) k (rows db) (rows db') ks.
Proof.
  intros Hr Hp. revert db. induction rules as [|r rules IH]; intros db.
  { exists [], db. split; [done|]. intros k. apply transits_same, not_elem_of_nil. }
  apply NoDup_cons in Hr as [Hne Hr]. cbn [AlertEngine.test_rules].
  set (v0 := λ k since, if negb (ru_Enabled r) then VUntested else match parseRuleDuration ParseDuration (cd_Duration (ru_Condition r)) with
    | inl _ => VUntested | inr dur => rule_verdict r dur (clock m) probes k since end).
  assert (Hhere : ∃ ks db1, (if negb (ru_Enabled r) then mret [] else match parseRuleDuration ParseDuration (cd_Duration (ru_Condition r)) with
      | inl _ => mret [] | inr dur => test_probes r dur (clock m) probes end) db = (inr ks, db1) ∧
    ∀ k, transits (v0 k (pending (rows db) !! k)) (clock m) k (rows db) (rows db1) ks).
  { unfold v0. destruct (negb (ru_Enabled r)); [exists [], db; split; [done|]; intros k; apply transits_same, not_elem_of_nil|].
    destruct (parseRuleDuration _ _) as [e|dur]; [exists [], db; split; [done|]; intros k; apply transits_same, not_elem_of_nil|]. by apply test_probes_run. }
  destruct Hhere as (ks1 & db1 & E1 & T1), (IH Hr db1) as (ks2 & db2 & E2 & T2). unfold mbind, M_bind. rewrite E1, E2.
  exists (ks1 ++ ks2), db2. split; [done|]. intros k. specialize (T1 k). specialize (T2 k). unfold verdict_of in *. cbn [List.find].
  unfold enabled_rule at 1. destruct (String.eqb_spec (ru_ID r) (fk_RuleID k)) as [Er|Er].
  - rewrite (find_rule_none _ rules) in * by (by rewrite <- Er). pose proof (transits_join _ _ _ _ _ _ _ _ _ T1 T2 (or_intror eq_refl)) as T.
    unfold v0 in T. destruct (ru_Enabled r); cbn [negb andb] in *; [|done]. destruct (parseRuleDuration _ _) as [e|dur].
    + by destruct (find_probe _ _).
    + unfold rule_verdict in T. rewrite Er, String.eqb_refl in T. destruct (find_probe _ _); [|done]. by destruct (judge _ _ _ _ _).
  - rewrite andb_false_r. assert (Ev : v0 k (pending (rows db) !! k) = VUntested).
    { unfold v0. destruct (negb _); [done|]. destruct (parseRuleDuration _ _); [done|]. by apply rule_untested. }
    rewrite Ev in T1. pose proof (transits_join _ _ _ _ _ _ _ _ _ T1 T2 (or_introl eq_refl)) as T. cbn [join] in T. by rewrite (proj1 T1) in T.
Qed.

(** ** The alerts that end *)

Lemma end_all_run rules m l db :
  all_firing l (rows db) →
  ∃ db', for_each (end_alert webhooks bus auditing rules (clock m)) l db = (inr tt, db') ∧
    ∀ k, if bool_decide (k ∈ l.*1) then firing (rows db') !! k = None ∧ pending (rows db') !! k = None
         else firing (rows db') !! k = firing (rows db) !! k ∧ pending (rows db') !! k = pending (rows db) !! k.
Proof.
  revert db. induction l as [|[k e] l IH]; intros db [Hnd Hl].
  { exists db. split; [done|]. intros k. by rewrite bool_decide_eq_false_2 by apply not_elem_of_nil. }
  apply NoDup_cons in Hnd as [Hk Hnd]. destruct (end_alert_run webhooks bus auditing "" rules m k e db) as (db1 & E1 & _ & Hother & Hgone); [apply Hl; by left|].
  cbn [for_each]. unfold mbind, M_bind. rewrite E1. destruct (IH db1) as (db2 & E2 & H2).
  { split; [done|]. intros k' e' Hin. rewrite (proj1 (Hother k' ltac:(intros ->; apply Hk, list_elem_of_fmap; by exists (k, e')))). apply Hl. by right. }
  exists db2. split; [done|]. intros k'. specialize (H2 k'). cbn [fmap list_fmap fst]. destruct (decide (k' = k)) as [->|Hne].
  - rewrite bool_decide_eq_false_2 in H2 by done. rewrite bool_decide_eq_true_2 by (by left). destruct H2 as [-> ->]. by apply Hgone.
  - destruct (decide (k' ∈ l.*1)).
    + rewrite bool_decide_eq_true_2 in H2 by done. by rewrite bool_decide_eq_true_2 by (by right).
    + rewrite bool_decide_eq_false_2 in H2 by done. rewrite bool_decide_eq_false_2 by (by intros [?|?]%elem_of_cons). destruct H2 as [-> ->]. by apply Hother.
Qed.

Lemma find_enabled_perm id l l' : NoDup (map ru_ID l) → l ≡ₚ l' → List.find (enabled_rule id) l = List.find (enabled_rule id) l'.
Proof.
  intros Hnd Hp. assert (Hspec : ∀ l0, l ≡ₚ l0 → ∀ r, List.find (enabled_rule id) l0 = Some r ↔ r ∈ l ∧ enabled_rule id r = true).
  { intros l0 Hl0 r. split; [intros [Hr%list_elem_of_In Hb]%find_some; by rewrite <- Hl0 in Hr|]. intros [Hr Hb].
    destruct (List.find (enabled_rule id) l0) as [r'|] eqn:E.
    - apply find_some in E as [Hr'%list_elem_of_In Hb']. rewrite <- Hl0 in Hr'. f_equal. eapply (key_inj ru_ID); [exact Hnd|done|done|].
      apply andb_prop in Hb as [_ Hb%String.eqb_eq], Hb' as [_ Hb'%String.eqb_eq]. congruence.
    - eapply find_none in E; [|apply list_elem_of_In; by rewrite <- Hl0]. congruence. }
  destruct (List.find (enabled_rule id) l') as [r|] eqn:E.
  - apply Hspec; [done|]. by apply (Hspec l').
  - destruct (List.find (enabled_rule id) l) as [r|] eqn:E'; [|done]. apply (Hspec l) in E'; [|done]. apply (Hspec l') in E'; [|done]. congruence.
Qed.
Lemma existsb_find {A} (p : A → bool) l : existsb p l = match List.find p l with Some _ => true | None => false end.
Proof. induction l as [|x l IH]; [done|]. cbn. by destruct (p x). Qed.

(** C34. One pass over a database that answers, with distinct rules and probes, whatever
    the order in which rules, probes and alerts are visited: it completes, and for
    every key, the alert is firing afterwards exactly when the verdict of the rule on
    the probe is that the condition has been met for long enough; an alert that was
    firing keeps its event, another one gets an event with the message and the time of
    the pass; and the key waits since the time the verdict says, unless its alert just
    ended or its rule is not enabled. *)
Theorem pass_decides probes db :
  NoDup (map ru_ID (al_rules (rows db))) → NoDup (map pb_ID probes) →
  ∃ db', Evaluate ParseDuration webhooks bus auditing probes db = (inr tt, db') ∧
    ∀ k, let now := clock (S (ticks db)) in
         let v := verdict_of (al_rules (rows db)) probes now k (pending (rows db) !! k) in
         match v with VMatched r p m => starts r p m now (firing (rows db) !! k) (firing (rows db') !! k) | _ => firing (rows db') !! k = None end ∧
         pending (rows db') !! k =
           if existsb (enabled_rule (fk_RuleID k)) (al_rules (rows db)) && negb (negb (is_matched v) && bool_decide (is_Some (firing (rows db) !! k)))
           then waiting v (pending (rows db) !! k) else None.
Proof.
  intros Hr Hp. unfold Evaluate, ListRules. unfold mbind at 1, M_bind at 1. rewrite (run_query answers). set (rules := order_by _ _).
  assert (Hperm : al_rules (rows db) ≡ₚ rules) by (symmetry; apply order_by_perm). unfold mbind at 1, M_bind at 1. cbn [time_now ticks tick].
  destruct (test_rules_run rules (S (ticks db)) probes (tick (tick db))) as (ks & db1 & E1 & T1); [by rewrite <- Hperm|done|]. cbn [rows tick] in T1.
  unfold mbind at 1, M_bind at 1. change (ticks (tick db)) with (S (ticks db)). rewrite E1. unfold mbind at 1, M_bind at 1, range_firing.
  set (l := List.filter (λ ke, negb (bool_decide (ke.1 ∈ ks))) (map_range (ticks db1) (map_to_list (firing (rows db1))))).
  destruct (end_all_run rules (S (ticks db)) l (tick db1)) as (db2 & E2 & H2); [apply range_all_firing|]. cbn [rows tick] in H2.
  unfold mbind, M_bind. rewrite E2. eexists. split; [done|]. intros k. cbn zeta.
  assert (Ev : verdict_of rules probes (clock (S (ticks db))) k (pending (rows db) !! k) =
               verdict_of (al_rules (rows db)) probes (clock (S (ticks db))) k (pending (rows db) !! k)).
  { unfold verdict_of. by rewrite (find_enabled_perm _ _ _ Hr Hperm). }
  specialize (T1 k). rewrite Ev in T1. set (v := verdict_of (al_rules (rows db)) _ _ _ _) in *. destruct T1 as (P1 & F1 & K1). specialize (H2 k).
  assert (Hin : k ∈ l.*1 ↔ is_Some (firing (rows db1) !! k) ∧ is_matched v = false).
  { rewrite list_elem_of_fmap. unfold l. setoid_rewrite elem_filter_bool. rewrite <- (not_true_iff_false (is_matched v)), <- K1. split.
    - intros ([k' e] & -> & Hb & He). rewrite map_range_perm in He. apply elem_of_map_to_list in He. cbn in *. split; [by eexists|].
      by apply negb_true_iff, bool_decide_eq_false in Hb.
    - intros [[e He] Hk]. exists (k, e). split; [done|]. cbn. rewrite bool_decide_eq_false_2 by done. split; [done|].
      rewrite map_range_perm. by apply elem_of_map_to_list. }
  assert (Een : existsb (enabled_rule (fk_RuleID k)) (al_rules (rows db)) = existsb (enabled_rule (fk_RuleID k)) rules).
  { by rewrite !existsb_find, (find_enabled_perm _ _ _ Hr Hperm). }
  rewrite Een. cbn [rows forget_waits puts set_pending firing pending]. clear Een Ev K1 E1 E2. clearbody v l.
  assert (Hl : bool_decide (k ∈ l.*1) = negb (is_matched v) && bool_decide (is_Some (firing (rows db) !! k))).
  { destruct (is_matched v) eqn:Em; cbn [negb andb]; [apply bool_decide_eq_false_2; by intros [_ ?]%Hin|].
    apply bool_decide_ext. rewrite Hin. destruct v; cbn in Em, F1; try done; rewrite F1; by split; [intros [? _]|]. }
  rewrite Hl in H2. split.
  - destruct v; cbn [is_matched negb andb fires] in *; try (destruct (firing (rows db) !! k); cbn in H2; destruct H2 as [-> _]; done).
  - rewrite <- P1. clear F1 Hin. destruct (existsb (enabled_rule (fk_RuleID k)) rules) eqn:Ee; cbn [andb].
    + transitivity (pending (rows db2) !! k).
      * destruct (pending (rows db2) !! k) as [t|] eqn:Et.
        -- apply map_lookup_filter_Some. done.
        -- apply map_lookup_filter_None. by left.
      * destruct (negb (is_matched v) && _); cbn [negb]; apply H2.
    + apply map_lookup_filter_None. right. intros t _ E. cbn in E. congruence.
Qed.
End pass.
