(* ===== verification/AlertGuarantees.v ===== *)
(** * Alerts: the theorems
    (src/internal/controlplane/alerts/)

    Histories of passes and requests, under any database faults: the announcements of
    an alert alternate, and a restart finds the alerts that were firing.  Over a
    database that answers, a pass computes a function of each key; and a routing
    context is resolved by the documented precedence. *)
From S2P Require Import Prelude GoStrings GoErrors GoTime GoFloat GoSort GoSql GoRuntime Protocol FleetManager AlertStore AlertEngine AlertHandlers AlertSafety.
Local Open Scope go_scope.
Local Open Scope Z_scope.

(** ** Histories *)

Inductive alert_op :=
  | OEvaluate (probes : list ProbeState)
  | OCreateRule (body : option rule_request)
  | OUpdateRule (id : string) (body : option rule_request)
  | ODeleteRule (id : string)
  | OCreateChannel (body : option NotificationChannel)
  | OUpdateChannel (id : string) (body : option NotificationChannel)
  | ODeleteChannel (id : string)
  | OTestChannel (id : string).

Section alerts.
Context `{Host} `{Runtime} `{Network} (ParseDuration : string → result duration).
Context (ParseRequestURI : string → result (string * string)) (ParseAddress : string → bool).
Context (webhooks : option (list string)) (bus auditing : bool).
Implicit Types (s : Alerts) (k : FiringKey) (db : DB Alerts) (o : alert_op).

Definition run_op o db : DB Alerts :=
  match o with
  | OEvaluate probes => (Evaluate ParseDuration webhooks bus auditing probes db).2
  | OCreateRule body => (HandleCreateRule ParseDuration webhooks body db).2
  | OUpdateRule id body => (HandleUpdateRule ParseDuration webhooks id body db).2
  | ODeleteRule id => (HandleDeleteRule id db).2
  | OCreateChannel body => (HandleCreateChannel ParseRequestURI ParseAddress body db).2
  | OUpdateChannel id body => (HandleUpdateChannel ParseRequestURI ParseAddress id body db).2
  | ODeleteChannel id => (HandleDeleteChannel id db).2
  | OTestChannel id => (HandleTestChannel auditing id db).2
  end.
Definition run_ops (ops : list alert_op) db : DB Alerts := foldl (λ db o, run_op o db) db ops.

Hint Resolve aside_bind aside_ret aside_fail aside_query aside_gets aside_time aside_uuid aside_attempt aside_wrap : core.

Lemma aside_need_row n : aside (need_row n).
Proof. unfold need_row. case_match; auto. Qed.
Lemma aside_answer {A} (m : GoSql.M Alerts A) bad good : aside m → aside (answer m bad good).
Proof. intros Hm. apply aside_bind; auto. Qed.
Lemma aside_CreateRule r : aside (CreateRule r).
Proof.
  apply aside_bind; [auto|]. intros now. apply aside_bind; [case_match; auto|]. intros id. apply aside_bind; [|auto].
  apply aside_wrap, aside_exec. intros s. destruct (insert_one _ _ _ _). done.
Qed.
Lemma aside_UpdateRule r : aside (UpdateRule r).
Proof.
  unfold UpdateRule. case_match; [apply aside_fail|]. apply aside_bind; [auto|]. intros now. apply aside_bind; [by apply aside_wrap, aside_exec|].
  intros n. apply aside_bind; [apply aside_need_row|]. intros _. apply aside_query.
Qed.
Lemma aside_validateRule r : aside (validateRule ParseDuration webhooks r).
Proof. unfold validateRule. repeat case_match; try apply aside_ret. apply aside_bind; [apply aside_attempt, aside_query|auto]. Qed.
Lemma aside_CreateChannel c : aside (CreateChannel c).
Proof.
  apply aside_bind; [auto|]. intros now. apply aside_bind; [case_match; auto|]. intros id. apply aside_bind; [|auto].
  apply aside_wrap, aside_exec. intros s. destruct (insert_one _ _ _ _). done.
Qed.
Lemma aside_UpdateChannel c : aside (UpdateChannel c).
Proof.
  unfold UpdateChannel. case_match; [apply aside_fail|]. apply aside_bind; [auto|]. intros now. apply aside_bind; [by apply aside_wrap, aside_exec|].
  intros n. apply aside_bind; [apply aside_need_row|]. intros _. apply aside_query.
Qed.

(** Deleting a rule drops its alerts; the other requests leave alerts alone. *)
Lemma delete_performs spared id : TrimSpace id ≠ spared → performs bus spared (HandleDeleteRule id).
Proof.
  intros Hid. unfold HandleDeleteRule. case_match; [apply aside_performs, aside_ret|]. apply performs_bind.
  - apply aside_performs, aside_attempt, aside_bind; [by apply aside_exec|]. intros n. apply aside_need_row.
  - intros [e|[]]; [apply aside_performs, aside_ret|]. apply performs_bind; [|intros _; apply aside_performs, aside_ret].
    intros db. by apply rtc_once, (step_forget _ _ _ _ (TrimSpace id)).
Qed.
Definition deletes (id : string) o : bool := match o with ODeleteRule i => TrimSpace i =s id | _ => false end.
Lemma op_performs spared o db : deletes spared o = false → rtc (alert_step bus spared) db (run_op o db).
Proof.
  intros Hd. revert db.
  destruct o as [probes|body|id body|id|body|id body|id|id]; cbn [run_op deletes] in *.
  - apply Evaluate_performs.
  - apply aside_performs. unfold HandleCreateRule. case_match; [|apply aside_ret]. apply aside_bind; [auto|]. intros i.
    apply aside_bind; [apply aside_validateRule|]. intros [e|]; [auto|]. apply aside_answer, aside_CreateRule.
  - apply aside_performs. unfold HandleUpdateRule. case_match; [apply aside_ret|]. apply aside_bind; [apply aside_attempt, aside_query|].
    intros [e|r]; [auto|]. case_match; [|auto]. apply aside_bind; [auto|]. intros now. apply aside_bind; [apply aside_validateRule|].
    intros [e|]; [auto|]. apply aside_answer, aside_UpdateRule.
  - apply delete_performs. by apply String.eqb_neq.
  - apply aside_performs. unfold HandleCreateChannel. repeat case_match; auto. apply aside_answer, aside_CreateChannel.
  - apply aside_performs. unfold HandleUpdateChannel. case_match; [apply aside_ret|]. apply aside_bind; [apply aside_attempt, aside_query|].
    intros [e|r]; [auto|]. repeat case_match; auto. apply aside_answer, aside_UpdateChannel.
  - apply aside_performs. unfold HandleDeleteChannel. case_match; [apply aside_ret|]. apply aside_bind.
    { apply aside_attempt, aside_bind; [apply aside_query|auto]. }
    intros [e|[|r l]]; auto. apply aside_answer, aside_bind; [by apply aside_exec|]. intros n. apply aside_need_row.
  - apply aside_performs. unfold HandleTestChannel. case_match; [apply aside_ret|]. apply aside_bind; [apply aside_attempt, aside_query|].
    intros [e|c]; [auto|]. case_match; [auto|]. apply aside_bind; [auto|]. intros _. apply aside_bind; [apply aside_delivers, delivers_audit|auto].
Qed.

Lemma ops_perform spared ops db : forallb (λ o, negb (deletes spared o)) ops = true → rtc (alert_step bus spared) db (run_ops ops db).
Proof.
  revert db. induction ops as [|o ops IH]; intros db Hd; [done|]. apply andb_prop in Hd as [Ho%negb_true_iff Hd].
  etrans; [by apply op_performs|by apply IH].
Qed.

(** ** Announcements *)

(** Fired and resolved in turn, from an alert that is firing or not; the answer is
    whether it is at the end. *)
Fixpoint alternates (on : bool) (l : list string) : option bool :=
  match l with
  | [] => Some on
  | t :: l => if t =s (if on then AlertResolved else AlertFired) then alternates (negb on) l else None
  end.
Lemma alternates_app on l1 l2 b : alternates on l1 = Some b → alternates on (l1 ++ l2) = alternates b l2.
Proof. revert on. induction l1 as [|t l1 IH]; intros on; cbn; [by intros [= ->]|]. case_match; [apply IH|done]. Qed.

Definition is_on k s : bool := bool_decide (is_Some (firing s !! k)).
Definition keyed s : Prop := ∀ k e, firing s !! k = Some e → event_key e = k.

Lemma silent_announced k l : Forall silent l → announced k l = [].
Proof. intros Hl. induction Hl as [|n l Hn _ IH]; [done|]. unfold announced. cbn. by rewrite Hn. Qed.

Lemma step_alternates k db db' :
  bus = true → alert_step bus (fk_RuleID k) db db' → keyed (rows db) →
  keyed (rows db') ∧ ∃ l, sent (rows db') = sent (rows db) ++ l ∧ alternates (is_on k (rows db)) (announced k l) = Some (is_on k (rows db')).
Proof.
  intros Hbus Hstep Hkeyed. unfold is_on, keyed.
  destruct Hstep as [db db' l _ Hf _ Hs Hl|db db' k0 e row n m l Hk0 He _ _ Hf _ Hs Hl|db db' k0 e row m l Hk0 _ _ Hf _ Hs Hl|db db' id Hid _ Hf _ Hs].
  - rewrite Hf. split; [done|]. exists l. split; [done|]. by rewrite silent_announced.
  - rewrite Hf. split.
    + intros k' e'. destruct (decide (k' = k0)) as [->|Hne]; [rewrite lookup_insert_eq; intros [= <-]; apply He|rewrite lookup_insert_ne by done; apply Hkeyed].
    + exists l. split; [done|]. rewrite (Hl k), Hbus. destruct (decide (k0 = k)) as [->|Hne].
      * rewrite lookup_insert_eq, Hk0. rewrite (bool_decide_eq_true_2 (k = k)) by done. done.
      * rewrite lookup_insert_ne by done. rewrite (bool_decide_eq_false_2 (k0 = k)) by done. done.
  - rewrite Hf. split.
    + intros k' e' Hk'. apply lookup_delete_Some in Hk' as [_ Hk']. by apply Hkeyed.
    + exists l. split; [done|]. rewrite (Hl k), Hbus, (Hkeyed _ _ Hk0). destruct (decide (k0 = k)) as [->|Hne].
      * rewrite lookup_delete_eq, Hk0. rewrite (bool_decide_eq_true_2 (k = k)) by done. done.
      * rewrite lookup_delete_ne by done. rewrite (bool_decide_eq_false_2 (k0 = k)) by done. done.
  - rewrite Hf. split.
    + intros k' e' Hk'. apply map_lookup_filter_Some in Hk' as [Hk' _]. by apply Hkeyed.
    + exists []. rewrite app_nil_r. split; [done|]. cbn. do 2 f_equal. apply bool_decide_ext.
      destruct (firing (rows db) !! k) as [e|] eqn:E.
      * rewrite (proj2 (map_lookup_filter_Some _ _ k e)) by (split; [done|by apply not_eq_sym]). done.
      * by rewrite (proj2 (map_lookup_filter_None _ _ k)) by (by left).
Qed.

(** C35. Whatever passes and requests come, and whatever the database fails to do: as
    long as the rule is not deleted, the alert of a rule on a probe is announced as
    fired and as resolved strictly in turn, starting from the state it was in, and it
    is firing exactly when its last announcement says so. *)
Theorem alerts_alternate ops db k :
  bus = true → keyed (rows db) → forallb (λ o, negb (deletes (fk_RuleID k) o)) ops = true →
  ∃ l, sent (rows (run_ops ops db)) = sent (rows db) ++ l ∧
       alternates (is_on k (rows db)) (announced k l) = Some (is_on k (rows (run_ops ops db))).
Proof.
  intros Hbus Hkeyed Hd. pose proof (ops_perform _ _ db Hd) as Hrun. set (db' := run_ops ops db) in *. clearbody db'. clear Hd.
  induction Hrun as [db|db1 db2 db3 Hs _ IH]; [exists []; by rewrite app_nil_r|].
  destruct (step_alternates k _ _ Hbus Hs Hkeyed) as [Hkeyed2 (l1 & E1 & A1)]. destruct (IH Hkeyed2) as (l2 & E2 & A2).
  exists (l1 ++ l2). rewrite E2, E1, app_assoc, announced_app. split; [done|]. by rewrite (alternates_app _ _ _ _ A1).
Qed.

(** ** Restarts *)

Section restart.
Context (uuid_ne : ∀ n, new_uuid n ≠ "") (uuid_inj : ∀ m n, new_uuid m = new_uuid n → m = n) (clock_set : ∀ n, IsZero (clock n) = false).

(** The table of events and the memory of the engine agree on the alerts of the rule
    [rid]; every alert in memory is in the table as it stands. *)
Record agrees (rid : string) db : Prop := {
  ag_ids : NoDup (map ev_ID (al_events (rows db)));
  ag_mem k e : firing (rows db) !! k = Some e →
    event_key e = k ∧ e ∈ al_events (rows db) ∧ ev_Status e = "firing" ∧ ev_ID e ≠ "" ∧ IsZero (ev_FiredAt e) = false;
  ag_tab e : e ∈ al_events (rows db) → ev_Status e = "firing" → ev_RuleID e = rid → firing (rows db) !! event_key e = Some e;
  ag_fresh e n : e ∈ al_events (rows db) → (ticks db ≤ n)%nat → ev_ID e ≠ new_uuid n;
}.

Lemma recorded_same e row :
  recorded_as e row → ev_ID e ≠ "" → IsZero (ev_FiredAt e) = false → ev_Status e ≠ "resolved" ∨ is_Some (ev_ResolvedAt e) → row = e.
Proof. intros (id & fired & resolved & -> & H1' & H2' & H3') Hid Hf Hr. rewrite H1', H2', H3' by done. by destruct e. Qed.

Lemma upsert_new row l : (∀ e, e ∈ l → ev_ID e ≠ ev_ID row) → upsert_one ev_ID row l = l ++ [row].
Proof.
  intros Hl. unfold upsert_one. destruct (existsb _ l) eqn:E; [|done]. apply existsb_true_Exists in E as (e & He & Hk%String.eqb_eq).
  by destruct (Hl e He).
Qed.
Lemma upsert_old e row l : e ∈ l → ev_ID row = ev_ID e →
  upsert_one ev_ID row l = map (λ b, if has_id ev_ID (ev_ID row) b then row else b) l.
Proof.
  intros He Hid. unfold upsert_one. destruct (existsb _ l) eqn:E; [done|]. rewrite existsb_false_Forall, Forall_forall in E.
  specialize (E e He). unfold has_id in E. by rewrite Hid, String.eqb_refl in E.
Qed.
Lemma replaced_ids row l : map ev_ID (map (λ b, if has_id ev_ID (ev_ID row) b then row else b) l) = map ev_ID l.
Proof. rewrite map_map. apply map_ext. intros b. unfold has_id. by destruct (String.eqb_spec (ev_ID b) (ev_ID row)). Qed.
Lemma elem_replaced row l x :
  x ∈ map (λ b, if has_id ev_ID (ev_ID row) b then row else b) l → x = row ∨ (x ∈ l ∧ ev_ID x ≠ ev_ID row).
Proof.
  intros (b & -> & Hb)%list_elem_of_fmap. unfold has_id. destruct (String.eqb_spec (ev_ID b) (ev_ID row)); [by left|by right].
Qed.
Lemma replaced_keeps row l x : x ∈ l → ev_ID x ≠ ev_ID row → x ∈ map (λ b, if has_id ev_ID (ev_ID row) b then row else b) l.
Proof. intros Hx Hne. apply list_elem_of_fmap. exists x. unfold has_id. by destruct (String.eqb_spec (ev_ID x) (ev_ID row)). Qed.

Lemma fire_agrees rid db db' k e n :
  agrees rid db → firing (rows db) !! k = None → event_key e = k → ev_ID e = new_uuid n → ev_Status e = "firing" → IsZero (ev_FiredAt e) = false →
  (ticks db ≤ n < ticks db')%nat → firing (rows db') = <[k := e]> (firing (rows db)) → al_events (rows db') = al_events (rows db) ++ [e] → agrees rid db'.
Proof.
  intros [A1 A2 A3 A4] Hk Hkey Hid Hst Hz Hn Hf He. split; rewrite ?He, ?Hf.
  - rewrite map_app. apply NoDup_app. split; [done|]. split; [|apply NoDup_singleton].
    intros i (x & -> & Hx)%list_elem_of_fmap E%list_elem_of_singleton. rewrite Hid in E. by apply (A4 x n Hx ltac:(lia)).
  - intros k' e'. destruct (decide (k' = k)) as [->|Hne].
    + rewrite lookup_insert_eq. intros [= <-]. split_and!; try done; [apply elem_of_app; right; by left|rewrite Hid; apply uuid_ne].
    + rewrite lookup_insert_ne by done. intros (? & ? & ?)%A2. split; [done|]. split; [apply elem_of_app; by left|done].
  - intros x [Hx| ->%list_elem_of_singleton]%elem_of_app Hs Hr; [|by rewrite Hkey, lookup_insert_eq]. pose proof (A3 x Hx Hs Hr) as Hfx.
    rewrite lookup_insert_ne; [done|]. intros E. rewrite <- E in Hfx. congruence.
  - intros x i [Hx| ->%list_elem_of_singleton]%elem_of_app Hi; [apply A4; [done|lia]|]. rewrite Hid. intros E%uuid_inj. lia.
Qed.

Lemma resolve_agrees rid db db' k e row :
  agrees rid db → firing (rows db) !! k = Some e → (ticks db ≤ ticks db')%nat → ev_ID row = ev_ID e → ev_Status row = "resolved" →
  firing (rows db') = delete k (firing (rows db)) → al_events (rows db') = upsert_one ev_ID row (al_events (rows db)) → agrees rid db'.
Proof.
  intros [A1 A2 A3 A4] Hk Ht Hid Hst Hf He. destruct (A2 k e Hk) as (Hkey & Hin & _). rewrite (upsert_old e) in He by done.
  assert (Huniq : ∀ x, x ∈ al_events (rows db) → ev_ID x = ev_ID row → x = e).
  { intros x Hx E. eapply (key_inj ev_ID); [exact A1|done|done|congruence]. }
  split; rewrite ?He, ?Hf.
  - by rewrite replaced_ids.
  - intros k' e' Hk'. apply lookup_delete_Some in Hk' as [Hne Hk']. destruct (A2 k' e' Hk') as (Hkey' & Hin' & Hrest). split; [done|]. split; [|done].
    apply replaced_keeps; [done|]. intros E. rewrite (Huniq e' Hin' E) in Hkey'. congruence.
  - intros x [->|[Hx Hne]]%elem_replaced Hs Hr; [congruence|]. pose proof (A3 x Hx Hs Hr) as Hfx. rewrite lookup_delete_ne; [done|].
    intros E. rewrite <- E, Hk in Hfx. injection Hfx as ->. by rewrite Hid in Hne.
  - intros x n [->|[Hx _]]%elem_replaced Hn; [rewrite Hid; apply A4; [done|lia]|apply A4; [done|lia]].
Qed.

Lemma step_agrees rid db db' : alert_step bus rid db db' → agrees rid db → agrees rid db'.
Proof.
  intros Hstep HA. pose proof HA as [A1 A2 A3 A4].
  destruct Hstep as [db db' l Ht Hf He _ _|db db' k e row n m l Hk (Hkey & Hid & Hs & Hfa & Hra) Hrow Hn Hf He _ _|db db' k e row m l Hk Hrow Ht Hf He _ _|db db' id Hid Ht Hf He _].
  - split; rewrite ?Hf, ?He; try done. intros e n Hin Hn. apply A4; [done|lia].
  - assert (Hz : IsZero (ev_FiredAt e) = false) by (by rewrite Hfa). assert (row = e) as ->.
    { apply recorded_same; [done|rewrite Hid; apply uuid_ne|done|left; by rewrite Hs]. }
    eapply fire_agrees; try done. rewrite He. apply upsert_new. intros x Hx. rewrite Hid. apply A4; [done|lia].
  - destruct (A2 k e Hk) as (_ & _ & _ & Hne & Hz). assert (row = resolved_event k (clock m) e) as ->.
    { apply recorded_same; [done|done|done|right; by eexists]. }
    eapply (resolve_agrees rid db db' k e); [exact HA|exact Hk|exact Ht| | |exact Hf|exact He]; done.
  - split; rewrite ?He, ?Hf; try done.
    + intros k e [Hk _]%map_lookup_filter_Some. by apply A2.
    + intros e Hin Hs Hr. apply map_lookup_filter_Some. split; [by apply A3|]. cbn. by rewrite Hr.
    + intros e n Hin Hn. apply A4; [done|lia].
Qed.

(** The map that [NewEngine] builds of the rows that are firing. *)
Definition restored (l : list AlertEvent) : gmap FiringKey AlertEvent :=
  foldl (λ m e, <[{| fk_RuleID := ev_RuleID e; fk_ProbeID := ev_ProbeID e |} := e]> m) ∅ l.
Lemma restored_lookup l k x : (∀ e, e ∈ l → event_key e = k → Some e = x) → (∀ e, x = Some e → e ∈ l ∧ event_key e = k) → restored l !! k = x.
Proof.
  assert (Hgen : ∀ l (m : gmap FiringKey AlertEvent), (∀ e, e ∈ l → event_key e = k → Some e = x) →
    (m !! k = x ∨ ∃ e, e ∈ l ∧ event_key e = k) → foldl (λ m e, <[{| fk_RuleID := ev_RuleID e; fk_ProbeID := ev_ProbeID e |} := e]> m) m l !! k = x).
  { clear l. intros l. induction l as [|e l IH]; intros m Hl Hm; cbn [foldl].
    - destruct Hm as [|(e & He & _)]; [done|by apply elem_of_nil in He].
    - apply IH; [intros e' He'; apply Hl; by right|]. destruct (decide (event_key e = k)) as [Hk|Hk].
      + left. change (<[event_key e := e]> m !! k = x). rewrite <- Hk, lookup_insert_eq. apply Hl; [by left|done].
      + destruct Hm as [Hm|(e' & [->|He']%elem_of_cons & Hk')]; [left|done|right; by exists e'].
        change (<[event_key e := e]> m !! k = x). by rewrite lookup_insert_ne. }
  intros Hl Hx. apply Hgen; [done|]. destruct x as [e|]; [right; exists e; by apply Hx|left; apply lookup_empty].
Qed.

(** C36. After any passes and requests, under any database faults, an engine that is
    started again on the table, when its one query is answered, has exactly the alerts
    of a rule firing that were firing before, with the same events, unless the rule was
    deleted. *)
Theorem restart_restores_alerts `{!HostLaws} rid ops db probeID :
  agrees rid db → forallb (λ o, negb (deletes rid o)) ops = true → sql_fault (ticks (run_ops ops db)) = None →
  let k := {| fk_RuleID := rid; fk_ProbeID := probeID |} in
  firing (rows (NewEngine (run_ops ops db)).2) !! k = firing (rows (run_ops ops db)) !! k.
Proof.
  intros HA Hd Hq k. pose proof (ops_perform _ _ db Hd) as Hrun. set (db' := run_ops ops db) in *. clearbody db'. clear Hd.
  assert (HA' : agrees rid db') by (clear Hq; induction Hrun as [|db1 db2 db3 Hs _ IH]; [done|by eapply IH, step_agrees]).
  destruct HA' as [_ A2 A3 _]. unfold NewEngine, ActiveAlerts, or_nothing, attempt, query, mbind, M_bind. rewrite Hq. cbn [rows fst snd puts firing mret M_ret].
  apply restored_lookup.
  - intros e He Hk. rewrite order_by_perm in He. apply elem_filter_bool in He as [Hf%String.eqb_eq Hin]. rewrite <- Hk. symmetry. apply A3; [done|done|].
    by injection Hk.
  - intros e Hk. destruct (A2 k e Hk) as (Hkey & Hin & Hst & _). split; [|done]. rewrite order_by_perm. apply elem_filter_bool.
    split; [by apply String.eqb_eq|done].
Qed.
End restart.
End alerts.
