(* ===== verification/AlertExamples.v ===== *)
(** * Alerts at work

    A disk rule and a probe that is full: the theorems on alerts applied to it, and
    behaviours that the documentation does not suggest. *)
From S2P Require Import Prelude GoStrings GoErrors GoTime GoFloat GoSort GoSql GoRuntime Protocol FleetManager AlertStore AlertEngine AlertHandlers AlertSafety.
From S2P Require Import AlertPass AlertGuarantees AlertRouting RoutingSafety.
Import ExampleHost ExampleRuntime.
Local Open Scope go_scope.
Local Open Scope Z_scope.

Module AlertRun.
Definition parse (s : string) : result duration := if s =s "1s" then inr Second else inl (ErrorString "time: invalid duration").
Definition uri (_ : string) : result (string * string) := inr ("https", "hooks.example.com")%string.
Definition address (_ : string) : bool := true.

(** The other side accepts what triggers an incident and nothing else. *)
#[export] Instance network : Network :=
  {| NewRequest := λ _, inr tt;
     Do := λ _ body, match body with PagerDutyBody _ action _ _ _ _ _ _ _ _ => if action =s "trigger" then inr 202 else inr 400 | SlackBody _ _ => inr 200 end;
     smtp := λ _, None; offers_tls := λ _, true |}.

Definition condition (dur : string) (tags : list string) : AlertCondition :=
  {| cd_Type := "disk_threshold"; cd_Threshold := float64_of_int 80; cd_Duration := dur; cd_Tags := tags; cd_Severity := "critical" |}.
Definition disk_rule (dur : string) (tags : list string) (enabled : bool) (actions : list AlertAction) : AlertRule :=
  {| ru_ID := "r-1"; ru_Name := "disk"; ru_Description := ""; ru_Enabled := enabled; ru_Condition := condition dur tags; ru_Actions := actions;
     ru_CreatedAt := 0; ru_UpdatedAt := 0 |}.
Definition probe (used : Z) (tags : list string) : ProbeState :=
  {| pb_ID := "p-1"; pb_Hostname := "web"; pb_OS := "linux"; pb_Arch := "amd64"; pb_Status := "online"; pb_Type := ProbeTypeAgent; pb_PolicyLevel := "observe";
     pb_APIKey := ""; pb_Registered := 0; pb_LastSeen := 0; pb_Inventory := None; pb_Labels := ∅; pb_Tags := tags; pb_Health := None; pb_TenantID := "";
     pb_Remote := None; pb_RemoteCredentials := None;
     pb_lastHB := Some {| hb_ProbeID := "p-1"; hb_Uptime := 60; hb_Load := (f_zero, f_zero, f_zero); hb_MemUsed := 1; hb_MemTotal := 4; hb_DiskUsed := used;
                          hb_DiskTotal := 100 |} |}.
Definition full : list ProbeState := [probe 95 []].
Definition start (rule : AlertRule) (channels : list NotificationChannel) : DB Alerts :=
  {| rows := {| al_rules := [rule]; al_events := []; al_channels := channels; firing := ∅; pending := ∅; sent := [] |}; ticks := 0 |}.
Definition key : FiringKey := {| fk_RuleID := "r-1"; fk_ProbeID := "p-1" |}.
Definition run (ops : list alert_op) (db : DB Alerts) : DB Alerts := run_ops parse uri address None true true ops db.
Definition plain : DB Alerts := start (disk_rule "" [] true []) [].

(** Full, full, and emptied. *)
Definition history : list alert_op := [OEvaluate full; OEvaluate full; OEvaluate [probe 10 []]].

Lemma alerts_alternate_witness :
  announced key (sent (rows (run history plain))) = [AlertFired; AlertResolved] ∧
  ∃ l, sent (rows (run history plain)) = [] ++ l ∧ alternates false (announced key l) = Some false.
Proof.
  split; [vm_compute; reflexivity|].
  destruct (alerts_alternate parse uri address None true true history plain key) as (l & El & Ha); [done|by intros k e He|done|].
  exists l. split; [exact El|]. etrans; [exact Ha|]. vm_compute. reflexivity.
Defined.

Lemma uuid_not_empty n : @new_uuid host n ≠ "".
Proof. discriminate. Qed.
Lemma clock_not_zero n : IsZero (@clock host n) = false.
Proof. apply Z.eqb_neq. cbn. unfold zero_time, Second. lia. Qed.
Lemma uuid_differs m n : @new_uuid host m = @new_uuid host n → m = n.
Proof. intros E. assert (pretty m = pretty n) as E' by (by injection E). by apply (inj pretty) in E'. Qed.
Lemma empty_agrees rid : agrees rid plain.
Proof.
  split; cbn; [constructor|by intros k e He|intros e He; by apply elem_of_nil in He|intros e n He; by apply elem_of_nil in He].
Qed.

Lemma restart_restores_alerts_witness :
  is_on key (rows (run [OEvaluate full] plain)) = true ∧
  firing (rows (NewEngine (run [OEvaluate full] plain)).2) !! key = firing (rows (run [OEvaluate full] plain)) !! key.
Proof.
  split; [vm_compute; reflexivity|].
  apply (restart_restores_alerts parse uri address None true true uuid_not_empty uuid_differs clock_not_zero "r-1" [OEvaluate full] plain "p-1"); [apply empty_agrees|done|done].
Defined.

Lemma pass_decides_witness :
  ∃ db' id, Evaluate parse None true true full plain = (inr tt, db') ∧
    firing (rows db') !! key = Some {| ev_ID := id; ev_RuleID := "r-1"; ev_RuleName := "disk"; ev_ProbeID := "p-1"; ev_Status := "firing";
                                       ev_Message := "Probe p-1 disk usage 95.0% exceeds 80.0%"; ev_FiredAt := Second; ev_ResolvedAt := None |}.
Proof.
  destruct (pass_decides parse None true true host_answers full plain) as (db' & E & Hk); [apply NoDup_singleton|apply NoDup_singleton|].
  pose proof (proj1 (Hk key)) as Hf. cbn zeta in Hf.
  destruct Hf as [id Hid]. exists db', id. split; [exact E|]. etrans; [exact Hid|]. vm_compute. reflexivity.
Defined.

(** *** Behaviours that the documentation does not suggest *)

(** A rule with a duration: while the condition holds at every pass, its alert is
    fired, resolved at the very next pass, and fired again. *)
Theorem sustained_alert_flaps :
  announced key (sent (rows (run (repeat (OEvaluate full) 8) (start (disk_rule "1s" [] true []) [])))) =
    [AlertFired; AlertResolved; AlertFired; AlertResolved; AlertFired].
Proof. vm_compute. reflexivity. Qed.

(** A key that is not tested for a while keeps waiting: an alert that should persist
    fires at once when the probe has its tag back. *)
Theorem untested_wait_counts :
  let ops := [OEvaluate [probe 95 ["prod"%string]]; OEvaluate [probe 10 []]; OEvaluate [probe 95 ["prod"%string]]] in
  announced key (sent (rows (run ops (start (disk_rule "1s" ["prod"%string] true []) [])))) = [AlertFired].
Proof. vm_compute. reflexivity. Qed.

(** The alert of a deleted rule stays active in the table, and no later pass ends
    it. *)
Theorem deleted_rule_stays_active :
  let db := run [OEvaluate full; ODeleteRule "r-1"; OEvaluate [probe 10 []]] plain in
  match (HandleActiveAlerts db).1 with inr (AActive [e]) => ev_RuleID e = "r-1" | _ => False end ∧ firing (rows db) = ∅.
Proof. vm_compute. done. Qed.

(** The end of an incident is posted to PagerDuty as a new trigger. *)
Definition pager : NotificationChannel :=
  {| ch_ID := "c-1"; ch_Name := "oncall"; ch_Type := ChannelTypePagerDuty; ch_Enabled := true; ch_Slack := None; ch_Email := None;
     ch_PagerDuty := Some {| pd_IntegrationKey := "key"; pd_EventsAPIURL := "" |}; ch_CreatedAt := 0; ch_UpdatedAt := 0 |}.
Definition to_pager : AlertAction := {| ac_Type := "channel"; ac_WebhookID := ""; ac_ChannelID := "c-1" |}.
Definition is_send (n : notification) : option notificationMessage := match n with NSend _ msg => Some msg | _ => None end.
Theorem resolution_triggers :
  let messages := omap is_send (sent (rows (run history (start (disk_rule "" [] true [to_pager]) [pager])))) in
  map nm_EventType messages = [AlertFired; AlertResolved] ∧ map (sendToChannel pager) messages = [None; None].
Proof. vm_compute. done. Qed.

(** When the rule is disabled before its alert ends, the channel that heard of the
    alert does not hear of its end. *)
Theorem disabled_rule_ends_silently :
  let disable := OUpdateRule "r-1" (Some {| rq_Name := "disk"; rq_Description := ""; rq_Enabled := false; rq_Condition := condition "" []; rq_Actions := [to_pager] |}) in
  let l := sent (rows (run [OEvaluate full; disable; OEvaluate full] (start (disk_rule "" [] true [to_pager]) [pager]))) in
  announced key l = [AlertFired; AlertResolved] ∧ map nm_EventType (omap is_send l) = [AlertFired].
Proof. vm_compute. done. Qed.

(** A rule may name a channel that does not exist, as long as there is none. *)
Theorem unknown_channel_accepted :
  (validateRule parse None (disk_rule "" [] true [to_pager]) plain).1 = inr None ∧
  (validateRule parse None (disk_rule "" [] true [to_pager]) (start (disk_rule "" [] true []) [with_config "other" "slack" None None None (stamp_channel "c-2" 0 0 pager)])).1 =
    inr (Some (ErrorString "unknown channel id: c-1")).
Proof. vm_compute. done. Qed.

(** The webhook an action names only decides whether the notifier is called; the call
    does not say which webhook. *)
Theorem webhook_action_broadcasts :
  let evt := {| ev_ID := "e"; ev_RuleID := "r-1"; ev_RuleName := "disk"; ev_ProbeID := "p-1"; ev_Status := "firing"; ev_Message := "full"; ev_FiredAt := 0;
                ev_ResolvedAt := None |} in
  let hook := {| ac_Type := "webhook"; ac_WebhookID := "a"; ac_ChannelID := "" |} in
  let all := deliver (Some ["a"; "b"]%string) false true (disk_rule "" [] true []) evt AlertFired plain in
  deliver (Some ["a"; "b"]%string) false true (disk_rule "" [] true [hook]) evt AlertFired plain = all.
Proof. vm_compute. reflexivity. Qed.
End AlertRun.

Module RoutingRun.
Definition policy (id : string) (priority : Z) (fallback : bool) (ms : list RoutingMatcher) : RoutingPolicy :=
  {| rp_ID := id; rp_Name := id; rp_Description := ""; rp_Priority := priority; rp_IsDefault := fallback; rp_Matchers := ms; rp_OwnerLabel := "team-" +:+ id;
     rp_OwnerContact := ""; rp_EscalationPolicyID := ""; rp_RunbookURL := ""; rp_CreatedAt := 0; rp_UpdatedAt := 0 |}.
Definition critical : RoutingMatcher := {| ma_Field := "severity"; ma_Op := ""; ma_Value := " Critical" |}.
Definition store : DB RoutingStore :=
  {| rows := {| rs_policies := [policy "fallback" 100 true []; policy "disk" 10 false [critical]; policy "other" 20 false [{| ma_Field := "tag"; ma_Op := "prefix"; ma_Value := "db" |}]];
                rs_escalations := [] |}; ticks := 0 |}.
Definition alert : RoutingContext :=
  {| rx_RuleID := "r-1"; rx_RuleName := "disk"; rx_ConditionType := "disk_threshold"; rx_Severity := "critical"; rx_Tags := ["web"%string]; rx_ProbeID := "p-1" |}.

(** The policy that matches wins over the fallback of a higher priority. *)
Lemma routing_precedence_witness :
  ∃ o db', Resolve alert store = (inr o, db') ∧ ro_PolicyID o = "disk" ∧ rows db' = rows store.
Proof.
  destruct (routing_precedence host_answers alert store) as (o & db' & E & Hr & _). exists o, db'. split; [exact E|]. split; [|exact Hr].
  vm_compute in E. by injection E as <- _.
Defined.
End RoutingRun.
