(* ===== verification/JobHandlers.v ===== *)
(** * The REST endpoints of jobs
    (src/internal/controlplane/jobs/handlers.go, their routes in server/routes.go)

    A handler runs beside the scheduler and the other handlers, so it is a program: a
    tree of calls and what follows each answer.  A call is a method of the store on
    one of its tables, a call of the scheduler (the programs of JobScheduler.v are part
    of the handlers that trigger and cancel), or the cancellation of a command.
    [execution] runs a program; before each call the others may do anything that
    [others] allows.  [time.Parse] for RFC 3339, [time.ParseDuration] and the cron
    parser are arguments; a body that does not decode is [None]. *)
From Stdlib Require Import SpecFloat.
From S2P Require Import Prelude GoStrings GoErrors GoTime GoFloat GoSort GoSql GoJson Protocol CommandStream AsyncTypes AsyncStore AsyncManager JobRetry JobStore JobScheduler Auth AuthMiddleware.
Local Open Scope go_scope.
Local Open Scope Z_scope.

(** ** Requests and replies *)

Record job_body := {
  jy_Name : string; jy_Command : string; jy_Schedule : string; jy_Target : Target; jy_RetryPolicy : option RetryPolicy; jy_Enabled : option bool;
  jy_ProbeID : string; jy_RequestID : string; jy_Args : list string; jy_Level : string;
}.

(** [jq_scope] is [WorkspaceScopeFromContext], "" for all workspaces. *)
Record job_request := { jq_id : string; jq_runId : string; jq_query : string → string; jq_scope : string; jq_body : option job_body }.

Record runSummary := { sm_Queued : Z; sm_Pending : Z; sm_Running : Z; sm_Success : Z; sm_Failed : Z; sm_Canceled : Z; sm_Denied : Z }.

Inductive job_reply :=
  | JError (status : Z) (code message : string)
  | JJob (status : Z) (j : Job)
  | JJobs (l : list Job)
  | JAsync (status : Z) (j : AsyncJob)
  | JAsyncs (l : list AsyncJob)
  | JNoContent
  | JDispatched (jobID : string)
  | JCancelRequested (jobID : string) (sum : CancelJobSummary)
  | JRun (jobID : string) (run : JobRun)
  | JRetryDispatched (jobID runID : string)
  | JRuns (jobID : option string) (runs : list JobRun) (sum : runSummary).

Record Handler := { h_scheduler : bool; h_asyncManager : option AsyncManager; h_asyncCanceler : bool; h_observer : bool }.

(** ** Programs *)

Inductive api (A : Type) : Type :=
  | ARet (a : A)
  | ASched (c : call) (k : answer c → api A)
  | AJobs {B : Set} (m : GoSql.M Tables B) (k : result B → api A)
  | AAsync {B : Set} (m : AsyncStore.M B) (k : result B → api A)
  | ACancel (requestID : string) (k : api A).
Arguments ARet {A} _.
Arguments ASched {A} _ _.
Arguments AJobs {A B} _ _.
Arguments AAsync {A B} _ _.
Arguments ACancel {A} _ _.

#[export] Instance api_ret : MRet api := λ A, ARet.
#[export] Instance api_bind : MBind api := λ A B f, fix bind p :=
  match p with
  | ARet a => f a
  | ASched c k => ASched c (λ x, bind (k x))
  | AJobs m k => AJobs m (λ x, bind (k x))
  | AAsync m k => AAsync m (λ x, bind (k x))
  | ACancel id k => ACancel id (bind k)
  end.

Definition on_store {B : Set} (m : GoSql.M Tables B) : api (result B) := AJobs m ARet.
Definition on_async {B : Set} (m : AsyncStore.M B) : api (result B) := AAsync m ARet.
Definition cancel_command (requestID : string) : api unit := ACancel requestID (ARet tt).
(** A method of the scheduler, called by the handler. *)
Fixpoint scheduler_call {A} (p : prog A) : api A :=
  match p with Ret a => ARet a | Do c k => ASched c (λ x, scheduler_call (k x)) end.

(** ** Pure parts *)

Definition isWorkspaceMismatch (e : go_error) : bool := errors_Is e ErrWorkspaceMismatch.
Definition isAsyncKindRequested (r : job_request) : bool := TrimSpace (ToLower (jq_query r "kind")) =s "async".

Definition count_run (sum : runSummary) (run : JobRun) : runSummary :=
  let bump s f := f sum + (if r_Status run =s s then 1 else 0) in
  {| sm_Queued := bump RunStatusQueued sm_Queued; sm_Pending := bump RunStatusPending sm_Pending; sm_Running := bump RunStatusRunning sm_Running;
     sm_Success := bump RunStatusSuccess sm_Success; sm_Failed := bump RunStatusFailed sm_Failed; sm_Canceled := bump RunStatusCanceled sm_Canceled;
     sm_Denied := bump RunStatusDenied sm_Denied |}.
Definition summarizeRuns (runs : list JobRun) : runSummary :=
  foldl count_run {| sm_Queued := 0; sm_Pending := 0; sm_Running := 0; sm_Success := 0; sm_Failed := 0; sm_Canceled := 0; sm_Denied := 0 |} runs.

(** The parameter [limit]: [Some 0] without one, [None] when it is not a positive number. *)
Definition query_limit (r : job_request) : option Z :=
  let raw := TrimSpace (jq_query r "limit") in
  if raw =s "" then Some 0 else match ParseInt raw with Some n => if n <=? 0 then None else Some n | None => None end.

Definition bad_limit : string := "limit must be a positive integer".

Section handlers.
Context `{Host} (ParseDuration : string → option duration) (cron_parse : string → result (time → time)) (parse_RFC3339 : string → option time)
  (json_Valid : string → bool) (json_Unmarshal : string → option value) (overflow : float64 → Z)
  (defaultRetryPolicy : RetryPolicy) (admissionRetryDelay : duration) (h : Handler).

(** The parameter [name] as an instant: [Some None] without one. *)
Definition query_time (name : string) (r : job_request) : option (option time) :=
  let raw := TrimSpace (jq_query r name) in
  if raw =s "" then Some None else match parse_RFC3339 raw with Some t => Some (Some t) | None => None end.

Definition run_statuses : list string :=
  [RunStatusQueued; RunStatusPending; RunStatusRunning; RunStatusSuccess; RunStatusFailed; RunStatusCanceled; RunStatusDenied].

Definition parseRunQuery (r : job_request) : string + RunQuery :=
  match query_limit r with
  | None => inl bad_limit
  | Some limit =>
      let status := TrimSpace (jq_query r "status") in
      if (status <>s "") && negb (existsb (String.eqb status) run_statuses)
      then inl "status must be one of: queued, pending, running, success, failed, canceled, denied"%string
      else match query_time "started_after" r with
      | None => inl "started_after must be RFC3339"%string
      | Some after =>
          match query_time "started_before" r with
          | None => inl "started_before must be RFC3339"%string
          | Some before =>
              if match after, before with Some a, Some b => After a b | _, _ => false end then inl "started_after must be <= started_before"%string
              else inr {| q_WorkspaceID := ""; q_JobID := ""; q_ProbeID := TrimSpace (jq_query r "probe_id"); q_Status := status;
                          q_StartedAfter := after; q_StartedBefore := before; q_Limit := limit |}
          end
      end
  end.
Definition within (q : RunQuery) (jobID workspaceID : string) : RunQuery :=
  {| q_WorkspaceID := workspaceID; q_JobID := jobID; q_ProbeID := q_ProbeID q; q_Status := q_Status q; q_StartedAfter := q_StartedAfter q;
     q_StartedBefore := q_StartedBefore q; q_Limit := q_Limit q |}.

Definition validateSchedule (schedule : string) : api (result bool) :=
  created ← scheduler_call (do Now);
  now ← scheduler_call (do Now);
  mret (isScheduleDue ParseDuration cron_parse schedule None created now).

(** ** Replies to errors *)

Definition err (status : Z) (code message : string) : api job_reply := mret (JError status code message).
Definition job_not_found : api job_reply := err 404 "not_found" "job not found".
Definition internal_error (e : go_error) : api job_reply := err 500 "internal_error" (Error e).
Definition missing_id : api job_reply := err 400 "invalid_request" "missing job id".
Definition missing_run_id : api job_reply := err 400 "invalid_request" "missing job id or run id".
Definition no_scheduler_reply : api job_reply := err 503 "service_unavailable" "jobs scheduler unavailable".
Definition no_async_reply : api job_reply := err 503 "service_unavailable" "async jobs unavailable".
Definition forbidden : api job_reply := err 403 "workspace_forbidden" "access to this resource is not permitted for your workspace".

(** What follows a lookup that checks the workspace. *)
Definition checked {A} (absent : api job_reply) (found : result A) (k : A → api job_reply) : api job_reply :=
  match found with
  | inr a => k a
  | inl e => if IsNotFound e then absent else if isWorkspaceMismatch e then forbidden else internal_error e
  end.
Definition with_job (r : job_request) (id : string) (k : Job → api job_reply) : api job_reply :=
  found ← on_store (GetJobCheckWorkspace id (jq_scope r));
  checked job_not_found found k.
Definition with_async_job (r : job_request) (id : string) (k : AsyncJob → api job_reply) : api job_reply :=
  found ← on_async (GetAsyncJobCheckWorkspace id (jq_scope r));
  checked job_not_found found k.

Definition api_event (type jobID probeID requestID : string) : LifecycleEvent :=
  {| le_Type := type; le_Timestamp := zero_time; le_Actor := "api"; le_JobID := jobID; le_RunID := ""; le_ExecutionID := ""; le_ProbeID := probeID;
     le_Attempt := 0; le_MaxAttempts := 0; le_RequestID := requestID; le_AdmissionDecision := ""; le_AdmissionReason := "";
     le_AdmissionRationale := NoRationale; le_DeferredUntil := None |}.
(** Without an observer the event is normalised for nobody. *)
Definition emitLifecycleEvent (e : LifecycleEvent) : api unit :=
  if h_observer h then scheduler_call (JobScheduler.emitLifecycleEvent e) else mret tt.

(** ** Handlers *)

Definition HandleListJobs (r : job_request) : api job_reply :=
  if isAsyncKindRequested r then
    match h_asyncManager h with
    | None => no_async_reply
    | Some _ =>
        match query_limit r with
        | None => err 400 "invalid_request" bad_limit
        | Some limit =>
            found ← on_async (if jq_scope r <>s "" then ListAsyncJobsByWorkspace (jq_scope r) limit else AsyncManager.ListJobs limit);
            match found with inl e => internal_error e | inr l => mret (JAsyncs l) end
        end
    end
  else
    found ← on_store (if jq_scope r <>s "" then JobStore.ListJobsByWorkspace (jq_scope r) else JobStore.ListJobs);
    match found with inl e => internal_error e | inr l => mret (JJobs l) end.

Definition new_async_job (r : job_request) (b : job_body) : AsyncJob :=
  {| j_ID := ""; j_WorkspaceID := TrimSpace (jq_scope r); j_ProbeID := TrimSpace (jy_ProbeID b); j_RequestID := TrimSpace (jy_RequestID b);
     j_Command := TrimSpace (jy_Command b); j_Args := jy_Args b; j_Level := TrimSpace (jy_Level b); j_State := ""; j_StatusReason := "";
     j_ApprovalID := ""; j_ExitCode := None; j_Output := ""; j_CreatedAt := zero_time; j_UpdatedAt := zero_time; j_StartedAt := None;
     j_FinishedAt := None; j_ExpiresAt := None; j_ApprovedBy := ""; j_RejectedBy := ""; j_RejectionReason := ""; j_ApprovalDeadline := None |}.
Definition create_async (r : job_request) (b : job_body) : api job_reply :=
  match h_asyncManager h with
  | None => no_async_reply
  | Some m =>
      created ← on_async (AsyncManager.CreateJob m (new_async_job r b));
      match created with
      | inl e => if IsAsyncQueueSaturated e then err 429 "queue_saturated" (Error e) else err 400 "invalid_job" (Error e)
      | inr j => _ ← emitLifecycleEvent (api_event EventJobCreated (j_ID j) (j_ProbeID j) (j_RequestID j)); mret (JAsync 201 j)
      end
  end.

Definition new_job (r : job_request) (b : job_body) : Job :=
  {| jb_ID := ""; jb_WorkspaceID := TrimSpace (jq_scope r); jb_Name := TrimSpace (jy_Name b); jb_Command := TrimSpace (jy_Command b);
     jb_Schedule := TrimSpace (jy_Schedule b); jb_Target := jy_Target b; jb_RetryPolicy := jy_RetryPolicy b; jb_Enabled := default true (jy_Enabled b);
     jb_CreatedAt := zero_time; jb_UpdatedAt := zero_time; jb_LastRunAt := None; jb_LastStatus := "" |}.
Definition HandleCreateJob (r : job_request) : api job_reply :=
  match jq_body r with
  | None => err 400 "invalid_request" "invalid JSON body"
  | Some b =>
      if (TrimSpace (jy_ProbeID b) <>s "") || isAsyncKindRequested r then create_async r b
      else
        due ← validateSchedule (jy_Schedule b);
        match due with
        | inl e => err 400 "invalid_schedule" (Error e)
        | inr _ =>
            created ← on_store (JobStore.CreateJob ParseDuration (new_job r b));
            match created with
            | inl e => err 400 "invalid_job" (Error e)
            | inr j => _ ← emitLifecycleEvent (api_event EventJobCreated (jb_ID j) "" ""); mret (JJob 201 j)
            end
        end
  end.

Definition HandleGetJob (r : job_request) : api job_reply :=
  let id := TrimSpace (jq_id r) in
  if id =s "" then missing_id
  else if isAsyncKindRequested r then
    match h_asyncManager h with None => no_async_reply | Some _ => with_async_job r id (λ j, mret (JAsync 200 j)) end
  else
    found ← on_store (GetJobCheckWorkspace id (jq_scope r));
    checked (match h_asyncManager h with None => job_not_found | Some _ => with_async_job r id (λ j, mret (JAsync 200 j)) end)
      found (λ j, mret (JJob 200 j)).

(** The job that is written; the id, the workspace and the history are those of [existing]. *)
Definition edited_job (id : string) (existing : Job) (b : job_body) : Job :=
  {| jb_ID := id; jb_WorkspaceID := jb_WorkspaceID existing; jb_Name := TrimSpace (jy_Name b); jb_Command := TrimSpace (jy_Command b);
     jb_Schedule := TrimSpace (jy_Schedule b); jb_Target := jy_Target b;
     jb_RetryPolicy := match jy_RetryPolicy b with Some p => Some p | None => jb_RetryPolicy existing end;
     jb_Enabled := default (jb_Enabled existing) (jy_Enabled b); jb_CreatedAt := jb_CreatedAt existing; jb_UpdatedAt := zero_time;
     jb_LastRunAt := jb_LastRunAt existing; jb_LastStatus := jb_LastStatus existing |}.
Definition HandleUpdateJob (r : job_request) : api job_reply :=
  let id := TrimSpace (jq_id r) in
  if id =s "" then missing_id
  else with_job r id (λ existing,
    match jq_body r with
    | None => err 400 "invalid_request" "invalid JSON body"
    | Some b =>
        due ← validateSchedule (jy_Schedule b);
        match due with
        | inl e => err 400 "invalid_schedule" (Error e)
        | inr _ =>
            updated ← on_store (UpdateJob ParseDuration (edited_job id existing b));
            match updated with
            | inl e => if IsNotFound e then job_not_found else err 400 "invalid_job" (Error e)
            | inr j => _ ← emitLifecycleEvent (api_event EventJobUpdated (jb_ID j) "" ""); mret (JJob 200 j)
            end
        end
    end).

Definition HandleDeleteJob (r : job_request) : api job_reply :=
  let id := TrimSpace (jq_id r) in
  if id =s "" then missing_id
  else with_job r id (λ _,
    deleted ← on_store (DeleteJob id);
    match deleted with
    | inl e => if IsNotFound e then job_not_found else internal_error e
    | inr _ => _ ← emitLifecycleEvent (api_event EventJobDeleted id "" ""); mret JNoContent
    end).

Definition trigger_now (id : string) : api (option go_error) :=
  scheduler_call (TriggerNow ParseDuration json_Valid json_Unmarshal overflow defaultRetryPolicy admissionRetryDelay id).
Definition HandleRunJob (r : job_request) : api job_reply :=
  let id := TrimSpace (jq_id r) in
  if id =s "" then missing_id
  else with_job r id (λ _,
    if negb (h_scheduler h) then no_scheduler_reply
    else
      e ← trigger_now id;
      match e with Some e => err 502 "dispatch_failed" (Error e) | None => mret (JDispatched id) end).

Definition handleCancelAsyncJob (r : job_request) (id : string) : api job_reply :=
  match h_asyncManager h with
  | None => no_async_reply
  | Some _ =>
      with_async_job r id (λ _,
        cancelled ← on_async (AsyncManager.CancelJob id "cancelled via API");
        match cancelled with
        | inl e =>
            if IsNotFound e then job_not_found
            else if IsInvalidRunTransition e || errors_Is e ErrInvalidAsyncJobTransition then err 409 "invalid_transition" (Error e)
            else internal_error e
        | inr j =>
            _ ← (if h_asyncCanceler h && (TrimSpace (j_RequestID j) <>s "") then cancel_command (j_RequestID j) else mret tt);
            _ ← emitLifecycleEvent (api_event EventJobRunCanceled (j_ID j) (j_ProbeID j) (j_RequestID j));
            mret (JAsync 200 j)
        end)
  end.

Definition HandleCancelJob (r : job_request) : api job_reply :=
  let id := TrimSpace (jq_id r) in
  if id =s "" then missing_id
  else if isAsyncKindRequested r then handleCancelAsyncJob r id
  else
    found ← on_store (GetJobCheckWorkspace id (jq_scope r));
    checked (match h_asyncManager h with Some _ => handleCancelAsyncJob r id | None => job_not_found end) found (λ _,
      if negb (h_scheduler h) then no_scheduler_reply
      else
        out ← scheduler_call (JobScheduler.CancelJob id);
        match out with
        | (_, Some e) => internal_error e
        | (sum, None) => mret (JCancelRequested id sum)
        end).

(** Both ids of the path, and the job. *)
Definition with_run (r : job_request) (k : string → string → api job_reply) : api job_reply :=
  let jobID := TrimSpace (jq_id r) in
  let runID := TrimSpace (jq_runId r) in
  if (jobID =s "") || (runID =s "") then missing_run_id
  else with_job r jobID (λ _, if negb (h_scheduler h) then no_scheduler_reply else k jobID runID).

Definition HandleCancelRun (r : job_request) : api job_reply :=
  with_run r (λ jobID runID,
    run ← scheduler_call (JobScheduler.CancelRun jobID runID);
    match run with
    | inl e =>
        if IsNotFound e then err 404 "not_found" "run not found"
        else if IsInvalidRunTransition e then err 409 "invalid_transition" (Error e)
        else internal_error e
    | inr run => mret (JRun jobID run)
    end).

Definition retryable (status : string) : bool := (status =s RunStatusFailed) || (status =s RunStatusCanceled) || (status =s RunStatusDenied).
Definition HandleRetryRun (r : job_request) : api job_reply :=
  with_run r (λ jobID runID,
    run ← on_store (GetRun runID);
    match run with
    | inl e => if IsNotFound e then err 404 "not_found" "run not found" else internal_error e
    | inr run =>
        if TrimSpace (r_JobID run) <>s jobID then err 404 "not_found" "run not found"
        else if negb (retryable (r_Status run)) then err 409 "invalid_transition" "only failed, canceled, or denied runs can be retried"
        else
          e ← trigger_now jobID;
          match e with Some e => err 502 "dispatch_failed" (Error e) | None => mret (JRetryDispatched jobID runID) end
    end).

Definition list_runs (jobID : option string) (q : RunQuery) : api job_reply :=
  runs ← on_store (ListRuns q);
  match runs with inl e => internal_error e | inr l => mret (JRuns jobID l (summarizeRuns l)) end.

Definition HandleListRuns (r : job_request) : api job_reply :=
  let id := TrimSpace (jq_id r) in
  if id =s "" then missing_id
  else with_job r id (λ _,
    match parseRunQuery r with
    | inl msg => err 400 "invalid_request" msg
    | inr q => list_runs (Some id) (within q id (jq_scope r))
    end).

Definition HandleListAllRuns (r : job_request) : api job_reply :=
  match parseRunQuery r with
  | inl msg => err 400 "invalid_request" msg
  | inr q =>
      let jobID := TrimSpace (jq_query r "job_id") in
      if jobID <>s "" then with_job r jobID (λ _, list_runs None (within q jobID (jq_scope r)))
      else list_runs None (within q "" (jq_scope r))
  end.

Definition handleToggleJob (r : job_request) (enabled : bool) : api job_reply :=
  let id := TrimSpace (jq_id r) in
  if id =s "" then missing_id
  else with_job r id (λ _,
    job ← on_store (SetEnabled id enabled);
    match job with
    | inl e => if IsNotFound e then job_not_found else internal_error e
    | inr j => _ ← emitLifecycleEvent (api_event EventJobUpdated (jb_ID j) "" ""); mret (JJob 200 j)
    end).
Definition HandleEnableJob (r : job_request) : api job_reply := handleToggleJob r true.
Definition HandleDisableJob (r : job_request) : api job_reply := handleToggleJob r false.

(** ** Routes *)

Inductive endpoint :=
  | EListJobs | EListAllRuns | ECreateJob | EGetJob | EUpdateJob | EDeleteJob | ERunJob | ECancelJob | EListRuns | ECancelRun | ERetryRun
  | EEnableJob | EDisableJob.

Definition endpoint_permission (e : endpoint) : Permission :=
  match e with EListJobs | EListAllRuns | EGetJob | EListRuns => PermFleetRead | _ => PermFleetWrite end.

Definition serve (e : endpoint) : job_request → api job_reply :=
  match e with
  | EListJobs => HandleListJobs | EListAllRuns => HandleListAllRuns | ECreateJob => HandleCreateJob | EGetJob => HandleGetJob
  | EUpdateJob => HandleUpdateJob | EDeleteJob => HandleDeleteJob | ERunJob => HandleRunJob | ECancelJob => HandleCancelJob
  | EListRuns => HandleListRuns | ECancelRun => HandleCancelRun | ERetryRun => HandleRetryRun | EEnableJob => HandleEnableJob
  | EDisableJob => HandleDisableJob
  end.

(** The request as [withWorkspaceScope] passes it on. *)
Definition scoped (scope : option string) (r : job_request) : job_request :=
  {| jq_id := jq_id r; jq_runId := jq_runId r; jq_query := jq_query r; jq_scope := default "" scope; jq_body := jq_body r |}.
(** [s.withPermission(perm, s.withWorkspaceScope(handler))], for the context that the authentication middleware made of [hr]. *)
Definition job_route (configured isolation : bool) (ctx : Auth.Context) (hr : http_request) (e : endpoint) (r : job_request) : api (http_reply + job_reply) :=
  match (requirePermission configured ctx hr (endpoint_permission e)).1 with
  | Serve =>
      match withWorkspaceScope isolation ctx with
      | inl refusal => mret (inl refusal)
      | inr scope => reply ← serve e (scoped scope r); mret (inr reply)
      end
  | refusal => mret (inl refusal)
  end.

(** ** Executions *)

(** The world of the scheduler, whose store holds the tables of scheduled jobs; the
    table of async jobs of the same store; and the commands that were cancelled. *)
Record Plane := { pl_world : World; pl_async : list AsyncJob; pl_cancelled : list string }.

Definition with_world (p : Plane) (w : World) : Plane := {| pl_world := w; pl_async := pl_async p; pl_cancelled := pl_cancelled p |}.
(** A method of the store on the async table; the clock and the faults are those of the one database. *)
Definition run_async {B} (m : AsyncStore.M B) (p : Plane) : result B * Plane :=
  let db := store (pl_world p) in
  let '(x, d) := m {| rows := pl_async p; ticks := ticks db |} in
  (x, {| pl_world := with_store (pl_world p) {| rows := rows db; ticks := ticks d |}; pl_async := rows d; pl_cancelled := pl_cancelled p |}).
Definition run_jobs {B} (m : GoSql.M Tables B) (p : Plane) : result B * Plane :=
  let '(x, d) := m (store (pl_world p)) in (x, with_world p (with_store (pl_world p) d)).

Notation effect := (effect json_Valid json_Unmarshal overflow admissionRetryDelay).

(** [execution others p w a w' tr]: from [w], the program [p] can end in [w'] with the
    answer [a]; [tr] has the state before and after each of its own calls. *)
Fixpoint execution {A} (others : Plane → Plane → Prop) (p : api A) (w : Plane) (a : A) (w' : Plane) (tr : list (Plane * Plane)) : Prop :=
  let next w1 w2 (rest : Plane → list (Plane * Plane) → Prop) := others w w1 ∧ ∃ tr', tr = (w1, w2) :: tr' ∧ rest w2 tr' in
  match p with
  | ARet b => a = b ∧ w' = w ∧ tr = []
  | ASched c k => ∃ w1 x d, effect c (pl_world w1) x d ∧ next w1 (with_world w1 d) (λ w2, execution others (k x) w2 a w')
  | AJobs m k => ∃ w1, let '(x, w2) := run_jobs m w1 in next w1 w2 (λ w2, execution others (k x) w2 a w')
  | AAsync m k => ∃ w1, let '(x, w2) := run_async m w1 in next w1 w2 (λ w2, execution others (k x) w2 a w')
  | ACancel id k =>
      ∃ w1, next w1 {| pl_world := pl_world w1; pl_async := pl_async w1; pl_cancelled := pl_cancelled w1 ++ [id] |}
              (λ w2, execution others k w2 a w')
  end.
End handlers.
