(* ===== verification/JobApiSafety.v ===== *)
(** * What a request to the job endpoints can reach
    (src/internal/controlplane/jobs/handlers.go)

    Fixed are the workspace of a request and an assignment of ids: [owner] gives the
    workspace of a scheduled job, [run_job] the job of a run, [async_owner] the
    workspace of an async job.  [named] tables agree with it: ids are never used again
    for something else.  On named tables every call that a handler makes, also through
    the scheduler, leaves what is hidden from the workspace as it is ([safe]), and what
    it answers is visible. *)
From Stdlib Require Import SpecFloat.
From S2P Require Import Prelude GoStrings GoErrors GoTime GoFloat GoSort GoSql GoJson Protocol CommandStream AsyncTypes AsyncStore AsyncLifecycle AsyncManager JobRetry JobStore JobLifecycle JobScheduler Auth AuthMiddleware JobHandlers.
Local Open Scope go_scope.
Local Open Scope Z_scope.

(** ** Filters *)

Lemma filter_update_where {A} q p f (l : list A) :
  (∀ x, x ∈ l → p x = true → q x = false ∧ q (f x) = false) → List.filter q (update_where p f l) = List.filter q l.
Proof.
  intros Hq. induction l as [|x l IH]; [done|]. cbn [update_where List.map List.filter]. fold (update_where p f l). rewrite IH by (intros y Hy; apply Hq; by right).
  destruct (p x) eqn:E; [|done]. destruct (Hq x (list_elem_of_here _ _) E) as [-> ->]. done.
Qed.
Lemma filter_filter_out {A} q p (l : list A) :
  (∀ x, x ∈ l → p x = false → q x = false) → List.filter q (List.filter p l) = List.filter q l.
Proof.
  intros Hq. induction l as [|x l IH]; [done|]. cbn. specialize (IH (λ y Hy, Hq y (list_elem_of_further _ _ _ Hy))).
  destruct (p x) eqn:E; cbn; rewrite IH; [done|]. by rewrite (Hq x (list_elem_of_here _ _) E).
Qed.
Lemma filter_app_out {A} q (l : list A) x : q x = false → List.filter q (l ++ [x]) = List.filter q l.
Proof. intros E. rewrite List.filter_app. cbn. rewrite E. apply app_nil_r. Qed.

Lemma transaction_cases {S A} (m : GoSql.M S A) db x db' :
  transaction m db = (x, db') → (∃ e, x = inl e ∧ rows db' = rows db) ∨ ∃ a, x = inr a ∧ m db = (inr a, db').
Proof. unfold transaction. destruct (m db) as [[e|a] db1]; intros [= <- <-]; eauto. Qed.

(** ** Workspaces *)

Definition may_see (ws o : string) : bool := (ws =s "") || (o =s "") || (o =s ws).
Lemma may_see_self ws : may_see ws ws = true.
Proof. unfold may_see. rewrite String.eqb_refl. apply orb_true_r. Qed.
Lemma may_see_checked ws o : (ws =s "") = false → (o <>s "") && (o <>s ws) = false → may_see ws o = true.
Proof. unfold may_see. intros ->. destruct (o =s ""); [done|]. by destruct (o =s ws). Qed.

Record naming := { owner : string → string; run_job : string → string; async_owner : string → string }.

Section scope.
Context `{Host, !HostLaws} (ids : naming) (ws : string) (Hne : ws ≠ ""%string) (Hws : ToLower (TrimSpace ws) = ws).

Lemma scope_trimmed : TrimSpace ws = ws.
Proof. by rewrite <- Hws, TrimSpace_ToLower, TrimSpace_idem. Qed.

(** The jobs the workspace may see. *)
Definition mine (id : string) : Prop := may_see ws (owner ids id) = true.
Definition run_named (r : JobRun) : Prop := run_job ids (r_ID r) = r_JobID r ∧ TrimSpace (r_ID r) = r_ID r ∧ TrimSpace (r_JobID r) = r_JobID r.
Definition tables_named (t : Tables) : Prop := Forall (λ j, jb_WorkspaceID j = owner ids (jb_ID j)) (jobs t) ∧ Forall run_named (runs t).
Definition async_workspace (j : AsyncJob) : string := j_WorkspaceID (scanAsyncJob j).
Definition async_named (l : list AsyncJob) : Prop := Forall (λ j, async_workspace j = async_owner ids (j_ID j) ∧ TrimSpace (j_ID j) = j_ID j) l.

Definition hidden (t : Tables) : list Job * list JobRun :=
  (List.filter (λ j, negb (may_see ws (jb_WorkspaceID j))) (jobs t), List.filter (λ r, negb (may_see ws (owner ids (r_JobID r)))) (runs t)).
Definition hidden_async (l : list AsyncJob) : list AsyncJob := List.filter (λ j, negb (may_see ws (async_workspace j))) l.

(** ** Statements on the tables of scheduled jobs *)

Definition spares (t t' : Tables) : Prop := tables_named t → tables_named t' ∧ hidden t' = hidden t.
Lemma spares_steps t t' : rtc spares t t' → spares t t'.
Proof. induction 1 as [|t t1 t' H1 _ IH]; [by intros|]. intros [Hn1 E1]%H1. destruct (IH Hn1) as [Hn' E]. split; [done|congruence]. Qed.

Lemma spares_update_jobs p f t :
  (∀ j, p j = true → mine (jb_ID j)) → (∀ j, jb_ID (f j) = jb_ID j ∧ jb_WorkspaceID (f j) = jb_WorkspaceID j) →
  spares t (set_jobs t (update_where p f (jobs t))).
Proof.
  intros Hp Hf [Hj Hr]. split; [split; [|done]|]; [|rewrite Forall_forall in Hj].
  - apply Forall_update_where; [|done]. intros j _. by destruct (Hf j) as [-> ->].
  - unfold hidden. f_equal. cbn. apply filter_update_where. intros j Hin Hm%Hp. destruct (Hf j) as [_ ->]. rewrite (Hj j Hin). unfold mine in Hm. by rewrite Hm.
Qed.
Lemma spares_update_runs p f t :
  (∀ r, run_named r → p r = true → mine (r_JobID r)) → (∀ r, r_ID (f r) = r_ID r ∧ r_JobID (f r) = r_JobID r) →
  spares t (set_runs t (update_where p f (runs t))).
Proof.
  intros Hp Hf [Hj Hr]. split; [split; [done|]|]; [|rewrite Forall_forall in Hr].
  - apply Forall_update_where; [|done]. intros r _. unfold run_named. by destruct (Hf r) as [-> ->].
  - unfold hidden. f_equal. cbn. apply filter_update_where. intros r Hin Hm. destruct (Hf r) as [_ ->]. apply (Hp r (Hr r Hin)) in Hm. unfold mine in Hm. by rewrite Hm.
Qed.

Lemma runs_update p f : (∀ j, p j = true → mine (jb_ID j)) → (∀ j, jb_ID (f j) = jb_ID j ∧ jb_WorkspaceID (f j) = jb_WorkspaceID j) → GoSql.runs spares (update_jobs p f).
Proof. intros Hp Hf. apply runs_exec. intros t. right. by apply spares_update_jobs. Qed.
Lemma mine_is id j : mine id → job_is id j = true → mine (jb_ID j).
Proof. unfold job_is. by intros Hm ->%String.eqb_eq. Qed.

Lemma UpdateJob_spares ParseDuration job : mine (jb_ID job) → GoSql.runs spares (UpdateJob ParseDuration job).
Proof.
  intros Hm. unfold UpdateJob. case_match; [eauto with legator|]. case_match; [eauto with legator|]. apply runs_bind; [eauto with legator|]. intros now.
  apply runs_bind; [apply runs_wrap, runs_update; [by intros j; apply mine_is|done]|]. intros n. case_match; eauto using reads_GetJob with legator.
Qed.
Lemma SetEnabled_spares id enabled : mine (TrimSpace id) → GoSql.runs spares (SetEnabled id enabled).
Proof.
  intros Hm. unfold SetEnabled. cbv zeta. case_match; [eauto with legator|]. apply runs_bind; [eauto with legator|]. intros now.
  apply runs_bind; [apply runs_wrap, runs_update; [by intros j; apply mine_is|done]|]. intros n. case_match; eauto using reads_GetJob with legator.
Qed.

Lemma DeleteJob_spares id : mine id → GoSql.runs spares (DeleteJob id).
Proof.
  intros Hm. apply runs_bind; [|intros n; case_match; eauto with legator]. apply runs_exec. intros t. right. intros [Hj Hr].
  split; [split; by apply Forall_filter_bool|]. rewrite Forall_forall in Hj. unfold hidden. f_equal; apply filter_filter_out.
  - intros j Hin E%negb_false_iff. rewrite (Hj j Hin). pose proof (mine_is _ _ Hm E) as Hmj. unfold mine in Hmj. by rewrite Hmj.
  - intros r Hin E%negb_false_iff. apply andb_prop in E as [->%String.eqb_eq _]. unfold mine in Hm. by rewrite Hm.
Qed.

Lemma batch_spares jobID start now t : mine jobID → spares t (set_jobs t (batch_jobs jobID start now t)).
Proof.
  intros Hm. unfold batch_jobs. cbv zeta. case_match; [destruct t; by intros|]. apply spares_update_jobs; [|done].
  intros j [Hj _]%andb_prop. by eapply mine_is.
Qed.

(** A run that is the workspace's to change. *)
Definition my_run (id : string) : Prop := mine (run_job ids id).
Lemma my_run_is id r : my_run id → run_named r → run_is id r = true → mine (r_JobID r).
Proof. unfold run_is. intros Hm [<- _] <-%String.eqb_eq. done. Qed.

Lemma transitionRun_spares id from to code out ended retry : my_run id → GoSql.runs spares (transitionRun id from to code out ended retry).
Proof.
  intros Hm. unfold transitionRun. case_match; [eauto with legator|]. case_match; [eauto with legator|].
  apply runs_bind; [eauto with legator|]. intros now. apply runs_bind; [unfold begin_; eauto with legator|]. intros _.
  apply runs_writes, writes_transaction_body. intros db u db' (r & Hf & Hr & E)%transition_body. right. rewrite E. cbv zeta in *. apply find_run_spec in Hf as [Hin Hid].
  intros Hn. assert (Hmr : mine (r_JobID r)).
  { apply (my_run_is id); [done| |unfold run_is; by rewrite Hid, String.eqb_refl]. destruct Hn as [_ Hn]. by eapply Forall_forall. }
  destruct (spares_update_runs (λ x, run_is id x && (r_Status x =s r_Status r)) (transitioned_run to code out (if ended then Some now else None) retry) (rows db)) as [Hn1 E1]; [|done|done|].
  { intros x Hx [Hi _]%andb_prop. by eapply my_run_is. }
  destruct (batch_spares (r_JobID r) (text_of (r_StartedAt r)) now _ Hmr Hn1) as [Hn2 E2]. split; [exact Hn2|]. by etrans.
Qed.

Lemma with_run_id_spares {B} id (k : string → GoSql.M Tables B) : (TrimSpace id ≠ ""%string → GoSql.runs spares (k (TrimSpace id))) → GoSql.runs spares (with_run_id id k).
Proof. intros Hk. unfold with_run_id. cbv zeta. destruct (String.eqb_spec (TrimSpace id) ""); [eauto with legator|by apply Hk]. Qed.
Lemma setRunAdmission_spares json_Valid id d re why retry : my_run (TrimSpace id) → GoSql.runs spares (setRunAdmission json_Valid id d re why retry).
Proof.
  intros Hm. apply with_run_id_spares. intros _. case_match; [eauto with legator|]. apply runs_bind; [|intros n; case_match; eauto using reads_GetRun with legator].
  apply runs_exec. intros t. right. apply spares_update_runs; [|done]. intros r Hr Hi. by eapply my_run_is.
Qed.

(** The statements of the scheduler, with what each asks for. *)
Definition store_ok (q : store_req) : Prop :=
  match q with
  | SRecordRunStart run => mine (r_JobID run)
  | SMarkRunPending id | SMarkRunRunning id | SMarkRunDenied id _ _ | SUpdateQueuedRunAdmission id _ _ _ _
  | SCompleteRunWithRetry id _ _ _ _ | SCancelRun id _ => my_run (TrimSpace id)
  | _ => True
  end.

Definition spared (t t' : Tables) : Prop := tables_named t → hidden t' = hidden t.
Lemma runs_spared {A} (m : GoSql.M Tables A) db x db' : GoSql.runs spares m → m db = (x, db') → spared (rows db) (rows db').
Proof. intros Hm E%Hm%spares_steps Hn. by apply E. Qed.

Lemma insert_spared run f t :
  mine (r_JobID run) → (∀ j, jb_ID (f j) = jb_ID j ∧ jb_WorkspaceID (f j) = jb_WorkspaceID j) →
  spared t {| jobs := update_where (job_is (r_JobID run)) f (jobs t); runs := runs t ++ [run] |}.
Proof.
  intros Hm Hf Hn. destruct (spares_update_jobs (job_is (r_JobID run)) f t ltac:(intros j; by apply mine_is) Hf Hn) as [_ E].
  unfold hidden in *. cbn in *. injection E as ->. f_equal. apply filter_app_out. unfold mine in Hm. by rewrite Hm.
Qed.

Lemma RecordRunStart_rows json_Valid run db x db' :
  RecordRunStart json_Valid run db = (x, db') →
  match x with
  | inl _ => rows db' = rows db
  | inr r => r_JobID r = r_JobID run ∧ ∃ now,
      rows db' = {| jobs := update_where (job_is (r_JobID r)) (started_job r now) (jobs (rows db)); runs := runs (rows db) ++ [run_row json_Valid r] |}
  end.
Proof.
  unfold RecordRunStart. do 3 (case_match; [by intros [= <- <-]|]). intros E. apply bind_cases in E as [(e & [=] & _)|(now & db1 & [= <- <-] & E)].
  apply bind_cases in E as [(e & E & ->)|(id & db2 & E2 & E)]; [by case_match|].
  assert (Hd : rows db2 = rows db) by (clear E; case_match; by injection E2 as _ <-). cbv zeta in E. case_match; [by injection E as <- <-|].
  apply bind_cases in E as [(e & E & ->)|([] & db3 & [_ E3]%query_inr & E)]; [rewrite <- Hd; by eapply (reads_query (A:=unit))|].
  rewrite <- Hd, <- E3. apply transaction_cases in E as [(e & -> & E)|(r & -> & E)]; [done|].
  apply bind_inr in E as (w & db5 & E1 & E). apply bind_inr in E as ([] & db6 & E4%wrap_inr%exec_inr & E).
  apply bind_inr in E as (n & db7 & [= _ E5]%wrap_inr%exec_inr & E). apply bind_inr in E as ([] & db8 & [_ E6]%query_inr & E).
  assert (E0 : rows db5 = rows db3) by (case_match; [by apply query_inr in E1 as [_ ?]|by injection E1 as _ ->]).
  apply insert_run_inr in E4 as (_ & _ & _ & E4). injection E as <- <-. split; [done|]. exists (clock (ticks db)). rewrite E6, <- E5, E4, E0. done.
Qed.
Lemma RecordRunStart_spared json_Valid run db x db' :
  mine (r_JobID run) → RecordRunStart json_Valid run db = (x, db') → spared (rows db) (rows db').
Proof.
  intros Hm E%RecordRunStart_rows. destruct x as [e|r]; [rewrite E; by intros|]. destruct E as [Hj (now & ->)].
  apply (insert_spared (run_row json_Valid r)); [by cbn; rewrite Hj|done].
Qed.

Section statements.
Context (json_Valid : string → bool).

Lemma run_store_spared q db x db' : store_ok q → run_store json_Valid q db = (x, db') → spared (rows db) (rows db').
Proof.
  assert (Hr : ∀ {A} (m : GoSql.M Tables A), reads m → ∀ db x db', m db = (x, db') → spared (rows db) (rows db')) by (intros A m Hm d y d' ->%Hm; by intros).
  destruct q; cbn [store_ok run_store]; intros Hok E;
    try (eapply runs_spared; [|exact E]; apply with_run_id_spares; intros _; cbv zeta; by apply transitionRun_spares).
  - by eapply Hr, E; apply reads_GetJob.
  - by eapply Hr, E; apply reads_query.
  - by eapply Hr, E; apply reads_GetRun.
  - eapply Hr; [|exact E]. unfold ListActiveRunsByJob. cbv zeta. case_match; eauto with legator.
  - by eapply RecordRunStart_spared.
  - eapply runs_spared; [|exact E]. apply with_run_id_spares. intros _. cbv zeta. apply runs_bind; [by apply transitionRun_spares|]. intros _.
    apply runs_bind; [|eauto with legator]. apply setRunAdmission_spares. by rewrite TrimSpace_idem.
  - eapply runs_spared; [|exact E]. apply runs_bind; [eauto using reads_GetRun with legator|]. intros r. case_match; [eauto with legator|by apply setRunAdmission_spares].
  - eapply runs_spared; [|exact E]. apply with_run_id_spares. intros _. cbv zeta. case_match; [eauto with legator|by apply transitionRun_spares].
Qed.

(** What the answers of the store say about ids, on named tables. *)
Definition answered_run (id : string) (x : result JobRun) : Prop :=
  match x with inl _ => True | inr r => r_ID r = id ∧ run_named r end.
Definition store_says (q : store_req) : result (store_answer q) → Prop :=
  match q as q return result (store_answer q) → Prop with
  | SGetJob id => λ x, match x with inl _ => True | inr j => jb_ID j = id end
  | SGetRun id => answered_run id
  | SUpdateQueuedRunAdmission id _ _ _ _ => answered_run (TrimSpace id)
  | SListActiveRunsByJob id => λ x, match x with inl _ => True | inr l => Forall (λ r, r_JobID r = TrimSpace id ∧ run_named r) l end
  | SRecordRunStart run => λ x, match x with inl _ => True | inr r => r_JobID r = r_JobID run ∧ run_named r end
  | _ => λ _, True
  end.

Lemma scan_named r : run_named r → run_named (scanRun r).
Proof. done. Qed.
Lemma GetRun_says id db x db' : tables_named (rows db) → GetRun id db = (x, db') → answered_run id x.
Proof.
  intros [_ Hn] E. destruct x as [|r]; [done|]. apply query_inr in E as [E _]. destruct (List.find _ _) as [r0|] eqn:Hf; [|done]. injection E as <-.
  apply find_run_spec in Hf as [Hin <-]. split; [done|]. apply scan_named. by eapply Forall_forall.
Qed.
Lemma run_store_says q db x db' :
  tables_named (rows db) → tables_named (rows db') → run_store json_Valid q db = (x, db') → store_says q x.
Proof.
  intros Hn Hn' E. destruct q; cbn [store_says run_store] in *; try done.
  - destruct x as [|j]; [done|]. apply query_inr in E as [E _]. destruct (List.find _ _) as [j0|] eqn:Hf; [|done]. injection E as <-.
    by apply find_some in Hf as [_ Hf%String.eqb_eq].
  - exact (GetRun_says id db x db' Hn E).
  - destruct x as [|l]; [done|]. unfold ListActiveRunsByJob in E. cbv zeta in E. case_match; [done|]. apply query_inr in E as [[= <-] _].
    apply Forall_forall. intros r (r0 & -> & Hr)%list_elem_of_fmap. rewrite order_by_perm in Hr. apply elem_filter_bool in Hr as [[Hj%String.eqb_eq _]%andb_prop Hin].
    split; [done|]. apply scan_named. destruct Hn as [_ Hn]. by eapply Forall_forall.
  - apply RecordRunStart_rows in E. destruct x as [|r]; [done|]. destruct E as [Hj (now & E)]. split; [done|]. rewrite E in Hn'. destruct Hn' as [_ Hn'].
    apply Forall_app in Hn' as [_ Hn']. exact (Forall_inv Hn').
  - destruct x as [|r]; [done|]. unfold UpdateQueuedRunAdmission in E. apply bind_inr in E as (r0 & db1 & E1 & E). assert (Hd : rows db1 = rows db) by (by eapply reads_GetRun).
    case_match; [done|]. unfold setRunAdmission, with_run_id in E. cbv zeta in E. case_match; [done|]. case_match; [done|].
    apply bind_inr in E as (n & db2 & [= _ E2]%exec_inr & E). case_match; [done|].
    pose proof (reads_GetRun _ _ _ _ E) as E3. rewrite E3 in Hn'. exact (GetRun_says _ _ _ _ Hn' E).
Qed.
End statements.

(** ** The programs of the scheduler *)

(** The goroutines that may be started. *)
Definition goroutine_ok (g : goroutine) : Prop :=
  match g with
  | AwaitRunResult run _ job _ _ => my_run (TrimSpace (r_ID run)) ∧ mine (jb_ID job)
  | RetryTimer job _ _ _ _ _ => mine (jb_ID job)
  | AdmissionTimer job _ _ _ _ _ queuedRunID => mine (jb_ID job) ∧ my_run (TrimSpace queuedRunID)
  end.
Definition call_ok (c : call) : Prop :=
  match c with Store q => store_ok q | Go g | setRetry _ g => goroutine_ok g | _ => True end.
Definition says (c : call) : answer c → Prop :=
  match c as c return answer c → Prop with Store q => store_says q | _ => λ _, True end.

Fixpoint confined {A} (p : prog A) (Q : A → Prop) : Prop :=
  match p with
  | Ret a => Q a
  | Do c k => call_ok c ∧ ∀ x, says c x → confined (k x) Q
  end.
Lemma confined_mono {A} (p : prog A) (Q Q' : A → Prop) : (∀ a, Q a → Q' a) → confined p Q → confined p Q'.
Proof. intros HQ. induction p as [a|c k IH]; [apply HQ|]. intros [Hc Hk]. split; [done|]. intros x Hx. by apply IH, Hk. Qed.
Lemma confined_bind {A B} (p : prog A) (f : A → prog B) Q : confined p (λ a, confined (f a) Q) → confined (p ≫= f) Q.
Proof. induction p as [a|c k IH]; [done|]. intros [Hc Hk]. split; [done|]. intros x Hx. by apply IH, Hk. Qed.
Lemma confined_do c (Q : answer c → Prop) : call_ok c → (∀ x, says c x → Q x) → confined (do c) Q.
Proof. by split. Qed.
Lemma confined_ret {A} (a : A) (Q : A → Prop) : Q a → confined (mret a) Q.
Proof. done. Qed.
Lemma confined_emit e (Q : unit → Prop) : Q tt → confined (JobScheduler.emitLifecycleEvent e) Q.
Proof. intros HQ. apply confined_bind. case_match; [apply confined_do; [done|]; intros x _|apply confined_ret]; by split; [|intros [] _]. Qed.
Lemma confined_for_each {A} (l : list A) f (Q : unit → Prop) : (∀ x, x ∈ l → confined (f x) (λ _, True)) → Q tt → confined (for_each l f) Q.
Proof.
  intros Hf HQ. induction l as [|x l IH]; [done|]. cbn. apply confined_bind. eapply confined_mono; [|apply Hf; by left].
  intros a _. apply IH. intros y Hy. apply Hf. by right.
Qed.

Lemma named_my_run r : run_named r → mine (r_JobID r) → my_run (TrimSpace (r_ID r)).
Proof. intros (E & -> & _). unfold my_run. by rewrite E. Qed.

#[local] Opaque JobScheduler.emitLifecycleEvent.
Ltac call_side := cbn [call_ok store_ok goroutine_ok]; first [ done | by eauto | idtac ].
Ltac step :=
  match goal with
  | |- confined (_ ≫= _) _ => apply confined_bind
  | |- confined (JobScheduler.emitLifecycleEvent _) _ => apply confined_emit
  | |- confined (mret _) _ => apply confined_ret
  | |- confined (do _) _ => apply confined_do; [solve [call_side] | let x := fresh "x" in intros x ?; cbv beta]
  end.

Ltac answer E := match goal with H : says _ _ |- _ => cbn in H; rename H into E end.

Section programs.
Context (ParseDuration : string → option duration) (cron_parse : string → result (time → time)) (json_Valid : string → bool)
  (json_Unmarshal : string → option value) (overflow : float64 → Z)
  (defaultRetryPolicy : RetryPolicy) (admissionRetryDelay : duration).

(** A run the program may go on with. *)
Definition granted (x : result JobRun) : Prop := match x with inl _ => True | inr r => my_run (TrimSpace (r_ID r)) end.
Definition queued_ok (queuedRunID : string) : Prop := TrimSpace queuedRunID ≠ ""%string → my_run (TrimSpace queuedRunID).

Lemma queued_none : queued_ok "".
Proof. by intros []. Qed.
Lemma answered_granted id x : my_run (TrimSpace id) → answered_run id x → granted x.
Proof. destruct x as [|r]; [done|]. intros Hm [<- _]. done. Qed.
Lemma recorded_granted run x : mine (r_JobID run) → store_says (SRecordRunStart run) x → granted x.
Proof. destruct x as [|r]; [done|]. intros Hm [E Hn]. apply named_my_run; [done|]. by rewrite E. Qed.

Lemma ensurePendingRun_granted job probeID ex attempt policy now q d :
  mine (jb_ID job) → queued_ok q → confined (ensurePendingRun json_Valid job probeID ex attempt policy now q d) granted.
Proof.
  intros Hm Hq. unfold ensurePendingRun. cbv zeta. destruct (String.eqb_spec (TrimSpace q) "") as [E|E]; cbn [negb].
  - case_match; [done|]. apply confined_do; [done|]. intros x. by apply recorded_granted.
  - apply Hq in E. rewrite <- (TrimSpace_idem q) in E. do 2 step. case_match; [done|]. do 2 step. case_match; [done|]. apply confined_do; [done|].
    intros y. by apply answered_granted.
Qed.
Lemma ensureQueuedRun_granted job probeID ex attempt policy now q d t :
  mine (jb_ID job) → queued_ok q → confined (ensureQueuedRun json_Valid job probeID ex attempt policy now q d t) granted.
Proof.
  intros Hm Hq. unfold ensureQueuedRun. cbv zeta. destruct (String.eqb_spec (TrimSpace q) "") as [E|E]; cbn [negb].
  - case_match; [done|]. apply confined_do; [done|]. intros x. by apply recorded_granted.
  - apply Hq in E. rewrite <- (TrimSpace_idem q) in E. apply confined_do; [done|]. intros x. apply answered_granted. by rewrite TrimSpace_idem.
Qed.
Lemma ensureDeniedRun_granted job probeID ex attempt policy now q re why :
  mine (jb_ID job) → queued_ok q → confined (ensureDeniedRun json_Valid job probeID ex attempt policy now q re why) granted.
Proof.
  intros Hm Hq. unfold ensureDeniedRun. cbv zeta. destruct (String.eqb_spec (TrimSpace q) "") as [E|E]; cbn [negb].
  - case_match; [done|]. apply confined_do; [done|]. intros x. by apply recorded_granted.
  - apply Hq in E. rewrite <- (TrimSpace_idem q) in E. do 2 step. case_match; [done|]. apply confined_do; [done|].
    intros y. by apply answered_granted.
Qed.

Lemma completeAttempt_confined run job policy k r had st code out at_ :
  my_run (TrimSpace (r_ID run)) → mine (jb_ID job) → confined (completeAttempt run job policy k r had st code out at_) (λ _, True).
Proof.
  intros Hr Hj. unfold completeAttempt. do 2 step. case_match; [case_match; by step|]. do 3 step.
  - case_match; repeat step; repeat case_match; try step; done.
Qed.
Lemma finishAttempt_confined run job policy k r had st code out :
  my_run (TrimSpace (r_ID run)) → mine (jb_ID job) → confined (finishAttempt overflow run job policy k r had st code out) (λ _, True).
Proof.
  intros Hr Hj. unfold finishAttempt. step. case_match; repeat step; by apply completeAttempt_confined.
Qed.
Lemma awaitRunResult_confined run r job policy k :
  my_run (TrimSpace (r_ID run)) → mine (jb_ID job) → confined (awaitRunResult overflow run r job policy k) (λ _, True).
Proof.
  intros Hr Hj. unfold awaitRunResult. do 2 step. case_match; [by apply finishAttempt_confined|]. do 3 step. case_match; repeat step; done.
Qed.

Section attempt.
Context (job : Job) (Hj : mine (jb_ID job)).

Lemma dispatchAttempt_confined probeID k ex attempt policy now q :
  queued_ok q → confined (dispatchAttempt json_Valid json_Unmarshal overflow admissionRetryDelay job probeID k ex attempt policy now q) (λ _, True).
Proof.
  intros Hq. unfold dispatchAttempt. step. eapply (confined_mono _ (λ _, True)); [intros d _|by unfold evaluateAdmission; repeat step].
  case_match; [|case_match].
  - unfold handleQueuedAdmission. cbv zeta. step. eapply confined_mono; [|by apply ensureQueuedRun_granted]. intros [e|run] Hr; [by step|]. do 3 step. done.
  - unfold handleDeniedAdmission. cbv zeta. step. eapply confined_mono; [|by apply ensureDeniedRun_granted]. intros [e|run] Hr; [by step|]. repeat step. done.
  - unfold handleAllowedAdmission. step. eapply confined_mono; [|by apply ensurePendingRun_granted]. intros [e|run] Hr; [by step|]. cbv zeta. cbn in Hr. do 6 step.
    case_match; [by step|]. do 3 step. eapply (confined_mono _ (λ _, True)); [intros on _|by unfold probeOnline; repeat step].
    case_match; [by apply finishAttempt_confined|]. do 2 step. case_match; [by apply finishAttempt_confined|].
    do 4 step. case_match; [|by step]. do 2 step. by apply finishAttempt_confined.
Qed.
End attempt.

Lemma dispatchJob_confined job now :
  mine (jb_ID job) → confined (dispatchJob ParseDuration json_Valid json_Unmarshal overflow defaultRetryPolicy admissionRetryDelay job now) (λ _, True).
Proof.
  intros Hj. unfold dispatchJob. step. eapply (confined_mono _ (λ _, True)); [intros l _|unfold resolveTargets; repeat case_match; by repeat step].
  case_match; [by step|]. case_match; [by step|]. step. apply confined_for_each; [|by step]. intros probeID _.
  unfold dispatchProbe. cbv zeta. do 2 step. case_match; [by step|by apply dispatchAttempt_confined, queued_none].
Qed.

Lemma TriggerNow_confined id :
  mine id → confined (TriggerNow ParseDuration json_Valid json_Unmarshal overflow defaultRetryPolicy admissionRetryDelay id) (λ _, True).
Proof.
  intros Hid. unfold TriggerNow. do 2 step. destruct x as [e|job]; [by step|]. answer E. do 2 step. apply dispatchJob_confined. by rewrite E.
Qed.

(** What was started for the workspace stays within it. *)
Lemma goroutine_confined g : goroutine_ok g → confined (goroutine_body json_Valid json_Unmarshal overflow admissionRetryDelay g) (λ _, True).
Proof.
  destruct g as [run r job policy k|job probeID k ex attempt policy|job probeID k ex attempt policy q]; cbn [goroutine_ok goroutine_body].
  - intros [Hr Hj]. by apply awaitRunResult_confined.
  - intros Hj. do 4 step. destruct x0 as [e|latest]; [by step|]. answer E. rewrite <- E in Hj. do 2 (case_match; [by step|]). do 2 step.
    by apply dispatchAttempt_confined, queued_none.
  - intros [Hj Hq]. do 4 step. destruct x0 as [e|latest]; [by step|]. answer E. rewrite <- E in Hj. case_match; [by step|]. do 2 step. case_match; [by step|].
    case_match; [by step|]. do 2 step. apply dispatchAttempt_confined; [done|by intros _].
Qed.

Lemma CancelJob_confined id : mine (TrimSpace id) → confined (JobScheduler.CancelJob id) (λ _, True).
Proof.
  intros Hid. unfold JobScheduler.CancelJob. do 2 step. destruct x as [e|runs]; [by step|]. answer Hruns. step.
  assert (Hl : ∀ l sum, Forall (λ r, r_JobID r = TrimSpace id ∧ run_named r) l → confined (cancel_runs l sum) (λ _, True)).
  { induction l as [|r l IH]; intros sum Hl; [done|]. apply Forall_cons in Hl as [[E Hn] Hl]. cbn [cancel_runs]. step. apply confined_do.
    { apply named_my_run; [done|]. by rewrite E. }
    intros x _. cbv beta. case_match; [case_match; [by apply IH|by step]|]. do 2 step. unfold cancelTracked. do 3 step. case_match; repeat step; by apply IH. }
  eapply confined_mono; [|by apply Hl]. intros [sum [e|]] _; [by step|]. unfold cancelScheduledRetriesForJob. cbv zeta. step. case_match; [repeat step; done|].
  do 2 step. step. apply confined_for_each; [intros y _; by step|]. repeat step. done.
Qed.

Definition shown_run (x : result JobRun) : Prop := match x with inl _ => True | inr r => mine (r_JobID r) end.
Lemma CancelRun_confined jobID runID : mine (TrimSpace jobID) → confined (JobScheduler.CancelRun jobID runID) shown_run.
Proof.
  intros Hid. unfold JobScheduler.CancelRun. do 2 step. destruct x as [e|run]; [by step|]. answer Hans. destruct Hans as [E1 Hn]. case_match eqn:E; [by step|].
  apply negb_false_iff, String.eqb_eq in E. pose proof Hn as (_ & _ & Ht). rewrite Ht in E. assert (Hm : mine (r_JobID run)) by (by rewrite E).
  assert (Hr : my_run (TrimSpace runID)) by (rewrite <- E1; by apply named_my_run).
  assert (Hend : confined (do (Store (SGetRun runID))) shown_run).
  { apply confined_do; [done|]. intros [|r2]; [done|]. cbn. intros [E2 (En & _)]. rewrite <- En, E2. destruct Hn as (En0 & _). by rewrite <- E1, En0. }
  do 2 step. case_match; [by step|]. do 3 step. eapply (confined_mono _ (λ _, True)); [intros [] _|unfold cancelTracked; do 2 step; case_match; by step].
  do 2 step. exact Hend.
Qed.
End programs.
End scope.
