(* ===== verification/JobApiGuarantees.v ===== *)
(** * Guarantees of the job endpoints
    (src/internal/controlplane/jobs/handlers.go)

    The isolation of workspaces: whatever a request does through the store, the
    scheduler and the async manager, and whatever the others do in between, it is shown
    and it changes nothing of another workspace.  At the end, executions of the handlers
    at concrete states: the isolation theorem applied, and two behaviours that the code
    does not intend. *)
From Stdlib Require Import SpecFloat.
From S2P Require Import Prelude CapacityPolicy ApprovalService AsyncApproval FleetManager CommandHandler CommandExamples.
From S2P Require Import Prelude GoStrings GoErrors GoTime GoFloat GoSort GoSql GoJson Protocol CommandStream AsyncTypes AsyncStore AsyncLifecycle AsyncManager JobRetry JobStore JobLifecycle JobScheduler Auth AuthMiddleware JobHandlers JobApiSafety.
Local Open Scope go_scope.
Local Open Scope Z_scope.

Lemma exec_rows `{Host} {S A} (f : S → result A * S) db x db' : exec f db = (x, db') → rows db' = rows db ∨ rows db' = (f (rows db)).2.
Proof. unfold exec. destruct (sql_fault _); [intros [= _ <-]; by left|]. destruct (f (rows db)). intros [= _ <-]. by right. Qed.

Section scope.
Context `{Host, !HostLaws} (ids : naming) (ws : string) (Hne : ws ≠ ""%string) (Hws : ToLower (TrimSpace ws) = ws).
Notation tables_named := (tables_named ids).
Notation async_named := (async_named ids).
Notation hidden := (hidden ids ws).
Notation hidden_async := (hidden_async ws).
Notation mine := (mine ids ws).

(** ** Statements of the handlers on scheduled jobs *)

Definition job_spec {A} (m : GoSql.M Tables A) (Q : A → Prop) : Prop := ∀ db x db',
  tables_named (rows db) → tables_named (rows db') → m db = (x, db') → hidden (rows db') = hidden (rows db) ∧ ∀ a, x = inr a → Q a.

Lemma spec_reads {A} (m : GoSql.M Tables A) (Q : A → Prop) :
  reads m → (∀ db a db', tables_named (rows db) → m db = (inr a, db') → Q a) → job_spec m Q.
Proof. intros Hm HQ db x db' Hn _ E. split; [by rewrite (Hm _ _ _ E)|]. intros a ->. by eapply HQ. Qed.
Lemma spec_runs {A} (m : GoSql.M Tables A) (Q : A → Prop) :
  GoSql.runs (spares ids ws) m → (∀ db a db', tables_named (rows db') → m db = (inr a, db') → Q a) → job_spec m Q.
Proof. intros Hm HQ db x db' Hn Hn' E. split; [by eapply (runs_spared ids ws m db x)|]. intros a ->. by eapply HQ. Qed.

Definition shows_job (j : Job) : Prop := may_see ws (jb_WorkspaceID j) = true.
Lemma GetJob_named id db j db' : tables_named (rows db) → GetJob id db = (inr j, db') → jb_ID j = id ∧ jb_WorkspaceID j = owner ids id.
Proof.
  intros [Hn _] [E _]%query_inr. destruct (List.find _ _) as [j0|] eqn:Hf; [|done]. injection E as <-.
  apply find_some in Hf as [Hin%list_elem_of_In <-%String.eqb_eq]. split; [done|]. by eapply (proj1 (Forall_forall _ _) Hn).
Qed.
Lemma GetJob_shows id db j db' : mine id → tables_named (rows db) → GetJob id db = (inr j, db') → shows_job j.
Proof. intros Hm Hn E. apply (GetJob_named _ _ _ _ Hn) in E as [_ E]. unfold shows_job. by rewrite E. Qed.

Lemma scope_nonempty : (ws =s "") = false.
Proof. by apply String.eqb_neq. Qed.
Lemma reads_checked id w : reads (GetJobCheckWorkspace id w).
Proof. unfold GetJobCheckWorkspace. apply reads_bind; [apply reads_GetJob|]. intros j. repeat case_match; eauto with legator. Qed.
Lemma GetJobCheckWorkspace_spec id : job_spec (GetJobCheckWorkspace id ws) (λ j, mine id ∧ shows_job j).
Proof.
  apply spec_reads; [apply reads_checked|]. intros db j db' Hn E. apply bind_inr in E as (j0 & db1 & E1 & E). rewrite scope_nonempty in E. case_match eqn:Ec; [done|].
  injection E as <- _. apply (may_see_checked _ _ scope_nonempty) in Ec. pose proof (GetJob_named _ _ _ _ Hn E1) as [_ Ew]. split; [|done]. unfold mine. by rewrite <- Ew.
Qed.
Lemma ListJobsByWorkspace_spec : job_spec (JobStore.ListJobsByWorkspace ws) (Forall (λ j, jb_WorkspaceID j = ws)).
Proof.
  unfold JobStore.ListJobsByWorkspace. rewrite (scope_trimmed ws Hws), scope_nonempty. apply spec_reads; [apply reads_query|]. intros db l db' _ [[= <-] _]%query_inr.
  apply Forall_forall. intros j (j0 & -> & Hj)%list_elem_of_fmap. rewrite order_by_perm in Hj. by apply elem_filter_bool in Hj as [Hj%String.eqb_eq _].
Qed.
Lemma CreateJob_spec ParseDuration job : jb_WorkspaceID job = ws → job_spec (JobStore.CreateJob ParseDuration job) shows_job.
Proof.
  intros Hj db x db' Hn Hn' E. unfold JobStore.CreateJob in E. case_match; [by injection E as <- <-|].
  apply bind_cases in E as [(e & [=] & _)|(now & db1 & [= <- <-] & E)].
  apply bind_cases in E as [(e & E & ->)|(id & db2 & E2 & E)]; [by case_match|].
  assert (Hd : rows db2 = rows db) by (clear E; case_match; by injection E2 as _ <-). cbv zeta in E. rewrite <- Hd.
  set (row := job_row job id _ _) in *. assert (Hrow : ∀ t, hidden (set_jobs t (jobs t ++ [row])) = hidden t).
  { intros t. unfold JobApiSafety.hidden. f_equal. cbn. apply filter_app_out. cbn. by rewrite Hj, (scope_trimmed ws Hws), may_see_self. }
  apply bind_cases in E as [(e & (r0 & E%exec_rows & _)%wrap_cases & ->)|([] & db3 & (r0 & E3%exec_rows & _)%wrap_cases & [= <- <-])].
  - split; [|done]. destruct E as [->| ->]; [done|]. destruct (existsb _ _); [done|apply Hrow].
  - split; [destruct E3 as [->| ->]; [done|destruct (existsb _ _); [done|apply Hrow]]|]. intros a [= <-]. unfold shows_job. cbn. rewrite Hj. apply may_see_self.
Qed.
Lemma UpdateJob_spec ParseDuration job : mine (jb_ID job) → job_spec (UpdateJob ParseDuration job) shows_job.
Proof.
  intros Hm. apply spec_runs; [by apply UpdateJob_spares|]. intros db j db' Hn E. unfold UpdateJob in E. case_match; [done|]. case_match; [done|].
  apply bind_inr in E as (now & db1 & _ & E). apply bind_inr in E as (n & db2 & _ & E). case_match; [done|].
  rewrite (reads_GetJob _ _ _ _ E) in Hn. by eapply GetJob_shows.
Qed.
Lemma SetEnabled_spec id b : mine (TrimSpace id) → job_spec (SetEnabled id b) shows_job.
Proof.
  intros Hm. apply spec_runs; [by apply SetEnabled_spares|]. intros db j db' Hn E. unfold SetEnabled in E. cbv zeta in E. case_match; [done|].
  apply bind_inr in E as (now & db1 & _ & E). apply bind_inr in E as (n & db2 & _ & E). case_match; [done|].
  rewrite (reads_GetJob _ _ _ _ E) in Hn. by eapply GetJob_shows.
Qed.
Lemma DeleteJob_spec id : mine id → job_spec (DeleteJob id) (λ _, True).
Proof. intros Hm. apply spec_runs; [by apply DeleteJob_spares|done]. Qed.
Lemma ListRuns_spec q : q_WorkspaceID q = ws → job_spec (ListRuns q) (Forall (λ r, r_WorkspaceID r = ws)).
Proof.
  intros Hq. apply spec_reads; [apply reads_query|]. intros db l db' _ [[= <-] _]%query_inr. apply Forall_forall.
  intros r (r0 & -> & Hr)%list_elem_of_fmap. apply elem_of_take in Hr as (i & Hr%list_elem_of_lookup_2 & _). rewrite order_by_perm in Hr.
  apply elem_filter_bool in Hr as [Hm _]. unfold run_match in Hm. rewrite Hq, (scope_trimmed ws Hws), scope_nonempty in Hm. cbn [orb] in Hm.
  repeat apply andb_prop in Hm as [Hm _]. apply String.eqb_eq in Hm. cbn. by rewrite Hm, (scope_trimmed ws Hws).
Qed.
Lemma GetRun_spec id : job_spec (GetRun id) (λ _, True).
Proof. by apply spec_reads; [apply reads_GetRun|]. Qed.

(** ** Statements on async jobs *)

Definition async_spec {A} (m : AsyncStore.M A) (Q : A → Prop) : Prop := ∀ db x db',
  async_named (rows db) → async_named (rows db') → m db = (x, db') → hidden_async (rows db') = hidden_async (rows db) ∧ ∀ a, x = inr a → Q a.
Definition mine_async (id : string) : Prop := may_see ws (async_owner ids id) = true.
Definition shows_async (j : AsyncJob) : Prop := may_see ws (j_WorkspaceID j) = true.

Lemma async_reads {A} (m : AsyncStore.M A) (Q : A → Prop) :
  reads m → (∀ db a db', async_named (rows db) → m db = (inr a, db') → Q a) → async_spec m Q.
Proof. intros Hm HQ db x db' Hn _ E. split; [by rewrite (Hm _ _ _ E)|]. intros a ->. by eapply HQ. Qed.
Lemma GetAsyncJob_named id db j db' :
  async_named (rows db) → GetAsyncJob id db = (inr j, db') → j_WorkspaceID j = async_owner ids (TrimSpace id).
Proof.
  unfold GetAsyncJob. cbv zeta. case_match; [done|]. intros Hn E. apply bind_inr in E as (r & db1 & [E _]%query_inr & [= <- _]).
  unfold query_row in E. destruct (List.find _ _) as [r0|] eqn:Hf; [|done]. injection E as ->.
  apply find_some in Hf as [Hin%list_elem_of_In <-%String.eqb_eq]. by apply (proj1 (Forall_forall _ _) Hn).
Qed.
Lemma GetAsyncJobCheckWorkspace_spec id : async_spec (GetAsyncJobCheckWorkspace id ws) (λ j, mine_async (TrimSpace id) ∧ shows_async j).
Proof.
  apply async_reads.
  - unfold GetAsyncJobCheckWorkspace. apply reads_bind; [apply reads_GetAsyncJob|]. intros j. repeat case_match; eauto with legator.
  - intros db j db' Hn E. apply bind_inr in E as (j0 & db1 & E1 & E). rewrite scope_nonempty in E. case_match eqn:Ec; [done|]. injection E as <- _.
    apply (may_see_checked _ _ scope_nonempty) in Ec. pose proof (GetAsyncJob_named _ _ _ _ Hn E1) as Ew. split; [|done]. unfold mine_async. by rewrite <- Ew.
Qed.
Lemma ListAsyncJobsByWorkspace_spec limit : async_spec (ListAsyncJobsByWorkspace ws limit) (Forall (λ j, j_WorkspaceID j = ws)).
Proof.
  unfold ListAsyncJobsByWorkspace. cbv zeta. rewrite Hws, scope_nonempty. apply async_reads; [apply reads_query|]. intros db l db' _ [[= <-] _]%query_inr.
  apply Forall_forall. intros j (j0 & -> & Hj)%list_elem_of_fmap. apply elem_of_take in Hj as (i & Hj%list_elem_of_lookup_2 & _). rewrite order_by_perm in Hj.
  apply elem_filter_bool in Hj as [Hj%String.eqb_eq _]. cbn. by rewrite Hj.
Qed.

Lemma async_after {A B} (m : AsyncStore.M A) (f : A → AsyncStore.M B) (Q : B → Prop) : reads m → (∀ a, async_spec (f a) Q) → async_spec (m ≫= f) Q.
Proof.
  intros Hm Hf db x db' Hn Hn' E. apply bind_cases in E as [(e & E & ->)|(a & db1 & E1 & E)]; [by rewrite (Hm _ _ _ E)|].
  rewrite <- (Hm _ _ _ E1) in Hn |- *. by apply (Hf a db1 x db').
Qed.
Lemma async_fail {A} e (Q : A → Prop) : async_spec (fail e) Q.
Proof. by intros db x db' _ _ [= <- <-]. Qed.
Lemma async_then_get {A} (m : AsyncStore.M A) (id : string) :
  (∀ db x db', async_named (rows db) → m db = (x, db') → hidden_async (rows db') = hidden_async (rows db)) →
  (∀ db a db', async_named (rows db') → m db = (inr a, db') → mine_async (TrimSpace id)) → async_spec (_ ← m; GetAsyncJob id) shows_async.
Proof.
  intros Hm Hid db x db' Hn Hn' E. apply bind_cases in E as [(e & E & ->)|(a & db1 & E1 & E)]; [split; [by eapply Hm|done]|].
  pose proof (reads_GetAsyncJob _ _ _ _ E) as Er. rewrite Er. split; [by eapply Hm|]. intros j ->. rewrite Er in Hn'.
  unfold shows_async. rewrite (GetAsyncJob_named _ _ _ _ Hn' E). by eapply Hid.
Qed.

Lemma new_row_shown job id rid st created now : j_WorkspaceID job = ws → async_workspace (insert_row job id rid st created now) = ws.
Proof. intros Hj. unfold async_workspace. cbn. by rewrite Hj, !Hws. Qed.
Lemma CreateAsyncJob_spec job : j_WorkspaceID job = ws → async_spec (CreateAsyncJob job) shows_async.
Proof.
  intros Hj. unfold CreateAsyncJob. case_match; [apply async_fail|]. case_match; [apply async_fail|].
  apply async_after; [case_match; eauto with legator|]. intros rid. apply async_after; [case_match; eauto with legator|]. intros id. cbv zeta.
  case_match; [apply async_fail|]. apply async_after; [eauto with legator|]. intros now. set (row := insert_row _ _ _ _ _ _).
  assert (Hrow : async_workspace row = ws) by (by apply new_row_shown). apply async_then_get.
  - intros db x db' _ (r0 & [->| ->]%exec_rows & _)%wrap_cases; [done|]. unfold sql_insert. do 2 (destruct (existsb _ _); [done|]).
    apply filter_app_out. by rewrite Hrow, may_see_self.
  - intros db [] db' Hn E%wrap_inr%exec_inr. unfold sql_insert in E. do 2 (destruct (existsb _ _); [done|]). injection E as E. rewrite <- E in Hn.
    apply Forall_app in Hn as [_ [Ho Ht]%Forall_inv]. rewrite Hrow in Ho. change (TrimSpace id = id) in Ht. change (ws = async_owner ids id) in Ho. unfold mine_async. rewrite Ht, <- Ho. apply may_see_self.
Qed.
Lemma CreateJob_async_spec m job : j_WorkspaceID job = ws → async_spec (AsyncManager.CreateJob m job) shows_async.
Proof.
  intros Hj. unfold AsyncManager.CreateJob. cbv zeta. assert (Hc : async_spec (CreateAsyncJob (set_state job AsyncJobStateQueued)) shows_async) by (by apply CreateAsyncJob_spec).
  case_match; [|done]. apply async_after; [|intros n; case_match; [apply async_fail|done]]. unfold CountAsyncJobsByState. cbv zeta. case_match; eauto with legator.
Qed.

Lemma apply_set_keeps cs j : j_ID (apply_set cs j) = j_ID j ∧ j_WorkspaceID (apply_set cs j) = j_WorkspaceID j.
Proof. unfold apply_set. revert j. induction cs as [|c cs IH]; intros j; [done|]. cbn. destruct (IH (apply_clause j c)) as [-> ->]. by destruct c. Qed.
Lemma update_async_hidden p cs l :
  async_named l → (∀ j, p j = true → mine_async (j_ID j)) → hidden_async (update_where p (apply_set cs) l) = hidden_async l.
Proof.
  intros Hn Hp. apply filter_update_where. intros j Hin Hm%Hp. destruct (proj1 (Forall_forall _ _) Hn j Hin) as [E _]. unfold mine_async in Hm.
  unfold async_workspace in *. cbn in *. destruct (apply_set_keeps cs j) as [_ ->]. by rewrite E, Hm.
Qed.
Lemma CancelJob_spec id reason : mine_async (TrimSpace id) → async_spec (AsyncManager.CancelJob id reason) shows_async.
Proof.
  intros Hm. unfold AsyncManager.CancelJob, CancelAsyncJob, TransitionAsyncJob. cbv zeta. case_match; [apply async_fail|]. case_match; [apply async_fail|].
  apply async_after; [eauto with legator|]. intros now. apply async_after; [apply reads_query|]. intros _. apply async_then_get; [|by intros; rewrite TrimSpace_idem].
  intros db x db' Hn [(e & _ & ->)|(a & _ & E)]%transaction_cases; [done|].
  apply bind_inr in E as (r & db1 & [_ E1]%query_inr & E). rewrite <- E1 in Hn |- *. cbv zeta in E. case_match; [by apply query_inr in E as [_ ->]|].
  case_match; [done|]. apply bind_inr in E as (n & db2 & [= _ E2]%exec_inr & E).
  assert (E3 : rows db' = rows db2) by (case_match; [by apply bind_inr in E as (? & ? & _ & ?)|by apply query_inr in E as [_ ->]]).
  rewrite E3, <- E2. apply update_async_hidden; [done|]. intros j [->%String.eqb_eq _]%andb_prop. done.
Qed.

(** ** Programs *)

Definition named (p : Plane) : Prop := tables_named (rows (store (pl_world p))) ∧ async_named (pl_async p).
Definition untouched (p p' : Plane) : Prop :=
  hidden (rows (store (pl_world p'))) = hidden (rows (store (pl_world p))) ∧ hidden_async (pl_async p') = hidden_async (pl_async p).

Fixpoint safe {A} (p : api A) (Q : A → Prop) : Prop :=
  match p with
  | ARet a => Q a
  | ASched c k => call_ok ids ws c ∧ ∀ x, says ids c x → safe (k x) Q
  | AJobs m k => ∃ P, job_spec m P ∧ (∀ a, P a → safe (k (inr a)) Q) ∧ ∀ e, safe (k (inl e)) Q
  | AAsync m k => ∃ P, async_spec m P ∧ (∀ a, P a → safe (k (inr a)) Q) ∧ ∀ e, safe (k (inl e)) Q
  | ACancel _ k => safe k Q
  end.
Lemma safe_bind {A B} (p : api A) (f : A → api B) Q : safe p (λ a, safe (f a) Q) → safe (p ≫= f) Q.
Proof.
  induction p as [a|c k IH|C m k IH|C m k IH|id k IH]; [done| | | |exact IH].
  - intros [Hc Hk]. split; [done|]. intros x Hx. by apply IH, Hk.
  - intros (P & Hm & Hk & He). exists P. split; [done|]. split; [intros a Ha; by apply IH, Hk|intros e; by apply IH, He].
  - intros (P & Hm & Hk & He). exists P. split; [done|]. split; [intros a Ha; by apply IH, Hk|intros e; by apply IH, He].
Qed.
Lemma safe_scheduler {A} (p : prog A) Q : confined ids ws p Q → safe (scheduler_call p) Q.
Proof. induction p as [a|c k IH]; [done|]. intros [Hc Hk]. split; [done|]. intros x Hx. by apply IH, Hk. Qed.

Section executions.
Context (json_Valid : string → bool) (json_Unmarshal : string → option value) (overflow : float64 → Z) (admissionRetryDelay : duration).
Notation effect := (effect json_Valid json_Unmarshal overflow admissionRetryDelay).
Notation execution := (execution json_Valid json_Unmarshal overflow admissionRetryDelay).

Lemma effect_store c w x w' : effect c w x w' → store w' = store w ∨ ∃ q, c = Store q.
Proof. destruct c; cbn [JobScheduler.effect]; intros E; try (right; by eexists); left; destruct_and?; subst; try done; [by case_match|unfold cancel_retry; cbv zeta; by repeat case_match]. Qed.
Lemma effect_spared c w x w' :
  call_ok ids ws c → tables_named (rows (store w)) → tables_named (rows (store w')) → effect c w x w' →
  hidden (rows (store w')) = hidden (rows (store w)) ∧ says ids c x.
Proof.
  intros Hc Hn Hn' E. destruct (effect_store _ _ _ _ E) as [Es|(q & ->)].
  - split; [by rewrite Es|]. destruct c as [q| | | | | | | | | | | | | | | | | | | | |]; try done. destruct E as (d & E & ->).
    exact (run_store_says ids json_Valid q (store w) x d Hn Hn' E).
  - destruct E as (d & E & ->). split; [exact (run_store_spared ids ws json_Valid q (store w) x d Hc E Hn)|exact (run_store_says ids json_Valid q (store w) x d Hn Hn' E)].
Qed.

Definition observed_named (tr : list (Plane * Plane)) : Prop := Forall (λ pp, named pp.1 ∧ named pp.2) tr.
Definition all_untouched (tr : list (Plane * Plane)) : Prop := Forall (λ pp, untouched pp.1 pp.2) tr.

Lemma safe_execution {A} others (p : api A) Q w a w' tr :
  safe p Q → execution others p w a w' tr → observed_named tr → Q a ∧ all_untouched tr.
Proof.
  revert w tr. induction p as [b|c k IH|C m k IH|C m k IH|id k IH]; intros w tr Hs E Hn.
  - destruct E as (-> & -> & ->). split; [done|constructor].
  - destruct Hs as [Hc Hk]. destruct E as (w1 & x & d & Eff & _ & tr' & -> & E). apply Forall_cons in Hn as [[[Hn1 Ha1] [Hn2 _]] Hn].
    destruct (effect_spared _ _ _ _ Hc Hn1 Hn2 Eff) as [Eh Hx]. destruct (IH x _ tr' (Hk x Hx) E Hn) as [HQ Ht]. split; [done|]. by constructor.
  - destruct Hs as (P & Hm & Hk & He). destruct E as (w1 & E). unfold run_jobs in E. destruct (m (store (pl_world w1))) as [x d] eqn:Em. destruct E as (_ & tr' & -> & E).
    apply Forall_cons in Hn as [[[Hn1 Ha1] [Hn2 _]] Hn]. destruct (Hm _ _ _ Hn1 Hn2 Em) as [Eh Hx].
    destruct (IH x _ tr' ltac:(destruct x; auto) E Hn) as [HQ Ht]. split; [done|]. by constructor.
  - destruct Hs as (P & Hm & Hk & He). destruct E as (w1 & E). unfold run_async in E. destruct (m _) as [x d] eqn:Em. destruct E as (_ & tr' & -> & E).
    apply Forall_cons in Hn as [[[Hn1 Ha1] [_ Ha2]] Hn]. destruct (Hm {| rows := pl_async w1; ticks := ticks (store (pl_world w1)) |} x d Ha1 Ha2 Em) as [Eh Hx].
    destruct (IH x _ tr' ltac:(destruct x; auto) E Hn) as [HQ Ht]. split; [done|]. by constructor.
  - destruct E as (w1 & _ & tr' & -> & E). apply Forall_cons in Hn as [_ Hn]. destruct (IH _ tr' Hs E Hn) as [HQ Ht]. split; [done|]. by constructor.
Qed.
End executions.

(** ** Handlers *)

Lemma safe_mono {A} (p : api A) (Q Q' : A → Prop) : (∀ a, Q a → Q' a) → safe p Q → safe p Q'.
Proof.
  intros HQ. induction p as [a|c k IH|C m k IH|C m k IH|id k IH]; [apply HQ| | | |exact IH].
  - intros [Hc Hk]. split; [done|]. intros x Hx. by apply IH, Hk.
  - intros (P & Hm & Hk & He). exists P. split; [done|]. split; [intros a Ha; by apply IH, Hk|intros e; by apply IH, He].
  - intros (P & Hm & Hk & He). exists P. split; [done|]. split; [intros a Ha; by apply IH, Hk|intros e; by apply IH, He].
Qed.
Lemma safe_store {B : Set} {A} (m : GoSql.M Tables B) (f : result B → api A) P Q :
  job_spec m P → (∀ a, P a → safe (f (inr a)) Q) → (∀ e, safe (f (inl e)) Q) → safe (on_store m ≫= f) Q.
Proof. intros Hm Hf He. exists P. auto. Qed.
Lemma safe_async {B : Set} {A} (m : AsyncStore.M B) (f : result B → api A) P Q :
  async_spec m P → (∀ a, P a → safe (f (inr a)) Q) → (∀ e, safe (f (inl e)) Q) → safe (on_async m ≫= f) Q.
Proof. intros Hm Hf He. exists P. auto. Qed.

(** What a reply may show to the workspace. *)
Definition shows (reply : job_reply) : Prop :=
  match reply with
  | JJob _ j => may_see ws (jb_WorkspaceID j) = true
  | JJobs l => Forall (λ j, jb_WorkspaceID j = ws) l
  | JAsync _ j => may_see ws (j_WorkspaceID j) = true
  | JAsyncs l => Forall (λ j, j_WorkspaceID j = ws) l
  | JRun _ run => may_see ws (owner ids (r_JobID run)) = true
  | JRuns _ l _ => Forall (λ r, r_WorkspaceID r = ws) l
  | JError _ _ _ | JNoContent | JDispatched _ | JCancelRequested _ _ | JRetryDispatched _ _ => True
  end.

Section handlers.
Context (ParseDuration : string → option duration) (cron_parse : string → result (time → time)) (parse_RFC3339 : string → option time)
  (json_Valid : string → bool) (json_Unmarshal : string → option value) (overflow : float64 → Z)
  (defaultRetryPolicy : RetryPolicy) (admissionRetryDelay : duration) (h : Handler) (r : job_request) (Hscope : jq_scope r = ws).

Lemma safe_err st code msg : safe (err st code msg) shows.
Proof. done. Qed.
Lemma safe_emit {A} e (k : unit → api A) Q : safe (k tt) Q → safe (emitLifecycleEvent h e ≫= k) Q.
Proof.
  intros Hk. apply safe_bind. unfold emitLifecycleEvent. case_match; [|done]. by apply safe_scheduler, confined_emit.
Qed.
Lemma safe_checked {A} absent (e : go_error) (k : A → api job_reply) : safe absent shows → safe (checked absent (inl e) k) shows.
Proof. intros Ha. cbn. by repeat case_match. Qed.
Lemma safe_with_job id k : (∀ j, mine id → shows_job j → safe (k j) shows) → safe (with_job r id k) shows.
Proof.
  intros Hk. unfold with_job. rewrite Hscope. eapply safe_store; [apply GetJobCheckWorkspace_spec|intros j [Hm Hj]; by apply Hk|intros e; by apply safe_checked].
Qed.
Lemma safe_with_async id k : (∀ j, mine_async (TrimSpace id) → shows_async j → safe (k j) shows) → safe (with_async_job r id k) shows.
Proof.
  intros Hk. unfold with_async_job. rewrite Hscope. eapply safe_async; [apply GetAsyncJobCheckWorkspace_spec|intros j [Hm Hj]; by apply Hk|intros e; by apply safe_checked].
Qed.
Lemma safe_validate {A} schedule (k : result bool → api A) Q : (∀ x, safe (k x) Q) → safe (validateSchedule ParseDuration cron_parse schedule ≫= k) Q.
Proof. intros Hk. apply safe_bind. do 2 (apply safe_bind, safe_scheduler, confined_do; [done|]; intros ? _). apply Hk. Qed.

Lemma list_jobs_safe : safe (HandleListJobs h r) shows.
Proof.
  unfold HandleListJobs. rewrite Hscope, scope_nonempty. case_match.
  - case_match; [|done]. case_match; [|done]. eapply safe_async; [apply ListAsyncJobsByWorkspace_spec|done|done].
  - eapply safe_store; [apply ListJobsByWorkspace_spec|done|done].
Qed.
Lemma create_job_safe : safe (HandleCreateJob ParseDuration cron_parse h r) shows.
Proof.
  unfold HandleCreateJob. case_match; [|done]. case_match.
  - unfold create_async. case_match; [|done]. eapply safe_async; [apply CreateJob_async_spec; cbn; by rewrite Hscope, (scope_trimmed ws Hws)|intros x Hx; by apply safe_emit|].
    intros e. by case_match.
  - apply safe_validate. intros [e|due]; [done|]. eapply safe_store; [apply CreateJob_spec; cbn; by rewrite Hscope, (scope_trimmed ws Hws)|intros x Hx; by apply safe_emit|done].
Qed.
Lemma async_or_absent id : safe (match h_asyncManager h with None => job_not_found | Some _ => with_async_job r id (λ j, mret (JAsync 200 j)) end) shows.
Proof. case_match; [|done]. by apply safe_with_async. Qed.
Lemma get_job_safe : safe (HandleGetJob h r) shows.
Proof.
  unfold HandleGetJob. cbv zeta. case_match; [done|]. case_match; [case_match; [by apply safe_with_async|done]|]. rewrite Hscope.
  eapply safe_store; [apply GetJobCheckWorkspace_spec|by intros j [_ Hj]|intros e; apply safe_checked, async_or_absent].
Qed.
Lemma update_job_safe : safe (HandleUpdateJob ParseDuration cron_parse h r) shows.
Proof.
  unfold HandleUpdateJob. cbv zeta. case_match; [done|]. apply safe_with_job. intros j Hm _. case_match; [|done].
  apply safe_validate. intros [e|due]; [done|]. eapply safe_store; [by apply UpdateJob_spec|intros x Hx; by apply safe_emit|intros e; by case_match].
Qed.
Lemma delete_job_safe : safe (HandleDeleteJob h r) shows.
Proof.
  unfold HandleDeleteJob. cbv zeta. case_match; [done|]. apply safe_with_job. intros j Hm _.
  eapply safe_store; [by apply DeleteJob_spec|intros x Hx; by apply safe_emit|intros e; by case_match].
Qed.
Lemma safe_trigger {A} id (k : option go_error → api A) Q :
  mine id → (∀ e, safe (k e) Q) → safe (trigger_now ParseDuration json_Valid json_Unmarshal overflow defaultRetryPolicy admissionRetryDelay id ≫= k) Q.
Proof.
  intros Hm Hk. apply safe_bind, safe_scheduler. eapply confined_mono; [|by apply TriggerNow_confined]. intros e _. apply Hk.
Qed.
Lemma run_job_safe : safe (HandleRunJob ParseDuration json_Valid json_Unmarshal overflow defaultRetryPolicy admissionRetryDelay h r) shows.
Proof.
  unfold HandleRunJob. cbv zeta. case_match; [done|]. apply safe_with_job. intros j Hm _. case_match; [done|]. apply safe_trigger; [done|]. by intros [e|].
Qed.
Lemma cancel_async_safe id : safe (handleCancelAsyncJob h r id) shows.
Proof.
  unfold handleCancelAsyncJob. case_match; [|done]. apply safe_with_async. intros j Hm _.
  eapply safe_async; [by apply CancelJob_spec| |intros e; by repeat case_match]. intros x Hx. apply safe_bind. case_match; by apply safe_emit.
Qed.
Lemma cancel_job_safe : safe (HandleCancelJob h r) shows.
Proof.
  unfold HandleCancelJob. cbv zeta. case_match; [done|]. case_match; [apply cancel_async_safe|]. rewrite Hscope. eapply safe_store; [apply GetJobCheckWorkspace_spec| |].
  - intros j [Hm _]. cbn [checked]. case_match; [done|]. apply safe_bind, safe_scheduler. eapply confined_mono; [|apply CancelJob_confined; by rewrite TrimSpace_idem]. by intros [sum [e|]] _.
  - intros e. apply safe_checked. case_match; [apply cancel_async_safe|done].
Qed.
Lemma with_run_safe k : (∀ j run, TrimSpace j = j → mine j → safe (k j run) shows) → safe (with_run h r k) shows.
Proof.
  intros Hk. unfold with_run. cbv zeta. case_match; [done|]. apply safe_with_job. intros j Hm _. case_match; [done|]. by apply Hk; [apply TrimSpace_idem|].
Qed.
Lemma cancel_run_safe : safe (HandleCancelRun h r) shows.
Proof.
  apply with_run_safe. intros j run Ht Hm. apply safe_bind, safe_scheduler. eapply confined_mono; [|apply CancelRun_confined; by rewrite Ht].
  intros [e|run'] Hr; [by repeat case_match|exact Hr].
Qed.
Lemma retry_run_safe : safe (HandleRetryRun ParseDuration json_Valid json_Unmarshal overflow defaultRetryPolicy admissionRetryDelay h r) shows.
Proof.
  apply with_run_safe. intros j run Ht Hm. eapply safe_store; [apply GetRun_spec| |intros e; by case_match]. intros x _.
  case_match; [done|]. case_match; [done|]. apply safe_trigger; [done|]. by intros [e|].
Qed.
Lemma list_runs_within id q j : safe (list_runs id (within q j ws)) shows.
Proof. eapply safe_store; [by apply ListRuns_spec|done|done]. Qed.
Lemma list_runs_safe : safe (HandleListRuns parse_RFC3339 r) shows.
Proof.
  unfold HandleListRuns. cbv zeta. case_match; [done|]. apply safe_with_job. intros j Hm _. case_match; [done|]. rewrite Hscope. apply list_runs_within.
Qed.
Lemma list_all_runs_safe : safe (HandleListAllRuns parse_RFC3339 r) shows.
Proof.
  unfold HandleListAllRuns. case_match; [done|]. cbv zeta. case_match; [apply safe_with_job; intros j Hm _|]; rewrite Hscope; apply list_runs_within.
Qed.
Lemma toggle_safe b : safe (handleToggleJob h r b) shows.
Proof.
  unfold handleToggleJob. cbv zeta. case_match; [done|]. apply safe_with_job. intros j Hm _.
  eapply safe_store; [apply SetEnabled_spec; by rewrite TrimSpace_idem|intros x Hx; by apply safe_emit|intros e; by case_match].
Qed.

Lemma serve_safe e :
  safe (serve ParseDuration cron_parse parse_RFC3339 json_Valid json_Unmarshal overflow defaultRetryPolicy admissionRetryDelay h e r) shows.
Proof.
  destruct e; [apply list_jobs_safe|apply list_all_runs_safe|apply create_job_safe|apply get_job_safe|apply update_job_safe|apply delete_job_safe|apply run_job_safe
    |apply cancel_job_safe|apply list_runs_safe|apply cancel_run_safe|apply retry_run_safe|apply toggle_safe|apply toggle_safe].
Qed.
End handlers.
End scope.

(** A request that is limited to one workspace stays in it.  Whatever endpoint it
    calls and whatever the scheduler and the other requests do between two of its
    calls, each of its own calls leaves every job, run and async job of another
    workspace exactly as it was, and its reply shows none of them: a job or a run that
    is shown belongs to the workspace or to none, a list has only what belongs to the
    workspace.  The ids are not used again for something else: the tables that the
    request finds and leaves agree with one assignment [ids] of jobs to workspaces and
    of runs to jobs. *)
Theorem job_api_isolation `{HostLaws} ParseDuration cron_parse parse_RFC3339 json_Valid json_Unmarshal overflow policy delay h
    ids ws configured ctx hr e r others w reply w' tr :
  withWorkspaceScope true ctx = inr (Some ws) → ws ≠ ""%string →
  execution json_Valid json_Unmarshal overflow delay others
    (job_route ParseDuration cron_parse parse_RFC3339 json_Valid json_Unmarshal overflow policy delay h configured true ctx hr e r) w reply w' tr →
  observed_named ids tr →
  match reply with inl _ => True | inr reply => shows ids ws reply end ∧ all_untouched ids ws tr.
Proof.
  intros Hscope Hne E Hn.
  assert (Hws : ToLower (TrimSpace ws) = ws).
  { revert Hscope. unfold withWorkspaceScope, workspaceScopeForRequest. cbn [negb]. destruct (WorkspaceIDFromContext ctx) as [|id]; [done|].
    destruct (_ =s "*"); intros [= <-]; [done|]. unfold Auth.normalizeWorkspaceID. by rewrite TrimSpace_ToLower, TrimSpace_idem, ToLower_idem. }
  eapply (safe_execution ids ws json_Valid json_Unmarshal overflow delay others _ (λ reply, match reply with inl _ => True | inr reply => shows ids ws reply end)); [|exact E|exact Hn].
  unfold job_route. rewrite Hscope. destruct (requirePermission _ _ _ _) as [[| |] ?]; cbn [fst]; try done.
  apply safe_bind. eapply safe_mono; [|apply serve_safe]; try done.
Qed.

(** ** The endpoints at work *)

Module ApiRun.
Import JobExamples.
#[export] Existing Instance CommandRun.desk.
Lemma desk_laws : HostLaws.
Proof.
  constructor; [exact (@order_by_perm ExampleHost.host ExampleHost.host_laws)|exact (@order_by_sorted ExampleHost.host ExampleHost.host_laws)].
Qed.
#[export] Existing Instance desk_laws.

Definition five_minutes (s : string) : option duration := if s =s "5m" then Some (300 * Second) else None.
Definition no_cron (s : string) : result (time → time) := inl (ErrorString "invalid schedule").
Definition no_time (s : string) : option time := None.
Definition no_json (s : string) : option value := None.
Definition zero (f : float64) : Z := 0.
Definition once : RetryPolicy := {| rp_MaxAttempts := 1; rp_InitialBackoff := ""; rp_Multiplier := S754_zero false; rp_MaxBackoff := "" |}.
Definition handler : Handler := {| h_scheduler := true; h_asyncManager := Some {| maxQueueDepth := 0 |}; h_asyncCanceler := false; h_observer := false |}.

Definition quiet_world (db : GoSql.DB Tables) : World :=
  {| sched := no_scheduler; store := db; sleeping := ∅; next_ctx := 0; sent := []; observed := []; pool := [] |}.
Definition plane_of (db : GoSql.DB Tables) : Plane := {| pl_world := quiet_world db; pl_async := []; pl_cancelled := [] |}.
Definition stored : GoSql.DB Tables := (JobStore.CreateJob five_minutes nightly no_tables).2.

(** What a program does when [env n] is what the others do before its call [n]; it
    asks the scheduler for the time only. *)
Fixpoint ran {A} (env : nat → Plane → Plane) (n : nat) (p : api A) (w : Plane) : option (A * Plane * list (Plane * Plane)) :=
  let w1 := env n w in
  match p with
  | ARet a => Some (a, w, [])
  | ASched c k =>
      match c as c return (answer c → api A) → option (A * Plane * list (Plane * Plane)) with
      | Now => λ k, '(a, w', tr) ← ran env (S n) (k 0) (with_world w1 (pl_world w1)); Some (a, w', (w1, with_world w1 (pl_world w1)) :: tr)
      | _ => λ _, None
      end k
  | AJobs m k => '(a, w', tr) ← ran env (S n) (k (run_jobs m w1).1) (run_jobs m w1).2; Some (a, w', (w1, (run_jobs m w1).2) :: tr)
  | AAsync m k => '(a, w', tr) ← ran env (S n) (k (run_async m w1).1) (run_async m w1).2; Some (a, w', (w1, (run_async m w1).2) :: tr)
  | ACancel id k => None
  end.
Definition allowed (env : nat → Plane → Plane) (w w' : Plane) : Prop := ∃ n, w' = env n w.

Lemma ran_execution json_Valid json_Unmarshal overflow delay {A} env n (p : api A) w a w' tr :
  ran env n p w = Some (a, w', tr) → execution json_Valid json_Unmarshal overflow delay (allowed env) p w a w' tr.
Proof.
  revert n w tr. induction p as [b|c k IH|C m k IH|C m k IH|id k IH]; intros n w tr; cbn [ran execution]; [by intros [= -> -> <-]| | | |done].
  - destruct c; try done. destruct (ran _ _ _ _) as [[[a1 w2] tr1]|] eqn:E; [|done]. intros [= -> -> <-].
    exists (env n w), 0, (pl_world (env n w)). split; [done|]. split; [by exists n|]. exists tr1. split; [done|]. by eapply IH.
  - destruct (ran _ _ _ _) as [[[a1 w2] tr1]|] eqn:E; [|done]. intros [= -> -> <-]. exists (env n w).
    destruct (run_jobs m (env n w)) as [x d]. split; [by exists n|]. exists tr1. split; [done|]. by eapply IH.
  - destruct (ran _ _ _ _) as [[[a1 w2] tr1]|] eqn:E; [|done]. intros [= -> -> <-]. exists (env n w).
    destruct (run_async m (env n w)) as [x d]. split; [by exists n|]. exists tr1. split; [done|]. by eapply IH.
Qed.
Definition undisturbed (n : nat) (w : Plane) : Plane := w.

Definition get_request (id : string) (scope : string) (body : option job_body) : job_request :=
  {| jq_id := id; jq_runId := ""; jq_query := λ _, ""%string; jq_scope := scope; jq_body := body |}.
Definition body (probe command schedule : string) : job_body :=
  {| jy_Name := "nightly"; jy_Command := command; jy_Schedule := schedule; jy_Target := {| Kind := TargetKindAll; Value := "" |}; jy_RetryPolicy := None;
     jy_Enabled := None; jy_ProbeID := probe; jy_RequestID := "r-1"; jy_Args := []; jy_Level := "" |}.
Definition answer_of {A} (x : option (A * Plane * list (Plane * Plane))) : option A := (λ y, y.1.1) <$> x.
Definition after {A} (x : option (A * Plane * list (Plane * Plane))) : Plane := default (plane_of no_tables) ((λ y, y.1.2) <$> x).
End ApiRun.
Import ApiRun.

(** ** Behaviours *)

(** Creating a job with a probe id needs the permission to change the fleet, not to
    run commands, and asks no policy: a command that the command endpoint denies is
    queued, and the next pass of the worker sends it to the probe. *)
Theorem created_job_skips_policy :
  let made := ran undisturbed 0 (HandleCreateJob five_minutes no_cron handler (get_request "" "" (Some (body "p-1" "frobnicate" "")))) (plane_of no_tables) in
  let w := after made in
  let due := (drainQueued CommandRun.worker {| rows := pl_async w; ticks := ticks (store (pl_world w)) |}).1 in
  endpoint_permission ECreateJob = PermFleetWrite ∧
  (match answer_of made with Some (JAsync 201 j) => j_State j = AsyncJobStateQueued ∧ j_Command j = "frobnicate"%string | _ => False end) ∧
  map (λ pc, (pc.1, cmd_Command pc.2)) (flat_map (λ job, omap starts (dispatchQueuedAsyncJob Requests.plain 0 job).2) due) = [("p-1", "frobnicate")]%string ∧
  d_Outcome (CommandHandler.decide Requests.plain "p-1" (job_command 0 (new_async_job (get_request "" "" None) (body "p-1" "frobnicate" ""))) CommandRun.web) =
    CommandPolicyDecisionDeny.
Proof. vm_compute. auto. Qed.

(** An update writes the status it read before: a run that ended in between is
    forgotten in the status of the job. *)
Definition run_ends (w : Plane) : Plane :=
  let db := store (pl_world w) in
  let db := (RecordRunStart JobExamples.all_json (JobExamples.run_of "r-1" "q-1") db).2 in
  let db := (CompleteRun "r-1" RunStatusSuccess (Some 0) "ok" (MarkRunRunning "r-1" (MarkRunPending "r-1" db).2).2).2 in
  with_world w (quiet_world db).
Definition before_update (n : nat) : Plane → Plane := if Nat.eqb n 3 then run_ends else λ w, w.
Definition status_of (w : Plane) : list string := map jb_LastStatus (jobs (rows (store (pl_world w)))).
Theorem update_loses_status :
  let made := ran before_update 0 (HandleUpdateJob five_minutes no_cron handler (get_request "job-1" "ws" (Some (body "" "uptime" "5m")))) (plane_of stored) in
  (match answer_of made with Some (JJob 200 _) => True | _ => False end) ∧
  status_of (run_ends (plane_of stored)) = ["success"%string] ∧ status_of (after made) = [""%string].
Proof. vm_compute. auto. Qed.

(** ** Witness *)

Lemma job_api_isolation_witness :
  let ctx := AuthExamples.key_with [PermFleetRead; "workspace:ws"%string] in
  let route := job_route five_minutes no_cron no_time JobExamples.all_json no_json zero once 0 handler true true ctx
    {| rq_Method := "GET"; rq_Path := "/api/v1/jobs/job-1"; rq_Authorization := ""; rq_Cookie := None |} EGetJob (get_request "job-1" "" None) in
  let ids := {| owner := λ _, "ws"%string; run_job := λ _, ""%string; async_owner := λ _, ""%string |} in
  ∃ j w' tr, ran undisturbed 0 route (plane_of stored) = Some (inr (JJob 200 j), w', tr) ∧ may_see "ws" (jb_WorkspaceID j) = true.
Proof.
  intros ctx route ids. destruct (ran undisturbed 0 route (plane_of stored)) as [[[reply w'] tr]|] eqn:E; [|vm_compute in E; discriminate E].
  assert (Hn : observed_named ids tr).
  { assert (Htr : tr = default [] ((λ y, y.2) <$> ran undisturbed 0 route (plane_of stored))) by (by rewrite E). rewrite Htr. vm_compute.
    repeat constructor. }
  destruct (job_api_isolation five_minutes no_cron no_time JobExamples.all_json no_json zero once 0 handler ids "ws" true ctx
    {| rq_Method := "GET"; rq_Path := "/api/v1/jobs/job-1"; rq_Authorization := ""; rq_Cookie := None |} EGetJob (get_request "job-1" "" None)
    (allowed undisturbed) (plane_of stored) reply w' tr eq_refl ltac:(discriminate) (ran_execution _ _ _ _ _ _ _ _ _ _ _ E) Hn) as [Hs _].
  assert (Hr : answer_of (ran undisturbed 0 route (plane_of stored)) = Some reply) by (by rewrite E).
  destruct reply as [|[| status j| | | | | | | | |]]; try (vm_compute in Hr; discriminate Hr). exists j, w', tr.
  split; [|exact Hs]. assert (status = 200) as ->; [|reflexivity]. vm_compute in Hr. congruence.
Defined.
